(* ===== verification/_CoqProject ===== *)
-Q . S2P
Prelude.v
DfsPath.v
Timer.v
KMemory.v
KString.v
Heap.v
HeapProps.v
HeapUtil.v
Slab.v
SlabPages.v
SlabInv.v
SlabZones.v
SlabProps.v
SlabClient.v
KObject.v
Kernel.v
KernelInv.v
ThreadOps.v
Tick.v
UserTimer.v
IdleClean.v
ThreadProps.v
Startup.v
Init.v
Ipc.v
Links.v
RtList.v
Semaphore.v
Mutex.v
Event.v
Mailbox.v
MsgQueue.v
MemPool.v
Errno.v
MemHeap.v
MemHeapProps.v
NbIot.v
Mmio.v
Interrupt.v
Gpio.v
Device.v
Dfs.v
DfsProps.v
DfsSafe.v
DfsDrivers.v
DfsCalls.v
RamFs.v
RamFsProps.v
RamFsStore.v
RingBuffer.v
Completion.v
DataQueue.v
Pipe.v
IpcSystem.v
UartDriver.v
Board.v
SerialApp.v
FinshVm.v
FinshExec.v
FinshCompiler.v
FinshProps.v
FinshToken.v
FinshHeap.v
FinshParser.v
FinshSymbols.v
FinshLex.v
FinshSyntax.v
FinshLine.v
Msh.v
Shell.v
ShellProps.v
