(* ===== verification/Prelude.v ===== *)
(** * A verification library for the NB-IoT terminal on RT-Thread 2.1

    The repository is RT-Thread 2.1 ([src/rtt2.1]) for the Loongson 1C board
    with an application that drives an NB-IoT modem.  This library models the
    kernel ([src/rtt2.1/src]), the expression shell ([components/finsh]), the
    interrupt controller ([libcpu/mips/loongson_1c]), drivers of the board
    ([bsp/smartloong/drivers]) and the application, as configured by
    [bsp/smartloong/rtconfig.h]: 32 priorities, 100 ticks a second, [RT_DEBUG]
    on, no soft timers, no modules, the small-memory heap.

    ** Parts of the program and where they are

    - [Prelude]: outcomes ([res]: a value, or why the code stops; [Blocks] is a call
      that waits for ever, [External] a driver that did not return), machine
      words, tactics.
    - [Timer]: [timer.c].  The hard-timer list in a state of its own; callbacks
      are an argument.  Sorted insertion, expiry across the tick overflow, what
      a callback may do.
    - [KMemory], [KString]: [kservice.c].  Byte-addressed memory, the optimised
      memory functions against their byte loops; strings; [rt_vsnprintf] with
      its bounds and a cursor of 32 bits that wraps ([cursor_wraps]),
      [print_number] and [skip_atoi] as inverses.
    - [Heap], [HeapProps]: [mem.c].  Headers by offset; the abstract heap is the
      list of blocks in address order.  [rt_malloc], [rt_free], [rt_realloc]
      preserve the invariant, and any client sequence is safe.
    - [HeapUtil]: [rt_strdup] and the aligned allocation of [kservice.c] on this
      heap; [Errno]: its error numbers.
    - [Slab], [SlabPages], [SlabInv], [SlabZones], [SlabProps], [SlabClient]:
      [slab.c], the heap of the option [RT_USING_SLAB].  Runs of free pages,
      zones of equal chunks; every address has an owner, which ties the list of runs,
      the page descriptors and the zones together.  The allocator simulates an
      ideal heap whose blocks are lists of bytes ([slab_client_safe]).  Its semaphore has
      16 bits and gains one at a failed small request, so the theorem counts failures;
      [malloc_failures_block] is what 65535 of them do.
    - [KObject], [Kernel], [KernelInv], [ThreadOps], [Tick], [UserTimer], [IdleClean], [ThreadProps]:
      [object.c], [scheduler.c], [thread.c], [clock.c], [irq.c], [idle.c].  One
      state [kernel] of threads, queues, timers and the ready bitmap; the
      invariant [kinv]; each operation is one definition that preserves it.  A
      queue is a list of thread ids.  Timeout functions of programs are an argument;
      what they owe the kernel inside a tick is [benign].
    - [Startup], [Init]: [applications/startup.c], [rt_application_init],
      [rt_thread_idle_init]; [components.c].  From the boot state to the first
      thread, whatever the heap gives ([rtthread_startup_runs]); the tables of
      initialisation functions.
    - [Ipc], [Semaphore], [Mutex], [Event], [Mailbox], [MsgQueue]: [ipc.c].  A
      blocking call is cut where [rt_schedule] may switch away: the part before
      returns [Blocked], the part after is a definition of its own run when the
      thread continues, so interleavings are sequences of these steps.
      [ipc_protocol] is the interface every object promises.
    - [Links], [RtList]: [include/rtservice.h].  The intrusive lists as nodes in memory;
      every operation on them, and the priority loop of [rt_ipc_list_suspend],
      does to the memory what the model does to its queues
      ([list_operations_refine]).
    - [MemPool]: [mempool.c].  The blocks of a pool as words of memory: the
      chain of free blocks, the owner of a block in use, waiting threads.
    - [MemHeap], [MemHeapProps]: [memheap.c].  Blocks in two circular lists, by
      address and free, over [Links] (lists as cycles of two functions, which
      [RtList] uses as well); allocation, release and resizing on the list of blocks,
      and the same client as for the system heap.
    - [RingBuffer], [Completion], [DataQueue], [Pipe]:
      [components/drivers/src/ringbuffer.c], [completion.c], [dataqueue.c],
      [pipe.c], an option of the driver framework.  A ring of bytes with mirror
      bits refines a bounded queue, but for the [rt_ringbuffer_put_force] calls that lose
      its bytes; the others wait as the kernel's objects do and
      keep the same protocol.
    - [DfsPath], [Dfs], [DfsProps], [DfsSafe], [DfsDrivers], [DfsCalls]: [components/dfs/src], the
      device file system (an option).  [dfs_normalize_path] in its buffer against the
      list of the names of a path; the tables of descriptors and mounts as lists, the
      driver of a file system as a record of functions; the POSIX calls.  Which
      descriptors are open is the abstract state of any sequence of calls
      ([dfs_calls_run]), whatever the drivers do: a stop inside a driver is marked
      [External] ([DfsDrivers]), and the framework has none of its own.
    - [RamFs], [RamFsProps], [RamFsStore]: [components/dfs/filesystems/ramfs], as such a
      driver, under the POSIX calls: a file is its bytes and a position
      ([ramfs_file_runs]), and what is written is read back
      ([ramfs_written_is_read]).
    - [IpcSystem]: threads, clock and all nine kinds of objects in one step
      relation; the invariant of every reachable state.
    - [NbIot]: [bsp/smartloong/applications/application.c].  CRC, hexadecimal
      decoding, answer matching, the AT state machine over the interface [Uart]
      of the serial device.
    - [Mmio], [Interrupt], [Gpio]: registers as an interface (a read may change
      the hardware; [Storage] is what registers that only keep values promise);
      [libcpu/mips/loongson_1c/interrupt.c]; [drivers/gpio.c], [pwm.c] and
      [padconfig.c].
    - [Device]: [device.c], and the look-up by name of [object.c].  A driver is a
      record of functions over a state of its own.
    - [UartDriver], [SerialApp]: [drivers/uart_com.c] and [uart.c] as such a
      driver; then the application of [NbIot] on this driver, through the
      dispatcher and the framework, simulated by a queue.
    - [Board]: [drivers/board.c], the console's port of [uart.c], the pins and the
      pulse generators as drivers of the framework, the console of [kservice.c].  From
      the reset to a board whose devices are found by name and whose [rt_kprintf] is
      sent by [uart2] ([board_boots_and_prints]); [Transmitter] is what the port
      promises.
    - [FinshVm], [FinshExec], [FinshCompiler], [FinshProps]:
      [components/finsh/finsh_vm.c], [finsh_ops.c], [finsh_compiler.c].  The
      C-expression shell: the stack machine with one definition per operation,
      the type check and the code generation on the syntax tree, and the theorem
      that compiled lines compute what a reference semantics of expressions says.
      The functions a line calls are the parameter [call].
    - [FinshToken], [FinshHeap], [FinshParser]: [finsh_token.c], [finsh_var.c],
      [finsh_heap.c], [finsh_node.c], [finsh_parser.c], and [finsh_run_line] of
      [shell.c].  From the characters of a line to the syntax tree: tokens,
      variables and symbols, the heap for strings, the recursive descent.  A line that only the compiler
      rejects is answered by nothing ([Unreported]), as [shell.c] does.
    - [FinshSymbols]: registration of functions and variables at run time.
    - [FinshLex], [FinshSyntax], [FinshLine]: the tokenizer gives back the
      tokens of a text with their data, the parser gives a line of expressions its
      tree (an assignment may have more on its left than the documented grammar
      allows, [sum_on_the_left]), and the whole shell shows the value of the line
      ([finsh_run_line_correct]).
    - [Msh], [Shell], [ShellProps]: [msh.c], [shell.c], [list_prefix] of [cmd.c].
      Commands and their arguments, completion, the keys of the line editor and
      the history; the editor refines a line with a cursor that the terminal
      shows ([typed_line_runs]).

    ** What the theorems show

    Invariants: [IpcSystem.system_invariant], [ThreadProps.thread_layer_invariant],
    [HeapProps.heap_client_safe], [MemHeapProps.memheap_client_safe], [SlabClient.slab_client_safe],
    [Device.device_protocol], [DfsCalls.dfs_calls_run].  Functional behaviour of each operation on every
    branch: the [_spec] theorems.  Order of delivery whatever the interleaving:
    [DataQueue.rt_data_queue_fifo], [Pipe.rt_pipe_delivers].  Time: [rt_thread_sleep_wakes],
    [rt_timer_check_fires_expired], [rt_sem_take_times_out]; the byte code of the shell
    ends or goes wrong within 128 operations ([finsh_vm_run_terminates]).  Refinement:
    [RtList.list_operations_refine], [RingBuffer.rt_ringbuffer_refines_fifo],
    [rt_mq_phases_refine_queue] (the linked message queue is a bounded FIFO with
    urgent messages whatever the interleaving), [RamFsStore.ramfs_file_runs], [SerialApp.application_over_driver]
    (the interface [Uart] that [NbIot] is proved against is what the driver
    implements, but for the ring that empties itself at 64 bytes).  Equivalence with plain reference
    definitions: memory functions, CRC, paths, the shell from the text of a line to its
    value ([FinshLine.finsh_run_line_correct]).  Round trips: number printing, hexadecimal
    text, the tokens of a shell line, the files of the RAM file system.  Some theorems state where the code falls short of its purpose; they
    are named in the findings of the manifest.

    ** Bounds and fuel

    C integers are Z with their wrap-around written out ([u8], [u16], [u32],
    [s32]).  A loop over a list is structural or takes as fuel the size of what
    it walks (number of mapped bytes, of headers, of timers, of
    bytes of the text segment), and a theorem shows
    that this is enough: running out is the outcome [Stop OutOfFuel], which the
    specifications exclude, or which they prove where the code loops for ever.
    The fuel of the parser bounds the depth of its calls and the turns of its
    loops; the theorems about it give a fuel from which on the result is the same.

    ** Not modelled

    Context switching and interrupt entry (assembly); where an allocation of the file
    system fails (the oracles [heap_room] and [pool_room] say so, the heaps
    themselves are other files); [dfs_lock] as more than one step per call; what the hardware does
    behind its registers, but for the port of [UartDriver.line] and what [Transmitter] says; the drivers of the
    display, the network, the touch panel and the clock; hooks, and the messages that drivers and
    components print; soft timers
    and modules, which this configuration does not compile; vendored code (lwIP,
    FatFs, uffs, jffs2, CMSIS, ...) and the other optional
    components.  [drivers/nb-iot.c] is not part of the build and does not
    compile. *)
From Stdlib Require Export ZArith Lia Sorting.Sorted.
From stdpp Require Export sorting gmap.

(** ** Outcomes of kernel code

    The kernel is built with [RT_DEBUG], so [RT_ASSERT] is live: a failing
    assertion reports and then spins for ever ([rt_assert_handler]).  The other
    constructors name behaviours that C leaves undefined and that the model
    refuses to give a meaning to. *)
Inductive stop : Type :=
  | AssertFail        (** [RT_ASSERT] failed: the handler never returns *)
  | OutOfBounds       (** array index outside the array *)
  | NullDeref         (** a null or dangling object pointer is followed *)
  | ListCorrupt       (** an intrusive list node is used against its protocol *)
  | SignedOverflow    (** arithmetic on a signed type left its range *)
  | BadArith          (** division by zero, or a shift by an amount out of range *)
  | Misaligned        (** a half or whole word is accessed at an unaligned address *)
  | StackOverflow     (** [_rt_scheduler_stack_check] found an overflow *)
  | Blocks            (** the caller waits for ever for a token nobody holds *)
  | External          (** code that a component calls, a driver, did not return *)
  | OutOfFuel.        (** a loop was cut off by its fuel; never a C behaviour *)

Inductive res (A : Type) : Type :=
  | Ok (a : A)
  | Stop (w : stop).
Arguments Ok {A} a.
Arguments Stop {A} w.

#[global] Instance res_ret : MRet res := λ A a, Ok a.
#[global] Instance res_bind : MBind res := λ A B f m,
  match m with Ok a => f a | Stop w => Stop w end.
#[global] Instance res_fmap : FMap res := λ A B f m,
  match m with Ok a => Ok (f a) | Stop w => Stop w end.

(** [RT_ASSERT(b)] and its relatives. *)
Definition require (w : stop) (b : bool) : res unit := if b then Ok tt else Stop w.
Definition rt_assert (b : bool) : res unit := require AssertFail b.

Definition of_option {A} (w : stop) (o : option A) : res A :=
  match o with Some a => Ok a | None => Stop w end.

Definition is_ok {A} (m : res A) : bool := match m with Ok _ => true | Stop _ => false end.

Section res_lemmas.
Context {A B : Type}.
Implicit Types (m : res A) (f : A → res B).

Lemma bind_ok f a : (Ok a ≫= f) = f a.
Proof. reflexivity. Qed.

Lemma bind_ok_inv f m b : (m ≫= f) = Ok b → ∃ a, m = Ok a ∧ f a = Ok b.
Proof. destruct m; [eauto | discriminate]. Qed.

Lemma of_option_ok w (o : option A) a : of_option w o = Ok a ↔ o = Some a.
Proof. destruct o; simpl; split; congruence. Qed.
End res_lemmas.

Lemma require_ok w b u : require w b = Ok u ↔ b = true.
Proof. destruct b, u; simpl; split; congruence. Qed.

(** ** Machine integers *)
Declare Scope word_scope.
Delimit Scope word_scope with word.

Definition u8 (z : Z) : Z := (z `mod` 256)%Z.
Definition u16 (z : Z) : Z := (z `mod` 65536)%Z.
Definition u32 (z : Z) : Z := (z `mod` 4294967296)%Z.
(** Conversion to a signed type keeps the low bits (gcc's definition). *)
Definition s32 (z : Z) : Z :=
  let r := u32 z in if (r <? 2147483648)%Z then r else (r - 4294967296)%Z.
Definition s16 (z : Z) : Z :=
  let r := u16 z in if (r <? 32768)%Z then r else (r - 65536)%Z.
Definition s8 (z : Z) : Z :=
  let r := u8 z in if (r <? 128)%Z then r else (r - 256)%Z.

Notation "a +w b" := (u32 (a + b)) (at level 50, left associativity) : word_scope.
Notation "a -w b" := (u32 (a - b)) (at level 50, left associativity) : word_scope.
Notation "a *w b" := (u32 (a * b)) (at level 40, left associativity) : word_scope.

(** [lia] after turning [mod] and [/] into equations. *)
Ltac Zify.zify_post_hook ::= Z.div_mod_to_equations.
Ltac word_unfold := unfold s8, s16, s32 in *; unfold u8, u16, u32 in *.
Ltac case_bools :=
  repeat match goal with
    | |- context [Z.ltb ?a ?b] => destruct (Z.ltb_spec a b)
    | |- context [Z.leb ?a ?b] => destruct (Z.leb_spec a b)
    | |- context [Z.eqb ?a ?b] => destruct (Z.eqb_spec a b)
    | H : context [Z.ltb ?a ?b] |- _ => destruct (Z.ltb_spec a b)
    | H : context [Z.leb ?a ?b] |- _ => destruct (Z.leb_spec a b)
    | H : context [Z.eqb ?a ?b] |- _ => destruct (Z.eqb_spec a b)
    end.
Ltac word := word_unfold; cbv zeta in *; case_bools; try done; lia.

(** Clearing the low [k] bits of a 32-bit word. *)
Lemma land_high k x : (0 <= k <= 32)%Z → (0 <= x < 4294967296)%Z →
  Z.land x (4294967296 - 2 ^ k) = (x / 2 ^ k * 2 ^ k)%Z.
Proof.
  intros Hk Hx. replace (4294967296 - 2 ^ k)%Z with (Z.shiftl (Z.ones (32 - k)) k).
  2:{ rewrite Z.shiftl_mul_pow2, Z.ones_equiv, <- Z.sub_1_r, Z.mul_sub_distr_r, <- Z.pow_add_r by lia.
      replace (32 - k + k)%Z with 32%Z by lia. lia. }
  replace (x / 2 ^ k * 2 ^ k)%Z with (Z.shiftl (Z.shiftr x k) k)
    by (rewrite Z.shiftl_mul_pow2, Z.shiftr_div_pow2 by lia; done).
  apply Z.bits_inj'. intros n Hn. rewrite Z.land_spec, !Z.shiftl_spec by lia.
  destruct (Z.lt_ge_cases n k).
  - rewrite (Z.testbit_neg_r (Z.ones _)), (Z.testbit_neg_r (Z.shiftr x k)) by lia. by rewrite andb_false_r.
  - rewrite Z.shiftr_spec, Z.sub_add by lia. rewrite Z.testbit_ones by lia.
    rewrite (proj2 (Z.leb_le 0%Z (n - k)%Z)) by lia. simpl.
    destruct (Z.ltb_spec (n - k) (32 - k)); [by rewrite andb_true_r|].
    rewrite andb_false_r. destruct (Z.eq_dec x 0%Z) as [->|]; [by rewrite Z.testbit_0_l|].
    symmetry. apply Z.bits_above_log2; [lia|]. assert (Z.log2 x < 32)%Z by (apply Z.log2_lt_pow2; simpl; lia). lia.
Qed.

(** Take apart a run of a [res] computation that ended in [Ok]. *)
Ltac res_inv1 H :=
  let a := fresh "r" in let E := fresh "E" in
  apply bind_ok_inv in H; destruct H as (a & E & H).
Ltac res_inv H := repeat (res_inv1 H; simpl in H).

Create HintDb rtt.
