(* ===== verification/DfsPath.v ===== *)
(** * Paths of the device file system: [components/dfs/src/dfs.c]

    [dfs_normalize_path] works in place on the text it has allocated: a reading
    and a writing index in one buffer.  Its reference is the list of the names of
    a path with [.] dropped and [..] taking back the name before it. *)
From S2P Require Import Prelude.
Local Open Scope Z_scope.

Definition slash : Z := 47.
Definition dot : Z := 46.

(** ** The code *)

(** Reading and writing through a pointer into the buffer. *)
Definition rd (buf : list Z) (i : Z) : res Z :=
  if i <? 0 then Stop OutOfBounds else of_option OutOfBounds (buf !! Z.to_nat i).
Definition wr (buf : list Z) (i v : Z) : res (list Z) :=
  _ ← rd buf i; Ok (<[Z.to_nat i := v]> buf).

(** [while ('/' at src) src ++]: the index of the first other byte. *)
Fixpoint skip_slashes (fuel : nat) (buf : list Z) (src : Z) : res Z :=
  c ← rd buf src;
  if c =? slash then match fuel with O => Stop OutOfFuel | S fuel => skip_slashes fuel buf (src + 1) end
  else Ok src.

(** Copying up to the next ['/'] or the end: buffer, [src], [dst] and the byte
    that stopped it. *)
Fixpoint copy_name (fuel : nat) (buf : list Z) (src dst : Z) : res (list Z * Z * Z * Z) :=
  c ← rd buf src;
  if (c =? 0) || (c =? slash) then Ok (buf, src + 1, dst, c)
  else match fuel with
  | O => Stop OutOfFuel
  | S fuel => buf ← wr buf dst c; copy_name fuel buf (src + 1) (dst + 1)
  end.

(** [while (dst0 < dst && dst[-1] != '/') dst --]. *)
Fixpoint back_to_slash (fuel : nat) (buf : list Z) (dst : Z) : res Z :=
  if 0 <? dst then
    c ← rd buf (dst - 1);
    if c =? slash then Ok dst
    else match fuel with O => Stop OutOfFuel | S fuel => back_to_slash fuel buf (dst - 1) end
  else Ok dst.

(** What the tests on a leading ['.'] find. *)
Inductive dots :=
  | NotDots (src : Z)        (** on to the copying, from [src] *)
  | Skip (src : Z)           (** ["./"] *)
  | Up (src : Z).            (** [".."] *)

Definition look_at_dots (n : nat) (buf : list Z) (src : Z) : res dots :=
  c ← rd buf src;
  if c =? dot then
    c1 ← rd buf (src + 1);
    if c1 =? 0 then Ok (NotDots (src + 1))
    else if c1 =? slash then src ← skip_slashes n buf (src + 2); Ok (Skip src)
    else if c1 =? dot then
      c2 ← rd buf (src + 2);
      if c2 =? 0 then Ok (Up (src + 2))
      else if c2 =? slash then src ← skip_slashes n buf (src + 3); Ok (Up src)
      else Ok (NotDots src)
    else Ok (NotDots src)
  else Ok (NotDots src).

(** The [while (1)] loop: buffer and [dst] after it, [None] for the
    [return RT_NULL].  [n]: the length of the buffer. *)
Fixpoint normalize_loop (fuel n : nat) (buf : list Z) (src dst : Z) : res (option (list Z * Z)) :=
  match fuel with
  | O => Stop OutOfFuel
  | S fuel =>
      d ← look_at_dots n buf src;
      match d with
      | Skip src => normalize_loop fuel n buf src dst
      | Up src =>
          let dst := dst - 1 in
          if dst <? 0 then Ok None
          else dst ← back_to_slash n buf dst; normalize_loop fuel n buf src dst
      | NotDots src =>
          '(buf, src, dst, c) ← copy_name n buf src dst;
          if c =? slash then
            buf ← wr buf dst slash;
            src ← skip_slashes n buf src;
            normalize_loop fuel n buf src (dst + 1)
          else Ok (Some (buf, dst))
      end
  end.

(** The C string at the start of a buffer. *)
Fixpoint text_of (buf : list Z) : list Z :=
  match buf with
  | [] => []
  | c :: buf => if c =? 0 then [] else c :: text_of buf
  end.

(** The end of the text: ['\0'], and a last ['/'] is taken off. *)
Definition finish_path (buf : list Z) (dst : Z) : res (list Z) :=
  buf ← wr buf dst 0;
  let dst := dst - 1 in
  if negb (dst =? 0) then
    c ← rd buf dst;
    if c =? slash then wr buf dst 0 else Ok buf
  else Ok buf.

Definition starts_with_slash (s : list Z) : bool := match s with c :: _ => c =? slash | [] => false end.

(** [wd]: the working directory, [None] when [DFS_USING_WORKDIR] is not
    configured; [room]: the allocation succeeds.  Names are without their final
    zero. *)
Definition dfs_normalize_path (room : bool) (wd directory : option (list Z)) (filename : list Z) : res (option (list Z)) :=
  let directory := match directory with None => wd | _ => directory end in
  let joined :=
    if starts_with_slash filename then Some filename
    else match directory with None => None | Some d => Some (d ++ slash :: filename) end in
  match joined with
  | None => Ok None
  | Some full =>
      if negb room then Ok None
      else
        let buf := full ++ [0] in
        r ← normalize_loop (S (length buf)) (length buf) buf 0 0;
        match r with
        | None => Ok None
        | Some (buf, dst) => buf ← finish_path buf dst; Ok (Some (text_of buf))
        end
  end.

(** The pointer into [filename]: [None] for [RT_NULL], else the rest of the
    name. *)
Definition dfs_subdir (directory filename : list Z) : res (option (list Z)) :=
  if (length directory =? length filename)%nat then Ok None
  else
    let dir := length directory in
    c ← rd (filename ++ [0]) (Z.of_nat dir);
    let dir := if negb (c =? slash) && negb (dir =? 0)%nat then (dir - 1)%nat else dir in
    Ok (Some (drop dir filename)).

(** ** The reference *)

(** The names of a path. *)
Fixpoint names_aux (cur s : list Z) : list (list Z) :=
  match s with
  | [] => match cur with [] => [] | _ => [cur] end
  | c :: s =>
      if c =? slash then match cur with [] => names_aux [] s | _ => cur :: names_aux [] s end
      else names_aux (cur ++ [c]) s
  end.
Definition names : list Z → list (list Z) := names_aux [].

(** The names that are left; [None]: the path climbs above the root. *)
Fixpoint resolve (st : list (list Z)) (ns : list (list Z)) : option (list (list Z)) :=
  match ns with
  | [] => Some (reverse st)
  | n :: ns =>
      if decide (n = [dot]) then resolve st ns
      else if decide (n = [dot; dot]) then match st with [] => None | _ :: st => resolve st ns end
      else resolve (n :: st) ns
  end.

(** [climb] also says what the code makes of a path that climbs above the root: the
    leading ['/'] is lost, and then a further [..] fails. *)
Fixpoint climb (lead : bool) (st : list (list Z)) (ns : list (list Z)) : option (bool * list (list Z)) :=
  match ns with
  | [] => Some (lead, st)
  | n :: ns =>
      if decide (n = [dot]) then climb lead st ns
      else if decide (n = [dot; dot]) then
        match st with
        | _ :: st => climb lead st ns
        | [] => if lead then climb false [] ns else None
        end
      else climb lead (n :: st) ns
  end.

(** The text of a stack of names, the last name first: each with its ['/']. *)
Fixpoint text (lead : bool) (st : list (list Z)) : list Z :=
  match st with
  | [] => if lead then [slash] else []
  | n :: st => text lead st ++ n ++ [slash]
  end.

Definition show_path (ns : list (list Z)) : list Z :=
  match ns with [] => [slash] | _ => concat ((λ n, slash :: n) <$> ns) end.

(** ** The buffer *)

(** [out] has been written, [r] is still to be read. *)
Record view (buf : list Z) (src dst : Z) (out r : list Z) : Prop := {
  vw_dst : dst = Z.of_nat (length out);
  vw_le : dst <= src;
  vw_out : take (length out) buf = out;
  vw_rest : drop (Z.to_nat src) buf = r ++ [0] }.

(** A byte of a name. *)
Definition clean (w : list Z) : Prop := Forall (λ c, c ≠ 0 ∧ c ≠ slash) w.
Definition nonzero (s : list Z) : Prop := Forall (λ c, c ≠ 0) s.

Lemma rd_view buf src dst out r k c : view buf src dst out r → (r ++ [0]) !! k = Some c → rd buf (src + Z.of_nat k) = Ok c.
Proof.
  intros [-> Hle _ Hr] Hk. unfold rd. rewrite (proj2 (Z.ltb_ge _ 0)) by lia.
  rewrite <- Hr, lookup_drop in Hk. replace (Z.to_nat (src + Z.of_nat k)) with (Z.to_nat src + k)%nat by lia. by rewrite Hk.
Qed.

Lemma rd_view0 buf src dst out r c : view buf src dst out r → (r ++ [0]) !! O = Some c → rd buf src = Ok c.
Proof. intros H Hc. rewrite <- (rd_view _ _ _ _ _ 0%nat c H Hc). f_equal. lia. Qed.

Lemma view_length buf src dst out r : view buf src dst out r → (length r < length buf)%nat.
Proof. intros [_ _ _ Hr]. apply (f_equal length) in Hr. rewrite length_drop, length_app in Hr. simpl in Hr. lia. Qed.

Lemma view_src buf src dst out r k : view buf src dst out r → (k <= length r)%nat →
  view buf (src + Z.of_nat k) dst out (drop k r).
Proof.
  intros [Hd Hle Ho Hr] Hk. split; [done|lia|done|].
  replace (Z.to_nat (src + Z.of_nat k)) with (Z.to_nat src + k)%nat by lia.
  rewrite <- drop_drop, Hr, drop_app_le by done. done.
Qed.

(** A byte is read and one is written. *)
Lemma wr_view buf src dst out c r v : view buf src dst out (c :: r) →
  ∃ buf', wr buf dst v = Ok buf' ∧ view buf' (src + 1) (dst + 1) (out ++ [v]) r ∧ length buf' = length buf.
Proof.
  intros H. pose proof (view_length _ _ _ _ _ H) as Hlen. destruct H as [-> Hle Ho Hr].
  assert (Hl : (length out < length buf)%nat).
  { apply (f_equal length) in Hr. rewrite length_drop in Hr. simpl in Hr. lia. }
  unfold wr, rd. rewrite (proj2 (Z.ltb_ge _ 0)) by lia. rewrite Nat2Z.id.
  destruct (lookup_lt_is_Some_2 buf (length out) Hl) as [x Hx]. rewrite Hx. simpl.
  eexists. split; [done|]. split; [|by rewrite length_insert]. split.
  - rewrite length_app. simpl. lia.
  - lia.
  - rewrite length_app. simpl. rewrite Nat.add_1_r. rewrite (take_S_r _ _ v) by (by apply list_lookup_insert_eq).
    by rewrite take_insert_ge, Ho.
  - rewrite drop_insert_lt by lia. replace (Z.to_nat (src + 1)) with (Z.to_nat src + 1)%nat by lia.
    by rewrite <- drop_drop, Hr.
Qed.

Fixpoint strip (r : list Z) : list Z :=
  match r with c :: r' => if c =? slash then strip r' else r | [] => [] end.

Lemma strip_length r : (length (strip r) <= length r)%nat.
Proof. induction r as [|c r IH]; [done|]. simpl. destruct (c =? slash); simpl; lia. Qed.

Lemma strip_nonzero r : nonzero r → nonzero (strip r).
Proof. induction 1 as [|c r ? ? IH]; [constructor|]. simpl. destruct (c =? slash); [done|by constructor]. Qed.

Lemma strip_head r : starts_with_slash (strip r) = false.
Proof. induction r as [|c r IH]; [done|]. simpl. destruct (c =? slash) eqn:E; [done|]. simpl. done. Qed.

Lemma skip_slashes_view r : ∀ n buf src dst out, view buf src dst out r → (length r <= n)%nat →
  ∃ src', skip_slashes n buf src = Ok src' ∧ view buf src' dst out (strip r).
Proof.
  induction r as [|c r IH]; intros n buf src dst out H Hn.
  - exists src. split; [|done]. assert (E : rd buf src = Ok 0) by by eapply rd_view0. destruct n; simpl; by rewrite E.
  - assert (E : rd buf src = Ok c) by by eapply rd_view0. simpl in Hn. destruct n as [|n]; [lia|]. simpl. rewrite E. simpl.
    destruct (Z.eqb_spec c slash) as [->|]; [|by exists src].
    apply IH; [|lia]. apply (view_src _ _ _ _ _ 1 H). simpl. lia.
Qed.

(** What stops the copying of a name. *)
Definition stops (r : list Z) : Prop := r = [] ∨ ∃ r', r = slash :: r'.

Lemma copy_name_view w : ∀ n buf src dst out r, clean w → stops r → view buf src dst out (w ++ r) → (length w <= n)%nat →
  ∃ buf', copy_name n buf src dst = Ok (buf', src + Z.of_nat (length w) + 1, dst + Z.of_nat (length w), hd 0 r) ∧
    view buf' (src + Z.of_nat (length w)) (dst + Z.of_nat (length w)) (out ++ w) r ∧ length buf' = length buf.
Proof.
  induction w as [|c w IH]; intros n buf src dst out r Hw Hr H Hn.
  - exists buf. simpl in *. rewrite !Z.add_0_r, app_nil_r. split; [|done].
    assert (E : rd buf src = Ok (hd 0 r)) by (eapply rd_view0; [done|]; by destruct Hr as [->|[r' ->]]).
    assert (Hs : (hd 0 r =? 0) || (hd 0 r =? slash) = true) by (by destruct Hr as [->|[r' ->]]).
    destruct n; simpl; rewrite E; simpl; by rewrite Hs.
  - apply Forall_cons in Hw as [[Hc1 Hc2] Hw]. simpl in Hn. destruct n as [|n]; [lia|].
    assert (E : rd buf src = Ok c) by by eapply rd_view0. simpl. rewrite E. simpl.
    rewrite (proj2 (Z.eqb_neq c 0)), (proj2 (Z.eqb_neq c slash)) by done. simpl.
    destruct (wr_view buf src dst out c (w ++ r) c H) as (b1 & -> & H1 & L1). simpl.
    destruct (IH n b1 (src + 1) (dst + 1) (out ++ [c]) r Hw Hr H1) as (b2 & E2 & H2 & L2); [lia|].
    exists b2. rewrite E2, <- app_assoc in *. cbn [length]. replace (src + Z.of_nat (S (length w))) with (src + 1 + Z.of_nat (length w)) by lia.
    replace (dst + Z.of_nat (S (length w))) with (dst + 1 + Z.of_nat (length w)) by lia.
    split_and!; [done|done|congruence].
Qed.

Lemma rd_out buf src dst out r i c : view buf src dst out r → out !! i = Some c → rd buf (Z.of_nat i) = Ok c.
Proof.
  intros [_ _ Ho _] Hc. unfold rd. rewrite (proj2 (Z.ltb_ge _ 0)) by lia. rewrite Nat2Z.id.
  rewrite <- Ho, lookup_take_Some in Hc. by rewrite (proj1 Hc).
Qed.

(** Less of what has been written. *)
Lemma view_cut buf src dst out w r : view buf src dst (out ++ w) r → view buf src (Z.of_nat (length out)) out r.
Proof.
  intros [-> Hle Ho Hr]. rewrite length_app in *. split; [done|lia| |done].
  apply (f_equal (take (length out))) in Ho. rewrite take_take, take_app_length in Ho. by rewrite Nat.min_l in Ho by lia.
Qed.

Lemma back_to_slash_view w : ∀ n buf src dst out r, view buf src dst (out ++ w) r → clean w →
  (out = [] ∨ last out = Some slash) → (length w <= n)%nat →
  back_to_slash n buf dst = Ok (Z.of_nat (length out)).
Proof.
  induction w as [|c w IH] using rev_ind; intros n buf src dst out r H Hw Ho Hn.
  - rewrite app_nil_r in H. rewrite (vw_dst _ _ _ _ _ H).
    destruct Ho as [->|Ho]; [by destruct n|]. destruct out as [|x out _] using rev_ind; [done|].
    rewrite last_snoc in Ho. injection Ho as ->. rewrite length_app. simpl.
    assert (E : rd buf (Z.of_nat (length out + 1) - 1) = Ok slash).
    { replace (Z.of_nat (length out + 1) - 1) with (Z.of_nat (length out)) by lia. eapply rd_out; [done|]. by rewrite lookup_app_r, Nat.sub_diag. }
    destruct n; cbn [back_to_slash]; rewrite (proj2 (Z.ltb_lt 0 _)) by lia; rewrite E; done.
  - rewrite length_app in Hn. simpl in Hn. destruct n as [|n]; [lia|]. apply Forall_app in Hw as [Hw [[Hc1 Hc2] _]%Forall_cons].
    rewrite app_assoc in H. pose proof (vw_dst _ _ _ _ _ H) as ->. rewrite length_app. simpl length.
    cbn [back_to_slash]. rewrite (proj2 (Z.ltb_lt 0 _)) by lia.
    replace (Z.of_nat (length (out ++ w) + 1) - 1) with (Z.of_nat (length (out ++ w))) by lia.
    assert (E : rd buf (Z.of_nat (length (out ++ w))) = Ok c) by (eapply rd_out; [done|]; by rewrite lookup_app_r, Nat.sub_diag).
    rewrite E. cbn [mbind res_bind]. rewrite (proj2 (Z.eqb_neq c slash)) by done.
    apply view_cut in H. apply (IH n _ _ _ _ _ H); [done|done|lia].
Qed.

(** ** One name *)

(** A name and what follows it. *)
Lemma next_name r : nonzero r → starts_with_slash r = false → ∃ w r', r = w ++ r' ∧ clean w ∧ stops r' ∧ (w = [] → r = []).
Proof.
  intros Hz Hs. destruct r as [|c r]; [exists [], []; split_and!; [done|constructor|by left|done]|].
  simpl in Hs. apply Z.eqb_neq in Hs. apply Forall_cons in Hz as [Hc Hz].
  assert (Hx : ∃ w r', r = w ++ r' ∧ clean w ∧ stops r').
  { clear Hs Hc. induction Hz as [|d r Hd Hz (w & r' & -> & Hw & Hr)]; [exists [], []; split_and!; [done|constructor|by left]|].
    destruct (decide (d = slash)) as [->|Hne]; [exists [], (slash :: w ++ r'); split_and!; [done|constructor|right; by eexists]|].
    exists (d :: w), r'. split_and!; [done|by constructor|done]. }
  destruct Hx as (w & r' & -> & Hw & Hr). exists (c :: w), r'. split_and!; [done|by constructor|done|done].
Qed.

Lemma names_aux_name w : ∀ cur r, clean w → stops r → cur ++ w ≠ [] →
  names_aux cur (w ++ r) = (cur ++ w) :: names (strip r).
Proof.
  assert (Hstrip : ∀ r, names (strip r) = names r).
  { induction r as [|c r IH]; [done|]. simpl. unfold names. simpl. destruct (c =? slash) eqn:E; [done|]. simpl. by rewrite E. }
  induction w as [|c w IH]; intros cur r Hw Hr Hne.
  - rewrite app_nil_r in *. rewrite Hstrip. unfold names.
    destruct Hr as [->|[r' ->]]; cbn [names_aux app]; rewrite ?Z.eqb_refl; by destruct cur.
  - apply Forall_cons in Hw as [[_ Hc] Hw]. simpl. rewrite (proj2 (Z.eqb_neq c slash)) by done.
    rewrite IH, <- app_assoc by (done || by destruct cur). done.
Qed.

Lemma names_name w r : clean w → stops r → w ≠ [] → names (w ++ r) = w :: names (strip r).
Proof. intros. by rewrite (names_aux_name w []). Qed.

Lemma names_slash r : names (slash :: r) = names (strip r).
Proof.
  unfold names. simpl. induction r as [|c r IH]; [done|]. simpl. destruct (c =? slash) eqn:E; [done|]. simpl. by rewrite E.
Qed.

Lemma look_at_dots_view n buf src dst out w r : view buf src dst out (w ++ r) → clean w → stops r → (w = [] → r = []) →
  (length (w ++ r) <= n)%nat →
  ∃ d, look_at_dots n buf src = Ok d ∧
    if decide (w = [dot]) then
      match d with
      | NotDots src' => r = [] ∧ view buf src' dst out []
      | Skip src' => view buf src' dst out (strip r)
      | Up _ => False
      end
    else if decide (w = [dot; dot]) then ∃ src', d = Up src' ∧ view buf src' dst out (strip r)
    else d = NotDots src.
Proof.
  intros H Hw Hr He Hn. unfold look_at_dots.
  assert (E0 : ∀ c, ((w ++ r) ++ [0]) !! O = Some c → rd buf src = Ok c) by (intros c Hc; by eapply rd_view0).
  assert (E1 : ∀ c, ((w ++ r) ++ [0]) !! 1%nat = Some c → rd buf (src + 1) = Ok c) by (intros c; apply (rd_view _ _ _ _ _ 1 c H)).
  assert (E2 : ∀ c, ((w ++ r) ++ [0]) !! 2%nat = Some c → rd buf (src + 2) = Ok c) by (intros c; apply (rd_view _ _ _ _ _ 2 c H)).
  destruct w as [|a w].
  { rewrite He in * by done. rewrite (E0 0) by done. exists (NotDots src). split; [done|]. by do 2 (destruct (decide _); [done|]). }
  rewrite (E0 a) by done. cbn [mbind res_bind]. destruct (Z.eqb_spec a dot) as [->|Ha].
  2:{ exists (NotDots src). split; [done|]. by do 2 (destruct (decide _); [congruence|]). }
  destruct w as [|b w].
  - destruct Hr as [->|[r' ->]].
    + rewrite (E1 0) by done. exists (NotDots (src + 1)). split; [done|]. rewrite decide_True by done. split; [done|].
      apply (view_src _ _ _ _ _ 1 H). simpl. lia.
    + rewrite (E1 slash) by done. cbn [mbind res_bind]. change (slash =? 0) with false. rewrite Z.eqb_refl.
      destruct (skip_slashes_view r' n buf (src + 2) dst out) as (src' & -> & Hv).
      { apply (view_src _ _ _ _ _ 2 H). simpl. lia. } { simpl in Hn. lia. }
      exists (Skip src'). split; [done|]. by rewrite decide_True.
  - apply Forall_cons in Hw as [_ Hw]. apply Forall_cons in Hw as [[Hb1 Hb2] Hw].
    rewrite (E1 b) by done. cbn [mbind res_bind].
    rewrite (proj2 (Z.eqb_neq b 0)), (proj2 (Z.eqb_neq b slash)) by done. destruct (Z.eqb_spec b dot) as [->|Hb].
    2:{ exists (NotDots src). split; [done|]. by do 2 (destruct (decide _); [congruence|]). }
    destruct w as [|c w].
    + destruct Hr as [->|[r' ->]].
      * rewrite (E2 0) by done. exists (Up (src + 2)). split; [done|]. rewrite decide_False, decide_True by done.
        eexists. split; [done|]. apply (view_src _ _ _ _ _ 2 H). simpl. lia.
      * rewrite (E2 slash) by done. cbn [mbind res_bind]. change (slash =? 0) with false. rewrite Z.eqb_refl.
        destruct (skip_slashes_view r' n buf (src + 3) dst out) as (src' & -> & Hv).
        { apply (view_src _ _ _ _ _ 3 H). simpl. lia. } { simpl in Hn. lia. }
        exists (Up src'). split; [done|]. rewrite decide_False, decide_True by done. by eexists.
    + apply Forall_cons in Hw as [[Hc1 Hc2] Hw]. rewrite (E2 c) by done. cbn [mbind res_bind].
      rewrite (proj2 (Z.eqb_neq c 0)), (proj2 (Z.eqb_neq c slash)) by done. exists (NotDots src). split; [done|].
      by do 2 (destruct (decide _); [congruence|]).
Qed.

(** ** The loop *)

Definition name_ok (w : list Z) : Prop := clean w ∧ w ≠ [].

Lemma text_last lead st : text lead st = [] ∨ last (text lead st) = Some slash.
Proof. destruct st as [|w st]; [destruct lead; [by right|by left]|]. right. simpl. by rewrite app_assoc, last_snoc. Qed.

(** What has been written when the loop ends. *)
Definition ended (lead : bool) (st : list (list Z)) (out : list Z) : Prop :=
  out = text lead st ∨ ∃ w st', st = w :: st' ∧ out = text lead st' ++ w.

(** The outcome [v] of the loop, as [climb] says. *)
Definition climbed (lead : bool) (st ns : list (list Z)) (v : res (option (list Z * Z))) : Prop :=
  match climb lead st ns with
  | None => v = Ok None
  | Some (lead', st') => Forall name_ok st' ∧ ∃ buf src dst out,
      v = Ok (Some (buf, dst)) ∧ view buf src dst out [] ∧ ended lead' st' out
  end.

(** The loop from any point before which it has done its work. *)
Definition loop_climbs (fuel : nat) : Prop := ∀ n buf src dst lead st r,
  view buf src dst (text lead st) r → nonzero r → starts_with_slash r = false → Forall name_ok st →
  (length r < fuel)%nat → length buf = n → climbed lead st (names r) (normalize_loop fuel n buf src dst).

Lemma copy_climbs fuel n buf src dst lead st w r : loop_climbs fuel →
  view buf src dst (text lead st) (w ++ r) → clean w → stops r → (w = [] → r = []) → nonzero r →
  w ≠ [dot] → w ≠ [dot; dot] → Forall name_ok st → (length (w ++ r) <= fuel)%nat → length buf = n →
  climbed lead st (names (w ++ r))
    ('(buf, src, dst, c) ← copy_name n buf src dst;
     if c =? slash then
       buf ← wr buf dst slash; src ← skip_slashes n buf src; normalize_loop fuel n buf src (dst + 1)
     else Ok (Some (buf, dst))).
Proof.
  intros IH H Hw Hr He Hz H1 H2 Hst Hf Hn. pose proof (view_length _ _ _ _ _ H) as Hlen. rewrite length_app in Hf, Hlen.
  destruct (copy_name_view w n buf src dst _ r Hw Hr H) as (b1 & -> & V1 & L1); [lia|]. cbn [mbind res_bind].
  assert (Hnames : climb lead st (names (w ++ r)) = match w with [] => Some (lead, st) | _ => climb lead (w :: st) (names (strip r)) end).
  { destruct w as [|a w]; [by rewrite He by done|]. rewrite names_name by done. simpl climb. by rewrite !decide_False by done. }
  unfold climbed. rewrite Hnames. destruct Hr as [->|[r' ->]].
  - cbn [hd]. change (0 =? slash) with false. cbv iota. destruct w as [|a w].
    + split; [done|]. eexists _, _, _, _. split_and!; [done|exact V1|]. left. by rewrite app_nil_r.
    + cbn [strip names names_aux climb]. split; [constructor; [by split|done]|]. eexists _, _, _, _. split_and!; [done|exact V1|].
      right. by eexists _, _.
  - destruct w as [|a w]; [by specialize (He eq_refl)|]. cbn [hd]. rewrite Z.eqb_refl. apply Forall_cons in Hz as [_ Hz].
    destruct (wr_view _ _ _ _ _ _ slash V1) as (b2 & -> & V2 & L2). cbn [mbind res_bind].
    simpl length in Hlen, Hf. destruct (skip_slashes_view _ n _ _ _ _ V2) as (s' & -> & V3); [lia|]. cbn [mbind res_bind].
    apply IH; [| |apply strip_head| | |congruence].
    + rewrite <- app_assoc in V3. exact V3.
    + cbn [strip]. rewrite Z.eqb_refl. by apply strip_nonzero.
    + constructor; [by split|done].
    + pose proof (strip_length r'). cbn [strip]. rewrite Z.eqb_refl. lia.
Qed.

Lemma normalize_loop_climbs fuel : loop_climbs fuel.
Proof.
  induction fuel as [|fuel IH]; intros n buf src dst lead st r H Hz Hs Hst Hf Hn; [lia|].
  destruct (next_name r Hz Hs) as (w & r' & -> & Hw & Hr & He). pose proof (view_length _ _ _ _ _ H) as Hlen.
  apply Forall_app in Hz as [_ Hz']. pose proof (strip_length r') as Hsl. pose proof (strip_nonzero _ Hz') as Hsz.
  assert (He' : w = [] → r' = []) by (intros ->; by apply He). clear He.
  destruct (look_at_dots_view n buf src dst (text lead st) w r') as (d & Ed & Hd); try done; [lia|].
  rewrite length_app in Hf, Hlen. cbn [normalize_loop]. rewrite Ed. cbn [mbind res_bind].
  destruct (decide (w = [dot])) as [->|H1]; [|destruct (decide (w = [dot; dot])) as [->|H2]].
  - assert (Hc : climb lead st (names ([dot] ++ r')) = climb lead st (names (strip r'))) by (by rewrite names_name).
    unfold climbed. rewrite Hc. simpl in Hf. destruct d as [src'|src'|]; [|apply IH; try done; [apply strip_head|lia]|done].
    destruct Hd as [-> Hd]. apply (copy_climbs fuel n buf src' dst lead st [] []); try done; [by left|simpl; lia].
  - destruct Hd as (src' & -> & Hd). simpl in Hf.
    assert (Hc : climb lead st (names ([dot; dot] ++ r')) = match st with
      | _ :: st => climb lead st (names (strip r')) | [] => if lead then climb false [] (names (strip r')) else None end)
      by (by rewrite names_name).
    unfold climbed. rewrite Hc. pose proof (vw_dst _ _ _ _ _ Hd) as Hdst. destruct st as [|v st].
    + simpl in Hdst. destruct lead; simpl in Hdst; subst dst; [|done]. change (Z.of_nat 1 - 1) with 0. change (0 <? 0) with false. cbv iota.
      assert (Hb : back_to_slash n buf 0 = Ok 0) by by destruct n. rewrite Hb. cbn [mbind res_bind].
      apply (IH n buf src' 0 false [] (strip r')); try done; [apply (view_cut _ _ _ [] [slash] _ Hd)|apply strip_head|lia].
    + apply Forall_cons in Hst as [[Hv Hv'] Hst]. simpl text in Hd. rewrite app_assoc in Hd. apply view_cut in Hd.
      assert (E : dst - 1 = Z.of_nat (length (text lead st ++ v))) by (rewrite Hdst; simpl; rewrite !length_app; simpl; lia).
      rewrite E, (proj2 (Z.ltb_ge _ 0)) by lia.
      assert (Hlv : (length v <= n)%nat).
      { pose proof (vw_le _ _ _ _ _ Hd) as Hle. pose proof (vw_rest _ _ _ _ _ Hd) as Hrest. apply (f_equal length) in Hrest.
        rewrite length_drop, length_app in Hrest. rewrite length_app in Hle. simpl in Hrest. lia. }
      rewrite (back_to_slash_view v n buf src' _ (text lead st) _ Hd Hv (text_last _ _) Hlv). cbn [mbind res_bind].
      apply IH; try done; [by apply (view_cut _ _ _ _ v _ Hd)|apply strip_head|lia].
  - subst d. apply copy_climbs; try done. rewrite length_app. lia.
Qed.

(** ** The end of the text *)

Lemma text_of_out buf out : nonzero out → take (length out + 1) buf = out ++ [0] → text_of buf = out.
Proof.
  revert buf. induction out as [|c out IH]; intros buf Hz H.
  - destruct buf as [|x buf]; [done|]. simpl in H. injection H as ->. done.
  - apply Forall_cons in Hz as [Hc Hz]. destruct buf as [|x buf]; [done|]. simpl in H. injection H as -> H. simpl.
    rewrite (proj2 (Z.eqb_neq c 0)) by done. by rewrite IH.
Qed.

Definition shown (lead : bool) (st : list (list Z)) : res (list Z) :=
  match st with
  | [] => if lead then Ok [slash] else Stop OutOfBounds
  | n :: st => Ok (text lead st ++ n)
  end.

Lemma clean_nonzero w : clean w → nonzero w.
Proof. intros H. eapply Forall_impl; [done|]. by intros ? []. Qed.

Lemma text_nonzero lead st : Forall name_ok st → nonzero (text lead st).
Proof.
  assert (Hs : nonzero [slash]) by (constructor; [done|constructor]).
  induction 1 as [|w st [Hw _] _ IH]; [destruct lead; [done|constructor]|]. simpl.
  apply Forall_app. split; [done|]. apply Forall_app. split; [by apply clean_nonzero|done].
Qed.

(** Writing a zero behind the [o] that shall stay. *)
Lemma cut_text buf o x : nonzero o → take (length o + 1) buf = o ++ [x] →
  ∃ buf', wr buf (Z.of_nat (length o)) 0 = Ok buf' ∧ text_of buf' = o.
Proof.
  intros Hz H. assert (Hl : (length o < length buf)%nat).
  { apply (f_equal length) in H. rewrite length_take, length_app in H. simpl in H. lia. }
  unfold wr, rd. rewrite (proj2 (Z.ltb_ge _ 0)) by lia. rewrite Nat2Z.id.
  destruct (lookup_lt_is_Some_2 buf (length o) Hl) as [y Hy]. rewrite Hy. simpl. eexists. split; [done|].
  apply text_of_out; [done|]. rewrite Nat.add_1_r. rewrite (take_S_r _ _ 0) by (by apply list_lookup_insert_eq).
  rewrite take_insert_ge by done. f_equal.
  apply (f_equal (take (length o))) in H. rewrite take_take, take_app_length in H. by rewrite Nat.min_l in H by lia.
Qed.

Lemma finish_view buf src dst o x : view buf src dst (o ++ [x]) [] → nonzero (o ++ [x]) → o ≠ [] →
  ∃ buf', finish_path buf dst = Ok buf' ∧ text_of buf' = if x =? slash then o else o ++ [x].
Proof.
  intros H Hz Ho. pose proof (vw_dst _ _ _ _ _ H) as Hd. pose proof Hz as Hz'. apply Forall_app in Hz' as [Hzo _].
  assert (H0 : view buf src dst (o ++ [x]) (drop 0 [])) by done.
  pose proof (vw_rest _ _ _ _ _ H) as Hr. pose proof (vw_out _ _ _ _ _ H) as Hout. pose proof (vw_le _ _ _ _ _ H) as Hle.
  assert (Hl : (length (o ++ [x]) < length buf)%nat).
  { apply (f_equal length) in Hr. rewrite length_drop in Hr. simpl in Hr. lia. }
  destruct (lookup_lt_is_Some_2 buf _ Hl) as [y Hy].
  assert (Ht : take (length (o ++ [x]) + 1) buf = (o ++ [x]) ++ [y]) by (rewrite Nat.add_1_r, (take_S_r _ _ y) by done; by rewrite Hout).
  assert (Hw : ∃ b, wr buf dst 0 = Ok b ∧ take (length (o ++ [x]) + 1) b = (o ++ [x]) ++ [0]).
  { unfold wr, rd. rewrite Hd, (proj2 (Z.ltb_ge _ 0)), Nat2Z.id, Hy by lia. simpl. eexists. split; [done|].
    rewrite Nat.add_1_r, (take_S_r _ _ 0) by (by apply list_lookup_insert_eq). by rewrite take_insert_ge, Hout. }
  destruct Hw as (b & Eb & Hb). unfold finish_path. rewrite Eb. cbn [mbind res_bind]. rewrite length_app in Hd, Hb. simpl in Hd, Hb.
  assert (Hpos : (0 < length o)%nat) by (destruct o; simpl; [done|lia]).
  rewrite (proj2 (Z.eqb_neq (dst - 1) 0)) by lia. cbn [negb]. replace (dst - 1) with (Z.of_nat (length o)) by lia.
  assert (Hx : take (length o + 1) b = o ++ [x]).
  { apply (f_equal (take (length o + 1))) in Hb. rewrite take_take, Nat.min_l in Hb by lia. rewrite Hb.
    rewrite take_app_le by (rewrite length_app; simpl; lia). apply take_ge. rewrite length_app. simpl. lia. }
  assert (Erd : rd b (Z.of_nat (length o)) = Ok x).
  { unfold rd. rewrite (proj2 (Z.ltb_ge _ 0)), Nat2Z.id by lia.
    assert (E : b !! length o = Some x); [|by rewrite E].
    rewrite <- (lookup_take_lt b (length o + 1)) by lia. rewrite Hx. by rewrite lookup_app_r, Nat.sub_diag. }
  rewrite Erd. cbn [mbind res_bind]. destruct (Z.eqb_spec x slash) as [->|Hne].
  - by apply (cut_text b o slash).
  - exists b. split; [done|]. apply text_of_out; [done|]. rewrite length_app. exact Hb.
Qed.

Lemma finish_shown buf src dst lead st out : view buf src dst out [] → ended lead st out → Forall name_ok st →
  (buf ← finish_path buf dst; Ok (Some (text_of buf))) = (p ← shown lead st; Ok (Some p)).
Proof.
  intros H He Hst.
  assert (Hz : nonzero out).
  { destruct He as [->|(w & st' & -> & ->)]; [by apply text_nonzero|]. apply Forall_cons in Hst as [[Hw _] Hst].
    apply Forall_app. split; [by apply text_nonzero|by apply clean_nonzero]. }
  assert (Hmain : ∀ o x, out = o ++ [x] → o ≠ [] → (buf ← finish_path buf dst; Ok (Some (text_of buf))) =
    Ok (Some (if x =? slash then o else o ++ [x]))).
  { intros o x -> Ho. destruct (finish_view _ _ _ _ _ H Hz Ho) as (b & -> & Eb). simpl. by rewrite Eb. }
  assert (Hone : ∀ x, out = [x] → (buf ← finish_path buf dst; Ok (Some (text_of buf))) = Ok (Some [x])).
  { intros x ->. pose proof (vw_dst _ _ _ _ _ H) as ->. pose proof (vw_out _ _ _ _ _ H) as Hout.
    pose proof (vw_rest _ _ _ _ _ H) as Hr. pose proof (vw_le _ _ _ _ _ H) as Hle. apply (f_equal length) in Hr.
    rewrite length_drop in Hr. simpl in Hr, Hle, Hout. destruct buf as [|a [|b buf]]; simpl in Hr, Hout; try done; [lia|].
    injection Hout as ->. apply Forall_cons in Hz as [Hx _]. unfold finish_path, wr, rd. simpl.
    by rewrite (proj2 (Z.eqb_neq x 0)) by done. }
  destruct He as [->|(w & st' & -> & ->)].
  - destruct st as [|w st]; simpl.
    + destruct lead; [by apply Hone|]. rewrite (vw_dst _ _ _ _ _ H). pose proof (vw_rest _ _ _ _ _ H) as Hr.
      destruct buf as [|b buf]; [by rewrite drop_nil in Hr|done].
    + apply Forall_cons in Hst as [[Hw Hne] Hst]. rewrite (Hmain (text lead st ++ w) slash); [by rewrite Z.eqb_refl| |].
      * simpl. by rewrite app_assoc.
      * destruct w; [done|]. by destruct (text lead st).
  - apply Forall_cons in Hst as [[Hw Hne] Hst]. simpl. destruct w as [|x w _] using rev_ind; [done|].
    apply Forall_app in Hw as [Hw [[_ Hx] _]%Forall_cons]. destruct (decide (text lead st' ++ w = [])) as [E|E].
    + apply app_eq_nil in E as [E1 ->]. rewrite (Hone x) by (by rewrite E1). by rewrite E1.
    + rewrite (Hmain (text lead st' ++ w) x) by (done || by rewrite app_assoc). rewrite (proj2 (Z.eqb_neq x slash)) by done.
      by rewrite app_assoc.
Qed.

(** ** [dfs_normalize_path] *)

Definition joined (d file : list Z) : list Z := if starts_with_slash file then file else d ++ slash :: file.

(** Every outcome, for any text. *)
Lemma dfs_normalize_path_climb wd d file : nonzero (joined d file) →
  dfs_normalize_path true wd (Some d) file =
  match climb (starts_with_slash (joined d file)) [] (names (joined d file)) with
  | None => Ok None
  | Some (lead, st) => p ← shown lead st; Ok (Some p)
  end.
Proof.
  intros Hz. unfold dfs_normalize_path.
  assert (E : (if starts_with_slash file then Some file else Some (d ++ slash :: file)) = Some (joined d file))
    by (unfold joined; by destruct (starts_with_slash file)).
  rewrite E. cbn [negb]. clear E. generalize dependent (joined d file). intros full Hz. set (n := length (full ++ [0])).
  assert (Hfin : ∀ lead st ns v, climbed lead st ns v →
    (r ← v; match r with None => Ok None | Some (buf, dst) => buf ← finish_path buf dst; Ok (Some (text_of buf)) end) =
    match climb lead st ns with None => Ok None | Some (lead, st) => p ← shown lead st; Ok (Some p) end).
  { intros lead st ns v Hv. unfold climbed in Hv. destruct (climb lead st ns) as [[lead' st']|]; [|by rewrite Hv].
    destruct Hv as (Hst & buf & src & dst & out & -> & Hview & He). by apply (finish_shown _ _ _ _ _ _ Hview He Hst). }
  assert (Hn : n = S (length full)) by (unfold n; rewrite length_app; simpl; lia).
  assert (H0 : view (full ++ [0]) 0 0 [] full) by (split; done || lia).
  destruct (starts_with_slash full) eqn:Es.
  - destruct full as [|c r]; [done|]. simpl in Es. apply Z.eqb_eq in Es as ->. apply Forall_cons in Hz as [_ Hz].
    rewrite names_slash. apply Hfin.
    cbn [normalize_loop]. unfold look_at_dots. rewrite (rd_view0 _ _ _ _ _ slash H0) by done. cbn [mbind res_bind].
    change (slash =? dot) with false. cbv iota. cbn [mbind res_bind].
    destruct (copy_name_view [] n _ _ _ _ (slash :: r) (Forall_nil_2 _) (or_intror (ex_intro _ r eq_refl)) H0) as (b1 & -> & V1 & L1); [apply Nat.le_0_l|].
    cbn [mbind res_bind hd]. rewrite Z.eqb_refl. destruct (wr_view _ _ _ _ _ _ slash V1) as (b2 & -> & V2 & L2).
    cbn [mbind res_bind]. simpl in Hn. destruct (skip_slashes_view _ n _ _ _ _ V2) as (s' & -> & V3); [lia|]. cbn [mbind res_bind].
    pose proof (strip_length r).
    apply (normalize_loop_climbs n n b2 s' _ true [] (strip r)); [exact V3|by apply strip_nonzero|apply strip_head|constructor|lia|].
    rewrite L2, L1. done.
  - apply Hfin. apply (normalize_loop_climbs (S n)); try done; lia.
Qed.

Lemma resolve_climb st ns : match resolve st ns with
  | Some cs => climb true st ns = Some (true, reverse cs)
  | None => climb true st ns = None ∨ ∃ st', climb true st ns = Some (false, st')
  end.
Proof.
  assert (Hf : ∀ ns st, climb false st ns = None ∨ ∃ st', climb false st ns = Some (false, st')).
  { clear. induction ns as [|n ns IH]; intros st; simpl; [right; by eexists|].
    destruct (decide _); [done|]. destruct (decide _); [|done]. destruct st; [by left|done]. }
  revert st. induction ns as [|n ns IH]; intros st; simpl; [by rewrite reverse_involutive|].
  destruct (decide _); [apply IH|]. destruct (decide _); [|apply IH]. destruct st; [apply Hf|apply IH].
Qed.

Lemma concat_snoc (w : list Z) cs :
  concat ((λ n, slash :: n) <$> cs ++ [w]) = concat ((λ n, slash :: n) <$> cs) ++ slash :: w.
Proof. rewrite fmap_app, concat_app. simpl. by rewrite app_nil_r. Qed.

Lemma text_concat st : text true st = concat ((λ n, slash :: n) <$> reverse st) ++ [slash].
Proof.
  induction st as [|w st IH]; [done|]. rewrite reverse_cons, concat_snoc. simpl text. rewrite IH, <- !app_assoc. done.
Qed.

Lemma shown_show cs : shown true (reverse cs) = Ok (show_path cs).
Proof.
  destruct (reverse cs) as [|w st] eqn:E; simpl.
  - apply (f_equal reverse) in E. rewrite reverse_involutive in E. by subst cs.
  - apply (f_equal reverse) in E. rewrite reverse_involutive, reverse_cons in E. subst cs. f_equal.
    rewrite text_concat, <- app_assoc. unfold show_path. destruct (reverse st ++ [w]) eqn:E; [by destruct (reverse st)|].
    by rewrite <- E, concat_snoc.
Qed.

(** A relative text never starts with a slash. *)
Lemma shown_relative st p : Forall name_ok st → shown false st = Ok p → starts_with_slash p = false.
Proof.
  intros Hst. destruct st as [|w st]; [done|]. simpl. intros [= <-]. apply Forall_cons in Hst as [Hw Hst].
  assert (Hhead : ∀ v r, name_ok v → starts_with_slash (v ++ r) = false).
  { intros v r [Hv Hne]. destruct v as [|c v]; [done|]. apply Forall_cons in Hv as [[_ Hc] _]. simpl. by apply Z.eqb_neq. }
  assert (Ht : ∀ r, st ≠ [] → starts_with_slash (text false st ++ r) = false).
  { clear Hw. induction Hst as [|v st Hv Hst IH]; [done|]. intros r _. simpl. rewrite <- !app_assoc.
    destruct st as [|u st]; [by apply (Hhead v)|by apply IH]. }
  destruct st as [|v st]; [simpl; rewrite <- (app_nil_r w); by apply Hhead|by apply Ht].
Qed.

Lemma names_ok s : nonzero s → Forall name_ok (names s).
Proof.
  intros Hz. assert (Hx : ∀ s cur, nonzero s → clean cur → Forall name_ok (names_aux cur s)).
  { clear. induction s as [|c s IH]; intros cur Hz Hc; simpl.
    - destruct cur; constructor; [by split|constructor].
    - apply Forall_cons in Hz as [Hc0 Hz]. destruct (Z.eqb_spec c slash) as [->|Hne].
      + destruct cur; [apply IH; [done|constructor]|]. constructor; [by split|apply IH; [done|constructor]].
      + apply IH; [done|]. apply Forall_app. split; [done|]. constructor; [done|constructor]. }
  apply Hx; [done|constructor].
Qed.

(** A name that is neither [.] nor [..]. *)
Definition plain (n : list Z) : Prop := name_ok n ∧ n ≠ [dot] ∧ n ≠ [dot; dot].

Lemma climb_names lead st ns lead' st' : Forall name_ok st → Forall name_ok ns → climb lead st ns = Some (lead', st') → Forall name_ok st'.
Proof.
  revert lead st. induction ns as [|n ns IH]; intros lead st Hst Hns; simpl; [by intros [= _ <-]|].
  apply Forall_cons in Hns as [Hn Hns]. destruct (decide _); [by apply IH|]. destruct (decide _).
  - destruct st; [destruct lead; [by apply IH|done]|]. apply Forall_cons in Hst as [_ Hst]. by apply IH.
  - apply IH; [by constructor|done].
Qed.

Lemma resolve_plain st ns cs : Forall plain st → Forall name_ok ns → resolve st ns = Some cs → Forall plain cs.
Proof.
  revert st. induction ns as [|n ns IH]; intros st Hst Hns; simpl; [intros [= <-]; by apply Forall_reverse|].
  apply Forall_cons in Hns as [Hn Hns]. destruct (decide _); [by apply IH|]. destruct (decide _).
  - destruct st; [done|]. apply Forall_cons in Hst as [_ Hst]. by apply IH.
  - apply IH; [by constructor|done].
Qed.

Lemma resolve_id st cs : Forall plain cs → resolve st cs = Some (reverse st ++ cs).
Proof.
  intros H. revert st. induction H as [|n cs (_ & H1 & H2) _ IH]; intros st; simpl; [by rewrite app_nil_r|].
  rewrite !decide_False by done. rewrite IH, reverse_cons. by rewrite <- app_assoc.
Qed.

Lemma strip_name w r : name_ok w → strip (w ++ r) = w ++ r.
Proof. intros [Hw Hne]. destruct w as [|c w]; [done|]. apply Forall_cons in Hw as [[_ Hc] _]. simpl. by rewrite (proj2 (Z.eqb_neq c slash)). Qed.

Lemma names_show cs : Forall name_ok cs → names (show_path cs) = cs.
Proof.
  intros H. destruct H as [|w cs Hw H]; [done|]. unfold show_path.
  assert (Hx : ∀ cs, Forall name_ok cs → names (concat ((λ n, slash :: n) <$> cs)) = cs).
  { clear. induction 1 as [|w cs Hw H IH]; [done|]. cbn [fmap list_fmap concat app]. rewrite names_slash, strip_name by done.
    rewrite names_name; [|by apply Hw| |by apply Hw].
    - f_equal. rewrite <- IH at 2. destruct H as [|v cs Hv H]; [done|]. simpl. rewrite ?Z.eqb_refl. simpl. by rewrite names_slash.
    - destruct H; [by left|right; by eexists]. }
  by apply (Hx (w :: cs)); constructor.
Qed.

Lemma names_join d file : names (d ++ slash :: file) = names d ++ names file.
Proof.
  unfold names. enough (Hx : ∀ cur, names_aux cur (d ++ slash :: file) = names_aux cur d ++ names_aux [] file) by apply Hx.
  induction d as [|c d IH]; intros cur; simpl.
  - by destruct cur.
  - destruct (c =? slash); [|apply IH]. destruct cur; simpl; by rewrite IH.
Qed.

Definition path_names (d file : list Z) : list (list Z) :=
  if starts_with_slash file then names file else names d ++ names file.

Lemma names_joined d file : names (joined d file) = path_names d file.
Proof. unfold joined, path_names. destruct (starts_with_slash file); [done|apply names_join]. Qed.

Lemma show_nonzero cs : Forall plain cs → nonzero (show_path cs) ∧ starts_with_slash (show_path cs) = true.
Proof.
  intros H. destruct H as [|w cs Hw H]; [split; [by constructor|done]|]. split; [|done].
  unfold show_path. assert (H' : Forall plain (w :: cs)) by by constructor. clear Hw H.
  induction H' as [|v l [[Hv _] _] _ IH]; [constructor|]. cbn [fmap list_fmap concat]. apply Forall_app. split; [|done].
  constructor; [done|by apply clean_nonzero].
Qed.

(** A path that stays below the root. *)
Lemma normalize_below wd dir d file cs : default d dir = d → (dir = None → wd = Some d) → nonzero d → nonzero file →
  starts_with_slash (joined d file) = true → resolve [] (path_names d file) = Some cs →
  dfs_normalize_path true wd dir file = Ok (Some (show_path cs)) ∧ Forall plain cs.
Proof.
  intros Hdir Hwd Hd Hf Hs Er. assert (Hz : nonzero (joined d file)).
  { unfold joined. destruct (starts_with_slash file); [done|]. apply Forall_app. split; [done|by constructor]. }
  pose proof (names_ok _ Hz) as Hok. rewrite names_joined in Hok. split; [|by apply (resolve_plain [] _ cs (Forall_nil_2 _) Hok)].
  transitivity (dfs_normalize_path true wd (Some d) file).
  { destruct dir as [d'|]; simpl in Hdir; [by subst|]. unfold dfs_normalize_path. by rewrite Hwd. }
  rewrite dfs_normalize_path_climb, Hs, names_joined by done. pose proof (resolve_climb [] (path_names d file)) as Hc.
  rewrite Er in Hc. by rewrite Hc, shown_show.
Qed.

(** The path of a list of names is left as it is. *)
Lemma normalize_show wd dir d cs : default d dir = d → (dir = None → wd = Some d) → nonzero d → Forall plain cs →
  dfs_normalize_path true wd dir (show_path cs) = Ok (Some (show_path cs)) ∧ names (show_path cs) = cs.
Proof.
  intros Hdir Hwd Hd Hp. destruct (show_nonzero cs Hp) as [Hn Hs].
  assert (Hnames : names (show_path cs) = cs) by (apply names_show; eapply Forall_impl; [exact Hp|by intros ? []]).
  split; [|done]. apply (normalize_below wd dir d); [done..| |].
  - unfold joined. by rewrite Hs.
  - unfold path_names. rewrite Hs, Hnames. by apply (resolve_id [] cs).
Qed.

(** C12. For an absolute path (or a relative one under an absolute directory)
    that stays below the root, [dfs_normalize_path] returns the path of its names
    with [.], [..] and repeated slashes resolved, and leaves that path as it is when it
    is given it again.  It never returns an absolute path for one that climbs above
    the root; the work in place never leaves the buffer or loops as long as the
    path stays below the root. *)
Theorem dfs_normalize_path_spec wd d file : nonzero d → nonzero file → starts_with_slash (joined d file) = true →
  match resolve [] (path_names d file) with
  | Some cs => dfs_normalize_path true wd (Some d) file = Ok (Some (show_path cs)) ∧
      dfs_normalize_path true wd (Some d) (show_path cs) = Ok (Some (show_path cs)) ∧ names (show_path cs) = cs
  | None => ∀ p, dfs_normalize_path true wd (Some d) file = Ok (Some p) → starts_with_slash p = false
  end.
Proof.
  intros Hd Hf Hs. destruct (resolve [] (path_names d file)) as [cs|] eqn:Er.
  - destruct (normalize_below wd (Some d) d file cs) as [E Hp]; [done..|]. split; [done|].
    by apply (normalize_show wd (Some d) d).
  - assert (Hz : nonzero (joined d file)).
    { unfold joined. destruct (starts_with_slash file); [done|]. apply Forall_app. split; [done|by constructor]. }
    pose proof (names_ok _ Hz) as Hok. rewrite names_joined in Hok.
    rewrite dfs_normalize_path_climb, Hs, names_joined by done. pose proof (resolve_climb [] (path_names d file)) as Hc.
    rewrite Er in Hc. intros p. destruct Hc as [->|[st' Hc]]; [done|]. rewrite Hc. intros E. destruct (shown false st') as [q|] eqn:Eq; [|done].
    injection E as <-. eapply shown_relative; [|done]. by apply (climb_names _ _ _ _ _ (Forall_nil_2 _) Hok Hc).
Qed.

(** [/a/./b//../c/] under [/] is [/a/c]. *)
Lemma dfs_normalize_path_spec_witness :
  dfs_normalize_path true None (Some [47]) [97; 47; 46; 47; 98; 47; 47; 46; 46; 47; 99; 47] = Ok (Some [47; 97; 47; 99]).
Proof.
  pose proof (dfs_normalize_path_spec None [47] [97; 47; 46; 47; 98; 47; 47; 46; 46; 47; 99; 47]) as H.
  destruct H as (H & _ & _); [by repeat constructor|by repeat constructor|reflexivity|exact H].
Defined.

(** [/..] makes the code read the byte before its buffer, and [/../a] becomes
    the relative path [a]. *)
Lemma normalize_above_root :
  dfs_normalize_path true None None [47; 46; 46] = Stop OutOfBounds ∧
  dfs_normalize_path true None None [47; 46; 46; 47; 97] = Ok (Some [97]).
Proof. split; vm_compute; reflexivity. Qed.
