(* ===== verification/Timer.v ===== *)
(** * Hard timers: [src/timer.c], the tick of [src/clock.c]

    The list of running timers, the modular tick arithmetic that orders it and
    the loop run by the tick interrupt.  The build has
    [RT_TIMER_SKIP_LIST_LEVEL = 1] and no [RT_USING_TIMER_SOFT]: the skip list
    is one sorted list, and the soft-timer thread does not exist. *)
From S2P Require Import Prelude.
Local Open Scope Z_scope.

Abbreviation tid := nat (only parsing).

(** A timer is embedded in a thread ([&thread->thread_timer]) or is an object
    of its own. *)
Inductive tmid := TThread (t : tid) | TUser (n : nat).

#[global] Instance tmid_eq_dec : EqDecision tmid.
Proof. solve_decision. Defined.
#[global] Instance tmid_countable : Countable tmid.
Proof.
  refine (inj_countable' (λ x, match x with TThread t => inl t | TUser n => inr n end)
    (λ s, match s with inl t => TThread t | inr n => TUser n end) _).
  by intros [].
Defined.

(** [timeout_func] with its [parameter]: the kernel only installs
    [rt_thread_timeout] itself, everything else is the client's code. *)
Inductive timer_func := TF_thread_timeout (t : tid) | TF_user (n : nat).

Record rt_timer := mk_timer {
  flag : Z;
  timeout_func : timer_func;
  init_tick : Z;
  timeout_tick : Z }.

Definition RT_TICK_MAX : Z := 4294967295.
Definition RT_TIMER_FLAG_ACTIVATED : Z := 1.
Definition RT_TIMER_FLAG_PERIODIC : Z := 2.

Record timer_sys := mk_ts {
  rt_tick : Z;
  timers : gmap tmid rt_timer;
  rt_timer_list : list tmid;
  random_nr : Z }.

Definition set_timer (x : tmid) (tm : rt_timer) (ts : timer_sys) : timer_sys :=
  mk_ts (rt_tick ts) (<[x := tm]> (timers ts)) (rt_timer_list ts) (random_nr ts).
Definition set_timer_list (l : list tmid) (ts : timer_sys) : timer_sys :=
  mk_ts (rt_tick ts) (timers ts) l (random_nr ts).
Definition set_tick (n : Z) (ts : timer_sys) : timer_sys :=
  mk_ts n (timers ts) (rt_timer_list ts) (random_nr ts).
Definition bump_random (ts : timer_sys) : timer_sys :=
  mk_ts (rt_tick ts) (timers ts) (rt_timer_list ts) (u32 (random_nr ts + 1)).

(** The memory of the timer is given back. *)
Definition drop_timer (x : tmid) (ts : timer_sys) : timer_sys :=
  mk_ts (rt_tick ts) (delete x (timers ts)) (rt_timer_list ts) (random_nr ts).

Definition with_flag (f : Z) (tm : rt_timer) : rt_timer :=
  mk_timer f (timeout_func tm) (init_tick tm) (timeout_tick tm).
Definition with_init_tick (n : Z) (tm : rt_timer) : rt_timer :=
  mk_timer (flag tm) (timeout_func tm) n (timeout_tick tm).
Definition with_timeout_tick (n : Z) (tm : rt_timer) : rt_timer :=
  mk_timer (flag tm) (timeout_func tm) (init_tick tm) n.

Definition get_timer (x : tmid) (ts : timer_sys) : res rt_timer :=
  of_option NullDeref (timers ts !! x).

Definition activated (tm : rt_timer) : bool := Z.testbit (flag tm) 0.
Definition periodic (tm : rt_timer) : bool := Z.testbit (flag tm) 1.
Definition deactivate (tm : rt_timer) : rt_timer :=
  with_flag (Z.land (flag tm) (Z.lnot RT_TIMER_FLAG_ACTIVATED)) tm.
Definition activate (tm : rt_timer) : rt_timer :=
  with_flag (Z.lor (flag tm) RT_TIMER_FLAG_ACTIVATED) tm.

(** ** Operations *)

Definition _rt_timer_init (timeout : timer_func) (time fl : Z) : rt_timer :=
  deactivate (mk_timer fl timeout time 0).

(** Initialising a timer that is on the list would re-link its node in place. *)
Definition rt_timer_init (x : tmid) (timeout : timer_func) (time fl : Z)
    (ts : timer_sys) : res timer_sys :=
  _ ← require ListCorrupt (bool_decide (x ∉ rt_timer_list ts));
  Ok (set_timer x (_rt_timer_init timeout time fl) ts).

Definition _rt_timer_remove (x : tmid) (ts : timer_sys) : timer_sys :=
  set_timer_list (filter (λ y, y ≠ x) (rt_timer_list ts)) ts.

Definition rt_timer_detach (x : tmid) (ts : timer_sys) : res timer_sys :=
  _ ← get_timer x ts;
  Ok (_rt_timer_remove x ts).

(** The walk of [rt_timer_start]: [row_head] moves over the timers that expire
    no later than the new one, which is then inserted after it. *)
Fixpoint timer_insert (tms : gmap tmid rt_timer) (x : tmid) (new_timeout : Z)
    (l : list tmid) : res (list tmid) :=
  match l with
  | [] => Ok [x]
  | y :: l' =>
      t ← of_option NullDeref (tms !! y);
      let delta := u32 (timeout_tick t - new_timeout) in
      if delta =? 0 then cons y <$> timer_insert tms x new_timeout l'
      else if delta <? RT_TICK_MAX / 2 then Ok (x :: y :: l')
      else cons y <$> timer_insert tms x new_timeout l'
  end.

Definition rt_timer_start (x : tmid) (ts : timer_sys) : res timer_sys :=
  tm ← get_timer x ts;
  let ts := _rt_timer_remove x ts in
  let tm := deactivate tm in
  let ts := set_timer x tm ts in
  _ ← rt_assert (init_tick tm <? RT_TICK_MAX / 2);
  let tm := with_timeout_tick (u32 (rt_tick ts + init_tick tm)) tm in
  let ts := set_timer x tm ts in
  l ← timer_insert (timers ts) x (timeout_tick tm) (rt_timer_list ts);
  let ts := bump_random ts in
  let ts := set_timer_list l ts in
  Ok (set_timer x (activate tm) ts).

(** [None] is the early return of [-RT_ERROR]. *)
Definition rt_timer_stop (x : tmid) (ts : timer_sys) : res (timer_sys * bool) :=
  tm ← get_timer x ts;
  if activated tm
  then Ok (set_timer x (deactivate tm) (_rt_timer_remove x ts), true)
  else Ok (ts, false).

Inductive timer_cmd := CTRL_SET_TIME | CTRL_GET_TIME | CTRL_SET_ONESHOT | CTRL_SET_PERIODIC.

(** The second result is the new content of [*arg]. *)
Definition rt_timer_control (x : tmid) (cmd : timer_cmd) (arg : Z) (ts : timer_sys) :
    res (timer_sys * Z) :=
  tm ← get_timer x ts;
  match cmd with
  | CTRL_GET_TIME => Ok (ts, init_tick tm)
  | CTRL_SET_TIME => Ok (set_timer x (with_init_tick (u32 arg) tm) ts, arg)
  | CTRL_SET_ONESHOT =>
      Ok (set_timer x (with_flag (Z.land (flag tm) (Z.lnot RT_TIMER_FLAG_PERIODIC)) tm) ts, arg)
  | CTRL_SET_PERIODIC =>
      Ok (set_timer x (with_flag (Z.lor (flag tm) RT_TIMER_FLAG_PERIODIC) tm) ts, arg)
  end.

Definition rt_timer_next_timeout_tick (ts : timer_sys) : res Z :=
  match rt_timer_list ts with
  | [] => Ok RT_TICK_MAX
  | x :: _ => timeout_tick <$> get_timer x ts
  end.

(** ** The check loop

    The loop runs inside the clock interrupt, on whatever state contains the
    timers: [HasTimers] is what it needs of that state. *)
Class HasTimers (S : Type) := {
  get_ts : S → timer_sys;
  put_ts : timer_sys → S → S;
  get_put_ts : ∀ ts s, get_ts (put_ts ts s) = ts;
  put_get_ts : ∀ s, put_ts (get_ts s) s = s;
  put_put_ts : ∀ ts ts' s, put_ts ts (put_ts ts' s) = put_ts ts s }.

#[global] Program Instance timer_sys_has_timers : HasTimers timer_sys :=
  { get_ts := id; put_ts := λ ts _, ts }.
Solve Obligations with done.

Definition expired (now : Z) (tm : rt_timer) : bool :=
  u32 (now - timeout_tick tm) <? RT_TICK_MAX / 2.

Section Check.
Context {S : Type} `{HasTimers S} (call : timer_func → S → res S).

(** One iteration for the first timer [x] of the list. *)
Definition timer_fire (x : tmid) (s : S) : res S :=
  let s := put_ts (_rt_timer_remove x (get_ts s)) s in
  tm ← get_timer x (get_ts s);
  s ← call (timeout_func tm) s;
  tm ← get_timer x (get_ts s);
  let s' := put_ts (set_timer x (deactivate tm) (get_ts s)) s in
  if periodic tm && activated tm
  then ts ← rt_timer_start x (get_ts s'); Ok (put_ts ts s')
  else Ok s'.

Fixpoint rt_timer_check (fuel : nat) (current_tick : Z) (s : S) : res S :=
  match fuel with
  | O => Stop OutOfFuel
  | Datatypes.S fuel =>
      match rt_timer_list (get_ts s) with
      | [] => Ok s
      | x :: _ =>
          tm ← get_timer x (get_ts s);
          if expired current_tick tm
          then s ← timer_fire x s; rt_timer_check fuel (rt_tick (get_ts s)) s
          else Ok s
      end
  end.
End Check.

(** ** Theory

    The list is ordered by the signed distance of the timeouts to the current
    tick, so nothing below depends on the tick counter not having wrapped. *)
Definition TICK_HALF : Z := RT_TICK_MAX / 2.

Definition remaining (ts : timer_sys) (x : tmid) : Z :=
  match timers ts !! x with
  | Some tm => s32 (timeout_tick tm - rt_tick ts)
  | None => 0
  end.

Definition expired_at (ts : timer_sys) (x : tmid) : bool :=
  match timers ts !! x with Some tm => expired (rt_tick ts) tm | None => false end.

Definition expired_list (ts : timer_sys) : list tmid :=
  filter (λ x, expired_at ts x = true) (rt_timer_list ts).

Definition timer_range (tm : rt_timer) : Prop :=
  0 <= timeout_tick tm <= RT_TICK_MAX ∧ 0 <= init_tick tm <= RT_TICK_MAX.

(** [lo] is [0] between two ticks and [-1] while the tick interrupt runs. *)
Record ts_ok (lo : Z) (ts : timer_sys) : Prop := {
  ts_tick : 0 <= rt_tick ts <= RT_TICK_MAX;
  ts_nodup : NoDup (rt_timer_list ts);
  ts_exists : ∀ x, x ∈ rt_timer_list ts → is_Some (timers ts !! x);
  ts_window : ∀ x, x ∈ rt_timer_list ts → lo <= remaining ts x < TICK_HALF;
  ts_sorted : StronglySorted (λ x y, remaining ts x <= remaining ts y) (rt_timer_list ts);
  ts_range : ∀ x tm, timers ts !! x = Some tm → timer_range tm }.

(** Where the new timer goes: after every timer that is due no later. *)
Fixpoint place (key : tmid → Z) (x : tmid) (l : list tmid) : list tmid :=
  match l with
  | [] => [x]
  | y :: l' => if key y <=? key x then y :: place key x l' else x :: y :: l'
  end.

Lemma tick_half_val : TICK_HALF = 2147483647.
Proof. reflexivity. Qed.

Lemma delta_zero a b now :
  0 <= a <= RT_TICK_MAX → 0 <= b <= RT_TICK_MAX →
  (u32 (a - b) =? 0) = (s32 (a - now) =? s32 (b - now)).
Proof. unfold RT_TICK_MAX. intros. word. Qed.

Lemma delta_half a b now :
  -1 <= s32 (a - now) < 2147483647 → 0 <= s32 (b - now) < 2147483647 →
  u32 (a - b) ≠ 0 →
  (u32 (a - b) <? 2147483647) = (s32 (b - now) <? s32 (a - now)).
Proof. intros. word. Qed.

Lemma timer_insert_place tms x new_timeout now key l :
  0 <= new_timeout <= RT_TICK_MAX →
  key x = s32 (new_timeout - now) → 0 <= key x < TICK_HALF →
  (∀ y, y ∈ l → ∃ t, tms !! y = Some t ∧ timer_range t ∧
     key y = s32 (timeout_tick t - now) ∧ -1 <= key y < TICK_HALF) →
  timer_insert tms x new_timeout l = Ok (place key x l).
Proof.
  intros Hn Hx Hw Hl. induction l as [|y l IH]; [done|]. simpl.
  destruct (Hl y) as (t & Ht & [Hr _] & Hk & Hy); [left|].
  rewrite Ht, (IH ltac:(intros; apply Hl; by right)). simpl.
  pose proof (delta_zero (timeout_tick t) new_timeout now Hr Hn) as Hz.
  rewrite <- Hk, <- Hx in Hz. rewrite Hz. change (RT_TICK_MAX / 2) with TICK_HALF.
  destruct (Z.eqb_spec (key y) (key x)) as [->|Hne]; [by rewrite Z.leb_refl|].
  pose proof (delta_half (timeout_tick t) new_timeout now) as Hh.
  rewrite <- Hk, <- Hx, <- tick_half_val in Hh. rewrite Hh by (done || lia).
  destruct (Z.ltb_spec (key x) (key y)), (Z.leb_spec (key y) (key x)); done || lia.
Qed.

Section place.
Context (key : tmid → Z) (x : tmid).
Implicit Types l : list tmid.

Lemma place_perm l : place key x l ≡ₚ x :: l.
Proof.
  induction l as [|y l IH]; simpl; [done|].
  destruct (_ <=? _); [|done]. rewrite IH. apply Permutation_swap.
Qed.

Lemma elem_of_place l y : y ∈ place key x l ↔ y = x ∨ y ∈ l.
Proof. by rewrite place_perm, elem_of_cons. Qed.

Lemma place_sorted (R : tmid → tmid → Prop) l :
  (∀ y, y ∈ l → (R y x ↔ key y <= key x) ∧ (R x y ↔ key x <= key y)) →
  (∀ y z, y ∈ l → R x y → R y z → R x z) →
  StronglySorted R l → StronglySorted R (place key x l).
Proof.
  intros HR Htr. induction 1 as [|y l Hs IH Hf]; simpl; [repeat constructor|].
  destruct (HR y) as [Hyx Hxy]; [left|].
  destruct (Z.leb_spec (key y) (key x)).
  - constructor.
    + apply IH; intros; [apply HR | eapply Htr]; eauto; by right.
    + rewrite place_perm. constructor; [by apply Hyx|done].
  - constructor; [by constructor|]. constructor; [apply Hxy; lia|].
    rewrite Forall_forall in Hf |- *. intros z Hz.
    eapply Htr; [left|apply Hxy; lia|by apply Hf].
Qed.

Lemma filter_place (P : tmid → Prop) `{∀ y, Decision (P y)} l :
  ¬ P x → filter P (place key x l) = filter P l.
Proof.
  intros Hx. induction l as [|y l IH]; simpl; [by rewrite filter_cons_False|].
  destruct (_ <=? _).
  - rewrite !filter_cons, IH. done.
  - by rewrite filter_cons_False.
Qed.
End place.

Lemma testbit_deactivate tm : activated (deactivate tm) = false.
Proof.
  unfold activated, deactivate, with_flag, RT_TIMER_FLAG_ACTIVATED; cbn [flag].
  by rewrite Z.land_spec, Z.lnot_spec, andb_false_r by done.
Qed.

Lemma testbit_activate tm : activated (activate tm) = true.
Proof.
  unfold activated, activate, with_flag, RT_TIMER_FLAG_ACTIVATED; cbn [flag].
  by rewrite Z.lor_spec, orb_true_r.
Qed.

Lemma periodic_activate tm : periodic (activate tm) = periodic tm.
Proof.
  unfold periodic, activate, with_flag, RT_TIMER_FLAG_ACTIVATED; cbn [flag].
  by rewrite Z.lor_spec, orb_false_r.
Qed.

Lemma periodic_deactivate tm : periodic (deactivate tm) = periodic tm.
Proof.
  unfold periodic, deactivate, with_flag, RT_TIMER_FLAG_ACTIVATED; cbn [flag].
  by rewrite Z.land_spec, Z.lnot_spec, andb_true_r by done.
Qed.

(** The invariant only looks at the tick, the list and the timeouts. *)
Lemma remaining_ext ts ts' x :
  rt_tick ts' = rt_tick ts →
  timeout_tick <$> timers ts' !! x = timeout_tick <$> timers ts !! x →
  remaining ts' x = remaining ts x.
Proof.
  unfold remaining. intros ->.
  destruct (timers ts !! x), (timers ts' !! x); simpl; intros; simplify_eq; congruence.
Qed.

Lemma sorted_ext (f g : tmid → Z) l :
  (∀ x, x ∈ l → f x = g x) →
  StronglySorted (λ x y, f x <= f y) l → StronglySorted (λ x y, g x <= g y) l.
Proof.
  intros He. induction 1 as [|x l Hs IH Hf]; constructor.
  - apply IH. intros; apply He; by right.
  - rewrite Forall_forall in Hf |- *. intros y Hy.
    rewrite <- (He x), <- (He y) by (by left || by right). by apply Hf.
Qed.

Lemma sorted_filter (R : tmid → tmid → Prop) (P : tmid → Prop) `{∀ y, Decision (P y)} l :
  StronglySorted R l → StronglySorted R (filter P l).
Proof.
  induction 1 as [|x l Hs IH Hf]; [constructor|].
  rewrite filter_cons. case_decide; [|done]. constructor; [done|].
  rewrite Forall_forall in Hf |- *. intros y [_ Hy]%list_elem_of_filter. by apply Hf.
Qed.

Lemma ts_ok_ext lo ts ts' :
  rt_tick ts' = rt_tick ts → rt_timer_list ts' = rt_timer_list ts →
  (∀ x, x ∈ rt_timer_list ts → timeout_tick <$> timers ts' !! x = timeout_tick <$> timers ts !! x) →
  (∀ x tm, timers ts' !! x = Some tm → timer_range tm) →
  ts_ok lo ts → ts_ok lo ts'.
Proof.
  intros Ht Hl He Hr [T N X W S _].
  assert (Hrem : ∀ x, x ∈ rt_timer_list ts → remaining ts' x = remaining ts x)
    by (intros; apply remaining_ext; auto).
  constructor; rewrite ?Ht, ?Hl; try done.
  - intros x Hx. apply (fmap_is_Some timeout_tick). rewrite He by done.
    by apply fmap_is_Some, X.
  - intros x Hx. rewrite Hrem by done. by apply W.
  - eapply sorted_ext, S. intros x Hx. symmetry. by apply Hrem.
Qed.

Lemma ts_ok_weaken lo lo' ts : lo' <= lo → ts_ok lo ts → ts_ok lo' ts.
Proof. intros ? [? ? ? W ? ?]; constructor; try done. intros x Hx. specialize (W x Hx). lia. Qed.

Lemma ts_ok_remove lo x ts : ts_ok lo ts → ts_ok lo (_rt_timer_remove x ts).
Proof.
  intros [T N X W S R]. constructor; simpl; try done.
  - by apply NoDup_filter.
  - intros y [_ Hy]%list_elem_of_filter. by apply X.
  - intros y [_ Hy]%list_elem_of_filter. by apply W.
  - by apply sorted_filter.
Qed.

(** A timer outside the list can be rewritten freely. *)
Lemma ts_ok_set_other lo x tm ts :
  x ∉ rt_timer_list ts → timer_range tm → ts_ok lo ts → ts_ok lo (set_timer x tm ts).
Proof.
  intros Hx Hr H. apply (ts_ok_ext lo ts); try done; simpl.
  - intros y Hy. rewrite lookup_insert_ne by congruence. done.
  - intros y tm' [[-> ->]|[? ?]]%lookup_insert_Some; [done|]. by eapply ts_range.
Qed.

Lemma ts_ok_drop lo x ts : x ∉ rt_timer_list ts → ts_ok lo ts → ts_ok lo (drop_timer x ts).
Proof.
  intros Hx Hok. apply (ts_ok_ext lo ts); try done; simpl.
  - intros y Hy. rewrite lookup_delete_ne by congruence. done.
  - intros y tm' [_ Hl]%lookup_delete_Some. by eapply ts_range.
Qed.

Lemma ts_ok_set_same lo x tm tm' ts :
  timers ts !! x = Some tm → timeout_tick tm' = timeout_tick tm → timer_range tm' →
  ts_ok lo ts → ts_ok lo (set_timer x tm' ts).
Proof.
  intros Hx He Hr H. apply (ts_ok_ext lo ts); try done; simpl.
  - intros y Hy. destruct (decide (x = y)) as [->|].
    + rewrite lookup_insert_eq, Hx. simpl. congruence.
    + by rewrite lookup_insert_ne.
  - intros y tm1 [[-> ->]|[? ?]]%lookup_insert_Some; [done|]. by eapply ts_range.
Qed.

Lemma not_elem_remove x ts : x ∉ rt_timer_list (_rt_timer_remove x ts).
Proof. simpl. rewrite list_elem_of_filter. tauto. Qed.

Lemma remaining_new tick n :
  0 <= tick <= RT_TICK_MAX → 0 <= n < TICK_HALF → s32 (u32 (tick + n) - tick) = n.
Proof. rewrite tick_half_val. unfold RT_TICK_MAX. intros. word. Qed.

Definition started (now : Z) (tm : rt_timer) : rt_timer :=
  activate (with_timeout_tick (u32 (now + init_tick tm)) (deactivate tm)).

(** The state after [rt_timer_start]. *)
Definition start_result (x : tmid) (tm : rt_timer) (ts : timer_sys) : timer_sys :=
  let key y := if decide (y = x) then init_tick tm else remaining ts y in
  mk_ts (rt_tick ts) (<[x := started (rt_tick ts) tm]> (timers ts))
    (place key x (filter (λ y, y ≠ x) (rt_timer_list ts))) (u32 (random_nr ts + 1)).

Lemma rt_timer_start_eq lo x tm ts :
  -1 <= lo <= 0 → ts_ok lo ts → timers ts !! x = Some tm →
  rt_timer_start x ts =
    if init_tick tm <? TICK_HALF then Ok (start_result x tm ts) else Stop AssertFail.
Proof.
  intros Hlo Hok Hx. pose proof (ts_range _ _ Hok _ _ Hx) as Hr.
  unfold rt_timer_start, get_timer. rewrite Hx. simpl.
  change (RT_TICK_MAX / 2) with TICK_HALF.
  destruct (Z.ltb_spec (init_tick tm) TICK_HALF) as [Hi|]; [simpl|done].
  set (key := λ y, if decide (y = x) then init_tick tm else remaining ts y).
  rewrite (timer_insert_place _ _ _ (rt_tick ts) key).
  - unfold start_result. simpl. f_equal.
    unfold set_timer, set_timer_list, bump_random; simpl. by rewrite !insert_insert_eq.
  - unfold u32, RT_TICK_MAX. lia.
  - unfold key. rewrite decide_True by done.
    symmetry; apply remaining_new; [by eapply ts_tick|]. destruct Hr; lia.
  - unfold key. rewrite decide_True by done. destruct Hr; lia.
  - intros y [Hne Hy]%list_elem_of_filter. unfold key. rewrite decide_False by done.
    destruct (ts_exists _ _ Hok y Hy) as [t Ht]. exists t.
    rewrite !lookup_insert_ne by done. pose proof (ts_window _ _ Hok y Hy) as Hw.
    unfold remaining in *. rewrite Ht in *. split; [done|].
    split; [by eapply ts_range|]. split; [done|]. lia.
Qed.

Lemma remaining_start x tm ts y :
  0 <= rt_tick ts <= RT_TICK_MAX → 0 <= init_tick tm < TICK_HALF →
  remaining (start_result x tm ts) y = if decide (y = x) then init_tick tm else remaining ts y.
Proof.
  intros. unfold remaining. simpl. case_decide as Hd.
  - subst. rewrite lookup_insert_eq. simpl. by apply remaining_new.
  - by rewrite lookup_insert_ne.
Qed.

Lemma ts_ok_start lo x tm ts :
  -1 <= lo <= 0 → ts_ok lo ts → timers ts !! x = Some tm → init_tick tm < TICK_HALF →
  ts_ok lo (start_result x tm ts).
Proof.
  intros Hlo Hok Hx Hi. pose proof (ts_range _ _ Hok _ _ Hx) as [Hr1 Hr2].
  pose proof (ts_tick _ _ Hok) as HT.
  pose proof (ts_ok_remove lo x ts Hok) as [_ N X W S _]; simpl in *.
  constructor; [done| | | | |].
  - simpl. rewrite place_perm. apply NoDup_cons. split; [|done].
    rewrite list_elem_of_filter. tauto.
  - simpl. intros y. rewrite elem_of_place. intros [->|Hy].
    + rewrite lookup_insert_eq. eauto.
    + apply X in Hy. destruct (decide (x = y)) as [->|]; [rewrite lookup_insert_eq; eauto|].
      by rewrite lookup_insert_ne.
  - intros y Hy. simpl in Hy. rewrite remaining_start by lia. case_decide; [lia|].
    apply elem_of_place in Hy as [?|Hy]; [done|]. by apply W.
  - simpl. eapply (sorted_ext (λ y, if decide (y = x) then init_tick tm else remaining ts y)).
    { intros y _. symmetry. apply remaining_start; lia. }
    apply place_sorted.
    + intros y [Hne Hy]%list_elem_of_filter. rewrite (decide_True (P := x = x)) by done.
      by rewrite decide_False by done.
    + intros; lia.
    + eapply sorted_ext, S. intros y [Hne Hy]%list_elem_of_filter. by rewrite decide_False.
  - simpl. intros y tm' [[<- <-]|[? ?]]%lookup_insert_Some; [|by eapply ts_range].
    unfold timer_range; simpl. split; [unfold u32, RT_TICK_MAX; lia|done].
Qed.

(** *** The check loop *)
Lemma expired_remaining lo ts x :
  -1 <= lo → ts_ok lo ts → x ∈ rt_timer_list ts →
  expired_at ts x = true ↔ remaining ts x <= 0.
Proof.
  intros Hlo Hok Hx. pose proof (ts_window _ _ Hok x Hx) as Hw.
  destruct (ts_exists _ _ Hok x Hx) as [tm Htm].
  unfold expired_at, remaining, expired in *. rewrite Htm in *.
  rewrite tick_half_val in Hw. change (RT_TICK_MAX / 2) with 2147483647.
  split; [intros He%Z.ltb_lt|intros He; apply Z.ltb_lt]; word.
Qed.

(** If the first timer has not expired, none has. *)
Lemma expired_list_head lo ts x l :
  -1 <= lo → ts_ok lo ts → rt_timer_list ts = x :: l →
  expired_at ts x = false → expired_list ts = [].
Proof.
  intros Hlo Hok Hl Hx. unfold expired_list.
  assert (Hall : ∀ y, y ∈ rt_timer_list ts → expired_at ts y ≠ true).
  { intros y Hy He. apply (expired_remaining lo) in He; [|done..].
    assert (¬ remaining ts x <= 0) as Hn.
    { rewrite <- (expired_remaining lo) by (done || rewrite Hl; left). congruence. }
    pose proof (ts_sorted _ _ Hok) as Hs. rewrite Hl in Hs, Hy.
    apply StronglySorted_inv in Hs as [_ Hf]. rewrite Forall_forall in Hf.
    apply elem_of_cons in Hy as [->|Hy]; [done|]. specialize (Hf y Hy). lia. }
  clear Hl. induction (rt_timer_list ts) as [|y l' IH]; [done|].
  rewrite filter_cons_False by (apply Hall; left). apply IH.
  intros z Hz. apply Hall. by right.
Qed.

Lemma expired_at_other ts ts' y :
  rt_tick ts' = rt_tick ts → timers ts' !! y = timers ts !! y → expired_at ts' y = expired_at ts y.
Proof. unfold expired_at. by intros -> ->. Qed.

(** What firing the head does to the timers when the callback leaves them alone. *)
Definition fire_ts (x : tmid) (tm : rt_timer) (ts : timer_sys) : timer_sys :=
  let ts1 := set_timer x (deactivate tm) (_rt_timer_remove x ts) in
  if periodic tm && activated tm then start_result x (deactivate tm) ts1 else ts1.

(** A periodic timer must have a period the modular order can represent. *)
Definition rearm_ok (tm : rt_timer) : Prop := periodic tm = true → 0 < init_tick tm < TICK_HALF.

Lemma list_expired_ext ts ts' (l : list tmid) :
  (∀ y, y ∈ l → expired_at ts' y = expired_at ts y) →
  filter (λ y, expired_at ts' y = true) l = filter (λ y, expired_at ts y = true) l.
Proof.
  induction l as [|y l IH]; [done|]. intros He. rewrite !filter_cons.
  rewrite He by left. rewrite IH by (intros; apply He; by right). done.
Qed.

Lemma filter_remove_head (x : tmid) (l : list tmid) :
  x ∉ l → filter (λ y, y ≠ x) (x :: l) = l.
Proof.
  intros Hx. rewrite filter_cons_False by tauto.
  induction l as [|y l IH]; [done|]. apply not_elem_of_cons in Hx as [??].
  rewrite filter_cons_True by congruence. by rewrite IH.
Qed.

Lemma filter_remove_id (x : tmid) (l : list tmid) : x ∉ l → filter (λ y, y ≠ x) l = l.
Proof.
  intros Hx. rewrite <- (filter_remove_head x l Hx) at 2.
  by rewrite filter_cons_False by tauto.
Qed.

Lemma expired_list_start lo x tm ts :
  -1 <= lo <= 0 → ts_ok lo ts → timers ts !! x = Some tm → x ∉ rt_timer_list ts →
  0 < init_tick tm < TICK_HALF → expired_list (start_result x tm ts) = expired_list ts.
Proof.
  intros Hlo Hok Hx Hxl Hi. unfold expired_list at 1. cbn [rt_timer_list start_result].
  rewrite filter_place.
  - rewrite filter_remove_id by done. apply list_expired_ext. intros y Hy.
    apply expired_at_other; [done|]. simpl. rewrite lookup_insert_ne; congruence.
  - rewrite (expired_remaining lo); [|lia|apply ts_ok_start; done || lia|].
    + rewrite remaining_start by (lia || exact (ts_tick _ _ Hok)).
      rewrite decide_True by done. lia.
    + cbn [rt_timer_list start_result]. apply elem_of_place. by left.
Qed.

Lemma fire_ts_ok ts x tm l :
  ts_ok (-1) ts → rt_timer_list ts = x :: l → timers ts !! x = Some tm →
  rearm_ok tm → expired_at ts x = true →
  ts_ok (-1) (fire_ts x tm ts) ∧ expired_list ts = x :: expired_list (fire_ts x tm ts).
Proof.
  intros Hok Hl Hx Hre He.
  pose proof (ts_nodup _ _ Hok) as Hnd. rewrite Hl in Hnd. apply NoDup_cons in Hnd as [Hxl Hnd].
  set (ts1 := set_timer x (deactivate tm) (_rt_timer_remove x ts)).
  assert (Hok1 : ts_ok (-1) ts1).
  { apply ts_ok_set_other; [apply not_elem_remove| |by apply ts_ok_remove].
    exact (ts_range _ _ Hok _ _ Hx). }
  assert (Hrl : rt_timer_list ts1 = l).
  { simpl. rewrite Hl. by apply filter_remove_head. }
  assert (Hel : expired_list ts = x :: expired_list ts1).
  { unfold expired_list. rewrite Hl, Hrl. rewrite filter_cons_True by done. f_equal.
    symmetry. apply list_expired_ext. intros y Hy. apply expired_at_other; [done|].
    simpl. rewrite lookup_insert_ne; congruence. }
  unfold fire_ts. fold ts1. destruct (periodic tm && activated tm) eqn:Hpa; [|done].
  apply andb_true_iff in Hpa as [Hp _]. specialize (Hre Hp).
  assert (timers ts1 !! x = Some (deactivate tm)) by (simpl; by rewrite lookup_insert_eq).
  split; [by apply ts_ok_start; [lia|..|simpl; lia]|].
  rewrite (expired_list_start (-1)); [done|lia|done|done|by rewrite Hrl|simpl; lia].
Qed.

Section Check_theory.
Context {S : Type} `{HasTimers S} (call : timer_func → S → res S).

Lemma timer_fire_frame x l tm s s1 :
  ts_ok (-1) (get_ts s) → rt_timer_list (get_ts s) = x :: l →
  timers (get_ts s) !! x = Some tm → rearm_ok tm →
  call (timeout_func tm) (put_ts (_rt_timer_remove x (get_ts s)) s) = Ok s1 →
  get_ts s1 = _rt_timer_remove x (get_ts s) →
  timer_fire call x s = Ok (put_ts (fire_ts x tm (get_ts s)) s1).
Proof.
  intros Hok Hl Hx Hre Hc Hf. unfold timer_fire, get_timer. rewrite get_put_ts. simpl.
  rewrite Hx. simpl. rewrite Hc. simpl. rewrite Hf. simpl. rewrite Hx. simpl.
  unfold fire_ts. destruct (periodic tm && activated tm) eqn:Hpa; [|done].
  apply andb_true_iff in Hpa as [Hp _]. destruct (Hre Hp) as [Hi1 Hi2].
  rewrite get_put_ts.
  rewrite (rt_timer_start_eq (-1) x (deactivate tm)).
  - simpl. destruct (Z.ltb_spec (init_tick tm) TICK_HALF); [|lia].
    simpl. by rewrite put_put_ts.
  - lia.
  - apply ts_ok_set_other; [apply not_elem_remove| |by apply ts_ok_remove].
    exact (ts_range _ _ Hok _ _ Hx).
  - simpl. by rewrite lookup_insert_eq.
Qed.

(** Enough fuel: every firing decreases [m], whatever the callbacks do. *)
Lemma rt_timer_check_total (P : S → Prop) (m : S → nat) :
  (∀ s x l tm, P s → rt_timer_list (get_ts s) = x :: l → timers (get_ts s) !! x = Some tm →
     expired (rt_tick (get_ts s)) tm = true →
     ∃ s', timer_fire call x s = Ok s' ∧ P s' ∧ (m s' < m s)%nat) →
  (∀ s x, P s → x ∈ rt_timer_list (get_ts s) → is_Some (timers (get_ts s) !! x)) →
  ∀ fuel s, P s → (m s < fuel)%nat →
  ∃ s', rt_timer_check call fuel (rt_tick (get_ts s)) s = Ok s' ∧ P s' ∧
    match rt_timer_list (get_ts s') with
    | [] => True
    | x :: _ => expired_at (get_ts s') x = false
    end.
Proof.
  intros Hstep Hex. induction fuel as [|fuel IH]; intros s HP Hm; [lia|]. simpl.
  destruct (rt_timer_list (get_ts s)) as [|x l] eqn:Hl.
  { exists s. rewrite Hl. done. }
  destruct (Hex s x HP) as [tm Htm]; [rewrite Hl; left|].
  unfold get_timer. rewrite Htm. simpl.
  destruct (expired _ tm) eqn:He.
  - destruct (Hstep s x l tm HP Hl Htm He) as (s' & -> & HP' & Hlt). simpl.
    apply IH; [done|lia].
  - exists s. rewrite Hl. split; [done|]. split; [done|]. unfold expired_at. by rewrite Htm.
Qed.
End Check_theory.

(** ** Timers on their own: callbacks that are only recorded *)
#[global] Program Instance log_has_timers L : HasTimers (timer_sys * L) :=
  { get_ts := fst; put_ts := λ ts s, (ts, s.2) }.
Solve Obligations with by intros ? ? []|| by intros ? [].

Definition log_call (f : timer_func) (s : timer_sys * list timer_func) :
    res (timer_sys * list timer_func) := Ok (s.1, s.2 ++ [f]).

Definition func_of (ts : timer_sys) (x : tmid) : timer_func :=
  match timers ts !! x with Some tm => timeout_func tm | None => TF_user 0 end.

Definition rearms_ok (ts : timer_sys) : Prop :=
  ∀ x tm, x ∈ rt_timer_list ts → timers ts !! x = Some tm → rearm_ok tm.

Lemma fire_ts_lookup x tm ts y :
  y ≠ x → timers (fire_ts x tm ts) !! y = timers ts !! y.
Proof.
  intros. unfold fire_ts. destruct (_ && _); simpl; by rewrite !lookup_insert_ne by done.
Qed.

Lemma fire_ts_tick x tm ts : rt_tick (fire_ts x tm ts) = rt_tick ts.
Proof. unfold fire_ts. by destruct (_ && _). Qed.

Lemma fire_ts_rearms x tm ts :
  timers ts !! x = Some tm → rearm_ok tm → rearms_ok ts → rearms_ok (fire_ts x tm ts).
Proof.
  intros Hx Hre H y tm' Hy Hl. destruct (decide (y = x)) as [->|Hne].
  - assert (tm' = deactivate tm ∨ tm' = started (rt_tick ts) (deactivate tm)) as [->| ->].
    { revert Hl. unfold fire_ts. destruct (_ && _); simpl; rewrite ?lookup_insert_eq; naive_solver. }
    all: unfold rearm_ok, started; rewrite ?periodic_activate, ?periodic_deactivate.
    + apply Hre.
    + replace (periodic (with_timeout_tick _ _)) with (periodic (deactivate (deactivate tm))) by done.
      rewrite !periodic_deactivate. apply Hre.
  - rewrite fire_ts_lookup in Hl by done. apply (H y); [|done].
    revert Hy. unfold fire_ts. destruct (_ && _); simpl.
    + rewrite elem_of_place, list_elem_of_filter, list_elem_of_filter. tauto.
    + rewrite list_elem_of_filter. tauto.
Qed.

(** A timer after its expiry at tick [now]: armed again for a period from now, or off. *)
Definition rearmed (tm : rt_timer) : bool := periodic tm && activated tm.
Definition after_expiry (now : Z) (tm : rt_timer) : rt_timer :=
  if rearmed tm then started now (deactivate tm) else deactivate tm.

(** [ts'] is [ts] with the timers of [due] expired: these alone have changed, the
    periodic ones are on the list again and the others gone; timers that were
    not due keep their place among themselves. *)
Record expires (due : list tmid) (ts ts' : timer_sys) : Prop := {
  exp_timers y : timers ts' !! y =
    if decide (y ∈ due) then after_expiry (rt_tick ts) <$> timers ts !! y else timers ts !! y;
  exp_list y : y ∈ rt_timer_list ts' ↔
    y ∈ rt_timer_list ts ∧ (y ∈ due → rearmed <$> timers ts !! y = Some true);
  exp_order : filter (λ y, y ∉ due) (rt_timer_list ts') = filter (λ y, y ∉ due) (rt_timer_list ts);
}.

Lemma expires_none ts : expires [] ts ts.
Proof.
  split; [done| |done]. intros y. split; [|tauto]. intros Hy. split; [done|]. intros []%elem_of_nil.
Qed.

Lemma fire_ts_timers x tm ts : timers (fire_ts x tm ts) = <[x := after_expiry (rt_tick ts) tm]> (timers ts).
Proof.
  unfold fire_ts, after_expiry. fold (rearmed tm). destruct (rearmed tm); simpl; [|done].
  by rewrite insert_insert_eq.
Qed.

Lemma fire_ts_elem x tm ts y :
  y ∈ rt_timer_list (fire_ts x tm ts) ↔ if decide (y = x) then rearmed tm = true else y ∈ rt_timer_list ts.
Proof.
  unfold fire_ts. fold (rearmed tm). destruct (rearmed tm); simpl.
  - rewrite elem_of_place, !list_elem_of_filter. case_decide; tauto.
  - rewrite list_elem_of_filter. case_decide; [|tauto]. split; [tauto|done].
Qed.

Lemma filter_cons_notin (x : tmid) (due l : list tmid) :
  filter (λ y, y ∉ x :: due) l = filter (λ y, y ∉ due) (filter (λ y, y ≠ x) l).
Proof.
  rewrite list_filter_filter. apply list_filter_iff. intros y. rewrite not_elem_of_cons. tauto.
Qed.

Lemma filter_swap (x : tmid) (due l : list tmid) :
  filter (λ y, y ∉ due) (filter (λ y, y ≠ x) l) = filter (λ y, y ≠ x) (filter (λ y, y ∉ due) l).
Proof. rewrite !list_filter_filter. apply list_filter_iff. intros y. tauto. Qed.

Lemma fire_ts_order x tm ts :
  filter (λ y, y ≠ x) (rt_timer_list (fire_ts x tm ts)) = filter (λ y, y ≠ x) (rt_timer_list ts).
Proof.
  unfold fire_ts. destruct (_ && _); simpl.
  - rewrite filter_place by tauto. rewrite !list_filter_filter. apply list_filter_iff. tauto.
  - rewrite list_filter_filter. apply list_filter_iff. tauto.
Qed.

Lemma expires_cons x tm due ts ts' :
  timers ts !! x = Some tm → x ∈ rt_timer_list ts → x ∉ due →
  expires due (fire_ts x tm ts) ts' → expires (x :: due) ts ts'.
Proof.
  intros Hx Hl Hd [Ht Hi Ho]. split.
  - intros y. rewrite Ht, fire_ts_tick, fire_ts_timers. destruct (decide (y = x)) as [->|Hne].
    + rewrite (decide_False (P := x ∈ due)), (decide_True (P := x ∈ x :: due)), lookup_insert_eq, Hx by (done || left). done.
    + rewrite lookup_insert_ne by done. destruct (decide (y ∈ due)).
      * by rewrite decide_True by (by right).
      * by rewrite decide_False by (by apply not_elem_of_cons).
  - intros y. rewrite Hi, fire_ts_elem, fire_ts_timers, elem_of_cons. case_decide as Hy.
    + subst y. rewrite Hx. simpl. split; [intros [-> _]; done|]. intros [_ Hr].
      specialize (Hr ltac:(by left)). simplify_eq. done.
    + rewrite lookup_insert_ne by done. tauto.
  - rewrite !filter_cons_notin, !filter_swap, Ho, <- !filter_swap. by rewrite fire_ts_order.
Qed.

Lemma check_log_aux n : ∀ ts log fuel,
  ts_ok (-1) ts → rearms_ok ts → length (expired_list ts) = n → (n < fuel)%nat →
  ∃ ts', rt_timer_check log_call fuel (rt_tick ts) (ts, log) =
           Ok (ts', log ++ (func_of ts <$> expired_list ts)) ∧
         ts_ok (-1) ts' ∧ rt_tick ts' = rt_tick ts ∧ expired_list ts' = [] ∧
         expires (expired_list ts) ts ts'.
Proof.
  induction n as [n IH] using lt_wf_ind. intros ts log [|fuel] Hok Hre Hn Hf; [lia|].
  simpl. destruct (rt_timer_list ts) as [|x l] eqn:Hl.
  { exists ts. unfold expired_list. rewrite Hl. simpl. rewrite app_nil_r.
    split_and!; try done. apply expires_none. }
  destruct (ts_exists _ _ Hok x) as [tm Htm]; [rewrite Hl; left|].
  unfold get_timer. rewrite Htm. simpl.
  destruct (expired (rt_tick ts) tm) eqn:He.
  - assert (He' : expired_at ts x = true) by (unfold expired_at; by rewrite Htm).
    assert (Hrx : rearm_ok tm) by (eapply Hre; [rewrite Hl; left|done]).
    destruct (fire_ts_ok ts x tm l Hok Hl Htm Hrx He') as [Hok' Hel].
    rewrite (timer_fire_frame log_call x l tm (ts, log)
      (_rt_timer_remove x ts, log ++ [timeout_func tm])) by done. simpl.
    assert (Hnx : x ∉ expired_list (fire_ts x tm ts)).
    { pose proof (NoDup_filter (λ y, expired_at ts y = true) _ (ts_nodup _ _ Hok)) as Hnd.
      fold (expired_list ts) in Hnd. rewrite Hel in Hnd. by apply NoDup_cons in Hnd as [? _]. }
    rewrite Hel in Hn |- *. simpl in Hn.
    rewrite <- (fire_ts_tick x tm ts).
    destruct (IH (length (expired_list (fire_ts x tm ts))) ltac:(lia)
      (fire_ts x tm ts) (log ++ [timeout_func tm]) fuel) as (ts' & HE & ? & ? & ? & Hex);
      [done|by apply fire_ts_rearms|done|lia|].
    exists ts'. rewrite HE. split_and!; try done.
    + f_equal. f_equal. simpl. rewrite <- app_assoc. f_equal. simpl. f_equal.
      * unfold func_of. by rewrite Htm.
      * apply list_fmap_ext. intros i y Hy. unfold func_of. rewrite fire_ts_lookup; [done|].
        intros ->. by apply list_elem_of_lookup_2 in Hy.
    + eapply expires_cons; [done|rewrite Hl; left|done|done].
  - assert (Hx' : expired_at ts x = false) by (unfold expired_at; by rewrite Htm).
    assert (expired_list ts = []) as He' by (by eapply expired_list_head; [|done..]).
    exists ts. rewrite He'. simpl. rewrite app_nil_r. split_and!; try done. apply expires_none.
Qed.

(** When nothing is expired the window is the one of a quiet system. *)
Lemma ts_ok_quiet ts : ts_ok (-1) ts → expired_list ts = [] → ts_ok 0 ts.
Proof.
  intros Hok He. pose proof Hok as [? ? ? W ? ?]. constructor; try done.
  intros x Hx. specialize (W x Hx). split; [|lia].
  destruct (Z.leb_spec (remaining ts x) 0) as [Hr|]; [|lia].
  apply (expired_remaining (-1)) in Hr; [|done..].
  assert (x ∈ expired_list ts) as Hin by (apply list_elem_of_filter; done).
  rewrite He in Hin. by apply elem_of_nil in Hin.
Qed.

Lemma remaining_tick ts x :
  0 <= rt_tick ts <= RT_TICK_MAX → is_Some (timers ts !! x) → 0 <= remaining ts x →
  remaining (set_tick (u32 (rt_tick ts + 1)) ts) x = remaining ts x - 1.
Proof.
  unfold remaining, RT_TICK_MAX. simpl. intros ? [tm ->] ?. word.
Qed.

Lemma ts_ok_tick ts : ts_ok 0 ts → ts_ok (-1) (set_tick (u32 (rt_tick ts + 1)) ts).
Proof.
  intros [T N X W S R].
  assert (Hr : ∀ x, x ∈ rt_timer_list ts →
    remaining (set_tick (u32 (rt_tick ts + 1)) ts) x = remaining ts x - 1).
  { intros x Hx. apply remaining_tick; [done|by apply X|]. specialize (W x Hx). lia. }
  constructor; simpl; try done.
  - unfold u32, RT_TICK_MAX. lia.
  - intros x Hx. rewrite Hr by done. specialize (W x Hx). lia.
  - eapply (sorted_ext (λ x, remaining ts x - 1)); [intros x Hx; by rewrite Hr|].
    clear - S. induction S as [|x l S IH F]; constructor; [done|].
    rewrite Forall_forall in F |- *. intros y Hy. specialize (F y Hy). lia.
Qed.

Lemma stop_ok lo x tm ts :
  ts_ok lo ts → timers ts !! x = Some tm →
  ∃ ts', rt_timer_stop x ts = Ok (ts', activated tm) ∧ ts_ok lo ts' ∧
    (activated tm = false → ts' = ts) ∧
    (activated tm = true → ts' = set_timer x (deactivate tm) (_rt_timer_remove x ts)).
Proof.
  intros Hok Hx. unfold rt_timer_stop, get_timer. rewrite Hx. simpl.
  destruct (activated tm) eqn:Ha; simpl; [|exists ts; by split_and!].
  eexists. split_and!; [done| |done|done].
  apply ts_ok_set_other; [apply not_elem_remove| |by apply ts_ok_remove].
  exact (ts_range _ _ Hok _ _ Hx).
Qed.

(** ** Properties *)

(** [rt_timer_start] on a well-formed timer system stops exactly when the
    period does not fit the modular comparison ([RT_ASSERT]); otherwise it
    keeps the list ordered by time to expiry - also when the tick counter wraps
    - and queues the timer behind every timer that is due no later, keeping the
    order of the others. *)
Theorem rt_timer_start_spec lo x tm ts :
  -1 <= lo <= 0 → ts_ok lo ts → timers ts !! x = Some tm →
  if init_tick tm <? TICK_HALF then
    ∃ ts' l1 l2, rt_timer_start x ts = Ok ts' ∧ ts_ok lo ts' ∧
      rt_tick ts' = rt_tick ts ∧
      filter (λ y, y ≠ x) (rt_timer_list ts) = l1 ++ l2 ∧
      rt_timer_list ts' = l1 ++ x :: l2 ∧
      remaining ts' x = init_tick tm ∧
      (∀ y, y ∈ l1 → remaining ts' y <= init_tick tm) ∧
      (∀ y, y ∈ l2 → init_tick tm < remaining ts' y) ∧
      activated (started (rt_tick ts) tm) = true ∧
      timers ts' = <[x := started (rt_tick ts) tm]> (timers ts)
  else rt_timer_start x ts = Stop AssertFail.
Proof.
  intros Hlo Hok Hx. rewrite (rt_timer_start_eq lo x tm) by done.
  destruct (Z.ltb_spec (init_tick tm) TICK_HALF) as [Hi|]; [|done].
  pose proof (ts_tick _ _ Hok) as HT. pose proof (ts_range _ _ Hok _ _ Hx) as [_ Hr].
  assert (Hrem : ∀ y, remaining (start_result x tm ts) y =
    if decide (y = x) then init_tick tm else remaining ts y)
    by (intros; apply remaining_start; lia).
  pose proof (ts_ok_start lo x tm ts Hlo Hok Hx Hi) as Hok'.
  set (key := λ y, if decide (y = x) then init_tick tm else remaining ts y) in *.
  assert (Hsp : ∀ l, StronglySorted (λ a b, remaining ts a <= remaining ts b) l → x ∉ l →
    ∃ l1 l2, l = l1 ++ l2 ∧ place key x l = l1 ++ x :: l2 ∧
      (∀ y, y ∈ l1 → key y <= init_tick tm) ∧ (∀ y, y ∈ l2 → init_tick tm < key y)).
  { induction l as [|y l IH]; intros Hs Hxl.
    - exists [], []. simpl. split_and!; set_solver.
    - apply StronglySorted_inv in Hs as [Hs Hf]. apply not_elem_of_cons in Hxl as [Hxy Hxl].
      assert (Hkx : key x = init_tick tm) by (unfold key; by rewrite decide_True).
      simpl. destruct (Z.leb_spec (key y) (key x)) as [Hle|Hgt].
      + destruct (IH Hs Hxl) as (l1 & l2 & -> & -> & H1 & H2).
        exists (y :: l1), l2. split_and!; [done|done| |done].
        intros z [->|Hz]%elem_of_cons; [lia|by apply H1].
      + exists [], (y :: l). split_and!; [done|done|intros ? []%elem_of_nil|].
        rewrite Forall_forall in Hf.
        assert (Hky : key y = remaining ts y) by (unfold key; rewrite decide_False; congruence).
        intros z [->|Hz]%elem_of_cons; [lia|]. specialize (Hf z Hz).
        unfold key. rewrite decide_False by congruence. lia. }
  destruct (Hsp (filter (λ y, y ≠ x) (rt_timer_list ts))) as (l1 & l2 & E1 & E2 & H1 & H2).
  { apply sorted_filter, Hok. }
  { rewrite list_elem_of_filter. tauto. }
  exists (start_result x tm ts), l1, l2. split_and!; try done.
  - rewrite Hrem. by rewrite decide_True.
  - intros y Hy. rewrite Hrem. by apply H1.
  - intros y Hy. rewrite Hrem. by apply H2.
  - apply testbit_activate.
Qed.

Definition ts_demo : timer_sys :=
  mk_ts 4294967290 (<[TUser 0 := mk_timer 1 (TF_user 0) 3 4294967293]>
    (<[TUser 1 := mk_timer 3 (TF_user 1) 9 3]>
    {[TThread 7 := mk_timer 0 (TF_thread_timeout 7) 5 0]})) [TUser 0; TUser 1] 0.

Lemma ts_demo_ok : ts_ok 0 ts_demo.
Proof.
  constructor.
  - unfold RT_TICK_MAX. simpl. lia.
  - by apply (bool_decide_unpack (NoDup [TUser 0; TUser 1])); vm_compute.
  - intros x Hx. simpl in Hx. set_unfold in Hx. destruct Hx as [->|[->|[]]]; vm_compute; eauto.
  - intros x Hx. simpl in Hx. rewrite tick_half_val. set_unfold in Hx.
    destruct Hx as [->|[->|[]]];
      (match goal with |- context [remaining ts_demo ?y] =>
         let v := eval vm_compute in (remaining ts_demo y) in
         change (remaining ts_demo y) with v end); lia.
  - repeat constructor; vm_compute; congruence.
  - intros x tm Hx. unfold ts_demo in Hx; simpl in Hx. unfold timer_range, RT_TICK_MAX.
    repeat (apply lookup_insert_Some in Hx as [[<- <-]|[_ Hx]]; [simpl; lia|]).
    apply lookup_singleton_Some in Hx as [<- <-]. simpl; lia.
Qed.

Lemma rt_timer_start_spec_witness :
  ∃ ts' l1 l2, rt_timer_start (TThread 7) ts_demo = Ok ts' ∧ ts_ok 0 ts' ∧
    rt_timer_list ts' = l1 ++ TThread 7 :: l2.
Proof.
  pose proof (rt_timer_start_spec 0 (TThread 7) (mk_timer 0 (TF_thread_timeout 7) 5 0) ts_demo
    ltac:(lia) ts_demo_ok eq_refl) as (ts' & l1 & l2 & H1 & H2 & _ & _ & H3 & _).
  exists ts', l1, l2. by split_and!.
Defined.

(** C4. One tick of the clock: the counter advances modulo 2^32 and
    [rt_timer_check], run with any fuel above the number of running timers,
    terminates and calls exactly the timeout functions of the timers that are
    due, in list order.  Of the timers only those have changed ([expires]): a periodic one is
    on the list again, active and due a period from this tick, a one-shot one is
    off the list and inactive; the others keep their time-outs and their
    order.  No due timer is left and the list is in the order of expiry. *)
Theorem rt_timer_check_fires_expired ts log fuel :
  ts_ok 0 ts → rearms_ok ts → (length (rt_timer_list ts) < fuel)%nat →
  let ts1 := set_tick (u32 (rt_tick ts + 1)) ts in
  ∃ ts', rt_timer_check log_call fuel (rt_tick ts1) (ts1, log) =
           Ok (ts', log ++ (func_of ts1 <$> expired_list ts1)) ∧
         ts_ok 0 ts' ∧ rt_tick ts' = rt_tick ts1 ∧ expired_list ts' = [] ∧
         expires (expired_list ts1) ts1 ts'.
Proof.
  intros Hok Hre Hf ts1.
  destruct (check_log_aux (length (expired_list ts1)) ts1 log fuel) as (ts' & ? & ? & ? & ? & ?);
    [by apply ts_ok_tick|done|done| |].
  - eapply Nat.le_lt_trans; [|exact Hf]. unfold expired_list. apply length_filter.
  - exists ts'. split_and!; try done. by apply ts_ok_quiet.
Qed.

Lemma rt_timer_check_fires_expired_witness :
  let ts1 := set_tick (u32 (rt_tick ts_demo + 1)) ts_demo in
  rearms_ok ts_demo ∧
  ∃ ts', rt_timer_check log_call 3 (rt_tick ts1) (ts1, []) =
           Ok (ts', [] ++ (func_of ts1 <$> expired_list ts1)) ∧
         ts_ok 0 ts' ∧ rt_tick ts' = rt_tick ts1 ∧ expired_list ts' = [] ∧
         expires (expired_list ts1) ts1 ts'.
Proof.
  assert (Hre : rearms_ok ts_demo).
  { intros x tm Hx Hl. simpl in Hx.
    set_unfold in Hx. unfold rearm_ok. rewrite tick_half_val.
    destruct Hx as [->|[->|[]]]; vm_compute in Hl; simplify_eq; simpl; [done|lia]. }
  split; [exact Hre|].
  apply (rt_timer_check_fires_expired ts_demo [] 3 ts_demo_ok Hre). vm_compute. lia.
Defined.

(** [rt_timer_stop] fails exactly on a timer whose flag is inactive, and
    then changes nothing; otherwise the timer leaves the list and is inactive,
    and the other timers keep their order. *)
Theorem rt_timer_stop_spec lo x tm ts :
  ts_ok lo ts → timers ts !! x = Some tm →
  ∃ ts', rt_timer_stop x ts = Ok (ts', activated tm) ∧ ts_ok lo ts' ∧
    (activated tm = false → ts' = ts) ∧
    (activated tm = true → (x ∉ rt_timer_list ts') ∧ timers ts' !! x = Some (deactivate tm) ∧
       rt_timer_list ts' = filter (λ y, y ≠ x) (rt_timer_list ts)).
Proof.
  intros Hok Hx. destruct (stop_ok lo x tm ts Hok Hx) as (ts' & ? & ? & ? & Ha).
  exists ts'. split_and!; try done. intros HA. rewrite (Ha HA).
  split_and!; [apply not_elem_remove|apply lookup_insert_eq|done].
Qed.

Lemma rt_timer_stop_spec_witness :
  ∃ ts', rt_timer_stop (TUser 0) ts_demo = Ok (ts', true) ∧ TUser 0 ∉ rt_timer_list ts'.
Proof.
  destruct (rt_timer_stop_spec 0 (TUser 0) (mk_timer 1 (TF_user 0) 3 4294967293) ts_demo
    ts_demo_ok eq_refl) as (ts' & H1 & _ & _ & H2).
  exists ts'. split; [exact H1|]. apply H2. reflexivity.
Defined.

(** A one-shot timer that its own timeout function starts again is left
    running but marked inactive: [rt_timer_check] clears the flag after the
    callback, so the timer is on the list, [rt_timer_stop] refuses to stop it,
    and it will fire again. *)
Theorem one_shot_restart_is_unstoppable x tm l ts :
  ts_ok (-1) ts → rt_timer_list ts = x :: l → timers ts !! x = Some tm →
  periodic tm = false → init_tick tm < TICK_HALF →
  ∃ ts', timer_fire (λ _ s, rt_timer_start x s) x ts = Ok ts' ∧
    x ∈ rt_timer_list ts' ∧ rt_timer_stop x ts' = Ok (ts', false).
Proof.
  intros Hok Hl Hx Hp Hi. unfold timer_fire, get_timer. simpl. rewrite Hx. simpl.
  rewrite (rt_timer_start_eq (-1) x tm); [|lia|by apply ts_ok_remove|done].
  destruct (Z.ltb_spec (init_tick tm) TICK_HALF); [simpl|lia].
  rewrite lookup_insert_eq. simpl.
  replace (periodic (started (rt_tick ts) tm)) with (periodic tm).
  2:{ unfold started. rewrite periodic_activate.
      change (periodic (with_timeout_tick _ _)) with (periodic (deactivate tm)).
      by rewrite periodic_deactivate. }
  rewrite Hp. simpl. eexists. split_and!; [done| |].
  - simpl. rewrite elem_of_place. by left.
  - unfold rt_timer_stop, get_timer. simpl. rewrite lookup_insert_eq. simpl.
    by rewrite testbit_deactivate.
Qed.

Lemma one_shot_restart_is_unstoppable_witness :
  let ts := set_tick 4294967293 (set_timer_list [TUser 0] ts_demo) in
  ts_ok (-1) ts ∧
  ∃ ts', timer_fire (λ _ s, rt_timer_start (TUser 0) s) (TUser 0) ts = Ok ts' ∧
    TUser 0 ∈ rt_timer_list ts' ∧ rt_timer_stop (TUser 0) ts' = Ok (ts', false).
Proof.
  set (ts := set_tick 4294967293 (set_timer_list [TUser 0] ts_demo)).
  assert (Hok : ts_ok (-1) ts).
  { destruct ts_demo_ok as [? ? X ? ? R]. constructor.
    - unfold RT_TICK_MAX. simpl. lia.
    - apply NoDup_singleton.
    - intros x ->%list_elem_of_singleton. apply X. left.
    - intros x ->%list_elem_of_singleton. rewrite tick_half_val.
      change (remaining ts (TUser 0)) with 0. lia.
    - repeat constructor.
    - exact R. }
  split; [exact Hok|].
  apply (one_shot_restart_is_unstoppable (TUser 0) (mk_timer 1 (TF_user 0) 3 4294967293) []);
    [exact Hok|reflexivity|reflexivity|reflexivity|vm_compute; reflexivity].
Defined.
