(* ===== verification/KMemory.v ===== *)
(** * Memory services of [src/kservice.c]

    [rt_memset], [rt_memcpy], [rt_memmove] and [rt_memcmp] over a byte-addressed
    memory.  Only mapped addresses can be read or written, so an [Ok] result is
    also a statement of memory safety.  [rt_memset] and [rt_memcpy] are the
    word-at-a-time versions (the build does not define [RT_TINY_SIZE]); their
    reference is the byte loop of the [RT_TINY_SIZE] branch of the same
    function. *)
From S2P Require Import Prelude.
Local Open Scope Z_scope.

(** Bytes are kept as values in [0, 256). *)
Definition mem := gmap Z Z.

Definition load8 (m : gmap Z Z) (a : Z) : res Z := of_option OutOfBounds (m !! a).
Definition store8 (m : gmap Z Z) (a v : Z) : res (gmap Z Z) :=
  _ ← load8 m a; Ok (<[a := u8 v]> m).

(** Little-endian words, as on the LS1C. *)
Definition load32 (m : gmap Z Z) (a : Z) : res Z :=
  b0 ← load8 m a; b1 ← load8 m (a + 1); b2 ← load8 m (a + 2); b3 ← load8 m (a + 3);
  Ok (b0 + 256 * b1 + 65536 * b2 + 16777216 * b3).
Definition store32 (m : gmap Z Z) (a v : Z) : res (gmap Z Z) :=
  m ← store8 m a v; m ← store8 m (a + 1) (v / 256);
  m ← store8 m (a + 2) (v / 65536); store8 m (a + 3) (v / 16777216).

(** ** The byte loops: [while (count--) ...] *)
Fixpoint set_bytes (count : nat) (m : gmap Z Z) (xs c : Z) : res (gmap Z Z) :=
  match count with
  | O => Ok m
  | S count => m ← store8 m xs c; set_bytes count m (xs + 1) c
  end.

Fixpoint copy_bytes (count : nat) (m : gmap Z Z) (tmp s : Z) : res (gmap Z Z) :=
  match count with
  | O => Ok m
  | S count => v ← load8 m s; m ← store8 m tmp v; copy_bytes count m (tmp + 1) (s + 1)
  end.

(** [while (n--) *(--tmp) = *(--s)] *)
Fixpoint copy_bytes_down (n : nat) (m : gmap Z Z) (tmp s : Z) : res (gmap Z Z) :=
  match n with
  | O => Ok m
  | S n => v ← load8 m (s - 1); m ← store8 m (tmp - 1) v; copy_bytes_down n m (tmp - 1) (s - 1)
  end.

(** ** The word loops *)
Definition set_word (m : gmap Z Z) (a w : Z) : res (gmap Z Z) := store32 m a w.
Definition copy_word (m : gmap Z Z) (d s : Z) : res (gmap Z Z) :=
  v ← load32 m s; store32 m d v.

(** The two loops share their cursor and remaining count; [fuel] bounds the
    number of iterations. *)
Fixpoint set_words4 (fuel : nat) (m : gmap Z Z) (a w count : Z) : res (gmap Z Z * Z * Z) :=
  if count <? 16 then Ok (m, a, count) else
  match fuel with
  | O => Stop OutOfFuel
  | S fuel =>
      m ← set_word m a w; m ← set_word m (a + 4) w;
      m ← set_word m (a + 8) w; m ← set_word m (a + 12) w;
      set_words4 fuel m (a + 16) w (count - 16)
  end.

Fixpoint set_words1 (fuel : nat) (m : gmap Z Z) (a w count : Z) : res (gmap Z Z * Z * Z) :=
  if count <? 4 then Ok (m, a, count) else
  match fuel with
  | O => Stop OutOfFuel
  | S fuel => m ← set_word m a w; set_words1 fuel m (a + 4) w (count - 4)
  end.

Definition rt_memset (m : gmap Z Z) (s c count : Z) : res (gmap Z Z) :=
  let d := Z.land c 255 in
  let fuel := Z.to_nat count in
  if negb (count <? 4) && (Z.land s 3 =? 0) then
    let buffer := Z.lor (Z.shiftl d 8) d in
    let buffer := Z.lor buffer (u32 (Z.shiftl buffer 16)) in
    '(m, aligned_addr, count) ← set_words4 fuel m s buffer count;
    '(m, aligned_addr, count) ← set_words1 fuel m aligned_addr buffer count;
    set_bytes (Z.to_nat count) m aligned_addr d
  else set_bytes (Z.to_nat count) m s d.

Fixpoint copy_words4 (fuel : nat) (m : gmap Z Z) (d s len : Z) : res (gmap Z Z * Z * Z * Z) :=
  if len <? 16 then Ok (m, d, s, len) else
  match fuel with
  | O => Stop OutOfFuel
  | S fuel =>
      m ← copy_word m d s; m ← copy_word m (d + 4) (s + 4);
      m ← copy_word m (d + 8) (s + 8); m ← copy_word m (d + 12) (s + 12);
      copy_words4 fuel m (d + 16) (s + 16) (len - 16)
  end.

Fixpoint copy_words1 (fuel : nat) (m : gmap Z Z) (d s len : Z) : res (gmap Z Z * Z * Z * Z) :=
  if len <? 4 then Ok (m, d, s, len) else
  match fuel with
  | O => Stop OutOfFuel
  | S fuel => m ← copy_word m d s; copy_words1 fuel m (d + 4) (s + 4) (len - 4)
  end.

(** [int len = count], but the comparisons with [sizeof] are unsigned: [len] is
    kept as its unsigned image.  Only the final [while (len--)] sees the sign: a
    negative [int] would be counted down past [INT_MIN]. *)
Definition rt_memcpy (m : gmap Z Z) (dst src count : Z) : res (gmap Z Z) :=
  let len := u32 count in
  let fuel := Z.to_nat len in
  if negb (len <? 16) && (Z.lor (Z.land src 3) (Z.land dst 3) =? 0) then
    '(m, dst, src, len) ← copy_words4 fuel m dst src len;
    '(m, dst, src, len) ← copy_words1 fuel m dst src len;
    copy_bytes (Z.to_nat len) m dst src
  else
    _ ← require OutOfBounds (0 <=? s32 len);
    copy_bytes (Z.to_nat len) m dst src.

Definition rt_memmove (m : gmap Z Z) (dest src n : Z) : res (gmap Z Z) :=
  if (src <? dest) && (dest <? src + n)
  then copy_bytes_down (Z.to_nat n) m (dest + n) (src + n)
  else copy_bytes (Z.to_nat n) m dest src.

Fixpoint memcmp_loop (count : nat) (m : gmap Z Z) (su1 su2 : Z) : res Z :=
  match count with
  | O => Ok 0
  | S count =>
      a ← load8 m su1; b ← load8 m su2;
      if a - b =? 0 then memcmp_loop count m (su1 + 1) (su2 + 1) else Ok (a - b)
  end.
Definition rt_memcmp (m : gmap Z Z) (cs ct count : Z) : res Z :=
  memcmp_loop (Z.to_nat count) m cs ct.

(** ** Theory *)
Definition mapped (m : gmap Z Z) (a n : Z) : Prop := ∀ i, a <= i < a + n → is_Some (m !! i).
Definition bytes_ok (m : gmap Z Z) : Prop := ∀ a v, m !! a = Some v → 0 <= v < 256.

Lemma store8_ok m a v : is_Some (m !! a) → store8 m a v = Ok (<[a := u8 v]> m).
Proof. intros [x Hx]. unfold store8, load8. by rewrite Hx. Qed.

Lemma load8_ok m a v : m !! a = Some v → load8 m a = Ok v.
Proof. unfold load8. by intros ->. Qed.

Lemma is_Some_insert (m : gmap Z Z) a v i : is_Some (m !! i) → is_Some (<[a := v]> m !! i).
Proof. intros. rewrite lookup_insert. case_decide; eauto. Qed.

Lemma mapped_insert m a v b n : mapped m b n → mapped (<[a := v]> m) b n.
Proof. intros H i Hi. apply is_Some_insert. by apply H. Qed.

Lemma mapped_sub m a n b k : mapped m a n → a <= b → b + k <= a + n → mapped m b k.
Proof. intros H ? ? i ?. apply H. lia. Qed.

#[export] Hint Resolve is_Some_insert mapped_insert : rtt.

Lemma bytes_ok_insert m a v : bytes_ok m → bytes_ok (<[a := u8 v]> m).
Proof. intros H i w [[<- <-]|[? ?]]%lookup_insert_Some; [unfold u8; lia|by eapply H]. Qed.

(** Splitting the byte loops. *)
Lemma set_bytes_add n k m xs c :
  set_bytes (n + k) m xs c = (m ← set_bytes n m xs c; set_bytes k m (xs + Z.of_nat n) c).
Proof.
  revert m xs. induction n as [|n IH]; intros m xs.
  - simpl. f_equal; lia.
  - cbn [Nat.add set_bytes]. destruct (store8 m xs c); simpl; [|done].
    rewrite IH. replace (xs + 1 + Z.of_nat n) with (xs + Z.of_nat (S n)) by lia. done.
Qed.

Lemma copy_bytes_add n k m d s :
  copy_bytes (n + k) m d s =
    (m ← copy_bytes n m d s; copy_bytes k m (d + Z.of_nat n) (s + Z.of_nat n)).
Proof.
  revert m d s. induction n as [|n IH]; intros m d s.
  - simpl. f_equal; lia.
  - cbn [Nat.add copy_bytes]. destruct (load8 m s); simpl; [|done].
    destruct (store8 m d a); simpl; [|done].
    rewrite IH. replace (d + 1 + Z.of_nat n) with (d + Z.of_nat (S n)) by lia.
    replace (s + 1 + Z.of_nat n) with (s + Z.of_nat (S n)) by lia. done.
Qed.

(** *** Words are four bytes *)
Lemma word_bytes b0 b1 b2 b3 :
  0 <= b0 < 256 → 0 <= b1 < 256 → 0 <= b2 < 256 → 0 <= b3 < 256 →
  let w := b0 + 256 * b1 + 65536 * b2 + 16777216 * b3 in
  u8 w = b0 ∧ u8 (w / 256) = b1 ∧ u8 (w / 65536) = b2 ∧ u8 (w / 16777216) = b3.
Proof.
  intros H0 H1 H2 H3 w. unfold u8.
  assert (E1 : w / 256 = b1 + 256 * b2 + 65536 * b3)
    by (symmetry; apply (Z.div_unique w 256 _ b0); unfold w; lia).
  assert (E2 : w / 65536 = b2 + 256 * b3)
    by (symmetry; apply (Z.div_unique w 65536 _ (b0 + 256 * b1)); unfold w; lia).
  assert (E3 : w / 16777216 = b3)
    by (symmetry; apply (Z.div_unique w 16777216 _ (b0 + 256 * b1 + 65536 * b2)); unfold w; lia).
  rewrite E1, E2, E3. repeat split.
  - symmetry; apply (Z.mod_unique w 256 (b1 + 256 * b2 + 65536 * b3)); unfold w; lia.
  - symmetry; apply (Z.mod_unique _ 256 (b2 + 256 * b3)); lia.
  - symmetry; apply (Z.mod_unique _ 256 b3); lia.
  - apply Z.mod_small; lia.
Qed.

Ltac mapped_steps Hm :=
  repeat match goal with
    | |- context [store8 ?m ?a ?v] =>
        rewrite (store8_ok m a v) by (eauto 8 with rtt); cbn [mbind res_bind]
    end.

Lemma set_word_bytes m a d :
  mapped m a 4 → 0 <= d < 256 →
  set_word m a (d + 256 * d + 65536 * d + 16777216 * d) = set_bytes 4 m a d.
Proof.
  intros Hm Hd. unfold set_word, store32. simpl.
  destruct (word_bytes d d d d) as (E0 & E1 & E2 & E3); [lia..|].
  assert (∀ i, a <= i < a + 4 → is_Some (m !! i)) as Hs by done.
  replace (a + 1 + 1) with (a + 2) by lia. replace (a + 2 + 1) with (a + 3) by lia.
  rewrite !store8_ok by (repeat apply is_Some_insert; apply Hs; lia). simpl.
  rewrite !store8_ok by (repeat apply is_Some_insert; apply Hs; lia). simpl.
  rewrite !store8_ok by (repeat apply is_Some_insert; apply Hs; lia). simpl.
  rewrite !store8_ok by (repeat apply is_Some_insert; apply Hs; lia). simpl.
  unfold u8 in *. rewrite E0, E1, E2, E3. rewrite !(Z.mod_small d) by lia. done.
Qed.

Lemma set_bytes_mapped n m a d :
  mapped m a (Z.of_nat n) → ∃ m', set_bytes n m a d = Ok m' ∧
    (∀ b k, mapped m b k → mapped m' b k).
Proof.
  revert m a. induction n as [|n IH]; intros m a Hm; simpl.
  { eauto. }
  rewrite store8_ok by (apply Hm; lia). simpl.
  destruct (IH (<[a := u8 d]> m) (a + 1)) as (m' & -> & Hm').
  { apply mapped_insert. eapply mapped_sub; [done|lia..]. }
  exists m'. split; [done|]. intros. by apply Hm', mapped_insert.
Qed.

Lemma set_bytes_4 k m a d m1 :
  set_bytes 4 m a d = Ok m1 → set_bytes (4 + k) m a d = set_bytes k m1 (a + 4) d.
Proof. intros E. by rewrite set_bytes_add, E. Qed.

Lemma set_words1_bytes fuel : ∀ m a d count,
  0 <= count → (Z.to_nat count <= fuel)%nat → mapped m a count → 0 <= d < 256 →
  ∃ m' a' n', set_words1 fuel m a (d + 256 * d + 65536 * d + 16777216 * d) count = Ok (m', a', n') ∧
    mapped m' a' n' ∧ 0 <= n' < 4 ∧
    set_bytes (Z.to_nat count) m a d = set_bytes (Z.to_nat n') m' a' d.
Proof.
  induction fuel as [|fuel IH]; intros m a d count Hc Hf Hm Hd; cbn [set_words1].
  - replace count with 0 in * by lia. simpl. exists m, a, 0. done.
  - destruct (Z.ltb_spec count 4); [exists m, a, count; split_and!; done || lia|].
    rewrite set_word_bytes by (done || (eapply mapped_sub; [done|lia..])).
    destruct (set_bytes_mapped 4 m a d) as (m1 & E1 & Hm1); [eapply mapped_sub; [done|lia..]|].
    rewrite E1. cbn [mbind res_bind].
    destruct (IH m1 (a + 4) d (count - 4)) as (m' & a' & n' & E & Hm' & Hn' & Es);
      [lia|lia|apply Hm1; eapply mapped_sub; [done|lia..]|done|].
    exists m', a', n'. split_and!; try done || lia.
    replace (Z.to_nat count) with (4 + Z.to_nat (count - 4))%nat by lia.
    by rewrite (set_bytes_4 _ _ _ _ _ E1).
Qed.

Lemma set_words4_bytes fuel : ∀ m a d count,
  0 <= count → (Z.to_nat count <= fuel)%nat → mapped m a count → 0 <= d < 256 →
  ∃ m' a' n', set_words4 fuel m a (d + 256 * d + 65536 * d + 16777216 * d) count = Ok (m', a', n') ∧
    mapped m' a' n' ∧ (0 <= n' < 16 ∧ n' <= count) ∧
    set_bytes (Z.to_nat count) m a d = set_bytes (Z.to_nat n') m' a' d.
Proof.
  induction fuel as [|fuel IH]; intros m a d count Hc Hf Hm Hd; cbn [set_words4].
  - replace count with 0 in * by lia. simpl. exists m, a, 0. done.
  - destruct (Z.ltb_spec count 16); [exists m, a, count; split_and!; done || lia|].
    assert (Hstep : ∀ m0 b, mapped m0 b 4 → ∃ m1,
      set_word m0 b (d + 256 * d + 65536 * d + 16777216 * d) = Ok m1 ∧
      set_bytes 4 m0 b d = Ok m1 ∧ (∀ c k, mapped m0 c k → mapped m1 c k)).
    { intros m0 b Hb. rewrite set_word_bytes by done.
      destruct (set_bytes_mapped 4 m0 b d) as (m1 & ? & ?); [done|]. eauto. }
    destruct (Hstep m a) as (m1 & W1 & B1 & M1); [eapply mapped_sub; [done|lia..]|].
    destruct (Hstep m1 (a + 4)) as (m2 & W2 & B2 & M2); [apply M1; eapply mapped_sub; [done|lia..]|].
    destruct (Hstep m2 (a + 8)) as (m3 & W3 & B3 & M3); [apply M2, M1; eapply mapped_sub; [done|lia..]|].
    destruct (Hstep m3 (a + 12)) as (m4 & W4 & B4 & M4); [apply M3, M2, M1; eapply mapped_sub; [done|lia..]|].
    rewrite W1. cbn [mbind res_bind]. rewrite W2. cbn [mbind res_bind].
    rewrite W3. cbn [mbind res_bind]. rewrite W4. cbn [mbind res_bind].
    destruct (IH m4 (a + 16) d (count - 16)) as (m' & a' & n' & E & Hm' & Hn' & Es);
      [lia|lia|apply M4, M3, M2, M1; eapply mapped_sub; [done|lia..]|done|].
    exists m', a', n'. split_and!; try done || lia.
    replace (Z.to_nat count) with (4 + (4 + (4 + (4 + Z.to_nat (count - 16)))))%nat by lia.
    rewrite (set_bytes_4 _ _ _ _ _ B1), (set_bytes_4 _ _ _ _ _ B2).
    rewrite <- !Z.add_assoc. simpl (4 + 4).
    rewrite (set_bytes_4 _ _ _ _ _ B3), <- !Z.add_assoc. simpl (8 + 4).
    rewrite (set_bytes_4 _ _ _ _ _ B4), <- !Z.add_assoc. exact Es.
Qed.

Lemma memset_buffer d : 0 <= d < 256 →
  let buffer := Z.lor (Z.shiftl d 8) d in
  Z.lor buffer (u32 (Z.shiftl buffer 16)) = d + 256 * d + 65536 * d + 16777216 * d.
Proof.
  intros Hd.
  assert (H : forallb (λ n, let d := Z.of_nat n in let b := Z.lor (Z.shiftl d 8) d in
    Z.lor b (u32 (Z.shiftl b 16)) =? d + 256 * d + 65536 * d + 16777216 * d) (seq 0 256) = true)
    by (vm_compute; reflexivity).
  rewrite forallb_forall in H. specialize (H (Z.to_nat d)).
  rewrite Z2Nat.id in H by lia. apply Z.eqb_eq, H. apply in_seq. lia.
Qed.

Lemma land_ff c : 0 <= Z.land c 255 < 256.
Proof. change 255 with (Z.ones 8). rewrite Z.land_ones by lia. lia. Qed.

Lemma set_bytes_lookup n : ∀ m a d m', set_bytes n m a d = Ok m' →
  ∀ i, m' !! i = if (a <=? i) && (i <? a + Z.of_nat n) then Some (u8 d) else m !! i.
Proof.
  induction n as [|n IH]; intros m a d m'; simpl.
  - intros [= ->] i. destruct (Z.leb_spec a i), (Z.ltb_spec i (a + Z.of_nat 0)); simpl; done || lia.
  - intros (m1 & E1 & E)%bind_ok_inv i. apply IH with (i := i) in E.
    unfold store8 in E1. apply bind_ok_inv in E1 as (v & _ & [= <-]).
    rewrite E. destruct (decide (a = i)) as [->|];
      rewrite ?lookup_insert_eq, ?lookup_insert_ne by done;
      destruct (Z.leb_spec (a + 1) i) || destruct (Z.leb_spec (i + 1) i);
      destruct (Z.ltb_spec i (a + 1 + Z.of_nat n)) || destruct (Z.ltb_spec i (i + 1 + Z.of_nat n));
      destruct (Z.leb_spec a i) || destruct (Z.leb_spec i i);
      destruct (Z.ltb_spec i (a + Z.of_nat (S n))) || destruct (Z.ltb_spec i (i + Z.of_nat (S n)));
      simpl; try done; lia.
Qed.

(** *** [rt_memcpy]: words of two areas whose distance is a multiple of four *)
Lemma copy_word_bytes m d s :
  bytes_ok m → mapped m s 4 → mapped m d 4 → (d = s ∨ d + 4 <= s ∨ s + 4 <= d) →
  copy_word m d s = copy_bytes 4 m d s.
Proof.
  intros Hb Hs Hd Hds.
  assert (∀ i, 0 <= i < 4 → ∃ v, m !! (s + i) = Some v ∧ 0 <= v < 256) as Hv.
  { intros i Hi. destruct (Hs (s + i)) as [v Hv]; [lia|]. eauto. }
  destruct (Hv 0) as (b0 & L0 & R0); [lia|]. destruct (Hv 1) as (b1 & L1 & R1); [lia|].
  destruct (Hv 2) as (b2 & L2 & R2); [lia|]. destruct (Hv 3) as (b3 & L3 & R3); [lia|].
  rewrite Z.add_0_r in L0.
  destruct (word_bytes b0 b1 b2 b3) as (E0 & E1 & E2 & E3); [done..|].
  unfold copy_word, load32, store32. unfold load8 at 1 2 3 4.
  rewrite L0, L1, L2, L3. cbn [of_option mbind res_bind].
  assert (∀ i, d <= i < d + 4 → is_Some (m !! i)) as Hd' by done.
  rewrite (store8_ok m d) by (apply Hd'; lia). cbn [mbind res_bind].
  rewrite store8_ok by (repeat apply is_Some_insert; apply Hd'; lia). cbn [mbind res_bind].
  rewrite store8_ok by (repeat apply is_Some_insert; apply Hd'; lia). cbn [mbind res_bind].
  rewrite store8_ok by (repeat apply is_Some_insert; apply Hd'; lia).
  rewrite E0, E1, E2, E3. cbn [copy_bytes].
  replace (d + 1 + 1) with (d + 2) by lia. replace (d + 2 + 1) with (d + 3) by lia.
  replace (s + 1 + 1) with (s + 2) by lia. replace (s + 2 + 1) with (s + 3) by lia.
  assert (Hld : ∀ m' a v, m' !! a = Some v → load8 m' a = Ok v) by (apply load8_ok).
  rewrite (Hld _ _ _ L0). cbn [mbind res_bind].
  rewrite (store8_ok m d) by (apply Hd'; lia). cbn [mbind res_bind].
  rewrite (Hld _ (s + 1) b1) by (rewrite lookup_insert_ne by lia; done). cbn [mbind res_bind].
  rewrite store8_ok by (repeat apply is_Some_insert; apply Hd'; lia). cbn [mbind res_bind].
  rewrite (Hld _ (s + 2) b2) by (rewrite !lookup_insert_ne by lia; done). cbn [mbind res_bind].
  rewrite store8_ok by (repeat apply is_Some_insert; apply Hd'; lia). cbn [mbind res_bind].
  rewrite (Hld _ (s + 3) b3) by (rewrite !lookup_insert_ne by lia; done). cbn [mbind res_bind].
  rewrite store8_ok by (repeat apply is_Some_insert; apply Hd'; lia). cbn [mbind res_bind].
  unfold u8. by rewrite !(Z.mod_small) by lia.
Qed.

(** What a byte copy keeps. *)
Definition keeps (m m' : gmap Z Z) : Prop :=
  (∀ b k, mapped m b k → mapped m' b k) ∧ (bytes_ok m → bytes_ok m').

Lemma keeps_refl m : keeps m m.
Proof. by split. Qed.
Lemma keeps_trans m1 m2 m3 : keeps m1 m2 → keeps m2 m3 → keeps m1 m3.
Proof. intros [H1 H2] [H3 H4]. split; auto. Qed.

Lemma store8_keeps m a v m' : store8 m a v = Ok m' → keeps m m'.
Proof.
  unfold store8. intros (x & _ & [= <-])%bind_ok_inv.
  split; [intros; by apply mapped_insert|apply bytes_ok_insert].
Qed.

Lemma copy_bytes_mapped n : ∀ m d s,
  mapped m s (Z.of_nat n) → mapped m d (Z.of_nat n) →
  ∃ m', copy_bytes n m d s = Ok m' ∧ keeps m m'.
Proof.
  induction n as [|n IH]; intros m d s Hs Hd; simpl.
  { eexists; split; [done|apply keeps_refl]. }
  destruct (Hs s) as [v Hv]; [lia|]. rewrite (load8_ok _ _ _ Hv). simpl.
  rewrite store8_ok by (apply Hd; lia). simpl.
  destruct (IH (<[d := u8 v]> m) (d + 1) (s + 1)) as (m' & -> & Hk).
  { apply mapped_insert, (mapped_sub m s (Z.of_nat (S n))); done || lia. }
  { apply mapped_insert, (mapped_sub m d (Z.of_nat (S n))); done || lia. }
  exists m'. split; [done|]. eapply keeps_trans, Hk. 
  split; [intros; by apply mapped_insert|apply bytes_ok_insert].
Qed.

Lemma copy_bytes_4 k m d s m1 :
  copy_bytes 4 m d s = Ok m1 → copy_bytes (4 + k) m d s = copy_bytes k m1 (d + 4) (s + 4).
Proof. intros E. by rewrite copy_bytes_add, E. Qed.

(** One word step, in the shape the loops need. *)
Lemma copy_word_step m d s len :
  bytes_ok m → mapped m s len → mapped m d len → 4 <= len → (d - s) mod 4 = 0 →
  ∃ m1, copy_word m d s = Ok m1 ∧ copy_bytes 4 m d s = Ok m1 ∧ bytes_ok m1 ∧
    mapped m1 (s + 4) (len - 4) ∧ mapped m1 (d + 4) (len - 4).
Proof.
  intros Hb Hs Hd Hl Hm.
  assert (mapped m s 4) by (apply (mapped_sub m s len); done || lia).
  assert (mapped m d 4) by (apply (mapped_sub m d len); done || lia).
  rewrite copy_word_bytes; [|done..|lia].
  destruct (copy_bytes_mapped 4 m d s) as (m1 & E & Hk1 & Hk2); [done..|].
  exists m1. split_and!; try done; [by apply Hk2|apply Hk1..].
  - apply (mapped_sub m s len); done || lia.
  - apply (mapped_sub m d len); done || lia.
Qed.

Lemma copy_words1_bytes fuel : ∀ m d s len,
  0 <= len → (Z.to_nat len <= fuel)%nat → bytes_ok m → mapped m s len → mapped m d len →
  (d - s) mod 4 = 0 →
  ∃ m' d' s' n', copy_words1 fuel m d s len = Ok (m', d', s', n') ∧ 0 <= n' < 4 ∧
    copy_bytes (Z.to_nat len) m d s = copy_bytes (Z.to_nat n') m' d' s'.
Proof.
  induction fuel as [|fuel IH]; intros m d s len Hc Hf Hb Hs Hd Hm; cbn [copy_words1].
  - replace len with 0 in * by lia. simpl. exists m, d, s, 0. done.
  - destruct (Z.ltb_spec len 4); [exists m, d, s, len; split_and!; done || lia|].
    destruct (copy_word_step m d s len) as (m1 & -> & E1 & Hb1 & Hs1 & Hd1); [done..|].
    cbn [mbind res_bind].
    destruct (IH m1 (d + 4) (s + 4) (len - 4)) as (m' & d' & s' & n' & E & Hn' & Es);
      [lia|lia|done|done|done|replace (d + 4 - (s + 4)) with (d - s) by lia; done|].
    exists m', d', s', n'. split_and!; try done || lia.
    replace (Z.to_nat len) with (4 + Z.to_nat (len - 4))%nat by lia.
    by rewrite (copy_bytes_4 _ _ _ _ _ E1).
Qed.

Lemma copy_words4_bytes fuel : ∀ m d s len,
  0 <= len → (Z.to_nat len <= fuel)%nat → bytes_ok m → mapped m s len → mapped m d len →
  (d - s) mod 4 = 0 →
  ∃ m' d' s' n', copy_words4 fuel m d s len = Ok (m', d', s', n') ∧ (0 <= n' < 16 ∧ n' <= len) ∧
    bytes_ok m' ∧ mapped m' s' n' ∧ mapped m' d' n' ∧ (d' - s') mod 4 = 0 ∧
    copy_bytes (Z.to_nat len) m d s = copy_bytes (Z.to_nat n') m' d' s'.
Proof.
  induction fuel as [|fuel IH]; intros m d s len Hc Hf Hb Hs Hd Hm; cbn [copy_words4].
  - replace len with 0 in * by lia. simpl. exists m, d, s, 0. done.
  - destruct (Z.ltb_spec len 16); [exists m, d, s, len; split_and!; done || lia|].
    assert (Hm' : ∀ k, (d + k - (s + k)) mod 4 = 0)
      by (intros k; replace (d + k - (s + k)) with (d - s) by lia; done).
    destruct (copy_word_step m d s len) as (m1 & -> & E1 & Hb1 & Hs1 & Hd1); [done..|lia|done|].
    cbn [mbind res_bind].
    destruct (copy_word_step m1 (d + 4) (s + 4) (len - 4)) as (m2 & -> & E2 & Hb2 & Hs2 & Hd2);
      [done..|lia|apply Hm'|].
    cbn [mbind res_bind]. rewrite <- !Z.add_assoc in Hs2, Hd2. simpl (4 + 4) in *.
    destruct (copy_word_step m2 (d + 8) (s + 8) (len - 4 - 4)) as (m3 & -> & E3 & Hb3 & Hs3 & Hd3);
      [done..|lia|apply Hm'|].
    cbn [mbind res_bind]. rewrite <- !Z.add_assoc in Hs3, Hd3. simpl (8 + 4) in *.
    destruct (copy_word_step m3 (d + 12) (s + 12) (len - 4 - 4 - 4))
      as (m4 & -> & E4 & Hb4 & Hs4 & Hd4); [done..|lia|apply Hm'|].
    cbn [mbind res_bind]. rewrite <- !Z.add_assoc in Hs4, Hd4. simpl (12 + 4) in *.
    replace (len - 4 - 4 - 4 - 4) with (len - 16) in * by lia.
    destruct (IH m4 (d + 16) (s + 16) (len - 16)) as (m' & d' & s' & n' & E & Hn' & H1 & H2 & H3 & H4 & Es);
      [lia|lia|done|done|done|apply Hm'|].
    exists m', d', s', n'. split_and!; try done || lia.
    replace (Z.to_nat len) with (4 + (4 + (4 + (4 + Z.to_nat (len - 16)))))%nat by lia.
    rewrite (copy_bytes_4 _ _ _ _ _ E1), (copy_bytes_4 _ _ _ _ _ E2), <- !Z.add_assoc.
    simpl (4 + 4). rewrite (copy_bytes_4 _ _ _ _ _ E3), <- !Z.add_assoc. simpl (8 + 4).
    rewrite (copy_bytes_4 _ _ _ _ _ E4), <- !Z.add_assoc. exact Es.
Qed.

(** The block [d .. d+n) holds what [s .. s+n) held; nothing else changed. *)
Definition copied (m m' : gmap Z Z) (d s n : Z) : Prop :=
  ∀ i, m' !! i = if decide (d <= i < d + n) then m !! (s + (i - d)) else m !! i.

Lemma copy_bytes_copied n : ∀ m d s,
  bytes_ok m → mapped m s (Z.of_nat n) → mapped m d (Z.of_nat n) →
  d <= s ∨ s + Z.of_nat n <= d →
  ∃ m', copy_bytes n m d s = Ok m' ∧ copied m m' d s (Z.of_nat n).
Proof.
  induction n as [|n IH]; intros m d s Hb Hs Hd Ho.
  { exists m. split; [done|]. intros i. by rewrite decide_False by lia. }
  destruct (Hs s) as [v Hv]; [lia|]. cbn [copy_bytes].
  rewrite (load8_ok _ _ _ Hv). cbn [mbind res_bind].
  rewrite store8_ok by (apply Hd; lia). cbn [mbind res_bind].
  assert (Hu : u8 v = v) by (apply Z.mod_small, (Hb _ _ Hv)).
  destruct (IH (<[d := u8 v]> m) (d + 1) (s + 1)) as (m' & E & Hc).
  { by apply bytes_ok_insert. }
  { apply mapped_insert, (mapped_sub m s (Z.of_nat (S n))); done || lia. }
  { apply mapped_insert, (mapped_sub m d (Z.of_nat (S n))); done || lia. }
  { lia. }
  exists m'. split; [done|]. intros i. rewrite Hc, Hu.
  destruct (decide (d = i)) as [->|Hne].
  - rewrite decide_False by lia. rewrite decide_True by lia.
    rewrite lookup_insert_eq. by replace (s + (i - i)) with s by lia.
  - destruct (decide (d <= i < d + Z.of_nat (S n))).
    + rewrite decide_True by lia. rewrite lookup_insert_ne by lia. f_equal. lia.
    + rewrite decide_False by lia. by rewrite lookup_insert_ne.
Qed.

Lemma copy_bytes_down_copied n : ∀ m d s,
  bytes_ok m → mapped m (s - Z.of_nat n) (Z.of_nat n) → mapped m (d - Z.of_nat n) (Z.of_nat n) →
  s <= d →
  ∃ m', copy_bytes_down n m d s = Ok m' ∧ copied m m' (d - Z.of_nat n) (s - Z.of_nat n) (Z.of_nat n).
Proof.
  induction n as [|n IH]; intros m d s Hb Hs Hd Ho.
  { exists m. split; [done|]. intros i. by rewrite decide_False by lia. }
  destruct (Hs (s - 1)) as [v Hv]; [lia|]. cbn [copy_bytes_down].
  rewrite (load8_ok _ _ _ Hv). cbn [mbind res_bind].
  rewrite store8_ok by (apply Hd; lia). cbn [mbind res_bind].
  assert (Hu : u8 v = v) by (apply Z.mod_small, (Hb _ _ Hv)).
  destruct (IH (<[d - 1 := u8 v]> m) (d - 1) (s - 1)) as (m' & E & Hc).
  { by apply bytes_ok_insert. }
  { apply mapped_insert, (mapped_sub m (s - Z.of_nat (S n)) (Z.of_nat (S n))); done || lia. }
  { apply mapped_insert, (mapped_sub m (d - Z.of_nat (S n)) (Z.of_nat (S n))); done || lia. }
  { lia. }
  exists m'. split; [done|]. intros i. rewrite Hc, Hu.
  destruct (decide (d - 1 = i)) as [<-|Hne].
  - rewrite decide_False by lia. rewrite decide_True by lia.
    rewrite lookup_insert_eq. rewrite <- Hv. f_equal. lia.
  - destruct (decide (d - Z.of_nat (S n) <= i < d - Z.of_nat (S n) + Z.of_nat (S n))).
    + rewrite decide_True by lia. rewrite lookup_insert_ne by lia. f_equal. lia.
    + rewrite decide_False by lia. by rewrite lookup_insert_ne.
Qed.

Lemma rt_memcpy_eq m dst src count :
  0 <= count < 2147483648 → bytes_ok m → mapped m src count → mapped m dst count →
  rt_memcpy m dst src count = copy_bytes (Z.to_nat count) m dst src.
Proof.
  intros Hc Hb Hs Hd. unfold rt_memcpy.
  assert (Hu : u32 count = count) by (apply Z.mod_small; lia).
  rewrite Hu. unfold s32. rewrite Hu. cbv zeta.
  destruct (Z.ltb_spec count 2147483648); [|lia].
  destruct (Z.leb_spec 0 count); [|lia].
  destruct (Z.ltb_spec count 16); simpl; [done|].
  destruct (Z.eqb_spec (Z.lor (Z.land src 3) (Z.land dst 3)) 0) as [Ha|]; [|done].
  apply Z.lor_eq_0_iff in Ha as [Ha1 Ha2].
  change 3 with (Z.ones 2) in Ha1, Ha2. rewrite Z.land_ones in Ha1, Ha2 by lia.
  change (2 ^ 2) with 4 in *.
  destruct (copy_words4_bytes (Z.to_nat count) m dst src count)
    as (m1 & d1 & s1 & n1 & -> & Hn1 & Hb1 & Hs1 & Hd1 & Hm1 & E1); [lia|lia|done..|lia|].
  cbn [mbind res_bind].
  destruct (copy_words1_bytes (Z.to_nat count) m1 d1 s1 n1)
    as (m2 & d2 & s2 & n2 & -> & Hn2 & E2); [lia|lia|done..|].
  cbn [mbind res_bind]. by rewrite E1.
Qed.

Lemma rt_memcpy_copied m dst src count :
  0 <= count < 2147483648 → bytes_ok m → mapped m src count → mapped m dst count →
  dst <= src ∨ src + count <= dst →
  ∃ m', rt_memcpy m dst src count = Ok m' ∧ copied m m' dst src count ∧ keeps m m'.
Proof.
  intros Hc Hb Hs Hd Ho. rewrite rt_memcpy_eq by done. assert (Hn : Z.of_nat (Z.to_nat count) = count) by lia.
  destruct (copy_bytes_mapped (Z.to_nat count) m dst src) as (m1 & E1 & Hk); rewrite ?Hn; [done..|].
  destruct (copy_bytes_copied (Z.to_nat count) m dst src) as (m2 & E2 & Hcp); rewrite ?Hn in *; [done..|].
  rewrite E1 in E2. injection E2 as ->. eauto.
Qed.

(** ** Properties *)

(** [rt_memset] (unrolled aligned word stores, then bytes) behaves as the
    byte loop of the [RT_TINY_SIZE] build for every address and count, touches
    no unmapped byte, and leaves exactly the block filled with the low byte of
    [c]. *)
Theorem rt_memset_spec m s c count :
  0 <= count < 4294967296 → mapped m s count →
  rt_memset m s c count = set_bytes (Z.to_nat count) m s (Z.land c 255) ∧
  ∃ m', rt_memset m s c count = Ok m' ∧
    ∀ i, m' !! i = if (s <=? i) && (i <? s + count) then Some (u8 c) else m !! i.
Proof.
  intros Hc Hm. pose proof (land_ff c) as Hd.
  assert (E : rt_memset m s c count = set_bytes (Z.to_nat count) m s (Z.land c 255)).
  { unfold rt_memset. destruct (negb _ && _); [|done].
    rewrite memset_buffer by done.
    destruct (set_words4_bytes (Z.to_nat count) m s (Z.land c 255) count)
      as (m1 & a1 & n1 & -> & Hm1 & Hn1 & E1); [lia|lia|done|done|].
    cbn [mbind res_bind].
    destruct (set_words1_bytes (Z.to_nat count) m1 a1 (Z.land c 255) n1)
      as (m2 & a2 & n2 & -> & Hm2 & Hn2 & E2); [lia|lia|done|done|].
    cbn [mbind res_bind]. by rewrite E1. }
  split; [done|]. rewrite E.
  destruct (set_bytes_mapped (Z.to_nat count) m s (Z.land c 255)) as (m' & E' & _);
    [by rewrite Z2Nat.id by lia|].
  exists m'. split; [done|]. intros i. rewrite (set_bytes_lookup _ _ _ _ _ E').
  rewrite Z2Nat.id by lia. 
  replace (u8 (Z.land c 255)) with (u8 c); [done|].
  unfold u8. change 255 with (Z.ones 8). rewrite Z.land_ones by lia.
  change (2 ^ 8) with 256. by rewrite Z.mod_mod by lia.
Qed.

Definition mem_demo : gmap Z Z :=
  list_to_map ((λ i, (Z.of_nat i, Z.of_nat i)) <$> seq 0 64).

Lemma mem_demo_mapped a n : (0 <= a) → (a + n <= 64) → mapped mem_demo a n.
Proof.
  intros Ha Hn i Hi.
  assert (H : forallb (λ j, bool_decide (is_Some (mem_demo !! Z.of_nat j))) (seq 0 64) = true)
    by (vm_compute; reflexivity).
  rewrite forallb_forall in H. specialize (H (Z.to_nat i)).
  rewrite Z2Nat.id in H by lia. eapply bool_decide_unpack, Is_true_true, H, in_seq. lia.
Qed.

Lemma mem_demo_bytes : bytes_ok mem_demo.
Proof.
  assert (H : map_Forall (λ _ v, 0 <= v < 256) mem_demo).
  { apply (bool_decide_unpack _). vm_compute. exact I. }
  exact H.
Qed.

Lemma rt_memset_spec_witness :
  ∃ m', rt_memset mem_demo 4 511 23 = Ok m' ∧
    ∀ i, m' !! i = if (4 <=? i) && (i <? 4 + 23) then Some (u8 511) else mem_demo !! i.
Proof.
  apply (rt_memset_spec mem_demo 4 511 23); [lia|apply mem_demo_mapped; lia].
Defined.

(** [rt_memcpy] (four words, one word, bytes) is the byte loop of the
    [RT_TINY_SIZE] build for every pair of addresses, overlapping or not, and
    never leaves the two areas; when the destination does not start inside the
    source it is an exact copy. *)
Theorem rt_memcpy_spec m dst src count :
  0 <= count < 2147483648 → bytes_ok m → mapped m src count → mapped m dst count →
  rt_memcpy m dst src count = copy_bytes (Z.to_nat count) m dst src ∧
  (∃ m', rt_memcpy m dst src count = Ok m') ∧
  (dst <= src ∨ src + count <= dst →
   ∃ m', rt_memcpy m dst src count = Ok m' ∧ copied m m' dst src count).
Proof.
  intros Hc Hb Hs Hd. rewrite rt_memcpy_eq by done. split; [done|].
  assert (Hn : Z.of_nat (Z.to_nat count) = count) by lia. split.
  - destruct (copy_bytes_mapped (Z.to_nat count) m dst src) as (m' & ? & _);
      rewrite ?Hn; eauto.
  - intros Ho. destruct (rt_memcpy_copied m dst src count) as (m' & E & ? & _); [done..|].
    rewrite rt_memcpy_eq in E by done. eauto.
Qed.

Lemma rt_memcpy_spec_witness :
  ∃ m', rt_memcpy mem_demo 4 24 27 = Ok m' ∧ copied mem_demo m' 4 24 27.
Proof.
  apply (rt_memcpy_spec mem_demo 4 24 27);
    [lia|exact mem_demo_bytes|apply mem_demo_mapped; lia..|lia].
Defined.

(** [rt_memmove] copies correctly for every overlap: afterwards the
    destination holds what the source held before the call and every other byte
    is untouched. *)
Theorem rt_memmove_spec m dest src n :
  0 <= n → bytes_ok m → mapped m src n → mapped m dest n →
  ∃ m', rt_memmove m dest src n = Ok m' ∧ copied m m' dest src n.
Proof.
  intros Hn Hb Hs Hd. unfold rt_memmove.
  assert (En : Z.of_nat (Z.to_nat n) = n) by lia.
  destruct (Z.ltb_spec src dest), (Z.ltb_spec dest (src + n)); simpl.
  - destruct (copy_bytes_down_copied (Z.to_nat n) m (dest + n) (src + n)) as (m' & E & Hc);
      [done|..|lia|]; rewrite ?En in *.
    + by replace (src + n - n) with src by lia.
    + by replace (dest + n - n) with dest by lia.
    + exists m'. split; [done|]. by replace (src + n - n) with src in Hc by lia;
        replace (dest + n - n) with dest in Hc by lia.
  - destruct (copy_bytes_copied (Z.to_nat n) m dest src) as (m' & E & Hc); rewrite ?En in *; eauto.
  - destruct (copy_bytes_copied (Z.to_nat n) m dest src) as (m' & E & Hc); rewrite ?En in *; eauto.
  - destruct (copy_bytes_copied (Z.to_nat n) m dest src) as (m' & E & Hc); rewrite ?En in *; eauto.
Qed.

Lemma rt_memmove_spec_witness :
  ∃ m', rt_memmove mem_demo 10 4 20 = Ok m' ∧ copied mem_demo m' 10 4 20.
Proof.
  apply (rt_memmove_spec mem_demo 10 4 20);
    [lia|exact mem_demo_bytes|apply mem_demo_mapped; lia..].
Defined.
