(* ===== verification/KString.v ===== *)
(** * Strings and formatted output of [src/kservice.c]

    Strings live in the byte-addressed memory of KMemory.v; [char] is signed,
    as gcc has it on MIPS.  Loops that end at a NUL byte take as fuel the number
    of mapped bytes, which they cannot exceed without leaving the mapped memory.
    The configuration defines [RT_PRINTF_PRECISION] and neither
    [RT_PRINTF_LONGLONG] nor [RT_PRINTF_SPECIAL]. *)
From Stdlib Require Import Ascii String.
From stdpp Require Import strings.
From S2P Require Import Prelude KMemory.
Local Open Scope Z_scope.

(** Character and string constants of the C source. *)
Definition chr (c : ascii) : Z := Z.of_N (N_of_ascii c).
Definition lit (s : string) : list Z := chr <$> String.list_ascii_of_string s.

Definition char_at (m : gmap Z Z) (a : Z) : res Z := c ← load8 m a; Ok (s8 c).

(** ** Plain string functions *)

(** [for (sc = s; *sc != 0; ++sc);], counting. *)
Fixpoint strlen_loop (fuel : nat) (m : gmap Z Z) (sc n : Z) : res Z :=
  match fuel with
  | O => Stop OutOfFuel
  | S fuel => c ← load8 m sc; if c =? 0 then Ok n else strlen_loop fuel m (sc + 1) (n + 1)
  end.
Definition rt_strlen (m : gmap Z Z) (s : Z) : res Z := strlen_loop (S (size m)) m s 0.

(** [*sc] is read before the count is compared. *)
Fixpoint strnlen_loop (room : nat) (m : gmap Z Z) (sc n : Z) : res Z :=
  c ← load8 m sc;
  if c =? 0 then Ok n
  else match room with O => Ok n | S room => strnlen_loop room m (sc + 1) (n + 1) end.
Definition rt_strnlen (m : gmap Z Z) (s maxlen : Z) : res Z := strnlen_loop (Z.to_nat maxlen) m s 0.

Fixpoint strcmp_loop (fuel : nat) (m : gmap Z Z) (cs ct : Z) : res Z :=
  match fuel with
  | O => Stop OutOfFuel
  | S fuel =>
      a ← char_at m cs;
      if a =? 0 then b ← char_at m ct; Ok (a - b)
      else b ← char_at m ct; if a =? b then strcmp_loop fuel m (cs + 1) (ct + 1) else Ok (a - b)
  end.
Definition rt_strcmp (m : gmap Z Z) (cs ct : Z) : res Z := strcmp_loop (S (size m)) m cs ct.

(** [__res] is a [signed char]: the difference is cut to eight bits. *)
Fixpoint strncmp_loop (count : nat) (m : gmap Z Z) (cs ct : Z) : res Z :=
  match count with
  | O => Ok 0
  | S count =>
      a ← char_at m cs; b ← char_at m ct;
      let __res := s8 (a - b) in
      if negb (__res =? 0) then Ok __res
      else if a =? 0 then Ok __res
      else strncmp_loop count m (cs + 1) (ct + 1)
  end.
Definition rt_strncmp (m : gmap Z Z) (cs ct count : Z) : res Z := strncmp_loop (Z.to_nat count) m cs ct.

Definition lower (c : Z) : Z := if (chr "A" <=? c) && (c <=? chr "Z") then c + (chr "a" - chr "A") else c.

Fixpoint strcasecmp_loop (fuel : nat) (m : gmap Z Z) (a b : Z) : res Z :=
  match fuel with
  | O => Stop OutOfFuel
  | S fuel =>
      x ← load8 m a; y ← load8 m b;
      let ca := lower x in
      let cb := lower y in
      if (ca =? cb) && negb (ca =? 0) then strcasecmp_loop fuel m (a + 1) (b + 1)
      else Ok (u32 (ca - cb))
  end.
Definition rt_strcasecmp (m : gmap Z Z) (a b : Z) : res Z := strcasecmp_loop (S (size m)) m a b.

(** [do ... while (--n != 0)]: [n] counts what is left, the current character
    included. *)
Fixpoint strncpy_loop (n : nat) (m : gmap Z Z) (d s : Z) : res (gmap Z Z) :=
  match n with
  | O => Ok m
  | S n =>
      c ← load8 m s;
      m ← store8 m d c;
      if c =? 0 then set_bytes n m (d + 1) 0 else strncpy_loop n m (d + 1) (s + 1)
  end.
Definition rt_strncpy (m : gmap Z Z) (dst src n : Z) : res (gmap Z Z) :=
  strncpy_loop (Z.to_nat n) m dst src.

(** [while (l1 >= l2)]: [tries] is [l1 - l2 + 1]. *)
Fixpoint strstr_loop (tries : nat) (m : gmap Z Z) (s1 s2 l2 : Z) : res (option Z) :=
  match tries with
  | O => Ok None
  | S tries =>
      r ← rt_memcmp m s1 s2 l2;
      if r =? 0 then Ok (Some s1) else strstr_loop tries m (s1 + 1) s2 l2
  end.
Definition rt_strstr (m : gmap Z Z) (s1 s2 : Z) : res (option Z) :=
  l2 ← rt_strlen m s2;
  if l2 =? 0 then Ok (Some s1)
  else
    l1 ← rt_strlen m s1;
    strstr_loop (Z.to_nat (l1 - l2 + 1)) m s1 s2 l2.

(** ** Formatted output *)

(** The memory [rt_vsnprintf] writes and its cursor: [str w] is [buf] plus the
    number of characters so far, the pointer of 32 bits is [cursor w].
    [if (str <= end) *str = c; ++str]. *)
Record writer := mk_writer { wm : gmap Z Z; str : Z }.
Definition cursor (w : writer) : Z := u32 (str w).
Definition put (end_ c : Z) (w : writer) : res writer :=
  m ← (if cursor w <=? end_ then store8 (wm w) (cursor w) c else Ok (wm w));
  Ok (mk_writer m (str w + 1)).
Fixpoint puts (end_ : Z) (l : list Z) (w : writer) : res writer :=
  match l with
  | [] => Ok w
  | c :: l => w ← put end_ c w; puts end_ l w
  end.
Definition pad (end_ c n : Z) (w : writer) : res writer := puts end_ (replicate (Z.to_nat n) c) w.

(** [while (size-- > 0) put(c)], with the value [size] is left with. *)
Definition drain (end_ c size : Z) (w : writer) : res (writer * Z) :=
  w ← pad end_ c size w;
  Ok (w, Z.min size 0 - 1).

Definition isdigit (c : Z) : bool := (chr "0" <=? c) && (c <=? chr "9").

(** On [*n] as a 32-bit pattern; a base other than 10 counts as 16. *)
Definition divide (n base : Z) : Z * Z :=
  if base =? 10 then (u32 n mod 10, s32 (u32 n / 10)) else (u32 n mod 16, s32 (u32 n / 16)).

(** Value and the address of the first character that is no digit. *)
Fixpoint atoi_loop (fuel : nat) (m : gmap Z Z) (s i : Z) : res (Z * Z) :=
  match fuel with
  | O => Stop OutOfFuel
  | S fuel =>
      c ← load8 m s;
      if isdigit c then
        let i := i * 10 + c - chr "0" in
        _ ← require SignedOverflow (i <? 2147483648);
        atoi_loop fuel m (s + 1) i
      else Ok (i, s)
  end.
Definition skip_atoi (m : gmap Z Z) (s : Z) : res (Z * Z) := atoi_loop (S (size m)) m s 0.

Definition ZEROPAD : Z := 1.
Definition SIGN : Z := 2.
Definition PLUS : Z := 4.
Definition SPACE : Z := 8.
Definition LEFT : Z := 16.
Definition SPECIAL : Z := 32.
Definition LARGE : Z := 64.
Definition has (type f : Z) : bool := negb (Z.land type f =? 0).

Definition digit (large : bool) (d : Z) : Z :=
  nth (Z.to_nat d) (lit (if large then "0123456789ABCDEF" else "0123456789abcdef")) 0.

(** [while (num != 0) tmp[i++] = digits[divide(&num, base)];] with [room] places
    left in [tmp]. *)
Fixpoint digits_loop (room : nat) (large : bool) (num base : Z) : res (list Z) :=
  if num =? 0 then Ok []
  else match room with
  | O => Stop OutOfBounds
  | S room =>
      let '(d, num) := divide num base in
      l ← digits_loop room large num base;
      Ok (digit large d :: l)
  end.
Definition number_digits (large : bool) (num base : Z) : res (list Z) :=
  if num =? 0 then Ok [chr "0"] else digits_loop 16 large num base.

Definition sign_of (num type : Z) : option Z :=
  if has type SIGN then
    if num <? 0 then Some (chr "-")
    else if has type PLUS then Some (chr "+")
    else if has type SPACE then Some (chr " ") else None
  else None.

Definition print_number (end_ num base s precision type : Z) (w : writer) : res writer :=
  let type := if has type LEFT then Z.land type (Z.lnot ZEROPAD) else type in
  let c := if has type ZEROPAD then chr "0" else chr " " in
  let sign := sign_of num type in
  num ← (if has type SIGN && (num <? 0) then
      _ ← require SignedOverflow (negb (num =? -2147483648)); Ok (- num)
    else Ok num);
  tmp ← number_digits (has type LARGE) num base;
  let i := Z.of_nat (length tmp) in
  let precision := if i >? precision then i else precision in
  let size := s - precision in
  '(w, size) ← (if negb (has type (Z.lor ZEROPAD LEFT)) then
      let size := if match sign with Some _ => true | None => false end && (0 <? size)
                  then size - 1 else size in
      drain end_ (chr " ") size w
    else Ok (w, size));
  '(w, size) ← match sign with
    | Some sg =>
        let size := if cursor w <=? end_ then size - 1 else size in
        w ← put end_ sg w; Ok (w, size)
    | None => Ok (w, size)
    end;
  '(w, size) ← (if negb (has type LEFT) then drain end_ c size w else Ok (w, size));
  w ← pad end_ (chr "0") (precision - i) w;
  w ← puts end_ (reverse tmp) w;
  '(w, _) ← drain end_ (chr " ") size w;
  Ok w.

(** [va_arg]: the words on the argument list; taking one too many is
    undefined. *)
Definition va_arg (args : list Z) : res (Z * list Z) :=
  match args with [] => Stop OutOfBounds | a :: args => Ok (a, args) end.

Definition flag_of (c : Z) : option Z :=
  if c =? chr "-" then Some LEFT
  else if c =? chr "+" then Some PLUS
  else if c =? chr " " then Some SPACE
  else if c =? chr "#" then Some SPECIAL
  else if c =? chr "0" then Some ZEROPAD
  else None.

(** [while (1) { ++fmt; ... else break; }] *)
Fixpoint parse_flags (fuel : nat) (m : gmap Z Z) (fmt flags : Z) : res (Z * Z) :=
  match fuel with
  | O => Stop OutOfFuel
  | S fuel =>
      c ← load8 m (fmt + 1);
      match flag_of c with
      | Some f => parse_flags fuel m (fmt + 1) (Z.lor flags f)
      | None => Ok (fmt + 1, flags)
      end
  end.

(** Field width: [(fmt, args, field_width, flags)]. *)
Definition parse_width (m : gmap Z Z) (fmt flags : Z) (args : list Z) : res (Z * list Z * Z * Z) :=
  c ← load8 m fmt;
  if isdigit c then '(i, fmt) ← skip_atoi m fmt; Ok (fmt, args, i, flags)
  else if c =? chr "*" then
    '(a, args) ← va_arg args;
    let width := s32 a in
    if width <? 0 then
      _ ← require SignedOverflow (negb (width =? -2147483648));
      Ok (fmt + 1, args, - width, Z.lor flags LEFT)
    else Ok (fmt + 1, args, width, flags)
  else Ok (fmt, args, -1, flags).

Definition parse_precision (m : gmap Z Z) (fmt : Z) (args : list Z) : res (Z * list Z * Z) :=
  c ← load8 m fmt;
  if c =? chr "." then
    let fmt := fmt + 1 in
    c ← load8 m fmt;
    '(fmt, args, precision) ← (if isdigit c then '(i, fmt) ← skip_atoi m fmt; Ok (fmt, args, i)
      else if c =? chr "*" then '(a, args) ← va_arg args; Ok (fmt + 1, args, s32 a)
      else Ok (fmt, args, -1));
    Ok (fmt, args, if precision <? 0 then 0 else precision)
  else Ok (fmt, args, -1).

Definition parse_qualifier (m : gmap Z Z) (fmt : Z) : res (Z * Z) :=
  c ← load8 m fmt;
  if (c =? chr "h") || (c =? chr "l") then Ok (fmt + 1, c) else Ok (fmt, 0).

(** [for (i = 0; i < len; ++i) { put( *s ); ++s; }] *)
Fixpoint put_string (len : nat) (end_ s : Z) (w : writer) : res writer :=
  match len with
  | O => Ok w
  | S len => c ← load8 (wm w) s; w ← put end_ c w; put_string len end_ (s + 1) w
  end.

(** [while (--field_width > 0) put(' ');] *)
Definition pad_char (end_ width : Z) (w : writer) : res (writer * Z) :=
  w ← pad end_ (chr " ") (width - 1) w;
  Ok (w, Z.min (width - 1) 0).
(** [while (len < field_width--) put(' ');] *)
Definition pad_str (end_ len width : Z) (w : writer) : res (writer * Z) :=
  w ← pad end_ (chr " ") (width - len) w;
  Ok (w, Z.min width len - 1).

Definition null_string : list Z := lit "(NULL)".

Definition put_c (end_ width flags arg : Z) (w : writer) : res writer :=
  '(w, width) ← (if negb (has flags LEFT) then pad_char end_ width w else Ok (w, width));
  w ← put end_ (u8 arg) w;
  '(w, _) ← pad_char end_ width w;
  Ok w.

Definition put_s (end_ width flags precision s : Z) (w : writer) : res writer :=
  len ← (if s =? 0 then Ok (Z.of_nat (length null_string)) else rt_strlen (wm w) s);
  let len := if (0 <? precision) && (precision <? len) then precision else len in
  '(w, width) ← (if negb (has flags LEFT) then pad_str end_ len width w else Ok (w, width));
  w ← (if s =? 0 then puts end_ (take (Z.to_nat len) null_string) w
       else put_string (Z.to_nat len) end_ s w);
  '(w, _) ← pad_str end_ len width w;
  Ok w.

(** The value of an integer conversion. *)
Definition int_arg (qualifier flags arg : Z) : Z :=
  if qualifier =? chr "h" then if has flags SIGN then s16 arg else u16 arg
  else s32 arg.

(** One conversion, from its ['%'] at [fmt]; gives the address of its last
    character. *)
Definition conversion (end_ fmt : Z) (args : list Z) (w : writer) : res (writer * Z * list Z) :=
  '(fmt, flags) ← parse_flags (S (size (wm w))) (wm w) fmt 0;
  '(fmt, args, field_width, flags) ← parse_width (wm w) fmt flags args;
  '(fmt, args, precision) ← parse_precision (wm w) fmt args;
  '(fmt, qualifier) ← parse_qualifier (wm w) fmt;
  c ← load8 (wm w) fmt;
  let number base flags :=
    '(a, args) ← va_arg args;
    w ← print_number end_ (int_arg qualifier flags a) base field_width precision flags w;
    Ok (w, fmt, args) in
  if c =? chr "c" then
    '(a, args) ← va_arg args;
    w ← put_c end_ field_width flags a w;
    Ok (w, fmt, args)
  else if c =? chr "s" then
    '(a, args) ← va_arg args;
    w ← put_s end_ field_width flags precision a w;
    Ok (w, fmt, args)
  else if c =? chr "p" then
    '(a, args) ← va_arg args;
    let '(field_width, flags) := if field_width =? -1 then (8, Z.lor flags ZEROPAD) else (field_width, flags) in
    w ← print_number end_ (s32 a) 16 field_width precision flags w;
    Ok (w, fmt, args)
  else if c =? chr "%" then w ← put end_ (chr "%") w; Ok (w, fmt, args)
  else if c =? chr "o" then number 8 flags
  else if c =? chr "X" then number 16 (Z.lor flags LARGE)
  else if c =? chr "x" then number 16 flags
  else if (c =? chr "d") || (c =? chr "i") then number 10 (Z.lor flags SIGN)
  else if c =? chr "u" then number 10 flags
  else
    w ← put end_ (chr "%") w;
    if c =? 0 then Ok (w, fmt - 1, args)
    else w ← put end_ c w; Ok (w, fmt, args).

Fixpoint vsnprintf_loop (fuel : nat) (end_ fmt : Z) (args : list Z) (w : writer) : res writer :=
  c ← load8 (wm w) fmt;
  if c =? 0 then Ok w
  else match fuel with
  | O => Stop OutOfFuel
  | S fuel =>
      if negb (c =? chr "%") then
        w ← put end_ c w; vsnprintf_loop fuel end_ (fmt + 1) args w
      else
        '(w, fmt, args) ← conversion end_ fmt args w;
        vsnprintf_loop fuel end_ (fmt + 1) args w
  end.

(** [end], after the test that makes it no smaller than [buf]. *)
Definition end_of (buf size : Z) : Z :=
  let end_ := u32 (buf + size - 1) in if end_ <? buf then 4294967295 else end_.

Definition formatted (m : gmap Z Z) (buf size fmt : Z) (args : list Z) : res writer :=
  vsnprintf_loop (base.size m) (end_of buf size) fmt args (mk_writer m buf).

Definition rt_vsnprintf (m : gmap Z Z) (buf size fmt : Z) (args : list Z) : res (gmap Z Z * Z) :=
  w ← formatted m buf size fmt args;
  m ← store8 (wm w) (if cursor w <=? end_of buf size then cursor w else end_of buf size) 0;
  Ok (m, s32 (str w - buf)).

Definition rt_snprintf (m : gmap Z Z) (buf size fmt : Z) (args : list Z) := rt_vsnprintf m buf size fmt args.
Definition rt_vsprintf (m : gmap Z Z) (buf fmt : Z) (args : list Z) := rt_vsnprintf m buf 4294967295 fmt args.
Definition rt_sprintf (m : gmap Z Z) (buf fmt : Z) (args : list Z) := rt_vsprintf m buf fmt args.

(** [RT_CONSOLEBUF_SIZE]; the text handed to the console device, whose
    [rt_device_write] is a parameter of the console. *)
Definition CONSOLEBUF_SIZE : Z := 128.
Definition rt_kprintf (m : gmap Z Z) (rt_log_buf fmt : Z) (args : list Z) : res (gmap Z Z * Z) :=
  '(m, length) ← rt_vsnprintf m rt_log_buf (CONSOLEBUF_SIZE - 1) fmt args;
  let length := u32 length in
  Ok (m, if length >? CONSOLEBUF_SIZE - 1 then CONSOLEBUF_SIZE - 1 else length).

(** ** Strings in memory *)

(** The bytes [l], none of them NUL, at [a] and a NUL behind them. *)
Fixpoint string_at (m : gmap Z Z) (a : Z) (l : list Z) : Prop :=
  match l with
  | [] => m !! a = Some 0
  | c :: l => m !! a = Some c ∧ c ≠ 0 ∧ string_at m (a + 1) l
  end.

(** A run of mapped bytes is no longer than the memory is large. *)
Lemma run_fits (m : gmap Z Z) a n : (∀ i, 0 <= i < Z.of_nat n → is_Some (m !! (a + i))) → (n <= size m)%nat.
Proof.
  intros H. assert (Hl : length (seqZ a (Z.of_nat n)) = n) by (rewrite length_seqZ; lia).
  rewrite <- Hl, <- (size_dom (D:=gset Z)), <- (size_list_to_set (C:=gset Z)) by apply NoDup_seqZ.
  apply subseteq_size. intros x Hx%elem_of_list_to_set%elem_of_seqZ. apply elem_of_dom.
  replace x with (a + (x - a)) by lia. apply H. lia.
Qed.

Lemma string_at_nth m l : ∀ a i, string_at m a l → 0 <= i <= Z.of_nat (length l) → is_Some (m !! (a + i)).
Proof.
  induction l as [|c l IH]; intros a i; simpl.
  - intros Ha Hi. replace (a + i) with a by lia. eauto.
  - intros (Ha & _ & Hl) Hi. destruct (Z.eq_dec i 0) as [->|]; [rewrite Z.add_0_r; eauto|].
    replace (a + i) with (a + 1 + (i - 1)) by lia. apply IH; [done|lia].
Qed.

Lemma string_at_size m a l : string_at m a l → (length l < size m)%nat.
Proof. intros H. apply (run_fits m a (S (length l))). intros i Hi. eapply string_at_nth; [done|lia]. Qed.

Lemma strlen_loop_ok m l : ∀ fuel a n,
  string_at m a l → (length l < fuel)%nat → strlen_loop fuel m a n = Ok (n + Z.of_nat (length l)).
Proof.
  induction l as [|c l IH]; intros fuel a n Hs Hf; (destruct fuel as [|fuel]; [simpl in Hf; lia|]); simpl in Hs |- *.
  - rewrite (load8_ok _ _ _ Hs). simpl. f_equal. lia.
  - destruct Hs as (Ha & Hc & Hl). rewrite (load8_ok _ _ _ Ha). cbn [mbind res_bind].
    rewrite (proj2 (Z.eqb_neq _ _) Hc). simpl in Hf. rewrite IH by (done || lia). f_equal. lia.
Qed.

Lemma rt_strlen_ok m s l : string_at m s l → rt_strlen m s = Ok (Z.of_nat (length l)).
Proof. intros H. pose proof (string_at_size _ _ _ H). unfold rt_strlen. by rewrite (strlen_loop_ok m l) by (done || lia). Qed.

(** A scan that goes on only over mapped bytes does not run out of fuel. *)
Definition scans {A} (m : gmap Z Z) (a : Z) (fuel : nat) (r : res A) : Prop :=
  r = Stop OutOfFuel → ∀ i, 0 <= i < Z.of_nat fuel → is_Some (m !! (a + i)).

Lemma scans_total {A} m a (r : res A) : scans m a (S (size m)) r → r ≠ Stop OutOfFuel.
Proof. intros Hs Hr. pose proof (run_fits m a (S (size m)) (Hs Hr)). lia. Qed.

Lemma scans_0 {A} m a (r : res A) : scans m a 0 r.
Proof. intros _ i Hi. lia. Qed.

Lemma scans_step {A} m a fuel v (r r' : res A) :
  m !! a = Some v → (r' = Stop OutOfFuel → r = Stop OutOfFuel) → scans m (a + 1) fuel r →
  scans m a (S fuel) r'.
Proof.
  intros Ha Hr Hs H i Hi. destruct (Z.eq_dec i 0) as [->|]; [rewrite Z.add_0_r; eauto|].
  replace (a + i) with (a + 1 + (i - 1)) by lia. apply Hs; [auto|lia].
Qed.

(** The scan goes on: by the induction hypothesis. *)
Ltac scan_on IH := eapply scans_step; [eassumption|intros ?; eassumption|apply IH].

Lemma load8_cases m a : (∃ v, m !! a = Some v ∧ load8 m a = Ok v) ∨ (m !! a = None ∧ load8 m a = Stop OutOfBounds).
Proof. unfold load8. destruct (m !! a); eauto. Qed.

Lemma strlen_scans m : ∀ fuel a n, scans m a fuel (strlen_loop fuel m a n).
Proof.
  induction fuel as [|fuel IH]; intros a n; [apply scans_0|]. simpl.
  destruct (load8_cases m a) as [(v & Hv & ->)|[_ ->]]; [|by intros ?]. cbn [mbind res_bind].
  destruct (v =? 0); [by intros ?|]. scan_on IH.
Qed.

Lemma rt_strlen_total m s : rt_strlen m s ≠ Stop OutOfFuel.
Proof. eapply scans_total, strlen_scans. Qed.

Lemma atoi_scans m : ∀ fuel a i, scans m a fuel (atoi_loop fuel m a i).
Proof.
  induction fuel as [|fuel IH]; intros a n; [apply scans_0|]. cbn [atoi_loop].
  destruct (load8_cases m a) as [(v & Hv & ->)|[_ ->]]; [|by intros ?]. cbn [mbind res_bind].
  destruct (isdigit v); [|by intros ?]. cbv zeta. destruct (_ <? _); [|by intros ?].
  scan_on IH.
Qed.

Lemma flags_scans m : ∀ fuel a f, scans m (a + 1) fuel (parse_flags fuel m a f).
Proof.
  induction fuel as [|fuel IH]; intros a n; [apply scans_0|]. cbn [parse_flags].
  destruct (load8_cases m (a + 1)) as [(v & Hv & ->)|[_ ->]]; [|by intros ?]. cbn [mbind res_bind].
  destruct (flag_of v); [|by intros ?]. scan_on IH.
Qed.

(** ** What the output functions write *)

Lemma cursor_small w : 0 <= str w < 4294967296 → cursor w = str w.
Proof. unfold cursor. word. Qed.

(** From [w] to [w'] only bytes from the old cursor on, and none behind [end_],
    were written, unless the cursor wrapped. *)
Record wrote (end_ : Z) (w w' : writer) : Prop := {
  wr_str : str w <= str w';
  wr_mem : 0 <= str w → str w' <= 4294967296 →
    ∀ a, a < str w ∨ str w' <= a ∨ end_ < a → wm w' !! a = wm w !! a;
  wr_dom : ∀ a, is_Some (wm w' !! a) ↔ is_Some (wm w !! a) }.

#[global] Instance wrote_refl end_ : Reflexive (wrote end_).
Proof. intros w. constructor; [lia|done|done]. Qed.

#[global] Instance wrote_trans end_ : Transitive (wrote end_).
Proof.
  intros w1 w2 w3 [S1 M1 D1] [S2 M2 D2]. constructor; [lia| |].
  - intros H1 H2 a Ha. rewrite M2, M1 by lia. done.
  - intros a. by rewrite D2.
Qed.

Lemma wrote_size end_ w w' : wrote end_ w w' → base.size (wm w') = base.size (wm w).
Proof.
  intros [_ _ D]. rewrite <- !(size_dom (D:=gset Z)). f_equal. apply set_eq. intros a.
  by rewrite !elem_of_dom.
Qed.

(** An output function writes as [wrote] says, and stops for no lack of fuel. *)
Definition writes (end_ : Z) (w : writer) (r : res writer) : Prop :=
  match r with Ok w' => wrote end_ w w' | Stop e => e ≠ OutOfFuel end.
Definition writes2 {A} (end_ : Z) (w : writer) (r : res (writer * A)) : Prop :=
  match r with Ok (w', _) => wrote end_ w w' | Stop e => e ≠ OutOfFuel end.

Lemma writes_bind end_ w r f :
  writes end_ w r → (∀ w1, wrote end_ w w1 → writes end_ w1 (f w1)) → writes end_ w (r ≫= f).
Proof.
  destruct r as [w1|e]; simpl; [|done]. intros Hw Hf. specialize (Hf w1 Hw).
  destruct (f w1) as [w2|e]; simpl in *; [by transitivity w1|done].
Qed.

Lemma writes2_bind {A} end_ w (r : res (writer * A)) f :
  writes2 end_ w r → (∀ w1 x, wrote end_ w w1 → writes end_ w1 (f (w1, x))) → writes end_ w (r ≫= f).
Proof.
  destruct r as [[w1 x]|e]; simpl; [|done]. intros Hw Hf. specialize (Hf w1 x Hw).
  destruct (f (w1, x)) as [w2|e]; simpl in *; [by transitivity w1|done].
Qed.

Lemma put_writes end_ c w : writes end_ w (put end_ c w).
Proof.
  unfold put, store8. destruct (Z.leb_spec (cursor w) end_) as [Hle|Hgt]; simpl.
  - destruct (load8_cases (wm w) (cursor w)) as [(v & Hv & ->)|[_ ->]]; simpl; [|done].
    constructor; simpl; [lia| |].
    + intros H1 H2 a Ha. rewrite cursor_small in * by lia. rewrite lookup_insert_ne; [done|lia].
    + intros a. rewrite lookup_insert. case_decide as Hd; [|done]. subst. rewrite Hv. split; eauto.
  - constructor; simpl; [lia|done|done].
Qed.

Lemma puts_writes end_ l : ∀ w, writes end_ w (puts end_ l w).
Proof.
  induction l as [|c l IH]; intros w; simpl; [by apply wrote_refl|].
  apply writes_bind; [apply put_writes|intros; apply IH].
Qed.

Lemma pad_writes end_ c n w : writes end_ w (pad end_ c n w).
Proof. apply puts_writes. Qed.

Lemma writes_pair {A} end_ w r (x : A) : writes end_ w r → writes2 end_ w (w ← r; Ok (w, x)).
Proof. by destruct r. Qed.

Lemma drain_writes end_ c n w : writes2 end_ w (drain end_ c n w).
Proof. apply writes_pair, pad_writes. Qed.

Lemma digits_loop_total room large base : ∀ num, digits_loop room large num base ≠ Stop OutOfFuel.
Proof.
  induction room as [|room IH]; intros num; simpl; destruct (num =? 0); try done.
  destruct (divide num base) as [d q]. destruct (digits_loop room large q base) as [l|e] eqn:E; simpl; [done|].
  rewrite <- E. apply IH.
Qed.

Lemma number_digits_total large num base : number_digits large num base ≠ Stop OutOfFuel.
Proof. unfold number_digits. destruct (num =? 0); [done|apply digits_loop_total]. Qed.

(** A computation that writes nothing, in front of one that does. *)
Lemma writes_pure {A} end_ w (r : res A) f :
  r ≠ Stop OutOfFuel → (∀ x, r = Ok x → writes end_ w (f x)) → writes end_ w (r ≫= f).
Proof. destruct r; simpl; [auto|congruence]. Qed.
Lemma writes2_pure {A B} end_ w (r : res A) (f : A → res (writer * B)) :
  r ≠ Stop OutOfFuel → (∀ x, r = Ok x → writes2 end_ w (f x)) → writes2 end_ w (r ≫= f).
Proof. destruct r; simpl; [auto|congruence]. Qed.

Lemma writes2_if {A} end_ w (b : bool) (r : res (writer * A)) (x : A) :
  writes2 end_ w r → writes2 end_ w (if b then r else Ok (w, x)).
Proof. destruct b; [done|]. intros _. by apply wrote_refl. Qed.

Lemma print_number_writes end_ num base s precision type w :
  writes end_ w (print_number end_ num base s precision type w).
Proof.
  unfold print_number. cbv zeta. apply writes_pure.
  { destruct (_ && _); [|done]. unfold require. by destruct (negb _). }
  intros n _. apply writes_pure; [apply number_digits_total|]. intros tmp _.
  apply writes2_bind; [apply writes2_if, drain_writes|]. intros w1 size1 _.
  apply writes2_bind.
  { destruct (sign_of _ _); [apply writes_pair, put_writes|by apply wrote_refl]. }
  intros w2 size2 _. apply writes2_bind; [apply writes2_if, drain_writes|]. intros w3 size3 _.
  apply writes_bind; [apply pad_writes|]. intros w4 _.
  apply writes_bind; [apply puts_writes|]. intros w5 _.
  apply writes2_bind; [apply drain_writes|]. intros w6 size6 _. by apply wrote_refl.
Qed.

Lemma put_string_writes end_ : ∀ len s w, writes end_ w (put_string len end_ s w).
Proof.
  induction len as [|len IH]; intros s w; simpl; [by apply wrote_refl|].
  destruct (load8_cases (wm w) s) as [(v & _ & ->)|[_ ->]]; simpl; [|done].
  apply writes_bind; [apply put_writes|intros; apply IH].
Qed.

Lemma put_c_writes end_ width flags a w : writes end_ w (put_c end_ width flags a w).
Proof.
  unfold put_c. apply writes2_bind; [apply writes2_if, writes_pair, pad_writes|]. intros w1 x _.
  apply writes_bind; [apply put_writes|]. intros w2 _.
  apply writes2_bind; [apply writes_pair, pad_writes|]. intros w3 y _. by apply wrote_refl.
Qed.

Lemma put_s_writes end_ width flags precision s w : writes end_ w (put_s end_ width flags precision s w).
Proof.
  unfold put_s. apply writes_pure; [destruct (s =? 0); [done|apply rt_strlen_total]|].
  intros len _. cbv zeta. apply writes2_bind; [apply writes2_if, writes_pair, pad_writes|]. intros w1 x _.
  apply writes_bind; [destruct (s =? 0); [apply puts_writes|apply put_string_writes]|]. intros w2 _.
  apply writes2_bind; [apply writes_pair, pad_writes|]. intros w3 y _. by apply wrote_refl.
Qed.

Lemma va_arg_total args : va_arg args ≠ Stop OutOfFuel.
Proof. by destruct args. Qed.

Lemma load8_total m a : load8 m a ≠ Stop OutOfFuel.
Proof. destruct (load8_cases m a) as [(v & _ & ->)|[_ ->]]; done. Qed.

(** [conversion] writes as the others do and leaves [fmt] further on, over
    mapped bytes only. *)
Definition mapped_from (m : gmap Z Z) (a b : Z) : Prop := ∀ x, a <= x < b → is_Some (m !! x).

(** A parser of the format string that goes from [a] on to [b]. *)
Definition advances (m : gmap Z Z) (a b : Z) : Prop := a <= b ∧ mapped_from m a b.

Lemma advances_refl m a : advances m a a.
Proof. split; [lia|]. intros x Hx. lia. Qed.

Lemma advances_trans m a b c : advances m a b → advances m b c → advances m a c.
Proof.
  intros [? H1] [? H2]. split; [lia|]. intros x Hx.
  destruct (Z.lt_ge_cases x b); [apply H1; lia|apply H2; lia].
Qed.

Lemma advances_1 m a v : m !! a = Some v → advances m a (a + 1).
Proof. intros Ha. split; [lia|]. intros x Hx. replace x with a by lia. eauto. Qed.

Lemma load8_adv m a v : load8 m a = Ok v → advances m a (a + 1).
Proof. intros H. apply of_option_ok in H. by eapply advances_1. Qed.

Lemma atoi_adv m : ∀ fuel a i j b, atoi_loop fuel m a i = Ok (j, b) → advances m a b.
Proof.
  induction fuel as [|fuel IH]; intros a i j b; [done|]. cbn [atoi_loop].
  intros (c & Hc & H)%bind_ok_inv. destruct (isdigit c); [|injection H as <- <-; apply advances_refl].
  apply bind_ok_inv in H as (u & _ & H). apply IH in H.
  eapply advances_trans; [by eapply load8_adv|done].
Qed.

Lemma flags_adv m : ∀ fuel a f b g, parse_flags fuel m a f = Ok (b, g) → advances m (a + 1) b.
Proof.
  induction fuel as [|fuel IH]; intros a f b g; [done|]. cbn [parse_flags].
  intros (c & Hc & H)%bind_ok_inv. destruct (flag_of c).
  - apply IH in H. eapply advances_trans; [by eapply load8_adv|done].
  - injection H as <- <-. apply advances_refl.
Qed.

Lemma width_adv m a f args b args' wd g :
  parse_width m a f args = Ok (b, args', wd, g) → advances m a b.
Proof.
  unfold parse_width. intros (c & Hc & H)%bind_ok_inv. pose proof (load8_adv _ _ _ Hc) as Ha.
  destruct (isdigit c).
  { apply bind_ok_inv in H as ([i b'] & H & [= <- <- <- <-]). by eapply atoi_adv. }
  destruct (c =? _).
  - apply bind_ok_inv in H as ([x args1] & _ & H). destruct (_ <? 0).
    + by apply bind_ok_inv in H as (u & _ & [= <- <- <- <-]).
    + by injection H as <- <- <- <-.
  - injection H as <- <- <- <-. apply advances_refl.
Qed.

Lemma precision_adv m a args b args' p : parse_precision m a args = Ok (b, args', p) → advances m a b.
Proof.
  unfold parse_precision. intros (c & Hc & H)%bind_ok_inv. pose proof (load8_adv _ _ _ Hc) as Ha.
  destruct (c =? _); [|injection H as <- <- <-; apply advances_refl].
  apply bind_ok_inv in H as (d & Hd & H). apply bind_ok_inv in H as ([[b1 a1] p1] & H & [= <- <- <-]).
  eapply advances_trans; [exact Ha|]. destruct (isdigit d).
  - apply bind_ok_inv in H as ([i b'] & H & [= <- <- <-]). by eapply atoi_adv.
  - destruct (d =? _).
    + apply bind_ok_inv in H as ([x args1] & _ & [= <- <- <-]). by eapply load8_adv.
    + injection H as <- <- <-. apply advances_refl.
Qed.

Lemma qualifier_adv m a b q : parse_qualifier m a = Ok (b, q) → advances m a b.
Proof.
  unfold parse_qualifier. intros (c & Hc & H)%bind_ok_inv. pose proof (load8_adv _ _ _ Hc) as Ha.
  destruct (_ || _); injection H as <- <-; [done|apply advances_refl].
Qed.

Lemma bind_total {A B} (r : res A) (f : A → res B) :
  r ≠ Stop OutOfFuel → (∀ x, r = Ok x → f x ≠ Stop OutOfFuel) → (r ≫= f) ≠ Stop OutOfFuel.
Proof. destruct r; simpl; [auto|congruence]. Qed.

Lemma skip_atoi_total m a : skip_atoi m a ≠ Stop OutOfFuel.
Proof. eapply scans_total, atoi_scans. Qed.

Lemma require_total e b : e ≠ OutOfFuel → require e b ≠ Stop OutOfFuel.
Proof. destruct b; simpl; [done|congruence]. Qed.

#[export] Hint Resolve load8_total va_arg_total skip_atoi_total : rtt.

Lemma width_total m a f args : parse_width m a f args ≠ Stop OutOfFuel.
Proof.
  unfold parse_width. apply bind_total; [auto with rtt|]. intros c _. destruct (isdigit c).
  { apply bind_total; [auto with rtt|by intros []]. }
  destruct (_ =? _); [|done]. apply bind_total; [auto with rtt|]. intros [x l] _.
  destruct (_ <? 0); [|done]. apply bind_total; [by apply require_total|done].
Qed.

Lemma precision_total m a args : parse_precision m a args ≠ Stop OutOfFuel.
Proof.
  unfold parse_precision. apply bind_total; [auto with rtt|]. intros c _. destruct (_ =? _); [|done].
  apply bind_total; [auto with rtt|]. intros d _. apply bind_total; [|by intros [[] ?]].
  destruct (isdigit d); [apply bind_total; [auto with rtt|by intros []]|].
  destruct (_ =? _); [|done]. apply bind_total; [auto with rtt|by intros []].
Qed.

Lemma qualifier_total m a : parse_qualifier m a ≠ Stop OutOfFuel.
Proof. unfold parse_qualifier. apply bind_total; [auto with rtt|]. intros c _. by destruct (_ || _). Qed.

#[export] Hint Resolve width_total precision_total qualifier_total : rtt.

(** One conversion writes as the others do, and its last character is at [b]. *)
Definition conv_ok (end_ a : Z) (w : writer) (r : res (writer * Z * list Z)) : Prop :=
  match r with
  | Ok (w', b, _) => wrote end_ w w' ∧ advances (wm w) (a + 1) (b + 1)
  | Stop e => e ≠ OutOfFuel
  end.

Lemma conv_writes end_ a b args w r :
  advances (wm w) (a + 1) (b + 1) → writes end_ w r → conv_ok end_ a w (w' ← r; Ok (w', b, args)).
Proof. by destruct r. Qed.

Lemma conv_arg end_ a b args w f :
  advances (wm w) (a + 1) (b + 1) → (∀ x, writes end_ w (f x)) →
  conv_ok end_ a w ('(x, l) ← va_arg args; w' ← f x; Ok (w', b, l)).
Proof. intros Ha Hf. destruct args as [|x l]; [done|]. by apply conv_writes. Qed.

Lemma conversion_ok end_ a args w : conv_ok end_ a w (conversion end_ a args w).
Proof.
  unfold conversion.
  destruct (parse_flags _ _ a 0) as [[b1 f1]|e] eqn:E1; simpl.
  2: { intros ->. revert E1. eapply scans_total, flags_scans. }
  apply flags_adv in E1.
  destruct (parse_width _ b1 f1 args) as [[[[b2 args2] fw] f2]|e] eqn:E2; simpl;
    [|intros ->; by apply width_total in E2]. apply width_adv in E2.
  destruct (parse_precision _ b2 args2) as [[[b3 args3] p]|e] eqn:E3; simpl;
    [|intros ->; by apply precision_total in E3]. apply precision_adv in E3.
  destruct (parse_qualifier _ b3) as [[b4 q]|e] eqn:E4; simpl;
    [|intros ->; by apply qualifier_total in E4]. apply qualifier_adv in E4.
  destruct (load8 (wm w) b4) as [c|e] eqn:E5; simpl; [|intros ->; by apply load8_total in E5].
  apply load8_adv in E5.
  assert (Hadv : advances (wm w) (a + 1) b4).
  { eapply advances_trans; [exact E1|]. eapply advances_trans; [exact E2|].
    eapply advances_trans; [exact E3|exact E4]. }
  assert (Hadv1 : advances (wm w) (a + 1) (b4 + 1)) by (by eapply advances_trans).
  pose proof (print_number_writes end_) as Hnum.
  pose proof (λ f Hf, conv_arg end_ a b4 args3 w f Hadv1 Hf) as Harg.
  assert (Hint : ∀ base fl, conv_ok end_ a w ('(x, l) ← va_arg args3;
    w' ← print_number end_ (int_arg q fl x) base fw p fl w; Ok (w', b4, l))) by (intros; by apply Harg).
  destruct (c =? chr "c"); [apply (Harg (λ x, put_c end_ fw f2 x w)); intros; apply put_c_writes|].
  destruct (c =? chr "s"); [apply (Harg (λ x, put_s end_ fw f2 p x w)); intros; apply put_s_writes|].
  destruct (c =? chr "p").
  { destruct (fw =? -1); [apply (Harg (λ x, print_number end_ (s32 x) 16 8 p (Z.lor f2 ZEROPAD) w))
      |apply (Harg (λ x, print_number end_ (s32 x) 16 fw p f2 w))]; done. }
  destruct (c =? chr "%"); [by apply conv_writes, put_writes|].
  destruct (c =? chr "o"); [apply Hint|].
  destruct (c =? chr "X"); [apply Hint|].
  destruct (c =? chr "x"); [apply Hint|].
  destruct (_ || _); [apply Hint|].
  destruct (c =? chr "u"); [apply Hint|].
  destruct (c =? 0).
  - apply (conv_writes end_ a (b4 - 1) args3 w); [|apply put_writes].
    by replace (b4 - 1 + 1) with b4 by lia.
  - pose proof (put_writes end_ (chr "%") w) as Hp. destruct (put end_ (chr "%") w) as [w1|e]; simpl; [|done].
    pose proof (put_writes end_ c w1) as Hc. destruct (put end_ c w1) as [w2|e]; simpl; [|done].
    split; [by transitivity w1|done].
Qed.

(** ** [rt_vsnprintf] as a whole *)
Lemma loop_wrote end_ : ∀ fuel fmt args w w',
  vsnprintf_loop fuel end_ fmt args w = Ok w' → wrote end_ w w'.
Proof.
  induction fuel as [|fuel IH]; intros fmt args w w'; cbn [vsnprintf_loop];
    intros (c & Hc & H)%bind_ok_inv;
    (destruct (c =? 0); [by injection H as <-|try discriminate H]).
  destruct (negb _).
  - apply bind_ok_inv in H as (w1 & Hw & H). apply IH in H.
    pose proof (put_writes end_ c w) as Hp. rewrite Hw in Hp. by transitivity w1.
  - apply bind_ok_inv in H as ([[w1 b] l] & Hw & H). apply IH in H.
    pose proof (conversion_ok end_ fmt args w) as Hp. rewrite Hw in Hp. destruct Hp as [Hp _]. by transitivity w1.
Qed.

(** Every round goes over at least one more mapped byte of the format. *)
Lemma loop_scans end_ : ∀ fuel fmt args w,
  scans (wm w) fmt (S fuel) (vsnprintf_loop fuel end_ fmt args w).
Proof.
  induction fuel as [|fuel IH]; intros fmt args w; cbn [vsnprintf_loop];
    (destruct (load8_cases (wm w) fmt) as [(c & Hc & ->)|[_ ->]]; [|by intros ?]); cbn [mbind res_bind];
    (destruct (c =? 0); [by intros ?|]).
  { intros _ i Hi. replace (fmt + i) with fmt by lia. eauto. }
  destruct (negb _).
  - pose proof (put_writes end_ c w) as Hp. destruct (put end_ c w) as [w1|e]; simpl in Hp |- *;
      [|intros [= ->]; done].
    eapply scans_step; [done|intros ?; eassumption|]. intros H i Hi. apply Hp. by apply (IH (fmt + 1) args w1).
  - pose proof (conversion_ok end_ fmt args w) as Hp.
    destruct (conversion end_ fmt args w) as [[[w1 b] l]|e]; simpl in Hp |- *; [|intros [= ->]; done].
    destruct Hp as [Hw [Hb Hm]]. intros H i Hi. destruct (Z.eq_dec i 0) as [->|]; [rewrite Z.add_0_r; eauto|].
    destruct (Z.lt_ge_cases (fmt + i) (b + 1)) as [Hlt|Hge]; [apply Hm; lia|].
    apply Hw. replace (fmt + i) with (b + 1 + (fmt + i - (b + 1))) by lia. apply (IH (b + 1) l w1); [done|lia].
Qed.

Lemma loop_total end_ fmt args w : vsnprintf_loop (base.size (wm w)) end_ fmt args w ≠ Stop OutOfFuel.
Proof. eapply scans_total, loop_scans. Qed.

Lemma end_of_small buf size : 0 <= buf → 0 < size → buf + size <= 4294967296 → end_of buf size = buf + size - 1.
Proof. intros Hb Hs Hl. unfold end_of. cbv zeta. word. Qed.

(** C38. [rt_vsnprintf] (and with it [rt_snprintf] and [rt_kprintf]) for any
    format string and arguments: it never runs for ever.  As long as the text, counted in
    full, does not reach the end of the address space behind [buf], nothing outside
    [buf .. buf + size - 1] has changed when it returns, the text is ended by a NUL byte
    behind its last character or, when it was cut, at the last byte of the buffer, and
    the result is the full count as a signed word.  (With a longer text the cursor of 32 bits
    wraps: [cursor_wraps].) *)
Theorem rt_vsnprintf_bounds m buf size fmt args :
  0 <= buf → 0 < size → buf + size <= 4294967296 →
  match formatted m buf size fmt args with
  | Ok w => ∃ n, str w = buf + n ∧ 0 <= n ∧
      match rt_vsnprintf m buf size fmt args with
      | Ok (m', r) => r = s32 n ∧ (∀ a, is_Some (m' !! a) ↔ is_Some (m !! a)) ∧
          (buf + n < 4294967296 → m' !! (buf + Z.min n (size - 1)) = Some 0 ∧
            ∀ a, a < buf ∨ buf + size <= a → m' !! a = m !! a)
      | Stop e => e = OutOfBounds ∧ (buf + n < 4294967296 → m !! (buf + Z.min n (size - 1)) = None)
      end
  | Stop e => rt_vsnprintf m buf size fmt args = Stop e ∧ e ≠ OutOfFuel
  end.
Proof.
  intros Hb Hs Hl. unfold rt_vsnprintf. pose proof (loop_total (end_of buf size) fmt args (mk_writer m buf)) as Ht.
  fold (formatted m buf size fmt args) in Ht. cbn [wm] in Ht. unfold formatted in *.
  destruct (vsnprintf_loop _ _ fmt args _) as [w|e] eqn:E; simpl; [|split; congruence].
  apply loop_wrote in E as [Hstr Hmem Hdom]. rewrite end_of_small in * by done. simpl in Hstr, Hmem, Hdom.
  exists (str w - buf). split; [lia|]. split; [lia|].
  set (e := if cursor w <=? buf + size - 1 then cursor w else buf + size - 1).
  assert (He : str w < 4294967296 → e = buf + Z.min (str w - buf) (size - 1))
    by (intros ?; unfold e; rewrite cursor_small by lia; case_bools; lia).
  unfold store8. destruct (load8_cases (wm w) e) as [(v & Hv & ->)|[Hv ->]]; simpl.
  - split_and!; [done| |].
    + intros a. rewrite lookup_insert, <- Hdom. case_decide as Hd; [|done]. subst a. rewrite Hv. split; eauto.
    + intros Hn. rewrite <- He, lookup_insert_eq by lia. split; [done|].
      intros a Ha. rewrite lookup_insert_ne by (specialize (He ltac:(lia)); lia). apply Hmem; lia.
  - split; [done|]. intros Hn. rewrite <- He by lia. apply eq_None_not_Some. rewrite <- Hdom. by rewrite Hv.
Qed.

(** ** Numbers *)

(** The digits [print_number] collects in [tmp], least significant first. *)
Definition digit_value (c : Z) : Z :=
  if c <=? chr "9" then c - chr "0" else if c <=? chr "F" then c - chr "A" + 10 else c - chr "a" + 10.
Fixpoint number_value (b : Z) (tmp : list Z) : Z :=
  match tmp with [] => 0 | c :: tmp => digit_value c + b * number_value b tmp end.

(** [divide] knows two bases only. *)
Definition radix (base : Z) : Z := if base =? 10 then 10 else 16.

Lemma digit_value_digit large d : 0 <= d < 16 → digit_value (digit large d) = d.
Proof.
  intros Hd. assert (H : ∀ n, (n < 16)%nat → digit_value (digit large (Z.of_nat n)) = Z.of_nat n).
  { intros n Hn. do 16 (destruct n as [|n]; [by destruct large|]). lia. }
  specialize (H (Z.to_nat d)). rewrite Z2Nat.id in H by lia. apply H. lia.
Qed.

Lemma digit_range large d : 0 <= d < 16 → 48 <= digit large d < 103.
Proof.
  intros Hd. assert (H : ∀ n, (n < 16)%nat → 48 <= digit large (Z.of_nat n) < 103).
  { intros n Hn. do 16 (destruct n as [|n]; [by destruct large|]). lia. }
  specialize (H (Z.to_nat d)). rewrite Z2Nat.id in H by lia. apply H. lia.
Qed.

Lemma divide_radix num base :
  let '(d, q) := divide num base in
  0 <= d < radix base ∧ u32 q = u32 num / radix base ∧ u32 num = d + radix base * u32 q ∧
  -2147483648 <= q < 2147483648.
Proof.
  unfold divide, radix. destruct (base =? 10).
  - assert (0 <= u32 num < 4294967296) by (unfold u32; lia). set (n := u32 num) in *. clearbody n.
    assert (u32 (s32 (n / 10)) = n / 10) by word. repeat split; try lia; word.
  - assert (0 <= u32 num < 4294967296) by (unfold u32; lia). set (n := u32 num) in *. clearbody n.
    assert (u32 (s32 (n / 16)) = n / 16) by word. repeat split; try lia; word.
Qed.

Lemma radix_range base : 10 <= radix base <= 16.
Proof. unfold radix. destruct (base =? 10); lia. Qed.

Definition is_digit_of (b c : Z) : Prop := ∃ large d, 0 <= d < b ∧ c = digit large d.

(** Collecting the digits: [room] places are enough for numbers below
    [radix ^ room]; no leading zero. *)
Lemma digits_loop_ok large base : ∀ room num,
  -2147483648 <= num < 2147483648 → u32 num < radix base ^ Z.of_nat room →
  ∃ l, digits_loop room large num base = Ok l ∧ number_value (radix base) l = u32 num ∧
    Forall (is_digit_of (radix base)) l ∧ (length l <= room)%nat ∧
    (num ≠ 0 → ∃ l' c, l = l' ++ [c] ∧ digit_value c ≠ 0).
Proof.
  pose proof (radix_range base) as Hb.
  induction room as [|room IH]; intros num Hn Hlt; simpl.
  - assert (num = 0) as -> by (revert Hlt; word). exists []. repeat split; [constructor|simpl; lia|done].
  - destruct (Z.eqb_spec num 0) as [->|Hnz].
    { exists []. repeat split; [constructor|simpl; lia|done]. }
    pose proof (divide_radix num base) as Hd. destruct (divide num base) as [d q].
    destruct Hd as (Hd & Hq & Hnum & Hqr).
    destruct (IH q Hqr) as (l & E & Hv & Hall & Hlen & Hlast).
    { rewrite Nat2Z.inj_succ, Z.pow_succ_r in Hlt by lia. rewrite Hq.
      apply Z.div_lt_upper_bound; lia. }
    exists (digit large d :: l). rewrite E. simpl. rewrite digit_value_digit by lia. split_and!; [done|lia| |lia|].
    + constructor; [|done]. by exists large, d.
    + intros _. destruct (Z.eq_dec q 0) as [->|Hqz].
      * exists [], (digit large d). rewrite digit_value_digit by lia.
        assert (l = []) as -> by (destruct room; simpl in E; congruence).
        split; [done|]. simpl in Hv. revert Hnum. word.
      * destruct (Hlast Hqz) as (l' & c & -> & Hc). by exists (digit large d :: l'), c.
Qed.

Lemma number_digits_ok large num base :
  -2147483648 <= num < 2147483648 →
  ∃ tmp, number_digits large num base = Ok tmp ∧ number_value (radix base) tmp = u32 num ∧
    Forall (is_digit_of (radix base)) tmp ∧ (1 <= length tmp <= 16)%nat ∧
    (num ≠ 0 → ∃ l c, tmp = l ++ [c] ∧ digit_value c ≠ 0).
Proof.
  intros Hn. unfold number_digits. pose proof (radix_range base) as Hb. destruct (Z.eqb_spec num 0) as [->|Hnz].
  - exists [chr "0"]. split_and!; [done|cbn [number_value]; change (digit_value (chr "0")) with 0; change (u32 0) with 0; lia| |simpl; lia|simpl; lia|done]. constructor; [|constructor].
    exists large, 0. split; [lia|by destruct large].
  - destruct (digits_loop_ok large base 16 num Hn) as (l & E & Hv & Hall & Hlen & Hlast).
    { assert (radix base ^ Z.of_nat 16 >= 10 ^ 16) as Hp by (apply Z.le_ge, Z.pow_le_mono_l; lia).
      change (10 ^ 16) with 10000000000000000 in Hp. unfold u32. lia. }
    exists l. split_and!; try done. destruct (Hlast Hnz) as (l' & c & -> & _). rewrite length_app. simpl. lia.
Qed.

(** ** Layout *)
Lemma puts_app end_ l1 l2 w : puts end_ (l1 ++ l2) w = (w ← puts end_ l1 w; puts end_ l2 w).
Proof.
  revert w. induction l1 as [|c l1 IH]; intros w; simpl; [done|].
  destruct (put end_ c w); simpl; [apply IH|done].
Qed.

Lemma puts_str end_ l : ∀ w w', puts end_ l w = Ok w' → str w' = str w + Z.of_nat (length l).
Proof.
  induction l as [|c l IH]; intros w w'; simpl; [intros [= <-]; lia|].
  intros (w1 & Hp & H)%bind_ok_inv. apply IH in H. unfold put in Hp.
  apply bind_ok_inv in Hp as (m & _ & [= <-]). simpl in H. lia.
Qed.

Lemma puts_seq end_ l1 l2 w (f : writer → res writer) :
  (∀ w1, puts end_ l1 w = Ok w1 → f w1 = puts end_ l2 w1) → (puts end_ l1 w ≫= f) = puts end_ (l1 ++ l2) w.
Proof. intros H. rewrite puts_app. destruct (puts end_ l1 w) as [w1|e]; simpl; [by apply H|done]. Qed.

Definition spaces (n : Z) : list Z := replicate (Z.to_nat n) (chr " ").
Definition zeros (n : Z) : list Z := replicate (Z.to_nat n) (chr "0").
Definition opt_list (o : option Z) : list Z := match o with Some c => [c] | None => [] end.

(** The text of a number: [tmp] its digits, at least [precision] of them, [s]
    the field width. *)
Definition layout (sign : option Z) (type s precision : Z) (tmp : list Z) : list Z :=
  let i := Z.of_nat (length tmp) in
  let body := zeros (precision - i) ++ reverse tmp in
  let fill := s - Z.max i precision - Z.of_nat (length (opt_list sign)) in
  if has type LEFT then opt_list sign ++ body ++ spaces fill
  else if has type ZEROPAD then opt_list sign ++ zeros fill ++ body
  else spaces fill ++ opt_list sign ++ body.

Lemma drain_bind end_ c n w (f : writer * Z → res writer) :
  (drain end_ c n w ≫= f) = (w1 ← puts end_ (replicate (Z.to_nat n) c) w; f (w1, Z.min n 0 - 1)).
Proof. unfold drain, pad. by destruct (puts _ _ w). Qed.

Lemma drain_none end_ c n w (f : writer * Z → res writer) :
  n <= 0 → (drain end_ c n w ≫= f) = f (w, n - 1).
Proof. intros Hn. rewrite drain_bind. replace (Z.to_nat n) with 0%nat by lia. simpl. f_equal. f_equal. lia. Qed.

(** The tail of [print_number], from the zeros of the precision on. *)
Definition number_tail (end_ zs size : Z) (tmp : list Z) (w : writer) : res writer :=
  w ← pad end_ (chr "0") zs w;
  w ← puts end_ (reverse tmp) w;
  '(w, _) ← drain end_ (chr " ") size w;
  Ok w.

Lemma number_tail_eq end_ zs size tmp w :
  number_tail end_ zs size tmp w = puts end_ ((zeros zs ++ reverse tmp) ++ spaces size) w.
Proof.
  unfold number_tail, pad. rewrite <- app_assoc. apply puts_seq. intros w1 _. apply puts_seq. intros w2 _.
  rewrite drain_bind. unfold spaces. by destruct (puts _ _ w2).
Qed.

(** The sign, where there is room for it. *)
Definition put_sign (end_ : Z) (sign : option Z) (size : Z) (w : writer) : res (writer * Z) :=
  match sign with
  | Some sg => let size := if cursor w <=? end_ then size - 1 else size in w ← put end_ sg w; Ok (w, size)
  | None => Ok (w, size)
  end.

Lemma put_sign_bind end_ sign size w (f : writer * Z → res writer) :
  0 <= str w <= end_ → end_ < 4294967296 →
  (put_sign end_ sign size w ≫= f) =
    (w1 ← puts end_ (opt_list sign) w; f (w1, size - Z.of_nat (length (opt_list sign)))).
Proof.
  intros Hw He. unfold put_sign. destruct sign as [sg|]; simpl.
  - rewrite cursor_small, (proj2 (Z.leb_le _ _)) by lia. by destruct (put end_ sg w).
  - f_equal. f_equal. lia.
Qed.

Lemma has_or_none type : has type (Z.lor ZEROPAD LEFT) = has type ZEROPAD || has type LEFT.
Proof.
  unfold has. rewrite Z.land_lor_distr_r, <- negb_andb. f_equal.
  destruct (Z.eqb_spec (Z.lor (Z.land type ZEROPAD) (Z.land type LEFT)) 0) as [H|H].
  - apply Z.lor_eq_0_iff in H as [-> ->]. done.
  - destruct (Z.eqb_spec (Z.land type ZEROPAD) 0) as [H1|]; [|done].
    destruct (Z.eqb_spec (Z.land type LEFT) 0) as [H2|]; [|done]. exfalso. apply H. by rewrite H1, H2.
Qed.

Lemma left_clears type : has type LEFT = true →
  has (Z.land type (Z.lnot ZEROPAD)) LEFT = true ∧ has (Z.land type (Z.lnot ZEROPAD)) ZEROPAD = false ∧
  has (Z.land type (Z.lnot ZEROPAD)) SIGN = has type SIGN ∧ has (Z.land type (Z.lnot ZEROPAD)) LARGE = has type LARGE ∧
  (∀ num, sign_of num (Z.land type (Z.lnot ZEROPAD)) = sign_of num type).
Proof.
  intros Hl. assert (H : ∀ f, has (Z.land type (Z.lnot ZEROPAD)) f = has (type) (Z.land f (Z.lnot ZEROPAD))).
  { intros f. unfold has. do 2 f_equal. rewrite <- Z.land_assoc. by rewrite (Z.land_comm (Z.lnot _)). }
  unfold sign_of. rewrite !H. split_and!; try done.
  unfold has. by rewrite Z.land_0_r.
Qed.

(** The three shapes of the code, on a flag word without [LEFT] and [ZEROPAD]
    at once. *)
Lemma shapes end_ c sign size zs type tmp w :
  (has type LEFT = true → has type ZEROPAD = false) → c = (if has type ZEROPAD then chr "0" else chr " ") →
  0 <= str w → str w + Z.max 0 (size - Z.of_nat (length (opt_list sign))) <= end_ → end_ < 4294967296 →
  ('(w, size) ← (if negb (has type (Z.lor ZEROPAD LEFT)) then
      drain end_ (chr " ") (if match sign with Some _ => true | None => false end && (0 <? size)
                            then size - 1 else size) w
    else Ok (w, size));
   '(w, size) ← put_sign end_ sign size w;
   '(w, size) ← (if negb (has type LEFT) then drain end_ c size w else Ok (w, size));
   number_tail end_ zs size tmp w) =
  puts end_ (let fill := size - Z.of_nat (length (opt_list sign)) in
    let body := zeros zs ++ reverse tmp in
    if has type LEFT then opt_list sign ++ body ++ spaces fill
    else if has type ZEROPAD then opt_list sign ++ zeros fill ++ body
    else spaces fill ++ opt_list sign ++ body) w.
Proof.
  intros Hlz -> Hs0 Hroom He. rewrite has_or_none. cbv zeta.
  destruct (has type LEFT) eqn:HL.
  - rewrite (Hlz eq_refl). cbn [negb orb mbind res_bind]. rewrite put_sign_bind by lia.
    apply puts_seq. intros w1 _. cbn [mbind res_bind]. by rewrite number_tail_eq, <- app_assoc.
  - destruct (has type ZEROPAD) eqn:HZ; cbn [negb orb mbind res_bind].
    + rewrite put_sign_bind by lia. apply puts_seq. intros w1 _. rewrite drain_bind.
      apply puts_seq. intros w2 _. rewrite number_tail_eq. unfold spaces.
      replace (Z.to_nat (Z.min _ 0 - 1)) with 0%nat by lia. by rewrite app_nil_r.
    + rewrite drain_bind.
      assert (Hfill : Z.to_nat (if match sign with Some _ => true | None => false end && (0 <? size)
        then size - 1 else size) = Z.to_nat (size - Z.of_nat (length (opt_list sign))))
        by (destruct sign; simpl; case_bools; lia).
      rewrite Hfill. apply puts_seq. intros w1 Hw1. apply puts_str in Hw1. unfold spaces in Hw1. rewrite length_replicate in Hw1.
      rewrite put_sign_bind by lia. apply puts_seq. intros w2 _.
      rewrite drain_none by (destruct sign; simpl; case_bools; lia). rewrite number_tail_eq. unfold spaces.
      replace (Z.to_nat (_ - 1)) with 0%nat by (destruct sign; simpl; case_bools; lia). by rewrite app_nil_r.
Qed.

(** What is printed as digits: the absolute value of a signed number, the
    32-bit pattern of an unsigned one. *)
Definition magnitude (num type : Z) : Z := if has type SIGN then Z.abs num else num.

Lemma print_number_layout end_ num base s precision type w tmp :
  number_digits (has type LARGE) (magnitude num type) base = Ok tmp → -2147483648 < num →
  0 <= str w → str w + Z.max 0 s <= end_ → end_ < 4294967296 →
  print_number end_ num base s precision type w = puts end_ (layout (sign_of num type) type s precision tmp) w.
Proof.
  intros Htmp Hn Hs0 Hroom He. unfold print_number.
  set (type' := if has type LEFT then Z.land type (Z.lnot ZEROPAD) else type).
  assert (Ht : has type' LEFT = has type LEFT ∧ (has type LEFT = true → has type' ZEROPAD = false) ∧
    (has type LEFT = false → has type' ZEROPAD = has type ZEROPAD) ∧
    has type' SIGN = has type SIGN ∧ has type' LARGE = has type LARGE ∧ sign_of num type' = sign_of num type).
  { unfold type'. destruct (has type LEFT) eqn:E; [|split_and!; done].
    destruct (left_clears type E) as (? & ? & ? & ? & Hsg). by split_and!. }
  destruct Ht as (T1 & T2 & T3 & T4 & T5 & T6). rewrite T4, T5, T6.
  assert (Habs : (if has type SIGN && (num <? 0)
    then _ ← require SignedOverflow (negb (num =? -2147483648)); Ok (- num) else Ok num) = Ok (magnitude num type)).
  { unfold magnitude. destruct (has type SIGN); simpl; [|done].
    destruct (Z.ltb_spec num 0); [|f_equal; lia].
    destruct (Z.eqb_spec num (-2147483648)); [lia|]. simpl. f_equal. lia. }
  rewrite Habs. cbn [mbind res_bind]. rewrite Htmp. cbn [mbind res_bind]. cbv zeta.
  set (i := Z.of_nat (length tmp)). set (pr := if i >? precision then i else precision).
  assert (Hpr : pr = Z.max i precision) by (unfold pr; rewrite Z.gtb_ltb; case_bools; lia).
  pose proof (shapes end_ _ (sign_of num type) (s - pr) (pr - i) type' tmp w
    ltac:(rewrite T1; exact T2) eq_refl) as Hsh.
  assert (Hz : zeros (pr - i) = zeros (precision - i)) by (unfold zeros; f_equal; lia).
  unfold number_tail, put_sign in Hsh. etransitivity; [apply Hsh; lia|].
  cbv zeta. unfold layout. fold i. rewrite Hz, <- Hpr, T1.
  destruct (has type LEFT); [done|]. by rewrite T3.
Qed.

(** ** Bytes and lists *)
Definition bytes_at (m : gmap Z Z) (a : Z) (l : list Z) : Prop :=
  ∀ i c, l !! i = Some c → m !! (a + Z.of_nat i) = Some c.

Lemma bytes_at_cons m a c l : bytes_at m a (c :: l) ↔ m !! a = Some c ∧ bytes_at m (a + 1) l.
Proof.
  split.
  - intros H. split; [specialize (H 0%nat c eq_refl); by rewrite Z.add_0_r in H|].
    intros i d Hi. specialize (H (S i) d Hi). by replace (a + 1 + Z.of_nat i) with (a + Z.of_nat (S i)) by lia.
  - intros [Ha Hl] [|i] d Hi; [injection Hi as <-; by rewrite Z.add_0_r|].
    specialize (Hl i d Hi). by replace (a + Z.of_nat (S i)) with (a + 1 + Z.of_nat i) by lia.
Qed.

Lemma bytes_at_nil m a : bytes_at m a [].
Proof. by intros i c. Qed.

Lemma string_at_bytes m l : ∀ a, string_at m a l → bytes_at m a l.
Proof.
  induction l as [|c l IH]; intros a; [intros _; apply bytes_at_nil|].
  simpl. intros (Ha & _ & Hl). apply bytes_at_cons. auto.
Qed.

(** Enough room: every character is written. *)
Lemma puts_ok end_ l : ∀ w,
  mapped (wm w) (str w) (Z.of_nat (length l)) → 0 <= str w → str w + Z.of_nat (length l) <= end_ + 1 →
  end_ < 4294967296 →
  Forall (λ c, 0 <= c < 256) l →
  ∃ w', puts end_ l w = Ok w' ∧ str w' = str w + Z.of_nat (length l) ∧ bytes_at (wm w') (str w) l ∧ wrote end_ w w'.
Proof.
  induction l as [|c l IH]; intros w Hm Hs0 Hr He Hc.
  - exists w. split_and!; [done|simpl; lia|apply bytes_at_nil|by apply wrote_refl].
  - simpl in Hm, Hr. apply Forall_cons in Hc as [Hc Hl]. cbn [puts].
    set (w1 := mk_writer (<[str w := u8 c]> (wm w)) (str w + 1)).
    assert (Hput : put end_ c w = Ok w1).
    { unfold put. rewrite cursor_small, (proj2 (Z.leb_le _ _)) by lia. rewrite store8_ok; [done|apply Hm; lia]. }
    pose proof (put_writes end_ c w) as Hw1. rewrite Hput in Hw1 |- *. simpl in Hw1 |- *.
    destruct (IH w1) as (w' & E & Hs & Hb & Hw); [|simpl; lia|simpl; lia|done|done|].
    { simpl. apply mapped_insert. apply (mapped_sub _ _ _ _ _ Hm); lia. }
    exists w'. split_and!; [done|simpl in Hs; lia| |by transitivity w1].
    apply bytes_at_cons. split; [|exact Hb].
    destruct Hw as [_ Hw _]. rewrite Hw by (simpl in *; lia). simpl. rewrite lookup_insert_eq. f_equal. word.
Qed.

(** Reading a decimal number back. *)
Lemma number_value_app b l1 l2 :
  number_value b (l1 ++ l2) = number_value b l1 + b ^ Z.of_nat (length l1) * number_value b l2.
Proof.
  induction l1 as [|c l1 IH]; cbn [app number_value length]; [change (Z.of_nat 0) with 0; rewrite Z.pow_0_r; lia|].
  rewrite IH, Nat2Z.inj_succ, Z.pow_succ_r by lia. lia.
Qed.

Lemma number_value_nonneg b l : 0 <= b <= 16 → Forall (is_digit_of b) l → 0 <= number_value b l.
Proof.
  intros Hb. induction 1 as [|c l (large & d & Hd & ->) _ IH]; simpl; [done|].
  rewrite digit_value_digit by lia. nia.
Qed.

Lemma digit_10 c : is_digit_of 10 c → isdigit c = true ∧ digit_value c = c - chr "0" ∧ chr "0" <= c < 256.
Proof.
  intros (large & d & Hd & ->). assert (H : digit large d = chr "0" + d).
  { assert (Hn : ∀ n, (n < 10)%nat → digit large (Z.of_nat n) = chr "0" + Z.of_nat n).
    { intros n Hn. do 10 (destruct n as [|n]; [by destruct large|]). lia. }
    specialize (Hn (Z.to_nat d)). rewrite Z2Nat.id in Hn by lia. apply Hn. lia. }
  rewrite digit_value_digit by lia. rewrite H. unfold isdigit.
  change (chr "0") with 48. change (chr "9") with 57. case_bools; simpl; lia.
Qed.

Lemma atoi_reads m : ∀ tmp fuel a i x,
  Forall (is_digit_of 10) tmp → bytes_at m a (reverse tmp) → m !! (a + Z.of_nat (length tmp)) = Some x →
  isdigit x = false → 0 <= i → i * 10 ^ Z.of_nat (length tmp) + number_value 10 tmp < 2147483648 →
  (length tmp < fuel)%nat →
  atoi_loop fuel m a i = Ok (i * 10 ^ Z.of_nat (length tmp) + number_value 10 tmp, a + Z.of_nat (length tmp)).
Proof.
  intros tmp. induction tmp as [|c tmp IH] using rev_ind; intros fuel a i x Hd Hb Hx Hxd Hi Hv Hf;
    (destruct fuel as [|fuel]; [lia|]); cbn [atoi_loop].
  - cbn [length number_value] in Hx |- *. change (Z.of_nat 0) with 0 in Hx |- *. rewrite Z.add_0_r in Hx.
    rewrite (load8_ok _ _ _ Hx). cbn [mbind res_bind]. rewrite Hxd. do 2 f_equal; lia.
  - apply Forall_app in Hd as [Hd Hc]. apply Forall_inv in Hc.
    rewrite reverse_app in Hb. apply bytes_at_cons in Hb as [Ha Hb].
    rewrite (load8_ok _ _ _ Ha). cbn [mbind res_bind]. destruct (digit_10 c Hc) as (-> & Hdv & Hc0).
    rewrite length_app in Hv, Hf, Hx |- *. rewrite number_value_app in Hv |- *. simpl in Hv, Hf, Hx |- *.
    rewrite Hdv in Hv |- *. set (k := Z.of_nat (length tmp)) in *.
    replace (Z.of_nat (length tmp + 1)) with (k + 1) in * by lia.
    rewrite Z.pow_add_r in Hv |- * by lia. change (10 ^ 1) with 10 in Hv |- *.
    assert (Hk : 1 <= 10 ^ k) by (change 1 with (10 ^ 0); apply Z.pow_le_mono_r; lia).
    pose proof (number_value_nonneg 10 tmp ltac:(lia) Hd) as Hnn.
    unfold require. rewrite (proj2 (Z.ltb_lt _ _)) by nia. cbn [mbind res_bind].
    rewrite (IH fuel (a + 1) _ x); [do 2 f_equal; lia|done|done| |done|lia|lia|lia].
    rewrite <- Hx. f_equal. lia.
Qed.

(** ** Comparing and searching *)
Lemma memcmp_ok m : ∀ l1 l2 a b,
  length l1 = length l2 → bytes_at m a l1 → bytes_at m b l2 →
  ∃ r, memcmp_loop (length l1) m a b = Ok r ∧ (r = 0 ↔ l1 = l2).
Proof.
  induction l1 as [|x l1 IH]; intros [|y l2] a b Hl H1 H2; try discriminate Hl; [by exists 0|].
  apply bytes_at_cons in H1 as [Ha H1]. apply bytes_at_cons in H2 as [Hb H2]. injection Hl as Hl.
  cbn [length memcmp_loop]. rewrite (load8_ok _ _ _ Ha), (load8_ok _ _ _ Hb). cbn [mbind res_bind].
  destruct (Z.eqb_spec (x - y) 0) as [He|Hne].
  - assert (x = y) as -> by lia. destruct (IH l2 (a + 1) (b + 1) Hl H1 H2) as (r & E & Hr).
    exists r. split; [done|]. rewrite Hr. split; congruence.
  - exists (x - y). split; [done|]. split; [lia|]. intros [= -> ->]. lia.
Qed.

Lemma string_at_drop m l : ∀ a k, string_at m a l → (k <= length l)%nat → string_at m (a + Z.of_nat k) (drop k l).
Proof.
  induction l as [|c l IH]; intros a [|k] Hs Hk; try (simpl in Hk; lia); try by rewrite Z.add_0_r.
  destruct Hs as (_ & _ & Hs). replace (a + Z.of_nat (S k)) with (a + 1 + Z.of_nat k) by lia.
  apply IH; [done|simpl in Hk; lia].
Qed.

Lemma bytes_at_take m a l n : bytes_at m a l → bytes_at m a (take n l).
Proof. intros H i c Hi. apply lookup_take_Some in Hi as [Hi _]. by apply H. Qed.

(** [l2] stands in [l1] at place [k]. *)
Definition occurs (l2 l1 : list Z) (k : nat) : Prop := take (length l2) (drop k l1) = l2.

Lemma strstr_loop_ok m a b l1 l2 : ∀ tries k,
  string_at m a l1 → string_at m b l2 → (k + tries + length l2 = S (length l1))%nat →
  match strstr_loop tries m (a + Z.of_nat k) b (Z.of_nat (length l2)) with
  | Ok (Some p) => ∃ j, p = a + Z.of_nat j ∧ occurs l2 l1 j ∧ ∀ i, (k <= i < j)%nat → ¬ occurs l2 l1 i
  | Ok None => ∀ i, (k <= i < k + tries)%nat → ¬ occurs l2 l1 i
  | Stop _ => False
  end.
Proof.
  induction tries as [|tries IH]; intros k H1 H2 Hk; simpl; [intros i Hi; lia|].
  pose proof (string_at_drop m l1 a k H1 ltac:(lia)) as Hd.
  assert (Hlen : length (take (length l2) (drop k l1)) = length l2)
    by (rewrite length_take, length_drop; lia).
  destruct (memcmp_ok m (take (length l2) (drop k l1)) l2 (a + Z.of_nat k) b) as (r & E & Hr);
    [done|by apply bytes_at_take, string_at_bytes|by apply string_at_bytes|].
  unfold rt_memcmp. rewrite Nat2Z.id. rewrite Hlen in E. rewrite E. cbn [mbind res_bind].
  destruct (Z.eqb_spec r 0) as [Hz|Hnz].
  - exists k. split_and!; [done|by apply Hr|]. intros i Hi. lia.
  - replace (a + Z.of_nat k + 1) with (a + Z.of_nat (S k)) by lia.
    specialize (IH (S k) H1 H2 ltac:(lia)).
    assert (Hno : ¬ occurs l2 l1 k) by (unfold occurs; rewrite <- Hr; done).
    destruct (strstr_loop _ _ _ _ _) as [[p|]|]; [|intros i Hi|done].
    + destruct IH as (j & -> & Hj & Hbefore). exists j. split_and!; [done|done|].
      intros i Hi. destruct (decide (i = k)) as [->|]; [done|apply Hbefore; lia].
    + destruct (decide (i = k)) as [->|]; [done|apply IH; lia].
Qed.

Lemma occurs_short l2 l1 k : occurs l2 l1 k → (k + length l2 <= length l1)%nat ∨ l2 = [].
Proof.
  unfold occurs. intros H. destruct l2 as [|c l2]; [by right|]. left.
  apply (f_equal length) in H. rewrite length_take, length_drop in H. cbn [length] in *. lia.
Qed.

(** ** Properties *)

(** [rt_strstr] finds the first place where the second string stands in the
    first, and gives null exactly when there is none. *)
Theorem rt_strstr_spec m s1 s2 l1 l2 :
  string_at m s1 l1 → string_at m s2 l2 →
  match rt_strstr m s1 s2 with
  | Ok (Some p) => ∃ j, p = s1 + Z.of_nat j ∧ occurs l2 l1 j ∧ ∀ i, (i < j)%nat → ¬ occurs l2 l1 i
  | Ok None => ∀ i, ¬ occurs l2 l1 i
  | Stop _ => False
  end.
Proof.
  intros H1 H2. unfold rt_strstr. rewrite (rt_strlen_ok _ _ _ H2). cbn [mbind res_bind].
  destruct (Z.eqb_spec (Z.of_nat (length l2)) 0) as [Hz|Hnz].
  { exists 0%nat. destruct l2; [|simpl in Hz; lia]. split_and!; [lia|done|lia]. }
  rewrite (rt_strlen_ok _ _ _ H1). cbn [mbind res_bind].
  destruct (Z.le_gt_cases (Z.of_nat (length l2)) (Z.of_nat (length l1))) as [Hle|Hgt].
  - pose proof (strstr_loop_ok m s1 s2 l1 l2 (Z.to_nat (Z.of_nat (length l1) - Z.of_nat (length l2) + 1)) 0 H1 H2
      ltac:(lia)) as H. rewrite Z.add_0_r in H.
    destruct (strstr_loop _ _ _ _ _) as [ [p|]|]; [ | |done].
    + destruct H as (j & -> & Hj & Hb). exists j. split_and!; [done|done|]. intros i Hi. apply Hb. lia.
    + intros i Hi. pose proof (occurs_short _ _ _ Hi) as [?| ->]; [|by simpl in Hnz].
      apply (H i); [lia|done].
  - replace (Z.to_nat _) with 0%nat by lia. simpl. intros i Hi.
    pose proof (occurs_short _ _ _ Hi) as [?| ->]; [lia|by simpl in Hnz].
Qed.

(** A concrete memory: strings at fixed places. *)
Definition text_at (a : Z) (s : string) : gmap Z Z := map_seqZ a (lit s ++ [0]).
Definition text_demo : gmap Z Z := text_at 100 "AT+NSONMI:0,4" ∪ text_at 200 "NMI:".

Fixpoint check_string (m : gmap Z Z) (a : Z) (l : list Z) : bool :=
  match l with
  | [] => bool_decide (m !! a = Some 0)
  | c :: l => bool_decide (m !! a = Some c) && negb (c =? 0) && check_string m (a + 1) l
  end.
Lemma check_string_ok m l : ∀ a, check_string m a l = true → string_at m a l.
Proof.
  induction l as [|c l IH]; intros a; simpl; [by intros ?%bool_decide_eq_true|].
  intros [[H1%bool_decide_eq_true H2%negb_true_iff%Z.eqb_neq]%andb_true_iff H3]%andb_true_iff. auto.
Qed.

Lemma rt_strstr_spec_witness :
  match rt_strstr text_demo 100 200 with
  | Ok (Some p) => ∃ j, p = 100 + Z.of_nat j ∧ occurs (lit "NMI:") (lit "AT+NSONMI:0,4") j ∧
      ∀ i, (i < j)%nat → ¬ occurs (lit "NMI:") (lit "AT+NSONMI:0,4") i
  | Ok None => ∀ i, ¬ occurs (lit "NMI:") (lit "AT+NSONMI:0,4") i
  | Stop _ => False
  end.
Proof.
  apply rt_strstr_spec; apply check_string_ok; vm_compute; reflexivity.
Defined.

Lemma rt_vsnprintf_bounds_witness :
  let m := text_at 100 "AT+NSORF=%d,%d" ∪ text_at 1000 "0123456789" in
  match formatted m 1000 10 100 [0; 4] with
  | Ok w => ∃ n, str w = 1000 + n ∧ 0 <= n ∧
      match rt_vsnprintf m 1000 10 100 [0; 4] with
      | Ok (m', r) => r = s32 n ∧ (∀ a, is_Some (m' !! a) ↔ is_Some (m !! a)) ∧
          (1000 + n < 4294967296 → m' !! (1000 + Z.min n (10 - 1)) = Some 0 ∧
            ∀ a, a < 1000 ∨ 1000 + 10 <= a → m' !! a = m !! a)
      | Stop e => e = OutOfBounds ∧ (1000 + n < 4294967296 → m !! (1000 + Z.min n (10 - 1)) = None)
      end
  | Stop e => rt_vsnprintf m 1000 10 100 [0; 4] = Stop e ∧ e ≠ OutOfFuel
  end.
Proof. intros m. apply (rt_vsnprintf_bounds m 1000 10 100 [0; 4]); lia. Defined.

(** The cursor wraps: a buffer of eight bytes sixteen below the end of the address
    space, a field of twenty characters.  The last four and the NUL byte are written
    from address 0 on, outside the buffer.  (From any buffer a width up to
    2147483647, or two of them, get there.) *)
Lemma cursor_wraps :
  let m := text_at 100 "%20d" ∪ text_at 4294967280 "01234567" ∪ text_at 0 "abcdefgh" in
  match rt_vsnprintf m 4294967280 8 100 [7] with
  | Ok (m', r) => r = 20 ∧ m !! 3 = Some (chr "d") ∧ m' !! 3 = Some (chr "7") ∧ m' !! 4 = Some 0
  | Stop _ => False
  end.
Proof. vm_compute. repeat split. Qed.

(** [print_number] with room for the whole field: what is written is the
    number's digits in its base (two bases exist, 10 and 16), most significant
    first and without a leading zero, with the sign, the precision's zeros and
    the padding where the flags ask for them. *)
Theorem print_number_spec end_ num base s precision type w :
  -2147483648 < num < 2147483648 → 0 <= str w → str w + Z.max 0 s <= end_ → end_ < 4294967296 →
  ∃ tmp, print_number end_ num base s precision type w =
      puts end_ (layout (sign_of num type) type s precision tmp) w ∧
    number_value (radix base) tmp = u32 (magnitude num type) ∧
    Forall (is_digit_of (radix base)) tmp ∧
    (num ≠ 0 → ∃ l c, tmp = l ++ [c] ∧ digit_value c ≠ 0).
Proof.
  intros Hn Hs0 Hroom He. destruct (number_digits_ok (has type LARGE) (magnitude num type) base)
    as (tmp & E & Hv & Hd & _ & Hnz).
  { unfold magnitude. destruct (has type SIGN); lia. }
  exists tmp. split_and!; [|done|done|].
  - apply print_number_layout; [done|lia..].
  - intros H. apply Hnz. unfold magnitude. destruct (has type SIGN); lia.
Qed.

Lemma print_number_spec_witness :
  let w := mk_writer (text_at 1000 "0123456789") 1000 in
  ∃ tmp, print_number 1010 (-42) 10 6 (-1) SIGN w = puts 1010 (layout (Some (chr "-")) SIGN 6 (-1) tmp) w ∧
    number_value 10 tmp = 42.
Proof.
  intros w. destruct (print_number_spec 1010 (-42) 10 6 (-1) SIGN w ltac:(lia) ltac:(simpl; lia) ltac:(simpl; lia) ltac:(lia))
    as (tmp & E & Hv & _). exists tmp. split; [exact E|exact Hv].
Defined.

(** Round trip: a non-negative number printed with [%d] into memory and read
    back with [skip_atoi] is the same number, whatever character that is no
    digit follows. *)
Theorem print_number_skip_atoi m a n x :
  0 <= n < 2147483648 → 0 <= a → a + 17 <= 4294967296 → mapped m a 17 → isdigit x = false →
  ∃ w, print_number (a + 16) n 10 (-1) (-1) SIGN (mk_writer m a) = Ok w ∧
    skip_atoi (<[str w := x]> (wm w)) a = Ok (n, str w).
Proof.
  intros Hn Ha0 Ha1 Hm Hx. destruct (number_digits_ok false n 10) as (tmp & E & Hv & Hd & Hlen & _); [lia|].
  change (radix 10) with 10 in *.
  assert (Hlay : layout (sign_of n SIGN) SIGN (-1) (-1) tmp = reverse tmp).
  { unfold layout. assert (sign_of n SIGN = None) as ->.
    { unfold sign_of. simpl. rewrite (proj2 (Z.ltb_ge n 0)) by lia. done. }
    simpl. unfold zeros, spaces. replace (Z.to_nat (-1 - Z.of_nat (length tmp))) with 0%nat by lia.
    replace (Z.to_nat (-1 - _ - 0)) with 0%nat by lia. done. }
  rewrite (print_number_layout _ _ _ _ _ _ _ tmp); [|rewrite <- E; f_equal; unfold magnitude; simpl; lia|lia|simpl; lia..].
  rewrite Hlay.
  destruct (puts_ok (a + 16) (reverse tmp) (mk_writer m a)) as (w & -> & Hstr & Hb & Hw).
  - rewrite length_reverse. apply (mapped_sub _ _ _ _ _ Hm); simpl; lia.
  - simpl. lia.
  - rewrite length_reverse. simpl. lia.
  - lia.
  - apply Forall_reverse. eapply Forall_impl; [exact Hd|]. intros c Hc.
    destruct (digit_10 c Hc) as (_ & _ & H). change (chr "0") with 48 in H. lia.
  - exists w. split; [done|]. rewrite length_reverse in Hstr. simpl in Hstr, Hb.
    unfold skip_atoi. rewrite (atoi_reads _ tmp _ a 0 x).
    + rewrite Hv, Hstr. unfold u32. do 2 f_equal. lia.
    + done.
    + intros i c Hi. rewrite lookup_insert_ne; [by apply Hb|].
      apply lookup_lt_Some in Hi. rewrite length_reverse in Hi. lia.
    + rewrite <- Hstr, lookup_insert_eq. done.
    + done.
    + lia.
    + rewrite Hv. unfold u32. lia.
    + assert (Hfit : (length tmp <= base.size (<[str w:=x]> (wm w)))%nat); [|lia].
      apply (run_fits _ a). intros i Hi. apply is_Some_insert. apply Hw. apply Hm. lia.
Qed.

Lemma print_number_skip_atoi_witness :
  let m := text_at 1000 "0123456789abcdefg" in
  ∃ w, print_number 1016 2317 10 (-1) (-1) SIGN (mk_writer m 1000) = Ok w ∧
    skip_atoi (<[str w := 44]> (wm w)) 1000 = Ok (2317, str w).
Proof.
  intros m. apply (print_number_skip_atoi m 1000 2317 44); [lia|lia|lia| |vm_compute; reflexivity].
  assert (Hs : check_string m 1000 (lit "0123456789abcdefg") = true) by (vm_compute; reflexivity).
  intros i Hi. replace i with (1000 + (i - 1000)) by lia.
  apply (string_at_nth m (lit "0123456789abcdefg")); [by apply check_string_ok|].
  change (Z.of_nat (length _)) with 17. lia.
Defined.

(** [rt_strncpy]: exactly [n] bytes are written - the string, cut or padded with
    NUL bytes. *)
Lemma set_zeros_ok : ∀ n m a,
  mapped m a (Z.of_nat n) →
  ∃ m', set_bytes n m a 0 = Ok m' ∧ bytes_at m' a (replicate n 0) ∧
    (∀ x, x < a ∨ a + Z.of_nat n <= x → m' !! x = m !! x).
Proof.
  induction n as [|n IH]; intros m a Hm; [exists m; split_and!; [done|apply bytes_at_nil|done]|].
  cbn [set_bytes]. rewrite store8_ok by (apply Hm; lia). cbn [mbind res_bind].
  destruct (IH (<[a := u8 0]> m) (a + 1)) as (m' & -> & Hb & Hf).
  { apply mapped_insert. apply (mapped_sub _ _ _ _ _ Hm); lia. }
  exists m'. split_and!; [done| |].
  - apply bytes_at_cons. split; [|done]. rewrite Hf by lia. by rewrite lookup_insert_eq.
  - intros x Hx. rewrite Hf by lia. rewrite lookup_insert_ne; [done|lia].
Qed.

Lemma string_at_ext m m' l : ∀ a,
  (∀ x, a <= x <= a + Z.of_nat (length l) → m' !! x = m !! x) → string_at m a l → string_at m' a l.
Proof.
  induction l as [|c l IH]; intros a He; simpl; [intros <-; apply He; simpl; lia|].
  cbn [length] in He. intros (Ha & Hc & Hl). split_and!; [rewrite He by lia; done|done|].
  apply IH; [|done]. intros x Hx. apply He. lia.
Qed.

(** [rt_strncpy] writes exactly [n] bytes: the string cut to [n] bytes, or
    the whole string and NUL bytes behind it; so a string of [n] bytes or more
    is left without its terminator. *)
Theorem rt_strncpy_spec m dst src n l :
  string_at m src l → Forall (λ c, 0 <= c < 256) l → 0 <= n → mapped m dst n →
  dst + n <= src ∨ src + Z.of_nat (length l) < dst →
  ∃ m', rt_strncpy m dst src n = Ok m' ∧
    bytes_at m' dst (take (Z.to_nat n) (l ++ replicate (Z.to_nat n) 0)) ∧
    (∀ x, x < dst ∨ dst + n <= x → m' !! x = m !! x).
Proof.
  intros Hs Hc Hn Hm Hdis. unfold rt_strncpy. remember (Z.to_nat n) as k eqn:Hk.
  assert (n = Z.of_nat k) as -> by lia. clear Hk Hn.
  revert m dst src l Hs Hc Hm Hdis.
  induction k as [|k IH]; intros m dst src l Hs Hc Hm Hdis.
  { exists m. split_and!; [done| |done]. destruct l; apply bytes_at_nil. }
  cbn [strncpy_loop]. destruct l as [|c l].
  - simpl in Hs. rewrite (load8_ok _ _ _ Hs). cbn [mbind res_bind].
    rewrite store8_ok by (apply Hm; lia). cbn [mbind res_bind Z.eqb].
    destruct (set_zeros_ok k (<[dst := u8 0]> m) (dst + 1)) as (m' & -> & Hb & Hf).
    { apply mapped_insert. apply (mapped_sub _ _ _ _ _ Hm); lia. }
    exists m'. split_and!; [done| |].
    + cbn [app replicate take]. rewrite take_ge by (rewrite length_replicate; lia).
      apply bytes_at_cons. split; [|done]. rewrite Hf by lia. by rewrite lookup_insert_eq.
    + intros x Hx. rewrite Hf by lia. rewrite lookup_insert_ne; [done|lia].
  - destruct Hs as (Ha & Hnz & Hs). apply Forall_cons in Hc as [Hc Hcl]. cbn [length] in Hdis.
    rewrite (load8_ok _ _ _ Ha). cbn [mbind res_bind].
    rewrite store8_ok by (apply Hm; lia). cbn [mbind res_bind]. rewrite (proj2 (Z.eqb_neq _ _) Hnz).
    destruct (IH (<[dst := u8 c]> m) (dst + 1) (src + 1) l) as (m' & -> & Hb & Hf).
    { apply (string_at_ext m); [|done]. intros x Hx. rewrite lookup_insert_ne; [done|lia]. }
    { done. } { apply mapped_insert. apply (mapped_sub _ _ _ _ _ Hm); lia. } { lia. }
    exists m'. split_and!; [done| |].
    + cbn [app take]. apply bytes_at_cons. split; [rewrite Hf by lia; rewrite lookup_insert_eq; f_equal; word|].
      intros i d Hi. apply Hb. apply lookup_take_Some in Hi as [Hi Hlt]. apply lookup_take_Some.
      split; [|done]. apply lookup_app_Some in Hi as [Hi|[Hge Hi]]; apply lookup_app_Some; [by left|right].
      split; [done|]. apply lookup_replicate in Hi as [-> _]. apply lookup_replicate. split; [done|lia].
    + intros x Hx. rewrite Hf by lia. rewrite lookup_insert_ne; [done|lia].
Qed.

Lemma rt_strncpy_spec_witness :
  let m := text_at 100 "uart3" ∪ text_at 200 "0123456789" in
  ∃ m', rt_strncpy m 200 100 10 = Ok m' ∧ bytes_at m' 200 (lit "uart3" ++ [0; 0; 0; 0; 0]).
Proof.
  intros m. destruct (rt_strncpy_spec m 200 100 10 (lit "uart3")) as (m' & E & Hb & _).
  - apply check_string_ok. vm_compute. reflexivity.
  - repeat constructor; done.
  - lia.
  - assert (Hs : check_string m 200 (lit "0123456789") = true) by (vm_compute; reflexivity).
    intros i Hi. replace i with (200 + (i - 200)) by lia.
    apply (string_at_nth m (lit "0123456789")); [by apply check_string_ok|].
    change (Z.of_nat (length _)) with 10. lia.
  - right. vm_compute. reflexivity.
  - exists m'. split; [exact E|exact Hb].
Defined.

(** *** What the modelling showed *)

(** [%o] prints hexadecimal. *)
Lemma octal_is_hexadecimal end_ num s precision type w :
  print_number end_ num 8 s precision type w = print_number end_ num 16 s precision type w.
Proof.
  assert (Hd : ∀ room large n, digits_loop room large n 8 = digits_loop room large n 16).
  { induction room as [|room IH]; intros large n; [done|]. simpl. destruct (n =? 0); [done|].
    change (divide n 8) with (divide n 16). destruct (divide n 16). by rewrite IH. }
  assert (Hn : ∀ large n, number_digits large n 8 = number_digits large n 16)
    by (intros large n; unfold number_digits; by rewrite Hd).
  unfold print_number. cbv zeta. match goal with |- (?X ≫= _) = _ => destruct X as [n|e] end;
    cbn [mbind res_bind]; [by rewrite Hn|reflexivity].
Qed.

(** [rt_snprintf] into one byte returns another length than into thirty: the
    sign counts as part of the field only where there is room for it. *)
Lemma snprintf_length_depends_on_size :
  let m := text_at 100 "a%-4d" ∪ text_at 1000 "0123456789012345678901234567890" in
  snd <$> rt_snprintf m 1000 30 100 [4294967295] = Ok 5 ∧
  snd <$> rt_snprintf m 1000 1 100 [4294967295] = Ok 6.
Proof. split; vm_compute; reflexivity. Qed.

(** [rt_strnlen] reads the byte behind the first [maxlen]. *)
Lemma strnlen_reads_past_maxlen :
  let m : gmap Z Z := {[ 100 := 65; 101 := 66 ]} in rt_strnlen m 100 2 = Stop OutOfBounds.
Proof. vm_compute. reflexivity. Qed.

(** [rt_strncmp] of two strings that start with the characters 127 and -128 has
    the wrong sign, [rt_strcmp] the right one. *)
Lemma strncmp_sign_overflow :
  let m : gmap Z Z := {[ 100 := 127; 101 := 0; 200 := 128; 201 := 0 ]} in
  rt_strncmp m 100 200 8 = Ok (-1) ∧ rt_strcmp m 100 200 = Ok 255.
Proof. split; vm_compute; reflexivity. Qed.
