(* ===== verification/Heap.v ===== *)
(** * The small-memory heap: [src/mem.c]

    A heap block is a [struct heap_mem] header at an offset from [heap_ptr],
    followed by its data; the headers form a doubly linked list in address
    order.  The model keeps the headers by offset and the data bytes by address
    (KMemory.v).  [heap_sem] makes the operations mutually exclusive: each is one
    step here.  [nest] is [rt_interrupt_nest], for [RT_DEBUG_NOT_IN_INTERRUPT]. *)
From S2P Require Import Prelude KMemory.
Local Open Scope Z_scope.

Definition HEAP_MAGIC : Z := 7840.
Definition SIZEOF_STRUCT_MEM : Z := 12.
Definition MIN_SIZE : Z := 12.
Definition MIN_SIZE_ALIGNED : Z := 12.

Record heap_mem := mk_hm { magic : Z; used : Z; next : Z; prev : Z }.

Record heap := mk_heap {
  heap_ptr : Z;
  headers : gmap Z heap_mem;
  lfree : Z;
  mem_size_aligned : Z;
  used_mem : Z;
  max_mem : Z }.

(** [RT_ALIGN(size, 4)] and [RT_ALIGN_DOWN(size, 4)] on 32-bit words. *)
Definition RT_ALIGN (size : Z) : Z := Z.land (u32 (size + 3)) 4294967292.
Definition RT_ALIGN_DOWN (size : Z) : Z := Z.land size 4294967292.

Definition heap_end (h : heap) : Z := mem_size_aligned h + SIZEOF_STRUCT_MEM.

Definition get_hm (off : Z) (h : heap) : res heap_mem := of_option OutOfBounds (headers h !! off).
Definition set_headers (m : gmap Z heap_mem) (h : heap) : heap :=
  mk_heap (heap_ptr h) m (lfree h) (mem_size_aligned h) (used_mem h) (max_mem h).
Definition put_hm (off : Z) (x : heap_mem) (h : heap) : heap := set_headers (<[off := x]> (headers h)) h.
Definition set_lfree (l : Z) (h : heap) : heap :=
  mk_heap (heap_ptr h) (headers h) l (mem_size_aligned h) (used_mem h) (max_mem h).
(** [used_mem += n] and the high-water mark. *)
Definition account (n : Z) (h : heap) : heap :=
  let u := u32 (used_mem h + n) in
  mk_heap (heap_ptr h) (headers h) (lfree h) (mem_size_aligned h) u (if max_mem h <? u then u else max_mem h).
Definition unaccount (n : Z) (h : heap) : heap :=
  mk_heap (heap_ptr h) (headers h) (lfree h) (mem_size_aligned h) (u32 (used_mem h - n)) (max_mem h).

Definition with_used (u : Z) (x : heap_mem) : heap_mem := mk_hm HEAP_MAGIC u (next x) (prev x).
Definition with_next (n : Z) (x : heap_mem) : heap_mem := mk_hm (magic x) (used x) n (prev x).

(** The [prev] field of the header at [off]. *)
Definition set_prev (off p : Z) (h : heap) : res heap :=
  x ← get_hm off h; Ok (put_hm off (mk_hm (magic x) (used x) (next x) p) h).

(** [mem] and its neighbours by their offsets: the two halves of
    [plug_holes]. *)
Definition plug_forward (mem : Z) (h : heap) : res heap :=
  x ← get_hm mem h;
  let nmem := next x in
  n ← get_hm nmem h;
  if negb (mem =? nmem) && (used n =? 0) && negb (nmem =? heap_end h) then
    let h := if lfree h =? nmem then set_lfree mem h else h in
    let h := put_hm mem (with_next (next n) x) h in
    set_prev (next n) mem h
  else Ok h.

Definition plug_backward (mem : Z) (h : heap) : res heap :=
  x ← get_hm mem h;
  let pmem := prev x in
  p ← get_hm pmem h;
  if negb (pmem =? mem) && (used p =? 0) then
    let h := if lfree h =? mem then set_lfree pmem h else h in
    let h := put_hm pmem (with_next (next x) p) h in
    set_prev (next x) pmem h
  else Ok h.

Definition plug_holes (mem : Z) (h : heap) : res heap :=
  _ ← rt_assert (0 <=? mem);
  _ ← rt_assert (mem <? heap_end h);
  x ← get_hm mem h;
  _ ← rt_assert (used x =? 0);
  h ← plug_forward mem h;
  plug_backward mem h.

Definition not_in_interrupt (nest : Z) : res unit := rt_assert (nest =? 0).

(** [None]: the error return. *)
Definition rt_system_heap_init (nest begin_addr end_addr : Z) : res (option heap) :=
  let begin_align := RT_ALIGN begin_addr in
  let end_align := RT_ALIGN_DOWN end_addr in
  _ ← not_in_interrupt nest;
  if (2 * SIZEOF_STRUCT_MEM <? end_align) && (begin_align <=? end_align - 2 * SIZEOF_STRUCT_MEM) then
    let size := end_align - begin_align - 2 * SIZEOF_STRUCT_MEM in
    let e := size + SIZEOF_STRUCT_MEM in
    let m := <[e := mk_hm HEAP_MAGIC 1 e e]> {[ 0 := mk_hm HEAP_MAGIC 0 e 0 ]} in
    Ok (Some (mk_heap begin_align m 0 size 0 0))
  else Ok None.

(** [while (lfree->used && lfree != heap_end) lfree = lfree->next;] *)
Fixpoint find_lfree (fuel : nat) (l : Z) (h : heap) : res Z :=
  x ← get_hm l h;
  if negb (used x =? 0) && negb (l =? heap_end h) then
    match fuel with O => Stop OutOfFuel | S fuel => find_lfree fuel (next x) h end
  else Ok l.

(** The free block at [ptr] is taken for [size] bytes. *)
Definition take_block (ptr size : Z) (mem : heap_mem) (h : heap) : res heap :=
  if size + SIZEOF_STRUCT_MEM + MIN_SIZE_ALIGNED <=? next mem - (ptr + SIZEOF_STRUCT_MEM) then
    let ptr2 := ptr + SIZEOF_STRUCT_MEM + size in
    let h := put_hm ptr2 (mk_hm HEAP_MAGIC 0 (next mem) ptr) h in
    let h := put_hm ptr (mk_hm HEAP_MAGIC 1 ptr2 (prev mem)) h in
    h ← (if negb (next mem =? heap_end h) then set_prev (next mem) ptr2 h else Ok h);
    Ok (account (size + SIZEOF_STRUCT_MEM) h)
  else
    let h := put_hm ptr (with_used 1 mem) h in
    Ok (account (next mem - ptr) h).

(** [lfree] moves up to the next free block. *)
Definition advance_lfree (h : heap) : res heap :=
  l ← find_lfree (base.size (headers h)) (lfree h) h;
  x ← get_hm l h;
  _ ← rt_assert ((l =? heap_end h) || (used x =? 0));
  Ok (set_lfree l h).

(** The block at [ptr] fits: take it, move [lfree] if it was the lowest free
    block, and return the address of its data. *)
Definition allocate (ptr size : Z) (mem : heap_mem) (h : heap) : res (heap * option Z) :=
  h ← take_block ptr size mem h;
  h ← (if ptr =? lfree h then advance_lfree h else Ok h);
  _ ← rt_assert (ptr + SIZEOF_STRUCT_MEM + size <=? heap_end h);
  _ ← rt_assert (Z.land (heap_ptr h + ptr + SIZEOF_STRUCT_MEM) 3 =? 0);
  _ ← rt_assert (Z.land (heap_ptr h + ptr) 3 =? 0);
  Ok (h, Some (heap_ptr h + ptr + SIZEOF_STRUCT_MEM)).

(** The [for] loop, from [ptr]. *)
Fixpoint malloc_loop (fuel : nat) (size ptr : Z) (h : heap) : res (heap * option Z) :=
  if ptr <? u32 (mem_size_aligned h - size) then
    mem ← get_hm ptr h;
    if (used mem =? 0) && (size <=? u32 (next mem - (ptr + SIZEOF_STRUCT_MEM))) then allocate ptr size mem h
    else match fuel with
    | O => Stop OutOfFuel
    | S fuel => malloc_loop fuel size (next mem) h
    end
  else Ok (h, None).

Definition rt_malloc (nest size : Z) (h : heap) : res (heap * option Z) :=
  _ ← not_in_interrupt nest;
  if size =? 0 then Ok (h, None)
  else
    let size := RT_ALIGN size in
    if mem_size_aligned h <? size then Ok (h, None)
    else
      let size := if size <? MIN_SIZE_ALIGNED then MIN_SIZE_ALIGNED else size in
      malloc_loop (base.size (headers h)) size (lfree h) h.

(** [rmem]: an address, [None] for null. *)
Definition rt_free (nest : Z) (rmem : option Z) (h : heap) : res heap :=
  _ ← not_in_interrupt nest;
  match rmem with
  | None => Ok h
  | Some rmem =>
      _ ← rt_assert (Z.land rmem 3 =? 0);
      _ ← rt_assert ((heap_ptr h <=? rmem) && (rmem <? heap_ptr h + heap_end h));
      let mem := rmem - heap_ptr h - SIZEOF_STRUCT_MEM in
      x ← get_hm mem h;
      _ ← rt_assert (negb (used x =? 0));
      _ ← rt_assert (magic x =? HEAP_MAGIC);
      let h := put_hm mem (with_used 0 x) h in
      let h := if mem <? lfree h then set_lfree mem h else h in
      let h := unaccount (next x - mem) h in
      plug_holes mem h
  end.

(** [m]: the data bytes. *)
Definition rt_realloc (nest : Z) (rmem : option Z) (newsize : Z) (m : gmap Z Z) (h : heap) :
    res (heap * gmap Z Z * option Z) :=
  _ ← not_in_interrupt nest;
  let newsize := RT_ALIGN newsize in
  if mem_size_aligned h <? newsize then Ok (h, m, None)
  else match rmem with
  | None => '(h, p) ← rt_malloc nest newsize h; Ok (h, m, p)
  | Some r =>
      if (r <? heap_ptr h) || (heap_ptr h + heap_end h <=? r) then Ok (h, m, Some r)
      else
        let ptr := r - heap_ptr h - SIZEOF_STRUCT_MEM in
        mem ← get_hm ptr h;
        let size := next mem - ptr - SIZEOF_STRUCT_MEM in
        if size =? newsize then Ok (h, m, Some r)
        else if newsize + SIZEOF_STRUCT_MEM + MIN_SIZE <? size then
          let h := unaccount (size - newsize) h in
          let ptr2 := ptr + SIZEOF_STRUCT_MEM + newsize in
          let h := put_hm ptr2 (mk_hm HEAP_MAGIC 0 (next mem) ptr) h in
          let h := put_hm ptr (with_next ptr2 mem) h in
          h ← (if negb (next mem =? heap_end h) then set_prev (next mem) ptr2 h else Ok h);
          h ← plug_holes ptr2 h;
          Ok (h, m, Some r)
        else
          '(h, nmem) ← rt_malloc nest newsize h;
          match nmem with
          | None => Ok (h, m, None)
          | Some a =>
              m ← rt_memcpy m a r (if size <? newsize then size else newsize);
              h ← rt_free nest (Some r) h;
              Ok (h, m, Some a)
          end
  end.

Definition rt_calloc (nest count size : Z) (m : gmap Z Z) (h : heap) : res (heap * gmap Z Z * option Z) :=
  _ ← not_in_interrupt nest;
  '(h, p) ← rt_malloc nest (u32 (count * size)) h;
  match p with
  | None => Ok (h, m, None)
  | Some a => m ← rt_memset m a 0 (u32 (count * size)); Ok (h, m, Some a)
  end.

(** [(total, used, max_used)] *)
Definition rt_memory_info (h : heap) : Z * Z * Z := (mem_size_aligned h, used_mem h, max_mem h).

(** ** Alignment *)
Lemma align_down_val x : 0 <= x < 4294967296 → RT_ALIGN_DOWN x = x / 4 * 4.
Proof. exact (land_high 2 x ltac:(lia)). Qed.

Lemma align_val size : 0 <= size <= 4294967292 → RT_ALIGN size = (size + 3) / 4 * 4.
Proof.
  intros Hs. unfold RT_ALIGN. change (Z.land (u32 (size + 3)) 4294967292) with (RT_ALIGN_DOWN (u32 (size + 3))).
  rewrite align_down_val by (unfold u32; lia). f_equal. f_equal. unfold u32. lia.
Qed.

Lemma land3 x : 0 <= x → x mod 4 = 0 → Z.land x 3 = 0.
Proof. intros Hx Hm. change 3 with (Z.ones 2). by rewrite Z.land_ones by lia. Qed.

(** ** The list of blocks

    Abstractly the heap is a list of blocks in address order, each with its
    size (header included) and whether it is in use; a block's offset is the sum
    of the sizes before it. *)
Abbreviation block := (Z * bool)%type.
Definition total (bs : list block) : Z := foldr (λ b s, b.1 + s) 0 bs.

(** [m] holds the headers of [bs] from offset [off]; [pv] is the offset of the
    block before, [pv'] that of the last one. *)
Fixpoint seg (m : gmap Z heap_mem) (pv off : Z) (bs : list block) (pv' : Z) : Prop :=
  match bs with
  | [] => pv' = pv
  | (sz, u) :: bs => SIZEOF_STRUCT_MEM < sz ∧ sz mod 4 = 0 ∧
      m !! off = Some (mk_hm HEAP_MAGIC (Z.b2z u) (off + sz) pv) ∧ seg m off (off + sz) bs pv'
  end.

(** The blocks up to the end block at [e]. *)
Definition tail (m : gmap Z heap_mem) (pv off : Z) (bs : list block) (e : Z) : Prop :=
  off + total bs = e ∧ (∃ pl, seg m pv off bs pl) ∧ ∃ pe, m !! e = Some (mk_hm HEAP_MAGIC 1 e pe).

(** The block that starts at [x]. *)
Fixpoint block_at (off : Z) (bs : list block) (x : Z) : option block :=
  match bs with
  | [] => None
  | (sz, u) :: bs => if x =? off then Some (sz, u) else block_at (off + sz) bs x
  end.

Lemma total_app l r : total (l ++ r) = total l + total r.
Proof. induction l as [|[s u] l IH]; simpl; lia. Qed.

Lemma seg_total m bs : ∀ pv off pl, seg m pv off bs pl → 0 <= total bs ∧ Forall (λ b : block, SIZEOF_STRUCT_MEM < b.1) bs.
Proof.
  induction bs as [|[s u] bs IH]; intros pv off pl; simpl; [split; [lia|constructor]|].
  unfold SIZEOF_STRUCT_MEM. intros (Hs & _ & _ & H). apply IH in H as [? ?]. split; [lia|by constructor].
Qed.

Lemma seg_app m l r : ∀ pv off pl,
  seg m pv off (l ++ r) pl ↔ ∃ pv1, seg m pv off l pv1 ∧ seg m pv1 (off + total l) r pl.
Proof.
  induction l as [|[s u] l IH]; intros pv off pl; simpl.
  - rewrite Z.add_0_r. split; [intros H; by exists pv|by intros (? & -> & ?)].
  - rewrite IH, Z.add_assoc. split.
    + intros (? & ? & ? & pv1 & ? & ?). exists pv1. by split_and!.
    + intros (pv1 & (? & ? & ? & ?) & ?). split_and!; [done..|]. by exists pv1.
Qed.

Lemma seg_frame m m' bs : ∀ pv off pl,
  (∀ x, off <= x < off + total bs → m' !! x = m !! x) → seg m pv off bs pl → seg m' pv off bs pl.
Proof.
  induction bs as [|[s u] bs IH]; intros pv off pl Hf; [done|]. intros H.
  pose proof (seg_total _ _ _ _ _ H) as [Ht Hall]. simpl in H, Hf, Ht. destruct H as (Hs & Hm & Hl & H).
  pose proof (seg_total _ _ _ _ _ H) as [Ht' _]. unfold SIZEOF_STRUCT_MEM in Hs.
  split_and!; [done|done|rewrite Hf by lia; done|]. apply IH; [|done]. intros x Hx. apply Hf. lia.
Qed.

Lemma seg_insert m bs pv off pl x v :
  x < off ∨ off + total bs <= x → seg m pv off bs pl → seg (<[x := v]> m) pv off bs pl.
Proof. intros Hx. apply seg_frame. intros y Hy. rewrite lookup_insert_ne; [done|lia]. Qed.

Lemma tail_app m pv off l r e :
  tail m pv off (l ++ r) e ↔ ∃ pv1, seg m pv off l pv1 ∧ tail m pv1 (off + total l) r e.
Proof.
  unfold tail. rewrite total_app, Z.add_assoc. split.
  - intros (He & (pl & H) & Hend). apply seg_app in H as (pv1 & H1 & H2). exists pv1. split; [done|]. eauto.
  - intros (pv1 & H1 & He & (pl & H2) & Hend). split_and!; [done| |done]. exists pl. apply seg_app. eauto.
Qed.

Lemma tail_cons m pv off s u r e :
  tail m pv off ((s, u) :: r) e ↔ SIZEOF_STRUCT_MEM < s ∧ s mod 4 = 0 ∧
    m !! off = Some (mk_hm HEAP_MAGIC (Z.b2z u) (off + s) pv) ∧ tail m off (off + s) r e.
Proof.
  unfold tail. simpl. rewrite Z.add_assoc. split.
  - intros (He & (pl & ? & ? & ? & ?) & Hend). split_and!; eauto.
  - intros (? & ? & ? & He & (pl & H) & Hend). split_and!; [done| |done]. exists pl. by split_and!.
Qed.

Lemma tail_insert m pv off bs e x v : x < off ∨ e < x → tail m pv off bs e → tail (<[x := v]> m) pv off bs e.
Proof.
  intros Hx (He & (pl & H) & pe & Hend). pose proof (seg_total _ _ _ _ _ H) as [Ht _]. split_and!; [done| |].
  - exists pl. apply seg_insert; [lia|done].
  - exists pe. rewrite lookup_insert_ne; [done|lia].
Qed.

Lemma tail_le m pv off bs e : tail m pv off bs e → off <= e.
Proof. intros (He & (pl & H) & _). pose proof (seg_total _ _ _ _ _ H) as [Ht _]. lia. Qed.

(** Setting the [prev] field where the rest of the list begins. *)
Lemma set_prev_tail h pv o r e p :
  tail (headers h) pv o r e →
  ∃ m', set_prev o p h = Ok (set_headers m' h) ∧ tail m' p o r e ∧ ∀ x, x ≠ o → m' !! x = headers h !! x.
Proof.
  intros Ht. unfold set_prev, get_hm. destruct r as [|[s u] r].
  - destruct Ht as (He & (pl & Hp) & pe & Hend). simpl in He. assert (o = e) as -> by lia.
    rewrite Hend. cbn [of_option mbind res_bind]. eexists. split; [done|]. split.
    + split_and!; [simpl; lia|by exists p|]. exists p. by rewrite lookup_insert_eq.
    + intros x Hx. by rewrite lookup_insert_ne.
  - apply tail_cons in Ht as (Hs & Hm & Ho & Ht). rewrite Ho. cbn [of_option mbind res_bind].
    eexists. split; [done|]. split.
    + apply tail_cons. rewrite lookup_insert_eq. split_and!; [done..|].
      apply tail_insert; [unfold SIZEOF_STRUCT_MEM in Hs; lia|done].
    + intros x Hx. by rewrite lookup_insert_ne.
Qed.

(** *** Blocks by offset *)
Lemma block_at_app l r x : ∀ o,
  block_at o (l ++ r) x = match block_at o l x with Some b => Some b | None => block_at (o + total l) r x end.
Proof.
  induction l as [|[s u] l IH]; intros o; simpl; [by rewrite Z.add_0_r|].
  destruct (x =? o); [done|]. by rewrite IH, Z.add_assoc.
Qed.

Definition big (bs : list block) : Prop := Forall (λ b : block, SIZEOF_STRUCT_MEM < b.1) bs.

Lemma total_big bs : big bs → 0 <= total bs.
Proof. induction 1 as [|[s u] bs Hs _ IH]; simpl in *; [lia|]. unfold SIZEOF_STRUCT_MEM in Hs. lia. Qed.

Lemma block_at_range bs x : ∀ o s u, big bs → block_at o bs x = Some (s, u) → o <= x ∧ x + s <= o + total bs ∧ SIZEOF_STRUCT_MEM < s.
Proof.
  induction bs as [|[s0 u0] bs IH]; intros o s u Hb; simpl; [done|].
  apply Forall_cons in Hb as [Hs Hb]. pose proof (total_big _ Hb) as Ht. simpl in Hs. unfold SIZEOF_STRUCT_MEM in *.
  destruct (Z.eqb_spec x o) as [->|]; [intros [= -> ->]; lia|]. intros H. apply IH in H; [lia|done].
Qed.

Lemma block_at_here l s u r o : big l → block_at o (l ++ (s, u) :: r) (o + total l) = Some (s, u).
Proof.
  intros Hb. rewrite block_at_app. destruct (block_at o l (o + total l)) as [[s1 u1]|] eqn:E.
  - apply block_at_range in E; [|done]. unfold SIZEOF_STRUCT_MEM in E. lia.
  - simpl. by rewrite Z.eqb_refl.
Qed.

(** A block found by its offset splits the list. *)
Lemma block_at_split bs x : ∀ o s u, block_at o bs x = Some (s, u) →
  ∃ l r, bs = l ++ (s, u) :: r ∧ x = o + total l.
Proof.
  induction bs as [|[s0 u0] bs IH]; intros o s u; simpl; [done|].
  destruct (Z.eqb_spec x o) as [->|].
  - intros [= -> ->]. exists [], bs. split; [done|simpl; lia].
  - intros H. apply IH in H as (l & r & -> & ->). exists ((s0, u0) :: l), r. split; [done|simpl; lia].
Qed.

(** Two different blocks do not overlap. *)
Lemma blocks_apart bs o x s u y t v :
  big bs → block_at o bs x = Some (s, u) → block_at o bs y = Some (t, v) → x < y → x + s <= y.
Proof.
  intros Hb Hx Hy Hlt. apply block_at_split in Hx as (l & r & -> & ->).
  apply Forall_app in Hb as [Hl Hr]. apply Forall_cons in Hr as [Hs Hr].
  rewrite block_at_app in Hy. destruct (block_at o l y) as [b|] eqn:E.
  - injection Hy as ->. apply block_at_range in E; [|done]. unfold SIZEOF_STRUCT_MEM in *. lia.
  - simpl in Hy. destruct (Z.eqb_spec y (o + total l)); [lia|]. apply block_at_range in Hy; [lia|done].
Qed.

(** ** The invariant *)
Definition free_at (bs : list block) (x : Z) : Prop := x = total bs ∨ ∃ s, block_at 0 bs x = Some (s, false).
Definition starts_free (bs : list block) : Prop := match bs with (_, false) :: _ => True | _ => False end.
#[global] Instance starts_free_dec bs : Decision (starts_free bs).
Proof. destruct bs as [|[? []] ?]; apply _. Defined.
Fixpoint no_adj (bs : list block) : Prop :=
  match bs with
  | [] => True
  | (_, u) :: r => (u = false → ¬ starts_free r) ∧ no_adj r
  end.
Definition used_total (bs : list block) : Z := foldr (λ (b : block) s, (if b.2 then b.1 else 0) + s) 0 bs.
(** No free block lies below [lf]. *)
Definition lowest (bs : list block) (lf : Z) : Prop := ∀ x s, block_at 0 bs x = Some (s, false) → lf <= x.
(** A block in use. *)
Definition live (bs : list block) (x s : Z) : Prop := block_at 0 bs x = Some (s, true).

Record heap_ok (h : heap) (bs : list block) : Prop := {
  ho_tail : tail (headers h) 0 0 bs (heap_end h);
  ho_adj : no_adj bs;
  ho_lfree : free_at bs (lfree h);
  ho_used : used_mem h = used_total bs;
  ho_max : used_mem h <= max_mem h;
  ho_base : 0 <= heap_ptr h ∧ heap_ptr h mod 4 = 0;
  ho_size : MIN_SIZE_ALIGNED <= mem_size_aligned h ∧ mem_size_aligned h mod 4 = 0;
  ho_top : heap_ptr h + heap_end h + SIZEOF_STRUCT_MEM <= 4294967296 }.

Lemma tail_big m pv o bs e : tail m pv o bs e → big bs.
Proof. intros (_ & (pl & H) & _). by apply seg_total in H as [_ ?]. Qed.

Lemma tail_total m pv o bs e : tail m pv o bs e → o + total bs = e.
Proof. by intros (? & _). Qed.

(** What changes in a [heap] besides headers and [lfree]. *)
Definition same_conf (h h' : heap) : Prop :=
  heap_ptr h' = heap_ptr h ∧ mem_size_aligned h' = mem_size_aligned h ∧
  used_mem h' = used_mem h ∧ max_mem h' = max_mem h.

Lemma same_conf_refl h : same_conf h h.
Proof. done. Qed.

Lemma used_total_app l r : used_total (l ++ r) = used_total l + used_total r.
Proof. induction l as [|[s u] l IH]; simpl; [done|]. rewrite IH. lia. Qed.

Lemma used_total_range bs : big bs → 0 <= used_total bs <= total bs.
Proof. induction 1 as [|[s []] bs Hs _ IH]; simpl in *; unfold SIZEOF_STRUCT_MEM in *; lia. Qed.

(** Two free neighbours become one. *)
Lemma merge_block_at l s1 s2 r x : ∀ o, big l → SIZEOF_STRUCT_MEM < s1 → SIZEOF_STRUCT_MEM < s2 →
  block_at o (l ++ (s1 + s2, false) :: r) x =
    if x =? o + total l then Some (s1 + s2, false)
    else if x =? o + total l + s1 then block_at (o + total l + s1 + s2) r x
    else block_at o (l ++ (s1, false) :: (s2, false) :: r) x.
Proof.
  unfold SIZEOF_STRUCT_MEM. intros o Hl H1 H2. rewrite !block_at_app. simpl.
  destruct (Z.eqb_spec x (o + total l)) as [Hx|Hx].
  - destruct (block_at o l x) as [[s u]|] eqn:E; [|done].
    apply block_at_range in E; [|done]. unfold SIZEOF_STRUCT_MEM in E. lia.
  - rewrite Z.add_assoc. destruct (block_at o l x) as [[s u]|] eqn:E.
    + destruct (Z.eqb_spec x (o + total l + s1)) as [Hx1|]; [|done].
      apply block_at_range in E; [|done]. unfold SIZEOF_STRUCT_MEM in E. lia.
    + destruct (Z.eqb_spec x (o + total l + s1)) as [Hx1|]; done.
Qed.

Lemma block_at_low bs x : ∀ o, big bs → x < o → block_at o bs x = None.
Proof.
  intros o Hb Hx. destruct (block_at o bs x) as [[s u]|] eqn:E; [|done]. apply block_at_range in E; [lia|done].
Qed.

Lemma merge_facts l s1 s2 r lf lf' :
  let bs := l ++ (s1, false) :: (s2, false) :: r in
  let bs' := l ++ (s1 + s2, false) :: r in
  big bs → lf' = (if lf =? total l + s1 then total l else lf) →
  big bs' ∧ total bs' = total bs ∧ used_total bs' = used_total bs ∧
  (free_at bs lf → free_at bs' lf') ∧ (lowest bs lf → lowest bs' lf') ∧
  ∀ x s, live bs' x s ↔ live bs x s.
Proof.
  intros bs bs' Hb ->. pose proof Hb as Hb0. apply Forall_app in Hb0 as [Hl Hr].
  apply Forall_cons in Hr as [H1 Hr]. apply Forall_cons in Hr as [H2 Hr]. simpl in H1, H2.
  pose proof (merge_block_at l s1 s2 r) as Hm.
  assert (Hmid : block_at 0 bs (total l + s1) = Some (s2, false)).
  { unfold bs. replace (l ++ (s1, false) :: (s2, false) :: r) with ((l ++ [(s1, false)]) ++ (s2, false) :: r)
      by (by rewrite <- app_assoc).
    replace (total l + s1) with (0 + total (l ++ [(s1, false)])) by (rewrite total_app; simpl; lia).
    apply block_at_here. apply Forall_app. split; [done|by constructor]. }
  assert (Hhere : block_at 0 bs (total l) = Some (s1, false)) by (by apply (block_at_here l s1 false _ 0)).
  assert (Hgone : block_at 0 bs' (total l + s1) = None).
  { unfold bs'. rewrite Hm, Z.add_0_l by done. unfold SIZEOF_STRUCT_MEM in H1, H2. simpl in Hr.
    rewrite (proj2 (Z.eqb_neq _ _)) by lia. rewrite Z.eqb_refl. apply block_at_low; [done|lia]. }
  assert (Hoff : ∀ x, x ≠ total l → x ≠ total l + s1 → block_at 0 bs' x = block_at 0 bs x).
  { intros x Hx1 Hx2. unfold bs'. rewrite Hm, Z.add_0_l by done.
    rewrite (proj2 (Z.eqb_neq _ _) Hx1), (proj2 (Z.eqb_neq _ _) Hx2). done. }
  assert (Hnew : block_at 0 bs' (total l) = Some (s1 + s2, false)) by (by apply (block_at_here l _ false _ 0)).
  assert (Ht : total bs' = total bs) by (unfold bs, bs'; rewrite !total_app; simpl; lia).
  split_and!.
  - apply Forall_app. split; [done|]. constructor; [|done]. simpl. unfold SIZEOF_STRUCT_MEM in *. lia.
  - done.
  - unfold bs, bs'. rewrite !used_total_app. simpl. lia.
  - unfold free_at. rewrite Ht. intros Hf. destruct (Z.eqb_spec lf (total l + s1)) as [->|Hne].
    + right. eauto.
    + destruct (Z.eq_dec lf (total l)) as [->|Hne2]; [right; eauto|]. by rewrite Hoff.
  - intros Hlow x s Hx. pose proof (Hlow _ _ Hhere) as L1. destruct (Z.eqb_spec lf (total l + s1)) as [->|_].
    + unfold SIZEOF_STRUCT_MEM in H1. lia.
    + destruct (Z.eq_dec x (total l)) as [->|Hx1]; [done|].
      destruct (Z.eq_dec x (total l + s1)) as [->|Hx2]; [congruence|]. rewrite Hoff in Hx by done. by apply Hlow in Hx.
  - intros x s. unfold live. destruct (Z.eq_dec x (total l)) as [->|Hx1]; [by rewrite Hnew, Hhere|].
    destruct (Z.eq_dec x (total l + s1)) as [->|Hx2]; [by rewrite Hmid, Hgone|]. by rewrite Hoff.
Qed.

Lemma get_hm_ok off x h : headers h !! off = Some x → get_hm off h = Ok x.
Proof. unfold get_hm. by intros ->. Qed.

Lemma tail_first m pv o r e :
  tail m pv o r e → ∃ n, m !! o = Some n ∧
    match r with
    | [] => o = e ∧ used n = 1
    | (s, u) :: r => o < e ∧ next n = o + s ∧ used n = Z.b2z u
    end.
Proof.
  destruct r as [|[s u] r].
  - intros (He & _ & pe & Hend). simpl in He. assert (o = e) as -> by lia. eexists. split; [done|]. done.
  - intros (Hs & _ & Ho & Ht)%tail_cons. apply tail_le in Ht. unfold SIZEOF_STRUCT_MEM in Hs.
    eexists. split; [done|]. split_and!; [lia|done|done].
Qed.

(** The blocks next to the freed one, for the two halves of [plug_holes]. *)
Lemma plug_forward_spec h l s r :
  let off := total l in
  tail (headers h) 0 0 (l ++ (s, false) :: r) (heap_end h) →
  match r with
  | (s2, false) :: r' => ∃ h', plug_forward off h = Ok h' ∧ same_conf h h' ∧
      tail (headers h') 0 0 (l ++ (s + s2, false) :: r') (heap_end h) ∧
      lfree h' = if lfree h =? off + s then off else lfree h
  | _ => plug_forward off h = Ok h
  end.
Proof.
  intros off Ht. apply tail_app in Ht as (pv & Hl & Ht). rewrite Z.add_0_l in Ht. fold off in Ht.
  pose proof Ht as (Hs & Hm & Ho & Hr)%tail_cons. unfold SIZEOF_STRUCT_MEM in Hs.
  destruct (tail_first _ _ _ _ _ Hr) as (n & Hn & Hcase).
  unfold plug_forward. rewrite (get_hm_ok _ _ _ Ho). cbn [mbind res_bind next].
  rewrite (get_hm_ok _ _ _ Hn). cbn [mbind res_bind].
  rewrite (proj2 (Z.eqb_neq off (off + s))) by lia. cbn [negb andb].
  destruct r as [|[s2 [|]] r'].
  - destruct Hcase as [He ->]. done.
  - destruct Hcase as (_ & _ & ->). done.
  - destruct Hcase as (Hlt & Hnext & Hused). rewrite Hused. cbn [Z.b2z Z.eqb andb].
    rewrite (proj2 (Z.eqb_neq (off + s) (heap_end h))) by lia. cbn [negb].
    rewrite Hnext. apply tail_cons in Hr as (Hs2 & Hm2 & _ & Hr). unfold SIZEOF_STRUCT_MEM in Hs2.
    set (h1 := if lfree h =? off + s then set_lfree off h else h).
    assert (Hh1 : headers h1 = headers h ∧ same_conf h h1 ∧ lfree h1 = if lfree h =? off + s then off else lfree h)
      by (unfold h1; destruct (lfree h =? off + s); done).
    destruct Hh1 as (Eh & Ec & El). set (h2 := put_hm off _ h1).
    assert (Hr2 : tail (headers h2) (off + s) (off + s + s2) r' (heap_end h)).
    { unfold h2, put_hm. simpl. rewrite Eh. apply tail_insert; [lia|done]. }
    destruct (set_prev_tail h2 _ _ _ _ off Hr2) as (m' & -> & Hr3 & Hf).
    eexists. split; [done|]. split_and!; [apply Ec| |exact El]. cbn [headers set_headers].
    apply tail_app. exists pv. rewrite Z.add_0_l. fold off. split.
    + apply (seg_frame (headers h)); [|done]. intros x Hx. rewrite Z.add_0_l in Hx. fold off in Hx.
      rewrite Hf by lia. unfold h2, put_hm. simpl. rewrite Eh. rewrite lookup_insert_ne; [done|lia].
    + apply tail_cons. unfold SIZEOF_STRUCT_MEM. split_and!; [lia|lia| |].
      * rewrite Hf by lia. unfold h2, put_hm. simpl. rewrite lookup_insert_eq. unfold with_next. simpl. do 2 f_equal. lia.
      * by rewrite Z.add_assoc.
Qed.

Lemma seg_snoc m l s u : ∀ pv o pl, seg m pv o (l ++ [(s, u)]) pl →
  pl = o + total l ∧ ∃ pv1, seg m pv o l pv1 ∧ SIZEOF_STRUCT_MEM < s ∧ s mod 4 = 0 ∧
    m !! (o + total l) = Some (mk_hm HEAP_MAGIC (Z.b2z u) (o + total l + s) pv1).
Proof. intros pv o pl (pv1 & Hl & Hs & Hm & Ho & ->)%seg_app. eauto 8. Qed.

Lemma plug_backward_spec h l s r :
  let off := total l in
  tail (headers h) 0 0 (l ++ (s, false) :: r) (heap_end h) →
  match reverse l with
  | (s1, false) :: l1 => ∃ h', plug_backward off h = Ok h' ∧ same_conf h h' ∧
      tail (headers h') 0 0 (reverse l1 ++ (s1 + s, false) :: r) (heap_end h) ∧
      lfree h' = if lfree h =? off then total (reverse l1) else lfree h
  | _ => plug_backward off h = Ok h
  end.
Proof.
  intros off Ht. apply tail_app in Ht as (pv & Hl & Ht). rewrite Z.add_0_l in Ht. fold off in Ht.
  pose proof Ht as (Hs & Hm & Ho & Hr)%tail_cons. unfold SIZEOF_STRUCT_MEM in Hs.
  unfold plug_backward. rewrite (get_hm_ok _ _ _ Ho). cbn [mbind res_bind prev].
  destruct l as [|[s1 u1] l1 _] using rev_ind.
  - simpl in Hl. subst pv. change off with 0 in *. rewrite (get_hm_ok _ _ _ Ho). done.
  - rewrite reverse_snoc. apply seg_snoc in Hl as (-> & pv1 & Hl & Hs1 & Hm1 & Hp). rewrite Z.add_0_l in *.
    assert (Hoff : off = total l1 + s1) by (unfold off; rewrite total_app; simpl; lia).
    pose proof (proj1 (seg_total _ _ _ _ _ Hl)) as Hl0. unfold SIZEOF_STRUCT_MEM in Hs1.
    rewrite (get_hm_ok _ _ _ Hp). cbn [mbind res_bind used].
    rewrite (proj2 (Z.eqb_neq (total l1) off)) by lia. cbn [negb andb].
    destruct u1; [done|]. cbn [Z.b2z Z.eqb andb next]. rewrite reverse_involutive.
    set (h1 := if lfree h =? off then set_lfree (total l1) h else h).
    assert (Hh1 : headers h1 = headers h ∧ same_conf h h1 ∧ lfree h1 = if lfree h =? off then total l1 else lfree h)
      by (unfold h1; destruct (lfree h =? off); done).
    destruct Hh1 as (Eh & Ec & El). set (h2 := put_hm (total l1) _ h1).
    assert (Hr2 : tail (headers h2) off (off + s) r (heap_end h)).
    { unfold h2, put_hm. simpl. rewrite Eh. apply tail_insert; [lia|done]. }
    destruct (set_prev_tail h2 _ _ _ _ (total l1) Hr2) as (m' & -> & Hr3 & Hf).
    eexists. split; [done|]. split_and!; [apply Ec| |exact El]. cbn [headers set_headers].
    apply tail_app. exists pv1. rewrite Z.add_0_l. split.
    + apply (seg_frame (headers h)); [|done]. intros x Hx. rewrite Z.add_0_l in Hx.
      rewrite Hf by lia. unfold h2, put_hm. simpl. rewrite Eh. rewrite lookup_insert_ne; [done|lia].
    + apply tail_cons. unfold SIZEOF_STRUCT_MEM. split_and!; [lia|lia| |].
      * rewrite Hf by lia. unfold h2, put_hm. simpl. rewrite lookup_insert_eq. unfold with_next. simpl.
        do 2 f_equal. lia.
      * rewrite Z.add_assoc, <- Hoff. done.
Qed.

Lemma no_adj_app l r : no_adj (l ++ r) → no_adj l ∧ no_adj r.
Proof.
  induction l as [|[s u] l IH]; simpl; [done|]. intros [H Hn]. apply IH in Hn as [Hl Hr].
  split_and!; [|done|done]. intros Hu. specialize (H Hu). destruct l as [|[? []] ?]; by intros ?.
Qed.

(** Between [l] and [r] there may stand a free block. *)
Definition ends_free (l : list block) : Prop := starts_free (reverse l).

Lemma no_adj_join l s r :
  no_adj l → no_adj r → ¬ ends_free l → ¬ starts_free r → no_adj (l ++ (s, false) :: r).
Proof.
  intros Hl Hr He Hs. induction l as [|[s0 u0] l IH]; simpl; [done|]. destruct Hl as [H0 Hl].
  unfold ends_free in He, IH. rewrite reverse_cons in He. split.
  - intros ->. destruct l as [|[s1 u1] l]; [|by apply H0]. by destruct He.
  - apply IH; [done|]. intros Hf. apply He. destruct (reverse l) as [|[? []] ?]; done.
Qed.

Lemma ends_free_snoc l s u : ends_free (l ++ [(s, u)]) ↔ u = false.
Proof. unfold ends_free. rewrite reverse_snoc. destruct u; simpl; naive_solver. Qed.

(** [plug_holes] joins the block at [total l] with its free neighbours. *)
Lemma plug_holes_spec h l s r :
  let bs := l ++ (s, false) :: r in
  tail (headers h) 0 0 bs (heap_end h) → no_adj l → no_adj r → free_at bs (lfree h) →
  ∃ h' bs', plug_holes (total l) h = Ok h' ∧ same_conf h h' ∧ tail (headers h') 0 0 bs' (heap_end h) ∧
    no_adj bs' ∧ free_at bs' (lfree h') ∧ (lowest bs (lfree h) → lowest bs' (lfree h')) ∧
    used_total bs' = used_total bs ∧ ∀ x t, live bs' x t ↔ live bs x t.
Proof.
  intros bs Ht Hl Hr Hf. pose proof (tail_big _ _ _ _ _ Ht) as Hb.
  (* the assertions *)
  pose proof Ht as (pv & Hseg & Ht1)%tail_app. rewrite Z.add_0_l in Ht1.
  pose proof Ht1 as (Hs & _ & Ho & Hle)%tail_cons. apply tail_le in Hle. unfold SIZEOF_STRUCT_MEM in Hs.
  pose proof (proj1 (seg_total _ _ _ _ _ Hseg)) as Hl0.
  unfold plug_holes, rt_assert, require. rewrite (proj2 (Z.leb_le _ _)), (proj2 (Z.ltb_lt _ _)) by lia.
  cbn [mbind res_bind]. rewrite (get_hm_ok _ _ _ Ho). cbn [mbind res_bind used Z.b2z Z.eqb]. clear Hseg Ht1 Hle Ho pv.
  (* forward *)
  assert (H1 : ∃ h1 s1 r1, plug_forward (total l) h = Ok h1 ∧ same_conf h h1 ∧
    let bs1 := l ++ (s1, false) :: r1 in
    tail (headers h1) 0 0 bs1 (heap_end h) ∧ no_adj r1 ∧ ¬ starts_free r1 ∧ free_at bs1 (lfree h1) ∧
    (lowest bs (lfree h) → lowest bs1 (lfree h1)) ∧ used_total bs1 = used_total bs ∧ ∀ x t, live bs1 x t ↔ live bs x t).
  { pose proof (plug_forward_spec h l s r Ht) as Hpf. cbv zeta in Hpf.
    destruct r as [|[s2 [|]] r']; [exists h, s, []|exists h, s, ((s2, true) :: r')|];
      try (cbv zeta; split_and!; try done; by intros ?).
    destruct Hpf as (h1 & E & Hc & Ht1 & Hlf). exists h1, (s + s2), r'.
    destruct (merge_facts l s s2 r' (lfree h) (lfree h1) Hb Hlf) as (_ & _ & Hu & Hfr & Hlow & Hlive).
    destruct Hr as [Hn Hr]. cbv zeta. split_and!; [done|done|done|done|by apply Hn|by apply Hfr|done|done|done]. }
  destruct H1 as (h1 & s1 & r1 & -> & Hc1 & Ht1 & Hr1 & Hns1 & Hf1 & Hlow1 & Hu1 & Hlive1). cbn [mbind res_bind].
  (* backward *)
  assert (He1 : heap_end h1 = heap_end h) by (unfold heap_end; destruct Hc1 as (_ & -> & _); done).
  rewrite <- He1 in Ht1. pose proof (plug_backward_spec h1 l s1 r1 Ht1) as Hpb. cbv zeta in Hpb.
  pose proof (tail_big _ _ _ _ _ Ht1) as Hb1.
  destruct (decide (starts_free (reverse l))) as [Hend|Hend].
  2: { exists h1, (l ++ (s1, false) :: r1). rewrite <- He1.
    assert (Hpb' : plug_backward (total l) h1 = Ok h1) by (revert Hpb Hend; destruct (reverse l) as [|[? []] ?]; [by intros|by intros|intros _ []; exact I]).
    split_and!; try done. by apply no_adj_join. }
  revert Hpb Hend. destruct (reverse l) as [|[s0 [|]] l0] eqn:Hrev; [done|done|]. intros Hpb _.
  assert (Hleq : l = reverse l0 ++ [(s0, false)]).
  { apply (f_equal reverse) in Hrev. rewrite reverse_involutive in Hrev. by rewrite Hrev, reverse_cons. }
  destruct Hpb as (h2 & -> & Hc2 & Ht2 & Hlf2). exists h2, (reverse l0 ++ (s0 + s1, false) :: r1). rewrite <- He1.
  subst l. rewrite <- app_assoc in Hb1, Hf1, Hlow1, Hu1, Hlive1. cbn [app] in Hb1, Hf1, Hlow1, Hu1, Hlive1.
  assert (Htot : total (reverse l0 ++ [(s0, false)]) = total (reverse l0) + s0) by (rewrite total_app; simpl; lia).
  rewrite Htot in Hlf2.
  destruct (merge_facts (reverse l0) s0 s1 r1 (lfree h1) (lfree h2) Hb1 Hlf2) as (_ & _ & Hu2 & Hfr2 & Hlow2 & Hlive2).
  apply no_adj_app in Hl as Hl'. destruct Hl' as [Hl' _].
  split_and!; [done| |done| |by apply Hfr2|by intros; apply Hlow2, Hlow1|congruence|].
  - unfold same_conf in *. intuition congruence.
  - apply no_adj_join; [done|done| |done]. intros Hef.
    clear -Hl Hef. induction (reverse l0) as [|[s2 u2] l2 IH]; [done|]. destruct Hl as [H0 Hl].
    unfold ends_free in Hef. rewrite reverse_cons in Hef.
    destruct l2 as [|b l2]; [|apply IH; [done|unfold ends_free; destruct (reverse (b :: l2)) as [|[? []] ?] eqn:E; try done;
      apply (f_equal length) in E; rewrite length_reverse in E; done]].
    simpl in Hef. destruct u2; [done|]. by apply H0.
  - intros x t. by rewrite Hlive2, Hlive1.
Qed.

(** ** Changing one block *)

Lemma tail_frame m m' pv o bs e :
  (∀ x, o <= x <= e → m' !! x = m !! x) → tail m pv o bs e → tail m' pv o bs e.
Proof.
  intros Hf (He & (pl & H) & pe & Hend). pose proof (seg_total _ _ _ _ _ H) as [Ht _]. split_and!; [done| |].
  - exists pl. apply (seg_frame m); [intros; apply Hf; lia|done].
  - exists pe. rewrite Hf; [done|lia].
Qed.

Lemma tail_length bs : ∀ m pv o e, tail m pv o bs e → (length bs < base.size (m : gmap Z heap_mem))%nat.
Proof.
  induction bs as [|[s u] bs IH]; intros m pv o e Ht.
  - destruct Ht as (_ & _ & pe & Hend). assert (base.size m ≠ 0)%nat; [|simpl; lia].
    intros ->%map_size_empty_inv. by rewrite lookup_empty in Hend.
  - apply tail_cons in Ht as (Hs & _ & Ho & Ht). unfold SIZEOF_STRUCT_MEM in Hs.
    assert (Ht' : tail (delete o m) o (o + s) bs e).
    { apply (tail_frame m); [|done]. intros x Hx. rewrite lookup_delete_ne; [done|lia]. }
    apply IH in Ht'. rewrite map_size_delete, Ho in Ht'.
    assert (base.size m ≠ 0)%nat; [|simpl; lia].
    intros ->%map_size_empty_inv. by rewrite lookup_empty in Ho.
Qed.

Lemma seg_mod m bs : ∀ pv o pl, seg m pv o bs pl → total bs mod 4 = 0.
Proof.
  induction bs as [|[s u] bs IH]; intros pv o pl; simpl; [done|]. intros (_ & Hm & _ & H). apply IH in H. lia.
Qed.

Lemma set_block_at l s u u' r x : big l → 
  block_at 0 (l ++ (s, u') :: r) x = if x =? total l then Some (s, u') else block_at 0 (l ++ (s, u) :: r) x.
Proof.
  intros Hb. rewrite !block_at_app, Z.add_0_l. simpl. destruct (Z.eqb_spec x (total l)) as [->|]; [|done].
  destruct (block_at 0 l (total l)) as [[s1 u1]|] eqn:E; [|done].
  apply block_at_range in E; [|done]. unfold SIZEOF_STRUCT_MEM in E. lia.
Qed.

(** Overwriting the header of the block in the middle. *)
Lemma tail_set h pv o l s u r u' :
  tail (headers h) pv o (l ++ (s, u) :: r) (heap_end h) →
  ∃ x, headers h !! (o + total l) = Some x ∧ magic x = HEAP_MAGIC ∧ used x = Z.b2z u ∧ next x = o + total l + s ∧
  tail (headers (put_hm (o + total l) (with_used (Z.b2z u') x) h)) pv o (l ++ (s, u') :: r) (heap_end h).
Proof.
  intros (pv1 & Hl & Ht)%tail_app. apply tail_cons in Ht as (Hs & Hm & Ho & Ht).
  eexists. split; [exact Ho|]. split_and!; [done..|]. unfold put_hm, with_used. cbn [headers set_headers next prev].
  unfold SIZEOF_STRUCT_MEM in Hs. apply tail_app. exists pv1. split; [apply seg_insert; [lia|done]|].
  apply tail_cons. rewrite lookup_insert_eq. split_and!; [done..|]. apply tail_insert; [lia|done].
Qed.

(** What marking the block at [total l] as used or free does to the abstract
    heap. *)
Lemma used_total_set l s u r :
  used_total (l ++ (s, u) :: r) = used_total l + used_total r + (if u then s else 0).
Proof. rewrite used_total_app. simpl. destruct u; lia. Qed.

Lemma big_set l s u u' r : big (l ++ (s, u) :: r) → big (l ++ (s, u') :: r).
Proof. intros [Hl Hr]%Forall_app. apply Forall_cons in Hr as [Hs Hr]. apply Forall_app. split; [done|by constructor]. Qed.

Lemma total_set l s u u' r : total (l ++ (s, u') :: r) = total (l ++ (s, u) :: r).
Proof. rewrite !total_app. done. Qed.

Lemma block_here l s u r : big l → block_at 0 (l ++ (s, u) :: r) (total l) = Some (s, u).
Proof. intros Hb. by apply (block_at_here l s u r 0). Qed.

Lemma free_at_set l s r x : big l → 
  free_at (l ++ (s, true) :: r) x → free_at (l ++ (s, false) :: r) x ∧ free_at (l ++ (s, false) :: r) (total l).
Proof.
  intros Hb Hf. split; [|right; exists s; by apply block_here].
  destruct Hf as [->|[t Ht]]; [left; by apply total_set|].
  right. rewrite (set_block_at l s true false r) by done.
  destruct (x =? total l); eauto.
Qed.

Lemma live_free l s r x t : big l →
  live (l ++ (s, false) :: r) x t ↔ live (l ++ (s, true) :: r) x t ∧ x ≠ total l.
Proof.
  intros Hb. unfold live. rewrite (set_block_at l s true false r) by done.
  destruct (Z.eqb_spec x (total l)) as [->|]; [|tauto]. split; [done|by intros [_ ?]].
Qed.

Lemma live_take l s r x t : big l →
  live (l ++ (s, true) :: r) x t ↔ live (l ++ (s, false) :: r) x t ∨ x = total l ∧ t = s.
Proof.
  intros Hb. unfold live. rewrite (set_block_at l s false true r) by done.
  destruct (Z.eqb_spec x (total l)) as [->|Hne].
  - rewrite block_here by done. split; [intros [= ->]; by right|intros [?|[_ ->]]; [congruence|done]].
  - split; [by left|by intros [?|[? _]]].
Qed.

(** ** [rt_free] *)

(** [heap_ok], and the bounds it implies. *)
Lemma heap_ok_big h bs : heap_ok h bs → big bs.
Proof. intros H. exact (tail_big _ _ _ _ _ (ho_tail _ _ H)). Qed.

Lemma heap_ok_total h bs : heap_ok h bs → total bs = heap_end h.
Proof. intros H. pose proof (tail_total _ _ _ _ _ (ho_tail _ _ H)). lia. Qed.

Lemma live_range h bs x s : heap_ok h bs → live bs x s →
  0 <= x ∧ x + s <= heap_end h ∧ SIZEOF_STRUCT_MEM < s ∧ x mod 4 = 0.
Proof.
  intros H Hx. pose proof (heap_ok_total _ _ H) as Ht. pose proof (heap_ok_big _ _ H) as Hb.
  pose proof (block_at_range _ _ _ _ _ Hb Hx). apply block_at_split in Hx as (l & r & -> & ->).
  pose proof (ho_tail _ _ H) as (pv & Hs & _)%tail_app. apply seg_mod in Hs. rewrite Z.add_0_l in *. lia.
Qed.

(** Freeing a live block: it is joined with its free neighbours, every other
    live block stays, and the memory in use decreases by its size. *)
Lemma rt_free_live h bs x s :
  heap_ok h bs → live bs x s →
  ∃ h' bs', rt_free 0 (Some (heap_ptr h + x + SIZEOF_STRUCT_MEM)) h = Ok h' ∧ heap_ok h' bs' ∧
    (∀ y t, live bs' y t ↔ live bs y t ∧ y ≠ x) ∧ used_mem h' = used_mem h - s ∧
    (lowest bs (lfree h) → lowest bs' (lfree h')) ∧
    heap_ptr h' = heap_ptr h ∧ mem_size_aligned h' = mem_size_aligned h.
Proof.
  intros H Hx. pose proof (live_range _ _ _ _ H Hx) as (Hx0 & Hxe & Hs & Hm). unfold SIZEOF_STRUCT_MEM in Hs, Hxe.
  pose proof (heap_ok_big _ _ H) as Hb. destruct H as [Ht Ha Hf Hu Hmax [Hp0 Hp4] Hsz Htop].
  pose proof (used_total_range _ Hb) as Hur. unfold SIZEOF_STRUCT_MEM in Htop.
  pose proof (tail_total _ _ _ _ _ Ht) as Htot.
  apply block_at_split in Hx as (l & r & -> & ->). rewrite Z.add_0_l in *.
  destruct (tail_set h 0 0 l s true r false Ht) as (v & Hv & Hvm & Hvu & Hvn & Ht1). rewrite Z.add_0_l in *.
  pose proof Hb as [Hbl [_ Hbr]%Forall_cons]%Forall_app.
  pose proof (used_total_range _ Hbl). pose proof (used_total_range _ Hbr).
  apply no_adj_app in Ha as [Hal Har]. simpl in Har. destruct Har as [_ Har].
  unfold rt_free, not_in_interrupt, rt_assert, require. cbn [Z.eqb mbind res_bind].
  unfold SIZEOF_STRUCT_MEM.
  rewrite land3 by lia. cbn [Z.eqb mbind res_bind].
  rewrite (proj2 (Z.leb_le _ _)), (proj2 (Z.ltb_lt _ _)) by (unfold heap_end, SIZEOF_STRUCT_MEM in *; lia). cbn [andb mbind res_bind].
  replace (heap_ptr h + total l + 12 - heap_ptr h - 12) with (total l) by lia.
  rewrite (get_hm_ok _ _ _ Hv). cbn [mbind res_bind]. rewrite Hvu, Hvm. cbn [Z.b2z Z.eqb negb mbind res_bind].
  rewrite Z.eqb_refl. cbn [mbind res_bind]. rewrite Hvn. replace (total l + s - total l) with s by lia.
  cbn [Z.b2z] in Ht1. set (h1 := put_hm (total l) (with_used 0 v) h) in *.
  set (h2 := if total l <? lfree h1 then set_lfree (total l) h1 else h1).
  assert (Hh2 : headers h2 = headers h1 ∧ lfree h2 = (if total l <? lfree h then total l else lfree h) ∧
    heap_ptr h2 = heap_ptr h ∧ mem_size_aligned h2 = mem_size_aligned h ∧ used_mem h2 = used_mem h ∧ max_mem h2 = max_mem h)
    by (unfold h2; change (lfree h1) with (lfree h); destruct (total l <? lfree h); done).
  destruct Hh2 as (E1 & E2 & E3 & E4 & E5 & E6). set (h3 := unaccount s h2).
  destruct (free_at_set l s r _ Hbl Hf) as [Hf1 Hf2].
  destruct (plug_holes_spec h3 l s r) as (h' & bs' & -> & (C1 & C2 & C3 & C4) & Ht' & Ha' & Hf' & Hlow & Hu' & Hlive).
  { unfold h3, heap_end. simpl. by rewrite E1, E4. }
  { done. } { done. }
  { unfold h3. simpl. rewrite E2. by destruct (total l <? lfree h). }
  rewrite used_total_set in Hu, Hur. rewrite used_total_set in Hu'. cbv iota in Hu, Hur, Hu'.
  assert (Hum : used_mem h3 = used_mem h - s).
  { unfold h3. simpl. rewrite E5. unfold u32. rewrite Z.mod_small; [done|]. lia. }
  assert (Hend : heap_end h3 = heap_end h) by (unfold h3, heap_end; simpl; by rewrite E4).
  assert (Hend' : heap_end h' = heap_end h) by (rewrite <- Hend; unfold heap_end; by rewrite C2).
  unfold h3 in C1, C2, C4. simpl in C1, C2, C4. rewrite Hend in Ht'.
  exists h', bs'. split_and!; [done| | | | |congruence|congruence].
  - split; rewrite ?Hend', ?C1, ?C2, ?C3, ?C4, ?E3, ?E4, ?E6, ?Hum; try done; lia.
  - intros y t. rewrite Hlive. by apply live_free.
  - congruence.
  - intros Hl. apply Hlow. unfold h3. simpl. rewrite E2. intros y t Hy.
    rewrite (set_block_at l s true false r) in Hy by done.
    destruct (Z.eqb_spec y (total l)) as [->|].
    + destruct (Z.ltb_spec (total l) (lfree h)); lia.
    + apply Hl in Hy. destruct (Z.ltb_spec (total l) (lfree h)); lia.
Qed.

(** ** [rt_malloc] *)

(** The walk to the next free block, or to the end. *)
Lemma find_lfree_spec h r : ∀ fuel pv o,
  tail (headers h) pv o r (heap_end h) → (length r <= fuel)%nat →
  ∃ o' x, find_lfree fuel o h = Ok o' ∧ headers h !! o' = Some x ∧ (o' =? heap_end h) || (used x =? 0) = true ∧
    (o' = heap_end h ∨ ∃ s, block_at o r o' = Some (s, false)) ∧
    ∀ y s, block_at o r y = Some (s, false) → o' <= y.
Proof.
  induction r as [|[s u] r IH]; intros fuel pv o Ht Hfuel.
  - destruct Ht as (He & _ & pe & Hend). simpl in He. rewrite Z.add_0_r in He. subst o.
    destruct fuel; simpl; rewrite (get_hm_ok _ _ _ Hend); cbn [mbind res_bind used Z.eqb negb andb];
      rewrite Z.eqb_refl; cbn [negb]; exists (heap_end h); eexists; rewrite Z.eqb_refl;
      (split_and!; [done|exact Hend|done|by left|done]).
  - pose proof Ht as (Hs & _ & Ho & Hr)%tail_cons. pose proof (tail_le _ _ _ _ _ Hr) as Hle.
    pose proof (tail_big _ _ _ _ _ Hr) as Hb. unfold SIZEOF_STRUCT_MEM in Hs. simpl in Hfuel.
    destruct fuel as [|fuel]; [lia|]. simpl. rewrite (get_hm_ok _ _ _ Ho). cbn [mbind res_bind used].
    destruct u; cbn [Z.b2z Z.eqb negb andb next].
    + rewrite (proj2 (Z.eqb_neq o (heap_end h))) by lia. cbn [negb].
      destruct (IH fuel _ _ Hr ltac:(lia)) as (o' & x & E & Hx & Hu & Hc & Hlow). exists o', x.
      split_and!; [done|done|done| |].
      * destruct Hc as [?|[k Hk]]; [by left|right; exists k].
        apply block_at_range in Hk as Hk'; [|done]. rewrite (proj2 (Z.eqb_neq o' o)) by lia. done.
      * intros y k. destruct (y =? o); [done|apply Hlow].
    + exists o. eexists. split_and!; [done|exact Ho|by rewrite orb_true_r|right; exists s; by rewrite Z.eqb_refl|].
      intros y k. destruct (Z.eqb_spec y o) as [->|]; [lia|]. intros Hk. apply block_at_range in Hk; [lia|done].
Qed.

Lemma split_block_at l t u k v r x : big l → SIZEOF_STRUCT_MEM < t →
  block_at 0 (l ++ (t, u) :: (k, v) :: r) x =
    if x =? total l then Some (t, u)
    else if x =? total l + t then Some (k, v)
    else block_at 0 (l ++ (t + k, v) :: r) x.
Proof.
  unfold SIZEOF_STRUCT_MEM. intros Hl Ht. rewrite !block_at_app, Z.add_0_l. simpl.
  assert (Hno : ∀ y, total l <= y → block_at 0 l y = None).
  { intros y Hy. destruct (block_at 0 l y) as [[s1 u1]|] eqn:E; [|done].
    apply block_at_range in E; [|done]. unfold SIZEOF_STRUCT_MEM in E. lia. }
  destruct (Z.eqb_spec x (total l)) as [->|]; [by rewrite Hno|].
  destruct (Z.eqb_spec x (total l + t)) as [->|]; [by rewrite Hno by lia|].
  by rewrite Z.add_assoc.
Qed.

Lemma inside_block_at l s u r x : big l → big r → total l < x < total l + s → block_at 0 (l ++ (s, u) :: r) x = None.
Proof.
  intros Hl Hr Hx. rewrite block_at_app, Z.add_0_l. destruct (block_at 0 l x) as [[s1 u1]|] eqn:E.
  - apply block_at_range in E; [|done]. unfold SIZEOF_STRUCT_MEM in E. lia.
  - simpl. rewrite (proj2 (Z.eqb_neq x (total l))) by lia. by apply block_at_low; [|lia].
Qed.

(** What taking [t] bytes of the free block at [total l] leaves. *)
Definition taken (bs : list block) (x t : Z) (bs' : list block) : Prop :=
  total bs' = total bs ∧ used_total bs' = used_total bs + t ∧ no_adj bs' ∧
  (∀ y k, live bs' y k ↔ live bs y k ∨ y = x ∧ k = t) ∧
  (∀ y k, y ≠ x → block_at 0 bs y = Some (k, false) → block_at 0 bs' y = Some (k, false)) ∧
  (∀ y k, block_at 0 bs' y = Some (k, false) → y ≠ x ∧ (x < y ∨ block_at 0 bs y = Some (k, false))).

Lemma no_adj_set l s u r : no_adj (l ++ (s, false) :: r) → u = true ∨ starts_free r = False → no_adj (l ++ (s, u) :: r).
Proof.
  intros Ha Hu. induction l as [|[s0 u0] l IH]; simpl in *.
  - destruct Ha as [Hn Ha]. split; [|done]. intros _. by apply Hn.
  - destruct Ha as [Hn Ha]. split; [|by apply IH]. intros Hu0. specialize (Hn Hu0).
    destruct l as [|[? []] ?]; [by destruct u|done|done].
Qed.

Lemma taken_whole l s r : big (l ++ (s, false) :: r) → no_adj (l ++ (s, false) :: r) →
  taken (l ++ (s, false) :: r) (total l) s (l ++ (s, true) :: r).
Proof.
  intros Hb Ha. pose proof Hb as [Hl _]%Forall_app. split_and!.
  - apply total_set.
  - rewrite !used_total_set. lia.
  - apply no_adj_set; [done|by left].
  - intros y k. by apply live_take.
  - intros y k Hy. rewrite (set_block_at l s false true r) by done. by rewrite (proj2 (Z.eqb_neq _ _) Hy).
  - intros y k. rewrite (set_block_at l s false true r) by done. destruct (Z.eqb_spec y (total l)); [done|auto].
Qed.

Lemma taken_split l t k r : SIZEOF_STRUCT_MEM < t → SIZEOF_STRUCT_MEM < k →
  big (l ++ (t + k, false) :: r) → no_adj (l ++ (t + k, false) :: r) →
  taken (l ++ (t + k, false) :: r) (total l) t (l ++ (t, true) :: (k, false) :: r).
Proof.
  intros Ht Hk Hb Ha. pose proof Hb as [Hl [_ Hr]%Forall_cons]%Forall_app.
  pose proof (no_adj_set _ _ true _ Ha ltac:(by left)) as Ha'.
  apply no_adj_app in Ha as [Hal Har]. simpl in Har. destruct Har as [Hn Har].
  assert (Hmid : block_at 0 (l ++ (t + k, false) :: r) (total l + t) = None).
  { apply inside_block_at; [done|done|unfold SIZEOF_STRUCT_MEM in *; lia]. }
  assert (Hhere := block_here l (t + k) false r Hl).
  split_and!.
  - rewrite !total_app. simpl. lia.
  - rewrite !used_total_app. simpl. lia.
  - clear -Ha' Hn Har. induction l as [|[s0 u0] l IH]; simpl in *.
    + split; [done|]. by split.
    + destruct Ha' as [H0 Ha']. split; [|by apply IH]. intros Hu0. specialize (H0 Hu0). by destruct l as [|[? []] ?].
  - intros y j. unfold live. rewrite split_block_at by done.
    destruct (Z.eqb_spec y (total l)) as [->|]; [rewrite Hhere; intuition congruence|].
    destruct (Z.eqb_spec y (total l + t)) as [->|]; [rewrite Hmid; intuition congruence|]. intuition congruence.
  - intros y j Hy. rewrite split_block_at by done. rewrite (proj2 (Z.eqb_neq _ _) Hy).
    destruct (Z.eqb_spec y (total l + t)) as [->|]; [by rewrite Hmid|done].
  - intros y j. rewrite split_block_at by done. destruct (Z.eqb_spec y (total l)) as [->|]; [done|].
    destruct (Z.eqb_spec y (total l + t)) as [->|]; [|auto]. unfold SIZEOF_STRUCT_MEM in Ht. intros _. split; [done|lia].
Qed.

Lemma taken_used bs x t bs' h :
  heap_ok h bs → taken bs x t bs' → tail (headers h) 0 0 bs (heap_end h) → big bs' →
  u32 (used_mem h + t) = used_mem h + t ∧ used_mem (account t h) = used_total bs' ∧
  used_mem (account t h) <= max_mem (account t h).
Proof.
  intros H (T & U & _) Ht Hb'. pose proof (used_total_range _ Hb') as Hur. pose proof (heap_ok_total _ _ H) as Htot.
  destruct H as [_ _ _ Hu Hmax [Hp0 _] [Hsz _] Htop]. unfold SIZEOF_STRUCT_MEM, MIN_SIZE_ALIGNED in *.
  assert (E : u32 (used_mem h + t) = used_mem h + t) by (unfold u32; rewrite Z.mod_small; lia).
  unfold account. simpl. rewrite E. split_and!; [done|lia|]. destruct (Z.ltb_spec (max_mem h) (used_mem h + t)); lia.
Qed.

(** Cutting the block at [total l] in two: the new header at [total l + t] and
    the links around it. *)
Lemma tail_cut h l s u0 r t u v mem :
  tail (headers h) 0 0 (l ++ (s, u0) :: r) (heap_end h) → headers h !! total l = Some mem →
  SIZEOF_STRUCT_MEM < t → SIZEOF_STRUCT_MEM < s - t → t mod 4 = 0 →
  let h2 := put_hm (total l) (mk_hm HEAP_MAGIC (Z.b2z u) (total l + t) (prev mem))
    (put_hm (total l + t) (mk_hm HEAP_MAGIC (Z.b2z v) (next mem) (total l)) h) in
  ∃ m', (if negb (next mem =? heap_end h) then set_prev (next mem) (total l + t) h2 else Ok h2) = Ok (set_headers m' h2) ∧
    tail m' 0 0 (l ++ (t, u) :: (s - t, v) :: r) (heap_end h).
Proof.
  intros Ht0 Hmem Ht Hk Ht4 h2. pose proof Ht0 as (pv & Hl & Ht1)%tail_app. rewrite Z.add_0_l in Ht1.
  pose proof Ht1 as (Hs & Hs4 & Ho & Hr)%tail_cons. rewrite Ho in Hmem. injection Hmem as <-. cbn [next prev] in *.
  pose proof (proj1 (seg_total _ _ _ _ _ Hl)) as Hl0. pose proof (tail_le _ _ _ _ _ Hr) as Hle.
  unfold SIZEOF_STRUCT_MEM in *.
  assert (Hr2 : tail (headers h2) (total l) (total l + s) r (heap_end h)).
  { unfold h2, put_hm. simpl. do 2 (apply tail_insert; [lia|]). done. }
  assert (Hset : ∃ m', (if negb (total l + s =? heap_end h) then set_prev (total l + s) (total l + t) h2 else Ok h2)
      = Ok (set_headers m' h2) ∧ tail m' (total l + t) (total l + s) r (heap_end h) ∧
      ∀ x, x ≠ total l + s → m' !! x = headers h2 !! x).
  { destruct (Z.eqb_spec (total l + s) (heap_end h)) as [He|He]; cbn [negb]; [|by apply set_prev_tail with (pv := total l)].
    exists (headers h2). split_and!; [by destruct h2| |done].
    destruct r as [|[s1 u1] r]; [|apply tail_first in Hr as (? & _ & ? & _); lia].
    destruct Hr2 as (? & _ & ?). split_and!; [done|by exists (total l + t)|done]. }
  destruct Hset as (m' & E & Hr3 & Hf). exists m'. split; [exact E|].
  apply tail_app. exists pv. rewrite Z.add_0_l. split.
  - apply (seg_frame (headers h)); [|done]. intros x Hx. rewrite Hf by lia. unfold h2, put_hm. simpl.
    by rewrite !lookup_insert_ne by lia.
  - apply tail_cons. unfold SIZEOF_STRUCT_MEM. split_and!; [lia|done| |].
    + rewrite Hf by lia. unfold h2, put_hm. simpl. by rewrite lookup_insert_eq.
    + apply tail_cons. unfold SIZEOF_STRUCT_MEM. split_and!; [lia|lia| |].
      * rewrite Hf by lia. unfold h2, put_hm. simpl. rewrite lookup_insert_ne by lia. rewrite lookup_insert_eq.
        do 2 f_equal. lia.
      * by replace (total l + t + (s - t)) with (total l + s) by lia.
Qed.

(** [take_block] on the free block at [total l]. *)
Lemma take_block_spec h l s r sz mem :
  heap_ok h (l ++ (s, false) :: r) → headers h !! total l = Some mem →
  sz mod 4 = 0 → MIN_SIZE_ALIGNED <= sz <= s - SIZEOF_STRUCT_MEM →
  ∃ h' t r', take_block (total l) sz mem h = Ok h' ∧ sz + SIZEOF_STRUCT_MEM <= t <= s ∧
    let bs' := l ++ (t, true) :: r' in
    tail (headers h') 0 0 bs' (heap_end h) ∧ taken (l ++ (s, false) :: r) (total l) t bs' ∧
    heap_ptr h' = heap_ptr h ∧ mem_size_aligned h' = mem_size_aligned h ∧ lfree h' = lfree h ∧
    used_mem h' = used_total bs' ∧ used_mem h' <= max_mem h'.
Proof.
  intros H Hmem Hsz [Hmin Hfit]. pose proof (heap_ok_big _ _ H) as Hb.
  pose proof (ho_tail _ _ H) as Ht0. pose proof (ho_adj _ _ H) as Ha.
  pose proof Ht0 as (pv & Hl & Ht)%tail_app. rewrite Z.add_0_l in Ht.
  pose proof Ht as (Hs & Hs4 & Ho & Hr)%tail_cons. rewrite Ho in Hmem. injection Hmem as <-.
  pose proof (proj1 (seg_total _ _ _ _ _ Hl)) as Hl0. pose proof (tail_le _ _ _ _ _ Hr) as Hle.
  unfold take_block. cbn [next prev]. unfold SIZEOF_STRUCT_MEM, MIN_SIZE_ALIGNED in *.
  destruct (Z.leb_spec (sz + 12 + 12) (total l + s - (total l + 12))) as [Hsplit|Hwhole].
  - (* split *)
    destruct (tail_cut h l s false r (sz + 12) true false _ Ht0 Ho) as (m' & E & Ht');
      [unfold SIZEOF_STRUCT_MEM; lia..|lia|]. cbn [Z.b2z next prev] in E.
    replace (total l + 12 + sz) with (total l + (sz + 12)) by lia.
    set (h2 := put_hm (total l) _ _) in *. change (heap_end h2) with (heap_end h). rewrite E. cbn [mbind res_bind].
    assert (Htk : taken (l ++ (s, false) :: r) (total l) (sz + 12) (l ++ (sz + 12, true) :: (s - (sz + 12), false) :: r)).
    { replace s with (sz + 12 + (s - (sz + 12))) at 1 by lia. apply taken_split; unfold SIZEOF_STRUCT_MEM; [lia|lia| |];
      replace (sz + 12 + (s - (sz + 12))) with s by lia; done. }
    destruct (taken_used _ _ _ _ h H Htk Ht0 (tail_big _ _ _ _ _ Ht')) as (_ & Hu1 & Hu2).
    eexists _, (sz + 12), _. split; [done|]. split; [lia|]. split_and!; try done.
  - (* the whole block *)
    destruct (tail_set h 0 0 l s false r true Ht0) as (v & Hv & _ & _ & _ & Ht'). rewrite Z.add_0_l in *.
    rewrite Ho in Hv. injection Hv as <-. cbn [Z.b2z] in Ht'.
    replace (total l + s - total l) with s by lia.
    pose proof (taken_whole _ _ _ Hb Ha) as Htk.
    destruct (taken_used _ _ _ _ h H Htk Ht0 (tail_big _ _ _ _ _ Ht')) as (_ & Hu1 & Hu2).
    eexists _, s, r. split; [done|]. split; [lia|]. split_and!; try done.
Qed.

(** Taking a block and moving [lfree]: the heap after a successful
    [rt_malloc] of [sz] bytes at [x]. *)
Definition allocated (h : heap) (bs : list block) (sz x : Z) (h' : heap) : Prop :=
  ∃ bs' s t, block_at 0 bs x = Some (s, false) ∧ sz + SIZEOF_STRUCT_MEM <= t <= s ∧ heap_ok h' bs' ∧
    (∀ y k, live bs' y k ↔ live bs y k ∨ y = x ∧ k = t) ∧
    used_mem h' = used_mem h + t ∧ (lowest bs (lfree h) → lowest bs' (lfree h')) ∧
    heap_ptr h' = heap_ptr h ∧ mem_size_aligned h' = mem_size_aligned h.

(** After the block at [total l] is taken, [lfree] is again a free block; if it
    was the lowest one it is the lowest one. *)
Lemma lfree_after_take h h1 l s r t r' :
  let bs := l ++ (s, false) :: r in
  let bs' := l ++ (t, true) :: r' in
  heap_ok h bs → taken bs (total l) t bs' → tail (headers h1) 0 0 bs' (heap_end h) →
  heap_end h1 = heap_end h → lfree h1 = lfree h →
  ∃ h2, (if total l =? lfree h1 then advance_lfree h1 else Ok h1) = Ok h2 ∧
    same_conf h1 h2 ∧ headers h2 = headers h1 ∧ free_at bs' (lfree h2) ∧ (lowest bs (lfree h) → lowest bs' (lfree h2)).
Proof.
  intros bs bs' H Htk Htail Hend Hlf. pose proof (heap_ok_big _ _ H) as Hb. pose proof Hb as [Hbl _]%Forall_app.
  destruct Htk as (T1 & T2 & T3 & T4 & T5 & T6).
  destruct (Z.eqb_spec (total l) (lfree h1)) as [Heq|Hne].
  - unfold advance_lfree. rewrite <- Heq. pose proof Htail as (pv & Hsg & Ht')%tail_app. rewrite Z.add_0_l in Ht'.
    pose proof (tail_length _ _ _ _ _ Htail) as Hlen. unfold bs' in Hlen. rewrite length_app in Hlen.
    rewrite <- Hend in Ht'.
    destruct (find_lfree_spec h1 _ (base.size (headers h1)) _ _ Ht') as (o & x & Eo & Hx & Hux & Hfree & Hlow); [simpl in *; lia|].
    rewrite Eo. cbn [mbind res_bind]. rewrite (get_hm_ok _ _ _ Hx). cbn [mbind res_bind].
    rewrite Hux. cbn [rt_assert require mbind res_bind]. eexists. split; [done|]. split_and!; [done|done| |].
    + simpl. destruct Hfree as [->|[k Hk]].
      * left. rewrite Hend. by rewrite <- (tail_total _ _ _ _ _ Htail).
      * right. exists k. unfold bs'. rewrite block_at_app, Z.add_0_l.
        destruct (block_at 0 l o) as [[s1 u1]|] eqn:El; [|done].
        apply block_at_range in El; [|done]. apply block_at_range in Hk; [|by apply (tail_big _ _ _ _ _ Ht')].
        unfold SIZEOF_STRUCT_MEM in El. lia.
    + intros Hlo y k Hy. simpl. unfold bs' in Hy. rewrite block_at_app, Z.add_0_l in Hy.
      destruct (block_at 0 l y) as [b|] eqn:El; [|by apply (Hlow y k)]. injection Hy as ->.
      assert (Hy0 : block_at 0 bs y = Some (k, false)) by (unfold bs; by rewrite block_at_app, El).
      apply Hlo in Hy0. apply block_at_range in El; [|done]. unfold SIZEOF_STRUCT_MEM in El. rewrite <- Hlf, <- Heq in Hy0. lia.
  - exists h1. split_and!; [done|done|done| |].
    + rewrite Hlf in *. destruct (ho_lfree _ _ H) as [->|[k Hk]]; [left; by rewrite T1|].
      right. exists k. apply T5; [done|exact Hk].
    + intros Hlo y k Hy. rewrite Hlf. apply T6 in Hy as [_ [Hy|Hy]]; [|by apply Hlo in Hy].
      assert (lfree h <= total l) by (apply (Hlo (total l) s), block_here; done). lia.
Qed.

Lemma allocate_spec h l s r sz mem :
  heap_ok h (l ++ (s, false) :: r) → headers h !! total l = Some mem →
  sz mod 4 = 0 → MIN_SIZE_ALIGNED <= sz <= s - SIZEOF_STRUCT_MEM →
  ∃ h', allocate (total l) sz mem h = Ok (h', Some (heap_ptr h + total l + SIZEOF_STRUCT_MEM)) ∧
    allocated h (l ++ (s, false) :: r) sz (total l) h'.
Proof.
  intros H Hmem Hsz Hfit. pose proof (heap_ok_big _ _ H) as Hb. pose proof Hb as [Hbl _]%Forall_app.
  destruct (take_block_spec _ _ _ _ _ _ H Hmem Hsz Hfit) as (h1 & t & r' & E & Ht & Htail & Htk & Hp & Hm & Hlf & Hu & Hmx).
  cbv zeta in *. unfold allocate. rewrite E. cbn [mbind res_bind].
  set (bs := l ++ (s, false) :: r) in *. set (bs' := l ++ (t, true) :: r') in *.
  pose proof Htk as (T1 & T2 & T3 & T4 & T5 & T6).
  assert (Hend : heap_end h1 = heap_end h) by (unfold heap_end; by rewrite Hm).
  destruct (lfree_after_take h h1 l s r t r' H Htk Htail Hend Hlf) as (h2 & -> & (C1 & C2 & C3 & C4) & E2 & Hf2 & Hlow2).
  cbn [mbind res_bind].
  pose proof H as [_ _ _ Hused _ [Hp0 Hp4] Hms Htop].
  pose proof (ho_tail _ _ H) as (pv & Hsg & Htl)%tail_app. rewrite Z.add_0_l in Htl.
  pose proof (proj1 (seg_total _ _ _ _ _ Hsg)) as Hl0. pose proof (seg_mod _ _ _ _ _ Hsg) as Hl4.
  apply tail_cons in Htl as (_ & _ & _ & Htl). apply tail_le in Htl.
  assert (Hend2 : heap_end h2 = heap_end h) by (unfold heap_end; congruence).
  unfold rt_assert, require, SIZEOF_STRUCT_MEM in *. rewrite Hend2, C1, Hp.
  rewrite (proj2 (Z.leb_le _ _)) by lia. rewrite !land3 by lia. cbn [Z.eqb mbind res_bind].
  exists h2. split; [done|]. exists bs', s, t. split_and!; [by apply block_here|unfold SIZEOF_STRUCT_MEM; lia|lia| |done|lia|done|congruence|congruence].
  split; rewrite ?E2, ?Hend2, ?C1, ?C2, ?C3, ?C4, ?Hp, ?Hm; done.
Qed.

Lemma malloc_loop_spec h sz r : ∀ fuel l,
  heap_ok h (l ++ r) → sz mod 4 = 0 → MIN_SIZE_ALIGNED <= sz <= mem_size_aligned h → (length r <= fuel)%nat →
  (malloc_loop fuel sz (total l) h = Ok (h, None) ∧
    ∀ y k, block_at (total l) r y = Some (k, false) → y < mem_size_aligned h - sz → k - SIZEOF_STRUCT_MEM < sz) ∨
  ∃ x h', malloc_loop fuel sz (total l) h = Ok (h', Some (heap_ptr h + x + SIZEOF_STRUCT_MEM)) ∧
    allocated h (l ++ r) sz x h' ∧ total l <= x ∧
    ∀ y k, block_at (total l) r y = Some (k, false) → y < x → k - SIZEOF_STRUCT_MEM < sz.
Proof.
  induction r as [|[s u] r IH]; intros fuel l H Hsz Hmin Hfuel; pose proof (heap_ok_total _ _ H) as Htot;
    pose proof H as [_ _ _ _ _ [Hp0 Hp4] _ Htop]; pose proof (heap_ok_big _ _ H) as Hb;
    unfold heap_end, SIZEOF_STRUCT_MEM, MIN_SIZE_ALIGNED in *;
    assert (Hlim : u32 (mem_size_aligned h - sz) = mem_size_aligned h - sz) by (unfold u32; rewrite Z.mod_small; lia).
  - left. split; [|done]. rewrite app_nil_r in Htot.
    destruct fuel; cbn [malloc_loop]; rewrite Hlim, (proj2 (Z.ltb_ge _ _)) by lia; done.
  - simpl in Hfuel. destruct fuel as [|fuel]; [lia|]. cbn [malloc_loop]. rewrite Hlim.
    pose proof Hb as [Hbl [Hs Hbr]%Forall_cons]%Forall_app. pose proof (total_big _ Hbl). pose proof (total_big _ Hbr).
    rewrite total_app in Htot. simpl in Htot, Hs. unfold SIZEOF_STRUCT_MEM in Hs.
    pose proof (ho_tail _ _ H) as (pv & _ & (_ & _ & Ho & _)%tail_cons)%tail_app. rewrite Z.add_0_l in Ho.
    destruct (Z.ltb_spec (total l) (mem_size_aligned h - sz)) as [Hlt|Hge].
    2: { left. split; [done|]. intros y k Hk Hy. apply block_at_range in Hk; [lia|by constructor]. }
    rewrite (get_hm_ok _ _ _ Ho). cbn [mbind res_bind used next]. unfold SIZEOF_STRUCT_MEM.
    replace (u32 (total l + s - (total l + 12))) with (s - 12) by (unfold u32; rewrite Z.mod_small; lia).
    destruct (bool_decide_reflect (u = false ∧ sz <= s - 12)) as [[-> Hfit]|Hno].
    + cbn [Z.b2z Z.eqb andb]. rewrite (proj2 (Z.leb_le sz (s - 12))) by lia. right.
      destruct (allocate_spec h l s r sz _ H Ho Hsz) as (h' & E & Hal); [unfold MIN_SIZE_ALIGNED, SIZEOF_STRUCT_MEM; lia|].
      exists (total l), h'. split_and!; [exact E|done|lia|].
      intros y k Hk Hy. apply block_at_range in Hk; [lia|by constructor].
    + assert (Ec : (Z.b2z u =? 0) && (sz <=? s - 12) = false).
      { destruct u; [done|]. simpl. apply Z.leb_gt. destruct (Z.lt_ge_cases (s - 12) sz); [done|]. by destruct Hno. }
      rewrite Ec. clear Ec. assert (Hl' : total (l ++ [(s, u)]) = total l + s) by (rewrite total_app; simpl; lia).
      rewrite <- Hl'. assert (Happ : l ++ (s, u) :: r = (l ++ [(s, u)]) ++ r) by (by rewrite <- app_assoc).
      assert (Hskip : ∀ y k, block_at (total l) ((s, u) :: r) y = Some (k, false) →
        k - 12 < sz ∨ block_at (total l + s) r y = Some (k, false)).
      { intros y k. simpl. destruct (y =? total l); [|by right]. intros [= -> ->]. left.
        destruct (Z.lt_ge_cases (k - 12) sz); [done|]. by destruct Hno. }
      rewrite Happ in *. destruct (IH fuel _ H Hsz ltac:(done) ltac:(lia)) as [[E Hall]|(x & h' & E & Hal & Hx & Hall)].
      * left. split; [done|]. intros y k [?|Hk]%Hskip Hy; [done|]. rewrite Hl' in Hall. by apply (Hall y k).
      * right. exists x, h'. split_and!; [done|done|lia|].
        intros y k [?|Hk]%Hskip Hy; [done|]. rewrite Hl' in Hall. by apply (Hall y k).
Qed.

(** The bytes [rt_malloc] really looks for. *)
Definition rounded (size : Z) : Z := Z.max MIN_SIZE_ALIGNED (RT_ALIGN size).

Lemma lfree_split h bs : heap_ok h bs → ∃ l r, bs = l ++ r ∧ lfree h = total l.
Proof.
  intros H. destruct (ho_lfree _ _ H) as [E|[s Hs]].
  - exists bs, []. by rewrite app_nil_r.
  - apply block_at_split in Hs as (l & r & E & Hx). exists l, ((s, false) :: r). split; [done|lia].
Qed.

(** On a well-formed heap [rt_malloc] either takes the first free block at or
    above [lfree] that is large enough, or returns null, and then no free block
    from [lfree] up to [mem_size_aligned - size] is. *)
Lemma rt_malloc_cases h bs size :
  heap_ok h bs → 0 < size <= 4294967292 →
  (rt_malloc 0 size h = Ok (h, None) ∧
    ∀ y k, block_at 0 bs y = Some (k, false) → lfree h <= y → y < mem_size_aligned h - rounded size →
      k - SIZEOF_STRUCT_MEM < rounded size) ∨
  ∃ x h', rt_malloc 0 size h = Ok (h', Some (heap_ptr h + x + SIZEOF_STRUCT_MEM)) ∧
    allocated h bs (rounded size) x h' ∧ lfree h <= x ∧
    ∀ y k, block_at 0 bs y = Some (k, false) → lfree h <= y → y < x → k - SIZEOF_STRUCT_MEM < rounded size.
Proof.
  intros H Hsize. destruct (lfree_split _ _ H) as (l & r & -> & Hlf).
  pose proof (heap_ok_total _ _ H) as Htot. pose proof (heap_ok_big _ _ H) as Hb. pose proof Hb as [Hbl Hbr]%Forall_app.
  pose proof (ho_size _ _ H) as [Hms _].
  unfold rt_malloc, not_in_interrupt, rt_assert, require. cbn [Z.eqb mbind res_bind].
  rewrite (proj2 (Z.eqb_neq size 0)) by lia.
  pose proof (align_val size ltac:(lia)) as Hal.
  assert (Hskip : ∀ y k, block_at 0 (l ++ r) y = Some (k, false) → total l <= y → block_at (total l) r y = Some (k, false)).
  { intros y k Hk Hy. rewrite block_at_app, Z.add_0_l in Hk. destruct (block_at 0 l y) as [[s1 u1]|] eqn:E; [|done].
    apply block_at_range in E; [|done]. unfold SIZEOF_STRUCT_MEM in E. lia. }
  destruct (Z.ltb_spec (mem_size_aligned h) (RT_ALIGN size)) as [Hbig|Hok].
  - left. split; [done|]. intros y k Hk _ _. apply block_at_range in Hk; [|done].
    unfold rounded, heap_end, SIZEOF_STRUCT_MEM, MIN_SIZE_ALIGNED in *. lia.
  - assert (Hr : (if RT_ALIGN size <? MIN_SIZE_ALIGNED then MIN_SIZE_ALIGNED else RT_ALIGN size) = rounded size).
    { unfold rounded. destruct (Z.ltb_spec (RT_ALIGN size) MIN_SIZE_ALIGNED); lia. }
    rewrite Hr, Hlf.
    destruct (malloc_loop_spec h (rounded size) r (base.size (headers h)) l H) as [[E Hall]|(x & h' & E & Ha & Hx & Hall)].
    + unfold rounded. rewrite Hal. unfold MIN_SIZE_ALIGNED. lia.
    + unfold rounded. lia.
    + pose proof (tail_length _ _ _ _ _ (ho_tail _ _ H)) as Hlen. rewrite length_app in Hlen. lia.
    + left. split; [done|]. intros y k Hk Hy1 Hy2. by apply (Hall y k); [apply Hskip|].
    + right. exists x, h'. split_and!; [done|done|done|]. intros y k Hk Hy1 Hy2. by apply (Hall y k); [apply Hskip|].
Qed.
