(* ===== verification/HeapProps.v ===== *)
(** * Properties of the small-memory heap

    What [rt_malloc], [rt_free] and [rt_realloc] (Heap.v) promise a client, for one
    call and for every sequence of calls, and where they fall short. *)
From S2P Require Import Prelude KMemory Heap.
Local Open Scope Z_scope.

(** The address of the data of the block at offset [x]. *)
Definition data_of (h : heap) (x : Z) : Z := heap_ptr h + x + SIZEOF_STRUCT_MEM.

(** ** [rt_realloc] *)

(** The data memory behind a heap. *)
Record heap_mapped (h : heap) (m : gmap Z Z) : Prop := {
  hm_bytes : bytes_ok m;
  hm_mapped : mapped m (heap_ptr h) (heap_end h);
  hm_small : mem_size_aligned h < 2147483648 }.

Lemma heap_mapped_keeps h h' m m' :
  heap_ptr h' = heap_ptr h → mem_size_aligned h' = mem_size_aligned h → keeps m m' → heap_mapped h m → heap_mapped h' m'.
Proof.
  intros Hp Hs [Hk1 Hk2] [Hb Hm Hl]. split; [auto| |by rewrite Hs]. unfold heap_end. rewrite Hp, Hs. auto.
Qed.

(** The outcome of moving the block at [x] of [t] bytes to one of at least
    [n] data bytes: the data is kept and no other block is touched. *)
Definition moved (h : heap) (bs : list block) (m : gmap Z Z) (x t n : Z) (h' : heap) (m' : gmap Z Z) (a : Z) : Prop :=
  ∃ bs' y t', a = data_of h y ∧ (∀ k, live bs y k → y = x) ∧ heap_ok h' bs' ∧ n + SIZEOF_STRUCT_MEM <= t' ∧
    (∀ z k, live bs' z k ↔ live bs z k ∧ z ≠ x ∨ z = y ∧ k = t') ∧
    (∀ i, 0 <= i < Z.min (t - SIZEOF_STRUCT_MEM) n → m' !! (a + i) = m !! (data_of h x + i)) ∧
    (∀ z k i, live bs z k → z ≠ x → 0 <= i < k - SIZEOF_STRUCT_MEM → m' !! (data_of h z + i) = m !! (data_of h z + i)) ∧
    heap_mapped h' m' ∧ heap_ptr h' = heap_ptr h ∧ mem_size_aligned h' = mem_size_aligned h.

(** Cutting [t] bytes off a block in use and freeing the rest. *)
Lemma cut_live l s t r x k : big (l ++ (s, true) :: r) → SIZEOF_STRUCT_MEM < t → SIZEOF_STRUCT_MEM < s - t →
  let bs' := (l ++ [(t, true)]) ++ (s - t, false) :: r in
  (live bs' x k ↔ live (l ++ (s, true) :: r) x k ∧ x ≠ total l ∨ x = total l ∧ k = t) ∧
  (free_at (l ++ (s, true) :: r) x → free_at bs' x).
Proof.
  intros Hb Ht Hst. cbv zeta. rewrite <- app_assoc. cbn [app].
  pose proof Hb as [Hl [_ Hr]%Forall_cons]%Forall_app.
  assert (Hs : l ++ (s, true) :: r = l ++ (t + (s - t), true) :: r) by (by replace (t + (s - t)) with s by lia).
  assert (Hmid : block_at 0 (l ++ (s, true) :: r) (total l + t) = None).
  { apply inside_block_at; [done|done|unfold SIZEOF_STRUCT_MEM in *; lia]. }
  assert (Hb2 : ∀ y, block_at 0 (l ++ (t, true) :: (s - t, false) :: r) y =
    if y =? total l then Some (t, true) else if y =? total l + t then Some (s - t, false)
    else block_at 0 (l ++ (s, true) :: r) y).
  { intros y. rewrite split_block_at by done. destruct (Z.eqb_spec y (total l)) as [->|Hy]; [done|].
    destruct (y =? total l + t); [done|]. replace (t + (s - t)) with s by lia.
    rewrite (set_block_at l s true false r) by done. by rewrite (proj2 (Z.eqb_neq _ _) Hy). }
  split.
  - unfold live. rewrite Hb2. destruct (Z.eqb_spec x (total l)) as [->|]; [intuition congruence|].
    destruct (Z.eqb_spec x (total l + t)) as [->|]; [rewrite Hmid|]; intuition congruence.
  - intros [->|[j Hj]]; [left; rewrite !total_app; simpl; lia|]. right. rewrite Hb2.
    destruct (Z.eqb_spec x (total l)) as [->|]; [rewrite block_here in Hj by done; done|].
    destruct (x =? total l + t); eauto.
Qed.

Lemma realloc_shrink h bs m x t n :
  heap_ok h bs → heap_mapped h m → live bs x t → n mod 4 = 0 → 0 < n → n + 24 < t - SIZEOF_STRUCT_MEM →
  ∃ h', rt_realloc 0 (Some (data_of h x)) n m h = Ok (h', m, Some (data_of h x)) ∧ moved h bs m x t n h' m (data_of h x).
Proof.
  intros H Hm Hx Hn4 Hn0 Hn. pose proof (live_range _ _ _ _ H Hx) as (Hx0 & Hxe & Hs & Hx4).
  pose proof (heap_ok_big _ _ H) as Hb. pose proof (heap_ok_total _ _ H) as Htot.
  pose proof H as [Ht Ha Hf Hu Hmax [Hp0 Hp4] [Hms Hms4] Htop]. pose proof (used_total_range _ Hb) as Hur.
  unfold rt_realloc, not_in_interrupt, rt_assert, require. cbn [Z.eqb mbind res_bind].
  unfold data_of, heap_end, SIZEOF_STRUCT_MEM in *.
  assert (Hal : RT_ALIGN n = n) by (rewrite align_val by lia; lia). rewrite Hal.
  rewrite (proj2 (Z.ltb_ge (mem_size_aligned h) n)) by lia.
  rewrite (proj2 (Z.ltb_ge (heap_ptr h + x + 12) (heap_ptr h))) by lia.
  rewrite (proj2 (Z.leb_gt (heap_ptr h + (mem_size_aligned h + 12)) (heap_ptr h + x + 12))) by lia. cbn [orb].
  replace (heap_ptr h + x + 12 - heap_ptr h - 12) with x by lia.
  apply block_at_split in Hx as Hx'. destruct Hx' as (l & r & -> & Ex). rewrite Z.add_0_l in Ex. subst x.
  pose proof Ht as (pv & _ & (_ & Ht4 & Ho & _)%tail_cons)%tail_app. rewrite Z.add_0_l in Ho.
  rewrite (get_hm_ok _ _ _ Ho). cbn [mbind res_bind next]. replace (total l + t - total l - 12) with (t - 12) by lia.
  rewrite (proj2 (Z.eqb_neq (t - 12) n)) by lia. rewrite (proj2 (Z.ltb_lt _ _)) by (unfold MIN_SIZE; lia).
  set (h0 := unaccount (t - 12 - n) h).
  destruct (tail_cut h0 l t true r (n + 12) true false _ Ht Ho) as (m' & E & Ht'); [unfold SIZEOF_STRUCT_MEM; lia..|lia|].
  cbn [next prev Z.b2z] in E. replace (total l + 12 + n) with (total l + (n + 12)) by lia.
  unfold with_next. cbn [magic used prev Z.b2z]. set (h2 := put_hm (total l) _ _) in *.
  unfold heap_end, SIZEOF_STRUCT_MEM in E. change (mem_size_aligned h2) with (mem_size_aligned h0).
  rewrite E. cbn [mbind res_bind].
  pose proof Hb as [Hbl [_ Hbr]%Forall_cons]%Forall_app.
  pose proof (used_total_range _ Hbl). pose proof (used_total_range _ Hbr).
  apply no_adj_app in Ha as [Hal' Har']. simpl in Har'. destruct Har' as [_ Har'].
  replace (total l + (n + 12)) with (total (l ++ [(n + 12, true)])) by (rewrite total_app; simpl; lia).
  destruct (plug_holes_spec (set_headers m' h2) (l ++ [(n + 12, true)]) (t - (n + 12)) r)
    as (h' & bs' & -> & (C1 & C2 & C3 & C4) & Htl & Ha' & Hf' & _ & Hu' & Hlive).
  { rewrite <- app_assoc. exact Ht'. }
  { clear -Hal'. induction l as [|[s0 u0] l IH]; simpl in *; [by split|]. destruct Hal' as [H0 Hl]. split; [|auto].
    intros Hu. specialize (H0 Hu). by destruct l as [|[? []] ?]. }
  { done. }
  { apply (proj2 (cut_live l t (n + 12) r _ 0 Hb ltac:(unfold SIZEOF_STRUCT_MEM; lia) ltac:(unfold SIZEOF_STRUCT_MEM; lia)) Hf). }
  cbn [mbind res_bind]. rewrite used_total_set in Hu, Hur. rewrite used_total_set, used_total_app in Hu'. cbv iota in *.
  simpl in Hu', C3. assert (Hum : u32 (used_mem h - (t - 12 - n)) = used_mem h - (t - 12 - n)).
  { unfold u32. rewrite Z.mod_small; [done|]. lia. }
  rewrite Hum in C3. simpl in C1, C2, C4.
  assert (Hend' : heap_end h' = heap_end h) by (unfold heap_end; by rewrite C2).
  exists h'. split; [done|]. exists bs', (total l), (n + 12). unfold data_of, SIZEOF_STRUCT_MEM in *. split_and!.
  - done.
  - done.
  - split; rewrite ?Hend', ?C1, ?C2, ?C3, ?C4; unfold SIZEOF_STRUCT_MEM, heap_end in *; try done; lia.
  - lia.
  - intros z k. rewrite Hlive. apply (cut_live l t (n + 12) r); [done|unfold SIZEOF_STRUCT_MEM; lia..].
  - done.
  - done.
  - by apply (heap_mapped_keeps h h' m m C1 C2 (keeps_refl m)).
  - done.
  - done.
Qed.

(** [RT_ALIGN] of a request: no smaller, a multiple of 4, and fixed by a
    second [RT_ALIGN] (as [rt_realloc] does before calling [rt_malloc]). *)
Lemma align_facts n : 0 < n <= 4294967292 →
  n <= RT_ALIGN n ∧ RT_ALIGN n mod 4 = 0 ∧ 0 < RT_ALIGN n <= 4294967292 ∧ RT_ALIGN (RT_ALIGN n) = RT_ALIGN n.
Proof.
  intros Hn. assert (E : RT_ALIGN n = (n + 3) / 4 * 4) by (apply align_val; lia).
  assert (E2 : RT_ALIGN (RT_ALIGN n) = (RT_ALIGN n + 3) / 4 * 4) by (apply align_val; lia). lia.
Qed.

(** The blocks of a heap are separate: two live blocks, or a live and a free one. *)
Lemma blocks_disjoint bs x s u y t v : big bs →
  block_at 0 bs x = Some (s, u) → block_at 0 bs y = Some (t, v) → x ≠ y → x + s <= y ∨ y + t <= x.
Proof.
  intros Hb Hx Hy Hne. destruct (Z.lt_total x y) as [?|[?|?]]; [left|done|right]; by eapply blocks_apart.
Qed.

Lemma realloc_move h bs m x t n :
  heap_ok h bs → heap_mapped h m → live bs x t → 0 < n <= 4294967292 → RT_ALIGN n = n →
  mem_size_aligned h >= n → t - SIZEOF_STRUCT_MEM ≠ n → ¬ n + 24 < t - SIZEOF_STRUCT_MEM →
  ∃ h' m' p, rt_realloc 0 (Some (data_of h x)) n m h = Ok (h', m', p) ∧
    match p with None => h' = h ∧ m' = m | Some a => moved h bs m x t n h' m' a end.
Proof.
  intros H Hm Hx Hn Hal Hms Hne Hno. pose proof (live_range _ _ _ _ H Hx) as (Hx0 & Hxe & Hs & Hx4).
  pose proof (heap_ok_big _ _ H) as Hb. pose proof H as [Ht _ _ _ _ [Hp0 Hp4] _ Htop].
  unfold rt_realloc, not_in_interrupt, rt_assert, require. cbn [Z.eqb mbind res_bind]. rewrite Hal.
  unfold heap_end, data_of, SIZEOF_STRUCT_MEM in *. rewrite (proj2 (Z.ltb_ge (mem_size_aligned h) n)) by lia.
  rewrite (proj2 (Z.ltb_ge (heap_ptr h + x + 12) (heap_ptr h))) by lia.
  rewrite (proj2 (Z.leb_gt (heap_ptr h + (mem_size_aligned h + 12)) (heap_ptr h + x + 12))) by lia. cbn [orb].
  replace (heap_ptr h + x + 12 - heap_ptr h - 12) with x by lia.
  pose proof Hx as (l & r & -> & Ex)%block_at_split. rewrite Z.add_0_l in Ex. subst x.
  pose proof Ht as (pv & _ & (_ & Ht4 & Ho & _)%tail_cons)%tail_app. rewrite Z.add_0_l in Ho.
  rewrite (get_hm_ok _ _ _ Ho). cbn [mbind res_bind next]. replace (total l + t - total l - 12) with (t - 12) by lia.
  rewrite (proj2 (Z.eqb_neq (t - 12) n)) by lia. rewrite (proj2 (Z.ltb_ge _ _)) by (unfold MIN_SIZE; lia).
  set (bs := l ++ (t, true) :: r) in *. set (x := total l) in *.
  destruct (rt_malloc_cases h bs n H Hn) as [[-> _]|(y & h1 & -> & (bs1 & s1 & t1 & Hy & Ht1 & H1 & Hlive1 & _ & _ & Hp1 & Hs1) & _)].
  { cbn [mbind res_bind]. by exists h, m, None. }
  cbn [mbind res_bind]. unfold rounded, SIZEOF_STRUCT_MEM in *. rewrite Hal in Ht1.
  pose proof (block_at_range _ _ _ _ _ Hb Hy) as (Hy0 & Hye & _). rewrite (heap_ok_total _ _ H) in Hye. unfold heap_end, SIZEOF_STRUCT_MEM in Hye.
  assert (Hxy : x ≠ y) by (intros ->; unfold live in Hx; congruence).
  pose proof (blocks_disjoint bs x t true y s1 false Hb Hx Hy Hxy) as Hdis.
  set (count := if t - 12 <? n then t - 12 else n). assert (Hcount : count = Z.min (t - 12) n)
    by (unfold count; destruct (Z.ltb_spec (t - 12) n); lia).
  destruct Hm as [Hmb Hmm Hml]. unfold heap_end, SIZEOF_STRUCT_MEM in Hmm.
  destruct (rt_memcpy_copied m (heap_ptr h + y + 12) (heap_ptr h + x + 12) count) as (m' & -> & Hcp & Hk);
    [lia|done|apply (mapped_sub m _ _ _ _ Hmm); lia|apply (mapped_sub m _ _ _ _ Hmm); lia|lia|].
  cbn [mbind res_bind].
  destruct (rt_free_live h1 bs1 x t H1) as (h2 & bs2 & E & H2 & Hlive2 & _ & _ & Hp2 & Hs2); [by apply Hlive1; left|].
  rewrite Hp1 in E. unfold SIZEOF_STRUCT_MEM in E. rewrite E. cbn [mbind res_bind].
  eexists h2, m', _. split; [done|]. exists bs2, y, t1. unfold data_of, SIZEOF_STRUCT_MEM. split_and!.
  - done.
  - intros k Hlk. unfold live in Hlk. congruence.
  - done.
  - lia.
  - intros z k. rewrite Hlive2, Hlive1. intuition congruence.
  - intros i Hi. rewrite Hcp, decide_True by lia. f_equal. lia.
  - intros z k i Hz Hzx Hi. rewrite Hcp, decide_False; [done|].
    assert (Hzy : z ≠ y) by (intros ->; unfold live in Hz; congruence).
    pose proof (blocks_disjoint bs z k true y s1 false Hb Hz Hy Hzy). lia.
  - apply (heap_mapped_keeps h h2 m m'); [congruence|congruence|done|]. by split.
  - congruence.
  - congruence.
Qed.

Lemma moved_weaken h bs m x t n n' h' m' a : n <= n' → moved h bs m x t n' h' m' a → moved h bs m x t n h' m' a.
Proof.
  intros Hn (bs' & y & t' & ? & ? & ? & ? & ? & Hd & ? & ? & ? & ?). exists bs', y, t'. split_and!; try done; [lia|].
  intros i Hi. apply Hd. lia.
Qed.

Lemma realloc_same h bs m x t n :
  heap_ok h bs → heap_mapped h m → live bs x t → RT_ALIGN n = n → n <= mem_size_aligned h → t - SIZEOF_STRUCT_MEM = n →
  rt_realloc 0 (Some (data_of h x)) n m h = Ok (h, m, Some (data_of h x)) ∧ moved h bs m x t n h m (data_of h x).
Proof.
  intros H Hm Hx Hal Hms Heq. pose proof (live_range _ _ _ _ H Hx) as (Hx0 & Hxe & Hs & Hx4). split.
  - unfold rt_realloc, not_in_interrupt, rt_assert, require. cbn [Z.eqb mbind res_bind]. rewrite Hal.
    unfold heap_end, data_of, SIZEOF_STRUCT_MEM in *. rewrite (proj2 (Z.ltb_ge (mem_size_aligned h) n)) by lia.
    rewrite (proj2 (Z.ltb_ge (heap_ptr h + x + 12) (heap_ptr h))) by lia.
    rewrite (proj2 (Z.leb_gt (heap_ptr h + (mem_size_aligned h + 12)) (heap_ptr h + x + 12))) by lia. cbn [orb].
    replace (heap_ptr h + x + 12 - heap_ptr h - 12) with x by lia.
    pose proof Hx as (l & r & -> & Ex)%block_at_split. rewrite Z.add_0_l in Ex. subst x.
    pose proof (ho_tail _ _ H) as (pv & _ & (_ & _ & Ho & _)%tail_cons)%tail_app. rewrite Z.add_0_l in Ho.
    rewrite (get_hm_ok _ _ _ Ho). cbn [mbind res_bind next]. by rewrite (proj2 (Z.eqb_eq _ _)) by lia.
  - exists bs, x, t. split_and!; try done; [lia|].
    intros z k. destruct (Z.eq_dec z x) as [->|]; [unfold live in *; rewrite Hx|]; intuition congruence.
Qed.

Lemma rt_realloc_cases h bs m x t newsize :
  heap_ok h bs → heap_mapped h m → live bs x t → 0 < newsize <= 4294967292 →
  ∃ h' m' p, rt_realloc 0 (Some (data_of h x)) newsize m h = Ok (h', m', p) ∧
    match p with
    | None => h' = h ∧ m' = m
    | Some a => moved h bs m x t newsize h' m' a
    end.
Proof.
  intros H Hm Hx Hn. destruct (align_facts _ Hn) as (Ha1 & Ha4 & Ha0 & Ha2).
  replace (rt_realloc 0 (Some (data_of h x)) newsize m h) with (rt_realloc 0 (Some (data_of h x)) (RT_ALIGN newsize) m h)
    by (unfold rt_realloc; by rewrite Ha2).
  pose proof (λ h' m' a, moved_weaken h bs m x t _ _ h' m' a Ha1) as Hweak.
  destruct (Z.lt_ge_cases (mem_size_aligned h) (RT_ALIGN newsize)) as [Hbig|Hfit].
  { exists h, m, None. split; [|done]. unfold rt_realloc. rewrite Ha2. simpl. by rewrite (proj2 (Z.ltb_lt _ _) Hbig). }
  destruct (Z.eq_dec (t - SIZEOF_STRUCT_MEM) (RT_ALIGN newsize)) as [Heq|Hne].
  { destruct (realloc_same h bs m x t _ H Hm Hx Ha2 Hfit Heq) as [E Hmv]. eexists _, _, (Some _). eauto. }
  destruct (Z_lt_dec (RT_ALIGN newsize + 24) (t - SIZEOF_STRUCT_MEM)) as [Hs|Hs].
  - destruct (realloc_shrink h bs m x t (RT_ALIGN newsize) H Hm Hx Ha4 ltac:(lia) Hs) as (h' & E & Hmv). eexists _, _, (Some _). eauto.
  - destruct (realloc_move h bs m x t (RT_ALIGN newsize) H Hm Hx Ha0 Ha2 ltac:(lia) Hne Hs) as (h' & m' & p & E & Hmv).
    exists h', m', p. split; [done|]. destruct p; [by apply Hweak|done].
Qed.

(** ** The properties of one call *)

(** On a well-formed heap whose [lfree] is the lowest free block,
    [rt_malloc] terminates without failing an assertion.  When it returns an
    address, that is the data of a former free block, 4-aligned, at least
    [size] bytes long and disjoint from every block in use; it is the first
    such block; the rest of the heap is unchanged and the invariant holds
    again.  When it returns null nothing changed and no free block below the
    last [size] bytes was large enough. *)
Theorem rt_malloc_spec h bs size :
  heap_ok h bs → lowest bs (lfree h) → 0 < size <= 4294967292 →
  (rt_malloc 0 size h = Ok (h, None) ∧
    ∀ y k, block_at 0 bs y = Some (k, false) → y < mem_size_aligned h - rounded size →
      k - SIZEOF_STRUCT_MEM < rounded size) ∨
  ∃ x h' bs' t, rt_malloc 0 size h = Ok (h', Some (data_of h x)) ∧
    data_of h x mod 4 = 0 ∧ size + SIZEOF_STRUCT_MEM <= t ∧
    (∀ y k, live bs y k → x + t <= y ∨ y + k <= x) ∧
    (∀ y k, block_at 0 bs y = Some (k, false) → y < x → k - SIZEOF_STRUCT_MEM < rounded size) ∧
    heap_ok h' bs' ∧ lowest bs' (lfree h') ∧ (∀ y k, live bs' y k ↔ live bs y k ∨ y = x ∧ k = t) ∧
    used_mem h' = used_mem h + t.
Proof.
  intros H Hlow Hsize. destruct (align_facts _ Hsize) as (Ha & _).
  destruct (rt_malloc_cases h bs size H Hsize) as [[E Hall]|(x & h' & E & (bs' & s & t & Hx & Ht & H' & Hlive & Hu & Hl & _) & Hlx & Hall)].
  - left. split; [done|]. intros y k Hk Hy. by apply (Hall y k), Hy; [|apply (Hlow y k)].
  - right. pose proof (heap_ok_big _ _ H) as Hb.
    assert (Hx' : live bs' x t) by (by apply Hlive; right). pose proof (live_range _ _ _ _ H' Hx') as (_ & _ & _ & Hx4).
    pose proof (ho_base _ _ H) as [_ Hp4].
    exists x, h', bs', t. split_and!; try done.
    + unfold data_of, SIZEOF_STRUCT_MEM. lia.
    + unfold rounded in Ht. lia.
    + intros y k Hy. assert (x ≠ y) by (intros ->; unfold live in Hy; congruence).
      pose proof (blocks_disjoint bs x s false y k true Hb Hx Hy). lia.
    + intros y k Hk Hy. by apply (Hall y k), Hy; [|apply (Hlow y k)].
    + by apply Hl.
Qed.

(** Freeing a block in use never fails an assertion, joins it with its free
    neighbours (no two free blocks are adjacent afterwards), leaves every other
    block in use alone, subtracts its size from [used_mem] and keeps the
    invariant with [lfree] the lowest free block. *)
Theorem rt_free_spec h bs x s :
  heap_ok h bs → lowest bs (lfree h) → live bs x s →
  ∃ h' bs', rt_free 0 (Some (data_of h x)) h = Ok h' ∧ heap_ok h' bs' ∧ lowest bs' (lfree h') ∧
    (∀ y t, live bs' y t ↔ live bs y t ∧ y ≠ x) ∧ used_mem h' = used_mem h - s.
Proof.
  intros H Hlow Hx. destruct (rt_free_live h bs x s H Hx) as (h' & bs' & E & H' & Hlive & Hu & Hl & _).
  exists h', bs'. split_and!; [done|done|by apply Hl|done|done].
Qed.

(** [rt_realloc] of a live block never fails an assertion.  It returns null
    and changes nothing, or returns a block of at least the new size that
    starts with the old data, cut to the new size; every other live block
    keeps its place, size and contents, the old block is released when the
    data moved, and the heap stays well formed. *)
Theorem rt_realloc_spec h bs m x t newsize :
  heap_ok h bs → heap_mapped h m → live bs x t → 0 < newsize <= 4294967292 →
  ∃ h' m' p, rt_realloc 0 (Some (data_of h x)) newsize m h = Ok (h', m', p) ∧
    match p with
    | None => h' = h ∧ m' = m
    | Some a => moved h bs m x t newsize h' m' a
    end.
Proof. apply rt_realloc_cases. Qed.

(** ** A fresh heap *)
Lemma heap_init_ok b e h : 0 <= b <= 4294967292 → 0 <= e < 4294967296 →
  rt_system_heap_init 0 b e = Ok (Some h) → MIN_SIZE_ALIGNED <= mem_size_aligned h →
  heap_ok h [(heap_end h, false)] ∧ lfree h = 0 ∧ b <= heap_ptr h ∧ heap_ptr h + heap_end h <= e.
Proof.
  intros Hb He. unfold rt_system_heap_init. cbn [not_in_interrupt rt_assert require Z.eqb mbind res_bind].
  destruct (_ && _) eqn:Ec; [|done]. intros [= <-] Hms. apply andb_true_iff in Ec as [E1 E2].
  apply Z.ltb_lt in E1. apply Z.leb_le in E2. unfold SIZEOF_STRUCT_MEM in *. cbn [mem_size_aligned] in Hms.
  rewrite align_val in * by lia. rewrite align_down_val in * by lia. unfold MIN_SIZE_ALIGNED in Hms.
  unfold heap_end. cbn [mem_size_aligned headers lfree used_mem max_mem heap_ptr].
  split; [|unfold SIZEOF_STRUCT_MEM; lia].
  split; unfold heap_end; cbn [mem_size_aligned headers lfree used_mem max_mem heap_ptr].
  - set (n := _ + SIZEOF_STRUCT_MEM). assert (Hn : 12 < n ∧ n mod 4 = 0) by (unfold n, SIZEOF_STRUCT_MEM; lia).
    apply tail_cons. unfold SIZEOF_STRUCT_MEM. split_and!; [lia|lia| |].
    + rewrite lookup_insert_ne by (unfold n, SIZEOF_STRUCT_MEM in *; lia). by rewrite lookup_singleton_eq.
    + split_and!; [simpl; lia|by exists 0|]. eexists. by rewrite lookup_insert_eq.
  - split; [by intros _ ?|done].
  - right. simpl. eauto.
  - done.
  - done.
  - lia.
  - unfold MIN_SIZE_ALIGNED. lia.
  - unfold SIZEOF_STRUCT_MEM. lia.
Qed.

(** ** Any sequence of calls

    A client that keeps the addresses it was given with the sizes it asked for,
    and only frees or resizes those. *)
Inductive heap_op :=
  | HMalloc (size : Z)
  | HFree (i : nat)
  | HRealloc (i : nat) (size : Z).

Definition client : Type := heap * gmap Z Z * list (Z * Z).

Definition heap_do (op : heap_op) (c : client) : res client :=
  let '(h, m, out) := c in
  match op with
  | HMalloc size => '(h, p) ← rt_malloc 0 size h;
      Ok (h, m, match p with Some a => (a, size) :: out | None => out end)
  | HFree i => match out !! i with
      | Some (a, _) => h ← rt_free 0 (Some a) h; Ok (h, m, delete i out)
      | None => Ok c
      end
  | HRealloc i size => match out !! i with
      | Some (a, _) => '(h, m, p) ← rt_realloc 0 (Some a) size m h;
          Ok (h, m, match p with Some a => <[i := (a, size)]> out | None => out end)
      | None => Ok c
      end
  end.

Fixpoint heap_run (ops : list heap_op) (c : client) : res client :=
  match ops with
  | [] => Ok c
  | op :: ops => c ← heap_do op c; heap_run ops c
  end.

Definition op_ok (op : heap_op) : Prop :=
  match op with
  | HMalloc size | HRealloc _ size => 0 < size <= 4294967292
  | HFree _ => True
  end.

(** The client's blocks are exactly the blocks in use, [L] of them; the data of the
    block at [x] is at [D x], behind a header of [header] bytes. *)
Definition owns (D : Z → Z) (header : Z) (L : Z → Z → Prop) (out : list (Z * Z)) : Prop :=
  NoDup out.*1 ∧ (∀ x t, L x t → D x ∈ out.*1) ∧
  ∀ a n, (a, n) ∈ out → ∃ x t, L x t ∧ a = D x ∧ n + header <= t.

Record client_ok (h : heap) (m : gmap Z Z) (bs : list block) (out : list (Z * Z)) : Prop := {
  cl_heap : heap_ok h bs;
  cl_mem : heap_mapped h m;
  cl_owns : owns (data_of h) SIZEOF_STRUCT_MEM (live bs) out }.

#[global] Instance owns_perm D hd L : Proper ((≡ₚ) ==> iff) (owns D hd L).
Proof.
  assert (Hi : ∀ o o', o ≡ₚ o' → owns D hd L o → owns D hd L o').
  { intros o o' Ho (H1 & H2 & H3). split_and!; [by rewrite <- Ho| |].
    - intros x t Hx. rewrite <- Ho. by apply (H2 x t).
    - intros a n Ha. rewrite <- Ho in Ha. by apply H3. }
  intros o o' Ho. split; by apply Hi.
Qed.

Lemma data_of_inj h x y : data_of h x = data_of h y → x = y.
Proof. unfold data_of. lia. Qed.
Lemma data_of_same h h' : heap_ptr h' = heap_ptr h → ∀ y, data_of h' y = data_of h y.
Proof. intros Hp y. unfold data_of. by rewrite Hp. Qed.

(** Giving out a block, and taking one back. *)
Lemma owns_cons D D' hd (L L' : Z → Z → Prop) out x t n :
  (∀ y, D' y = D y) → (∀ y z, D y = D z → y = z) → owns D hd L out → (∀ k, ¬ L x k) → n + hd <= t →
  (∀ y k, L' y k ↔ L y k ∨ y = x ∧ k = t) → owns D' hd L' ((D x, n) :: out).
Proof.
  intros Hd Hinj (H1 & H2 & H3) Hx Hn Hl. split_and!.
  - rewrite fmap_cons. apply NoDup_cons. split; [|done]. intros ([a k] & Ea & Hin)%list_elem_of_fmap.
    destruct (H3 _ _ Hin) as (y & t' & Hy & -> & _). simpl in Ea. apply Hinj in Ea as ->. by apply (Hx t').
  - intros y k [Hy|[-> ->]]%Hl; rewrite Hd, fmap_cons; [by right; apply (H2 y k)|by left].
  - intros a k [[= -> ->]|Hin]%elem_of_cons.
    + exists x, t. split_and!; [by apply Hl; right|by rewrite Hd|done].
    + destruct (H3 _ _ Hin) as (y & t' & Hy & -> & ?). exists y, t'. split_and!; [by apply Hl; left|by rewrite Hd|done].
Qed.

Lemma owns_uncons D D' hd (L L' : Z → Z → Prop) out x n :
  (∀ y, D' y = D y) → (∀ y z, D y = D z → y = z) → owns D hd L ((D x, n) :: out) →
  (∀ y k, L' y k ↔ L y k ∧ y ≠ x) → owns D' hd L' out.
Proof.
  intros Hd Hinj (H1 & H2 & H3) Hl.
  rewrite fmap_cons in H1, H2. apply NoDup_cons in H1 as [Hx H1]. simpl in Hx. split_and!.
  - done.
  - intros y k [Hy Hne]%Hl. apply H2 in Hy. rewrite Hd. apply elem_of_cons in Hy as [E|?]; [|done]. by apply Hinj in E.
  - intros a k Hin. destruct (H3 a k) as (y & t' & Hy & -> & ?); [by right|]. exists y, t'.
    split_and!; [|by rewrite Hd|done]. apply Hl. split; [done|]. intros ->. apply Hx.
    apply list_elem_of_fmap. by exists (D x, k).
Qed.

Lemma insert_perm (out : list (Z * Z)) i p q : out !! i = Some p → <[i := q]> out ≡ₚ q :: delete i out.
Proof.
  intros Hi. pose proof (lookup_lt_Some _ _ _ Hi) as Hlt.
  rewrite (delete_Permutation (<[i := q]> out) i q) by (by apply list_lookup_insert_eq).
  rewrite !delete_take_drop, take_insert_ge, drop_insert_lt by lia. done.
Qed.

Lemma heap_do_ok op h m out bs : client_ok h m bs out → op_ok op →
  ∃ h' m' out' bs', heap_do op (h, m, out) = Ok (h', m', out') ∧ client_ok h' m' bs' out' ∧
    heap_ptr h' = heap_ptr h ∧ mem_size_aligned h' = mem_size_aligned h.
Proof.
  intros [H Hm Ho] Hop. assert (Hown : ∀ i a n, out !! i = Some (a, n) → out ≡ₚ (a, n) :: delete i out ∧ ∃ x t, live bs x t ∧ a = data_of h x).
  { intros i a n Hi. split; [by apply delete_Permutation|]. apply list_elem_of_lookup_2 in Hi.
    destruct Ho as (_ & _ & H3). destruct (H3 _ _ Hi) as (x & t & ? & ? & _). eauto. }
  destruct op as [size|i|i size]; simpl in Hop |- *.
  - destruct (align_facts _ Hop) as (Ha & _).
    destruct (rt_malloc_cases h bs size H Hop) as [[-> _]|(x & h' & -> & (bs' & s & t & Hx & Ht & H' & Hl & _ & _ & Hp & Hs) & _)];
      cbn [mbind res_bind]; [by eauto 10 using Build_client_ok|].
    exists h', m, ((data_of h x, size) :: out), bs'. split_and!; [done| |done|done]. split; [done|by apply (heap_mapped_keeps h h' m m)|].
    apply (owns_cons (data_of h) (data_of h') _ (live bs) (live bs') out x t size (data_of_same h h' Hp) (data_of_inj h) Ho); [|unfold rounded in Ht; lia|done].
    intros k Hk. unfold live in Hk. congruence.
  - destruct (out !! i) as [[a n]|] eqn:Hi; [|by eauto 10 using Build_client_ok].
    destruct (Hown _ _ _ Hi) as (Hperm & x & t & Hx & ->). rewrite Hperm in Ho.
    destruct (rt_free_live h bs x t H Hx) as (h' & bs' & E & H' & Hl & _ & _ & Hp & Hs). unfold data_of. rewrite E. cbn [mbind res_bind].
    exists h', m, (delete i out), bs'. split_and!; [done| |done|done]. split; [done|by apply (heap_mapped_keeps h h' m m)|].
    by apply (owns_uncons (data_of h) (data_of h') _ (live bs) (live bs') _ x n (data_of_same h h' Hp) (data_of_inj h)).
  - destruct (out !! i) as [[a n]|] eqn:Hi; [|by eauto 10 using Build_client_ok].
    destruct (Hown _ _ _ Hi) as (Hperm & x & t & Hx & ->).
    destruct (rt_realloc_cases h bs m x t size H Hm Hx Hop) as (h' & m' & p & -> & Hp). cbn [mbind res_bind].
    destruct p as [a|]; [|destruct Hp as [-> ->]; by eauto 10 using Build_client_ok].
    destruct Hp as (bs' & y & t' & -> & Hyx & H' & Ht & Hl & _ & _ & Hm' & Hp & Hs).
    eexists h', m', _, bs'. split_and!; [done| |done|done]. split; [done|done|]. rewrite (insert_perm _ _ _ _ Hi).
    rewrite Hperm in Ho. pose proof (owns_uncons (data_of h) (data_of h) _ _ (λ z k, live bs z k ∧ z ≠ x) _ x n (λ _, eq_refl) (data_of_inj h) Ho (λ _ _, iff_refl _)) as Ho1.
    apply (owns_cons (data_of h) (data_of h') _ _ (live bs') _ y t' size (data_of_same h h' Hp) (data_of_inj h) Ho1); [|done|done]. intros k [Hk Hne]. by apply Hne, (Hyx k).
Qed.

Lemma heap_run_ok ops : ∀ h m out bs, client_ok h m bs out → Forall op_ok ops →
  ∃ h' m' out' bs', heap_run ops (h, m, out) = Ok (h', m', out') ∧ client_ok h' m' bs' out' ∧
    heap_ptr h' = heap_ptr h ∧ mem_size_aligned h' = mem_size_aligned h.
Proof.
  induction ops as [|op ops IH]; intros h m out bs Hc Hops; [by exists h, m, out, bs|].
  apply Forall_cons in Hops as [Hop Hops]. cbn [heap_run].
  destruct (heap_do_ok op h m out bs Hc Hop) as (h1 & m1 & out1 & bs1 & -> & Hc1 & Hp1 & Hs1). cbn [mbind res_bind].
  destruct (IH _ _ _ _ Hc1 Hops) as (h2 & m2 & out2 & bs2 & E & Hc2 & Hp2 & Hs2).
  exists h2, m2, out2, bs2. split_and!; [done|done|congruence|congruence].
Qed.

(** With nothing in use there is one free block. *)
Lemma all_free bs : big bs → no_adj bs → 0 < total bs → (∀ x s, ¬ live bs x s) → bs = [(total bs, false)].
Proof.
  intros Hb Ha Ht Hl. destruct bs as [|[s [|]] r]; [simpl in Ht; lia|by destruct (Hl 0 s)|].
  destruct r as [|[s2 [|]] r]; [by rewrite <- (Z.add_0_r s) at 1| |destruct Ha as [Ha _]; by destruct (Ha eq_refl)].
  apply Forall_cons in Hb as [Hs _]. simpl in Hs. unfold SIZEOF_STRUCT_MEM in Hs. destruct (Hl s s2). unfold live. simpl.
  rewrite (proj2 (Z.eqb_neq s 0)) by lia. by rewrite Z.eqb_refl.
Qed.

Lemma owns_apart h bs out i j a1 n1 a2 n2 : heap_ok h bs → owns (data_of h) SIZEOF_STRUCT_MEM (live bs) out → i ≠ j →
  out !! i = Some (a1, n1) → out !! j = Some (a2, n2) → a1 + n1 <= a2 ∨ a2 + n2 <= a1.
Proof.
  intros H (Hnd & _ & Ho) Hij Hi Hj.
  assert (Hne : a1 ≠ a2).
  { intros ->. apply Hij, (NoDup_lookup _ _ _ a2 Hnd); rewrite list_lookup_fmap; [by rewrite Hi|by rewrite Hj]. }
  destruct (Ho a1 n1) as (x & s & Hx & -> & Hs); [by eapply list_elem_of_lookup_2|].
  destruct (Ho a2 n2) as (y & t & Hy & -> & Ht); [by eapply list_elem_of_lookup_2|].
  assert (Hxy : x ≠ y) by (by intros ->).
  pose proof (blocks_disjoint bs x s true y t true (heap_ok_big _ _ H) Hx Hy Hxy).
  unfold data_of, SIZEOF_STRUCT_MEM in *. lia.
Qed.

(** C5. Safety of the heap: after [rt_system_heap_init] on [b .. e), whatever
    sequence of [rt_malloc], [rt_free] and [rt_realloc] calls a client makes on
    the addresses it was given, no call loops or fails an assertion, every
    address given out is 4-aligned and its block lies inside the region, no two
    blocks overlap, and once everything is freed [used_mem] is zero and the
    heap is a single free block again. *)
Theorem heap_client_safe b e h0 m ops :
  0 <= b <= 4294967292 → 0 <= e < 4294967296 →
  rt_system_heap_init 0 b e = Ok (Some h0) → MIN_SIZE_ALIGNED <= mem_size_aligned h0 →
  heap_mapped h0 m → Forall op_ok ops →
  ∃ h m' out, heap_run ops (h0, m, []) = Ok (h, m', out) ∧
    (∀ a n, (a, n) ∈ out → a mod 4 = 0 ∧ b <= a ∧ a + n <= e) ∧
    (∀ i j a1 n1 a2 n2, i ≠ j → out !! i = Some (a1, n1) → out !! j = Some (a2, n2) → a1 + n1 <= a2 ∨ a2 + n2 <= a1) ∧
    (out = [] → used_mem h = 0 ∧ headers h !! 0 = Some (mk_hm HEAP_MAGIC 0 (heap_end h) 0)).
Proof.
  intros Hb He Hinit Hms Hm Hops. destruct (heap_init_ok b e h0 Hb He Hinit Hms) as (H0 & _ & Hp & Hq).
  destruct (heap_run_ok ops h0 m [] [(heap_end h0, false)]) with (2 := Hops) as (h & m' & out & bs & E & [H Hmm Ho] & Hp' & Hs').
  { split; [exact H0|done|]. split_and!; [constructor| |by intros ? ? ?%elem_of_nil].
    intros x t. unfold live. simpl. by destruct (x =? 0). }
  exists h, m', out. split_and!; [done| |by intros; eapply owns_apart|].
  - intros a n Ha. destruct Ho as (_ & _ & Ho). destruct (Ho a n Ha) as (x & t & Hx & -> & Ht).
    pose proof (live_range _ _ _ _ H Hx) as (? & ? & ? & ?). pose proof (ho_base _ _ H) as [_ ?].
    unfold data_of, heap_end, SIZEOF_STRUCT_MEM in *. lia.
  - intros ->. destruct Ho as (_ & Hnil & _).
    assert (Hone : bs = [(total bs, false)]).
    { apply all_free; [by eapply heap_ok_big|apply H| |].
      - rewrite (heap_ok_total _ _ H). pose proof (ho_size _ _ H). unfold heap_end, SIZEOF_STRUCT_MEM, MIN_SIZE_ALIGNED in *. lia.
      - intros x s Hx. by apply Hnil, elem_of_nil in Hx. }
    rewrite (heap_ok_total _ _ H) in Hone. split; [by rewrite (ho_used _ _ H), Hone|].
    pose proof (ho_tail _ _ H) as Ht. rewrite Hone in Ht. by apply tail_cons in Ht as (_ & _ & ? & _).
Qed.

(** ** Where the code falls short of its purpose *)

(** A heap of fewer than twelve data bytes is accepted by
    [rt_system_heap_init], but the first request that fits is rounded up to
    twelve bytes, the bound [mem_size_aligned - size] wraps around, and the
    search goes round at the end block for ever. *)
Theorem rt_malloc_tiny_heap b e h fuel :
  rt_system_heap_init 0 b e = Ok (Some h) → 0 <= mem_size_aligned h < MIN_SIZE_ALIGNED →
  malloc_loop fuel MIN_SIZE_ALIGNED (lfree h) h = Stop OutOfFuel.
Proof.
  unfold rt_system_heap_init. cbn [not_in_interrupt rt_assert require Z.eqb mbind res_bind].
  destruct (_ && _); [|done]. intros [= <-] Hms. unfold MIN_SIZE_ALIGNED, SIZEOF_STRUCT_MEM in *. cbn [mem_size_aligned lfree] in *.
  set (n := RT_ALIGN_DOWN e - RT_ALIGN b - 2 * 12) in *.
  assert (Hlim : u32 (n - 12) = n - 12 + 4294967296) by (unfold u32; lia).
  set (h := mk_heap _ _ _ _ _ _).
  assert (Hend : ∀ fuel, malloc_loop fuel 12 (n + 12) h = Stop OutOfFuel).
  { induction fuel0 as [|f IH]; cbn [malloc_loop]; change (mem_size_aligned h) with n; rewrite Hlim, (proj2 (Z.ltb_lt _ _)) by lia;
      rewrite (get_hm_ok (n + 12) (mk_hm HEAP_MAGIC 1 (n + 12) (n + 12)) h) by (unfold h; simpl; by rewrite lookup_insert_eq);
      cbn [mbind res_bind used Z.eqb andb next]; done. }
  destruct fuel as [|fuel]; cbn [malloc_loop]; change (mem_size_aligned h) with n; rewrite Hlim, (proj2 (Z.ltb_lt _ _)) by lia;
    rewrite (get_hm_ok 0 (mk_hm HEAP_MAGIC 0 (n + 12) 0) h)
      by (unfold h; simpl; rewrite lookup_insert_ne by lia; by rewrite lookup_singleton_eq);
    cbn [mbind res_bind used Z.eqb andb next]; unfold SIZEOF_STRUCT_MEM;
    replace (12 <=? u32 (n + 12 - (0 + 12))) with false by (symmetry; apply Z.leb_gt; unfold u32; lia); done.
Qed.

(** [RT_ALIGN] wraps: a request for the last three sizes below 2^32 is
    served like a request for one byte. *)
Theorem rt_malloc_size_wraps h size :
  4294967292 < size < 4294967296 → MIN_SIZE_ALIGNED <= mem_size_aligned h → rt_malloc 0 size h = rt_malloc 0 1 h.
Proof.
  intros Hs Hms. assert (E : RT_ALIGN size = 0).
  { assert (size = 4294967293 ∨ size = 4294967294 ∨ size = 4294967295) as [ -> | [ -> | -> ] ] by lia; done. }
  unfold rt_malloc, not_in_interrupt, rt_assert, require. cbn [Z.eqb mbind res_bind].
  rewrite (proj2 (Z.eqb_neq size 0)) by lia. rewrite E. change (RT_ALIGN 1) with 4. unfold MIN_SIZE_ALIGNED in *.
  by rewrite (proj2 (Z.ltb_ge (mem_size_aligned h) 0)), (proj2 (Z.ltb_ge (mem_size_aligned h) 4)) by lia.
Qed.

(** ** A heap to try things on: [0x1000 .. 0x1130), 280 data bytes *)
Definition demo_heap : heap :=
  mk_heap 4096 (<[292 := mk_hm HEAP_MAGIC 1 292 292]> {[ 0 := mk_hm HEAP_MAGIC 0 292 0 ]}) 0 280 0 0.
Definition demo_data : gmap Z Z := list_to_map ((λ i, (4096 + Z.of_nat i, Z.of_nat i mod 256)) <$> seq 0 292).

Lemma demo_init : rt_system_heap_init 0 4096 4400 = Ok (Some demo_heap).
Proof. vm_compute. reflexivity. Qed.

Lemma demo_mapped : heap_mapped demo_heap demo_data.
Proof.
  split.
  - assert (H : map_Forall (λ _ v, 0 <= v < 256) demo_data) by (apply (bool_decide_unpack _); vm_compute; exact I).
    exact H.
  - intros i Hi. change (4096 <= i < 4096 + 292) in Hi.
    assert (H : forallb (λ j, bool_decide (is_Some (demo_data !! (4096 + Z.of_nat j)))) (seq 0 292) = true)
      by (vm_compute; reflexivity).
    rewrite forallb_forall in H. specialize (H (Z.to_nat (i - 4096))).
    replace (4096 + Z.of_nat (Z.to_nat (i - 4096))) with i in H by lia.
    eapply bool_decide_unpack, Is_true_true, H, in_seq. lia.
  - done.
Qed.

(** With a block of 52 bytes in use at offset 0. *)
Definition demo_heap1 : heap :=
  mk_heap 4096 (<[52 := mk_hm HEAP_MAGIC 0 292 0]> (<[0 := mk_hm HEAP_MAGIC 1 52 0]> (headers demo_heap))) 52 280 52 52.
Definition demo_blocks1 : list block := [(52, true); (240, false)].

Lemma demo_heap1_malloc : rt_malloc 0 40 demo_heap = Ok (demo_heap1, Some 4108).
Proof. vm_compute. reflexivity. Qed.

Lemma demo_heap1_ok : heap_ok demo_heap1 demo_blocks1 ∧ lowest demo_blocks1 (lfree demo_heap1) ∧ live demo_blocks1 0 52.
Proof.
  split_and!; [|intros x s; unfold demo_blocks1; cbn [block_at]; case_bools; simpl; intros; lia || done|done].
  split; try (simpl; lia).
  - do 2 (apply tail_cons; split_and!; [unfold SIZEOF_STRUCT_MEM; lia|done|done|]).
    split_and!; [done|by exists 52|by exists 292].
  - right. by exists 240.
  - by vm_compute.
  - by vm_compute.
Qed.

Lemma demo_heap1_mapped : heap_mapped demo_heap1 demo_data.
Proof. apply (heap_mapped_keeps demo_heap demo_heap1 demo_data demo_data); [done|done|apply keeps_refl|apply demo_mapped]. Qed.

Lemma rt_malloc_spec_witness : 0 < 40 <= 4294967292 ∧ ∃ x h', rt_malloc 0 40 demo_heap1 = Ok (h', Some (data_of demo_heap1 x)).
Proof.
  split; [lia|]. destruct demo_heap1_ok as (H & Hl & _).
  destruct (rt_malloc_spec demo_heap1 demo_blocks1 40 H Hl) as [[E _]|(x & h' & bs' & t & E & _)]; [lia|discriminate E|eauto].
Defined.

Lemma rt_free_spec_witness : ∃ h' bs', rt_free 0 (Some 4108) demo_heap1 = Ok h' ∧ heap_ok h' bs' ∧ used_mem h' = 0.
Proof.
  destruct demo_heap1_ok as (H & Hl & Hv).
  destruct (rt_free_spec demo_heap1 demo_blocks1 0 52 H Hl Hv) as (h' & bs' & E & H' & _ & _ & Hu). eauto.
Defined.

Lemma rt_realloc_spec_witness : ∃ h' m' a, rt_realloc 0 (Some 4108) 60 demo_data demo_heap1 = Ok (h', m', Some a) ∧
  moved demo_heap1 demo_blocks1 demo_data 0 52 60 h' m' a.
Proof.
  destruct demo_heap1_ok as (H & _ & Hv).
  destruct (rt_realloc_spec demo_heap1 demo_blocks1 demo_data 0 52 60 H demo_heap1_mapped Hv) as (h' & m' & [a|] & E & Hm);
    [lia|eauto|].
  exfalso. change (data_of demo_heap1 0) with 4108 in E.
  assert (Hc : match rt_realloc 0 (Some 4108) 60 demo_data demo_heap1 with Ok (_, _, Some _) => true | _ => false end = true)
    by (vm_compute; reflexivity).
  rewrite E in Hc. discriminate Hc.
Defined.

Lemma heap_client_safe_witness : ∃ h m' out,
  heap_run [HMalloc 40; HMalloc 60; HRealloc 1 20; HMalloc 24; HFree 0; HFree 1; HRealloc 0 100; HFree 0] (demo_heap, demo_data, [])
    = Ok (h, m', out) ∧ (out = [] → used_mem h = 0).
Proof.
  destruct (heap_client_safe 4096 4400 demo_heap demo_data
    [HMalloc 40; HMalloc 60; HRealloc 1 20; HMalloc 24; HFree 0; HFree 1; HRealloc 0 100; HFree 0])
    as (h & m' & out & E & _ & _ & Hend); [lia|lia|exact demo_init|vm_compute; discriminate|exact demo_mapped
    |repeat constructor; simpl; lia|].
  exists h, m', out. split; [exact E|]. intros Ho. by apply Hend.
Defined.

Lemma rt_malloc_tiny_heap_witness : ∃ h, rt_system_heap_init 0 4096 4124 = Ok (Some h) ∧
  ∀ fuel, malloc_loop fuel MIN_SIZE_ALIGNED (lfree h) h = Stop OutOfFuel.
Proof.
  eexists. split; [vm_compute; reflexivity|]. intros fuel.
  apply (rt_malloc_tiny_heap 4096 4124 _ fuel); [vm_compute; reflexivity|vm_compute; split; [discriminate|reflexivity]].
Defined.

Lemma rt_malloc_size_wraps_witness : rt_malloc 0 4294967295 demo_heap = rt_malloc 0 1 demo_heap.
Proof. apply (rt_malloc_size_wraps demo_heap 4294967295); [lia|vm_compute; discriminate]. Defined.

(** A shrinking [rt_realloc] frees a block below [lfree] without moving [lfree]
    down: with the whole heap taken, the 228 bytes given back cannot be
    allocated. *)
Example shrink_hides_memory :
  ('(h, _) ← rt_malloc 0 268 demo_heap;
   '(h, _, p) ← rt_realloc 0 (Some 4108) 40 demo_data h;
   x ← get_hm 52 h;
   '(_, q) ← rt_malloc 0 40 h;
   Ok (p, x, q)) = Ok (Some 4108, mk_hm HEAP_MAGIC 0 292 0, None).
Proof. vm_compute. reflexivity. Qed.

(** The whole of a fresh heap cannot be allocated: the last [size] bytes are
    never searched. *)
Example exact_fit_refused : rt_malloc 0 280 demo_heap = Ok (demo_heap, None).
Proof. vm_compute. reflexivity. Qed.

(** [count * size] wraps around in [rt_calloc]: 0x10000 times 0x10001 bytes are
    a request for 65536, 0x8000 times 0x20001 one for 32768, and 0x10000001
    times 16 one for 16, which succeeds. *)
Example calloc_wraps :
  ('(h, _, p) ← rt_calloc 0 268435457 16 demo_data demo_heap; Ok (p, used_mem h)) = Ok (Some 4108, 28).
Proof. vm_compute. reflexivity. Qed.
