(* ===== verification/HeapUtil.v ===== *)
(** * What [src/kservice.c] builds on the heap: [rt_strdup], [rt_malloc_align], [rt_free_align]

    An aligned block lies inside a block of the heap; the word before it holds
    the address that [rt_free] needs. *)
From S2P Require Import Prelude KMemory KString Heap HeapProps.
Local Open Scope Z_scope.

(** [nest]: [rt_interrupt_nest]; [m]: the data bytes. *)
Definition rt_strdup (nest s : Z) (m : gmap Z Z) (h : heap) : res (heap * gmap Z Z * option Z) :=
  n ← rt_strlen m s;
  let len := n + 1 in
  '(h, tmp) ← rt_malloc nest len h;
  match tmp with
  | None => Ok (h, m, None)
  | Some a => m ← rt_memcpy m a s len; Ok (h, m, Some a)
  end.

(** [((size + 0x03) & ~0x03)] is [RT_ALIGN]; [align - 1] and its complement on 32 bits. *)
Definition align_up (p align : Z) : Z :=
  if Z.land p (u32 (align - 1)) =? 0 then u32 (p + align)
  else Z.land (u32 (p + u32 (align - 1))) (4294967295 - u32 (align - 1)).

Definition rt_malloc_align (nest size align : Z) (m : gmap Z Z) (h : heap) : res (heap * gmap Z Z * option Z) :=
  let align := RT_ALIGN align in
  let align_size := u32 (RT_ALIGN size + align) in
  '(h, ptr) ← rt_malloc nest align_size h;
  match ptr with
  | None => Ok (h, m, None)
  | Some p =>
      let align_ptr := align_up p align in
      m ← store32 m (u32 (align_ptr - 4)) p;
      Ok (h, m, Some align_ptr)
  end.

Definition rt_free_align (nest ptr : Z) (m : gmap Z Z) (h : heap) : res heap :=
  real_ptr ← load32 m (u32 (ptr - 4));
  rt_free nest (if real_ptr =? 0 then None else Some real_ptr) h.

(** ** The address *)
Lemma align_up_spec p k : 0 <= p → p mod 4 = 0 → 2 <= k < 32 → p + 2 ^ k < 4294967296 →
  let a := align_up p (2 ^ k) in a mod 2 ^ k = 0 ∧ p + 4 <= a <= p + 2 ^ k.
Proof.
  intros Hp H4 Hk Hs. cbv zeta. unfold align_up.
  assert (Hpos : 4 <= 2 ^ k) by (change 4 with (2 ^ 2); apply Z.pow_le_mono_r; lia).
  assert (Hd : 2 ^ k mod 4 = 0).
  { replace (2 ^ k) with (2 ^ (k - 2) * 4); [apply Z.mod_mul; lia|]. change 4 with (2 ^ 2). rewrite <- Z.pow_add_r by lia. f_equal. lia. }
  replace (u32 (2 ^ k - 1)) with (Z.ones k) by (rewrite Z.ones_equiv; unfold u32; rewrite Z.mod_small; lia).
  rewrite Z.land_ones by lia. rewrite Z.ones_equiv, <- Z.sub_1_r.
  destruct (Z.eqb_spec (p mod 2 ^ k) 0) as [E|E].
  - unfold u32. rewrite (Z.mod_small (p + _)) by (clear E; lia). split; [|clear E; lia].
    replace (p + 2 ^ k) with (p + 1 * 2 ^ k) by (clear E; lia). rewrite Z.mod_add by (clear E; lia). done.
  - replace (4294967295 - (2 ^ k - 1)) with (4294967296 - 2 ^ k) by (clear E; lia).
    unfold u32. rewrite (Z.mod_small (p + _)) by (clear E; lia). rewrite land_high by (clear E; lia).
    split; [apply Z.mod_mul; clear E; lia|]. set (b := 2 ^ k) in *. clearbody b. clear Hk k. assert (Hq : p mod b mod 4 = 0).
    { apply Z.mod_divide in Hd as [c Hc]; [|done]. apply Z.mod_divide in H4 as [d Hp4]; [|done].
      apply Z.mod_divide; [done|]. exists (d - c * (p / b)). rewrite (Z.mod_eq p b) by (clear E; lia). nia. }
    pose proof (Z.mod_pos_bound p b ltac:(clear E Hq; lia)) as Hr.
    pose proof (Z.div_mod p b ltac:(clear E Hq Hr; lia)) as Hp'.
    generalize dependent (p mod b). intros r E Hq Hr Hp'. generalize dependent (p / b). intros q Hp'.
    assert (Hr4 : 4 <= r ∧ r + 4 <= b) by (clear Hp'; lia). clear Hq E Hd H4.
    assert (Hdiv : (p + (b - 1)) / b = q + 1) by (symmetry; apply (Z.div_unique _ _ _ (r - 1)); [left|]; nia).
    rewrite Hdiv. nia.
Qed.

(** A word that was stored is read back from any memory that agrees there. *)
Lemma load_stored m a v m' m'' : 0 <= v < 4294967296 → store32 m a v = Ok m' →
  (∀ i, 0 <= i < 4 → m'' !! (a + i) = m' !! (a + i)) → load32 m'' a = Ok v.
Proof.
  intros Hv E Hm. unfold store32 in E.
  apply bind_ok_inv in E as (m1 & (? & _ & [= <-])%bind_ok_inv & E).
  apply bind_ok_inv in E as (m2 & (? & _ & [= <-])%bind_ok_inv & E).
  apply bind_ok_inv in E as (m3 & (? & _ & [= <-])%bind_ok_inv & (? & _ & [= <-])%bind_ok_inv).
  unfold load32, load8. pose proof (Hm 0 ltac:(lia)) as M0. rewrite Z.add_0_r in M0. rewrite M0, (Hm 1), (Hm 2), (Hm 3) by lia.
  rewrite !lookup_insert. repeat (destruct (decide _); try lia). cbn [of_option mbind res_bind]. f_equal. unfold u8. lia.
Qed.

Lemma store32_mapped m a v : mapped m a 4 →
  ∃ m', store32 m a v = Ok m' ∧ keeps m m' ∧ ∀ i, (i < a ∨ a + 4 <= i) → m' !! i = m !! i.
Proof.
  intros Hm. unfold store32. rewrite store8_ok by (apply Hm; lia). cbn [mbind res_bind].
  rewrite store8_ok by (apply is_Some_insert, Hm; lia). cbn [mbind res_bind].
  rewrite store8_ok by (do 2 apply is_Some_insert; apply Hm; lia). cbn [mbind res_bind].
  rewrite store8_ok by (do 3 apply is_Some_insert; apply Hm; lia). cbn [mbind res_bind].
  eexists. split; [done|]. split.
  - split; [intros; by do 4 apply mapped_insert | intros; by do 4 apply bytes_ok_insert].
  - intros i Hi. rewrite !lookup_insert_ne by lia. done.
Qed.

(** What an allocation of this file gives: [a] lies with [n] bytes inside the
    data of a new block at [x], everything else is as it was. *)
Definition obtained (h : heap) (bs : list block) (m : gmap Z Z) (a n x : Z) (h' : heap) (bs' : list block) (m' : gmap Z Z) : Prop :=
  heap_ok h' bs' ∧ heap_mapped h' m' ∧ heap_ptr h' = heap_ptr h ∧ (∀ k, ¬ live bs x k) ∧
  ∃ t, (∀ y k, live bs' y k ↔ live bs y k ∨ y = x ∧ k = t) ∧
    data_of h x <= a ∧ a + n <= data_of h x + (t - SIZEOF_STRUCT_MEM) ∧
    (∀ y k i, live bs y k → 0 <= i < k - SIZEOF_STRUCT_MEM → m' !! (data_of h y + i) = m !! (data_of h y + i)).

(** [rt_malloc] as such an allocation, with room to write in. *)
Lemma malloc_obtains h bs m size : heap_ok h bs → heap_mapped h m → 0 < size <= 4294967292 →
  rt_malloc 0 size h = Ok (h, None) ∨
  ∃ x h' bs', rt_malloc 0 size h = Ok (h', Some (data_of h x)) ∧
    0 <= data_of h x ∧ data_of h x mod 4 = 0 ∧ data_of h x + RT_ALIGN size <= 4294967296 - SIZEOF_STRUCT_MEM ∧
    mapped m (data_of h x) (RT_ALIGN size) ∧
    (∃ s, block_at 0 bs x = Some (s, false) ∧ RT_ALIGN size + SIZEOF_STRUCT_MEM <= s) ∧
    ∀ a n m', data_of h x <= a → a + n <= data_of h x + RT_ALIGN size → keeps m m' →
      (∀ i, i < data_of h x ∨ data_of h x + RT_ALIGN size <= i → m' !! i = m !! i) →
      obtained h bs m a n x h' bs' m'.
Proof.
  intros H Hm Hs. destruct (align_facts _ Hs) as (Ha & _).
  destruct (rt_malloc_cases h bs size H Hs) as [[E _]|(x & h' & E & (bs' & s & t & Hx & Ht & H' & Hl & _ & _ & Hp & Hms) & _)]; [by left|right].
  exists x, h', bs'. pose proof (ho_base _ _ H) as [Hp0 Hp4]. pose proof (ho_top _ _ H) as Htop.
  assert (Hx' : live bs' x t) by (by apply Hl; right). pose proof (live_range _ _ _ _ H' Hx') as (Hx0 & Hxe & _ & Hx4).
  assert (Hr : RT_ALIGN size <= t - SIZEOF_STRUCT_MEM) by (unfold rounded in Ht; lia).
  assert (He : heap_end h' = heap_end h) by (unfold heap_end; by rewrite Hms). rewrite He in Hxe.
  unfold data_of, SIZEOF_STRUCT_MEM in *. split_and!; [done|lia|lia|lia| | |].
  - eapply mapped_sub; [apply (hm_mapped _ _ Hm)|lia|lia].
  - exists s. split; [done|lia].
  - intros a n m' H1 H2 Hk Hout. split_and!; [done|by apply (heap_mapped_keeps h h' m m')|done| |].
    { intros k Hk'. unfold live in Hk'. congruence. }
    exists t. unfold data_of, SIZEOF_STRUCT_MEM. split_and!; [done|lia|lia|].
    intros y k i Hy Hi. apply Hout. assert (x ≠ y) by (intros ->; unfold live in Hy; congruence).
    pose proof (blocks_disjoint bs x s false y k true (heap_ok_big _ _ H) Hx Hy). lia.
Qed.

(** Aligned blocks.  For every power of two from 4 on, [rt_malloc_align]
    returns null and changes nothing, or an address that is a multiple of the
    alignment with [size] bytes inside a new block of the heap, no byte of any
    other block touched.  Whatever the client then writes, as long as the word
    before its block is kept, [rt_free_align] gives exactly this block back. *)
Theorem rt_malloc_align_spec h bs m size k :
  heap_ok h bs → heap_mapped h m → 0 < size → 2 <= k < 32 → size + 3 + 2 ^ k <= 4294967292 →
  rt_malloc_align 0 size (2 ^ k) m h = Ok (h, m, None) ∨
  ∃ a x h' bs' m', rt_malloc_align 0 size (2 ^ k) m h = Ok (h', m', Some a) ∧ a mod 2 ^ k = 0 ∧
    obtained h bs m a size x h' bs' m' ∧
    ∀ m'', (∀ i, 0 <= i < 4 → m'' !! (a - 4 + i) = m' !! (a - 4 + i)) →
      ∃ h'' bs'', rt_free_align 0 a m'' h' = Ok h'' ∧ heap_ok h'' bs'' ∧ ∀ y t, live bs'' y t ↔ live bs y t.
Proof.
  intros H Hm Hs Hk Hsum. unfold rt_malloc_align.
  assert (Hpos : 4 <= 2 ^ k) by (change 4 with (2 ^ 2); apply Z.pow_le_mono_r; lia).
  assert (Hd : 2 ^ k mod 4 = 0).
  { apply Z.mod_divide; [done|]. exists (2 ^ (k - 2)). change 4 with (2 ^ 2). rewrite <- Z.pow_add_r by lia. f_equal. lia. }
  set (b := 2 ^ k) in *. assert (Eb : RT_ALIGN b = b) by (rewrite align_val; lia). rewrite Eb.
  destruct (align_facts size ltac:(lia)) as (Ha1 & Ha2 & Ha3 & _).
  assert (Ha4 : RT_ALIGN size <= size + 3) by (rewrite align_val; lia).
  assert (En : u32 (RT_ALIGN size + b) = RT_ALIGN size + b) by (unfold u32; apply Z.mod_small; lia). rewrite En.
  assert (Er : RT_ALIGN (RT_ALIGN size + b) = RT_ALIGN size + b) by (rewrite (align_val (RT_ALIGN size + b)) by lia; lia).
  destruct (malloc_obtains h bs m (RT_ALIGN size + b) H Hm ltac:(lia)) as [->|(x & h' & bs' & -> & Hp0 & Hp4 & Hpe & Hmp & _ & Hob)]; [by left|right].
  rewrite Er in *. cbn [mbind res_bind]. set (p := data_of h x) in *. unfold SIZEOF_STRUCT_MEM in Hpe.
  destruct (align_up_spec p k Hp0 Hp4 Hk ltac:(fold b; lia)) as [Hal [Hlo Hhi]]. fold b in Hal, Hlo, Hhi. set (a := align_up p b) in *.
  assert (Eu : u32 (a - 4) = a - 4) by (unfold u32; apply Z.mod_small; clear Hal; lia). rewrite Eu.
  destruct (store32_mapped m (a - 4) p) as (m' & Est & Hkeep & Hsame); [apply (mapped_sub m p (RT_ALIGN size + b)); [done|clear Hal; lia..]|].
  rewrite Est. cbn [mbind res_bind].
  assert (Ho : obtained h bs m a size x h' bs' m').
  { apply Hob; [clear Hal; lia..|done|]. intros i Hi. apply Hsame. clear Hal. lia. }
  exists a, x, h', bs', m'. split_and!; [done|done|done|].
  intros m'' Hm''. unfold rt_free_align. rewrite Eu.
  rewrite (load_stored m (a - 4) p m' m'' ltac:(clear Hal; lia) Est Hm''). cbn [mbind res_bind].
  destruct Ho as (H' & _ & Hp' & Hno & t & Hl & _).
  assert (Hx : live bs' x t) by (by apply Hl; right).
  destruct (rt_free_live h' bs' x t H' Hx) as (h'' & bs'' & E & H'' & Hl'' & _).
  exists h'', bs''. unfold p in *. assert (Hnz : data_of h x ≠ 0).
  { pose proof (live_range _ _ _ _ H' Hx). pose proof (ho_base _ _ H). unfold data_of, SIZEOF_STRUCT_MEM. lia. }
  rewrite (proj2 (Z.eqb_neq _ _) Hnz). unfold data_of in *. rewrite <- Hp'. split_and!; [done|done|].
  intros y j. rewrite Hl'', Hl. split; [intros [[?|[-> ->]] ?]; done|].
  intros Hy. split; [by left|]. intros ->. by apply (Hno j).
Qed.

(** [rt_strdup] of a string that does not lie in free memory: null and nothing
    changed, or the address of a copy in a new block, no other block touched. *)
Theorem rt_strdup_spec h bs m s l :
  heap_ok h bs → heap_mapped h m → string_at m s l → Z.of_nat (length l) < 2147483640 →
  (∀ x k, block_at 0 bs x = Some (k, false) →
     s + Z.of_nat (length l) < data_of h x ∨ data_of h x + (k - SIZEOF_STRUCT_MEM) <= s) →
  rt_strdup 0 s m h = Ok (h, m, None) ∨
  ∃ x h' bs' m', rt_strdup 0 s m h = Ok (h', m', Some (data_of h x)) ∧
    obtained h bs m (data_of h x) (Z.of_nat (length l) + 1) x h' bs' m' ∧
    string_at m' (data_of h x) l ∧ string_at m' s l.
Proof.
  intros H Hm Hs Hlen Hout. unfold rt_strdup. rewrite (rt_strlen_ok _ _ _ Hs). cbn [mbind res_bind].
  set (n := Z.of_nat (length l) + 1).
  destruct (malloc_obtains h bs m n H Hm ltac:(lia)) as [->|(x & h' & bs' & -> & Hp0 & Hp4 & Hpe & Hmp & (k & Hk & Hkn) & Hob)]; [by left|right].
  cbn [mbind res_bind]. destruct (align_facts n ltac:(lia)) as (Hal & _). specialize (Hout x k Hk).
  unfold SIZEOF_STRUCT_MEM in *.
  assert (Hms : mapped m s n).
  { intros i Hi. replace i with (s + (i - s)) by lia. eapply string_at_nth; [done|]. unfold n in Hi. lia. }
  assert (Hmd : mapped m (data_of h x) n) by (apply (mapped_sub m (data_of h x) (RT_ALIGN n)); [done|lia..]).
  destruct (rt_memcpy_copied m (data_of h x) s n ltac:(lia) (hm_bytes _ _ Hm) Hms Hmd ltac:(lia)) as (m' & -> & Hc & Hkeep).
  cbn [mbind res_bind]. exists x, h', bs', m'. split_and!; [done| | |].
  - apply Hob; [lia|lia|done|]. intros i Hi. rewrite Hc, decide_False by lia. done.
  - assert (Hg : ∀ (l0 : list Z) a0 b0, string_at m b0 l0 → (∀ i, 0 <= i <= Z.of_nat (length l0) → m' !! (a0 + i) = m !! (b0 + i)) → string_at m' a0 l0).
    { induction l0 as [|c l0 IH]; intros a0 b0; simpl; intros H1 H2.
      - specialize (H2 0 ltac:(lia)). rewrite !Z.add_0_r in H2. by rewrite H2.
      - destruct H1 as (H1 & H3 & H4). pose proof (H2 0 ltac:(lia)) as E0. rewrite !Z.add_0_r in E0.
        split_and!; [by rewrite E0|done|]. apply (IH (a0 + 1) (b0 + 1)); [done|]. intros i Hi.
        rewrite <- !Z.add_assoc. apply H2. lia. }
    apply (Hg l (data_of h x) s Hs). intros i Hi. rewrite Hc, decide_True by lia. f_equal. lia.
  - apply (string_at_ext m); [|done]. intros i Hi. rewrite Hc, decide_False by lia. done.
Qed.

(** ** Where the code falls short of its purpose *)

(** The sum of size and alignment wraps: the request for almost 2^32 bytes is
    served with a block of 12 bytes. *)
Theorem malloc_align_wraps :
  ∃ h' m' a, rt_malloc_align 0 4294967284 16 demo_data demo_heap1 = Ok (h', m', Some a) ∧
    used_mem h' = used_mem demo_heap1 + 24.
Proof.
  assert (H : match rt_malloc_align 0 4294967284 16 demo_data demo_heap1 with
              | Ok (h', _, Some _) => used_mem h' =? used_mem demo_heap1 + 24 | _ => false end = true) by (vm_compute; reflexivity).
  destruct (rt_malloc_align 0 4294967284 16 demo_data demo_heap1) as [[[h' m'] [a|]]|]; try discriminate H.
  apply Z.eqb_eq in H. eauto.
Qed.

(** An alignment of 0 is not rejected: the word is written at 0xfffffffc and the
    result is null although a block was taken. *)
Theorem align_zero p : 0 < p < 4294967296 → align_up p 0 = 0.
Proof.
  intros Hp. unfold align_up. change (u32 (0 - 1)) with (Z.ones 32). rewrite Z.land_ones by lia.
  rewrite Z.mod_small by lia. rewrite (proj2 (Z.eqb_neq _ _)) by lia. change (4294967295 - Z.ones 32) with 0. by rewrite Z.land_0_r.
Qed.

(** An alignment that is not a power of two is not kept either. *)
Theorem align_twelve : align_up 4104 12 mod 12 ≠ 0.
Proof. by vm_compute. Qed.

Lemma rt_malloc_align_spec_witness :
  ∃ a h' m', rt_malloc_align 0 20 32 demo_data demo_heap1 = Ok (h', m', Some a) ∧ a mod 32 = 0.
Proof.
  destruct demo_heap1_ok as (H & _ & _).
  destruct (rt_malloc_align_spec demo_heap1 demo_blocks1 demo_data 20 5 H demo_heap1_mapped)
    as [E|(a & x & h' & bs' & m' & E & Ha & _)]; [lia|lia|simpl; lia| |].
  - exfalso. change (2 ^ 5) with 32 in E.
    assert (Hc : match rt_malloc_align 0 20 32 demo_data demo_heap1 with Ok (_, _, Some _) => true | _ => false end = true)
      by (vm_compute; reflexivity).
    rewrite E in Hc. discriminate Hc.
  - exists a, h', m'. split; [exact E | exact Ha].
Defined.
