(* ===== verification/Slab.v ===== *)
(** * The slab allocator: [src/slab.c]

    The other heap of RT-Thread ([RT_USING_SLAB]).  Pages of 4096 bytes come
    from a list of free runs; small requests are served from zones, each cut into
    chunks of one size.  A run, a zone and a free chunk keep their fields in
    their own memory; here they are records by address, and the three kinds of
    singly linked list (free runs, zones of one size, free chunks) are lists of
    addresses.  [heap_sem] is the value of the semaphore, an [rt_uint16_t]. *)
From S2P Require Import Prelude KMemory.
Local Open Scope Z_scope.

Definition RT_MM_PAGE_SIZE : Z := 4096.
Definition ZALLOC_SLAB_MAGIC : Z := 0x51ab51ab.
Definition ZALLOC_ZONE_LIMIT : Z := 16 * 1024.
Definition ZALLOC_MIN_ZONE_SIZE : Z := 32 * 1024.
Definition ZALLOC_MAX_ZONE_SIZE : Z := 128 * 1024.
Definition NZONES : Z := 72.
Definition ZONE_RELEASE_THRESH : Z := 2.
Definition MIN_CHUNK_SIZE : Z := 8.
Definition PAGE_TYPE_FREE : Z := 0.
Definition PAGE_TYPE_SMALL : Z := 1.
Definition PAGE_TYPE_LARGE : Z := 2.
Definition SIZEOF_SLAB_ZONE : Z := 36.

Record slab_zone := mk_zone {
  z_magic : Z;
  z_nfree : Z;
  z_nmax : Z;
  z_baseptr : Z;
  z_uindex : Z;
  z_chunksize : Z;
  z_zoneindex : Z;
  z_freechunk : list Z }.

Record memusage := mk_usage { page_type : Z; page_size : Z }.

Record slab := mk_slab {
  rt_page_list : list (Z * Z);      (** address and [page] of each free run *)
  usage : gmap Z memusage;          (** the array [memusage], by index *)
  zones : gmap Z slab_zone;         (** the zone headers, by address *)
  zone_array : gmap Z (list Z);
  zone_free : list Z;
  zone_free_cnt : Z;
  zone_size : Z;
  zone_limit : Z;
  zone_page_cnt : Z;
  heap_start : Z;
  heap_end : Z;
  used_mem : Z;
  max_mem : Z;
  heap_sem : Z }.

Definition set_pages l s := mk_slab l (usage s) (zones s) (zone_array s) (zone_free s) (zone_free_cnt s)
  (zone_size s) (zone_limit s) (zone_page_cnt s) (heap_start s) (heap_end s) (used_mem s) (max_mem s) (heap_sem s).
Definition set_usage u s := mk_slab (rt_page_list s) u (zones s) (zone_array s) (zone_free s) (zone_free_cnt s)
  (zone_size s) (zone_limit s) (zone_page_cnt s) (heap_start s) (heap_end s) (used_mem s) (max_mem s) (heap_sem s).
Definition set_zones z s := mk_slab (rt_page_list s) (usage s) z (zone_array s) (zone_free s) (zone_free_cnt s)
  (zone_size s) (zone_limit s) (zone_page_cnt s) (heap_start s) (heap_end s) (used_mem s) (max_mem s) (heap_sem s).
Definition set_zone_array a s := mk_slab (rt_page_list s) (usage s) (zones s) a (zone_free s) (zone_free_cnt s)
  (zone_size s) (zone_limit s) (zone_page_cnt s) (heap_start s) (heap_end s) (used_mem s) (max_mem s) (heap_sem s).
Definition set_zone_free l n s := mk_slab (rt_page_list s) (usage s) (zones s) (zone_array s) l n
  (zone_size s) (zone_limit s) (zone_page_cnt s) (heap_start s) (heap_end s) (used_mem s) (max_mem s) (heap_sem s).
Definition set_used u m s := mk_slab (rt_page_list s) (usage s) (zones s) (zone_array s) (zone_free s) (zone_free_cnt s)
  (zone_size s) (zone_limit s) (zone_page_cnt s) (heap_start s) (heap_end s) u m (heap_sem s).
Definition set_sem v s := mk_slab (rt_page_list s) (usage s) (zones s) (zone_array s) (zone_free s) (zone_free_cnt s)
  (zone_size s) (zone_limit s) (zone_page_cnt s) (heap_start s) (heap_end s) (used_mem s) (max_mem s) v.

(** [rt_sem_take(&heap_sem, RT_WAITING_FOREVER)].  A call runs to its end before
    the next one starts, so a caller who finds no token finds nobody inside the
    allocator to release one: he waits for ever. *)
Definition lock_heap s : res slab :=
  if 0 <? heap_sem s then Ok (set_sem (heap_sem s - 1) s) else Stop Blocks.
(** [sem->value ++] on 16 bits: nobody waits, as above. *)
Definition unlock_heap s : slab := set_sem (u16 (heap_sem s + 1)) s.

(** [used_mem += n], and the high-water mark. *)
Definition account n s : slab :=
  let u := u32 (used_mem s + n) in set_used u (if max_mem s <? u then u else max_mem s) s.
Definition unaccount n s : slab := set_used (u32 (used_mem s - n)) (max_mem s) s.

(** ** Pages *)

(** [b + n] on [struct rt_page_head *]. *)
Definition page_add (b n : Z) : Z := u32 (b + n * RT_MM_PAGE_SIZE).
(** [RT_ALIGN(x, RT_MM_PAGE_SIZE)] and [x & ~RT_MM_PAGE_MASK]. *)
Definition page_align (x : Z) : Z := Z.land (u32 (x + (RT_MM_PAGE_SIZE - 1))) (4294967296 - RT_MM_PAGE_SIZE).
Definition page_of (x : Z) : Z := Z.land x (4294967296 - RT_MM_PAGE_SIZE).

(** The walk over the free runs: the list after it, and the result. *)
Fixpoint page_alloc_loop (npages : Z) (l : list (Z * Z)) : list (Z * Z) * option Z :=
  match l with
  | [] => ([], None)
  | (b, page) :: l' =>
      if npages <? page then ((page_add b npages, page - npages) :: l', Some b)
      else if page =? npages then (l', Some b)
      else let '(r, x) := page_alloc_loop npages l' in ((b, page) :: r, x)
  end.

Definition rt_page_alloc (npages : Z) (s : slab) : res (slab * option Z) :=
  if npages =? 0 then Ok (s, None)
  else
    s ← lock_heap s;
    let '(l, b) := page_alloc_loop npages (rt_page_list s) in
    Ok (unlock_heap (set_pages l s), b).

(** The runs [b], behind which [n] ends, and the one that follows are joined. *)
Definition join_behind (b page npages : Z) (l' : list (Z * Z)) : res (list (Z * Z)) :=
  let page := u32 (page + npages) in
  match l' with
  | (b', page') :: l'' =>
      if page_add b page =? b' then Ok ((b, u32 (page + page')) :: l'') else Ok ((b, page) :: l')
  | [] => _ ← require NullDeref (negb (page_add b page =? 0)); Ok [(b, page)]
  end.

Fixpoint page_free_loop (n npages : Z) (l : list (Z * Z)) : res (list (Z * Z)) :=
  match l with
  | [] => Ok [(n, npages)]
  | (b, page) :: l' =>
      _ ← rt_assert (0 <? page);
      _ ← rt_assert ((n <? b) || (page_add b page <=? n));
      if page_add b page =? n then join_behind b page npages l'
      else if b =? page_add n npages then Ok ((n, u32 (page + npages)) :: l')
      else if page_add n npages <? b then Ok ((n, npages) :: l)
      else r ← page_free_loop n npages l'; Ok ((b, page) :: r)
  end.

Definition rt_page_free (addr npages : Z) (s : slab) : res slab :=
  _ ← rt_assert (negb (addr =? 0));
  _ ← rt_assert (addr mod RT_MM_PAGE_SIZE =? 0);
  _ ← rt_assert (negb (npages =? 0));
  s ← lock_heap s;
  l ← page_free_loop addr npages (rt_page_list s);
  Ok (unlock_heap (set_pages l s)).

Definition rt_page_init (addr npages : Z) (s : slab) : res slab :=
  _ ← rt_assert (negb (addr =? 0));
  _ ← rt_assert (negb (npages =? 0));
  rt_page_free addr npages (set_pages [] s).

(** [while (zone_size < ZALLOC_MAX_ZONE_SIZE && (zone_size << 1) < (limsize/1024))]:
    two turns reach the maximum. *)
Fixpoint zone_size_loop (fuel : nat) (limsize size : Z) : res Z :=
  if (size <? ZALLOC_MAX_ZONE_SIZE) && (Z.shiftl size 1 <? limsize / 1024) then
    match fuel with O => Stop OutOfFuel | S fuel => zone_size_loop fuel limsize (Z.shiftl size 1) end
  else Ok size.

(** [nest]: [rt_interrupt_nest]; [junk]: what the memory of the array held.
    [None]: the error return. *)
Definition rt_system_heap_init (nest begin_addr end_addr : Z) (junk : gmap Z memusage) : res (option slab) :=
  _ ← rt_assert (nest =? 0);
  let heap_start := page_align begin_addr in
  let heap_end := page_of end_addr in
  if heap_end <=? heap_start then Ok None
  else
    let limsize := heap_end - heap_start in
    let npages := limsize / RT_MM_PAGE_SIZE in
    let s := mk_slab [] junk ∅ ∅ [] 0 0 0 0 heap_start heap_end 0 0 1 in
    s ← rt_page_init heap_start npages s;
    zone_size ← zone_size_loop 2 limsize ZALLOC_MIN_ZONE_SIZE;
    let zone_limit := zone_size / 4 in
    let zone_limit := if ZALLOC_ZONE_LIMIT <? zone_limit then ZALLOC_ZONE_LIMIT else zone_limit in
    let s := mk_slab (rt_page_list s) (usage s) (zones s) (zone_array s) (zone_free s) (zone_free_cnt s)
      zone_size zone_limit (zone_size / RT_MM_PAGE_SIZE) (heap_start) (heap_end) (used_mem s) (max_mem s) (heap_sem s) in
    '(s, _) ← rt_page_alloc (page_align (npages * 4) / RT_MM_PAGE_SIZE) s;
    Ok (Some s).

(** ** Chunks *)

(** [(n + mask) & ~mask], [mask] being [2^k - 1]. *)
Definition round_up (n k : Z) : Z := Z.land (u32 (n + (2 ^ k - 1))) (4294967296 - 2 ^ k).

(** The index of the zones for a request, and the size of their chunks. *)
Definition zoneindex (n : Z) : Z * Z :=
  if n <? 128 then let n := round_up n 3 in (n / 8 - 1, n)
  else if n <? 256 then let n := round_up n 4 in (n / 16 + 7, n)
  else if n <? 8192 then
    if n <? 512 then let n := round_up n 5 in (n / 32 + 15, n)
    else if n <? 1024 then let n := round_up n 6 in (n / 64 + 23, n)
    else if n <? 2048 then let n := round_up n 7 in (n / 128 + 31, n)
    else if n <? 4096 then let n := round_up n 8 in (n / 256 + 39, n)
    else let n := round_up n 9 in (n / 512 + 47, n)
  else if n <? 16384 then let n := round_up n 10 in (n / 1024 + 55, n)
  else (0, n).

(** ** Allocation and release *)

(** [btokup(addr)]: the index in [memusage]. *)
Definition btokup (addr : Z) (s : slab) : Z := Z.shiftr (u32 (addr - heap_start s)) 12.
Definition get_usage (i : Z) (s : slab) : res memusage := of_option OutOfBounds (usage s !! i).
(** [type] has 2 bits and [size] 30. *)
Definition put_usage (i type size : Z) (s : slab) : slab :=
  set_usage (<[i := mk_usage type (size `mod` 2 ^ 30)]> (usage s)) s.

(** The loops over the pages of a zone: SMALL pages know their offset. *)
Fixpoint small_pages (n : nat) (i off : Z) (s : slab) : slab :=
  match n with
  | O => s
  | S n => small_pages n (i + 1) (off + 1) (put_usage i PAGE_TYPE_SMALL off s)
  end.
Fixpoint free_pages (n : nat) (i : Z) (s : slab) : slab :=
  match n with
  | O => s
  | S n => free_pages n (i + 1) (put_usage i PAGE_TYPE_FREE 0 s)
  end.

Definition get_zone (a : Z) (s : slab) : res slab_zone := of_option NullDeref (zones s !! a).
Definition put_zone (a : Z) (z : slab_zone) (s : slab) : slab := set_zones (<[a := z]> (zones s)) s.
(** [zone_array[zi]]; an empty list is [RT_NULL]. *)
Definition zone_list (zi : Z) (s : slab) : list Z := default [] (zone_array s !! zi).
Definition put_zone_list (zi : Z) (l : list Z) (s : slab) : slab :=
  set_zone_array (<[zi := l]> (zone_array s)) s.

Definition with_chunks (nfree uindex : Z) (free : list Z) (z : slab_zone) : slab_zone :=
  mk_zone (z_magic z) nfree (z_nmax z) (z_baseptr z) uindex (z_chunksize z) (z_zoneindex z) free.
Definition with_magic (magic : Z) (z : slab_zone) : slab_zone :=
  mk_zone magic (z_nfree z) (z_nmax z) (z_baseptr z) (z_uindex z) (z_chunksize z) (z_zoneindex z) (z_freechunk z).

(** [size >= zone_limit]: whole pages. *)
Definition malloc_large (size : Z) (s : slab) : res (slab * option Z) :=
  let size := page_align size in
  '(s, chunk) ← rt_page_alloc (Z.shiftr size 12) s;
  match chunk with
  | None => Ok (s, None)
  | Some chunk =>
      let s := put_usage (btokup chunk s) PAGE_TYPE_LARGE (Z.shiftr size 12) s in
      s ← lock_heap s;
      Ok (unlock_heap (account size s), Some chunk)
  end.

(** A chunk of the first zone [a] of the list: of the area never used before,
    or of the list of free chunks. *)
Definition malloc_from_zone (size zi a : Z) (rest : list Z) (s : slab) : res (slab * Z) :=
  z ← get_zone a s;
  _ ← rt_assert (0 <? z_nfree z);
  let nfree := z_nfree z - 1 in
  let s := if nfree =? 0 then put_zone_list zi rest s else s in
  '(z, chunk) ←
    (if negb (z_uindex z + 1 =? z_nmax z) then
       let u := z_uindex z + 1 in
       Ok (with_chunks nfree u (z_freechunk z) z, u32 (z_baseptr z + u * size))
     else match z_freechunk z with
       | [] => Stop NullDeref
       | chunk :: free => Ok (with_chunks nfree (z_uindex z) free z, chunk)
       end);
  Ok (account (z_chunksize z) (put_zone a z s), chunk).

(** [(size | (size - 1)) + 1 == (size << 1)]; then the first chunk is [off]
    bytes behind the header's zone. *)
Definition is_power_of_2 (size : Z) : bool := u32 (Z.lor size (size - 1) + 1) =? u32 (Z.shiftl size 1).
Definition zone_offset (size : Z) : Z :=
  if is_power_of_2 size then Z.land (SIZEOF_SLAB_ZONE + size - 1) (u32 (Z.lnot (size - 1)))
  else Z.land (SIZEOF_SLAB_ZONE + (MIN_CHUNK_SIZE - 1)) (u32 (Z.lnot (MIN_CHUNK_SIZE - 1))).

Definition fresh_zone (a zi size zone_size : Z) : slab_zone :=
  let off := zone_offset size in
  let nmax := (zone_size - off) / size in
  mk_zone ZALLOC_SLAB_MAGIC (nmax - 1) nmax (u32 (a + off)) 0 size zi [].

(** The new zone at [a] joins its list; its first chunk is handed out. *)
Definition open_zone (a zi size : Z) (s : slab) : slab * Z :=
  let z := fresh_zone a zi size (zone_size s) in
  let s := put_zone a z s in
  let s := put_zone_list zi (a :: zone_list zi s) s in
  (account (z_chunksize z) s, u32 (z_baseptr z + z_uindex z * size)).

(** Where the new zone comes from.  [None]: [goto fail], with the heap already
    unlocked. *)
Definition new_zone (s : slab) : res (slab * option Z) :=
  match zone_free s with
  | a :: rest => Ok (set_zone_free rest (zone_free_cnt s - 1) s, Some a)
  | [] =>
      let s := unlock_heap s in
      '(s, a) ← rt_page_alloc (zone_size s / RT_MM_PAGE_SIZE) s;
      match a with
      | None => Ok (s, None)
      | Some a => s ← lock_heap s; Ok (small_pages (Z.to_nat (zone_page_cnt s)) (btokup a s) 0 s, Some a)
      end
  end.

Definition rt_malloc (size : Z) (s : slab) : res (slab * option Z) :=
  if size =? 0 then Ok (s, None)
  else if zone_limit s <=? size then malloc_large size s
  else
    s ← lock_heap s;
    let '(zi, size) := zoneindex size in
    _ ← rt_assert (zi <? NZONES);
    match zone_list zi s with
    | a :: rest =>
        '(s, chunk) ← malloc_from_zone size zi a rest s;
        Ok (unlock_heap s, Some chunk)
    | [] =>
        '(s, a) ← new_zone s;
        match a with
        | None => Ok (unlock_heap s, None)
        | Some a => let '(s, chunk) := open_zone a zi size s in Ok (unlock_heap s, Some chunk)
        end
    end.

(** [z->z_next], and the walk that takes [z] out of the list. *)
Fixpoint next_of (a : Z) (l : list Z) : option Z :=
  match l with
  | [] => None
  | b :: l' => if b =? a then head l' else next_of a l'
  end.
Fixpoint unlink_zone (a : Z) (l : list Z) : res (list Z) :=
  match l with
  | [] => Stop NullDeref
  | b :: l' => if b =? a then Ok l' else l' ← unlink_zone a l'; Ok (b :: l')
  end.

Definition free_large (ptr size i : Z) (s : slab) : res slab :=
  s ← lock_heap s;
  let s := put_usage i PAGE_TYPE_LARGE 0 s in
  let s := unlock_heap (unaccount (u32 (size * RT_MM_PAGE_SIZE)) s) in
  rt_page_free ptr size s.

(** The chunk goes back to its zone, and a zone that was full to its list. *)
Definition free_chunk (ptr a : Z) (z : slab_zone) (s : slab) : slab :=
  let s := unaccount (z_chunksize z) s in
  let s := put_zone a (with_chunks (z_nfree z + 1) (z_uindex z) (ptr :: z_freechunk z) z) s in
  if z_nfree z =? 0 then put_zone_list (z_zoneindex z) (a :: zone_list (z_zoneindex z) s) s else s.

(** [z->z_nfree == z->z_nmax && (z->z_next || zone_array[z->z_zoneindex] != z)] *)
Definition spare_zone (a : Z) (z : slab_zone) (s : slab) : bool :=
  let l := zone_list (z_zoneindex z) s in
  (z_nfree z =? z_nmax z) && (bool_decide (is_Some (next_of a l)) || negb (bool_decide (head l = Some a))).

(** The empty zone leaves its list for [zone_free]. *)
Definition retire_zone (a : Z) (z : slab_zone) (s : slab) : res slab :=
  l ← unlink_zone a (zone_list (z_zoneindex z) s);
  let s := put_zone_list (z_zoneindex z) l s in
  let s := put_zone a (with_magic (-1) z) s in
  Ok (set_zone_free (a :: zone_free s) (zone_free_cnt s + 1) s).

(** The first zone of [zone_free] goes back to the page allocator: its header
    becomes the head of a run. *)
Definition release_zone (s : slab) : res slab :=
  match zone_free s with
  | [] => Stop NullDeref
  | a :: rest =>
      let s := set_zone_free rest (zone_free_cnt s - 1) s in
      let s := free_pages (Z.to_nat (zone_page_cnt s)) (btokup a s) s in
      let s := set_zones (delete a (zones s)) s in
      rt_page_free a (zone_size s / RT_MM_PAGE_SIZE) (unlock_heap s)
  end.

Definition rt_free (ptr : option Z) (s : slab) : res slab :=
  match ptr with
  | None => Ok s
  | Some ptr =>
      let i := btokup (page_of ptr) s in
      kup ← get_usage i s;
      if page_type kup =? PAGE_TYPE_LARGE then free_large ptr (page_size kup) i s
      else
        s ← lock_heap s;
        let a := u32 (page_of ptr - page_size kup * RT_MM_PAGE_SIZE) in
        z ← get_zone a s;
        _ ← rt_assert (z_magic z =? ZALLOC_SLAB_MAGIC);
        let s := free_chunk ptr a z s in
        z ← get_zone a s;
        if spare_zone a z s then
          s ← retire_zone a z s;
          if ZONE_RELEASE_THRESH <? zone_free_cnt s then release_zone s else Ok (unlock_heap s)
        else Ok (unlock_heap s)
  end.

(** [m]: the data bytes.  [move]: allocate, copy and release. *)
Definition move (ptr osize size : Z) (m : gmap Z Z) (s : slab) : res (slab * gmap Z Z * option Z) :=
  '(s, nptr) ← rt_malloc size s;
  match nptr with
  | None => Ok (s, m, None)
  | Some p =>
      m ← rt_memcpy m p ptr (if osize <? size then osize else size);
      s ← rt_free (Some ptr) s;
      Ok (s, m, Some p)
  end.

Definition rt_realloc (ptr : option Z) (size : Z) (m : gmap Z Z) (s : slab) : res (slab * gmap Z Z * option Z) :=
  match ptr with
  | None => '(s, p) ← rt_malloc size s; Ok (s, m, p)
  | Some ptr =>
      if size =? 0 then s ← rt_free (Some ptr) s; Ok (s, m, None)
      else
        kup ← get_usage (btokup (page_of ptr) s) s;
        if page_type kup =? PAGE_TYPE_LARGE then
          move ptr (Z.shiftl (page_size kup) 12) size m s
        else if page_type kup =? PAGE_TYPE_SMALL then
          z ← get_zone (u32 (page_of ptr - page_size kup * RT_MM_PAGE_SIZE)) s;
          _ ← rt_assert (z_magic z =? ZALLOC_SLAB_MAGIC);
          let '(_, size) := zoneindex size in
          if z_chunksize z =? size then Ok (s, m, Some ptr)
          else move ptr (z_chunksize z) size m s
        else Ok (s, m, None)
  end.

Definition rt_calloc (count size : Z) (m : gmap Z Z) (s : slab) : res (slab * gmap Z Z * option Z) :=
  '(s, p) ← rt_malloc (u32 (count * size)) s;
  match p with
  | None => Ok (s, m, None)
  | Some p => m ← rt_memset m p 0 (u32 (count * size)); Ok (s, m, Some p)
  end.

(** [(total, used, max_used)] *)
Definition rt_memory_info (s : slab) : Z * Z * Z := (heap_end s - heap_start s, used_mem s, max_mem s).
