(* ===== verification/SlabPages.v ===== *)
(** * The page allocator and the size classes of [src/slab.c]

    The list of free runs is kept in address order and two runs never touch;
    [rt_page_alloc] takes exactly the pages it returns and fails only when no
    run is long enough; [rt_page_free] gives exactly its pages back and none of
    its assertions can fail.  [zoneindex] maps a request to one of 72 classes, whose
    chunk size the index determines. *)
From S2P Require Import Prelude KMemory Slab.
Local Open Scope Z_scope.

(** ** Free runs *)

(** Page-aligned runs between [lo] and [hi], in order and apart. *)
Fixpoint runs (lo hi : Z) (l : list (Z * Z)) : Prop :=
  match l with
  | [] => True
  | (b, n) :: l' => lo <= b ∧ b mod 4096 = 0 ∧ 0 < n ∧ b + n * 4096 <= hi ∧ runs (b + n * 4096 + 1) hi l'
  end.

Definition within (b n x : Z) : Prop := b <= x < b + n * 4096.
(** The address belongs to a free run. *)
Definition covers (l : list (Z * Z)) (x : Z) : Prop := ∃ b n, (b, n) ∈ l ∧ within b n x.

Lemma covers_nil x : covers [] x ↔ False.
Proof. split; [|done]. intros (b & n & H & _). set_solver. Qed.

Lemma covers_cons b n l x : covers ((b, n) :: l) x ↔ within b n x ∨ covers l x.
Proof.
  unfold covers. split.
  - intros (b' & n' & [[= -> ->]|H]%elem_of_cons & Hx); eauto.
  - intros [H|(b' & n' & H & Hx)]; [exists b, n|exists b', n']; split; by (left || right || done).
Qed.

Lemma runs_weaken lo lo' hi l : lo' <= lo → runs lo hi l → runs lo' hi l.
Proof. destruct l as [|[b n] l]; [done|]. simpl. intros ? (? & ?). split; [lia|done]. Qed.

Lemma runs_bound lo hi l : ∀ x, runs lo hi l → covers l x → lo <= x < hi.
Proof.
  revert lo. induction l as [|[b n] l IH]; intros lo x Hr Hx; [by apply covers_nil in Hx|].
  destruct Hr as (? & ? & ? & ? & Hr). apply covers_cons in Hx as [Hx|Hx]; [unfold within in Hx; lia|].
  specialize (IH _ x Hr Hx). lia.
Qed.

Lemma page_add_in b n hi : 0 <= b → 0 <= n → b + n * 4096 <= hi → hi < 4294967296 → page_add b n = b + n * 4096.
Proof. intros. unfold page_add, RT_MM_PAGE_SIZE, u32. apply Z.mod_small. lia. Qed.

(** ** [rt_page_alloc] *)
Lemma page_alloc_loop_some np hi l : ∀ lo l' b, 0 <= lo → hi < 4294967296 → 0 < np → runs lo hi l →
  page_alloc_loop np l = (l', Some b) →
  runs lo hi l' ∧ b mod 4096 = 0 ∧ (∀ x, within b np x → covers l x) ∧
  ∀ x, covers l' x ↔ covers l x ∧ ¬ within b np x.
Proof.
  induction l as [|[c n] l IH]; intros lo l' b Hlo Hhi Hnp Hr E; [done|].
  destruct Hr as (H1 & H2 & H3 & H4 & Hr). simpl in E.
  assert (Hb : ∀ x, covers l x → c + n * 4096 < x) by (intros x Hx; pose proof (runs_bound _ _ _ x Hr Hx); lia).
  destruct (Z.ltb_spec np n) as [Hlt|Hge]; [|destruct (Z.eqb_spec n np) as [->|Hne]].
  - injection E as <- <-. rewrite (page_add_in _ _ hi) by lia. split_and!.
    + simpl. replace (c + np * 4096 + (n - np) * 4096) with (c + n * 4096) by lia.
      split_and!; [lia| |lia|lia|done]. clear -H2. rewrite Z.mod_add; [done|lia].
    + done.
    + intros x Hx. apply covers_cons. left. unfold within in *. lia.
    + intros x. rewrite !covers_cons. unfold within. split.
      * intros [?|Hx]; [split; [left|]; lia|]. split; [by right|]. specialize (Hb x Hx). lia.
      * intros [[?|?] ?]; [left; lia|by right].
  - injection E as <- <-. split_and!; [|done| |].
    + eapply runs_weaken; [|done]. lia.
    + intros x Hx. apply covers_cons. by left.
    + intros x. rewrite covers_cons. split; [|intros [[?|?] ?]; done]. intros Hx. split; [by right|].
      specialize (Hb x Hx). unfold within. lia.
  - destruct (page_alloc_loop np l) as [r o] eqn:Er. injection E as <- ->.
    destruct (IH (c + n * 4096 + 1) r b) as (R1 & R2 & R3 & R4); [lia|lia|lia|done|done|].
    split_and!; [|done| |].
    + simpl. by split_and!.
    + intros x Hx. apply covers_cons. right. by apply R3.
    + intros x. rewrite !covers_cons, R4. split; [|tauto]. intros [Hx|?]; [|tauto]. split; [by left|].
      intros Hw. specialize (Hb x (R3 x Hw)). unfold within in Hx. lia.
Qed.

Lemma page_alloc_loop_none np l l' : page_alloc_loop np l = (l', None) → l' = l ∧ ∀ b n, (b, n) ∈ l → n < np.
Proof.
  revert l'. induction l as [|[c n] l IH]; intros l' E; simpl in E.
  - injection E as <-. split; [done|]. set_solver.
  - destruct (Z.ltb_spec np n) as [?|?]; [done|]. destruct (Z.eqb_spec n np) as [?|?]; [done|].
    destruct (page_alloc_loop np l) as [r o] eqn:Er. injection E as <- ->.
    destruct (IH r eq_refl) as [-> Hall]. split; [done|].
    intros b k [[= -> ->]|Hin]%elem_of_cons; [lia|by apply (Hall b)].
Qed.

Lemma page_alloc_loop_short np l : (∀ b n, (b, n) ∈ l → n < np) → page_alloc_loop np l = (l, None).
Proof.
  induction l as [|[c n] l IH]; intros Hall; simpl; [done|]. assert (n < np) by (apply (Hall c); left).
  rewrite (proj2 (Z.ltb_ge np n)), (proj2 (Z.eqb_neq n np)), IH by (lia || (intros b k Hin; apply (Hall b); by right)). done.
Qed.

(** ** [rt_page_free] *)
Lemma join_behind_ok b page np l lo hi : 0 <= lo → hi < 4294967296 → runs lo hi l → 0 < b → 0 < page → 0 < np →
  b + (page + np) * 4096 <= lo → b + (page + np) * 4096 <= hi → b mod 4096 = 0 →
  ∃ l', join_behind b page np l = Ok l' ∧ runs b hi l' ∧ ∀ x, covers l' x ↔ within b (page + np) x ∨ covers l x.
Proof.
  intros Hlo Hhi Hr Hb Hp Hn Hend Hend' Ha. unfold join_behind, u32. rewrite (Z.mod_small (page + np)) by lia.
  rewrite (page_add_in _ _ hi) by lia. destruct l as [|[c n] l].
  - rewrite (proj2 (Z.eqb_neq _ 0)) by lia. eexists. split; [done|]. simpl. split; [|apply covers_cons].
    split_and!; try lia; done.
  - destruct Hr as (H1 & H2 & H3 & H4 & Hr). destruct (Z.eqb_spec (b + (page + np) * 4096) c) as [E|Hne].
    + eexists. split; [done|]. rewrite Z.mod_small by lia. split.
      * simpl. replace (b + (page + np + n) * 4096) with (c + n * 4096) by lia. split_and!; try lia; done.
      * intros x. rewrite !covers_cons. unfold within. split; [intros [?|?]; [|tauto]|intros [?|[?|?]]; [| |tauto]]; lia.
    + eexists. split; [done|]. split; [|intros x; by rewrite covers_cons].
      simpl. split_and!; try lia; done.
Qed.

Lemma page_free_loop_ok n np hi l : ∀ lo, 0 < lo → hi < 4294967296 → 0 < np → lo <= n → n + np * 4096 <= hi →
  n mod 4096 = 0 → runs lo hi l → (∀ x, within n np x → ¬ covers l x) →
  ∃ l', page_free_loop n np l = Ok l' ∧ runs lo hi l' ∧ ∀ x, covers l' x ↔ within n np x ∨ covers l x.
Proof.
  induction l as [|[c k] l IH]; intros lo Hlo Hhi Hnp Hn Hend Ha Hr Hd.
  { eexists. split; [done|]. simpl. split; [by split_and!|]. intros x. apply covers_cons. }
  destruct Hr as (H1 & H2 & H3 & H4 & Hr). simpl.
  rewrite (proj2 (Z.ltb_lt 0 k)) by done. simpl. rewrite !(page_add_in _ _ hi) by lia.
  assert (Hsep : n < c ∨ c + k * 4096 <= n).
  { destruct (Z.lt_ge_cases n c); [by left|]. destruct (Z.le_gt_cases (c + k * 4096) n); [by right|]. exfalso.
    apply (Hd n); [unfold within; lia|]. apply covers_cons. left. unfold within. lia. }
  assert (Hsep' : n + np * 4096 <= c ∨ c + k * 4096 <= n).
  { destruct Hsep; [|by right]. destruct (Z.le_gt_cases (n + np * 4096) c); [by left|]. exfalso.
    apply (Hd c); [unfold within; lia|]. apply covers_cons. left. unfold within. lia. }
  replace ((n <? c) || (c + k * 4096 <=? n)) with true
    by (destruct Hsep; [rewrite (proj2 (Z.ltb_lt n c)) by lia|rewrite (proj2 (Z.leb_le _ n)) by lia; rewrite orb_true_r]; done).
  simpl. destruct (Z.eqb_spec (c + k * 4096) n) as [E|Hne].
  { destruct (join_behind_ok c k np l (c + (k + np) * 4096) hi) as (l' & E' & R1 & R2); try lia; try done.
    - destruct l as [|[d j] l]; [done|]. destruct Hr as (G1 & G2 & G3 & G4 & Hr). split_and!; try done.
      destruct (Z.le_gt_cases (c + (k + np) * 4096) d); [lia|]. exfalso.
      apply (Hd d); [unfold within; lia|]. apply covers_cons. right. apply covers_cons. left. unfold within. lia.
    - exists l'. split; [done|]. split; [by eapply runs_weaken|]. intros x. rewrite R2, covers_cons. unfold within.
      split; [intros [?|?]; [|tauto]|intros [?|[?|?]]; [| |tauto]]; lia. }
  destruct (Z.eqb_spec c (n + np * 4096)) as [E|Hne'].
  { eexists. split; [done|]. unfold u32. rewrite Z.mod_small by lia. split.
    - simpl. replace (n + (k + np) * 4096) with (c + k * 4096) by lia. split_and!; try lia; done.
    - intros x. rewrite !covers_cons. unfold within. split; [intros [?|?]; [|tauto]|intros [?|[?|?]]; [| |tauto]]; lia. }
  destruct (Z.ltb_spec (n + np * 4096) c) as [Hlt|Hge].
  { eexists. split; [done|]. simpl. split; [|intros x; by rewrite covers_cons]. split_and!; try lia; done. }
  destruct (IH (c + k * 4096 + 1)) as (l' & -> & R1 & R2); try lia; try done.
  { intros x Hx Hc. apply (Hd x Hx). apply covers_cons. by right. }
  eexists. split; [done|]. split; [simpl; by split_and!|]. intros x. rewrite !covers_cons, R2. tauto.
Qed.

(** ** Size classes *)

(** The chunk size that belongs to an index. *)
Definition class_size (zi : Z) : Z :=
  if zi <? 16 then 8 * (zi + 1) else if zi <? 24 then 16 * (zi - 7) else if zi <? 32 then 32 * (zi - 15)
  else if zi <? 40 then 64 * (zi - 23) else if zi <? 48 then 128 * (zi - 31) else if zi <? 56 then 256 * (zi - 39)
  else if zi <? 64 then 512 * (zi - 47) else 1024 * (zi - 55).

Lemma round_up_val n k : 0 <= k <= 32 → 0 <= n → n + 2 ^ k <= 4294967296 → round_up n k = (n + (2 ^ k - 1)) / 2 ^ k * 2 ^ k.
Proof.
  intros Hk Hn Hb. unfold round_up, u32. assert (0 < 2 ^ k) by (apply Z.pow_pos_nonneg; lia).
  rewrite Z.mod_small by lia. apply land_high; lia.
Qed.

Lemma zoneindex_class n zi c : 0 < n < 16384 → zoneindex n = (zi, c) →
  0 <= zi < 72 ∧ c = class_size zi ∧ n <= c ∧ c <= 16384 ∧ c mod 8 = 0 ∧ (n <= 8192 → c <= 8192).
Proof.
  intros Hn E. unfold zoneindex in E.
  repeat match type of E with
  | context [if ?a <? ?b then _ else _] => destruct (Z.ltb_spec a b)
  end; try lia; injection E as <- <-; rewrite !round_up_val by lia;
  simpl Z.pow; unfold Z.pow_pos; simpl Pos.iter; rewrite !Z.div_mul by lia;
  unfold class_size; case_bools; lia.
Qed.

(** A chunk wastes at most an eighth of the request from 64 bytes on. *)
Lemma zoneindex_waste n zi c : 0 < n < 16384 → zoneindex n = (zi, c) → c - n <= 7 ∨ 8 * (c - n) < n.
Proof.
  intros Hn E. unfold zoneindex in E.
  repeat match type of E with
  | context [if ?a <? ?b then _ else _] => destruct (Z.ltb_spec a b)
  end; try lia; injection E as <- <-; rewrite !round_up_val by lia;
  simpl Z.pow; unfold Z.pow_pos; simpl Pos.iter; lia.
Qed.

Lemma class_size_range zi : 0 <= zi < 72 → 8 <= class_size zi <= 17408 ∧ class_size zi mod 8 = 0.
Proof. intros H. unfold class_size. case_bools; lia. Qed.

Lemma class_size_mono zi zj : 0 <= zi → zi < zj → zj < 72 → class_size zi < class_size zj.
Proof. intros. unfold class_size. case_bools; lia. Qed.
