(* ===== verification/SlabInv.v ===== *)
(** * The invariant of the slab allocator

    Every address of the heap has an owner: a free run, a zone, a large
    allocation, or nobody (pages the allocator keeps for itself or is handing
    over).  The invariant ties this map to the list of runs, the page descriptors,
    the zones and their lists, and to the map from addresses to sizes of the blocks
    in use.  The elementary steps of [rt_malloc] and [rt_free] each preserve it;
    the calls themselves are composed in SlabProps. *)
From S2P Require Import Prelude KMemory Slab SlabPages.
Local Open Scope Z_scope.

Inductive owner :=
  | OFree                 (** in a free run *)
  | OTaken                (** held by the allocator *)
  | OZone (a : Z)         (** in the zone at [a] *)
  | OLarge (p n : Z).     (** in the [n] pages allocated at [p] *)

#[global] Instance within_dec b n x : Decision (within b n x).
Proof. unfold within. apply _. Defined.

(** [n] pages from [b] change hands. *)
Definition give (b n : Z) (o : owner) (own : Z → owner) (x : Z) : owner :=
  if decide (within b n x) then o else own x.

Definition same_heap (s s' : slab) : Prop := heap_start s' = heap_start s ∧ heap_end s' = heap_end s.

(** The index in [memusage] of the page of [x]. *)
Definition page_index (s : slab) (x : Z) : Z := (x - heap_start s) / 4096.

(** The chunk at [c] of the zone is in use. *)
Definition chunk_live (z : slab_zone) (c : Z) : Prop :=
  (∃ i, 0 <= i <= z_uindex z ∧ c = z_baseptr z + i * z_chunksize z) ∧ c ∉ z_freechunk z.

Record zone_ok (zs a : Z) (z : slab_zone) : Prop := {
  zk_magic : z_magic z = ZALLOC_SLAB_MAGIC;
  zk_index : 0 <= z_zoneindex z < NZONES;
  zk_size : z_chunksize z = class_size (z_zoneindex z);
  zk_base : a + SIZEOF_SLAB_ZONE <= z_baseptr z ∧ z_baseptr z mod 8 = 0;
  zk_fit : z_baseptr z + z_nmax z * z_chunksize z <= a + zs;
  zk_uindex : 0 <= z_uindex z < z_nmax z;
  zk_nodup : NoDup (z_freechunk z);
  zk_free : ∀ c, c ∈ z_freechunk z → ∃ i, 0 <= i <= z_uindex z ∧ c = z_baseptr z + i * z_chunksize z;
  zk_nfree : z_nfree z = z_nmax z - 1 - z_uindex z + Z.of_nat (length (z_freechunk z)) }.

(** The sum of the sizes in use. *)
Definition in_use (cap : gmap Z Z) : Z := map_fold (λ _ c acc, c + acc) 0 cap.

Record geometry (s : slab) : Prop := {
  ge_start : 0 < heap_start s ∧ heap_start s mod 4096 = 0;
  ge_end : heap_start s < heap_end s < 4294967296 ∧ heap_end s mod 4096 = 0;
  ge_zone : zone_size s = 32768 ∨ zone_size s = 65536 ∨ zone_size s = 131072;
  ge_limit : zone_limit s = Z.min (zone_size s / 4) 16384;
  ge_pages : zone_page_cnt s = zone_size s / 4096 }.

Record slab_inv (own : Z → owner) (cap : gmap Z Z) (s : slab) : Prop := {
  si_geom : geometry s;
  si_runs : runs (heap_start s) (heap_end s) (rt_page_list s);
  si_free : ∀ x, own x = OFree ↔ covers (rt_page_list s) x;
  si_in : ∀ x, own x ≠ OTaken → heap_start s <= x < heap_end s;
  si_zone : ∀ a x, own x = OZone a ↔ is_Some (zones s !! a) ∧ a <= x < a + zone_size s;
  si_small : ∀ a x, own x = OZone a →
    a mod 4096 = 0 ∧ usage s !! page_index s x = Some (mk_usage PAGE_TYPE_SMALL ((x - a) / 4096));
  si_large : ∀ p n x, own x = OLarge p n →
    0 < n ∧ p mod 4096 = 0 ∧ within p n x ∧ (∀ y, within p n y → own y = OLarge p n) ∧
    usage s !! page_index s p = Some (mk_usage PAGE_TYPE_LARGE n);
  si_zok : ∀ a z, zones s !! a = Some z → a ∉ zone_free s →
    zone_ok (zone_size s) a z ∧ (0 < z_nfree z → a ∈ zone_list (z_zoneindex z) s);
  si_array : ∀ zi, NoDup (zone_list zi s) ∧ ∀ a, a ∈ zone_list zi s →
    (a ∉ zone_free s) ∧ ∃ z, zones s !! a = Some z ∧ z_zoneindex z = zi ∧ 0 < z_nfree z;
  si_zfree : NoDup (zone_free s) ∧ (∀ a, a ∈ zone_free s → is_Some (zones s !! a)) ∧
    zone_free_cnt s = Z.of_nat (length (zone_free s));
  si_cap : ∀ p c, cap !! p = Some c ↔ (∃ n, own p = OLarge p n ∧ c = n * 4096) ∨
    ∃ a z, zones s !! a = Some z ∧ (a ∉ zone_free s) ∧ chunk_live z p ∧ c = z_chunksize z;
  si_used : used_mem s = u32 (in_use cap) }.

(** ** Generic facts *)
Lemma give_in b n o own x : within b n x → give b n o own x = o.
Proof. intros. unfold give. by rewrite decide_True. Qed.
Lemma give_out b n o own x : ¬ within b n x → give b n o own x = own x.
Proof. intros. unfold give. by rewrite decide_False. Qed.

Lemma in_use_insert cap p c : cap !! p = None → in_use (<[p := c]> cap) = c + in_use cap.
Proof. intros. unfold in_use. rewrite map_fold_insert_L; [done|intros; lia|done]. Qed.
Lemma in_use_delete cap p c : cap !! p = Some c → in_use cap = c + in_use (delete p cap).
Proof. intros H. unfold in_use. rewrite (map_fold_delete_L _ _ p c); [done|intros; lia|done]. Qed.

(** The clauses a step does not touch hold as they did. *)
Ltac inv_parts := constructor; try done; try (by constructor).

Lemma inv_sem own cap s v : slab_inv own cap s → slab_inv own cap (set_sem v s).
Proof. intros [[] ? ? ? ? ? ? ? ? ? ? ?]. by inv_parts. Qed.
#[export] Hint Resolve inv_sem : rtt.

Lemma page_index_pages s b n : b mod 4096 = 0 → heap_start s mod 4096 = 0 →
  ∀ x, within b n x ↔ page_index s b <= page_index s x < page_index s b + n.
Proof. intros Hb Hs x. unfold within, page_index. lia. Qed.

Lemma page_of_val x : 0 <= x < 4294967296 → page_of x = x / 4096 * 4096.
Proof. exact (land_high 12 x ltac:(lia)). Qed.

Lemma btokup_index s x : geometry s → heap_start s <= x < heap_end s → btokup (page_of x) s = page_index s x.
Proof.
  intros [[? ?] [? ?] _ _ _] Hx. rewrite page_of_val by lia. unfold btokup, page_index, u32.
  rewrite Z.shiftr_div_pow2 by lia. change (2 ^ 12) with 4096. rewrite Z.mod_small by lia. lia.
Qed.

Lemma btokup_page s x : geometry s → heap_start s <= x < heap_end s → btokup x s = page_index s x.
Proof.
  intros [[? ?] [? ?] _ _ _] Hx. unfold btokup, page_index, u32.
  rewrite Z.shiftr_div_pow2 by lia. change (2 ^ 12) with 4096. by rewrite Z.mod_small by lia.
Qed.

(** ** Pages change hands *)

Definition loose (o : owner) : Prop := o = OFree ∨ o = OTaken.

Lemma give_other b n o own o' x :
  o ≠ o' → (∀ y, within b n y → own y ≠ o') → give b n o own x = o' ↔ own x = o'.
Proof.
  intros Ho H. unfold give. destruct (decide (within b n x)) as [Hw|]; [|done].
  split; intros E; [done|]. by destruct (H x Hw).
Qed.

Lemma give_loose b n o own x : loose o → (∀ y, within b n y → loose (own y)) →
  (∀ a, give b n o own x = OZone a ↔ own x = OZone a) ∧ (∀ p k, give b n o own x = OLarge p k ↔ own x = OLarge p k).
Proof.
  intros Ho H. split; intros; apply give_other; try (destruct Ho; congruence);
    intros y Hy; destruct (H y Hy); congruence.
Qed.

(** A change between free and taken pages concerns the list of runs only. *)
Lemma inv_move_pages own cap s b n o l :
  slab_inv own cap s → loose o → (∀ x, within b n x → loose (own x)) →
  (∀ x, within b n x → heap_start s <= x < heap_end s) →
  runs (heap_start s) (heap_end s) l → (∀ x, give b n o own x = OFree ↔ covers l x) →
  slab_inv (give b n o own) cap (set_pages l s).
Proof.
  intros [[] Hruns Hfree Hin Hzone Hsmall Hlarge Hzok Harr Hzf Hcap Hused] Ho Hl Hw Hr Hc.
  pose proof (λ x, give_loose b n o own x Ho Hl) as Hg. inv_parts.
  - intros x Hx. destruct (decide (within b n x)) as [H|H]; [by apply Hw|]. rewrite give_out in Hx by done. by apply Hin.
  - intros a x. rewrite (proj1 (Hg x)). apply Hzone.
  - intros a x H%Hg. by apply Hsmall.
  - intros p k x H%Hg. destruct (Hlarge _ _ _ H) as (? & ? & ? & H4 & ?). split_and!; try done.
    intros y Hy. apply Hg. by apply H4.
  - intros p c. rewrite Hcap. split; (intros [(k & H & ->)|H]; [left; exists k; split; [|done]; by apply Hg|by right]).
Qed.

(** A token is taken and given back. *)
Definition locked (s : slab) : slab := set_sem (heap_sem s - 1) s.

Lemma lock_heap_ok s : 0 < heap_sem s → lock_heap s = Ok (locked s).
Proof. intros H. unfold lock_heap. by rewrite (proj2 (Z.ltb_lt 0 _) H). Qed.

Lemma lock_heap_blocks s : heap_sem s = 0 → lock_heap s = Stop Blocks.
Proof. intros H. unfold lock_heap. by rewrite H. Qed.

Lemma lock_unlock s : 0 < heap_sem s < 65536 → heap_sem (unlock_heap (locked s)) = heap_sem s.
Proof. intros H. unfold u16. simpl. unfold u16. rewrite Z.mod_small; lia. Qed.

Lemma take_pages own cap s np s' b :
  slab_inv own cap s → 0 < np → rt_page_alloc np s = Ok (s', Some b) →
  slab_inv (give b np OTaken own) cap s' ∧ b mod 4096 = 0 ∧ (∀ x, within b np x → own x = OFree) ∧
  ∃ l, s' = unlock_heap (set_pages l (locked s)).
Proof.
  intros H Hnp E. pose proof H as [[[? ?] [? ?] _ _ _] Hr Hf Hin _ _ _ _ _ _ _ _]. unfold rt_page_alloc in E.
  rewrite (proj2 (Z.eqb_neq np 0)) in E by lia. unfold lock_heap in E. destruct (_ <? _); [|done]. cbn [mbind res_bind] in E.
  change (rt_page_list (set_sem _ s)) with (rt_page_list s) in E.
  destruct (page_alloc_loop np (rt_page_list s)) as [l o] eqn:El. injection E as <- ->.
  destruct (page_alloc_loop_some np (heap_end s) (rt_page_list s) (heap_start s) l b) as (R1 & R2 & R3 & R4); [lia|lia|done|done|done|].
  assert (Hfr : ∀ x, within b np x → own x = OFree) by (intros x Hx; by apply Hf, R3).
  split_and!; [|done|done|by exists l].
  apply inv_sem. change (set_pages l (set_sem (heap_sem s - 1) s)) with (set_sem (heap_sem s - 1) (set_pages l s)).
  apply inv_sem, inv_move_pages; [done|by right|intros x Hx; left; by apply Hfr| |done|].
  - intros x Hx. apply Hin. by rewrite Hfr.
  - intros x. rewrite R4, <- Hf. unfold give. destruct (decide (within b np x)); intuition congruence.
Qed.

Lemma take_pages_none own cap s np s' :
  slab_inv own cap s → 0 < np → rt_page_alloc np s = Ok (s', None) →
  s' = unlock_heap (locked s) ∧ ∀ b n, (b, n) ∈ rt_page_list s → n < np.
Proof.
  intros H Hnp E. unfold rt_page_alloc in E. rewrite (proj2 (Z.eqb_neq np 0)) in E by lia.
  unfold lock_heap in E. destruct (_ <? _); [|done]. cbn [mbind res_bind] in E.
  change (rt_page_list (set_sem _ s)) with (rt_page_list s) in E.
  destruct (page_alloc_loop np (rt_page_list s)) as [l o] eqn:El. injection E as <- ->.
  apply page_alloc_loop_none in El as [-> ?]. split; [by destruct s|done].
Qed.

(** With a token there is an answer. *)
Lemma rt_page_alloc_ok np s : 0 < heap_sem s → ∃ s' r, rt_page_alloc np s = Ok (s', r).
Proof.
  intros H. unfold rt_page_alloc. destruct (np =? 0); [by eexists _, _|]. rewrite lock_heap_ok by done.
  cbn [mbind res_bind]. destruct (page_alloc_loop _ _). by eexists _, _.
Qed.

Lemma return_pages own cap s b n :
  slab_inv own cap s → 0 < heap_sem s → 0 < n → b mod 4096 = 0 → heap_start s <= b → b + n * 4096 <= heap_end s →
  (∀ x, within b n x → own x = OTaken) →
  ∃ l, rt_page_free b n s = Ok (unlock_heap (set_pages l (locked s))) ∧
    slab_inv (give b n OFree own) cap (unlock_heap (set_pages l (locked s))).
Proof.
  intros H Hsem Hn Hb Hlo Hhi Ht. pose proof H as [[[? ?] [? ?] _ _ _] Hr Hf Hin _ _ _ _ _ _ _ _].
  destruct (page_free_loop_ok b n (heap_end s) (rt_page_list s) (heap_start s)) as (l & E & R1 & R2); try done; try lia.
  { intros x Hx Hc%Hf. rewrite Ht in Hc by done. done. }
  exists l. split.
  - unfold rt_page_free, rt_assert, require. rewrite (proj2 (Z.eqb_neq b 0)) by lia. unfold RT_MM_PAGE_SIZE. rewrite Hb.
    rewrite (proj2 (Z.eqb_neq n 0)) by lia. rewrite lock_heap_ok by done. simpl. by rewrite E.
  - apply inv_sem. change (set_pages l (locked s)) with (set_sem (heap_sem (locked s)) (set_pages l s)).
    apply inv_sem, inv_move_pages; [done|by left|intros x Hx; right; by apply Ht| |done|].
    + unfold within. intros x Hx. lia.
    + intros x. rewrite R2, <- Hf. unfold give. destruct (decide (within b n x)); intuition congruence.
Qed.

(** ** Large allocations *)

Definition small_block (s : slab) (p c : Z) : Prop :=
  ∃ a z, zones s !! a = Some z ∧ (a ∉ zone_free s) ∧ chunk_live z p ∧ c = z_chunksize z.

Lemma chunk_room zs a z i : zone_ok zs a z → 0 <= i <= z_uindex z →
  a + SIZEOF_SLAB_ZONE <= z_baseptr z + i * z_chunksize z ∧ z_baseptr z + i * z_chunksize z + z_chunksize z <= a + zs ∧
  8 <= z_chunksize z.
Proof.
  intros [_ Hi Hs [Hb _] Hf Hu _ _ _] Hr. pose proof (class_size_range (z_zoneindex z) Hi) as [? _].
  rewrite <- Hs in *. nia.
Qed.

Lemma chunk_owner own cap s a z p x : slab_inv own cap s → zones s !! a = Some z → a ∉ zone_free s →
  chunk_live z p → p <= x < p + z_chunksize z → own x = OZone a.
Proof.
  intros H Hz Hf [(i & Hi & ->) _] Hx. destruct (si_zok _ _ _ H _ _ Hz Hf) as [Hok _].
  destruct (chunk_room _ _ _ _ Hok Hi) as (? & ? & ?). apply (si_zone _ _ _ H). split; [by eexists|].
  unfold SIZEOF_SLAB_ZONE in *. lia.
Qed.

Lemma small_owner own cap s p c : slab_inv own cap s → small_block s p c → ∃ a, own p = OZone a.
Proof.
  intros H (a & z & Hz & Hf & Hl & ->). exists a. eapply (chunk_owner _ _ _ _ z p); try done.
  destruct (si_zok _ _ _ H _ _ Hz Hf) as [Hok _]. destruct Hl as [(i & Hi & _) _].
  destruct (chunk_room _ _ _ _ Hok Hi) as (? & ? & ?). lia.
Qed.

Lemma cap_none own cap s p : slab_inv own cap s → loose (own p) → cap !! p = None.
Proof.
  intros H Hl. destruct (cap !! p) as [c|] eqn:E; [|done]. apply (si_cap _ _ _ H) in E as [(n & E & _)|Hs].
  - destruct Hl; congruence.
  - destruct (small_owner _ _ _ _ _ H Hs). destruct Hl; congruence.
Qed.

Lemma inv_usage own cap s b n u : slab_inv own cap s → b mod 4096 = 0 → (∀ x, within b n x → own x = OTaken) →
  (∀ j, ¬ page_index s b <= j < page_index s b + n → u !! j = usage s !! j) →
  slab_inv own cap (set_usage u s).
Proof.
  intros [[] Hruns Hfree Hin Hzone Hsmall Hlarge Hzok Harr Hzf Hcap Hused] Hb Ht Hu.
  assert (Hout : ∀ x, own x ≠ OTaken → u !! page_index s x = usage s !! page_index s x).
  { intros x Hx. apply Hu. intros Hj. apply Hx, Ht, (page_index_pages s b n); tauto. }
  inv_parts.
  - intros a x H. destruct (Hsmall _ _ H) as [? <-]. split; [done|]. apply Hout. by rewrite H.
  - intros p k x H. destruct (Hlarge _ _ _ H) as (? & ? & ? & H4 & <-). split_and!; try done. apply Hout.
    rewrite H4 by (unfold within; lia). done.
Qed.

Lemma u32_add_l x y : u32 (u32 x + y) = u32 (x + y).
Proof. unfold u32. by rewrite Zplus_mod_idemp_l. Qed.
Lemma u32_sub_r x y : u32 (x - u32 y) = u32 (x - y).
Proof. unfold u32. by rewrite Zminus_mod_idemp_r. Qed.
Lemma u32_sub_l x y : u32 (u32 x - y) = u32 (x - y).
Proof. unfold u32. by rewrite Zminus_mod_idemp_l. Qed.

(** [set_used] matters to one clause only. *)
Lemma give_large own cap s b n m : slab_inv own cap s → 0 < n → b mod 4096 = 0 →
  heap_start s <= b → b + n * 4096 <= heap_end s → (∀ x, within b n x → own x = OTaken) →
  usage s !! page_index s b = Some (mk_usage PAGE_TYPE_LARGE n) →
  slab_inv (give b n (OLarge b n) own) (<[b := n * 4096]> cap) (set_used (u32 (used_mem s + n * 4096)) m s).
Proof.
  intros H Hn Hb Hlo Hhi Ht Hus.
  assert (Hcb : cap !! b = None) by (apply (cap_none own cap s); [done|right; apply Ht; unfold within; lia]).
  assert (Hsb : ∀ c, ¬ small_block s b c).
  { intros c Hc. destruct (small_owner _ _ _ _ _ H Hc) as [a Ha]. rewrite Ht in Ha by (unfold within; lia). done. }
  destruct H as [[] Hruns Hfree Hin Hzone Hsmall Hlarge Hzok Harr Hzf Hcap Hused]. inv_parts.
  - intros x. rewrite <- Hfree. apply give_other; [done|]. intros y Hy. by rewrite Ht.
  - intros x Hx. destruct (decide (within b n x)) as [Hw|Hw]; [unfold within in Hw; simpl; lia|].
    rewrite give_out in Hx by done. by apply Hin.
  - intros a x. rewrite <- Hzone. apply give_other; [done|]. intros y Hy. by rewrite Ht.
  - intros a x Hx. apply Hsmall. by apply give_other in Hx; [|done|intros y Hy; rewrite Ht].
  - intros p k x Hx. unfold give in Hx. destruct (decide (within b n x)) as [Hw|Hw].
    + injection Hx as <- <-. split_and!; try done. intros y Hy. by rewrite give_in.
    + destruct (Hlarge _ _ _ Hx) as (? & ? & ? & H4 & ?). split_and!; try done. intros y Hy.
      rewrite give_out; [by apply H4|]. intros Hw'. specialize (H4 y Hy). rewrite Ht in H4 by done. done.
  - intros p c. destruct (decide (p = b)) as [->|Hne].
    + rewrite lookup_insert_eq, give_in by (unfold within; lia). split.
      * intros [= <-]. left. by exists n.
      * intros [(k & [= ->] & ->)|Hc]; [done|]. by destruct (Hsb c).
    + rewrite lookup_insert_ne, Hcap by done. split; (intros [(k & E & ->)|Hs]; [left; exists k; split; [|done]|by right]).
      * rewrite give_out; [done|]. intros Hw. rewrite Ht in E by done. done.
      * unfold give in E. destruct (decide (within b n p)); congruence.
  - simpl. rewrite Hused, u32_add_l, in_use_insert by done. f_equal. lia.
Qed.

Lemma take_large own cap s p n m : slab_inv own cap s → own p = OLarge p n →
  slab_inv (give p n OTaken own) (delete p cap) (set_used (u32 (used_mem s - u32 (n * 4096))) m s).
Proof.
  intros H Hp. pose proof H as [[] Hruns Hfree Hin Hzone Hsmall Hlarge Hzok Harr Hzf Hcap Hused].
  destruct (Hlarge _ _ _ Hp) as (Hn & Ha & _ & Hall & _).
  assert (Hcp : cap !! p = Some (n * 4096)) by (apply Hcap; left; by exists n).
  assert (Hg : ∀ o x, o ≠ OTaken → o ≠ OLarge p n → give p n OTaken own x = o ↔ own x = o).
  { intros o x H1 H2. apply give_other; [congruence|]. intros y Hy. rewrite Hall by done. congruence. }
  inv_parts.
  - intros x. rewrite <- Hfree. by apply Hg.
  - intros x Hx. unfold give in Hx. destruct (decide (within p n x)); [done|by apply Hin].
  - intros a x. rewrite <- Hzone. by apply Hg.
  - intros a x Hx%Hg; try done. by apply Hsmall.
  - intros q k x Hx. unfold give in Hx. destruct (decide (within p n x)) as [Hw|Hw]; [done|].
    destruct (Hlarge _ _ _ Hx) as (? & ? & ? & H4 & ?). split_and!; try done. intros y Hy.
    rewrite give_out; [by apply H4|]. intros Hw'. specialize (H4 y Hy). rewrite Hall in H4 by done.
    injection H4 as -> ->. done.
  - intros q c. destruct (decide (q = p)) as [->|Hne].
    + rewrite lookup_delete_eq, give_in by (unfold within; lia). split; [done|]. intros [(k & ? & _)|Hs]; [done|].
      destruct (small_owner _ _ _ _ _ H Hs). congruence.
    + rewrite lookup_delete_ne, Hcap by done. split; (intros [(k & E & ->)|Hs]; [left; exists k; split; [|done]|by right]).
      * rewrite give_out; [done|]. intros Hw. rewrite Hall in E by done. congruence.
      * unfold give in E. destruct (decide (within p n q)); congruence.
  - simpl. rewrite Hused, u32_sub_r, u32_sub_l, (in_use_delete _ _ _ Hcp). f_equal. lia.
Qed.

(** ** Chunks of a zone *)

(** The record of a zone and its place in the list of its index change. *)
Lemma inv_put_zone own cap s a z z' A l cap' v m : slab_inv own cap s →
  zones s !! a = Some z → a ∉ zone_free s → zone_ok (zone_size s) a z' → z_zoneindex z' = z_zoneindex z →
  (∀ zj, default [] (A !! zj) = if decide (zj = z_zoneindex z) then l else zone_list zj s) →
  NoDup l → (∀ b, b ∈ l ↔ b ∈ zone_list (z_zoneindex z) s ∧ b ≠ a ∨ b = a ∧ 0 < z_nfree z') →
  (∀ p c, cap' !! p = Some c ↔ (∃ n, own p = OLarge p n ∧ c = n * 4096) ∨
     small_block (put_zone a z' s) p c) →
  v = u32 (in_use cap') →
  slab_inv own cap' (set_used v m (put_zone a z' (set_zone_array A s))).
Proof.
  intros [[] Hruns Hfree Hin Hzone Hsmall Hlarge Hzok Harr Hzf Hcap Hused] Hz Haf Hok Hidx HA Hnd Hl Hcap' ->.
  assert (HA' : ∀ zj, zone_list zj (set_used (u32 (in_use cap')) m (put_zone a z' (set_zone_array A s))) =
    if decide (zj = z_zoneindex z) then l else zone_list zj s) by exact HA.
  inv_parts.
  - intros b x. rewrite Hzone. simpl. destruct (decide (b = a)) as [->|]; [|by rewrite lookup_insert_ne].
    rewrite lookup_insert_eq, Hz. split; (intros [_ ?]; split; [by eexists|done]).
  - intros b y Hb Hbf. rewrite HA'. simpl in Hb, Hbf. destruct (decide (b = a)) as [->|Hne].
    + rewrite lookup_insert_eq in Hb. injection Hb as <-. split; [done|]. intros Hn. rewrite Hidx, decide_True by done.
      apply Hl. by right.
    + rewrite lookup_insert_ne in Hb by done. destruct (Hzok _ _ Hb Hbf) as [? H2]. split; [done|]. intros Hn.
      specialize (H2 Hn). destruct (decide _) as [E|]; [|done]. apply Hl. left. by rewrite <- E.
  - intros zj. rewrite HA'. destruct (decide (zj = z_zoneindex z)) as [->|Hne].
    + split; [done|]. intros b [[Hb Hba]|[-> Hn]]%Hl; simpl.
      * rewrite lookup_insert_ne by done. by apply Harr.
      * rewrite lookup_insert_eq. split; [done|]. by exists z'.
    + destruct (Harr zj) as [Hn H2]. split; [done|]. intros b Hb. destruct (H2 b Hb) as (? & y & Hy & <- & ?).
      split; [done|]. exists y. simpl. rewrite lookup_insert_ne; [done|]. intros <-. rewrite Hz in Hy. congruence.
  - simpl. destruct Hzf as (? & H2 & ?). split_and!; [done| |done]. intros b Hb. destruct (decide (b = a)) as [->|]; [done|].
    rewrite lookup_insert_ne by done. by apply H2.
Qed.

(** Which blocks are small once the zone at [a] is [z']. *)
Lemma small_block_put s a z' p c : a ∉ zone_free s →
  small_block (put_zone a z' s) p c ↔
    chunk_live z' p ∧ c = z_chunksize z' ∨ small_block (set_zones (delete a (zones s)) s) p c.
Proof.
  intros Ha. unfold small_block. simpl. split.
  - intros (b & y & Hb & ? & ? & ->). destruct (decide (b = a)) as [->|Hne].
    + rewrite lookup_insert_eq in Hb. injection Hb as <-. by left.
    + right. exists b, y. rewrite lookup_insert_ne in Hb by done. by rewrite lookup_delete_ne by done.
  - intros [[? ->]|(b & y & Hb & ? & ? & ->)].
    + exists a, z'. by rewrite lookup_insert_eq.
    + apply lookup_delete_Some in Hb as [? Hb]. exists b, y. by rewrite lookup_insert_ne by done.
Qed.

Lemma small_block_split s a z p c : zones s !! a = Some z → a ∉ zone_free s →
  small_block s p c ↔ chunk_live z p ∧ c = z_chunksize z ∨ small_block (set_zones (delete a (zones s)) s) p c.
Proof.
  intros Hz Ha. rewrite <- small_block_put by done. unfold put_zone. rewrite insert_id by done. by destruct s.
Qed.

Lemma other_zone own cap s a p c : slab_inv own cap s → own p = OZone a →
  ¬ small_block (set_zones (delete a (zones s)) s) p c.
Proof.
  intros H Hp (b & y & Hb & Hf & Hl & ->). simpl in Hb. apply lookup_delete_Some in Hb as [Hne Hb].
  assert (own p = OZone b); [|congruence]. eapply (chunk_owner _ _ _ b y p); try done.
  destruct (si_zok _ _ _ H _ _ Hb Hf) as [Hok _]. destruct Hl as [(i & Hi & _) _].
  destruct (chunk_room _ _ _ _ Hok Hi) as (? & ? & ?). lia.
Qed.

(** Giving a chunk out, and taking it back. *)
Lemma inv_chunk_out own cap s a z z' A l p m : slab_inv own cap s →
  zones s !! a = Some z → a ∉ zone_free s → zone_ok (zone_size s) a z' → z_zoneindex z' = z_zoneindex z →
  (∀ zj, default [] (A !! zj) = if decide (zj = z_zoneindex z) then l else zone_list zj s) →
  NoDup l → (∀ b, b ∈ l ↔ b ∈ zone_list (z_zoneindex z) s ∧ b ≠ a ∨ b = a ∧ 0 < z_nfree z') →
  ¬ chunk_live z p → own p = OZone a → (∀ q, chunk_live z' q ↔ chunk_live z q ∨ q = p) →
  slab_inv own (<[p := z_chunksize z']> cap)
    (set_used (u32 (used_mem s + z_chunksize z')) m (put_zone a z' (set_zone_array A s))).
Proof.
  intros H Hz Ha Hok Hidx HA Hnd Hl Hp Ho Hlive. destruct (si_zok _ _ _ H _ _ Hz Ha) as [Hokz _].
  assert (Hcs : z_chunksize z' = z_chunksize z) by (rewrite (zk_size _ _ _ Hok), (zk_size _ _ _ Hokz); congruence).
  assert (Hcp : cap !! p = None).
  { destruct (cap !! p) as [c|] eqn:E; [|done]. apply (si_cap _ _ _ H) in E as [(n & E & _)|Hs]; [congruence|].
    apply (small_block_split s a z) in Hs as [[? _]|Hs]; [done| |done|done]. by destruct (other_zone _ _ _ _ _ _ H Ho Hs). }
  eapply inv_put_zone; try done.
  - intros q c. rewrite small_block_put by done. destruct (decide (q = p)) as [->|Hne].
    + rewrite lookup_insert_eq. split.
      * intros [= <-]. right. left. split; [apply Hlive; by right|done].
      * intros [(n & E & _)|[[_ ->]|Hs]]; [congruence|done|]. by destruct (other_zone _ _ _ _ _ _ H Ho Hs).
    + rewrite lookup_insert_ne, (si_cap _ _ _ H) by done. fold (small_block s q c). rewrite (small_block_split s a z) by done.
      rewrite Hlive, Hcs. tauto.
  - rewrite (si_used _ _ _ H), u32_add_l, in_use_insert by done. f_equal. lia.
Qed.

Lemma inv_chunk_back own cap s a z z' A l p m : slab_inv own cap s →
  zones s !! a = Some z → a ∉ zone_free s → zone_ok (zone_size s) a z' → z_zoneindex z' = z_zoneindex z →
  (∀ zj, default [] (A !! zj) = if decide (zj = z_zoneindex z) then l else zone_list zj s) →
  NoDup l → (∀ b, b ∈ l ↔ b ∈ zone_list (z_zoneindex z) s ∧ b ≠ a ∨ b = a ∧ 0 < z_nfree z') →
  chunk_live z p → own p = OZone a → (∀ q, chunk_live z' q ↔ chunk_live z q ∧ q ≠ p) →
  slab_inv own (delete p cap)
    (set_used (u32 (used_mem s - z_chunksize z)) m (put_zone a z' (set_zone_array A s))).
Proof.
  intros H Hz Ha Hok Hidx HA Hnd Hl Hp Ho Hlive. destruct (si_zok _ _ _ H _ _ Hz Ha) as [Hokz _].
  assert (Hcs : z_chunksize z' = z_chunksize z) by (rewrite (zk_size _ _ _ Hok), (zk_size _ _ _ Hokz); congruence).
  assert (Hcp : cap !! p = Some (z_chunksize z)).
  { apply (si_cap _ _ _ H). right. by exists a, z. }
  eapply inv_put_zone; try done.
  - intros q c. rewrite small_block_put by done. destruct (decide (q = p)) as [->|Hne].
    + rewrite lookup_delete_eq. split; [done|].
      intros [(n & E & _)|[[Hq _]|Hs]]; [congruence|by apply Hlive in Hq as []|]. by destruct (other_zone _ _ _ _ _ _ H Ho Hs).
    + rewrite lookup_delete_ne, (si_cap _ _ _ H) by done. fold (small_block s q c). rewrite (small_block_split s a z) by done.
      rewrite Hlive, Hcs. tauto.
  - rewrite (si_used _ _ _ H), u32_sub_l, (in_use_delete _ _ _ Hcp). f_equal. lia.
Qed.
