(* ===== verification/SlabZones.v ===== *)
(** * Zones of the slab allocator: the steps of [rt_malloc] and [rt_free]

    A chunk is taken from a zone or given back; a zone is opened on pages the
    allocator holds, retired when it is empty, and released. *)
From S2P Require Import Prelude KMemory Slab SlabPages SlabInv.
Local Open Scope Z_scope.

(** ** A chunk from an existing zone *)
Lemma chunk_index z i j : 0 < z_chunksize z →
  z_baseptr z + i * z_chunksize z = z_baseptr z + j * z_chunksize z → i = j.
Proof. intros ? E. nia. Qed.

(** Never used before: the next index. *)
Lemma fresh_chunk zs a z : zone_ok zs a z → 0 < z_nfree z → z_uindex z + 1 ≠ z_nmax z →
  let p := z_baseptr z + (z_uindex z + 1) * z_chunksize z in
  let z' := with_chunks (z_nfree z - 1) (z_uindex z + 1) (z_freechunk z) z in
  zone_ok zs a z' ∧ ¬ chunk_live z p ∧ ∀ q, chunk_live z' q ↔ chunk_live z q ∨ q = p.
Proof.
  intros Hok Hn Hu p z'. pose proof (class_size_range (z_zoneindex z) (zk_index _ _ _ Hok)) as [Hc _].
  rewrite <- (zk_size _ _ _ Hok) in Hc. destruct Hok as [? ? ? ? ? Hui Hnd Hfr Hnf].
  assert (Hp : ∀ i, 0 <= i <= z_uindex z → p ≠ z_baseptr z + i * z_chunksize z).
  { intros i Hi E. apply chunk_index in E; lia. }
  assert (Hpf : p ∉ z_freechunk z) by (intros (i & Hi & E)%Hfr; by apply (Hp i Hi)).
  split_and!.
  - constructor; try done; simpl; [lia| |lia]. intros c (i & Hi & ->)%Hfr. exists i. split; [lia|done].
  - intros [(i & Hi & E) _]. by apply (Hp i Hi).
  - intros q. unfold chunk_live. simpl. split.
    + intros [(i & Hi & ->) Hq]. destruct (Z.eq_dec i (z_uindex z + 1)) as [->|]; [by right|]. left.
      split; [exists i; split; [lia|done]|done].
    + intros [[(i & Hi & ->) Hq]| ->]; split; try done; [exists i|exists (z_uindex z + 1)]; split; try done; lia.
Qed.

(** The first free chunk. *)
Lemma reused_chunk zs a z : zone_ok zs a z → 0 < z_nfree z → z_uindex z + 1 = z_nmax z →
  ∃ p f, z_freechunk z = p :: f ∧ let z' := with_chunks (z_nfree z - 1) (z_uindex z) f z in
  zone_ok zs a z' ∧ ¬ chunk_live z p ∧ (∃ i, 0 <= i <= z_uindex z ∧ p = z_baseptr z + i * z_chunksize z) ∧
  ∀ q, chunk_live z' q ↔ chunk_live z q ∨ q = p.
Proof.
  intros [? ? ? ? ? Hui Hnd Hfr Hnf] Hn Hu. destruct (z_freechunk z) as [|p f] eqn:Ef; [simpl in Hnf; lia|].
  exists p, f. split; [done|]. apply NoDup_cons in Hnd as [Hpf Hnd].
  destruct (Hfr p) as (i & Hi & Hp); [by left|]. cbv zeta. split_and!.
  - constructor; try done; simpl; [|simpl in Hnf; lia]. intros c Hc. apply Hfr. by right.
  - intros [_ Hx]. apply Hx. rewrite Ef. by left.
  - by exists i.
  - intros q. unfold chunk_live. simpl. rewrite Ef. split.
    + intros [Hq Hqf]. destruct (decide (q = p)) as [->|]; [by right|]. left. split; [done|]. by intros [->|?]%elem_of_cons.
    + intros [[Hq Hqf]| ->]; split; try done; [intros Hf; apply Hqf; by right|by exists i].
Qed.

Lemma pop_list own cap s a z rest zi nf : slab_inv own cap s → zones s !! a = Some z → a ∉ zone_free s →
  zone_list zi s = a :: rest → 0 <= nf → 
  ∃ A l, (if nf =? 0 then put_zone_list zi rest s else s) = set_zone_array A s ∧ zi = z_zoneindex z ∧
    (∀ zj, default [] (A !! zj) = if decide (zj = zi) then l else zone_list zj s) ∧ NoDup l ∧
    ∀ b, b ∈ l ↔ b ∈ zone_list zi s ∧ b ≠ a ∨ b = a ∧ 0 < nf.
Proof.
  intros H Hz Ha El Hnf. destruct (si_array _ _ _ H zi) as [Hnd Hin].
  destruct (Hin a) as (_ & y & Hy & Hzi & _); [rewrite El; by left|]. assert (y = z) as -> by congruence.
  rewrite El in Hnd |- *. pose proof Hnd as [Har Hnd']%NoDup_cons.
  destruct (Z.eqb_spec nf 0) as [->|Hne].
  - exists (<[zi := rest]> (zone_array s)), rest. split_and!; try done.
    + intros zj. destruct (decide (zj = zi)) as [->|]; [by rewrite lookup_insert_eq|by rewrite lookup_insert_ne].
    + intros b. rewrite elem_of_cons. split; [intros Hb; left; split; [by right|congruence]|intros [[[->|?] ?]|[_ ?]]; [done|done|lia]].
  - exists (zone_array s), (a :: rest). split_and!; try done.
    + by destruct s.
    + intros zj. destruct (decide (zj = zi)) as [->|]; done.
    + intros b. rewrite elem_of_cons. destruct (decide (b = a)); intuition lia.
Qed.

Lemma zone_in_heap own cap s a : slab_inv own cap s → is_Some (zones s !! a) →
  heap_start s <= a ∧ a + zone_size s <= heap_end s.
Proof.
  intros H Hz. pose proof (si_geom _ _ _ H) as [_ _ Hzs _ _].
  assert (Hx : ∀ x, a <= x < a + zone_size s → heap_start s <= x < heap_end s).
  { intros x Hx. apply (si_in _ _ _ H). by rewrite (proj2 (si_zone _ _ _ H a x)). }
  pose proof (Hx a). pose proof (Hx (a + zone_size s - 1)). lia.
Qed.

Lemma chunk_aligned zs a z i : zone_ok zs a z → (z_baseptr z + i * z_chunksize z) mod 8 = 0.
Proof.
  intros Hok. destruct (zk_base _ _ _ Hok) as [_ Hb]. destruct (class_size_range _ (zk_index _ _ _ Hok)) as [_ Hc].
  rewrite (zk_size _ _ _ Hok), Z.add_mod, Z.mul_mod, Hb, Hc by done. by rewrite Z.mul_0_r.
Qed.

(** The chunk [p] is served by the zone, whose record becomes [z']. *)
Lemma serve_chunk own cap s a z z' A l p : slab_inv own cap s →
  zones s !! a = Some z → a ∉ zone_free s → zone_ok (zone_size s) a z' → z_zoneindex z' = z_zoneindex z →
  (∀ zj, default [] (A !! zj) = if decide (zj = z_zoneindex z) then l else zone_list zj s) →
  NoDup l → (∀ b, b ∈ l ↔ b ∈ zone_list (z_zoneindex z) s ∧ b ≠ a ∨ b = a ∧ 0 < z_nfree z') →
  ¬ chunk_live z p → (∃ i, 0 <= i <= z_uindex z' ∧ p = z_baseptr z' + i * z_chunksize z') →
  (∀ q, chunk_live z' q ↔ chunk_live z q ∨ q = p) →
  slab_inv own (<[p := z_chunksize z']> cap) (account (z_chunksize z') (put_zone a z' (set_zone_array A s))) ∧
  cap !! p = None.
Proof.
  intros H Hz Ha Hok Hidx HA Hnd Hl Hp (i & Hi & ->) Hlive. destruct (chunk_room _ _ _ _ Hok Hi) as (? & ? & ?).
  assert (Ho : own (z_baseptr z' + i * z_chunksize z') = OZone a).
  { apply (si_zone _ _ _ H). split; [by eexists|]. unfold SIZEOF_SLAB_ZONE in *. lia. }
  split; [by eapply (inv_chunk_out _ _ s a z z' A l)|].
  destruct (cap !! _) as [c|] eqn:E; [|done]. apply (si_cap _ _ _ H) in E as [(k & E & _)|Hs]; [congruence|].
  apply (small_block_split s a z) in Hs as [[? _]|Hs]; [done| |done|done]. by destruct (other_zone _ _ _ _ _ _ H Ho Hs).
Qed.

Lemma malloc_from_zone_ok own cap s zi a rest : slab_inv own cap s → zone_list zi s = a :: rest →
  ∃ s' p, malloc_from_zone (class_size zi) zi a rest s = Ok (s', p) ∧
    slab_inv own (<[p := class_size zi]> cap) s' ∧ cap !! p = None ∧ heap_sem s' = heap_sem s ∧ same_heap s s'.
Proof.
  intros H El. destruct (si_array _ _ _ H zi) as [_ Hin].
  destruct (Hin a) as (Ha & z & Hz & Hzi & Hn); [rewrite El; by left|].
  destruct (si_zok _ _ _ H _ _ Hz Ha) as [Hok _].
  pose proof (zk_size _ _ _ Hok) as Hsz. rewrite Hzi in Hsz.
  destruct (pop_list own cap s a z rest zi (z_nfree z - 1) H Hz Ha El) as (A & l & ES & _ & HA & Hnd & Hl); [lia|].
  rewrite <- Hzi in HA, Hl. unfold malloc_from_zone, get_zone. rewrite Hz. cbn [of_option mbind res_bind].
  rewrite (proj2 (Z.ltb_lt 0 (z_nfree z)) Hn). cbn [rt_assert require mbind res_bind]. rewrite ES, <- Hsz.
  destruct (Z.eqb_spec (z_uindex z + 1) (z_nmax z)) as [Hu|Hu]; cbn [negb].
  - destruct (reused_chunk _ _ _ Hok Hn Hu) as (p & f & -> & Hok' & Hp & Hi & Hlive). cbn [mbind res_bind].
    destruct (serve_chunk own cap s a z _ A l p H Hz Ha Hok') as [? ?]; try done. by eexists _, p.
  - destruct (fresh_chunk _ _ _ Hok Hn Hu) as (Hok' & Hp & Hlive). cbn [mbind res_bind].
    assert (Hi : 0 <= z_uindex z + 1 <= z_uindex z + 1) by (pose proof (zk_uindex _ _ _ Hok); lia).
    pose proof (chunk_room _ _ _ _ Hok' Hi) as (Hr1 & Hr2 & _). cbn [z_baseptr with_chunks z_chunksize] in Hr1, Hr2.
    destruct (zone_in_heap _ _ _ a H) as [? ?]; [by eexists|]. pose proof (si_geom _ _ _ H) as [[? ?] [? ?] _ _ _].
    assert (0 < z_chunksize z) by (pose proof (class_size_range _ (zk_index _ _ _ Hok)); rewrite (zk_size _ _ _ Hok); lia).
    unfold SIZEOF_SLAB_ZONE in Hr1.
    assert (Hx : u32 (z_baseptr z + (z_uindex z + 1) * z_chunksize z) = z_baseptr z + (z_uindex z + 1) * z_chunksize z)
      by (apply Z.mod_small; lia). rewrite Hx.
    destruct (serve_chunk own cap s a z _ A l (z_baseptr z + (z_uindex z + 1) * z_chunksize z) H Hz Ha Hok') as [? ?]; try done.
    { by exists (z_uindex z + 1). }
    by eexists _, _.
Qed.

(** ** Page descriptors *)
Lemma small_pages_spec n : ∀ i off s, ∃ u, small_pages n i off s = set_usage u s ∧
  ∀ j, u !! j = if decide (i <= j < i + Z.of_nat n) then Some (mk_usage PAGE_TYPE_SMALL ((off + (j - i)) `mod` 2 ^ 30))
                else usage s !! j.
Proof.
  induction n as [|n IH]; intros i off s; cbn [small_pages].
  - exists (usage s). split; [by destruct s|]. intros j. rewrite decide_False by lia. done.
  - destruct (IH (i + 1) (off + 1) (put_usage i PAGE_TYPE_SMALL off s)) as (u & -> & Hu). exists u. split; [done|].
    intros j. rewrite Hu. simpl usage. destruct (decide (j = i)) as [->|Hj].
    + rewrite decide_False, decide_True, lookup_insert_eq by lia. do 3 f_equal. lia.
    + rewrite lookup_insert_ne by done. destruct (decide _), (decide _); try lia; try done.
      do 3 f_equal. lia.
Qed.

Lemma free_pages_spec n : ∀ i s, ∃ u, free_pages n i s = set_usage u s ∧
  ∀ j, ¬ i <= j < i + Z.of_nat n → u !! j = usage s !! j.
Proof.
  induction n as [|n IH]; intros i s; cbn [free_pages].
  - exists (usage s). split; [by destruct s|done].
  - destruct (IH (i + 1) (put_usage i PAGE_TYPE_FREE 0 s)) as (u & -> & Hu). exists u. split; [done|].
    intros j Hj. rewrite Hu by lia. simpl. by rewrite lookup_insert_ne by lia.
Qed.

(** ** Opening a zone *)

Definition offset_good (size : Z) : bool :=
  let off := zone_offset size in (SIZEOF_SLAB_ZONE <=? off) && (off <=? Z.max 64 size) && (off mod 8 =? 0).

Lemma zone_offset_good zi : 0 <= zi < 72 → offset_good (class_size zi) = true.
Proof.
  intros H. assert (Hall : forallb (λ k, offset_good (class_size (Z.of_nat k))) (seq 0 72) = true) by (vm_compute; reflexivity).
  rewrite forallb_forall in Hall. specialize (Hall (Z.to_nat zi)). rewrite Z2Nat.id in Hall by lia. apply Hall.
  apply in_seq. lia.
Qed.

Lemma zone_pages s a x : geometry s → within a (zone_page_cnt s) x ↔ a <= x < a + zone_size s.
Proof. intros [_ _ Hz _ ->]. unfold within. destruct Hz as [->|[->| ->]]; done. Qed.

Lemma fresh_zone_ok zs a zi size : 0 <= zi < 72 → size = class_size zi → size <= zs / 4 → zs mod 8 = 0 → 512 <= zs → a mod 8 = 0 →
  0 <= a → a + zs < 4294967296 →
  let z := fresh_zone a zi size zs in
  zone_ok zs a z ∧ 0 < z_nfree z ∧ (∀ q, chunk_live z q ↔ q = z_baseptr z) ∧ z_baseptr z = a + zone_offset size.
Proof.
  intros Hzi -> Hs H8 Hzs Ha8 Ha Hend z. pose proof (zone_offset_good zi Hzi) as Ho. unfold offset_good in Ho.
  apply andb_true_iff in Ho as [[Ho1%Z.leb_le Ho2%Z.leb_le]%andb_true_iff Ho3%Z.eqb_eq].
  pose proof (class_size_range zi Hzi) as [Hc Hc8]. 
  assert (Hb : z_baseptr z = a + zone_offset (class_size zi)).
  { unfold z, fresh_zone. cbn [z_baseptr]. unfold u32. apply Z.mod_small. unfold SIZEOF_SLAB_ZONE in *. lia. }
  set (size := class_size zi) in *. set (off := zone_offset size) in *.
  assert (Hnm : 2 <= z_nmax z ∧ z_nmax z * size <= zs - off).
  { unfold z, fresh_zone. cbn [z_nmax]. fold off.
    assert (2 <= (zs - off) / size) by (apply Z.div_le_lower_bound; lia).
    split; [done|]. rewrite Z.mul_comm. apply Z.mul_div_le. lia. }
  assert (Hn : z_nfree z = z_nmax z - 1) by done.
  split_and!; [|lia| |done].
  - constructor; try done.
    + rewrite Hb. unfold SIZEOF_SLAB_ZONE in *. lia.
    + rewrite Hb. change (z_chunksize z) with size. lia.
    + change (z_uindex z) with 0. lia.
    + constructor.
    + by intros c ?%elem_of_nil.
    + rewrite Hn. change (z_uindex z) with 0. simpl. lia.
  - intros q. unfold chunk_live. change (z_uindex z) with 0. change (z_freechunk z) with (@nil Z). split.
    + intros [(i & Hi & ->) _]. assert (i = 0) as -> by lia. lia.
    + intros ->. split; [exists 0; lia|apply not_elem_of_nil].
Qed.

(** A zone with one chunk in use joins the list of its index, on pages the
    allocator holds. *)
Section new_zone.
  Context (own : Z → owner) (cap : gmap Z Z) (s : slab) (a : Z) (z : slab_zone) (p : Z).
  Context (H : slab_inv own cap s) (Hza : zones s !! a = None) (Ha : a mod 4096 = 0)
    (Hlo : heap_start s <= a) (Hhi : a + zone_size s <= heap_end s)
    (Ht : ∀ x, within a (zone_page_cnt s) x → own x = OTaken)
    (Hus : ∀ x, within a (zone_page_cnt s) x → usage s !! page_index s x = Some (mk_usage PAGE_TYPE_SMALL ((x - a) / 4096)))
    (Hok : zone_ok (zone_size s) a z) (Hn : 0 < z_nfree z) (Hlive : ∀ q, chunk_live z q ↔ q = p).
Let own' := give a (zone_page_cnt s) (OZone a) own.
Let s' := put_zone_list (z_zoneindex z) (a :: zone_list (z_zoneindex z) s) (put_zone a z s).

Lemma new_zone_room : within a (zone_page_cnt s) p ∧ cap !! p = None ∧ (a ∉ zone_free s) ∧ ∀ zj, a ∉ zone_list zj s.
Proof.
  assert (Hw : within a (zone_page_cnt s) p).
  { destruct (proj2 (Hlive p) eq_refl) as [(i & Hi & ->) _]. destruct (chunk_room _ _ _ _ Hok Hi) as (? & ? & ?).
    apply zone_pages; [apply (si_geom _ _ _ H)|unfold SIZEOF_SLAB_ZONE in *; lia]. }
  split_and!; [done| | |].
  - apply (cap_none own cap s); [done|right; by apply Ht].
  - intros Hf. destruct (proj1 (proj2 (si_zfree _ _ _ H)) a Hf). congruence.
  - intros zj Hj. destruct (proj2 (si_array _ _ _ H zj) a Hj) as (_ & y & Hy & _). congruence.
Qed.

Lemma new_zone_owner o x : o ≠ OTaken → o ≠ OZone a → own' x = o ↔ own x = o.
Proof. intros Ho1 Ho2. apply give_other; [congruence|]. intros y Hy. rewrite Ht by done. congruence. Qed.

Lemma new_zone_array zi : NoDup (zone_list zi s') ∧ ∀ b, b ∈ zone_list zi s' →
  (b ∉ zone_free s) ∧ ∃ y, zones s' !! b = Some y ∧ z_zoneindex y = zi ∧ 0 < z_nfree y.
Proof.
  destruct new_zone_room as (_ & _ & Haf & Hal). destruct (si_array _ _ _ H zi) as [Hnd Hall].
  unfold s', zone_list. simpl. destruct (decide (zi = z_zoneindex z)) as [->|Hne].
  - rewrite lookup_insert_eq. simpl. split; [apply NoDup_cons; split; [apply Hal|done]|].
    intros b [->|Hb]%elem_of_cons; [split; [done|]; exists z; by rewrite lookup_insert_eq|].
    destruct (Hall b Hb) as (? & y & Hy & ?). split; [done|]. exists y. rewrite lookup_insert_ne; [done|congruence].
  - rewrite lookup_insert_ne by done. split; [done|]. intros b Hb. destruct (Hall b Hb) as (? & y & Hy & ?).
    split; [done|]. exists y. rewrite lookup_insert_ne; [done|congruence].
Qed.

Lemma new_zone_listed b y : zones s' !! b = Some y → b ∉ zone_free s →
  zone_ok (zone_size s) b y ∧ (0 < z_nfree y → b ∈ zone_list (z_zoneindex y) s').
Proof.
  unfold s', zone_list. simpl. destruct (decide (b = a)) as [->|Hne].
  - rewrite lookup_insert_eq. intros [= <-] _. split; [done|]. intros _. rewrite lookup_insert_eq. by left.
  - rewrite lookup_insert_ne by done. intros Hb Hbf. destruct (si_zok _ _ _ H _ _ Hb Hbf) as [? Hyl]. split; [done|].
    intros Hny. destruct (decide (z_zoneindex y = z_zoneindex z)) as [<-|]; [rewrite lookup_insert_eq; right; by apply Hyl|].
    rewrite lookup_insert_ne by done. by apply Hyl.
Qed.

Lemma new_zone_blocks q c : <[p := z_chunksize z]> cap !! q = Some c ↔
  (∃ n, own' q = OLarge q n ∧ c = n * 4096) ∨ small_block s' q c.
Proof.
  destruct new_zone_room as (Hw & Hcp & Haf & _).
  change (small_block s' q c) with (small_block (put_zone a z s) q c).
  rewrite small_block_put by done. rewrite Hlive, delete_id by done. replace (set_zones (zones s) s) with s by by destruct s.
  setoid_rewrite new_zone_owner; [|done|done]. destruct (decide (q = p)) as [->|Hne].
  - rewrite lookup_insert_eq. split; [intros [= <-]; right; by left|].
    intros [(n & E & _)|[[_ ->]|Hs]]; [rewrite Ht in E by done; done|done|].
    destruct (small_owner _ _ _ _ _ H Hs) as [b E]. rewrite Ht in E by done. done.
  - rewrite lookup_insert_ne, (si_cap _ _ _ H) by done. unfold small_block. tauto.
Qed.

Lemma inv_new_zone : slab_inv own' (<[p := z_chunksize z]> cap) (account (z_chunksize z) s').
Proof.
  destruct new_zone_room as (Hw & Hcp & Haf & Hal). pose proof new_zone_owner as Hgo.
  pose proof (si_geom _ _ _ H) as Hg. pose proof (λ x, zone_pages s a x Hg) as Hzp.
  pose proof H as [[] Hruns Hfree Hin Hzone Hsmall Hlarge _ _ Hzf _ Hused]. unfold s'. inv_parts.
  - intros x. rewrite <- Hfree. by apply Hgo.
  - intros x Hx. unfold own' in Hx. destruct (decide (within a (zone_page_cnt s) x)) as [Hx'|Hx']; [apply Hzp in Hx'; simpl; lia|].
    rewrite give_out in Hx by done. by apply Hin.
  - intros b x. unfold own'. simpl. unfold give. destruct (decide (within a (zone_page_cnt s) x)) as [Hx|Hx].
    + split; [intros [= <-]; rewrite lookup_insert_eq; split; [by eexists|by apply Hzp]|].
      intros [Hb Hbx]. destruct (decide (b = a)) as [->|Hne]; [done|]. rewrite lookup_insert_ne in Hb by done.
      assert (own x = OZone b) by by apply Hzone. rewrite Ht in * by done. done.
    + rewrite Hzone. destruct (decide (b = a)) as [->|Hne]; [|by rewrite lookup_insert_ne].
      rewrite Hza, lookup_insert_eq. split; [by intros [[y ?] _]|]. intros [_ Hy]. by apply Hzp in Hy.
  - intros b x. unfold own', give. destruct (decide (within a (zone_page_cnt s) x)) as [Hx|Hx]; [|apply Hsmall].
    intros [= <-]. split; [done|by apply Hus].
  - intros q k x Hx%Hgo; try done. destruct (Hlarge _ _ _ Hx) as (? & ? & ? & H4 & ?). split_and!; try done.
    intros y Hy. apply Hgo; try done. by apply H4.
  - exact new_zone_listed.
  - exact new_zone_array.
  - destruct Hzf as (? & Hb & ?). split_and!; [done| |done]. intros b Hbf. simpl.
    rewrite lookup_insert_ne by (by intros <-). by apply Hb.
  - exact new_zone_blocks.
  - simpl. rewrite Hused, u32_add_l, in_use_insert by done. f_equal. lia.
Qed.
End new_zone.

Lemma open_zone_ok own cap s a zi : slab_inv own cap s → zones s !! a = None → a mod 4096 = 0 →
  heap_start s <= a → a + zone_size s <= heap_end s → 0 <= zi < 72 → class_size zi <= zone_limit s →
  (∀ x, within a (zone_page_cnt s) x → own x = OTaken) →
  (∀ x, within a (zone_page_cnt s) x → usage s !! page_index s x = Some (mk_usage PAGE_TYPE_SMALL ((x - a) / 4096))) →
  let '(s', p) := open_zone a zi (class_size zi) s in
  slab_inv (give a (zone_page_cnt s) (OZone a) own) (<[p := class_size zi]> cap) s' ∧ cap !! p = None ∧ heap_sem s' = heap_sem s.
Proof.
  intros H Hza Ha Hlo Hhi Hzi Hlim Ht Hus. pose proof (si_geom _ _ _ H) as [[? ?] [? ?] Hzs Hl _].
  destruct (fresh_zone_ok (zone_size s) a zi (class_size zi)) as (Hok & Hn & Hlive & Hbase); try done; try lia.
  set (z := fresh_zone a zi (class_size zi) (zone_size s)) in *. unfold open_zone. fold z.
  change (z_uindex z) with 0. rewrite Z.mul_0_l, Z.add_0_r.
  assert (Hp : u32 (z_baseptr z) = z_baseptr z).
  { destruct (chunk_room _ _ _ 0 Hok) as (Hb1 & Hb2 & Hb3); [change (z_uindex z) with 0; lia|].
    rewrite Z.mul_0_l, Z.add_0_r in Hb1, Hb2. unfold SIZEOF_SLAB_ZONE in *. apply Z.mod_small. lia. }
  rewrite Hp. split_and!; [by apply (inv_new_zone own cap s a z (z_baseptr z))| |done]. by eapply (new_zone_room own cap s a z).
Qed.

(** ** Giving a chunk back *)
Lemma free_chunk_ok own cap s a z p : slab_inv own cap s → zones s !! a = Some z → a ∉ zone_free s → chunk_live z p →
  let z' := with_chunks (z_nfree z + 1) (z_uindex z) (p :: z_freechunk z) z in
  slab_inv own (delete p cap) (free_chunk p a z s) ∧ zones (free_chunk p a z s) !! a = Some z' ∧
  zone_free (free_chunk p a z s) = zone_free s ∧ heap_sem (free_chunk p a z s) = heap_sem s.
Proof.
  intros H Hz Ha Hl z'. destruct (si_zok _ _ _ H _ _ Hz Ha) as [Hok Hlist]. pose proof Hok as [? Hzi Hsz ? ? Hu Hnd Hfr Hn].
  pose proof Hl as [Hi Hpf]. pose proof (class_size_range _ Hzi) as [Hc _]. rewrite <- Hsz in Hc.
  assert (Hok' : zone_ok (zone_size s) a z').
  { constructor; try done; simpl; [by apply NoDup_cons| |lia]. by intros c [->|Hc']%elem_of_cons; [|apply Hfr]. }
  assert (Ho : own p = OZone a) by (eapply (chunk_owner _ _ _ a z p); try done; lia).
  assert (Hlive : ∀ q, chunk_live z' q ↔ chunk_live z q ∧ q ≠ p).
  { intros q. unfold chunk_live. simpl. rewrite not_elem_of_cons. tauto. }
  destruct (si_array _ _ _ H (z_zoneindex z)) as [Hnd' Hall].
  assert (0 <= z_nfree z) by lia.
  unfold free_chunk. destruct (Z.eqb_spec (z_nfree z) 0) as [E|E].
  - split_and!; [|apply lookup_insert_eq|done|done].
    assert (Hal : a ∉ zone_list (z_zoneindex z) s).
    { intros (_ & y & Hy & _ & ?)%Hall. assert (y = z) as -> by congruence. lia. }
    change (slab_inv own (delete p cap) (set_used (u32 (used_mem s - z_chunksize z)) (max_mem s)
      (put_zone a z' (set_zone_array (<[z_zoneindex z := a :: zone_list (z_zoneindex z) s]> (zone_array s)) s)))).
    apply (inv_chunk_back own cap s a z z' (<[z_zoneindex z := a :: zone_list (z_zoneindex z) s]> (zone_array s))
      (a :: zone_list (z_zoneindex z) s) p (max_mem s)); try done.
    + intros zj. destruct (decide _) as [->|]; [by rewrite lookup_insert_eq|by rewrite lookup_insert_ne].
    + by apply NoDup_cons.
    + intros b. rewrite elem_of_cons. simpl. destruct (decide (b = a)) as [->|]; [|tauto].
      split; [intros _; right; split; [done|lia]|intros _; by left].
  - split_and!; [|apply lookup_insert_eq|done|done].
    apply (inv_chunk_back own cap s a z z' (zone_array s) (zone_list (z_zoneindex z) s) p (max_mem s)); try done.
    + intros zj. by destruct (decide _) as [->|].
    + intros b. simpl. destruct (decide (b = a)) as [->|]; [|tauto].
      split; [intros _; right; split; [done|lia]|intros _; apply Hlist; lia].
Qed.

(** When all chunks are free none is in use. *)
Lemma empty_zone zs a z : zone_ok zs a z → z_nfree z = z_nmax z → ∀ q, ¬ chunk_live z q.
Proof.
  intros [_ Hzi Hsz _ _ Hu Hnd Hfr Hn] He q [(i & Hi & ->) Hq]. apply Hq.
  set (all := (λ k, z_baseptr z + Z.of_nat k * z_chunksize z) <$> seq 0 (Z.to_nat (z_uindex z + 1))).
  assert (Hall : ∀ c, c ∈ all ↔ ∃ i, 0 <= i <= z_uindex z ∧ c = z_baseptr z + i * z_chunksize z).
  { intros c. unfold all. rewrite list_elem_of_fmap. split.
    - intros (k & -> & Hk%elem_of_seq). exists (Z.of_nat k). split; [lia|done].
    - intros (j & Hj & ->). exists (Z.to_nat j). rewrite Z2Nat.id by lia. split; [done|]. apply elem_of_seq. lia. }
  assert (Hp : z_freechunk z ≡ₚ all).
  { apply submseteq_length_Permutation.
    - apply NoDup_submseteq; [done|]. intros c Hc. by apply Hall, Hfr.
    - unfold all. rewrite length_fmap, length_seq. lia. }
  rewrite Hp. apply Hall. by exists i.
Qed.

Lemma unlink_zone_ok a l : NoDup l → a ∈ l → ∃ l', unlink_zone a l = Ok l' ∧ NoDup l' ∧ ∀ b, b ∈ l' ↔ b ∈ l ∧ b ≠ a.
Proof.
  induction l as [|c l IH]; intros Hnd Ha; [by apply elem_of_nil in Ha|]. apply NoDup_cons in Hnd as [Hc Hnd]. simpl.
  destruct (Z.eqb_spec c a) as [->|Hne].
  - exists l. split_and!; [done|done|]. intros b. rewrite elem_of_cons. split; [|tauto].
    intros Hb. split; [by right|by intros ->].
  - apply elem_of_cons in Ha as [->|Ha]; [done|]. destruct (IH Hnd Ha) as (l' & -> & Hn & Hl). exists (c :: l').
    split_and!; [done| |].
    + apply NoDup_cons. split; [by intros [? _]%Hl|done].
    + intros b. rewrite !elem_of_cons, Hl. destruct (decide (b = c)) as [->|]; intuition.
Qed.

Lemma retire_zone_ok own cap s a z : slab_inv own cap s → zones s !! a = Some z → a ∉ zone_free s →
  z_nfree z = z_nmax z →
  ∃ s', retire_zone a z s = Ok s' ∧ slab_inv own cap s' ∧ zone_free s' = a :: zone_free s ∧ heap_sem s' = heap_sem s.
Proof.
  intros H Hz Ha He. pose proof H as [[] Hruns Hfree Hin Hzone Hsmall Hlarge Hzok Harr Hzf Hcap Hused].
  destruct (Hzok _ _ Hz Ha) as [Hok Hlist]. pose proof (zk_uindex _ _ _ Hok).
  destruct (Harr (z_zoneindex z)) as [Hnd Hall].
  destruct (unlink_zone_ok a (zone_list (z_zoneindex z) s)) as (l & El & Hnl & Hl); [done|apply Hlist; lia|].
  unfold retire_zone. rewrite El. cbn [mbind res_bind]. eexists. split; [done|]. split; [|done].
  inv_parts.
  - intros b x. rewrite Hzone. simpl. destruct (decide (b = a)) as [->|]; [|by rewrite lookup_insert_ne].
    rewrite lookup_insert_eq, Hz. split; (intros [_ ?]; split; [by eexists|done]).
  - intros b y. simpl. intros Hb [Hne Hbf]%not_elem_of_cons. rewrite lookup_insert_ne in Hb by done.
    destruct (Hzok _ _ Hb Hbf) as [? Hyl]. split; [done|]. intros Hn. specialize (Hyl Hn). unfold zone_list. simpl.
    destruct (decide (z_zoneindex y = z_zoneindex z)) as [E|]; [|by rewrite lookup_insert_ne].
    rewrite E, lookup_insert_eq. simpl. apply Hl. by rewrite <- E.
  - intros zj. unfold zone_list. simpl. destruct (decide (zj = z_zoneindex z)) as [->|Hne].
    + rewrite lookup_insert_eq. simpl. split; [done|]. intros b [Hb Hba]%Hl. rewrite lookup_insert_ne by done.
      destruct (Hall b Hb) as (? & ?). split; [by apply not_elem_of_cons|done].
    + rewrite lookup_insert_ne by done. destruct (Harr zj) as [Hndj Hj]. split; [done|]. intros b Hb.
      destruct (Hj b Hb) as (? & y & Hy & Hyj & ?). assert (b ≠ a) by (intros ->; congruence).
      rewrite lookup_insert_ne by done. split; [by apply not_elem_of_cons|by exists y].
  - simpl. destruct Hzf as (Hn & Hs & ->). split_and!; [by apply NoDup_cons| |lia].
    intros b [->|Hb]%elem_of_cons; [rewrite lookup_insert_eq; by eexists|]. rewrite lookup_insert_ne by (by intros <-). by apply Hs.
  - intros p c. rewrite Hcap. fold (small_block s p c).
    rewrite (small_block_split s a z) by done. unfold small_block. simpl. split; (intros [?|Hb]; [by left|right]).
    + destruct Hb as [[Hb _]|(b & y & [? Hb]%lookup_delete_Some & Hbf & ?)]; [by apply (empty_zone _ _ _ Hok He) in Hb|].
      exists b, y. rewrite lookup_insert_ne by done. split; [done|]. split; [by apply not_elem_of_cons|done].
    + destruct Hb as (b & y & Hb & [Hne Hbf]%not_elem_of_cons & ?). rewrite lookup_insert_ne in Hb by done.
      right. exists b, y. by rewrite lookup_delete_ne by done.
Qed.

(** The first spare zone leaves the allocator's lists. *)
Lemma drop_zone own cap s a rest : slab_inv own cap s → zone_free s = a :: rest →
  slab_inv (give a (zone_page_cnt s) OTaken own) cap
    (set_zones (delete a (zones s)) (set_zone_free rest (zone_free_cnt s - 1) s)) ∧
  a mod 4096 = 0 ∧ heap_start s <= a ∧ a + zone_size s <= heap_end s ∧
  (∀ x, within a (zone_page_cnt s) x → usage s !! page_index s x = Some (mk_usage PAGE_TYPE_SMALL ((x - a) / 4096))).
Proof.
  intros H Ef. pose proof H as [Hg Hruns Hfree Hin Hzone Hsmall Hlarge Hzok Harr Hzf Hcap Hused].
  pose proof (zone_pages s a) as Hzp. pose proof Hg as [_ _ Hzs _ _]. destruct Hzf as (Hnd & Hdom & Hcnt).
  rewrite Ef in Hnd. apply NoDup_cons in Hnd as [Har Hnd].
  assert (Hof : ∀ x, within a (zone_page_cnt s) x → own x = OZone a).
  { intros x Hx. apply Hzone. split; [apply Hdom; rewrite Ef; by left|by apply Hzp]. }
  assert (Hw : ∀ x, a <= x < a + zone_size s → within a (zone_page_cnt s) x) by (intros x Hx; by apply Hzp).
  assert (Hgo : ∀ o x, o ≠ OTaken → o ≠ OZone a → give a (zone_page_cnt s) OTaken own x = o ↔ own x = o).
  { intros o x Ho1 Ho2. apply give_other; [congruence|]. intros y Hy. rewrite Hof by done. congruence. }
  assert (Hrange : ∀ x, a <= x < a + zone_size s → heap_start s <= x < heap_end s).
  { intros x Hx. apply Hin. by rewrite Hof by auto. }
  split_and!.
  2:{ apply (Hsmall a a), Hof, Hw. lia. } 2:{ apply Hrange. lia. }
  2:{ pose proof (Hrange (a + zone_size s - 1)). lia. } 2:{ intros x Hx. by apply Hsmall, Hof. }
  destruct Hg. inv_parts.
  - intros x. rewrite <- Hfree. by apply Hgo.
  - intros x Hx. unfold give in Hx. destruct (decide _); [done|by apply Hin].
  - intros b x. simpl. destruct (decide (b = a)) as [->|Hne].
    + rewrite lookup_delete_eq. split; [|by intros [[??] _]]. unfold give. destruct (decide _) as [|Hx]; [done|].
      intros [_ E]%Hzone. destruct Hx. by apply Hw.
    + rewrite lookup_delete_ne, <- Hzone by done. apply Hgo; congruence.
  - intros b x Hx. unfold give in Hx. destruct (decide _); [done|by apply Hsmall].
  - intros p k x Hx%Hgo; try done. destruct (Hlarge _ _ _ Hx) as (? & ? & ? & H4 & ?). split_and!; try done.
    intros y Hy. apply Hgo; try done. by apply H4.
  - intros b y Hb Hbf. simpl in Hb. apply lookup_delete_Some in Hb as [Hne Hb]. apply Hzok; [done|]. rewrite Ef. by apply not_elem_of_cons.
  - intros zj. destruct (Harr zj) as [? Hall]. split; [done|]. intros b Hb.
    destruct (Hall b Hb) as (Hbf & y & Hy & ?). rewrite Ef in Hbf. apply not_elem_of_cons in Hbf as [? ?].
    split; [done|]. exists y. simpl. by rewrite lookup_delete_ne by done.
  - simpl. split_and!; [done| |rewrite Hcnt, Ef; simpl; lia]. intros b Hb.
    rewrite lookup_delete_ne by (by intros <-). apply Hdom. rewrite Ef. by right.
  - intros p c. rewrite Hcap. simpl. split; (intros [(n & E & ->)|(b & y & Hb & Hbf & ?)];
      [left; exists n; split; [by apply Hgo in E || apply Hgo|done]|right; exists b, y]).
    + rewrite Ef in Hbf. apply not_elem_of_cons in Hbf as [? ?]. by rewrite lookup_delete_ne by done.
    + apply lookup_delete_Some in Hb as [? ?]. rewrite Ef. split; [done|]. split; [by apply not_elem_of_cons|done].
Qed.
