(* ===== verification/SlabProps.v ===== *)
(** * Correctness of the slab allocator

    [rt_malloc] and [rt_free] on every branch, [rt_realloc] and [rt_calloc] with
    the data, and the whole allocator against an ideal heap in which a block is
    a list of bytes. *)
From S2P Require Import Prelude KMemory Slab SlabPages SlabInv SlabZones.
Local Open Scope Z_scope.

(** ** Blocks *)

Lemma block_owner own cap s p c x : slab_inv own cap s → cap !! p = Some c → p <= x < p + c →
  own x = own p ∧ own x ≠ OTaken ∧ 0 < c.
Proof.
  intros H [(n & Ho & ->)|(a & z & Hz & Ha & Hl & ->)]%(si_cap _ _ _ H) Hx.
  - destruct (si_large _ _ _ H _ _ _ Ho) as (? & _ & _ & Hall & _). rewrite Ho, Hall by (unfold within; lia). split_and!; [done|done|lia].
  - rewrite (chunk_owner _ _ _ a z p x H), (chunk_owner _ _ _ a z p p H) by (done || lia). split_and!; [done|done|lia].
Qed.

Lemma block_pos own cap s p c : slab_inv own cap s → cap !! p = Some c → 0 < c.
Proof.
  intros H [(n & Ho & ->)|(a & z & Hz & Ha & [(i & Hi & _) _] & ->)]%(si_cap _ _ _ H).
  - destruct (si_large _ _ _ H _ _ _ Ho). lia.
  - destruct (si_zok _ _ _ H _ _ Hz Ha) as [Hok _]. destruct (chunk_room _ _ _ _ Hok Hi). lia.
Qed.

Lemma slab_block_range own cap s p c : slab_inv own cap s → cap !! p = Some c → heap_start s <= p ∧ p + c <= heap_end s.
Proof.
  intros H Hp. pose proof (block_pos _ _ _ _ _ H Hp).
  destruct (block_owner _ _ _ _ _ p H Hp) as (_ & H1 & _); [lia|].
  destruct (block_owner _ _ _ _ _ (p + c - 1) H Hp) as (_ & H2 & _); [lia|].
  apply (si_in _ _ _ H) in H1, H2. lia.
Qed.

Lemma block_aligned own cap s p c : slab_inv own cap s → cap !! p = Some c → p mod 8 = 0.
Proof.
  intros H [(n & Ho & ->)|(a & z & Hz & Ha & [(i & Hi & ->) _] & ->)]%(si_cap _ _ _ H).
  - destruct (si_large _ _ _ H _ _ _ Ho) as (_ & ? & _). lia.
  - destruct (si_zok _ _ _ H _ _ Hz Ha) as [Hok _]. by eapply chunk_aligned.
Qed.

(** No two blocks in use overlap. *)
Lemma slab_blocks_apart own cap s p c q d : slab_inv own cap s → cap !! p = Some c → cap !! q = Some d → p ≠ q →
  p + c <= q ∨ q + d <= p.
Proof.
  intros H Hp Hq Hne. destruct (Z.le_gt_cases (p + c) q) as [|H1]; [by left|]. right.
  destruct (Z.le_gt_cases (q + d) p) as [|H2]; [done|]. exfalso.
  pose proof (block_pos _ _ _ _ _ H Hp). pose proof (block_pos _ _ _ _ _ H Hq).
  assert (Hc : ∃ x, p <= x < p + c ∧ q <= x < q + d) by (exists (Z.max p q); lia). destruct Hc as (x & Hx & Hx').
  assert (E : own p = own q).
  { destruct (block_owner _ _ _ _ _ x H Hp Hx) as [<- _]. by destruct (block_owner _ _ _ _ _ x H Hq Hx') as [<- _]. }
  apply (si_cap _ _ _ H) in Hp as [(n & Ho & ->)|(a & z & Hz & Ha & Hl & ->)];
    apply (si_cap _ _ _ H) in Hq as [(k & Ho' & ->)|(b & y & Hy & Hb & Hl' & ->)].
  - congruence.
  - rewrite (chunk_owner _ _ _ b y q q H) in E by (done || lia). congruence.
  - rewrite (chunk_owner _ _ _ a z p p H) in E by (done || lia). congruence.
  - rewrite (chunk_owner _ _ _ a z p p H), (chunk_owner _ _ _ b y q q H) in E by (done || lia). injection E as <-.
    assert (y = z) as -> by congruence. destruct Hl as [(i & _ & ->) _], Hl' as [(j & _ & ->) _].
    assert (i ≠ j) by (intros ->; done). nia.
Qed.

(** ** [rt_malloc] *)
Lemma page_align_val n : 0 <= n <= 4294963200 → page_align n = (n + 4095) / 4096 * 4096.
Proof.
  intros H. unfold page_align, u32, RT_MM_PAGE_SIZE. rewrite Z.mod_small by lia.
  replace (n + (4096 - 1)) with (n + 4095) by lia. apply (land_high 12); lia.
Qed.

Lemma page_align_top n : 4294963200 < n < 4294967296 → page_align n = 0.
Proof.
  intros H. unfold page_align, u32, RT_MM_PAGE_SIZE. replace ((n + (4096 - 1)) mod 4294967296) with (n + 4095 - 4294967296).
  - rewrite (land_high 12); [|lia|lia]. change (2 ^ 12) with 4096. lia.
  - replace (n + (4096 - 1)) with (n + 4095 - 4294967296 + 1 * 4294967296) by lia. rewrite Z.mod_add by lia.
    rewrite Z.mod_small; lia.
Qed.

(** What a call of [rt_malloc] may return; after a failure only the semaphore
    may have changed, to [v]. *)
Definition malloc_result (own : Z → owner) (cap : gmap Z Z) (s : slab) (size v : Z) (s' : slab) (r : option Z) : Prop :=
  same_heap s s' ∧
  match r with
  | None => s' = set_sem v s
  | Some p => ∃ own' c, slab_inv own' (<[p := c]> cap) s' ∧ cap !! p = None ∧ size <= c ∧ heap_sem s' = heap_sem s
  end.

Lemma locked_unlocked s : 0 < heap_sem s < 65536 → unlock_heap (locked s) = s.
Proof. intros H. pose proof (lock_unlock s H) as E. destruct s. unfold unlock_heap, locked, set_sem in *. simpl in *. by rewrite E. Qed.

Lemma malloc_large_ok own cap s size : slab_inv own cap s → 0 < heap_sem s < 65536 → 0 < size < 4294967296 →
  ∃ s' r, malloc_large size s = Ok (s', r) ∧ malloc_result own cap s size (heap_sem s) s' r.
Proof.
  intros H Hsem Hsz. unfold malloc_large, malloc_result. pose proof H as [Hg _ _ _ _ _ _ _ _ _ _ _].
  destruct (Z.le_gt_cases size 4294963200) as [Hs|Hs].
  2:{ rewrite page_align_top by lia. unfold rt_page_alloc. simpl. exists s, None. split_and!; try done. by destruct s. }
  rewrite page_align_val by lia. set (np := (size + 4095) / 4096).
  rewrite Z.shiftr_div_pow2 by lia. change (2 ^ 12) with 4096. rewrite Z.div_mul by done.
  destruct (rt_page_alloc_ok np s) as (s1 & [b|] & E); [lia| |]; rewrite E; cbn [mbind res_bind].
  2:{ destruct (take_pages_none own cap s np s1 H) as [-> _]; [unfold np; lia|done|]. eexists _, None. split; [done|].
      rewrite locked_unlocked by lia. split; [done|]. by destruct s. }
  destruct (take_pages own cap s np s1 b H) as (H1 & Hb & Hfr & l & ->); [unfold np; lia|done|].
  set (s1 := unlock_heap (set_pages l (locked s))) in *.
  assert (Hsem1 : heap_sem s1 = heap_sem s) by exact (lock_unlock s Hsem).
  assert (Hin : heap_start s <= b ∧ b + np * 4096 <= heap_end s).
  { assert (Hx : ∀ x, within b np x → heap_start s <= x < heap_end s) by (intros x Hx; apply (si_in _ _ _ H); by rewrite Hfr).
    pose proof (Hx b). pose proof (Hx (b + np * 4096 - 1)). unfold within in *. unfold np in *. lia. }
  assert (Hnp : 0 < np) by (unfold np; lia). pose proof Hg as [[? ?] [? ?] _ _ _].
  assert (Hbt : btokup b s1 = page_index s1 b) by (apply btokup_page; [apply (si_geom _ _ _ H1)|simpl; lia]). rewrite Hbt.
  set (s3 := put_usage (page_index s1 b) PAGE_TYPE_LARGE np s1).
  assert (Hs3 : slab_inv (give b np OTaken own) cap s3).
  { apply (inv_usage _ _ s1 b np); [done|done|intros x Hx; by apply give_in|]. intros j Hj.
    rewrite lookup_insert_ne; [done|]. lia. }
  rewrite lock_heap_ok by (change (0 < heap_sem s1); lia). cbn [mbind res_bind]. eexists _, (Some b). split; [done|].
  split; [done|]. exists (give b np (OLarge b np) (give b np OTaken own)), (np * 4096). split_and!.
  - apply inv_sem. apply (give_large _ _ (locked s3)); try done; [by apply inv_sem|simpl; lia|simpl; lia|intros x Hx; by apply give_in|].
    simpl. change (page_index (locked s3) b) with (page_index s1 b). rewrite lookup_insert_eq.
    rewrite Z.mod_small; [done|]. change (2 ^ 30) with 1073741824. lia.
  - apply (cap_none own cap s); [done|]. left. apply Hfr. unfold within. lia.
  - unfold np. lia.
  - rewrite <- Hsem1. change (heap_sem (unlock_heap (locked s1)) = heap_sem s1). apply lock_unlock. lia.
Qed.

(** The state handed to [open_zone]. *)
Lemma new_zone_ok own cap s : slab_inv own cap s → 0 <= heap_sem s < 65535 →
  match new_zone s with
  | Stop _ => False
  | Ok (s', None) => s' = unlock_heap s
  | Ok (s', Some a) => ∃ own', let s1 := set_zones (delete a (zones s')) s' in
      slab_inv own' cap s1 ∧ a mod 4096 = 0 ∧ heap_start s <= a ∧ a + zone_size s <= heap_end s ∧
      (∀ x, within a (zone_page_cnt s) x → own' x = OTaken) ∧
      (∀ x, within a (zone_page_cnt s) x → usage s1 !! page_index s1 x = Some (mk_usage PAGE_TYPE_SMALL ((x - a) / 4096))) ∧
      same_heap s s' ∧ zone_size s' = zone_size s ∧ zone_limit s' = zone_limit s ∧ zone_page_cnt s' = zone_page_cnt s ∧ heap_sem s' = heap_sem s
  end.
Proof.
  intros H Hsem. unfold new_zone. destruct (zone_free s) as [|a rest] eqn:Ef.
  2:{ destruct (drop_zone own cap s a rest H Ef) as (H1 & ? & ? & ? & ?).
      exists (give a (zone_page_cnt s) OTaken own). split_and!; try done. intros x Hx. by apply give_in. }
  pose proof H as [Hg _ _ _ _ _ _ _ _ _ _ _]. pose proof Hg as [[? ?] [? ?] Hzs _ Hpc].
  change (zone_size (unlock_heap s)) with (zone_size s). unfold RT_MM_PAGE_SIZE. rewrite <- Hpc.
  assert (Hpos : 0 < zone_page_cnt s <= 32) by (rewrite Hpc; lia).
  assert (Hz4 : zone_page_cnt s * 4096 = zone_size s) by (rewrite Hpc; lia).
  assert (Hul : slab_inv own cap (unlock_heap s)) by by apply inv_sem.
  assert (Hsu : heap_sem (unlock_heap s) = heap_sem s + 1) by (simpl; unfold u16; rewrite Z.mod_small; lia).
  destruct (rt_page_alloc_ok (zone_page_cnt s) (unlock_heap s)) as (s1 & [a|] & E); [lia| |]; rewrite E; cbn [mbind res_bind].
  2:{ destruct (take_pages_none own cap (unlock_heap s) (zone_page_cnt s) s1 Hul) as [-> _]; [lia|done|].
      apply locked_unlocked. lia. }
  destruct (take_pages own cap (unlock_heap s) (zone_page_cnt s) s1 a Hul) as (Hs1 & Ha & Hfr & l & ->); [lia|done|].
  set (s1 := unlock_heap (set_pages l (locked (unlock_heap s)))) in *.
  assert (Hsem1 : heap_sem s1 = heap_sem s + 1) by (rewrite <- Hsu; apply (lock_unlock (unlock_heap s)); lia).
  rewrite lock_heap_ok by lia. cbn [mbind res_bind].
  assert (Hw : ∀ x, a <= x < a + zone_size s → within a (zone_page_cnt s) x) by (intros x Hx; by apply zone_pages).
  assert (Hx : ∀ x, within a (zone_page_cnt s) x → heap_start s <= x < heap_end s)
    by (intros x Hx; apply (si_in _ _ _ H); by rewrite Hfr).
  assert (Hlo : heap_start s <= a < heap_end s) by (apply Hx, Hw; lia).
  assert (Hhi : heap_start s <= a + zone_size s - 1 < heap_end s) by (apply Hx, Hw; lia).
  change (zone_page_cnt (locked s1)) with (zone_page_cnt s).
  change (btokup a (locked s1)) with (btokup a s1). rewrite (btokup_page s1 a) by (apply (si_geom _ _ _ Hs1) || (simpl; lia)).
  destruct (small_pages_spec (Z.to_nat (zone_page_cnt s)) (page_index s1 a) 0 (locked s1)) as (u & -> & Hu).
  rewrite Z2Nat.id in Hu by lia.
  assert (Hnone : zones s !! a = None).
  { destruct (zones s !! a) as [z|] eqn:Ez; [|done]. assert (own a = OZone a); [|rewrite Hfr in *; [done|apply Hw; lia]].
    apply (si_zone _ _ _ H). split; [by eexists|lia]. }
  exists (give a (zone_page_cnt s) OTaken own). cbv zeta.
  change (zones (set_usage u (locked s1))) with (zones s). rewrite delete_id by done.
  assert (Hidx : ∀ x, page_index (set_zones (zones s) (set_usage u (locked s1))) x = page_index s1 x) by done.
  split_and!; try done; try lia.
  - change (set_zones (zones s) (set_usage u (locked s1))) with (set_usage u (locked s1)).
    apply (inv_usage _ _ (locked s1) a (zone_page_cnt s)); [by apply inv_sem|done|intros x Hxx; by apply give_in|].
    intros j Hj. rewrite Hu, decide_False; [done|exact Hj].
  - intros x Hxx. by apply give_in.
  - intros x Hxx. rewrite Hidx. change (usage _) with u. rewrite Hu, decide_True.
    + do 2 f_equal. unfold page_index. change (heap_start s1) with (heap_start s). unfold within in Hxx.
      rewrite Z.mod_small; [lia|]. change (2 ^ 30) with 1073741824. lia.
    + apply (page_index_pages s1 a (zone_page_cnt s)); try done.
  - change (heap_sem s1 - 1 = heap_sem s). lia.
Qed.

Lemma rt_malloc_ok own cap s size : slab_inv own cap s → 0 < heap_sem s < 65536 → 0 <= size < 4294967296 →
  ∃ s' r, rt_malloc size s = Ok (s', r) ∧
    malloc_result own cap s size (if (0 <? size) && (size <? zone_limit s) then u16 (heap_sem s + 1) else heap_sem s) s' r.
Proof.
  intros H Hsem Hsz. unfold rt_malloc. destruct (Z.eqb_spec size 0) as [->|Hnz].
  { exists s, None. split_and!; try done. by destruct s. }
  rewrite (proj2 (Z.ltb_lt 0 size)) by lia. cbn [andb]. pose proof (si_geom _ _ _ H) as [_ _ Hzs Hlim _].
  destruct (Z.leb_spec (zone_limit s) size) as [Hl|Hl].
  { rewrite (proj2 (Z.ltb_ge size _)) by lia. apply malloc_large_ok; [done|done|lia]. }
  rewrite (proj2 (Z.ltb_lt size _)) by lia.
  rewrite lock_heap_ok by lia. cbn [mbind res_bind].
  destruct (zoneindex size) as [zi sz] eqn:Ez.
  destruct (zoneindex_class size zi sz) as (Hzi & -> & Hle & Hmax & _ & Hmax8); [lia|done|].
  assert (Hlim' : class_size zi <= zone_limit s) by lia.
  unfold NZONES. cbn [rt_assert require mbind res_bind]. rewrite (proj2 (Z.ltb_lt zi 72)) by lia. cbn [mbind res_bind].
  assert (H1 : slab_inv own cap (locked s)) by by apply inv_sem.
  assert (Hs1 : heap_sem (locked s) = heap_sem s - 1) by done.
  assert (Hu : u16 (heap_sem s - 1 + 1) = heap_sem s) by (unfold u16; rewrite Z.mod_small; lia).
  destruct (zone_list zi (locked s)) as [|a rest] eqn:El.
  - pose proof (new_zone_ok own cap (locked s) H1 ltac:(lia)) as HN. destruct (new_zone (locked s)) as [[s2 [a|]]|]; [| |done]; cbn [mbind res_bind].
    + destruct HN as (own' & H2 & Ha & Hlo & Hhi & Ht & Hus & Hsame & Hz' & Hl' & Hp' & Hsem2).
      pose proof (open_zone_ok own' cap (set_zones (delete a (zones s2)) s2) a zi) as HO.
      assert (Eo : open_zone a zi (class_size zi) (set_zones (delete a (zones s2)) s2) = open_zone a zi (class_size zi) s2).
      { unfold open_zone, put_zone. simpl. by rewrite insert_delete_eq. }
      rewrite Eo in HO. change (zone_page_cnt (set_zones _ s2)) with (zone_page_cnt s2) in HO.
      change (zone_size (set_zones _ s2)) with (zone_size s2) in HO. change (zone_limit (set_zones _ s2)) with (zone_limit s2) in HO.
      rewrite Hz', Hl', Hp' in HO. destruct Hsame as [Hst Hen].
      destruct (open_zone a zi (class_size zi) s2) as [s3 p] eqn:E3. 
      destruct HO as (H3 & Hc & Hsem3); try done; [apply lookup_delete_eq|by simpl; rewrite Hst|by simpl; rewrite Hen|].
      exists (unlock_heap s3), (Some p). split; [done|]. unfold open_zone in E3. injection E3 as <- _. split; [done|].
      eexists _, (class_size zi). split_and!; [by apply inv_sem|done|done|]. simpl in *. by rewrite ?Hsem3, Hsem2, Hu.
    + subst s2. eexists _, None. split; [done|]. split; [done|]. by rewrite locked_unlocked by lia.
  - destruct (malloc_from_zone_ok own cap (locked s) zi a rest H1 El) as (s2 & p & E2 & H2 & Hc & Hsem2 & Hsame). rewrite E2.
    cbn [mbind res_bind]. eexists _, (Some p). split; [done|]. split.
    + exact Hsame.
    + exists own, (class_size zi). split_and!; [by apply inv_sem|done|done|]. change (u16 (heap_sem s2 + 1) = heap_sem s). by rewrite Hsem2, Hs1, Hu.
Qed.

(** ** [rt_free] *)

(** What the page descriptor says of a block. *)
Lemma block_usage own cap s p c : slab_inv own cap s → cap !! p = Some c →
  (∃ n, get_usage (btokup (page_of p) s) s = Ok (mk_usage PAGE_TYPE_LARGE n) ∧ btokup (page_of p) s = page_index s p ∧
     own p = OLarge p n ∧ c = n * 4096) ∨
  (∃ a z k, get_usage (btokup (page_of p) s) s = Ok (mk_usage PAGE_TYPE_SMALL k) ∧ u32 (page_of p - k * RT_MM_PAGE_SIZE) = a ∧
     zones s !! a = Some z ∧ (a ∉ zone_free s) ∧ chunk_live z p ∧ c = z_chunksize z).
Proof.
  intros H Hp. pose proof (slab_block_range _ _ _ _ _ H Hp) as [Hlo Hhi]. pose proof (block_pos _ _ _ _ _ H Hp).
  pose proof (si_geom _ _ _ H) as [[? ?] [? ?] _ _ _].
  unfold get_usage. rewrite btokup_index by (apply (si_geom _ _ _ H) || lia).
  apply (si_cap _ _ _ H) in Hp as [(n & Ho & ->)|(a & z & Hz & Ha & Hl & ->)].
  - left. exists n. destruct (si_large _ _ _ H _ _ _ Ho) as (? & ? & _ & _ & ->). by split_and!.
  - right. assert (Ho : own p = OZone a) by (eapply (chunk_owner _ _ _ a z p); try done; lia).
    destruct (si_small _ _ _ H _ _ Ho) as [Ha' Hu]. exists a, z, ((p - a) / 4096). rewrite Hu.
    pose proof (proj2 (proj1 (si_zone _ _ _ H a p) Ho)) as Hr.
    destruct (zone_in_heap _ _ _ a H) as [Hlo' _]; [by eexists|].
    split_and!; try done. rewrite page_of_val by lia. unfold u32, RT_MM_PAGE_SIZE. rewrite Z.mod_small; lia.
Qed.

Lemma free_large_ok own cap s p n : slab_inv own cap s → own p = OLarge p n → 0 < heap_sem s < 65536 →
  ∃ s' own', free_large p n (page_index s p) s = Ok s' ∧ slab_inv own' (delete p cap) s' ∧
    same_heap s s' ∧ heap_sem s' = heap_sem s.
Proof.
  intros H Ho Hsem. destruct (si_large _ _ _ H _ _ _ Ho) as (Hn & Hp & _ & Hall & _).
  assert (Hin : ∀ x, within p n x → heap_start s <= x < heap_end s) by (intros x Hx; apply (si_in _ _ _ H); by rewrite Hall).
  pose proof (Hin p) as H1. pose proof (Hin (p + n * 4096 - 1)) as H2. unfold within in H1, H2.
  assert (Hs1 : slab_inv (give p n OTaken own) (delete p cap) (unaccount (u32 (n * 4096)) s)) by (by apply take_large).
  set (s1 := unaccount (u32 (n * 4096)) s) in *.
  assert (Hs2 : slab_inv (give p n OTaken own) (delete p cap) (put_usage (page_index s p) PAGE_TYPE_LARGE 0 s1)).
  { apply (inv_usage _ _ s1 p n); [done|done|intros x Hx; by apply give_in|]. intros j Hj.
    change (page_index s1 p) with (page_index s p) in Hj. rewrite lookup_insert_ne; [done|lia]. }
  set (s2 := put_usage (page_index s p) PAGE_TYPE_LARGE 0 s1) in *.
  set (s3 := unlock_heap (set_sem (heap_sem s - 1) s2)).
  assert (E3 : heap_sem s3 = heap_sem s) by exact (lock_unlock s Hsem).
  assert (Hs3 : slab_inv (give p n OTaken own) (delete p cap) s3) by by apply inv_sem, inv_sem.
  destruct (return_pages _ _ s3 p n Hs3) as (l & E & H4); [lia|done|done|simpl; lia|simpl; lia|intros x Hx; by apply give_in|].
  exists (unlock_heap (set_pages l (locked s3))), (give p n OFree (give p n OTaken own)).
  split_and!; [unfold free_large; by rewrite lock_heap_ok by lia|done|done|].
  change (heap_sem (unlock_heap (locked s3)) = heap_sem s). rewrite <- E3. apply lock_unlock. lia.
Qed.

Lemma release_zone_ok own cap s a rest : slab_inv own cap s → zone_free s = a :: rest → 0 <= heap_sem s < 65535 →
  ∃ s' own', release_zone s = Ok s' ∧ slab_inv own' cap s' ∧ same_heap s s' ∧ heap_sem s' = heap_sem s + 1.
Proof.
  intros H Ef Hsem. destruct (drop_zone own cap s a rest H Ef) as (H1 & Ha & Hlo & Hhi & _).
  pose proof (si_geom _ _ _ H) as [[? ?] [? ?] Hzs _ Hpc].
  unfold release_zone. rewrite Ef. cbv zeta. change (zone_page_cnt (set_zone_free _ _ s)) with (zone_page_cnt s).
  change (btokup a (set_zone_free _ _ s)) with (btokup a s). rewrite btokup_page by (apply (si_geom _ _ _ H) || lia).
  destruct (free_pages_spec (Z.to_nat (zone_page_cnt s)) (page_index s a) (set_zone_free rest (zone_free_cnt s - 1) s)) as (u & -> & Hu).
  rewrite Z2Nat.id in Hu by lia.
  set (s1 := set_zones (delete a (zones s)) (set_zone_free rest (zone_free_cnt s - 1) s)) in *.
  assert (Hu1 : slab_inv (give a (zone_page_cnt s) OTaken own) cap (set_usage u s1)).
  { apply (inv_usage _ _ s1 a (zone_page_cnt s)); [done|done|intros x Hx; by apply give_in|]. intros j Hj. by rewrite Hu. }
  assert (Hu2 : slab_inv (give a (zone_page_cnt s) OTaken own) cap (unlock_heap (set_usage u s1))) by by apply inv_sem.
  assert (Hsu : heap_sem (unlock_heap (set_usage u s1)) = heap_sem s + 1) by (simpl; unfold u16; rewrite Z.mod_small; lia).
  destruct (return_pages _ _ _ a (zone_page_cnt s) Hu2) as (l & E & Hfin); [lia|lia|done|done|simpl; lia|intros x Hx; by apply give_in|].
  change (zone_size _ / RT_MM_PAGE_SIZE) with (zone_size s / 4096). rewrite <- Hpc.
  eexists _, (give a (zone_page_cnt s) OFree (give a (zone_page_cnt s) OTaken own)). split_and!; [exact E|exact Hfin|done|].
  rewrite <- Hsu. apply (lock_unlock (unlock_heap (set_usage u s1))). lia.
Qed.

Lemma rt_free_ok own cap s p c : slab_inv own cap s → cap !! p = Some c → 0 < heap_sem s < 65536 →
  ∃ s' own', rt_free (Some p) s = Ok s' ∧ slab_inv own' (delete p cap) s' ∧ same_heap s s' ∧ heap_sem s' = heap_sem s.
Proof.
  intros H Hp Hsem. unfold rt_free.
  destruct (block_usage _ _ _ _ _ H Hp) as [(n & -> & -> & Ho & ->)|(a & z & k & -> & Ea & Hz & Ha & Hl & ->)].
  { apply (free_large_ok _ _ _ _ _ H Ho Hsem). }
  cbn [mbind res_bind page_type page_size]. change (PAGE_TYPE_SMALL =? PAGE_TYPE_LARGE) with false. cbv iota zeta.
  rewrite lock_heap_ok by lia. cbn [mbind res_bind]. rewrite Ea.
  unfold get_zone. change (zones (locked s)) with (zones s). rewrite Hz. cbn [of_option mbind res_bind].
  assert (H1 : slab_inv own cap (locked s)) by by apply inv_sem.
  destruct (si_zok _ _ _ H _ _ Hz Ha) as [Hok _]. rewrite (zk_magic _ _ _ Hok). cbn [rt_assert require mbind res_bind].
  change (ZALLOC_SLAB_MAGIC =? ZALLOC_SLAB_MAGIC) with true. cbv iota. cbn [mbind res_bind].
  destruct (free_chunk_ok own cap (locked s) a z p H1 Hz Ha Hl) as (H2 & Hz2 & Hf2 & Hsem2).
  assert (Hsem1 : heap_sem (locked s) = heap_sem s - 1) by done.
  assert (Hu : u16 (heap_sem s - 1 + 1) = heap_sem s) by (unfold u16; rewrite Z.mod_small; lia).
  assert (Hsame : same_heap s (free_chunk p a z (locked s))) by (unfold free_chunk; by destruct (_ =? _)).
  set (s2 := free_chunk p a z (locked s)) in *. rewrite Hz2. cbn [of_option mbind res_bind].
  set (z' := with_chunks _ _ _ z) in *.
  destruct (spare_zone a z' s2) eqn:Es.
  - unfold spare_zone in Es. apply andb_true_iff in Es as [He%Z.eqb_eq _].
    destruct (retire_zone_ok own _ s2 a z' H2 Hz2) as (s3 & E3 & H3 & Hf3 & Hsem3); [by rewrite Hf2|done|]. rewrite E3.
    assert (Hsame3 : same_heap s s3).
    { unfold retire_zone in E3. destruct (unlink_zone _ _) as [l|]; [|done]. simpl in E3. injection E3 as <-. done. }
    cbn [mbind res_bind]. destruct (_ <? _).
    + destruct (release_zone_ok own _ s3 a (zone_free s2) H3 Hf3) as (s4 & own' & E4 & H4 & Hsame4 & Hsem4); [lia|].
      exists s4, own'. split_and!; [done|done| |lia].
      destruct Hsame3, Hsame4. split; congruence.
    + exists (unlock_heap s3), own. split_and!; [done|by apply inv_sem|done|]. change (u16 (heap_sem s3 + 1) = heap_sem s). by rewrite Hsem3, Hsem2, Hsem1, Hu.
  - exists (unlock_heap s2), own. split_and!; [done|by apply inv_sem|done|]. change (u16 (heap_sem s2 + 1) = heap_sem s). by rewrite Hsem2, Hsem1, Hu.
Qed.
