(* ===== verification/SlabClient.v ===== *)
(** * The slab allocator against an ideal heap

    An ideal heap maps addresses to blocks, a block being its bytes ([None]: never
    written).  Whatever calls a client makes on addresses it was given, the
    allocator never stops, its blocks are apart, and they hold what the ideal
    heap holds. *)
From S2P Require Import Prelude KMemory Slab SlabPages SlabInv SlabZones SlabProps.
Local Open Scope Z_scope.

(** The data memory behind the heap. *)
Record slab_mapped (s : slab) (m : gmap Z Z) : Prop := {
  sm_bytes : bytes_ok m;
  sm_mapped : mapped m (heap_start s) (heap_end s - heap_start s);
  sm_small : heap_end s - heap_start s < 2147483648 }.

Lemma slab_mapped_keeps s s' m m' : same_heap s s' → keeps m m' → slab_mapped s m → slab_mapped s' m'.
Proof. intros [Hs He] [K1 K2] [? Hm ?]. split; [auto|rewrite Hs, He; auto|by rewrite Hs, He]. Qed.

Lemma block_mapped own cap s m p c n : slab_inv own cap s → slab_mapped s m → cap !! p = Some c → n <= c → mapped m p n.
Proof.
  intros H [_ Hm _] Hp Hn. destruct (slab_block_range _ _ _ _ _ H Hp). apply (mapped_sub m _ _ _ _ Hm); lia.
Qed.

(** What a call that returned [r] did to the semaphore: nothing, or it failed and
    released it once too often. *)
Definition sem_after (s : slab) (r : option Z) (s' : slab) : Prop :=
  heap_sem s' = heap_sem s ∨ r = None ∧ heap_sem s' = u16 (heap_sem s + 1).

(** ** [rt_realloc] *)

(** The outcome of a reallocation of the block at [p] of [c] bytes to [n]: it
    failed, or the block at [q] holds the data of [p]. *)
Definition realloc_result (cap : gmap Z Z) (s : slab) (m : gmap Z Z) (p c n : Z) (s' : slab) (m' : gmap Z Z) (r : option Z) : Prop :=
  same_heap s s' ∧ sem_after s r s' ∧ keeps m m' ∧ ∃ own', match r with
  | None => m' = m ∧ slab_inv own' cap s'
  | Some q => ∃ d, slab_inv own' (<[q := d]> (delete p cap)) s' ∧ delete p cap !! q = None ∧ n <= d ∧
      (∀ i, 0 <= i < Z.min c n → m' !! (q + i) = m !! (p + i)) ∧
      ∀ x, (∃ b k, delete p cap !! b = Some k ∧ b <= x < b + k) → m' !! x = m !! x
  end.

Lemma move_ok own cap s m p c size n : slab_inv own cap s → slab_mapped s m → 0 < heap_sem s < 65536 → cap !! p = Some c →
  0 < size < 4294967296 → n <= size →
  ∃ s' m' r, move p c size m s = Ok (s', m', r) ∧ realloc_result cap s m p c n s' m' r.
Proof.
  intros H Hm Hsem Hp Hsz Hn. unfold move, realloc_result.
  destruct (rt_malloc_ok own cap s size H Hsem) as (s1 & r & -> & Hsame & Hr); [lia|]. cbn [mbind res_bind].
  destruct r as [q|].
  2:{ subst s1. eexists _, m, None. split; [done|]. split_and!; [done| |apply keeps_refl|exists own; split; [done|by apply inv_sem]].
      destruct (_ && _); [by right|by left]. }
  destruct Hr as (own1 & d & H1 & Hq & Hd & Hsem1).
  assert (Hpq : p ≠ q) by (intros ->; congruence). pose proof (block_pos _ _ _ _ _ H Hp).
  set (count := if c <? size then c else size). assert (Hcount : count = Z.min c size) by (unfold count; destruct (Z.ltb_spec c size); lia).
  assert (Hm1 : slab_mapped s1 m) by (apply (slab_mapped_keeps s s1 m m Hsame); [apply keeps_refl|done]).
  assert (Hp1 : <[q := d]> cap !! p = Some c) by by rewrite lookup_insert_ne.
  assert (Hq1 : <[q := d]> cap !! q = Some d) by apply lookup_insert_eq.
  pose proof (slab_blocks_apart _ _ _ _ _ _ _ H1 Hp1 Hq1 Hpq) as Hap.
  destruct (slab_block_range _ _ _ _ _ H1 Hp1). pose proof (sm_small _ _ Hm1).
  destruct (rt_memcpy_copied m q p count) as (m' & -> & Hcp & Hk); [lia|apply (sm_bytes _ _ Hm1)| | |lia|].
  { apply (block_mapped _ _ _ _ _ _ _ H1 Hm1 Hp1). lia. }
  { apply (block_mapped _ _ _ _ _ _ _ H1 Hm1 Hq1). lia. }
  cbn [mbind res_bind].
  destruct (rt_free_ok own1 _ s1 p c H1 Hp1) as (s2 & own2 & -> & Hs2 & Hsame2 & Hsem2); [lia|]. cbn [mbind res_bind].
  eexists s2, m', (Some q). split; [done|]. split_and!; [destruct Hsame, Hsame2; split; congruence|left; lia|done|].
  exists own2, d. rewrite delete_insert_ne in Hs2 by done. split_and!; [done| |lia| |].
  - by rewrite lookup_delete_ne.
  - intros i Hi. rewrite Hcp, decide_True by lia. f_equal. lia.
  - intros x (b & k & [Hbp Hb]%lookup_delete_Some & Hx). rewrite Hcp, decide_False; [done|].
    assert (Hbq : b ≠ q) by (intros ->; congruence).
    assert (Hb1 : <[q := d]> cap !! b = Some k) by by rewrite lookup_insert_ne.
    pose proof (slab_blocks_apart _ _ _ _ _ _ _ H1 Hb1 Hq1 Hbq). lia.
Qed.

Lemma rt_realloc_ok own cap s m p c n : slab_inv own cap s → slab_mapped s m → 0 < heap_sem s < 65536 → cap !! p = Some c →
  0 < n < 4294967296 →
  ∃ s' m' r, rt_realloc (Some p) n m s = Ok (s', m', r) ∧ realloc_result cap s m p c n s' m' r.
Proof.
  intros H Hm Hsem Hp Hn. unfold rt_realloc. rewrite (proj2 (Z.eqb_neq n 0)) by lia.
  destruct (block_usage _ _ _ _ _ H Hp) as [(k & -> & _ & _ & ->)|(a & z & k & -> & Ea & Hz & Ha & Hl & ->)].
  { cbn [mbind res_bind page_type page_size]. change (PAGE_TYPE_LARGE =? PAGE_TYPE_LARGE) with true. cbv iota.
    rewrite Z.shiftl_mul_pow2 by lia. change (2 ^ 12) with 4096. apply (move_ok own); done || lia. }
  cbn [mbind res_bind page_type page_size]. change (PAGE_TYPE_SMALL =? PAGE_TYPE_LARGE) with false.
  change (PAGE_TYPE_SMALL =? PAGE_TYPE_SMALL) with true. cbv iota zeta. rewrite Ea.
  unfold get_zone. rewrite Hz. cbn [of_option mbind res_bind].
  destruct (si_zok _ _ _ H _ _ Hz Ha) as [Hok _]. rewrite (zk_magic _ _ _ Hok).
  change (ZALLOC_SLAB_MAGIC =? ZALLOC_SLAB_MAGIC) with true. cbn [rt_assert require mbind res_bind].
  destruct (zoneindex n) as [zi size] eqn:Ez.
  assert (Hsize : n <= size < 4294967296).
  { destruct (Z.lt_ge_cases n 16384); [destruct (zoneindex_class n zi size) as (_ & _ & ? & ? & _); [lia|done|lia]|].
    unfold zoneindex in Ez. repeat rewrite (proj2 (Z.ltb_ge n _)) in Ez by lia. injection Ez as _ <-. lia. }
  destruct (Z.eqb_spec (z_chunksize z) size) as [Es|_]; [|apply (move_ok own); done || lia].
  exists s, m, (Some p). split; [done|]. split_and!; [done|by left|apply keeps_refl|].
  exists own, (z_chunksize z). rewrite insert_delete_id by done. split_and!; [done|apply lookup_delete_eq|lia|done|done].
Qed.

(** ** The ideal heap *)

Notation ideal := (gmap Z (list (option Z))).

Inductive slab_op :=
  | SMalloc (size : Z)
  | SCalloc (count size : Z)
  | SFree (p : Z)
  | SRealloc (p size : Z)
  | SWrite (p i v : Z).          (** the client stores a byte in its block *)

(** What the client may do: only with blocks it has. *)
Definition allowed (op : slab_op) (h : ideal) : Prop :=
  match op with
  | SMalloc size => 0 <= size < 4294967296
  | SCalloc count size => True
  | SFree p => is_Some (h !! p)
  | SRealloc p size => is_Some (h !! p) ∧ 0 <= size < 4294967296
  | SWrite p i v => ∃ l, h !! p = Some l ∧ 0 <= i < Z.of_nat (length l)
  end.

(** The ideal heap after the call has returned [r]. *)
Definition ideal_do (op : slab_op) (r : option Z) (h : ideal) : ideal :=
  match op, r with
  | SMalloc size, Some p => <[p := replicate (Z.to_nat size) None]> h
  | SCalloc count size, Some p => <[p := replicate (Z.to_nat (u32 (count * size))) (Some 0)]> h
  | SFree p, _ => delete p h
  | SRealloc p size, Some q => <[q := resize (Z.to_nat size) None (default [] (h !! p))]> (delete p h)
  | SRealloc p size, None => if size =? 0 then delete p h else h
  | SWrite p i v, _ => alter (λ l, <[Z.to_nat i := Some (u8 v)]> l) p h
  | _, None => h
  end.

Definition slab_do (op : slab_op) (s : slab) (m : gmap Z Z) : res (slab * gmap Z Z * option Z) :=
  match op with
  | SMalloc size => '(s, r) ← rt_malloc size s; Ok (s, m, r)
  | SCalloc count size => rt_calloc count size m s
  | SFree p => s ← rt_free (Some p) s; Ok (s, m, None)
  | SRealloc p size => rt_realloc (Some p) size m s
  | SWrite p i v => m ← store8 m (p + i) v; Ok (s, m, None)
  end.

(** The blocks the client has are the blocks in use, with room for their
    bytes, and the memory holds what was written. *)
Definition holds (m : gmap Z Z) (p : Z) (l : list (option Z)) : Prop :=
  ∀ i v, l !! i = Some (Some v) → m !! (p + Z.of_nat i) = Some v.

Record simulates (h : ideal) (s : slab) (m : gmap Z Z) : Prop := {
  sim_mem : slab_mapped s m;
  sim_inv : ∃ own cap, slab_inv own cap s ∧ (∀ p, is_Some (h !! p) ↔ is_Some (cap !! p)) ∧
    ∀ p l c, h !! p = Some l → cap !! p = Some c → (0 < length l)%nat ∧ Z.of_nat (length l) <= c ∧ holds m p l }.

Lemma holds_same m m' p l c : holds m p l → Z.of_nat (length l) <= c →
  (∀ x, p <= x < p + c → m' !! x = m !! x) → holds m' p l.
Proof.
  intros H Hl Hm i v Hi. rewrite Hm; [by apply H|]. apply lookup_lt_Some in Hi. lia.
Qed.

(** A fresh block is added. *)
Lemma simulates_add h s' m m' cap own' p c l :
  slab_mapped s' m' → slab_inv own' (<[p := c]> cap) s' → cap !! p = None →
  (∀ q, is_Some (h !! q) ↔ is_Some (cap !! q)) →
  (∀ q k c', h !! q = Some k → cap !! q = Some c' → (0 < length k)%nat ∧ Z.of_nat (length k) <= c' ∧ holds m q k) →
  (0 < length l)%nat → Z.of_nat (length l) <= c → holds m' p l →
  (∀ x, (∃ b k, cap !! b = Some k ∧ b <= x < b + k) → m' !! x = m !! x) →
  simulates (<[p := l]> h) s' m'.
Proof.
  intros Hm H' Hp Hdom Hh Hl Hlc Hhold Hsame. split; [done|]. exists own', (<[p := c]> cap). split_and!; [done| |].
  - intros q. destruct (decide (q = p)) as [->|]; [rewrite !lookup_insert_eq; split; intros _; by eexists|by rewrite !lookup_insert_ne].
  - intros q k c'. destruct (decide (q = p)) as [->|]; [rewrite !lookup_insert_eq; by intros [= <-] [= <-]|].
    rewrite !lookup_insert_ne by done. intros Hk Hc. destruct (Hh q k c' Hk Hc) as (? & ? & ?). split_and!; [done|done|].
    eapply holds_same; [done|done|]. intros x Hx. apply Hsame. by exists q, c'.
Qed.

Lemma holds_none m p n : holds m p (replicate n None).
Proof. intros i v [? _]%lookup_replicate. done. Qed.

Lemma simulates_malloc h s m size : simulates h s m → 0 < heap_sem s < 65536 → 0 <= size < 4294967296 →
  ∃ s' r, rt_malloc size s = Ok (s', r) ∧ simulates (ideal_do (SMalloc size) r h) s' m ∧ same_heap s s' ∧ sem_after s r s' ∧
    ∀ p, r = Some p → 0 < size ∧ h !! p = None ∧ mapped m p size.
Proof.
  intros [Hm (own & cap & H & Hdom & Hh)] Hsem Hsz.
  destruct (rt_malloc_ok own cap s size H Hsem Hsz) as (s' & r & E & Hsame & Hr). exists s', r. split; [done|].
  assert (Hm' : slab_mapped s' m) by (apply (slab_mapped_keeps s s' m m); [done|apply keeps_refl|done]).
  destruct r as [p|]; simpl.
  2:{ subst s'. split_and!; [|done| |done].
      - split; [done|]. exists own, cap. by split; [apply inv_sem|].
      - destruct (_ && _); [by right|by left]. }
  destruct Hr as (own' & c & H1 & Hp & Hc & Hs1).
  assert (Hpos : 0 < size). { destruct (Z.eq_dec size 0) as [->|]; [|lia]. unfold rt_malloc in E. simpl in E. done. }
  split_and!; [|done|by left|].
  - eapply (simulates_add h s' m m cap own' p c); rewrite ?length_replicate; try done; try lia. apply holds_none.
  - intros q [= <-]. split_and!; [done| |].
    + destruct (h !! p) eqn:Eh; [|done]. destruct (proj1 (Hdom p)); [by eexists|congruence].
    + apply (block_mapped _ _ _ _ _ c _ H1 Hm'); [apply lookup_insert_eq|done].
Qed.

(** The bytes of one block change. *)
Lemma simulates_write h s m m' p l l' : simulates h s m → h !! p = Some l → length l' = length l → keeps m m' →
  (∀ x, ¬ p <= x < p + Z.of_nat (length l) → m' !! x = m !! x) → holds m' p l' → simulates (<[p := l']> h) s m'.
Proof.
  intros [Hm (own & cap & H & Hdom & Hh)] Hl Hlen Hk Hout Hl'.
  split; [by apply (slab_mapped_keeps s s m m')|]. exists own, cap.
  destruct (proj1 (Hdom p)) as [c Hc]; [by eexists|]. destruct (Hh p l c Hl Hc) as (Hpos & Hlc & _).
  split_and!; [done| |].
  - intros q. rewrite <- Hdom. destruct (decide (q = p)) as [->|]; [|by rewrite lookup_insert_ne].
    rewrite lookup_insert_eq, Hl. split; intros _; by eexists.
  - intros q k d. destruct (decide (q = p)) as [->|Hne].
    + rewrite lookup_insert_eq, Hc. intros [= <-] [= <-]. rewrite Hlen. by split_and!.
    + rewrite lookup_insert_ne by done. intros Hk' Hd. destruct (Hh q k d Hk' Hd) as (? & ? & ?). split_and!; [done|done|].
      eapply holds_same; [done|done|]. intros x Hx. apply Hout. pose proof (slab_blocks_apart _ _ _ _ _ _ _ H Hd Hc Hne). lia.
Qed.

Lemma memset_keeps m m' a n v : (∀ i, m' !! i = if (a <=? i) && (i <? a + n) then Some (u8 v) else m !! i) → keeps m m'.
Proof.
  intros H. split.
  - intros b k Hm i Hi. rewrite H. destruct (_ && _); [by eexists|by apply Hm].
  - intros Hb i x Hx. rewrite H in Hx. destruct (_ && _); [|by apply (Hb i)]. injection Hx as <-. unfold u8. lia.
Qed.

Lemma simulates_calloc h s m count size : simulates h s m → 0 < heap_sem s < 65536 →
  ∃ s' m' r, rt_calloc count size m s = Ok (s', m', r) ∧ simulates (ideal_do (SCalloc count size) r h) s' m' ∧ same_heap s s' ∧ sem_after s r s'.
Proof.
  intros H Hsem. assert (Hn : 0 <= u32 (count * size) < 4294967296) by (unfold u32; apply Z.mod_pos_bound; lia).
  unfold rt_calloc. simpl ideal_do. set (n := u32 (count * size)) in *.
  destruct (simulates_malloc h s m n H Hsem Hn) as (s' & r & -> & H1 & Hsame & Hs' & Hp). cbn [mbind res_bind].
  destruct r as [p|]; [|by eexists s', m, None]. destruct (Hp p eq_refl) as (Hpos & Hnone & Hmap).
  destruct (rt_memset_spec m p 0 n Hn Hmap) as (_ & m' & -> & Hm'). cbn [mbind res_bind].
  eexists s', m', (Some p). split; [done|]. split; [|done]. simpl in H1 |- *.
  assert (E : <[p := replicate (Z.to_nat n) (Some 0)]> h = <[p := replicate (Z.to_nat n) (Some 0)]> (<[p := replicate (Z.to_nat n) None]> h))
    by by rewrite insert_insert_eq.
  rewrite E. eapply simulates_write; [exact H1|apply lookup_insert_eq|by rewrite !length_replicate|by eapply memset_keeps| |].
  - rewrite length_replicate. intros x Hx. rewrite Hm'. destruct (Z.leb_spec p x), (Z.ltb_spec x (p + n)); try done. simpl. lia.
  - intros i v [[= ->] Hi]%lookup_replicate. rewrite Hm'. rewrite (proj2 (Z.leb_le p _)), (proj2 (Z.ltb_lt _ _)) by lia. done.
Qed.

Lemma simulates_free h s m p : simulates h s m → 0 < heap_sem s < 65536 → is_Some (h !! p) →
  ∃ s', rt_free (Some p) s = Ok s' ∧ simulates (delete p h) s' m ∧ same_heap s s' ∧ heap_sem s' = heap_sem s.
Proof.
  intros [Hm (own & cap & H & Hdom & Hh)] Hsem Hp. apply Hdom in Hp as [c Hc].
  destruct (rt_free_ok own cap s p c H Hc Hsem) as (s' & own' & -> & H' & Hsame & Hs'). exists s'. split_and!; [done| |done|done].
  split; [by apply (slab_mapped_keeps s s' m m); [|apply keeps_refl|]|]. exists own', (delete p cap). split_and!; [done| |].
  - intros q. destruct (decide (q = p)) as [->|]; [|by rewrite !lookup_delete_ne].
    rewrite !lookup_delete_eq. split; by intros [? ?].
  - intros q l k [_ Hl]%lookup_delete_Some [_ Hk]%lookup_delete_Some. by apply Hh.
Qed.

Lemma simulates_realloc h s m p size : simulates h s m → 0 < heap_sem s < 65536 → is_Some (h !! p) → 0 < size < 4294967296 →
  ∃ s' m' r, rt_realloc (Some p) size m s = Ok (s', m', r) ∧ simulates (ideal_do (SRealloc p size) r h) s' m' ∧ same_heap s s' ∧ sem_after s r s'.
Proof.
  intros [Hm (own & cap & H & Hdom & Hh)] Hsem [l Hl] Hsz. destruct (proj1 (Hdom p)) as [c Hc]; [by eexists|].
  destruct (Hh p l c Hl Hc) as (Hpos & Hlc & Hhold).
  destruct (rt_realloc_ok own cap s m p c size H Hm Hsem Hc Hsz) as (s' & m' & r & -> & Hsame & Hsem' & Hk & own' & Hr).
  exists s', m', r. split; [done|]. split; [|by split].
  assert (Hm' : slab_mapped s' m') by by apply (slab_mapped_keeps s s' m m'). cbn [ideal_do]. destruct r as [q|].
  2:{ destruct Hr as [-> H']. rewrite (proj2 (Z.eqb_neq size 0)) by lia. split; [done|]. by exists own', cap. }
  destruct Hr as (d & H' & Hq & Hd & Hdata & Hother). rewrite Hl. cbn [default].
  eapply (simulates_add (delete p h) s' m m' (delete p cap) own' q d); rewrite ?length_resize; try done; try lia.
  - intros b. destruct (decide (b = p)) as [->|]; [|by rewrite !lookup_delete_ne].
    rewrite !lookup_delete_eq. split; by intros [? ?].
  - intros b k e [_ Hb]%lookup_delete_Some [_ He]%lookup_delete_Some. by apply Hh.
  - intros i v Hi. assert (Hin : (i < Z.to_nat size)%nat).
    { apply lookup_lt_Some in Hi. by rewrite length_resize in Hi. }
    destruct (decide (i < length l)%nat) as [Hil|Hil]; [|rewrite (lookup_resize_new l) in Hi; [done|apply Nat.nlt_ge, Hil|exact Hin]].
    rewrite lookup_resize in Hi by done. rewrite Hdata by lia. by apply Hhold.
Qed.

(** Did the call return null for want of memory (or of a size)? *)
Definition failures (op : slab_op) (r : option Z) : Z :=
  match op, r with (SMalloc _ | SCalloc _ _ | SRealloc _ _), None => 1 | _, _ => 0 end.

Lemma slab_step_simulates op h s m : simulates h s m → 0 < heap_sem s < 65536 → allowed op h →
  ∃ s' m' r, slab_do op s m = Ok (s', m', r) ∧ simulates (ideal_do op r h) s' m' ∧ same_heap s s' ∧
    (heap_sem s' = heap_sem s ∨ failures op r = 1 ∧ heap_sem s' = u16 (heap_sem s + 1)).
Proof.
  intros H Hsem Ha. destruct op as [size|count size|p|p size|p i v]; simpl in Ha; cbn [slab_do].
  - destruct (simulates_malloc h s m size H Hsem Ha) as (s' & r & -> & H' & Hsame & [?|[-> ?]] & _);
      [(exists s', m, r; split_and!; auto)|(exists s', m, None; split_and!; auto)].
  - destruct (simulates_calloc h s m count size H Hsem) as (s' & m' & r & -> & H' & Hsame & [?|[-> ?]]);
      [(exists s', m', r; split_and!; auto)|(exists s', m', None; split_and!; auto)].
  - destruct (simulates_free h s m p H Hsem Ha) as (s' & -> & H' & Hsame & ?). (exists s', m, None; split_and!; auto).
  - destruct Ha as [Hp Hsz]. destruct (Z.eq_dec size 0) as [->|].
    + destruct (simulates_free h s m p H Hsem Hp) as (s' & E & H' & Hsame & ?). unfold rt_realloc. rewrite Z.eqb_refl, E.
      (exists s', m, None; split_and!; auto).
    + destruct (simulates_realloc h s m p size H Hsem Hp) as (s' & m' & r & -> & H' & Hsame & [?|[-> ?]]); [lia| |];
        [(exists s', m', r; split_and!; auto)|(exists s', m', None; split_and!; auto)].
  - destruct Ha as (l & Hl & Hi). destruct (sim_inv _ _ _ H) as (own & cap & Hinv & Hdom & Hh).
    destruct (proj1 (Hdom p)) as [c Hc]; [by eexists|]. destruct (Hh p l c Hl Hc) as (Hpos & Hlc & Hhold).
    assert (Hx : is_Some (m !! (p + i))) by (apply (block_mapped _ _ _ _ _ _ c Hinv (sim_mem _ _ _ H) Hc); lia).
    rewrite store8_ok by done. cbn [mbind res_bind]. eexists s, _, None. split; [done|]. split; [|split; [done|by left]]. simpl.
    assert (E : alter (λ l, <[Z.to_nat i := Some (u8 v)]> l) p h = <[p := <[Z.to_nat i := Some (u8 v)]> l]> h).
    { apply map_eq. intros q. destruct (decide (q = p)) as [->|]; [by rewrite lookup_alter_eq, lookup_insert_eq, Hl|].
      by rewrite lookup_alter_ne, lookup_insert_ne. }
    rewrite E. eapply simulates_write; [exact H|exact Hl|by rewrite length_insert| | |].
    + split; [intros; by apply mapped_insert|apply bytes_ok_insert].
    + intros x Hx'. rewrite lookup_insert_ne; [done|lia].
    + intros j w Hj. destruct (decide (j = Z.to_nat i)) as [->|Hne].
      * rewrite list_lookup_insert_eq in Hj by lia. injection Hj as <-. rewrite Z2Nat.id by lia. apply lookup_insert_eq.
      * rewrite list_lookup_insert_ne in Hj by done. rewrite lookup_insert_ne by lia. by apply Hhold.
Qed.

(** ** Initialisation and the life of the allocator *)

Lemma zone_size_loop_ok limsize : ∃ z, zone_size_loop 2 limsize ZALLOC_MIN_ZONE_SIZE = Ok z ∧ (z = 32768 ∨ z = 65536 ∨ z = 131072).
Proof.
  unfold zone_size_loop, ZALLOC_MIN_ZONE_SIZE, ZALLOC_MAX_ZONE_SIZE. simpl.
  destruct (_ <? _); [|eexists; split; [done|by left]]. destruct (_ <? _); eexists; (split; [done|by right; (left + right)]).
Qed.

(** What the first free run looks like before the descriptors are set aside. *)
Lemma fresh_inv s : geometry s → heap_sem s = 1 → rt_page_list s = [(heap_start s, (heap_end s - heap_start s) / 4096)] →
  zones s = ∅ → zone_array s = ∅ → zone_free s = [] → zone_free_cnt s = 0 → used_mem s = 0 →
  slab_inv (λ x, if decide (heap_start s <= x < heap_end s) then OFree else OTaken) ∅ s.
Proof.
  intros Hg Hsem Hl Hz Hza Hzf Hzc Hu. pose proof Hg as [[? ?] [? ?] _ _ _].
  assert (Hend : heap_start s + (heap_end s - heap_start s) / 4096 * 4096 = heap_end s) by lia.
  split; try done; rewrite ?Hl, ?Hz, ?Hzf, ?Hzc, ?Hu; try done.
  - simpl. split_and!; done || lia.
  - intros x. rewrite covers_cons. unfold within. rewrite Hend. destruct (decide _); [tauto|]. split; [done|].
    intros [?|Hc]; [done|by apply covers_nil in Hc].
  - intros x. by destruct (decide _).
  - intros a x. destruct (decide _); split; try done; intros [[? Ha] _]; by rewrite lookup_empty in Ha.
  - intros a x. by destruct (decide _).
  - intros p n x. by destruct (decide _).
  - intros zi. unfold zone_list. rewrite Hza, lookup_empty. split; [constructor|]. by intros a ?%elem_of_nil.
  - split_and!; [constructor| |done]. by intros a ?%elem_of_nil.
  - intros p c. rewrite lookup_empty. split; [done|]. intros [(n & E & _)|(a & z & E & _)]; [by destruct (decide _)|].
    by rewrite lookup_empty in E.
Qed.

Lemma slab_init_ok b e junk : 0 < b <= 4294963200 → 0 <= e < 4294967296 → page_align b < page_of e →
  ∃ s own, rt_system_heap_init 0 b e junk = Ok (Some s) ∧ slab_inv own ∅ s ∧ heap_sem s = 1 ∧
    heap_start s = page_align b ∧ heap_end s = page_of e.
Proof.
  intros Hb He Hbe. rewrite page_align_val, page_of_val in Hbe by lia.
  unfold rt_system_heap_init. cbn [Z.eqb rt_assert require mbind res_bind]. rewrite page_align_val, page_of_val by lia.
  set (hs := (b + 4095) / 4096 * 4096) in *. set (he := e / 4096 * 4096) in *.
  assert (Hhs : 0 < hs ∧ hs mod 4096 = 0) by (unfold hs; lia). assert (Hhe : he < 4294967296 ∧ he mod 4096 = 0) by (unfold he; lia).
  clearbody hs he. rewrite (proj2 (Z.leb_gt he hs)) by lia. cbv zeta. unfold RT_MM_PAGE_SIZE.
  set (np := (he - hs) / 4096). assert (Hnp : 0 < np ∧ hs + np * 4096 = he) by (unfold np; lia).
  unfold rt_page_init, rt_page_free, rt_assert, require. rewrite (proj2 (Z.eqb_neq hs 0)), (proj2 (Z.eqb_neq np 0)) by lia.
  unfold RT_MM_PAGE_SIZE. rewrite (proj2 Hhs). cbn [negb mbind res_bind Z.eqb rt_page_list set_pages lock_heap set_sem heap_sem page_free_loop Z.ltb Z.compare mbind res_bind].
  destruct (zone_size_loop_ok (he - hs)) as (zs & -> & Hzs). cbn [mbind res_bind].
  set (zl := if ZALLOC_ZONE_LIMIT <? zs / 4 then ZALLOC_ZONE_LIMIT else zs / 4).
  match goal with |- context [rt_page_alloc ?k ?x] => set (s := x); set (kp := k) end.
  assert (Hs : slab_inv (λ x, if decide (hs <= x < he) then OFree else OTaken) ∅ s).
  { apply (fresh_inv s); try done. constructor; simpl; try done; try lia.
    unfold zl. clear - Hzs. by destruct Hzs as [->|[->| ->]]. }
  assert (Hkp : 0 < kp <= np).
  { unfold kp. assert (Hn4 : 0 <= np * 4 <= 4294963200) by (clear - Hnp Hhe Hhs; lia).
    rewrite page_align_val, Z.div_mul by done. clear - Hnp Hn4. lia. }
  destruct (rt_page_alloc_ok kp s) as (s' & [p|] & E); [done| |]; rewrite E; cbn [mbind res_bind].
  - destruct (take_pages _ _ s kp s' p Hs) as (H' & _ & _ & l & ->); [lia|done|]. eexists _, _. split; [done|].
    split; [exact H'|]. done.
  - destruct (take_pages_none _ _ s kp s' Hs) as [_ Hsmall]; [lia|done|]. exfalso.
    assert (np < kp); [|lia]. apply (Hsmall hs np). by left.
Qed.

(** What a run of calls may lead to; [n] of its calls returned null. *)
Inductive slab_reach (s0 : slab) (m0 : gmap Z Z) : Z → ideal → slab → gmap Z Z → Prop :=
  | sr_start : slab_reach s0 m0 0 ∅ s0 m0
  | sr_step n h s m op s' m' r : slab_reach s0 m0 n h s m → allowed op h → slab_do op s m = Ok (s', m', r) →
      slab_reach s0 m0 (n + failures op r) (ideal_do op r h) s' m'.

Lemma failures_range op r : 0 <= failures op r <= 1.
Proof. by destruct op, r. Qed.

Lemma reach_simulates s0 m0 n h s m : simulates ∅ s0 m0 → heap_sem s0 = 1 → slab_reach s0 m0 n h s m → n < 65535 →
  simulates h s m ∧ same_heap s0 s ∧ 0 < heap_sem s <= 1 + n.
Proof.
  intros H0 Hsem. induction 1 as [|n h s m op s' m' r Hr IH Ha Hd]; intros Hn; [by rewrite Hsem|].
  pose proof (failures_range op r). destruct IH as (IH1 & IH2 & IH3); [lia|].
  destruct (slab_step_simulates op h s m IH1) as (s2 & m2 & r2 & E & H2 & Hsame & Hs2); [lia|done|].
  rewrite Hd in E. injection E as <- <- <-. split; [done|]. destruct IH2, Hsame. split; [split; congruence|].
  destruct Hs2 as [->|[Hf ->]]; [lia|]. unfold u16. rewrite Z.mod_small; lia.
Qed.

(** C28. After [rt_system_heap_init] of the slab allocator, whatever a client
    does with the blocks it was given (allocate, clear, resize, release, write), as
    long as fewer than 65535 of its calls have returned null (each may release the
    semaphore once too often, and [malloc_failures_block] shows what 65535 of them
    do): no call fails an assertion, follows a bad pointer, loops or waits for the
    semaphore; every block is
    8-aligned and inside the region, no two blocks overlap, every byte the client
    wrote is in memory, through reallocations too, and when everything has been
    freed [used_mem] is zero. *)
Theorem slab_client_safe b e junk m0 :
  0 < b <= 4294963200 → 0 <= e < 4294967296 → page_align b < page_of e →
  bytes_ok m0 → mapped m0 b (e - b) → e - b < 2147483648 →
  ∃ s0, rt_system_heap_init 0 b e junk = Ok (Some s0) ∧ ∀ n h s m, slab_reach s0 m0 n h s m → n < 65535 →
    (∀ op, allowed op h → is_ok (slab_do op s m) = true) ∧
    (∀ p l, h !! p = Some l → b <= p ∧ p + Z.of_nat (length l) <= e ∧ p mod 8 = 0 ∧ holds m p l) ∧
    (∀ p l q k, h !! p = Some l → h !! q = Some k → p ≠ q →
       p + Z.of_nat (length l) <= q ∨ q + Z.of_nat (length k) <= p) ∧
    (h = ∅ → used_mem s = 0).
Proof.
  intros Hb He Hbe Hm Hmap Hsmall. destruct (slab_init_ok b e junk Hb He Hbe) as (s0 & own0 & E & H0 & Hsem & Hst & Hen).
  exists s0. split; [done|]. rewrite page_align_val in Hst by lia. rewrite page_of_val in Hen by lia.
  assert (Hsim : simulates ∅ s0 m0).
  { split; [split; [done| |lia]|]. { apply (mapped_sub _ _ _ _ _ Hmap); lia. }
    exists own0, ∅. split_and!; [done| |]; intros p; rewrite !lookup_empty; done. }
  intros n h s m Hr Hn. destruct (reach_simulates _ _ _ _ _ _ Hsim Hsem Hr Hn) as (Hs & [Hst' Hen'] & Hsems).
  pose proof Hs as [_ (own & cap & H & Hdom & Hh)]. split_and!.
  - intros op Ha. destruct (slab_step_simulates op h s m Hs) as (s' & m' & r & -> & _); [lia|done|done].
  - intros p l Hl. destruct (proj1 (Hdom p)) as [c Hc]; [by eexists|]. destruct (Hh p l c Hl Hc) as (? & ? & ?).
    destruct (slab_block_range _ _ _ _ _ H Hc). split_and!; [lia|lia|by eapply block_aligned|done].
  - intros p l q k Hl Hk Hne. destruct (proj1 (Hdom p)) as [c Hc]; [by eexists|]. destruct (proj1 (Hdom q)) as [d Hd]; [by eexists|].
    destruct (Hh p l c Hl Hc) as (? & ? & _). destruct (Hh q k d Hk Hd) as (? & ? & _).
    pose proof (slab_blocks_apart _ _ _ _ _ _ _ H Hc Hd Hne). lia.
  - intros ->. rewrite (si_used _ _ _ H). assert (cap = ∅) as ->; [|done]. apply map_empty. intros p.
    destruct (cap !! p) eqn:E'; [|done]. destruct (proj2 (Hdom p)) as [? Hx]; [by eexists|]. by rewrite lookup_empty in Hx.
Qed.

(** ** When [rt_malloc] fails *)

Lemma new_zone_none own cap s s' : slab_inv own cap s → new_zone s = Ok (s', None) →
  zone_free s = [] ∧ ∀ b n, (b, n) ∈ rt_page_list s → n < zone_page_cnt s.
Proof.
  intros H E. unfold new_zone in E. destruct (zone_free s) as [|a rest]; [|done]. split; [done|].
  pose proof (si_geom _ _ _ H) as [_ _ Hzs _ Hpc].
  destruct (rt_page_alloc _ (unlock_heap s)) as [[s1 [a|]]|] eqn:Ep; [by cbn in E; destruct (lock_heap s1)| |done].
  change (zone_size (unlock_heap s) / RT_MM_PAGE_SIZE) with (zone_size s / 4096) in Ep. rewrite <- Hpc in Ep.
  destruct (take_pages_none own cap (unlock_heap s) (zone_page_cnt s) s1) as [_ Hall]; [by apply inv_sem|lia|done|done].
Qed.

(** No zone with a free chunk of the size, no spare zone, no run for a new one. *)
Definition exhausted (size : Z) (s : slab) : Prop :=
  zone_list (zoneindex size).1 s = [] ∧ zone_free s = [] ∧ ∀ b n, (b, n) ∈ rt_page_list s → n < zone_page_cnt s.

Lemma small_malloc_null own cap s size s' :
  slab_inv own cap s → 0 < heap_sem s < 65536 → 0 < size < zone_limit s → rt_malloc size s = Ok (s', None) → exhausted size s.
Proof.
  intros H Hsem Hsz E. unfold rt_malloc in E. rewrite (proj2 (Z.eqb_neq size 0)), (proj2 (Z.leb_gt (zone_limit s) size)) in E by lia.
  rewrite lock_heap_ok in E by lia. cbn [mbind res_bind] in E. unfold exhausted.
  destruct (zoneindex size) as [zi sz] eqn:Ez. simpl fst.
  unfold rt_assert, require in E. destruct (zi <? NZONES); [|done]. cbn [mbind res_bind] in E.
  change (zone_list zi (locked s)) with (zone_list zi s) in E.
  destruct (zone_list zi s) as [|a rest] eqn:El.
  2:{ destruct (malloc_from_zone sz zi a rest (locked s)) as [[? ?]|]; done. }
  destruct (new_zone (locked s)) as [[s2 [a|]]|] eqn:En; [done| |done].
  destruct (new_zone_none own cap (locked s) s2) as [Hzf Hall]; [by apply inv_sem|done|]. by split_and!.
Qed.

(** [rt_malloc] returns null for a positive size only when the memory is not
    there: no run of free pages is long enough, and for a small request there is
    no zone of its size with a free chunk and no spare zone.  Then, for a small
    request, all that has changed is that the semaphore of the heap has been
    released once more than it was taken: a heap that was free has two tokens
    afterwards, and one with 65535 has none. *)
Theorem rt_malloc_null own cap s size s' :
  slab_inv own cap s → 0 < heap_sem s < 65536 → 0 < size <= 4294963200 → rt_malloc size s = Ok (s', None) →
  let needed := if zone_limit s <=? size then (size + 4095) / 4096 else zone_page_cnt s in
  (∀ b n, (b, n) ∈ rt_page_list s → n < needed) ∧
  s' = set_sem (if zone_limit s <=? size then heap_sem s else u16 (heap_sem s + 1)) s ∧
  (size < zone_limit s → zone_list (zoneindex size).1 s = [] ∧ zone_free s = []).
Proof.
  intros H Hsem Hsz E. destruct (rt_malloc_ok own cap s size H Hsem) as (s1 & r & E1 & _ & Hr); [lia|].
  rewrite E in E1. injection E1 as <- <-. cbn in Hr. rewrite (proj2 (Z.ltb_lt 0 size)) in Hr by lia.
  destruct (Z.leb_spec (zone_limit s) size) as [Hl|Hl]; cbv zeta.
  - rewrite (proj2 (Z.ltb_ge size _)) in Hr by lia. split_and!; [|done|lia].
    unfold rt_malloc in E. rewrite (proj2 (Z.eqb_neq size 0)), (proj2 (Z.leb_le _ size)) in E by lia.
    unfold malloc_large in E. rewrite page_align_val, Z.shiftr_div_pow2 in E by lia.
    change (2 ^ 12) with 4096 in E. rewrite Z.div_mul in E by done.
    destruct (rt_page_alloc _ s) as [[s2 [b|]]|] eqn:Ep; [| |done]; cbn in E; [by destruct (lock_heap _)|].
    destruct (take_pages_none own cap s ((size + 4095) / 4096) s2 H) as [_ Hall]; [lia|done|done].
  - rewrite (proj2 (Z.ltb_lt size _)) in Hr by lia.
    destruct (small_malloc_null own cap s size s' H Hsem) as (? & ? & ?); [lia|done|]. by split_and!.
Qed.

(** A heap that cannot serve a small request cannot serve it again. *)
Lemma exhausted_malloc own cap s size v : slab_inv own cap s → 0 < size < zone_limit s → exhausted size s → 0 < v < 65536 →
  rt_malloc size (set_sem v s) = Ok (set_sem (u16 (v + 1)) s, None).
Proof.
  intros H Hsz (Hl & Hf & Hall) Hv. pose proof (si_geom _ _ _ H) as [_ _ Hzs Hlim Hpc].
  destruct (rt_malloc_ok own cap (set_sem v s) size) as (s1 & r & E & _ & Hr); [by apply inv_sem|done|lia|].
  rewrite E. change (heap_sem (set_sem v s)) with v in Hr. change (zone_limit (set_sem v s)) with (zone_limit s) in Hr.
  rewrite (proj2 (Z.ltb_lt 0 size)), (proj2 (Z.ltb_lt size _)) in Hr by lia.
  destruct r as [p|]; [exfalso|by rewrite Hr].
  unfold rt_malloc in E. change (zone_limit (set_sem v s)) with (zone_limit s) in E.
  rewrite (proj2 (Z.eqb_neq size 0)), (proj2 (Z.leb_gt (zone_limit s) size)) in E by lia.
  rewrite lock_heap_ok in E by (simpl; lia). cbn [mbind res_bind] in E.
  destruct (zoneindex size) as [zi sz] eqn:Ez. simpl fst in Hl.
  unfold rt_assert, require in E. destruct (zi <? NZONES); [|done]. cbn [mbind res_bind] in E.
  change (zone_list zi (locked (set_sem v s))) with (zone_list zi s) in E. rewrite Hl in E.
  unfold new_zone in E. change (zone_free (locked (set_sem v s))) with (zone_free s) in E. rewrite Hf in E.
  set (s2 := unlock_heap _) in E. change (zone_size s2) with (zone_size s) in E. unfold RT_MM_PAGE_SIZE in E. rewrite <- Hpc in E.
  unfold rt_page_alloc, lock_heap in E. destruct (zone_page_cnt s =? 0); [done|]. destruct (0 <? heap_sem s2); [|done].
  cbn [mbind res_bind] in E. change (rt_page_list (set_sem _ s2)) with (rt_page_list s) in E.
  rewrite page_alloc_loop_short in E by done. done.
Qed.

Fixpoint mallocs (k : nat) (size : Z) (s : slab) : res slab :=
  match k with O => Ok s | S k => '(s, _) ← rt_malloc size s; mallocs k size s end.

Lemma mallocs_exhausted own cap s size k v : slab_inv own cap s → 0 < size < zone_limit s → exhausted size s →
  0 < v < 65536 → v + Z.of_nat k <= 65536 → mallocs k size (set_sem v s) = Ok (set_sem (u16 (v + Z.of_nat k)) s).
Proof.
  intros H Hsz Hx. revert v. induction k as [|k IH]; intros v Hv Hk.
  - simpl. unfold u16. rewrite Z.mod_small by lia. do 2 f_equal. lia.
  - cbn [mallocs]. rewrite (exhausted_malloc own cap) by (done || lia). cbn [mbind res_bind].
    destruct (Z.eq_dec v 65535) as [->|].
    + assert (k = O) as -> by lia. reflexivity.
    + unfold u16 at 1. rewrite Z.mod_small by lia. rewrite IH by lia. do 3 f_equal. lia.
Qed.

(** The 16 bits of the semaphore wrap: after 65535 failures of one small request
    on a heap nobody holds, it has no token, and every later request for memory
    waits for ever. *)
Lemma malloc_failures_block own cap s size s1 k : slab_inv own cap s → heap_sem s = 1 → 0 < size < zone_limit s →
  rt_malloc size s = Ok (s1, None) → Z.of_nat k = 65535 →
  ∃ s', mallocs k size s = Ok s' ∧ ∀ n, 0 < n <= 4294963200 → rt_malloc n s' = Stop Blocks.
Proof.
  intros H Hsem Hsz E Hk. pose proof (small_malloc_null own cap s size s1 H ltac:(lia) Hsz E) as Hx.
  exists (set_sem 0 s). split.
  - assert (Es : s = set_sem 1 s) by (destruct s; simpl in *; by subst). rewrite Es at 1.
    rewrite (mallocs_exhausted own cap) by (done || lia). rewrite Hk. reflexivity.
  - intros n Hn. unfold rt_malloc. rewrite (proj2 (Z.eqb_neq n 0)) by lia.
    destruct (_ <=? n); [|by rewrite lock_heap_blocks].
    unfold malloc_large. rewrite page_align_val, Z.shiftr_div_pow2 by lia. change (2 ^ 12) with 4096. rewrite Z.div_mul by done.
    unfold rt_page_alloc. rewrite (proj2 (Z.eqb_neq _ 0)) by lia. by rewrite lock_heap_blocks.
Qed.

(** ** A small heap *)

(** Ten pages: one for the descriptors, eight for a zone, one left. *)
Definition demo_slab : slab :=
  match rt_system_heap_init 0 8192 49152 ∅ with Ok (Some s) => s | _ => mk_slab [] ∅ ∅ ∅ [] 0 0 0 0 0 0 0 0 0 end.
Definition demo_bytes (a : Z) (n : nat) : gmap Z Z := list_to_map ((λ i, (a + Z.of_nat i, 0)) <$> seq 0 n).

Lemma demo_bytes_lookup a n x : demo_bytes a n !! x = if decide (a <= x < a + Z.of_nat n) then Some 0 else None.
Proof.
  unfold demo_bytes. destruct (decide _) as [Hx|Hx].
  - apply elem_of_list_to_map_1'.
    + intros y (i & [= -> ->] & _)%list_elem_of_fmap. done.
    + apply list_elem_of_fmap. exists (Z.to_nat (x - a)). split; [f_equal; lia|]. apply elem_of_seq. lia.
  - apply not_elem_of_list_to_map_1. rewrite list_elem_of_fmap. intros ([y v] & -> & Hy).
    apply list_elem_of_fmap in Hy as (i & [= -> ->] & Hi%elem_of_seq). simpl in Hx. lia.
Qed.

(** The client gets 100 bytes: the first chunk of a new zone. *)
Lemma slab_client_safe_witness :
  rt_malloc 100 demo_slab = Ok (match rt_malloc 100 demo_slab with Ok (s, _) => s | Stop _ => demo_slab end, Some 12328) ∧
  ∃ s0, rt_system_heap_init 0 8192 49152 ∅ = Ok (Some s0) ∧
    ∀ n h s m, slab_reach s0 (demo_bytes 8192 (Z.to_nat 40960)) n h s m → n < 65535 → h = ∅ → used_mem s = 0.
Proof.
  split; [vm_compute; reflexivity|].
  destruct (slab_client_safe 8192 49152 ∅ (demo_bytes 8192 (Z.to_nat 40960))) as (s0 & E & H).
  - lia.
  - lia.
  - vm_compute; reflexivity.
  - intros x v Hx. rewrite demo_bytes_lookup in Hx. destruct (decide _); [|done]. injection Hx as <-. lia.
  - intros x Hx. rewrite demo_bytes_lookup, decide_True by lia. by eexists.
  - lia.
  - exists s0. split; [exact E|]. intros n h s m Hr Hn. apply (H n h s m Hr Hn).
Defined.

(** A chunk of 8192 bytes, a power of two, that is only page-aligned, although
    the comment in [rt_malloc] promises power-of-two alignment for power-of-two
    sizes. *)
Lemma power_of_two_chunk_alignment : zoneindex 8000 = (63, 8192) ∧
  ∃ s p, rt_malloc 8000 demo_slab = Ok (s, Some p) ∧ p mod 8192 = 4096.
Proof. split; [vm_compute; reflexivity|]. eexists _, _. split; vm_compute; reflexivity. Qed.

(** One zone is all there is: a request of another size fails, and the
    semaphore, free before with one token, has two. *)
Lemma failed_malloc_two_tokens : heap_sem demo_slab = 1 ∧
  match rt_malloc 100 demo_slab with
  | Ok (s1, Some _) => match rt_malloc 200 s1 with Ok (s2, None) => Some (heap_sem s1, heap_sem s2) | _ => None end
  | _ => None
  end = Some (1, 2).
Proof. split; vm_compute; reflexivity. Qed.

Lemma rt_malloc_null_witness : ∃ s2, rt_malloc 40000 demo_slab = Ok (s2, None) ∧
  ∀ b n, (b, n) ∈ rt_page_list demo_slab → n < 10.
Proof.
  destruct (slab_init_ok 8192 49152 ∅) as (s0 & own & E & H & Hsem & _); [lia|lia|vm_compute; reflexivity|].
  assert (Hs : demo_slab = s0) by (unfold demo_slab; by rewrite E). 
  destruct (rt_malloc_ok own ∅ demo_slab 40000) as (s2 & r & E2 & _); [by rewrite Hs|rewrite Hs, Hsem; lia|lia|].
  assert (Hr : match rt_malloc 40000 demo_slab with Ok (_, r) => r | Stop _ => Some 0 end = None) by (vm_compute; reflexivity).
  rewrite E2 in Hr. subst r.
  exists s2. split; [exact E2|].
  destruct (rt_malloc_null own ∅ demo_slab 40000 s2) as [Hall _]; [by rewrite Hs|rewrite Hs, Hsem; lia|lia|exact E2|].
  exact Hall.
Defined.
