(* ===== verification/KObject.v ===== *)
(** * Kernel objects: [src/object.c]

    The per-class containers and the type byte of each object.  An object is
    named by its class and an identifier that stands for its address; names and
    the lookup by name are in [Device]. *)
From S2P Require Import Prelude.
Local Open Scope Z_scope.

Inductive object_class_type :=
  | Object_Class_Thread | Object_Class_Semaphore | Object_Class_Mutex
  | Object_Class_Event | Object_Class_MailBox | Object_Class_MessageQueue
  | Object_Class_MemHeap | Object_Class_MemPool | Object_Class_Device
  | Object_Class_Timer.

#[global] Instance object_class_eq_dec : EqDecision object_class_type.
Proof. solve_decision. Defined.

(** The enumerators of [enum rt_object_class_type] in this configuration. *)
Definition class_num (c : object_class_type) : Z :=
  match c with
  | Object_Class_Thread => 0 | Object_Class_Semaphore => 1 | Object_Class_Mutex => 2
  | Object_Class_Event => 3 | Object_Class_MailBox => 4 | Object_Class_MessageQueue => 5
  | Object_Class_MemHeap => 6 | Object_Class_MemPool => 7 | Object_Class_Device => 8
  | Object_Class_Timer => 9
  end.

Definition Object_Class_Static : Z := 128.

(** An object's identifier is any countable value: [nat] for most classes, a
    timer name for timers; the containers index them by class. *)
Record rt_object := mk_object { obj_type : Z; obj_flag : Z }.

Record objsys (I : Type) `{Countable I} := mk_objs {
  objects : gmap I rt_object;
  object_list : object_class_type → list I }.
Arguments mk_objs {I _ _}.
Arguments objects {I _ _}.
Arguments object_list {I _ _}.

Section Objects.
Context {I : Type} `{Countable I}.
Implicit Types (o : objsys I) (x : I) (c : object_class_type).

Definition set_list c (l : list I) o : objsys I :=
  mk_objs (objects o) (λ c', if decide (c' = c) then l else object_list o c').
Definition set_object x (r : rt_object) o : objsys I :=
  mk_objs (<[x := r]> (objects o)) (object_list o).
Definition get_object x o : res rt_object := of_option NullDeref (objects o !! x).

(** [rt_list_insert_after(&(information->object_list), &(object->list))]: the
    node must not be linked already. *)
Definition object_link c x o : res (objsys I) :=
  _ ← require ListCorrupt (bool_decide (x ∉ object_list o c));
  Ok (set_list c (x :: object_list o c) o).
(** [rt_list_remove(&(object->list))]: the object is in the container of its
    own class or in none. *)
Definition object_unlink x o : objsys I :=
  mk_objs (objects o) (λ c, filter (λ y, y ≠ x) (object_list o c)).

Definition rt_object_init c x (old_flag : Z) o : res (objsys I) :=
  let o := set_object x (mk_object (Z.lor (class_num c) Object_Class_Static) old_flag) o in
  object_link c x o.

Definition rt_object_detach x o : res (objsys I) :=
  _ ← get_object x o;
  Ok (object_unlink x o).

(** [p] is what [RT_KERNEL_MALLOC] returned. *)
Definition rt_object_allocate c (p : option I) o : res (objsys I * option I) :=
  match p with
  | None => Ok (o, None)
  | Some x =>
      let o := set_object x (mk_object (class_num c) 0) o in
      o ← object_link c x o;
      Ok (o, Some x)
  end.

Definition is_static (r : rt_object) : bool := negb (Z.land (obj_type r) Object_Class_Static =? 0).

Definition rt_object_delete x o : res (objsys I) :=
  r ← get_object x o;
  _ ← rt_assert (negb (is_static r));
  let o := object_unlink x o in
  Ok (mk_objs (delete x (objects o)) (object_list o)).

Definition rt_object_is_systemobject x o : res bool :=
  r ← get_object x o; Ok (is_static r).
End Objects.
