(* ===== verification/Kernel.v ===== *)
(** * Threads and the scheduler: [src/scheduler.c], [src/thread.c],
    [src/clock.c], [src/irq.c], [src/idle.c]

    Every intrusive list threaded through [thread->tlist] is a queue of thread
    identifiers (RtList.v shows that the pointer operations of [rtservice.h] are
    these sequence operations): the 32 ready lists, the suspend list of each IPC
    object, the sender list of each mailbox and the defunct list.  Regions
    between [rt_hw_interrupt_disable] and [rt_hw_interrupt_enable] are atomic.

    [rt_schedule] records the switch in [rt_current_thread]; what a thread does
    after its call to [rt_schedule] returns is modelled by the second half of
    the blocking operations ([..._resume]), run when that thread is current. *)
From S2P Require Import Prelude Timer KObject.
Local Open Scope Z_scope.

(** ** Constants *)
Definition RT_EOK : Z := 0.
Definition RT_ERROR : Z := 1.
Definition RT_ETIMEOUT : Z := 2.
Definition RT_EFULL : Z := 3.
Definition RT_EEMPTY : Z := 4.
Definition RT_THREAD_PRIORITY_MAX : Z := 32.

(** ** State *)
Inductive thread_stat := THREAD_INIT | THREAD_READY | THREAD_SUSPEND | THREAD_CLOSE.

#[global] Instance thread_stat_eq_dec : EqDecision thread_stat.
Proof. solve_decision. Defined.

Inductive qid := QReady (p : nat) | QWait (i : nat) | QSender (i : nat) | QDefunct.

#[global] Instance qid_eq_dec : EqDecision qid.
Proof. solve_decision. Defined.
#[global] Instance qid_countable : Countable qid.
Proof.
  refine (inj_countable'
    (λ q, match q with QReady p => inl (inl p) | QWait i => inl (inr i)
                  | QSender i => inr (inl i) | QDefunct => inr (inr tt) end)
    (λ s, match s with inl (inl p) => QReady p | inl (inr i) => QWait i
                  | inr (inl i) => QSender i | inr (inr _) => QDefunct end) _).
  by intros [].
Defined.

Inductive oid := OThread (t : tid) | OTimer (x : tmid) | OIpc (i : nat).

#[global] Instance oid_eq_dec : EqDecision oid.
Proof. solve_decision. Defined.
#[global] Instance oid_countable : Countable oid.
Proof.
  refine (inj_countable'
    (λ o, match o with OThread t => inl t | OTimer x => inr (inl x) | OIpc i => inr (inr i) end)
    (λ s, match s with inl t => OThread t | inr (inl x) => OTimer x | inr (inr i) => OIpc i end) _).
  by intros [].
Defined.

Record rt_thread := mk_thread {
  stat : thread_stat;
  current_priority : Z;
  init_priority : Z;
  number_mask : Z;
  error : Z;
  event_set : Z;
  event_info : Z;
  thread_init_tick : Z;
  remaining_tick : Z;
  cleanup : option nat;
  stack_addr : Z;
  stack_size : Z;
  sp : Z;
  stack_guard : Z            (** the byte at [stack_addr] *) }.

Definition with_stat (s : thread_stat) (th : rt_thread) : rt_thread :=
  mk_thread s (current_priority th) (init_priority th) (number_mask th) (error th)
    (event_set th) (event_info th) (thread_init_tick th) (remaining_tick th) (cleanup th)
    (stack_addr th) (stack_size th) (sp th) (stack_guard th).
Definition with_priority (p mask : Z) (th : rt_thread) : rt_thread :=
  mk_thread (stat th) p (init_priority th) mask (error th)
    (event_set th) (event_info th) (thread_init_tick th) (remaining_tick th) (cleanup th)
    (stack_addr th) (stack_size th) (sp th) (stack_guard th).
Definition with_error (e : Z) (th : rt_thread) : rt_thread :=
  mk_thread (stat th) (current_priority th) (init_priority th) (number_mask th) e
    (event_set th) (event_info th) (thread_init_tick th) (remaining_tick th) (cleanup th)
    (stack_addr th) (stack_size th) (sp th) (stack_guard th).
Definition with_event (es ei : Z) (th : rt_thread) : rt_thread :=
  mk_thread (stat th) (current_priority th) (init_priority th) (number_mask th) (error th)
    es ei (thread_init_tick th) (remaining_tick th) (cleanup th)
    (stack_addr th) (stack_size th) (sp th) (stack_guard th).
Definition with_remaining (r : Z) (th : rt_thread) : rt_thread :=
  mk_thread (stat th) (current_priority th) (init_priority th) (number_mask th) (error th)
    (event_set th) (event_info th) (thread_init_tick th) r (cleanup th)
    (stack_addr th) (stack_size th) (sp th) (stack_guard th).

Record kernel := mk_kernel {
  threads : gmap tid rt_thread;
  queues : gmap qid (list tid);
  tsys : timer_sys;
  objs : objsys oid;
  rt_current_thread : option tid;
  rt_current_priority : Z;
  rt_thread_ready_priority_group : Z;
  rt_scheduler_lock_nest : Z;
  rt_interrupt_nest : Z }.

Definition set_threads (m : gmap tid rt_thread) (k : kernel) : kernel :=
  mk_kernel m (queues k) (tsys k) (objs k) (rt_current_thread k) (rt_current_priority k)
    (rt_thread_ready_priority_group k) (rt_scheduler_lock_nest k) (rt_interrupt_nest k).
Definition set_queues (m : gmap qid (list tid)) (k : kernel) : kernel :=
  mk_kernel (threads k) m (tsys k) (objs k) (rt_current_thread k) (rt_current_priority k)
    (rt_thread_ready_priority_group k) (rt_scheduler_lock_nest k) (rt_interrupt_nest k).
Definition set_tsys (ts : timer_sys) (k : kernel) : kernel :=
  mk_kernel (threads k) (queues k) ts (objs k) (rt_current_thread k) (rt_current_priority k)
    (rt_thread_ready_priority_group k) (rt_scheduler_lock_nest k) (rt_interrupt_nest k).
Definition set_objs (o : objsys oid) (k : kernel) : kernel :=
  mk_kernel (threads k) (queues k) (tsys k) o (rt_current_thread k) (rt_current_priority k)
    (rt_thread_ready_priority_group k) (rt_scheduler_lock_nest k) (rt_interrupt_nest k).
Definition set_current (c : option tid) (p : Z) (k : kernel) : kernel :=
  mk_kernel (threads k) (queues k) (tsys k) (objs k) c p
    (rt_thread_ready_priority_group k) (rt_scheduler_lock_nest k) (rt_interrupt_nest k).
Definition set_group (g : Z) (k : kernel) : kernel :=
  mk_kernel (threads k) (queues k) (tsys k) (objs k) (rt_current_thread k) (rt_current_priority k)
    g (rt_scheduler_lock_nest k) (rt_interrupt_nest k).
Definition set_lock (n : Z) (k : kernel) : kernel :=
  mk_kernel (threads k) (queues k) (tsys k) (objs k) (rt_current_thread k) (rt_current_priority k)
    (rt_thread_ready_priority_group k) n (rt_interrupt_nest k).
Definition set_nest (n : Z) (k : kernel) : kernel :=
  mk_kernel (threads k) (queues k) (tsys k) (objs k) (rt_current_thread k) (rt_current_priority k)
    (rt_thread_ready_priority_group k) (rt_scheduler_lock_nest k) n.

#[global] Program Instance kernel_has_timers : HasTimers kernel :=
  { get_ts := tsys; put_ts := set_tsys }.
Solve Obligations with (by intros ? [] || by intros ? ? [] || by intros []).

Definition get_thread (t : tid) (k : kernel) : res rt_thread := of_option NullDeref (threads k !! t).
Definition set_thread (t : tid) (th : rt_thread) (k : kernel) : kernel :=
  set_threads (<[t := th]> (threads k)) k.

(** Run a timer operation on the kernel's timers. *)
Definition on_timers (f : timer_sys → res timer_sys) (k : kernel) : res kernel :=
  ts ← f (tsys k); Ok (set_tsys ts k).
Definition on_objects (f : objsys oid → res (objsys oid)) (k : kernel) : res kernel :=
  o ← f (objs k); Ok (set_objs o k).

(** ** Lists threaded through [tlist] *)
Definition q_get (k : kernel) (q : qid) : list tid := default [] (queues k !! q).
Definition q_set (q : qid) (l : list tid) (k : kernel) : kernel :=
  set_queues (<[q := l]> (queues k)) k.

(** The node is linked in some list; inserting it again would corrupt both. *)
Definition linked (t : tid) (k : kernel) : bool :=
  existsb (λ p : qid * list tid, bool_decide (t ∈ p.2)) (map_to_list (queues k)).

Definition rt_list_isempty (q : qid) (k : kernel) : bool :=
  match q_get k q with [] => true | _ => false end.
(** [rt_list_remove(&thread->tlist)], whatever list the node is in. *)
Definition rt_list_remove (t : tid) (k : kernel) : kernel :=
  set_queues (filter (λ u, u ≠ t) <$> queues k) k.
(** [rt_list_insert_before(head, &thread->tlist)]: append. *)
Definition rt_list_insert_before (q : qid) (t : tid) (k : kernel) : res kernel :=
  _ ← require ListCorrupt (negb (linked t k));
  Ok (q_set q (q_get k q ++ [t]) k).
(** [rt_list_insert_after(head, &thread->tlist)]: push in front. *)
Definition rt_list_insert_after (q : qid) (t : tid) (k : kernel) : res kernel :=
  _ ← require ListCorrupt (negb (linked t k));
  Ok (q_set q (t :: q_get k q) k).
(** [rt_list_entry(head->next, struct rt_thread, tlist)]. *)
Definition rt_list_first (q : qid) (k : kernel) : res tid :=
  match q_get k q with t :: _ => Ok t | [] => Stop ListCorrupt end.

(** ** [__rt_ffs] ([src/kservice.c]) *)
Definition lowest_bit_row (hi : Z) : list Z := [hi; 0; 1; 0; 2; 0; 1; 0; 3; 0; 1; 0; 2; 0; 1; 0].
Definition __lowest_bit_bitmap : list Z :=
  concat (lowest_bit_row <$> [0; 4; 5; 4; 6; 4; 5; 4; 7; 4; 5; 4; 6; 4; 5; 4]).
Definition bitmap_at (i : Z) : Z := nth (Z.to_nat i) __lowest_bit_bitmap 0.

Definition __rt_ffs (value : Z) : Z :=
  if value =? 0 then 0
  else if negb (Z.land value 255 =? 0) then bitmap_at (Z.land value 255) + 1
  else if negb (Z.land value 65280 =? 0)
  then bitmap_at (Z.shiftr (Z.land value 65280) 8) + 9
  else if negb (Z.land value 16711680 =? 0)
  then bitmap_at (Z.shiftr (Z.land value 16711680) 16) + 17
  else bitmap_at (Z.shiftr (Z.land value 4278190080) 24) + 25.

(** ** [src/scheduler.c] *)
Definition prio_index (p : Z) : res nat :=
  _ ← require OutOfBounds ((0 <=? p) && (p <? RT_THREAD_PRIORITY_MAX));
  Ok (Z.to_nat p).

(** [false] when the thread's stack has overflowed: the kernel then stops for
    ever with interrupts off. *)
Definition _rt_scheduler_stack_check (th : rt_thread) : bool :=
  negb (negb (stack_guard th =? 35)
        || (u32 (sp th) <=? u32 (stack_addr th))
        || (u32 (stack_addr th + stack_size th) <? u32 (sp th))).

Definition rt_system_scheduler_init (k : kernel) : kernel :=
  let qs := foldr (λ p m, <[QReady p := []]> m) (queues k) (seq 0 32) in
  let k := set_lock 0 (set_queues qs k) in
  let k := set_current None (RT_THREAD_PRIORITY_MAX - 1) k in
  let k := set_group 0 k in
  q_set QDefunct [] k.

(** The list head [__rt_ffs] points at, and its first thread. *)
Definition highest_ready (k : kernel) : res (Z * tid) :=
  let highest_ready_priority := u32 (__rt_ffs (rt_thread_ready_priority_group k) - 1) in
  p ← prio_index highest_ready_priority;
  to_thread ← rt_list_first (QReady p) k;
  Ok (highest_ready_priority, to_thread).

Definition rt_system_scheduler_start (k : kernel) : res kernel :=
  '(_, to_thread) ← highest_ready k;
  Ok (set_current (Some to_thread) (rt_current_priority k) k).

Definition rt_schedule (k : kernel) : res kernel :=
  if rt_scheduler_lock_nest k =? 0 then
    '(highest_ready_priority, to_thread) ← highest_ready k;
    if decide (Some to_thread = rt_current_thread k) then Ok k
    else
      (* [from_thread->sp] is written by the context switch *)
      _ ← of_option NullDeref (rt_current_thread k);
      let k := set_current (Some to_thread) (u8 highest_ready_priority) k in
      th ← get_thread to_thread k;
      _ ← require StackOverflow (_rt_scheduler_stack_check th);
      Ok k
  else Ok k.

Definition rt_schedule_insert_thread (t : tid) (k : kernel) : res kernel :=
  th ← get_thread t k;
  let k := set_thread t (with_stat THREAD_READY th) k in
  p ← prio_index (current_priority th);
  k ← rt_list_insert_before (QReady p) t k;
  Ok (set_group (Z.lor (rt_thread_ready_priority_group k) (number_mask th)) k).

Definition rt_schedule_remove_thread (t : tid) (k : kernel) : res kernel :=
  th ← get_thread t k;
  let k := rt_list_remove t k in
  p ← prio_index (current_priority th);
  if rt_list_isempty (QReady p) k
  then Ok (set_group (Z.land (rt_thread_ready_priority_group k)
                        (u32 (Z.lnot (number_mask th)))) k)
  else Ok k.

Definition rt_enter_critical (k : kernel) : kernel :=
  set_lock (s16 (rt_scheduler_lock_nest k + 1)) k.

Definition rt_exit_critical (k : kernel) : res kernel :=
  let k := set_lock (s16 (rt_scheduler_lock_nest k - 1)) k in
  if rt_scheduler_lock_nest k <=? 0
  then rt_schedule (set_lock 0 k)
  else Ok k.

Definition rt_critical_level (k : kernel) : Z := u16 (rt_scheduler_lock_nest k).

(** ** [src/thread.c] *)
Definition rt_thread_self (k : kernel) : option tid := rt_current_thread k.

(** Results are [RT_EOK] or a negated error number. *)
Definition rt_thread_suspend (t : tid) (k : kernel) : res (kernel * Z) :=
  th ← get_thread t k;
  if decide (stat th = THREAD_READY) then
    let k := set_thread t (with_stat THREAD_SUSPEND th) k in
    k ← rt_schedule_remove_thread t k;
    '(ts, _) ← rt_timer_stop (TThread t) (tsys k);
    Ok (set_tsys ts k, RT_EOK)
  else Ok (k, - RT_ERROR).

Definition rt_thread_resume (t : tid) (k : kernel) : res (kernel * Z) :=
  th ← get_thread t k;
  if decide (stat th = THREAD_SUSPEND) then
    let k := rt_list_remove t k in
    '(ts, _) ← rt_timer_stop (TThread t) (tsys k);
    k ← rt_schedule_insert_thread t (set_tsys ts k);
    Ok (k, RT_EOK)
  else Ok (k, - RT_ERROR).

Definition rt_thread_timeout (t : tid) (k : kernel) : res kernel :=
  th ← get_thread t k;
  _ ← rt_assert (bool_decide (stat th = THREAD_SUSPEND));
  let k := set_thread t (with_error (- RT_ETIMEOUT) th) k in
  let k := rt_list_remove t k in
  k ← rt_schedule_insert_thread t k;
  rt_schedule k.

(** [rt_hw_stack_init] of [libcpu/mips/loongson_1c/cpuport.c]: 37 words are
    pushed below the given top; only the stack pointer matters here. *)
Definition rt_hw_stack_init (stack_top : Z) : Z := u32 (stack_top - 37 * 4).

(** [old] is the previous content of the control block: the fields that
    initialisation does not write.  [rt_memset(stack_addr, '#', stack_size)]
    writes the guard byte when the stack is not empty. *)
Definition _rt_thread_init (t : tid) (old : rt_thread) (stack_start size priority tick : Z)
    (k : kernel) : res kernel :=
  _ ← rt_assert (priority <? RT_THREAD_PRIORITY_MAX);
  let th := {|
    stat := THREAD_INIT; current_priority := priority; init_priority := priority;
    number_mask := number_mask old; error := RT_EOK;
    event_set := event_set old; event_info := event_info old;
    thread_init_tick := tick; remaining_tick := tick; cleanup := None;
    stack_addr := stack_start; stack_size := size;
    sp := rt_hw_stack_init (u32 (stack_start + size - 4));
    stack_guard := if size =? 0 then stack_guard old else 35 |} in
  (* [rt_list_init(&thread->tlist)] on a linked node would corrupt its list *)
  _ ← require ListCorrupt (negb (linked t k));
  let k := set_thread t th k in
  k ← on_objects (rt_object_init Object_Class_Timer (OTimer (TThread t)) 0) k;
  on_timers (rt_timer_init (TThread t) (TF_thread_timeout t) 0 0) k.

Definition rt_thread_init (t : tid) (old : rt_thread) (stack_start size priority tick : Z)
    (k : kernel) : res kernel :=
  _ ← rt_assert (negb (stack_start =? 0));
  k ← on_objects (rt_object_init Object_Class_Thread (OThread t) 0) k;
  _rt_thread_init t old stack_start size priority tick k.

(** [RT_DEBUG_NOT_IN_INTERRUPT] *)
Definition debug_not_in_interrupt (k : kernel) : res unit := rt_assert (rt_interrupt_nest k =? 0).

(** [p] and [stack] are what the two heap allocations returned; the first assertion is
    that of [rt_object_allocate]. *)
Definition rt_thread_create (p : option tid) (stack : option Z) (old : rt_thread)
    (size priority tick : Z) (k : kernel) : res (kernel * option tid) :=
  _ ← debug_not_in_interrupt k;
  '(o, thread) ← rt_object_allocate Object_Class_Thread (OThread <$> p) (objs k);
  let k := set_objs o k in
  match p, thread with
  | Some t, Some _ =>
      match stack with
      | None => k ← on_objects (rt_object_delete (OThread t)) k; Ok (k, None)
      | Some stack_start =>
          k ← _rt_thread_init t old stack_start size priority tick k; Ok (k, Some t)
      end
  | _, _ => Ok (k, None)
  end.

(** [1 << p] on 32 bits, undefined from 32 on. *)
Definition priority_mask (p : Z) : res Z :=
  _ ← prio_index p; Ok (u32 (Z.shiftl 1 p)).

Definition rt_thread_startup (t : tid) (k : kernel) : res kernel :=
  th ← get_thread t k;
  _ ← rt_assert (bool_decide (stat th = THREAD_INIT));
  mask ← priority_mask (init_priority th);
  let th := with_priority (init_priority th) mask th in
  let k := set_thread t (with_stat THREAD_SUSPEND th) k in
  '(k, _) ← rt_thread_resume t k;
  match rt_thread_self k with
  | Some _ => rt_schedule k
  | None => Ok k
  end.

Definition detach_thread_timer (t : tid) (k : kernel) : res kernel :=
  k ← on_timers (rt_timer_detach (TThread t)) k;
  on_objects (rt_object_detach (OTimer (TThread t))) k.

Definition rt_thread_exit (k : kernel) : res kernel :=
  t ← of_option NullDeref (rt_current_thread k);
  k ← rt_schedule_remove_thread t k;
  th ← get_thread t k;
  let k := set_thread t (with_stat THREAD_CLOSE th) k in
  k ← detach_thread_timer t k;
  sys ← rt_object_is_systemobject (OThread t) (objs k);
  k ← (if sys && bool_decide (cleanup th = None)
       then on_objects (rt_object_detach (OThread t)) k
       else rt_list_insert_after QDefunct t k);
  rt_schedule k.

Definition rt_thread_detach (t : tid) (k : kernel) : res kernel :=
  k ← rt_schedule_remove_thread t k;
  k ← detach_thread_timer t k;
  th ← get_thread t k;
  let k := set_thread t (with_stat THREAD_CLOSE th) k in
  k ← on_objects (rt_object_detach (OThread t)) k;
  match cleanup th with
  | Some _ => rt_list_insert_after QDefunct t k
  | None => Ok k
  end.

Definition rt_thread_delete (t : tid) (k : kernel) : res kernel :=
  k ← rt_schedule_remove_thread t k;
  k ← detach_thread_timer t k;
  th ← get_thread t k;
  let k := set_thread t (with_stat THREAD_CLOSE th) k in
  rt_list_insert_after QDefunct t k.

(** [tlist.next != tlist.prev]: the ring of the thread's list has more than the
    head and one node, i.e. the list has at least two threads. *)
Definition not_alone (t : tid) (k : kernel) : bool :=
  existsb (λ p : qid * list tid, bool_decide (t ∈ p.2) && (2 <=? length p.2)%nat)
    (map_to_list (queues k)).

Definition rt_thread_yield (k : kernel) : res kernel :=
  t ← of_option NullDeref (rt_current_thread k);
  th ← get_thread t k;
  if bool_decide (stat th = THREAD_READY) && not_alone t k then
    let k := rt_list_remove t k in
    p ← prio_index (current_priority th);
    k ← rt_list_insert_before (QReady p) t k;
    rt_schedule k
  else Ok k.

(** Set the thread's own timer and start it: the four lines every blocking
    operation shares. *)
Definition start_thread_timer (t : tid) (time : Z) (k : kernel) : res kernel :=
  '(ts, _) ← rt_timer_control (TThread t) CTRL_SET_TIME time (tsys k);
  on_timers (rt_timer_start (TThread t)) (set_tsys ts k).

(** Up to the call of [rt_schedule], and after it. *)
Definition rt_thread_sleep (tick : Z) (k : kernel) : res kernel :=
  t ← of_option NullDeref (rt_current_thread k);
  '(k, _) ← rt_thread_suspend t k;
  k ← start_thread_timer t tick k;
  rt_schedule k.

Definition rt_thread_sleep_resume (t : tid) (k : kernel) : res kernel :=
  th ← get_thread t k;
  if error th =? - RT_ETIMEOUT then Ok (set_thread t (with_error RT_EOK th) k) else Ok k.

Definition rt_thread_delay (tick : Z) (k : kernel) : res kernel := rt_thread_sleep tick k.

Inductive thread_cmd := CTRL_CHANGE_PRIORITY (p : Z) | CTRL_STARTUP | CTRL_CLOSE | CTRL_OTHER.

Definition rt_thread_control (t : tid) (cmd : thread_cmd) (k : kernel) : res kernel :=
  th ← get_thread t k;
  match cmd with
  | CTRL_CHANGE_PRIORITY arg =>
      let p := u8 arg in
      if decide (stat th = THREAD_READY) then
        k ← rt_schedule_remove_thread t k;
        th ← get_thread t k;
        mask ← priority_mask p;
        let k := set_thread t (with_priority p mask th) k in
        rt_schedule_insert_thread t k
      else
        mask ← priority_mask p;
        Ok (set_thread t (with_priority p mask th) k)
  | CTRL_STARTUP => rt_thread_startup t k
  | CTRL_CLOSE => rt_thread_delete t k
  | CTRL_OTHER => Ok k
  end.

(** ** [src/irq.c] and [src/clock.c] *)
Definition rt_interrupt_enter (k : kernel) : kernel := set_nest (u8 (rt_interrupt_nest k + 1)) k.
Definition rt_interrupt_leave (k : kernel) : kernel := set_nest (u8 (rt_interrupt_nest k - 1)) k.
Definition rt_interrupt_get_nest (k : kernel) : Z := rt_interrupt_nest k.

Definition rt_tick_get (k : kernel) : Z := rt_tick (tsys k).
Definition rt_tick_set (tick : Z) (k : kernel) : kernel := set_tsys (set_tick tick (tsys k)) k.

(** [RT_DEBUG_IN_THREAD_CONTEXT]. *)
Definition debug_in_thread_context (k : kernel) : res unit :=
  _ ← rt_assert (bool_decide (is_Some (rt_thread_self k)));
  debug_not_in_interrupt k.

(** [RT_TICK_PER_SECOND] is 100. *)
Definition rt_tick_from_millisecond (ms : Z) : Z := u32 (100 * ms + 999) / 1000.

Section Tick.
(** The timeout functions of the client's timers. *)
Context (user_timeout : nat → kernel → res kernel).

Definition call_timeout (f : timer_func) (k : kernel) : res kernel :=
  match f with
  | TF_thread_timeout t => rt_thread_timeout t k
  | TF_user n => user_timeout n k
  end.

(** [fuel] bounds the timers fired by one tick. *)
Definition rt_tick_increase (fuel : nat) (k : kernel) : res kernel :=
  let k := rt_tick_set (u32 (rt_tick (tsys k) + 1)) k in
  t ← of_option NullDeref (rt_thread_self k);
  th ← get_thread t k;
  let left := u32 (remaining_tick th - 1) in
  let k := set_thread t (with_remaining left th) k in
  k ← (if left =? 0
       then rt_thread_yield (set_thread t (with_remaining (thread_init_tick th) th) k)
       else Ok k);
  rt_timer_check call_timeout fuel (rt_tick (tsys k)) k.
End Tick.

(** ** [src/idle.c] *)
Definition _has_defunct_thread (k : kernel) : bool := negb (rt_list_isempty QDefunct k).

Section Idle.
(** The cleanup functions set by the clients. *)
Context (run_cleanup : nat → tid → kernel → res kernel).

(** One call of the loop body; [true]: the function returns.  The stack and
    the control block go back to the heap. *)
Definition idle_step (k : kernel) : res (kernel * bool) :=
  _ ← debug_not_in_interrupt k;
  t ← rt_list_first QDefunct k;
  let k := rt_list_remove t k in
  th ← get_thread t k;
  k ← match cleanup th with Some c => run_cleanup c t k | None => Ok k end;
  sys ← rt_object_is_systemobject (OThread t) (objs k);
  if sys : bool then Ok (k, true)
  else
    k ← on_objects (rt_object_delete (OThread t)) k;
    (* the freed block held the thread and its timer *)
    let k := set_threads (delete t (threads k)) k in
    Ok (set_tsys (drop_timer (TThread t) (tsys k)) k, false).

Fixpoint rt_thread_idle_excute (fuel : nat) (k : kernel) : res kernel :=
  if _has_defunct_thread k then
    match fuel with
    | O => Stop OutOfFuel
    | S fuel =>
        '(k, return_now) ← idle_step k;
        if return_now : bool then Ok k else rt_thread_idle_excute fuel k
    end
  else Ok k.
End Idle.
