(* ===== verification/KernelInv.v ===== *)
(** * Invariants of the thread layer

    What the queues, the ready bitmap, the thread states and the thread timers
    have to do with each other, and that every operation of Kernel.v keeps it. *)
From S2P Require Import Prelude Timer KObject Kernel.
Local Open Scope Z_scope.

(** ** The invariant *)

(** The state and priority a thread must have to sit in a queue. *)
Definition fits (th : rt_thread) (q : qid) : Prop :=
  match q with
  | QReady p => stat th = THREAD_READY ∧ current_priority th = Z.of_nat p
  | QWait _ | QSender _ => stat th = THREAD_SUSPEND
  | QDefunct => stat th = THREAD_CLOSE
  end.

Definition prio_ok (p : Z) : Prop := 0 <= p < RT_THREAD_PRIORITY_MAX.

Record thread_ok (th : rt_thread) : Prop := {
  tk_prio : prio_ok (current_priority th);
  tk_init_prio : prio_ok (init_priority th);
  tk_mask : stat th ≠ THREAD_INIT → number_mask th = 2 ^ current_priority th;
  tk_stack : _rt_scheduler_stack_check th = true }.

Definition thread_timer_ok (t : tid) (tm : rt_timer) : Prop :=
  timeout_func tm = TF_thread_timeout t ∧ periodic tm = false.

(** A timer of its own runs code of the client. *)
Definition user_timer_ok (tm : rt_timer) : Prop := ∃ n, timeout_func tm = TF_user n.

(** [x] is a thread in the middle of an operation: linked nowhere, its state
    not yet settled. *)
Record kinv (x : option tid) (lo : Z) (k : kernel) : Prop := {
  ki_nodup : ∀ q, NoDup (q_get k q);
  ki_disj : ∀ t q1 q2, t ∈ q_get k q1 → t ∈ q_get k q2 → q1 = q2;
  ki_fits : ∀ t q, t ∈ q_get k q → ∃ th, threads k !! t = Some th ∧ fits th q;
  ki_ready : ∀ t th, threads k !! t = Some th → stat th = THREAD_READY → x ≠ Some t →
    t ∈ q_get k (QReady (Z.to_nat (current_priority th)));
  ki_float : ∀ t, x = Some t → ∀ q, t ∉ q_get k q;
  ki_thread : ∀ t th, threads k !! t = Some th → thread_ok th;
  ki_group : 0 <= rt_thread_ready_priority_group k < 4294967296;
  ki_bits : ∀ p, (p < 32)%nat →
    Z.testbit (rt_thread_ready_priority_group k) (Z.of_nat p) = negb (rt_list_isempty (QReady p) k);
  ki_ts : ts_ok lo (tsys k);
  ki_tm : ∀ t th, threads k !! t = Some th →
    ∃ tm, timers (tsys k) !! TThread t = Some tm ∧ thread_timer_ok t tm;
  ki_tm_list : ∀ t, TThread t ∈ rt_timer_list (tsys k) →
    ∃ tm, timers (tsys k) !! TThread t = Some tm ∧ activated tm = true ∧
      (x ≠ Some t → ∃ th, threads k !! t = Some th ∧ stat th = THREAD_SUSPEND);
  ki_user : ∀ n tm, timers (tsys k) !! TUser n = Some tm → user_timer_ok tm }.

(** ** Queues *)
Lemma q_get_set q l k q' : q_get (q_set q l k) q' = if decide (q' = q) then l else q_get k q'.
Proof.
  unfold q_get, q_set; simpl. case_decide as Hd.
  - subst. by rewrite lookup_insert_eq.
  - by rewrite lookup_insert_ne.
Qed.

Lemma q_get_remove t k q : q_get (rt_list_remove t k) q = filter (λ u, u ≠ t) (q_get k q).
Proof. unfold q_get, rt_list_remove; simpl. rewrite lookup_fmap. by destruct (queues k !! q). Qed.

Lemma linked_false t k : linked t k = false ↔ ∀ q, t ∉ q_get k q.
Proof.
  unfold linked. split.
  - intros H q Hq. unfold q_get in Hq. destruct (queues k !! q) as [l|] eqn:E; [|by apply elem_of_nil in Hq].
    apply not_true_iff_false in H. apply H, existsb_exists. exists (q, l).
    split; [|by apply bool_decide_eq_true].
    apply list_elem_of_In. by apply elem_of_map_to_list.
  - intros H. apply not_true_iff_false. rewrite existsb_exists. intros ([q l] & Hin & Hb).
    apply bool_decide_eq_true in Hb. simpl in Hb.
    apply list_elem_of_In, elem_of_map_to_list in Hin.
    apply (H q). unfold q_get. by rewrite Hin.
Qed.

Lemma not_linked_remove t k q : t ∉ q_get (rt_list_remove t k) q.
Proof. rewrite q_get_remove, list_elem_of_filter. tauto. Qed.

Lemma isempty_spec q k : rt_list_isempty q k = true ↔ q_get k q = [].
Proof. unfold rt_list_isempty. destruct (q_get k q); split; congruence. Qed.

Lemma isempty_false q k t : t ∈ q_get k q → rt_list_isempty q k = false.
Proof. unfold rt_list_isempty. destruct (q_get k q); [|done]. by intros []%elem_of_nil. Qed.

(** A removed element was the only difference. *)
Lemma filter_ne_id (t : tid) (l : list tid) : t ∉ l → filter (λ u, u ≠ t) l = l.
Proof.
  induction l as [|u l IH]; [done|]. intros [? ?]%not_elem_of_cons.
  rewrite filter_cons_True by congruence. by rewrite IH.
Qed.

(** ** The bitmap *)
Lemma prio_index_ok p : prio_ok p → prio_index p = Ok (Z.to_nat p).
Proof.
  unfold prio_ok, prio_index. intros [H1 H2].
  by rewrite (proj2 (Z.leb_le 0 p) H1), (proj2 (Z.ltb_lt p _) H2).
Qed.

Lemma mask_testbit p i : 0 <= p → 0 <= i → Z.testbit (2 ^ p) i = (i =? p).
Proof. intros. rewrite Z.pow2_bits_eqb by done. by rewrite Z.eqb_sym. Qed.

Lemma group_set_bit g p i : 0 <= p → 0 <= i →
  Z.testbit (Z.lor g (2 ^ p)) i = Z.testbit g i || (i =? p).
Proof. intros. by rewrite Z.lor_spec, mask_testbit. Qed.

Lemma group_clear_bit g p i : 0 <= p → 0 <= i < 32 →
  Z.testbit (Z.land g (u32 (Z.lnot (2 ^ p)))) i = Z.testbit g i && negb (i =? p).
Proof.
  intros. rewrite Z.land_spec. f_equal. unfold u32.
  change 4294967296 with (2 ^ 32). rewrite Z.mod_pow2_bits_low by lia.
  by rewrite Z.lnot_spec, mask_testbit by lia.
Qed.

Lemma group_or_range g p : 0 <= g < 4294967296 → prio_ok p → 0 <= Z.lor g (2 ^ p) < 4294967296.
Proof.
  intros Hg Hp. unfold prio_ok, RT_THREAD_PRIORITY_MAX in Hp.
  assert (Hn : 0 <= Z.lor g (2 ^ p)) by (apply Z.lor_nonneg; split; [lia|apply Z.pow_nonneg; lia]).
  split; [done|].
  destruct (Z.eq_dec (Z.lor g (2 ^ p)) 0) as [->|Hnz]; [lia|].
  change 4294967296 with (2 ^ 32). apply Z.log2_lt_pow2; [lia|].
  rewrite Z.log2_lor; [|lia|apply Z.pow_nonneg; lia].
  rewrite Z.log2_pow2 by lia. apply Z.max_lub_lt; [|lia].
  destruct (Z.eq_dec g 0) as [->|]; [simpl; lia|apply Z.log2_lt_pow2; lia].
Qed.

Lemma group_and_range g m : 0 <= g < 4294967296 → 0 <= Z.land g m < 4294967296.
Proof.
  intros Hg. change 4294967296 with (2 ^ 32) in *.
  replace (Z.land g m) with (Z.land (Z.land g m) (Z.ones 32)).
  - rewrite Z.land_ones by lia. by apply Z.mod_pos_bound.
  - rewrite <- Z.land_assoc, (Z.land_comm m), Z.land_assoc.
    rewrite (Z.land_ones g) by lia. by rewrite Z.mod_small.
Qed.

(** ** Frame lemmas *)
Lemma set_thread_id t th k : threads k !! t = Some th → set_thread t th k = k.
Proof. intros H. unfold set_thread, set_threads. rewrite insert_id by done. by destruct k. Qed.

Lemma lookup_set_thread t th k u :
  threads (set_thread t th k) !! u = if decide (u = t) then Some th else threads k !! u.
Proof. simpl. rewrite lookup_insert. repeat case_decide; congruence. Qed.

(** Everything the invariant sees of a kernel besides the timers. *)
Lemma kinv_frame x lo k k' :
  threads k' = threads k → (∀ q, q_get k' q = q_get k q) →
  rt_thread_ready_priority_group k' = rt_thread_ready_priority_group k →
  tsys k' = tsys k → kinv x lo k → kinv x lo k'.
Proof.
  intros Ht Hq Hg Hs [? ? ? ? ? ? ? Hb ? ? ? ?].
  constructor; rewrite ?Ht, ?Hg, ?Hs; try done.
  - intros q. by rewrite Hq.
  - intros t q1 q2. rewrite !Hq. eauto.
  - intros t q. rewrite Hq. eauto.
  - intros t th. rewrite Hq. eauto.
  - intros t Hx q. rewrite Hq. eauto.
  - intros p Hp. unfold rt_list_isempty. rewrite Hq. by apply Hb.
Qed.

Lemma kinv_set_current x lo c p k : kinv x lo k → kinv x lo (set_current c p k).
Proof. by apply kinv_frame. Qed.
Lemma kinv_set_objs x lo o k : kinv x lo k → kinv x lo (set_objs o k).
Proof. by apply kinv_frame. Qed.
Lemma kinv_set_lock x lo n k : kinv x lo k → kinv x lo (set_lock n k).
Proof. by apply kinv_frame. Qed.
Lemma kinv_set_nest x lo n k : kinv x lo k → kinv x lo (set_nest n k).
Proof. by apply kinv_frame. Qed.

(** Fields no queue or bitmap depends on. *)
Record same_core (th th' : rt_thread) : Prop := {
  sc_prio : current_priority th' = current_priority th;
  sc_init : init_priority th' = init_priority th;
  sc_mask : number_mask th' = number_mask th;
  sc_stack : _rt_scheduler_stack_check th' = _rt_scheduler_stack_check th }.

Lemma thread_ok_core th th' :
  same_core th th' → stat th ≠ THREAD_INIT → thread_ok th → thread_ok th'.
Proof. intros [Hp Hi Hm Hs] ? [? ? ? ?]. constructor; rewrite ?Hp, ?Hi, ?Hm, ?Hs; auto. Qed.

Lemma kinv_set_thread x lo t th th' k :
  threads k !! t = Some th → same_core th th' → stat th' = stat th →
  kinv x lo k → kinv x lo (set_thread t th' k).
Proof.
  intros Ht Hc Hst [? ? F R ? T ? ? ? M L ?].
  assert (Hlk : ∀ u th1, threads (set_thread t th' k) !! u = Some th1 →
    ∃ th0, threads k !! u = Some th0 ∧ same_core th0 th1 ∧ stat th1 = stat th0).
  { intros u th1. rewrite lookup_set_thread. case_decide; [intros [= ->]; subst; eauto|].
    intros Hu. exists th1. by split_and!; [|constructor|]. }
  constructor; try done.
  - intros u q Hu. destruct (F u q Hu) as (th0 & Hth0 & Hf). rewrite lookup_set_thread.
    case_decide; [|eauto]. subst. assert (th0 = th) as -> by congruence.
    exists th'. split; [done|]. destruct Hc. destruct q; simpl in *; intuition congruence.
  - intros u th1 Hu Hr Hx. destruct (Hlk u th1 Hu) as (th0 & Hth0 & [Hp ? ? ?] & Hs0).
    rewrite Hp. apply (R u th0); [done|congruence|done].
  - intros u th1 Hu. destruct (Hlk u th1 Hu) as (th0 & Hth0 & Hc0 & Hs0).
    destruct (T u th0 Hth0) as [A B C D]. destruct Hc0 as [A' B' C' D'].
    constructor; rewrite ?A', ?B', ?C', ?D', ?Hs0; auto.
  - intros u th1 Hu. destruct (Hlk u th1 Hu) as (th0 & Hth0 & _). eauto.
  - intros u Hu. destruct (L u Hu) as (tm & ? & ? & Hx). exists tm. split_and!; try done.
    intros Hxu. destruct (Hx Hxu) as (th0 & Hth0 & Hs0). rewrite lookup_set_thread.
    case_decide; [|eauto]. subst. exists th'. split; [done|congruence].
Qed.

(** ** Taking a thread out of its queue *)
Lemma remove_thread_spec lo t th th' k :
  kinv None lo k → threads k !! t = Some th → stat th ≠ THREAD_INIT →
  same_core th th' → 
  ∃ g, rt_schedule_remove_thread t (set_thread t th' k) =
         Ok (set_group g (rt_list_remove t (set_thread t th' k))) ∧
       kinv (Some t) lo (set_group g (rt_list_remove t (set_thread t th' k))).
Proof.
  intros [N D F R _ T G B TS M L U] Ht Hni Hc.
  pose proof (T t th Ht) as Hok. pose proof (thread_ok_core th th' Hc Hni Hok) as Hok'.
  destruct Hok as [Hp _ Hm _]. destruct Hc as [Cp Ci Cm Cs]. specialize (Hm Hni).
  set (k1 := rt_list_remove t (set_thread t th' k)).
  assert (Hq : ∀ q, q_get k1 q = filter (λ u, u ≠ t) (q_get k q))
    by (intros; unfold k1; by rewrite q_get_remove).
  set (p0 := Z.to_nat (current_priority th)).
  set (g' := if rt_list_isempty (QReady p0) k1
    then Z.land (rt_thread_ready_priority_group k) (u32 (Z.lnot (number_mask th)))
    else rt_thread_ready_priority_group k).
  assert (Hother : ∀ p, p ≠ p0 → t ∉ q_get k (QReady p)).
  { intros p Hne Hin. destruct (F t _ Hin) as (th1 & Ht1 & _ & Hp1).
    apply Hne. unfold p0. assert (th1 = th) as -> by congruence. lia. }
  exists g'. split.
  { unfold rt_schedule_remove_thread, get_thread. rewrite lookup_set_thread, decide_True by done.
    cbn [of_option mbind res_bind]. fold k1. rewrite Cp, prio_index_ok by done.
    cbn [mbind res_bind]. unfold g'. rewrite Cm. fold p0.
    destruct (rt_list_isempty (QReady p0) k1); [done|].
    unfold k1. by destruct k. }
  constructor; simpl.
  - intros q. change (NoDup (q_get k1 q)). rewrite Hq. by apply NoDup_filter.
  - intros u q1 q2 H1 H2. change (u ∈ q_get k1 q1) in H1. change (u ∈ q_get k1 q2) in H2.
    rewrite Hq in H1, H2. apply list_elem_of_filter in H1 as [_ ?], H2 as [_ ?]. eauto.
  - intros u q Hu. change (u ∈ q_get k1 q) in Hu. rewrite Hq in Hu.
    apply list_elem_of_filter in Hu as [Hne Hu]. rewrite lookup_insert_ne by done. eauto.
  - intros u th1 Hu Hr Hx. rewrite lookup_insert_ne in Hu by congruence.
    change (u ∈ q_get k1 (QReady (Z.to_nat (current_priority th1)))).
    rewrite Hq. apply list_elem_of_filter. split; [congruence|]. by apply R.
  - intros u [= ->] q Hu. change (u ∈ q_get k1 q) in Hu. rewrite Hq in Hu.
    apply list_elem_of_filter in Hu. tauto.
  - intros u th1 [[<- <-]|[? ?]]%lookup_insert_Some; eauto.
  - unfold g'. destruct (rt_list_isempty _ _); [by apply group_and_range|done].
  - intros p Hpl. change (rt_list_isempty (QReady p) _) with (rt_list_isempty (QReady p) k1).
    unfold prio_ok, RT_THREAD_PRIORITY_MAX in Hp.
    destruct (decide (p = p0)) as [->|Hne].
    + unfold g'. destruct (rt_list_isempty (QReady p0) k1) eqn:He.
      * rewrite Hm, group_clear_bit by lia. unfold p0.
        rewrite Z2Nat.id, Z.eqb_refl, andb_false_r by lia. done.
      * rewrite (B p0) by lia. unfold rt_list_isempty in He |- *. rewrite Hq in He.
        by destruct (q_get k (QReady p0)).
    + assert (Hsame : rt_list_isempty (QReady p) k1 = rt_list_isempty (QReady p) k).
      { unfold rt_list_isempty. rewrite Hq, filter_ne_id by auto. done. }
      rewrite Hsame, <- B by done. unfold g'.
      destruct (rt_list_isempty (QReady p0) k1); [|done].
      rewrite Hm, group_clear_bit by lia.
      rewrite (proj2 (Z.eqb_neq _ _)) by (unfold p0 in Hne; lia). by rewrite andb_true_r.
  - done.
  - intros u th1 [[<- <-]|[? ?]]%lookup_insert_Some; eauto.
  - intros u Hu. destruct (L u Hu) as (tm & ? & ? & Hx). exists tm. split_and!; try done.
    intros Hxu. rewrite lookup_insert_ne by congruence. by apply Hx.
  - done.
Qed.

(** ** Putting it into a ready queue *)
Lemma insert_thread_spec lo t th k :
  kinv (Some t) lo k → threads k !! t = Some th → stat th ≠ THREAD_INIT →
  TThread t ∉ rt_timer_list (tsys k) →
  let q := QReady (Z.to_nat (current_priority th)) in
  let k' := set_group (Z.lor (rt_thread_ready_priority_group k) (number_mask th))
              (q_set q (q_get k q ++ [t]) (set_thread t (with_stat THREAD_READY th) k)) in
  rt_schedule_insert_thread t k = Ok k' ∧ kinv None lo k'.
Proof.
  intros [N D F R X T G B TS M L U] Ht Hni Htl q k'.
  specialize (X t eq_refl).
  pose proof (T t th Ht) as [Hp Hip Hm Hst]. specialize (Hm Hni).
  assert (Hq : ∀ q', q_get k' q' = if decide (q' = q) then q_get k q ++ [t] else q_get k q').
  { intros q'. unfold k'. change (q_get (q_set q (q_get k q ++ [t]) k) q' = if decide (q' = q)
      then q_get k q ++ [t] else q_get k q'). apply q_get_set. }
  assert (Hin : ∀ u q', u ∈ q_get k' q' ↔ u ∈ q_get k q' ∨ (u = t ∧ q' = q)).
  { intros u q'. rewrite Hq. case_decide; subst; rewrite ?elem_of_app, ?list_elem_of_singleton;
      intuition congruence. }
  split.
  { unfold rt_schedule_insert_thread, get_thread. rewrite Ht. cbn [of_option mbind res_bind].
    rewrite prio_index_ok by done. cbn [mbind res_bind]. unfold rt_list_insert_before.
    rewrite (proj2 (linked_false t (set_thread t (with_stat THREAD_READY th) k))) by exact X.
    done. }
  unfold prio_ok, RT_THREAD_PRIORITY_MAX in Hp.
  constructor.
  - intros q'. rewrite Hq. case_decide; [|apply N]. subst.
    apply NoDup_app. split_and!; [apply N| |apply NoDup_singleton].
    intros u Hu Hu'. apply list_elem_of_singleton in Hu' as ->. by apply (X q).
  - intros u q1 q2. rewrite !Hin. intros [H1|[-> ->]] [H2|[E ->]]; subst; eauto.
    + by destruct (X q1).
    + by destruct (X q2).
  - intros u q'. rewrite Hin. intros [Hu|[-> ->]].
    + destruct (F u q' Hu) as (th1 & ? & ?). exists th1. split; [|done].
      unfold k'. simpl. rewrite lookup_insert_ne; [done|]. intros <-. by apply (X q').
    + exists (with_stat THREAD_READY th). split; [unfold k'; simpl; by rewrite lookup_insert_eq|].
      simpl. split; [done|]. lia.
  - intros u th1 Hu Hr _. rewrite Hin. unfold k' in Hu; simpl in Hu.
    apply lookup_insert_Some in Hu as [[<- <-]|[Hne Hu]]; [by right|].
    left. apply R; congruence || done.
  - done.
  - intros u th1 Hu. unfold k' in Hu; simpl in Hu.
    apply lookup_insert_Some in Hu as [[<- <-]|[Hne Hu]]; [|eauto]. by constructor.
  - unfold k'. simpl. rewrite Hm. by apply group_or_range.
  - intros p Hpl. unfold k' at 1. simpl. rewrite Hm, group_set_bit, B by lia.
    unfold rt_list_isempty. rewrite Hq. unfold q.
    case_decide as Hd; [injection Hd as ->|].
    + rewrite Z2Nat.id, Z.eqb_refl, orb_true_r by lia. by destruct (q_get k _).
    + rewrite (proj2 (Z.eqb_neq _ _)), orb_false_r; [done|]. intros E. apply Hd. f_equal. lia.
  - done.
  - intros u th1 Hu. unfold k' in Hu; simpl in Hu.
    apply lookup_insert_Some in Hu as [[<- <-]|[Hne Hu]]; unfold k'; simpl; eauto.
  - intros u Hu. unfold k' in Hu |- *. simpl in *. destruct (L u Hu) as (tm & ? & ? & Hx).
    exists tm. split_and!; try done. intros _.
    assert (u ≠ t) by (by intros ->).
    rewrite lookup_insert_ne by done. apply Hx. congruence.
  - done.
Qed.

(** ** Waiting and dead threads *)

(** Link the floating thread into a list it fits, at any place. *)
Lemma kinv_link lo t th q l k :
  kinv (Some t) lo k → threads k !! t = Some th → fits th q → stat th ≠ THREAD_READY →
  (TThread t ∈ rt_timer_list (tsys k) → stat th = THREAD_SUSPEND) →
  l ≡ₚ t :: q_get k q → kinv None lo (q_set q l k).
Proof.
  intros [N D F R X T G B TS M L U] Ht Hf Hnr Htl Hl. specialize (X t eq_refl).
  assert (Hin : ∀ u q', u ∈ q_get (q_set q l k) q' ↔ u ∈ q_get k q' ∨ (u = t ∧ q' = q)).
  { intros u q'. rewrite q_get_set. case_decide as Hd; [subst q'; rewrite Hl, elem_of_cons; tauto|tauto]. }
  constructor; try done.
  - intros q'. rewrite q_get_set. case_decide; [|apply N]. rewrite Hl. apply NoDup_cons; auto.
  - intros u q1 q2. rewrite !Hin. intros [H1|[-> ->]] [H2|[E ->]]; subst; eauto.
    + by destruct (X q1).
    + by destruct (X q2).
  - intros u q'. rewrite Hin. intros [Hu|[-> ->]]; [by apply F|]. exists th. done.
  - intros u th1 Hu Hr _. rewrite Hin. left. apply R; try done.
    intros [= <-]. simpl in Hu. congruence.
  - intros p Hp. unfold rt_list_isempty. rewrite q_get_set. case_decide as Hd; [|by apply B].
    subst q. destruct Hf as [Hf _]. congruence.
  - intros u Hu. destruct (L u Hu) as (tm & ? & ? & Hx). exists tm. split_and!; try done.
    intros _. destruct (decide (u = t)) as [->|]; [eauto|]. apply Hx. congruence.
Qed.

(** A floating thread that is not ready may stay unlinked. *)
Lemma kinv_settle lo t th k :
  kinv (Some t) lo k → threads k !! t = Some th → stat th ≠ THREAD_READY →
  (TThread t ∈ rt_timer_list (tsys k) → stat th = THREAD_SUSPEND) →
  kinv None lo k.
Proof.
  intros [N D F R X T G B TS M L U] Ht Hnr Htl. constructor; try done.
  - intros u th1 Hu Hr _. apply R; try done. intros [= <-]. congruence.
  - intros u Hu. destruct (L u Hu) as (tm & ? & ? & Hx). exists tm. split_and!; try done.
    intros _. destruct (decide (u = t)) as [->|]; [eauto|]. apply Hx. congruence.
Qed.

(** The floating thread may change its state freely. *)
Lemma kinv_float_stat lo t th s k :
  kinv (Some t) lo k → threads k !! t = Some th → stat th ≠ THREAD_INIT → 
  kinv (Some t) lo (set_thread t (with_stat s th) k).
Proof.
  intros [N D F R X T G B TS M L U] Ht Hni. pose proof (X t eq_refl) as Xt.
  constructor; try done.
  - intros u q Hu. destruct (F u q Hu) as (th1 & ? & ?). rewrite lookup_set_thread.
    rewrite decide_False; [eauto|]. intros ->. by apply (Xt q).
  - intros u th1. rewrite lookup_set_thread. case_decide; [congruence|]. intros. by apply R.
  - intros u th1. rewrite lookup_set_thread. case_decide; [|eauto]. intros [= <-]; subst.
    destruct (T t th Ht) as [? ? Hm ?]. constructor; try done. intros _. by apply Hm.
  - intros u th1. rewrite lookup_set_thread. case_decide; [|eauto]. intros _; subst. eauto.
  - intros u Hu. destruct (L u Hu) as (tm & ? & ? & Hx). exists tm. split_and!; try done.
    intros Hne. rewrite lookup_set_thread, decide_False by congruence. auto.
Qed.

(** ** Timers *)
Lemma kinv_set_tsys x lo lo' ts k :
  ts_ok lo' ts →
  (∀ t tm, timers (tsys k) !! TThread t = Some tm → thread_timer_ok t tm →
     ∃ tm', timers ts !! TThread t = Some tm' ∧ thread_timer_ok t tm') →
  (∀ t, TThread t ∈ rt_timer_list ts →
     ∃ tm, timers ts !! TThread t = Some tm ∧ activated tm = true ∧
       (x ≠ Some t → ∃ th, threads k !! t = Some th ∧ stat th = THREAD_SUSPEND)) →
  (∀ n tm, timers ts !! TUser n = Some tm → timers (tsys k) !! TUser n = Some tm ∨ user_timer_ok tm) →
  kinv x lo k → kinv x lo' (set_tsys ts k).
Proof.
  intros Hts Htm Hl Hu [N D F R X T G B TS M L U]. constructor; try done.
  - intros t th Ht. destruct (M t th Ht) as (tm & ? & ?). simpl. eauto.
  - intros n tm Hn. destruct (Hu n tm Hn); eauto.
Qed.

Lemma thread_timer_flag t tm f :
  thread_timer_ok t tm → Z.testbit f 1 = periodic tm → thread_timer_ok t (with_flag f tm).
Proof. intros [? ?] Hf. split; [done|]. change (Z.testbit f 1 = false). congruence. Qed.

Lemma thread_timer_deactivate t tm : thread_timer_ok t tm → thread_timer_ok t (deactivate tm).
Proof. intros [? ?]. split; [done|]. by rewrite periodic_deactivate. Qed.

(** Stopping the timer of a thread takes it off the list. *)
Lemma stop_thread_timer x lo t th k :
  kinv x lo k → threads k !! t = Some th →
  ∃ ts b, rt_timer_stop (TThread t) (tsys k) = Ok (ts, b) ∧ kinv x lo (set_tsys ts k) ∧
    (TThread t ∉ rt_timer_list ts) ∧ rt_tick ts = rt_tick (tsys k) ∧
    rt_timer_list ts ⊆+ rt_timer_list (tsys k).
Proof.
  intros Hk Ht. pose proof Hk as [_ _ _ _ _ _ _ _ TS M L _].
  destruct (M t th Ht) as (tm & Htm & Hok).
  destruct (stop_ok lo (TThread t) tm (tsys k) TS Htm) as (ts & E & Hts & Hf & Hn).
  exists ts, (activated tm). split; [done|]. destruct (activated tm) eqn:Ha.
  - rewrite (Hn eq_refl) in *.
    split_and!; [|apply not_elem_remove|done|apply sublist_submseteq, sublist_filter].
    apply (kinv_set_tsys x lo); try done.
    + intros u tm1 Hu Hok1. simpl. destruct (decide (u = t)) as [->|].
      * rewrite lookup_insert_eq. assert (tm1 = tm) as -> by congruence.
        eexists; split; [done|]. by apply thread_timer_deactivate.
      * rewrite lookup_insert_ne by congruence. eauto.
    + intros u [Hne Hu]%list_elem_of_filter. destruct (L u Hu) as (tm1 & ? & ? & ?).
      exists tm1. simpl. by rewrite lookup_insert_ne by congruence.
    + intros n tm1. simpl. rewrite lookup_insert_ne by done. by left.
  - rewrite (Hf eq_refl) in *. replace (set_tsys (tsys k) k) with k by (by destruct k).
    split_and!; [done| |done|done]. intros Hin. destruct (L t Hin) as (tm1 & ? & ? & _). congruence.
Qed.

(** Starting it keeps the invariant when the thread is (about to be) suspended. *)
Lemma start_thread_timer_spec x lo t th time k :
  -1 <= lo <= 0 → kinv x lo k → threads k !! t = Some th →
  (x ≠ Some t → stat th = THREAD_SUSPEND) →
  if u32 time <? TICK_HALF then
    ∃ ts, start_thread_timer t time k = Ok (set_tsys ts k) ∧ kinv x lo (set_tsys ts k) ∧
      rt_tick ts = rt_tick (tsys k) ∧ TThread t ∈ rt_timer_list ts ∧
      remaining ts (TThread t) = u32 time ∧
      rt_timer_list ts ⊆+ TThread t :: rt_timer_list (tsys k)
  else start_thread_timer t time k = Stop AssertFail.
Proof.
  intros Hlo Hk Ht Hs. pose proof Hk as [_ _ _ _ _ _ _ _ TS M L _].
  destruct (M t th Ht) as (tm & Htm & Hok).
  set (tm1 := with_init_tick (u32 time) tm).
  set (ts1 := set_timer (TThread t) tm1 (tsys k)).
  assert (Hl1 : timers ts1 !! TThread t = Some tm1) by apply lookup_insert_eq.
  assert (Hts1 : ts_ok lo ts1).
  { apply (ts_ok_set_same lo (TThread t) tm); try done.
    destruct (ts_range _ _ TS _ _ Htm). split; [done|]. simpl. unfold RT_TICK_MAX, u32. lia. }
  assert (Est : start_thread_timer t time k =
    if u32 time <? TICK_HALF then Ok (set_tsys (start_result (TThread t) tm1 ts1) k) else Stop AssertFail).
  { unfold start_thread_timer, rt_timer_control, get_timer. rewrite Htm.
    cbn [of_option mbind res_bind]. unfold on_timers. fold tm1. fold ts1.
    change (tsys (set_tsys ts1 k)) with ts1.
    rewrite (rt_timer_start_eq lo (TThread t) tm1) by done.
    change (init_tick tm1) with (u32 time). by destruct (_ <? _). }
  destruct (Z.ltb_spec (u32 time) TICK_HALF) as [Hlt|]; [|done].
  assert (Hst : ts_ok lo (start_result (TThread t) tm1 ts1)) by by apply ts_ok_start.
  exists (start_result (TThread t) tm1 ts1). split; [done|].
  assert (Hact : thread_timer_ok t (started (rt_tick ts1) tm1)).
  { destruct Hok as [Hf Hp]. split; [done|]. unfold started.
    rewrite periodic_activate. change (periodic (deactivate tm1) = false).
    by rewrite periodic_deactivate. }
  split_and!.
  - apply (kinv_set_tsys x lo); [done| | | |done].
    + intros u tm2 Hu Hok2. simpl. destruct (decide (u = t)) as [->|].
      * rewrite lookup_insert_eq. eauto.
      * rewrite !lookup_insert_ne by congruence. eauto.
    + intros u Hu. simpl in Hu. rewrite elem_of_place, list_elem_of_filter in Hu.
      simpl. destruct Hu as [[= ->]|[Hne Hu]].
      * rewrite lookup_insert_eq. eexists. split_and!; [done|apply testbit_activate|].
        intros Hx. eauto.
      * rewrite !lookup_insert_ne by congruence. by apply L.
    + intros n tm2. simpl. rewrite !lookup_insert_ne by done. by left.
  - done.
  - simpl. apply elem_of_place. by left.
  - rewrite remaining_start; [by rewrite decide_True|exact (ts_tick _ _ TS)|].
    simpl. unfold u32 in *. lia.
  - simpl. rewrite place_perm. apply submseteq_skip, sublist_submseteq, sublist_filter.
Qed.
