(* ===== verification/ThreadOps.v ===== *)
(** * The thread operations under the invariant

    Functional behaviour of the operations of Kernel.v on a state where [kinv]
    holds, every branch included, and that they keep it. *)
From S2P Require Import Prelude Timer KObject Kernel KernelInv.
Local Open Scope Z_scope.

(** The parts of the kernel that queue operations leave alone. *)
Record same_env (k k' : kernel) : Prop := {
  se_current : rt_current_thread k' = rt_current_thread k;
  se_prio : rt_current_priority k' = rt_current_priority k;
  se_lock : rt_scheduler_lock_nest k' = rt_scheduler_lock_nest k;
  se_nest : rt_interrupt_nest k' = rt_interrupt_nest k;
  se_objs : objs k' = objs k;
  se_tick : rt_tick (tsys k') = rt_tick (tsys k) }.

#[global] Instance same_env_refl : Reflexive same_env.
Proof. by constructor. Qed.
#[global] Instance same_env_trans : Transitive same_env.
Proof. intros ??? [] []. constructor; congruence. Qed.

(** The list [l] without [t]. *)
Abbreviation without t l := (filter (λ u : tid, u ≠ t) l).
Definition ready_q (th : rt_thread) : qid := QReady (Z.to_nat (current_priority th)).

(** [t] moved from wherever it was to the back of its ready list. *)
Record readied (t : tid) (th : rt_thread) (k k' : kernel) : Prop := {
  rd_env : same_env k k';
  rd_threads : threads k' = <[t := with_stat THREAD_READY th]> (threads k);
  rd_q : ∀ q, q_get k' q = if decide (q = ready_q th) then without t (q_get k q) ++ [t]
                           else without t (q_get k q);
  rd_group : rt_thread_ready_priority_group k' ≠ 0 }.

(** [t] taken out of every list, with a new control block. *)
Record unlinked (t : tid) (th : rt_thread) (k k' : kernel) : Prop := {
  ul_env : same_env k k';
  ul_threads : threads k' = <[t := th]> (threads k);
  ul_q : ∀ q, q_get k' q = without t (q_get k q) }.

Lemma get_thread_ok t th k : threads k !! t = Some th → get_thread t k = Ok th.
Proof. unfold get_thread. by intros ->. Qed.

(** ** Unlinking a thread that is not ready *)
Lemma kinv_unlink lo t th k :
  kinv None lo k → threads k !! t = Some th → stat th ≠ THREAD_READY →
  kinv (Some t) lo (rt_list_remove t k).
Proof.
  intros [N D F R _ T G B TS M L U] Ht Hs. constructor; try done.
  - intros q. rewrite q_get_remove. by apply NoDup_filter.
  - intros u q1 q2. rewrite !q_get_remove, !list_elem_of_filter. intros [_ ?] [_ ?]. eauto.
  - intros u q. rewrite q_get_remove, list_elem_of_filter. intros [_ Hu]. by apply F.
  - intros u th1 Hu Hr Hx. rewrite q_get_remove, list_elem_of_filter.
    split; [congruence|]. by apply R.
  - intros u [= ->] q. apply not_linked_remove.
  - intros p Hp. unfold rt_list_isempty. rewrite q_get_remove, filter_ne_id; [by apply B|].
    intros Hin. destruct (F t _ Hin) as (th1 & ? & Hf & _). congruence.
  - intros u Hu. destruct (L u Hu) as (tm & ? & ? & Hx). exists tm. split_and!; try done.
    intros _. by apply Hx.
Qed.

Lemma group_nonzero lo t p k :
  kinv None lo k → t ∈ q_get k (QReady p) → rt_thread_ready_priority_group k ≠ 0.
Proof.
  intros [_ _ F _ _ T _ B _ _ _ _] Hin E. destruct (F _ _ Hin) as (th & Ht & _ & Hp).
  destruct (T t th Ht) as [[Hp1 Hp2] _ _ _]. unfold RT_THREAD_PRIORITY_MAX in Hp2.
  specialize (B p ltac:(lia)). rewrite E, Z.bits_0 in B.
  by rewrite (isempty_false _ _ _ Hin) in B.
Qed.

Lemma insert_readied lo t th k k0 :
  kinv (Some t) lo k → threads k !! t = Some th → stat th ≠ THREAD_INIT →
  (TThread t ∉ rt_timer_list (tsys k)) →
  same_env k0 k → threads k = <[t := th]> (threads k0) →
  (∀ q, q_get k q = without t (q_get k0 q)) →
  ∃ k', rt_schedule_insert_thread t k = Ok k' ∧ kinv None lo k' ∧ readied t th k0 k' ∧
    tsys k' = tsys k.
Proof.
  intros Hk Ht Hni Htl He Hth Hq.
  destruct (insert_thread_spec lo t th k Hk Ht Hni Htl) as [E Hk'].
  eexists. split; [exact E|]. split; [exact Hk'|]. split; [|done].
  assert (Hq' : ∀ q, q_get (set_group (Z.lor (rt_thread_ready_priority_group k) (number_mask th))
    (q_set (ready_q th) (q_get k (ready_q th) ++ [t]) (set_thread t (with_stat THREAD_READY th) k))) q
    = if decide (q = ready_q th) then without t (q_get k0 q) ++ [t] else without t (q_get k0 q)).
  { intros q. rewrite <- !Hq. etransitivity; [apply (q_get_set (ready_q th) _ k)|].
    case_decide; by subst. }
  constructor.
  - by etransitivity; [exact He|].
  - simpl. by rewrite Hth, insert_insert_eq.
  - exact Hq'.
  - eapply (group_nonzero lo t _ _ Hk'). 
    specialize (Hq' (ready_q th)). rewrite decide_True in Hq' by done.
    unfold ready_q in Hq' at 3. unfold ready_q in *. rewrite Hq'.
    apply elem_of_app. right. by apply list_elem_of_singleton.
Qed.

(** ** [rt_thread_resume] *)
Lemma resume_spec lo t th k :
  kinv None lo k → threads k !! t = Some th →
  if decide (stat th = THREAD_SUSPEND) then
    ∃ k', rt_thread_resume t k = Ok (k', RT_EOK) ∧ kinv None lo k' ∧ readied t th k k' ∧
      (TThread t ∉ rt_timer_list (tsys k')) ∧ rt_timer_list (tsys k') ⊆+ rt_timer_list (tsys k)
  else rt_thread_resume t k = Ok (k, - RT_ERROR).
Proof.
  intros Hk Ht. unfold rt_thread_resume, get_thread. rewrite Ht. cbn [of_option mbind res_bind].
  destruct (decide (stat th = THREAD_SUSPEND)) as [Hs|]; [|done].
  assert (Hk1 : kinv (Some t) lo (rt_list_remove t k)) by (eapply kinv_unlink; eauto; congruence).
  destruct (stop_thread_timer (Some t) lo t th _ Hk1 Ht) as (ts & b & E & Hk2 & Htl & Htk & Hsub).
  rewrite E. cbn [mbind res_bind].
  destruct (insert_readied lo t th (set_tsys ts (rt_list_remove t k)) k) as (k' & E' & ? & ? & Ets);
    try done.
  - congruence.
  - simpl. by rewrite insert_id.
  - intros q. apply (q_get_remove t k).
  - rewrite E'. cbn [mbind res_bind]. exists k'. rewrite Ets. by split_and!.
Qed.

(** ** [rt_thread_suspend] *)
Lemma suspend_spec lo t th k :
  kinv None lo k → threads k !! t = Some th →
  if decide (stat th = THREAD_READY) then
    ∃ k', rt_thread_suspend t k = Ok (k', RT_EOK) ∧ kinv None lo k' ∧
      unlinked t (with_stat THREAD_SUSPEND th) k k' ∧ (TThread t ∉ rt_timer_list (tsys k')) ∧
      rt_timer_list (tsys k') ⊆+ rt_timer_list (tsys k)
  else rt_thread_suspend t k = Ok (k, - RT_ERROR).
Proof.
  intros Hk Ht. unfold rt_thread_suspend, get_thread. rewrite Ht. cbn [of_option mbind res_bind].
  destruct (decide (stat th = THREAD_READY)) as [Hs|]; [|done].
  destruct (remove_thread_spec lo t th (with_stat THREAD_SUSPEND th) k) as (g & E & Hk1);
    [done..|congruence|by constructor|].
  rewrite E. cbn [mbind res_bind].
  set (k1 := set_group g _) in *.
  assert (Ht1 : threads k1 !! t = Some (with_stat THREAD_SUSPEND th)) by apply lookup_insert_eq.
  destruct (stop_thread_timer (Some t) lo t _ _ Hk1 Ht1) as (ts & b & E2 & Hk2 & Htl & Htk & Hsub).
  rewrite E2. cbn [mbind res_bind]. eexists. split; [done|]. split_and!.
  - by apply (kinv_settle lo t (with_stat THREAD_SUSPEND th)).
  - constructor; [by constructor|done|]. intros q.
    exact (q_get_remove t (set_thread t (with_stat THREAD_SUSPEND th) k) q).
  - done.
  - done.
Qed.

(** ** [__rt_ffs]: the number of the lowest set bit *)
Definition lowest_bit (v i : Z) : Prop :=
  0 <= i ∧ Z.testbit v i = true ∧ ∀ j, 0 <= j < i → Z.testbit v j = false.

Lemma bitmap_at_ok b : 0 < b < 256 → lowest_bit b (bitmap_at b) ∧ bitmap_at b < 8.
Proof.
  intros Hb.
  assert (Hall : forallb (λ n, let b := Z.of_nat n in let i := bitmap_at b in
    (0 <=? i) && (i <? 8) && Z.testbit b i &&
    forallb (λ j, negb (Z.testbit b (Z.of_nat j))) (seq 0 (Z.to_nat i))) (seq 1 255) = true)
    by (vm_compute; reflexivity).
  rewrite forallb_forall in Hall. specialize (Hall (Z.to_nat b)). cbv zeta in Hall.
  rewrite Z2Nat.id in Hall by lia.
  assert (In (Z.to_nat b) (seq 1 255)) as Hin by (apply in_seq; lia).
  apply Hall in Hin. rewrite !andb_true_iff, Z.leb_le, Z.ltb_lt, forallb_forall in Hin.
  destruct Hin as [[[? ?] ?] Hl]. split; [|done]. split_and!; [done..|]. intros j Hj.
  specialize (Hl (Z.to_nat j)). rewrite Z2Nat.id in Hl by lia.
  apply negb_true_iff, Hl, in_seq. lia.
Qed.

Lemma land_zero_bits v m j : Z.land v m = 0 → Z.testbit m j = true → Z.testbit v j = false.
Proof.
  intros E Hm. apply (f_equal (λ z, Z.testbit z j)) in E.
  rewrite Z.land_spec, Hm, andb_true_r, Z.bits_0 in E. done.
Qed.

Lemma lowest_bit_byte v s :
  0 <= s → Z.land (Z.shiftr v s) 255 ≠ 0 → (∀ j, 0 <= j < s → Z.testbit v j = false) →
  lowest_bit v (bitmap_at (Z.land (Z.shiftr v s) 255) + s) ∧
  bitmap_at (Z.land (Z.shiftr v s) 255) < 8.
Proof.
  intros Hs Hnz Hlow. set (b := Z.land (Z.shiftr v s) 255) in *.
  assert (Hbit : ∀ j, 0 <= j < 8 → Z.testbit b j = Z.testbit v (j + s)).
  { intros j Hj. unfold b. rewrite Z.land_spec, Z.shiftr_spec by lia.
    change 255 with (Z.ones 8). rewrite Z.ones_spec_low by lia. by rewrite andb_true_r. }
  assert (Hb : 0 < b < 256).
  { assert (0 <= b < 256); [|lia]. unfold b. change 255 with (Z.ones 8).
    rewrite Z.land_ones by lia. by apply Z.mod_pos_bound. }
  destruct (bitmap_at_ok b Hb) as [(H1 & H2 & H3) H4]. split; [|done]. split_and!; [lia| |].
  - by rewrite <- Hbit.
  - intros j Hj. destruct (Z.lt_ge_cases j s); [apply Hlow; lia|].
    replace j with (j - s + s) by lia. rewrite <- Hbit by lia. apply H3. lia.
Qed.

Lemma land_shiftl v m s : 0 <= s → Z.land v (Z.shiftl m s) = Z.shiftl (Z.land (Z.shiftr v s) m) s.
Proof.
  intros Hs. apply Z.bits_inj_iff'. intros j Hj.
  rewrite Z.land_spec, !Z.shiftl_spec, Z.land_spec by lia.
  destruct (Z.lt_ge_cases j s).
  - rewrite !(Z.testbit_neg_r _ (j - s)) by lia. apply andb_false_r.
  - rewrite Z.shiftr_spec by lia. f_equal. f_equal. lia.
Qed.

(** One test of [__rt_ffs]: the byte at bit [s], all lower bits being zero. *)
Lemma ffs_step v s m :
  0 <= s → m = Z.shiftl 255 s → (∀ j, 0 <= j < s → Z.testbit v j = false) →
  if Z.land v m =? 0 then ∀ j, 0 <= j < s + 8 → Z.testbit v j = false
  else lowest_bit v (bitmap_at (Z.shiftr (Z.land v m) s) + s) ∧
       bitmap_at (Z.shiftr (Z.land v m) s) < 8.
Proof.
  intros Hs -> Hlow. destruct (Z.eqb_spec (Z.land v (Z.shiftl 255 s)) 0) as [E|N].
  - intros j Hj. destruct (Z.lt_ge_cases j s); [apply Hlow; lia|].
    apply (land_zero_bits _ _ _ E). rewrite Z.shiftl_spec by lia.
    change 255 with (Z.ones 8). apply Z.ones_spec_low. lia.
  - rewrite land_shiftl in * by done. rewrite Z.shiftr_shiftl_l, Z.sub_diag, Z.shiftl_0_r by lia.
    apply lowest_bit_byte; [done| |done]. intros E. apply N. by rewrite E, Z.shiftl_0_l.
Qed.

Lemma ffs_spec v :
  0 <= v < 4294967296 →
  if v =? 0 then __rt_ffs v = 0
  else lowest_bit v (__rt_ffs v - 1) ∧ __rt_ffs v <= 32.
Proof.
  intros Hv. unfold __rt_ffs. destruct (Z.eqb_spec v 0) as [|Hnz]; [done|].
  assert (Hadd : ∀ x y z, lowest_bit v (x + y) ∧ x < 8 → y <= 24 → z = x + y + 1 →
    lowest_bit v (z - 1) ∧ z <= 32).
  { intros x y z [Hl ?] ? ->. split; [|lia]. by replace (x + y + 1 - 1) with (x + y) by lia. }
  pose proof (ffs_step v 0 255 ltac:(lia) eq_refl ltac:(lia)) as H0.
  rewrite Z.shiftr_0_r in H0.
  destruct (Z.land v 255 =? 0); cbn [negb]; [|eapply Hadd; [exact H0|lia..]].
  pose proof (ffs_step v 8 65280 ltac:(lia) eq_refl H0) as H8.
  destruct (Z.land v 65280 =? 0); cbn [negb]; [|eapply Hadd; [exact H8|lia..]].
  pose proof (ffs_step v 16 16711680 ltac:(lia) eq_refl H8) as H16.
  destruct (Z.land v 16711680 =? 0); cbn [negb]; [|eapply Hadd; [exact H16|lia..]].
  pose proof (ffs_step v 24 4278190080 ltac:(lia) eq_refl H16) as H24.
  destruct (Z.land v 4278190080 =? 0); cbn [negb]; [|eapply Hadd; [exact H24|lia..]].
  exfalso. apply Hnz, Z.bits_inj_iff'. intros j Hj. rewrite Z.bits_0.
  destruct (Z.lt_ge_cases j 32); [apply H24; lia|].
  destruct (Z.eq_dec v 0) as [->|]; [apply Z.bits_0|].
  apply Z.bits_above_log2; [lia|]. enough (Z.log2 v < 32) by lia. apply Z.log2_lt_pow2; lia.
Qed.

(** ** [rt_schedule] *)
Lemma highest_ready_spec lo k :
  kinv None lo k → rt_thread_ready_priority_group k ≠ 0 →
  ∃ p t l, highest_ready k = Ok (Z.of_nat p, t) ∧ (p < 32)%nat ∧ q_get k (QReady p) = t :: l ∧
    ∀ p', (p' < p)%nat → q_get k (QReady p') = [].
Proof.
  intros [_ _ F _ _ T G B _ _ _ _] Hnz. pose proof (ffs_spec _ G) as Hf.
  destruct (Z.eqb_spec (rt_thread_ready_priority_group k) 0); [done|].
  destruct Hf as [(H1 & H2 & H3) H4]. set (i := __rt_ffs _ - 1) in *.
  assert (Hi : Z.of_nat (Z.to_nat i) = i) by lia.
  assert (Hne : rt_list_isempty (QReady (Z.to_nat i)) k = false).
  { specialize (B (Z.to_nat i) ltac:(lia)). rewrite Hi, H2 in B. by apply negb_true_iff. }
  unfold rt_list_isempty in Hne. destruct (q_get k (QReady (Z.to_nat i))) as [|t l] eqn:Eq; [done|].
  exists (Z.to_nat i), t, l. split_and!; [|lia|done|].
  - unfold highest_ready. fold i. replace (u32 i) with i by word.
    rewrite prio_index_ok by (unfold prio_ok, RT_THREAD_PRIORITY_MAX; lia).
    cbn [mbind res_bind]. unfold rt_list_first. rewrite Eq, Hi. done.
  - intros p' Hp'. apply isempty_spec. specialize (B p' ltac:(lia)).
    rewrite H3 in B by lia. by destruct (rt_list_isempty _ _).
Qed.

(** [t] is the thread the scheduler must run: the head of the first ready list
    that is not empty. *)
Definition best_ready (k : kernel) (t : tid) (p : nat) : Prop :=
  (p < 32)%nat ∧ (∃ l, q_get k (QReady p) = t :: l) ∧ ∀ p', (p' < p)%nat → q_get k (QReady p') = [].

(** The threads of the kernel after a call of [rt_schedule]. *)
Definition scheduled (k k' : kernel) : Prop :=
  threads k' = threads k ∧ queues k' = queues k ∧ tsys k' = tsys k ∧ objs k' = objs k ∧
  rt_thread_ready_priority_group k' = rt_thread_ready_priority_group k ∧
  rt_scheduler_lock_nest k' = rt_scheduler_lock_nest k ∧ rt_interrupt_nest k' = rt_interrupt_nest k ∧
  if rt_scheduler_lock_nest k =? 0
  then ∃ t p, best_ready k t p ∧ rt_current_thread k' = Some t ∧
    (rt_current_thread k ≠ Some t → rt_current_priority k' = Z.of_nat p)
  else k' = k.

Lemma schedule_spec lo k :
  kinv None lo k → rt_thread_ready_priority_group k ≠ 0 → is_Some (rt_current_thread k) →
  ∃ k', rt_schedule k = Ok k' ∧ kinv None lo k' ∧ scheduled k k'.
Proof.
  intros Hk Hnz [c Hc]. unfold rt_schedule, scheduled.
  destruct (rt_scheduler_lock_nest k =? 0) eqn:Hl; [|exists k; by split_and!].
  destruct (highest_ready_spec lo k Hk Hnz) as (p & t & l & E & Hp & Eq & Hlow).
  rewrite E. cbn [mbind res_bind].
  assert (Hb : best_ready k t p) by (split_and!; eauto).
  destruct (decide (Some t = rt_current_thread k)) as [Ec|Nc].
  { exists k. split_and!; try done. exists t, p. split_and!; congruence || done. }
  rewrite Hc. cbn [of_option mbind res_bind]. 
  pose proof Hk as [_ _ F _ _ T _ _ _ _ _ _].
  destruct (F t (QReady p)) as (th & Ht & _); [rewrite Eq; left|].
  unfold get_thread. change (threads (set_current _ _ k)) with (threads k). rewrite Ht.
  cbn [of_option mbind res_bind]. destruct (T t th Ht) as [_ _ _ Hst]. rewrite Hst.
  eexists. split; [done|]. split; [by apply kinv_set_current|].
  split_and!; try done. exists t, p. split_and!; try done. intros _. simpl. word.
Qed.

(** ** [rt_thread_timeout] *)
Lemma timeout_spec lo t th k :
  kinv None lo k → threads k !! t = Some th → (TThread t ∉ rt_timer_list (tsys k)) →
  is_Some (rt_current_thread k) →
  if decide (stat th = THREAD_SUSPEND) then
    ∃ k1 k', rt_thread_timeout t k = Ok k' ∧ kinv None lo k' ∧
      readied t (with_error (- RT_ETIMEOUT) th) k k1 ∧ tsys k1 = tsys k ∧ scheduled k1 k'
  else rt_thread_timeout t k = Stop AssertFail.
Proof.
  intros Hk Ht Htl Hc. unfold rt_thread_timeout, get_thread. rewrite Ht. cbn [of_option mbind res_bind].
  destruct (decide (stat th = THREAD_SUSPEND)) as [Hs|]; [|by rewrite bool_decide_eq_false_2].
  rewrite bool_decide_eq_true_2 by done. cbn [rt_assert require mbind res_bind].
  set (th1 := with_error (- RT_ETIMEOUT) th).
  assert (Hk0 : kinv None lo (set_thread t th1 k)) by (by apply (kinv_set_thread _ _ _ th)).
  assert (Ht0 : threads (set_thread t th1 k) !! t = Some th1) by apply lookup_insert_eq.
  assert (Hk1 : kinv (Some t) lo (rt_list_remove t (set_thread t th1 k))).
  { eapply kinv_unlink; [done|exact Ht0|]. simpl. congruence. }
  destruct (insert_readied lo t th1 _ k Hk1 Ht0) as (k1 & E & Hk2 & Hr & Hts); try done.
  - simpl. congruence.
  - intros q. apply (q_get_remove t (set_thread t th1 k)).
  - rewrite E. cbn [mbind res_bind].
    destruct (schedule_spec lo k1 Hk2) as (k' & E' & Hk' & Hsch); [apply Hr| |].
    + by destruct Hr as [[-> _ _ _ _ _] _ _ _].
    + exists k1, k'. by rewrite E'.
Qed.

(** ** [rt_thread_startup] *)
Definition started_thread (th : rt_thread) : rt_thread :=
  with_stat THREAD_SUSPEND (with_priority (init_priority th) (2 ^ init_priority th) th).

Lemma priority_mask_ok p : prio_ok p → priority_mask p = Ok (2 ^ p).
Proof.
  intros Hp. unfold priority_mask. rewrite prio_index_ok by done. cbn [mbind res_bind].
  unfold prio_ok, RT_THREAD_PRIORITY_MAX in Hp. f_equal.
  rewrite Z.shiftl_mul_pow2, Z.mul_1_l by lia. unfold u32. apply Z.mod_small.
  split; [apply Z.pow_nonneg; lia|]. change 4294967296 with (2 ^ 32). apply Z.pow_lt_mono_r; lia.
Qed.

(** A thread that sits in no queue may be given any priority. *)
Lemma kinv_float_thread lo t th th' k :
  kinv (Some t) lo k → threads k !! t = Some th → thread_ok th' →
  kinv (Some t) lo (set_thread t th' k).
Proof.
  intros [N D F R X T G B TS M L U] Ht Hok. pose proof (X t eq_refl) as Xt.
  constructor; try done.
  - intros u q Hu. destruct (F u q Hu) as (th1 & ? & ?). rewrite lookup_set_thread.
    rewrite decide_False; [eauto|]. intros ->. by apply (Xt q).
  - intros u th1. rewrite lookup_set_thread. case_decide; [congruence|]. intros. by apply R.
  - intros u th1. rewrite lookup_set_thread. case_decide; [|eauto]. by intros [= <-].
  - intros u th1. rewrite lookup_set_thread. case_decide; [|eauto]. intros _; subst. eauto.
  - intros u Hu. destruct (L u Hu) as (tm & ? & ? & Hx). exists tm. split_and!; try done.
    intros Hne. rewrite lookup_set_thread, decide_False by congruence. auto.
Qed.

(** Let an unlinked thread float, and change it on the way. *)
Lemma kinv_float lo t th k :
  kinv None lo k → threads k !! t = Some th → stat th ≠ THREAD_READY →
  (∀ q, t ∉ q_get k q) → kinv (Some t) lo k.
Proof.
  intros Hk Ht Hs Hq. apply (kinv_frame (Some t) lo (rt_list_remove t k)); try done.
  - intros q. rewrite q_get_remove. symmetry. by apply filter_ne_id.
  - by eapply kinv_unlink.
Qed.

(** A thread that was never started sits in no queue. *)
Lemma init_unlinked x lo t th k q :
  kinv x lo k → threads k !! t = Some th → stat th = THREAD_INIT → t ∉ q_get k q.
Proof.
  intros Hk Ht Hs Hin. destruct (ki_fits _ _ _ Hk _ _ Hin) as (th1 & ? & Hf).
  assert (th1 = th) as -> by congruence. destruct q; simpl in Hf; destruct_and?; congruence.
Qed.

Lemma startup_spec lo t th k :
  kinv None lo k → threads k !! t = Some th → 
  if decide (stat th = THREAD_INIT) then
    ∃ k1 k', rt_thread_startup t k = Ok k' ∧ kinv None lo k' ∧
      readied t (started_thread th) k k1 ∧
      match rt_current_thread k with Some _ => scheduled k1 k' | None => k' = k1 end
  else rt_thread_startup t k = Stop AssertFail.
Proof.
  intros Hk Ht. unfold rt_thread_startup, get_thread. rewrite Ht. cbn [of_option mbind res_bind].
  destruct (decide (stat th = THREAD_INIT)) as [Hs|]; [|by rewrite bool_decide_eq_false_2].
  rewrite bool_decide_eq_true_2 by done. cbn [rt_assert require mbind res_bind].
  destruct (ki_thread _ _ _ Hk t th Ht) as [Hp Hi _ Hst].
  rewrite priority_mask_ok by done. cbn [mbind res_bind]. fold (started_thread th).
  set (k0 := set_thread t (started_thread th) k).
  assert (Hu : ∀ q, t ∉ q_get k q) by (intros q; by eapply init_unlinked).
  assert (Ht0 : threads k0 !! t = Some (started_thread th)) by apply lookup_insert_eq.
  assert (Hk0 : kinv None lo k0).
  { eapply kinv_settle; [|exact Ht0|done|done].
    apply (kinv_float_thread lo t th); [eapply kinv_float; eauto; congruence|done|].
    by constructor. }
  pose proof (resume_spec lo t (started_thread th) k0 Hk0 Ht0) as Hr.
  destruct (decide (stat (started_thread th) = THREAD_SUSPEND)) as [_|]; [|done].
  destruct Hr as (k1 & E & Hk1 & Hr & _). rewrite E. cbn [mbind res_bind].
  assert (Hr' : readied t (started_thread th) k k1).
  { destruct Hr as [He Hth Hq Hg]. constructor; [|..|done].
    - etransitivity; [|exact He]. by constructor.
    - rewrite Hth. simpl. by rewrite insert_insert_eq.
    - exact Hq. }
  unfold rt_thread_self. destruct Hr' as [He Hth Hq Hg]. rewrite (se_current _ _ He).
  destruct (rt_current_thread k) as [c|] eqn:Hc; [|by exists k1, k1].
  destruct (schedule_spec lo k1 Hk1 Hg) as (k' & E' & Hk' & Hsch).
  { rewrite (se_current _ _ He), Hc. eauto. }
  exists k1, k'. by rewrite E'.
Qed.

(** ** [rt_thread_yield] *)
Lemma kinv_perm x lo q l k :
  kinv x lo k → l ≡ₚ q_get k q → kinv x lo (q_set q l k).
Proof.
  intros [N D F R X T G B TS M L U] Hl.
  assert (Hin : ∀ u q', u ∈ q_get (q_set q l k) q' ↔ u ∈ q_get k q').
  { intros u q'. rewrite q_get_set. case_decide as Hd; [subst q'; by rewrite Hl|done]. }
  constructor; try done.
  - intros q'. rewrite q_get_set. case_decide; [by rewrite Hl|apply N].
  - intros u q1 q2. rewrite !Hin. eauto.
  - intros u q'. rewrite Hin. apply F.
  - intros u th Hu Hr Hx. rewrite Hin. by apply R.
  - intros u Hx q'. rewrite Hin. by apply X.
  - intros p Hp. etransitivity; [by apply B|]. unfold rt_list_isempty. rewrite q_get_set.
    case_decide as Hd; [|done]. subst q.
    destruct l, (q_get k (QReady p)); try done.
    + by apply Permutation_nil_l in Hl.
    + symmetry in Hl. by apply Permutation_nil_l in Hl.
Qed.

Lemma not_alone_spec x lo t q k :
  kinv x lo k → t ∈ q_get k q → not_alone t k = (2 <=? length (q_get k q))%nat.
Proof.
  intros Hk Hin. unfold not_alone. apply eq_true_iff_eq. rewrite existsb_exists. split.
  - intros ([q' l] & Hm & Hb). apply andb_true_iff in Hb as [Hb1 Hb2]. simpl in *.
    apply bool_decide_eq_true in Hb1. apply list_elem_of_In, elem_of_map_to_list in Hm.
    assert (q' = q) as ->.
    { eapply (ki_disj _ _ _ Hk t); [|done]. unfold q_get. by rewrite Hm. }
    unfold q_get. by rewrite Hm.
  - intros Hl. unfold q_get in Hin, Hl. destruct (queues k !! q) as [l|] eqn:E; [|by apply elem_of_nil in Hin].
    exists (q, l). split; [apply list_elem_of_In; by apply elem_of_map_to_list|].
    apply andb_true_iff. split; [by apply bool_decide_eq_true|done].
Qed.

(** [t] goes to the back of queue [q]. *)
Record requeued (t : tid) (q : qid) (k k' : kernel) : Prop := {
  rq_env : same_env k k';
  rq_threads : threads k' = threads k;
  rq_tsys : tsys k' = tsys k;
  rq_group : rt_thread_ready_priority_group k' = rt_thread_ready_priority_group k;
  rq_q : ∀ q', q_get k' q' = if decide (q' = q) then without t (q_get k q) ++ [t] else q_get k q' }.

Lemma requeue_perm (t : tid) (l : list tid) : NoDup l → t ∈ l → without t l ++ [t] ≡ₚ l.
Proof.
  induction l as [|u l IH]; [by intros _ ?%elem_of_nil|]. intros [Hu Hnd]%NoDup_cons Hin.
  destruct (decide (u = t)) as [->|Hne].
  - rewrite filter_cons_False by tauto. rewrite filter_ne_id by done.
    by rewrite Permutation_app_comm.
  - rewrite filter_cons_True by done. simpl. rewrite IH; [done..|].
    by apply elem_of_cons in Hin as [|].
Qed.

Lemma yield_spec lo c th k :
  kinv None lo k → rt_current_thread k = Some c → threads k !! c = Some th →
  if bool_decide (stat th = THREAD_READY) && (2 <=? length (q_get k (ready_q th)))%nat then
    ∃ k1 k', rt_thread_yield k = Ok k' ∧ kinv None lo k' ∧
      requeued c (ready_q th) k k1 ∧ scheduled k1 k'
  else rt_thread_yield k = Ok k.
Proof.
  intros Hk Hc Ht. unfold rt_thread_yield, get_thread. rewrite Hc. cbn [of_option mbind res_bind].
  rewrite Ht. cbn [of_option mbind res_bind].
  destruct (bool_decide_reflect (stat th = THREAD_READY)) as [Hs|]; [|done]. rewrite !andb_true_l.
  assert (Hin : c ∈ q_get k (ready_q th)) by (by apply (ki_ready _ _ _ Hk)).
  rewrite (not_alone_spec None lo c (ready_q th)) by done.
  destruct (Nat.leb_spec 2 (length (q_get k (ready_q th)))); [|done].
  destruct (ki_thread _ _ _ Hk c th Ht) as [Hp _ _ _].
  rewrite prio_index_ok by done. cbn [mbind res_bind]. fold (ready_q th).
  unfold rt_list_insert_before.
  rewrite (proj2 (linked_false c (rt_list_remove c k))) by apply not_linked_remove.
  cbn [negb require mbind res_bind].
  set (k1 := q_set _ _ _).
  assert (Hq : ∀ q', q_get k1 q' = if decide (q' = ready_q th)
    then without c (q_get k (ready_q th)) ++ [c] else q_get k q').
  { intros q'. unfold k1. rewrite q_get_set, !q_get_remove. case_decide as Hd; [done|].
    apply filter_ne_id. intros Hin'. by apply Hd, (ki_disj _ _ _ Hk c). }
  assert (Hk1 : kinv None lo k1).
  { apply (kinv_frame None lo (q_set (ready_q th) (without c (q_get k (ready_q th)) ++ [c]) k));
      try done.
    - intros q. by rewrite Hq, q_get_set.
    - apply kinv_perm; [done|]. apply requeue_perm; [apply Hk|done]. }
  destruct (schedule_spec lo k1 Hk1) as (k' & E & Hk' & Hsch).
  { eapply (group_nonzero lo c (Z.to_nat (current_priority th))); [done|].
    rewrite Hq, decide_True by done. apply elem_of_app. right. by apply list_elem_of_singleton. }
  { simpl. eauto. }
  exists k1, k'. split_and!; [done..| |done]. by constructor.
Qed.

(** ** [rt_thread_sleep] *)

(** [t] left its queue and runs its timer for [time] ticks. *)
Record put_to_sleep (t : tid) (th : rt_thread) (time : Z) (k k' : kernel) : Prop := {
  ps_unlinked : unlinked t (with_stat THREAD_SUSPEND th) k k';
  ps_timer : TThread t ∈ rt_timer_list (tsys k');
  ps_left : remaining (tsys k') (TThread t) = time;
  ps_timers : rt_timer_list (tsys k') ⊆+ TThread t :: rt_timer_list (tsys k) }.

Lemma sleep_spec lo c th tick k :
  -1 <= lo <= 0 → kinv None lo k → rt_current_thread k = Some c → threads k !! c = Some th →
  stat th = THREAD_READY → u32 tick < TICK_HALF →
  (∃ u thu, u ≠ c ∧ threads k !! u = Some thu ∧ stat thu = THREAD_READY) →
  ∃ k1 k', rt_thread_sleep tick k = Ok k' ∧ kinv None lo k' ∧
    put_to_sleep c th (u32 tick) k k1 ∧ scheduled k1 k'.
Proof.
  intros Hlo Hk Hc Ht Hs Htick (u & thu & Hne & Hu & Hus).
  unfold rt_thread_sleep. rewrite Hc. cbn [of_option mbind res_bind].
  pose proof (suspend_spec lo c th k Hk Ht) as Hsus. rewrite decide_True in Hsus by done.
  destruct Hsus as (k0 & -> & Hk0 & Hul & _ & Hsub). cbn [mbind res_bind].
  assert (Ht0 : threads k0 !! c = Some (with_stat THREAD_SUSPEND th)).
  { rewrite (ul_threads _ _ _ _ Hul). apply lookup_insert_eq. }
  pose proof (start_thread_timer_spec None lo c _ tick k0 Hlo Hk0 Ht0 (λ _, eq_refl)) as Hst.
  rewrite (proj2 (Z.ltb_lt _ _) Htick) in Hst.
  destruct Hst as (ts & -> & Hk1 & Htk & Hin & Hrem & Hsub'). cbn [mbind res_bind].
  destruct Hul as [He Hth Hq].
  assert (Hps : put_to_sleep c th (u32 tick) k (set_tsys ts k0)).
  { constructor; [|done|done|].
    - constructor; [|done..]. etransitivity; [exact He|]. by constructor.
    - etransitivity; [exact Hsub'|]. by apply submseteq_skip. }
  destruct (schedule_spec lo (set_tsys ts k0) Hk1) as (k' & E & Hk' & Hsch).
  { eapply (group_nonzero lo u (Z.to_nat (current_priority thu))); [exact Hk1|].
    apply (ki_ready _ _ _ Hk1); [|done..]. simpl. rewrite Hth. by rewrite lookup_insert_ne. }
  { simpl. rewrite (se_current _ _ He). eauto. }
  eauto 8.
Qed.

(** ** Changing a priority *)
Definition reprioritised (p : Z) (th : rt_thread) : rt_thread := with_priority p (2 ^ p) th.

Lemma remove_same lo t th k :
  kinv None lo k → threads k !! t = Some th → stat th ≠ THREAD_INIT →
  ∃ g, rt_schedule_remove_thread t k = Ok (set_group g (rt_list_remove t k)) ∧
       kinv (Some t) lo (set_group g (rt_list_remove t k)).
Proof.
  intros Hk Ht Hs. destruct (remove_thread_spec lo t th th k) as (g & E & Hk'); [done..|].
  rewrite set_thread_id in E, Hk' by done. eauto.
Qed.

Lemma change_priority_spec lo t th arg k :
  kinv None lo k → threads k !! t = Some th → prio_ok (u8 arg) → 
  ∃ k', rt_thread_control t (CTRL_CHANGE_PRIORITY arg) k = Ok k' ∧ kinv None lo k' ∧
    if decide (stat th = THREAD_READY)
    then readied t (reprioritised (u8 arg) th) k k' ∧ tsys k' = tsys k
    else k' = set_thread t (reprioritised (u8 arg) th) k.
Proof.
  intros Hk Ht Hp. unfold rt_thread_control. rewrite (get_thread_ok t th k Ht).
  cbn [mbind res_bind]. rewrite priority_mask_ok by done.
  destruct (ki_thread _ _ _ Hk t th Ht) as [Hp0 Hi Hm Hst].
  assert (Hok : thread_ok (reprioritised (u8 arg) th)) by (by constructor).
  destruct (decide (stat th = THREAD_READY)) as [Hs|Hs].
  - destruct (remove_same lo t th k) as (g & -> & Hk1); [done..|congruence|].
    cbn [mbind res_bind]. set (k1 := set_group g _) in *.
    assert (Ht1 : threads k1 !! t = Some th) by done.
    rewrite (get_thread_ok t th k1 Ht1). cbn [mbind res_bind].
    destruct (insert_readied lo t (reprioritised (u8 arg) th)
      (set_thread t (reprioritised (u8 arg) th) k1) k) as (k' & E & Hk' & Hr & Hts).
    + by apply (kinv_float_thread lo t th).
    + apply lookup_insert_eq.
    + simpl. congruence.
    + intros Hin. destruct (ki_tm_list _ _ _ Hk t Hin) as (tm & _ & _ & Hx).
      destruct (Hx ltac:(done)) as (? & ? & ?). congruence.
    + by constructor.
    + done.
    + intros q. apply (q_get_remove t k).
    + eauto 6.
  - cbn [mbind res_bind]. eexists. split; [done|]. split; [|done].
    destruct Hk as [N D F R X T G B TS M L U]. constructor; try done.
    + intros u q Hu. destruct (F u q Hu) as (th1 & Ht1 & Hf). rewrite lookup_set_thread.
      case_decide; [|eauto]. subst. eexists. split; [done|].
      assert (th1 = th) as -> by congruence. destruct q; simpl in *; try done. by destruct Hf.
    + intros u th1. rewrite lookup_set_thread. case_decide; [|by intros; apply R].
      intros [= <-] ?. simpl in *. done.
    + intros u th1. rewrite lookup_set_thread. case_decide; [|eauto]. by intros [= <-].
    + intros u th1. rewrite lookup_set_thread. case_decide; [|eauto]. intros _; subst. eauto.
    + intros u Hu. destruct (L u Hu) as (tm & ? & ? & Hx). exists tm. split_and!; try done.
      intros Hn. destruct (Hx Hn) as (th1 & ? & ?). rewrite lookup_set_thread.
      case_decide; [|eauto]. subst. eexists. split; [done|]. simpl. congruence.
Qed.

(** ** [rt_thread_delete], [rt_thread_detach], [rt_thread_exit] *)

(** The thread and its timer are registered objects. *)
Record registered (t : tid) (r : rt_object) (k : kernel) : Prop := {
  rg_thread : objects (objs k) !! OThread t = Some r;
  rg_timer : is_Some (objects (objs k) !! OTimer (TThread t)) }.

(** The fields other than the objects, of a dying thread. *)
Record closed (t : tid) (th : rt_thread) (k k' : kernel) : Prop := {
  cl_threads : threads k' = <[t := with_stat THREAD_CLOSE th]> (threads k);
  cl_timer : TThread t ∉ rt_timer_list (tsys k');
  cl_current : rt_current_thread k' = rt_current_thread k;
  cl_lock : rt_scheduler_lock_nest k' = rt_scheduler_lock_nest k;
  cl_q : ∀ q, q ≠ QDefunct → q_get k' q = without t (q_get k q) }.

Lemma kinv_off_timer x lo t k :
  kinv x lo k → kinv x lo (set_tsys (_rt_timer_remove (TThread t) (tsys k)) k).
Proof.
  intros Hk. pose proof Hk as [_ _ _ _ _ _ _ _ TS M L _].
  apply (kinv_set_tsys x lo); [by apply ts_ok_remove|eauto| |by left|done].
  intros u Hu. apply list_elem_of_filter in Hu as [_ Hu]. by apply L.
Qed.

(** The common middle part: the thread leaves its lists, its timer dies, its
    state becomes [CLOSE]. *)
Definition close_thread (t : tid) (th : rt_thread) (k : kernel) : kernel :=
  set_thread t (with_stat THREAD_CLOSE th)
    (set_objs (object_unlink (OTimer (TThread t)) (objs k))
      (set_tsys (_rt_timer_remove (TThread t) (tsys k)) (rt_list_remove t k))).

Lemma detach_thread_timer_ok lo t th r k :
  kinv (Some t) lo k → threads k !! t = Some th → registered t r k →
  detach_thread_timer t k =
    Ok (set_objs (object_unlink (OTimer (TThread t)) (objs k))
         (set_tsys (_rt_timer_remove (TThread t) (tsys k)) k)).
Proof.
  intros Hk Ht [_ [rt Hrt]]. unfold detach_thread_timer, on_timers, on_objects.
  destruct (ki_tm _ _ _ Hk t th Ht) as (tm & Htm & _).
  unfold rt_timer_detach, get_timer. rewrite Htm. cbn [of_option mbind res_bind].
  unfold rt_object_detach, get_object. simpl. by rewrite Hrt.
Qed.

Lemma close_thread_spec lo t th r k :
  kinv None lo k → threads k !! t = Some th → stat th ≠ THREAD_INIT → registered t r k →
  ∃ g, let k1 := set_group g (rt_list_remove t k) in
    rt_schedule_remove_thread t k = Ok k1 ∧ threads k1 !! t = Some th ∧
    detach_thread_timer t k1 =
      Ok (set_objs (object_unlink (OTimer (TThread t)) (objs k1))
           (set_tsys (_rt_timer_remove (TThread t) (tsys k1)) k1)) ∧
    kinv (Some t) lo (set_group g (close_thread t th k)) ∧
    closed t th k (set_group g (close_thread t th k)).
Proof.
  intros Hk Ht Hs Hreg. destruct (remove_same lo t th k) as (g & E & Hk1); [done..|].
  exists g. split; [done|]. split; [done|]. split.
  { destruct Hreg. by apply (detach_thread_timer_ok lo t th r). }
  split.
  - apply (kinv_off_timer _ _ t) in Hk1.
    apply (kinv_set_objs _ _ (object_unlink (OTimer (TThread t)) (objs k))) in Hk1.
    by apply (kinv_float_stat lo t th THREAD_CLOSE) in Hk1.
  - constructor; try done.
    + apply not_elem_remove.
    + intros q _. apply (q_get_remove t k).
Qed.

Lemma kinv_defunct lo t th k :
  kinv (Some t) lo k → threads k !! t = Some th → stat th = THREAD_CLOSE →
  (TThread t ∉ rt_timer_list (tsys k)) →
  rt_list_insert_after QDefunct t k = Ok (q_set QDefunct (t :: q_get k QDefunct) k) ∧
  kinv None lo (q_set QDefunct (t :: q_get k QDefunct) k).
Proof.
  intros Hk Ht Hs Htl. split.
  - unfold rt_list_insert_after. rewrite (proj2 (linked_false t k)); [done|].
    by apply (ki_float _ _ _ Hk).
  - apply (kinv_link lo t th); done || congruence.
Qed.

Lemma delete_spec lo t th r k :
  kinv None lo k → threads k !! t = Some th → stat th ≠ THREAD_INIT → registered t r k →
  ∃ k', rt_thread_delete t k = Ok k' ∧ kinv None lo k' ∧ closed t th k k' ∧
    q_get k' QDefunct = t :: without t (q_get k QDefunct).
Proof.
  intros Hk Ht Hs Hreg. destruct (close_thread_spec lo t th r k) as (g & E1 & Ht1 & E2 & Hk1 & Hc);
    [done..|].
  unfold rt_thread_delete. rewrite E1. cbn [mbind res_bind]. rewrite E2. cbn [mbind res_bind].
  rewrite (get_thread_ok t th) by exact Ht1. cbn [mbind res_bind].
  destruct (kinv_defunct lo t (with_stat THREAD_CLOSE th) _ Hk1) as [E Hk'];
    [apply lookup_insert_eq|done|apply Hc|].
  eexists. split; [exact E|]. split; [exact Hk'|]. split.
  - destruct Hc as [? ? ? ? Hq]. constructor; try done. intros q Hne.
    rewrite q_get_set, decide_False by done. by apply Hq.
  - rewrite q_get_set, decide_True by done. f_equal. apply (q_get_remove t k).
Qed.

Lemma detach_spec lo t th r k :
  kinv None lo k → threads k !! t = Some th → stat th ≠ THREAD_INIT → registered t r k →
  ∃ k', rt_thread_detach t k = Ok k' ∧ kinv None lo k' ∧ closed t th k k' ∧
    q_get k' QDefunct = match cleanup th with
      | Some _ => t :: without t (q_get k QDefunct)
      | None => without t (q_get k QDefunct) end.
Proof.
  intros Hk Ht Hs Hreg. destruct (close_thread_spec lo t th r k) as (g & E1 & Ht1 & E2 & Hk1 & Hc);
    [done..|].
  unfold rt_thread_detach. rewrite E1. cbn [mbind res_bind]. rewrite E2. cbn [mbind res_bind].
  rewrite (get_thread_ok t th) by exact Ht1. cbn [mbind res_bind].
  set (k1 := set_group g (close_thread t th k)) in *.
  change (set_thread t _ _) with k1.
  set (o := object_unlink (OThread t) (objs k1)).
  assert (E3 : on_objects (rt_object_detach (OThread t)) k1 = Ok (set_objs o k1)).
  { unfold on_objects, rt_object_detach, get_object. unfold k1 at 1. simpl.
    by rewrite (rg_thread _ _ _ Hreg). }
  rewrite E3. cbn [mbind res_bind].
  assert (Hk2 : kinv (Some t) lo (set_objs o k1)) by by apply kinv_set_objs.
  assert (Ht2 : threads (set_objs o k1) !! t = Some (with_stat THREAD_CLOSE th))
    by apply lookup_insert_eq.
  destruct Hc as [? ? ? ? Hq]. destruct (cleanup th).
  - destruct (kinv_defunct lo t (with_stat THREAD_CLOSE th) _ Hk2 Ht2) as [E Hk']; [done|done|].
    eexists. split; [exact E|]. split; [exact Hk'|]. split.
    + constructor; try done. intros q Hne. rewrite q_get_set, decide_False by done. by apply Hq.
    + rewrite q_get_set, decide_True by done. f_equal. apply (q_get_remove t k).
  - eexists. split; [done|]. split; [|split].
    + apply (kinv_settle lo t _ _ Hk2 Ht2); done.
    + by constructor.
    + apply (q_get_remove t k).
Qed.

Lemma exit_body lo t th r k :
  kinv None lo k → rt_current_thread k = Some t → threads k !! t = Some th →
  stat th = THREAD_READY → registered t r k →
  ∃ k1, rt_thread_exit k = rt_schedule k1 ∧ kinv None lo k1 ∧ closed t th k k1 ∧
    q_get k1 QDefunct = if is_static r && bool_decide (cleanup th = None)
      then without t (q_get k QDefunct) else t :: without t (q_get k QDefunct).
Proof.
  intros Hk Hcur Ht Hs Hreg.
  destruct (close_thread_spec lo t th r k) as (g & E1 & Ht1 & E2 & Hk1 & Hc);
    [done..|congruence|done|].
  unfold rt_thread_exit. rewrite Hcur. cbn [of_option mbind res_bind].
  rewrite E1. cbn [mbind res_bind].
  rewrite (get_thread_ok t th) by exact Ht1. cbn [mbind res_bind].
  set (k1 := set_group g (close_thread t th k)) in *.
  assert (E2' : detach_thread_timer t (set_thread t (with_stat THREAD_CLOSE th)
      (set_group g (rt_list_remove t k))) = Ok k1).
  { destruct Hreg as [Hr1 [r2 Hr2]]. destruct (ki_tm _ _ _ Hk t th Ht) as (tm & Htm & _).
    unfold detach_thread_timer, on_timers, on_objects, rt_timer_detach, get_timer.
    cbn -[lookup]. rewrite Htm. cbn -[lookup].
    unfold rt_object_detach, get_object. cbn -[lookup]. by rewrite Hr2. }
  rewrite E2'. cbn [mbind res_bind].
  assert (Esys : rt_object_is_systemobject (OThread t) (objs k1) = Ok (is_static r)).
  { unfold rt_object_is_systemobject, get_object. unfold k1; simpl.
    by rewrite (rg_thread _ _ _ Hreg). }
  rewrite Esys. cbn [mbind res_bind]. destruct Hc as [Hth Htl Hcc Hcl Hq].
  assert (Hbody : ∃ k2, (if is_static r && bool_decide (cleanup th = None)
       then on_objects (rt_object_detach (OThread t)) k1
       else rt_list_insert_after QDefunct t k1) = Ok k2 ∧ kinv None lo k2 ∧ closed t th k k2 ∧
      q_get k2 QDefunct = if is_static r && bool_decide (cleanup th = None)
        then without t (q_get k QDefunct) else t :: without t (q_get k QDefunct)).
  { assert (Ht2 : threads k1 !! t = Some (with_stat THREAD_CLOSE th)) by apply lookup_insert_eq.
    destruct (is_static r && _).
    - exists (set_objs (object_unlink (OThread t) (objs k1)) k1). split.
      { unfold on_objects, rt_object_detach, get_object. unfold k1 at 1. simpl.
        by rewrite (rg_thread _ _ _ Hreg). }
      split_and!; [|by constructor|apply (q_get_remove t k)].
      by apply kinv_set_objs, (kinv_settle lo t _ _ Hk1 Ht2).
    - destruct (kinv_defunct lo t (with_stat THREAD_CLOSE th) _ Hk1 Ht2) as [E Hk']; [done|done|].
      eexists. split; [exact E|]. split; [exact Hk'|]. split.
      + constructor; try done. intros q Hne'. rewrite q_get_set, decide_False by done. by apply Hq.
      + rewrite q_get_set, decide_True by done. f_equal. apply (q_get_remove t k). }
  destruct Hbody as (k2 & -> & Hk2 & Hc2 & Hd). by exists k2.
Qed.

Lemma exit_spec lo t th r k :
  kinv None lo k → rt_current_thread k = Some t → threads k !! t = Some th →
  stat th = THREAD_READY → registered t r k →
  (∃ u thu, u ≠ t ∧ threads k !! u = Some thu ∧ stat thu = THREAD_READY) →
  ∃ k1 k', rt_thread_exit k = Ok k' ∧ kinv None lo k' ∧ closed t th k k1 ∧ scheduled k1 k' ∧
    q_get k1 QDefunct = if is_static r && bool_decide (cleanup th = None)
      then without t (q_get k QDefunct) else t :: without t (q_get k QDefunct).
Proof.
  intros Hk Hcur Ht Hs Hreg (u & thu & Hne & Hu & Hus).
  destruct (exit_body lo t th r k) as (k2 & -> & Hk2 & Hc2 & Hd); [done..|].
  destruct (schedule_spec lo k2 Hk2) as (k' & E & Hk' & Hsch).
  { eapply (group_nonzero lo u (Z.to_nat (current_priority thu))); [exact Hk2|].
    apply (ki_ready _ _ _ Hk2); [|done..]. rewrite (cl_threads _ _ _ _ Hc2).
    by rewrite lookup_insert_ne. }
  { rewrite (cl_current _ _ _ _ Hc2). eauto. }
  exists k2, k'. by rewrite E.
Qed.

(** ** Waiting lists

    The lists of IPC objects.  The thread layer takes threads out of them, it
    never puts one in, and it leaves the error and the event fields of a waiting
    thread alone: this is all an IPC object needs of everything that is not an
    operation of its own.  [P] selects the lists a statement is about. *)
Definition wait_q (q : qid) : Prop :=
  match q with QWait _ | QSender _ => True | _ => False end.

Lemma sublist_elem (t : tid) (l1 l2 : list tid) : t ∈ l1 → l1 `sublist_of` l2 → t ∈ l2.
Proof. intros Hin Hs. eapply elem_of_submseteq; [done|by apply sublist_submseteq]. Qed.

(** What a waiting thread keeps. *)
Record same_wait (th th' : rt_thread) : Prop := {
  sw_error : error th' = error th;
  sw_set : event_set th' = event_set th;
  sw_info : event_info th' = event_info th }.

Record wstable (P : qid → Prop) (k k' : kernel) : Prop := {
  ws_q : ∀ q, wait_q q → P q → q_get k' q `sublist_of` q_get k q;
  ws_ev : ∀ q t th', wait_q q → P q → t ∈ q_get k' q → threads k' !! t = Some th' →
    ∃ th, threads k !! t = Some th ∧ same_wait th th' }.

Definition every (q : qid) : Prop := True.

#[global] Instance wstable_refl P : Reflexive (wstable P).
Proof. intros k. constructor; [done|]. intros q t th _ _ _ Ht. by exists th. Qed.
#[global] Instance wstable_trans P : Transitive (wstable P).
Proof.
  intros k1 k2 k3 [Q1 E1] [Q2 E2]. constructor.
  - intros q Hq HP. etransitivity; [by apply Q2|by apply Q1].
  - intros q t th Hq HP Hin Ht. destruct (E2 q t th Hq HP Hin Ht) as (th2 & Ht2 & []).
    destruct (E1 q t th2) as (th1 & Ht1 & []); [done..| |done|].
    + eapply sublist_elem; [done|by apply Q2].
    + exists th1. split; [done|]. constructor; congruence.
Qed.

Lemma wstable_weaken P P' k k' : (∀ q, P' q → P q) → wstable P k k' → wstable P' k k'.
Proof. intros HP [Q E]. constructor; eauto. Qed.

Lemma wstable_every P k k' : wstable every k k' → wstable P k k'.
Proof. by apply wstable_weaken. Qed.

(** The selected queues shrank; a thread that still waits kept its fields. *)
Lemma wstable_intro P k k' :
  (∀ q, wait_q q → P q → q_get k' q `sublist_of` q_get k q) →
  (∀ t th', threads k' !! t = Some th' → (∀ q, wait_q q → P q → t ∉ q_get k' q) ∨
     ∃ th, threads k !! t = Some th ∧ same_wait th th') →
  wstable P k k'.
Proof.
  intros Hq Ht. constructor; [done|]. intros q t th' Hw HP Hin Hth'.
  destruct (Ht t th' Hth') as [Hn|]; [|done]. by apply Hn in Hin.
Qed.

Lemma wstable_same P k k' : queues k' = queues k → threads k' = threads k → wstable P k k'.
Proof.
  intros Hq Ht. apply wstable_intro.
  - intros q _ _. unfold q_get. by rewrite Hq.
  - intros t th'. rewrite Ht. right. by exists th'.
Qed.

(** One thread changed, in fields that waiting does not look at ... *)
Lemma wstable_field P t th th' k :
  threads k !! t = Some th → same_wait th th' → wstable P k (set_thread t th' k).
Proof.
  intros Ht Hs. apply wstable_intro; [done|].
  intros u thu. simpl. intros [[<- <-]|[Hne Hu]]%lookup_insert_Some; right; [by exists th|by exists thu].
Qed.

(** ... or it waits in none of the lists. *)
Lemma wstable_leave P t th' k k' :
  threads k' = <[t := th']> (threads k) →
  (∀ q, wait_q q → P q → q_get k' q `sublist_of` q_get k q) →
  (∀ q, wait_q q → P q → t ∉ q_get k' q) → wstable P k k'.
Proof.
  intros Hth Hq Hn. apply wstable_intro; [done|].
  intros u thu. rewrite Hth. intros [[<- <-]|[Hne Hu]]%lookup_insert_Some; [by left|].
  right. by exists thu.
Qed.

Lemma not_without (t : tid) (l : list tid) : t ∉ without t l.
Proof. rewrite list_elem_of_filter. tauto. Qed.

Lemma wstable_readied P t th k k' : readied t th k k' → wstable P k k'.
Proof.
  intros [_ Hth Hq _]. eapply (wstable_leave P t); [done|..]; intros q Hw _;
    rewrite Hq, decide_False by (by destruct q); [apply sublist_filter|apply not_without].
Qed.

Lemma wstable_unlinked P t th k k' : unlinked t th k k' → wstable P k k'.
Proof.
  intros [_ Hth Hq]. eapply (wstable_leave P t); [done|..]; intros q Hw _; rewrite Hq;
    [apply sublist_filter|apply not_without].
Qed.

Lemma wstable_closed P t th k k' : closed t th k k' → wstable P k k'.
Proof.
  intros [Hth _ _ _ Hq]. eapply (wstable_leave P t); [done|..]; intros q Hw _;
    rewrite Hq by (by destruct q); [apply sublist_filter|apply not_without].
Qed.

Lemma wstable_scheduled P k k' : scheduled k k' → wstable P k k'.
Proof. intros (? & ? & _). by apply wstable_same. Qed.

Lemma wstable_requeued P t p k k' : requeued t (QReady p) k k' → wstable P k k'.
Proof.
  intros [_ Hth _ _ Hq]. apply wstable_intro.
  - intros q Hw _. rewrite Hq, decide_False by (by destruct q). done.
  - intros u thu. rewrite Hth. right. by exists thu.
Qed.

Lemma wstable_schedule P k k' : rt_schedule k = Ok k' → wstable P k k'.
Proof.
  unfold rt_schedule. destruct (_ =? 0); [|by intros [= <-]].
  intros E. apply bind_ok_inv in E as ([p t] & _ & E). simpl in E.
  destruct (decide _); [by injection E as <-|].
  apply bind_ok_inv in E as (? & _ & E). apply bind_ok_inv in E as (? & _ & E).
  apply bind_ok_inv in E as (? & _ & [= <-]). by apply wstable_same.
Qed.

(** A ready thread waits nowhere. *)
Lemma ready_not_waiting x lo t th q k :
  kinv x lo k → threads k !! t = Some th → stat th = THREAD_READY → wait_q q → t ∉ q_get k q.
Proof.
  intros Hk Ht Hs Hw Hin. destruct (ki_fits _ _ _ Hk t q Hin) as (th1 & ? & Hf).
  assert (th1 = th) as -> by congruence. destruct q; simpl in *; try done; congruence.
Qed.

(** A change of priority, seen from a distance: the thread record and the place
    in the ready lists change, nothing else does. *)
Record reprioritises (t : tid) (th : rt_thread) (p : Z) (k k' : kernel) : Prop := {
  rp_env : same_env k k';
  rp_threads : threads k' = <[t := reprioritised p th]> (threads k);
  rp_wait : ∀ q, wait_q q → q_get k' q = q_get k q;
  rp_timers : tsys k' = tsys k }.

Lemma reprioritise lo t th p k :
  kinv None lo k → threads k !! t = Some th → prio_ok p →
  ∃ k', rt_thread_control t (CTRL_CHANGE_PRIORITY p) k = Ok k' ∧ kinv None lo k' ∧
    reprioritises t th p k k'.
Proof.
  intros Hk Ht Hp. assert (Hu : u8 p = p) by (unfold prio_ok, RT_THREAD_PRIORITY_MAX in Hp; word).
  destruct (change_priority_spec lo t th p k Hk Ht) as (k' & E & Hk' & Hb); [by rewrite Hu|].
  exists k'. split; [done|]. split; [done|]. rewrite Hu in Hb.
  destruct (decide (stat th = THREAD_READY)) as [Hs|Hs].
  - destruct Hb as [[He Hth Hq _] Hts]. constructor; [done| | |done].
    + rewrite Hth. f_equal. destruct th. simpl in *. by subst.
    + intros q Hw. rewrite Hq, decide_False by (by destruct q).
      apply filter_ne_id. by eapply ready_not_waiting.
  - subst k'. constructor; [by constructor|done..].
Qed.

Lemma reprioritises_wstable P t th p k k' :
  threads k !! t = Some th → reprioritises t th p k k' → wstable P k k'.
Proof.
  intros Ht [_ Hth Hq _]. apply wstable_intro.
  - intros q Hw _. by rewrite Hq.
  - intros u thu. rewrite Hth. intros [[<- <-]|[Hne Hu]]%lookup_insert_Some; right;
      [by exists th|by exists thu].
Qed.
