(* ===== verification/Tick.v ===== *)
(** * The clock tick over threads

    [rt_tick_increase] of [src/clock.c] on a kernel whose running timers belong
    to threads: which threads one tick wakes, and that a sleeping thread wakes
    after exactly the ticks it asked for. *)
From S2P Require Import Prelude Timer KObject Kernel KernelInv ThreadOps.
Local Open Scope Z_scope.

(** A thread whose blocking call timed out. *)
Definition timed_out (th : rt_thread) : rt_thread :=
  with_stat THREAD_READY (with_error (- RT_ETIMEOUT) th).

Definition thread_timers_only (k : kernel) : Prop :=
  ∀ x, x ∈ rt_timer_list (tsys k) → ∃ t, x = TThread t.

(** The threads whose timers are due. *)
Definition due (k : kernel) (t : tid) : Prop := TThread t ∈ expired_list (tsys k).
#[global] Instance due_dec k t : Decision (due k t) := decide (_ ∈ _).

(** The current thread exists. *)
Definition cur_ok (k : kernel) : Prop :=
  ∃ c, rt_current_thread k = Some c ∧ is_Some (threads k !! c).

Lemma cur_ok_is_some k : cur_ok k → is_Some (rt_current_thread k).
Proof. intros (c & -> & _). eauto. Qed.

Lemma cur_ok_threads k k' :
  rt_current_thread k' = rt_current_thread k → cur_ok k →
  (∀ u, is_Some (threads k !! u) → is_Some (threads k' !! u)) → cur_ok k'.
Proof. intros E (c & Hc & Hs) H. exists c. rewrite E. auto. Qed.

Lemma cur_ok_scheduled lo k k' : kinv None lo k' → scheduled k k' → cur_ok k → cur_ok k'.
Proof.
  intros Hk (Hth & Hq & _ & _ & _ & _ & _ & Hcur) Hc.
  destruct (rt_scheduler_lock_nest k =? 0); [|by subst].
  destruct Hcur as (t & p & (_ & (l & Hl) & _) & Ht & _). exists t. split; [done|].
  destruct (ki_fits _ _ _ Hk t (QReady p)) as (th & ? & _); [|eauto].
  unfold q_get in *. rewrite Hq, Hl. left.
Qed.

(** The threads that are due, in the order in which their timers expire, and those of
    them that belong to the ready list [q]. *)
Definition due_threads (k : kernel) : list tid :=
  omap (λ x, match x with TThread t => Some t | _ => None end) (expired_list (tsys k)).
Definition woken (k : kernel) (q : qid) : list tid :=
  filter (λ t, ready_q <$> threads k !! t = Some q) (due_threads k).

(** The processor goes to the best thread if [b], and stays where it is otherwise. *)
Definition switches (b : bool) (k k' : kernel) : Prop :=
  if b then ∃ t p, best_ready k' t p ∧ rt_current_thread k' = Some t
  else rt_current_thread k' = rt_current_thread k.

Lemma best_ready_queues k k' t p : (∀ q, q_get k' q = q_get k q) → best_ready k t p → best_ready k' t p.
Proof. intros Hq (Hp & Hl & Hlow). split_and!; [done|by rewrite Hq|]. intros p' Hp'. rewrite Hq. by apply Hlow. Qed.

Lemma scheduled_switches k k' :
  scheduled k k' → switches (rt_scheduler_lock_nest k =? 0) k k'.
Proof.
  intros (_ & Hq & _ & _ & _ & _ & _ & Hc). unfold switches. destruct (_ =? 0); [|by subst].
  destruct Hc as (t & p & Hb & Hc & _). exists t, p. split; [|done].
  eapply best_ready_queues; [|exact Hb]. intros q. unfold q_get. by rewrite Hq.
Qed.

(** What the timer check does to a kernel. *)
Record checked (k k' : kernel) : Prop := {
  ck_threads : ∀ t, threads k' !! t = if decide (due k t) then timed_out <$> threads k !! t
                                      else threads k !! t;
  ck_list : rt_timer_list (tsys k') = filter (λ x, expired_at (tsys k) x = false) (rt_timer_list (tsys k));
  ck_timers : ∀ x, x ∉ expired_list (tsys k) → timers (tsys k') !! x = timers (tsys k) !! x;
  ck_tick : rt_tick (tsys k') = rt_tick (tsys k);
  ck_lock : rt_scheduler_lock_nest k' = rt_scheduler_lock_nest k;
  ck_current : cur_ok k';
  ck_wait : wstable every k k';
  ck_queues : ∀ q, q_get k' q = filter (λ t, t ∉ due_threads k) (q_get k q) ++ woken k q;
  ck_switch : switches ((rt_scheduler_lock_nest k =? 0) && negb (bool_decide (due_threads k = []))) k k' }.

Lemma filter_ext_in (P Q : tid → Prop) `{∀ x, Decision (P x)} `{∀ x, Decision (Q x)} (l : list tid) :
  (∀ x, x ∈ l → P x ↔ Q x) → filter P l = filter Q l.
Proof.
  induction l as [|x l IH]; intros Hl; [done|]. rewrite !filter_cons, IH by (intros y Hy; apply Hl; by right).
  specialize (Hl x ltac:(left)). repeat case_decide; tauto.
Qed.
Lemma filter_true (P : tid → Prop) `{∀ x, Decision (P x)} (l : list tid) : (∀ x, x ∈ l → P x) → filter P l = l.
Proof.
  induction l as [|x l IH]; intros Hl; [done|]. rewrite filter_cons_True by (apply Hl; left).
  f_equal. apply IH. intros y Hy. apply Hl. by right.
Qed.

(** Waking [t], then the others. *)
Lemma woken_cons k k1 t th q :
  threads k !! t = Some th → threads k1 = <[t := timed_out th]> (threads k) →
  due_threads k = t :: due_threads k1 → t ∉ due_threads k1 →
  filter (λ u, u ∉ due_threads k1) (without t (q_get k q) ++ if decide (q = ready_q th) then [t] else []) ++
    woken k1 q = filter (λ u, u ∉ t :: due_threads k1) (q_get k q) ++ woken k q.
Proof.
  intros Ht Hth Hd Hnd. rewrite filter_app, <- app_assoc. f_equal.
  - rewrite list_filter_filter. apply list_filter_iff. intros u. rewrite not_elem_of_cons. tauto.
  - unfold woken at 2. rewrite Hd, filter_cons, Ht. simpl.
    assert (Hw : woken k1 q = filter (λ u, ready_q <$> threads k !! u = Some q) (due_threads k1)).
    { unfold woken. apply filter_ext_in. intros u Hu. rewrite Hth, lookup_insert_ne by congruence. done. }
    rewrite Hw. repeat case_decide; simplify_eq; try done.
    rewrite filter_cons_True by done. done.
Qed.

Section Check_loop.
Context (user_timeout : nat → kernel → res kernel).

(** One due timer. *)
Lemma fire_thread t l k :
  kinv None (-1) k → cur_ok k → 
  rt_timer_list (tsys k) = TThread t :: l → expired_at (tsys k) (TThread t) = true →
  ∃ k' th, timer_fire (call_timeout user_timeout) (TThread t) k = Ok k' ∧ kinv None (-1) k' ∧
    cur_ok k' ∧ threads k !! t = Some th ∧
    threads k' = <[t := timed_out th]> (threads k) ∧ rt_timer_list (tsys k') = l ∧
    rt_tick (tsys k') = rt_tick (tsys k) ∧
    rt_scheduler_lock_nest k' = rt_scheduler_lock_nest k ∧
    expired_list (tsys k) = TThread t :: expired_list (tsys k') ∧
    (∀ x, x ≠ TThread t → timers (tsys k') !! x = timers (tsys k) !! x) ∧ wstable every k k' ∧
    (∀ q, q_get k' q = without t (q_get k q) ++ if decide (q = ready_q th) then [t] else []) ∧
    switches (rt_scheduler_lock_nest k =? 0) k k'.
Proof.
  intros Hk Hc Hl He. pose proof (ki_ts _ _ _ Hk) as TS.
  destruct (ki_tm_list _ _ _ Hk t) as (tm & Htm & Ha & Hx); [rewrite Hl; left|].
  destruct (Hx ltac:(done)) as (th & Ht & Hs). clear Hx.
  destruct (ki_tm _ _ _ Hk t th Ht) as (tm' & Htm' & Hf & Hp).
  assert (tm' = tm) as -> by congruence.
  assert (Hre : rearm_ok tm) by (intros ?; congruence).
  destruct (fire_ts_ok (tsys k) (TThread t) tm l TS Hl Htm Hre He) as [Hok' Hel].
  set (k0 := set_tsys (_rt_timer_remove (TThread t) (tsys k)) k).
  assert (Hk0 : kinv None (-1) k0) by by apply kinv_off_timer.
  pose proof (timeout_spec (-1) t th k0 Hk0 Ht (not_elem_remove _ _) (cur_ok_is_some _ Hc)) as Hto.
  rewrite decide_True in Hto by done.
  destruct Hto as (k1 & k2 & E & Hk2 & Hrd & Hts & Hsch).
  assert (Hws : wstable every k k2).
  { transitivity k0; [by apply wstable_same|].
    transitivity k1; [|by apply wstable_scheduled].
    by eapply wstable_readied. }
  destruct Hrd as [Henv Hth Hq _].
  assert (Hc1 : cur_ok k1).
  { apply (cur_ok_threads k0); [by rewrite (se_current _ _ Henv)|done|].
    intros u. rewrite Hth, lookup_insert_is_Some'. tauto. }
  pose proof (cur_ok_scheduled (-1) k1 k2 Hk2 Hsch Hc1) as Hc2.
  assert (Hsw : switches (rt_scheduler_lock_nest k =? 0) k k2).
  { pose proof (scheduled_switches k1 k2 Hsch) as Hsw. unfold switches in *.
    rewrite (se_lock _ _ Henv) in Hsw. rewrite (se_current _ _ Henv) in Hsw. exact Hsw. }
  destruct Hsch as (Sth & Sq & Sts & _ & _ & Slock & _ & _).
  assert (E' : timer_fire (call_timeout user_timeout) (TThread t) k =
    Ok (set_tsys (fire_ts (TThread t) tm (tsys k)) k2)).
  { refine (timer_fire_frame (call_timeout user_timeout) (TThread t) l tm k k2 _ _ _ _ _ _); try done.
    - rewrite Hf. exact E.
    - simpl. by rewrite Sts, Hts. }
  assert (Hfire : fire_ts (TThread t) tm (tsys k) =
    set_timer (TThread t) (deactivate tm) (_rt_timer_remove (TThread t) (tsys k))).
  { unfold fire_ts. by rewrite Hp. }
  eexists _, th. split; [exact E'|].
  pose proof (ts_nodup _ _ TS) as Hnd. rewrite Hl in Hnd. apply NoDup_cons in Hnd as [Hnin _].
  assert (Hlist : rt_timer_list (fire_ts (TThread t) tm (tsys k)) = l).
  { rewrite Hfire. simpl. rewrite Hl. by apply filter_remove_head. }
  split_and!; try done.
  - apply (kinv_set_tsys None (-1)); [done| | | |done].
    + rewrite Sts, Hts, Hfire. intros u tm1 Hu Hok1. simpl in Hu |- *.
      destruct (decide (u = t)) as [->|].
      * rewrite lookup_insert_eq. assert (tm1 = tm) as -> by congruence.
        eexists; split; [done|]. by apply thread_timer_deactivate.
      * rewrite lookup_insert_ne by congruence. eauto.
    + rewrite Hlist. intros u Hu.
      assert (u ≠ t) by congruence.
      destruct (ki_tm_list _ _ _ Hk u) as (tm1 & ? & ? & Hx); [rewrite Hl; by right|].
      exists tm1. rewrite Hfire. simpl. rewrite lookup_insert_ne by congruence.
      split_and!; [done..|]. intros Hn. destruct (Hx Hn) as (thu & ? & ?). exists thu.
      rewrite Sth, Hth. by rewrite lookup_insert_ne.
    + rewrite Sts, Hts, Hfire. intros n tm1. simpl. rewrite lookup_insert_ne by done. by left.
  - simpl. by rewrite Sth, Hth.
  - by rewrite Hfire.
  - simpl. rewrite Slock. apply (se_lock _ _ Henv).
  - intros x Hne. rewrite Hfire. simpl. by rewrite lookup_insert_ne.
  - transitivity k2; [done|by apply wstable_same].
  - intros q. change (q_get _ q) with (q_get k2 q) at 1. unfold q_get at 1. rewrite Sq. fold (q_get k1 q).
    rewrite Hq. change (ready_q (with_error _ th)) with (ready_q th). change (q_get k0 q) with (q_get k q).
    case_decide; [done|by rewrite app_nil_r].
Qed.

Lemma check_threads : ∀ fuel k,
  kinv None (-1) k → cur_ok k → thread_timers_only k →
  (length (rt_timer_list (tsys k)) < fuel)%nat →
  ∃ k', rt_timer_check (call_timeout user_timeout) fuel (rt_tick (tsys k)) k = Ok k' ∧
    kinv None 0 k' ∧ checked k k'.
Proof.
  induction fuel as [|fuel IH]; intros k Hk Hc Hto Hfu; [lia|].
  pose proof (ki_ts _ _ _ Hk) as TS.
  assert (Hquiet : expired_list (tsys k) = [] →
    kinv None 0 k ∧ checked k k).
  { intros Hq. split.
    - replace k with (set_tsys (tsys k) k) by (by destruct k).
      apply (kinv_set_tsys None (-1)); [by apply ts_ok_quiet|eauto| |by left|done].
      apply (ki_tm_list _ _ _ Hk).
    - constructor; try done.
      + intros t. rewrite decide_False; [done|]. unfold due. rewrite Hq. apply not_elem_of_nil.
      + symmetry. unfold expired_list in Hq. clear -Hq.
        induction (rt_timer_list (tsys k)) as [|x l IHl]; [done|].
        rewrite filter_cons in Hq. case_decide as Hd; [done|].
        rewrite filter_cons_True by (by destruct (expired_at _ _)). by rewrite IHl.
      + intros q. unfold woken, due_threads. rewrite Hq. simpl. rewrite app_nil_r. symmetry.
        apply filter_true. intros t _. apply not_elem_of_nil.
      + unfold due_threads. rewrite Hq. by rewrite andb_false_r. }
  cbn [rt_timer_check get_ts kernel_has_timers].
  destruct (rt_timer_list (tsys k)) as [|x l] eqn:Hl.
  { exists k. split; [done|]. apply Hquiet. unfold expired_list. by rewrite Hl. }
  destruct (ts_exists _ _ TS x) as [tm Htm]; [rewrite Hl; left|].
  unfold get_timer. rewrite Htm. cbn [of_option mbind res_bind].
  assert (Hex : expired_at (tsys k) x = expired (rt_tick (tsys k)) tm)
    by (unfold expired_at; by rewrite Htm).
  destruct (expired (rt_tick (tsys k)) tm) eqn:He.
  2:{ exists k. split; [done|]. apply Hquiet.
      by apply (expired_list_head (-1) (tsys k) x l). }
  destruct (Hto x) as [t ->]; [rewrite Hl; left|].
  destruct (fire_thread t l k) as (k1 & th & E & Hk1 & Hc1 & Ht & Hth & Hl1 & Htk & Hlk & Hel & Htms & Hws & Hqs & Hsw);
    [done..|].
  rewrite E. cbn [mbind res_bind].
  destruct (IH k1) as (k' & E' & Hk' & Hck); [done|done| | |].
  { intros y Hy. apply Hto. rewrite Hl. rewrite Hl1 in Hy. by right. }
  { rewrite Hl1. simpl in Hfu. lia. }
  exists k'. split; [done|]. split; [done|].
  pose proof (ts_nodup _ _ TS) as Hnd. rewrite Hl in Hnd. apply NoDup_cons in Hnd as [Hnin _].
  destruct Hck as [A B C D F G W Q S].
  assert (Hdt : due_threads k = t :: due_threads k1) by (unfold due_threads; by rewrite Hel).
  constructor; [..|done|by transitivity k1| |].
  - intros u. rewrite A, Hth.
    assert (Hd : due k u ↔ u = t ∨ due k1 u) by (unfold due; rewrite Hel, elem_of_cons;
      split; [intros [[= ->]|?]|intros [->|?]]; auto).
    destruct (decide (u = t)) as [->|Hne].
    + rewrite (decide_False (P := due k1 t)), (decide_True (P := due k t)); [|tauto|].
      * by rewrite lookup_insert_eq, Ht.
      * intros [_ Hin]%list_elem_of_filter. by rewrite Hl1 in Hin.
    + rewrite lookup_insert_ne by done. apply decide_ext. tauto.
  - rewrite B, Hl1, Hl. rewrite filter_cons_False by (rewrite Hex; congruence).
    clear -Htms Htk Hnin. induction l as [|y l IHl]; [done|].
    apply not_elem_of_cons in Hnin as [Hn1 Hn2]. rewrite !filter_cons.
    rewrite (expired_at_other (tsys k)) by auto.
    by rewrite IHl.
  - intros y Hy. rewrite Hel in Hy. apply not_elem_of_cons in Hy as [? ?].
    rewrite C by done. by apply Htms.
  - congruence.
  - congruence.
  - intros q. rewrite Q, Hqs, Hdt. apply (woken_cons k k1 t th q Ht Hth Hdt).
    intros Hin. unfold due_threads in Hin. apply list_elem_of_omap in Hin as (x & Hx & Hxt).
    apply list_elem_of_filter in Hx as [_ Hx]. rewrite Hl1 in Hx. destruct x; simplify_eq. by apply Hnin.
  - unfold switches in *. rewrite Hlk in S. rewrite Hdt, bool_decide_eq_false_2 by done. simpl.
    destruct (rt_scheduler_lock_nest k =? 0); simpl in *; [|congruence].
    case_bool_decide as Hd1; simpl in S; [|done]. rewrite S. destruct Hsw as (u & p & Hb & Hu).
    exists u, p. split; [|done]. eapply best_ready_queues; [|exact Hb].
    intros q. rewrite Q. unfold woken. rewrite Hd1. simpl. rewrite app_nil_r.
    apply filter_true. intros v _. apply not_elem_of_nil.
Qed.
End Check_loop.

(** ** One tick *)

(** Whether the end of its time slice sends the thread behind its equals, and the
    queues when it has. *)
Definition rotates (th : rt_thread) (left : Z) (k : kernel) : bool :=
  (left =? 0) && (bool_decide (stat th = THREAD_READY) && (2 <=? length (q_get k (ready_q th)))%nat).
Definition after_slice (c : tid) (th : rt_thread) (left : Z) (k : kernel) (q : qid) : list tid :=
  if rotates th left k && bool_decide (q = ready_q th) then without c (q_get k q) ++ [c] else q_get k q.

Lemma switches_none k k' : rt_current_thread k' = rt_current_thread k → switches false k k'.
Proof. done. Qed.

(** The first part of [rt_tick_increase]: the time slice of the current thread. *)
Lemma slice_spec lo c th left k :
  kinv None lo k → rt_current_thread k = Some c → threads k !! c = Some th →
  ∃ k', (if left =? 0
         then rt_thread_yield (set_thread c (with_remaining (thread_init_tick th) th)
                (set_thread c (with_remaining left th) k))
         else Ok (set_thread c (with_remaining left th) k)) = Ok k' ∧
    kinv None lo k' ∧ tsys k' = tsys k ∧ cur_ok k' ∧
    rt_scheduler_lock_nest k' = rt_scheduler_lock_nest k ∧ wstable every k k' ∧
    threads k' = <[c := with_remaining (if left =? 0 then thread_init_tick th else left) th]> (threads k) ∧
    (∀ q, q_get k' q = after_slice c th left k q) ∧
    switches ((rt_scheduler_lock_nest k =? 0) && rotates th left k) k k'.
Proof.
  intros Hk Hc Ht.
  assert (Hset : ∀ r, kinv None lo (set_thread c (with_remaining r th) k))
    by (intros; by apply (kinv_set_thread _ _ _ th)).
  assert (Hcur : ∀ r, cur_ok (set_thread c (with_remaining r th) k)).
  { intros r. exists c. split; [done|]. simpl. rewrite lookup_insert_eq. eauto. }
  assert (Hwset : ∀ r, wstable every k (set_thread c (with_remaining r th) k))
    by (intros r; by apply (wstable_field every c th)).
  unfold after_slice, rotates. destruct (left =? 0);
    [|eexists; split_and!; [done|apply Hset|done|apply Hcur|done|apply Hwset|done|done|by rewrite andb_false_r]].
  rewrite andb_true_l.
  replace (set_thread c _ (set_thread c _ k)) with
    (set_thread c (with_remaining (thread_init_tick th) th) k)
    by (unfold set_thread, set_threads; simpl; by rewrite insert_insert_eq).
  set (k1 := set_thread c (with_remaining (thread_init_tick th) th) k).
  pose proof (yield_spec lo c (with_remaining (thread_init_tick th) th) k1 (Hset _) Hc
    (lookup_insert_eq _ _ _)) as Hy.
  change (ready_q (with_remaining (thread_init_tick th) th)) with (ready_q th) in Hy.
  change (stat (with_remaining (thread_init_tick th) th)) with (stat th) in Hy.
  change (q_get k1 (ready_q th)) with (q_get k (ready_q th)) in Hy.
  destruct (bool_decide (stat th = THREAD_READY) && _);
    [|exists k1; split_and!; [done|apply Hset|done|apply Hcur|done|apply Hwset|done|done|by rewrite andb_false_r]].
  destruct Hy as (k2 & k' & E & Hk' & Hrq & Hsch).
  assert (Hws : wstable every k k').
  { transitivity k1; [apply Hwset|]. transitivity k2; [|by apply wstable_scheduled].
    by eapply wstable_requeued. }
  destruct Hrq as [Henv Hth Hts _ Hqr].
  assert (Hsw : switches (rt_scheduler_lock_nest k =? 0) k k').
  { pose proof (scheduled_switches k2 k' Hsch) as Hsw. unfold switches in *.
    rewrite (se_lock _ _ Henv) in Hsw. rewrite (se_current _ _ Henv) in Hsw. exact Hsw. }
  assert (Hc2 : cur_ok k2).
  { apply (cur_ok_threads k1); [by rewrite (se_current _ _ Henv)|apply Hcur|by rewrite Hth]. }
  pose proof (cur_ok_scheduled lo k2 k' Hk' Hsch Hc2).
  destruct Hsch as (Sth & Sq & Sts & _ & _ & Sl & _ & _).
  exists k'. rewrite andb_true_r. split_and!; try done.
  - by rewrite Sts, Hts.
  - rewrite Sl. apply (se_lock _ _ Henv).
  - by rewrite Sth, Hth.
  - intros q. unfold q_get at 1. rewrite Sq. fold (q_get k2 q). rewrite Hqr. simpl.
    case_bool_decide; [subst q; by rewrite decide_True|by rewrite decide_False].
Qed.

(** What one tick does to thread [t]. *)
Definition ticked (k k' : kernel) (t : tid) (th : rt_thread) : Prop :=
  ∃ th', threads k' !! t = Some th' ∧
    if decide (TThread t ∈ rt_timer_list (tsys k) ∧ remaining (tsys k) (TThread t) <= 1)
    then stat th' = THREAD_READY ∧ error th' = - RT_ETIMEOUT ∧ (TThread t ∉ rt_timer_list (tsys k'))
    else stat th' = stat th ∧ error th' = error th ∧
      (TThread t ∈ rt_timer_list (tsys k) → TThread t ∈ rt_timer_list (tsys k') ∧
         remaining (tsys k') (TThread t) = remaining (tsys k) (TThread t) - 1).

(** What one tick does to the time slices, the queues and the processor; [c] is the
    current thread, [due] the threads whose timers expire at this tick. *)
Record sliced (k k' : kernel) (c : tid) (thc : rt_thread) : Prop := {
  sl_remaining t th : threads k !! t = Some th → ∃ th', threads k' !! t = Some th' ∧
    remaining_tick th' = (if decide (t = c) then
        let left := u32 (remaining_tick thc - 1) in if left =? 0 then thread_init_tick thc else left
      else remaining_tick th) ∧
    current_priority th' = current_priority th;
  sl_queues q :
    let k0 := rt_tick_set (u32 (rt_tick (tsys k) + 1)) k in
    q_get k' q = filter (λ t, t ∉ due_threads k0) (after_slice c thc (u32 (remaining_tick thc - 1)) k q) ++ woken k0 q;
  sl_switch :
    let k0 := rt_tick_set (u32 (rt_tick (tsys k) + 1)) k in
    switches ((rt_scheduler_lock_nest k =? 0) &&
      (rotates thc (u32 (remaining_tick thc - 1)) k || negb (bool_decide (due_threads k0 = [])))) k k' }.

Lemma kinv_tick k :
  kinv None 0 k → kinv None (-1) (rt_tick_set (u32 (rt_tick (tsys k) + 1)) k).
Proof.
  intros Hk. apply (kinv_set_tsys None 0); [apply ts_ok_tick, Hk|eauto| |by left|done].
  apply (ki_tm_list _ _ _ Hk).
Qed.

(** The slice, then the timers. *)
Lemma sliced_intro k k1 k' c thc :
  let k0 := rt_tick_set (u32 (rt_tick (tsys k) + 1)) k in
  let left := u32 (remaining_tick thc - 1) in
  threads k !! c = Some thc →
  threads k1 = <[c := with_remaining (if left =? 0 then thread_init_tick thc else left) thc]> (threads k) →
  tsys k1 = tsys k0 → rt_scheduler_lock_nest k1 = rt_scheduler_lock_nest k →
  (∀ q, q_get k1 q = after_slice c thc left k q) →
  switches ((rt_scheduler_lock_nest k =? 0) && rotates thc left k) k k1 →
  checked k1 k' → sliced k k' c thc.
Proof.
  intros k0 left Hc Hth Hts Hl Hq Hsw [A _ _ _ _ _ _ Q S].
  assert (Hd : due_threads k1 = due_threads k0) by (unfold due_threads; by rewrite Hts).
  assert (Hw : ∀ q, woken k1 q = woken k0 q).
  { intros q. unfold woken. rewrite Hd. apply filter_ext_in. intros t _. rewrite Hth.
    change (threads k0) with (threads k). destruct (decide (t = c)) as [->|].
    - rewrite lookup_insert_eq, Hc. done.
    - by rewrite lookup_insert_ne. }
  split.
  - intros t th Ht. specialize (A t). rewrite Hth in A. destruct (decide (t = c)) as [->|Hne].
    + rewrite lookup_insert_eq in A. assert (th = thc) as -> by congruence.
      destruct (decide (due k1 c)); eexists; (split; [exact A|done]).
    + rewrite lookup_insert_ne, Ht in A by done. destruct (decide (due k1 t)); eexists; (split; [exact A|done]).
  - intros q. cbv zeta. fold k0 left. by rewrite Q, Hd, Hq, Hw.
  - cbv zeta. fold k0 left. unfold switches in *. rewrite Hl, Hd in S.
    destruct (rt_scheduler_lock_nest k =? 0); simpl in *; [|congruence].
    case_bool_decide as Hn; simpl in *; [|by rewrite orb_true_r].
    rewrite orb_false_r. destruct (rotates thc left k); [|congruence].
    destruct Hsw as (t & p & Hb & Ht). exists t, p. split; [|congruence].
    eapply best_ready_queues; [|exact Hb]. intros q. rewrite Q. unfold woken. rewrite Hd, Hn. simpl.
    rewrite app_nil_r. apply filter_true. intros v _. apply not_elem_of_nil.
Qed.

Lemma tick_spec user_timeout fuel k :
  kinv None 0 k → cur_ok k → thread_timers_only k →
  (length (rt_timer_list (tsys k)) < fuel)%nat →
  ∃ k', rt_tick_increase user_timeout fuel k = Ok k' ∧ kinv None 0 k' ∧ cur_ok k' ∧
    thread_timers_only k' ∧ (length (rt_timer_list (tsys k')) <= length (rt_timer_list (tsys k)))%nat ∧
    rt_tick (tsys k') = u32 (rt_tick (tsys k) + 1) ∧ wstable every k k' ∧
    (∀ t th, threads k !! t = Some th → ticked k k' t th) ∧
    ∀ c thc, rt_current_thread k = Some c → threads k !! c = Some thc → sliced k k' c thc.
Proof.
  intros Hk (c & Hc & [thc Htc]) Hto Hfu. pose proof (ki_ts _ _ _ Hk) as TS.
  pose proof (kinv_tick k Hk) as Hk0. set (k0 := rt_tick_set _ k) in *.
  destruct (slice_spec (-1) c thc (u32 (remaining_tick thc - 1)) k0 Hk0 Hc Htc)
    as (k1 & E1 & Hk1 & Hts1 & Hc1 & Hl1 & Hws & Hth1 & Hq1 & Hsw1).
  assert (Hrem : ∀ x, x ∈ rt_timer_list (tsys k) →
    remaining (tsys k0) x = remaining (tsys k) x - 1).
  { intros x Hx. apply Timer.remaining_tick; [apply TS|by apply (ts_exists _ _ TS)|].
    apply (ts_window _ _ TS x Hx). }
  assert (Hlist : rt_timer_list (tsys k1) = rt_timer_list (tsys k)) by by rewrite Hts1.
  destruct (check_threads user_timeout fuel k1) as (k' & E2 & Hk' & Hck);
    [done|done|by intros x; rewrite Hlist; apply Hto|by rewrite Hlist|].
  pose proof Hck as [A B C D F G W _ _].
  exists k'. split.
  { unfold rt_tick_increase. fold k0. unfold rt_thread_self.
    change (rt_current_thread k0) with (rt_current_thread k). rewrite Hc.
    cbn [of_option mbind res_bind]. rewrite (get_thread_ok c thc k0) by exact Htc.
    cbn [mbind res_bind]. rewrite E1. cbn [mbind res_bind]. exact E2. }
  rewrite Hlist in B. split_and!; try done.
  - intros x. rewrite B. intros [_ Hx]%list_elem_of_filter. by apply Hto.
  - rewrite B. apply length_filter.
  - by rewrite D, Hts1.
  - transitivity k1; [|done]. transitivity k0; [by apply wstable_same|done].
  - intros t th Ht. unfold ticked.
    assert (Hth' : ∃ th1, threads k1 !! t = Some th1 ∧ stat th1 = stat th ∧ error th1 = error th).
    { rewrite Hth1. destruct (decide (t = c)) as [->|Hne].
      - rewrite lookup_insert_eq. assert (th = thc) as -> by congruence. eauto.
      - rewrite lookup_insert_ne by done. eauto. }
    destruct Hth' as (th1 & Ht1 & Hs1 & He1).
    pose proof (ts_ok_tick _ TS) as TS0. change (ts_ok (-1) (tsys k0)) in TS0.
    assert (Hdue : due k1 t ↔
      TThread t ∈ rt_timer_list (tsys k) ∧ remaining (tsys k) (TThread t) <= 1).
    { unfold due. rewrite Hts1. unfold expired_list. rewrite list_elem_of_filter.
      change (rt_timer_list (tsys k0)) with (rt_timer_list (tsys k)). split.
      - intros [He Hin]. split; [done|]. apply (expired_remaining (-1)) in He; [|done..].
        rewrite Hrem in He by done. lia.
      - intros [Hin Hr]. split; [|done]. apply (expired_remaining (-1)); [done..|].
        rewrite Hrem by done. lia. }
    specialize (A t). rewrite Ht1 in A.
    destruct (decide (due k1 t)) as [Hd|Hd].
    + exists (timed_out th1). split; [done|]. rewrite decide_True by tauto.
      split_and!; [done|done|]. rewrite B, list_elem_of_filter. intros [He _].
      apply list_elem_of_filter in Hd as [Hd _]. congruence.
    + exists th1. split; [done|]. rewrite decide_False by tauto. split_and!; [done|done|].
      intros Hin. unfold due in Hd.
      assert (He : expired_at (tsys k1) (TThread t) = false).
      { apply not_true_iff_false. intros He. apply Hd, list_elem_of_filter. by rewrite Hlist. }
      split; [rewrite B; by apply list_elem_of_filter|].
      rewrite <- Hrem by done. rewrite <- Hts1. unfold remaining. by rewrite C, D by done.
  - intros c' thc' Hc' Htc'. assert (c' = c) as -> by congruence. assert (thc' = thc) as -> by congruence.
    by apply (sliced_intro k k1).
Qed.

(** ** Sleeping *)
Fixpoint ticks (user_timeout : nat → kernel → res kernel) (fuel n : nat) (k : kernel) : res kernel :=
  match n with
  | O => Ok k
  | S n => k ← rt_tick_increase user_timeout fuel k; ticks user_timeout fuel n k
  end.

(** A thread whose timer has [r] ticks left is woken by tick number [max r 1]. *)
Lemma ticks_wake user_timeout fuel : ∀ n k t th,
  kinv None 0 k → cur_ok k → thread_timers_only k →
  (length (rt_timer_list (tsys k)) < fuel)%nat →
  threads k !! t = Some th → TThread t ∈ rt_timer_list (tsys k) →
  Z.of_nat n <= Z.max 1 (remaining (tsys k) (TThread t)) →
  ∃ k' th', ticks user_timeout fuel n k = Ok k' ∧ kinv None 0 k' ∧ threads k' !! t = Some th' ∧
    if Z.of_nat n <? Z.max 1 (remaining (tsys k) (TThread t))
    then stat th' = stat th
    else stat th' = THREAD_READY ∧ error th' = - RT_ETIMEOUT.
Proof.
  induction n as [|n IH]; intros k t th Hk Hc Hto Hfu Ht Hin Hn.
  - exists k, th. rewrite (proj2 (Z.ltb_lt _ _)) by lia. done.
  - destruct (tick_spec user_timeout fuel k) as (k1 & E & Hk1 & Hc1 & Hto1 & Hl1 & _ & _ & Htk & _); [done..|].
    cbn [ticks]. rewrite E. cbn [mbind res_bind].
    destruct (Htk t th Ht) as (th1 & Ht1 & Hb).
    destruct (decide (_ ∧ _)) as [[_ Hr]|Hr].
    + assert (n = 0)%nat as -> by lia. exists k1, th1. split_and!; [done..|].
      rewrite (proj2 (Z.ltb_ge _ _)) by lia. by destruct Hb as (? & ? & _).
    + destruct Hb as (Hs1 & He1 & Hb). destruct (Hb Hin) as [Hin1 Hr1].
      assert (1 < remaining (tsys k) (TThread t))
        by (apply Z.nle_gt; intros ?; apply Hr; done).
      destruct (IH k1 t th1) as (k' & th' & E' & Hk' & Ht' & Hb'); [done|done|done|lia|done|done|lia|].
      exists k', th'. split_and!; [done..|].
      replace (Z.of_nat (S n) <? _) with (Z.of_nat n <? Z.max 1 (remaining (tsys k1) (TThread t))).
      * rewrite <- Hs1. exact Hb'.
      * apply eq_true_iff_eq. rewrite !Z.ltb_lt. lia.
Qed.
