(* ===== verification/UserTimer.v ===== *)
(** * Timers of their own: [rt_timer_create], [rt_timer_delete] and the tick with them

    The calls of [src/timer.c] on a timer that is an object of the client
    ([TUser n]), on the kernel's state, and what the tick guarantees when such
    timers expire and run the client's timeout functions. *)
From S2P Require Import Prelude Timer KObject Kernel KernelInv ThreadOps Tick.
Local Open Scope Z_scope.

(** ** Operations *)

(** The static timer: [rt_timer_init] with its object. *)
Definition rt_timer_init_object (n timeout : nat) (time fl : Z) (k : kernel) : res kernel :=
  k ← on_objects (rt_object_init Object_Class_Timer (OTimer (TUser n)) fl) k;
  on_timers (rt_timer_init (TUser n) (TF_user timeout) time fl) k.

Definition rt_timer_detach_object (n : nat) (k : kernel) : res kernel :=
  k ← on_timers (rt_timer_detach (TUser n)) k;
  on_objects (rt_object_detach (OTimer (TUser n))) k.

(** [p]: what the allocation of the object returned.  The assertion is that of
    [rt_object_allocate], in [rt_timer_delete] that of [rt_free]. *)
Definition rt_timer_create (p : option nat) (timeout : nat) (time fl : Z) (k : kernel) : res (kernel * option nat) :=
  _ ← debug_not_in_interrupt k;
  '(o, timer) ← rt_object_allocate Object_Class_Timer ((λ n, OTimer (TUser n)) <$> p) (objs k);
  let k := set_objs o k in
  match p, timer with
  | Some n, Some _ => k ← on_timers (rt_timer_init (TUser n) (TF_user timeout) time fl) k; Ok (k, Some n)
  | _, _ => Ok (k, None)
  end.

(** The memory is given back with the object. *)
Definition rt_timer_delete (n : nat) (k : kernel) : res kernel :=
  _ ← get_timer (TUser n) (tsys k);
  let k := set_tsys (_rt_timer_remove (TUser n) (tsys k)) k in
  k ← on_objects (rt_object_delete (OTimer (TUser n))) k;
  _ ← debug_not_in_interrupt k;
  Ok (set_tsys (drop_timer (TUser n) (tsys k)) k).

(** The other calls only touch the timers. *)
Inductive user_timer_op :=
  | UT_start (n : nat)
  | UT_stop (n : nat)
  | UT_control (n : nat) (cmd : timer_cmd) (arg : Z).

Definition user_timer_do (op : user_timer_op) (k : kernel) : res kernel :=
  match op with
  | UT_start n => on_timers (rt_timer_start (TUser n)) k
  | UT_stop n => '(ts, _) ← rt_timer_stop (TUser n) (tsys k); Ok (set_tsys ts k)
  | UT_control n cmd arg => '(ts, _) ← rt_timer_control (TUser n) cmd arg (tsys k); Ok (set_tsys ts k)
  end.

(** ** They keep the invariant, between ticks ([lo = 0]) and inside one ([-1]) *)
Lemma kinv_user_timers x lo ts k :
  ts_ok lo ts →
  (∀ t, timers ts !! TThread t = timers (tsys k) !! TThread t) →
  (∀ t, TThread t ∈ rt_timer_list ts → TThread t ∈ rt_timer_list (tsys k)) →
  (∀ n tm, timers ts !! TUser n = Some tm → timers (tsys k) !! TUser n = Some tm ∨ user_timer_ok tm) →
  kinv x lo k → kinv x lo (set_tsys ts k).
Proof.
  intros Hts Hsame Hl Hu Hk. apply (kinv_set_tsys x lo); [done| | |done|done].
  - intros t tm. rewrite Hsame. eauto.
  - intros t Hin. rewrite Hsame. by apply (ki_tm_list _ _ _ Hk), Hl.
Qed.

(** [set_timer] on a timer of its own whose callback stays the client's. *)
Lemma user_set_timer n tm tm' ts k lo :
  kinv None lo k → ts_ok lo (set_timer (TUser n) tm' ts) →
  timers (tsys k) !! TUser n = Some tm → timeout_func tm' = timeout_func tm →
  timers ts = timers (tsys k) → (∀ t, TThread t ∈ rt_timer_list ts → TThread t ∈ rt_timer_list (tsys k)) →
  kinv None lo (set_tsys (set_timer (TUser n) tm' ts) k).
Proof.
  intros Hk Hts Hn Hf Hsame Hl. destruct (ki_user _ _ _ Hk n tm Hn) as [m Hm].
  apply kinv_user_timers; [done| |done| |done]; simpl; rewrite Hsame.
  - intros t. by rewrite lookup_insert_ne.
  - intros n' tm1 [[_ <-]|[_ ?]]%lookup_insert_Some; [right; exists m; congruence|by left].
Qed.

Lemma user_start_kinv lo n k k' :
  -1 <= lo <= 0 → kinv None lo k → on_timers (rt_timer_start (TUser n)) k = Ok k' → kinv None lo k'.
Proof.
  intros Hlo Hk E. unfold on_timers in E. apply bind_ok_inv in E as (ts & E & [= <-]).
  destruct (timers (tsys k) !! TUser n) as [tm|] eqn:Hn; [|by unfold rt_timer_start, get_timer in E; rewrite Hn in E].
  rewrite (rt_timer_start_eq lo (TUser n) tm) in E by (done || apply Hk).
  destruct (Z.ltb_spec (init_tick tm) TICK_HALF); [|done]. injection E as <-.
  destruct (ki_user _ _ _ Hk n tm Hn) as [m Hm].
  apply kinv_user_timers; [apply ts_ok_start; try done; apply Hk| | | |done].
  - intros t. simpl. by rewrite lookup_insert_ne.
  - intros t. simpl. rewrite elem_of_place, list_elem_of_filter. intros [?|[_ ?]]; done.
  - intros n' tm1. simpl. intros [[_ <-]|[_ ?]]%lookup_insert_Some; [right; by exists m|by left].
Qed.

Lemma user_timer_do_kinv lo op k k' :
  -1 <= lo <= 0 → kinv None lo k → user_timer_do op k = Ok k' → kinv None lo k'.
Proof.
  intros Hlo Hk E. pose proof (ki_ts _ _ _ Hk) as TS. destruct op as [n|n|n cmd arg]; simpl in E.
  - by eapply user_start_kinv.
  - apply bind_ok_inv in E as ([ts b] & E & [= <-]). unfold rt_timer_stop, get_timer in E.
    destruct (timers (tsys k) !! TUser n) as [tm|] eqn:Hn; [|done]. cbn [of_option mbind res_bind] in E.
    destruct (activated tm); injection E as <- <-; [|by replace (set_tsys (tsys k) k) with k by (by destruct k)].
    apply (user_set_timer n tm); try done.
    + apply ts_ok_set_other; [apply not_elem_remove|exact (ts_range _ _ TS _ _ Hn)|by apply ts_ok_remove].
    + intros t. simpl. rewrite list_elem_of_filter. tauto.
  - apply bind_ok_inv in E as ([ts b] & E & [= <-]). unfold rt_timer_control, get_timer in E.
    destruct (timers (tsys k) !! TUser n) as [tm|] eqn:Hn; [|done]. cbn [of_option mbind res_bind] in E.
    pose proof (ts_range _ _ TS _ _ Hn) as [Hr1 Hr2].
    destruct cmd; injection E as <- <-; try (by replace (set_tsys (tsys k) k) with k by (by destruct k));
      (apply (user_set_timer n tm); [done| |done..]; apply (ts_ok_set_same lo (TUser n) tm); try done).
    split; [done|]. simpl. unfold RT_TICK_MAX, u32. lia.
Qed.

(** A new timer; its time is a [rt_tick_t]. *)
Lemma user_init_kinv lo n timeout time fl k k' :
  kinv None lo k → 0 <= time <= RT_TICK_MAX →
  on_timers (rt_timer_init (TUser n) (TF_user timeout) time fl) k = Ok k' → kinv None lo k'.
Proof.
  intros Hk Ht E. unfold on_timers, rt_timer_init in E. apply bind_ok_inv in E as (ts & E & [= <-]).
  apply bind_ok_inv in E as (u & E & [= <-]). apply require_ok, bool_decide_eq_true in E.
  apply kinv_user_timers; [|intros t|done|intros m tm|done].
  - apply ts_ok_set_other; [done|split; simpl; unfold RT_TICK_MAX in *; lia|apply Hk].
  - simpl. by rewrite lookup_insert_ne.
  - simpl. intros [[_ <-]|[_ ?]]%lookup_insert_Some; [right; by exists timeout|by left].
Qed.

Lemma user_detach_kinv lo n k : kinv None lo k → kinv None lo (set_tsys (_rt_timer_remove (TUser n) (tsys k)) k).
Proof.
  intros Hk. apply kinv_user_timers; [apply ts_ok_remove, Hk|done| |by left|done].
  intros t. simpl. rewrite list_elem_of_filter. tauto.
Qed.

(** The life of the timer object. *)
Inductive user_timer_life : kernel → kernel → Prop :=
  | life_init n timeout time fl k k' :
      0 <= time <= RT_TICK_MAX → rt_timer_init_object n timeout time fl k = Ok k' → user_timer_life k k'
  | life_create p timeout time fl k k' r :
      0 <= time <= RT_TICK_MAX → rt_timer_create p timeout time fl k = Ok (k', r) → user_timer_life k k'
  | life_detach n k k' : rt_timer_detach_object n k = Ok k' → user_timer_life k k'
  | life_delete n k k' : rt_timer_delete n k = Ok k' → user_timer_life k k'.

Lemma user_timer_life_kinv lo k k' : kinv None lo k → user_timer_life k k' → kinv None lo k'.
Proof.
  intros Hk H. destruct H as [n to time fl k k' Ht E|p to time fl k k' r Ht E|n k k' E|n k k' E].
  - unfold rt_timer_init_object, on_objects in E. apply bind_ok_inv in E as (k1 & E1 & E).
    apply bind_ok_inv in E1 as (o & _ & [= <-]). eapply user_init_kinv; [by apply (kinv_set_objs _ _ o)|done|done].
  - unfold rt_timer_create in E. apply bind_ok_inv in E as (u & _ & E). apply bind_ok_inv in E as ([o x] & _ & E).
    pose proof (kinv_set_objs None lo o k Hk) as Hk1. destruct p as [n|], x; try by injection E as <- _.
    apply bind_ok_inv in E as (k1 & E & [= <- _]). by eapply user_init_kinv.
  - unfold rt_timer_detach_object, on_timers, on_objects, rt_timer_detach in E.
    apply bind_ok_inv in E as (k1 & E1 & E). apply bind_ok_inv in E1 as (ts & E1 & [= <-]).
    apply bind_ok_inv in E1 as (tm & _ & [= <-]). apply bind_ok_inv in E as (o & _ & [= <-]).
    by apply kinv_set_objs, user_detach_kinv.
  - unfold rt_timer_delete, on_objects in E. apply bind_ok_inv in E as (tm & _ & E).
    apply bind_ok_inv in E as (k1 & E1 & E). apply bind_ok_inv in E1 as (o & _ & [= <-]).
    apply bind_ok_inv in E as (u & _ & [= <-]).
    pose proof (kinv_set_objs None lo o _ (user_detach_kinv lo n k Hk)) as Hk1.
    apply kinv_user_timers; [|intros t|done|intros m tm1|done]; simpl.
    + apply ts_ok_drop; [apply not_elem_remove|]. apply ts_ok_remove, Hk.
    + by rewrite lookup_delete_ne.
    + intros [_ ?]%lookup_delete_Some. by left.
Qed.

Lemma user_timer_life_wstable k k' : user_timer_life k k' → wstable every k k'.
Proof.
  intros H. apply wstable_same; destruct H as [n to time fl k k' Ht E|p to time fl k k' r Ht E|n k k' E|n k k' E];
    unfold rt_timer_init_object, rt_timer_create, rt_timer_detach_object, rt_timer_delete, on_timers, on_objects in E.
  all: repeat match goal with
    | H : mbind _ _ = Ok _ |- _ => apply bind_ok_inv in H as (? & ? & ?)
    | p : _ * _ |- _ => destruct p
    | x : option _ |- _ => destruct x
    end; by simplify_eq.
Qed.

Lemma user_timer_do_wstable op k k' : user_timer_do op k = Ok k' → wstable every k k'.
Proof.
  intros E. apply wstable_same; destruct op; simpl in E; unfold on_timers in E;
    apply bind_ok_inv in E as (r & _ & E); [|destruct r..]; by injection E as <-.
Qed.

(** ** The tick with user timers *)

(** What a timeout function owes the kernel it is called in, inside the tick:
    the invariant, an existing current thread, and no thread put to wait. *)
Definition benign (user_timeout : nat → kernel → res kernel) : Prop :=
  ∀ n k k', kinv None (-1) k → cur_ok k → user_timeout n k = Ok k' →
    kinv None (-1) k' ∧ cur_ok k' ∧ wstable every k k'.

(** Starting and stopping timers is benign, and so is doing nothing. *)
Lemma benign_timers (f : nat → option user_timer_op) :
  benign (λ n k, match f n with Some op => user_timer_do op k | None => Ok k end).
Proof.
  intros n k k' Hk Hc E. destruct (f n) as [op|]; [|by injection E as <-].
  split_and!; [by eapply user_timer_do_kinv| |by eapply user_timer_do_wstable].
  assert (Hs : threads k' = threads k ∧ rt_current_thread k' = rt_current_thread k).
  { destruct op; simpl in E; unfold on_timers in E; apply bind_ok_inv in E as (r & _ & E);
      [|destruct r..]; by injection E as <-. }
  destruct Hs as [Ht Hcur]. apply (cur_ok_threads k); [done|done|by rewrite Ht].
Qed.

Section Check_user.
Context (user_timeout : nat → kernel → res kernel) (Hb : benign user_timeout).

Lemma fire_any x l tm k k' :
  kinv None (-1) k → cur_ok k → rt_timer_list (tsys k) = x :: l → timers (tsys k) !! x = Some tm →
  expired (rt_tick (tsys k)) tm = true →
  timer_fire (call_timeout user_timeout) x k = Ok k' → kinv None (-1) k' ∧ cur_ok k' ∧ wstable every k k'.
Proof.
  intros Hk Hc Hl Hx He E. destruct x as [t|n].
  - destruct (fire_thread user_timeout t l k Hk Hc Hl) as (k1 & th & E1 & Hk1 & Hc1 & _ & _ & _ & _ & _ & _ & _ & Hw & _).
    { unfold expired_at. by rewrite Hx. }
    assert (k1 = k') as -> by congruence. done.
  - unfold timer_fire in E. cbn [get_ts put_ts kernel_has_timers] in E.
    pose proof (user_detach_kinv (-1) n k Hk) as Hk0. set (k0 := set_tsys _ k) in *.
    change (tsys k0) with (_rt_timer_remove (TUser n) (tsys k)) in E.
    assert (Eg : get_timer (TUser n) (_rt_timer_remove (TUser n) (tsys k)) = Ok tm) by (unfold get_timer; simpl; by rewrite Hx).
    rewrite Eg in E. cbn [mbind res_bind] in E.
    destruct (ki_user _ _ _ Hk n tm Hx) as [m Hm]. rewrite Hm in E. cbn [call_timeout] in E.
    apply bind_ok_inv in E as (k1 & E1 & E). destruct (Hb m k0 k1 Hk0 Hc E1) as (Hk1 & Hc1 & Hw1).
    assert (Hw : wstable every k k1) by (transitivity k0; [by apply wstable_same|done]).
    apply bind_ok_inv in E as (tm1 & Etm & E). unfold get_timer in Etm. apply of_option_ok in Etm.
    set (k2 := set_tsys (set_timer (TUser n) (deactivate tm1) (tsys k1)) k1) in *.
    assert (Hk2 : kinv None (-1) k2).
    { apply (user_set_timer n tm1); try done. apply (ts_ok_set_same _ _ tm1); try done; [|apply Hk1].
      exact (ts_range _ _ (ki_ts _ _ _ Hk1) _ _ Etm). }
    assert (Hw2 : wstable every k k2) by (transitivity k1; [done|by apply wstable_same]).
    destruct (periodic tm1 && activated tm1).
    + apply bind_ok_inv in E as (ts & E & [= <-]). split_and!; [|done|transitivity k2; [done|by apply wstable_same]].
      apply (user_start_kinv (-1) n k2); [lia|done|]. unfold on_timers. by rewrite E.
    + injection E as <-. by split_and!.
Qed.

Lemma check_any : ∀ fuel k k',
  kinv None (-1) k → cur_ok k →
  rt_timer_check (call_timeout user_timeout) fuel (rt_tick (tsys k)) k = Ok k' →
  kinv None 0 k' ∧ cur_ok k' ∧ wstable every k k'.
Proof.
  induction fuel as [|fuel IH]; intros k k' Hk Hc E; [done|]. pose proof (ki_ts _ _ _ Hk) as TS.
  assert (Hquiet : expired_list (tsys k) = [] → kinv None 0 k ∧ cur_ok k ∧ wstable every k k).
  { intros Hq. split_and!; [|done|done]. replace k with (set_tsys (tsys k) k) by (by destruct k).
    apply (kinv_set_tsys None (-1)); [by apply ts_ok_quiet|eauto| |by left|done]. apply (ki_tm_list _ _ _ Hk). }
  cbn [rt_timer_check get_ts kernel_has_timers] in E.
  destruct (rt_timer_list (tsys k)) as [|x l] eqn:Hl.
  { injection E as <-. apply Hquiet. unfold expired_list. by rewrite Hl. }
  destruct (ts_exists _ _ TS x) as [tm Htm]; [rewrite Hl; left|].
  unfold get_timer in E. rewrite Htm in E. cbn [of_option mbind res_bind] in E.
  destruct (expired (rt_tick (tsys k)) tm) eqn:He.
  - apply bind_ok_inv in E as (k1 & E1 & E). destruct (fire_any x l tm k k1) as (Hk1 & Hc1 & Hw1); [done..|].
    destruct (IH k1 k' Hk1 Hc1 E) as (? & ? & ?). split_and!; [done..|by transitivity k1].
  - injection E as <-. apply Hquiet. apply (expired_list_head (-1) (tsys k) x l); try done.
    unfold expired_at. by rewrite Htm.
Qed.

Lemma tick_any fuel k k' :
  kinv None 0 k → rt_tick_increase user_timeout fuel k = Ok k' →
  kinv None 0 k' ∧ wstable every k k'.
Proof.
  intros Hk E. unfold rt_tick_increase in E. pose proof (kinv_tick k Hk) as Hk0. set (k0 := rt_tick_set _ k) in *.
  apply bind_ok_inv in E as (c & Ec & E). apply of_option_ok in Ec.
  apply bind_ok_inv in E as (th & Eth & E). unfold get_thread in Eth. apply of_option_ok in Eth.
  destruct (slice_spec (-1) c th (u32 (remaining_tick th - 1)) k0 Hk0 Ec Eth) as (k1 & E1 & Hk1 & _ & Hc1 & _ & Hw & _).
  rewrite E1 in E. cbn [mbind res_bind] in E. destruct (check_any _ _ _ Hk1 Hc1 E) as (? & _ & ?).
  split; [done|]. transitivity k1; [|done]. transitivity k0; [by apply wstable_same|done].
Qed.
End Check_user.
