(* ===== verification/IdleClean.v ===== *)
(** * The idle thread's clean-up: [rt_thread_idle_excute] of [src/idle.c]

    Dead threads leave the defunct list one by one; those that came from the
    heap are released with their timers. *)
From S2P Require Import Prelude Timer KObject Kernel KernelInv ThreadOps.
Local Open Scope Z_scope.

Section Idle_theory.
Context (run_cleanup : nat → tid → kernel → res kernel).
(** The cleanup functions leave the kernel alone. *)
Hypothesis cleanup_quiet : ∀ c t k, run_cleanup c t k = Ok k.

(** A dead thread that came from the heap. *)
Definition dynamic_object (t : tid) (k : kernel) : Prop :=
  ∃ r, objects (objs k) !! OThread t = Some r ∧ is_static r = false.

Lemma kinv_forget lo t th k :
  kinv (Some t) lo k → threads k !! t = Some th → (TThread t ∉ rt_timer_list (tsys k)) →
  kinv None lo (set_tsys (drop_timer (TThread t) (tsys k)) (set_threads (delete t (threads k)) k)).
Proof.
  intros [N D F R X T G B TS M L U] Ht Htl. specialize (X t eq_refl). constructor; simpl; try done.
  - intros u q Hu. destruct (F u q Hu) as (th1 & ? & ?). exists th1. split; [|done].
    rewrite lookup_delete_ne; [done|]. intros <-. by apply (X q).
  - intros u th1 Hu Hr _. apply lookup_delete_Some in Hu as [Hne Hu]. apply R; congruence || done.
  - intros u th1 [Hne Hu]%lookup_delete_Some. eauto.
  - by apply ts_ok_drop.
  - intros u th1 [Hne Hu]%lookup_delete_Some. rewrite lookup_delete_ne by congruence. eauto.
  - intros u Hu. destruct (L u Hu) as (tm & ? & ? & Hx). assert (u ≠ t) by congruence.
    exists tm. rewrite !lookup_delete_ne by congruence. split_and!; [done..|].
    intros _. apply Hx. congruence.
  - intros n tm. rewrite lookup_delete_ne by done. apply U.
Qed.

Lemma idle_step_ok lo t l th r k :
  kinv None lo k → rt_interrupt_nest k = 0 → q_get k QDefunct = t :: l →
  threads k !! t = Some th → objects (objs k) !! OThread t = Some r →
  ∃ k1, kinv (Some t) lo k1 ∧ threads k1 = threads k ∧ tsys k1 = tsys k ∧ 
    (∀ q, q_get k1 q = without t (q_get k q)) ∧ objs k1 = objs k ∧ rt_interrupt_nest k1 = 0 ∧
    idle_step run_cleanup k =
      if is_static r then Ok (k1, true)
      else Ok (set_tsys (drop_timer (TThread t) (tsys k1))
        (set_threads (delete t (threads k))
          (set_objs (mk_objs (delete (OThread t) (objects (objs k)))
                      (object_list (object_unlink (OThread t) (objs k)))) k1)), false).
Proof.
  intros Hk Hn Hl Ht Hr. exists (rt_list_remove t k).
  destruct (ki_fits _ _ _ Hk t QDefunct) as (th' & Ht' & Hs); [rewrite Hl; left|].
  assert (th' = th) as -> by congruence. simpl in Hs.
  split; [eapply kinv_unlink; eauto; congruence|]. split_and!; try done.
  { intros q. apply q_get_remove. }
  unfold idle_step, debug_not_in_interrupt, rt_assert. rewrite Hn. cbn [Z.eqb require mbind res_bind].
  unfold rt_list_first. rewrite Hl. cbn [mbind res_bind].
  rewrite (get_thread_ok t th) by exact Ht. cbn [mbind res_bind].
  assert (Ec : match cleanup th with
    | Some c => run_cleanup c t (rt_list_remove t k) | None => Ok (rt_list_remove t k) end
    = Ok (rt_list_remove t k)) by (destruct (cleanup th); [apply cleanup_quiet|done]).
  rewrite Ec. cbn [mbind res_bind].
  unfold rt_object_is_systemobject, get_object. simpl. rewrite Hr. simpl.
  destruct (is_static r) eqn:Hst; [done|]. unfold on_objects, rt_object_delete, get_object.
  simpl. rewrite Hr. simpl. rewrite Hst. done.
Qed.

Lemma idle_all lo : ∀ l fuel k,
  kinv None lo k → rt_interrupt_nest k = 0 → q_get k QDefunct = l →
  (∀ t, t ∈ l → dynamic_object t k) → (length l <= fuel)%nat →
  ∃ k', rt_thread_idle_excute run_cleanup fuel k = Ok k' ∧ kinv None lo k' ∧
    q_get k' QDefunct = [] ∧
    ∀ t, threads k' !! t = if decide (t ∈ l) then None else threads k !! t.
Proof.
  induction l as [|t l IH]; intros fuel k Hk Hn Hl Hdyn Hf.
  - exists k. split_and!; [|done..].
    assert (Hdef : _has_defunct_thread k = false)
      by (unfold _has_defunct_thread, rt_list_isempty; by rewrite Hl).
    destruct fuel; cbn [rt_thread_idle_excute]; by rewrite Hdef.
  - destruct fuel as [|fuel]; [simpl in Hf; lia|].
    assert (Hdef : _has_defunct_thread k = true)
      by (unfold _has_defunct_thread, rt_list_isempty; by rewrite Hl).
    cbn [rt_thread_idle_excute]. rewrite Hdef.
    destruct (Hdyn t ltac:(left)) as (r & Hr & Hst).
    destruct (ki_fits _ _ _ Hk t QDefunct) as (th & Ht & Hs); [rewrite Hl; left|].
    destruct (idle_step_ok lo t l th r k) as (k1 & Hk1 & Hth1 & Hts1 & Hq1 & Ho1 & Hn1 & E); [done..|].
    rewrite E, Hst. cbn [mbind res_bind].
    assert (Htl : TThread t ∉ rt_timer_list (tsys k1)).
    { rewrite Hts1. intros Hin. destruct (ki_tm_list _ _ _ Hk t Hin) as (tm & _ & _ & Hx).
      destruct (Hx ltac:(done)) as (th2 & ? & ?). simpl in Hs. congruence. }
    set (k2 := set_objs _ k1).
    assert (Hk2 : kinv (Some t) lo k2) by by apply kinv_set_objs.
    assert (Ht2 : threads k2 !! t = Some th) by (simpl; by rewrite Hth1).
    assert (Hk3 : kinv None lo (set_tsys (drop_timer (TThread t) (tsys k1))
      (set_threads (delete t (threads k)) k2))).
    { rewrite <- Hth1. by apply (kinv_forget lo t th k2). }
    pose proof (ki_nodup _ _ _ Hk QDefunct) as Hnd. rewrite Hl in Hnd.
    apply NoDup_cons in Hnd as [Hnin Hnd].
    set (k3 := set_tsys _ _) in *.
    destruct (IH fuel k3) as (k' & E' & Hk' & Hq' & Hth'); [exact Hk3|done| | | |].
    + change (q_get k1 QDefunct = l). rewrite Hq1, Hl. rewrite filter_cons_False by tauto.
      by apply filter_ne_id.
    + intros u Hu. destruct (Hdyn u ltac:(by right)) as (ru & ? & ?). exists ru. split; [|done].
      simpl. rewrite lookup_delete_ne by congruence. done.
    + simpl in Hf. lia.
    + exists k'. split_and!; [done..|]. intros u. rewrite Hth'. simpl.
      destruct (decide (u = t)) as [->|Hne].
      * rewrite decide_False by done. rewrite decide_True by left. apply lookup_delete_eq.
      * rewrite lookup_delete_ne by done. apply decide_ext. rewrite elem_of_cons. tauto.
Qed.

(** Whatever it meets, a call that returns keeps the invariant and the waiting
    lists. *)
Lemma idle_step_safe lo k k' b :
  kinv None lo k → idle_step run_cleanup k = Ok (k', b) → kinv None lo k' ∧ wstable every k k'.
Proof.
  intros Hk E. pose proof E as E0. unfold idle_step, debug_not_in_interrupt in E.
  apply bind_ok_inv in E as (? & En & E). apply require_ok, Z.eqb_eq in En.
  apply bind_ok_inv in E as (t & Et & E). unfold rt_list_first in Et.
  destruct (q_get k QDefunct) as [|t' l] eqn:Hl; [done|]. injection Et as ->.
  destruct (ki_fits _ _ _ Hk t QDefunct) as (th & Ht & Hs); [rewrite Hl; left|]. simpl in Hs.
  apply bind_ok_inv in E as (th' & Eth & E). apply bind_ok_inv in E as (k1 & Ec & E).
  assert (Hobj : objs k1 = objs k).
  { destruct (cleanup th'); [rewrite cleanup_quiet in Ec|]; by injection Ec as <-. }
  apply bind_ok_inv in E as (sys & Esys & _). unfold rt_object_is_systemobject, get_object in Esys.
  apply bind_ok_inv in Esys as (r & Er & _). apply of_option_ok in Er. rewrite Hobj in Er.
  destruct (idle_step_ok lo t l th r k) as (k2 & Hk2 & Hth2 & Hts2 & Hq2 & Ho2 & Hn2 & E2); [done..|].
  assert (Htl : TThread t ∉ rt_timer_list (tsys k2)).
  { rewrite Hts2. intros Hin. destruct (ki_tm_list _ _ _ Hk t Hin) as (tm & _ & _ & Hx).
    destruct (Hx ltac:(done)) as (th2 & ? & ?). congruence. }
  rewrite E2 in E0. destruct (is_static r); injection E0 as <- <-.
  - split; [apply (kinv_settle lo t th k2); [done|by rewrite Hth2|congruence|done]|].
    apply wstable_intro; [intros q _ _; rewrite Hq2; apply sublist_filter|].
    intros u thu. rewrite Hth2. right. by exists thu.
  - split.
    + rewrite <- Hth2.
      set (k3 := set_objs (mk_objs (delete (OThread t) (objects (objs k))) (object_list (object_unlink (OThread t) (objs k)))) k2).
      change (kinv None lo (set_tsys (drop_timer (TThread t) (tsys k3)) (set_threads (delete t (threads k3)) k3))).
      apply (kinv_forget lo t th k3); [by apply kinv_set_objs|by simpl; rewrite Hth2|done].
    + apply wstable_intro; [intros q _ _|].
      * change (q_get k2 q `sublist_of` q_get k q). rewrite Hq2. apply sublist_filter.
      * intros u thu Hu. simpl in Hu. apply lookup_delete_Some in Hu as [_ Hu]. right. by exists thu.
Qed.

Lemma idle_safe lo : ∀ fuel k k',
  kinv None lo k → rt_thread_idle_excute run_cleanup fuel k = Ok k' → kinv None lo k' ∧ wstable every k k'.
Proof.
  induction fuel as [|fuel IH]; intros k k' Hk E; cbn [rt_thread_idle_excute] in E;
    (destruct (_has_defunct_thread k); [|by injection E as <-]); [done|].
  apply bind_ok_inv in E as ([k1 b] & E1 & E). destruct (idle_step_safe lo k k1 b Hk E1) as [Hk1 Hw1].
  destruct b; [by injection E as <-|]. destruct (IH k1 k' Hk1 E) as [Hk' Hw']. split; [done|by transitivity k1].
Qed.
End Idle_theory.
