(* ===== verification/ThreadProps.v ===== *)
(** * The life of a thread: properties

    Creation, start, blocking, death and clean-up of threads, the scheduler's
    choice, the tick; every state the thread operations can reach is
    well-formed. *)
From S2P Require Import Prelude Timer KObject Kernel KernelInv ThreadOps Tick UserTimer IdleClean.
Local Open Scope Z_scope.

(** ** Boot and creation *)

(** A kernel before any thread exists, timers of its own allowed. *)
Definition boot_kernel : kernel :=
  mk_kernel ∅ ∅ (mk_ts 0 ∅ [] 0) (mk_objs ∅ (λ _, [])) None 0 0 0 0.

Lemma foldr_ready_lookup (m : gmap qid (list tid)) (l : list nat) q :
  (∀ q, default [] (m !! q) = []) →
  default [] (foldr (λ p m, <[QReady p := []]> m) m l !! q) = [].
Proof.
  intros Hm. induction l as [|p l IH]; [apply Hm|]. simpl.
  destruct (decide (q = QReady p)) as [->|]; [by rewrite lookup_insert_eq|].
  by rewrite lookup_insert_ne.
Qed.

Lemma boot_kinv : kinv None 0 (rt_system_scheduler_init boot_kernel).
Proof.
  set (k := rt_system_scheduler_init boot_kernel).
  assert (Hq : ∀ q, q_get k q = []).
  { intros q. unfold k, rt_system_scheduler_init. rewrite q_get_set. case_decide; [done|].
    unfold q_get. cbn [queues set_group set_current set_lock set_queues].
    apply foldr_ready_lookup. intros q'. simpl. by rewrite lookup_empty. }
  assert (Hth : threads k = ∅) by done.
  constructor.
  - intros q. rewrite Hq. constructor.
  - intros t q1 q2. rewrite Hq. by intros ?%elem_of_nil.
  - intros t q. rewrite Hq. by intros ?%elem_of_nil.
  - intros t th Ht. by rewrite Hth, lookup_empty in Ht.
  - done.
  - intros t th Ht. by rewrite Hth, lookup_empty in Ht.
  - simpl. lia.
  - intros p Hp. unfold rt_list_isempty. rewrite Hq. simpl. by rewrite Z.bits_0.
  - constructor; simpl.
    + unfold RT_TICK_MAX. lia.
    + constructor.
    + intros x []%elem_of_nil.
    + intros x []%elem_of_nil.
    + constructor.
    + intros x tm Hx. by rewrite lookup_empty in Hx.
  - intros t th Ht. by rewrite Hth, lookup_empty in Ht.
  - intros t []%elem_of_nil.
  - intros n tm Hn. simpl in Hn. by rewrite lookup_empty in Hn.
Qed.

(** The control block [rt_thread_init] writes. *)
Definition fresh_thread (old : rt_thread) (stack_start size priority tick : Z) : rt_thread := {|
  stat := THREAD_INIT; current_priority := priority; init_priority := priority;
  number_mask := number_mask old; error := RT_EOK;
  event_set := event_set old; event_info := event_info old;
  thread_init_tick := tick; remaining_tick := tick; cleanup := None;
  stack_addr := stack_start; stack_size := size;
  sp := rt_hw_stack_init (u32 (stack_start + size - 4)); stack_guard := 35 |}.

(** Room for the initial frame, and no wrap-around at the end of memory. *)
Definition stack_fits (stack_start size : Z) : Prop :=
  0 < stack_start ∧ 152 < size ∧ stack_start + size < 4294967296.

Lemma fresh_thread_ok old a size p tick :
  prio_ok p → stack_fits a size → thread_ok (fresh_thread old a size p tick).
Proof.
  intros Hp (Ha & Hs & Hm). constructor; [done|done|done|].
  unfold _rt_scheduler_stack_check, fresh_thread, rt_hw_stack_init; simpl.
  apply negb_true_iff, orb_false_iff. split.
  - apply Z.leb_gt. word.
  - apply Z.ltb_ge. word.
Qed.

Lemma kinv_new_thread lo t th k :
  kinv None lo k → threads k !! t = None → stat th = THREAD_INIT → thread_ok th →
  kinv None lo (set_tsys (set_timer (TThread t) (_rt_timer_init (TF_thread_timeout t) 0 0) (tsys k))
    (set_thread t th k)).
Proof.
  intros Hk Hn Hs Hok. pose proof Hk as [N D F R X T G B TS M L U].
  assert (Hnl : TThread t ∉ rt_timer_list (tsys k)).
  { intros Hin. destruct (L t Hin) as (tm & _ & _ & Hx). destruct (Hx ltac:(done)) as (? & ? & _).
    congruence. }
  constructor; simpl; try done.
  - intros u q Hu. destruct (F u q Hu) as (th1 & ? & ?). exists th1. split; [|done].
    rewrite lookup_insert_ne; congruence.
  - intros u th1 [[<- <-]|[Hne Hu]]%lookup_insert_Some Hr Hx; [congruence|]. by apply R.
  - intros u th1 [[<- <-]|[Hne Hu]]%lookup_insert_Some; eauto.
  - apply ts_ok_set_other; [done| |done]. by vm_compute.
  - intros u th1 [[<- <-]|[Hne Hu]]%lookup_insert_Some.
    + rewrite lookup_insert_eq. eexists. by split.
    + rewrite lookup_insert_ne by congruence. eauto.
  - intros u Hu. destruct (L u Hu) as (tm & ? & ? & Hx). exists tm.
    assert (u ≠ t) by congruence. rewrite !lookup_insert_ne by congruence. eauto.
  - intros n tm. rewrite lookup_insert_ne by done. apply U.
Qed.

(** The part that [rt_thread_init] and [rt_thread_create] share. *)
Lemma init_body_spec lo t r old a size p tick k :
  kinv None lo k → threads k !! t = None → prio_ok p → stack_fits a size →
  objects (objs k) !! OThread t = Some r →
  (OTimer (TThread t) ∉ object_list (objs k) Object_Class_Timer) →
  ∃ k', _rt_thread_init t old a size p tick k = Ok k' ∧ kinv None lo k' ∧
    threads k' = <[t := fresh_thread old a size p tick]> (threads k) ∧
    queues k' = queues k ∧ rt_current_thread k' = rt_current_thread k ∧
    registered t r k'.
Proof.
  intros Hk Hn Hp Hst Hr Ho2. unfold _rt_thread_init, rt_assert, on_objects. pose proof Hp as [Hp1 Hp2].
  rewrite (proj2 (Z.ltb_lt _ _) Hp2). cbn [require mbind res_bind].
  assert (Hl : linked t k = false).
  { apply linked_false. intros q Hin. destruct (ki_fits _ _ _ Hk t q Hin) as (? & ? & _). congruence. }
  rewrite Hl. cbn [negb require mbind res_bind].
  rewrite (proj2 (Z.eqb_neq size 0)) by (unfold stack_fits in Hst; lia).
  fold (fresh_thread old a size p tick). unfold rt_object_init, object_link.
  rewrite bool_decide_eq_true_2 by (simpl; exact Ho2).
  cbn [require mbind res_bind]. unfold on_timers, rt_timer_init.
  rewrite bool_decide_eq_true_2.
  2:{ simpl. intros Hin. destruct (ki_tm_list _ _ _ Hk t Hin) as (tm & _ & _ & Hx).
      destruct (Hx ltac:(done)) as (? & ? & _). congruence. }
  cbn [require mbind res_bind]. eexists. split; [done|]. split_and!; try done.
  - pose proof (kinv_new_thread lo t (fresh_thread old a size p tick) k Hk Hn eq_refl (fresh_thread_ok old a size p tick Hp Hst)) as Hk'.
    revert Hk'. by apply kinv_frame.
  - constructor; simpl.
    + rewrite lookup_insert_ne by done. exact Hr.
    + rewrite lookup_insert_eq. eauto.
Qed.

Lemma thread_init_spec lo t old a size p tick k :
  kinv None lo k → threads k !! t = None → prio_ok p → stack_fits a size →
  (OThread t ∉ object_list (objs k) Object_Class_Thread) →
  (OTimer (TThread t) ∉ object_list (objs k) Object_Class_Timer) →
  ∃ k', rt_thread_init t old a size p tick k = Ok k' ∧ kinv None lo k' ∧
    threads k' = <[t := fresh_thread old a size p tick]> (threads k) ∧
    queues k' = queues k ∧ rt_current_thread k' = rt_current_thread k ∧
    registered t (mk_object 128 0) k'.
Proof.
  intros Hk Hn Hp Hst Ho1 Ho2. unfold rt_thread_init, on_objects.
  rewrite (proj2 (Z.eqb_neq a 0)) by (unfold stack_fits in Hst; lia). cbn [negb rt_assert require mbind res_bind].
  unfold rt_object_init at 1, object_link. rewrite bool_decide_eq_true_2 by exact Ho1.
  cbn [require mbind res_bind]. set (k1 := set_objs _ k).
  destruct (init_body_spec lo t (mk_object 128 0) old a size p tick k1) as (k' & -> & H); try done.
  - by apply kinv_set_objs.
  - simpl. by rewrite lookup_insert_eq.
  - by exists k'.
Qed.

(** [rt_thread_create] outside interrupts when both allocations succeed: as [rt_thread_init], but
    the object is a dynamic one. *)
Lemma thread_create_spec lo t old a size p tick k :
  kinv None lo k → rt_interrupt_nest k = 0 → threads k !! t = None → prio_ok p → stack_fits a size →
  (OThread t ∉ object_list (objs k) Object_Class_Thread) →
  (OTimer (TThread t) ∉ object_list (objs k) Object_Class_Timer) →
  ∃ k', rt_thread_create (Some t) (Some a) old size p tick k = Ok (k', Some t) ∧ kinv None lo k' ∧
    threads k' = <[t := fresh_thread old a size p tick]> (threads k) ∧
    queues k' = queues k ∧ rt_current_thread k' = rt_current_thread k ∧
    registered t (mk_object 0 0) k'.
Proof.
  intros Hk Hi Hn Hp Hst Ho1 Ho2. unfold rt_thread_create, debug_not_in_interrupt. rewrite Hi.
  cbn [Z.eqb rt_assert require mbind res_bind]. unfold rt_object_allocate, object_link. cbn [fmap option_fmap option_map].
  rewrite bool_decide_eq_true_2 by exact Ho1. cbn [require mbind res_bind].
  set (k1 := set_objs _ k).
  destruct (init_body_spec lo t (mk_object 0 0) old a size p tick k1) as (k' & -> & H); try done.
  - by apply kinv_set_objs.
  - simpl. by rewrite lookup_insert_eq.
  - by exists k'.
Qed.

(** ** Every operation keeps the invariant *)
Lemma schedule_kinv x lo k k' : kinv x lo k → rt_schedule k = Ok k' → kinv x lo k'.
Proof.
  intros Hk. unfold rt_schedule. destruct (_ =? 0); [|by intros [= <-]].
  intros E. apply bind_ok_inv in E as ([p t] & _ & E). simpl in E.
  destruct (decide _); [by injection E as <-|].
  apply bind_ok_inv in E as (? & _ & E). apply bind_ok_inv in E as (? & _ & E).
  apply bind_ok_inv in E as (? & _ & [= <-]). by apply kinv_set_current.
Qed.

Lemma scheduler_start_kinv x lo k k' : kinv x lo k → rt_system_scheduler_start k = Ok k' → kinv x lo k'.
Proof.
  intros Hk E. unfold rt_system_scheduler_start in E.
  apply bind_ok_inv in E as ([p t] & _ & [= <-]). by apply kinv_set_current.
Qed.

(** The current thread runs: it is ready. *)
Definition running (k : kernel) (c : tid) : Prop :=
  rt_current_thread k = Some c ∧ ∃ th, threads k !! c = Some th ∧ stat th = THREAD_READY.

Definition started_once (k : kernel) (t : tid) : Prop :=
  ∃ th, threads k !! t = Some th ∧ stat th ≠ THREAD_INIT.

(** The thread and timer operations a program may call, the clean-up of the idle
    thread, and the tick, which runs the timeout functions of the client. *)
Inductive kstep (user_timeout : nat → kernel → res kernel) : kernel → kernel → Prop :=
  | step_init t old a size p tick k k' :
      threads k !! t = None → 0 <= p → stack_fits a size →
      rt_thread_init t old a size p tick k = Ok k' → kstep user_timeout k k'
  | step_create x stack old size p tick k k' r :
      (∀ t, x = Some t → threads k !! t = None) → 0 <= p → (∀ a, stack = Some a → stack_fits a size) →
      rt_thread_create x stack old size p tick k = Ok (k', r) → kstep user_timeout k k'
  | step_startup t k k' : rt_thread_startup t k = Ok k' → kstep user_timeout k k'
  | step_scheduler_start k k' : rt_system_scheduler_start k = Ok k' → kstep user_timeout k k'
  | step_suspend t k k' r : rt_thread_suspend t k = Ok (k', r) → kstep user_timeout k k'
  | step_resume t k k' r : rt_thread_resume t k = Ok (k', r) → kstep user_timeout k k'
  | step_schedule k k' : rt_schedule k = Ok k' → kstep user_timeout k k'
  | step_yield k k' : rt_thread_yield k = Ok k' → kstep user_timeout k k'
  | step_sleep c tick k k' :
      running k c → rt_thread_sleep tick k = Ok k' → kstep user_timeout k k'
  | step_sleep_resume t k k' :
      running k t → rt_thread_sleep_resume t k = Ok k' → kstep user_timeout k k'
  | step_priority t arg k k' :
      rt_thread_control t (CTRL_CHANGE_PRIORITY arg) k = Ok k' → kstep user_timeout k k'
  | step_delete t r k k' :
      started_once k t → registered t r k → rt_thread_delete t k = Ok k' → kstep user_timeout k k'
  | step_detach t r k k' :
      started_once k t → registered t r k → rt_thread_detach t k = Ok k' → kstep user_timeout k k'
  | step_exit c r k k' :
      running k c → registered c r k → rt_thread_exit k = Ok k' → kstep user_timeout k k'
  | step_enter_critical k : kstep user_timeout k (rt_enter_critical k)
  | step_exit_critical k k' : rt_exit_critical k = Ok k' → kstep user_timeout k k'
  | step_irq_enter k : kstep user_timeout k (rt_interrupt_enter k)
  | step_irq_leave k : kstep user_timeout k (rt_interrupt_leave k)
  | step_idle fuel k k' :
      rt_thread_idle_excute (λ _ _ k, Ok k) fuel k = Ok k' → kstep user_timeout k k'
  | step_timer_life k k' : user_timer_life k k' → kstep user_timeout k k'
  | step_timer op k k' : user_timer_do op k = Ok k' → kstep user_timeout k k'
  | step_tick fuel k k' :
      benign user_timeout → rt_tick_increase user_timeout fuel k = Ok k' → kstep user_timeout k k'.

Lemma get_thread_inv t k th : get_thread t k = Ok th → threads k !! t = Some th.
Proof. unfold get_thread. apply of_option_ok. Qed.

(** What every step of the thread layer guarantees. *)
Definition safe (k k' : kernel) : Prop := kinv None 0 k' ∧ wstable every k k'.

Lemma schedule_safe k k1 k' : safe k k1 → rt_schedule k1 = Ok k' → safe k k'.
Proof.
  intros [Hk Hw] E. split; [by eapply schedule_kinv|]. transitivity k1; [done|by apply wstable_schedule].
Qed.

Lemma sleep_safe c tick k k' :
  kinv None 0 k → running k c → rt_thread_sleep tick k = Ok k' → safe k k'.
Proof.
  intros Hk (Hc & th & Ht & Hs). unfold rt_thread_sleep. rewrite Hc. cbn [of_option mbind res_bind].
  pose proof (suspend_spec 0 c th k Hk Ht) as Hsus. rewrite decide_True in Hsus by done.
  destruct Hsus as (k0 & -> & Hk0 & Hul & _). cbn [mbind res_bind].
  assert (Hw : wstable every k k0) by (by eapply wstable_unlinked).
  destruct Hul as [_ Hth _].
  assert (Ht0 : threads k0 !! c = Some (with_stat THREAD_SUSPEND th))
    by (rewrite Hth; apply lookup_insert_eq).
  pose proof (start_thread_timer_spec None 0 c _ tick k0 ltac:(lia) Hk0 Ht0 (λ _, eq_refl)) as Hst.
  destruct (_ <? _); [|by rewrite Hst].
  destruct Hst as (ts & -> & Hk1 & _). apply schedule_safe. split; [done|].
  transitivity k0; [done|by apply wstable_same].
Qed.

Lemma priority_safe t arg k k' :
  kinv None 0 k → rt_thread_control t (CTRL_CHANGE_PRIORITY arg) k = Ok k' → safe k k'.
Proof.
  intros Hk E. assert (Hg : ∃ th, threads k !! t = Some th).
  { unfold rt_thread_control in E. apply bind_ok_inv in E as (th & E & _).
    apply get_thread_inv in E. eauto. }
  destruct Hg as (th & Ht).
  assert (Hp : prio_ok (u8 arg)).
  { unfold rt_thread_control in E. rewrite (get_thread_ok t th k Ht) in E. simpl in E.
    assert (Hm : ∀ m, priority_mask (u8 arg) = Ok m → prio_ok (u8 arg)).
    { unfold priority_mask, prio_index, require. intros m. destruct (_ && _) eqn:Hb; [|done].
      intros _. apply andb_true_iff in Hb as [?%Z.leb_le ?%Z.ltb_lt]. done. }
    destruct (decide _).
    - apply bind_ok_inv in E as (k1 & _ & E). apply bind_ok_inv in E as (th1 & _ & E).
      apply bind_ok_inv in E as (m & Em & _). eauto.
    - apply bind_ok_inv in E as (m & Em & _). eauto. }
  destruct (change_priority_spec 0 t th arg k Hk Ht Hp) as (k1 & E1 & Hk1 & Hb).
  assert (k1 = k') as -> by congruence. split; [done|]. destruct (decide _).
  - destruct Hb as [Hb _]. by eapply wstable_readied.
  - subst k'. by apply (wstable_field every t th).
Qed.

Lemma exit_safe c r k k' :
  kinv None 0 k → running k c → registered c r k → rt_thread_exit k = Ok k' → safe k k'.
Proof.
  intros Hk (Hc & th & Ht & Hs) Hreg.
  destruct (exit_body 0 c th r k) as (k1 & -> & Hk1 & Hcl & _); [done..|]. apply schedule_safe.
  split; [done|by eapply wstable_closed].
Qed.

Lemma sleep_resume_safe t k k' :
  kinv None 0 k → running k t → rt_thread_sleep_resume t k = Ok k' → safe k k'.
Proof.
  intros Hk (_ & th' & Et' & Hs) E. apply bind_ok_inv in E as (th & Et & E).
  apply get_thread_inv in Et. assert (th' = th) as -> by congruence.
  destruct (_ =? _); injection E as <-; [|done]. split; [by apply (kinv_set_thread _ _ _ th)|].
  eapply (wstable_leave every t); [done|done|].
  intros q Hw _. by eapply (ready_not_waiting None 0 t th q k).
Qed.

(** Look at the thread the operation starts from. *)
Ltac start_thread E th Ht :=
  pose proof E as E0; apply bind_ok_inv in E0 as (th & Ht & _); apply get_thread_inv in Ht.

Lemma startup_safe t k k' : kinv None 0 k → rt_thread_startup t k = Ok k' → safe k k'.
Proof.
  intros Hk E. start_thread E th Et. pose proof (startup_spec 0 t th k Hk Et) as H.
  destruct (decide _); [|congruence]. destruct H as (k1 & k2 & E1 & ? & Hr & Hsch).
  assert (k2 = k') as -> by congruence. split; [done|].
  apply (wstable_readied every) in Hr. transitivity k1; [done|].
  destruct (rt_current_thread k); [by apply wstable_scheduled|by subst].
Qed.

Lemma suspend_safe t k k' r : kinv None 0 k → rt_thread_suspend t k = Ok (k', r) → safe k k'.
Proof.
  intros Hk E. start_thread E th Et. pose proof (suspend_spec 0 t th k Hk Et) as H.
  destruct (decide _).
  - destruct H as (k1 & E1 & ? & Hul & _). assert (k1 = k') as -> by congruence.
    split; [done|by eapply wstable_unlinked].
  - assert (k = k') as -> by congruence. done.
Qed.

Lemma resume_safe t k k' r : kinv None 0 k → rt_thread_resume t k = Ok (k', r) → safe k k'.
Proof.
  intros Hk E. start_thread E th Et. pose proof (resume_spec 0 t th k Hk Et) as H.
  destruct (decide _).
  - destruct H as (k1 & E1 & ? & Hr & _). assert (k1 = k') as -> by congruence.
    split; [done|by eapply wstable_readied].
  - assert (k = k') as -> by congruence. done.
Qed.

Lemma yield_safe k k' : kinv None 0 k → rt_thread_yield k = Ok k' → safe k k'.
Proof.
  intros Hk E. pose proof E as E0. apply bind_ok_inv in E as (c & Ec & E). apply of_option_ok in Ec.
  apply bind_ok_inv in E as (th & Et & _). apply get_thread_inv in Et.
  pose proof (yield_spec 0 c th k Hk Ec Et) as H. destruct (_ && _).
  - destruct H as (k1 & k2 & E1 & ? & Hr & Hsch). assert (k2 = k') as -> by congruence.
    split; [done|]. transitivity k1; [by eapply wstable_requeued|by apply wstable_scheduled].
  - assert (k = k') as -> by congruence. done.
Qed.

(** A new thread is in no list. *)
Lemma new_thread_safe t th k k' :
  kinv None 0 k → threads k !! t = None → kinv None 0 k' →
  threads k' = <[t := th]> (threads k) → queues k' = queues k → safe k k'.
Proof.
  intros Hk Hn Hk' Hth Hq. split; [done|]. apply wstable_intro.
  - intros q _ _. unfold q_get. by rewrite Hq.
  - intros u thu. rewrite Hth. intros [[<- <-]|[Hne Hu]]%lookup_insert_Some; [left|right; by exists thu].
    intros q _ _ Hin. unfold q_get in Hin. rewrite Hq in Hin.
    destruct (ki_fits _ _ _ Hk t q Hin) as (? & ? & _). congruence.
Qed.

(** What must have held when [_rt_thread_init] returned. *)
Lemma init_body_inv t old a size p tick k k' :
  0 <= p → _rt_thread_init t old a size p tick k = Ok k' →
  prio_ok p ∧ (OTimer (TThread t) ∉ object_list (objs k) Object_Class_Timer).
Proof.
  intros Hp E. unfold _rt_thread_init in E. apply bind_ok_inv in E as (u2 & E2 & E).
  unfold rt_assert in E2. apply require_ok, Z.ltb_lt in E2.
  apply bind_ok_inv in E as (u3 & _ & E). apply bind_ok_inv in E as (k2 & E & _).
  unfold on_objects, rt_object_init, object_link in E.
  apply bind_ok_inv in E as (o2 & E & _). apply bind_ok_inv in E as (u4 & E & _).
  apply require_ok, bool_decide_eq_true in E. done.
Qed.

Lemma init_safe t old a size p tick k k' :
  kinv None 0 k → threads k !! t = None → 0 <= p → stack_fits a size →
  rt_thread_init t old a size p tick k = Ok k' → safe k k'.
Proof.
  intros Hk Hn Hp Hst E. pose proof E as E0.
  unfold rt_thread_init, on_objects, rt_object_init, object_link in E.
  apply bind_ok_inv in E as (u0 & _ & E). apply bind_ok_inv in E as (k1 & E1 & E). apply bind_ok_inv in E1 as (o1 & E1 & [= <-]).
  apply bind_ok_inv in E1 as (u1 & E1 & [= <-]). apply require_ok, bool_decide_eq_true in E1.
  apply init_body_inv in E as [Hp' Ho2]; [|done].
  destruct (thread_init_spec 0 t old a size p tick k) as (k1 & E2 & Hk1 & Hth & Hq & _); [done..|].
  assert (k1 = k') as -> by congruence. by eapply new_thread_safe.
Qed.

Lemma create_safe x stack old size p tick k k' r :
  kinv None 0 k → (∀ t, x = Some t → threads k !! t = None) → 0 <= p →
  (∀ a, stack = Some a → stack_fits a size) →
  rt_thread_create x stack old size p tick k = Ok (k', r) → safe k k'.
Proof.
  intros Hk Hn Hp Hst E. pose proof E as E0. unfold rt_thread_create in E.
  apply bind_ok_inv in E as (u0 & E0' & E). apply require_ok, Z.eqb_eq in E0'.
  apply bind_ok_inv in E as ([o th] & E1 & E).
  assert (Hobj : ∀ o, safe k (set_objs o k)) by (intros; split; [by apply kinv_set_objs|by apply wstable_same]).
  destruct x as [t|]; [|injection E as <- _; apply Hobj].
  destruct th as [th|]; [|injection E as <- _; apply Hobj].
  destruct stack as [a|].
  - apply bind_ok_inv in E as (k1 & E & _). apply init_body_inv in E as [Hp' Ho2]; [|done].
    cbn [fmap option_fmap option_map] in E1. unfold rt_object_allocate, object_link in E1.
    apply bind_ok_inv in E1 as (o1 & E1 & [= <- _]). apply bind_ok_inv in E1 as (u1 & E1 & [= <-]).
    apply require_ok, bool_decide_eq_true in E1.
    destruct (thread_create_spec 0 t old a size p tick k) as (k2 & E2 & Hk2 & Hth & Hq & _);
      [done|done|by apply Hn|done|by apply Hst|done|done|].
    assert (k2 = k') as -> by congruence. eapply new_thread_safe; [done|by apply Hn|done|done|done].
  - apply bind_ok_inv in E as (k1 & E & [= <- _]). apply bind_ok_inv in E as (o2 & _ & [= <-]).
    split; [by apply kinv_set_objs, kinv_set_objs|by apply wstable_same].
Qed.

Lemma exit_critical_safe k k' : kinv None 0 k → rt_exit_critical k = Ok k' → safe k k'.
Proof.
  intros Hk. unfold rt_exit_critical. destruct (_ <=? 0).
  - apply schedule_safe. split; [by do 2 apply kinv_set_lock|by apply wstable_same].
  - intros [= <-]. split; [by apply kinv_set_lock|by apply wstable_same].
Qed.

Lemma kstep_safe user_timeout k k' : kinv None 0 k → kstep user_timeout k k' → safe k k'.
Proof.
  intros Hk Hs. destruct Hs.
  - by eapply init_safe.
  - by eapply create_safe.
  - by eapply startup_safe.
  - match goal with H : rt_system_scheduler_start _ = _ |- _ => rename H into E end.
    split; [by eapply scheduler_start_kinv|].
    unfold rt_system_scheduler_start in E. apply bind_ok_inv in E as ([p u] & _ & [= <-]).
    by apply wstable_same.
  - by eapply suspend_safe.
  - by eapply resume_safe.
  - by eapply (schedule_safe k k).
  - by eapply yield_safe.
  - by eapply sleep_safe.
  - by eapply sleep_resume_safe.
  - by eapply priority_safe.
  - match goal with H : started_once _ _ |- _ => destruct H as (th & Ht & Hs) end.
    destruct (delete_spec 0 t th r k) as (k1 & E1 & ? & Hc & _); [done..|].
    assert (k1 = k') as -> by congruence. split; [done|by eapply wstable_closed].
  - match goal with H : started_once _ _ |- _ => destruct H as (th & Ht & Hs) end.
    destruct (detach_spec 0 t th r k) as (k1 & E1 & ? & Hc & _); [done..|].
    assert (k1 = k') as -> by congruence. split; [done|by eapply wstable_closed].
  - by eapply exit_safe.
  - split; [by apply kinv_set_lock|by apply wstable_same].
  - by eapply exit_critical_safe.
  - split; [by apply kinv_set_nest|by apply wstable_same].
  - split; [by apply kinv_set_nest|by apply wstable_same].
  - by eapply idle_safe.
  - split; [by eapply user_timer_life_kinv|by apply user_timer_life_wstable].
  - split; [eapply user_timer_do_kinv; [|done..]; lia|by eapply user_timer_do_wstable].
  - by eapply tick_any.
Qed.

Lemma reachable_kinv user_timeout k k' :
  rtc (kstep user_timeout) k k' → kinv None 0 k → kinv None 0 k'.
Proof.
  induction 1 as [|k1 k2 k3 Hs Hr IH]; [done|]. intros Hk. apply IH. by eapply kstep_safe.
Qed.

(** ** A concrete kernel

    The idle thread 0, two threads 1 and 2 of priority 10 and a thread 3 of
    priority 20 that was created over a control block whose [number_mask] was
    that of priority 10, and has not been started. *)
Definition blank_thread (mask : Z) : rt_thread :=
  mk_thread THREAD_INIT 0 0 mask 0 0 0 0 0 None 0 0 0 0.

Definition step_to (m : res kernel) (k : kernel) : kernel :=
  match m with Ok k' => k' | Stop _ => k end.

Lemma step_to_ok m k : is_ok m = true → m = Ok (step_to m k).
Proof. by destruct m. Qed.

Definition demo_boot : kernel := rt_system_scheduler_init boot_kernel.
Definition demo_init (t : tid) (mask p : Z) (k : kernel) : res kernel :=
  rt_thread_init t (blank_thread mask) (4096 * (Z.of_nat t + 1)) 1024 p 5 k.
Definition demo1 := step_to (demo_init 0 0 31 demo_boot) demo_boot.
Definition demo2 := step_to (demo_init 1 0 10 demo1) demo1.
Definition demo3 := step_to (demo_init 2 0 10 demo2) demo2.
Definition demo4 := step_to (demo_init 3 1024 20 demo3) demo3.
Definition demo5 := step_to (rt_thread_startup 0 demo4) demo4.
Definition demo6 := step_to (rt_thread_startup 1 demo5) demo5.
Definition demo7 := step_to (rt_thread_startup 2 demo6) demo6.
Definition demo_kernel := step_to (rt_system_scheduler_start demo7) demo7.

Definition no_user (n : nat) (k : kernel) : res kernel := Ok k.

Lemma demo_init_step t mask p k :
  bool_decide (threads k !! t = None) = true → 0 <= p → Z.of_nat t < 100 →
  is_ok (demo_init t mask p k) = true →
  kstep no_user k (step_to (demo_init t mask p k) k).
Proof.
  intros Hn%bool_decide_eq_true Hp Ht Hok.
  eapply step_init; [exact Hn|exact Hp| |by apply step_to_ok]. unfold stack_fits. lia.
Qed.

Lemma demo_reachable : rtc (kstep no_user) demo_boot demo_kernel.
Proof.
  apply (rtc_l _ _ demo1); [apply demo_init_step; by vm_compute|].
  apply (rtc_l _ _ demo2); [apply demo_init_step; by vm_compute|].
  apply (rtc_l _ _ demo3); [apply demo_init_step; by vm_compute|].
  apply (rtc_l _ _ demo4); [apply demo_init_step; by vm_compute|].
  apply (rtc_l _ _ demo5); [apply (step_startup _ 0), step_to_ok; by vm_compute|].
  apply (rtc_l _ _ demo6); [apply (step_startup _ 1), step_to_ok; by vm_compute|].
  apply (rtc_l _ _ demo7); [apply (step_startup _ 2), step_to_ok; by vm_compute|].
  apply rtc_once, step_scheduler_start, step_to_ok. by vm_compute.
Qed.

Lemma demo_kinv : kinv None 0 demo_kernel.
Proof. exact (reachable_kinv _ _ _ demo_reachable boot_kinv). Qed.

Definition demo_thread (t : tid) : rt_thread := default (blank_thread 0) (threads demo_kernel !! t).

Lemma demo_thread_ok t : (t < 4)%nat → threads demo_kernel !! t = Some (demo_thread t).
Proof. intros Ht. do 4 (destruct t as [|t]; [vm_compute; reflexivity|]). lia. Qed.

Lemma demo_no_timer : rt_timer_list (tsys demo_kernel) = [].
Proof. vm_compute. reflexivity. Qed.

Lemma demo_other_ready : ∃ u thu, u ≠ 1%nat ∧ threads demo_kernel !! u = Some thu ∧ stat thu = THREAD_READY.
Proof.
  exists 2%nat, (demo_thread 2).
  split_and!; [lia|apply demo_thread_ok; lia|vm_compute; reflexivity].
Qed.

Lemma demo_registered t : (t < 4)%nat → registered t (mk_object 128 0) demo_kernel.
Proof.
  intros Ht. do 4 (destruct t as [|t]; [constructor; vm_compute; eauto|]). lia.
Qed.

(** ** Properties *)

(** C2. Every kernel state that the operations on threads and timers, the clean-up
    of the idle thread and the clock tick with the client's timeout functions can reach
    from the boot state is well-formed: each thread sits in at most one queue,
    exactly the ready threads sit in the ready list of their priority, the
    ready bitmap has bit [p] set exactly when the list of priority [p] is not
    empty, only suspended threads have a running timer, and the timer list is
    sorted by expiry.  Two operations are not among the steps: deleting or
    detaching a thread that was never started, which corrupts the bitmap
    ([delete_unstarted_clears_ready_bit]), and [rt_tick_set]. *)
Theorem thread_layer_invariant user_timeout k :
  rtc (kstep user_timeout) (rt_system_scheduler_init boot_kernel) k → kinv None 0 k.
Proof. intros Hr. eapply reachable_kinv; [exact Hr|apply boot_kinv]. Qed.

Lemma thread_layer_invariant_witness : kinv None 0 demo_kernel.
Proof. apply (thread_layer_invariant no_user). exact demo_reachable. Defined.

(** C3. [rt_schedule] on a well-formed kernel with some ready thread never
    stops; with the scheduler unlocked it makes the first thread of the lowest
    numbered non-empty ready list current - no ready thread has a smaller
    priority number - and with the scheduler locked it changes nothing. *)
Theorem rt_schedule_runs_highest lo k u thu :
  kinv None lo k → is_Some (rt_current_thread k) →
  threads k !! u = Some thu → stat thu = THREAD_READY →
  ∃ k', rt_schedule k = Ok k' ∧
    if rt_scheduler_lock_nest k =? 0 then
      ∃ t th, rt_current_thread k' = Some t ∧ threads k' !! t = Some th ∧ stat th = THREAD_READY ∧
        hd_error (q_get k (ready_q th)) = Some t ∧
        ∀ v thv, threads k !! v = Some thv → stat thv = THREAD_READY →
          current_priority th <= current_priority thv
    else k' = k.
Proof.
  intros Hk Hc Hu Hs.
  destruct (schedule_spec lo k Hk) as (k' & E & Hk' & Hsch); [|done|].
  { eapply (group_nonzero lo u (Z.to_nat (current_priority thu))); [done|].
    by apply (ki_ready _ _ _ Hk). }
  exists k'. split; [done|]. destruct Hsch as (Hth & _ & _ & _ & _ & _ & _ & Hcur).
  destruct (_ =? 0); [|done]. destruct Hcur as (t & p & (Hp & (l & Hl) & Hlow) & Ht & _).
  destruct (ki_fits _ _ _ Hk t (QReady p)) as (th & Htt & Hst & Hpr); [rewrite Hl; left|].
  exists t, th. rewrite Hth. split_and!; try done.
  - unfold ready_q. rewrite Hpr, Nat2Z.id, Hl. done.
  - intros v thv Hv Hsv. apply Z.nlt_ge. intros Hlt.
    pose proof (ki_ready _ _ _ Hk v thv Hv Hsv ltac:(done)) as Hin.
    destruct (ki_thread _ _ _ Hk v thv Hv) as [[? _] _ _ _].
    rewrite Hlow in Hin by lia. by apply elem_of_nil in Hin.
Qed.

Lemma rt_schedule_runs_highest_witness :
  ∃ k', rt_schedule demo_kernel = Ok k' ∧ rt_current_thread k' = Some 1%nat.
Proof.
  destruct (rt_schedule_runs_highest 0 demo_kernel 2 (demo_thread 2) demo_kinv) as (k' & E & H).
  - vm_compute. eauto.
  - apply demo_thread_ok. lia.
  - vm_compute. reflexivity.
  - exists k'. split; [exact E|]. 
    assert (Hok : is_ok (rt_schedule demo_kernel) = true ∧
      rt_current_thread (step_to (rt_schedule demo_kernel) demo_kernel) = Some 1%nat)
      by (split; vm_compute; reflexivity).
    rewrite E in Hok. apply Hok.
Defined.

(** C22. A running thread that calls [rt_thread_sleep(n)] with [n] below half the
    tick range gives up the processor at once and is woken by clock tick number
    [max n 1], no sooner and no later, with error [-RT_ETIMEOUT], which the end
    of [rt_thread_sleep] turns into [RT_EOK]. *)
Theorem rt_thread_sleep_wakes user_timeout fuel n c th k :
  kinv None 0 k → thread_timers_only k → running k c → threads k !! c = Some th →
  (∃ u thu, u ≠ c ∧ threads k !! u = Some thu ∧ stat thu = THREAD_READY) →
  0 <= n < TICK_HALF → (S (length (rt_timer_list (tsys k))) < fuel)%nat →
  ∃ k1, rt_thread_sleep n k = Ok k1 ∧
    ∀ m, Z.of_nat m <= Z.max 1 n → ∃ k2 th2, ticks user_timeout fuel m k1 = Ok k2 ∧
      threads k2 !! c = Some th2 ∧
      if Z.of_nat m <? Z.max 1 n then stat th2 = THREAD_SUSPEND
      else stat th2 = THREAD_READY ∧
        rt_thread_sleep_resume c k2 = Ok (set_thread c (with_error RT_EOK th2) k2).
Proof.
  intros Hk Hto (Hc & th' & Ht' & Hs) Ht Ho Hn Hfu. assert (th' = th) as -> by congruence.
  assert (Hu : u32 n = n) by (rewrite tick_half_val in Hn; word).
  destruct (sleep_spec 0 c th n k) as (k0 & k1 & E & Hk1 & [[Henv Hth Hq] Hin Hrem Hsub] & Hsch);
    [lia|done..|rewrite Hu; lia|done|].
  exists k1. split; [done|]. intros m Hm.
  assert (Hc0 : cur_ok k0).
  { apply (cur_ok_threads k); [by rewrite (se_current _ _ Henv)|exists c; eauto|].
    intros u. rewrite Hth, lookup_insert_is_Some'. tauto. }
  pose proof (cur_ok_scheduled 0 k0 k1 Hk1 Hsch Hc0) as Hc1.
  destruct Hsch as (Sth & _ & Sts & _).
  assert (Ht1 : threads k1 !! c = Some (with_stat THREAD_SUSPEND th)).
  { rewrite Sth, Hth. apply lookup_insert_eq. }
  destruct (ticks_wake user_timeout fuel m k1 c (with_stat THREAD_SUSPEND th) Hk1 Hc1) as (k2 & th2 & E2 & Hk2 & Ht2 & Hb).
  - intros x. rewrite Sts. intros Hx. eapply elem_of_submseteq in Hx; [|exact Hsub].
    apply elem_of_cons in Hx as [->|Hx]; [eauto|]. by apply Hto.
  - rewrite Sts. apply submseteq_length in Hsub. simpl in Hsub. lia.
  - exact Ht1.
  - by rewrite Sts.
  - rewrite Sts, Hrem, Hu. lia.
  - exists k2, th2. split_and!; [done..|]. rewrite Sts, Hrem, Hu in Hb.
    destruct (_ <? _); [done|]. destruct Hb as [Hs2 He2]. split; [done|].
    unfold rt_thread_sleep_resume. rewrite (get_thread_ok c th2) by done.
    cbn [mbind res_bind]. by rewrite He2.
Qed.

Lemma rt_thread_sleep_wakes_witness :
  ∃ k1 k2 th2, rt_thread_sleep 3 demo_kernel = Ok k1 ∧ ticks no_user 2 3 k1 = Ok k2 ∧
    threads k2 !! 1%nat = Some th2 ∧ stat th2 = THREAD_READY.
Proof.
  destruct (rt_thread_sleep_wakes no_user 2 3 1 (demo_thread 1) demo_kernel demo_kinv)
    as (k1 & E & H).
  - intros x. rewrite demo_no_timer. intros Hx. destruct (not_elem_of_nil x Hx).
  - split; [vm_compute; reflexivity|]. exists (demo_thread 1).
    split; [apply demo_thread_ok; lia|vm_compute; reflexivity].
  - apply demo_thread_ok. lia.
  - exact demo_other_ready.
  - rewrite tick_half_val. lia.
  - rewrite demo_no_timer. simpl. lia.
  - destruct (H 3%nat ltac:(lia)) as (k2 & th2 & E2 & Ht2 & Hs2). simpl in Hs2.
    exists k1, k2, th2. split_and!; [exact E|exact E2|exact Ht2|apply Hs2].
Defined.

(** C34. One clock tick over thread timers never stops and keeps the invariant.  The
    current thread has one tick less of its slice, or a whole slice again when that was the
    last ([sliced]); exactly the threads whose timer is due at this tick become ready with
    error [-RT_ETIMEOUT], every other thread keeps its state and error, and a timer
    still running is one tick closer, also when the tick counter wraps ([ticked]).
    In the queues: at the end of its slice a ready thread that is not alone goes
    behind the others of its priority, the threads that woke are taken out of
    where they waited and follow in their ready lists in order of expiry, and
    nothing else moves.  When the slice rotated or a thread woke, and the scheduler is
    not locked, the processor goes to the first thread of the best priority;
    otherwise the current thread stays. *)
Theorem rt_tick_increase_spec user_timeout fuel k c thc :
  kinv None 0 k → rt_current_thread k = Some c → threads k !! c = Some thc → thread_timers_only k →
  (length (rt_timer_list (tsys k)) < fuel)%nat →
  ∃ k', rt_tick_increase user_timeout fuel k = Ok k' ∧ kinv None 0 k' ∧
    rt_tick (tsys k') = u32 (rt_tick (tsys k) + 1) ∧
    (∀ t th, threads k !! t = Some th → ticked k k' t th) ∧ sliced k k' c thc.
Proof.
  intros Hk Hc Hth Hto Hf.
  destruct (tick_spec user_timeout fuel k Hk) as (k' & ? & ? & _ & _ & _ & ? & _ & ? & Hs);
    [by exists c; eauto|done|done|].
  exists k'. split_and!; try done. by apply Hs.
Qed.

Lemma rt_tick_increase_spec_witness :
  ∃ k' th, rt_tick_increase no_user 1 demo_kernel = Ok k' ∧ kinv None 0 k' ∧
    threads k' !! 1%nat = Some th ∧ remaining_tick th = 4.
Proof.
  destruct (rt_tick_increase_spec no_user 1 demo_kernel 1 (demo_thread 1) demo_kinv) as (k' & E & Hk & _ & _ & [Hl _ _]).
  - vm_compute. reflexivity.
  - apply demo_thread_ok. lia.
  - intros x. rewrite demo_no_timer. intros Hx. destruct (not_elem_of_nil x Hx).
  - rewrite demo_no_timer. simpl. lia.
  - destruct (Hl 1%nat (demo_thread 1) (demo_thread_ok 1 ltac:(lia))) as (th & Ht & Hr & _).
    exists k', th. split; [exact E|]. split; [exact Hk|]. split; [exact Ht|]. rewrite Hr. vm_compute. reflexivity.
Defined.

(** [rt_thread_suspend] followed by [rt_thread_resume] succeeds on a ready
    thread and puts it at the back of its ready list, leaving every other queue
    as it was; on a thread in any other state [rt_thread_suspend] returns
    [-RT_ERROR] and changes nothing. *)
Theorem suspend_resume_roundtrip lo t th k :
  kinv None lo k → threads k !! t = Some th →
  if decide (stat th = THREAD_READY) then
    ∃ k1 k2, rt_thread_suspend t k = Ok (k1, RT_EOK) ∧ rt_thread_resume t k1 = Ok (k2, RT_EOK) ∧
      kinv None lo k2 ∧ threads k2 = threads k ∧
      ∀ q, q_get k2 q = if decide (q = ready_q th) then without t (q_get k q) ++ [t] else q_get k q
  else rt_thread_suspend t k = Ok (k, - RT_ERROR).
Proof.
  intros Hk Ht. pose proof (suspend_spec lo t th k Hk Ht) as Hs.
  destruct (decide (stat th = THREAD_READY)) as [Hr|]; [|done].
  destruct Hs as (k1 & E1 & Hk1 & [He1 Hth1 Hq1] & _).
  assert (Ht1 : threads k1 !! t = Some (with_stat THREAD_SUSPEND th)) by (rewrite Hth1; apply lookup_insert_eq).
  pose proof (resume_spec lo t _ k1 Hk1 Ht1) as Hres. rewrite decide_True in Hres by done.
  destruct Hres as (k2 & E2 & Hk2 & [He2 Hth2 Hq2 _] & _).
  exists k1, k2. split_and!; try done.
  - rewrite Hth2, Hth1, insert_insert_eq. apply insert_id. rewrite Ht. f_equal.
    destruct th. simpl in *. by subst.
  - intros q. rewrite Hq2, Hq1. change (ready_q (with_stat THREAD_SUSPEND th)) with (ready_q th).
    rewrite (filter_ne_id t (without t _)) by (rewrite list_elem_of_filter; tauto).
    case_decide as Hd; [done|]. apply filter_ne_id. intros Hin. apply Hd.
    apply (ki_disj _ _ _ Hk t); [done|]. by apply (ki_ready _ _ _ Hk).
Qed.

Lemma suspend_resume_roundtrip_witness :
  ∃ k1 k2, rt_thread_suspend 1 demo_kernel = Ok (k1, RT_EOK) ∧
    rt_thread_resume 1 k1 = Ok (k2, RT_EOK) ∧ q_get k2 (QReady 10) = [2%nat; 1%nat].
Proof.
  pose proof (suspend_resume_roundtrip 0 1 (demo_thread 1) demo_kernel demo_kinv
    (demo_thread_ok 1 ltac:(lia))) as H.
  rewrite decide_True in H by (vm_compute; reflexivity).
  destruct H as (k1 & k2 & E1 & E2 & _ & _ & Hq). exists k1, k2.
  split; [exact E1|split; [exact E2|]]. rewrite Hq. vm_compute. reflexivity.
Defined.

(** [rt_thread_exit] of the running thread: its state is [CLOSE], it is in
    no ready or wait queue, its timer is stopped, another ready thread runs;
    it waits for the idle thread's clean-up unless it is a static object
    without a cleanup function. *)
Theorem rt_thread_exit_spec lo t th r k :
  kinv None lo k → running k t → threads k !! t = Some th → registered t r k →
  rt_scheduler_lock_nest k = 0 →
  (∃ u thu, u ≠ t ∧ threads k !! u = Some thu ∧ stat thu = THREAD_READY) →
  ∃ k', rt_thread_exit k = Ok k' ∧ kinv None lo k' ∧
    threads k' !! t = Some (with_stat THREAD_CLOSE th) ∧ (TThread t ∉ rt_timer_list (tsys k')) ∧
    (∀ q, q ≠ QDefunct → t ∉ q_get k' q) ∧
    (∃ u, rt_current_thread k' = Some u ∧ u ≠ t) ∧
    (t ∈ q_get k' QDefunct ↔ ¬ (is_static r = true ∧ cleanup th = None)).
Proof.
  intros Hk (Hc & th' & Ht' & Hs) Ht Hreg Hlk Ho. assert (th' = th) as -> by congruence.
  destruct (exit_spec lo t th r k) as (k1 & k' & E & Hk' & [Hth Htl Hcu Hlk1 Hq] & Hsch & Hd); [done..|].
  destruct Hsch as (Sth & Sq & Sts & _ & _ & Sl & _ & Hcur).
  assert (Hth' : threads k' !! t = Some (with_stat THREAD_CLOSE th))
    by (rewrite Sth, Hth; apply lookup_insert_eq).
  assert (Hnq : ∀ q, q ≠ QDefunct → t ∉ q_get k' q).
  { intros q Hne Hin. destruct (ki_fits _ _ _ Hk' t q Hin) as (th1 & Ht1 & Hf).
    rewrite Hth' in Ht1. injection Ht1 as <-. destruct q; simpl in Hf; destruct_and?; done. }
  exists k'. split_and!; try done.
  - by rewrite Sts.
  - rewrite Hlk1, Hlk in Hcur. destruct Hcur as (u & p & (_ & (l & Hl) & _) & Hu & _).
    exists u. split; [done|]. intros ->. apply (Hnq (QReady p)); [done|].
    unfold q_get in *. rewrite Sq, Hl. left.
  - replace (q_get k' QDefunct) with (q_get k1 QDefunct) by (unfold q_get; by rewrite Sq).
    rewrite Hd. destruct (is_static r); simpl.
    + destruct (bool_decide_reflect (cleanup th = None)) as [Hcl|Hcl].
      * rewrite list_elem_of_filter. naive_solver.
      * split; [naive_solver|]. intros _. left.
    + split; [naive_solver|]. intros _. left.
Qed.

Lemma rt_thread_exit_spec_witness :
  ∃ k', rt_thread_exit demo_kernel = Ok k' ∧ kinv None 0 k' ∧ 1%nat ∉ q_get k' QDefunct.
Proof.
  destruct (rt_thread_exit_spec 0 1 (demo_thread 1) (mk_object 128 0) demo_kernel demo_kinv)
    as (k' & E & Hk & _ & _ & _ & _ & Hd).
  - split; [vm_compute; reflexivity|]. exists (demo_thread 1).
    split; [apply demo_thread_ok; lia|vm_compute; reflexivity].
  - apply demo_thread_ok. lia.
  - apply demo_registered. lia.
  - vm_compute. reflexivity.
  - exact demo_other_ready.
  - exists k'. split_and!; [exact E|exact Hk|]. rewrite Hd. intros Hn. apply Hn.
    split; vm_compute; reflexivity.
Defined.

(** One call of [rt_thread_idle_excute] empties the defunct list when every
    dead thread came from the heap: it terminates, all of them are released and
    no other thread is touched.  (A dead static thread ends the call early.) *)
Theorem idle_excute_releases_all run_cleanup lo fuel k :
  (∀ c t k, run_cleanup c t k = Ok k) →
  kinv None lo k → rt_interrupt_nest k = 0 →
  (∀ t, t ∈ q_get k QDefunct → dynamic_object t k) →
  (length (q_get k QDefunct) <= fuel)%nat →
  ∃ k', rt_thread_idle_excute run_cleanup fuel k = Ok k' ∧ kinv None lo k' ∧
    q_get k' QDefunct = [] ∧
    ∀ t, threads k' !! t = if decide (t ∈ q_get k QDefunct) then None else threads k !! t.
Proof. intros Hq Hk Hn Hd Hf. by apply (idle_all run_cleanup Hq lo (q_get k QDefunct)). Qed.

(** The demo kernel with thread 1 turned into a heap object and deleted. *)
Definition make_dynamic (t : tid) (k : kernel) : kernel :=
  set_objs (mk_objs (<[OThread t := mk_object 0 0]> (objects (objs k))) (object_list (objs k))) k.

Lemma make_dynamic_threads t k : threads (make_dynamic t k) = threads k.
Proof. reflexivity. Qed.
Lemma make_dynamic_kinv x lo t k : kinv x lo k → kinv x lo (make_dynamic t k).
Proof. apply kinv_set_objs. Qed.

Definition demo_dynamic : kernel := make_dynamic 1 demo_kernel.
Definition demo_dead : kernel := step_to (rt_thread_delete 1 demo_dynamic) demo_dynamic.

Lemma demo_dead_kinv : kinv None 0 demo_dead.
Proof.
  destruct (delete_spec 0 1 (demo_thread 1) (mk_object 0 0) demo_dynamic) as (k' & E & Hk & _).
  - apply make_dynamic_kinv, demo_kinv.
  - unfold demo_dynamic. rewrite make_dynamic_threads. apply demo_thread_ok. lia.
  - vm_compute. discriminate.
  - constructor; vm_compute; eauto.
  - unfold demo_dead. by rewrite E.
Qed.

Lemma idle_excute_releases_all_witness :
  ∃ k', rt_thread_idle_excute (λ _ _ k, Ok k) 1 demo_dead = Ok k' ∧ q_get k' QDefunct = [] ∧
    threads k' !! 1%nat = None.
Proof.
  assert (Hq : q_get demo_dead QDefunct = [1%nat]) by (vm_compute; reflexivity).
  destruct (idle_excute_releases_all (λ _ _ k, Ok k) 0 1 demo_dead (λ _ _ _, eq_refl) demo_dead_kinv)
    as (k' & E & _ & Hd & Hth).
  - vm_compute. reflexivity.
  - intros t. rewrite Hq. intros ->%list_elem_of_singleton. exists (mk_object 0 0).
    split; vm_compute; reflexivity.
  - rewrite Hq. simpl. lia.
  - exists k'. split_and!; [exact E|exact Hd|]. rewrite Hth, Hq. reflexivity.
Defined.

(** Deleting (or detaching) a thread that was never started corrupts the
    ready bitmap: its [number_mask] has not been set by [rt_thread_startup], so
    when the ready list of its priority is empty [rt_schedule_remove_thread]
    clears the bits of whatever the control block held before.  A priority [p]
    with such a bit keeps its ready threads, and the scheduler no longer sees
    them. *)
Theorem delete_unstarted_clears_ready_bit lo t th r k p :
  kinv None lo k → threads k !! t = Some th → stat th = THREAD_INIT → registered t r k →
  q_get k (ready_q th) = [] → (p < 32)%nat → Z.testbit (number_mask th) (Z.of_nat p) = true →
  ∃ k', rt_thread_delete t k = Ok k' ∧ q_get k' (QReady p) = q_get k (QReady p) ∧
    Z.testbit (rt_thread_ready_priority_group k') (Z.of_nat p) = false.
Proof.
  intros Hk Ht Hs Hreg Hq Hp Hbit.
  assert (Hu : ∀ q, t ∉ q_get k q) by (intros q; by eapply init_unlinked).
  destruct (ki_thread _ _ _ Hk t th Ht) as [Hpr _ _ _].
  set (k1 := set_group (Z.land (rt_thread_ready_priority_group k) (u32 (Z.lnot (number_mask th))))
    (rt_list_remove t k)).
  assert (E1 : rt_schedule_remove_thread t k = Ok k1).
  { unfold rt_schedule_remove_thread. rewrite (get_thread_ok t th) by done. cbn [mbind res_bind].
    rewrite prio_index_ok by done. cbn [mbind res_bind]. unfold rt_list_isempty.
    rewrite q_get_remove. fold (ready_q th). by rewrite Hq. }
  assert (Hk1 : kinv (Some t) lo (rt_list_remove t k)) by (eapply kinv_unlink; eauto; congruence).
  unfold rt_thread_delete. rewrite E1. cbn [mbind res_bind].
  destruct Hreg as [Hr1 [r2 Hr2]]. destruct (ki_tm _ _ _ Hk t th Ht) as (tm & Htm & _).
  assert (E2 : detach_thread_timer t k1 = Ok (set_objs (object_unlink (OTimer (TThread t)) (objs k))
      (set_tsys (_rt_timer_remove (TThread t) (tsys k)) k1))).
  { unfold detach_thread_timer, on_timers, on_objects, rt_timer_detach, get_timer.
    cbn -[lookup]. rewrite Htm. cbn -[lookup].
    unfold rt_object_detach, get_object. cbn -[lookup]. by rewrite Hr2. }
  rewrite E2. cbn [mbind res_bind]. set (k2 := set_objs _ _).
  rewrite (get_thread_ok t th) by done. cbn [mbind res_bind].
  unfold rt_list_insert_after.
  rewrite (proj2 (linked_false t (set_thread t (with_stat THREAD_CLOSE th) k2)))
    by (intros q; apply (not_linked_remove t k)).
  cbn [negb require mbind res_bind]. eexists. split; [done|]. split.
  - rewrite q_get_set, decide_False by done.
    etransitivity; [apply (q_get_remove t k)|]. by apply filter_ne_id.
  - simpl. rewrite Z.land_spec. apply andb_false_iff. right. unfold u32.
    change 4294967296 with (2 ^ 32). rewrite Z.mod_pow2_bits_low by lia.
    rewrite Z.lnot_spec, Hbit by lia. done.
Qed.

(** Threads 1 and 2 are ready at priority 10 and would run; after the deletion
    the scheduler picks the idle thread. *)
Lemma delete_unstarted_clears_ready_bit_witness :
  ∃ k', rt_thread_delete 3 demo_kernel = Ok k' ∧ q_get k' (QReady 10) = [1%nat; 2%nat] ∧
    Z.testbit (rt_thread_ready_priority_group k') 10 = false.
Proof.
  destruct (delete_unstarted_clears_ready_bit 0 3 (demo_thread 3) (mk_object 128 0) demo_kernel 10
    demo_kinv) as (k' & E & Hq & Hb).
  - apply demo_thread_ok. lia.
  - vm_compute. reflexivity.
  - apply demo_registered. lia.
  - vm_compute. reflexivity.
  - lia.
  - vm_compute. reflexivity.
  - exists k'. split_and!; [exact E| |exact Hb]. rewrite Hq. vm_compute. reflexivity.
Defined.
