(* ===== verification/Startup.v ===== *)
(** * Start-up: [applications/startup.c], [rt_application_init] of [application.c],
    [rt_thread_idle_init] of [src/idle.c]

    From the boot state to the first thread.  The set-up of the hardware before
    it (cache, vectors, board) is left out; what the heap gives a thread that is
    created is an argument. *)
From S2P Require Import Prelude Timer Heap KObject Kernel KernelInv ThreadOps ThreadProps.
Local Open Scope Z_scope.

Definition RT_HW_HEAP_END : Z := 0x80000000 + 32 * 1024 * 1024.
Definition IDLE_THREAD_STACK_SIZE : Z := 1024.

(** The two allocations of [rt_thread_create], and what the memory of the
    thread object held. *)
Record allocation := mk_alloc { al_thread : option tid; al_stack : option Z; al_old : rt_thread }.

(** [tid = rt_thread_create(...); if (tid != RT_NULL) rt_thread_startup(tid);] *)
Definition create_and_start (a : allocation) (size priority tick : Z) (k : kernel) : res (kernel * bool) :=
  '(k, t) ← rt_thread_create (al_thread a) (al_stack a) (al_old a) size priority tick k;
  match t with
  | Some t => k ← rt_thread_startup t k; Ok (k, true)
  | None => Ok (k, false)
  end.

(** The threads [init], [example] and [example2]. *)
Definition rt_application_init (a a1 a2 : allocation) (k : kernel) : res (kernel * Z) :=
  '(k, ok) ← create_and_start a 4096 (RT_THREAD_PRIORITY_MAX / 3) 20 k;
  if negb ok then Ok (k, -1)
  else
    '(k, ok) ← create_and_start a1 4096 16 20 k;
    if negb ok then Ok (k, -1)
    else
      '(k, ok) ← create_and_start a2 4096 17 20 k;
      if negb ok then Ok (k, -1) else Ok (k, 0).

(** [idle], [old], [rt_thread_stack]: the static thread, its memory, its stack. *)
Definition rt_thread_idle_init (idle : tid) (old : rt_thread) (rt_thread_stack : Z) (k : kernel) : res kernel :=
  k ← rt_thread_init idle old rt_thread_stack IDLE_THREAD_STACK_SIZE (RT_THREAD_PRIORITY_MAX - 1) 32 k;
  rt_thread_startup idle k.

(** One list: there are no soft timers. *)
Definition rt_system_timer_init (k : kernel) : kernel := set_tsys (set_timer_list [] (tsys k)) k.

(** [bss_end]: the address of [__bss_end]. *)
Definition rtthread_startup (bss_end : Z) (idle : tid) (old : rt_thread) (stack : Z) (a a1 a2 : allocation)
    (k : kernel) : res (option heap * kernel) :=
  heap ← rt_system_heap_init (rt_interrupt_nest k) bss_end RT_HW_HEAP_END;
  let k := rt_system_scheduler_init k in
  let k := rt_system_timer_init k in
  k ← rt_thread_idle_init idle old stack k;
  '(k, _) ← rt_application_init a a1 a2 k;
  k ← rt_system_scheduler_start k;
  Ok (heap, k).

(** ** The kernel while it starts

    [l]: the threads started so far, with their priorities, in order; [xs]: the
    threads that have been initialised. *)
Definition of_prio (p : nat) (l : list (tid * Z)) : list tid := (filter (λ x, Z.to_nat x.2 = p) l).*1.

Record booting (l : list (tid * Z)) (xs : list tid) (k : kernel) : Prop := {
  bo_inv : kinv None 0 k;
  bo_current : rt_current_thread k = None;
  bo_nest : rt_interrupt_nest k = 0;
  bo_ready p : q_get k (QReady p) = of_prio p l;
  bo_known t : is_Some (threads k !! t) → t ∈ xs;
  bo_objects t : OThread t ∈ object_list (objs k) Object_Class_Thread → t ∈ xs;
  bo_timers t : OTimer (TThread t) ∈ object_list (objs k) Object_Class_Timer → t ∈ xs }.

Lemma boot_booting : booting [] [] (rt_system_timer_init (rt_system_scheduler_init boot_kernel)).
Proof.
  assert (E : rt_system_timer_init (rt_system_scheduler_init boot_kernel) = rt_system_scheduler_init boot_kernel) by done.
  rewrite E. split; [apply boot_kinv | done | done | | | |].
  - intros p. unfold of_prio. simpl.
    pose proof (ki_ready _ _ _ boot_kinv) as _. change (rt_system_scheduler_init boot_kernel) with demo_boot.
    destruct (q_get demo_boot (QReady p)) as [| t l] eqn:Hq; [done |].
    destruct (ki_fits _ _ _ boot_kinv t (QReady p)) as (th & Ht & _); [| by vm_compute in Ht].
    change (rt_system_scheduler_init boot_kernel) with demo_boot. rewrite Hq. left.
  - intros t [th Ht]. by vm_compute in Ht.
  - intros t Hin. by apply elem_of_nil in Hin.
  - intros t Hin. by apply elem_of_nil in Hin.
Qed.

(** What [_rt_thread_init] adds to the containers. *)
Lemma init_body_objs t old a size p tick k k' :
  _rt_thread_init t old a size p tick k = Ok k' →
  rt_interrupt_nest k' = rt_interrupt_nest k ∧
  object_list (objs k') Object_Class_Thread = object_list (objs k) Object_Class_Thread ∧
  object_list (objs k') Object_Class_Timer = OTimer (TThread t) :: object_list (objs k) Object_Class_Timer.
Proof.
  intros E. unfold _rt_thread_init in E. apply bind_ok_inv in E as (? & _ & E).
  apply bind_ok_inv in E as (? & _ & E). apply bind_ok_inv in E as (k1 & E1 & E).
  unfold on_timers in E. apply bind_ok_inv in E as (ts & _ & [= <-]).
  unfold on_objects, rt_object_init, object_link in E1. apply bind_ok_inv in E1 as (o & E1 & [= <-]).
  by apply bind_ok_inv in E1 as (? & _ & [= <-]).
Qed.

(** A thread that was initialised, however, and is started. *)
Lemma booting_start l xs t old a size p tick k k1 :
  booting l xs k → (t ∉ xs) → prio_ok p → kinv None 0 k1 →
  threads k1 = <[t := fresh_thread old a size p tick]> (threads k) →
  queues k1 = queues k → rt_current_thread k1 = rt_current_thread k → rt_interrupt_nest k1 = 0 →
  (∀ u, OThread u ∈ object_list (objs k1) Object_Class_Thread → u = t ∨ u ∈ xs) →
  (∀ u, OTimer (TThread u) ∈ object_list (objs k1) Object_Class_Timer → u = t ∨ u ∈ xs) →
  ∃ k', rt_thread_startup t k1 = Ok k' ∧ booting (l ++ [(t, p)]) (t :: xs) k'.
Proof.
  intros [Hk Hc Hn Hr Hkn Ho Htm] Ht Hp Hk1 Hth Hq Hc1 Hn1 Ho1 Htm1.
  pose proof (startup_spec 0 t (fresh_thread old a size p tick) k1 Hk1) as Hs.
  rewrite Hth, lookup_insert_eq in Hs. specialize (Hs eq_refl).
  rewrite decide_True in Hs by done. destruct Hs as (k2 & k' & E & Hk' & [He Hth2 Hq2 Hg] & Hcur).
  rewrite Hc1, Hc in Hcur. subst k'. exists k2. split; [done |]. split.
  - done.
  - by rewrite (se_current _ _ He), Hc1.
  - by rewrite (se_nest _ _ He).
  - intros q. rewrite Hq2. assert (Hqq : q_get k1 (QReady q) = of_prio q l) by (unfold q_get; rewrite Hq; apply Hr).
    assert (Hno : t ∉ of_prio q l).
    { rewrite <- Hqq. intros Hin. destruct (ki_fits _ _ _ Hk t (QReady q)) as (th & Hth1 & _).
      - by rewrite Hr, <- Hqq.
      - apply Ht, Hkn. by exists th. }
    rewrite Hqq, (filter_ne_id t) by done. unfold of_prio in *. rewrite filter_app, fmap_app.
    unfold ready_q, started_thread. cbn [with_stat with_priority current_priority init_priority fresh_thread].
    rewrite filter_cons, filter_nil. cbn [snd].
    destruct (decide (QReady q = QReady (Z.to_nat p))) as [[= ->] | Hne].
    + by rewrite decide_True.
    + rewrite decide_False by congruence. by rewrite app_nil_r.
  - intros u. rewrite Hth2, Hth, insert_insert_eq, lookup_insert_is_Some'. rewrite elem_of_cons.
    intros [-> | Hu]; [by left | right; by apply Hkn].
  - intros u. rewrite (se_objs _ _ He), elem_of_cons. apply Ho1.
  - intros u. rewrite (se_objs _ _ He), elem_of_cons. apply Htm1.
Qed.

(** The thread an allocation makes: both parts are needed. *)
Definition created (a : allocation) : option tid :=
  match al_thread a, al_stack a with Some t, Some _ => Some t | _, _ => None end.

(** Ids that were not used before, and a stack with room for the first frame. *)
Record allocation_ok (xs : list tid) (size : Z) (a : allocation) : Prop := {
  al_fresh t : al_thread a = Some t → t ∉ xs;
  al_fits s : al_stack a = Some s → stack_fits s size }.

Lemma booting_objs l xs k o :
  booting l xs k →
  (∀ u, OThread u ∈ object_list o Object_Class_Thread → OThread u ∈ object_list (objs k) Object_Class_Thread) →
  (∀ u, OTimer (TThread u) ∈ object_list o Object_Class_Timer →
     OTimer (TThread u) ∈ object_list (objs k) Object_Class_Timer) →
  booting l xs (set_objs o k).
Proof.
  intros [Hk Hc Hn Hr Hkn Ho Htm] H1 H2. split; try done.
  - by apply kinv_set_objs.
  - intros u Hu. by apply Ho, H1.
  - intros u Hu. by apply Htm, H2.
Qed.

Lemma booting_new l xs k t : booting l xs k → t ∉ xs →
  threads k !! t = None ∧ (OThread t ∉ object_list (objs k) Object_Class_Thread) ∧
  (OTimer (TThread t) ∉ object_list (objs k) Object_Class_Timer).
Proof.
  intros B Ht. split_and!.
  - apply eq_None_not_Some. intros H. by apply Ht, (bo_known _ _ _ B).
  - intros H. by apply Ht, (bo_objects _ _ _ B).
  - intros H. by apply Ht, (bo_timers _ _ _ B).
Qed.

Lemma create_and_start_spec l xs a size p tick k :
  booting l xs k → prio_ok p → allocation_ok xs size a →
  ∃ k', create_and_start a size p tick k = Ok (k', bool_decide (is_Some (created a))) ∧
    match created a with Some t => booting (l ++ [(t, p)]) (t :: xs) k' | None => booting l xs k' end.
Proof.
  intros B Hp [Hf Hs]. destruct a as [[t|] st old].
  2:{ eexists. unfold create_and_start, rt_thread_create, debug_not_in_interrupt. rewrite (bo_nest _ _ _ B).
      split; [reflexivity |]. by apply booting_objs. }
  cbn [al_thread al_stack] in *. specialize (Hf t eq_refl). destruct (booting_new _ _ _ _ B Hf) as (Hn & Ho1 & Ho2).
  unfold create_and_start. cbn [al_thread al_stack al_old created]. destruct st as [s|].
  - destruct (thread_create_spec 0 t old s size p tick k) as (k1 & E & Hk1 & Hth & Hq & Hc & _); [apply B | apply B | done | done | by apply Hs | done.. |].
    rewrite E. cbn [mbind res_bind]. pose proof E as E1. unfold rt_thread_create, rt_object_allocate, object_link in E1.
    apply bind_ok_inv in E1 as (u0 & _ & E1). cbn [fmap option_fmap option_map] in E1. rewrite bool_decide_eq_true_2 in E1 by exact Ho1. cbn [require mbind res_bind] in E1.
    apply bind_ok_inv in E1 as (k2 & E1 & [= ->]). apply init_body_objs in E1 as (N1 & O1 & O2).
    destruct (booting_start l xs t old s size p tick k k1 B Hf Hp Hk1 Hth Hq Hc) as (k' & E2 & B').
    + rewrite N1. apply B.
    + intros u. rewrite O1. cbn. intros [[= ->] | Hu]%elem_of_cons; [by left | right; by apply (bo_objects _ _ _ B)].
    + intros u. rewrite O2. cbn. intros [[= ->] | Hu]%elem_of_cons; [by left | right; by apply (bo_timers _ _ _ B)].
    + rewrite E2. cbn [mbind res_bind]. by exists k'.
  - unfold rt_thread_create, debug_not_in_interrupt. rewrite (bo_nest _ _ _ B). cbn [Z.eqb rt_assert require mbind res_bind].
    unfold rt_object_allocate, object_link. cbn [fmap option_fmap option_map].
    rewrite bool_decide_eq_true_2 by exact Ho1. cbn [require mbind res_bind].
    unfold on_objects, rt_object_delete, get_object. simpl. rewrite lookup_insert_eq. simpl.
    eexists. split; [done |]. refine (booting_objs l xs k _ B _ _); cbn; intros u [Hne Hu]%list_elem_of_filter; [| done].
    by apply elem_of_cons in Hu as [|].
Qed.

Lemma idle_init_spec l xs idle old stack k :
  booting l xs k → idle ∉ xs → stack_fits stack IDLE_THREAD_STACK_SIZE →
  ∃ k', rt_thread_idle_init idle old stack k = Ok k' ∧ booting (l ++ [(idle, 31)]) (idle :: xs) k'.
Proof.
  intros B Ht Hst. destruct (booting_new _ _ _ _ B Ht) as (Hn & Ho1 & Ho2).
  destruct (thread_init_spec 0 idle old stack IDLE_THREAD_STACK_SIZE 31 32 k) as (k1 & E & Hk1 & Hth & Hq & Hc & _);
    [apply B | done.. |].
  unfold rt_thread_idle_init. change (RT_THREAD_PRIORITY_MAX - 1) with 31. rewrite E. cbn [mbind res_bind].
  unfold rt_thread_init, on_objects, rt_object_init, object_link in E.
  rewrite bool_decide_eq_true_2 in E by exact Ho1. cbn [require mbind res_bind] in E.
  apply bind_ok_inv in E as (u0 & _ & E). apply init_body_objs in E as (N1 & O1 & O2).
  apply (booting_start l xs idle old stack IDLE_THREAD_STACK_SIZE 31 32 k k1); try done.
  - rewrite N1. apply B.
  - intros u. rewrite O1. cbn. intros [[= ->] | Hu]%elem_of_cons; [by left | right; by apply (bo_objects _ _ _ B)].
  - intros u. rewrite O2. cbn. intros [[= ->] | Hu]%elem_of_cons; [by left | right; by apply (bo_timers _ _ _ B)].
Qed.

(** The threads [rt_application_init] starts: it gives up at the first that
    cannot be made. *)
Definition started_apps (a a1 a2 : allocation) : list (tid * Z) :=
  match created a with
  | None => []
  | Some t => (t, 10) ::
      match created a1 with
      | None => []
      | Some t1 => (t1, 16) :: match created a2 with None => [] | Some t2 => [(t2, 17)] end
      end
  end.

Lemma application_init_spec l xs a a1 a2 k :
  booting l xs k → allocation_ok xs 4096 a → 
  allocation_ok (option_list (al_thread a) ++ xs) 4096 a1 →
  allocation_ok (option_list (al_thread a1) ++ option_list (al_thread a) ++ xs) 4096 a2 →
  ∃ k' xs', rt_application_init a a1 a2 k =
      Ok (k', if bool_decide (length (started_apps a a1 a2) = 3%nat) then 0 else -1) ∧
    booting (l ++ started_apps a a1 a2) xs' k'.
Proof.
  intros B Ha Ha1 Ha2. unfold rt_application_init, started_apps. change (RT_THREAD_PRIORITY_MAX / 3) with 10.
  destruct (create_and_start_spec l xs a 4096 10 20 k B) as (k1 & -> & B1); [done | done |].
  cbn [mbind res_bind]. destruct (created a) as [t|] eqn:Et; cbn; [| rewrite app_nil_r; by exists k1, xs].
  assert (Ea : al_thread a = Some t).
  { unfold created in Et. destruct (al_thread a); [| done]. by destruct (al_stack a); simplify_eq. }
  rewrite Ea in *. cbn in Ha1, Ha2.
  destruct (create_and_start_spec _ _ a1 4096 16 20 k1 B1) as (k2 & -> & B2); [done | done |].
  cbn [mbind res_bind]. destruct (created a1) as [t1|] eqn:Et1; cbn; [| by exists k2, (t :: xs)].
  assert (Ea1 : al_thread a1 = Some t1).
  { unfold created in Et1. destruct (al_thread a1); [| done]. by destruct (al_stack a1); simplify_eq. }
  rewrite Ea1 in *. cbn in Ha2.
  destruct (create_and_start_spec _ _ a2 4096 17 20 k2 B2) as (k3 & -> & B3); [done | done |].
  cbn [mbind res_bind]. rewrite <- !app_assoc in B2. simpl in B2.
  destruct (created a2) as [t2|]; cbn; rewrite <- ?app_assoc in B3; eexists k3, _; (split; [done | exact B3]).
Qed.

(** The thread that gets the processor first. *)
Definition first_thread (idle : tid) (l : list (tid * Z)) : tid := match l with [] => idle | (t, _) :: _ => t end.

Lemma of_prio_empty p l : (∀ x, x ∈ l → Z.to_nat x.2 ≠ p) → of_prio p l = [].
Proof.
  unfold of_prio. induction l as [| x l IH]; intros H; [done |]. rewrite filter_cons, decide_False by (apply H; by left).
  apply IH. intros y Hy. apply H. by right.
Qed.

Lemma started_apps_cases a a1 a2 : started_apps a a1 a2 = [] ∨
  ∃ t l, started_apps a a1 a2 = (t, 10) :: l ∧ ∀ x, x ∈ l → 16 <= x.2 <= 17.
Proof.
  unfold started_apps. destruct (created a) as [t|]; [right | by left]. exists t. eexists. split; [done |].
  intros x. destruct (created a1), (created a2); rewrite ?elem_of_cons, ?elem_of_nil; naive_solver lia.
Qed.

Lemma first_runs idle a a1 a2 xs k :
  booting ((idle, 31) :: started_apps a a1 a2) xs k →
  ∃ k', rt_system_scheduler_start k = Ok k' ∧ kinv None 0 k' ∧ rt_interrupt_nest k' = 0 ∧
    rt_current_thread k' = Some (first_thread idle (started_apps a a1 a2)) ∧
    ∀ p, q_get k' (QReady p) = of_prio p ((idle, 31) :: started_apps a a1 a2).
Proof.
  intros B. pose proof (bo_inv _ _ _ B) as Hk.
  assert (Hi : idle ∈ q_get k (QReady 31)).
  { rewrite (bo_ready _ _ _ B). unfold of_prio. rewrite filter_cons, decide_True by done. left. }
  destruct (highest_ready_spec 0 k Hk (group_nonzero 0 idle 31 k Hk Hi)) as (p & t & l & E & Hp & Hq & Hlow).
  assert (Ht : t = first_thread idle (started_apps a a1 a2)).
  { rewrite (bo_ready _ _ _ B) in Hq. destruct (started_apps_cases a a1 a2) as [Es | (u & l' & Es & Hl)].
    - rewrite Es in *. unfold of_prio in Hq. rewrite filter_cons, filter_nil in Hq.
      destruct (decide _); [| done]. by injection Hq as <- _.
    - assert (H10 : of_prio 10 ((idle, 31) :: started_apps a a1 a2) = [u]).
      { rewrite Es. unfold of_prio. rewrite filter_cons, decide_False, filter_cons, decide_True by done. cbn. f_equal.
        apply of_prio_empty. intros x Hx. specialize (Hl x Hx). lia. }
      destruct (lt_eq_lt_dec p 10) as [[Hlt | ->] | Hgt].
      + rewrite of_prio_empty in Hq; [done |]. rewrite Es. intros x. rewrite !elem_of_cons.
        intros [-> | [-> | Hx]]; cbn; [lia.. |]. specialize (Hl x Hx). lia.
      + rewrite H10 in Hq. rewrite Es. by injection Hq as <- _.
      + specialize (Hlow 10%nat Hgt). by rewrite (bo_ready _ _ _ B), H10 in Hlow. }
  unfold rt_system_scheduler_start. rewrite E. cbn [mbind res_bind]. eexists. split; [done |].
  rewrite <- Ht. split_and!; [by apply kinv_set_current | apply B | done | apply B].
Qed.

Lemma startup_from k bss_end idle old stack a a1 a2 :
  rt_interrupt_nest k = 0 → booting [] [] (rt_system_timer_init (rt_system_scheduler_init k)) →
  stack_fits stack IDLE_THREAD_STACK_SIZE → allocation_ok [idle] 4096 a →
  allocation_ok (option_list (al_thread a) ++ [idle]) 4096 a1 →
  allocation_ok (option_list (al_thread a1) ++ option_list (al_thread a) ++ [idle]) 4096 a2 →
  ∃ h k', rtthread_startup bss_end idle old stack a a1 a2 k = Ok (h, k') ∧
    rt_system_heap_init 0 bss_end RT_HW_HEAP_END = Ok h ∧ kinv None 0 k' ∧
    rt_current_thread k' = Some (first_thread idle (started_apps a a1 a2)) ∧
    ∀ p, q_get k' (QReady p) = of_prio p ((idle, 31) :: started_apps a a1 a2).
Proof.
  intros Hn B Hs Ha Ha1 Ha2. unfold rtthread_startup. rewrite Hn.
  assert (Hh : ∃ h, rt_system_heap_init 0 bss_end RT_HW_HEAP_END = Ok h).
  { unfold rt_system_heap_init. cbn [not_in_interrupt rt_assert require Z.eqb mbind res_bind]. destruct (_ && _); eauto. }
  destruct Hh as [h Eh]. rewrite Eh. cbn [mbind res_bind].
  destruct (idle_init_spec [] [] idle old stack _ B) as (k1 & -> & B1); [by apply not_elem_of_nil | done |].
  cbn [mbind res_bind].
  destruct (application_init_spec _ _ a a1 a2 k1 B1) as (k2 & xs & -> & B2); [done.. |].
  cbn [mbind res_bind]. destruct (first_runs idle a a1 a2 xs k2 B2) as (k3 & -> & H3 & _ & H4 & H5).
  cbn [mbind res_bind]. exists h, k3. by split_and!.
Qed.

(** C21. The system starts.  From the state the loader leaves, whatever the heap
    gives the three application threads (stacks with room for a frame, control
    blocks not used twice), [rtthread_startup] reaches its end: the kernel is
    well-formed, the ready lists hold the idle thread at priority 31 and the
    application's threads up to the first that could not be made, and the
    processor goes to the [init] thread, or to the idle thread when even that
    one was not made. *)
Theorem rtthread_startup_runs bss_end idle old stack a a1 a2 :
  stack_fits stack IDLE_THREAD_STACK_SIZE →
  allocation_ok [idle] 4096 a →
  allocation_ok (option_list (al_thread a) ++ [idle]) 4096 a1 →
  allocation_ok (option_list (al_thread a1) ++ option_list (al_thread a) ++ [idle]) 4096 a2 →
  ∃ h k, rtthread_startup bss_end idle old stack a a1 a2 boot_kernel = Ok (h, k) ∧
    rt_system_heap_init 0 bss_end RT_HW_HEAP_END = Ok h ∧ kinv None 0 k ∧
    rt_current_thread k = Some (first_thread idle (started_apps a a1 a2)) ∧
    ∀ p, q_get k (QReady p) = of_prio p ((idle, 31) :: started_apps a a1 a2).
Proof. apply startup_from; [reflexivity | apply boot_booting]. Qed.

Lemma rtthread_startup_runs_witness :
  let a := mk_alloc (Some 1%nat) (Some 0x10000) (blank_thread 0) in
  let a1 := mk_alloc (Some 2%nat) (Some 0x20000) (blank_thread 0) in
  let a2 := mk_alloc (Some 3%nat) None (blank_thread 0) in
  ∃ h k, rtthread_startup 0x80100000 0%nat (blank_thread 0) 0x80000000 a a1 a2 boot_kernel = Ok (h, k) ∧
    kinv None 0 k ∧ rt_current_thread k = Some 1%nat ∧ q_get k (QReady 16) = [2%nat].
Proof.
  intros a a1 a2.
  destruct (rtthread_startup_runs 0x80100000 0%nat (blank_thread 0) 0x80000000 a a1 a2) as (h & k & E & _ & Hk & Hc & Hq).
  - done.
  - split; [intros t [= <-]; set_solver | by intros s [= <-]].
  - split; [intros t [= <-]; simpl; set_solver | by intros s [= <-]].
  - split; [intros t [= <-]; simpl; set_solver | by intros s [=]].
  - exists h, k. split_and!; [exact E | exact Hk | exact Hc | exact (Hq 16%nat)].
Defined.
