(* ===== verification/Init.v ===== *)
(** * Component initialisation: [src/components.c]

    [INIT_EXPORT(fn, level)] puts a pointer to [fn] into the section
    [.rti_fn.<level>]; the linker script [ls1c_ram.lds] collects these sections
    sorted by name, and the two walks go over what lies between the markers.
    The functions are entries of a table; what they do to the system is a
    parameter of the type of its states. *)
From stdpp Require Import strings list.
From S2P Require Import Prelude.
Local Open Scope nat_scope.

(** One entry of the section: [const init_fn_t __rt_init_<fn_name>]. *)
Record init_desc (S : Type) := mk_desc { fn_name : string; level : string; init_fn : S → S * Z }.
Arguments mk_desc {S}.
Arguments fn_name {S}.
Arguments level {S}.
Arguments init_fn {S}.

(** The levels the macros of [rtdef.h] and [components.c] use, in the order of
    their names. *)
Definition levels : list string :=
  ["0"; "0.end"; "1"; "1.end"; "2"; "3"; "4"; "5"; "6"; "6.end"]%string.

Example levels_alphabetical : Sorted (λ a b, String.ltb a b = true) levels.
Proof. repeat constructor. Qed.

Definition rank (l : string) : nat :=
  match list_find (λ x, x = l) levels with Some (i, _) => i | None => length levels end.

Section Init.
Context {S : Type}.
Implicit Types (t l : list (init_desc S)) (d : init_desc S) (s : S).

(** The four functions of [components.c]: they only return 0. *)
Definition rti_fn (name lv : string) : init_desc S := mk_desc name lv (λ s, (s, 0%Z)).
Definition rti_start := rti_fn "rti_start" "0".
Definition rti_board_start := rti_fn "rti_board_start" "0.end".
Definition rti_board_end := rti_fn "rti_board_end" "1.end".
Definition rti_end := rti_fn "rti_end" "6.end".

(** The address of [__rt_init_<name>], in entries from the start of the table. *)
Definition symbol_at (name : string) t : option nat := fst <$> list_find (λ d, fn_name d = name) t.

(** The walk from [first] up to [last], each function called once, with the
    trace of the calls; the results are dropped. *)
Definition run_between (first last : nat) t s : S * list string :=
  foldl (λ p d, ((init_fn d p.1).1, p.2 ++ [fn_name d])) (s, []) (take (last - first) (drop first t)).

Definition rt_components_board_init t s : option (S * list string) :=
  first ← symbol_at "rti_board_start" t;
  last ← symbol_at "rti_board_end" t;
  Some (run_between first last t s).

Definition rt_components_init t s : option (S * list string) :=
  first ← symbol_at "rti_board_end" t;
  last ← symbol_at "rti_end" t;
  Some (run_between first last t s).

(** What the linker makes of the exports [ex], in link order: sorted by level,
    the symbols of the table distinct. *)
Definition by_level d1 d2 : Prop := rank (level d1) ≤ rank (level d2).

Record linked ex t : Prop := {
  li_perm : t ≡ₚ rti_start :: rti_board_start :: rti_board_end :: rti_end :: ex;
  li_sorted : Sorted by_level t;
  li_names : NoDup (fn_name <$> t) }.

(** A user's export goes through [INIT_BOARD_EXPORT] to [INIT_APP_EXPORT]. *)
Definition user_level d : Prop := level d ∈ ["1"; "2"; "3"; "4"; "5"; "6"]%string.

(** Calls in table order. *)
Definition calls l s : S * list string :=
  foldl (λ p d, ((init_fn d p.1).1, p.2 ++ [fn_name d])) (s, []) l.

#[local] Instance by_level_trans : Transitive by_level.
Proof. intros a b c. unfold by_level. lia. Qed.

Lemma find_app t1 d t2 : NoDup (fn_name <$> (t1 ++ d :: t2)) →
  symbol_at (fn_name d) (t1 ++ d :: t2) = Some (length t1).
Proof.
  intros Hnd. unfold symbol_at. rewrite fmap_Some. exists (length t1, d). split; [|done].
  apply list_find_Some. split_and!; [by rewrite list_lookup_middle|done|].
  intros j y Hy Hj. rewrite lookup_app_l in Hy by done. intros He.
  rewrite fmap_app, fmap_cons, NoDup_app in Hnd. destruct Hnd as (_ & Hd & _).
  apply (Hd (fn_name y)); [|rewrite He; left]. apply list_elem_of_fmap. exists y. split; [done|].
  by eapply list_elem_of_lookup_2.
Qed.

Lemma filter_keeps (P : init_desc S → Prop) `{!∀ x, Decision (P x)} t : Forall P t → filter P t = t.
Proof. induction 1; [done|]. rewrite filter_cons, decide_True by done. by f_equal. Qed.

Lemma filter_drops (P : init_desc S → Prop) `{!∀ x, Decision (P x)} t : Forall (λ x, ¬ P x) t → filter P t = [].
Proof. induction 1; [done|]. by rewrite filter_cons, decide_False. Qed.

Lemma filter_on (P Q : init_desc S → Prop) `{!∀ x, Decision (P x), !∀ x, Decision (Q x)} t :
  Forall (λ x, P x ↔ Q x) t → filter P t = filter Q t.
Proof.
  induction 1 as [|x t Hx _ IH]; [done|]. rewrite !filter_cons, IH. destruct (decide (P x)), (decide (Q x)); tauto.
Qed.

(** Around its only entry of a level, a sorted table is cut in two. *)
Lemma sorted_cut t d : Sorted by_level t → d ∈ t →
  (∀ d', d' ∈ t → rank (level d') = rank (level d) → d' = d) → NoDup t →
  t = filter (λ x, rank (level x) < rank (level d)) t ++ d :: filter (λ x, rank (level d) < rank (level x)) t.
Proof.
  intros Hs Hin Hu Hnd. apply Sorted_StronglySorted in Hs; [|apply _].
  induction Hs as [|a t Hs IH Ha]; [by apply elem_of_nil in Hin|].
  apply NoDup_cons in Hnd as [Hna Hnd]. rewrite !filter_cons.
  apply elem_of_cons in Hin as [->|Hin].
  - rewrite !decide_False by lia. assert (Hgt : Forall (λ x, rank (level a) < rank (level x)) t).
    { rewrite Forall_forall in *. intros x Hx. specialize (Ha x Hx). unfold by_level in Ha.
      destruct (decide (rank (level x) = rank (level a))) as [E|]; [|lia].
      specialize (Hu x ltac:(by right) E). by subst. }
    assert (E1 : filter (λ x, rank (level x) < rank (level a)) t = []).
    { apply filter_drops. eapply Forall_impl; [exact Hgt|]. simpl. lia. }
    assert (E2 : filter (λ x, rank (level a) < rank (level x)) t = t).
    { by apply filter_keeps. }
    by rewrite E1, E2.
  - assert (a ≠ d) by (intros ->; done).
    rewrite Forall_forall in Ha. specialize (Ha d Hin). unfold by_level in Ha.
    assert (rank (level a) ≠ rank (level d)) by (intros E; specialize (Hu a ltac:(left) E); done).
    rewrite decide_True, decide_False by lia. simpl. f_equal. apply IH; [done| |done].
    intros d' Hd' E. apply Hu; [by right|done].
Qed.

(** The only entry of its level. *)
Definition alone t d : Prop := d ∈ t ∧ ∀ d', d' ∈ t → rank (level d') = rank (level d) → d' = d.

Lemma names_nodup t : NoDup (fn_name <$> t) → NoDup t.
Proof. apply NoDup_fmap_1. Qed.

Lemma symbol_of t d : Sorted by_level t → NoDup (fn_name <$> t) → alone t d →
  symbol_at (fn_name d) t = Some (length (filter (λ x, rank (level x) < rank (level d)) t)).
Proof.
  intros Hs Hn [Hin Hu]. pose proof (sorted_cut t d Hs Hin Hu (names_nodup t Hn)) as E.
  rewrite E in Hn |- * at 1. by apply find_app.
Qed.

(** From one marker to another: the first marker and what lies between. *)
Lemma run_markers t a b s :
  Sorted by_level t → NoDup (fn_name <$> t) → alone t a → alone t b → rank (level a) < rank (level b) →
  ∃ i j, symbol_at (fn_name a) t = Some i ∧ symbol_at (fn_name b) t = Some j ∧
    run_between i j t s = calls (a :: filter (λ x, rank (level a) < rank (level x) < rank (level b)) t) s.
Proof.
  intros Hs Hn Ha Hb Hab. eexists _, _. split_and!; [by apply symbol_of|by apply symbol_of|].
  unfold run_between, calls. f_equal.
  pose proof (sorted_cut t a Hs (proj1 Ha) (proj2 Ha) (names_nodup t Hn)) as Ea.
  pose proof (sorted_cut t b Hs (proj1 Hb) (proj2 Hb) (names_nodup t Hn)) as Eb.
  set (A := filter (λ x, rank (level x) < rank (level a)) t) in *.
  set (A' := filter (λ x, rank (level a) < rank (level x)) t) in *.
  set (B := filter (λ x, rank (level x) < rank (level b)) t) in *.
  assert (EB : B = A ++ a :: filter (λ x, rank (level a) < rank (level x) < rank (level b)) t).
  { unfold B at 1. rewrite Ea at 1. rewrite filter_app, filter_cons, decide_True by done. f_equal.
    - apply filter_keeps, Forall_forall. intros x [Hx _]%list_elem_of_filter. lia.
    - f_equal. unfold A'. rewrite list_filter_filter. apply list_filter_iff. intros x. lia. }
  rewrite take_drop_commute. rewrite EB, length_app at 1.
  replace (length A + _) with (length B) by (rewrite EB, length_app; simpl; lia).
  rewrite Eb at 1. rewrite take_app_length, EB. by rewrite drop_app_length.
Qed.

Lemma linked_cases ex t d : linked ex t → Forall user_level ex → d ∈ t →
  d ∈ [rti_start; rti_board_start; rti_board_end; rti_end] ∨ d ∈ ex ∧ user_level d.
Proof.
  intros [Hp _ _] Hu Hd. rewrite Hp in Hd. change (d ∈ [rti_start; rti_board_start; rti_board_end; rti_end] ++ ex) in Hd.
  apply elem_of_app in Hd as [|Hd]; [by left|]. right. rewrite Forall_forall in Hu. auto.
Qed.

Lemma linked_alone ex t m : linked ex t → Forall user_level ex →
  m ∈ [rti_board_start; rti_board_end; rti_end] → alone t m.
Proof.
  intros Hl Hu Hm. split.
  - rewrite (li_perm _ _ Hl). rewrite !elem_of_cons. rewrite !elem_of_cons, elem_of_nil in Hm. tauto.
  - intros d Hd E. assert (Hr : rank (level m) = 1 ∨ rank (level m) = 3 ∨ rank (level m) = 9).
    { rewrite !elem_of_cons, elem_of_nil in Hm. destruct Hm as [->|[->|[->|[]]]]; compute; auto. }
    destruct (linked_cases ex t d Hl Hu Hd) as [Hc|[_ Hc]].
    + rewrite !elem_of_cons, elem_of_nil in Hm. rewrite !elem_of_cons, elem_of_nil in Hc.
      by destruct Hm as [->|[->|[->|[]]]], Hc as [->|[->|[->|[->|[]]]]].
    + unfold user_level in Hc. rewrite !elem_of_cons, elem_of_nil in Hc. exfalso.
      destruct Hc as [Hc|[Hc|[Hc|[Hc|[Hc|[Hc|[]]]]]]]; rewrite Hc in E; rewrite <- E in Hr; compute in Hr; lia.
Qed.

(** [INIT_BOARD_EXPORT] is level 1, the other macros are 2 to 6. *)
Definition board_level d : Prop := level d = "1"%string.

Lemma user_rank d : user_level d → (rank (level d) = 2 ↔ board_level d) ∧ (rank (level d) ≠ 2 → 3 < rank (level d) < 9).
Proof.
  unfold user_level, board_level. rewrite !elem_of_cons, elem_of_nil.
  intros [->|[->|[->|[->|[->|[->|[]]]]]]]; (split; [split; (done || (compute; lia)) | compute; lia]).
Qed.

Lemma by_level_filter (P : init_desc S → Prop) `{!∀ x, Decision (P x)} t : Sorted by_level t → Sorted by_level (filter P t).
Proof.
  intros Hs%Sorted_StronglySorted; [|apply _]. apply StronglySorted_Sorted.
  induction Hs as [|x t Hs IH Hx]; [constructor|]. rewrite filter_cons. case_decide; [|done].
  constructor; [done|]. apply Forall_forall. intros y [_ Hy]%list_elem_of_filter. rewrite Forall_forall in Hx. auto.
Qed.

(** C37. Start-up of the components: whatever functions the files export and
    wherever they are, the board walk calls those of level 1 (after its marker),
    the later walk all the others, each exactly once, in the order of the levels,
    and nothing else of the table. *)
Theorem components_init_runs_all ex t s :
  linked ex t → Forall user_level ex →
  ∃ lb lc, rt_components_board_init t s = Some (calls (rti_board_start :: lb) s) ∧
    rt_components_init t s = Some (calls (rti_board_end :: lc) s) ∧
    lb ≡ₚ filter board_level ex ∧ lc ≡ₚ filter (λ d, ¬ board_level d) ex ∧
    Sorted by_level lc.
Proof.
  intros Hl Hu. pose proof Hl as [Hp Hs Hn].
  assert (Hal : ∀ m, m ∈ [rti_board_start; rti_board_end; rti_end] → alone t m) by (intros; by eapply linked_alone).
  destruct (run_markers t rti_board_start rti_board_end s Hs Hn) as (i & j & Ei & Ej & Er);
    [apply Hal; left | apply Hal; right; left | compute; lia |].
  destruct (run_markers t rti_board_end rti_end s Hs Hn) as (j' & k & Ej' & Ek & Er');
    [apply Hal; right; left | apply Hal; right; right; left | compute; lia |].
  eexists _, _. split_and!.
  - unfold rt_components_board_init. cbn [fn_name rti_board_start rti_board_end rti_fn] in Ei, Ej.
    rewrite Ei. simpl. rewrite Ej. simpl. by rewrite Er.
  - unfold rt_components_init. cbn [fn_name rti_end rti_board_end rti_fn] in Ej', Ek.
    rewrite Ej'. simpl. rewrite Ek. simpl. by rewrite Er'.
  - rewrite Hp, !filter_cons, !decide_False by (compute; lia). rewrite (filter_on _ board_level ex); [done|].
    eapply Forall_impl; [exact Hu|]. intros d [H1 H2]%user_rank. change (1 < rank (level d) < 3 ↔ board_level d). rewrite <- H1. lia.
  - rewrite Hp, !filter_cons, !decide_False by (compute; lia). rewrite (filter_on _ (λ d, ¬ board_level d) ex); [done|].
    eapply Forall_impl; [exact Hu|]. intros d [H1 H2]%user_rank. change (3 < rank (level d) < 9 ↔ ¬ board_level d). rewrite <- H1. lia.
  - by apply by_level_filter.
Qed.
End Init.

(** The shell of this configuration, and a function of the board for the first walk. *)
Definition demo_finsh : init_desc nat := mk_desc "finsh_system_init" "3" (λ s, (s + 10, 0%Z)).
Definition demo_board_fn : init_desc nat := mk_desc "rt_hw_pin_init" "1" (λ s, (s + 1, 0%Z)).
Definition demo_table : list (init_desc nat) :=
  [rti_start; rti_board_start; demo_board_fn; rti_board_end; demo_finsh; rti_end].

Lemma components_init_runs_all_witness :
  rt_components_init demo_table 5 = Some (15, ["rti_board_end"; "finsh_system_init"]%string) ∧
  ∃ lb, rt_components_board_init demo_table 5 = Some (calls (rti_board_start :: lb) 5) ∧ lb ≡ₚ [demo_board_fn].
Proof.
  split; [reflexivity|].
  destruct (components_init_runs_all [demo_finsh; demo_board_fn] demo_table 5) as (lb & lc & E & _ & H & _).
  - split.
    + unfold demo_table. solve_Permutation.
    + repeat constructor; compute; lia.
    + apply (bool_decide_unpack _). vm_compute. exact I.
  - repeat constructor; unfold user_level; simpl; set_solver.
  - exists lb. split; [exact E | exact H].
Defined.
