(* ===== verification/Ipc.v ===== *)
(** * Waiting lists of IPC objects: the common part of [src/ipc.c]

    [rt_ipc_list_suspend], [rt_ipc_list_resume], [rt_ipc_list_resume_all], and
    what the objects built on them need to know: the effect on the queues and
    that the thread layer never adds a thread to a waiting list. *)
From S2P Require Import Prelude Timer KObject Kernel KernelInv ThreadOps Tick ThreadProps.
Local Open Scope Z_scope.

Definition RT_IPC_FLAG_FIFO : Z := 0.
Definition RT_IPC_FLAG_PRIO : Z := 1.

(** [rt_list_init] of the waiting list. *)
Definition rt_ipc_object_init (q : qid) (k : kernel) : kernel := q_set q [] k.

(** The search loop of the [RT_IPC_FLAG_PRIO] case. *)
Fixpoint wait_insert (t : tid) (p : Z) (k : kernel) (l : list tid) : res (list tid) :=
  match l with
  | [] => Ok [t]
  | s :: l' =>
      sthread ← get_thread s k;
      if p <? current_priority sthread then Ok (t :: s :: l')
      else cons s <$> wait_insert t p k l'
  end.

Definition rt_ipc_list_suspend (q : qid) (t : tid) (flag : Z) (k : kernel) : res kernel :=
  '(k, _) ← rt_thread_suspend t k;
  if flag =? RT_IPC_FLAG_FIFO then rt_list_insert_before q t k
  else if flag =? RT_IPC_FLAG_PRIO then
    th ← get_thread t k;
    l ← wait_insert t (current_priority th) k (q_get k q);
    _ ← require ListCorrupt (negb (linked t k));
    Ok (q_set q l k)
  else Ok k.

Definition rt_ipc_list_resume (q : qid) (k : kernel) : res kernel :=
  t ← rt_list_first q k;
  '(k, _) ← rt_thread_resume t k;
  Ok k.

Fixpoint rt_ipc_list_resume_all (fuel : nat) (q : qid) (k : kernel) : res kernel :=
  if rt_list_isempty q k then Ok k
  else match fuel with
    | O => Stop OutOfFuel
    | S fuel =>
        t ← rt_list_first q k;
        th ← get_thread t k;
        let k := set_thread t (with_error (- RT_ERROR) th) k in
        '(k, _) ← rt_thread_resume t k;
        rt_ipc_list_resume_all fuel q k
    end.

(** One round per waiting thread is enough. *)
Definition resume_all (q : qid) (k : kernel) : res kernel :=
  rt_ipc_list_resume_all (length (q_get k q)) q k.

(** The lines every blocking operation has before its [rt_schedule]. *)
Definition suspend_on (q : qid) (t : tid) (flag time : Z) (k : kernel) : res kernel :=
  k ← rt_ipc_list_suspend q t flag k;
  if 0 <? time then start_thread_timer t time k else Ok k.

(** The end of a send or receive: wake the first thread of a list, if any. *)
Definition wake_one (q : qid) (k : kernel) : res kernel :=
  if negb (rt_list_isempty q k) then
    k ← rt_ipc_list_resume q k;
    rt_schedule k
  else Ok k.

(** How a call that may block ends. *)
Inductive call_result (A : Type) :=
  | Returned (r : A)
  | Waiting (timeout tick_delta : Z).
Arguments Returned {A} r.
Arguments Waiting {A} timeout tick_delta.

(** [timeout -= rt_tick_get() - tick_delta], cut off at zero. *)
Definition remaining_timeout (timeout tick_delta now : Z) : Z :=
  if 0 <? timeout then
    let timeout := s32 (timeout - u32 (now - tick_delta)) in
    if timeout <? 0 then 0 else timeout
  else timeout.

(** ** Theory *)
Definition prio_of (k : kernel) (t : tid) : Z :=
  match threads k !! t with Some th => current_priority th | None => 0 end.

(** Where a thread of priority [p] goes: before the first thread with a larger
    number. *)
Fixpoint prio_place (prio : tid → Z) (t : tid) (p : Z) (l : list tid) : list tid :=
  match l with
  | [] => [t]
  | s :: l' => if p <? prio s then t :: s :: l' else s :: prio_place prio t p l'
  end.

(** The place a waiting thread takes: behind all, in front of all (memory pools),
    by its priority. *)
Definition IN_FRONT : Z := 2.
Definition wait_place (k : kernel) (flag : Z) (t : tid) (l : list tid) : list tid :=
  if flag =? RT_IPC_FLAG_FIFO then l ++ [t] else if flag =? IN_FRONT then t :: l
  else prio_place (prio_of k) t (prio_of k t) l.

Definition flag_ok (flag : Z) : Prop := flag = RT_IPC_FLAG_FIFO ∨ flag = RT_IPC_FLAG_PRIO.

Lemma prio_place_perm prio t p l : prio_place prio t p l ≡ₚ t :: l.
Proof.
  induction l as [|s l IH]; [done|]. simpl. destruct (_ <? _); [done|].
  rewrite IH. apply Permutation_swap.
Qed.

Lemma wait_place_perm k flag t l : wait_place k flag t l ≡ₚ t :: l.
Proof.
  unfold wait_place. destruct (_ =? _); [by rewrite Permutation_app_comm|].
  destruct (_ =? _); [done|apply prio_place_perm].
Qed.

Lemma prio_place_split prio t p l :
  ∃ l1 l2, l = l1 ++ l2 ∧ prio_place prio t p l = l1 ++ t :: l2 ∧
    (∀ s, s ∈ l1 → prio s <= p) ∧ (∀ s, hd_error l2 = Some s → p < prio s).
Proof.
  induction l as [|s l (l1 & l2 & -> & E & H1 & H2)].
  - exists [], []. split_and!; [done|done|intros ? []%elem_of_nil|done].
  - simpl. destruct (Z.ltb_spec p (prio s)).
    + exists [], (s :: l1 ++ l2). split_and!; [done|done|intros ? []%elem_of_nil|]. by intros ? [= ->].
    + exists (s :: l1), l2. rewrite E. split_and!; [done|done| |done].
      intros u [->|Hu]%elem_of_cons; [lia|auto].
Qed.

Lemma wait_insert_ok t p k l :
  (∀ s, s ∈ l → is_Some (threads k !! s)) →
  wait_insert t p k l = Ok (prio_place (prio_of k) t p l).
Proof.
  induction l as [|s l IH]; intros Hex; [done|]. simpl.
  destruct (Hex s ltac:(left)) as [sth Hs]. rewrite (get_thread_ok s sth) by done.
  cbn [mbind res_bind]. unfold prio_of at 1. rewrite Hs.
  destruct (_ <? _); [done|]. rewrite IH; [done|]. intros u Hu. apply Hex. by right.
Qed.

Lemma prio_place_ext f g t p l :
  (∀ s, s ∈ l → f s = g s) → prio_place f t p l = prio_place g t p l.
Proof.
  induction l as [|s l IH]; intros He; [done|]. simpl.
  rewrite He by left. rewrite IH; [done|]. intros u Hu. apply He. by right.
Qed.

(** [t] left its ready list and waits in [q]. *)
Record waiting (q : qid) (flag : Z) (t : tid) (th : rt_thread) (k k' : kernel) : Prop := {
  wt_env : same_env k k';
  wt_threads : threads k' = <[t := with_stat THREAD_SUSPEND th]> (threads k);
  wt_q : ∀ q', q_get k' q' = if decide (q' = q) then wait_place k flag t (q_get k q)
                             else without t (q_get k q') }.

Lemma list_suspend_spec lo q flag t th k :
  kinv None lo k → wait_q q → flag_ok flag → threads k !! t = Some th → stat th = THREAD_READY →
  ∃ k', rt_ipc_list_suspend q t flag k = Ok k' ∧ kinv None lo k' ∧ waiting q flag t th k k' ∧
    (TThread t ∉ rt_timer_list (tsys k')) ∧ rt_timer_list (tsys k') ⊆+ rt_timer_list (tsys k).
Proof.
  intros Hk Hq Hf Ht Hs. unfold rt_ipc_list_suspend.
  pose proof (suspend_spec lo t th k Hk Ht) as Hsus. rewrite decide_True in Hsus by done.
  destruct Hsus as (k1 & -> & Hk1 & [He1 Hth1 Hq1] & Htl & Hsub). cbn [mbind res_bind].
  assert (Ht1 : threads k1 !! t = Some (with_stat THREAD_SUSPEND th))
    by (rewrite Hth1; apply lookup_insert_eq).
  assert (Hnq : t ∉ q_get k q).
  { intros Hin. destruct (ki_fits _ _ _ Hk t q Hin) as (th1 & ? & Hfit).
    assert (th1 = th) as -> by congruence. destruct q; simpl in *; try done; congruence. }
  assert (Hql : q_get k1 q = q_get k q) by (rewrite Hq1; by apply filter_ne_id).
  assert (Hun : ∀ q', t ∉ q_get k1 q').
  { intros q'. rewrite Hq1, list_elem_of_filter. tauto. }
  assert (E : (if flag =? RT_IPC_FLAG_FIFO then rt_list_insert_before q t k1
    else if flag =? RT_IPC_FLAG_PRIO then
      th ← get_thread t k1;
      l ← wait_insert t (current_priority th) k1 (q_get k1 q);
      _ ← require ListCorrupt (negb (linked t k1));
      Ok (q_set q l k1)
    else Ok k1) = Ok (q_set q (wait_place k flag t (q_get k q)) k1)).
  { unfold wait_place, rt_list_insert_before. rewrite (proj2 (linked_false t k1) Hun), Hql.
    destruct (flag =? RT_IPC_FLAG_FIFO) eqn:Ef; [done|].
    destruct Hf as [->| ->]; [done|]. cbn [Z.eqb Pos.eqb RT_IPC_FLAG_PRIO IN_FRONT].
    rewrite (get_thread_ok t _ k1 Ht1). cbn [mbind res_bind].
    rewrite wait_insert_ok.
    - cbn [negb require mbind res_bind]. f_equal. f_equal.
      unfold prio_of at 3. rewrite Ht. apply prio_place_ext.
      intros s Hs'. unfold prio_of. rewrite Hth1. rewrite lookup_insert_ne; [done|].
      intros ->. done.
    - intros s Hs'. destruct (ki_fits _ _ _ Hk s q Hs') as (ths & Hths & _).
      rewrite Hth1, lookup_insert_is_Some'. eauto. }
  rewrite E. eexists. split; [done|]. split.
  - assert (Hf1 : kinv (Some t) lo k1) by (by apply (kinv_float lo t (with_stat THREAD_SUSPEND th))).
    apply (kinv_link lo t (with_stat THREAD_SUSPEND th)); try done.
    + by destruct q.
    + rewrite wait_place_perm. by rewrite Hql.
  - split_and!; [|done|done]. constructor; [by destruct He1; constructor|exact Hth1|].
    intros q'. rewrite q_get_set. case_decide; [done|apply Hq1].
Qed.

(** ** Blocking with a timeout *)
Lemma wait_timer_spec lo q flag time t th k k1 :
  -1 <= lo <= 0 → kinv None lo k1 → waiting q flag t th k k1 →
  (TThread t ∉ rt_timer_list (tsys k1)) → rt_timer_list (tsys k1) ⊆+ rt_timer_list (tsys k) →
  time < TICK_HALF →
  ∃ k', (if 0 <? time then start_thread_timer t time k1 else Ok k1) = Ok k' ∧
    kinv None lo k' ∧ waiting q flag t th k k' ∧
    rt_timer_list (tsys k') ⊆+ TThread t :: rt_timer_list (tsys k) ∧
    if 0 <? time
    then TThread t ∈ rt_timer_list (tsys k') ∧ remaining (tsys k') (TThread t) = time
    else TThread t ∉ rt_timer_list (tsys k').
Proof.
  intros Hlo Hk1 [He Hth Hqq] Htl Hsub Htime. destruct (Z.ltb_spec 0 time) as [Hpos|].
  - assert (Ht1 : threads k1 !! t = Some (with_stat THREAD_SUSPEND th))
      by (rewrite Hth; apply lookup_insert_eq).
    pose proof (start_thread_timer_spec None lo t _ time k1 Hlo Hk1 Ht1 (λ _, eq_refl)) as Hst.
    assert (Hu : u32 time = time) by (rewrite tick_half_val in Htime; word).
    rewrite Hu, (proj2 (Z.ltb_lt _ _) Htime) in Hst.
    destruct Hst as (ts & -> & Hk2 & Htk & Hin & Hrem & Hsub').
    eexists. split; [done|]. split_and!; [done| |..|done|done].
    + constructor; [|done|done]. etransitivity; [exact He|]. by constructor.
    + etransitivity; [exact Hsub'|]. by apply submseteq_skip.
  - exists k1. split_and!; [done|done|by constructor| |done].
    etransitivity; [exact Hsub|]. by apply submseteq_cons.
Qed.

Lemma suspend_on_spec lo q flag time t th k :
  -1 <= lo <= 0 → kinv None lo k → wait_q q → flag_ok flag →
  threads k !! t = Some th → stat th = THREAD_READY →
  time < TICK_HALF →
  ∃ k', suspend_on q t flag time k = Ok k' ∧ kinv None lo k' ∧ waiting q flag t th k k' ∧
    rt_timer_list (tsys k') ⊆+ TThread t :: rt_timer_list (tsys k) ∧
    if 0 <? time
    then TThread t ∈ rt_timer_list (tsys k') ∧ remaining (tsys k') (TThread t) = time
    else TThread t ∉ rt_timer_list (tsys k').
Proof.
  intros Hlo Hk Hq Hf Ht Hs Htime. unfold suspend_on.
  destruct (list_suspend_spec lo q flag t th k) as (k1 & -> & Hk1 & Hw & Htl & Hsub); [done..|].
  by apply (wait_timer_spec lo q flag time t th k k1).
Qed.

(** ** Waking *)
Lemma waiter_suspended lo q t k :
  kinv None lo k → wait_q q → t ∈ q_get k q →
  ∃ th, threads k !! t = Some th ∧ stat th = THREAD_SUSPEND.
Proof.
  intros Hk Hq Hin. destruct (ki_fits _ _ _ Hk t q Hin) as (th & ? & Hf). exists th.
  destruct q; by simpl in *.
Qed.

Lemma waiter_tail lo q t l k :
  kinv None lo k → q_get k q = t :: l → without t (q_get k q) = l.
Proof.
  intros Hk Hl. pose proof (ki_nodup _ _ _ Hk q) as Hnd. rewrite Hl in *.
  apply NoDup_cons in Hnd as [Hn _]. rewrite filter_cons_False by tauto. by apply filter_ne_id.
Qed.

Lemma waiter_other lo q q' t k :
  kinv None lo k → t ∈ q_get k q → q' ≠ q → without t (q_get k q') = q_get k q'.
Proof.
  intros Hk Hin Hne. apply filter_ne_id. intros Hin'. by apply Hne, (ki_disj _ _ _ Hk t).
Qed.

(** Only [t] moved, from the head of [q] to the back of its ready list. *)
Record woken (q : qid) (t : tid) (th : rt_thread) (l : list tid) (k k' : kernel) : Prop := {
  wk_env : same_env k k';
  wk_threads : threads k' = <[t := with_stat THREAD_READY th]> (threads k);
  wk_q : q_get k' q = l;
  wk_ready : q_get k' (ready_q th) = q_get k (ready_q th) ++ [t];
  wk_other : ∀ q', q' ≠ q → q' ≠ ready_q th → q_get k' q' = q_get k q';
  wk_group : rt_thread_ready_priority_group k' ≠ 0;
  wk_timers : (TThread t ∉ rt_timer_list (tsys k')) ∧ rt_timer_list (tsys k') ⊆+ rt_timer_list (tsys k) }.

Lemma list_resume_spec lo q t l k :
  kinv None lo k → wait_q q → q_get k q = t :: l →
  ∃ th k', threads k !! t = Some th ∧ stat th = THREAD_SUSPEND ∧
    rt_ipc_list_resume q k = Ok k' ∧ kinv None lo k' ∧ woken q t th l k k'.
Proof.
  intros Hk Hq Hl. assert (Hin : t ∈ q_get k q) by (rewrite Hl; left).
  destruct (waiter_suspended lo q t k Hk Hq Hin) as (th & Ht & Hs).
  pose proof (resume_spec lo t th k Hk Ht) as Hr. rewrite decide_True in Hr by done.
  destruct Hr as (k' & E & Hk' & [He Hth Hqq Hg] & Htl & Hsub). exists th, k'.
  assert (Hqr : q ≠ ready_q th) by (by destruct q).
  split_and!; try done.
  - unfold rt_ipc_list_resume, rt_list_first. rewrite Hl. cbn [mbind res_bind]. by rewrite E.
  - constructor; try done.
    + rewrite Hqq, decide_False by done. by eapply waiter_tail.
    + rewrite Hqq, decide_True by done. f_equal. by eapply waiter_other.
    + intros q' Hne Hne'. rewrite Hqq, decide_False by done. by eapply waiter_other.
Qed.

(** Every waiting thread leaves with error [-RT_ERROR]. *)
Definition rejected (th : rt_thread) : rt_thread :=
  with_stat THREAD_READY (with_error (- RT_ERROR) th).

Lemma resume_all_spec lo q : ∀ l k,
  kinv None lo k → wait_q q → q_get k q = l →
  ∃ k', rt_ipc_list_resume_all (length l) q k = Ok k' ∧ kinv None lo k' ∧ same_env k k' ∧
    q_get k' q = [] ∧
    (∀ t, threads k' !! t = if decide (t ∈ l) then rejected <$> threads k !! t else threads k !! t) ∧
    (∀ q', wait_q q' → q' ≠ q → q_get k' q' = q_get k q') ∧
    (l ≠ [] → rt_thread_ready_priority_group k' ≠ 0) ∧ (l = [] → k' = k) ∧ wstable every k k'.
Proof.
  induction l as [|t l IH]; intros k Hk Hq Hl.
  - exists k. simpl. rewrite (proj2 (isempty_spec q k) Hl). split_and!; try done.
  - assert (Hin : t ∈ q_get k q) by (rewrite Hl; left).
    cbn [length rt_ipc_list_resume_all]. rewrite (isempty_false q k t Hin).
    unfold rt_list_first. rewrite Hl. cbn [mbind res_bind].
    destruct (waiter_suspended lo q t k Hk Hq Hin) as (th & Ht & Hs).
    rewrite (get_thread_ok t th) by done. cbn [mbind res_bind].
    set (th1 := with_error (- RT_ERROR) th). set (k1 := set_thread t th1 k).
    assert (Hk1 : kinv None lo k1) by (by apply (kinv_set_thread _ _ _ th)).
    assert (Ht1 : threads k1 !! t = Some th1) by apply lookup_insert_eq.
    pose proof (resume_spec lo t th1 k1 Hk1 Ht1) as Hr. rewrite decide_True in Hr by done.
    destruct Hr as (k2 & -> & Hk2 & [He Hth Hqq Hg] & Htl & Hsub). cbn [mbind res_bind].
    pose proof (ki_nodup _ _ _ Hk q) as Hnd. rewrite Hl in Hnd. apply NoDup_cons in Hnd as [Hnin _].
    destruct (IH k2 Hk2 Hq) as (k' & E & Hk' & He' & Hq' & Hth' & Ho & Hgl & Hid & Hws).
    { rewrite Hqq, decide_False by (by destruct q). by apply (waiter_tail lo q t l k1). }
    exists k'. split_and!; try done.
    + etransitivity; [|exact He']. etransitivity; [|exact He]. by constructor.
    + intros u. rewrite Hth', Hth. destruct (decide (u = t)) as [->|Hne].
      * rewrite decide_False, decide_True by (done || left). simpl.
        by rewrite lookup_insert_eq, Ht.
      * simpl. rewrite !lookup_insert_ne by done. apply decide_ext. rewrite elem_of_cons. tauto.
    + intros q' Hw Hne. rewrite Ho by done. rewrite Hqq, decide_False by (by destruct q').
      by apply (waiter_other lo q q' t k1).
    + intros _. destruct l; [|by apply Hgl]. by rewrite Hid.
    + transitivity k2; [|done]. apply (wstable_leave every t (with_stat THREAD_READY th1)).
      * rewrite Hth. simpl. by rewrite insert_insert_eq.
      * intros q' Hw _. rewrite Hqq, decide_False by (by destruct q'). apply sublist_filter.
      * intros q' Hw _. rewrite Hqq, decide_False by (by destruct q'). apply not_without.
Qed.

(** ** Frames *)
Lemma waiting_wstable P lo q flag t th k k' :
  kinv None lo k → wait_q q → waiting q flag t th k k' → (∀ q', P q' → q' ≠ q) →
  (∀ q', wait_q q' → t ∉ q_get k q') → wstable P k k'.
Proof.
  intros Hk Hq [_ Hth Hqq] HP Hn. eapply (wstable_leave P t); [done|..]; intros q' Hw HP';
    rewrite Hqq, decide_False by auto; [apply sublist_filter|apply not_without].
Qed.

Lemma woken_wstable P lo q t th l k k' :
  kinv None lo k → wait_q q → q_get k q = t :: l → woken q t th l k k' → wstable P k k'.
Proof.
  intros Hk Hq Hl [_ Hth Hqq _ Ho _ _].
  assert (Hin : t ∈ q_get k q) by (rewrite Hl; left).
  pose proof (ki_nodup _ _ _ Hk q) as Hnd. rewrite Hl in Hnd. apply NoDup_cons in Hnd as [Hnin _].
  assert (Hwr : ∀ q', wait_q q' → q' ≠ ready_q th) by (by intros []).
  eapply (wstable_leave P t); [done|..]; intros q' Hw HP'; destruct (decide (q' = q)) as [->|Hne].
  - rewrite Hqq, Hl. by apply sublist_cons.
  - by rewrite Ho by auto.
  - by rewrite Hqq.
  - rewrite Ho by auto. intros Hin'. by apply Hne, (ki_disj _ _ _ Hk t).
Qed.

(** ** What an IPC object must promise

    Object [i] owns the lists [QWait i] and [QSender i].  Its invariant may
    only speak of its own record and lists; in return it survives everything
    the thread layer and the other objects do. *)
Definition owns (i : nat) (q : qid) : Prop := q = QWait i ∨ q = QSender i.

Class IpcProtocol (O : Type) := {
  istep : nat → O → kernel → O → kernel → Prop;
  iinv : nat → O → kernel → Prop;
  iinv_stable i o k k' : iinv i o k → wstable (owns i) k k' → iinv i o k';
  istep_ok i o k o' k' :
    kinv None 0 k → iinv i o k → istep i o k o' k' →
    kinv None 0 k' ∧ iinv i o' k' ∧ ∀ j, j ≠ i → wstable (owns j) k k' }.

Lemma owns_other i j q : j ≠ i → owns j q → ¬ owns i q.
Proof. unfold owns. intros Hne [->| ->] [?|?]; congruence. Qed.

(** A waiting list that shrinks keeps being empty. *)
Lemma wstable_nil P k k' q : wstable P k k' → wait_q q → P q → q_get k q = [] → q_get k' q = [].
Proof.
  intros [Hq _] Hw HP Hn. specialize (Hq q Hw HP). rewrite Hn in Hq. by apply sublist_nil_r in Hq.
Qed.

(** The current thread, when a blocking operation may run. *)
Definition in_thread (k : kernel) (c : tid) (th : rt_thread) : Prop :=
  rt_interrupt_nest k = 0 ∧ rt_current_thread k = Some c ∧ threads k !! c = Some th ∧
  stat th = THREAD_READY.

Lemma in_thread_ok k c th : in_thread k c th → debug_in_thread_context k = Ok tt.
Proof.
  intros (Hn & Hc & _). unfold debug_in_thread_context, debug_not_in_interrupt, rt_thread_self.
  rewrite Hc, bool_decide_eq_true_2 by eauto. by rewrite Hn.
Qed.

Definition blocked_thread (th : rt_thread) : rt_thread :=
  with_stat THREAD_SUSPEND (with_error RT_EOK th).

(** Reset the error, wait: the part of a blocking operation before
    [rt_schedule]. *)
Record blocked (lo : Z) (i : nat) (q : qid) (flag time : Z) (c : tid) (th : rt_thread)
    (k k1 : kernel) : Prop := {
  bk_inv : kinv None lo k1;
  bk_wait : waiting q flag c (with_error RT_EOK th) k k1;
  bk_timer : if 0 <? time
    then TThread c ∈ rt_timer_list (tsys k1) ∧ remaining (tsys k1) (TThread c) = time
    else TThread c ∉ rt_timer_list (tsys k1);
  bk_timers : rt_timer_list (tsys k1) ⊆+ TThread c :: rt_timer_list (tsys k);
  bk_frame : ∀ j, j ≠ i → wstable (owns j) k k1 }.

(** Waiting begins with a clean error. *)
Lemma blocked_intro lo i q flag time c th k k1 :
  kinv None lo k → wait_q q → owns i q → in_thread k c th → kinv None lo k1 →
  waiting q flag c (with_error RT_EOK th) (set_thread c (with_error RT_EOK th) k) k1 →
  rt_timer_list (tsys k1) ⊆+ TThread c :: rt_timer_list (tsys k) →
  (if 0 <? time
   then TThread c ∈ rt_timer_list (tsys k1) ∧ remaining (tsys k1) (TThread c) = time
   else TThread c ∉ rt_timer_list (tsys k1)) →
  blocked lo i q flag time c th k k1.
Proof.
  intros Hk Hq Ho (_ & Hc & Ht & Hs) Hk1 Hw Hsub Htm. set (k0 := set_thread c (with_error RT_EOK th) k) in *.
  assert (Hw' : waiting q flag c (with_error RT_EOK th) k k1).
  { destruct Hw as [He Hth Hqq]. constructor.
    - etransitivity; [|exact He]. by constructor.
    - rewrite Hth. simpl. by rewrite insert_insert_eq.
    - intros q'. rewrite Hqq. case_decide; [|done]. unfold wait_place.
      destruct (_ =? _); [done|]. destruct (_ =? _); [done|].
      assert (Hp : ∀ s, prio_of k0 s = prio_of k s).
      { intros s. unfold prio_of, k0; simpl. destruct (decide (s = c)) as [->|].
        - by rewrite lookup_insert_eq, Ht.
        - by rewrite lookup_insert_ne. }
      rewrite Hp. by apply prio_place_ext. }
  constructor; [done..|]. intros j Hne.
  eapply (waiting_wstable (owns j) lo q); [done|done|exact Hw'| |].
  - intros q' Hq' ->. by eapply owns_other.
  - intros q' Hw2. by eapply ready_not_waiting.
Qed.

Lemma block_current lo i q flag time c th k :
  -1 <= lo <= 0 → kinv None lo k → wait_q q → owns i q → flag_ok flag → in_thread k c th →
  time < TICK_HALF →
  ∃ k1, suspend_on q c flag time (set_thread c (with_error RT_EOK th) k) = Ok k1 ∧
    blocked lo i q flag time c th k k1.
Proof.
  intros Hlo Hk Hq Ho Hf Hin Htime. pose proof Hin as (_ & Hc & Ht & Hs).
  assert (Hk0 : kinv None lo (set_thread c (with_error RT_EOK th) k)) by (by apply (kinv_set_thread _ _ _ th)).
  destruct (suspend_on_spec lo q flag time c (with_error RT_EOK th) (set_thread c (with_error RT_EOK th) k))
    as (k1 & E & Hk1 & Hw & Hsub & Htm); [done|done|done|done|apply lookup_insert_eq|done|done|].
  exists k1. split; [done|]. by apply blocked_intro.
Qed.

(** Fields of the running thread that neither the queues nor waiting depend on. *)
Lemma touch_current lo c th th' k :
  kinv None lo k → in_thread k c th → same_core th th' → stat th' = stat th →
  kinv None lo (set_thread c th' k) ∧ in_thread (set_thread c th' k) c th' ∧
  wstable every k (set_thread c th' k).
Proof.
  intros Hk (Hn & Hc & Ht & Hs) Hco Hst. split_and!.
  - by apply (kinv_set_thread _ _ _ th).
  - unfold in_thread. split_and!; [done|done|apply lookup_insert_eq|congruence].
  - eapply (wstable_leave every c); [done|done|].
    intros q Hw _. by apply (ready_not_waiting None lo c th q k).
Qed.

(** Blocking a thread whose error is already clean. *)
Lemma block_clean lo i q flag time c th k :
  -1 <= lo <= 0 → kinv None lo k → wait_q q → owns i q → flag_ok flag → in_thread k c th →
  error th = RT_EOK → time < TICK_HALF →
  ∃ k1, suspend_on q c flag time k = Ok k1 ∧ blocked lo i q flag time c th k k1.
Proof.
  intros Hlo Hk Hq Ho Hf Hin He Ht.
  destruct (block_current lo i q flag time c th k) as (k1 & E & Hb); [done..|].
  rewrite set_thread_id in E; [eauto|]. destruct Hin as (_ & _ & -> & _). f_equal.
  destruct th. simpl in *. by subst.
Qed.

(** The threads that wait for object [i] have a clean error. *)
Definition waiters_clean (i : nat) (k : kernel) : Prop :=
  ∀ q t th, owns i q → t ∈ q_get k q → threads k !! t = Some th → error th = RT_EOK.

Lemma owns_wait i q : owns i q → wait_q q.
Proof. by intros [->| ->]. Qed.

Lemma waiters_clean_stable i k k' : waiters_clean i k → wstable (owns i) k k' → waiters_clean i k'.
Proof.
  intros H Hs q t th Ho Hin Ht. pose proof (owns_wait _ _ Ho) as Hw.
  destruct (ws_ev _ _ _ Hs q t th) as (th0 & Ht0 & []); [done..|].
  rewrite <- (H q t th0); [done|done| |done]. eapply sublist_elem; [done|].
  by apply (ws_q _ _ _ Hs).
Qed.

Lemma waiters_clean_blocked lo i q flag time c th k k1 :
  waiters_clean i k → owns i q → blocked lo i q flag time c th k k1 → waiters_clean i k1.
Proof.
  intros H Ho [_ [_ Hth Hq] _ _ _] q' t tht Ho'. rewrite Hq, Hth.
  intros Hin [[<- <-]|[Hne Htt]]%lookup_insert_Some; [done|]. apply (H q' t); [done| |done].
  case_decide; [subst|by apply list_elem_of_filter in Hin as [_ ?]].
  rewrite wait_place_perm in Hin. by apply elem_of_cons in Hin as [->|?].
Qed.

(** ** [wake_one] *)
Lemma wake_one_safe lo q k k' :
  kinv None lo k → wait_q q → wake_one q k = Ok k' → kinv None lo k' ∧ wstable every k k'.
Proof.
  intros Hk Hq. unfold wake_one, rt_list_isempty. destruct (q_get k q) as [|t l] eqn:Hl.
  - by intros [= <-].
  - cbn [negb]. destruct (list_resume_spec lo q t l k Hk Hq Hl) as (th & k1 & _ & _ & E & Hk1 & Hw).
    rewrite E. cbn [mbind res_bind]. intros Es. split; [by eapply schedule_kinv|].
    transitivity k1; [by apply (woken_wstable every lo q t th l)|by apply wstable_schedule].
Qed.

(** The woken thread is gone from the list. *)
Lemma wake_one_tail lo q k k' :
  kinv None lo k → wait_q q → wake_one q k = Ok k' → q_get k' q `sublist_of` tail (q_get k q).
Proof.
  intros Hk Hq. unfold wake_one, rt_list_isempty. destruct (q_get k q) as [|t l] eqn:Hl.
  - intros [= <-]. by rewrite Hl.
  - cbn [negb]. destruct (list_resume_spec lo q t l k Hk Hq Hl) as (th & k1 & _ & _ & E & Hk1 & Hw).
    rewrite E. cbn [mbind res_bind]. intros Es. simpl. rewrite <- (wk_q _ _ _ _ _ _ Hw).
    by apply (ws_q every _ _ (wstable_schedule every k1 k' Es)).
Qed.

(** The first thread of [q], if there is one, has been made ready. *)
Definition first_woken (q : qid) (k k' : kernel) : Prop :=
  match q_get k q with
  | [] => k' = k
  | t :: l => ∃ th, threads k !! t = Some th ∧ threads k' !! t = Some (with_stat THREAD_READY th) ∧
      q_get k' q = l
  end.

Lemma wake_one_spec lo q k :
  kinv None lo k → wait_q q → is_Some (rt_current_thread k) →
  ∃ k', wake_one q k = Ok k' ∧ kinv None lo k' ∧ first_woken q k k' ∧ (∀ q', wait_q q' → q' ≠ q → q_get k' q' = q_get k q').
Proof.
  intros Hk Hq Hc. unfold wake_one, rt_list_isempty, first_woken. destruct (q_get k q) as [|t l] eqn:Hl.
  { exists k. by split_and!. }
  cbn [negb]. destruct (list_resume_spec lo q t l k Hk Hq Hl) as (th & k1 & Ht & _ & E & Hk1 & Hw).
  rewrite E. cbn [mbind res_bind].
  destruct (schedule_spec lo k1 Hk1) as (k' & Es & Hk' & Hsch); [apply Hw| |].
  { by rewrite (se_current _ _ (wk_env _ _ _ _ _ _ Hw)). }
  destruct Hsch as (Sth & Sq & _). exists k'. split_and!; try done.
  - exists th. split_and!; [done| |].
    + rewrite Sth, (wk_threads _ _ _ _ _ _ Hw). apply lookup_insert_eq.
    + unfold q_get. rewrite Sq. apply (wk_q _ _ _ _ _ _ Hw).
  - intros q' Hw' Hne. unfold q_get. rewrite Sq. apply (wk_other _ _ _ _ _ _ Hw); [done|].
    by destruct q'.
Qed.

(** While less than half the tick range has gone by, what is left is exact. *)
Lemma remaining_timeout_exact timeout start now :
  0 < timeout <= TICK_HALF → u32 (now - start) <= TICK_HALF →
  remaining_timeout timeout start now = Z.max 0 (timeout - u32 (now - start)).
Proof.
  rewrite tick_half_val. unfold remaining_timeout. intros Ht Hd.
  rewrite (proj2 (Z.ltb_lt 0 timeout)) by lia.
  set (d := u32 (now - start)) in *. assert (0 <= d) by (unfold d, u32; lia). clearbody d.
  cbv zeta. replace (s32 (timeout - d)) with (timeout - d) by word.
  destruct (Z.ltb_spec (timeout - d) 0); lia.
Qed.

(** ** A blocked call that is never answered *)

(** Some other thread can run. *)
Definition others_ready (c : tid) (k : kernel) : Prop :=
  ∃ u thu, u ≠ c ∧ threads k !! u = Some thu ∧ stat thu = THREAD_READY.

Lemma others_group lo i q flag time c th k k1 :
  blocked lo i q flag time c th k k1 → others_ready c k →
  rt_thread_ready_priority_group k1 ≠ 0.
Proof.
  intros [Hk1 [_ Hth _] _ _ _] (u & thu & Hne & Hu & Hs).
  eapply (group_nonzero lo u (Z.to_nat (current_priority thu))); [done|].
  apply (ki_ready _ _ _ Hk1); [|done..]. rewrite Hth. by rewrite lookup_insert_ne.
Qed.

(** The kernel a blocking call leaves behind: [c] suspended, its timer set. *)
Lemma block_schedule lo i q flag time c th k k1 :
  blocked lo i q flag time c th k k1 → in_thread k c th → others_ready c k →
  ∃ k', rt_schedule k1 = Ok k' ∧ kinv None lo k' ∧ scheduled k1 k' ∧
    threads k' !! c = Some (blocked_thread th) ∧ cur_ok k'.
Proof.
  intros Hb (_ & Hc & Ht & _) Ho. pose proof (others_group _ _ _ _ _ _ _ _ _ Hb Ho) as Hg.
  destruct Hb as [Hk1 [He Hth _] _ _ _].
  assert (Hc1 : cur_ok k1).
  { apply (cur_ok_threads k); [apply (se_current _ _ He)|exists c; eauto|].
    intros u. rewrite Hth, lookup_insert_is_Some'. tauto. }
  destruct (schedule_spec lo k1 Hk1 Hg) as (k' & E & Hk' & Hsch); [by apply cur_ok_is_some|].
  exists k'. split_and!; try done.
  - destruct Hsch as (-> & _). rewrite Hth. apply lookup_insert_eq.
  - by eapply cur_ok_scheduled.
Qed.

(** If nothing but the clock runs, the thread is woken by tick number [n] with
    [-RT_ETIMEOUT] and is no longer in the waiting list. *)
Lemma blocked_times_out user_timeout fuel i q flag n c th k k1 k' m :
  blocked 0 i q flag n c th k k1 → in_thread k c th → others_ready c k →
  rt_schedule k1 = Ok k' → thread_timers_only k → wait_q q →
  (S (length (rt_timer_list (tsys k))) < fuel)%nat → 0 < n → Z.of_nat m <= n →
  ∃ k2 th2, ticks user_timeout fuel m k' = Ok k2 ∧ threads k2 !! c = Some th2 ∧
    if Z.of_nat m <? n then stat th2 = THREAD_SUSPEND
    else stat th2 = THREAD_READY ∧ error th2 = - RT_ETIMEOUT ∧ c ∉ q_get k2 q.
Proof.
  intros Hb Hin Ho Es Hto Hq Hfu Hn Hm.
  destruct (block_schedule _ _ _ _ _ _ _ _ _ Hb Hin Ho) as (k2 & Es' & Hk' & Hsch & Ht' & Hc').
  assert (k2 = k') as -> by congruence.
  destruct Hb as [Hk1 _ Htm Hsub _]. rewrite (proj2 (Z.ltb_lt _ _) Hn) in Htm.
  destruct Htm as [Htin Hrem]. destruct Hsch as (_ & _ & Sts & _).
  destruct (ticks_wake user_timeout fuel m k' c (blocked_thread th) Hk' Hc')
    as (k2 & th2 & E & Hk2 & Ht2 & Hb).
  - intros x. rewrite Sts. intros Hx. eapply elem_of_submseteq in Hx; [|exact Hsub].
    apply elem_of_cons in Hx as [->|Hx]; [eauto|]. by apply Hto.
  - rewrite Sts. apply submseteq_length in Hsub. simpl in Hsub. lia.
  - done.
  - by rewrite Sts.
  - rewrite Sts, Hrem. lia.
  - exists k2, th2. split_and!; [done..|]. rewrite Sts, Hrem, Z.max_r in Hb by lia.
    destruct (_ <? _); [done|]. destruct Hb as [? ?]. split_and!; [done..|].
    by eapply ready_not_waiting.
Qed.

Lemma ticks_wstable user_timeout fuel : ∀ n k k',
  kinv None 0 k → cur_ok k → thread_timers_only k → (length (rt_timer_list (tsys k)) < fuel)%nat →
  ticks user_timeout fuel n k = Ok k' → wstable every k k'.
Proof.
  induction n as [| n IH]; intros k k' Hk Hc Hto Hfu; cbn [ticks]; [by intros [= <-] |].
  destruct (tick_spec user_timeout fuel k) as (k1 & E & Hk1 & Hc1 & Hto1 & Hl1 & _ & Hw & _); [done.. |].
  rewrite E. cbn [mbind res_bind]. intros E'. transitivity k1; [done |]. apply IH in E'; [done.. | lia].
Qed.

(** The only thread of its list: the list is empty when the time is over. *)
Lemma alone_times_out user_timeout fuel i q flag n c th k k1 k' :
  blocked 0 i q flag n c th k k1 → in_thread k c th → others_ready c k →
  rt_schedule k1 = Ok k' → thread_timers_only k → wait_q q →
  (S (length (rt_timer_list (tsys k))) < fuel)%nat → 0 < n → q_get k q = [] →
  ∃ k2 th2, ticks user_timeout fuel (Z.to_nat n) k' = Ok k2 ∧ threads k2 !! c = Some th2 ∧
    error th2 = - RT_ETIMEOUT ∧ q_get k2 q = [].
Proof.
  intros Hb Hin Ho Es Hto Hq Hfu Hn He.
  destruct (block_schedule _ _ _ _ _ _ _ _ _ Hb Hin Ho) as (k2 & Es' & Hk' & (_ & Sq & Sts & _) & _ & Hc').
  assert (k2 = k') as -> by congruence.
  destruct (blocked_times_out user_timeout fuel i q flag n c th k k1 k' (Z.to_nat n))
    as (k2 & th2 & E2 & Ht2 & Hout); try done; [lia|].
  rewrite Z2Nat.id, Z.ltb_irrefl in Hout by lia. destruct Hout as (_ & Herr & Hnot).
  exists k2, th2. split_and!; [done..|].
  pose proof (bk_timers _ _ _ _ _ _ _ _ _ Hb) as Hts.
  assert (Hsub : q_get k2 q `sublist_of` [c]).
  { assert (q_get k' q = [c]) as <-.
    { unfold q_get. rewrite Sq. fold (q_get k1 q).
      rewrite (wt_q _ _ _ _ _ _ (bk_wait _ _ _ _ _ _ _ _ _ Hb)), decide_True, He by done.
      apply Permutation_singleton_r. apply wait_place_perm. }
    apply (ws_q every); [|done|done].
    apply (ticks_wstable user_timeout fuel (Z.to_nat n)); try done; rewrite ?Sts.
    - intros x. rewrite Sts. intros Hx. eapply elem_of_submseteq in Hx; [|exact Hts].
      apply elem_of_cons in Hx as [->|Hx]; [eauto|by apply Hto].
    - apply submseteq_length in Hts. simpl in Hts. lia. }
  destruct (q_get k2 q) as [|t l]; [done|]. exfalso. apply Hnot.
  assert (t ∈ [c]) as ->%list_elem_of_singleton by (eapply sublist_elem; [left|exact Hsub]). left.
Qed.

(** ** The concrete kernel of ThreadProps.v, seen by the IPC objects *)
Definition no_waiters (k : kernel) : bool :=
  forallb (λ p : qid * list tid, match p.1 with
    | QReady _ | QDefunct => true
    | _ => match p.2 with [] => true | _ => false end end) (map_to_list (queues k)).

Lemma no_waiters_ok k q : no_waiters k = true → wait_q q → q_get k q = [].
Proof.
  unfold no_waiters. rewrite forallb_forall. intros Hall Hq. unfold q_get.
  destruct (queues k !! q) as [l|] eqn:E; [|done]. specialize (Hall (q, l)).
  assert (In (q, l) (map_to_list (queues k))) as Hin
    by (apply list_elem_of_In; by apply elem_of_map_to_list).
  apply Hall in Hin. by destruct q, l.
Qed.

Lemma demo_no_waiter q : wait_q q → q_get demo_kernel q = [].
Proof. apply no_waiters_ok. vm_compute. reflexivity. Qed.

Lemma demo_in_thread : in_thread demo_kernel 1 (demo_thread 1).
Proof.
  split_and!; [vm_compute; reflexivity..|apply demo_thread_ok; lia|vm_compute; reflexivity].
Qed.
