(* ===== verification/Links.v ===== *)
(** * Circular doubly-linked lists

    Chains and cycles over two functions, the next and the previous node of a node:
    what stays of them when a node is put between two others or taken out, whatever
    memory the two functions read ([RtList], [MemHeap]). *)
From S2P Require Import Prelude.
Local Open Scope Z_scope.

(** [l] is linked in both directions. *)
Fixpoint chain (nx pv : Z → option Z) (l : list Z) : Prop :=
  match l with
  | x :: (y :: _) as l' => nx x = Some y ∧ pv y = Some x ∧ chain nx pv l'
  | _ => True
  end.
(** The list with the head [h] and the nodes [l]. *)
Definition cycle (nx pv : Z → option Z) (h : Z) (l : list Z) : Prop := chain nx pv (h :: l ++ [h]).

Lemma chain_cons nx pv x y l : chain nx pv (x :: y :: l) ↔ nx x = Some y ∧ pv y = Some x ∧ chain nx pv (y :: l).
Proof. done. Qed.
Lemma chain_app nx pv l1 x l2 : chain nx pv (l1 ++ x :: l2) ↔ chain nx pv (l1 ++ [x]) ∧ chain nx pv (x :: l2).
Proof.
  induction l1 as [| z l1 IH]; cbn [app]; [by split; [split | intros [_ ?]] |].
  destruct l1 as [| z' l1]; cbn [app] in *; rewrite !chain_cons; [cbn [chain]; tauto |]. rewrite IH. tauto.
Qed.

Lemma segment_ext nx pv nx' pv' l :
  (∀ z, z ∈ removelast l → nx' z = nx z) → (∀ z, z ∈ List.tl l → pv' z = pv z) → chain nx pv l → chain nx' pv' l.
Proof.
  induction l as [| x l IH]; [done |]. destruct l as [| y l]; [done |]. rewrite !chain_cons. intros Hn Hp (H1 & H2 & H3).
  split_and!.
  - rewrite Hn; [done | left].
  - rewrite Hp; [done | left].
  - apply IH; [| | done].
    + intros z Hz. apply Hn. change (removelast (x :: y :: l)) with (x :: removelast (y :: l)). by right.
    + intros z Hz. apply Hp. by right.
Qed.

(** A cycle is a chain around any of its places: [x] before it and [y] behind. *)
Record around (h : Z) (a b : list Z) (a1 : list Z) (x y : Z) (a2 : list Z) : Prop := {
  ar_left : h :: a = a1 ++ [x];
  ar_right : b ++ [h] = y :: a2;
  ar_x1 : x ∉ a1;
  ar_x2 : x ∉ b;
  ar_y2 : y ∉ a2;
  ar_y1 z : z ∈ List.tl (a1 ++ [x]) → z ≠ y }.

Lemma place_around h a b : NoDup (h :: a ++ b) → ∃ a1 x y a2, around h a b a1 x y a2.
Proof.
  intros Hnd. destruct (exists_last (l := h :: a)) as (l1 & x & Ea); [done |].
  assert (Hb : ∃ y l2, b ++ [h] = y :: l2) by (destruct b; cbn; eauto). destruct Hb as (y & l2 & Eb).
  exists l1, x, y, l2. apply NoDup_cons in Hnd as [Hh Hnd]. apply NoDup_app in Hnd as (Ha & Hab & Hb).
  rewrite not_elem_of_app in Hh. destruct Hh as [Hha Hhb].
  assert (Hnda : NoDup (h :: a)) by (by apply NoDup_cons). rewrite Ea in Hnda. apply NoDup_app in Hnda as (_ & Hx1 & _).
  assert (Hxa : x ∈ h :: a) by (rewrite Ea, elem_of_app; right; left).
  assert (Hndb : NoDup (b ++ [h])).
  { apply NoDup_app. split_and!; [done | by intros z Hz ->%list_elem_of_singleton | apply NoDup_singleton]. }
  rewrite Eb in Hndb. apply NoDup_cons in Hndb as [Hy _]. split; try done.
  - intros Hx. by apply (Hx1 x Hx), list_elem_of_singleton.
  - intros Hxb. apply elem_of_cons in Hxa as [-> | Hxa]; [done | by apply (Hab x)].
  - rewrite <- Ea. cbn [List.tl]. intros z Hz ->. assert (Hyb : y ∈ b ++ [h]) by (rewrite Eb; left).
    apply elem_of_app in Hyb as [Hyb | ->%list_elem_of_singleton]; [by apply (Hab y) | done].
Qed.

Section around.
Context {h : Z} {a b a1 : list Z} {x y : Z} {a2 : list Z} (A : around h a b a1 x y a2).

Lemma around_list c : h :: (a ++ c ++ b) ++ [h] = a1 ++ x :: c ++ y :: a2.
Proof. rewrite <- !app_assoc, (ar_right _ _ _ _ _ _ _ A), app_comm_cons, (ar_left _ _ _ _ _ _ _ A), <- app_assoc. done. Qed.
Lemma around_x : x ∈ h :: a.
Proof. rewrite (ar_left _ _ _ _ _ _ _ A), elem_of_app. right; left. Qed.
Lemma around_y : y ∈ h :: b.
Proof.
  assert (Hy : y ∈ b ++ [h]) by (rewrite (ar_right _ _ _ _ _ _ _ A); left).
  apply elem_of_app in Hy as [Hy | ->%list_elem_of_singleton]; [by right | left].
Qed.
Lemma around_members : x ∈ h :: a ++ b ∧ y ∈ h :: a ++ b.
Proof. pose proof around_x. pose proof around_y. rewrite !elem_of_cons, !elem_of_app in *. tauto. Qed.

(** What is before [x] and behind [y]. *)
Lemma around_before z : z ∈ a1 ++ [x] → z ∈ h :: a ++ b.
Proof. rewrite <- (ar_left _ _ _ _ _ _ _ A), !elem_of_cons, !elem_of_app. tauto. Qed.
Lemma around_behind z : z ∈ y :: a2 → z ∈ h :: a ++ b.
Proof. rewrite <- (ar_right _ _ _ _ _ _ _ A), elem_of_app, list_elem_of_singleton, elem_of_cons, elem_of_app. tauto. Qed.

(** The neighbours at a place, without and with a node there. *)
Lemma cycle_gap nx pv : cycle nx pv h (a ++ b) ↔ chain nx pv (a1 ++ [x]) ∧ nx x = Some y ∧ pv y = Some x ∧ chain nx pv (y :: a2).
Proof. unfold cycle. change (a ++ b) with (a ++ [] ++ b). rewrite (around_list []). cbn [app]. rewrite chain_app, chain_cons. tauto. Qed.
Lemma cycle_at nx pv n : cycle nx pv h (a ++ n :: b) ↔
  chain nx pv (a1 ++ [x]) ∧ nx x = Some n ∧ pv n = Some x ∧ nx n = Some y ∧ pv y = Some n ∧ chain nx pv (y :: a2).
Proof. unfold cycle. change (a ++ n :: b) with (a ++ [n] ++ b). rewrite (around_list [n]). cbn [app]. rewrite chain_app, !chain_cons. tauto. Qed.

Context (nx pv nx' pv' : Z → option Z).

(** The halves of the cycle outside the place stay as they are. *)
Lemma halves_kept :
  (∀ z, z ∈ h :: a ++ b → z ≠ x → nx' z = nx z) → (∀ z, z ∈ h :: a ++ b → z ≠ y → pv' z = pv z) →
  chain nx pv (a1 ++ [x]) → chain nx pv (y :: a2) → chain nx' pv' (a1 ++ [x]) ∧ chain nx' pv' (y :: a2).
Proof.
  intros Hn Hp H1 H2. split.
  - apply (segment_ext nx pv); [| | done]; intros z Hz.
    + rewrite removelast_last in Hz. apply Hn; [apply around_before, elem_of_app; by left |].
      intros ->. by apply (ar_x1 _ _ _ _ _ _ _ A).
    + apply Hp; [| by apply (ar_y1 _ _ _ _ _ _ _ A)]. apply around_before. destruct (a1 ++ [x]); [done | by right].
  - apply (segment_ext nx pv); [| | done]; intros z Hz.
    + apply Hn.
      * apply around_behind. rewrite <- (ar_right _ _ _ _ _ _ _ A) in *. rewrite removelast_last in Hz. apply elem_of_app. by left.
      * rewrite <- (ar_right _ _ _ _ _ _ _ A), removelast_last in Hz. intros ->. by apply (ar_x2 _ _ _ _ _ _ _ A).
    + apply Hp; [apply around_behind; by right |]. intros ->. by apply (ar_y2 _ _ _ _ _ _ _ A).
Qed.

End around.

(** [n] is put between [x] and [y]. *)
Lemma cycle_put {h a b a1 x y a2} nx pv nx' pv' n :
  around h a b a1 x y a2 → cycle nx pv h (a ++ b) →
  nx' n = Some y → pv' n = Some x → nx' x = Some n → pv' y = Some n →
  (∀ z, z ∈ h :: a ++ b → z ≠ x → nx' z = nx z) → (∀ z, z ∈ h :: a ++ b → z ≠ y → pv' z = pv z) →
  cycle nx' pv' h (a ++ n :: b).
Proof.
  intros A H. intros. apply (cycle_gap A nx pv) in H as (Hc1 & _ & _ & Hc2). apply (cycle_at A nx' pv').
  assert (chain nx' pv' (a1 ++ [x]) ∧ chain nx' pv' (y :: a2)) as [? ?]; [by apply (halves_kept A nx pv) | tauto].
Qed.
(** [n] is taken from between [x] and [y]. *)
Lemma cycle_take {h a b a1 x y a2} nx pv nx' pv' n :
  around h a b a1 x y a2 → cycle nx pv h (a ++ n :: b) →
  nx' x = Some y → pv' y = Some x →
  (∀ z, z ∈ h :: a ++ b → z ≠ x → nx' z = nx z) → (∀ z, z ∈ h :: a ++ b → z ≠ y → pv' z = pv z) →
  cycle nx' pv' h (a ++ b).
Proof.
  intros A H. intros. apply (cycle_at A nx pv) in H as (Hc1 & _ & _ & _ & _ & Hc2). apply (cycle_gap A nx' pv').
  assert (chain nx' pv' (a1 ++ [x]) ∧ chain nx' pv' (y :: a2)) as [? ?]; [by apply (halves_kept A nx pv) | tauto].
Qed.

(** A cycle depends on its members only; each of them has neighbours, members again. *)
Lemma cycle_ext nx pv nx' pv' h l :
  (∀ z, z ∈ h :: l → nx' z = nx z ∧ pv' z = pv z) → cycle nx pv h l → cycle nx' pv' h l.
Proof.
  intros Hall. apply segment_ext.
  - intros z Hz. apply Hall. rewrite app_comm_cons, removelast_last in Hz. done.
  - intros z Hz. apply Hall. cbn in Hz. apply elem_of_app in Hz as [Hz | ->%list_elem_of_singleton]; [by right | left].
Qed.

Lemma cycle_neighbours nx pv h l z :
  NoDup (h :: l) → cycle nx pv h l → z ∈ h :: l → ∃ x y, pv z = Some x ∧ nx z = Some y ∧ x ∈ h :: l ∧ y ∈ h :: l.
Proof.
  intros Hnd Hc [-> | Hz]%elem_of_cons.
  - destruct (place_around h [] l Hnd) as (a1 & x & y & a2 & A).
    destruct (place_around h l []) as (b1 & x' & y' & b2 & B); [by rewrite app_nil_r |].
    pose proof (proj1 (cycle_gap A nx pv) Hc) as (_ & Hn & _). rewrite <- (app_nil_r l) in Hc.
    pose proof (proj1 (cycle_gap B nx pv) Hc) as (_ & _ & Hp & _).
    assert (x = h) as -> by (pose proof (around_x A) as Hx; by apply list_elem_of_singleton in Hx).
    assert (y' = h) as -> by (pose proof (around_y B) as Hy; by apply list_elem_of_singleton in Hy).
    exists x', y. split_and!; [done | done | exact (around_x B) | exact (around_y A)].
  - apply list_elem_of_split in Hz as (a & b & ->).
    assert (Hnd' : NoDup (h :: a ++ b)).
    { rewrite app_comm_cons, <- Permutation_middle in Hnd. by apply NoDup_cons in Hnd as [_ ?]. }
    destruct (place_around h a b Hnd') as (a1 & x & y & a2 & A).
    apply (cycle_at A nx pv) in Hc as (_ & _ & Hp & Hn & _). exists x, y.
    pose proof (around_x A) as Hx. pose proof (around_y A) as Hy.
    rewrite !elem_of_cons, !elem_of_app, !elem_of_cons in *. split_and!; tauto.
Qed.
