(* ===== verification/RtList.v ===== *)
(** * The linked lists behind the queues: [include/rtservice.h]

    [Kernel] has a queue as the list of its threads.  Here are the circular
    doubly-linked lists of the source, nodes in a memory, and the theorem that each
    operation on them does to the memory what the operation of [Kernel] of the same
    name does to the queues. *)
From S2P Require Import Prelude Links Timer Kernel KernelInv ThreadProps Ipc.
Local Open Scope Z_scope.

(** [struct rt_list_node], by address. *)
Record rt_list_node := mk_node { next : Z; prev : Z }.
Abbreviation nodes := (gmap Z rt_list_node).

Definition node_at (a : Z) (m : nodes) : res rt_list_node := of_option NullDeref (m !! a).
Definition set_next (a v : Z) (m : nodes) : res nodes := n ← node_at a m; Ok (<[a := mk_node v (prev n)]> m).
Definition set_prev (a v : Z) (m : nodes) : res nodes := n ← node_at a m; Ok (<[a := mk_node (next n) v]> m).
Definition get_next (a : Z) (m : nodes) : res Z := next <$> node_at a m.
Definition get_prev (a : Z) (m : nodes) : res Z := prev <$> node_at a m.

Definition rt_list_init (l : Z) (m : nodes) : res nodes := m ← set_prev l l m; set_next l l m.

Definition rt_list_insert_after (l n : Z) (m : nodes) : res nodes :=
  a ← get_next l m; m ← set_prev a n m;
  a ← get_next l m; m ← set_next n a m;
  m ← set_next l n m;
  set_prev n l m.

Definition rt_list_insert_before (l n : Z) (m : nodes) : res nodes :=
  a ← get_prev l m; m ← set_next a n m;
  a ← get_prev l m; m ← set_prev n a m;
  m ← set_prev l n m;
  set_next n l m.

Definition rt_list_remove (n : Z) (m : nodes) : res nodes :=
  a ← get_next n m; p ← get_prev n m; m ← set_prev a p m;
  p ← get_prev n m; a ← get_next n m; m ← set_next p a m;
  m ← set_prev n n m; set_next n n m.

Definition rt_list_isempty (l : Z) (m : nodes) : res bool := a ← get_next l m; Ok (a =? l).
(** The first node, for [rt_list_entry(l->next, ...)]. *)
Definition rt_list_first (l : Z) (m : nodes) : res Z := get_next l m.

(** ** Neighbours *)
Definition nxt (m : nodes) (a : Z) : option Z := next <$> m !! a.
Definition prv (m : nodes) (a : Z) : option Z := prev <$> m !! a.

Lemma nxt_some m a v : nxt m a = Some v ↔ ∃ p, m !! a = Some (mk_node v p).
Proof.
  unfold nxt. destruct (m !! a) as [[n p] |]; cbn; split; [intros [= ->]; eauto | intros (? & [= -> ->]); done | done | by intros []].
Qed.

(** A change of the memory, by neighbours; nodes neither appear nor vanish. *)
Record changes (m m' : nodes) (fn fp : Z → option Z → option Z) : Prop := {
  ch_dom a : is_Some (m' !! a) ↔ is_Some (m !! a);
  ch_nxt a : is_Some (m !! a) → nxt m' a = fn a (nxt m a);
  ch_prv a : is_Some (m !! a) → prv m' a = fp a (prv m a) }.

Lemma set_next_ok a v m :
  is_Some (m !! a) →
  ∃ m', set_next a v m = Ok m' ∧ changes m m' (λ z o, if z =? a then Some v else o) (λ _ o, o).
Proof.
  intros [[n p] Ha]. unfold set_next, node_at. rewrite Ha. cbn. eexists. split; [done |].
  split; intros z; unfold nxt, prv; destruct (decide (z = a)) as [-> | Hne].
  - rewrite lookup_insert_eq, Ha. split; eauto.
  - by rewrite lookup_insert_ne.
  - intros _. by rewrite lookup_insert_eq, Z.eqb_refl.
  - intros _. by rewrite lookup_insert_ne, (proj2 (Z.eqb_neq z a)).
  - intros _. by rewrite lookup_insert_eq, Ha.
  - intros _. by rewrite lookup_insert_ne.
Qed.
Lemma set_prev_ok a v m :
  is_Some (m !! a) →
  ∃ m', set_prev a v m = Ok m' ∧ changes m m' (λ _ o, o) (λ z o, if z =? a then Some v else o).
Proof.
  intros [[n p] Ha]. unfold set_prev, node_at. rewrite Ha. cbn. eexists. split; [done |].
  split; intros z; unfold nxt, prv; destruct (decide (z = a)) as [-> | Hne].
  - rewrite lookup_insert_eq, Ha. split; eauto.
  - by rewrite lookup_insert_ne.
  - intros _. by rewrite lookup_insert_eq, Ha.
  - intros _. by rewrite lookup_insert_ne.
  - intros _. by rewrite lookup_insert_eq, Z.eqb_refl.
  - intros _. by rewrite lookup_insert_ne, (proj2 (Z.eqb_neq z a)).
Qed.

Lemma get_next_ok m a v : nxt m a = Some v → get_next a m = Ok v.
Proof. unfold nxt, get_next, node_at. destruct (m !! a); cbn; by intros [= ->]. Qed.
Lemma get_prev_ok m a v : prv m a = Some v → get_prev a m = Ok v.
Proof. unfold prv, get_prev, node_at. destruct (m !! a); cbn; by intros [= ->]. Qed.

Lemma changes_then m1 m2 m3 f g f' g' :
  changes m1 m2 f g → changes m2 m3 f' g' → changes m1 m3 (λ z o, f' z (f z o)) (λ z o, g' z (g z o)).
Proof.
  intros [D1 N1 P1] [D2 N2 P2]. split; intros a.
  - by rewrite D2.
  - intros Ha. rewrite N2, N1; [done | done | by apply D1].
  - intros Ha. rewrite P2, P1; [done | done | by apply D1].
Qed.
Lemma changes_ext m m' f g f' g' :
  changes m m' f g → (∀ z o, f z o = f' z o) → (∀ z o, g z o = g' z o) → changes m m' f' g'.
Proof. intros [D N P] Hf Hg. split; [done | intros a Ha; by rewrite N, Hf | intros a Ha; by rewrite P, Hg]. Qed.

(** [n] between [x] and [y]; [n] out of [x] and [y], and alone. *)
Definition put_between (x n y : Z) (m m' : nodes) : Prop :=
  changes m m' (λ z o, if z =? n then Some y else if z =? x then Some n else o)
    (λ z o, if z =? n then Some x else if z =? y then Some n else o).
Definition taken_between (x n y : Z) (m m' : nodes) : Prop :=
  changes m m' (λ z o, if z =? n then Some n else if z =? x then Some y else o)
    (λ z o, if z =? n then Some n else if z =? y then Some x else o).

Section ops.
Context (m : nodes) (x n y : Z).
Hypotheses (Hn : is_Some (m !! n)) (Hx : is_Some (m !! x)) (Hy : is_Some (m !! y)).
Hypotheses (Hxy : nxt m x = Some y) (Hyx : prv m y = Some x).

Lemma insert_after_ok : n ≠ x → ∃ m', rt_list_insert_after x n m = Ok m' ∧ put_between x n y m m'.
Proof.
  intros Hne. unfold rt_list_insert_after. rewrite (get_next_ok m x y Hxy). cbn [mbind res_bind].
  destruct (set_prev_ok y n m Hy) as (m1 & -> & C1). cbn [mbind res_bind].
  rewrite (get_next_ok m1 x y) by (by rewrite (ch_nxt _ _ _ _ C1)). cbn [mbind res_bind].
  destruct (set_next_ok n y m1) as (m2 & -> & C2); [by apply (ch_dom _ _ _ _ C1) |]. cbn [mbind res_bind].
  pose proof (changes_then _ _ _ _ _ _ _ C1 C2) as C12.
  destruct (set_next_ok x n m2) as (m3 & -> & C3); [by apply (ch_dom _ _ _ _ C12) |]. cbn [mbind res_bind].
  pose proof (changes_then _ _ _ _ _ _ _ C12 C3) as C13.
  destruct (set_prev_ok n x m3) as (m4 & -> & C4); [by apply (ch_dom _ _ _ _ C13) |].
  exists m4. split; [done |]. eapply changes_ext; [exact (changes_then _ _ _ _ _ _ _ C13 C4) | |]; intros z o; cbn beta.
  - destruct (Z.eqb_spec z x), (Z.eqb_spec z n); congruence.
  - done.
Qed.

Lemma insert_before_ok : n ≠ y → ∃ m', rt_list_insert_before y n m = Ok m' ∧ put_between x n y m m'.
Proof.
  intros Hne. unfold rt_list_insert_before. rewrite (get_prev_ok m y x Hyx). cbn [mbind res_bind].
  destruct (set_next_ok x n m Hx) as (m1 & -> & C1). cbn [mbind res_bind].
  rewrite (get_prev_ok m1 y x) by (by rewrite (ch_prv _ _ _ _ C1)). cbn [mbind res_bind].
  destruct (set_prev_ok n x m1) as (m2 & -> & C2); [by apply (ch_dom _ _ _ _ C1) |]. cbn [mbind res_bind].
  pose proof (changes_then _ _ _ _ _ _ _ C1 C2) as C12.
  destruct (set_prev_ok y n m2) as (m3 & -> & C3); [by apply (ch_dom _ _ _ _ C12) |]. cbn [mbind res_bind].
  pose proof (changes_then _ _ _ _ _ _ _ C12 C3) as C13.
  destruct (set_next_ok n y m3) as (m4 & -> & C4); [by apply (ch_dom _ _ _ _ C13) |].
  exists m4. split; [done |]. eapply changes_ext; [exact (changes_then _ _ _ _ _ _ _ C13 C4) | |]; intros z o; cbn beta.
  - done.
  - destruct (Z.eqb_spec z y), (Z.eqb_spec z n); congruence.
Qed.
End ops.

(** The node may be alone: then [x] and [y] are the node. *)
Lemma remove_ok m x n y :
  is_Some (m !! n) → is_Some (m !! x) → is_Some (m !! y) → prv m n = Some x → nxt m n = Some y → (x = n ↔ y = n) →
  ∃ m', rt_list_remove n m = Ok m' ∧ taken_between x n y m m'.
Proof.
  intros Hn Hx Hy Hp Hnx Hxy. unfold rt_list_remove. rewrite (get_next_ok m n y Hnx), (get_prev_ok m n x Hp). cbn [mbind res_bind].
  destruct (set_prev_ok y x m Hy) as (m1 & -> & C1). cbn [mbind res_bind].
  assert (Hp1 : prv m1 n = Some x).
  { rewrite (ch_prv _ _ _ _ C1), Hp by done. by destruct (n =? y). }
  rewrite (get_prev_ok m1 n x Hp1). cbn [mbind res_bind].
  rewrite (get_next_ok m1 n y) by (by rewrite (ch_nxt _ _ _ _ C1)). cbn [mbind res_bind].
  destruct (set_next_ok x y m1) as (m2 & -> & C2); [by apply (ch_dom _ _ _ _ C1) |]. cbn [mbind res_bind].
  pose proof (changes_then _ _ _ _ _ _ _ C1 C2) as C12.
  destruct (set_prev_ok n n m2) as (m3 & -> & C3); [by apply (ch_dom _ _ _ _ C12) |]. cbn [mbind res_bind].
  pose proof (changes_then _ _ _ _ _ _ _ C12 C3) as C13.
  destruct (set_next_ok n n m3) as (m4 & -> & C4); [by apply (ch_dom _ _ _ _ C13) |].
  exists m4. split; [done |]. by eapply changes_ext; [exact (changes_then _ _ _ _ _ _ _ C13 C4) | |].
Qed.

(** ** Lists in memory *)
Definition circle (m : nodes) (h : Z) (l : list Z) : Prop := cycle (nxt m) (prv m) h l.

Lemma in_memory m z v : nxt m z = Some v ∨ prv m z = Some v → is_Some (m !! z).
Proof. unfold nxt, prv. destruct (m !! z); [eauto | by intros []]. Qed.
Lemma members_in m h l z : NoDup (h :: l) → circle m h l → z ∈ h :: l → is_Some (m !! z).
Proof. intros Hnd Hc Hz. destruct (cycle_neighbours _ _ h l z Hnd Hc Hz) as (x & y & _ & Hy & _). by eapply in_memory; left. Qed.

(** What a list without [n], [x], [y] does not notice. *)
Lemma circle_frame m m' h l fn fp :
  changes m m' fn fp → NoDup (h :: l) → circle m h l → (∀ z o, z ∈ h :: l → fn z o = o ∧ fp z o = o) → circle m' h l.
Proof.
  intros C Hnd Hr Hf. apply (cycle_ext (nxt m) (prv m)); [| done]. intros z Hz.
  pose proof (members_in m h l z Hnd Hr Hz) as Hm.
  rewrite (ch_nxt _ _ _ _ C z Hm), (ch_prv _ _ _ _ C z Hm). split; by apply Hf.
Qed.

Section change.
Context (m m' : nodes) (h n : Z) (a b a1 : list Z) (x y : Z) (a2 : list Z).
Hypotheses (A : around h a b a1 x y a2) (Hnd : NoDup (h :: a ++ b)) (Hn : n ∉ h :: a ++ b).

Lemma around_apart : x ≠ n ∧ y ≠ n.
Proof. destruct (around_members A) as [Hx Hy]. split; by intros <-. Qed.

Lemma circle_put : is_Some (m !! n) → put_between x n y m m' → circle m h (a ++ b) → circle m' h (a ++ n :: b).
Proof using A Hnd Hn.
  intros Hmn [D N P] Hc. destruct around_apart as [Hxn Hyn]. destruct (around_members A) as [Hx Hy].
  pose proof (members_in m h _ x Hnd Hc Hx) as Hmx. pose proof (members_in m h _ y Hnd Hc Hy) as Hmy.
  apply (cycle_put (nxt m) (prv m) _ _ n A Hc).
  - rewrite N by done. by rewrite Z.eqb_refl.
  - rewrite P by done. by rewrite Z.eqb_refl.
  - rewrite N by done. by rewrite (proj2 (Z.eqb_neq x n)), Z.eqb_refl.
  - rewrite P by done. by rewrite (proj2 (Z.eqb_neq y n)), Z.eqb_refl.
  - intros z Hz Hzx. rewrite N by (by apply (members_in m h (a ++ b))).
    rewrite (proj2 (Z.eqb_neq z n)), (proj2 (Z.eqb_neq z x)); [done | done | by intros ->].
  - intros z Hz Hzy. rewrite P by (by apply (members_in m h (a ++ b))).
    rewrite (proj2 (Z.eqb_neq z n)), (proj2 (Z.eqb_neq z y)); [done | done | by intros ->].
Qed.

Lemma circle_take : taken_between x n y m m' → circle m h (a ++ n :: b) → circle m' h (a ++ b) ∧ circle m' n [].
Proof using A Hnd Hn.
  intros [D N P] Hc. destruct around_apart as [Hxn Hyn]. destruct (around_members A) as [Hx Hy].
  assert (Hnd' : NoDup (h :: a ++ n :: b)) by (by rewrite app_comm_cons, <- Permutation_middle; apply NoDup_cons).
  assert (Hm : ∀ z, z ∈ h :: a ++ b → is_Some (m !! z)).
  { intros z Hz. apply (members_in m h (a ++ n :: b)); [done | done |].
    rewrite !elem_of_cons, !elem_of_app, elem_of_cons in *. tauto. }
  assert (Hmn : is_Some (m !! n)).
  { apply (members_in m h (a ++ n :: b)); [done | done |]. rewrite elem_of_cons, elem_of_app. right; right; left. }
  split.
  - apply (cycle_take (nxt m) (prv m) _ _ n A Hc).
    + rewrite N by (by apply Hm). by rewrite (proj2 (Z.eqb_neq x n)), Z.eqb_refl.
    + rewrite P by (by apply Hm). by rewrite (proj2 (Z.eqb_neq y n)), Z.eqb_refl.
    + intros z Hz Hzx. rewrite N by (by apply Hm). rewrite (proj2 (Z.eqb_neq z n)), (proj2 (Z.eqb_neq z x)); [done | done | by intros ->].
    + intros z Hz Hzy. rewrite P by (by apply Hm). rewrite (proj2 (Z.eqb_neq z n)), (proj2 (Z.eqb_neq z y)); [done | done | by intros ->].
  - unfold circle, cycle. cbn. rewrite N, P by done. by rewrite Z.eqb_refl.
Qed.
End change.

(** ** The queues of the kernel in memory *)
Section queues.
(** The address of the head of a queue and of the [tlist] of a thread, and the thread of
    such an address. *)
Context (head : qid → Z) (node : tid → Z) (rt_list_entry : Z → tid).
Hypotheses (Hhead : Inj (=) (=) head) (Hentry : ∀ t, rt_list_entry (node t) = t) (Hapart : ∀ q t, head q ≠ node t).

(** Every queue whose head is in memory is the cycle of the nodes of its threads; the
    node of a thread in no queue is alone. *)
Record linked_as (m : nodes) (f : qid → list tid) : Prop := {
  la_nodup q : NoDup (f q);
  la_disj t q1 q2 : t ∈ f q1 → t ∈ f q2 → q1 = q2;
  la_circle q : is_Some (m !! head q) → circle m (head q) (node <$> f q);
  la_empty q : m !! head q = None → f q = [];
  la_alone t : is_Some (m !! node t) → (∀ q, t ∉ f q) → circle m (node t) [] }.

#[local] Instance node_inj : Inj (=) (=) node.
Proof. intros t u E. by rewrite <- (Hentry t), E, Hentry. Qed.

Lemma circle_nodup m f q : linked_as m f → NoDup (head q :: (node <$> f q)).
Proof.
  intros L. apply NoDup_cons. split.
  - intros (t & E & _)%list_elem_of_fmap. by apply (Hapart q t).
  - apply NoDup_fmap_2; [apply _ | apply L].
Qed.

(** Nodes outside a queue and its head. *)
Lemma other_members m f q q' z : linked_as m f → q ≠ q' →
  z ∈ head q' :: (node <$> f q') → (z ∉ head q :: (node <$> f q)).
Proof.
  intros L Hne Hz Hz'. apply elem_of_cons in Hz as [-> | (t & -> & Ht)%list_elem_of_fmap];
    apply elem_of_cons in Hz' as [E | (t' & E & Ht')%list_elem_of_fmap].
  - apply Hhead in E. by subst.
  - by apply Hapart in E.
  - symmetry in E. by apply Hapart in E.
  - apply node_inj in E as <-. apply Hne. by apply (la_disj m f L t).
Qed.

Lemma alone_outside m f q t z : linked_as m f → t ∉ f q → z ∈ head q :: (node <$> f q) → z ≠ node t.
Proof.
  intros L Ht [-> | (u & -> & Hu)%list_elem_of_fmap]%elem_of_cons; [done |]. intros ->%node_inj. done.
Qed.

Lemma changed_is m m' fn fp a : changes m m' fn fp → m' !! a = None ↔ m !! a = None.
Proof. intros C. rewrite !eq_None_not_Some. by rewrite (ch_dom _ _ _ _ C). Qed.

Section edit.
Context (m m' : nodes) (f f' : qid → list tid) (q : qid) (l1 : list tid) (t : tid) (l2 : list tid) (a1 : list Z) (x y : Z) (a2 : list Z).
Hypotheses (L : linked_as m f) (Hmq : is_Some (m !! head q)) (Hqs : ∀ q', q' ≠ q → f' q' = f q').
Hypothesis (A : around (head q) (node <$> l1) (node <$> l2) a1 x y a2).

(** Lists of other queues and lone nodes are not concerned. *)
Lemma others_kept fn fp :
  changes m m' fn fp → (∀ z o, z ≠ node t → z ≠ x → z ≠ y → fn z o = o ∧ fp z o = o) →
  (∀ u, u ∈ l1 ++ l2 → u ∈ f q) → (∀ q' u, u ∈ f' q' ↔ (u ∈ f q' ∧ u ≠ t) ∨ u = t ∧ q' = q ∧ t ∈ f' q) →
  (∀ q', q' ≠ q → t ∉ f q') → NoDup (f' q) →
  circle m' (head q) (node <$> f' q) → ((∀ q', t ∉ f' q') → circle m' (node t) []) → linked_as m' f'.
Proof using L Hmq Hqs A Hhead Hentry Hapart.
  intros C Hfix Hl Hmem Htq Hnd' Hcq Hct.
  assert (Hxy : x ∈ head q :: (node <$> f q) ∧ y ∈ head q :: (node <$> f q)).
  { destruct (around_members A) as [Hx Hy]. assert (Hs : ∀ z, z ∈ head q :: (node <$> l1) ++ (node <$> l2) → z ∈ head q :: (node <$> f q)).
    { intros z [-> | Hz]%elem_of_cons; [left | right]. rewrite <- fmap_app in Hz.
      apply list_elem_of_fmap in Hz as (u & -> & Hu). apply list_elem_of_fmap_2. by apply Hl. }
    split; by apply Hs. }
  split.
  - intros q'. destruct (decide (q' = q)) as [-> | Hne]; [done | rewrite Hqs by done; apply L].
  - intros u q1 q2 H1 H2. apply (proj1 (Hmem _ _)) in H1, H2.
    destruct H1 as [[H1 Hu1] | (-> & -> & _)], H2 as [[H2 Hu2] | (Hu2 & -> & _)]; try done. by apply (la_disj m f L u).
  - intros q' Hm'. apply (ch_dom _ _ _ _ C) in Hm'. destruct (decide (q' = q)) as [-> | Hne]; [done |].
    rewrite Hqs by done. eapply circle_frame; [exact C | by apply (circle_nodup m) | by apply L |]. intros z o Hz.
    pose proof (other_members m f q q' z L (not_eq_sym Hne) Hz) as Ho. apply Hfix.
    + apply (alone_outside m f q'); [done | by apply Htq | done].
    + intros ->. apply Ho, Hxy.
    + intros ->. apply Ho, Hxy.
  - intros q' Hm'%(changed_is _ _ _ _ _ C). pose proof (la_empty m f L q' Hm') as He.
    destruct (decide (q' = q)) as [-> | Hne]; [| by rewrite Hqs]. rewrite Hm' in Hmq. by destruct Hmq.
  - intros u Hm' Hu. apply (ch_dom _ _ _ _ C) in Hm'. destruct (decide (u = t)) as [-> | Hut]; [by apply Hct |].
    assert (Huf : ∀ q, u ∉ f q) by (intros q' Hin; apply (Hu q'), (proj2 (Hmem _ _)); by left).
    eapply circle_frame; [exact C | apply NoDup_singleton | by apply L |]. intros z o Hz. apply list_elem_of_singleton in Hz as ->.
    apply Hfix; [by intros ?%node_inj | |]; apply not_eq_sym, (alone_outside m f q u _ L (Huf q)), Hxy.
Qed.

Lemma insert_linked :
  f q = l1 ++ l2 → (∀ q, t ∉ f q) → is_Some (m !! node t) → put_between x (node t) y m m' → f' q = l1 ++ t :: l2 → linked_as m' f'.
Proof using L Hmq Hqs A Hhead Hentry Hapart.
  intros Hq Ht Hmt C Hq'. pose proof (circle_nodup m f q L) as Hnd. pose proof (la_circle m f L q Hmq) as Hr.
  rewrite Hq, fmap_app in Hnd, Hr. eapply others_kept; [exact C | | | | | | |].
  - intros z o ???. cbn beta. by rewrite (proj2 (Z.eqb_neq z (node t))), (proj2 (Z.eqb_neq z x)), (proj2 (Z.eqb_neq z y)).
  - by rewrite Hq.
  - intros q' u. destruct (decide (q' = q)) as [-> | Hne].
    + pose proof (Ht q) as Htq. rewrite Hq in Htq. rewrite Hq', Hq, !elem_of_app, !elem_of_cons in *. destruct (decide (u = t)) as [-> |]; tauto.
    + rewrite Hqs by done. pose proof (Ht q'). split; [intros Hu; left; split; [done | by intros ->] | by intros [[? _] | (_ & ? & _)]].
  - intros q' _. apply Ht.
  - rewrite Hq', <- Permutation_middle, <- Hq. apply NoDup_cons. split; [apply Ht | apply L].
  - rewrite Hq', fmap_app, fmap_cons. apply (circle_put m m' _ _ _ _ a1 x y a2); try done.
    rewrite <- fmap_app, <- Hq. intros Hin. by apply (alone_outside m f q t _ L (Ht q) Hin).
  - intros Hno. destruct (Hno q). rewrite Hq', elem_of_app. right; left.
Qed.

Lemma remove_linked :
  f q = l1 ++ t :: l2 → taken_between x (node t) y m m' → f' q = l1 ++ l2 → linked_as m' f'.
Proof using L Hmq Hqs A Hhead Hentry Hapart.
  intros Hq C Hq'. pose proof (circle_nodup m f q L) as Hnd. pose proof (la_circle m f L q Hmq) as Hr.
  pose proof (la_nodup m f L q) as Hn. rewrite Hq, <- Permutation_middle in Hn. apply NoDup_cons in Hn as [Htab Hn].
  rewrite Hq, fmap_app, fmap_cons in Hnd, Hr. rewrite app_comm_cons, <- Permutation_middle, <- app_comm_cons in Hnd.
  apply NoDup_cons in Hnd as [Ht Hnd].
  destruct (circle_take m m' _ _ _ _ a1 x y a2 A Hnd Ht C Hr) as [Hcq Hct]. rewrite <- fmap_app, <- Hq' in Hcq.
  eapply others_kept; [exact C | | | | | | done | done].
  - intros z o ???. cbn beta. by rewrite (proj2 (Z.eqb_neq z (node t))), (proj2 (Z.eqb_neq z x)), (proj2 (Z.eqb_neq z y)).
  - intros u. rewrite Hq, !elem_of_app, elem_of_cons. tauto.
  - intros q' u. rewrite Hq'. destruct (decide (q' = q)) as [-> | Hne].
    + rewrite Hq', Hq, !elem_of_app, !elem_of_cons in *. destruct (decide (u = t)) as [-> |]; tauto.
    + rewrite Hqs by done. split; [| tauto]. intros Hu. left. split; [done |]. intros ->. apply Hne, (la_disj m f L t); [done |].
      rewrite Hq, elem_of_app. right; left.
  - intros q' Hne Hin. apply Hne, (la_disj m f L t); [done |]. rewrite Hq, elem_of_app. right; left.
  - by rewrite Hq'.
Qed.
End edit.

(** The search loop of [rt_ipc_list_suspend] from the node [n], and the insertion. *)
Fixpoint place_from (fuel : nat) (prio : tid → res Z) (p list n : Z) (m : nodes) : res Z :=
  if n =? list then Ok list
  else match fuel with
    | O => Stop OutOfFuel
    | S fuel =>
        sprio ← prio (rt_list_entry n);
        if p <? sprio then Ok n
        else n ← get_next n m; place_from fuel prio p list n m
    end.
Definition list_insert_prio (fuel : nat) (prio : tid → res Z) (p list thread : Z) (m : nodes) : res nodes :=
  n ← get_next list m;
  n ← place_from fuel prio p list n m;
  rt_list_insert_before n thread m.

Definition prio_of (k : kernel) (u : tid) : res Z := current_priority <$> get_thread u k.

(** The loop stops where [wait_insert] does. *)
Lemma place_from_ok m k t p q : (∀ u, head q ≠ node u) → ∀ l l' n r,
  wait_insert t p k l = Ok l' → (node <$> l) ++ [head q] = n :: r → chain (nxt m) (prv m) (n :: r) →
  ∃ l1 l2 y a, l = l1 ++ l2 ∧ l' = l1 ++ t :: l2 ∧ (node <$> l2) ++ [head q] = y :: a ∧
    place_from (length l) (prio_of k) p (head q) n m = Ok y.
Proof.
  intros Hh. induction l as [| s l IH]; intros l' n r; cbn [wait_insert fmap list_fmap app].
  - intros [= <-] [= <- <-] _. exists [], [], (head q), []. split_and!; try done. cbn. by rewrite Z.eqb_refl.
  - intros Hw [= <- E] Hc. assert (Hns : (node s =? head q) = false) by (apply Z.eqb_neq; intros E'; by apply (Hh s)).
    change (list_fmap tid Z node l) with (node <$> l) in *.
    destruct (get_thread s k) as [th | e] eqn:Eg; [| done]. cbn [mbind res_bind] in Hw.
    assert (Hp : prio_of k s = Ok (current_priority th)) by (unfold prio_of; by rewrite Eg).
    cbn [length place_from]. rewrite Hns, Hentry, Hp. cbn [mbind res_bind].
    destruct (p <? current_priority th).
    + injection Hw as <-. exists [], (s :: l), (node s), r. split_and!; try done. cbn. by rewrite <- E.
    + destruct (wait_insert t p k l) as [l0 | e] eqn:Ew; [| done]. injection Hw as <-.
      destruct r as [| n' r']; [by destruct l |]. destruct Hc as (Hnx & _ & Hc).
      rewrite (get_next_ok m _ n' Hnx). cbn [mbind res_bind].
      destruct (IH l0 n' r' eq_refl E Hc) as (l1 & l2 & y & a & -> & -> & Ey & Hpl).
      by exists (s :: l1), l2, y, a.
Qed.

(** A queue around a place. *)
Lemma place m f q l1 l2 :
  linked_as m f → f q = l1 ++ l2 → is_Some (m !! head q) →
  ∃ a1 x y a2, around (head q) (node <$> l1) (node <$> l2) a1 x y a2 ∧ chain (nxt m) (prv m) (y :: a2) ∧
    nxt m x = Some y ∧ prv m y = Some x ∧ is_Some (m !! x) ∧ is_Some (m !! y) ∧
    x ∈ head q :: (node <$> f q) ∧ y ∈ head q :: (node <$> f q).
Proof.
  intros L Hq Hm. pose proof (circle_nodup m f q L) as Hnd. rewrite Hq, fmap_app in *.
  destruct (place_around _ _ _ Hnd) as (a1 & x & y & a2 & A). exists a1, x, y, a2.
  pose proof (la_circle m f L q Hm) as Hr. rewrite Hq, fmap_app in Hr.
  apply (cycle_gap A) in Hr as (_ & Hn & Hp & Hc). destruct (around_members A).
  split_and!; try done; eapply in_memory; [left | right]; done.
Qed.

Definition grown (f : qid → list tid) (q : qid) (l1 : list tid) (t : tid) (l2 : list tid) (f' : qid → list tid) : Prop :=
  f' q = l1 ++ t :: l2 ∧ ∀ q', q' ≠ q → f' q' = f q'.

Section insertions.
Context (m : nodes) (f : qid → list tid) (q : qid) (l1 : list tid) (t : tid) (l2 : list tid).
Hypotheses (L : linked_as m f) (Hq : f q = l1 ++ l2) (Ht : ∀ q, t ∉ f q).
Hypotheses (Hmq : is_Some (m !! head q)) (Hmt : is_Some (m !! node t)).

Lemma insert_before_linked y a :
  (node <$> l2) ++ [head q] = y :: a →
  ∃ m', rt_list_insert_before y (node t) m = Ok m' ∧ ∀ f', grown f q l1 t l2 f' → linked_as m' f'.
Proof using L Hq Ht Hmq Hmt Hhead Hentry Hapart.
  intros Ey. destruct (place m f q l1 l2 L Hq Hmq) as (a1 & x & y' & a2 & A & _ & Hn & Hp & Hmx & Hmy & Hx & Hy).
  pose proof (ar_right _ _ _ _ _ _ _ A) as Eb. rewrite Ey in Eb. injection Eb as <- <-.
  destruct (insert_before_ok m x (node t) y Hmt Hmx Hmy Hp) as (m' & Hm' & C).
  { apply not_eq_sym, (alone_outside m f q t y L (Ht q) Hy). }
  exists m'. split; [done |]. intros f' [Hf Hfs]. by apply (insert_linked m m' f f' q l1 t l2 a1 x y a).
Qed.

Lemma insert_after_linked :
  l1 = [] → ∃ m', rt_list_insert_after (head q) (node t) m = Ok m' ∧ ∀ f', grown f q l1 t l2 f' → linked_as m' f'.
Proof using L Hq Ht Hmq Hmt Hhead Hentry Hapart.
  intros E1. destruct (place m f q l1 l2 L Hq Hmq) as (a1 & x & y & a2 & A & _ & Hn & Hp & Hmx & Hmy & Hx & Hy).
  assert (x = head q) as ->.
  { pose proof (around_x A) as Hin. rewrite E1 in Hin. by apply list_elem_of_singleton in Hin. }
  destruct (insert_after_ok m (head q) (node t) y Hmt Hmx Hmy Hn) as (m' & Hm' & C).
  { apply not_eq_sym, (alone_outside m f q t _ L (Ht q) Hx). }
  exists m'. split; [done |]. intros f' [Hf Hfs]. by apply (insert_linked m m' f f' q l1 t l2 a1 (head q) y a2).
Qed.
End insertions.

(** The neighbours of a linked node. *)
Lemma neighbours m f q l1 t l2 :
  linked_as m f → f q = l1 ++ t :: l2 → is_Some (m !! head q) →
  ∃ a1 x y a2, around (head q) (node <$> l1) (node <$> l2) a1 x y a2 ∧
    prv m (node t) = Some x ∧ nxt m (node t) = Some y ∧ is_Some (m !! x) ∧ is_Some (m !! y) ∧ x ≠ node t ∧ y ≠ node t.
Proof.
  intros L Hq Hm. pose proof (circle_nodup m f q L) as Hnd. rewrite Hq, fmap_app, fmap_cons in Hnd.
  rewrite app_comm_cons, <- Permutation_middle, <- app_comm_cons in Hnd. apply NoDup_cons in Hnd as [Ht Hnd].
  destruct (place_around _ _ _ Hnd) as (a1 & x & y & a2 & A).
  pose proof (la_circle m f L q Hm) as Hr. rewrite Hq, fmap_app, fmap_cons in Hr.
  apply (cycle_at A) in Hr as (_ & Hn & Hp & Hn' & Hp' & _).
  destruct (around_apart _ _ _ _ _ _ _ _ A Ht). exists a1, x, y, a2. split_and!; try done; eapply in_memory; [left | right]; done.
Qed.

Definition shrunk (f : qid → list tid) (t : tid) (f' : qid → list tid) : Prop :=
  ∀ q, f' q = filter (λ u, u ≠ t) (f q).

(** [t] may be in no queue: then its node is alone, and stays so. *)
Lemma remove_alone m f t :
  linked_as m f → (∀ q, t ∉ f q) → is_Some (m !! node t) →
  ∃ m', rt_list_remove (node t) m = Ok m' ∧ ∀ f', (∀ q, f' q = f q) → linked_as m' f'.
Proof.
  intros L Ht Hm. destruct (la_alone m f L t Hm Ht) as (Hn & Hp & _).
  destruct (remove_ok m (node t) (node t) (node t) Hm Hm Hm Hp Hn) as (m' & Hm' & C); [done |].
  exists m'. split; [done |]. intros f' Hf. pose proof C as [D N P].
  assert (Hfr : ∀ h l, NoDup (h :: l) → circle m h l → h ≠ node t → node t ∉ l → circle m' h l).
  { intros h l Hnd Hr Hh Hl. eapply circle_frame; [exact C | done | done |]. intros z o Hz. cbn beta.
    assert (Hz' : z ≠ node t) by (intros ->; apply elem_of_cons in Hz as [? | ?]; by auto).
    by rewrite (proj2 (Z.eqb_neq z (node t)) Hz'). }
  split.
  - intros q. rewrite Hf. apply L.
  - intros u q1 q2. rewrite !Hf. apply L.
  - intros q Hq%D. rewrite Hf. apply Hfr; [by apply (circle_nodup m) | by apply L | done |].
    intros (u & ->%node_inj & Hu)%list_elem_of_fmap. by apply (Ht q).
  - intros q Hq%(changed_is _ _ _ _ _ C). rewrite Hf. by apply (la_empty m f L).
  - intros u Hu%D Huf. destruct (decide (u = t)) as [-> | Hne].
    + change (nxt m' (node t) = Some (node t) ∧ prv m' (node t) = Some (node t) ∧ True). rewrite N, P by done. by rewrite Z.eqb_refl.
    + apply Hfr; [apply NoDup_singleton | | by intros ->%node_inj | by intros ?%elem_of_nil]. apply L; [done |]. intros q. rewrite <- Hf. apply Huf.
Qed.

Lemma remove_anywhere m f t :
  linked_as m f → (∃ q, t ∈ f q) ∨ (∀ q, t ∉ f q) → is_Some (m !! node t) →
  ∃ m', rt_list_remove (node t) m = Ok m' ∧ ∀ f', shrunk f t f' → linked_as m' f'.
Proof.
  intros L [[q Hq] | Ht] Hm.
  - apply list_elem_of_split in Hq as (a & b & Hq).
    assert (Hmq : is_Some (m !! head q)).
    { destruct (m !! head q) eqn:E; [eauto |]. apply (la_empty m f L) in E. rewrite E in Hq. by destruct a. }
    destruct (neighbours m f q a t b L Hq Hmq) as (a1 & x & y & a2 & A & Hp & Hn & Hmx & Hmy & Hxt & Hyt).
    destruct (remove_ok m x (node t) y Hm Hmx Hmy Hp Hn) as (m' & Hm' & C); [tauto |].
    exists m'. split; [done |]. intros f' Hf. apply (remove_linked m m' f f' q a t b a1 x y a2); try done.
    + intros q' Hne. rewrite Hf. apply filter_ne_id. intros Hin. apply Hne. apply (la_disj m f L t); [done |].
      rewrite Hq, elem_of_app. right; left.
    + rewrite Hf, Hq. pose proof (la_nodup m f L q) as Hnd. rewrite Hq in Hnd. rewrite <- Permutation_middle in Hnd.
      apply NoDup_cons in Hnd as [Hab _]. rewrite not_elem_of_app in Hab. destruct Hab.
      rewrite filter_app, filter_cons_False by (intros ?; by auto). by rewrite !filter_ne_id.
  - destruct (remove_alone m f t L Ht Hm) as (m' & Hm' & Hl). exists m'. split; [done |].
    intros f' Hf. apply Hl. intros q. rewrite Hf. apply filter_ne_id, Ht.
Qed.

(** ** The operations *)
Lemma linked_somewhere t k : linked t k = true → ∃ q, t ∈ q_get k q.
Proof.
  intros ([q l] & Hin & Hb)%existsb_exists. apply bool_decide_eq_true in Hb. apply list_elem_of_In, elem_of_map_to_list in Hin.
  exists q. unfold q_get. by rewrite Hin.
Qed.
Lemma grown_set k q l1 t l2 : grown (q_get k) q l1 t l2 (q_get (q_set q (l1 ++ t :: l2) k)).
Proof. split; [rewrite q_get_set | intros q' Hne; rewrite q_get_set]; by case_decide. Qed.

Lemma unlinked_insert {k q t} {l : list tid} {k' : kernel} :
  (_ ← require ListCorrupt (negb (linked t k)); Ok (q_set q l k)) = Ok k' → (∀ q, t ∉ q_get k q) ∧ k' = q_set q l k.
Proof.
  destruct (linked t k) eqn:El; cbn; [done |]. intros [= <-]. split; [| done]. by apply linked_false.
Qed.

Lemma isempty_agrees m k q :
  linked_as m (q_get k) → is_Some (m !! head q) → rt_list_isempty (head q) m = Ok (Kernel.rt_list_isempty q k).
Proof.
  intros L Hm. pose proof (la_circle _ _ L q Hm) as Hr. unfold rt_list_isempty, Kernel.rt_list_isempty, circle, cycle in *.
  destruct (q_get k q) as [| u l]; cbn [fmap list_fmap app] in Hr; destruct Hr as (Hn & _).
  - rewrite (get_next_ok m _ _ Hn). cbn [mbind res_bind]. by rewrite Z.eqb_refl.
  - rewrite (get_next_ok m _ _ Hn). cbn [mbind res_bind]. rewrite (proj2 (Z.eqb_neq (node u) (head q))); [done |].
    apply not_eq_sym, Hapart.
Qed.

Lemma first_agrees m k q u :
  linked_as m (q_get k) → is_Some (m !! head q) → Kernel.rt_list_first q k = Ok u → rt_list_first (head q) m = Ok (node u).
Proof.
  intros L Hm. pose proof (la_circle _ _ L q Hm) as Hr. unfold Kernel.rt_list_first, circle, cycle in *.
  destruct (q_get k q) as [| v l]; [done |]. intros [= <-]. destruct Hr as (Hn & _). exact (get_next_ok m _ _ Hn).
Qed.

(** C25. The queues of [Kernel] refined by the intrusive lists in memory: from a memory
    where every queue is the cycle of its threads' nodes, each operation of [rtservice.h]
    (and the priority loop of [rt_ipc_list_suspend]) succeeds and leaves the cycles of
    the queues that the operation of [Kernel] leaves. *)
Theorem list_operations_refine m k q t p :
  linked_as m (q_get k) → is_Some (m !! head q) → is_Some (m !! node t) →
  (∀ k', Kernel.rt_list_insert_before q t k = Ok k' →
     ∃ m', rt_list_insert_before (head q) (node t) m = Ok m' ∧ linked_as m' (q_get k')) ∧
  (∀ k', Kernel.rt_list_insert_after q t k = Ok k' →
     ∃ m', rt_list_insert_after (head q) (node t) m = Ok m' ∧ linked_as m' (q_get k')) ∧
  (∀ l, linked t k = false → wait_insert t p k (q_get k q) = Ok l →
     ∃ m', list_insert_prio (length (q_get k q)) (prio_of k) p (head q) (node t) m = Ok m' ∧ linked_as m' (q_get (q_set q l k))) ∧
  (∃ m', rt_list_remove (node t) m = Ok m' ∧ linked_as m' (q_get (Kernel.rt_list_remove t k))) ∧
  rt_list_isempty (head q) m = Ok (Kernel.rt_list_isempty q k) ∧
  (∀ u, Kernel.rt_list_first q k = Ok u → rt_list_first (head q) m = Ok (node u)).
Proof.
  intros L Hmq Hmt. split_and!.
  - intros k' [Hun ->]%unlinked_insert.
    destruct (insert_before_linked m (q_get k) q (q_get k q) t [] L (eq_sym (app_nil_r _)) Hun Hmq Hmt (head q) [] eq_refl) as (m' & Hm' & Hl).
    exists m'. split; [done | apply Hl, grown_set].
  - intros k' [Hun ->]%unlinked_insert.
    destruct (insert_after_linked m (q_get k) q [] t (q_get k q) L eq_refl Hun Hmq Hmt eq_refl) as (m' & Hm' & Hl).
    exists m'. split; [done | apply Hl, (grown_set k q [])].
  - intros l Hun Hw. pose proof (proj1 (linked_false t k) Hun) as Hun'; clear Hun; rename Hun' into Hun. pose proof (la_circle _ _ L q Hmq) as Hr.
    destruct ((node <$> q_get k q) ++ [head q]) as [| n r] eqn:En; [by destruct (q_get k q) |].
    unfold circle, cycle in Hr. rewrite En in Hr. destruct Hr as (Hn & _ & Hc).
    destruct (place_from_ok m k t p q (Hapart q) _ _ _ _ Hw En Hc) as (l1 & l2 & y & a & Hq & -> & Ey & Hp).
    destruct (insert_before_linked m (q_get k) q l1 t l2 L Hq Hun Hmq Hmt y a Ey) as (m' & Hm' & Hl).
    exists m'. split; [| apply Hl, grown_set]. unfold list_insert_prio. rewrite (get_next_ok m _ _ Hn). cbn [mbind res_bind].
    rewrite Hp. exact Hm'.
  - destruct (remove_anywhere m (q_get k) t L) as (m' & Hm' & Hl); [| done |].
    + destruct (linked t k) eqn:El; [left | right; by apply linked_false]. by apply linked_somewhere.
    + exists m'. split; [done |]. apply Hl. intros q'. apply q_get_remove.
  - by apply isempty_agrees.
  - intros u. by apply first_agrees.
Qed.
End queues.

(** A list is made empty. *)
Lemma rt_list_init_ok m l : is_Some (m !! l) → ∃ m', rt_list_init l m = Ok m' ∧ circle m' l [].
Proof.
  intros Hl. unfold rt_list_init. destruct (set_prev_ok l l m Hl) as (m1 & -> & C1). cbn [mbind res_bind].
  assert (Hl1 : is_Some (m1 !! l)) by (by apply (ch_dom _ _ _ _ C1)).
  destruct (set_next_ok l l m1 Hl1) as (m2 & -> & C2). exists m2. split; [done |].
  change (nxt m2 l = Some l ∧ prv m2 l = Some l ∧ True). rewrite (ch_nxt _ _ _ _ C2 l Hl1), (ch_prv _ _ _ _ C2 l Hl1), (ch_prv _ _ _ _ C1 l Hl).
  by rewrite Z.eqb_refl.
Qed.

(** Two threads wait in priority order; a third node, of the same priority as the first, is put between them. *)
Definition demo_head (q : qid) : Z := Zpos (encode q).
Definition demo_node (t : tid) : Z := - Z.of_nat t - 1.
Definition demo_entry (z : Z) : tid := Z.to_nat (- z - 1).
Definition list_thread (p : Z) : rt_thread := mk_thread THREAD_SUSPEND p p 0 0 0 0 5 5 None 0x4000 512 0x41FC 35.
Definition list_kernel : kernel :=
  q_set (QWait 0) [1; 2]%nat (set_threads {[1%nat := list_thread 10; 2%nat := list_thread 12; 3%nat := list_thread 10]} boot_kernel).
Definition list_nodes : nodes :=
  let h := demo_head (QWait 0) in {[h := mk_node (-2) (-3); -2 := mk_node (-3) h; -3 := mk_node h (-2); -4 := mk_node (-4) (-4)]}.

#[local] Instance demo_head_inj : Inj (=) (=) demo_head.
Proof. intros q q' [= E]. by apply (inj encode). Qed.
Lemma demo_entry_node t : demo_entry (demo_node t) = t.
Proof. unfold demo_entry, demo_node. lia. Qed.
Lemma demo_apart q t : demo_head q ≠ demo_node t.
Proof. unfold demo_head, demo_node. lia. Qed.

Lemma list_queues q : q_get list_kernel q = if decide (q = QWait 0) then [1; 2]%nat else [].
Proof. unfold list_kernel. by rewrite q_get_set. Qed.

Lemma list_linked : linked_as demo_head demo_node list_nodes (q_get list_kernel).
Proof.
  assert (Hq : ∀ q, is_Some (list_nodes !! demo_head q) → q = QWait 0).
  { intros q [n Hn]. apply (inj demo_head). unfold list_nodes in Hn. cbv zeta in Hn.
    destruct (decide (demo_head q = demo_head (QWait 0))) as [E | Hne]; [done |].
    rewrite !lookup_insert_ne, lookup_singleton_ne in Hn; [done | unfold demo_head in *; lia ..]. }
  split.
  - intros q. rewrite list_queues. case_decide; [| constructor]. repeat constructor; set_solver.
  - intros t q1 q2. rewrite !list_queues. repeat case_decide; subst; set_solver.
  - intros q ->%Hq. rewrite list_queues, decide_True by done. vm_compute. tauto.
  - intros q Hn. rewrite list_queues. case_decide as E; [subst | done]. by vm_compute in Hn.
  - intros t [n Hn] Ht. pose proof (Ht (QWait 0)) as Hw. rewrite list_queues, decide_True in Hw by done.
    assert (E : t = 3%nat).
    { unfold list_nodes in Hn. cbv zeta in Hn. destruct (decide (t = 3%nat)) as [| Hne]; [done |].
      assert (t ≠ 1%nat ∧ t ≠ 2%nat) as [? ?] by (split; intros ->; apply Hw; set_solver).
      rewrite !lookup_insert_ne, lookup_singleton_ne in Hn; [done | unfold demo_head, demo_node in *; lia ..]. }
    subst. vm_compute. tauto.
Qed.

Lemma list_operations_refine_witness :
  ∃ m', list_insert_prio demo_entry 2 (prio_of list_kernel) 10 (demo_head (QWait 0)) (demo_node 3) list_nodes = Ok m' ∧
    linked_as demo_head demo_node m' (q_get (q_set (QWait 0) [1; 3; 2]%nat list_kernel)).
Proof.
  pose proof (list_operations_refine demo_head demo_node demo_entry demo_head_inj demo_entry_node demo_apart
    list_nodes list_kernel (QWait 0) 3 10 list_linked) as H.
  destruct H as (_ & _ & H & _); [by vm_compute; eauto | by vm_compute; eauto |].
  apply (H [1; 3; 2]%nat); by vm_compute.
Defined.
