(* ===== verification/Semaphore.v ===== *)
(** * Semaphores: [rt_sem_*] of [src/ipc.c]

    A blocking call is split where it calls [rt_schedule]: [rt_sem_take]
    returns [None] once the caller is suspended, and [rt_sem_take_resume] is
    what the caller does when it runs again. *)
From S2P Require Import Prelude Timer KObject Kernel KernelInv ThreadOps Tick ThreadProps Ipc.
Local Open Scope Z_scope.

Record semaphore := mk_sem { sem_value : Z; sem_flag : Z }.
Definition set_value (v : Z) (s : semaphore) : semaphore := mk_sem v (sem_flag s).

(** ** Operations; [i] names the object and its waiting list *)
Definition rt_sem_init (i : nat) (value flag : Z) (k : kernel) : res (semaphore * kernel) :=
  k ← on_objects (rt_object_init Object_Class_Semaphore (OIpc i) 0) k;
  let k := rt_ipc_object_init (QWait i) k in
  Ok (mk_sem (u16 value) flag, k).

Definition rt_sem_detach (i : nat) (k : kernel) : res kernel :=
  k ← resume_all (QWait i) k;
  on_objects (rt_object_detach (OIpc i)) k.

(** [alloc]: whether the heap had room. *)
Definition rt_sem_create (i : nat) (alloc : bool) (value flag : Z) (k : kernel) :
    res (kernel * option semaphore) :=
  _ ← debug_not_in_interrupt k;
  '(o, sem) ← rt_object_allocate Object_Class_Semaphore (if alloc then Some (OIpc i) else None) (objs k);
  let k := set_objs o k in
  match sem with
  | None => Ok (k, None)
  | Some _ =>
      let k := rt_ipc_object_init (QWait i) k in
      Ok (k, Some (mk_sem (u16 value) flag))
  end.

Definition rt_sem_delete (i : nat) (k : kernel) : res kernel :=
  _ ← debug_not_in_interrupt k;
  k ← resume_all (QWait i) k;
  on_objects (rt_object_delete (OIpc i)) k.

Definition rt_sem_take (i : nat) (time : Z) (s : semaphore) (k : kernel) :
    res (semaphore * kernel * option Z) :=
  if 0 <? sem_value s then Ok (set_value (u16 (sem_value s - 1)) s, k, Some RT_EOK)
  else if time =? 0 then Ok (s, k, Some (- RT_ETIMEOUT))
  else
    _ ← debug_in_thread_context k;
    thread ← of_option NullDeref (rt_thread_self k);
    th ← get_thread thread k;
    let k := set_thread thread (with_error RT_EOK th) k in
    k ← suspend_on (QWait i) thread (sem_flag s) time k;
    k ← rt_schedule k;
    Ok (s, k, None).

Definition rt_sem_take_resume (thread : tid) (k : kernel) : res Z :=
  th ← get_thread thread k;
  if negb (error th =? RT_EOK) then Ok (error th) else Ok RT_EOK.

Definition rt_sem_trytake (i : nat) (s : semaphore) (k : kernel) : res (semaphore * kernel * option Z) :=
  rt_sem_take i 0 s k.

Definition rt_sem_release (i : nat) (s : semaphore) (k : kernel) : res (semaphore * kernel * Z) :=
  if negb (rt_list_isempty (QWait i) k) then
    k ← rt_ipc_list_resume (QWait i) k;
    k ← rt_schedule k;
    Ok (s, k, RT_EOK)
  else Ok (set_value (u16 (sem_value s + 1)) s, k, RT_EOK).

(** [reset]: the command is [RT_IPC_CMD_RESET]. *)
Definition rt_sem_control (i : nat) (reset : bool) (arg : Z) (s : semaphore) (k : kernel) :
    res (semaphore * kernel * Z) :=
  if reset then
    let value := u32 arg in
    k ← resume_all (QWait i) k;
    let s := set_value (u16 value) s in
    k ← rt_schedule k;
    Ok (s, k, RT_EOK)
  else Ok (s, k, - RT_ERROR).

(** ** The invariant: a free token and a waiting thread never coexist *)
Record sem_inv (i : nat) (s : semaphore) (k : kernel) : Prop := {
  si_range : 0 <= sem_value s < 65536;
  si_flag : flag_ok (sem_flag s);
  si_wait : 0 < sem_value s → q_get k (QWait i) = [];
  si_error : ∀ t th, t ∈ q_get k (QWait i) → threads k !! t = Some th → error th = RT_EOK }.

Lemma sem_inv_stable i s k k' : sem_inv i s k → wstable (owns i) k k' → sem_inv i s k'.
Proof.
  intros [R F W E] Hs. constructor; try done.
  - intros Hv. eapply wstable_nil; [exact Hs|done|by left|by apply W].
  - intros t th Hin Ht. destruct (ws_ev _ _ _ Hs (QWait i) t th) as (th0 & Ht0 & []); [done|by left|done..|].
    rewrite <- (E t th0); [done| |done]. eapply sublist_elem; [done|].
    apply (ws_q _ _ _ Hs); [done|by left].
Qed.

(** *** Blocking *)
Lemma take_blocks lo i time s c th k :
  -1 <= lo <= 0 → kinv None lo k → sem_inv i s k → in_thread k c th → time < TICK_HALF →
  sem_value s = 0 → time ≠ 0 →
  ∃ k1, rt_sem_take i time s k = (k' ← rt_schedule k1; Ok (s, k', None)) ∧
    blocked lo i (QWait i) (sem_flag s) time c th k k1 ∧ sem_inv i s k1.
Proof.
  intros Hlo Hk [R F W E] Hin Htime Hv Hne. unfold rt_sem_take. rewrite Hv. simpl (0 <? 0).
  rewrite (proj2 (Z.eqb_neq _ _) Hne). rewrite (in_thread_ok k c th) by done. cbn [mbind res_bind].
  destruct (block_current lo i (QWait i) (sem_flag s) time c th k) as (k1 & E1 & Hb);
    [done|done|done|by left|done..|].
  destruct Hin as (_ & Hc & Ht & Hs). unfold rt_thread_self. rewrite Hc. cbn [of_option mbind res_bind].
  rewrite (get_thread_ok c th) by done. cbn [mbind res_bind]. rewrite E1. cbn [mbind res_bind].
  exists k1. split_and!; try done. constructor; try done.
  - rewrite Hv. lia.
  - destruct (bk_wait _ _ _ _ _ _ _ _ _ Hb) as [_ Hth Hq]. intros t tht. rewrite Hq, decide_True, wait_place_perm by done.
    intros Hin. rewrite Hth. intros [[<- <-]|[Hne' Htt]]%lookup_insert_Some; [done|].
    apply elem_of_cons in Hin as [->|Hin]; [done|]. by apply (E t).
Qed.

(** *** Waking *)
Lemma release_wakes lo i s t l k :
  kinv None lo k → sem_inv i s k → q_get k (QWait i) = t :: l →
  ∃ th k1, rt_sem_release i s k = (k' ← rt_schedule k1; Ok (s, k', RT_EOK)) ∧ kinv None lo k1 ∧
    threads k !! t = Some th ∧ error th = RT_EOK ∧ woken (QWait i) t th l k k1 ∧
    wstable every k k1.
Proof.
  intros Hk [R F W E] Hl. unfold rt_sem_release, rt_list_isempty. rewrite Hl. cbn [negb].
  destruct (list_resume_spec lo (QWait i) t l k Hk I Hl) as (th & k1 & Ht & Hs & E1 & Hk1 & Hw).
  rewrite E1. cbn [mbind res_bind]. exists th, k1. split_and!; try done.
  - apply (E t); [rewrite Hl; left|done].
  - by apply (woken_wstable every lo (QWait i) t th l).
Qed.

Lemma sem_inv_u16 i s k v :
  sem_inv i s k → (0 < u16 v → q_get k (QWait i) = []) → sem_inv i (set_value (u16 v) s) k.
Proof. intros [R F W E] Hn. constructor; try done. simpl. unfold u16. lia. Qed.

(** *** The protocol *)
Inductive sem_step (i : nat) : semaphore → kernel → semaphore → kernel → Prop :=
  | sem_step_take time s k s' k' r :
      time < TICK_HALF → (sem_value s = 0 → time ≠ 0 → ∃ c th, in_thread k c th) →
      rt_sem_take i time s k = Ok (s', k', r) → sem_step i s k s' k'
  | sem_step_release s k s' k' r :
      rt_sem_release i s k = Ok (s', k', r) → sem_step i s k s' k'
  | sem_step_control reset arg s k s' k' r :
      rt_sem_control i reset arg s k = Ok (s', k', r) → sem_step i s k s' k'.

Lemma sem_step_ok i s k s' k' :
  kinv None 0 k → sem_inv i s k → sem_step i s k s' k' →
  kinv None 0 k' ∧ sem_inv i s' k' ∧ ∀ j, j ≠ i → wstable (owns j) k k'.
Proof.
  intros Hk Hi Hs. pose proof Hi as [R F W E]. destruct Hs as [time s k s' k' r Ht Hin Hr|s k s' k' r Hr|reset arg s k s' k' r Hr].
  - destruct (Z.ltb_spec 0 (sem_value s)) as [Hp|Hz].
    + unfold rt_sem_take in Hr. rewrite (proj2 (Z.ltb_lt _ _) Hp) in Hr. injection Hr as <- <- _.
      split_and!; [done| |done]. apply sem_inv_u16; auto.
    + assert (Hv : sem_value s = 0) by lia. destruct (Z.eq_dec time 0) as [->|Hne].
      * unfold rt_sem_take in Hr. rewrite Hv in Hr. injection Hr as <- <- _. done.
      * destruct (Hin Hv Hne) as (c & th & Hc).
        destruct (take_blocks 0 i time s c th k) as (k1 & E1 & [Hk1 _ _ _ Hw] & Hi1); [lia|done..|].
        rewrite E1 in Hr. apply bind_ok_inv in Hr as (k2 & Es & [= <- <- _]).
        split_and!; [by eapply schedule_kinv|eapply sem_inv_stable; [done|by apply wstable_schedule]|].
        intros j Hj. transitivity k1; [by apply Hw|by apply wstable_schedule].
  - destruct (q_get k (QWait i)) as [|t l] eqn:Hl.
    + unfold rt_sem_release, rt_list_isempty in Hr. rewrite Hl in Hr. injection Hr as <- <- _.
      split_and!; [done| |done]. by apply sem_inv_u16.
    + destruct (release_wakes 0 i s t l k Hk Hi Hl) as (th & k1 & E1 & Hk1 & _ & _ & _ & Hw).
      rewrite E1 in Hr. apply bind_ok_inv in Hr as (k2 & Es & [= <- <- _]).
      assert (Hw2 : wstable every k k2) by (transitivity k1; [done|by apply wstable_schedule]).
      split_and!; [by eapply schedule_kinv| |intros; by apply wstable_every].
      eapply sem_inv_stable; [done|by apply wstable_every].
  - unfold rt_sem_control in Hr. destruct reset; [|by injection Hr as <- <- _].
    destruct (resume_all_spec 0 (QWait i) _ k Hk I eq_refl)
      as (k1 & E1 & Hk1 & _ & Hq & _ & _ & _ & _ & Hw).
    unfold resume_all in Hr. rewrite E1 in Hr. cbn [mbind res_bind] in Hr.
    apply bind_ok_inv in Hr as (k2 & Es & [= <- <- _]).
    assert (Hw2 : wstable every k k2) by (transitivity k1; [done|by apply wstable_schedule]).
    split_and!; [by eapply schedule_kinv| |intros; by apply wstable_every].
    apply sem_inv_u16; [eapply sem_inv_stable; [done|by apply wstable_every]|].
    intros _. eapply (wstable_nil every k1); [by apply wstable_schedule|done..].
Qed.

#[global] Program Instance sem_protocol : IpcProtocol semaphore :=
  { istep := sem_step; iinv := sem_inv }.
Next Obligation. intros. by eapply sem_inv_stable. Qed.
Next Obligation. intros. by eapply sem_step_ok. Qed.

(** ** Properties *)

(** C27. [rt_sem_take] on a well-formed kernel: a positive count is decremented
    and the call succeeds; an empty semaphore with no waiting time gives
    [-RT_ETIMEOUT] and changes nothing; otherwise the caller is suspended with
    a clean error at the place its flag asks for, its timer runs for [time]
    ticks exactly when [time] is positive, and the highest ready thread runs. *)
Theorem rt_sem_take_spec lo i time s c th k :
  -1 <= lo <= 0 → kinv None lo k → sem_inv i s k → in_thread k c th → time < TICK_HALF →
  others_ready c k →
  if 0 <? sem_value s then
    rt_sem_take i time s k = Ok (set_value (sem_value s - 1) s, k, Some RT_EOK)
  else if time =? 0 then rt_sem_take i time s k = Ok (s, k, Some (- RT_ETIMEOUT))
  else ∃ k1 k', rt_sem_take i time s k = Ok (s, k', None) ∧ kinv None lo k' ∧
    waiting (QWait i) (sem_flag s) c (with_error RT_EOK th) k k1 ∧ scheduled k1 k' ∧
    (if 0 <? time
     then TThread c ∈ rt_timer_list (tsys k1) ∧ remaining (tsys k1) (TThread c) = time
     else TThread c ∉ rt_timer_list (tsys k1)).
Proof.
  intros Hlo Hk Hi Hin Ht Ho. pose proof Hi as [R F W E].
  destruct (Z.ltb_spec 0 (sem_value s)) as [Hp|Hz].
  { unfold rt_sem_take. rewrite (proj2 (Z.ltb_lt _ _) Hp).
    by replace (u16 (sem_value s - 1)) with (sem_value s - 1) by word. }
  assert (Hv : sem_value s = 0) by lia. destruct (Z.eqb_spec time 0) as [->|Hne].
  { unfold rt_sem_take. by rewrite Hv. }
  destruct (take_blocks lo i time s c th k) as (k1 & -> & Hb & _); [done..|].
  destruct (block_schedule _ _ _ _ _ _ _ _ _ Hb Hin Ho) as (k' & -> & Hk' & Hsch & _).
  destruct Hb. by exists k1, k'.
Qed.

Definition demo_sem (v : Z) : semaphore := mk_sem v RT_IPC_FLAG_PRIO.

Lemma demo_sem_inv i v : 0 <= v < 65536 → sem_inv i (demo_sem v) demo_kernel.
Proof.
  intros Hv. constructor; [done|by right|by intros; apply demo_no_waiter|].
  intros t th Hin. rewrite demo_no_waiter in Hin by exact I. destruct (not_elem_of_nil t Hin).
Qed.

Lemma rt_sem_take_spec_witness :
  ∃ k1 k', rt_sem_take 0 7 (demo_sem 0) demo_kernel = Ok (demo_sem 0, k', None) ∧
    kinv None 0 k' ∧ scheduled k1 k' ∧ remaining (tsys k1) (TThread 1) = 7.
Proof.
  pose proof (rt_sem_take_spec 0 0 7 (demo_sem 0) 1 (demo_thread 1) demo_kernel ltac:(lia) demo_kinv
    (demo_sem_inv 0 0 ltac:(lia)) demo_in_thread ltac:(rewrite tick_half_val; lia) demo_other_ready)
    as (k1 & k' & E & Hk & _ & Hs & _ & Hr).
  exists k1, k'. split; [exact E|split; [exact Hk|split; [exact Hs|exact Hr]]].
Defined.

(** [rt_sem_release] with nobody waiting adds one to the 16-bit count (a
    full count wraps to zero); otherwise the count is left alone and the first
    waiting thread gets the token: it leaves the list, becomes ready, and its
    [rt_sem_take] returns [RT_EOK]. *)
Theorem rt_sem_release_spec lo i s k :
  kinv None lo k → sem_inv i s k → is_Some (rt_current_thread k) →
  match q_get k (QWait i) with
  | [] => rt_sem_release i s k = Ok (set_value (u16 (sem_value s + 1)) s, k, RT_EOK)
  | t :: l => ∃ th k1 k', rt_sem_release i s k = Ok (s, k', RT_EOK) ∧ kinv None lo k' ∧
      threads k !! t = Some th ∧ woken (QWait i) t th l k k1 ∧ scheduled k1 k' ∧
      rt_sem_take_resume t k' = Ok RT_EOK
  end.
Proof.
  intros Hk Hi Hc. destruct (q_get k (QWait i)) as [|t l] eqn:Hl.
  { unfold rt_sem_release, rt_list_isempty. by rewrite Hl. }
  destruct (release_wakes lo i s t l k Hk Hi Hl) as (th & k1 & -> & Hk1 & Ht & He & Hw & _).
  destruct (schedule_spec lo k1 Hk1) as (k' & E & Hk' & Hsch); [apply Hw| |].
  { by rewrite (se_current _ _ (wk_env _ _ _ _ _ _ Hw)). }
  exists th, k1, k'. rewrite E. split_and!; try done.
  unfold rt_sem_take_resume. destruct Hsch as (Sth & _).
  rewrite (get_thread_ok t (with_stat THREAD_READY th)).
  - cbn [mbind res_bind]. simpl. by rewrite He.
  - rewrite Sth, (wk_threads _ _ _ _ _ _ Hw). apply lookup_insert_eq.
Qed.

(** Thread 1 waits on semaphore 0. *)
Definition demo_waits : kernel :=
  match rt_sem_take 0 (-1) (demo_sem 0) demo_kernel with Ok (_, k, _) => k | Stop _ => demo_kernel end.

Lemma demo_waits_ok : kinv None 0 demo_waits ∧ sem_inv 0 (demo_sem 0) demo_waits.
Proof.
  destruct (take_blocks 0 0 (-1) (demo_sem 0) 1 (demo_thread 1) demo_kernel)
    as (k1 & E & Hb & Hi);
    [lia|apply demo_kinv|by apply demo_sem_inv|apply demo_in_thread|rewrite tick_half_val; lia|done|done|].
  destruct (block_schedule _ _ _ _ _ _ _ _ _ Hb demo_in_thread demo_other_ready)
    as (k' & Es & Hk' & _).
  unfold demo_waits. rewrite E, Es. cbn [mbind res_bind]. split; [done|].
  eapply sem_inv_stable; [done|by eapply wstable_schedule].
Qed.

Lemma demo_waits_queue : q_get demo_waits (QWait 0) = [1%nat].
Proof. vm_compute. reflexivity. Qed.

Lemma rt_sem_release_spec_witness :
  ∃ k', rt_sem_release 0 (demo_sem 0) demo_waits = Ok (demo_sem 0, k', RT_EOK) ∧
    kinv None 0 k' ∧ rt_sem_take_resume 1 k' = Ok RT_EOK.
Proof.
  pose proof (rt_sem_release_spec 0 0 (demo_sem 0) demo_waits (proj1 demo_waits_ok)
    (proj2 demo_waits_ok) ltac:(vm_compute; eauto)) as H.
  rewrite demo_waits_queue in H. destruct H as (th & k1 & k' & E & Hk & _ & _ & _ & Hr).
  exists k'. split; [exact E|split; [exact Hk|exact Hr]].
Defined.

(** C36. A thread that waits on an empty semaphore for [n] ticks, while nothing
    but the clock runs, stays suspended until tick number [n]; then it is
    ready, out of the waiting list, and its [rt_sem_take] returns
    [-RT_ETIMEOUT]. *)
Theorem rt_sem_take_times_out user_timeout fuel i n s c th k :
  kinv None 0 k → sem_inv i s k → in_thread k c th → others_ready c k → sem_value s = 0 →
  0 < n < TICK_HALF → thread_timers_only k →
  (S (length (rt_timer_list (tsys k))) < fuel)%nat →
  ∃ k', rt_sem_take i n s k = Ok (s, k', None) ∧
    ∀ m, Z.of_nat m <= n → ∃ k2 th2, ticks user_timeout fuel m k' = Ok k2 ∧
      threads k2 !! c = Some th2 ∧
      if Z.of_nat m <? n then stat th2 = THREAD_SUSPEND
      else stat th2 = THREAD_READY ∧ rt_sem_take_resume c k2 = Ok (- RT_ETIMEOUT) ∧
        c ∉ q_get k2 (QWait i).
Proof.
  intros Hk Hi Hin Ho Hv Hn Hto Hfu.
  destruct (take_blocks 0 i n s c th k) as (k1 & E & Hb & _); [lia|done|done|done|lia|done|lia|].
  destruct (block_schedule _ _ _ _ _ _ _ _ _ Hb Hin Ho) as (k' & Es & _).
  exists k'. rewrite E, Es. split; [done|]. intros m Hm.
  destruct (blocked_times_out user_timeout fuel i (QWait i) (sem_flag s) n c th k k1 k' m)
    as (k2 & th2 & E2 & Ht2 & Hout); try done; [lia|].
  exists k2, th2. split_and!; [done..|]. destruct (_ <? _); [done|].
  destruct Hout as (Hs & He & Hq). split_and!; [done| |done].
  unfold rt_sem_take_resume. rewrite (get_thread_ok c th2) by done. cbn [mbind res_bind].
  by rewrite He.
Qed.

Lemma rt_sem_take_times_out_witness :
  ∃ k' k2, rt_sem_take 0 2 (demo_sem 0) demo_kernel = Ok (demo_sem 0, k', None) ∧
    ticks no_user 2 2 k' = Ok k2 ∧ rt_sem_take_resume 1 k2 = Ok (- RT_ETIMEOUT).
Proof.
  destruct (rt_sem_take_times_out no_user 2 0 2 (demo_sem 0) 1 (demo_thread 1) demo_kernel demo_kinv
    (demo_sem_inv 0 0 ltac:(lia)) demo_in_thread demo_other_ready eq_refl)
    as (k' & E & H).
  - rewrite tick_half_val. lia.
  - intros x. rewrite demo_no_timer. intros Hx. destruct (not_elem_of_nil x Hx).
  - rewrite demo_no_timer. simpl. lia.
  - destruct (H 2%nat ltac:(lia)) as (k2 & th2 & E2 & _ & _ & Hr & _).
    exists k', k2. split; [exact E|split; [exact E2|exact Hr]].
Defined.

(** A blocking [rt_sem_take] called with the scheduler locked reports
    success without the token: [rt_schedule] does nothing, so the caller goes
    on running, suspended and still in the waiting list, finds its error clean
    and returns [RT_EOK] although the count is zero. *)
Theorem rt_sem_take_locked_scheduler lo i time s c th k :
  -1 <= lo <= 0 → kinv None lo k → sem_inv i s k → in_thread k c th → time < TICK_HALF →
  rt_scheduler_lock_nest k ≠ 0 → sem_value s = 0 → time ≠ 0 →
  ∃ k', rt_sem_take i time s k = Ok (s, k', None) ∧ rt_current_thread k' = Some c ∧
    threads k' !! c = Some (blocked_thread th) ∧ c ∈ q_get k' (QWait i) ∧
    rt_sem_take_resume c k' = Ok RT_EOK.
Proof.
  intros Hlo Hk Hi Hin Ht Hlk Hv Hne.
  destruct (take_blocks lo i time s c th k) as (k1 & E & [_ [He Hth Hq] _ _ _] & _); [done..|].
  assert (Es : rt_schedule k1 = Ok k1).
  { unfold rt_schedule. rewrite (se_lock _ _ He). by rewrite (proj2 (Z.eqb_neq _ _) Hlk). }
  exists k1. rewrite E, Es. destruct Hin as (_ & Hc & _).
  assert (Ht1 : threads k1 !! c = Some (blocked_thread th)) by (rewrite Hth; apply lookup_insert_eq).
  split_and!; try done.
  - by rewrite (se_current _ _ He).
  - rewrite Hq, decide_True, wait_place_perm by done. left.
  - unfold rt_sem_take_resume. by rewrite (get_thread_ok c _ k1 Ht1).
Qed.

Lemma locked_in_thread k c th : in_thread k c th → in_thread (rt_enter_critical k) c th.
Proof. done. Qed.
Lemma locked_sem_inv i s k : sem_inv i s k → sem_inv i s (rt_enter_critical k).
Proof. intros H. eapply sem_inv_stable; [exact H|by apply wstable_same]. Qed.
Lemma locked_kinv x lo k : kinv x lo k → kinv x lo (rt_enter_critical k).
Proof. apply kinv_set_lock. Qed.

Lemma rt_sem_take_locked_scheduler_witness :
  ∃ k', rt_sem_take 0 5 (demo_sem 0) (rt_enter_critical demo_kernel) = Ok (demo_sem 0, k', None) ∧
    rt_sem_take_resume 1 k' = Ok RT_EOK.
Proof.
  destruct (rt_sem_take_locked_scheduler 0 0 5 (demo_sem 0) 1 (demo_thread 1)
    (rt_enter_critical demo_kernel)) as (k' & E & _ & _ & _ & Hr).
  - lia.
  - exact (locked_kinv _ _ _ demo_kinv).
  - apply locked_sem_inv, demo_sem_inv. lia.
  - exact (locked_in_thread _ _ _ demo_in_thread).
  - rewrite tick_half_val. lia.
  - vm_compute. discriminate.
  - reflexivity.
  - lia.
  - exists k'. split; [exact E|exact Hr].
Defined.
