(* ===== verification/Mutex.v ===== *)
(** * Mutexes: [rt_mutex_*] of [src/ipc.c]

    Ownership, recursion and priority inheritance.  Blocking calls are split at
    [rt_schedule] as in Semaphore.v. *)
From S2P Require Import Prelude Timer KObject Kernel KernelInv ThreadOps Tick ThreadProps Ipc Semaphore.
Local Open Scope Z_scope.

Record mutex := mk_mutex {
  mutex_value : Z;
  owner : option tid;
  original_priority : Z;
  hold : Z;
  mutex_flag : Z }.
Definition with_hold (h : Z) (m : mutex) : mutex :=
  mk_mutex (mutex_value m) (owner m) (original_priority m) h (mutex_flag m).

(** ** Operations *)
Definition fresh_mutex (flag : Z) : mutex := mk_mutex 1 None 255 0 flag.

Definition rt_mutex_init (i : nat) (flag : Z) (k : kernel) : res (mutex * kernel) :=
  k ← on_objects (rt_object_init Object_Class_Mutex (OIpc i) 0) k;
  let k := rt_ipc_object_init (QWait i) k in
  Ok (fresh_mutex flag, k).

Definition rt_mutex_detach (i : nat) (k : kernel) : res kernel :=
  k ← resume_all (QWait i) k;
  on_objects (rt_object_detach (OIpc i)) k.

Definition rt_mutex_create (i : nat) (alloc : bool) (flag : Z) (k : kernel) : res (kernel * option mutex) :=
  _ ← debug_not_in_interrupt k;
  '(o, m) ← rt_object_allocate Object_Class_Mutex (if alloc then Some (OIpc i) else None) (objs k);
  let k := set_objs o k in
  match m with
  | None => Ok (k, None)
  | Some _ =>
      let k := rt_ipc_object_init (QWait i) k in
      Ok (k, Some (fresh_mutex flag))
  end.

Definition rt_mutex_delete (i : nat) (k : kernel) : res kernel :=
  _ ← debug_not_in_interrupt k;
  k ← resume_all (QWait i) k;
  on_objects (rt_object_delete (OIpc i)) k.

Definition rt_mutex_take (i : nat) (time : Z) (m : mutex) (k : kernel) :
    res (mutex * kernel * option Z) :=
  _ ← debug_in_thread_context k;
  thread ← of_option NullDeref (rt_thread_self k);
  th ← get_thread thread k;
  let th := with_error RT_EOK th in
  let k := set_thread thread th k in
  if decide (owner m = Some thread) then Ok (with_hold (u8 (hold m + 1)) m, k, Some RT_EOK)
  else if 0 <? mutex_value m then
    let m := mk_mutex (u16 (mutex_value m - 1)) (Some thread) (current_priority th)
               (u8 (hold m + 1)) (mutex_flag m) in
    Ok (m, k, Some RT_EOK)
  else if time =? 0 then
    Ok (m, set_thread thread (with_error (- RT_ETIMEOUT) th) k, Some (- RT_ETIMEOUT))
  else
    o ← of_option NullDeref (owner m);
    oth ← get_thread o k;
    k ← (if current_priority th <? current_priority oth
         then rt_thread_control o (CTRL_CHANGE_PRIORITY (current_priority th)) k
         else Ok k);
    k ← suspend_on (QWait i) thread (mutex_flag m) time k;
    k ← rt_schedule k;
    Ok (m, k, None).

Definition rt_mutex_take_resume (thread : tid) (k : kernel) : res Z :=
  th ← get_thread thread k;
  if negb (error th =? RT_EOK) then Ok (error th) else Ok RT_EOK.

Definition rt_mutex_release (i : nat) (m : mutex) (k : kernel) : res (mutex * kernel * Z) :=
  _ ← debug_in_thread_context k;
  thread ← of_option NullDeref (rt_thread_self k);
  th ← get_thread thread k;
  if decide (owner m = Some thread) then
    let m := with_hold (u8 (hold m - 1)) m in
    if hold m =? 0 then
      k ← (if negb (original_priority m =? current_priority th)
           then rt_thread_control thread (CTRL_CHANGE_PRIORITY (original_priority m)) k
           else Ok k);
      if negb (rt_list_isempty (QWait i) k) then
        t ← rt_list_first (QWait i) k;
        tth ← get_thread t k;
        let m := mk_mutex (mutex_value m) (Some t) (current_priority tth) (u8 (hold m + 1)) (mutex_flag m) in
        k ← rt_ipc_list_resume (QWait i) k;
        k ← rt_schedule k;
        Ok (m, k, RT_EOK)
      else Ok (mk_mutex (u16 (mutex_value m + 1)) None 255 (hold m) (mutex_flag m), k, RT_EOK)
    else Ok (m, k, RT_EOK)
  else Ok (m, set_thread thread (with_error (- RT_ERROR) th) k, - RT_ERROR).

Definition rt_mutex_control (m : mutex) (k : kernel) : res (mutex * kernel * Z) :=
  Ok (m, k, - RT_ERROR).

(** ** The invariant *)
Record mutex_inv (i : nat) (m : mutex) (k : kernel) : Prop := {
  mi_flag : flag_ok (mutex_flag m);
  mi_owner : match owner m with
    | None => mutex_value m = 1 ∧ hold m = 0 ∧ q_get k (QWait i) = []
    | Some o => mutex_value m = 0 ∧ 0 <= hold m < 256 ∧ prio_ok (original_priority m) ∧
        o ∉ q_get k (QWait i)
    end;
  mi_error : ∀ t th, t ∈ q_get k (QWait i) → threads k !! t = Some th → error th = RT_EOK }.

Lemma mutex_inv_stable i m k k' : mutex_inv i m k → wstable (owns i) k k' → mutex_inv i m k'.
Proof.
  intros [F O E] Hs.
  assert (Hsub : q_get k' (QWait i) `sublist_of` q_get k (QWait i))
    by (apply (ws_q _ _ _ Hs); [done|by left]).
  constructor; [done|..].
  - destruct (owner m) as [o|]; destruct_and?; split_and!; try done.
    + intros Hin. by eapply sublist_elem in Hin.
    + eapply wstable_nil; [exact Hs|done|by left|done].
  - intros t th Hin Ht. destruct (ws_ev _ _ _ Hs (QWait i) t th) as (th0 & Ht0 & []); [done|by left|done..|].
    rewrite <- (E t th0); [done| |done]. by eapply sublist_elem.
Qed.

(** ** Taking *)

(** The owner's priority after a thread of priority [p] started to wait. *)
Definition boosted (p : Z) (oth : rt_thread) : rt_thread :=
  if p <? current_priority oth then reprioritised p oth else oth.

Lemma maybe_reprioritise lo t th p (b : bool) k :
  kinv None lo k → threads k !! t = Some th → prio_ok p →
  ∃ k', (if b then rt_thread_control t (CTRL_CHANGE_PRIORITY p) k else Ok k) = Ok k' ∧
    kinv None lo k' ∧ same_env k k' ∧
    threads k' = <[t := if b then reprioritised p th else th]> (threads k) ∧
    (∀ q, wait_q q → q_get k' q = q_get k q) ∧ wstable every k k' ∧ tsys k' = tsys k.
Proof.
  intros Hk Ht Hp. destruct b.
  - destruct (reprioritise lo t th p k) as (k' & E & Hk' & Hr); [done..|].
    exists k'. pose proof (reprioritises_wstable every _ _ _ _ _ Ht Hr). by destruct Hr.
  - exists k. split_and!; try done. by rewrite insert_id.
Qed.

Lemma clear_error lo c th k e :
  kinv None lo k → in_thread k c th →
  kinv None lo (set_thread c (with_error e th) k) ∧
  in_thread (set_thread c (with_error e th) k) c (with_error e th) ∧
  wstable every k (set_thread c (with_error e th) k).
Proof.
  intros Hk (Hn & Hc & Ht & Hs). split_and!; try done.
  - by apply (kinv_set_thread _ _ _ th).
  - unfold in_thread. split_and!; [done|done|apply lookup_insert_eq|done].
  - eapply (wstable_leave every c); [done|done|].
    intros q Hw _. by apply (ready_not_waiting None lo c th q k).
Qed.

(** The blocking branch up to [rt_schedule]: [k0] has the error cleared, [k2] the
    owner's priority raised, [k1] the caller suspended. *)
Lemma mutex_blocks lo i time m o oth c th k :
  -1 <= lo <= 0 → kinv None lo k → mutex_inv i m k → in_thread k c th → time < TICK_HALF →
  owner m = Some o → o ≠ c → threads k !! o = Some oth → time ≠ 0 →
  ∃ k2 k1, rt_mutex_take i time m k = (k' ← rt_schedule k1; Ok (m, k', None)) ∧
    wstable every k k2 ∧ in_thread k2 c (with_error RT_EOK th) ∧
    threads k2 = <[o := boosted (current_priority th) oth]> (<[c := with_error RT_EOK th]> (threads k)) ∧
    (∀ q, wait_q q → q_get k2 q = q_get k q) ∧ tsys k2 = tsys k ∧
    blocked lo i (QWait i) (mutex_flag m) time c (with_error RT_EOK th) k2 k1 ∧ mutex_inv i m k1.
Proof.
  intros Hlo Hk Hi Hin Htime Ho Hne Hoth Hnz. pose proof Hi as [F O E]. rewrite Ho in O.
  destruct O as (Hv & Hh & Hp & Hno).
  destruct (clear_error lo c th k RT_EOK Hk Hin) as (Hk0 & Hin0 & Hw0).
  set (k0 := set_thread c (with_error RT_EOK th) k) in *.
  assert (Hoth0 : threads k0 !! o = Some oth) by (simpl; by rewrite lookup_insert_ne).
  pose proof Hin as (_ & Hc & Ht & Hs).
  destruct (ki_thread _ _ _ Hk c th Ht) as [Hpc _ _ _].
  destruct (maybe_reprioritise lo o oth (current_priority th)
    (current_priority th <? current_priority oth) k0) as (k2 & E2 & Hk2 & He2 & Hth2 & Hq2 & Hw2 & Hts2);
    [done..|].
  assert (Hin2 : in_thread k2 c (with_error RT_EOK th)).
  { destruct Hin0 as (Hn0 & Hc0 & Ht0 & Hs0). split_and!; [by rewrite (se_nest _ _ He2)|
      by rewrite (se_current _ _ He2)| |done].
    rewrite Hth2, lookup_insert_ne by done. done. }
  destruct (block_current lo i (QWait i) (mutex_flag m) time c (with_error RT_EOK th) k2)
    as (k1 & E1 & Hb); [done|done|done|by left|done..|].
  assert (Eid : set_thread c (with_error RT_EOK (with_error RT_EOK th)) k2 = k2).
  { apply set_thread_id. by destruct Hin2 as (_ & _ & ? & _). }
  rewrite Eid in E1. exists k2, k1. split_and!; try done.
  - unfold rt_mutex_take. rewrite (in_thread_ok k c th Hin). unfold rt_thread_self. rewrite Hc.
    cbn [of_option mbind res_bind]. rewrite (get_thread_ok c th k Ht). cbn [mbind res_bind].
    fold k0. rewrite decide_False by congruence. rewrite Hv. cbn [Z.ltb Z.compare].
    rewrite (proj2 (Z.eqb_neq _ _) Hnz). rewrite Ho. cbn [of_option mbind res_bind].
    rewrite (get_thread_ok o oth k0 Hoth0). cbn [mbind res_bind].
    change (current_priority (with_error RT_EOK th)) with (current_priority th).
    rewrite E2. cbn [mbind res_bind]. rewrite E1. done.
  - by transitivity k0.
  - destruct Hb as [_ [_ Hth1 Hq1] _ _ _]. constructor; [done|..].
    + rewrite Ho. split; [done|]. split; [done|]. split; [done|].
      rewrite Hq1, decide_True, wait_place_perm, Hq2, elem_of_cons by done. intros [?|?]; done.
    + intros t tht. rewrite Hq1, decide_True, wait_place_perm, Hq2, elem_of_cons by done.
      rewrite Hth1. intros Hint [[<- <-]|[Hnet Htt]]%lookup_insert_Some; [done|].
      destruct Hint as [->|Hint]; [done|].
      destruct (ws_ev _ _ _ (wstable_trans _ _ _ _ Hw0 Hw2) (QWait i) t tht) as (th0 & Ht0 & []);
        [done|done|by rewrite Hq2|done|].
      rewrite <- (E t th0); [done|done|done].
Qed.

(** ** Releasing *)

(** The releasing thread after its last release. *)
Definition restored (p : Z) (th : rt_thread) : rt_thread :=
  if negb (p =? current_priority th) then reprioritised p th else th.

Lemma mutex_releases lo i m c th k :
  kinv None lo k → mutex_inv i m k → in_thread k c th → owner m = Some c → hold m = 1 →
  ∃ k1, kinv None lo k1 ∧ same_env k k1 ∧ wstable every k k1 ∧
    threads k1 = <[c := restored (original_priority m) th]> (threads k) ∧
    (∀ q, wait_q q → q_get k1 q = q_get k q) ∧
    match q_get k (QWait i) with
    | [] => rt_mutex_release i m k = Ok (mk_mutex 1 None 255 0 (mutex_flag m), k1, RT_EOK)
    | t :: l => ∃ tth k2, threads k1 !! t = Some tth ∧ error tth = RT_EOK ∧ woken (QWait i) t tth l k1 k2 ∧
        kinv None lo k2 ∧ wstable every k1 k2 ∧
        mutex_inv i (mk_mutex 0 (Some t) (current_priority tth) 1 (mutex_flag m)) k2 ∧
        rt_mutex_release i m k = (k' ← rt_schedule k2;
          Ok (mk_mutex 0 (Some t) (current_priority tth) 1 (mutex_flag m), k', RT_EOK))
    end.
Proof.
  intros Hk Hi Hin Ho Hh. pose proof Hi as [F O E]. rewrite Ho in O. destruct O as (Hv & _ & Hp & Hno).
  pose proof Hin as (_ & Hc & Ht & Hs).
  destruct (maybe_reprioritise lo c th (original_priority m)
    (negb (original_priority m =? current_priority th)) k)
    as (k1 & E1 & Hk1 & He1 & Hth1 & Hq1 & Hw1 & Hts1); [done..|].
  exists k1. split_and!; try done.
  assert (Er : rt_mutex_release i m k =
    (if negb (rt_list_isempty (QWait i) k1) then
        t ← rt_list_first (QWait i) k1;
        tth ← get_thread t k1;
        k ← rt_ipc_list_resume (QWait i) k1;
        k ← rt_schedule k;
        Ok (mk_mutex 0 (Some t) (current_priority tth) 1 (mutex_flag m), k, RT_EOK)
      else Ok (mk_mutex 1 None 255 0 (mutex_flag m), k1, RT_EOK))).
  { unfold rt_mutex_release. rewrite (in_thread_ok k c th Hin). unfold rt_thread_self. rewrite Hc.
    cbn [of_option mbind res_bind]. rewrite (get_thread_ok c th k Ht). cbn [mbind res_bind].
    rewrite decide_True by done. unfold with_hold; simpl. rewrite Hh. change (u8 (1 - 1)) with 0. simpl.
    rewrite E1. cbn [mbind res_bind]. rewrite Hv. done. }
  assert (Hqi : q_get k1 (QWait i) = q_get k (QWait i)) by by apply Hq1.
  destruct (q_get k (QWait i)) as [|t l] eqn:Hl.
  - rewrite Er. unfold rt_list_isempty. by rewrite Hqi.
  - destruct (list_resume_spec lo (QWait i) t l k1 Hk1 I Hqi) as (tth & k2 & Htt & Hst & E2 & Hk2 & Hwk).
    pose proof (woken_wstable every lo (QWait i) t tth l k1 k2 Hk1 I Hqi Hwk) as Hw2.
    assert (He : ∀ u thu, u ∈ t :: l → threads k1 !! u = Some thu → error thu = RT_EOK).
    { intros u thu Hu Hthu. destruct (ws_ev _ _ _ Hw1 (QWait i) u thu) as (th0 & ? & []);
        [done|done|by rewrite Hqi|done|]. rewrite <- (E u th0); [done| |done]. done. }
    exists tth, k2. split_and!; try done.
    + apply (He t); [left|done].
    + pose proof (ki_nodup _ _ _ Hk (QWait i)) as Hnd. rewrite Hl in Hnd. apply NoDup_cons in Hnd as [Hnd _].
      destruct (ki_thread _ _ _ Hk1 t tth Htt) as [Hpt _ _ _].
      intros. constructor; [exact F|..].
      * split; [done|]. split; [simpl; lia|]. split; [done|].
        by rewrite (wk_q _ _ _ _ _ _ Hwk).
      * intros u thu. rewrite (wk_q _ _ _ _ _ _ Hwk), (wk_threads _ _ _ _ _ _ Hwk).
        intros Hu [[<- <-]|[Hne Hthu]]%lookup_insert_Some; [done|]. apply (He u); [by right|done].
    + rewrite Er. unfold rt_list_isempty, rt_list_first. rewrite Hqi. cbn [negb mbind res_bind].
      rewrite (get_thread_ok t tth k1 Htt). cbn [mbind res_bind]. rewrite E2. done.
Qed.

(** ** The protocol *)
Inductive mutex_step (i : nat) : mutex → kernel → mutex → kernel → Prop :=
  | mutex_step_take time c th m k m' k' r :
      time < TICK_HALF → in_thread k c th →
      (∀ o, owner m = Some o → is_Some (threads k !! o)) →
      rt_mutex_take i time m k = Ok (m', k', r) → mutex_step i m k m' k'
  | mutex_step_release c th m k m' k' r :
      in_thread k c th → rt_mutex_release i m k = Ok (m', k', r) → mutex_step i m k m' k'
  | mutex_step_control m k m' k' r :
      rt_mutex_control m k = Ok (m', k', r) → mutex_step i m k m' k'.

(** Branches that only touch the caller's error and the record. *)
Lemma mutex_record i m m' k :
  mutex_inv i m k → mutex_flag m' = mutex_flag m →
  match owner m' with
  | None => mutex_value m' = 1 ∧ hold m' = 0 ∧ q_get k (QWait i) = []
  | Some o => mutex_value m' = 0 ∧ 0 <= hold m' < 256 ∧ prio_ok (original_priority m') ∧
      o ∉ q_get k (QWait i)
  end → mutex_inv i m' k.
Proof. intros [F O E] Hf Hm. constructor; [by rewrite Hf|done..]. Qed.

(** What taking does when it does not block. *)
Definition mutex_taken (c : tid) (th : rt_thread) (m : mutex) : mutex :=
  if decide (owner m = Some c) then with_hold (u8 (hold m + 1)) m
  else mk_mutex 0 (Some c) (current_priority th) 1 (mutex_flag m).

Lemma mutex_take_now i time m c th k :
  mutex_inv i m k → in_thread k c th → owner m = None ∨ owner m = Some c →
  rt_mutex_take i time m k = Ok (mutex_taken c th m, set_thread c (with_error RT_EOK th) k, Some RT_EOK).
Proof.
  intros [F O E] Hin Ho. pose proof Hin as (_ & Hc & Ht & Hs).
  unfold rt_mutex_take. rewrite (in_thread_ok k c th Hin). unfold rt_thread_self. rewrite Hc.
  cbn [of_option mbind res_bind]. rewrite (get_thread_ok c th k Ht). cbn [mbind res_bind].
  unfold mutex_taken. destruct (decide (owner m = Some c)) as [|Hn]; [done|].
  destruct Ho as [Ho|]; [|done]. rewrite Ho in O. destruct O as (-> & -> & _). done.
Qed.

Lemma mutex_taken_inv lo i m c th k :
  kinv None lo k → mutex_inv i m k → in_thread k c th → owner m = None ∨ owner m = Some c →
  mutex_inv i (mutex_taken c th m) k.
Proof.
  intros Hk Hi (_ & Hc & Ht & Hs) Ho. pose proof Hi as [F O E].
  assert (Hnw : c ∉ q_get k (QWait i)) by (by eapply ready_not_waiting).
  destruct (ki_thread _ _ _ Hk c th Ht) as [Hp _ _ _].
  apply (mutex_record i m); [done| |]; unfold mutex_taken; destruct (decide (owner m = Some c)) as [Hc'|].
  - done.
  - done.
  - simpl. rewrite Hc' in O |- *. destruct O as (? & ? & ? & ?). split_and!; try done; unfold u8; lia.
  - simpl. split; [done|]. split; [lia|]. done.
Qed.

Lemma mutex_take_fails i m o c th k :
  mutex_inv i m k → in_thread k c th → owner m = Some o → o ≠ c →
  rt_mutex_take i 0 m k =
    Ok (m, set_thread c (with_error (- RT_ETIMEOUT) (with_error RT_EOK th))
             (set_thread c (with_error RT_EOK th) k), Some (- RT_ETIMEOUT)).
Proof.
  intros [F O E] Hin Ho Hne. pose proof Hin as (_ & Hc & Ht & Hs).
  unfold rt_mutex_take. rewrite (in_thread_ok k c th Hin). unfold rt_thread_self. rewrite Hc.
  cbn [of_option mbind res_bind]. rewrite (get_thread_ok c th k Ht). cbn [mbind res_bind].
  rewrite decide_False by congruence. rewrite Ho in O. by destruct O as (-> & _).
Qed.

Lemma mutex_step_ok i m k m' k' :
  kinv None 0 k → mutex_inv i m k → mutex_step i m k m' k' →
  kinv None 0 k' ∧ mutex_inv i m' k' ∧ ∀ j, j ≠ i → wstable (owns j) k k'.
Proof.
  intros Hk Hi Hs.
  destruct Hs as [time c th m k m' k' r Htime Hin Hown Hr|c th m k m' k' r Hin Hr|m k m' k' r [= <- <- _]].
  - destruct (decide (owner m = None ∨ owner m = Some c)) as [Ho|Ho].
    { rewrite (mutex_take_now i time m c th k) in Hr by done. injection Hr as <- <- _.
      destruct (clear_error 0 c th k RT_EOK Hk Hin) as (Hk1 & _ & Hw).
      split_and!; [done| |intros; by apply wstable_every].
      eapply mutex_inv_stable; [by apply (mutex_taken_inv 0 i m c th k)|by apply wstable_every]. }
    destruct (owner m) as [o|] eqn:Ho'; [|tauto]. assert (Hne : o ≠ c) by (intros ->; by apply Ho; right).
    destruct (clear_error 0 c th k RT_EOK Hk Hin) as (Hk1 & Hin1 & Hw1).
    destruct (Z.eq_dec time 0) as [->|Hnz].
    { rewrite (mutex_take_fails i m o c th k) in Hr by done. injection Hr as <- <- _.
      destruct (clear_error 0 c _ _ (- RT_ETIMEOUT) Hk1 Hin1) as (Hk2 & _ & Hw2).
      assert (Hw : wstable every k (set_thread c (with_error (- RT_ETIMEOUT) (with_error RT_EOK th))
        (set_thread c (with_error RT_EOK th) k))) by (etransitivity; [exact Hw1|exact Hw2]).
      split_and!; [done| |intros; by apply wstable_every].
      eapply mutex_inv_stable; [done|by apply wstable_every]. }
    destruct (Hown o eq_refl) as [oth Hoth].
    destruct (mutex_blocks 0 i time m o oth c th k) as (k2 & k1 & E & Hw2 & _ & _ & _ & _ & Hb & Hi1);
      [lia|done..|].
    rewrite E in Hr. apply bind_ok_inv in Hr as (k3 & Es & [= <- <- _]).
    destruct Hb as [Hkb _ _ _ Hwb]. split_and!; [by eapply schedule_kinv| |].
    + eapply mutex_inv_stable; [done|by apply wstable_schedule].
    + intros j Hj. transitivity k2; [by apply wstable_every|].
      transitivity k1; [by apply Hwb|by apply wstable_schedule].
  - pose proof Hin as (_ & Hc & Ht & Hst).
    destruct (decide (owner m = Some c)) as [Ho|Ho].
    2:{ unfold rt_mutex_release in Hr. rewrite (in_thread_ok k c th Hin) in Hr.
        unfold rt_thread_self in Hr. rewrite Hc in Hr. cbn [of_option mbind res_bind] in Hr.
        rewrite (get_thread_ok c th k Ht) in Hr. cbn [mbind res_bind] in Hr.
        rewrite decide_False in Hr by done. injection Hr as <- <- _.
        destruct (clear_error 0 c th k (- RT_ERROR) Hk Hin) as (Hk1 & _ & Hw).
        split_and!; [done| |intros; by apply wstable_every].
        eapply mutex_inv_stable; [done|by apply wstable_every]. }
    destruct (Z.eq_dec (hold m) 1) as [Hh|Hh].
    + destruct (mutex_releases 0 i m c th k) as (k1 & Hk1 & He1 & Hw1 & Hth1 & Hq1 & Hcase); [done..|].
      destruct (q_get k (QWait i)) as [|t l] eqn:Hl.
      * rewrite Hcase in Hr. injection Hr as <- <- _.
        split_and!; [done| |intros; by apply wstable_every].
        apply (mutex_record i m); [eapply mutex_inv_stable; [done|by apply wstable_every]|done|].
        simpl. by rewrite Hq1.
      * destruct Hcase as (tth & k2 & _ & _ & _ & Hk2 & Hw2 & Hi2 & E).
        rewrite E in Hr. apply bind_ok_inv in Hr as (k3 & Es & [= <- <- _]).
        split_and!; [by eapply schedule_kinv| |].
        -- eapply mutex_inv_stable; [done|by apply wstable_schedule].
        -- intros j Hj. apply wstable_every. transitivity k1; [done|].
           transitivity k2; [done|by apply wstable_schedule].
    + pose proof Hi as [F O E]. rewrite Ho in O. destruct O as (Hv & Hr256 & Hp & Hno).
      unfold rt_mutex_release in Hr. rewrite (in_thread_ok k c th Hin) in Hr.
      unfold rt_thread_self in Hr. rewrite Hc in Hr. cbn [of_option mbind res_bind] in Hr.
      rewrite (get_thread_ok c th k Ht) in Hr. cbn [mbind res_bind] in Hr.
      rewrite decide_True in Hr by done. cbn [with_hold hold] in Hr.
      rewrite (proj2 (Z.eqb_neq _ _)) in Hr by word. injection Hr as <- <- _.
      split_and!; [done| |done]. apply (mutex_record i m); [done..|]. simpl. rewrite Ho.
      split; [done|]. split; [unfold u8; lia|]. done.
  - done.
Qed.

#[global] Program Instance mutex_protocol : IpcProtocol mutex :=
  { istep := mutex_step; iinv := mutex_inv }.
Next Obligation. intros. by eapply mutex_inv_stable. Qed.
Next Obligation. intros. by eapply mutex_step_ok. Qed.

(** ** Properties *)

(** C24. [rt_mutex_take] by thread [c]: a free mutex, or one [c] owns, is taken
    at once (the owner and its priority are recorded, or the 8-bit recursion
    count goes up); a mutex owned by another thread gives [-RT_ETIMEOUT] when no
    waiting is asked for; otherwise [c] waits in the list and the owner's
    priority is raised to [c]'s when that is higher (priority inheritance). *)
Theorem rt_mutex_take_spec lo i time m c th k :
  -1 <= lo <= 0 → kinv None lo k → mutex_inv i m k → in_thread k c th → time < TICK_HALF →
  others_ready c k →
  match owner m with
  | None => ∃ k', rt_mutex_take i time m k =
      Ok (mk_mutex 0 (Some c) (current_priority th) 1 (mutex_flag m), k', Some RT_EOK) ∧
      kinv None lo k' ∧ queues k' = queues k
  | Some o =>
      if decide (o = c) then ∃ k', rt_mutex_take i time m k =
        Ok (with_hold (u8 (hold m + 1)) m, k', Some RT_EOK) ∧ kinv None lo k' ∧ queues k' = queues k
      else if time =? 0 then ∃ k', rt_mutex_take i time m k = Ok (m, k', Some (- RT_ETIMEOUT)) ∧
        kinv None lo k' ∧ queues k' = queues k
      else ∀ oth, threads k !! o = Some oth →
        ∃ k', rt_mutex_take i time m k = Ok (m, k', None) ∧ kinv None lo k' ∧
          threads k' !! c = Some (blocked_thread th) ∧
          q_get k' (QWait i) ≡ₚ c :: q_get k (QWait i) ∧
          ∃ oth', threads k' !! o = Some oth' ∧ stat oth' = stat oth ∧
            current_priority oth' = Z.min (current_priority oth) (current_priority th)
  end.
Proof.
  intros Hlo Hk Hi Hin Htime Hoth.
  destruct (clear_error lo c th k RT_EOK Hk Hin) as (Hk1 & Hin1 & Hw1).
  destruct (owner m) as [o|] eqn:Ho.
  2:{ eexists. rewrite (mutex_take_now i time m c th k) by (done || by left).
      unfold mutex_taken. rewrite decide_False by congruence. done. }
  destruct (decide (o = c)) as [->|Hne].
  { eexists. rewrite (mutex_take_now i time m c th k) by (done || by right).
    unfold mutex_taken. rewrite decide_True by done. done. }
  destruct (Z.eqb_spec time 0) as [->|Hnz].
  { eexists. rewrite (mutex_take_fails i m o c th k) by done. split; [done|].
    destruct (clear_error lo c _ _ (- RT_ETIMEOUT) Hk1 Hin1) as (Hk2 & _). done. }
  intros oth Hot.
  destruct (mutex_blocks lo i time m o oth c th k) as (k2 & k1 & -> & _ & Hin2 & Hth2 & Hq2 & _ & Hb & _);
    [done..|].
  assert (Ho2 : others_ready c k2).
  { destruct Hoth as (u & thu & Hu & Htu & Hsu). destruct (decide (u = o)) as [->|Huo].
    - exists o, (boosted (current_priority th) oth). split_and!; [done|by rewrite Hth2, lookup_insert_eq|].
      assert (thu = oth) as -> by congruence. unfold boosted. by destruct (_ <? _).
    - exists u, thu. by rewrite Hth2, !lookup_insert_ne. }
  destruct (block_schedule _ _ _ _ _ _ _ _ _ Hb Hin2 Ho2) as (k' & -> & Hk' & Hsch & Ht' & _).
  exists k'. destruct Hsch as (Sth & Sq & _). destruct Hb as [_ [_ Hth1 Hq1] _ _ _].
  split_and!; [done|done|exact Ht'| |].
  - unfold q_get at 1. rewrite Sq. change (default [] (queues k1 !! QWait i)) with (q_get k1 (QWait i)).
    rewrite Hq1, decide_True, wait_place_perm, Hq2 by done. done.
  - exists (boosted (current_priority th) oth). split_and!.
    + by rewrite Sth, Hth1, lookup_insert_ne, Hth2, lookup_insert_eq by done.
    + unfold boosted. by destruct (_ <? _).
    + unfold boosted. destruct (Z.ltb_spec (current_priority th) (current_priority oth)); simpl; lia.
Qed.

(** The idle thread owns the mutex. *)
Definition demo_mutex : mutex := mk_mutex 0 (Some 0%nat) 31 1 RT_IPC_FLAG_PRIO.

Lemma demo_mutex_inv : mutex_inv 0 demo_mutex demo_kernel.
Proof.
  constructor; [by right|..].
  - split; [done|]. split; [simpl; lia|]. split; [done|]. rewrite demo_no_waiter by exact I.
    apply not_elem_of_nil.
  - intros t th Hin. rewrite demo_no_waiter in Hin by exact I. destruct (not_elem_of_nil t Hin).
Qed.

Lemma rt_mutex_take_spec_witness :
  ∃ k', rt_mutex_take 0 (-1) demo_mutex demo_kernel = Ok (demo_mutex, k', None) ∧
    kinv None 0 k' ∧ prio_of k' 0 = 10.
Proof.
  pose proof (rt_mutex_take_spec 0 0 (-1) demo_mutex 1 (demo_thread 1) demo_kernel ltac:(lia) demo_kinv
    demo_mutex_inv demo_in_thread ltac:(rewrite tick_half_val; lia) demo_other_ready
    (demo_thread 0) (demo_thread_ok 0 ltac:(lia))) as (k' & E & Hk & _ & _ & oth & Ho & _ & Hp).
  exists k'. split; [exact E|split; [exact Hk|]]. unfold prio_of. rewrite Ho, Hp. vm_compute. reflexivity.
Defined.

(** C23. [rt_mutex_release] by thread [c]: not the owner - [-RT_ERROR], the mutex
    is unchanged; not the last release - only the count goes down; the last one
    gives the owner back the priority recorded at the take, and either frees
    the mutex or makes the first waiting thread its owner, ready to run, whose
    [rt_mutex_take] returns [RT_EOK]. *)
Theorem rt_mutex_release_spec lo i m c th k :
  kinv None lo k → mutex_inv i m k → in_thread k c th →
  if decide (owner m = Some c) then
    if hold m =? 1 then
      match q_get k (QWait i) with
      | [] => ∃ k', rt_mutex_release i m k = Ok (mk_mutex 1 None 255 0 (mutex_flag m), k', RT_EOK) ∧
          kinv None lo k' ∧ prio_of k' c = original_priority m
      | t :: l => ∃ tth k', rt_mutex_release i m k =
            Ok (mk_mutex 0 (Some t) (current_priority tth) 1 (mutex_flag m), k', RT_EOK) ∧
          kinv None lo k' ∧ q_get k' (QWait i) = l ∧ prio_of k' c = original_priority m ∧
          threads k' !! t = Some (with_stat THREAD_READY tth) ∧ rt_mutex_take_resume t k' = Ok RT_EOK
      end
    else rt_mutex_release i m k = Ok (with_hold (u8 (hold m - 1)) m, k, RT_EOK)
  else rt_mutex_release i m k =
    Ok (m, set_thread c (with_error (- RT_ERROR) th) k, - RT_ERROR).
Proof.
  intros Hk Hi Hin. pose proof Hin as (_ & Hc & Ht & Hst).
  assert (Hrel : rt_mutex_release i m k = (if decide (owner m = Some c) then
      if u8 (hold m - 1) =? 0 then rt_mutex_release i m k
      else Ok (with_hold (u8 (hold m - 1)) m, k, RT_EOK)
    else Ok (m, set_thread c (with_error (- RT_ERROR) th) k, - RT_ERROR))).
  { unfold rt_mutex_release. rewrite (in_thread_ok k c th Hin). unfold rt_thread_self. rewrite Hc.
    cbn [of_option mbind res_bind]. rewrite (get_thread_ok c th k Ht). cbn [mbind res_bind].
    destruct (decide _); [|done]. cbn [with_hold hold]. by destruct (_ =? 0). }
  destruct (decide (owner m = Some c)) as [Ho|]; [|done].
  pose proof Hi as [F O E]. rewrite Ho in O. destruct O as (_ & Hr & _ & Hno).
  destruct (Z.eqb_spec (hold m) 1) as [Hh|Hh].
  2:{ rewrite Hrel. by rewrite (proj2 (Z.eqb_neq _ _)) by word. }
  destruct (mutex_releases lo i m c th k) as (k1 & Hk1 & He1 & Hw1 & Hth1 & Hq1 & Hcase); [done..|].
  assert (Hpc : ∀ k', threads k' !! c = threads k1 !! c → prio_of k' c = original_priority m).
  { intros k' E'. unfold prio_of. rewrite E', Hth1, lookup_insert_eq. unfold restored.
    by destruct (Z.eqb_spec (original_priority m) (current_priority th)). }
  destruct (q_get k (QWait i)) as [|t l] eqn:Hl.
  { exists k1. split_and!; [done|done|by apply Hpc]. }
  destruct Hcase as (tth & k2 & Htt & He & Hwk & Hk2 & _ & _ & ->).
  destruct (schedule_spec lo k2 Hk2) as (k' & -> & Hk' & Hsch); [apply Hwk| |].
  { rewrite (se_current _ _ (wk_env _ _ _ _ _ _ Hwk)), (se_current _ _ He1), Hc. eauto. }
  destruct Hsch as (Sth & Sq & _). pose proof (wk_threads _ _ _ _ _ _ Hwk) as Hth2.
  assert (Htne : c ≠ t) by (intros ->; apply Hno; left).
  assert (Htk : threads k' !! t = Some (with_stat THREAD_READY tth))
    by (rewrite Sth, Hth2; apply lookup_insert_eq).
  exists tth, k'. split_and!; try done.
  - unfold q_get. rewrite Sq. apply (wk_q _ _ _ _ _ _ Hwk).
  - apply Hpc. by rewrite Sth, Hth2, lookup_insert_ne.
  - unfold rt_mutex_take_resume. rewrite (get_thread_ok t _ k' Htk). cbn [mbind res_bind].
    simpl. by rewrite He.
Qed.

Definition demo_mutex1 : mutex := mk_mutex 0 (Some 1%nat) 12 1 RT_IPC_FLAG_PRIO.

Lemma demo_mutex1_inv : mutex_inv 0 demo_mutex1 demo_kernel.
Proof.
  constructor; [by right|..].
  - split; [done|]. split; [simpl; lia|]. split; [done|]. rewrite demo_no_waiter by exact I.
    apply not_elem_of_nil.
  - intros t th Hin. rewrite demo_no_waiter in Hin by exact I. destruct (not_elem_of_nil t Hin).
Qed.

Lemma rt_mutex_release_spec_witness :
  ∃ k', rt_mutex_release 0 demo_mutex1 demo_kernel = Ok (mk_mutex 1 None 255 0 1, k', RT_EOK) ∧
    prio_of k' 1 = 12.
Proof.
  pose proof (rt_mutex_release_spec 0 0 demo_mutex1 1 (demo_thread 1) demo_kernel demo_kinv
    demo_mutex1_inv demo_in_thread) as H.
  rewrite decide_True in H by reflexivity. rewrite demo_no_waiter in H by exact I.
  destruct H as (k' & E & _ & Hp). exists k'. split; [exact E|exact Hp].
Defined.

(** The 8-bit recursion count wraps: a thread that holds a mutex 255 times
    and takes it twice more owns it with count one, so that a single release
    frees it although 256 takes are still outstanding. *)
Theorem rt_mutex_hold_wraps lo i time m c th k :
  kinv None lo k → mutex_inv i m k → in_thread k c th → owner m = Some c → hold m = 255 →
  q_get k (QWait i) = [] →
  ∃ m1 k1 m2 k2 m3 k3,
    rt_mutex_take i time m k = Ok (m1, k1, Some RT_EOK) ∧
    rt_mutex_take i time m1 k1 = Ok (m2, k2, Some RT_EOK) ∧
    rt_mutex_release i m2 k2 = Ok (m3, k3, RT_EOK) ∧ owner m3 = None ∧ mutex_value m3 = 1.
Proof.
  intros Hk Hi Hin Ho Hh Hq.
  destruct (clear_error lo c th k RT_EOK Hk Hin) as (Hk1 & Hin1 & Hw1).
  set (k1 := set_thread c (with_error RT_EOK th) k) in *.
  destruct (clear_error lo c _ k1 RT_EOK Hk1 Hin1) as (Hk2 & Hin2 & Hw2).
  set (k2 := set_thread c (with_error RT_EOK (with_error RT_EOK th)) k1) in *.
  assert (Hi1 : mutex_inv i (mutex_taken c th m) k1).
  { eapply mutex_inv_stable; [by apply (mutex_taken_inv lo i m c th k); auto|by apply wstable_every]. }
  assert (E1 : mutex_taken c th m = with_hold 0 m).
  { unfold mutex_taken. rewrite decide_True by done. by rewrite Hh. }
  rewrite E1 in Hi1. assert (Ho1 : owner (with_hold 0 m) = Some c) by done.
  assert (E2 : mutex_taken c (with_error RT_EOK th) (with_hold 0 m) = with_hold 1 m).
  { unfold mutex_taken. by rewrite decide_True by done. }
  assert (Hi2 : mutex_inv i (with_hold 1 m) k2).
  { rewrite <- E2. eapply mutex_inv_stable;
      [by apply (mutex_taken_inv lo i _ c (with_error RT_EOK th) k1); auto|by apply wstable_every]. }
  assert (Hq2 : q_get k2 (QWait i) = []) by done.
  destruct (mutex_releases lo i (with_hold 1 m) c _ k2 Hk2 Hi2 Hin2 Ho eq_refl)
    as (k3 & _ & _ & _ & _ & _ & Hcase).
  rewrite Hq2 in Hcase. exists (with_hold 0 m), k1, (with_hold 1 m), k2, (mk_mutex 1 None 255 0 (mutex_flag m)), k3.
  split_and!.
  - rewrite (mutex_take_now i time m c th k) by auto. by rewrite E1.
  - rewrite (mutex_take_now i time (with_hold 0 m) c (with_error RT_EOK th) k1) by auto. by rewrite E2.
  - exact Hcase.
  - done.
  - done.
Qed.

Lemma rt_mutex_hold_wraps_witness :
  ∃ m1 k1 m2 k2 m3 k3,
    rt_mutex_take 0 0 (with_hold 255 demo_mutex1) demo_kernel = Ok (m1, k1, Some RT_EOK) ∧
    rt_mutex_take 0 0 m1 k1 = Ok (m2, k2, Some RT_EOK) ∧
    rt_mutex_release 0 m2 k2 = Ok (m3, k3, RT_EOK) ∧ owner m3 = None ∧ mutex_value m3 = 1.
Proof.
  apply (rt_mutex_hold_wraps 0 0 0 (with_hold 255 demo_mutex1) 1 (demo_thread 1) demo_kernel demo_kinv).
  - apply (mutex_record 0 demo_mutex1); [exact demo_mutex1_inv|reflexivity|].
    destruct demo_mutex1_inv as [_ H _]. destruct H as (? & ? & ? & ?).
    split; [reflexivity|]. split; [simpl; lia|]. split; assumption.
  - exact demo_in_thread.
  - reflexivity.
  - reflexivity.
  - apply demo_no_waiter. exact I.
Defined.

(** Two mutexes, thread 1 of priority 10 and thread 2 raised to priority 5: 1
    takes the first, 2 blocks on it (1 inherits 5), 1 takes the second and
    releases the first (back to 10), 2 runs, releases and goes to sleep, 1
    releases the second. *)
Definition nested_run : res (mutex * mutex * kernel) :=
  let k := demo_kernel in
  '(m1, k, _) ← rt_mutex_take 0 (-1) (fresh_mutex 1) k;
  k ← rt_thread_control 2 (CTRL_CHANGE_PRIORITY 5) k;
  k ← rt_schedule k;
  '(m1, k, _) ← rt_mutex_take 0 (-1) m1 k;
  '(m2, k, _) ← rt_mutex_take 1 (-1) (fresh_mutex 1) k;
  '(m1, k, _) ← rt_mutex_release 0 m1 k;
  '(m1, k, _) ← rt_mutex_release 0 m1 k;
  k ← rt_thread_sleep 100 k;
  '(m2, k, _) ← rt_mutex_release 1 m2 k;
  Ok (m1, m2, k).

(** Nested mutexes leak an inherited priority: the second mutex records the
    boosted priority as the original one, so that after releasing both mutexes
    thread 1, created with priority 10, keeps priority 5 and owns nothing. *)
Theorem nested_mutex_leaks_priority :
  ∃ m1 m2 k th, nested_run = Ok (m1, m2, k) ∧ owner m1 = None ∧ owner m2 = None ∧
    rt_current_thread k = Some 1%nat ∧ threads k !! 1%nat = Some th ∧
    init_priority th = 10 ∧ current_priority th = 5.
Proof.
  assert (H : match nested_run with
    | Ok (m1, m2, k) => match threads k !! 1%nat with
        | Some th => (owner m1, owner m2, rt_current_thread k, init_priority th, current_priority th)
            = (None, None, Some 1%nat, 10, 5)
        | None => False end
    | Stop _ => False end) by (vm_compute; reflexivity).
  destruct nested_run as [[[m1 m2] k]|]; [|done]. destruct (threads k !! 1%nat) as [th|] eqn:E; [|done].
  injection H as H1 H2 H3 H4 H5. by exists m1, m2, k, th.
Qed.
