(* ===== verification/Event.v ===== *)
(** * Event sets: [rt_event_*] of [src/ipc.c]

    A thread waits for all (AND) or any (OR) of the bits of a set; sending
    wakes every waiting thread whose condition holds, in list order. *)
From S2P Require Import Prelude Timer KObject Kernel KernelInv ThreadOps Tick ThreadProps Ipc.
Local Open Scope Z_scope.

Record event := mk_event { event_bits : Z; event_flag : Z }.
Definition set_bits (s : Z) (e : event) : event := mk_event s (event_flag e).

Definition RT_EVENT_FLAG_AND : Z := 1.
Definition RT_EVENT_FLAG_OR : Z := 2.
Definition RT_EVENT_FLAG_CLEAR : Z := 4.
Definition opt_and (option : Z) : bool := negb (Z.land option RT_EVENT_FLAG_AND =? 0).
Definition opt_or (option : Z) : bool := negb (Z.land option RT_EVENT_FLAG_OR =? 0).
Definition opt_clear (option : Z) : bool := negb (Z.land option RT_EVENT_FLAG_CLEAR =? 0).

(** ** Operations *)
Definition rt_event_init (i : nat) (flag : Z) (k : kernel) : res (event * kernel) :=
  k ← on_objects (rt_object_init Object_Class_Event (OIpc i) 0) k;
  let k := rt_ipc_object_init (QWait i) k in
  Ok (mk_event 0 flag, k).

Definition rt_event_detach (i : nat) (k : kernel) : res kernel :=
  k ← resume_all (QWait i) k;
  on_objects (rt_object_detach (OIpc i)) k.

Definition rt_event_create (i : nat) (alloc : bool) (flag : Z) (k : kernel) : res (kernel * option event) :=
  _ ← debug_not_in_interrupt k;
  '(o, e) ← rt_object_allocate Object_Class_Event (if alloc then Some (OIpc i) else None) (objs k);
  let k := set_objs o k in
  match e with
  | None => Ok (k, None)
  | Some _ =>
      let k := rt_ipc_object_init (QWait i) k in
      Ok (k, Some (mk_event 0 flag))
  end.

Definition rt_event_delete (i : nat) (k : kernel) : res kernel :=
  _ ← debug_not_in_interrupt k;
  k ← resume_all (QWait i) k;
  on_objects (rt_object_delete (OIpc i)) k.

(** The test of one waiting thread: its record (the OR case saves what was
    received) and whether it is satisfied. *)
Definition event_match (s : Z) (th : rt_thread) : rt_thread * bool :=
  if opt_and (event_info th) then (th, Z.land (event_set th) s =? event_set th)
  else if opt_or (event_info th) then
    if negb (Z.land (event_set th) s =? 0)
    then (with_event (Z.land (event_set th) s) (event_info th) th, true)
    else (th, false)
  else (th, false).

(** The loop of [rt_event_send] over the waiting list. *)
Fixpoint event_wake (l : list tid) (s : Z) (need_schedule : bool) (k : kernel) :
    res (Z * bool * kernel) :=
  match l with
  | [] => Ok (s, need_schedule, k)
  | t :: l =>
      th ← get_thread t k;
      let '(th, ok) := event_match s th in
      if ok : bool then
        let s := if opt_clear (event_info th) then Z.land s (u32 (Z.lnot (event_set th))) else s in
        '(k, _) ← rt_thread_resume t (set_thread t th k);
        event_wake l s true k
      else event_wake l s need_schedule k
  end.

Definition rt_event_send (i : nat) (set : Z) (e : event) (k : kernel) : res (event * kernel * Z) :=
  if set =? 0 then Ok (e, k, - RT_ERROR)
  else
    let bits := Z.lor (event_bits e) set in
    '(bits, need_schedule, k) ← event_wake (q_get k (QWait i)) bits false k;
    k ← (if need_schedule : bool then rt_schedule k else Ok k);
    Ok (set_bits bits e, k, RT_EOK).

(** [Some (err, recved)] is a return, [recved = None] when [*recved] is not
    written. *)
Definition rt_event_recv (i : nat) (set option timeout : Z) (e : event) (k : kernel) :
    res (event * kernel * Datatypes.option (Z * Datatypes.option Z)) :=
  _ ← debug_in_thread_context k;
  if set =? 0 then Ok (e, k, Some (- RT_ERROR, None))
  else
    thread ← of_option NullDeref (rt_thread_self k);
    th ← get_thread thread k;
    let th := with_error RT_EOK th in
    let k := set_thread thread th k in
    status ← (if opt_and option then Ok (Z.land (event_bits e) set =? set)
              else if opt_or option then Ok (negb (Z.land (event_bits e) set =? 0))
              else Stop AssertFail);
    if status : bool then
      let recved := Z.land (event_bits e) set in
      let e := if opt_clear option
               then set_bits (Z.land (event_bits e) (u32 (Z.lnot set))) e else e in
      Ok (e, k, Some (RT_EOK, Some recved))
    else if timeout =? 0 then
      Ok (e, set_thread thread (with_error (- RT_ETIMEOUT) th) k, Some (- RT_ETIMEOUT, None))
    else
      let k := set_thread thread (with_event set option th) k in
      k ← suspend_on (QWait i) thread (event_flag e) timeout k;
      k ← rt_schedule k;
      Ok (e, k, None).

Definition rt_event_recv_resume (thread : tid) (k : kernel) : res (Z * option Z) :=
  th ← get_thread thread k;
  if negb (error th =? RT_EOK) then Ok (error th, None)
  else Ok (error th, Some (event_set th)).

Definition rt_event_control (i : nat) (reset : bool) (e : event) (k : kernel) : res (event * kernel * Z) :=
  if reset then
    k ← resume_all (QWait i) k;
    let e := set_bits 0 e in
    k ← rt_schedule k;
    Ok (e, k, RT_EOK)
  else Ok (e, k, - RT_ERROR).

(** ** Satisfaction *)
Definition satisfied (s : Z) (th : rt_thread) : bool :=
  if opt_and (event_info th) then Z.land (event_set th) s =? event_set th
  else opt_or (event_info th) && negb (Z.land (event_set th) s =? 0).

Lemma event_match_ok s th : (event_match s th).2 = satisfied s th.
Proof.
  unfold event_match, satisfied. destruct (opt_and _); [done|]. destruct (opt_or _); [|done].
  by destruct (_ =? 0).
Qed.

(** What the receiver is told: all of its set (AND), the bits that were there
    (OR). *)
Definition received (s : Z) (th : rt_thread) : Z :=
  if opt_and (event_info th) then event_set th else Z.land (event_set th) s.

(** How a set [s] is given to the threads of a list: those that are satisfied when
    their turn comes, each with the set it sees, and what is left, a thread with the
    CLEAR option having taken away what it received. *)
Fixpoint event_serve (ths : gmap tid rt_thread) (l : list tid) (s : Z) : list (tid * Z) * Z :=
  match l with
  | [] => ([], s)
  | t :: l =>
      match ths !! t with
      | Some th =>
          if satisfied s th then
            let s' := if opt_clear (event_info th) then Z.land s (u32 (Z.lnot (received s th))) else s in
            let '(ws, rest) := event_serve ths l s' in ((t, s) :: ws, rest)
          else event_serve ths l s
      | None => event_serve ths l s
      end
  end.

Lemma event_serve_ext ths ths' l : ∀ s,
  (∀ t, t ∈ l → ths' !! t = ths !! t) → event_serve ths' l s = event_serve ths l s.
Proof.
  induction l as [|t l IH]; intros s Hl; [done|]. cbn [event_serve]. rewrite (Hl t) by left.
  assert (∀ s, event_serve ths' l s = event_serve ths l s) as IH' by (intros; apply IH; intros u Hu; apply Hl; by right).
  destruct (ths !! t) as [th|]; [|apply IH']. destruct (satisfied s th); by rewrite IH'.
Qed.

(** The record the match leaves has the received set in it. *)
Lemma event_match_received s th : satisfied s th = true →
  event_set (event_match s th).1 = received s th ∧ event_info (event_match s th).1 = event_info th.
Proof.
  unfold event_match, satisfied, received. destruct (opt_and (event_info th)); [done|].
  destruct (opt_or (event_info th)); [|done]. by destruct (_ =? 0).
Qed.

(** The bits [s'] are a part of [s]. *)
Definition bits_within (s' s : Z) : Prop := ∃ m, s' = Z.land s m.

#[global] Instance bits_within_refl : Reflexive bits_within.
Proof. intros s. exists s. by rewrite Z.land_diag. Qed.
#[global] Instance bits_within_trans : Transitive bits_within.
Proof. intros a b c [m ->] [n ->]. exists (Z.land n m). by rewrite Z.land_assoc. Qed.

(** Fewer bits satisfy fewer threads. *)
Lemma satisfied_within s s' th : bits_within s' s → satisfied s th = false → satisfied s' th = false.
Proof.
  intros [m ->]. unfold satisfied. destruct (opt_and _).
  - rewrite !Z.eqb_neq. intros Hn He. apply Hn. rewrite <- He at 2.
    rewrite <- He at 1. rewrite !Z.land_assoc.
    rewrite <- (Z.land_assoc (event_set th) s m), (Z.land_comm (Z.land _ (Z.land s m)) s).
    rewrite Z.land_assoc, (Z.land_comm s), <- !Z.land_assoc. f_equal.
    by rewrite Z.land_assoc, Z.land_diag.
  - destruct (opt_or _); [|done]. simpl. rewrite !negb_false_iff, !Z.eqb_eq.
    intros He. by rewrite Z.land_assoc, He, Z.land_0_l.
Qed.

(** ** The invariant: no thread waits for something that is already there *)
Record event_inv (i : nat) (e : event) (k : kernel) : Prop := {
  ei_flag : flag_ok (event_flag e);
  ei_wait : ∀ t th, t ∈ q_get k (QWait i) → threads k !! t = Some th →
    satisfied (event_bits e) th = false ∧ error th = RT_EOK }.

Lemma satisfied_same s th th' : same_wait th th' → satisfied s th' = satisfied s th.
Proof. intros [_ Hs Hi]. unfold satisfied. by rewrite Hs, Hi. Qed.

Lemma event_inv_stable i e k k' : event_inv i e k → wstable (owns i) k k' → event_inv i e k'.
Proof.
  intros [F W] Hs. constructor; [done|]. intros t th Hin Ht.
  destruct (ws_ev _ _ _ Hs (QWait i) t th) as (th0 & Ht0 & Hsw); [done|by left|done..|].
  rewrite (satisfied_same _ _ _ Hsw), (sw_error _ _ Hsw). apply (W t); [|done].
  eapply sublist_elem; [done|]. apply (ws_q _ _ _ Hs); [done|by left].
Qed.

(** The record of a thread the loop woke, [s] being the set it saw. *)
Definition event_woken (s : Z) (th th' : rt_thread) : Prop :=
  satisfied s th = true ∧ th' = with_stat THREAD_READY (event_match s th).1.

(** What the loop did to the listed threads. *)
Record event_result (i : nat) (l : list tid) (s : Z) (k : kernel) (wl : list tid) (s' : Z)
    (k' : kernel) : Prop := {
  er_within : bits_within s' s;
  er_sub : wl `sublist_of` l;
  er_q : ∀ q, wait_q q → q_get k' q = filter (λ u, u ∉ wl) (q_get k q);
  er_env : same_env k k';
  er_woken : ∀ t, t ∈ wl → ∃ th th' st, threads k !! t = Some th ∧ threads k' !! t = Some th' ∧
    bits_within st s ∧ bits_within s' st ∧ event_woken st th th';
  er_rest : ∀ t, t ∉ wl → threads k' !! t = threads k !! t;
  er_unsat : ∀ t th, t ∈ l → t ∉ wl → threads k !! t = Some th → satisfied s' th = false;
  er_serve : ∃ ws, event_serve (threads k) l s = (ws, s') ∧ wl = ws.*1 ∧
    ∀ t st, (t, st) ∈ ws → ∃ th, threads k !! t = Some th ∧ satisfied st th = true ∧ bits_within st s ∧
      threads k' !! t = Some (with_stat THREAD_READY (event_match st th).1);
  er_ready : ∀ p, q_get k' (QReady p) =
    q_get k (QReady p) ++ filter (λ t, ready_q <$> threads k !! t = Some (QReady p)) wl;
  er_group : wl ≠ [] ∨ rt_thread_ready_priority_group k ≠ 0 → rt_thread_ready_priority_group k' ≠ 0;
  er_stable : wstable every k k' }.

Lemma filter_notin_nil (l : list tid) : filter (λ u, u ∉ @nil tid) l = l.
Proof.
  induction l as [|u l IH]; [done|]. rewrite filter_cons_True by apply not_elem_of_nil. by rewrite IH.
Qed.

Lemma filter_notin_cons (t : tid) (wl l : list tid) :
  filter (λ u, u ∉ wl) (without t l) = filter (λ u, u ∉ t :: wl) l.
Proof.
  induction l as [|u l IH]; [done|]. destruct (decide (u = t)) as [->|Hne].
  - rewrite filter_cons_False by tauto. rewrite IH. rewrite (filter_cons_False (λ u, u ∉ t :: wl)); [done|].
    intros Hn. apply Hn. left.
  - rewrite filter_cons_True by done. destruct (decide (u ∈ wl)) as [Hin|Hin].
    + rewrite filter_cons_False by tauto. rewrite IH.
      rewrite (filter_cons_False (λ u, u ∉ t :: wl)); [done|]. intros Hn. apply Hn. by right.
    + rewrite filter_cons_True by done. rewrite IH.
      rewrite (filter_cons_True (λ u, u ∉ t :: wl)); [done|]. by apply not_elem_of_cons.
Qed.

(** One satisfied thread. *)
Lemma event_wake_one lo i t th s k :
  kinv None lo k → t ∈ q_get k (QWait i) → threads k !! t = Some th → satisfied s th = true →
  ∃ k', rt_thread_resume t (set_thread t (event_match s th).1 k) = Ok (k', RT_EOK) ∧
    kinv None lo k' ∧ same_env k k' ∧ wstable every k k' ∧
    threads k' = <[t := with_stat THREAD_READY (event_match s th).1]> (threads k) ∧
    (∀ q, wait_q q → q_get k' q = without t (q_get k q)) ∧
    rt_thread_ready_priority_group k' ≠ 0 ∧
    (∀ p, q_get k' (QReady p) = q_get k (QReady p) ++ if decide (QReady p = ready_q th) then [t] else []).
Proof.
  intros Hk Hin Ht Hsat. set (th1 := (event_match s th).1).
  assert (Hsc : same_core th th1 ∧ stat th1 = stat th).
  { unfold th1, event_match. destruct (opt_and _); [by split; constructor|].
    destruct (opt_or _); [|by split; constructor]. destruct (_ =? 0); by split; constructor. }
  destruct Hsc as [Hsc Hst].
  destruct (waiter_suspended lo (QWait i) t k Hk I Hin) as (th0 & Ht0 & Hs0).
  assert (th0 = th) as -> by congruence.
  assert (Hk1 : kinv None lo (set_thread t th1 k)) by (by apply (kinv_set_thread _ _ _ th)).
  assert (Ht1 : threads (set_thread t th1 k) !! t = Some th1) by apply lookup_insert_eq.
  pose proof (resume_spec lo t th1 _ Hk1 Ht1) as Hr. rewrite decide_True in Hr by congruence.
  destruct Hr as (k' & E & Hk' & [He Hth Hq Hg] & _ & _). exists k'.
  assert (Hth' : threads k' = <[t := with_stat THREAD_READY th1]> (threads k)).
  { rewrite Hth. simpl. by rewrite insert_insert_eq. }
  assert (Hqq : ∀ q, wait_q q → q_get k' q = without t (q_get k q)).
  { intros q Hw. rewrite Hq, decide_False by (by destruct q). done. }
  split_and!; try done.
  - etransitivity; [|exact He]. by constructor.
  - eapply (wstable_leave every t); [exact Hth'|..]; intros q Hw _; rewrite Hqq by done;
      [apply sublist_filter|apply not_without].
  - intros p. rewrite Hq. change (q_get (set_thread t th1 k) (QReady p)) with (q_get k (QReady p)).
    assert (Hn : without t (q_get k (QReady p)) = q_get k (QReady p)).
    { apply filter_ne_id. intros Hin'. by assert (QWait i = QReady p) by (by apply (ki_disj _ _ _ Hk t)). }
    assert (Hrq : ready_q th1 = ready_q th) by (unfold ready_q; by destruct Hsc as [<-]).
    rewrite Hn, Hrq. case_decide; [done|by rewrite app_nil_r].
Qed.

Lemma event_wake_spec lo i : ∀ l s need k,
  kinv None lo k → NoDup l → (∀ t, t ∈ l → t ∈ q_get k (QWait i)) →
  ∃ wl s' k', event_wake l s need k = Ok (s', need || negb (bool_decide (wl = [])), k') ∧
    kinv None lo k' ∧ event_result i l s k wl s' k'.
Proof.
  induction l as [|t l IH]; intros s need k Hk Hnd Hsub.
  - exists [], s, k. rewrite orb_false_r. split_and!; [done|done|]. constructor; try done.
    + intros q _. by rewrite filter_notin_nil.
    + intros ? []%elem_of_nil.
    + exists []. split_and!; [done|done|]. intros ? ? []%elem_of_nil.
    + intros p. simpl. by rewrite app_nil_r.
    + tauto.
  - apply NoDup_cons in Hnd as [Hnin Hnd].
    assert (Hin : t ∈ q_get k (QWait i)) by (apply Hsub; left).
    destruct (waiter_suspended lo (QWait i) t k Hk I Hin) as (th & Ht & Hst).
    cbn [event_wake]. rewrite (get_thread_ok t th) by done. cbn [mbind res_bind].
    destruct (event_match s th) as [th1 ok] eqn:Em.
    assert (Hok : ok = satisfied s th) by (by rewrite <- event_match_ok, Em).
    assert (Hth1 : th1 = (event_match s th).1) by (by rewrite Em).
    destruct ok.
    + destruct (event_wake_one lo i t th s k) as (k1 & E1 & Hk1 & He1 & Hw1 & Hth & Hq1 & Hg1 & Hr1);
        [done..|].
      rewrite <- Hth1 in E1, Hth. rewrite E1. cbn [mbind res_bind].
      set (s1 := if opt_clear (event_info th1) then _ else s).
      assert (Hs1 : bits_within s1 s) by (unfold s1; destruct (opt_clear _); [by eexists|done]).
      destruct (IH s1 true k1) as (wl & s' & k' & E & Hk' & [W S Q EV WK R U SV RD G ST]); [done|done| |].
      { intros u Hu. rewrite Hq1 by done. apply list_elem_of_filter. split; [congruence|].
        apply Hsub. by right. }
      assert (Htw : t ∉ wl) by (intros Hw; apply Hnin; by eapply sublist_elem).
      exists (t :: wl), s', k'. rewrite E. split_and!; [by rewrite orb_true_r|done|]. constructor.
      * by transitivity s1.
      * by constructor.
      * intros q Hw. rewrite Q, Hq1 by done. apply filter_notin_cons.
      * by transitivity k1.
      * intros u [->|Hu]%elem_of_cons.
        -- exists th, (with_stat THREAD_READY th1), s. split_and!; [done| |done|by transitivity s1|].
           ++ rewrite R by done. by rewrite Hth, lookup_insert_eq.
           ++ split; [done|by rewrite Hth1].
        -- destruct (WK u Hu) as (thu & thu' & st & Hthu & ? & ? & ? & ?).
           exists thu, thu', st. split_and!; try done; [|by transitivity s1].
           rewrite Hth, lookup_insert_ne in Hthu; [done|]. by intros ->.
      * intros u [Hne Hu]%not_elem_of_cons. rewrite R by done. by rewrite Hth, lookup_insert_ne.
      * intros u thu [->|Hu]%elem_of_cons [Hne Hw]%not_elem_of_cons Hthu; [done|].
        apply (U u); [done|done|]. by rewrite Hth, lookup_insert_ne.
      * destruct SV as (ws & Es & -> & Hws). exists ((t, s) :: ws). split_and!; [|done|].
        -- cbn [event_serve]. rewrite Ht, <- Hok.
           destruct (event_match_received s th) as [Er Ei]; [done|]. rewrite <- Hth1 in Er, Ei.
           unfold s1 in Es. rewrite Er, Ei in Es.
           rewrite (event_serve_ext (threads k1)); [by rewrite Es|].
           intros u Hu. rewrite Hth, lookup_insert_ne; [done|congruence].
        -- intros u st [[= -> ->]|Hu]%elem_of_cons.
           ++ exists th. split_and!; [done|done|done|]. rewrite R by done. by rewrite Hth, lookup_insert_eq, Hth1.
           ++ destruct (Hws u st Hu) as (thu & Hthu & ? & ? & ?). exists thu.
              rewrite Hth, lookup_insert_ne in Hthu.
              ** split_and!; try done. by transitivity s1.
              ** intros ->. apply Htw. by apply (list_elem_of_fmap_2 fst _ (u, st)).
      * intros p. rewrite RD, Hr1, filter_cons, Ht, <- app_assoc. f_equal. simpl.
        assert (Hf : filter (λ u, ready_q <$> threads k1 !! u = Some (QReady p)) wl =
          filter (λ u, ready_q <$> threads k !! u = Some (QReady p)) wl).
        { apply filter_ext_in. intros u Hu. rewrite Hth, lookup_insert_ne; [done|congruence]. }
        rewrite Hf. repeat case_decide; congruence || done.
      * intros _. apply G. by right.
      * by transitivity k1.
    + destruct (IH s need k) as (wl & s' & k' & E & Hk' & [W S Q EV WK R U SV RD G ST]); [done|done| |].
      { intros u Hu. apply Hsub. by right. }
      exists wl, s', k'. rewrite E. split_and!; [done|done|]. constructor; try done.
      * by apply sublist_cons.
      * intros u thu [->|Hu]%elem_of_cons Hw Hthu; [|by apply (U u)].
        assert (thu = th) as -> by congruence. by apply (satisfied_within s).
      * destruct SV as (ws & Es & -> & Hws). exists ws. cbn [event_serve]. by rewrite Ht, <- Hok.
Qed.

(** ** Sending *)
Lemma event_inv_within i e k s :
  event_inv i e k → bits_within s (event_bits e) → event_inv i (set_bits s e) k.
Proof.
  intros [F W] Hb. constructor; [done|]. intros t th Hin Ht. destruct (W t th Hin Ht) as [Hs He].
  split; [|done]. by apply (satisfied_within (event_bits e)).
Qed.

Lemma event_sends lo i set e k :
  kinv None lo k → event_inv i e k → set ≠ 0 →
  ∃ wl bits k1, rt_event_send i set e k =
      (k' ← (if bool_decide (wl = []) then Ok k1 else rt_schedule k1); Ok (set_bits bits e, k', RT_EOK)) ∧
    kinv None lo k1 ∧ event_inv i (set_bits bits e) k1 ∧
    event_result i (q_get k (QWait i)) (Z.lor (event_bits e) set) k wl bits k1.
Proof.
  intros Hk [F W] Hset.
  destruct (event_wake_spec lo i (q_get k (QWait i)) (Z.lor (event_bits e) set) false k)
    as (wl & s' & k1 & E & Hk1 & Hr); [done|apply Hk|done|].
  exists wl, s', k1. split_and!; [|done| |done].
  - unfold rt_event_send. rewrite (proj2 (Z.eqb_neq _ _) Hset). rewrite E. cbn [mbind res_bind orb].
    by destruct (bool_decide (wl = [])).
  - constructor; [done|]. intros t th Hin Ht.
    rewrite (er_q _ _ _ _ _ _ _ Hr) in Hin by done. apply list_elem_of_filter in Hin as [Hnw Hin].
    rewrite (er_rest _ _ _ _ _ _ _ Hr) in Ht by done.
    split; [by apply (er_unsat _ _ _ _ _ _ _ Hr t)|by apply (W t)].
Qed.

(** ** Receiving *)
Definition option_ok (option : Z) : Prop := opt_and option = true ∨ opt_or option = true.

(** Whether the set is there at once. *)
Definition ready_now (bits set option : Z) : bool :=
  if opt_and option then Z.land bits set =? set else negb (Z.land bits set =? 0).

Lemma ready_now_satisfied bits set option th :
  option_ok option → satisfied bits (with_event set option th) = ready_now bits set option.
Proof.
  intros Ho. unfold satisfied, ready_now. simpl. rewrite (Z.land_comm set bits).
  destruct (opt_and option) eqn:E; [done|]. destruct Ho as [?|Ho]; [congruence|]. by rewrite Ho.
Qed.

(** [rt_event_recv] with its first lines run. *)
Lemma event_recv_eq i set option timeout e c th k :
  in_thread k c th → set ≠ 0 → option_ok option →
  rt_event_recv i set option timeout e k =
    let th1 := with_error RT_EOK th in
    let k1 := set_thread c th1 k in
    if ready_now (event_bits e) set option then
      Ok (if opt_clear option then set_bits (Z.land (event_bits e) (u32 (Z.lnot set))) e else e,
          k1, Some (RT_EOK, Some (Z.land (event_bits e) set)))
    else if timeout =? 0 then
      Ok (e, set_thread c (with_error (- RT_ETIMEOUT) th1) k1, Some (- RT_ETIMEOUT, None))
    else
      k ← suspend_on (QWait i) c (event_flag e) timeout (set_thread c (with_event set option th1) k1);
      k ← rt_schedule k;
      Ok (e, k, None).
Proof.
  intros Hin Hset Ho. unfold rt_event_recv. rewrite (in_thread_ok k c th Hin).
  destruct Hin as (_ & Hc & Ht & _). unfold rt_thread_self. cbn [mbind res_bind].
  rewrite (proj2 (Z.eqb_neq _ _) Hset). rewrite Hc.
  cbn [of_option mbind res_bind]. rewrite (get_thread_ok c th k Ht). cbn [mbind res_bind].
  unfold ready_now. destruct (opt_and option) eqn:Ea; [cbn [mbind res_bind]; by destruct (_ =? set)|].
  destruct Ho as [?|Hor]; [congruence|]. rewrite Hor. cbn [mbind res_bind].
  by destruct (Z.land (event_bits e) set =? 0).
Qed.

Lemma event_blocks lo i set option timeout e c th k :
  -1 <= lo <= 0 → kinv None lo k → event_inv i e k → in_thread k c th → timeout < TICK_HALF →
  set ≠ 0 → option_ok option → ready_now (event_bits e) set option = false → timeout ≠ 0 →
  let th2 := with_event set option (with_error RT_EOK th) in
  ∃ k2 k1, rt_event_recv i set option timeout e k = (k' ← rt_schedule k1; Ok (e, k', None)) ∧
    wstable every k k2 ∧ in_thread k2 c th2 ∧
    threads k2 = <[c := th2]> (threads k) ∧ queues k2 = queues k ∧
    blocked lo i (QWait i) (event_flag e) timeout c th2 k2 k1 ∧ event_inv i e k1.
Proof.
  intros Hlo Hk Hi Hin Ht Hset Ho Hr Hnz th2. pose proof Hi as [F W].
  destruct (touch_current lo c th (with_error RT_EOK th) k) as (Hk1 & Hin1 & Hw1); [done..|].
  destruct (touch_current lo c (with_error RT_EOK th) th2 _ Hk1 Hin1) as (Hk2 & Hin2 & Hw2); [done..|].
  set (k2 := set_thread c th2 (set_thread c (with_error RT_EOK th) k)) in *.
  destruct (block_clean lo i (QWait i) (event_flag e) timeout c th2 k2) as (k1 & E & Hb);
    [done|done|done|by left|done..|].
  exists k2, k1. split_and!; try done.
  - rewrite (event_recv_eq i set option timeout e c th k) by done. cbv zeta. rewrite Hr.
    rewrite (proj2 (Z.eqb_neq _ _) Hnz). fold th2. fold k2. by rewrite E.
  - by etransitivity.
  - simpl. by rewrite insert_insert_eq.
  - destruct Hb as [_ [_ Hth Hq] _ _ _]. constructor; [done|]. intros t tht.
    rewrite Hq, decide_True, wait_place_perm, elem_of_cons, Hth by done.
    intros Hint [[<- <-]|[Hne Htt]]%lookup_insert_Some.
    + split; [|done]. etransitivity; [|exact Hr]. by apply ready_now_satisfied.
    + destruct Hint as [->|Hint]; [done|]. apply (W t); [done|].
      simpl in Htt. by rewrite !lookup_insert_ne in Htt.
Qed.

(** ** The protocol *)
Inductive event_step (i : nat) : event → kernel → event → kernel → Prop :=
  | event_step_send set e k e' k' r :
      rt_event_send i set e k = Ok (e', k', r) → event_step i e k e' k'
  | event_step_recv set option timeout c th e k e' k' r :
      in_thread k c th → timeout < TICK_HALF →
      rt_event_recv i set option timeout e k = Ok (e', k', r) → event_step i e k e' k'
  | event_step_control reset e k e' k' r :
      rt_event_control i reset e k = Ok (e', k', r) → event_step i e k e' k'.

Lemma event_recv_option i set option timeout e c th k r :
  in_thread k c th → set ≠ 0 → rt_event_recv i set option timeout e k = Ok r → option_ok option.
Proof.
  intros Hin Hset E. unfold rt_event_recv in E. rewrite (in_thread_ok k c th Hin) in E.
  destruct Hin as (_ & Hc & Ht & _). unfold rt_thread_self in E. cbn [mbind res_bind] in E.
  rewrite (proj2 (Z.eqb_neq _ _) Hset) in E. rewrite Hc in E.
  cbn [of_option mbind res_bind] in E. rewrite (get_thread_ok c th k Ht) in E.
  cbn [mbind res_bind] in E. unfold option_ok.
  destruct (opt_and option); [by left|]. destruct (opt_or option); [by right|done].
Qed.

Lemma event_step_ok i e k e' k' :
  kinv None 0 k → event_inv i e k → event_step i e k e' k' →
  kinv None 0 k' ∧ event_inv i e' k' ∧ ∀ j, j ≠ i → wstable (owns j) k k'.
Proof.
  intros Hk Hi Hs. destruct Hs as [set e k e' k' r Hr|set option timeout c th e k e' k' r Hin Ht Hr|reset e k e' k' r Hr].
  - destruct (Z.eq_dec set 0) as [->|Hset]; [by injection Hr as <- <- _|].
    destruct (event_sends 0 i set e k Hk Hi Hset) as (wl & bits & k1 & E & Hk1 & Hi1 & Hres).
    rewrite E in Hr. apply bind_ok_inv in Hr as (k2 & Es & [= <- <- _]).
    pose proof (er_stable _ _ _ _ _ _ _ Hres) as Hw.
    destruct (bool_decide (wl = [])).
    + injection Es as <-. split_and!; [done|done|intros; by apply wstable_every].
    + split_and!; [by eapply schedule_kinv|eapply event_inv_stable; [done|by apply wstable_schedule]|].
      intros j _. apply wstable_every. transitivity k1; [done|by apply wstable_schedule].
  - destruct (Z.eq_dec set 0) as [->|Hset].
    { unfold rt_event_recv in Hr. rewrite (in_thread_ok k c th Hin) in Hr. by injection Hr as <- <- _. }
    pose proof (event_recv_option _ _ _ _ _ _ _ _ _ Hin Hset Hr) as Ho.
    destruct (touch_current 0 c th (with_error RT_EOK th) k) as (Hk1 & Hin1 & Hw1); [done..|].
    destruct (touch_current 0 c _ (with_error (- RT_ETIMEOUT) (with_error RT_EOK th)) _ Hk1 Hin1)
      as (Hk2 & _ & Hw2); [done..|].
    destruct (ready_now (event_bits e) set option) eqn:Hnow.
    { rewrite (event_recv_eq i set option timeout e c th k) in Hr by done. cbv zeta in Hr.
      rewrite Hnow in Hr. injection Hr as <- <- _.
      split_and!; [done| |intros; by apply wstable_every].
      eapply event_inv_stable; [|by apply wstable_every]. destruct (opt_clear option); [|done].
      apply event_inv_within; [done|]. by eexists. }
    destruct (Z.eq_dec timeout 0) as [->|Hnz].
    { rewrite (event_recv_eq i set option 0 e c th k) in Hr by done. cbv zeta in Hr.
      rewrite Hnow in Hr. injection Hr as <- <- _.
      assert (Hw : wstable every k (set_thread c (with_error (- RT_ETIMEOUT) (with_error RT_EOK th))
        (set_thread c (with_error RT_EOK th) k))) by (etransitivity; [exact Hw1|exact Hw2]).
      split_and!; [done| |intros; by apply wstable_every].
      eapply event_inv_stable; [done|by apply wstable_every]. }
    destruct (event_blocks 0 i set option timeout e c th k) as (k2 & k1 & E & Hwa & _ & _ & _ & Hb & Hi1);
      [lia|done..|].
    rewrite E in Hr. apply bind_ok_inv in Hr as (k3 & Es & [= <- <- _]).
    destruct Hb as [Hkb _ _ _ Hwb]. split_and!; [by eapply schedule_kinv| |].
    + eapply event_inv_stable; [done|by apply wstable_schedule].
    + intros j Hj. transitivity k2; [by apply wstable_every|].
      transitivity k1; [by apply Hwb|by apply wstable_schedule].
  - unfold rt_event_control in Hr. destruct reset; [|by injection Hr as <- <- _].
    destruct (resume_all_spec 0 (QWait i) _ k Hk I eq_refl)
      as (k1 & E1 & Hk1 & _ & Hq & _ & _ & _ & _ & Hw).
    unfold resume_all in Hr. rewrite E1 in Hr. cbn [mbind res_bind] in Hr.
    apply bind_ok_inv in Hr as (k2 & Es & [= <- <- _]).
    split_and!; [by eapply schedule_kinv| |].
    + destruct Hi as [F W]. constructor; [done|]. intros t th Hin.
      rewrite (wstable_nil every k1 k2 (QWait i)) in Hin; [by apply elem_of_nil in Hin| |done..].
      by apply wstable_schedule.
    + intros j _. apply wstable_every. transitivity k1; [done|by apply wstable_schedule].
Qed.

#[global] Program Instance event_protocol : IpcProtocol event :=
  { istep := event_step; iinv := event_inv }.
Next Obligation. intros. by eapply event_inv_stable. Qed.
Next Obligation. intros. by eapply event_step_ok. Qed.

(** ** Properties *)

(** C29. [rt_event_send] with a non-empty set gives the bits to the waiting threads in list
    order ([event_serve]): a thread whose condition holds for the set as it is when its
    turn comes is woken, and with the CLEAR option takes away exactly the bits it
    received, which later threads and the event then lack; without it all bits stay.
    The woken threads leave the waiting list, which keeps its order, and go to the back of
    their ready lists in the order in which they were woken; each [rt_event_recv] returns
    [RT_EOK] with the bits received.  No thread that still waits is satisfied by the
    bits that remain: no event is lost. *)
Theorem rt_event_send_spec lo i set e k :
  kinv None lo k → event_inv i e k → is_Some (rt_current_thread k) → set ≠ 0 →
  let '(ws, bits) := event_serve (threads k) (q_get k (QWait i)) (Z.lor (event_bits e) set) in
  ∃ k', rt_event_send i set e k = Ok (set_bits bits e, k', RT_EOK) ∧ kinv None lo k' ∧
    q_get k' (QWait i) = filter (λ u, u ∉ ws.*1) (q_get k (QWait i)) ∧
    (∀ p, q_get k' (QReady p) =
      q_get k (QReady p) ++ filter (λ t, ready_q <$> threads k !! t = Some (QReady p)) ws.*1) ∧
    (∀ t s, (t, s) ∈ ws → ∃ th th', threads k !! t = Some th ∧ satisfied s th = true ∧
       threads k' !! t = Some th' ∧ stat th' = THREAD_READY ∧
       rt_event_recv_resume t k' = Ok (RT_EOK, Some (received s th))) ∧
    (∀ t, t ∉ ws.*1 → threads k' !! t = threads k !! t) ∧
    (∀ t th, t ∈ q_get k' (QWait i) → threads k' !! t = Some th → satisfied bits th = false).
Proof.
  intros Hk Hi Hc Hset.
  destruct (event_sends lo i set e k Hk Hi Hset) as (wl & bits & k1 & E & Hk1 & [_ Hi1] & Hr).
  assert (Hs : ∃ k', (if bool_decide (wl = []) then Ok k1 else rt_schedule k1) = Ok k' ∧
    kinv None lo k' ∧ threads k' = threads k1 ∧ queues k' = queues k1).
  { destruct (bool_decide_reflect (wl = [])) as [Hwl|Hwl]; [by exists k1|].
    destruct (schedule_spec lo k1 Hk1) as (k' & Es & Hk' & Hsch).
    - apply Hr. by left.
    - by rewrite (se_current _ _ (er_env _ _ _ _ _ _ _ Hr)).
    - exists k'. by destruct Hsch as (? & ? & _). }
  destruct Hs as (k' & Es & Hk' & Hth & Hq).
  assert (Hqq : ∀ q, q_get k' q = q_get k1 q) by (intros q; unfold q_get; by rewrite Hq).
  destruct Hr as [W S Q EV WK R U (ws & Esv & -> & Hws) RD G ST]. rewrite Esv.
  exists k'. rewrite E, Es. split_and!; try done.
  - rewrite Hqq. by apply Q.
  - intros p. by rewrite Hqq, RD.
  - intros t s Ht. destruct (Hws t s Ht) as (th & Hth1 & Hsat & _ & Hth2).
    exists th, (with_stat THREAD_READY (event_match s th).1). split_and!; try done; [by rewrite Hth|].
    unfold rt_event_recv_resume. rewrite (get_thread_ok t (with_stat THREAD_READY (event_match s th).1))
      by (by rewrite Hth).
    cbn [mbind res_bind].
    assert (Herr : error (event_match s th).1 = RT_EOK).
    { destruct Hi as [_ W']. transitivity (error th).
      - unfold event_match. destruct (opt_and _); [done|]. destruct (opt_or _); [|done]. by destruct (_ =? 0).
      - apply (W' t); [|done]. eapply sublist_elem; [|exact S]. by apply (list_elem_of_fmap_2 fst _ (t, s)). }
    cbn [error event_set with_stat]. rewrite Herr, (proj1 (event_match_received s th Hsat)). done.
  - intros t Ht. rewrite Hth. by apply R.
  - intros t th. rewrite Hqq, Hth. intros Hin Ht. by apply (Hi1 t th).
Qed.

Definition demo_event (s : Z) : event := mk_event s RT_IPC_FLAG_FIFO.

Lemma demo_event_inv i s : event_inv i (demo_event s) demo_kernel.
Proof.
  constructor; [by left|]. intros t th Hin. rewrite demo_no_waiter in Hin by exact I.
  destruct (not_elem_of_nil t Hin).
Qed.

(** Thread 1 waits for both bits of 3, bit 0 being set. *)
Definition demo_event_waits : kernel :=
  match rt_event_recv 0 3 5 (-1) (demo_event 1) demo_kernel with Ok (_, k, _) => k | Stop _ => demo_kernel end.

Lemma demo_event_waits_ok : kinv None 0 demo_event_waits ∧ event_inv 0 (demo_event 1) demo_event_waits.
Proof.
  destruct (event_blocks 0 0 3 5 (-1) (demo_event 1) 1 (demo_thread 1) demo_kernel)
    as (k2 & k1 & E & _ & Hin2 & Hth2 & _ & Hb & Hi);
    [lia|apply demo_kinv|apply demo_event_inv|apply demo_in_thread|rewrite tick_half_val; lia|done|by left|done|done|].
  assert (Ho : others_ready 1 k2).
  { exists 2%nat, (demo_thread 2). split_and!; [lia| |vm_compute; reflexivity].
    rewrite Hth2, lookup_insert_ne by done. apply demo_thread_ok. lia. }
  destruct (block_schedule _ _ _ _ _ _ _ _ _ Hb Hin2 Ho) as (k' & Es & Hk' & _).
  unfold demo_event_waits. rewrite E, Es. cbn [mbind res_bind]. split; [done|].
  eapply event_inv_stable; [done|by eapply wstable_schedule].
Qed.

Lemma rt_event_send_spec_witness :
  ∃ k', rt_event_send 0 2 (demo_event 1) demo_event_waits = Ok (demo_event 0, k', RT_EOK) ∧
    kinv None 0 k' ∧ q_get k' (QWait 0) = [] ∧ rt_event_recv_resume 1 k' = Ok (RT_EOK, Some 3).
Proof.
  pose proof (rt_event_send_spec 0 0 2 (demo_event 1) demo_event_waits (proj1 demo_event_waits_ok)
    (proj2 demo_event_waits_ok) ltac:(vm_compute; eauto) ltac:(lia)) as H.
  assert (Es : event_serve (threads demo_event_waits) (q_get demo_event_waits (QWait 0)) (Z.lor (event_bits (demo_event 1)) 2) =
    ([(1%nat, 3)], 0)) by (vm_compute; reflexivity).
  rewrite Es in H. destruct H as (k' & E & Hk & Hq & _ & Hw & _).
  exists k'. split; [exact E|]. split; [exact Hk|]. split.
  - rewrite Hq. vm_compute. reflexivity.
  - destruct (Hw 1%nat 3) as (th & th' & Ht & _ & _ & _ & Hr); [left|]. rewrite Hr.
    assert (Ht' : received 3 <$> threads demo_event_waits !! 1%nat = Some 3) by (vm_compute; reflexivity).
    rewrite Ht in Ht'. cbn in Ht'. by injection Ht' as ->.
Defined.

(** [rt_event_recv] with a non-empty set and the AND or OR option: if the
    condition holds the call returns [RT_EOK] with the bits received, which the
    CLEAR option removes from the event; if not, no waiting time gives
    [-RT_ETIMEOUT], and otherwise the thread waits with its set and option
    recorded.  With neither option the call stops in [RT_ASSERT]. *)
Theorem rt_event_recv_spec lo i set option timeout e c th k :
  -1 <= lo <= 0 → kinv None lo k → event_inv i e k → in_thread k c th → timeout < TICK_HALF →
  set ≠ 0 → others_ready c k →
  if opt_and option || opt_or option then
    if ready_now (event_bits e) set option then
      ∃ k', rt_event_recv i set option timeout e k =
        Ok (if opt_clear option then set_bits (Z.land (event_bits e) (u32 (Z.lnot set))) e else e, k',
            Some (RT_EOK, Some (Z.land (event_bits e) set))) ∧ kinv None lo k' ∧ queues k' = queues k
    else if timeout =? 0 then
      ∃ k', rt_event_recv i set option timeout e k = Ok (e, k', Some (- RT_ETIMEOUT, None)) ∧
        kinv None lo k' ∧ queues k' = queues k
    else ∃ k', rt_event_recv i set option timeout e k = Ok (e, k', None) ∧ kinv None lo k' ∧
      event_inv i e k' ∧ c ∈ q_get k' (QWait i) ∧
      threads k' !! c = Some (blocked_thread (with_event set option th))
  else rt_event_recv i set option timeout e k = Stop AssertFail.
Proof.
  intros Hlo Hk Hi Hin Ht Hset Hoth.
  destruct (opt_and option || opt_or option) eqn:Hopt.
  2:{ apply orb_false_iff in Hopt as [Ha Ho]. unfold rt_event_recv. rewrite (in_thread_ok k c th Hin).
      destruct Hin as (_ & Hc & Htc & _). unfold rt_thread_self. cbn [mbind res_bind].
      rewrite (proj2 (Z.eqb_neq _ _) Hset), Hc. cbn [of_option mbind res_bind].
      rewrite (get_thread_ok c th k Htc). cbn [mbind res_bind]. by rewrite Ha, Ho. }
  apply orb_true_iff in Hopt.
  destruct (touch_current lo c th (with_error RT_EOK th) k) as (Hk1 & Hin1 & Hw1); [done..|].
  destruct (ready_now (event_bits e) set option) eqn:Hnow.
  { eexists. rewrite (event_recv_eq i set option timeout e c th k) by done. cbv zeta. by rewrite Hnow. }
  destruct (Z.eqb_spec timeout 0) as [->|Hnz].
  { eexists. rewrite (event_recv_eq i set option 0 e c th k) by done. cbv zeta. rewrite Hnow.
    split; [done|]. split; [|done]. by eapply touch_current. }
  destruct (event_blocks lo i set option timeout e c th k) as (k2 & k1 & E & Hwa & Hin2 & Hth2 & Hq2 & Hb & Hi1);
    [done..|].
  assert (Ho : others_ready c k2).
  { destruct Hoth as (u & thu & Hu & Htu & Hsu). exists u, thu. by rewrite Hth2, lookup_insert_ne. }
  destruct (block_schedule _ _ _ _ _ _ _ _ _ Hb Hin2 Ho) as (k' & Es & Hk' & Hsch & Ht' & _).
  exists k'. rewrite E, Es. split_and!; try done.
  - eapply event_inv_stable; [done|by eapply wstable_schedule].
  - destruct Hsch as (_ & Sq & _). unfold q_get. rewrite Sq.
    change (c ∈ q_get k1 (QWait i)). destruct Hb as [_ [_ _ Hq] _ _ _].
    rewrite Hq, decide_True, wait_place_perm by done. left.
Qed.

Lemma rt_event_recv_spec_witness :
  ∃ k', rt_event_recv 0 3 1 9 (demo_event 1) demo_kernel = Ok (demo_event 1, k', None) ∧
    kinv None 0 k' ∧ 1%nat ∈ q_get k' (QWait 0).
Proof.
  pose proof (rt_event_recv_spec 0 0 3 1 9 (demo_event 1) 1 (demo_thread 1) demo_kernel ltac:(lia) demo_kinv
    (demo_event_inv 0 1) demo_in_thread ltac:(rewrite tick_half_val; lia) ltac:(lia) demo_other_ready)
    as (k' & E & Hk & _ & Hin & _).
  exists k'. split; [exact E|split; [exact Hk|exact Hin]].
Defined.
