(* ===== verification/Mailbox.v ===== *)
(** * Mailboxes: [rt_mb_*] of [src/ipc.c]

    A ring buffer of 32-bit mails with a list of waiting receivers ([QWait]) and
    one of waiting senders ([QSender]).  The loops of [rt_mb_send_wait] and
    [rt_mb_recv] are split at [rt_schedule]: an operation returns or leaves the
    caller waiting with the timeout it had and the tick it started at, and the
    [..._resume] function is the rest of the loop. *)
From S2P Require Import Prelude Timer KObject Kernel KernelInv ThreadOps Tick ThreadProps Ipc.
Local Open Scope Z_scope.

Record mailbox := mk_mb {
  msg_pool : list Z;
  mb_size : Z;
  mb_entry : Z;
  in_offset : Z;
  out_offset : Z;
  mb_flag : Z }.

(** ** Operations *)
Definition fresh_mb (pool : list Z) (size flag : Z) : mailbox := mk_mb pool (u16 size) 0 0 0 flag.

(** [pool]: the content of the memory handed over. *)
Definition rt_mb_init (i : nat) (pool : list Z) (size flag : Z) (k : kernel) : res (mailbox * kernel) :=
  k ← on_objects (rt_object_init Object_Class_MailBox (OIpc i) 0) k;
  let k := rt_ipc_object_init (QWait i) k in
  let k := rt_ipc_object_init (QSender i) k in
  Ok (fresh_mb pool size flag, k).

Definition rt_mb_detach (i : nat) (k : kernel) : res kernel :=
  k ← resume_all (QWait i) k;
  k ← resume_all (QSender i) k;
  on_objects (rt_object_detach (OIpc i)) k.

(** [alloc], [pool]: what the two heap allocations returned. *)
Definition rt_mb_create (i : nat) (alloc : bool) (pool : option (list Z)) (size flag : Z) (k : kernel) :
    res (kernel * option mailbox) :=
  _ ← debug_not_in_interrupt k;
  '(o, mb) ← rt_object_allocate Object_Class_MailBox (if alloc then Some (OIpc i) else None) (objs k);
  let k := set_objs o k in
  match mb with
  | None => Ok (k, None)
  | Some _ =>
      let k := rt_ipc_object_init (QWait i) k in
      match pool with
      | None => k ← on_objects (rt_object_delete (OIpc i)) k; Ok (k, None)
      | Some pool =>
          let k := rt_ipc_object_init (QSender i) k in
          Ok (k, Some (fresh_mb pool size flag))
      end
  end.

Definition rt_mb_delete (i : nat) (k : kernel) : res kernel :=
  _ ← debug_not_in_interrupt k;
  k ← resume_all (QWait i) k;
  k ← resume_all (QSender i) k;
  on_objects (rt_object_delete (OIpc i)) k.

(** After the loop of [rt_mb_send_wait]. *)
Definition mb_put (i : nat) (value : Z) (mb : mailbox) (k : kernel) : res (mailbox * kernel) :=
  _ ← require OutOfBounds (in_offset mb <? Z.of_nat (length (msg_pool mb)));
  let pool := <[Z.to_nat (in_offset mb) := value]> (msg_pool mb) in
  let inn := u16 (in_offset mb + 1) in
  let inn := if inn >=? mb_size mb then 0 else inn in
  let mb := mk_mb pool (mb_size mb) (u16 (mb_entry mb + 1)) inn (out_offset mb) (mb_flag mb) in
  k ← wake_one (QWait i) k;
  Ok (mb, k).

(** The loop of [rt_mb_send_wait], from its test. *)
Definition mb_send_loop (i : nat) (value timeout : Z) (mb : mailbox) (k : kernel) :
    res (mailbox * kernel * call_result Z) :=
  if mb_entry mb =? mb_size mb then
    thread ← of_option NullDeref (rt_thread_self k);
    th ← get_thread thread k;
    let k := set_thread thread (with_error RT_EOK th) k in
    if timeout =? 0 then Ok (mb, k, Returned (- RT_EFULL))
    else
      _ ← debug_in_thread_context k;
      let tick_delta := if 0 <? timeout then rt_tick_get k else 0 in
      k ← suspend_on (QSender i) thread (mb_flag mb) timeout k;
      k ← rt_schedule k;
      Ok (mb, k, Waiting timeout tick_delta)
  else
    '(mb, k) ← mb_put i value mb k;
    Ok (mb, k, Returned RT_EOK).

Definition rt_mb_send_wait (i : nat) (value timeout : Z) (mb : mailbox) (k : kernel) :
    res (mailbox * kernel * call_result Z) :=
  if (mb_entry mb =? mb_size mb) && (timeout =? 0) then Ok (mb, k, Returned (- RT_EFULL))
  else mb_send_loop i value timeout mb k.

Definition rt_mb_send_wait_resume (i : nat) (thread : tid) (value timeout tick_delta : Z)
    (mb : mailbox) (k : kernel) : res (mailbox * kernel * call_result Z) :=
  th ← get_thread thread k;
  if negb (error th =? RT_EOK) then Ok (mb, k, Returned (error th))
  else mb_send_loop i value (remaining_timeout timeout tick_delta (rt_tick_get k)) mb k.

Definition rt_mb_send (i : nat) (value : Z) (mb : mailbox) (k : kernel) :
    res (mailbox * kernel * call_result Z) :=
  rt_mb_send_wait i value 0 mb k.

(** After the loop of [rt_mb_recv]: the mail and the new state. *)
Definition mb_get (i : nat) (mb : mailbox) (k : kernel) : res (Z * mailbox * kernel) :=
  value ← of_option OutOfBounds (msg_pool mb !! Z.to_nat (out_offset mb));
  let out := u16 (out_offset mb + 1) in
  let out := if out >=? mb_size mb then 0 else out in
  let mb := mk_mb (msg_pool mb) (mb_size mb) (u16 (mb_entry mb - 1)) (in_offset mb) out (mb_flag mb) in
  k ← wake_one (QSender i) k;
  Ok (value, mb, k).

Definition mb_recv_loop (i : nat) (timeout : Z) (mb : mailbox) (k : kernel) :
    res (mailbox * kernel * call_result (Z * option Z)) :=
  if mb_entry mb =? 0 then
    thread ← of_option NullDeref (rt_thread_self k);
    th ← get_thread thread k;
    let th := with_error RT_EOK th in
    let k := set_thread thread th k in
    if timeout =? 0 then
      Ok (mb, set_thread thread (with_error (- RT_ETIMEOUT) th) k, Returned (- RT_ETIMEOUT, None))
    else
      _ ← debug_in_thread_context k;
      let tick_delta := if 0 <? timeout then rt_tick_get k else 0 in
      k ← suspend_on (QWait i) thread (mb_flag mb) timeout k;
      k ← rt_schedule k;
      Ok (mb, k, Waiting timeout tick_delta)
  else
    '(value, mb, k) ← mb_get i mb k;
    Ok (mb, k, Returned (RT_EOK, Some value)).

Definition rt_mb_recv (i : nat) (timeout : Z) (mb : mailbox) (k : kernel) :
    res (mailbox * kernel * call_result (Z * option Z)) :=
  if (mb_entry mb =? 0) && (timeout =? 0) then Ok (mb, k, Returned (- RT_ETIMEOUT, None))
  else mb_recv_loop i timeout mb k.

Definition rt_mb_recv_resume (i : nat) (thread : tid) (timeout tick_delta : Z)
    (mb : mailbox) (k : kernel) : res (mailbox * kernel * call_result (Z * option Z)) :=
  th ← get_thread thread k;
  if negb (error th =? RT_EOK) then Ok (mb, k, Returned (error th, None))
  else mb_recv_loop i (remaining_timeout timeout tick_delta (rt_tick_get k)) mb k.

Definition rt_mb_control (i : nat) (reset : bool) (mb : mailbox) (k : kernel) : res (mailbox * kernel * Z) :=
  if reset then
    k ← resume_all (QWait i) k;
    k ← resume_all (QSender i) k;
    let mb := mk_mb (msg_pool mb) (mb_size mb) 0 0 0 (mb_flag mb) in
    k ← rt_schedule k;
    Ok (mb, k, RT_EOK)
  else Ok (mb, k, - RT_ERROR).

(** ** The ring buffer *)

(** The mails, oldest first. *)
Definition slot (mb : mailbox) (j : nat) : Z :=
  nth (Z.to_nat ((out_offset mb + Z.of_nat j) mod mb_size mb)) (msg_pool mb) 0.
Definition mails (mb : mailbox) : list Z := slot mb <$> seq 0 (Z.to_nat (mb_entry mb)).

Record ring_ok (mb : mailbox) : Prop := {
  ro_pool : Z.of_nat (length (msg_pool mb)) = mb_size mb;
  ro_size : 0 <= mb_size mb < 65536;
  ro_entry : 0 <= mb_entry mb <= mb_size mb;
  ro_offsets : 0 < mb_size mb → 0 <= out_offset mb < mb_size mb ∧ 0 <= in_offset mb < mb_size mb ∧
    in_offset mb = (out_offset mb + mb_entry mb) mod mb_size mb }.

Lemma fresh_mb_ring pool flag :
  Z.of_nat (length pool) < 65536 → ring_ok (fresh_mb pool (Z.of_nat (length pool)) flag).
Proof.
  intros Hl. unfold fresh_mb. replace (u16 _) with (Z.of_nat (length pool)) by word.
  constructor; simpl; [done|lia|lia|]. intros Hp. by rewrite Z.mod_0_l by lia.
Qed.

Definition mb_pushed (value : Z) (mb : mailbox) : mailbox :=
  mk_mb (<[Z.to_nat (in_offset mb) := value]> (msg_pool mb)) (mb_size mb) (mb_entry mb + 1)
    (if in_offset mb + 1 >=? mb_size mb then 0 else in_offset mb + 1) (out_offset mb) (mb_flag mb).
Definition mb_popped (mb : mailbox) : mailbox :=
  mk_mb (msg_pool mb) (mb_size mb) (mb_entry mb - 1) (in_offset mb)
    (if out_offset mb + 1 >=? mb_size mb then 0 else out_offset mb + 1) (mb_flag mb).

Lemma mod_is a b q r : 0 <= r < b → a = b * q + r → a mod b = r.
Proof. intros Hr E. symmetry. by apply (Z.mod_unique_pos a b q r). Qed.

Lemma wrap_add a b n : 0 <= a < n → 0 <= b < n →
  (a + b) mod n = if a + b <? n then a + b else a + b - n.
Proof.
  intros Ha Hb. destruct (Z.ltb_spec (a + b) n).
  - apply Z.mod_small. lia.
  - apply (mod_is _ _ 1); lia.
Qed.

(** Stepping an offset is addition modulo the size. *)
Lemma wrap_succ a n : 0 <= a < n → (if a + 1 >=? n then 0 else a + 1) = (a + 1) mod n.
Proof.
  intros Ha. destruct (Z.geb_spec (a + 1) n).
  - symmetry. apply (mod_is _ _ 1); lia.
  - rewrite Z.mod_small; lia.
Qed.

Lemma ring_push value mb :
  ring_ok mb → mb_entry mb < mb_size mb →
  ring_ok (mb_pushed value mb) ∧ mails (mb_pushed value mb) = mails mb ++ [value].
Proof.
  intros [P S E O] Hlt. destruct (O ltac:(lia)) as (Ho & Hi & Hio).
  assert (Hmod : ∀ j, 0 <= j < mb_size mb →
    (out_offset mb + j) mod mb_size mb = if out_offset mb + j <? mb_size mb then out_offset mb + j
      else out_offset mb + j - mb_size mb) by (intros; apply wrap_add; lia).
  split.
  - constructor; simpl; [by rewrite length_insert|done|lia|]. intros _. split; [done|].
    rewrite wrap_succ by lia. split; [apply Z.mod_pos_bound; lia|].
    rewrite Hio, Z.add_mod_idemp_l by lia. f_equal. lia.
  - unfold mails. simpl. replace (Z.to_nat (mb_entry mb + 1)) with (Z.to_nat (mb_entry mb) + 1)%nat by lia.
    rewrite seq_app, fmap_app. simpl. f_equal; [|f_equal].
    + apply list_fmap_ext. intros j x Hj. apply lookup_seq in Hj as [-> Hj]. unfold slot; simpl.
      rewrite !nth_lookup. rewrite list_lookup_insert_ne; [done|].
      rewrite Hio, !Hmod by lia.
      destruct (Z.ltb_spec (out_offset mb + mb_entry mb) (mb_size mb)),
        (Z.ltb_spec (out_offset mb + Z.of_nat j) (mb_size mb)); lia.
    + unfold slot; simpl. rewrite nth_lookup, Z2Nat.id, <- Hio by lia.
      rewrite list_lookup_insert_eq; [done|lia].
Qed.

Lemma ring_pop mb :
  ring_ok mb → 0 < mb_entry mb →
  ring_ok (mb_popped mb) ∧ ∃ v, msg_pool mb !! Z.to_nat (out_offset mb) = Some v ∧
    mails mb = v :: mails (mb_popped mb).
Proof.
  intros [P S E O] Hlt. destruct (O ltac:(lia)) as (Ho & Hi & Hio).
  pose proof (wrap_succ (out_offset mb) (mb_size mb) Ho) as Hout.
  assert (Hnext : ∀ j, ((out_offset mb + 1) mod mb_size mb + j) mod mb_size mb =
    (out_offset mb + (1 + j)) mod mb_size mb).
  { intros j. rewrite Z.add_mod_idemp_l by lia. f_equal. lia. }
  split.
  - constructor; simpl; [done|done|lia|]. intros _. rewrite Hout. split_and!.
    + apply Z.mod_pos_bound. lia.
    + apply Z.mod_pos_bound. lia.
    + lia.
    + lia.
    + rewrite Hnext, Hio. f_equal. lia.
  - destruct (lookup_lt_is_Some_2 (msg_pool mb) (Z.to_nat (out_offset mb))) as [v Hv]; [lia|].
    exists v. split; [done|]. unfold mails at 1.
    replace (Z.to_nat (mb_entry mb)) with (1 + Z.to_nat (mb_entry mb - 1))%nat by lia.
    rewrite seq_app, fmap_app. simpl. f_equal.
    + unfold slot. rewrite Z.add_0_r, Z.mod_small by lia. by rewrite nth_lookup, Hv.
    + unfold mails. simpl. rewrite <- (fmap_add_seq 1 0), <- list_fmap_compose.
      apply list_fmap_ext. intros j x Hj. unfold slot, compose; simpl.
      rewrite Hout. rewrite Hnext. do 3 f_equal. lia.
Qed.

(** ** The operations on a well-formed mailbox *)
Record mb_inv (i : nat) (mb : mailbox) (k : kernel) : Prop := {
  mbi_flag : flag_ok (mb_flag mb);
  mbi_ring : ring_ok mb;
  mbi_clean : waiters_clean i k }.

Lemma mb_inv_stable i mb k k' : mb_inv i mb k → wstable (owns i) k k' → mb_inv i mb k'.
Proof. intros [F R C] Hs. constructor; [done|done|by eapply waiters_clean_stable]. Qed.

Lemma mb_put_eq i value mb k :
  ring_ok mb → mb_entry mb < mb_size mb →
  mb_put i value mb k = (k' ← wake_one (QWait i) k; Ok (mb_pushed value mb, k')).
Proof.
  intros [P S E O] Hlt. destruct (O ltac:(lia)) as (Ho & Hi & Hio). unfold mb_put.
  rewrite (proj2 (Z.ltb_lt _ _)) by lia. cbn [require mbind res_bind].
  unfold mb_pushed. replace (u16 (in_offset mb + 1)) with (in_offset mb + 1) by word.
  by replace (u16 (mb_entry mb + 1)) with (mb_entry mb + 1) by word.
Qed.

Lemma mb_get_eq i mb k :
  ring_ok mb → 0 < mb_entry mb →
  ∃ v, mails mb = v :: mails (mb_popped mb) ∧ ring_ok (mb_popped mb) ∧
    mb_get i mb k = (k' ← wake_one (QSender i) k; Ok (v, mb_popped mb, k')).
Proof.
  intros R Hlt. destruct (ring_pop mb R Hlt) as (R' & v & Hv & Hm). exists v. split_and!; [done..|].
  destruct R as [P S E O]. destruct (O ltac:(lia)) as (Ho & Hi & Hio). unfold mb_get. rewrite Hv.
  cbn [of_option mbind res_bind]. unfold mb_popped.
  replace (u16 (out_offset mb + 1)) with (out_offset mb + 1) by word.
  by replace (u16 (mb_entry mb - 1)) with (mb_entry mb - 1) by word.
Qed.

(** A full mailbox makes the sender wait, an empty one the receiver. *)
Lemma mb_send_blocks lo i value timeout mb c th k :
  -1 <= lo <= 0 → kinv None lo k → mb_inv i mb k → in_thread k c th → timeout < TICK_HALF →
  mb_entry mb = mb_size mb → timeout ≠ 0 →
  ∃ k1, mb_send_loop i value timeout mb k = (k' ← rt_schedule k1;
      Ok (mb, k', Waiting timeout (if 0 <? timeout then rt_tick_get k else 0))) ∧
    blocked lo i (QSender i) (mb_flag mb) timeout c th k k1 ∧ mb_inv i mb k1.
Proof.
  intros Hlo Hk [F R C] Hin Ht Hfull Hnz.
  destruct (block_current lo i (QSender i) (mb_flag mb) timeout c th k) as (k1 & E & Hb);
    [done|done|done|by right|done..|].
  exists k1. split_and!; [|done|].
  - unfold mb_send_loop. rewrite Hfull, Z.eqb_refl. unfold rt_thread_self.
    pose proof Hin as (_ & Hc & Htc & _). rewrite Hc. cbn [of_option mbind res_bind].
    rewrite (get_thread_ok c th k Htc). cbn [mbind res_bind].
    rewrite (proj2 (Z.eqb_neq _ _) Hnz).
    destruct (touch_current lo c th (with_error RT_EOK th) k Hk Hin) as (_ & Hin' & _); [done..|].
    rewrite (in_thread_ok _ _ _ Hin'). cbn [mbind res_bind]. rewrite E. done.
  - constructor; [done|done|]. eapply waiters_clean_blocked; [done| |done]. by right.
Qed.

Lemma mb_recv_blocks lo i timeout mb c th k :
  -1 <= lo <= 0 → kinv None lo k → mb_inv i mb k → in_thread k c th → timeout < TICK_HALF →
  mb_entry mb = 0 → timeout ≠ 0 →
  ∃ k1, mb_recv_loop i timeout mb k = (k' ← rt_schedule k1;
      Ok (mb, k', Waiting timeout (if 0 <? timeout then rt_tick_get k else 0))) ∧
    blocked lo i (QWait i) (mb_flag mb) timeout c th k k1 ∧ mb_inv i mb k1.
Proof.
  intros Hlo Hk [F R C] Hin Ht Hempty Hnz.
  destruct (block_current lo i (QWait i) (mb_flag mb) timeout c th k) as (k1 & E & Hb);
    [done|done|done|by left|done..|].
  exists k1. split_and!; [|done|].
  - unfold mb_recv_loop. rewrite Hempty, Z.eqb_refl. unfold rt_thread_self.
    pose proof Hin as (_ & Hc & Htc & _). rewrite Hc. cbn [of_option mbind res_bind].
    rewrite (get_thread_ok c th k Htc). cbn [mbind res_bind].
    rewrite (proj2 (Z.eqb_neq _ _) Hnz).
    destruct (touch_current lo c th (with_error RT_EOK th) k Hk Hin) as (_ & Hin' & _); [done..|].
    rewrite (in_thread_ok _ _ _ Hin'). cbn [mbind res_bind]. rewrite E. done.
  - constructor; [done|done|]. eapply waiters_clean_blocked; [done| |done]. by left.
Qed.

(** ** The protocol *)
Definition step_ok (i : nat) (mb : mailbox) (k k' : kernel) : Prop :=
  kinv None 0 k' ∧ mb_inv i mb k' ∧ ∀ j, j ≠ i → wstable (owns j) k k'.

Lemma mb_send_loop_ok i value timeout mb c th k mb' k' r :
  kinv None 0 k → mb_inv i mb k → (mb_entry mb = mb_size mb → in_thread k c th) →
  timeout < TICK_HALF → mb_send_loop i value timeout mb k = Ok (mb', k', r) → step_ok i mb' k k'.
Proof.
  intros Hk Hi Hin Ht Hr. pose proof Hi as [F R C].
  destruct (Z.eq_dec (mb_entry mb) (mb_size mb)) as [Hfull|Hnf].
  - specialize (Hin Hfull). destruct (Z.eq_dec timeout 0) as [->|Hnz].
    + unfold mb_send_loop in Hr. rewrite Hfull, Z.eqb_refl in Hr. unfold rt_thread_self in Hr.
      pose proof Hin as (_ & Hc & Htc & _). rewrite Hc in Hr. cbn [of_option mbind res_bind] in Hr.
      rewrite (get_thread_ok c th k Htc) in Hr. injection Hr as <- <- _.
      destruct (touch_current 0 c th (with_error RT_EOK th) k Hk Hin) as (Hk1 & _ & Hw); [done..|].
      split_and!; [done| |intros; by apply wstable_every].
      eapply mb_inv_stable; [done|by apply wstable_every].
    + destruct (mb_send_blocks 0 i value timeout mb c th k) as (k1 & E & [Hkb _ _ _ Hwb] & Hi1);
        [lia|done..|].
      rewrite E in Hr. apply bind_ok_inv in Hr as (k2 & Es & [= <- <- _]).
      split_and!; [by eapply schedule_kinv|eapply mb_inv_stable; [done|by apply wstable_schedule]|].
      intros j Hj. transitivity k1; [by apply Hwb|by apply wstable_schedule].
  - assert (Hlt : mb_entry mb < mb_size mb) by (destruct R as [_ _ ? _]; lia).
    unfold mb_send_loop in Hr. rewrite (proj2 (Z.eqb_neq _ _) Hnf), mb_put_eq in Hr by done.
    destruct (wake_one (QWait i) k) as [k1|] eqn:Ew; [|done]. injection Hr as <- <- _.
    destruct (wake_one_safe 0 (QWait i) k k1 Hk I Ew) as [Hk1 Hw].
    split_and!; [done| |intros; by apply wstable_every].
    destruct (ring_push value mb R Hlt) as [R' _].
    constructor; [done|done|]. eapply waiters_clean_stable; [done|by apply wstable_every].
Qed.

Lemma mb_recv_loop_ok i timeout mb c th k mb' k' r :
  kinv None 0 k → mb_inv i mb k → (mb_entry mb = 0 → in_thread k c th) →
  timeout < TICK_HALF → mb_recv_loop i timeout mb k = Ok (mb', k', r) → step_ok i mb' k k'.
Proof.
  intros Hk Hi Hin Ht Hr. pose proof Hi as [F R C].
  destruct (Z.eq_dec (mb_entry mb) 0) as [Hempty|Hne].
  - specialize (Hin Hempty). destruct (Z.eq_dec timeout 0) as [->|Hnz].
    + unfold mb_recv_loop in Hr. rewrite Hempty, Z.eqb_refl in Hr. unfold rt_thread_self in Hr.
      pose proof Hin as (_ & Hc & Htc & _). rewrite Hc in Hr. cbn [of_option mbind res_bind] in Hr.
      rewrite (get_thread_ok c th k Htc) in Hr. injection Hr as <- <- _.
      destruct (touch_current 0 c th (with_error RT_EOK th) k Hk Hin) as (Hk1 & Hin1 & Hw1); [done..|].
      destruct (touch_current 0 c _ (with_error (- RT_ETIMEOUT) (with_error RT_EOK th)) _ Hk1 Hin1)
        as (Hk2 & _ & Hw2); [done..|].
      assert (Hw : wstable every k (set_thread c (with_error (- RT_ETIMEOUT) (with_error RT_EOK th))
        (set_thread c (with_error RT_EOK th) k))) by (etransitivity; [exact Hw1|exact Hw2]).
      split_and!; [done| |intros; by apply wstable_every].
      eapply mb_inv_stable; [done|by apply wstable_every].
    + destruct (mb_recv_blocks 0 i timeout mb c th k) as (k1 & E & [Hkb _ _ _ Hwb] & Hi1); [lia|done..|].
      rewrite E in Hr. apply bind_ok_inv in Hr as (k2 & Es & [= <- <- _]).
      split_and!; [by eapply schedule_kinv|eapply mb_inv_stable; [done|by apply wstable_schedule]|].
      intros j Hj. transitivity k1; [by apply Hwb|by apply wstable_schedule].
  - assert (Hlt : 0 < mb_entry mb) by (destruct R as [_ _ ? _]; lia).
    destruct (mb_get_eq i mb k R Hlt) as (v & _ & R' & E).
    unfold mb_recv_loop in Hr. rewrite (proj2 (Z.eqb_neq _ _) Hne), E in Hr.
    destruct (wake_one (QSender i) k) as [k1|] eqn:Ew; [|done]. injection Hr as <- <- _.
    destruct (wake_one_safe 0 (QSender i) k k1 Hk I Ew) as [Hk1 Hw].
    split_and!; [done| |intros; by apply wstable_every].
    constructor; [done|done|]. eapply waiters_clean_stable; [done|by apply wstable_every].
Qed.

Inductive mb_step (i : nat) : mailbox → kernel → mailbox → kernel → Prop :=
  | mb_step_send value timeout c th mb k mb' k' r :
      (mb_entry mb = mb_size mb → in_thread k c th) → timeout < TICK_HALF →
      rt_mb_send_wait i value timeout mb k = Ok (mb', k', r) → mb_step i mb k mb' k'
  | mb_step_send_resume value timeout tick_delta c th mb k mb' k' r :
      in_thread k c th → remaining_timeout timeout tick_delta (rt_tick_get k) < TICK_HALF →
      rt_mb_send_wait_resume i c value timeout tick_delta mb k = Ok (mb', k', r) → mb_step i mb k mb' k'
  | mb_step_recv timeout c th mb k mb' k' r :
      (mb_entry mb = 0 → in_thread k c th) → timeout < TICK_HALF →
      rt_mb_recv i timeout mb k = Ok (mb', k', r) → mb_step i mb k mb' k'
  | mb_step_recv_resume timeout tick_delta c th mb k mb' k' r :
      in_thread k c th → remaining_timeout timeout tick_delta (rt_tick_get k) < TICK_HALF →
      rt_mb_recv_resume i c timeout tick_delta mb k = Ok (mb', k', r) → mb_step i mb k mb' k'
  | mb_step_control reset mb k mb' k' r :
      rt_mb_control i reset mb k = Ok (mb', k', r) → mb_step i mb k mb' k'.

Lemma step_ok_refl i mb k : kinv None 0 k → mb_inv i mb k → step_ok i mb k k.
Proof. done. Qed.

Lemma mb_step_ok i mb k mb' k' :
  kinv None 0 k → mb_inv i mb k → mb_step i mb k mb' k' → step_ok i mb' k k'.
Proof.
  intros Hk Hi Hs.
  destruct Hs as [value timeout c th mb k mb' k' r Hin Ht Hr|value timeout td c th mb k mb' k' r Hin Ht Hr
    |timeout c th mb k mb' k' r Hin Ht Hr|timeout td c th mb k mb' k' r Hin Ht Hr|reset mb k mb' k' r Hr].
  - unfold rt_mb_send_wait in Hr. destruct (_ && _); [|by eapply mb_send_loop_ok].
    by injection Hr as <- <- _.
  - unfold rt_mb_send_wait_resume in Hr. pose proof Hin as (_ & _ & Htc & _).
    rewrite (get_thread_ok c th k Htc) in Hr. cbn [mbind res_bind] in Hr.
    destruct (negb _); [by injection Hr as <- <- _|]. by eapply mb_send_loop_ok.
  - unfold rt_mb_recv in Hr. destruct (_ && _); [|by eapply mb_recv_loop_ok].
    by injection Hr as <- <- _.
  - unfold rt_mb_recv_resume in Hr. pose proof Hin as (_ & _ & Htc & _).
    rewrite (get_thread_ok c th k Htc) in Hr. cbn [mbind res_bind] in Hr.
    destruct (negb _); [by injection Hr as <- <- _|]. by eapply mb_recv_loop_ok.
  - unfold rt_mb_control in Hr. destruct reset; [|by injection Hr as <- <- _].
    destruct (resume_all_spec 0 (QWait i) _ k Hk I eq_refl) as (k1 & E1 & Hk1 & _ & _ & _ & _ & _ & _ & Hw1).
    destruct (resume_all_spec 0 (QSender i) _ k1 Hk1 I eq_refl) as (k2 & E2 & Hk2 & _ & _ & _ & _ & _ & _ & Hw2).
    unfold resume_all in Hr. rewrite E1 in Hr. cbn [mbind res_bind] in Hr. rewrite E2 in Hr.
    cbn [mbind res_bind] in Hr. apply bind_ok_inv in Hr as (k3 & Es & [= <- <- _]).
    assert (Hw : wstable every k k3)
      by (transitivity k1; [done|]; transitivity k2; [done|by apply wstable_schedule]).
    split_and!; [by eapply schedule_kinv| |intros; by apply wstable_every].
    destruct Hi as [F [P S E O] C]. constructor; [done| |].
    + constructor; simpl; [done|done|lia|]. intros Hp. by rewrite Z.mod_0_l by lia.
    + eapply waiters_clean_stable; [done|by apply wstable_every].
Qed.

#[global] Program Instance mb_protocol : IpcProtocol mailbox :=
  { istep := mb_step; iinv := mb_inv }.
Next Obligation. intros. by eapply mb_inv_stable. Qed.
Next Obligation. intros. by eapply mb_step_ok. Qed.

(** ** Properties *)

Lemma mb_send_now lo i value mb k :
  kinv None lo k → ring_ok mb → is_Some (rt_current_thread k) → mb_entry mb < mb_size mb →
  ∃ k', mb_put i value mb k = Ok (mb_pushed value mb, k') ∧ kinv None lo k' ∧
    ring_ok (mb_pushed value mb) ∧ mails (mb_pushed value mb) = mails mb ++ [value] ∧
    first_woken (QWait i) k k'.
Proof.
  intros Hk R Hc Hlt. destruct (ring_push value mb R Hlt) as [R' Hm].
  destruct (wake_one_spec lo (QWait i) k Hk I Hc) as (k' & E & Hk' & Hf & _).
  exists k'. rewrite mb_put_eq by done. rewrite E. done.
Qed.

Lemma mb_recv_now lo i mb k :
  kinv None lo k → ring_ok mb → is_Some (rt_current_thread k) → 0 < mb_entry mb →
  ∃ v k', mb_get i mb k = Ok (v, mb_popped mb, k') ∧ kinv None lo k' ∧ ring_ok (mb_popped mb) ∧
    mails mb = v :: mails (mb_popped mb) ∧ first_woken (QSender i) k k'.
Proof.
  intros Hk R Hc Hlt. destruct (mb_get_eq i mb k R Hlt) as (v & Hm & R' & E).
  destruct (wake_one_spec lo (QSender i) k Hk I Hc) as (k' & Ew & Hk' & Hf & _).
  exists v, k'. rewrite E, Ew. done.
Qed.

(** [rt_mb_send_wait]: with room in the mailbox the mail is appended to the
    FIFO of mails and the first waiting receiver, if any, is made ready; a full
    mailbox gives [-RT_EFULL] when no waiting is asked for, and otherwise the
    sender waits in the senders' list with its timer set. *)
Theorem rt_mb_send_wait_spec lo i value timeout mb c th k :
  -1 <= lo <= 0 → kinv None lo k → mb_inv i mb k → in_thread k c th → timeout < TICK_HALF →
  others_ready c k →
  if mb_entry mb <? mb_size mb then
    ∃ mb' k', rt_mb_send_wait i value timeout mb k = Ok (mb', k', Returned RT_EOK) ∧ kinv None lo k' ∧
      ring_ok mb' ∧ mails mb' = mails mb ++ [value] ∧ first_woken (QWait i) k k'
  else if timeout =? 0 then rt_mb_send_wait i value timeout mb k = Ok (mb, k, Returned (- RT_EFULL))
  else ∃ k', rt_mb_send_wait i value timeout mb k =
      Ok (mb, k', Waiting timeout (if 0 <? timeout then rt_tick_get k else 0)) ∧ kinv None lo k' ∧
    threads k' !! c = Some (blocked_thread th) ∧ c ∈ q_get k' (QSender i).
Proof.
  intros Hlo Hk Hi Hin Ht Ho. pose proof Hi as [F R C].
  pose proof Hin as (_ & Hc & _).
  destruct (Z.ltb_spec (mb_entry mb) (mb_size mb)) as [Hlt|Hge].
  { destruct (mb_send_now lo i value mb k) as (k' & E & Hk' & R' & Hm & Hf); [done|done|eauto|done|].
    exists (mb_pushed value mb), k'. split_and!; try done.
    unfold rt_mb_send_wait, mb_send_loop. rewrite (proj2 (Z.eqb_neq _ _)) by lia. cbn [andb].
    by rewrite E. }
  assert (Hfull : mb_entry mb = mb_size mb) by (destruct R as [_ _ ? _]; lia).
  unfold rt_mb_send_wait. rewrite Hfull, Z.eqb_refl. cbn [andb].
  destruct (Z.eqb_spec timeout 0) as [->|Hnz]; [done|].
  destruct (mb_send_blocks lo i value timeout mb c th k) as (k1 & E & Hb & Hi1); [done..|].
  destruct (block_schedule _ _ _ _ _ _ _ _ _ Hb Hin Ho) as (k' & Es & Hk' & Hsch & Ht' & _).
  exists k'. rewrite E, Es. split_and!; try done.
  destruct Hsch as (_ & Sq & _). unfold q_get. rewrite Sq. change (c ∈ q_get k1 (QSender i)).
  destruct Hb as [_ [_ _ Hq] _ _ _]. rewrite Hq, decide_True, wait_place_perm by done. left.
Qed.

(** A mailbox of two slots that has wrapped around and is full. *)
Definition demo_mb : mailbox := mk_mb [7; 5] 2 2 1 1 RT_IPC_FLAG_FIFO.

Lemma demo_mb_ring : ring_ok demo_mb.
Proof. constructor; simpl; [done|lia|lia|intros _; done]. Qed.

Lemma demo_clean i : waiters_clean i demo_kernel.
Proof.
  intros q t th Ho Hin. rewrite demo_no_waiter in Hin by (by eapply owns_wait).
  destruct (not_elem_of_nil t Hin).
Qed.

Lemma demo_mb_inv : mb_inv 0 demo_mb demo_kernel.
Proof. constructor; [by left|exact demo_mb_ring|exact (demo_clean 0)]. Qed.

Lemma rt_mb_send_wait_spec_witness :
  ∃ k', rt_mb_send_wait 0 9 20 demo_mb demo_kernel = Ok (demo_mb, k', Waiting 20 0) ∧
    kinv None 0 k' ∧ 1%nat ∈ q_get k' (QSender 0).
Proof.
  pose proof (rt_mb_send_wait_spec 0 0 9 20 demo_mb 1 (demo_thread 1) demo_kernel ltac:(lia) demo_kinv
    demo_mb_inv demo_in_thread ltac:(rewrite tick_half_val; lia) demo_other_ready)
    as (k' & E & Hk & _ & Hin).
  exists k'. split; [exact E|split; [exact Hk|exact Hin]].
Defined.

(** [rt_mb_recv]: a mailbox that is not empty gives its oldest mail, and the
    first waiting sender, if any, is made ready; an empty one gives
    [-RT_ETIMEOUT] when no waiting is asked for, and otherwise the receiver
    waits.  With [rt_mb_send_wait_spec]: mails come out in the order they were
    sent. *)
Theorem rt_mb_recv_spec lo i timeout mb c th k :
  -1 <= lo <= 0 → kinv None lo k → mb_inv i mb k → in_thread k c th → timeout < TICK_HALF →
  others_ready c k →
  match mails mb with
  | v :: rest => ∃ mb' k', rt_mb_recv i timeout mb k = Ok (mb', k', Returned (RT_EOK, Some v)) ∧
      kinv None lo k' ∧ ring_ok mb' ∧ mails mb' = rest ∧ first_woken (QSender i) k k'
  | [] =>
      if timeout =? 0 then rt_mb_recv i timeout mb k = Ok (mb, k, Returned (- RT_ETIMEOUT, None))
      else ∃ k', rt_mb_recv i timeout mb k =
          Ok (mb, k', Waiting timeout (if 0 <? timeout then rt_tick_get k else 0)) ∧ kinv None lo k' ∧
        threads k' !! c = Some (blocked_thread th) ∧ c ∈ q_get k' (QWait i)
  end.
Proof.
  intros Hlo Hk Hi Hin Ht Ho. pose proof Hi as [F R C]. pose proof Hin as (_ & Hc & _).
  destruct (Z.eq_dec (mb_entry mb) 0) as [Hempty|Hne].
  - assert (Hm : mails mb = []) by (unfold mails; by rewrite Hempty). rewrite Hm.
    unfold rt_mb_recv. rewrite Hempty, Z.eqb_refl. cbn [andb].
    destruct (Z.eqb_spec timeout 0) as [->|Hnz]; [done|].
    destruct (mb_recv_blocks lo i timeout mb c th k) as (k1 & E & Hb & Hi1); [done..|].
    destruct (block_schedule _ _ _ _ _ _ _ _ _ Hb Hin Ho) as (k' & Es & Hk' & Hsch & Ht' & _).
    exists k'. rewrite E, Es. split_and!; try done.
    destruct Hsch as (_ & Sq & _). unfold q_get. rewrite Sq. change (c ∈ q_get k1 (QWait i)).
    destruct Hb as [_ [_ _ Hq] _ _ _]. rewrite Hq, decide_True, wait_place_perm by done. left.
  - assert (Hlt : 0 < mb_entry mb) by (destruct R as [_ _ ? _]; lia).
    destruct (mb_recv_now lo i mb k) as (v & k' & E & Hk' & R' & Hm & Hf); [done|done|eauto|done|].
    rewrite Hm. exists (mb_popped mb), k'. split_and!; try done.
    unfold rt_mb_recv, mb_recv_loop. rewrite (proj2 (Z.eqb_neq _ _) Hne). cbn [andb]. by rewrite E.
Qed.

Lemma rt_mb_recv_spec_witness :
  ∃ mb' k', rt_mb_recv 0 0 demo_mb demo_kernel = Ok (mb', k', Returned (RT_EOK, Some 5)) ∧
    mails mb' = [7].
Proof.
  pose proof (rt_mb_recv_spec 0 0 0 demo_mb 1 (demo_thread 1) demo_kernel ltac:(lia) demo_kinv
    demo_mb_inv demo_in_thread ltac:(rewrite tick_half_val; lia) demo_other_ready)
    as (mb' & k' & E & _ & _ & Hm & _).
  exists mb', k'. split; [exact E|exact Hm].
Defined.

(** A receiver that is woken without an error after [d] ticks of a wait of
    [timeout]: it takes the oldest mail if there is one; if another receiver
    was faster it waits again for exactly the [timeout - d] ticks left, and
    gives up with [-RT_ETIMEOUT] once none is left - the whole wait never lasts
    longer than the timeout given. *)
Theorem rt_mb_recv_resume_spec lo i timeout tick_delta mb c th k :
  -1 <= lo <= 0 → kinv None lo k → mb_inv i mb k → in_thread k c th → others_ready c k →
  0 < timeout < TICK_HALF → u32 (rt_tick_get k - tick_delta) <= TICK_HALF →
  let left := timeout - u32 (rt_tick_get k - tick_delta) in
  if error th =? RT_EOK then
    match mails mb with
    | v :: rest => ∃ mb' k', rt_mb_recv_resume i c timeout tick_delta mb k =
        Ok (mb', k', Returned (RT_EOK, Some v)) ∧ kinv None lo k' ∧ ring_ok mb' ∧ mails mb' = rest
    | [] =>
        if left <=? 0 then ∃ k', rt_mb_recv_resume i c timeout tick_delta mb k =
          Ok (mb, k', Returned (- RT_ETIMEOUT, None))
        else ∃ k', rt_mb_recv_resume i c timeout tick_delta mb k = Ok (mb, k', Waiting left (rt_tick_get k)) ∧
          kinv None lo k' ∧ remaining (tsys k') (TThread c) = left
    end
  else rt_mb_recv_resume i c timeout tick_delta mb k = Ok (mb, k, Returned (error th, None)).
Proof.
  intros Hlo Hk Hi Hin Ho Ht Hd left. pose proof Hi as [F R C]. pose proof Hin as (_ & Hc & Htc & _).
  unfold rt_mb_recv_resume. rewrite (get_thread_ok c th k Htc). cbn [mbind res_bind].
  destruct (error th =? RT_EOK); [|done]. cbn [negb].
  rewrite remaining_timeout_exact by lia. fold left.
  assert (Hleft : left < TICK_HALF) by (unfold left; unfold u32; lia).
  destruct (Z.eq_dec (mb_entry mb) 0) as [Hempty|Hne].
  - assert (Hm : mails mb = []) by (unfold mails; by rewrite Hempty). rewrite Hm.
    destruct (Z.leb_spec left 0) as [Hz|Hp].
    + rewrite Z.max_l by done. unfold mb_recv_loop. rewrite Hempty, Z.eqb_refl. unfold rt_thread_self.
      rewrite Hc. cbn [of_option mbind res_bind]. rewrite (get_thread_ok c th k Htc). eauto.
    + rewrite Z.max_r by lia.
      destruct (mb_recv_blocks lo i left mb c th k) as (k1 & E & Hb & Hi1); [done..|lia|].
      destruct (block_schedule _ _ _ _ _ _ _ _ _ Hb Hin Ho) as (k' & Es & Hk' & Hsch & _).
      exists k'. rewrite E, Es. rewrite (proj2 (Z.ltb_lt 0 left)) by done. split_and!; [done|done|].
      destruct Hsch as (_ & _ & Sts & _). rewrite Sts. destruct Hb as [_ _ Htm _ _].
      rewrite (proj2 (Z.ltb_lt 0 left)) in Htm by done. apply Htm.
  - assert (Hlt : 0 < mb_entry mb) by (destruct R as [_ _ ? _]; lia).
    destruct (mb_recv_now lo i mb k) as (v & k' & E & Hk' & R' & Hm & Hf); [done|done|eauto|done|].
    rewrite Hm. exists (mb_popped mb), k'. split_and!; try done.
    unfold mb_recv_loop. rewrite (proj2 (Z.eqb_neq _ _) Hne). by rewrite E.
Qed.

Lemma rt_mb_recv_resume_spec_witness :
  let mb := mk_mb [7; 5] 2 0 1 1 RT_IPC_FLAG_FIFO in
  ∃ k', rt_mb_recv_resume 0 1 20 4294967290 mb demo_kernel = Ok (mb, k', Waiting 14 0) ∧
    remaining (tsys k') (TThread 1) = 14.
Proof.
  intros mb.
  assert (Hi : mb_inv 0 mb demo_kernel).
  { constructor; [by left| |exact (demo_clean 0)]. constructor; simpl; [done|lia|lia|intros _; done]. }
  pose proof (rt_mb_recv_resume_spec 0 0 20 4294967290 mb 1 (demo_thread 1) demo_kernel ltac:(lia) demo_kinv
    Hi demo_in_thread demo_other_ready ltac:(rewrite tick_half_val; lia)
    ltac:(vm_compute; discriminate)) as H.
  cbv zeta in H. replace (20 - u32 (rt_tick_get demo_kernel - 4294967290)) with 14 in H by (vm_compute; reflexivity).
  replace (error (demo_thread 1) =? RT_EOK) with true in H by (vm_compute; reflexivity).
  replace (rt_tick_get demo_kernel) with 0 in H by (vm_compute; reflexivity).
  destruct H as (k' & E & _ & Hr). exists k'. split; [exact E|exact Hr].
Defined.
