(* ===== verification/MsgQueue.v ===== *)
(** * Message queues: [rt_mq_*] of [src/ipc.c]

    Messages live in nodes of a pool, linked by [next] into the queue (head and
    tail) and into the free list.  A node is out of both lists while its
    payload is copied with interrupts enabled: these phases are separate
    functions here, so that other threads may run between them; [rt_mq_send]
    and its kin are their compositions. *)
From S2P Require Import Prelude Timer KObject Kernel KernelInv ThreadOps Tick ThreadProps Ipc.
Local Open Scope Z_scope.

(** A [struct rt_mq_message] followed by its payload. *)
Record mq_node := mk_node { next : option nat; payload : list Z }.

Record msgqueue := mk_mq {
  nodes : gmap nat mq_node;
  msg_size : Z;
  max_msgs : Z;
  mq_entry : Z;
  msg_queue_head : option nat;
  msg_queue_tail : option nat;
  msg_queue_free : option nat;
  mq_flag : Z }.

Definition set_nodes (n : gmap nat mq_node) (mq : msgqueue) : msgqueue :=
  mk_mq n (msg_size mq) (max_msgs mq) (mq_entry mq) (msg_queue_head mq) (msg_queue_tail mq)
    (msg_queue_free mq) (mq_flag mq).
Definition set_free (f : option nat) (mq : msgqueue) : msgqueue :=
  mk_mq (nodes mq) (msg_size mq) (max_msgs mq) (mq_entry mq) (msg_queue_head mq) (msg_queue_tail mq)
    f (mq_flag mq).
Definition set_queue (h t : option nat) (e : Z) (mq : msgqueue) : msgqueue :=
  mk_mq (nodes mq) (msg_size mq) (max_msgs mq) e h t (msg_queue_free mq) (mq_flag mq).

Definition get_node (x : nat) (mq : msgqueue) : res mq_node := of_option NullDeref (nodes mq !! x).
Definition set_next (x : nat) (o : option nat) (mq : msgqueue) : res msgqueue :=
  n ← get_node x mq; Ok (set_nodes (<[x := mk_node o (payload n)]> (nodes mq)) mq).
(** [rt_memcpy(msg + 1, buffer, size)] *)
Definition copy_in (x : nat) (buffer : list Z) (mq : msgqueue) : res msgqueue :=
  n ← get_node x mq;
  Ok (set_nodes (<[x := mk_node (next n) (buffer ++ drop (length buffer) (payload n))]> (nodes mq)) mq).

(** ** Creation *)

(** [RT_ALIGN(size, RT_ALIGN_SIZE)] with an alignment of 4. *)
Definition align4 (size : Z) : Z := Z.land (u32 (size + 3)) (Z.lnot 3).

(** The loop that builds the free list: [temp] counts up, each node is pushed
    in front. *)
Fixpoint link_free (temp : nat) (count : nat) (free : option nat) (m : gmap nat mq_node) :
    option nat * gmap nat mq_node :=
  match count with
  | O => (free, m)
  | S count =>
      let m := <[temp := mk_node free (default [] (payload <$> m !! temp))]> m in
      link_free (S temp) count (Some temp) m
  end.

(** [old]: the pool as it was, one payload of [msg_size] bytes per node. *)
Definition fresh_mq (old : gmap nat mq_node) (size count flag : Z) : msgqueue :=
  let '(free, m) := link_free 0 (Z.to_nat count) None old in
  mk_mq m size count 0 None None free flag.

Definition rt_mq_init (i : nat) (old : gmap nat mq_node) (size pool_size flag : Z) (k : kernel) :
    res (msgqueue * kernel) :=
  k ← on_objects (rt_object_init Object_Class_MessageQueue (OIpc i) 0) k;
  let k := rt_ipc_object_init (QWait i) k in
  let size := u16 (align4 size) in
  let count := u16 (pool_size / (size + 4)) in
  Ok (fresh_mq old size count flag, k).

Definition rt_mq_detach (i : nat) (k : kernel) : res kernel :=
  k ← resume_all (QWait i) k;
  on_objects (rt_object_detach (OIpc i)) k.

Definition rt_mq_delete (i : nat) (k : kernel) : res kernel :=
  _ ← debug_not_in_interrupt k;
  k ← resume_all (QWait i) k;
  on_objects (rt_object_delete (OIpc i)) k.

Definition rt_mq_create (i : nat) (alloc : bool) (pool : option (gmap nat mq_node)) (size count flag : Z)
    (k : kernel) : res (kernel * option msgqueue) :=
  _ ← debug_not_in_interrupt k;
  '(o, mq) ← rt_object_allocate Object_Class_MessageQueue (if alloc then Some (OIpc i) else None) (objs k);
  let k := set_objs o k in
  match mq with
  | None => Ok (k, None)
  | Some _ =>
      let k := rt_ipc_object_init (QWait i) k in
      match pool with
      | None => k ← rt_mq_delete i k; Ok (k, None)
      | Some old => Ok (k, Some (fresh_mq old (u16 (align4 size)) (u16 count) flag))
      end
  end.

(** ** The phases *)

(** Take a node off the free list. *)
Definition mq_alloc (mq : msgqueue) : res (option (nat * msgqueue)) :=
  match msg_queue_free mq with
  | None => Ok None
  | Some msg => n ← get_node msg mq; Ok (Some (msg, set_free (next n) mq))
  end.

(** Fill it, interrupts enabled. *)
Definition mq_fill (msg : nat) (buffer : list Z) (mq : msgqueue) : res msgqueue :=
  mq ← set_next msg None mq;
  copy_in msg buffer mq.

(** Link it behind the tail; wake a receiver. *)
Definition mq_append (i : nat) (msg : nat) (mq : msgqueue) (k : kernel) : res (msgqueue * kernel) :=
  mq ← match msg_queue_tail mq with
       | Some tail => set_next tail (Some msg) mq
       | None => Ok mq
       end;
  let head := match msg_queue_head mq with None => Some msg | Some h => Some h end in
  let mq := set_queue head (Some msg) (u16 (mq_entry mq + 1)) mq in
  k ← wake_one (QWait i) k;
  Ok (mq, k).

(** Link it in front of the head; wake a receiver. *)
Definition mq_prepend (i : nat) (msg : nat) (mq : msgqueue) (k : kernel) : res (msgqueue * kernel) :=
  mq ← set_next msg (msg_queue_head mq) mq;
  let tail := match msg_queue_tail mq with None => Some msg | Some t => Some t end in
  let mq := set_queue (Some msg) tail (u16 (mq_entry mq + 1)) mq in
  k ← wake_one (QWait i) k;
  Ok (mq, k).

(** Take the head off the queue. *)
Definition mq_take (mq : msgqueue) : res (nat * msgqueue) :=
  msg ← of_option NullDeref (msg_queue_head mq);
  n ← get_node msg mq;
  let tail := if decide (msg_queue_tail mq = Some msg) then None else msg_queue_tail mq in
  Ok (msg, set_queue (next n) tail (u16 (mq_entry mq - 1)) mq).

(** [rt_memcpy(buffer, msg + 1, size > msg_size ? msg_size : size)] *)
Definition mq_copy_out (msg : nat) (size : Z) (mq : msgqueue) : res (list Z) :=
  n ← get_node msg mq;
  Ok (take (Z.to_nat (if size >? msg_size mq then msg_size mq else size)) (payload n)).

(** Give the node back. *)
Definition mq_free (msg : nat) (mq : msgqueue) : res msgqueue :=
  mq ← set_next msg (msg_queue_free mq) mq;
  Ok (set_free (Some msg) mq).

(** ** Operations *)
Definition rt_mq_send (i : nat) (buffer : list Z) (mq : msgqueue) (k : kernel) :
    res (msgqueue * kernel * Z) :=
  _ ← rt_assert (negb (length buffer =? 0)%nat);
  if Z.of_nat (length buffer) >? msg_size mq then Ok (mq, k, - RT_ERROR)
  else
    o ← mq_alloc mq;
    match o with
    | None => Ok (mq, k, - RT_EFULL)
    | Some (msg, mq) =>
        mq ← mq_fill msg buffer mq;
        '(mq, k) ← mq_append i msg mq k;
        Ok (mq, k, RT_EOK)
    end.

Definition rt_mq_urgent (i : nat) (buffer : list Z) (mq : msgqueue) (k : kernel) :
    res (msgqueue * kernel * Z) :=
  _ ← rt_assert (negb (length buffer =? 0)%nat);
  if Z.of_nat (length buffer) >? msg_size mq then Ok (mq, k, - RT_ERROR)
  else
    o ← mq_alloc mq;
    match o with
    | None => Ok (mq, k, - RT_EFULL)
    | Some (msg, mq) =>
        mq ← copy_in msg buffer mq;
        '(mq, k) ← mq_prepend i msg mq k;
        Ok (mq, k, RT_EOK)
    end.

(** The loop of [rt_mq_recv], from its test, then the three phases. *)
Definition mq_recv_loop (i : nat) (size timeout : Z) (mq : msgqueue) (k : kernel) :
    res (msgqueue * kernel * call_result (Z * option (list Z))) :=
  if mq_entry mq =? 0 then
    _ ← debug_in_thread_context k;
    thread ← of_option NullDeref (rt_thread_self k);
    th ← get_thread thread k;
    let th := with_error RT_EOK th in
    let k := set_thread thread th k in
    if timeout =? 0 then
      Ok (mq, set_thread thread (with_error (- RT_ETIMEOUT) th) k, Returned (- RT_ETIMEOUT, None))
    else
      let tick_delta := if 0 <? timeout then rt_tick_get k else 0 in
      k ← suspend_on (QWait i) thread (mq_flag mq) timeout k;
      k ← rt_schedule k;
      Ok (mq, k, Waiting timeout tick_delta)
  else
    '(msg, mq) ← mq_take mq;
    data ← mq_copy_out msg size mq;
    mq ← mq_free msg mq;
    Ok (mq, k, Returned (RT_EOK, Some data)).

Definition rt_mq_recv (i : nat) (size timeout : Z) (mq : msgqueue) (k : kernel) :
    res (msgqueue * kernel * call_result (Z * option (list Z))) :=
  _ ← rt_assert (negb (size =? 0));
  if (mq_entry mq =? 0) && (timeout =? 0) then Ok (mq, k, Returned (- RT_ETIMEOUT, None))
  else mq_recv_loop i size timeout mq k.

Definition rt_mq_recv_resume (i : nat) (thread : tid) (size timeout tick_delta : Z)
    (mq : msgqueue) (k : kernel) : res (msgqueue * kernel * call_result (Z * option (list Z))) :=
  th ← get_thread thread k;
  if negb (error th =? RT_EOK) then Ok (mq, k, Returned (error th, None))
  else mq_recv_loop i size (remaining_timeout timeout tick_delta (rt_tick_get k)) mq k.

(** The loop of the reset command; [fuel] bounds the queued messages. *)
Fixpoint mq_drain (fuel : nat) (mq : msgqueue) : res msgqueue :=
  match msg_queue_head mq with
  | None => Ok mq
  | Some msg =>
      match fuel with
      | O => Stop OutOfFuel
      | S fuel =>
          n ← get_node msg mq;
          let tail := if decide (msg_queue_tail mq = Some msg) then None else msg_queue_tail mq in
          let mq := set_queue (next n) tail (mq_entry mq) mq in
          mq ← mq_free msg mq;
          mq_drain fuel mq
      end
  end.

Definition rt_mq_control (i : nat) (reset : bool) (mq : msgqueue) (k : kernel) :
    res (msgqueue * kernel * Z) :=
  if reset then
    k ← resume_all (QWait i) k;
    mq ← mq_drain (size (nodes mq)) mq;
    let mq := set_queue (msg_queue_head mq) (msg_queue_tail mq) 0 mq in
    k ← rt_schedule k;
    Ok (mq, k, RT_EOK)
  else Ok (mq, k, - RT_ERROR).

(** ** Linked lists *)
Fixpoint chain (m : gmap nat mq_node) (o : option nat) (l : list nat) : Prop :=
  match l with
  | [] => o = None
  | x :: l => o = Some x ∧ ∃ n, m !! x = Some n ∧ chain m (next n) l
  end.

Lemma chain_ext m m' l : ∀ o,
  (∀ x, x ∈ l → next <$> m' !! x = next <$> m !! x) → chain m o l → chain m' o l.
Proof.
  induction l as [|x l IH]; intros o He; [done|]. simpl. intros (-> & n & Hn & Hc). split; [done|].
  pose proof (He x ltac:(left)) as Hx. rewrite Hn in Hx. simpl in Hx.
  destruct (m' !! x) as [n'|]; [|done]. injection Hx as Hx. exists n'. split; [done|].
  rewrite Hx. apply IH; [|done]. intros y Hy. apply He. by right.
Qed.

Lemma chain_insert m o l x n : x ∉ l → chain m o l → chain (<[x := n]> m) o l.
Proof. intros Hx. apply chain_ext. intros y Hy. rewrite lookup_insert_ne; [done|congruence]. Qed.

Lemma chain_head m o l : chain m o l → o = head l.
Proof. destruct l; simpl; [done|by intros [-> _]]. Qed.

Lemma chain_exists m l : ∀ o x, chain m o l → x ∈ l → is_Some (m !! x).
Proof.
  induction l as [|y l IH]; intros o x; [by intros _ ?%elem_of_nil|].
  simpl. intros (_ & n & Hn & Hc) [->|Hx]%elem_of_cons; [eauto|]. by apply (IH (next n)).
Qed.

(** Linking [x] behind the last node. *)
Lemma chain_snoc m o l y x n nx :
  chain m o (l ++ [y]) → NoDup (l ++ [y]) → (x ∉ l ++ [y]) → m !! y = Some n →
  m !! x = Some nx → next nx = None →
  chain (<[y := mk_node (Some x) (payload n)]> m) o ((l ++ [y]) ++ [x]).
Proof.
  revert o. induction l as [|z l IH]; intros o Hc Hnd Hx Hy Hxm Hnx.
  - simpl in *. destruct Hc as (-> & _). split; [done|].
    rewrite lookup_insert_eq. eexists. split; [done|]. simpl. split; [done|].
    rewrite lookup_insert_ne by set_solver. eauto.
  - simpl in *. destruct Hc as (-> & nz & Hz & Hc). split; [done|].
    apply NoDup_cons in Hnd as [Hzn Hnd]. apply not_elem_of_cons in Hx as [Hxz Hx].
    rewrite lookup_insert_ne.
    + exists nz. split; [done|]. by apply IH.
    + intros ->. apply Hzn, elem_of_app. right. by apply list_elem_of_singleton.
Qed.

(** ** Well-formed queues

    [ql] are the queued nodes, [fl] the free ones; [busy] are in the hands of a
    thread that fills or reads them, [full] are filled and about to be linked. *)
Record mq_wf (mq : msgqueue) (ql fl busy full : list nat) : Prop := {
  wf_queue : chain (nodes mq) (msg_queue_head mq) ql;
  wf_tail : msg_queue_tail mq = last ql;
  wf_free : chain (nodes mq) (msg_queue_free mq) fl;
  wf_full : ∀ x, x ∈ full → ∃ n, nodes mq !! x = Some n ∧ next n = None;
  wf_busy : ∀ x, x ∈ busy → is_Some (nodes mq !! x);
  wf_nodup : NoDup (ql ++ fl ++ busy ++ full);
  wf_entry : mq_entry mq = Z.of_nat (length ql);
  wf_count : Z.of_nat (length (ql ++ fl ++ busy ++ full)) = max_msgs mq;
  wf_max : max_msgs mq < 65536;
  wf_size : ∀ x n, nodes mq !! x = Some n → Z.of_nat (length (payload n)) = msg_size mq }.

(** The queued messages, oldest first. *)
Definition data_of (mq : msgqueue) (x : nat) : list Z := default [] (payload <$> nodes mq !! x).
Definition messages (mq : msgqueue) (ql : list nat) : list (list Z) := data_of mq <$> ql.

Ltac perm := rewrite <- ?app_assoc; simpl; rewrite <- ?Permutation_middle; rewrite <- ?app_assoc; simpl; try done.

(** Nodes only move between the parts. *)
Lemma wf_moved mq ql fl busy full mq' ql' fl' busy' full' :
  mq_wf mq ql fl busy full →
  ql' ++ fl' ++ busy' ++ full' ≡ₚ ql ++ fl ++ busy ++ full →
  max_msgs mq' = max_msgs mq →
  NoDup (ql' ++ fl' ++ busy' ++ full') ∧
  Z.of_nat (length (ql' ++ fl' ++ busy' ++ full')) = max_msgs mq'.
Proof. intros W Hp Hm. rewrite Hm, Hp. split; apply W. Qed.

Lemma not_in_parts (x : nat) (l1 l2 : list nat) : NoDup (l1 ++ l2) → x ∈ l2 → x ∉ l1.
Proof. intros (_ & Hd & _)%NoDup_app Hx Hx1. by apply (Hd x). Qed.

(** *** The phases keep the queue well-formed *)
Lemma alloc_spec mq ql fl busy full :
  mq_wf mq ql fl busy full →
  match fl with
  | [] => mq_alloc mq = Ok None
  | x :: fl' => ∃ mq', mq_alloc mq = Ok (Some (x, mq')) ∧ mq_wf mq' ql fl' (x :: busy) full ∧
      nodes mq' = nodes mq ∧ msg_size mq' = msg_size mq
  end.
Proof.
  intros W. pose proof (wf_free _ _ _ _ _ W) as Hf. unfold mq_alloc. destruct fl as [|x fl'].
  - simpl in Hf. by rewrite Hf.
  - destruct Hf as (-> & n & Hn & Hc). unfold get_node. rewrite Hn. cbn [of_option mbind res_bind].
    eexists. split; [done|]. split; [|done].
    destruct (wf_moved _ _ _ _ _ (set_free (next n) mq) ql fl' (x :: busy) full W) as [Hnd Hl];
      [perm|done|].
    destruct W. constructor; try done.
    intros y [->|Hy]%elem_of_cons; [eauto|auto].
Qed.

(** Writing a node that is in no list. *)
Lemma wf_write mq ql fl busy full x n :
  mq_wf mq ql fl busy full → (x ∉ ql) → (x ∉ fl) → (x ∈ full → next n = None) →
  Z.of_nat (length (payload n)) = msg_size mq →
  mq_wf (set_nodes (<[x := n]> (nodes mq)) mq) ql fl busy full.
Proof.
  intros [Q T F U B N E C M S] Hq Hf Hu Hp. constructor; simpl; try done.
  - by apply chain_insert.
  - by apply chain_insert.
  - intros y Hy. destruct (decide (y = x)) as [->|].
    + exists n. rewrite lookup_insert_eq. auto.
    + rewrite lookup_insert_ne by done. auto.
  - intros y Hy. rewrite lookup_insert_is_Some'. auto.
  - intros y ny [[<- <-]|[? ?]]%lookup_insert_Some; [done|eauto].
Qed.

Lemma wf_busy_out mq ql fl b1 x b2 full :
  mq_wf mq ql fl (b1 ++ x :: b2) full →
  (x ∉ ql) ∧ (x ∉ fl) ∧ (x ∉ full) ∧ ∃ n, nodes mq !! x = Some n.
Proof.
  intros W. pose proof (wf_nodup _ _ _ _ _ W) as N.
  destruct (wf_busy _ _ _ _ _ W x) as [n Hn]; [apply elem_of_app; right; left|].
  assert (Hp : x :: ql ++ fl ++ b1 ++ b2 ++ full ≡ₚ ql ++ fl ++ (b1 ++ x :: b2) ++ full) by perm.
  rewrite <- Hp in N. apply NoDup_cons in N as [N _].
  rewrite !elem_of_app in N. split_and!; [tauto..|eauto].
Qed.

Lemma fill_spec mq ql fl b1 x b2 full buffer :
  mq_wf mq ql fl (b1 ++ x :: b2) full → Z.of_nat (length buffer) <= msg_size mq →
  ∃ n mq', nodes mq !! x = Some n ∧ mq_fill x buffer mq = Ok mq' ∧
    mq_wf mq' ql fl (b1 ++ b2) (x :: full) ∧ msg_size mq' = msg_size mq ∧
    nodes mq' = <[x := mk_node None (buffer ++ drop (length buffer) (payload n))]> (nodes mq).
Proof.
  intros W Hl. destruct (wf_busy_out _ _ _ _ _ _ _ W) as (Hq & Hf & Hu & n & Hn).
  pose proof (wf_size _ _ _ _ _ W x n Hn) as Hs.
  set (n' := mk_node None (buffer ++ drop (length buffer) (payload n))).
  exists n, (set_nodes (<[x := n']> (nodes mq)) mq). split; [done|]. split; [|split; [|done]].
  - unfold mq_fill, set_next, copy_in, get_node. rewrite Hn. cbn [of_option mbind res_bind].
    simpl. rewrite lookup_insert_eq. cbn [of_option mbind res_bind]. simpl.
    by rewrite insert_insert_eq.
  - assert (W' : mq_wf (set_nodes (<[x := n']> (nodes mq)) mq) ql fl (b1 ++ x :: b2) full).
    { apply wf_write; try done. simpl. rewrite length_app, length_drop. lia. }
    destruct (wf_moved _ _ _ _ _ (set_nodes (<[x := n']> (nodes mq)) mq) ql fl (b1 ++ b2) (x :: full) W')
      as [Hnd Hlen]; [perm|done|].
    destruct W' as [Q T F U B N E C M S]. constructor; try done.
    + intros y [->|Hy]%elem_of_cons; [|auto]. exists n'. simpl. by rewrite lookup_insert_eq.
    + intros y Hy. apply B. apply elem_of_app in Hy. rewrite elem_of_app, elem_of_cons. tauto.
Qed.

Lemma last_split (l : list nat) : l = [] ∨ ∃ l' y, l = l' ++ [y] ∧ last l = Some y.
Proof.
  destruct (last l) as [y|] eqn:E; [right|left; by apply last_None].
  apply last_Some in E as [l' ->]. by exists l', y.
Qed.

Lemma append_spec i mq ql fl busy f1 x f2 k :
  mq_wf mq ql fl busy (f1 ++ x :: f2) →
  ∃ mq', mq_append i x mq k = (k' ← wake_one (QWait i) k; Ok (mq', k')) ∧
    mq_wf mq' (ql ++ [x]) fl busy (f1 ++ f2) ∧ msg_size mq' = msg_size mq ∧
    ∀ y, data_of mq' y = data_of mq y.
Proof.
  intros W. pose proof (wf_nodup _ _ _ _ _ W) as N.
  assert (Hxf : x ∈ f1 ++ x :: f2) by (apply elem_of_app; right; left).
  destruct (wf_full _ _ _ _ _ W x Hxf) as (nx & Hnx & Hnone).
  assert (Hout : (x ∉ ql) ∧ (x ∉ fl) ∧ (x ∉ busy) ∧ (x ∉ f1 ++ f2)).
  { assert (Hp : x :: ql ++ fl ++ busy ++ f1 ++ f2 ≡ₚ ql ++ fl ++ busy ++ f1 ++ x :: f2) by perm.
    rewrite <- Hp in N. apply NoDup_cons in N as [N' _]. rewrite !elem_of_app in N'.
    rewrite elem_of_app. tauto. }
  destruct Hout as (Hxq & Hxfl & Hxb & Hxff).
  assert (Hent : u16 (mq_entry mq + 1) = Z.of_nat (length (ql ++ [x]))).
  { rewrite (wf_entry _ _ _ _ _ W), length_app. simpl.
    assert (Z.of_nat (length ql) < 65535).
    { pose proof (wf_count _ _ _ _ _ W) as C. pose proof (wf_max _ _ _ _ _ W).
      rewrite !length_app in C. simpl in C. lia. }
    word. }
  assert (Hmove : ∀ mq', max_msgs mq' = max_msgs mq →
    NoDup ((ql ++ [x]) ++ fl ++ busy ++ f1 ++ f2) ∧
    Z.of_nat (length ((ql ++ [x]) ++ fl ++ busy ++ f1 ++ f2)) = max_msgs mq').
  { intros mq' Hm. apply (wf_moved mq ql fl busy (f1 ++ x :: f2)); [done| |done]. perm. }
  unfold mq_append. destruct (last_split ql) as [->|(l' & y & -> & Hlast)].
  - pose proof (wf_tail _ _ _ _ _ W) as HT. simpl in HT. rewrite HT. cbn [mbind res_bind].
    pose proof (wf_queue _ _ _ _ _ W) as HQ. simpl in HQ. rewrite HQ.
    eexists. split; [done|]. split; [|done].
    destruct (Hmove (set_queue (Some x) (Some x) (u16 (mq_entry mq + 1)) mq) eq_refl) as [Hnd Hlen].
    destruct W as [Q T F U B _ E C M S]. constructor; simpl; try done.
    + split; [done|]. eauto.
    + intros z Hz. apply U. apply elem_of_app in Hz. rewrite elem_of_app, elem_of_cons. tauto.
  - pose proof (wf_tail _ _ _ _ _ W) as HT. rewrite Hlast in HT. rewrite HT.
    assert (Hy : ∃ n, nodes mq !! y = Some n).
    { apply (chain_exists (nodes mq) (l' ++ [y]) (msg_queue_head mq)); [apply W|].
      apply elem_of_app. right. by apply list_elem_of_singleton. }
    destruct Hy as [n Hn]. unfold set_next, get_node. rewrite Hn. cbn [of_option mbind res_bind].
    set (m' := <[y := mk_node (Some x) (payload n)]> (nodes mq)).
    pose proof (wf_queue _ _ _ _ _ W) as HQ.
    assert (Hhead : ∃ h, msg_queue_head mq = Some h).
    { rewrite (chain_head _ _ _ HQ). destruct l'; simpl; eauto. }
    destruct Hhead as [h Hh]. assert (Hh' : msg_queue_head (set_nodes m' mq) = Some h) by exact Hh.
    rewrite Hh'. change (mq_entry (set_nodes m' mq)) with (mq_entry mq). eexists. split; [done|].
    destruct (Hmove (set_queue (Some h) (Some x) (u16 (mq_entry mq + 1)) (set_nodes m' mq)) eq_refl) as [Hnd Hlen].
    assert (Hyo : (y ∉ fl) ∧ (y ∉ busy) ∧ (y ∉ f1 ++ x :: f2)).
    { assert (Hyin : y ∈ l' ++ [y]) by (apply elem_of_app; right; by apply list_elem_of_singleton).
      apply NoDup_app in N as (_ & N & _). specialize (N y Hyin).
      rewrite !elem_of_app in N. rewrite elem_of_app. tauto. }
    destruct Hyo as (Hyfl & Hyb & Hyf).
    split; [|split; [done|]].
    + destruct W as [Q T F U B N' E C M S]. constructor; simpl; try done.
      * rewrite <- Hh. unfold m'. apply (chain_snoc _ _ _ _ _ n nx); try done.
        by apply NoDup_app in N as (? & _).
      * by rewrite last_snoc.
      * by apply chain_insert.
      * intros z Hz. assert (Hz' : z ∈ f1 ++ x :: f2)
          by (apply elem_of_app in Hz; rewrite elem_of_app, elem_of_cons; tauto).
        unfold m'. rewrite lookup_insert_ne by (intros ->; done). by apply U.
      * intros z Hz. unfold m'. rewrite lookup_insert_is_Some'. auto.
      * intros z nz. unfold m'. intros [[<- <-]|[? ?]]%lookup_insert_Some; [|eauto]. simpl. by apply (S y).
    + intros z. unfold data_of. simpl. unfold m'. destruct (decide (z = y)) as [->|].
      * by rewrite lookup_insert_eq, Hn.
      * by rewrite lookup_insert_ne.
Qed.

(** Filling for an urgent message leaves [next] alone. *)
Lemma copy_in_spec mq ql fl b1 x b2 full buffer :
  mq_wf mq ql fl (b1 ++ x :: b2) full → Z.of_nat (length buffer) <= msg_size mq →
  ∃ n mq', nodes mq !! x = Some n ∧ copy_in x buffer mq = Ok mq' ∧
    mq_wf mq' ql fl (b1 ++ x :: b2) full ∧ msg_size mq' = msg_size mq ∧
    nodes mq' = <[x := mk_node (next n) (buffer ++ drop (length buffer) (payload n))]> (nodes mq).
Proof.
  intros W Hl. destruct (wf_busy_out _ _ _ _ _ _ _ W) as (Hq & Hf & Hu & n & Hn).
  pose proof (wf_size _ _ _ _ _ W x n Hn) as Hs.
  exists n, (set_nodes (<[x := mk_node (next n) (buffer ++ drop (length buffer) (payload n))]> (nodes mq)) mq).
  split; [done|]. split; [|split; [|done]].
  - unfold copy_in, get_node. by rewrite Hn.
  - apply wf_write; try done. simpl. rewrite length_app, length_drop. lia.
Qed.

Lemma prepend_spec i mq ql fl b1 x b2 full k :
  mq_wf mq ql fl (b1 ++ x :: b2) full →
  ∃ mq', mq_prepend i x mq k = (k' ← wake_one (QWait i) k; Ok (mq', k')) ∧
    mq_wf mq' (x :: ql) fl (b1 ++ b2) full ∧ msg_size mq' = msg_size mq ∧
    ∀ y, data_of mq' y = data_of mq y.
Proof.
  intros W. destruct (wf_busy_out _ _ _ _ _ _ _ W) as (Hq & Hf & Hu & n & Hn).
  pose proof (wf_size _ _ _ _ _ W x n Hn) as Hs.
  unfold mq_prepend, set_next, get_node. rewrite Hn. cbn [of_option mbind res_bind].
  set (m' := <[x := mk_node (msg_queue_head mq) (payload n)]> (nodes mq)).
  eexists. split; [done|].
  assert (W' : mq_wf (set_nodes m' mq) ql fl (b1 ++ x :: b2) full) by (by apply wf_write).
  assert (Hent : u16 (mq_entry mq + 1) = Z.of_nat (length (x :: ql))).
  { rewrite (wf_entry _ _ _ _ _ W). simpl.
    pose proof (wf_count _ _ _ _ _ W) as C. pose proof (wf_max _ _ _ _ _ W).
    rewrite !length_app in C. simpl in C. word. }
  split; [|split; [done|]].
  - set (mq' := set_queue _ _ _ _).
    destruct (wf_moved _ _ _ _ _ mq' (x :: ql) fl (b1 ++ b2) full W') as [Hnd Hlen]; [perm|done|].
    destruct W' as [Q T F U B N E C M S]. constructor; try done.
    + simpl. split; [done|]. unfold m' at 1. rewrite lookup_insert_eq. eexists. by split.
    + change (last (x :: ql)) with (last ([x] ++ ql)). simpl in T |- *. rewrite T.
      destruct (last_split ql) as [->|(l' & y & -> & Hl)]; [done|].
      by rewrite (app_comm_cons l' [y] x), !last_snoc.
    + intros z Hz. apply B. apply elem_of_app in Hz. rewrite elem_of_app, elem_of_cons. tauto.
  - intros y. unfold data_of. simpl. unfold m'. destruct (decide (y = x)) as [->|].
    + by rewrite lookup_insert_eq, Hn.
    + by rewrite lookup_insert_ne.
Qed.

Lemma take_spec mq ql fl busy full :
  mq_wf mq ql fl busy full →
  match ql with
  | [] => mq_entry mq = 0
  | x :: ql' => 0 < mq_entry mq ∧ ∃ mq', mq_take mq = Ok (x, mq') ∧ mq_wf mq' ql' fl (x :: busy) full ∧
      nodes mq' = nodes mq ∧ msg_size mq' = msg_size mq
  end.
Proof.
  intros W. pose proof W as [Q T F U B N E C M S]. destruct ql as [|x ql]; [done|].
  simpl in Q. destruct Q as (Hh & n & Hn & Hc). split; [rewrite E; simpl; lia|].
  unfold mq_take, get_node. rewrite Hh. cbn [of_option mbind res_bind]. rewrite Hn.
  cbn [of_option mbind res_bind]. eexists. split; [done|]. split; [|done].
  set (mq' := set_queue _ _ _ _).
  destruct (wf_moved _ _ _ _ _ mq' ql fl (x :: busy) full W) as [Hnd Hlen]; [perm|done|].
  constructor; try done.
  - simpl. destruct (decide (msg_queue_tail mq = Some x)) as [Ht|Ht].
    + destruct (last_split ql) as [->|(l' & y & -> & Hl)]; [done|]. exfalso.
      rewrite T in Ht. rewrite (app_comm_cons l' [y] x), last_snoc in Ht. injection Ht as ->.
      apply NoDup_app in N as (N & _). apply NoDup_cons in N as [N _]. apply N.
      apply elem_of_app. right. by apply list_elem_of_singleton.
    + rewrite T in Ht |- *. destruct (last_split ql) as [->|(l' & y & -> & Hl)]; [done|].
      by rewrite (app_comm_cons l' [y] x), !last_snoc.
  - intros y [->|Hy]%elem_of_cons; [simpl; eauto|auto].
  - simpl. rewrite E. simpl.
    assert (Z.of_nat (length ql) < 65535) by (rewrite !length_app in C; simpl in C; lia). word.
Qed.

Lemma free_spec mq ql fl b1 x b2 full :
  mq_wf mq ql fl (b1 ++ x :: b2) full →
  ∃ mq', mq_free x mq = Ok mq' ∧ mq_wf mq' ql (x :: fl) (b1 ++ b2) full ∧
    msg_size mq' = msg_size mq ∧ mq_entry mq' = mq_entry mq ∧ ∀ y, data_of mq' y = data_of mq y.
Proof.
  intros W. destruct (wf_busy_out _ _ _ _ _ _ _ W) as (Hq & Hf & Hu & n & Hn).
  pose proof (wf_size _ _ _ _ _ W x n Hn) as Hs.
  unfold mq_free, set_next, get_node. rewrite Hn. cbn [of_option mbind res_bind].
  set (m' := <[x := mk_node (msg_queue_free mq) (payload n)]> (nodes mq)).
  eexists. split; [done|].
  assert (W' : mq_wf (set_nodes m' mq) ql fl (b1 ++ x :: b2) full) by (by apply wf_write).
  split; [|split; [done|split; [done|]]].
  - set (mq' := set_free _ _).
    destruct (wf_moved _ _ _ _ _ mq' ql (x :: fl) (b1 ++ b2) full W') as [Hnd Hlen]; [perm|done|].
    destruct W' as [Q T F U B N E C M S]. constructor; try done.
    + simpl. split; [done|]. unfold m' at 1. rewrite lookup_insert_eq. eexists. by split.
    + intros z Hz. apply B. apply elem_of_app in Hz. rewrite elem_of_app, elem_of_cons. tauto.
  - intros y. unfold data_of. simpl. unfold m'. destruct (decide (y = x)) as [->|].
    + by rewrite lookup_insert_eq, Hn.
    + by rewrite lookup_insert_ne.
Qed.

Lemma queue_length mq ql fl busy full :
  mq_wf mq ql fl busy full → (length ql <= size (nodes mq))%nat.
Proof.
  intros W. rewrite <- size_dom. rewrite <- (size_list_to_set (C:=gset nat) ql).
  - apply subseteq_size. intros x Hx%elem_of_list_to_set. apply elem_of_dom.
    eapply chain_exists; [apply W|done].
  - pose proof (wf_nodup _ _ _ _ _ W) as N. by apply NoDup_app in N as (? & _).
Qed.

(** The reset loop empties the queue. *)
Lemma drain_spec : ∀ ql fuel mq fl busy full e,
  mq_wf (set_queue (msg_queue_head mq) (msg_queue_tail mq) (Z.of_nat (length ql)) mq) ql fl busy full →
  mq_entry mq = e → (length ql <= fuel)%nat →
  ∃ mq' fl', mq_drain fuel mq = Ok mq' ∧
    mq_wf (set_queue (msg_queue_head mq') (msg_queue_tail mq') 0 mq') [] fl' busy full.
Proof.
  induction ql as [|x ql IH]; intros fuel mq fl busy full e W He Hf.
  - pose proof (wf_queue _ _ _ _ _ W) as Q. simpl in Q. exists mq, fl. split; [|done].
    destruct fuel; simpl; by rewrite Q.
  - destruct fuel as [|fuel]; [simpl in Hf; lia|].
    pose proof (take_spec _ _ _ _ _ W) as (_ & mq1 & E1 & W1 & Hn1 & _).
    destruct (free_spec mq1 ql fl [] x busy full W1) as (mq2 & E2 & W2 & _ & He2 & _).
    pose proof (wf_queue _ _ _ _ _ W) as Q. simpl in Q. destruct Q as (Hh & n & Hn & _).
    unfold mq_take, get_node in E1. simpl in E1. rewrite Hh in E1. cbn [of_option mbind res_bind] in E1.
    rewrite Hn in E1. cbn [of_option mbind res_bind] in E1. injection E1 as E1.
    cbn [mq_drain]. rewrite Hh. unfold get_node. rewrite Hn. cbn [of_option mbind res_bind].
    set (tl := if decide (msg_queue_tail mq = Some x) then None else msg_queue_tail mq) in *.
    set (mq3 := set_queue (next n) tl (mq_entry mq) mq).
    assert (E3 : mq_free x mq3 = Ok (set_queue (msg_queue_head mq2) (msg_queue_tail mq2) e mq2)).
    { unfold mq_free, set_next, get_node in E2 |- *. rewrite <- E1 in E2. simpl in E2. simpl.
      rewrite Hn in E2 |- *. cbn [of_option mbind res_bind] in E2 |- *. injection E2 as <-.
      unfold set_free, set_nodes, set_queue; simpl. by rewrite He. }
    rewrite E3. cbn [mbind res_bind].
    apply (IH fuel _ (x :: fl) busy full e); [|done|simpl in Hf; lia].
    assert (Hent : mq_entry mq2 = Z.of_nat (length ql)) by apply (wf_entry _ _ _ _ _ W2).
    replace (set_queue _ _ _ _) with mq2; [done|].
    unfold set_queue; simpl. rewrite <- Hent. by destruct mq2.
Qed.

(** ** Creation: every node is free *)
Lemma link_free_spec : ∀ count temp free m fl,
  chain m free fl → (∀ x, x ∈ fl → (x < temp)%nat) →
  let '(free', m') := link_free temp count free m in
  ∃ fl', chain m' free' (fl' ++ fl) ∧ (∀ x, x ∈ fl' ↔ (temp <= x < temp + count)%nat) ∧
    NoDup fl' ∧ length fl' = count ∧
    (∀ x, payload <$> m' !! x = if decide (temp <= x < temp + count)%nat
      then Some (default [] (payload <$> m !! x)) else payload <$> m !! x).
Proof.
  induction count as [|count IH]; intros temp free m fl Hc Hlt; simpl.
  - exists []. split_and!; [done| |constructor|done|].
    + intros x. split; [by intros ?%elem_of_nil|lia].
    + intros x. by rewrite decide_False by lia.
  - set (m1 := <[temp := mk_node free (default [] (payload <$> m !! temp))]> m).
    assert (Hc1 : chain m1 (Some temp) (temp :: fl)).
    { split; [done|]. unfold m1 at 1. rewrite lookup_insert_eq. eexists. split; [done|]. simpl.
      apply chain_insert; [|done]. intros Hin. specialize (Hlt temp Hin). lia. }
    specialize (IH (S temp) (Some temp) m1 (temp :: fl) Hc1).
    destruct (link_free (S temp) count (Some temp) m1) as [free' m'].
    destruct IH as (fl' & Hc' & Hin & Hnd & Hlen & Hp).
    { intros x [->|Hx]%elem_of_cons; [lia|]. specialize (Hlt x Hx). lia. }
    exists (fl' ++ [temp]). rewrite <- app_assoc. split_and!; [done| | | |].
    + intros x. rewrite elem_of_app, list_elem_of_singleton, Hin. lia.
    + apply NoDup_app. split_and!; [done| |apply NoDup_singleton].
      intros x Hx ->%list_elem_of_singleton. apply Hin in Hx. lia.
    + rewrite length_app. simpl. lia.
    + intros x. rewrite Hp. unfold m1. destruct (decide (x = temp)) as [->|Hne].
      * rewrite decide_False, decide_True by lia. by rewrite lookup_insert_eq.
      * rewrite lookup_insert_ne by done. apply decide_ext. lia.
Qed.

(** A pool whose payloads have the right size makes a well-formed empty queue. *)
Lemma fresh_mq_wf old size count flag :
  0 <= count < 65536 →
  (∀ x, (x < Z.to_nat count)%nat ↔ is_Some (old !! x)) →
  (∀ x n, old !! x = Some n → Z.of_nat (length (payload n)) = size) →
  ∃ fl, mq_wf (fresh_mq old size count flag) [] fl [] [].
Proof.
  intros Hc Hdom Hsz. unfold fresh_mq.
  pose proof (link_free_spec (Z.to_nat count) 0 None old [] eq_refl) as H.
  destruct (link_free 0 (Z.to_nat count) None old) as [free m].
  destruct H as (fl & Hch & Hin & Hnd & Hlen & Hp); [by intros x ?%elem_of_nil|].
  rewrite app_nil_r in Hch. exists fl. constructor; simpl; try done.
  - by intros x ?%elem_of_nil.
  - by intros x ?%elem_of_nil.
  - by rewrite app_nil_r.
  - rewrite app_nil_r. lia.
  - lia.
  - intros x n Hx. specialize (Hp x). rewrite Hx in Hp. simpl in Hp.
    destruct (decide _) as [Hd|Hd].
    + destruct (proj1 (Hdom x)) as [n0 Hn0]; [lia|]. rewrite Hn0 in Hp. simpl in Hp.
      injection Hp as ->. by apply (Hsz x).
    + destruct (old !! x) as [n0|] eqn:Hn0; [|done]. simpl in Hp. injection Hp as ->. by apply (Hsz x).
Qed.

(** A pool for [rt_mq_init]: as many nodes as fit, each with room for one
    message. *)
Definition mq_pool_ok (old : gmap nat mq_node) (size pool_size : Z) : Prop :=
  (∀ x, (x < Z.to_nat (u16 (pool_size / (size + 4))))%nat ↔ is_Some (old !! x)) ∧
  (∀ x n, old !! x = Some n → Z.of_nat (length (payload n)) = size).

Lemma fresh_mq_flag old size count flag : mq_flag (fresh_mq old size count flag) = flag.
Proof. unfold fresh_mq. by destruct (link_free _ _ _ _). Qed.

(** ** The queue and the nodes in the hands of threads *)
Record mq_object := mk_mqo { mqo_q : msgqueue; mqo_busy : list nat; mqo_full : list nat }.

Definition queue_is (o : mq_object) (ql : list nat) : Prop :=
  ∃ fl, mq_wf (mqo_q o) ql fl (mqo_busy o) (mqo_full o).

Lemma fresh_mq_queue old size pool_size flag :
  mq_pool_ok old size pool_size →
  queue_is (mk_mqo (fresh_mq old size (u16 (pool_size / (size + 4))) flag) [] []) [].
Proof. intros [Hd Hp]. apply fresh_mq_wf; [unfold u16; lia|done|done]. Qed.

Record mq_inv (i : nat) (o : mq_object) (k : kernel) : Prop := {
  mi_flag : flag_ok (mq_flag (mqo_q o));
  mi_wf : ∃ ql, queue_is o ql;
  mi_clean : waiters_clean i k }.

Lemma mq_inv_stable i o k k' : mq_inv i o k → wstable (owns i) k k' → mq_inv i o k'.
Proof. intros [F W C] Hs. constructor; [done|done|by eapply waiters_clean_stable]. Qed.

(** What a phase does to the sequence of messages. *)
Inductive mq_event := Alloc (x : nat) | Fill (x : nat) (buffer : list Z) | Append (x : nat) | Prepend (x : nat)
  | Take (x : nat) | Free (x : nat) | Block | Reset_queue.

(** The phases of all threads, interleaved in any order. *)
Inductive mq_phase (i : nat) : mq_event → mq_object → kernel → mq_object → kernel → Prop :=
  | ph_alloc x mq busy full k mq' :
      mq_alloc mq = Ok (Some (x, mq')) →
      mq_phase i (Alloc x) (mk_mqo mq busy full) k (mk_mqo mq' (x :: busy) full) k
  | ph_fill x buffer mq b1 b2 full k mq' :
      Z.of_nat (length buffer) <= msg_size mq → mq_fill x buffer mq = Ok mq' →
      mq_phase i (Fill x buffer) (mk_mqo mq (b1 ++ x :: b2) full) k (mk_mqo mq' (b1 ++ b2) (x :: full)) k
  | ph_copy_in x buffer mq b1 b2 full k mq' :
      Z.of_nat (length buffer) <= msg_size mq → copy_in x buffer mq = Ok mq' →
      mq_phase i (Fill x buffer) (mk_mqo mq (b1 ++ x :: b2) full) k (mk_mqo mq' (b1 ++ x :: b2) full) k
  | ph_append x mq busy f1 f2 k mq' k' :
      mq_append i x mq k = Ok (mq', k') →
      mq_phase i (Append x) (mk_mqo mq busy (f1 ++ x :: f2)) k (mk_mqo mq' busy (f1 ++ f2)) k'
  | ph_prepend x mq b1 b2 full k mq' k' :
      mq_prepend i x mq k = Ok (mq', k') →
      mq_phase i (Prepend x) (mk_mqo mq (b1 ++ x :: b2) full) k (mk_mqo mq' (b1 ++ b2) full) k'
  | ph_take x mq busy full k mq' :
      mq_entry mq ≠ 0 → mq_take mq = Ok (x, mq') →
      mq_phase i (Take x) (mk_mqo mq busy full) k (mk_mqo mq' (x :: busy) full) k
  | ph_free x mq b1 b2 full k mq' :
      mq_free x mq = Ok mq' →
      mq_phase i (Free x) (mk_mqo mq (b1 ++ x :: b2) full) k (mk_mqo mq' (b1 ++ b2) full) k
  | ph_block c th size timeout mq busy full k mq' k' r :
      in_thread k c th → timeout < TICK_HALF → mq_entry mq = 0 →
      mq_recv_loop i size timeout mq k = Ok (mq', k', r) →
      mq_phase i Block (mk_mqo mq busy full) k (mk_mqo mq' busy full) k'
  | ph_reset mq busy full k mq' k' r :
      rt_mq_control i true mq k = Ok (mq', k', r) →
      mq_phase i Reset_queue (mk_mqo mq busy full) k (mk_mqo mq' busy full) k'.

(** The abstract queue of messages under an event; [d] gives a node's payload. *)
Definition abstract_event (e : mq_event) (d : nat → list Z) (q q' : list (list Z)) : Prop :=
  match e with
  | Append x => q' = q ++ [d x]
  | Prepend x => q' = d x :: q
  | Take x => q = d x :: q'
  | Reset_queue => q' = []
  | Block => q = [] ∧ q' = []
  | Alloc _ | Fill _ _ | Free _ => q' = q
  end.

(** The payloads that an event leaves alone: all but the one it fills. *)
Definition payload_after (e : mq_event) (d d' : nat → list Z) : Prop :=
  match e with
  | Fill x buffer => ∀ y, d' y = if decide (y = x) then buffer ++ drop (length buffer) (d x) else d y
  | Reset_queue => True
  | _ => ∀ y, d' y = d y
  end.

Lemma mq_recv_blocks lo i size timeout mq c th k :
  -1 <= lo <= 0 → kinv None lo k → flag_ok (mq_flag mq) → waiters_clean i k → in_thread k c th →
  timeout < TICK_HALF → mq_entry mq = 0 → timeout ≠ 0 →
  ∃ k1, mq_recv_loop i size timeout mq k =
      (k' ← rt_schedule k1; Ok (mq, k', Waiting timeout (if 0 <? timeout then rt_tick_get k else 0))) ∧
    blocked lo i (QWait i) (mq_flag mq) timeout c th k k1 ∧ waiters_clean i k1.
Proof.
  intros Hlo Hk F C Hin Ht Hempty Hnz.
  destruct (block_current lo i (QWait i) (mq_flag mq) timeout c th k) as (k1 & E & Hb);
    [done|done|done|by left|done..|].
  exists k1. split_and!; [|done|].
  - unfold mq_recv_loop. rewrite Hempty, Z.eqb_refl. rewrite (in_thread_ok _ _ _ Hin).
    cbn [mbind res_bind]. unfold rt_thread_self.
    pose proof Hin as (_ & Hc & Htc & _). rewrite Hc. cbn [of_option mbind res_bind].
    rewrite (get_thread_ok c th k Htc). cbn [mbind res_bind].
    rewrite (proj2 (Z.eqb_neq _ _) Hnz). rewrite E. done.
  - eapply waiters_clean_blocked; [done| |done]. by left.
Qed.

(** What a phase leaves of the kernel. *)
Definition kernel_kept (i : nat) (k k' : kernel) : Prop :=
  kinv None 0 k' ∧ (waiters_clean i k → waiters_clean i k') ∧ ∀ j, j ≠ i → wstable (owns j) k k'.

Lemma kernel_kept_refl i k : kinv None 0 k → kernel_kept i k k.
Proof. done. Qed.

Lemma kernel_kept_every i k k' : kinv None 0 k' → wstable every k k' → kernel_kept i k k'.
Proof.
  intros Hk Hw. split_and!; [done| |intros; by apply wstable_every].
  intros Hc. eapply waiters_clean_stable; [done|by apply wstable_every].
Qed.

(** The attributes no phase changes. *)
Definition same_attr (mq mq' : msgqueue) : Prop :=
  msg_size mq' = msg_size mq ∧ max_msgs mq' = max_msgs mq ∧ mq_flag mq' = mq_flag mq.

Lemma set_next_attr x o mq mq' : set_next x o mq = Ok mq' → same_attr mq mq'.
Proof. unfold set_next. intros (n & _ & [= <-])%bind_ok_inv. done. Qed.

Lemma copy_in_attr x b mq mq' : copy_in x b mq = Ok mq' → same_attr mq mq'.
Proof. unfold copy_in. intros (n & _ & [= <-])%bind_ok_inv. done. Qed.

Lemma same_attr_trans a b c : same_attr a b → same_attr b c → same_attr a c.
Proof. unfold same_attr. intuition congruence. Qed.

Lemma alloc_attr x mq mq' : mq_alloc mq = Ok (Some (x, mq')) → same_attr mq mq'.
Proof.
  unfold mq_alloc. destruct (msg_queue_free mq); [|done]. by intros (? & _ & [= <- <-])%bind_ok_inv.
Qed.

Lemma fill_attr x b mq mq' : mq_fill x b mq = Ok mq' → same_attr mq mq'.
Proof.
  intros (m & E & E')%bind_ok_inv. eapply same_attr_trans; [by eapply set_next_attr|by eapply copy_in_attr].
Qed.

Lemma append_attr i x mq k mq' k' : mq_append i x mq k = Ok (mq', k') → same_attr mq mq'.
Proof.
  unfold mq_append. intros (m & E & (k1 & _ & [= <- <-])%bind_ok_inv)%bind_ok_inv.
  destruct (msg_queue_tail mq); [|by injection E as <-]. by apply set_next_attr in E.
Qed.

Lemma prepend_attr i x mq k mq' k' : mq_prepend i x mq k = Ok (mq', k') → same_attr mq mq'.
Proof.
  unfold mq_prepend. intros (m & E & (k1 & _ & [= <- <-])%bind_ok_inv)%bind_ok_inv.
  by apply set_next_attr in E.
Qed.

Lemma take_attr x mq mq' : mq_take mq = Ok (x, mq') → same_attr mq mq'.
Proof. unfold mq_take. by intros (m & _ & (n & _ & [= <- <-])%bind_ok_inv)%bind_ok_inv. Qed.

Lemma free_attr x mq mq' : mq_free x mq = Ok mq' → same_attr mq mq'.
Proof. unfold mq_free. intros (m & E & [= <-])%bind_ok_inv. by apply set_next_attr in E. Qed.

Lemma drain_attr : ∀ fuel mq mq', mq_drain fuel mq = Ok mq' → same_attr mq mq'.
Proof.
  induction fuel as [|fuel IH]; intros mq mq'; simpl; destruct (msg_queue_head mq);
    try (by intros [= <-]).
  intros (nd & _ & (m & E & E')%bind_ok_inv)%bind_ok_inv. apply IH in E'. apply free_attr in E.
  by eapply same_attr_trans.
Qed.

Lemma messages_ext mq mq' ql :
  (∀ y, y ∈ ql → data_of mq' y = data_of mq y) → messages mq' ql = messages mq ql.
Proof. intros H. unfold messages. apply list_fmap_ext. intros j y Hy. apply H. by eapply list_elem_of_lookup_2. Qed.

Lemma data_nodes mq mq' y : nodes mq' = nodes mq → data_of mq' y = data_of mq y.
Proof. unfold data_of. by intros ->. Qed.

Lemma data_fill mq mq' x n0 nx buffer :
  nodes mq !! x = Some n0 →
  nodes mq' = <[x := mk_node nx (buffer ++ drop (length buffer) (payload n0))]> (nodes mq) → payload_after (Fill x buffer) (data_of mq) (data_of mq').
Proof.
  intros Hx Hn y. unfold data_of. rewrite Hn, Hx. simpl.
  case_decide; [subst; by rewrite lookup_insert_eq|by rewrite lookup_insert_ne].
Qed.

(** What a phase achieves. *)
Definition phase_ok (i : nat) (e : mq_event) (o : mq_object) (k : kernel) (o' : mq_object) (k' : kernel)
    (ql : list nat) : Prop :=
  ∃ ql', queue_is o' ql' ∧
    abstract_event e (data_of (mqo_q o)) (messages (mqo_q o) ql) (messages (mqo_q o') ql') ∧
    payload_after e (data_of (mqo_q o)) (data_of (mqo_q o')) ∧
    same_attr (mqo_q o) (mqo_q o') ∧ kernel_kept i k k'.

Lemma phase_fill_ok i k o x buffer mq' busy' full' ql fl n0 nx :
  kinv None 0 k → mq_wf (mqo_q o) ql fl (mqo_busy o) (mqo_full o) → mq_wf mq' ql fl busy' full' →
  (x ∉ ql) → nodes (mqo_q o) !! x = Some n0 →
  nodes mq' = <[x := mk_node nx (buffer ++ drop (length buffer) (payload n0))]> (nodes (mqo_q o)) → same_attr (mqo_q o) mq' →
  phase_ok i (Fill x buffer) o k (mk_mqo mq' busy' full') k ql.
Proof.
  intros Hk W W' Hx Hn Hnn Ha. pose proof (data_fill _ _ _ _ _ _ Hn Hnn) as Hd.
  exists ql. split; [by exists fl|]. split; [|split_and!; [done|done|by apply kernel_kept_refl]].
  simpl. apply messages_ext. intros y Hy. rewrite Hd. rewrite decide_False; [done|congruence].
Qed.

Lemma wake_kept i k k' : kinv None 0 k → wake_one (QWait i) k = Ok k' → kernel_kept i k k'.
Proof.
  intros Hk E. destruct (wake_one_safe 0 (QWait i) k k' Hk I E) as [Hk' Hw]. by apply kernel_kept_every.
Qed.

Lemma phase_alloc_ok i x mq busy full k mq' ql :
  kinv None 0 k → queue_is (mk_mqo mq busy full) ql → mq_alloc mq = Ok (Some (x, mq')) →
  phase_ok i (Alloc x) (mk_mqo mq busy full) k (mk_mqo mq' (x :: busy) full) k ql.
Proof.
  intros Hk [fl W] E. pose proof (alloc_spec _ _ _ _ _ W) as H. destruct fl as [|y fl']; [simpl in H; congruence|].
  destruct H as (mq1 & E1 & W1 & Hn & _). simpl in E1. rewrite E in E1. injection E1 as <- <-.
  exists ql. split; [by exists fl'|].
  split_and!; [|intros y; by apply data_nodes|by eapply alloc_attr|by apply kernel_kept_refl].
  apply messages_ext. intros y _. by apply data_nodes.
Qed.

Lemma phase_link_ok i e o k mq' busy' full' k' ql ql' fl' :
  kinv None 0 k → mq_wf mq' ql' fl' busy' full' → (∀ y, data_of mq' y = data_of (mqo_q o) y) →
  same_attr (mqo_q o) mq' → wake_one (QWait i) k = Ok k' →
  abstract_event e (data_of (mqo_q o)) (messages (mqo_q o) ql) (messages (mqo_q o) ql') →
  payload_after e (data_of (mqo_q o)) (data_of mq') →
  phase_ok i e o k (mk_mqo mq' busy' full') k' ql.
Proof.
  intros Hk W Hd Ha Hw He Hp. exists ql'. split; [by exists fl'|].
  split_and!; [|done|done|by apply wake_kept].
  simpl. by rewrite (messages_ext (mqo_q o) mq').
Qed.

Lemma phase_append_ok i x mq busy f1 f2 k mq' k' ql :
  kinv None 0 k → queue_is (mk_mqo mq busy (f1 ++ x :: f2)) ql → mq_append i x mq k = Ok (mq', k') →
  phase_ok i (Append x) (mk_mqo mq busy (f1 ++ x :: f2)) k (mk_mqo mq' busy (f1 ++ f2)) k' ql.
Proof.
  intros Hk [fl W] E. destruct (append_spec i mq ql fl busy f1 x f2 k W) as (mq1 & E1 & W1 & _ & Hd).
  pose proof (append_attr _ _ _ _ _ _ E) as Ha. rewrite E1 in E. apply bind_ok_inv in E as (k1 & Ew & [= <- <-]).
  eapply phase_link_ok; try done. simpl. unfold messages. by rewrite fmap_app.
Qed.

Lemma phase_prepend_ok i x mq b1 b2 full k mq' k' ql :
  kinv None 0 k → queue_is (mk_mqo mq (b1 ++ x :: b2) full) ql → mq_prepend i x mq k = Ok (mq', k') →
  phase_ok i (Prepend x) (mk_mqo mq (b1 ++ x :: b2) full) k (mk_mqo mq' (b1 ++ b2) full) k' ql.
Proof.
  intros Hk [fl W] E. destruct (prepend_spec i mq ql fl b1 x b2 full k W) as (mq1 & E1 & W1 & _ & Hd).
  pose proof (prepend_attr _ _ _ _ _ _ E) as Ha. rewrite E1 in E. apply bind_ok_inv in E as (k1 & Ew & [= <- <-]).
  by eapply phase_link_ok.
Qed.

Lemma phase_take_ok i x mq busy full k mq' ql :
  kinv None 0 k → queue_is (mk_mqo mq busy full) ql → mq_entry mq ≠ 0 → mq_take mq = Ok (x, mq') →
  phase_ok i (Take x) (mk_mqo mq busy full) k (mk_mqo mq' (x :: busy) full) k ql.
Proof.
  intros Hk [fl W] Hne E. pose proof (take_spec _ _ _ _ _ W) as H. simpl in H.
  destruct ql as [|y ql]; [done|]. destruct H as (_ & mq1 & E1 & W1 & Hn & _).
  rewrite E in E1. injection E1 as <- <-. exists ql. split; [by exists fl|].
  split_and!; [|intros z; by apply data_nodes|by eapply take_attr|by apply kernel_kept_refl].
  simpl. f_equal. symmetry. apply messages_ext. intros z _. by apply data_nodes.
Qed.

Lemma phase_free_ok i x mq b1 b2 full k mq' ql :
  kinv None 0 k → queue_is (mk_mqo mq (b1 ++ x :: b2) full) ql → mq_free x mq = Ok mq' →
  phase_ok i (Free x) (mk_mqo mq (b1 ++ x :: b2) full) k (mk_mqo mq' (b1 ++ b2) full) k ql.
Proof.
  intros Hk [fl W] E. destruct (free_spec mq ql fl b1 x b2 full W) as (mq1 & E1 & W1 & _ & _ & Hd).
  pose proof (free_attr _ _ _ E) as Ha. rewrite E in E1. injection E1 as <-.
  exists ql. split; [by exists (x :: fl)|]. split_and!; [|done|done|by apply kernel_kept_refl].
  simpl. apply messages_ext. auto.
Qed.

Lemma phase_block_ok i c th size timeout mq busy full k mq' k' r ql :
  kinv None 0 k → mq_inv i (mk_mqo mq busy full) k → queue_is (mk_mqo mq busy full) ql →
  in_thread k c th → timeout < TICK_HALF → mq_entry mq = 0 →
  mq_recv_loop i size timeout mq k = Ok (mq', k', r) →
  phase_ok i Block (mk_mqo mq busy full) k (mk_mqo mq' busy full) k' ql.
Proof.
  intros Hk [F _ C] [fl W] Hin Ht He E. simpl in *.
  assert (ql = []) as ->.
  { pose proof (wf_entry _ _ _ _ _ W) as Hl. destruct ql; [done|]. simpl in Hl. lia. }
  assert (Hres : mq' = mq ∧ kernel_kept i k k').
  { destruct (Z.eq_dec timeout 0) as [->|Hnz].
    - unfold mq_recv_loop in E. rewrite He, Z.eqb_refl in E. rewrite (in_thread_ok _ _ _ Hin) in E.
      cbn [mbind res_bind] in E. unfold rt_thread_self in E. pose proof Hin as (_ & Hc & Htc & _).
      rewrite Hc in E. cbn [of_option mbind res_bind] in E. rewrite (get_thread_ok c th k Htc) in E.
      cbn [mbind res_bind Z.eqb] in E. injection E as <- <- _. split; [done|].
      destruct (touch_current 0 c th (with_error RT_EOK th) k Hk Hin) as (Hk1 & Hin1 & Hw1); [done..|].
      destruct (touch_current 0 c _ (with_error (- RT_ETIMEOUT) (with_error RT_EOK th))
        _ Hk1 Hin1) as (Hk2 & _ & Hw2); [done..|].
      apply kernel_kept_every; [done|]. etransitivity; [exact Hw1|exact Hw2].
    - destruct (mq_recv_blocks 0 i size timeout mq c th k) as (k1 & Eb & [Hkb _ _ _ Hwb] & Hc1); [lia|done..|].
      rewrite Eb in E. apply bind_ok_inv in E as (k2 & Es & [= <- <- _]). split; [done|].
      split_and!; [by eapply schedule_kinv| |].
      + intros _. eapply waiters_clean_stable; [done|by apply wstable_schedule].
      + intros j Hj. transitivity k1; [by apply Hwb|by apply wstable_schedule]. }
  destruct Hres as [-> Hkk]. exists []. split; [by exists fl|]. by split_and!.
Qed.

Lemma phase_reset_ok i mq busy full k mq' k' r ql :
  kinv None 0 k → queue_is (mk_mqo mq busy full) ql → rt_mq_control i true mq k = Ok (mq', k', r) →
  phase_ok i Reset_queue (mk_mqo mq busy full) k (mk_mqo mq' busy full) k' ql.
Proof.
  intros Hk [fl W] E. unfold rt_mq_control in E.
  destruct (resume_all_spec 0 (QWait i) _ k Hk I eq_refl) as (k1 & E1 & Hk1 & _ & _ & _ & _ & _ & _ & Hw1).
  unfold resume_all in E. rewrite E1 in E. cbn [mbind res_bind] in E.
  apply bind_ok_inv in E as (mq1 & Ed & (k2 & Es & [= <- <- _])%bind_ok_inv).
  destruct (drain_spec ql (size (nodes mq)) mq fl busy full (mq_entry mq)) as (mq2 & fl' & Ed' & W').
  { pose proof (wf_entry _ _ _ _ _ W) as He. simpl in He, W. rewrite <- He.
    replace (set_queue _ _ _ _) with mq; [done|by destruct mq]. }
  { done. }
  { apply (queue_length mq ql fl busy full W). }
  rewrite Ed in Ed'. injection Ed' as <-. exists []. split; [by exists fl'|].
  apply drain_attr in Ed. split_and!; [done|done|done|].
  apply kernel_kept_every; [by eapply schedule_kinv|].
  transitivity k1; [done|by apply wstable_schedule].
Qed.

Lemma phase_refines i e o k o' k' ql :
  kinv None 0 k → mq_inv i o k → queue_is o ql → mq_phase i e o k o' k' → phase_ok i e o k o' k' ql.
Proof.
  intros Hk Hi Hq Hp. destruct Hp.
  - by apply phase_alloc_ok.
  - destruct Hq as [fl W]. destruct (fill_spec mq ql fl b1 x b2 full buffer W) as (n & mq1 & Hn & E & W' & _ & Hnn); [done|].
    pose proof (fill_attr _ _ _ _ H0) as Ha. rewrite H0 in E. injection E as <-.
    pose proof (wf_busy_out _ _ _ _ _ _ _ W) as (Hx & _).
    by apply (phase_fill_ok i k (mk_mqo mq (b1 ++ x :: b2) full) x buffer mq' _ _ ql fl n
      None Hk W W' Hx Hn Hnn Ha).
  - destruct Hq as [fl W]. destruct (copy_in_spec mq ql fl b1 x b2 full buffer W) as (n & mq1 & Hn & E & W' & _ & Hnn); [done|].
    pose proof (copy_in_attr _ _ _ _ H0) as Ha. rewrite H0 in E. injection E as <-.
    pose proof (wf_busy_out _ _ _ _ _ _ _ W) as (Hx & _).
    by apply (phase_fill_ok i k (mk_mqo mq (b1 ++ x :: b2) full) x buffer mq' _ _ ql fl n
      (next n) Hk W W' Hx Hn Hnn Ha).
  - by apply phase_append_ok.
  - by apply phase_prepend_ok.
  - by apply phase_take_ok.
  - by apply phase_free_ok.
  - by eapply phase_block_ok.
  - by eapply phase_reset_ok.
Qed.

Lemma phase_mq_inv i e o k o' k' ql :
  mq_inv i o k → phase_ok i e o k o' k' ql → mq_inv i o' k'.
Proof.
  intros [F _ C] (ql' & Hq & _ & _ & (_ & _ & Hf) & _ & Hc & _). constructor; [by rewrite Hf|by exists ql'|auto].
Qed.

Inductive mq_step (i : nat) (o : mq_object) (k : kernel) (o' : mq_object) (k' : kernel) : Prop :=
  | mq_step_phase e : mq_phase i e o k o' k' → mq_step i o k o' k'.

#[global] Program Instance mq_protocol : IpcProtocol mq_object :=
  { istep := mq_step; iinv := mq_inv }.
Next Obligation. intros. by eapply mq_inv_stable. Qed.
Next Obligation.
  intros i o k o' k' Hk Hi [e Hp]. pose proof Hi as [_ [ql Hq] _].
  pose proof (phase_refines i e o k o' k' ql Hk Hi Hq Hp) as Hok.
  split; [|split; [by eapply phase_mq_inv|]].
  - by destruct Hok as (_ & _ & _ & _ & _ & ? & _).
  - by destruct Hok as (_ & _ & _ & _ & _ & _ & _ & ?).
Qed.

(** ** Properties *)

(** C26. Message queues under interleaving.  Senders and receivers copy the
    payloads with interrupts enabled, so phases of different calls interleave
    arbitrarily.  Every phase acts on the queue of messages as on an ideal
    queue (append behind, urgent in front, take the head; allocating, filling
    and freeing a node do not show), no phase touches the payload of a node it
    does not fill itself, and the nodes stay divided without loss or
    duplication among queue, free list and the threads that hold them. *)
Theorem rt_mq_phases_refine_queue i e o k o' k' ql :
  kinv None 0 k → mq_inv i o k → queue_is o ql → mq_phase i e o k o' k' →
  ∃ ql', queue_is o' ql' ∧ mq_inv i o' k' ∧
    abstract_event e (data_of (mqo_q o)) (messages (mqo_q o) ql) (messages (mqo_q o') ql') ∧
    payload_after e (data_of (mqo_q o)) (data_of (mqo_q o')).
Proof.
  intros Hk Hi Hq Hp. pose proof (phase_refines i e o k o' k' ql Hk Hi Hq Hp) as Hok.
  pose proof (phase_mq_inv _ _ _ _ _ _ _ Hi Hok) as Hi'.
  destruct Hok as (ql' & Hq' & He & Hd & _). by exists ql'.
Qed.

(** Three nodes of four bytes: node 1 is queued, node 0 is free, node 2 is being
    filled by a sender. *)
Definition demo_mq : msgqueue :=
  mk_mq {[ 0%nat := mk_node None [0; 0; 0; 0]; 1%nat := mk_node None [1; 2; 3; 4];
           2%nat := mk_node (Some 0%nat) [9; 9; 9; 9] ]}
    4 3 1 (Some 1%nat) (Some 1%nat) (Some 0%nat) RT_IPC_FLAG_FIFO.

Lemma demo_mq_wf : mq_wf demo_mq [1]%nat [0]%nat [2]%nat [].
Proof.
  constructor; try done.
  - split; [done|]. eexists. split; [vm_compute; reflexivity|done].
  - split; [done|]. eexists. split; [vm_compute; reflexivity|done].
  - by intros x ?%elem_of_nil.
  - intros x ->%list_elem_of_singleton. eexists. vm_compute. reflexivity.
  - simpl. repeat (apply NoDup_cons; split; [set_solver|]). constructor.
  - intros x n Hx. change (nodes demo_mq) with
      (<[0%nat := mk_node None [0; 0; 0; 0]]> (<[1%nat := mk_node None [1; 2; 3; 4]]>
        ({[2%nat := mk_node (Some 0%nat) [9; 9; 9; 9]]} : gmap nat mq_node))) in Hx.
    rewrite !lookup_insert_Some, lookup_singleton_Some in Hx.
    destruct Hx as [[_ <-]|[_ [[_ <-]|[_ [_ <-]]]]]; done.
Qed.

Lemma rt_mq_phases_refine_queue_witness :
  ∃ mq' ql', queue_is (mk_mqo mq' [] [2]%nat) ql' ∧ mq_inv 0 (mk_mqo mq' [] [2]%nat) demo_kernel ∧
    messages mq' ql' = [[1; 2; 3; 4]].
Proof.
  assert (Hq : queue_is (mk_mqo demo_mq [2]%nat []) [1]%nat) by (exists [0]%nat; exact demo_mq_wf).
  assert (Hi : mq_inv 0 (mk_mqo demo_mq [2]%nat []) demo_kernel).
  { constructor; [by left|by exists [1]%nat|].
    intros q t th Ho Hin. rewrite demo_no_waiter in Hin by (by eapply owns_wait).
    destruct (not_elem_of_nil t Hin). }
  destruct (fill_spec demo_mq [1]%nat [0]%nat [] 2 [] [] [7; 8] demo_mq_wf) as (n & mq' & _ & E & _);
    [vm_compute; discriminate|].
  destruct (rt_mq_phases_refine_queue 0 (Fill 2 [7; 8]) (mk_mqo demo_mq [2]%nat []) demo_kernel
    (mk_mqo mq' [] [2]%nat) demo_kernel [1]%nat demo_kinv Hi Hq) as (ql' & Hq' & Hi' & He & _).
  { apply (ph_fill 0 2 [7; 8] demo_mq [] [] []); [vm_compute; discriminate|exact E]. }
  exists mq', ql'. split; [exact Hq'|split; [exact Hi'|rewrite He; vm_compute; reflexivity]].
Defined.

(** A message as a receiver sees it in its node: what was sent, and behind it
    what the node held before. *)
Definition sent_over (buffer old : list Z) : list Z := buffer ++ drop (length buffer) old.

Lemma send_eq urgent i buffer mq k :
  buffer ≠ [] →
  (if urgent : bool then rt_mq_urgent else rt_mq_send) i buffer mq k =
  if msg_size mq <? Z.of_nat (length buffer) then Ok (mq, k, - RT_ERROR)
  else
    o ← mq_alloc mq;
    match o with
    | None => Ok (mq, k, - RT_EFULL)
    | Some (msg, mq) =>
        mq ← (if urgent then copy_in else mq_fill) msg buffer mq;
        '(mq, k) ← (if urgent then mq_prepend else mq_append) i msg mq k;
        Ok (mq, k, RT_EOK)
    end.
Proof.
  intros Hb. rewrite <- Z.gtb_ltb.
  destruct urgent; [unfold rt_mq_urgent|unfold rt_mq_send]; by destruct buffer.
Qed.

Lemma send_now urgent lo i buffer mq ql fl busy full k :
  kinv None lo k → mq_wf mq ql fl busy full → is_Some (rt_current_thread k) →
  buffer ≠ [] → Z.of_nat (length buffer) <= msg_size mq →
  match fl with
  | [] => (if urgent : bool then rt_mq_urgent else rt_mq_send) i buffer mq k = Ok (mq, k, - RT_EFULL)
  | x :: fl' => ∃ mq' k' ql' old,
      (if urgent : bool then rt_mq_urgent else rt_mq_send) i buffer mq k = Ok (mq', k', RT_EOK) ∧
      mq_wf mq' ql' fl' busy full ∧ kinv None lo k' ∧ first_woken (QWait i) k k' ∧
      messages mq' ql' = (if urgent then [sent_over buffer old] ++ messages mq ql
                          else messages mq ql ++ [sent_over buffer old])
  end.
Proof.
  intros Hk W Hc Hb Hl. rewrite (send_eq urgent i buffer mq k Hb), (proj2 (Z.ltb_ge _ _) Hl).
  pose proof (alloc_spec _ _ _ _ _ W) as H. destruct fl as [|x fl']; [by rewrite H|].
  destruct H as (mq1 & E1 & W1 & Hn1 & Hs1). rewrite E1. cbn [mbind res_bind].
  pose proof (wf_busy_out mq1 ql fl' [] x busy full W1) as (Hxq & _).
  destruct (wake_one_spec lo (QWait i) k Hk I Hc) as (k' & Ew & Hk' & Hf & _).
  assert (Hm1 : messages mq1 ql = messages mq ql) by (apply messages_ext; intros; by apply data_nodes).
  destruct urgent.
  - destruct (copy_in_spec mq1 ql fl' [] x busy full buffer W1) as (n & mq2 & Hn & E2 & W2 & _ & Hn2); [lia|].
    destruct (prepend_spec i mq2 ql fl' [] x busy full k W2) as (mq3 & E3 & W3 & _ & Hd3).
    pose proof (data_fill mq1 mq2 x n _ buffer Hn Hn2) as Hd2.
    exists mq3, k', (x :: ql), (payload n). rewrite E2. cbn [mbind res_bind].
    rewrite E3, Ew. split_and!; try done.
    assert (Hx : data_of mq3 x = sent_over buffer (payload n)).
    { rewrite Hd3, Hd2, decide_True by done. unfold data_of. by rewrite Hn. }
    simpl. rewrite Hx, <- Hm1. f_equal. apply messages_ext. intros y Hy.
    rewrite Hd3, Hd2, decide_False; [done|by intros ->].
  - destruct (fill_spec mq1 ql fl' [] x busy full buffer W1) as (n & mq2 & Hn & E2 & W2 & _ & Hn2); [lia|].
    destruct (append_spec i mq2 ql fl' busy [] x full k W2) as (mq3 & E3 & W3 & _ & Hd3).
    pose proof (data_fill mq1 mq2 x n _ buffer Hn Hn2) as Hd2.
    exists mq3, k', (ql ++ [x]), (payload n). rewrite E2. cbn [mbind res_bind].
    rewrite E3, Ew. split_and!; try done.
    assert (Hx : data_of mq3 x = sent_over buffer (payload n)).
    { rewrite Hd3, Hd2, decide_True by done. unfold data_of. by rewrite Hn. }
    unfold messages at 1. rewrite fmap_app. simpl. rewrite Hx, <- Hm1. f_equal.
    apply messages_ext. intros y Hy. rewrite Hd3, Hd2, decide_False; [done|by intros ->].
Qed.

(** [rt_mq_send] and [rt_mq_urgent]: a message longer than the queue's
    message size is refused with [-RT_ERROR]; without a free node the result is
    [-RT_EFULL]; otherwise a normal message is queued last and an urgent one
    first, its bytes in front of the node's old contents, and the first waiting
    receiver, if any, is made ready. *)
Theorem rt_mq_send_spec urgent lo i buffer mq ql fl busy full k :
  kinv None lo k → mq_wf mq ql fl busy full → is_Some (rt_current_thread k) → buffer ≠ [] →
  let send := if urgent : bool then rt_mq_urgent else rt_mq_send in
  if Z.of_nat (length buffer) >? msg_size mq then send i buffer mq k = Ok (mq, k, - RT_ERROR)
  else match fl with
  | [] => send i buffer mq k = Ok (mq, k, - RT_EFULL)
  | x :: fl' => ∃ mq' k' ql' old, send i buffer mq k = Ok (mq', k', RT_EOK) ∧
      mq_wf mq' ql' fl' busy full ∧ kinv None lo k' ∧ first_woken (QWait i) k k' ∧
      messages mq' ql' = (if urgent then [sent_over buffer old] ++ messages mq ql
                          else messages mq ql ++ [sent_over buffer old])
  end.
Proof.
  intros Hk W Hc Hb send. rewrite Z.gtb_ltb. destruct (Z.ltb_spec (msg_size mq) (Z.of_nat (length buffer))) as [Hgt|Hle].
  - unfold send. rewrite (send_eq urgent i buffer mq k Hb). by rewrite (proj2 (Z.ltb_lt _ _) Hgt).
  - by apply send_now.
Qed.

Lemma rt_mq_send_spec_witness :
  ∃ mq' k' old, rt_mq_urgent 0 [7; 8] demo_mq demo_kernel = Ok (mq', k', RT_EOK) ∧
    ∃ ql', messages mq' ql' = [[7; 8] ++ drop 2 old; [1; 2; 3; 4]].
Proof.
  pose proof (rt_mq_send_spec true 0 0 [7; 8] demo_mq [1]%nat [0]%nat [2]%nat [] demo_kernel demo_kinv demo_mq_wf
    ltac:(vm_compute; eauto) ltac:(discriminate)) as H.
  cbv zeta in H. replace (Z.of_nat (length [7; 8]) >? msg_size demo_mq) with false in H by (vm_compute; reflexivity).
  destruct H as (mq' & k' & ql' & old & E & _ & _ & _ & Hm).
  exists mq', k', old. split; [exact E|]. exists ql'. exact Hm.
Defined.

Lemma take_bound (size ms : Z) (l : list Z) :
  Z.of_nat (length l) = ms → take (Z.to_nat (if size >? ms then ms else size)) l = take (Z.to_nat size) l.
Proof.
  intros Hl. destruct (Z.gtb_spec size ms); [|done]. rewrite !take_ge; [done|lia..].
Qed.

(** [rt_mq_recv]: a queue that is not empty gives the first [size] bytes of
    its oldest message (of the whole node, when [size] is larger) and the node
    returns to the free list; an empty one gives [-RT_ETIMEOUT] when no waiting
    is asked for, and otherwise the receiver waits with its timer set. *)
Theorem rt_mq_recv_spec lo i size timeout mq ql fl busy full c th k :
  -1 <= lo <= 0 → kinv None lo k → mq_wf mq ql fl busy full → flag_ok (mq_flag mq) →
  waiters_clean i k → in_thread k c th → timeout < TICK_HALF → others_ready c k → 0 < size →
  match ql with
  | x :: ql' => ∃ mq', rt_mq_recv i size timeout mq k =
        Ok (mq', k, Returned (RT_EOK, Some (take (Z.to_nat size) (data_of mq x)))) ∧
      mq_wf mq' ql' (x :: fl) busy full ∧ messages mq' ql' = messages mq ql'
  | [] =>
      if timeout =? 0 then rt_mq_recv i size timeout mq k = Ok (mq, k, Returned (- RT_ETIMEOUT, None))
      else ∃ k', rt_mq_recv i size timeout mq k =
          Ok (mq, k', Waiting timeout (if 0 <? timeout then rt_tick_get k else 0)) ∧ kinv None lo k' ∧
        threads k' !! c = Some (blocked_thread th) ∧ c ∈ q_get k' (QWait i)
  end.
Proof.
  intros Hlo Hk W F C Hin Ht Ho Hs. unfold rt_mq_recv. rewrite (proj2 (Z.eqb_neq size 0)) by lia.
  cbn [negb rt_assert mbind res_bind]. pose proof (take_spec _ _ _ _ _ W) as H. destruct ql as [|x ql'].
  - rewrite H. cbn [Z.eqb andb]. destruct (Z.eqb_spec timeout 0) as [->|Hnz]; [done|].
    destruct (mq_recv_blocks lo i size timeout mq c th k) as (k1 & E & Hb & _); [done..|].
    destruct (block_schedule _ _ _ _ _ _ _ _ _ Hb Hin Ho) as (k' & Es & Hk' & Hsch & Ht' & _).
    exists k'. rewrite E, Es. split_and!; try done.
    destruct Hsch as (_ & Sq & _). unfold q_get. rewrite Sq. change (c ∈ q_get k1 (QWait i)).
    destruct Hb as [_ [_ _ Hq] _ _ _]. rewrite Hq, decide_True, wait_place_perm by done. left.
  - destruct H as (Hpos & mq1 & E1 & W1 & Hn1 & Hs1).
    destruct (free_spec mq1 ql' fl [] x busy full W1) as (mq2 & E2 & W2 & _ & _ & Hd).
    destruct (wf_busy _ _ _ _ _ W1 x) as [n Hn]; [left|].
    exists mq2. rewrite (proj2 (Z.eqb_neq _ _)) by lia. cbn [andb]. unfold mq_recv_loop.
    rewrite (proj2 (Z.eqb_neq _ _)) by lia. rewrite E1. cbn [mbind res_bind].
    unfold mq_copy_out, get_node. rewrite Hn. cbn [of_option mbind res_bind]. rewrite E2.
    cbn [mbind res_bind]. split_and!; [|done|].
    + rewrite take_bound by (by apply (wf_size _ _ _ _ _ W1 x)). unfold data_of. rewrite <- Hn1, Hn. done.
    + apply messages_ext. intros y _. rewrite Hd. by apply data_nodes.
Qed.

Lemma rt_mq_recv_spec_witness :
  ∃ mq', rt_mq_recv 0 3 0 demo_mq demo_kernel = Ok (mq', demo_kernel, Returned (RT_EOK, Some [1; 2; 3])).
Proof.
  assert (C : waiters_clean 0 demo_kernel).
  { intros q t th Ho Hin. rewrite demo_no_waiter in Hin by (by eapply owns_wait).
    destruct (not_elem_of_nil t Hin). }
  pose proof (rt_mq_recv_spec 0 0 3 0 demo_mq [1]%nat [0]%nat [2]%nat [] 1 (demo_thread 1) demo_kernel
    ltac:(lia) demo_kinv demo_mq_wf ltac:(by left) C demo_in_thread ltac:(rewrite tick_half_val; lia)
    demo_other_ready ltac:(lia)) as (mq' & E & _).
  exists mq'. exact E.
Defined.
