(* ===== verification/MemPool.v ===== *)
(** * Memory pools: [src/mempool.c]

    Blocks of one size, each behind a word that links the free blocks and, in a
    block that is in use, points at the pool.  A thread that finds no block waits
    in front of the others.  As in [Mailbox], the loop of [rt_mp_alloc] is split
    at [rt_schedule]: [rt_mp_alloc_resume] is its rest. *)
From S2P Require Import Prelude Timer Heap KObject Kernel KernelInv ThreadOps Tick ThreadProps Ipc.
Local Open Scope Z_scope.

(** [struct rt_mempool] at the address [mp_self], and the words of its memory. *)
Record mempool := mk_mp {
  mp_self : Z; start_address : Z; mp_size : Z; block_size : Z;
  block_list : Z; block_total_count : Z; block_free_count : Z;
  suspend_thread_count : Z; mp_words : gmap Z Z }.

Definition set_blocks (l free : Z) (w : gmap Z Z) (mp : mempool) : mempool :=
  mk_mp (mp_self mp) (start_address mp) (mp_size mp) (block_size mp) l (block_total_count mp) free
    (suspend_thread_count mp) w.
Definition set_suspended (n : Z) (mp : mempool) : mempool :=
  mk_mp (mp_self mp) (start_address mp) (mp_size mp) (block_size mp) (block_list mp) (block_total_count mp)
    (block_free_count mp) n (mp_words mp).

Definition load_word (a : Z) (w : gmap Z Z) : res Z := of_option OutOfBounds (w !! a).
Definition store_word (a v : Z) (w : gmap Z Z) : res (gmap Z Z) :=
  _ ← require OutOfBounds (bool_decide (is_Some (w !! a))); Ok (<[a := v]> w).

(** ** Creation *)

(** The loop that links the blocks, from [offset] on, and the last link. *)
Fixpoint link_blocks (n : nat) (offset block_ptr block_size : Z) (w : gmap Z Z) : res (gmap Z Z) :=
  match n with
  | O => Ok w
  | S n =>
      w ← store_word (u32 (block_ptr + offset * (block_size + 4)))
            (u32 (block_ptr + (offset + 1) * (block_size + 4))) w;
      link_blocks n (offset + 1) block_ptr block_size w
  end.
Definition init_block_list (block_ptr block_size total : Z) (w : gmap Z Z) : res (gmap Z Z) :=
  w ← link_blocks (Z.to_nat total) 0 block_ptr block_size w;
  store_word (u32 (block_ptr + (total - 1) * (block_size + 4))) 0 w.

(** [w]: the words of the memory handed over. *)
Definition rt_mp_init (i : nat) (self start size bs : Z) (w : gmap Z Z) (k : kernel) : res (mempool * kernel) :=
  k ← on_objects (rt_object_init Object_Class_MemPool (OIpc i) 0) k;
  let size := RT_ALIGN_DOWN size in
  let bs := RT_ALIGN bs in
  _ ← require BadArith (negb (u32 (bs + 4) =? 0));
  let total := size / u32 (bs + 4) in
  let k := rt_ipc_object_init (QWait i) k in
  w ← init_block_list start bs total w;
  Ok (mk_mp self start size bs start total total 0 w, k).

(** [self]: what the allocation of the object gave; [start]: that of the memory. *)
Definition rt_mp_create (i : nat) (self : option Z) (start : option (Z * gmap Z Z)) (block_count bs : Z)
    (k : kernel) : res (kernel * option mempool) :=
  _ ← debug_not_in_interrupt k;
  '(o, mp) ← rt_object_allocate Object_Class_MemPool (match self with Some _ => Some (OIpc i) | None => None end) (objs k);
  let k := set_objs o k in
  match mp, self with
  | Some _, Some self =>
      let bs := RT_ALIGN bs in
      match start with
      | None => k ← on_objects (rt_object_delete (OIpc i)) k; Ok (k, None)
      | Some (start, w) =>
          let k := rt_ipc_object_init (QWait i) k in
          w ← init_block_list start bs block_count w;
          Ok (k, Some (mk_mp self start (u32 ((bs + 4) * block_count)) bs start block_count block_count 0 w))
      end
  | _, _ => Ok (k, None)
  end.

(** ** The end of a pool: every waiting thread is woken and counted out. *)
Definition mp_resume_all (i : nat) (mp : mempool) (k : kernel) : res (mempool * kernel) :=
  let n := Z.of_nat (length (q_get k (QWait i))) in
  k ← resume_all (QWait i) k;
  Ok (set_suspended (u32 (suspend_thread_count mp - n)) mp, k).

Definition rt_mp_detach (i : nat) (mp : mempool) (k : kernel) : res kernel :=
  '(mp, k) ← mp_resume_all i mp k;
  on_objects (rt_object_detach (OIpc i)) k.

(** The memory that is given back to the heap is the second result. *)
Definition rt_mp_delete (i : nat) (mp : mempool) (k : kernel) : res (kernel * Z) :=
  _ ← debug_not_in_interrupt k;
  '(mp, k) ← mp_resume_all i mp k;
  k ← on_objects (rt_object_delete (OIpc i)) k;
  Ok (k, start_address mp).

(** ** Allocation and release *)

(** [rt_set_errno] of [kservice.c], but for the global it sets when no thread
    runs. *)
Definition rt_set_errno (e : Z) (k : kernel) : kernel :=
  if negb (rt_interrupt_nest k =? 0) then k
  else match rt_thread_self k with
       | None => k
       | Some t => match threads k !! t with Some th => set_thread t (with_error e th) k | None => k end
       end.

(** Behind the loop of [rt_mp_alloc]. *)
Definition mp_take (mp : mempool) : res (mempool * Z) :=
  let free := u32 (block_free_count mp - 1) in
  let block_ptr := block_list mp in
  _ ← rt_assert (negb (block_ptr =? 0));
  next ← load_word block_ptr (mp_words mp);
  w ← store_word block_ptr (mp_self mp) (mp_words mp);
  Ok (set_blocks next free w mp, u32 (block_ptr + 4)).

(** [rt_thread_suspend], and the thread in front of the list. *)
Definition suspend_front (q : qid) (t : tid) (k : kernel) : res kernel :=
  '(k, _) ← rt_thread_suspend t k;
  rt_list_insert_after q t k.

Definition mp_alloc_loop (i : nat) (time : Z) (mp : mempool) (k : kernel)
    : res (mempool * kernel * call_result (option Z)) :=
  if block_free_count mp =? 0 then
    if time =? 0 then Ok (mp, rt_set_errno (- RT_ETIMEOUT) k, Returned None)
    else
      _ ← debug_not_in_interrupt k;
      thread ← of_option NullDeref (rt_thread_self k);
      th ← get_thread thread k;
      let k := set_thread thread (with_error RT_EOK th) k in
      k ← suspend_front (QWait i) thread k;
      let mp := set_suspended (u32 (suspend_thread_count mp + 1)) mp in
      let before_sleep := if 0 <? time then rt_tick_get k else 0 in
      k ← (if 0 <? time then start_thread_timer thread time k else Ok k);
      k ← rt_schedule k;
      Ok (mp, k, Waiting time before_sleep)
  else
    '(mp, block) ← mp_take mp;
    Ok (mp, k, Returned (Some block)).

Definition rt_mp_alloc (i : nat) (time : Z) (mp : mempool) (k : kernel)
    : res (mempool * kernel * call_result (option Z)) := mp_alloc_loop i time mp k.

Definition rt_mp_alloc_resume (i : nat) (thread : tid) (time before_sleep : Z) (mp : mempool) (k : kernel)
    : res (mempool * kernel * call_result (option Z)) :=
  th ← get_thread thread k;
  if negb (error th =? RT_EOK) then Ok (mp, k, Returned None)
  else mp_alloc_loop i (remaining_timeout time before_sleep (rt_tick_get k)) mp k.

(** The word before the block must point at this pool. *)
Definition rt_mp_free (i : nat) (block : Z) (mp : mempool) (k : kernel) : res (mempool * kernel) :=
  let block_ptr := u32 (block - 4) in
  owner ← load_word block_ptr (mp_words mp);
  _ ← require NullDeref (owner =? mp_self mp);
  let free := u32 (block_free_count mp + 1) in
  w ← store_word block_ptr (block_list mp) (mp_words mp);
  let mp := set_blocks block_ptr free w mp in
  if 0 <? suspend_thread_count mp then
    thread ← rt_list_first (QWait i) k;
    th ← get_thread thread k;
    let k := set_thread thread (with_error RT_EOK th) k in
    '(k, _) ← rt_thread_resume thread k;
    let mp := set_suspended (u32 (suspend_thread_count mp - 1)) mp in
    k ← rt_schedule k;
    Ok (mp, k)
  else Ok (mp, k).

(** ** The free blocks *)
Fixpoint chain (w : gmap Z Z) (p : Z) (l : list Z) : Prop :=
  match l with
  | [] => p = 0
  | b :: l => p = b ∧ b ≠ 0 ∧ ∃ n, w !! b = Some n ∧ chain w n l
  end.

(** The header of the [n]-th block. *)
Definition block_at (mp : mempool) (n : Z) : Z := start_address mp + n * (block_size mp + 4).
Definition is_block (mp : mempool) (b : Z) : Prop :=
  ∃ n, 0 <= n < block_total_count mp ∧ b = block_at mp n.

(** [l]: the free blocks, in the order in which they will be given out. *)
Record pool_wf (mp : mempool) (l : list Z) : Prop := {
  pw_range : 0 < start_address mp ∧ 0 <= block_size mp ∧
    block_at mp (block_total_count mp) < 4294967296;
  pw_count : block_free_count mp = Z.of_nat (length l) ∧ 0 <= block_total_count mp < 4294967296;
  pw_nodup : NoDup l;
  pw_blocks b : b ∈ l → is_block mp b;
  pw_chain : chain (mp_words mp) (block_list mp) l;
  pw_used b : is_block mp b → b ∉ l → mp_words mp !! b = Some (mp_self mp);
}.

Lemma free_chain_insert w p l a v : a ∉ l → chain w p l → chain (<[a := v]> w) p l.
Proof.
  revert p. induction l as [| b l IH]; intros p; [done |]. rewrite not_elem_of_cons.
  intros [Hne Hn] (-> & Hb & n & Hw & Hc). split_and!; [done | done |].
  exists n. split; [by rewrite lookup_insert_ne | by apply IH].
Qed.

Lemma is_block_range mp l b : pool_wf mp l → is_block mp b → 0 < b ∧ b + block_size mp + 4 < 4294967296.
Proof.
  intros [(? & ? & Hend) _ _ _ _ _] (n & Hn & ->). unfold block_at in *.
  assert (0 <= n * (block_size mp + 4)) by (apply Z.mul_nonneg_nonneg; lia).
  assert ((n + 1) * (block_size mp + 4) <= block_total_count mp * (block_size mp + 4))
    by (apply Z.mul_le_mono_nonneg_r; lia).
  lia.
Qed.

(** The [n] free blocks have different addresses: their number is that of the pool at most. *)
Lemma pool_wf_length mp l : pool_wf mp l → Z.of_nat (length l) <= block_total_count mp.
Proof.
  intros [_ [_ Ht] Hnd Hb _ _].
  assert (Hs : l ⊆ (λ n, block_at mp (Z.of_nat n)) <$> seq 0 (Z.to_nat (block_total_count mp))).
  { intros b Hin. destruct (Hb b Hin) as (n & Hn & ->). apply list_elem_of_fmap.
    exists (Z.to_nat n). split; [by rewrite Z2Nat.id by lia |]. apply elem_of_seq. lia. }
  apply NoDup_submseteq in Hs; [| done]. apply submseteq_length in Hs.
  rewrite length_fmap, length_seq in Hs. lia.
Qed.

Lemma mp_take_wf mp b l :
  pool_wf mp (b :: l) →
  ∃ mp', mp_take mp = Ok (mp', b + 4) ∧ pool_wf mp' l ∧ mp_words mp' !! b = Some (mp_self mp') ∧
    mp_self mp' = mp_self mp ∧ suspend_thread_count mp' = suspend_thread_count mp ∧
    (∀ x, is_block mp' x ↔ is_block mp x).
Proof.
  intros Hwf. pose proof (is_block_range mp _ b Hwf (pw_blocks _ _ Hwf b ltac:(left))) as Hb.
  pose proof (pool_wf_length _ _ Hwf) as Hlen. simpl in Hlen.
  destruct Hwf as [Hr [Hc Ht] Hnd Hbl (Hp & Hne & n & Hw & Hch) Hu]. simpl in Hc.
  apply NoDup_cons in Hnd as [Hnin Hnd].
  unfold mp_take, load_word, store_word. rewrite Hp, (proj2 (Z.eqb_neq _ _) Hne), Hw.
  cbn [negb rt_assert require of_option mbind res_bind]. rewrite bool_decide_eq_true_2 by done.
  cbn [require mbind res_bind]. replace (u32 (b + 4)) with (b + 4) by (unfold u32; lia).
  eexists. split; [done |]. split_and!; [| by apply lookup_insert_eq | done | done | done].
  split; cbn [set_blocks start_address block_size block_total_count block_free_count mp_words block_list mp_self].
  - done.
  - unfold u32. lia.
  - done.
  - intros x Hx. apply Hbl. by right.
  - by apply free_chain_insert.
  - intros x Hx Hxl. destruct (decide (x = b)) as [-> |]; [by rewrite lookup_insert_eq |].
    rewrite lookup_insert_ne by done. apply Hu; [done |]. by apply not_elem_of_cons.
Qed.

(** Giving back a block in use. *)
Definition mp_given (b : Z) (mp : mempool) : mempool :=
  set_blocks b (block_free_count mp + 1) (<[b := block_list mp]> (mp_words mp)) mp.
Lemma mp_given_wf mp b l : pool_wf mp l → is_block mp b → b ∉ l → pool_wf (mp_given b mp) (b :: l).
Proof.
  intros Hwf Hb Hn. pose proof (is_block_range _ _ _ Hwf Hb). destruct Hwf as [Hr [Hc Ht] Hnd Hbl Hch Hu].
  split; cbn [mp_given set_blocks start_address block_size block_total_count block_free_count mp_words block_list mp_self].
  - done.
  - cbn [length]. lia.
  - by apply NoDup_cons.
  - intros x [-> | Hx]%elem_of_cons; [done | by apply Hbl].
  - split_and!; [done | lia |]. exists (block_list mp). rewrite lookup_insert_eq.
    split; [done | by apply free_chain_insert].
  - intros x Hx [Hne Hxl]%not_elem_of_cons. rewrite lookup_insert_ne by done. by apply Hu.
Qed.

(** ** The list that the creation builds *)
Section creation.
Context (ptr bs : Z).
Local Abbreviation at_ n := (ptr + n * (bs + 4)).

Lemma at_inj a b : 0 <= bs → at_ a = at_ b → a = b.
Proof. intros Hb E. apply (Z.mul_reg_r _ _ (bs + 4)); lia. Qed.
Lemma at_range a n : 0 < ptr → 0 <= bs → at_ n < 4294967296 → 0 <= a <= n → u32 (at_ a) = at_ a.
Proof.
  intros Hp Hb He Ha. assert (0 <= a * (bs + 4)) by (apply Z.mul_nonneg_nonneg; lia).
  assert (a * (bs + 4) <= n * (bs + 4)) by (apply Z.mul_le_mono_nonneg_r; lia). unfold u32. lia.
Qed.

Lemma link_blocks_spec n : ∀ off w,
  0 < ptr → 0 <= bs → 0 <= off → at_ (off + Z.of_nat n) < 4294967296 →
  (∀ k, off <= k < off + Z.of_nat n → is_Some (w !! at_ k)) →
  ∃ w', link_blocks n off ptr bs w = Ok w' ∧
    (∀ k, off <= k < off + Z.of_nat n → w' !! at_ k = Some (at_ (k + 1))) ∧
    ∀ a, (∀ k, off <= k < off + Z.of_nat n → a ≠ at_ k) → w' !! a = w !! a.
Proof.
  induction n as [| n IH]; intros off w Hp Hb Ho He Hw; cbn [link_blocks].
  - exists w. split_and!; [done | lia | done].
  - rewrite !(at_range _ (off + Z.of_nat (S n))) by (done || lia).
    unfold store_word. rewrite bool_decide_eq_true_2 by (apply Hw; lia). cbn [require mbind res_bind].
    destruct (IH (off + 1) (<[at_ off := at_ (off + 1)]> w)) as (w' & -> & Hl & Hr); [done | done | lia | | |].
    { by replace (off + 1 + Z.of_nat n) with (off + Z.of_nat (S n)) by lia. }
    { intros k Hk. rewrite lookup_insert_ne; [apply Hw; lia |]. intros E. apply at_inj in E; lia. }
    exists w'. split_and!; [done | |].
    + intros k Hk. destruct (Z.eq_dec k off) as [-> |]; [| apply Hl; lia].
      rewrite Hr, lookup_insert_eq; [done |]. intros j Hj E. apply at_inj in E; lia.
    + intros a Ha. rewrite Hr by (intros j Hj; apply Ha; lia). apply lookup_insert_ne.
      intros E. apply (Ha off); [lia | done].
Qed.

Lemma free_chain_seq w n : ∀ off,
  0 < ptr → 0 <= bs → 0 <= off →
  (∀ k, off <= k < off + Z.of_nat n → w !! at_ k = Some (at_ (k + 1))) →
  w !! at_ (off + Z.of_nat n) = Some 0 →
  chain w (at_ off) ((λ n, at_ n) <$> seqZ off (Z.of_nat (S n))).
Proof.
  assert (Hpos : ∀ off, 0 < ptr → 0 <= bs → 0 <= off → at_ off ≠ 0).
  { intros off Hp Hb Ho. assert (0 <= off * (bs + 4)) by (apply Z.mul_nonneg_nonneg; lia). lia. }
  induction n as [| n IH]; intros off Hp Hb Ho Hl He; rewrite seqZ_cons, fmap_cons by lia; cbn [chain].
  - split_and!; [done | auto |]. exists 0. by rewrite Z.add_0_r in He.
  - split_and!; [done | auto |]. exists (at_ (off + 1)). split; [apply Hl; lia |].
    replace (Z.pred (Z.of_nat (S (S n)))) with (Z.of_nat (S n)) by lia.
    apply (IH (off + 1)); [done | done | lia | intros k Hk; apply Hl; lia |].
    by replace (off + 1 + Z.of_nat n) with (off + Z.of_nat (S n)) by lia.
Qed.

(** [total] blocks, all free, in the order of their addresses. *)
Lemma init_block_list_spec total w :
  0 < ptr → 0 <= bs → 0 < total → at_ total < 4294967296 →
  (∀ k, 0 <= k < total → is_Some (w !! at_ k)) →
  ∃ w', init_block_list ptr bs total w = Ok w' ∧ chain w' ptr ((λ n, at_ n) <$> seqZ 0 total).
Proof.
  intros Hp Hb Ht He Hw. unfold init_block_list.
  destruct (link_blocks_spec (Z.to_nat total) 0 w) as (w1 & -> & Hl & Hr);
    rewrite ?Z2Nat.id by lia; try done.
  cbn [mbind res_bind]. rewrite (at_range (total - 1) total) by (done || lia).
  rewrite Z2Nat.id in Hl, Hr by lia.
  unfold store_word. rewrite bool_decide_eq_true_2; [| by rewrite Hl by lia].
  cbn [require mbind res_bind]. eexists. split; [done |].
  pose proof (free_chain_seq (<[at_ (total - 1) := 0]> w1) (Z.to_nat (total - 1)) 0) as Hc.
  rewrite Nat2Z.inj_succ, !Z2Nat.id, Z.add_0_l in Hc by lia.
  replace (Z.succ (total - 1)) with total in Hc by lia.
  replace (at_ 0) with ptr in Hc by lia. apply Hc; [done | done | lia | |].
  - intros k Hk. rewrite lookup_insert_ne; [apply Hl; lia |]. intros E. apply at_inj in E; lia.
  - apply lookup_insert_eq.
Qed.
End creation.

Definition all_blocks (mp : mempool) : list Z := block_at mp <$> seqZ 0 (block_total_count mp).

Lemma fresh_pool_wf self ptr size bs total w :
  0 < ptr → 0 <= bs → 0 < total < 4294967296 → ptr + total * (bs + 4) < 4294967296 →
  chain w ptr ((λ n, ptr + n * (bs + 4)) <$> seqZ 0 total) →
  let mp := mk_mp self ptr size bs ptr total total 0 w in pool_wf mp (all_blocks mp).
Proof.
  intros Hp Hb Ht He Hc mp. split; unfold all_blocks; cbn [mp start_address block_size block_total_count block_free_count
    mp_words block_list mp_self].
  - done.
  - rewrite length_fmap, length_seqZ. lia.
  - apply NoDup_fmap_2_strong; [| apply NoDup_seqZ]. intros a b _ _ E. by apply (at_inj ptr bs).
  - intros b (n & -> & Hn%elem_of_seqZ)%list_elem_of_fmap. exists n. split; [cbn; lia | done].
  - done.
  - intros b (n & Hn & ->) []. apply list_elem_of_fmap. exists n. split; [done |]. apply elem_of_seqZ. cbn in Hn. lia.
Qed.

(** ** The operations on a well-formed pool *)
Record mp_inv (i : nat) (mp : mempool) (k : kernel) : Prop := {
  mpi_pool : ∃ l, pool_wf mp l;
  mpi_clean : waiters_clean i k }.

Lemma mp_inv_stable i mp k k' : mp_inv i mp k → wstable (owns i) k k' → mp_inv i mp k'.
Proof. intros [P C] Hs. split; [done | by eapply waiters_clean_stable]. Qed.

Lemma set_suspended_wf n mp l : pool_wf mp l → pool_wf (set_suspended n mp) l.
Proof. intros [? ? ? ? ? ?]. by split. Qed.

Lemma suspend_front_spec lo q t th k :
  kinv None lo k → wait_q q → threads k !! t = Some th → stat th = THREAD_READY →
  ∃ k', suspend_front q t k = Ok k' ∧ kinv None lo k' ∧ waiting q IN_FRONT t th k k' ∧
    (TThread t ∉ rt_timer_list (tsys k')) ∧ rt_timer_list (tsys k') ⊆+ rt_timer_list (tsys k).
Proof.
  intros Hk Hq Ht Hs. unfold suspend_front.
  pose proof (suspend_spec lo t th k Hk Ht) as Hsus. rewrite decide_True in Hsus by done.
  destruct Hsus as (k1 & -> & Hk1 & [He1 Hth1 Hq1] & Htl & Hsub). cbn [mbind res_bind].
  assert (Hnq : t ∉ q_get k q) by (by apply (ready_not_waiting None lo t th q k)).
  assert (Hql : q_get k1 q = q_get k q) by (rewrite Hq1; by apply filter_ne_id).
  assert (Hun : ∀ q', t ∉ q_get k1 q').
  { intros q'. rewrite Hq1, list_elem_of_filter. tauto. }
  unfold rt_list_insert_after. rewrite (proj2 (linked_false t k1) Hun), Hql. cbn [negb require mbind res_bind].
  eexists. split; [done |]. split.
  - assert (Ht1 : threads k1 !! t = Some (with_stat THREAD_SUSPEND th))
      by (rewrite Hth1; apply lookup_insert_eq).
    assert (Hf1 : kinv (Some t) lo k1) by (by apply (kinv_float lo t (with_stat THREAD_SUSPEND th))).
    apply (kinv_link lo t (with_stat THREAD_SUSPEND th)); try done.
    + by destruct q.
    + by rewrite Hql.
  - split_and!; [| done | done]. constructor; [by destruct He1; constructor | exact Hth1 |].
    intros q'. rewrite q_get_set. case_decide; [done | apply Hq1].
Qed.

(** No block: the caller waits in front of the others. *)
Lemma mp_alloc_blocks lo i time mp c th k :
  -1 <= lo <= 0 → kinv None lo k → mp_inv i mp k → in_thread k c th → time < TICK_HALF →
  block_free_count mp = 0 → time ≠ 0 →
  let mp' := set_suspended (u32 (suspend_thread_count mp + 1)) mp in
  ∃ k1, mp_alloc_loop i time mp k = (k' ← rt_schedule k1;
      Ok (mp', k', Waiting time (if 0 <? time then rt_tick_get k else 0))) ∧
    blocked lo i (QWait i) IN_FRONT time c th k k1 ∧ mp_inv i mp' k1.
Proof.
  intros Hlo Hk [[l P] C] Hin Ht Hf Hnz mp'. pose proof Hin as (Hn & Hc & Htc & Hs).
  assert (Hk0 : kinv None lo (set_thread c (with_error RT_EOK th) k)) by (by apply (kinv_set_thread _ _ _ th)).
  destruct (suspend_front_spec lo (QWait i) c (with_error RT_EOK th) (set_thread c (with_error RT_EOK th) k))
    as (k1 & E1 & Hk1 & Hw1 & Htl1 & Hsub1); [done | done | apply lookup_insert_eq | done |].
  destruct (wait_timer_spec lo (QWait i) IN_FRONT time c _ _ k1 Hlo Hk1 Hw1 Htl1 Hsub1 Ht)
    as (k2 & E2 & Hk2 & Hw2 & Hsub2 & Htm2).
  assert (Hb : blocked lo i (QWait i) IN_FRONT time c th k k2)
    by (apply blocked_intro; try done; by left).
  exists k2. split_and!; [| done |].
  - unfold mp_alloc_loop. rewrite Hf, Z.eqb_refl, (proj2 (Z.eqb_neq _ _) Hnz).
    unfold debug_not_in_interrupt, rt_thread_self. rewrite Hn, Hc. cbn [Z.eqb rt_assert require of_option mbind res_bind].
    rewrite (get_thread_ok c th k Htc). cbn [mbind res_bind]. rewrite E1. cbn [mbind res_bind].
    assert (Htick : rt_tick_get k1 = rt_tick_get k) by (apply (se_tick _ _ (wt_env _ _ _ _ _ _ Hw1))).
    by rewrite E2, Htick.
  - split; [exists l; by apply set_suspended_wf |].
    eapply waiters_clean_blocked; [done | | done]. by left.
Qed.

(** A block in use and nobody counted as waiting. *)
Lemma mp_free_link i mp l b k :
  pool_wf mp l → is_block mp b → b ∉ l →
  rt_mp_free i (b + 4) mp k =
    if 0 <? suspend_thread_count mp then
      thread ← rt_list_first (QWait i) k;
      th ← get_thread thread k;
      '(k, _) ← rt_thread_resume thread (set_thread thread (with_error RT_EOK th) k);
      k ← rt_schedule k;
      Ok (set_suspended (u32 (suspend_thread_count mp - 1)) (mp_given b mp), k)
    else Ok (mp_given b mp, k).
Proof.
  intros Hwf Hb Hn. pose proof (is_block_range _ _ _ Hwf Hb) as Hr. pose proof Hwf as [[_ [Hbs _]] [Hc Hc'] _ _ _ Hu].
  pose proof (pool_wf_length _ _ (mp_given_wf _ _ _ Hwf Hb Hn)) as Hlen. cbn [length mp_given set_blocks block_total_count] in Hlen.
  unfold rt_mp_free, load_word, store_word.
  replace (u32 (b + 4 - 4)) with b by (unfold u32; lia).
  replace (u32 (block_free_count mp + 1)) with (block_free_count mp + 1) by (unfold u32; lia).
  rewrite (Hu b Hb Hn). cbn [of_option mbind res_bind]. rewrite Z.eqb_refl. cbn [require mbind res_bind].
  rewrite bool_decide_eq_true_2 by done. cbn [require mbind res_bind].
  fold (mp_given b mp). change (suspend_thread_count (mp_given b mp)) with (suspend_thread_count mp).
  destruct (0 <? suspend_thread_count mp); [| done].
  destruct (rt_list_first (QWait i) k) as [t |]; [| done]. cbn [mbind res_bind].
  destruct (get_thread t k) as [th |]; [| done]. cbn [mbind res_bind].
  by destruct (rt_thread_resume t _) as [[k' b'] |].
Qed.

(** Waking the first thread, whose error is clean. *)
Lemma mp_wakes lo i t l k :
  kinv None lo k → waiters_clean i k → q_get k (QWait i) = t :: l →
  ∃ th k1 r, rt_list_first (QWait i) k = Ok t ∧ get_thread t k = Ok th ∧ threads k !! t = Some th ∧ error th = RT_EOK ∧
    rt_thread_resume t (set_thread t (with_error RT_EOK th) k) = Ok (k1, r) ∧ kinv None lo k1 ∧
    woken (QWait i) t th l k k1.
Proof.
  intros Hk Hcl Hl. destruct (list_resume_spec lo (QWait i) t l k Hk I Hl) as (th & k1 & Ht & Hs & E & Hk1 & Hw).
  assert (He : error th = RT_EOK) by (apply (Hcl (QWait i) t); [by left | rewrite Hl; left | done]).
  unfold rt_ipc_list_resume, rt_list_first in E. rewrite Hl in E. cbn [mbind res_bind] in E.
  apply bind_ok_inv in E as ([k2 r] & E & [= <-]). exists th, k2, r.
  split_and!; try done.
  - unfold rt_list_first. by rewrite Hl.
  - by apply get_thread_ok.
  - rewrite set_thread_id; [done |]. rewrite Ht. f_equal. destruct th. simpl in *. by subst.
Qed.

(** ** The protocol *)
Definition mp_step_safe (i : nat) (mp : mempool) (k k' : kernel) : Prop :=
  kinv None 0 k' ∧ mp_inv i mp k' ∧ ∀ j, j ≠ i → wstable (owns j) k k'.

(** A thread, or an interrupt handler that does not wait. *)
Definition may_alloc (time : Z) (c : tid) (th : rt_thread) (k : kernel) : Prop :=
  in_thread k c th ∨ time = 0 ∧ rt_interrupt_nest k ≠ 0.

Lemma set_errno_safe e c th k time :
  kinv None 0 k → may_alloc time c th k → kinv None 0 (rt_set_errno e k) ∧ wstable every k (rt_set_errno e k).
Proof.
  intros Hk [Hin | [_ Hn]]; unfold rt_set_errno.
  - pose proof Hin as (Hn & Hc & Ht & _). rewrite Hn. unfold rt_thread_self. rewrite Hc, Ht. cbn [negb Z.eqb].
    by destruct (touch_current 0 c th (with_error e th) k Hk Hin) as (? & _ & ?).
  - by rewrite (proj2 (Z.eqb_neq _ _) Hn).
Qed.

Lemma mp_alloc_loop_safe i time c th mp k mp' k' r :
  kinv None 0 k → mp_inv i mp k → (block_free_count mp = 0 → may_alloc time c th k) → time < TICK_HALF →
  mp_alloc_loop i time mp k = Ok (mp', k', r) → mp_step_safe i mp' k k'.
Proof.
  intros Hk Hi Hma Ht Hr. pose proof Hi as [[l P] C].
  destruct (Z.eq_dec (block_free_count mp) 0) as [Hf | Hf].
  - specialize (Hma Hf). destruct (Z.eq_dec time 0) as [-> | Hnz].
    + unfold mp_alloc_loop in Hr. rewrite Hf in Hr. injection Hr as <- <- _.
      destruct (set_errno_safe (- RT_ETIMEOUT) c th k 0 Hk Hma) as [Hk' Hw].
      split_and!; [done | | intros; by apply wstable_every].
      eapply mp_inv_stable; [done | by apply wstable_every].
    + destruct Hma as [Hin | [? _]]; [| done].
      destruct (mp_alloc_blocks 0 i time mp c th k) as (k1 & E & [Hkb _ _ _ Hwb] & Hi1); [lia | done.. |].
      rewrite E in Hr. apply bind_ok_inv in Hr as (k2 & Es & [= <- <- _]).
      split_and!; [by eapply schedule_kinv | eapply mp_inv_stable; [done | by apply wstable_schedule] |].
      intros j Hj. transitivity k1; [by apply Hwb | by apply wstable_schedule].
  - unfold mp_alloc_loop in Hr. rewrite (proj2 (Z.eqb_neq _ _) Hf) in Hr.
    destruct l as [| b l]; [exfalso; apply Hf, (pw_count _ _ P) |].
    destruct (mp_take_wf mp b l P) as (mp1 & E & P1 & _). rewrite E in Hr. injection Hr as <- <- _.
    split_and!; [done | split; [by exists l | done] | done].
Qed.

Inductive mp_step (i : nat) : mempool → kernel → mempool → kernel → Prop :=
  | mp_step_alloc time c th mp k mp' k' r :
      (block_free_count mp = 0 → may_alloc time c th k) → time < TICK_HALF →
      rt_mp_alloc i time mp k = Ok (mp', k', r) → mp_step i mp k mp' k'
  | mp_step_resume time before c th mp k mp' k' r :
      in_thread k c th → remaining_timeout time before (rt_tick_get k) < TICK_HALF →
      rt_mp_alloc_resume i c time before mp k = Ok (mp', k', r) → mp_step i mp k mp' k'
  | mp_step_free b l mp k mp' k' :
      pool_wf mp l → is_block mp b → b ∉ l →
      rt_mp_free i (b + 4) mp k = Ok (mp', k') → mp_step i mp k mp' k'.

Lemma mp_step_ok i mp k mp' k' :
  kinv None 0 k → mp_inv i mp k → mp_step i mp k mp' k' → mp_step_safe i mp' k k'.
Proof.
  intros Hk Hi Hs.
  destruct Hs as [time c th mp k mp' k' r Hin Ht Hr | time bf c th mp k mp' k' r Hin Ht Hr | b l mp k mp' k' P Hb Hn Hr].
  - by eapply mp_alloc_loop_safe.
  - unfold rt_mp_alloc_resume in Hr. pose proof Hin as (_ & _ & Htc & _).
    rewrite (get_thread_ok c th k Htc) in Hr. cbn [mbind res_bind] in Hr.
    destruct (negb _); [by injection Hr as <- <- _ |].
    eapply mp_alloc_loop_safe; [done | done | intros _; by left | done | done].
  - rewrite (mp_free_link i mp l b k P Hb Hn) in Hr.
    assert (P' : pool_wf (mp_given b mp) (b :: l)) by (by apply mp_given_wf).
    pose proof (mpi_clean _ _ _ Hi) as C.
    destruct (0 <? suspend_thread_count mp).
    2: { injection Hr as <- <-. split_and!; [done | split; [by exists (b :: l) | done] | done]. }
    destruct (q_get k (QWait i)) as [| t q] eqn:Hq.
    { unfold rt_list_first in Hr. by rewrite Hq in Hr. }
    destruct (mp_wakes 0 i t q k Hk C Hq) as (th & k1 & r & E1 & E2 & _ & _ & E3 & Hk1 & Hw).
    rewrite E1 in Hr. cbn [mbind res_bind] in Hr. rewrite E2 in Hr. cbn [mbind res_bind] in Hr.
    rewrite E3 in Hr. cbn [mbind res_bind] in Hr. apply bind_ok_inv in Hr as (k2 & Es & [= <- <-]).
    assert (Hw2 : wstable every k k2).
    { transitivity k1; [by apply (woken_wstable every 0 (QWait i) t th q) | by apply wstable_schedule]. }
    split_and!; [by eapply schedule_kinv | | intros; by apply wstable_every].
    split; [exists (b :: l); by apply set_suspended_wf |].
    eapply waiters_clean_stable; [done | by apply wstable_every].
Qed.

#[global] Program Instance mp_protocol : IpcProtocol mempool := { istep := mp_step; iinv := mp_inv }.
Next Obligation. intros. by eapply mp_inv_stable. Qed.
Next Obligation. intros. by eapply mp_step_ok. Qed.

(** ** Properties *)
Lemma mp_object_init i k :
  OIpc i ∉ object_list (objs k) Object_Class_MemPool →
  ∃ k', on_objects (rt_object_init Object_Class_MemPool (OIpc i) 0) k = Ok k'.
Proof.
  intros Hi. unfold on_objects, rt_object_init, object_link. simpl.
  rewrite bool_decide_eq_true_2 by done. simpl. eauto.
Qed.

(** The memory of a pool: [size] bytes at [start], in words. *)
Record mp_region (start size bs : Z) (w : gmap Z Z) : Prop := {
  mr_start : 0 < start ∧ 0 <= size ∧ start + size < 4294967296;
  mr_block : 0 <= bs < 2147483640;
  mr_words a : is_Some (w !! a) ↔ start <= a < start + RT_ALIGN_DOWN size ∧ (a - start) mod 4 = 0 }.

Lemma rt_mp_init_fits i self start size bs w k k1 :
  on_objects (rt_object_init Object_Class_MemPool (OIpc i) 0) k = Ok k1 →
  mp_region start size bs w → RT_ALIGN bs + 4 <= RT_ALIGN_DOWN size →
  ∃ mp, rt_mp_init i self start size bs w k = Ok (mp, rt_ipc_object_init (QWait i) k1) ∧
    pool_wf mp (all_blocks mp) ∧
    block_total_count mp = RT_ALIGN_DOWN size / (RT_ALIGN bs + 4) ∧
    start_address mp = start ∧ bs <= block_size mp ∧ suspend_thread_count mp = 0 ∧
    (∀ b, is_block mp b → start <= b ∧ b + 4 + block_size mp <= start + size).
Proof.
  intros E1 [(Hst & Hsz & Hend) Hbs Hw]. unfold rt_mp_init. rewrite E1. cbn [mbind res_bind].
  assert (Ea : RT_ALIGN bs = (bs + 3) / 4 * 4) by (apply align_val; lia).
  assert (Ed : RT_ALIGN_DOWN size = size / 4 * 4) by (apply align_down_val; lia).
  set (s := RT_ALIGN bs) in *. set (z := RT_ALIGN_DOWN size) in *. clearbody s z. intros Hfit.
  replace (u32 (s + 4)) with (s + 4) by (unfold u32; lia).
  rewrite (proj2 (Z.eqb_neq (s + 4) 0)) by lia. cbn [negb require mbind res_bind].
  set (total := z / (s + 4)).
  assert (Ht : 0 < total ∧ total * (s + 4) <= z).
  { split; [apply Z.div_str_pos; lia | unfold total; rewrite Z.mul_comm; apply Z.mul_div_le; lia]. }
  clearbody total. assert (total * 4 <= total * (s + 4)) by (apply Z.mul_le_mono_nonneg_l; lia).
  assert (Hin : ∀ n, 0 <= n < total → 0 <= n * (s + 4) ∧ (n + 1) * (s + 4) <= z).
  { intros n Hn. assert ((n + 1) * (s + 4) <= total * (s + 4)) by (apply Z.mul_le_mono_nonneg_r; lia).
    split; [apply Z.mul_nonneg_nonneg |]; lia. }
  destruct (init_block_list_spec start s total w) as (w' & -> & Hc); [lia.. | |].
  { intros n Hn. apply Hw. specialize (Hin n Hn). split; [lia |].
    replace (start + n * (s + 4) - start) with (n * ((bs + 3) / 4 + 1) * 4) by lia. apply Z.mod_mul. lia. }
  cbn [mbind res_bind]. eexists. split; [done |].
  split_and!; [apply (fresh_pool_wf self start z s total w'); (done || lia) | done | done | cbn; lia | done |].
  intros b (n & Hn & ->). unfold block_at. cbn [start_address block_size block_total_count] in *.
  specialize (Hin n Hn). lia.
Qed.

Lemma rt_mp_init_small i self start size bs w k :
  mp_region start size bs w → RT_ALIGN_DOWN size < RT_ALIGN bs + 4 →
  rt_mp_init i self start size bs w k =
    match on_objects (rt_object_init Object_Class_MemPool (OIpc i) 0) k with
    | Ok _ => Stop OutOfBounds
    | Stop e => Stop e
    end.
Proof.
  intros [(Hst & Hsz & Hend) Hbs Hw]. unfold rt_mp_init.
  destruct (on_objects _ k) as [k1 |]; [| done]. cbn [mbind res_bind].
  assert (Ea : RT_ALIGN bs = (bs + 3) / 4 * 4) by (apply align_val; lia).
  assert (Ed : RT_ALIGN_DOWN size = size / 4 * 4) by (apply align_down_val; lia).
  set (s := RT_ALIGN bs) in *. set (z := RT_ALIGN_DOWN size) in *. clearbody s z. intros Hsmall.
  replace (u32 (s + 4)) with (s + 4) by (unfold u32; lia).
  rewrite (proj2 (Z.eqb_neq (s + 4) 0)) by lia. cbn [negb require mbind res_bind].
  rewrite Z.div_small by lia. unfold init_block_list. change (Z.to_nat 0) with 0%nat. cbn [link_blocks mbind res_bind].
  unfold store_word. rewrite bool_decide_eq_false_2; [done |]. rewrite Hw. unfold u32. lia.
Qed.

(** A pool from a region of memory: as many blocks as fit with their links,
    all free, in the order of their addresses, none smaller than asked for and
    all inside the region.  A region too small for one block: the last link is
    written before it ([Stop OutOfBounds]). *)
Theorem rt_mp_init_spec i self start size bs w k :
  OIpc i ∉ object_list (objs k) Object_Class_MemPool → mp_region start size bs w →
  if RT_ALIGN bs + 4 <=? RT_ALIGN_DOWN size then
    ∃ mp k', rt_mp_init i self start size bs w k = Ok (mp, k') ∧ pool_wf mp (all_blocks mp) ∧
      block_total_count mp = RT_ALIGN_DOWN size / (RT_ALIGN bs + 4) ∧
      start_address mp = start ∧ bs <= block_size mp ∧ suspend_thread_count mp = 0 ∧
      (∀ b, is_block mp b → start <= b ∧ b + 4 + block_size mp <= start + size)
  else rt_mp_init i self start size bs w k = Stop OutOfBounds.
Proof.
  intros Hi Hr. destruct (mp_object_init i k Hi) as (k1 & E1).
  destruct (Z.leb_spec (RT_ALIGN bs + 4) (RT_ALIGN_DOWN size)) as [Hfit | Hsmall].
  - destruct (rt_mp_init_fits i self start size bs w k k1 E1 Hr Hfit) as (mp & E & H). by eexists mp, _.
  - by rewrite (rt_mp_init_small _ _ _ _ _ _ _ Hr Hsmall), E1.
Qed.

(** [rt_mp_alloc]: the first free block, marked with its pool; without one
    the call fails at once ([-RT_ETIMEOUT] in the caller's [error]) or leaves
    the caller waiting in front of the others, its timer set when there is a
    limit. *)
Theorem rt_mp_alloc_spec lo i time mp l c th k :
  -1 <= lo <= 0 → kinv None lo k → pool_wf mp l → waiters_clean i k → in_thread k c th →
  time < TICK_HALF → others_ready c k →
  match l with
  | b :: l => ∃ mp', rt_mp_alloc i time mp k = Ok (mp', k, Returned (Some (b + 4))) ∧ pool_wf mp' l ∧
      mp_words mp' !! b = Some (mp_self mp) ∧ suspend_thread_count mp' = suspend_thread_count mp
  | [] =>
      if time =? 0 then
        rt_mp_alloc i time mp k = Ok (mp, set_thread c (with_error (- RT_ETIMEOUT) th) k, Returned None)
      else ∃ k1 k', rt_mp_alloc i time mp k =
          Ok (set_suspended (u32 (suspend_thread_count mp + 1)) mp, k',
            Waiting time (if 0 <? time then rt_tick_get k else 0)) ∧
        kinv None lo k' ∧ waiting (QWait i) IN_FRONT c (with_error RT_EOK th) k k1 ∧ scheduled k1 k' ∧
        (if 0 <? time
         then TThread c ∈ rt_timer_list (tsys k1) ∧ remaining (tsys k1) (TThread c) = time
         else TThread c ∉ rt_timer_list (tsys k1))
  end.
Proof.
  intros Hlo Hk P C Hin Ht Ho. unfold rt_mp_alloc. destruct l as [| b l].
  - assert (Hf : block_free_count mp = 0) by apply (pw_count _ _ P).
    destruct (Z.eqb_spec time 0) as [-> | Hnz].
    + unfold mp_alloc_loop, rt_set_errno, rt_thread_self. destruct Hin as (Hn & Hc & Htc & _).
      by rewrite Hf, Hn, Hc, Htc.
    + destruct (mp_alloc_blocks lo i time mp c th k) as (k1 & -> & Hb & _); [done | done | | done.. |].
      { split; [by exists [] | done]. }
      destruct (block_schedule _ _ _ _ _ _ _ _ _ Hb Hin Ho) as (k' & -> & Hk' & Hsch & _).
      destruct Hb. by exists k1, k'.
  - unfold mp_alloc_loop. destruct (pw_count _ _ P) as [Hf _]. cbn [length] in Hf.
    rewrite (proj2 (Z.eqb_neq _ _)) by lia.
    destruct (mp_take_wf mp b l P) as (mp' & -> & P' & Hw & Hs & Hc & _). cbn [mbind res_bind].
    exists mp'. by rewrite <- Hs.
Qed.

(** [rt_mp_free] of a block in use, when only waiting threads are counted:
    the block is the next to be given out; the first waiting thread leaves the
    list and is ready, and when it runs before others take blocks, its
    [rt_mp_alloc] returns this block. *)
Theorem rt_mp_free_spec lo i b l mp k :
  kinv None lo k → pool_wf mp l → waiters_clean i k → is_Some (rt_current_thread k) →
  is_block mp b → b ∉ l →
  suspend_thread_count mp = Z.of_nat (length (q_get k (QWait i))) → suspend_thread_count mp < 4294967296 →
  ∃ mp' k', rt_mp_free i (b + 4) mp k = Ok (mp', k') ∧ kinv None lo k' ∧ pool_wf mp' (b :: l) ∧
    suspend_thread_count mp' = Z.of_nat (length (q_get k' (QWait i))) ∧
    match q_get k (QWait i) with
    | [] => k' = k
    | t :: q => ∃ th k1, threads k !! t = Some th ∧ woken (QWait i) t th q k k1 ∧ scheduled k1 k' ∧
        ∀ time before, ∃ mp2, rt_mp_alloc_resume i t time before mp' k' =
          Ok (mp2, k', Returned (Some (b + 4))) ∧ pool_wf mp2 l
    end.
Proof.
  intros Hk P C Hc Hb Hn Hcount Hlt. rewrite (mp_free_link i mp l b k P Hb Hn).
  pose proof (mp_given_wf mp b l P Hb Hn) as P'. destruct (q_get k (QWait i)) as [| t q] eqn:Hq.
  - rewrite Hcount. exists (mp_given b mp), k. split_and!; try done. by rewrite Hq.
  - destruct (mp_wakes lo i t q k Hk C Hq) as (th & k1 & r & E1 & E2 & Ht & He & E3 & Hk1 & Hw).
    cbn [length] in Hcount. rewrite (proj2 (Z.ltb_lt _ _)) by lia.
    rewrite E1. cbn [mbind res_bind]. rewrite E2. cbn [mbind res_bind]. rewrite E3. cbn [mbind res_bind].
    destruct (schedule_spec lo k1 Hk1) as (k' & -> & Hk' & Hsch); [apply Hw | |].
    { by rewrite (se_current _ _ (wk_env _ _ _ _ _ _ Hw)). }
    cbn [mbind res_bind]. eexists _, k'. split; [done |].
    assert (P2 : pool_wf (set_suspended (u32 (suspend_thread_count mp - 1)) (mp_given b mp)) (b :: l))
      by (by apply set_suspended_wf).
    pose proof Hsch as (Sth & Sq & _). split_and!; [done | done | |].
    + cbn [set_suspended suspend_thread_count]. unfold q_get. rewrite Sq.
      fold (q_get k1 (QWait i)). rewrite (wk_q _ _ _ _ _ _ Hw). unfold u32. lia.
    + exists th, k1. split_and!; [done | done | done |]. intros time before.
      unfold rt_mp_alloc_resume. rewrite (get_thread_ok t (with_stat THREAD_READY th)).
      2: { rewrite Sth, (wk_threads _ _ _ _ _ _ Hw). apply lookup_insert_eq. }
      cbn [mbind res_bind error with_stat]. rewrite He. cbn [Z.eqb negb].
      unfold mp_alloc_loop. destruct (pw_count _ _ P2) as [Hf _]. cbn [length] in Hf.
      rewrite (proj2 (Z.eqb_neq (block_free_count _) 0)) by lia.
      destruct (mp_take_wf _ b l P2) as (mp2 & -> & P3 & _). by exists mp2.
Qed.

(** C33. A time-out is not counted back.  A thread that waits [n] ticks for a
    block, alone and in vain, leaves the list when they are over, but not the
    count: its [rt_mp_alloc] fails as it should, and the next [rt_mp_free] takes
    the head of the empty list for a thread. *)
Theorem timeout_breaks_free user_timeout fuel i n mp c th k b :
  kinv None 0 k → pool_wf mp [] → waiters_clean i k → in_thread k c th → others_ready c k → 0 < n < TICK_HALF →
  thread_timers_only k → (S (length (rt_timer_list (tsys k))) < fuel)%nat →
  q_get k (QWait i) = [] → suspend_thread_count mp = 0 → is_block mp b →
  ∃ mp' k' before k2, rt_mp_alloc i n mp k = Ok (mp', k', Waiting n before) ∧
    ticks user_timeout fuel (Z.to_nat n) k' = Ok k2 ∧
    rt_mp_alloc_resume i c n before mp' k2 = Ok (mp', k2, Returned None) ∧
    q_get k2 (QWait i) = [] ∧ suspend_thread_count mp' = 1 ∧
    rt_mp_free i (b + 4) mp' k2 = Stop ListCorrupt.
Proof.
  intros Hk P Hcl Hin Ho Hn Hto Hfu Hq Hs Hb. unfold rt_mp_alloc.
  destruct (mp_alloc_blocks 0 i n mp c th k) as (k1 & E & Hbl & _);
    [lia | done | by split; [exists [] |] | done | lia | apply (pw_count _ _ P) | lia |].
  destruct (block_schedule _ _ _ _ _ _ _ _ _ Hbl Hin Ho) as (k' & Es & Hk' & Hsch & _ & Hc').
  destruct (alone_times_out user_timeout fuel i (QWait i) IN_FRONT n c th k k1 k')
    as (k2 & th2 & E2 & Ht2 & He & Hq2); try done; [lia |].
  exists (set_suspended (u32 (suspend_thread_count mp + 1)) mp), k', (if 0 <? n then rt_tick_get k else 0), k2.
  split_and!; [by rewrite E, Es | done | | done | by rewrite Hs |].
  - unfold rt_mp_alloc_resume. rewrite (get_thread_ok c th2) by done. cbn [mbind res_bind]. by rewrite He.
  - rewrite (mp_free_link i _ [] b k2); [| by apply set_suspended_wf | done | by apply not_elem_of_nil].
    cbn [set_suspended suspend_thread_count]. rewrite Hs. unfold rt_list_first. by rewrite Hq2.
Qed.

(** ** Two blocks of eight bytes *)
Definition demo_words : gmap Z Z :=
  list_to_map ((λ n, (0x1000 + 4 * n, 0)) <$> seqZ 0 6).
Definition demo_full : mempool :=
  mk_mp 0x2000 0x1000 24 8 0 2 0 0 (<[0x1000 := 0x2000]> (<[0x100c := 0x2000]> demo_words)).

Lemma demo_full_blocks b : is_block demo_full b ↔ b = 0x1000 ∨ b = 0x100c.
Proof.
  split.
  - intros (n & Hn & ->). cbn in Hn. assert (H : n = 0 ∨ n = 1) by lia.
    destruct H as [-> | ->]; [by left | by right].
  - intros [-> | ->]; [exists 0 | exists 1]; done.
Qed.
Lemma demo_full_wf : pool_wf demo_full [].
Proof.
  split; try done.
  - apply NoDup_nil_2.
  - intros b Hb. by apply not_elem_of_nil in Hb.
  - intros b [-> | ->]%demo_full_blocks _; reflexivity.
Qed.
Lemma demo_pool_clean : waiters_clean 0 demo_kernel.
Proof.
  intros q t th Ho Hin. pose proof (owns_wait _ _ Ho) as Hw.
  rewrite demo_no_waiter in Hin by exact Hw. destruct (not_elem_of_nil t Hin).
Qed.

Lemma demo_region : mp_region 0x1000 27 6 demo_words.
Proof.
  split; [lia | lia |]. intros a. change (RT_ALIGN_DOWN 27) with 24. unfold demo_words. split.
  - intros [v Hv]. apply elem_of_list_to_map_2, list_elem_of_fmap in Hv as (n & [= -> ->] & Hn%elem_of_seqZ). lia.
  - intros [Hr Hm]. assert (H : ∃ n, 0 <= n < 6 ∧ a = 0x1000 + 4 * n) by (exists ((a - 0x1000) / 4); split; lia).
    destruct H as (n & Hn & ->).
    assert (H6 : n = 0 ∨ n = 1 ∨ n = 2 ∨ n = 3 ∨ n = 4 ∨ n = 5) by lia.
    destruct H6 as [-> | [-> | [-> | [-> | [-> | ->]]]]]; by eexists.
Qed.

Lemma rt_mp_init_spec_witness :
  (OIpc 0 ∉ object_list (objs boot_kernel) Object_Class_MemPool) ∧
  ∃ mp k', rt_mp_init 0 0x2000 0x1000 27 6 demo_words boot_kernel = Ok (mp, k') ∧ pool_wf mp (all_blocks mp) ∧
    all_blocks mp = [0x1000; 0x100c].
Proof.
  assert (Hn : OIpc 0 ∉ object_list (objs boot_kernel) Object_Class_MemPool) by apply not_elem_of_nil.
  split; [exact Hn |].
  destruct (rt_mp_init_spec 0 0x2000 0x1000 27 6 demo_words boot_kernel Hn demo_region) as (mp & k' & E & P & _).
  exists mp, k'. split; [exact E |]. split; [exact P |].
  assert (Ec : (match rt_mp_init 0 0x2000 0x1000 27 6 demo_words boot_kernel with
    | Ok (m, _) => all_blocks m | Stop _ => [] end) = [0x1000; 0x100c]) by (vm_compute; reflexivity).
  rewrite E in Ec. exact Ec.
Defined.

Lemma rt_mp_alloc_spec_witness :
  ∃ mp' before k1 k', rt_mp_alloc 0 5 demo_full demo_kernel = Ok (mp', k', Waiting 5 before) ∧
    kinv None 0 k' ∧ scheduled k1 k' ∧ remaining (tsys k1) (TThread 1) = 5.
Proof.
  pose proof (rt_mp_alloc_spec 0 0 5 demo_full [] 1 (demo_thread 1) demo_kernel ltac:(lia) demo_kinv demo_full_wf
    demo_pool_clean demo_in_thread ltac:(rewrite tick_half_val; lia) demo_other_ready) as H.
  change (5 =? 0) with false in H. change (0 <? 5) with true in H. cbv iota in H.
  destruct H as (k1 & k' & E & Hk & _ & Hs & _ & Hr).
  eexists _, _, k1, k'. split; [exact E | split; [exact Hk | split; [exact Hs | exact Hr]]].
Defined.

(** Thread 1 waits for a block. *)
Definition demo_pool_waits : kernel :=
  match rt_mp_alloc 0 (-1) demo_full demo_kernel with Ok (_, k, _) => k | Stop _ => demo_kernel end.
Lemma demo_pool_waits_ok :
  kinv None 0 demo_pool_waits ∧ waiters_clean 0 demo_pool_waits.
Proof.
  destruct (mp_alloc_blocks 0 0 (-1) demo_full 1 (demo_thread 1) demo_kernel) as (k1 & E & Hb & Hi);
    [lia | apply demo_kinv | split; [by exists []; apply demo_full_wf | apply demo_pool_clean] | apply demo_in_thread
    | rewrite tick_half_val; lia | done | done |].
  destruct (block_schedule _ _ _ _ _ _ _ _ _ Hb demo_in_thread demo_other_ready) as (k' & Es & Hk' & _).
  unfold demo_pool_waits, rt_mp_alloc. rewrite E, Es. cbn [mbind res_bind]. split; [done |].
  eapply waiters_clean_stable; [apply Hi | by eapply wstable_schedule].
Qed.
Lemma demo_pool_waits_queue : q_get demo_pool_waits (QWait 0) = [1%nat].
Proof. vm_compute. reflexivity. Qed.

Lemma rt_mp_free_spec_witness :
  ∃ mp' k' mp2, rt_mp_free 0 (0x100c + 4) (set_suspended 1 demo_full) demo_pool_waits = Ok (mp', k') ∧
    suspend_thread_count mp' = Z.of_nat (length (q_get k' (QWait 0))) ∧
    rt_mp_alloc_resume 0 1 (-1) 0 mp' k' = Ok (mp2, k', Returned (Some 0x1010)).
Proof.
  destruct (rt_mp_free_spec 0 0 0x100c [] (set_suspended 1 demo_full) demo_pool_waits (proj1 demo_pool_waits_ok)
    (set_suspended_wf 1 _ _ demo_full_wf) (proj2 demo_pool_waits_ok) ltac:(vm_compute; eauto))
    as (mp' & k' & E & _ & _ & Hc & H).
  - apply demo_full_blocks. by right.
  - apply not_elem_of_nil.
  - by rewrite demo_pool_waits_queue.
  - done.
  - rewrite demo_pool_waits_queue in H. destruct H as (th & k1 & _ & _ & _ & H).
    destruct (H (-1) 0) as (mp2 & E2 & _). exists mp', k', mp2. split; [exact E | split; [exact Hc | exact E2]].
Defined.

Lemma timeout_breaks_free_witness :
  ∃ mp' k' before k2, rt_mp_alloc 0 2 demo_full demo_kernel = Ok (mp', k', Waiting 2 before) ∧
    ticks no_user 2 2 k' = Ok k2 ∧ rt_mp_free 0 (0x1000 + 4) mp' k2 = Stop ListCorrupt.
Proof.
  destruct (timeout_breaks_free no_user 2 0 2 demo_full 1 (demo_thread 1) demo_kernel 0x1000 demo_kinv demo_full_wf
    demo_pool_clean demo_in_thread demo_other_ready) as (mp' & k' & bf & k2 & E & E2 & _ & _ & _ & E3).
  - rewrite tick_half_val. lia.
  - intros x. rewrite demo_no_timer. intros Hx. destruct (not_elem_of_nil x Hx).
  - rewrite demo_no_timer. simpl. lia.
  - by apply demo_no_waiter.
  - done.
  - apply demo_full_blocks. by left.
  - exists mp', k', bf, k2. split; [exact E | split; [exact E2 | exact E3]].
Defined.
