(* ===== verification/Errno.v ===== *)
(** * The error number: [rt_get_errno], [rt_set_errno], [_rt_errno] of [src/kservice.c]

    One variable for interrupts and for the time before the first thread,
    [_errno], and one in each thread.  [MemPool.rt_set_errno] is the same function
    on the kernel's part of the state. *)
From S2P Require Import Prelude Timer KObject Kernel KernelInv MemPool.
Local Open Scope Z_scope.

(** The kernel and the variable [_errno]. *)
Record errno_state := mk_es { es_kernel : kernel; _errno : Z }.

(** What [_rt_errno] points to. *)
Inductive errno_location := GlobalErrno | ThreadErrno (t : tid).

Definition _rt_errno (s : errno_state) : errno_location :=
  if negb (rt_interrupt_get_nest (es_kernel s) =? 0) then GlobalErrno
  else match rt_thread_self (es_kernel s) with Some t => ThreadErrno t | None => GlobalErrno end.

Definition rt_get_errno (s : errno_state) : res Z :=
  if negb (rt_interrupt_get_nest (es_kernel s) =? 0) then Ok (_errno s)
  else match rt_thread_self (es_kernel s) with
       | None => Ok (_errno s)
       | Some t => th ← get_thread t (es_kernel s); Ok (error th)
       end.

Definition rt_set_errno (e : Z) (s : errno_state) : res errno_state :=
  if negb (rt_interrupt_get_nest (es_kernel s) =? 0) then Ok (mk_es (es_kernel s) e)
  else match rt_thread_self (es_kernel s) with
       | None => Ok (mk_es (es_kernel s) e)
       | Some t => th ← get_thread t (es_kernel s); Ok (mk_es (set_thread t (with_error e th) (es_kernel s)) (_errno s))
       end.

(** A variable read at its place. *)
Definition read_errno (l : errno_location) (s : errno_state) : option Z :=
  match l with GlobalErrno => Some (_errno s) | ThreadErrno t => error <$> threads (es_kernel s) !! t end.

(** The value a context sets is the one it gets, at the place [_rt_errno]
    names; the error numbers of all other contexts are untouched, and the kernel
    is changed as [MemPool] models it. *)
Theorem errno_roundtrip e s :
  (∀ t, rt_current_thread (es_kernel s) = Some t → is_Some (threads (es_kernel s) !! t)) →
  ∃ s', rt_set_errno e s = Ok s' ∧ rt_get_errno s' = Ok e ∧ _rt_errno s' = _rt_errno s ∧
    read_errno (_rt_errno s) s' = Some e ∧
    (∀ l, l ≠ _rt_errno s → read_errno l s' = read_errno l s) ∧
    es_kernel s' = MemPool.rt_set_errno e (es_kernel s).
Proof.
  intros Hc. unfold rt_set_errno, rt_get_errno, _rt_errno, MemPool.rt_set_errno, rt_interrupt_get_nest, rt_thread_self, get_thread.
  destruct (rt_interrupt_nest (es_kernel s) =? 0) eqn:En; cbn [negb].
  - destruct (rt_current_thread (es_kernel s)) as [t|] eqn:Et.
    + destruct (Hc t eq_refl) as [th Hth]. rewrite Hth. cbn [of_option mbind res_bind]. eexists. split; [done|].
      cbn. rewrite En, Et. cbn. rewrite lookup_insert_eq. cbn. split_and!; try done.
      intros [|u] Hl; [done|]. cbn. by rewrite lookup_insert_ne by congruence.
    + eexists. split; [done|]. cbn. rewrite En, Et. split_and!; try done. by intros [|].
  - eexists. split; [done|]. cbn. rewrite En. split_and!; try done. by intros [|].
Qed.

