(* ===== verification/MemHeap.v ===== *)
(** * Memory heaps: [src/memheap.c]

    A heap over a region: every block is behind a [struct rt_memheap_item]; the
    items form a circular list in address order, the free ones a second one in any
    order, behind the header in the object itself.  Items are kept by address, the
    data bytes in the memory of [KMemory].  The semaphore of the heap makes the
    operations exclude each other: each is one step, given the result [lock] of its
    [rt_sem_take].  The item of a block that was merged stays in memory and is not
    read again. *)
From S2P Require Import Prelude KMemory Links Timer KObject Kernel Ipc Semaphore MemPool Heap.
Local Open Scope Z_scope.

Definition RT_MEMHEAP_MAGIC : Z := 0x1ea01ea0.
Definition RT_MEMHEAP_MASK : Z := 0xfffffffe.
Definition RT_MEMHEAP_USED : Z := 1.
Definition RT_MEMHEAP_MINIALLOC : Z := 12.
(** [RT_ALIGN(sizeof(struct rt_memheap_item), RT_ALIGN_SIZE)], and the offset of
    [free_header] in [struct rt_memheap]. *)
Definition RT_MEMHEAP_SIZE : Z := 24.
Definition free_header_offset : Z := 44.

Record memheap_item := mk_item { magic : Z; pool_ptr : Z; next : Z; prev : Z; next_free : Z; prev_free : Z }.

Record memheap := mk_memheap {
  mh_self : Z;
  start_addr : Z;
  pool_size : Z;
  available_size : Z;
  max_used_size : Z;
  block_list : Z;
  free_list : Z;
  items : gmap Z memheap_item }.

Definition get_item (a : Z) (h : memheap) : res memheap_item := of_option OutOfBounds (items h !! a).
Definition put_item (a : Z) (it : memheap_item) (h : memheap) : memheap :=
  mk_memheap (mh_self h) (start_addr h) (pool_size h) (available_size h) (max_used_size h) (block_list h)
    (free_list h) (<[a := it]> (items h)).
Definition set_available (n : Z) (h : memheap) : memheap :=
  mk_memheap (mh_self h) (start_addr h) (pool_size h) n (max_used_size h) (block_list h) (free_list h) (items h).
Definition set_max_used (n : Z) (h : memheap) : memheap :=
  mk_memheap (mh_self h) (start_addr h) (pool_size h) (available_size h) n (block_list h) (free_list h) (items h).

(** Writing one field of the item at [a]. *)
Definition set_item (f : memheap_item → memheap_item) (a : Z) (h : memheap) : res memheap :=
  it ← get_item a h; Ok (put_item a (f it) h).
Definition set_magic (v : Z) : Z → memheap → res memheap :=
  set_item (λ i, mk_item v (pool_ptr i) (next i) (prev i) (next_free i) (prev_free i)).
Definition set_next (v : Z) : Z → memheap → res memheap :=
  set_item (λ i, mk_item (magic i) (pool_ptr i) v (prev i) (next_free i) (prev_free i)).
Definition set_prev (v : Z) : Z → memheap → res memheap :=
  set_item (λ i, mk_item (magic i) (pool_ptr i) (next i) v (next_free i) (prev_free i)).
Definition set_next_free (v : Z) : Z → memheap → res memheap :=
  set_item (λ i, mk_item (magic i) (pool_ptr i) (next i) (prev i) v (prev_free i)).
Definition set_prev_free (v : Z) : Z → memheap → res memheap :=
  set_item (λ i, mk_item (magic i) (pool_ptr i) (next i) (prev i) (next_free i) v).

Definition RT_MEMHEAP_IS_USED (it : memheap_item) : bool := negb (Z.land (magic it) RT_MEMHEAP_USED =? 0).
Definition MEMITEM_SIZE (a : Z) (it : memheap_item) : Z := u32 (next it - a - RT_MEMHEAP_SIZE).

(** ** Creation *)

(** [i], [j]: the objects of the heap and of its semaphore; [self]: the address of
    the [struct rt_memheap]. *)
Definition rt_memheap_init (i j : nat) (self start size : Z) (k : kernel) : res (memheap * kernel) :=
  k ← on_objects (rt_object_init Object_Class_MemHeap (OIpc i) 0) k;
  let pool := RT_ALIGN_DOWN size in
  let available := u32 (pool - 2 * RT_MEMHEAP_SIZE) in
  let header := self + free_header_offset in
  let tail := u32 (start + available + RT_MEMHEAP_SIZE) in
  let h := mk_memheap self start pool available (u32 (pool - available)) start header ∅ in
  let h := put_item header (mk_item RT_MEMHEAP_MAGIC self 0 0 header header) h in
  let h := put_item start (mk_item RT_MEMHEAP_MAGIC self tail tail start start) h in
  (* the big memory block to the free list *)
  hd ← get_item header h;
  h ← set_next_free (next_free hd) start h;
  h ← set_prev_free header start h;
  h ← set_prev_free start (next_free hd) h;
  h ← set_next_free start header h;
  let h := put_item tail (mk_item (Z.lor RT_MEMHEAP_MAGIC RT_MEMHEAP_USED) self start start 0 0) h in
  '(_, k) ← rt_sem_init j 1 RT_IPC_FLAG_FIFO k;
  Ok (h, k).

Definition rt_memheap_detach (i j : nat) (k : kernel) : res kernel :=
  k ← on_objects (rt_object_detach (OIpc j)) k;
  on_objects (rt_object_detach (OIpc i)) k.

(** ** The lists *)

(** [new] is made the free block behind [header] in the block list. *)
Definition cut_block (header new : Z) (h : memheap) : res memheap :=
  it ← get_item header h;
  let h := put_item new (mk_item RT_MEMHEAP_MAGIC (mh_self h) (next it) header 0 0) h in
  h ← set_prev new (next it) h;
  set_next new header h.

(** Out of the free list; [clear_free] is the two [RT_NULL]s that follow when the
    block goes to a caller. *)
Definition unlink_free (p : Z) (h : memheap) : res memheap :=
  it ← get_item p h;
  h ← set_prev_free (prev_free it) (next_free it) h;
  it ← get_item p h;
  set_next_free (next_free it) (prev_free it) h.
Definition clear_free (p : Z) (h : memheap) : res memheap := h ← set_next_free 0 p h; set_prev_free 0 p h.

(** To the front of the free list. *)
Definition relink_free (p : Z) (h : memheap) : res memheap :=
  hd ← get_item (free_list h) h;
  h ← set_next_free (next_free hd) p h;
  h ← set_prev_free (free_list h) p h;
  hd ← get_item (free_list h) h;
  h ← set_prev_free p (next_free hd) h;
  set_next_free p (free_list h) h.

(** [available_size -= n], and the high-water mark. *)
Definition account (n : Z) (h : memheap) : memheap :=
  let h := set_available (u32 (available_size h - n)) h in
  let used := u32 (pool_size h - available_size h) in
  if max_used_size h <? used then set_max_used used h else h.

(** ** Allocation *)

(** The [while] loop: the block it stops at and the size it saw last. *)
Fixpoint find_free (fuel : nat) (header_ptr free_size size : Z) (h : memheap) : res (Z * Z) :=
  if negb (header_ptr =? free_list h) && (free_size <? size) then
    match fuel with
    | O => Stop OutOfFuel
    | S fuel =>
        it ← get_item header_ptr h;
        let free_size := MEMITEM_SIZE header_ptr it in
        find_free fuel (if free_size <? size then next_free it else header_ptr) free_size size h
    end
  else Ok (header_ptr, free_size).

(** The block found, of [free_size] bytes, becomes one of [size]. *)
Definition take_item (header_ptr free_size size : Z) (h : memheap) : res memheap :=
  h ← (if u32 (size + RT_MEMHEAP_SIZE + RT_MEMHEAP_MINIALLOC) <=? free_size then
         let new_ptr := u32 (header_ptr + size + RT_MEMHEAP_SIZE) in
         h ← cut_block header_ptr new_ptr h;
         h ← unlink_free header_ptr h;
         h ← clear_free header_ptr h;
         h ← relink_free new_ptr h;
         Ok (account (size + RT_MEMHEAP_SIZE) h)
       else
         let h := account free_size h in
         h ← unlink_free header_ptr h;
         clear_free header_ptr h);
  it ← get_item header_ptr h;
  set_magic (Z.lor (magic it) RT_MEMHEAP_USED) header_ptr h.

Definition request (size : Z) : Z :=
  let size := RT_ALIGN size in if size <? RT_MEMHEAP_MINIALLOC then RT_MEMHEAP_MINIALLOC else size.

(** The kernel changes only by the error number of a lock that fails. *)
Definition rt_memheap_alloc (lock size : Z) (h : memheap) (k : kernel) : res (memheap * kernel * option Z) :=
  let size := request size in
  if size <? available_size h then
    if negb (lock =? RT_EOK) then Ok (h, rt_set_errno lock k, None)
    else
      hd ← get_item (free_list h) h;
      '(header_ptr, free_size) ← find_free (base.size (items h)) (next_free hd) 0 size h;
      if size <=? free_size then
        h ← take_item header_ptr free_size size h;
        Ok (h, k, Some (u32 (header_ptr + RT_MEMHEAP_SIZE)))
      else Ok (h, k, None)
  else Ok (h, k, None).

(** ** Release *)

(** The free block [header_ptr] swallows the block behind it. *)
Definition merge_next (header_ptr : Z) (h : memheap) : res memheap :=
  it ← get_item header_ptr h;
  let new_ptr := next it in
  new ← get_item new_ptr h;
  h ← set_prev header_ptr (next new) h;
  h ← set_next (next new) header_ptr h;
  unlink_free new_ptr h.

(** The block before it swallows [header_ptr]. *)
Definition merge_prev (header_ptr : Z) (h : memheap) : res memheap :=
  it ← get_item header_ptr h;
  h ← set_next (next it) (prev it) h;
  it ← get_item header_ptr h;
  set_prev (prev it) (next it) h.

(** The two merges of [rt_memheap_free]; the first gives the header of the block as it
    is then, and [insert_header]. *)
Definition join_prev (header_ptr : Z) (h : memheap) : res (memheap * Z * bool) :=
  it ← get_item header_ptr h;
  p ← get_item (prev it) h;
  if negb (RT_MEMHEAP_IS_USED p) then
    let h := set_available (u32 (available_size h + RT_MEMHEAP_SIZE)) h in
    h ← merge_prev header_ptr h;
    it ← get_item header_ptr h;
    Ok (h, prev it, false)
  else Ok (h, header_ptr, true).
Definition join_next (header_ptr : Z) (h : memheap) : res memheap :=
  it ← get_item header_ptr h;
  n ← get_item (next it) h;
  if negb (RT_MEMHEAP_IS_USED n) then
    merge_next header_ptr (set_available (u32 (available_size h + RT_MEMHEAP_SIZE)) h)
  else Ok h.

(** The lines of [rt_memheap_free] behind the lock. *)
Definition release_item (header_ptr : Z) (h : memheap) : res memheap :=
  it ← get_item header_ptr h;
  h ← set_magic (Z.land (magic it) (Z.lnot RT_MEMHEAP_USED)) header_ptr h;
  let h := set_available (u32 (available_size h + MEMITEM_SIZE header_ptr it)) h in
  '(h, header_ptr, insert_header) ← join_prev header_ptr h;
  h ← join_next header_ptr h;
  if insert_header : bool then relink_free header_ptr h else Ok h.

(** [heap = header_ptr->pool_ptr]: the model follows one heap. *)
Definition rt_memheap_free (lock : Z) (ptr : option Z) (h : memheap) (k : kernel) : res (memheap * kernel) :=
  match ptr with
  | None => Ok (h, k)
  | Some ptr =>
      let header_ptr := u32 (ptr - RT_MEMHEAP_SIZE) in
      it ← get_item header_ptr h;
      _ ← rt_assert (Z.land (magic it) RT_MEMHEAP_MASK =? RT_MEMHEAP_MAGIC);
      _ ← rt_assert (RT_MEMHEAP_IS_USED it);
      n ← get_item (next it) h;
      _ ← rt_assert (Z.land (magic n) RT_MEMHEAP_MASK =? RT_MEMHEAP_MAGIC);
      _ ← require OutOfBounds (pool_ptr it =? mh_self h);
      if negb (lock =? RT_EOK) then Ok (h, rt_set_errno lock k)
      else h ← release_item header_ptr h; Ok (h, k)
  end.

(** ** Resizing *)

(** Out of the block list. *)
Definition drop_block (p : Z) (h : memheap) : res memheap :=
  it ← get_item p h;
  h ← set_prev (prev it) (next it) h;
  it ← get_item p h;
  set_next (next it) (prev it) h.

(** The block takes what it needs of the free block behind it. *)
Definition expand_item (ptr header_ptr next_ptr oldsize newsize : Z) (h : memheap) : res memheap :=
  let h := account (u32 (newsize - oldsize)) h in
  h ← unlink_free next_ptr h;
  h ← drop_block next_ptr h;
  let next_ptr := u32 (ptr + newsize) in
  h ← cut_block header_ptr next_ptr h;
  relink_free next_ptr h.

(** The rest of the block behind [newsize] bytes is freed. *)
Definition shrink_item (header_ptr newsize : Z) (h : memheap) : res memheap :=
  let new_ptr := u32 (header_ptr + newsize + RT_MEMHEAP_SIZE) in
  h ← cut_block header_ptr new_ptr h;
  new ← get_item new_ptr h;
  n ← get_item (next new) h;
  h ← (if negb (RT_MEMHEAP_IS_USED n) then
         let h := set_available (u32 (available_size h - MEMITEM_SIZE (next new) n)) h in
         merge_next new_ptr h
       else Ok h);
  h ← relink_free new_ptr h;
  new ← get_item new_ptr h;
  Ok (set_available (u32 (available_size h + MEMITEM_SIZE new_ptr new)) h).

(** A larger block elsewhere; [m]: the data bytes. *)
Definition move_item (lock lock' ptr oldsize newsize : Z) (h : memheap) (m : gmap Z Z) (k : kernel)
    : res (memheap * gmap Z Z * kernel * option Z) :=
  '(h, k, new_ptr) ← rt_memheap_alloc lock newsize h k;
  match new_ptr with
  | None => Ok (h, m, k, None)
  | Some a =>
      m ← rt_memcpy m a ptr (if oldsize <? newsize then oldsize else newsize);
      '(h, k) ← rt_memheap_free lock' (Some ptr) h k;
      Ok (h, m, k, Some a)
  end.

(** The lock is taken by [rt_memheap_realloc] itself, then by the allocation and the
    release it calls. *)
Definition rt_memheap_realloc (lock lock_alloc lock_free : Z) (ptr : option Z) (newsize : Z)
    (h : memheap) (m : gmap Z Z) (k : kernel) : res (memheap * gmap Z Z * kernel * option Z) :=
  if newsize =? 0 then '(h, k) ← rt_memheap_free lock_free ptr h k; Ok (h, m, k, None)
  else
    let newsize := request newsize in
    match ptr with
    | None => '(h, k, p) ← rt_memheap_alloc lock_alloc newsize h k; Ok (h, m, k, p)
    | Some ptr =>
        let header_ptr := u32 (ptr - RT_MEMHEAP_SIZE) in
        it ← get_item header_ptr h;
        let oldsize := MEMITEM_SIZE header_ptr it in
        if oldsize <? newsize then
          if negb (lock =? RT_EOK) then Ok (h, m, rt_set_errno lock k, None)
          else
            let next_ptr := next it in
            _ ← rt_assert (header_ptr <? next_ptr);
            n ← get_item next_ptr h;
            _ ← rt_assert (RT_MEMHEAP_IS_USED n || (0 <? next_ptr));
            if negb (RT_MEMHEAP_IS_USED n)
               && (u32 (newsize + RT_MEMHEAP_MINIALLOC) <? u32 (MEMITEM_SIZE next_ptr n + oldsize)) then
              h ← expand_item ptr header_ptr next_ptr oldsize newsize h;
              Ok (h, m, k, Some ptr)
            else move_item lock_alloc lock_free ptr oldsize newsize h m k
        else if oldsize <=? u32 (newsize + RT_MEMHEAP_SIZE + RT_MEMHEAP_MINIALLOC) then Ok (h, m, k, Some ptr)
        else if negb (lock =? RT_EOK) then Ok (h, m, rt_set_errno lock k, None)
        else h ← shrink_item header_ptr newsize h; Ok (h, m, k, Some ptr)
    end.

(** ** Fields by address *)

(** [h'] is [h] with the items changed by [g]; no item appears or vanishes. *)
Definition same_params (h h' : memheap) : Prop :=
  mh_self h' = mh_self h ∧ start_addr h' = start_addr h ∧ pool_size h' = pool_size h ∧ available_size h' = available_size h ∧
  max_used_size h' = max_used_size h ∧ block_list h' = block_list h ∧ free_list h' = free_list h.
Record edited (g : Z → memheap_item → memheap_item) (h h' : memheap) : Prop := {
  ed_params : same_params h h';
  ed_items z : items h' !! z = g z <$> items h !! z }.

Lemma same_params_trans h1 h2 h3 : same_params h1 h2 → same_params h2 h3 → same_params h1 h3.
Proof. unfold same_params. intuition congruence. Qed.

Lemma edited_trans g1 g2 h1 h2 h3 : edited g1 h1 h2 → edited g2 h2 h3 → edited (λ z i, g2 z (g1 z i)) h1 h3.
Proof.
  intros [P1 I1] [P2 I2]. split; [by eapply same_params_trans |]. intros z. rewrite I2, I1. by destruct (items h1 !! z).
Qed.
Lemma edited_ext g g' h h' : edited g h h' → (∀ z i, g z i = g' z i) → edited g' h h'.
Proof. intros [P I] E. split; [done |]. intros z. rewrite I. by destruct (items h !! z); cbn; rewrite ?E. Qed.
Lemma edited_some g h h' z : edited g h h' → is_Some (items h !! z) → is_Some (items h' !! z).
Proof. intros [_ I]. rewrite I. by intros [i ->]. Qed.

Lemma get_item_ok h a it : items h !! a = Some it → get_item a h = Ok it.
Proof. unfold get_item. by intros ->. Qed.
Lemma set_field_ok f a h :
  is_Some (items h !! a) → ∃ h', set_item f a h = Ok h' ∧ edited (λ z i, if z =? a then f i else i) h h'.
Proof.
  intros [i Hi]. unfold set_item. rewrite (get_item_ok h a i Hi). cbn [mbind res_bind]. eexists. split; [done |].
  split; [done |]. intros z. cbn [items put_item]. destruct (Z.eqb_spec z a) as [-> | Hne].
  - by rewrite lookup_insert_eq, Hi.
  - rewrite lookup_insert_ne by done. by destruct (items h !! z).
Qed.

(** The five fields that the lists and the assertions read. *)
Definition fld {A} (π : memheap_item → A) (h : memheap) (z : Z) : option A := π <$> items h !! z.
Abbreviation nx := (fld next).
Abbreviation pv := (fld prev).
Abbreviation nxf := (fld next_free).
Abbreviation pvf := (fld prev_free).
Abbreviation mg := (fld (λ i, (magic i, pool_ptr i))).

Lemma fld_some {A} (π : memheap_item → A) h z : is_Some (fld π h z) ↔ is_Some (items h !! z).
Proof. unfold fld. by rewrite fmap_is_Some. Qed.
Lemma fld_value {A} (π : memheap_item → A) h z v : fld π h z = Some v → ∃ i, items h !! z = Some i ∧ π i = v.
Proof. unfold fld. destruct (items h !! z) as [i |]; [intros [= <-]; eauto | done]. Qed.
Lemma fld_edited {A} (π : memheap_item → A) g h h' z (φ : A → A) :
  edited g h h' → (∀ i, π (g z i) = φ (π i)) → fld π h' z = φ <$> fld π h z.
Proof. intros [_ I] E. unfold fld. rewrite I. destruct (items h !! z); cbn; [by rewrite E | done]. Qed.
Lemma fld_keep {A} (π : memheap_item → A) g h h' z : edited g h h' → (∀ i, π (g z i) = π i) → fld π h' z = fld π h z.
Proof. intros E Hk. rewrite (fld_edited π g h h' z id E) by done. by destruct (fld π h z). Qed.
Lemma fld_set {A} (π : memheap_item → A) g h h' z v :
  edited g h h' → is_Some (items h !! z) → (∀ i, π (g z i) = v) → fld π h' z = Some v.
Proof. intros [_ I] [i Hi] E. unfold fld. rewrite I, Hi. cbn. by rewrite E. Qed.

(** What a change does not concern: the block list, or the free list. *)
Record same_blocks (h h' : memheap) : Prop := {
  sb_params : mh_self h' = mh_self h ∧ start_addr h' = start_addr h ∧ pool_size h' = pool_size h;
  sb_nx z : nx h' z = nx h z;
  sb_pv z : pv h' z = pv h z;
  sb_mg z : mg h' z = mg h z }.
Record same_free (h h' : memheap) : Prop := {
  sf_list : free_list h' = free_list h;
  sf_nxf z : is_Some (items h !! z) → nxf h' z = nxf h z;
  sf_pvf z : is_Some (items h !! z) → pvf h' z = pvf h z }.
Record kept (h h' : memheap) : Prop := {
  kp_params : same_params h h';
  kp_some z : is_Some (items h !! z) → is_Some (items h' !! z) }.

Lemma edited_blocks g h h' :
  edited g h h' → (∀ z i, (magic (g z i), pool_ptr (g z i), next (g z i), prev (g z i)) = (magic i, pool_ptr i, next i, prev i)) →
  same_blocks h h'.
Proof.
  intros E Hg. pose proof (ed_params _ _ _ E) as (P1 & P2 & P3 & _). split; [done | | |]; intros z;
    (eapply fld_keep; [exact E | intros i; injection (Hg z i); congruence]).
Qed.
Lemma edited_free g h h' :
  edited g h h' → (∀ z i, (next_free (g z i), prev_free (g z i)) = (next_free i, prev_free i)) → same_free h h'.
Proof.
  intros E Hg. pose proof (ed_params _ _ _ E) as (_ & _ & _ & _ & _ & _ & P). split; [done | |]; intros z _;
    (eapply fld_keep; [exact E | intros i; injection (Hg z i); congruence]).
Qed.
Lemma edited_kept g h h' : edited g h h' → kept h h'.
Proof. intros E. split; [apply E | intros z; by apply (edited_some g)]. Qed.
Lemma kept_trans h1 h2 h3 : kept h1 h2 → kept h2 h3 → kept h1 h3.
Proof. intros [P1 S1] [P2 S2]. split; [by eapply same_params_trans | auto]. Qed.

(** ** The free list *)

(** The free list is [fl], behind its header. *)
Record free_is (h : memheap) (fl : list Z) : Prop := {
  fi_cycle : cycle (nxf h) (pvf h) (free_list h) fl;
  fi_nodup : NoDup (free_list h :: fl) }.

Lemma free_member h fl z : free_is h fl → z ∈ free_list h :: fl →
  is_Some (items h !! z) ∧ ∃ x y, pvf h z = Some x ∧ nxf h z = Some y ∧ x ∈ free_list h :: fl ∧ y ∈ free_list h :: fl.
Proof.
  intros [Hc Hnd] Hz. destruct (cycle_neighbours _ _ _ _ z Hnd Hc Hz) as (x & y & Hp & Hn & Hx & Hy).
  split; [| by exists x, y]. rewrite <- (fld_some next_free). by rewrite Hn.
Qed.

Lemma free_kept h h' fl : same_free h h' → free_is h fl → free_is h' fl.
Proof.
  intros [L N P] Hf. pose proof Hf as [Hc Hnd]. split; rewrite L; [| done]. apply (cycle_ext (nxf h) (pvf h)); [| done].
  intros z Hz. destruct (free_member h fl z Hf Hz) as [Hs _]. split; [by apply N | by apply P].
Qed.

Lemma unlink_free_ok h p x y :
  pvf h p = Some x → nxf h p = Some y → is_Some (items h !! x) → is_Some (items h !! y) → y ≠ p →
  ∃ h', unlink_free p h = Ok h' ∧
    edited (λ z i, mk_item (magic i) (pool_ptr i) (next i) (prev i) (if z =? x then y else next_free i) (if z =? y then x else prev_free i)) h h'.
Proof.
  intros Hp Hn Hx Hy Hyp. unfold unlink_free.
  destruct (fld_value _ _ _ _ Hp) as (i & Hi & Hip). destruct (fld_value _ _ _ _ Hn) as (i' & Hi' & Hin).
  rewrite Hi in Hi'. injection Hi' as <-. rewrite (get_item_ok h p i Hi). cbn [mbind res_bind].
  unfold set_prev_free, set_next_free. rewrite Hin, Hip.
  destruct (set_field_ok (λ i, mk_item (magic i) (pool_ptr i) (next i) (prev i) (next_free i) x) y h Hy) as (h1 & -> & E1). cbn [mbind res_bind].
  assert (Hi1 : items h1 !! p = Some i) by (by rewrite (ed_items _ _ _ E1), Hi; cbn; rewrite (proj2 (Z.eqb_neq p y))).
  rewrite (get_item_ok h1 p i Hi1). cbn [mbind res_bind]. rewrite Hin, Hip.
  destruct (set_field_ok (λ i, mk_item (magic i) (pool_ptr i) (next i) (prev i) y (prev_free i)) x h1) as (h2 & -> & E2).
  { by apply (edited_some _ _ _ _ E1). }
  exists h2. split; [done |]. eapply edited_ext; [exact (edited_trans _ _ _ _ _ E1 E2) |]. intros z j. cbn beta.
  by destruct j; cbn; destruct (z =? y), (z =? x).
Qed.

Lemma unlink_free_spec h fa p fb :
  free_is h (fa ++ p :: fb) →
  ∃ h', unlink_free p h = Ok h' ∧ free_is h' (fa ++ fb) ∧ same_blocks h h' ∧ kept h h'.
Proof.
  intros Hf. pose proof Hf as [Hc Hnd]. rewrite app_comm_cons, <- Permutation_middle, <- app_comm_cons in Hnd.
  apply NoDup_cons in Hnd as [Hp Hnd]. destruct (place_around _ _ _ Hnd) as (a1 & x & y & a2 & A).
  pose proof (proj1 (cycle_at A _ _ p) Hc) as (_ & _ & Hpp & Hpn & _). destruct (around_members A) as [Hx Hy].
  assert (Hin : ∀ z, z ∈ free_list h :: fa ++ fb → is_Some (items h !! z)).
  { intros z Hz. apply (free_member h _ z Hf). rewrite !elem_of_cons, !elem_of_app, elem_of_cons in *. tauto. }
  destruct (unlink_free_ok h p x y Hpp Hpn (Hin x Hx) (Hin y Hy)) as (h' & -> & E); [by intros -> |].
  pose proof (ed_params _ _ _ E) as (_ & _ & _ & _ & _ & _ & Hl).
  exists h'. split_and!; [done | | by eapply edited_blocks | by eapply edited_kept].
  - split; rewrite Hl; [| done]. apply (cycle_take (nxf h) (pvf h) _ _ p A Hc).
    + eapply fld_set; [exact E | by apply Hin |]. intros i. cbn. by rewrite Z.eqb_refl.
    + eapply fld_set; [exact E | by apply Hin |]. intros i. cbn. by rewrite Z.eqb_refl.
    + intros z _ Hz. eapply fld_keep; [exact E |]. intros i. cbn. by rewrite (proj2 (Z.eqb_neq z x)).
    + intros z _ Hz. eapply fld_keep; [exact E |]. intros i. cbn. by rewrite (proj2 (Z.eqb_neq z y)).
Qed.

Lemma clear_free_spec h p fl :
  free_is h fl → p ∉ free_list h :: fl → is_Some (items h !! p) →
  ∃ h', clear_free p h = Ok h' ∧ free_is h' fl ∧ same_blocks h h' ∧ kept h h'.
Proof.
  intros Hf Hp Hi. pose proof Hf as [Hc Hnd]. unfold clear_free, set_next_free, set_prev_free.
  destruct (set_field_ok (λ i, mk_item (magic i) (pool_ptr i) (next i) (prev i) 0 (prev_free i)) p h Hi) as (h1 & -> & E1). cbn [mbind res_bind].
  destruct (set_field_ok (λ i, mk_item (magic i) (pool_ptr i) (next i) (prev i) (next_free i) 0) p h1) as (h2 & -> & E2).
  { by apply (edited_some _ _ _ _ E1). }
  pose proof (edited_trans _ _ _ _ _ E1 E2) as E. pose proof (ed_params _ _ _ E) as (_ & _ & _ & _ & _ & _ & Hl).
  exists h2. split_and!; [done | | | by eapply edited_kept].
  - split; rewrite Hl; [| done]. apply (cycle_ext (nxf h) (pvf h)); [| done]. intros z Hz.
    assert (Hzp : (z =? p) = false) by (apply Z.eqb_neq; by intros ->).
    split; (eapply fld_keep; [exact E |]); intros i; cbn; by rewrite Hzp.
  - eapply edited_blocks; [exact E |]. intros z [] . cbn. by destruct (z =? p).
Qed.

Lemma relink_free_spec h p fl :
  free_is h fl → p ∉ free_list h :: fl → is_Some (items h !! p) →
  ∃ h', relink_free p h = Ok h' ∧ free_is h' (p :: fl) ∧ same_blocks h h' ∧ kept h h'.
Proof.
  intros Hf Hp Hi. pose proof Hf as [Hc Hnd]. set (hd := free_list h) in *.
  destruct (place_around hd [] fl Hnd) as (a1 & x & y & a2 & A). pose proof (proj1 (cycle_gap A _ _) Hc) as (_ & Hn & _ & _).
  assert (x = hd) as -> by (pose proof (around_x A) as Hx; by apply list_elem_of_singleton in Hx).
  destruct (around_members A) as [Hhd Hy]. cbn [app] in Hhd, Hy. destruct (free_member h fl y Hf Hy) as [Hys _].
  destruct (free_member h fl hd Hf Hhd) as [Hhs _].
  assert (Hyp : y ≠ p) by (by intros ->). assert (Hhp : hd ≠ p) by (intros E; apply Hp; rewrite <- E; left).
  assert (Hpy : (p =? y) = false) by (apply Z.eqb_neq; by intros <-).
  assert (Hph : (p =? hd) = false) by (apply Z.eqb_neq; by intros <-).
  unfold relink_free. fold hd. destruct (fld_value _ _ _ _ Hn) as (i & Hih & Hin). rewrite (get_item_ok h hd i Hih). cbn [mbind res_bind].
  unfold set_next_free, set_prev_free. rewrite Hin.
  destruct (set_field_ok (λ i, mk_item (magic i) (pool_ptr i) (next i) (prev i) y (prev_free i)) p h Hi) as (h1 & -> & E1). cbn [mbind res_bind].
  pose proof (ed_params _ _ _ E1) as (_ & _ & _ & _ & _ & _ & ->). fold hd.
  destruct (set_field_ok (λ i, mk_item (magic i) (pool_ptr i) (next i) (prev i) (next_free i) hd) p h1) as (h2 & -> & E2).
  { by apply (edited_some _ _ _ _ E1). }
  cbn [mbind res_bind]. pose proof (edited_trans _ _ _ _ _ E1 E2) as E12. pose proof (ed_params _ _ _ E12) as (_ & _ & _ & _ & _ & _ & ->). fold hd.
  assert (Hi2 : items h2 !! hd = Some i) by (rewrite (ed_items _ _ _ E12), Hih; cbn; by rewrite (proj2 (Z.eqb_neq hd p))).
  rewrite (get_item_ok h2 hd i Hi2). cbn [mbind res_bind]. rewrite Hin.
  destruct (set_field_ok (λ i, mk_item (magic i) (pool_ptr i) (next i) (prev i) (next_free i) p) y h2) as (h3 & -> & E3).
  { by apply (edited_some _ _ _ _ E12). }
  cbn [mbind res_bind]. pose proof (edited_trans _ _ _ _ _ E12 E3) as E13. pose proof (ed_params _ _ _ E13) as (_ & _ & _ & _ & _ & _ & ->). fold hd.
  destruct (set_field_ok (λ i, mk_item (magic i) (pool_ptr i) (next i) (prev i) p (prev_free i)) hd h3) as (h4 & -> & E4).
  { by apply (edited_some _ _ _ _ E13). }
  pose proof (edited_trans _ _ _ _ _ E13 E4) as E. pose proof (ed_params _ _ _ E) as (_ & _ & _ & _ & _ & _ & Hl).
  exists h4. split_and!; [done | | | by eapply edited_kept].
  - split; rewrite Hl; fold hd.
    + apply (cycle_put (nxf h) (pvf h) _ _ p A Hc).
      * eapply fld_set; [exact E | done |]. intros j. cbn. by rewrite Z.eqb_refl, Hpy, Hph.
      * eapply fld_set; [exact E | done |]. intros j. cbn. by rewrite Z.eqb_refl, Hpy, Hph.
      * eapply fld_set; [exact E | done |]. intros j. cbn. by rewrite Z.eqb_refl.
      * eapply fld_set; [exact E | done |]. intros j. cbn. rewrite Z.eqb_refl. by destruct (y =? hd).
      * intros z Hz Hzh. eapply fld_keep; [exact E |]. intros j. cbn. rewrite (proj2 (Z.eqb_neq z hd)) by done.
        assert (Hzp : (z =? p) = false) by (apply Z.eqb_neq; by intros ->). rewrite Hzp. by destruct (z =? y).
      * intros z Hz Hzy. eapply fld_keep; [exact E |]. intros j. cbn. rewrite (proj2 (Z.eqb_neq z y)) by done.
        assert (Hzp : (z =? p) = false) by (apply Z.eqb_neq; by intros ->). rewrite Hzp. by destruct (z =? hd).
    + apply NoDup_cons in Hnd as [Hh Hnd]. apply NoDup_cons. split.
      * intros [E' | Hin']%elem_of_cons; [by apply Hhp | done].
      * apply NoDup_cons. split; [| done]. intros Hin'. apply Hp. by right.
  - eapply edited_blocks; [exact E |]. intros z []. cbn. by destruct (z =? p), (z =? y), (z =? hd).
Qed.

(** ** The block list *)

(** The addresses of the blocks, from [o] on. *)
Fixpoint addrs (o : Z) (bs : list block) : list Z :=
  match bs with
  | [] => []
  | (s, _) :: bs => o :: addrs (o + s) bs
  end.

Lemma addrs_app l r : ∀ o, addrs o (l ++ r) = addrs o l ++ addrs (o + total l) r.
Proof.
  induction l as [| [s u] l IH]; intros o; cbn [app addrs total foldr fst]; [by rewrite Z.add_0_r |].
  rewrite IH. cbn [app]. by rewrite Z.add_assoc.
Qed.

Lemma addrs_elem bs a : ∀ o, a ∈ addrs o bs → ∃ s u, block_at o bs a = Some (s, u).
Proof.
  induction bs as [| [s u] bs IH]; intros o; cbn [addrs block_at]; [by intros ?%elem_of_nil |].
  destruct (Z.eqb_spec a o) as [-> | Hne]; [eauto |]. intros [-> | Ha]%elem_of_cons; [done |]. by apply IH.
Qed.
Lemma addrs_block bs a s u : ∀ o, block_at o bs a = Some (s, u) → a ∈ addrs o bs.
Proof.
  induction bs as [| [s0 u0] bs IH]; intros o; cbn [addrs block_at]; [done |].
  destruct (Z.eqb_spec a o) as [-> | Hne]; [left |]. intros H. right. by apply IH.
Qed.

Lemma block_at_shift bs x : ∀ o k, block_at (k + o) bs (k + x) = block_at o bs x.
Proof.
  induction bs as [| [s u] bs IH]; intros o k; cbn [block_at]; [done |]. rewrite <- Z.add_assoc, IH.
  destruct (Z.eqb_spec x o) as [-> | Hne]; [by rewrite Z.eqb_refl |]. by rewrite (proj2 (Z.eqb_neq (k + x) (k + o))) by lia.
Qed.

Lemma addrs_nodup bs : ∀ o, big bs → NoDup (addrs o bs).
Proof.
  induction bs as [| [s u] bs IH]; intros o Hb; cbn [addrs]; [constructor |]. apply Forall_cons in Hb as [Hs Hb].
  apply NoDup_cons. split; [| by apply IH]. intros (s' & u' & H)%addrs_elem.
  apply block_at_range in H; [| done]. cbn in Hs. unfold SIZEOF_STRUCT_MEM in Hs. lia.
Qed.

Definition block_sized (bs : list block) : Prop := Forall (λ b : block, RT_MEMHEAP_SIZE <= b.1) bs.
Lemma sized_big bs : block_sized bs → big bs.
Proof. intros H. eapply Forall_impl; [exact H |]. intros b. unfold RT_MEMHEAP_SIZE, SIZEOF_STRUCT_MEM. cbn beta. lia. Qed.

(** A block in the circle of addresses: [A] behind the first, up to the block itself. *)
Lemma around_block l s u r st : big (l ++ (s, u) :: r) →
  ∃ A y a2, around st A (addrs (st + total l + s) r) (addrs st l) (st + total l) y a2 ∧
    List.tl (addrs st (l ++ (s, u) :: r)) = A ++ addrs (st + total l + s) r ∧
    (∀ s' u' r', List.tl (addrs st (l ++ (s', u') :: r')) = A ++ addrs (st + total l + s') r') ∧
    y = match r with [] => st | _ => st + total l + s end.
Proof.
  intros Hb. assert (HA : ∃ A, st :: A = addrs st l ++ [st + total l]).
  { destruct l as [| [s0 u0] l]; cbn [addrs app total foldr fst]; [exists []; by rewrite Z.add_0_r |]. eauto. }
  destruct HA as [A EA]. assert (Htl : ∀ s' u' r', List.tl (addrs st (l ++ (s', u') :: r')) = A ++ addrs (st + total l + s') r').
  { intros s' u' r'. rewrite addrs_app. cbn [addrs]. change (?a :: ?b) with ([a] ++ b). rewrite app_assoc, <- EA. done. }
  assert (Hnd : NoDup (st :: A ++ addrs (st + total l + s) r)).
  { pose proof (addrs_nodup _ st Hb) as Hn. rewrite addrs_app in Hn. cbn [addrs] in Hn.
    rewrite cons_middle, app_assoc, <- EA in Hn. exact Hn. }
  destruct (place_around _ _ _ Hnd) as (a1 & x & y & a2 & Ar). pose proof (ar_left _ _ _ _ _ _ _ Ar) as El.
  pose proof (ar_right _ _ _ _ _ _ _ Ar) as Er. rewrite EA in El. apply app_inj_tail in El as [<- <-].
  exists A, y, a2. split_and!; [done | apply Htl | done |].
  destruct r as [| [s' u'] r]; cbn in Er; congruence.
Qed.

Record blocks_are (h : memheap) (bs : list block) : Prop := {
  ba_cycle : cycle (nx h) (pv h) (start_addr h) (List.tl (addrs (start_addr h) bs));
  ba_mg x s u : block_at 0 bs x = Some (s, u) → mg h (start_addr h + x) = Some (RT_MEMHEAP_MAGIC + Z.b2z u, mh_self h);
  ba_sized : block_sized bs;
  ba_range : 0 <= start_addr h ∧ start_addr h + total bs <= 4294967296 }.

Lemma blocks_kept h h' bs : same_blocks h h' → blocks_are h bs → blocks_are h' bs.
Proof.
  intros [(P1 & P2 & P3) N P M] [Hc Hm Hs Hr]. split; rewrite ?P1, ?P2; [| | done | done].
  - apply (cycle_ext (nx h) (pv h)); [by intros z _; rewrite N, P | done].
  - intros x s u Hx. rewrite M. by eapply Hm.
Qed.

Lemma block_item h bs x s u : blocks_are h bs → block_at 0 bs x = Some (s, u) →
  ∃ it, items h !! (start_addr h + x) = Some it ∧ magic it = RT_MEMHEAP_MAGIC + Z.b2z u ∧ pool_ptr it = mh_self h.
Proof.
  intros B Hx. apply (ba_mg _ _ B) in Hx. apply fld_value in Hx as (it & Hi & [= Hm Hp]). eauto.
Qed.
Lemma block_present h bs a : blocks_are h bs → a ∈ addrs (start_addr h) bs → is_Some (items h !! a).
Proof.
  intros B Ha. apply addrs_elem in Ha as (s & u & Ha). set (x := a - start_addr h).
  assert (Ea : a = start_addr h + x) by (unfold x; lia). rewrite Ea in *. clearbody x. clear a Ea.
  rewrite <- (Z.add_0_r (start_addr h)) in Ha at 1. rewrite block_at_shift in Ha. destruct (block_item h bs _ s u B Ha) as (it & Hi & _). eauto.
Qed.

(** The neighbours of a block. *)
Lemma block_links h l s u r : blocks_are h (l ++ (s, u) :: r) →
  let y := match r with [] => start_addr h | _ => start_addr h + total l + s end in
  nx h (start_addr h + total l) = Some y ∧ pv h y = Some (start_addr h + total l) ∧ is_Some (items h !! y).
Proof.
  intros B y. pose proof (sized_big _ (ba_sized _ _ B)) as Hb.
  destruct (around_block l s u r (start_addr h) Hb) as (A & y' & a2 & Ar & Etl & _ & Ey). subst y'. fold y in Ar.
  pose proof (ba_cycle _ _ B) as Hc. rewrite Etl in Hc. apply (cycle_gap Ar) in Hc as (_ & Hn & Hp & _).
  split_and!; [done | done |]. apply (fld_some prev). by rewrite Hp.
Qed.

Lemma block_size h l s u r it : blocks_are h (l ++ (s, u) :: r) → r ≠ [] → items h !! (start_addr h + total l) = Some it →
  next it = start_addr h + total l + s ∧ MEMITEM_SIZE (start_addr h + total l) it = s - RT_MEMHEAP_SIZE.
Proof.
  intros B Hr Hi. destruct (block_links h l s u r B) as (Hn & _). destruct r as [| b r]; [done |].
  unfold fld in Hn. rewrite Hi in Hn. injection Hn as Hn. split; [done |]. unfold MEMITEM_SIZE. rewrite Hn.
  pose proof (ba_sized _ _ B) as Hs. pose proof (ba_range _ _ B) as [H0 H1].
  pose proof (sized_big _ Hs) as [Hl Hr']%Forall_app. apply total_big in Hl. apply Forall_cons in Hr' as [_ Hr'%total_big].
  apply Forall_app in Hs as [_ [Hs _]%Forall_cons]. cbn [fst] in Hs. rewrite total_app in H1. cbn [total foldr fst] in H1, Hr'.
  unfold u32, RT_MEMHEAP_SIZE in *. fold (total r) in *. rewrite Z.mod_small; lia.
Qed.

Lemma block_used h bs x s u it : blocks_are h bs → block_at 0 bs x = Some (s, u) → items h !! (start_addr h + x) = Some it →
  RT_MEMHEAP_IS_USED it = u.
Proof.
  intros B Hx Hi. destruct (block_item h bs x s u B Hx) as (it' & Hi' & Hm & _). rewrite Hi in Hi'. injection Hi' as <-.
  unfold RT_MEMHEAP_IS_USED. rewrite Hm. by destruct u.
Qed.

(** Where the block [l ++ (s, u) :: r] is cut there is no block. *)
Lemma cut_facts l s u r t : block_sized (l ++ (s, u) :: r) → RT_MEMHEAP_SIZE <= t → RT_MEMHEAP_SIZE <= s - t →
  block_sized (l ++ (t, u) :: (s - t, false) :: r) ∧ total (l ++ (t, u) :: (s - t, false) :: r) = total (l ++ (s, u) :: r) ∧
  block_at 0 (l ++ (s, u) :: r) (total l + t) = None ∧
  ∀ x, block_at 0 (l ++ (t, u) :: (s - t, false) :: r) x =
    if x =? total l then Some (t, u) else if x =? total l + t then Some (s - t, false) else block_at 0 (l ++ (s, u) :: r) x.
Proof.
  intros Hs Ht Hst. pose proof (sized_big _ Hs) as Hb. pose proof Hb as [Hl [_ Hr]%Forall_cons]%Forall_app.
  pose proof Hs as [Hsl [_ Hsr]%Forall_cons]%Forall_app. unfold RT_MEMHEAP_SIZE, SIZEOF_STRUCT_MEM in *. split_and!.
  - apply Forall_app. split; [done |]. constructor; [done |]. by constructor.
  - rewrite !total_app. cbn [total foldr fst]. lia.
  - apply inside_block_at; [done | done | lia].
  - intros x. rewrite split_block_at by (done || (unfold SIZEOF_STRUCT_MEM; lia)).
    replace (t + (s - t)) with s by lia. destruct (Z.eqb_spec x (total l)) as [-> | Hne]; [done |].
    destruct (x =? total l + t); [done |]. rewrite (set_block_at l s u false r) by done. by rewrite (proj2 (Z.eqb_neq x (total l))).
Qed.

(** A put item, seen by its fields. *)
Lemma fld_put {A} (π : memheap_item → A) a it h z : fld π (put_item a it h) z = if z =? a then Some (π it) else fld π h z.
Proof.
  unfold fld. cbn [items put_item]. destruct (Z.eqb_spec z a) as [-> | Hne]; [by rewrite lookup_insert_eq | by rewrite lookup_insert_ne].
Qed.

Lemma cut_block_spec h l s u r t :
  blocks_are h (l ++ (s, u) :: r) → r ≠ [] → RT_MEMHEAP_SIZE <= t → RT_MEMHEAP_SIZE <= s - t →
  ∃ h', cut_block (start_addr h + total l) (start_addr h + total l + t) h = Ok h' ∧
    blocks_are h' (l ++ (t, u) :: (s - t, false) :: r) ∧
    (∀ fl, free_is h fl → start_addr h + total l + t ∉ free_list h :: fl → free_is h' fl) ∧ kept h h'.
Proof.
  intros B Hr Ht Hst. destruct (cut_facts l s u r t (ba_sized _ _ B) Ht Hst) as (Hs' & Htot & Hnone & Hat).
  pose proof (sized_big _ (ba_sized _ _ B)) as Hb. pose proof (sized_big _ Hs') as Hb'.
  destruct (around_block l s u r (start_addr h) Hb) as (A & y & a2 & Ar & Etl & Etl' & Ey).
  destruct (block_links h l s u r B) as (Hn & Hp & Hy). rewrite <- Ey in Hn, Hp, Hy.
  set (st := start_addr h) in *. set (a := st + total l) in *. set (n := a + t) in *.
  assert (Hout : ∀ z, z ∈ st :: A ++ addrs (a + s) r → z ≠ n).
  { intros z Hz ->. rewrite <- Etl in Hz. assert (Hz' : n ∈ addrs st (l ++ (s, u) :: r)).
    { destruct l as [| [? ?] ?]; exact Hz. }
    apply addrs_elem in Hz' as (s' & u' & Hz'). unfold n, a in Hz'. rewrite <- (Z.add_0_r st) in Hz' at 1.
    rewrite <- Z.add_assoc, block_at_shift, Hnone in Hz'. done. }
  destruct (around_members Ar) as [Hxm Hym]. pose proof (Hout _ Hxm) as Han. pose proof (Hout _ Hym) as Hyn.
  destruct (fld_value _ _ _ _ Hn) as (i & Hi & Hin). unfold cut_block. rewrite (get_item_ok h a i Hi). cbn [mbind res_bind]. rewrite Hin.
  set (h1 := put_item n _ h). unfold set_prev, set_next.
  assert (Hsome : ∀ z, is_Some (items h !! z) → is_Some (items h1 !! z)).
  { intros z Hz. unfold h1. cbn [items put_item]. destruct (decide (z = n)) as [-> |]; [rewrite lookup_insert_eq; eauto | by rewrite lookup_insert_ne]. }
  destruct (set_field_ok (λ i, mk_item (magic i) (pool_ptr i) (next i) n (next_free i) (prev_free i)) y h1 (Hsome y Hy)) as (h2 & -> & E1).
  cbn [mbind res_bind].
  destruct (set_field_ok (λ i, mk_item (magic i) (pool_ptr i) n (prev i) (next_free i) (prev_free i)) a h2) as (h3 & -> & E2).
  { apply (edited_some _ _ _ _ E1), Hsome. eauto. }
  pose proof (edited_trans _ _ _ _ _ E1 E2) as E. pose proof (ed_params _ _ _ E) as (P1 & P2 & P3 & P4 & P5 & P6 & P7).
  assert (Hn1 : is_Some (items h1 !! n)) by (unfold h1; cbn; rewrite lookup_insert_eq; eauto).
  assert (Hny : (n =? y) = false) by (by apply Z.eqb_neq, not_eq_sym). assert (Hna : (n =? a) = false) by (by apply Z.eqb_neq, not_eq_sym).
  exists h3. split_and!; [done | | |].
  - split; rewrite ?P1, ?P2; [| | done |].
    + change (start_addr h1) with st. rewrite Etl'. cbn [addrs]. fold a. replace (a + t + (s - t)) with (a + s) by lia.
      apply (cycle_put (nx h) (pv h) _ _ n Ar); [rewrite <- Etl; apply B | | | | | |].
      * rewrite (fld_keep next _ _ _ n E); [unfold h1; by rewrite fld_put, Z.eqb_refl |]. intros j. cbn. by rewrite Hna, Hny.
      * rewrite (fld_keep prev _ _ _ n E); [unfold h1; by rewrite fld_put, Z.eqb_refl |]. intros j. cbn. by rewrite Hna, Hny.
      * eapply fld_set; [exact E | apply Hsome; eauto |]. intros j. cbn. by rewrite Z.eqb_refl.
      * eapply fld_set; [exact E | by apply Hsome |]. intros j. cbn. rewrite Z.eqb_refl. by destruct (y =? a).
      * intros z Hz Hza. rewrite (fld_keep next _ _ _ z E).
        -- unfold h1. rewrite fld_put. by rewrite (proj2 (Z.eqb_neq z n) (Hout z Hz)).
        -- intros j. cbn. rewrite (proj2 (Z.eqb_neq z a)) by done. by destruct (z =? y).
      * intros z Hz Hzy. rewrite (fld_keep prev _ _ _ z E).
        -- unfold h1. rewrite fld_put. by rewrite (proj2 (Z.eqb_neq z n) (Hout z Hz)).
        -- intros j. cbn. rewrite (proj2 (Z.eqb_neq z y)) by done. by destruct (z =? a).
    + intros x s' u'. rewrite Hat. change (mh_self h1) with (mh_self h). change (start_addr h1) with st.
      rewrite (fld_keep _ _ _ _ _ E) by (intros j; cbn; by destruct (st + x =? y), (st + x =? a)).
      unfold h1. rewrite fld_put. destruct (Z.eqb_spec x (total l)) as [-> | Hx].
      * intros [= <- <-]. fold a. rewrite (proj2 (Z.eqb_neq a n) Han). apply (ba_mg _ _ B (total l) s u). by apply block_here; apply Forall_app in Hb as [? _].
      * destruct (Z.eqb_spec x (total l + t)) as [-> | Hx'].
        -- intros [= <- <-]. replace (st + (total l + t) =? n) with true by (symmetry; apply Z.eqb_eq; unfold n, a; lia). cbn. by rewrite Z.add_0_r.
        -- intros H. rewrite (proj2 (Z.eqb_neq (st + x) n)) by (unfold n, a; lia). by eapply (ba_mg _ _ B).
    + change (start_addr h1) with st. rewrite Htot. apply B.
  - intros fl Hf Hnf. pose proof Hf as [Hc Hnd]. split; rewrite P7; change (free_list h1) with (free_list h); [| done].
    apply (cycle_ext (nxf h) (pvf h)); [| done]. intros z Hz. assert (Hzn : (z =? n) = false) by (apply Z.eqb_neq; by intros ->).
    split; (rewrite (fld_keep _ _ _ _ _ E) by (intros j; cbn; by destruct (z =? y), (z =? a))); unfold h1; by rewrite fld_put, Hzn.
  - split; [unfold same_params; intuition congruence |]. intros z Hz. by apply (edited_some _ _ _ _ E), Hsome.
Qed.

(** Marking the block at [total l]. *)
Lemma set_used_spec h l s u r u' :
  blocks_are h (l ++ (s, u) :: r) →
  ∃ h', set_magic (RT_MEMHEAP_MAGIC + Z.b2z u') (start_addr h + total l) h = Ok h' ∧ blocks_are h' (l ++ (s, u') :: r) ∧
    (∀ fl, free_is h fl → free_is h' fl) ∧ kept h h'.
Proof.
  intros B. pose proof (sized_big _ (ba_sized _ _ B)) as Hb. pose proof Hb as [Hl _]%Forall_app.
  destruct (block_item h _ _ s u B (block_here l s u r Hl)) as (it & Hi & _ & Hpool). set (a := start_addr h + total l) in *.
  unfold set_magic.
  destruct (set_field_ok (λ i, mk_item (RT_MEMHEAP_MAGIC + Z.b2z u') (pool_ptr i) (next i) (prev i) (next_free i) (prev_free i)) a h) as (h' & -> & E); [by eauto |].
  pose proof (ed_params _ _ _ E) as (P1 & P2 & P3 & P4 & P5 & P6 & P7). exists h'. split_and!; [done | | | by eapply edited_kept].
  - split; rewrite ?P1, ?P2; [| | |].
    + apply (cycle_ext (nx h) (pv h)).
      * intros z _. split; (eapply fld_keep; [exact E |]); intros j; cbn; by destruct (z =? a).
      * rewrite addrs_app. pose proof (ba_cycle _ _ B) as Hc. by rewrite addrs_app in Hc.
    + intros x s' v. rewrite (set_block_at l s u u' r x Hl). destruct (Z.eqb_spec x (total l)) as [-> | Hx].
      * intros [= <- <-]. unfold fld. rewrite (ed_items _ _ _ E). fold a. rewrite Hi. cbn. rewrite Z.eqb_refl. cbn. by rewrite Hpool.
      * intros H. rewrite (fld_keep _ _ _ _ _ E); [by eapply (ba_mg _ _ B) |]. intros j. cbn.
        by rewrite (proj2 (Z.eqb_neq (start_addr h + x) a)) by (unfold a; lia).
    + pose proof (ba_sized _ _ B) as [H1 H2]%Forall_app. apply Forall_cons in H2 as [H2 H3]. apply Forall_app. split; [done | by constructor].
    + rewrite (total_set l s u u' r). apply B.
  - intros fl. apply free_kept. eapply edited_free; [exact E |]. intros z []. cbn. by destruct (z =? a).
Qed.

Lemma join_blocks h h' l s1 u1 s2 u2 r :
  blocks_are h (l ++ (s1, u1) :: (s2, u2) :: r) → r ≠ [] →
  let a := start_addr h + total l in let y := a + s1 + s2 in
  edited (λ z i, mk_item (magic i) (pool_ptr i) (if z =? a then y else next i) (if z =? y then a else prev i) (next_free i) (prev_free i)) h h' →
  blocks_are h' (l ++ (s1 + s2, u1) :: r).
Proof.
  intros B Hr a y E. pose proof (ba_sized _ _ B) as Hs. pose proof Hs as [Hsl [Hs1 [Hs2 Hsr]%Forall_cons]%Forall_cons]%Forall_app. cbn [fst] in Hs1, Hs2.
  pose proof (sized_big _ Hsl) as Hl. pose proof (sized_big _ Hsr) as Hbr.
  assert (Hs' : block_sized (l ++ (s1 + s2, u1) :: r)).
  { apply Forall_app. split; [done |]. constructor; [| done]. cbn. unfold RT_MEMHEAP_SIZE in *. lia. }
  pose proof (sized_big _ Hs') as Hb'. destruct (around_block l (s1 + s2) u1 r (start_addr h) Hb') as (A & y' & a2 & Ar & Etl & Etl' & Ey).
  assert (y' = y) as ->. { rewrite Ey. destruct r; [done |]. unfold y, a. lia. } clear Ey. fold a in Ar, Etl, Etl'.
  destruct (block_links h l s1 u1 ((s2, u2) :: r) B) as (_ & _ & Ha). fold a in Ha.
  assert (Hcyc : cycle (nx h) (pv h) (start_addr h) (A ++ (a + s1) :: addrs (a + (s1 + s2)) r)).
  { pose proof (ba_cycle _ _ B) as Hc. rewrite Etl' in Hc. cbn [addrs] in Hc. by replace (a + (s1 + s2)) with (a + s1 + s2) by lia. }
  assert (Hpa : is_Some (items h !! a) ∧ is_Some (items h !! y)).
  { pose proof (proj1 (cycle_at Ar _ _ _) Hcyc) as (_ & Hn & _ & _ & Hp & _). split.
    - apply (fld_some next). by rewrite Hn.
    - apply (fld_some prev). by rewrite Hp. }
  destruct Hpa as [Hia Hiy]. pose proof (ed_params _ _ _ E) as (P1 & P2 & P3 & P4 & P5 & P6 & P7).
  split; rewrite ?P1, ?P2; [| | done |].
  - rewrite Etl. apply (cycle_take (nx h) (pv h) _ _ (a + s1) Ar Hcyc).
    + eapply fld_set; [exact E | done |]. intros j. cbn. by rewrite Z.eqb_refl.
    + eapply fld_set; [exact E | done |]. intros j. cbn. by rewrite Z.eqb_refl.
    + intros z _ Hz. apply (fld_keep _ _ _ _ _ E). intros j. cbn. by rewrite (proj2 (Z.eqb_neq z a)).
    + intros z _ Hz. apply (fld_keep _ _ _ _ _ E). intros j. cbn. by rewrite (proj2 (Z.eqb_neq z y)).
  - intros x s v Hx. rewrite (fld_keep _ _ _ _ _ E) by done. unfold RT_MEMHEAP_SIZE in *.
    pose proof (split_block_at l s1 u1 s2 u2 r x Hl ltac:(unfold SIZEOF_STRUCT_MEM; lia)) as Hat.
    rewrite (set_block_at l (s1 + s2) u2 u1 r x Hl) in Hx. destruct (Z.eqb_spec x (total l)) as [-> | Hne].
    + injection Hx as <- <-. by apply (ba_mg _ _ B _ s1).
    + apply (ba_mg _ _ B _ s). rewrite Hat. destruct (Z.eqb_spec x (total l + s1)) as [-> | Hne']; [| done].
      rewrite inside_block_at in Hx; [done | done | done | lia].
  - pose proof (ba_range _ _ B) as [H0 H1]. rewrite !total_app in *. cbn [total foldr fst] in *. lia.
Qed.

(** What the two blocks at [total l] and behind it link to. *)
Lemma pair_links h l s1 u1 s2 u2 r :
  blocks_are h (l ++ (s1, u1) :: (s2, u2) :: r) → r ≠ [] →
  let a := start_addr h + total l in
  nx h a = Some (a + s1) ∧ pv h (a + s1) = Some a ∧ nx h (a + s1) = Some (a + s1 + s2) ∧
  is_Some (items h !! a) ∧ is_Some (items h !! (a + s1)) ∧ is_Some (items h !! (a + s1 + s2)) ∧
  a ≠ a + s1 ∧ a ≠ a + s1 + s2 ∧ a + s1 ≠ a + s1 + s2.
Proof.
  intros B Hr a. destruct (block_links h l s1 u1 _ B) as (H1 & H2 & H3). fold a in H1, H2, H3.
  rewrite cons_middle, app_assoc in B. destruct (block_links h _ s2 u2 r B) as (H4 & H5 & H6).
  rewrite total_app in H4, H5, H6. cbn [total foldr fst] in H4, H5, H6. destruct r as [| b r]; [done |].
  replace (start_addr h + (total l + (s1 + 0))) with (a + s1) in * by (unfold a; lia).
  pose proof (ba_sized _ _ B) as [[_ [Hs1 _]%Forall_cons]%Forall_app [Hs2 _]%Forall_cons]%Forall_app. cbn in Hs1, Hs2. unfold RT_MEMHEAP_SIZE in *.
  split_and!; try done; try lia. apply (fld_some next). by rewrite H1.
Qed.

Lemma merge_prev_spec h l s1 u1 s2 u2 r :
  blocks_are h (l ++ (s1, u1) :: (s2, u2) :: r) → r ≠ [] → let a := start_addr h + total l in
  ∃ h', merge_prev (a + s1) h = Ok h' ∧ blocks_are h' (l ++ (s1 + s2, u1) :: r) ∧
    (∀ fl, free_is h fl → free_is h' fl) ∧ kept h h' ∧ pv h' (a + s1) = Some a.
Proof.
  intros B Hr a. destruct (pair_links h l s1 u1 s2 u2 r B Hr) as (_ & Hp & Hn & Ha & Hm & Hy & N1 & N2 & N3). fold a in Hp, Hn, Ha, Hm, Hy, N1, N2, N3.
  destruct Hm as [i Hi]. assert (Hip : prev i = a) by (unfold fld in Hp; rewrite Hi in Hp; by injection Hp).
  assert (Hin : next i = a + s1 + s2) by (unfold fld in Hn; rewrite Hi in Hn; by injection Hn).
  unfold merge_prev. rewrite (get_item_ok h _ i Hi). cbn [mbind res_bind]. rewrite Hip, Hin. unfold set_next, set_prev.
  destruct (set_field_ok (λ i, mk_item (magic i) (pool_ptr i) (a + s1 + s2) (prev i) (next_free i) (prev_free i)) a h Ha) as (h1 & -> & E1).
  cbn [mbind res_bind]. assert (Hi1 : items h1 !! (a + s1) = Some i) by (rewrite (ed_items _ _ _ E1), Hi; cbn; by rewrite (proj2 (Z.eqb_neq (a + s1) a)) by lia).
  rewrite (get_item_ok h1 _ i Hi1). cbn [mbind res_bind]. rewrite Hip, Hin.
  destruct (set_field_ok (λ i, mk_item (magic i) (pool_ptr i) (next i) a (next_free i) (prev_free i)) (a + s1 + s2) h1) as (h2 & -> & E2).
  { by apply (edited_some _ _ _ _ E1). }
  pose proof (edited_trans _ _ _ _ _ E1 E2) as E. exists h2. split_and!; [done | | | by eapply edited_kept |].
  - eapply (join_blocks h h2); [exact B | done |]. eapply edited_ext; [exact E |]. intros z []. cbn. fold a.
    by destruct (z =? a), (z =? a + s1 + s2).
  - intros fl. apply free_kept. eapply edited_free; [exact E |]. intros z []. cbn. by destruct (z =? a), (z =? a + s1 + s2).
  - rewrite (fld_keep _ _ _ _ _ E); [done |]. intros j. cbn. rewrite (proj2 (Z.eqb_neq (a + s1) (a + s1 + s2))) by lia. by destruct (a + s1 =? a).
Qed.

Lemma merge_next_spec h l s1 u1 s2 u2 r fa fb :
  blocks_are h (l ++ (s1, u1) :: (s2, u2) :: r) → r ≠ [] → let a := start_addr h + total l in
  free_is h (fa ++ (a + s1) :: fb) →
  ∃ h', merge_next a h = Ok h' ∧ blocks_are h' (l ++ (s1 + s2, u1) :: r) ∧ free_is h' (fa ++ fb) ∧ kept h h'.
Proof.
  intros B Hr a Hf. destruct (pair_links h l s1 u1 s2 u2 r B Hr) as (Hn & _ & Hn2 & Ha & Hm & Hy & N1 & N2 & N3).
  fold a in Hn, Hn2, Ha, Hm, Hy, N1, N2, N3.
  destruct Ha as [i Hi]. assert (Hin : next i = a + s1) by (unfold fld in Hn; rewrite Hi in Hn; by injection Hn).
  destruct Hm as [j Hj]. assert (Hjn : next j = a + s1 + s2) by (unfold fld in Hn2; rewrite Hj in Hn2; by injection Hn2).
  unfold merge_next. rewrite (get_item_ok h _ i Hi). cbn [mbind res_bind]. rewrite Hin, (get_item_ok h _ j Hj). cbn [mbind res_bind]. rewrite Hjn.
  unfold set_next, set_prev.
  destruct (set_field_ok (λ i, mk_item (magic i) (pool_ptr i) (next i) a (next_free i) (prev_free i)) (a + s1 + s2) h Hy) as (h1 & -> & E1).
  cbn [mbind res_bind].
  destruct (set_field_ok (λ i, mk_item (magic i) (pool_ptr i) (a + s1 + s2) (prev i) (next_free i) (prev_free i)) a h1) as (h2 & -> & E2).
  { apply (edited_some _ _ _ _ E1). eauto. }
  cbn [mbind res_bind]. pose proof (edited_trans _ _ _ _ _ E1 E2) as E.
  assert (B2 : blocks_are h2 (l ++ (s1 + s2, u1) :: r)).
  { eapply (join_blocks h h2); [exact B | done |]. eapply edited_ext; [exact E |]. intros z []. cbn. fold a. by destruct (z =? a), (z =? a + s1 + s2). }
  assert (F2 : free_is h2 (fa ++ (a + s1) :: fb)).
  { apply (free_kept h); [| done]. eapply edited_free; [exact E |]. intros z []. cbn. by destruct (z =? a), (z =? a + s1 + s2). }
  destruct (unlink_free_spec h2 _ _ _ F2) as (h3 & -> & F3 & SB & K). exists h3. split_and!; [done | by apply (blocks_kept h2) | done |].
  eapply kept_trans; [by eapply edited_kept | done].
Qed.

(** ** The heap as a list of blocks *)

(** The used block at the end of the pool. *)
Definition tailer : list block := [(RT_MEMHEAP_SIZE, true)].
Definition frees (bs : list block) (x : Z) : Prop := ∃ s, block_at 0 bs x = Some (s, false).

(** [bs]: the blocks in address order.  [fl]: the free list; it holds the free blocks
    but for those at [holes], which an operation is about to link or to use. *)
Record shape (h : memheap) (bs : list block) (fl holes : list Z) : Prop := {
  sh_blocks : blocks_are h (bs ++ tailer);
  sh_free : free_is h fl;
  sh_fl a : a ∈ fl ↔ ∃ x, a = start_addr h + x ∧ frees bs x ∧ x ∉ holes;
  sh_header : free_list h < start_addr h ∨ start_addr h + pool_size h <= free_list h;
  sh_total : total bs + RT_MEMHEAP_SIZE = pool_size h }.

Lemma shape_big h bs fl ho : shape h bs fl ho → big bs.
Proof. intros S. by pose proof (sized_big _ (ba_sized _ _ (sh_blocks _ _ _ _ S))) as [? _]%Forall_app. Qed.
Lemma at_bs bs x b : block_at 0 bs x = Some b → block_at 0 (bs ++ tailer) x = Some b.
Proof. intros H. by rewrite block_at_app, H. Qed.
Lemma frees_range h bs fl ho x : shape h bs fl ho → frees bs x → 0 <= x < pool_size h.
Proof.
  intros S [s Hx]. apply block_at_range in Hx; [| by eapply shape_big]. pose proof (sh_total _ _ _ _ S).
  unfold SIZEOF_STRUCT_MEM, RT_MEMHEAP_SIZE in *. lia.
Qed.
(** No free block at the header of the free list. *)
Lemma header_apart h bs fl ho x : shape h bs fl ho → 0 <= x < pool_size h → start_addr h + x ≠ free_list h.
Proof. intros S Hx. pose proof (sh_header _ _ _ _ S). lia. Qed.
Lemma not_listed h bs fl ho x : shape h bs fl ho → 0 <= x < pool_size h → ¬ (frees bs x ∧ x ∉ ho) → start_addr h + x ∉ free_list h :: fl.
Proof.
  intros S Hx Hno [E | Hin]%elem_of_cons; [by apply (header_apart h bs fl ho x) |].
  apply (sh_fl _ _ _ _ S) in Hin as (y & E & Hy). apply Hno. by replace x with y by lia.
Qed.

Lemma frees_set l s r x : big l → frees (l ++ (s, false) :: r) x ↔ frees (l ++ (s, true) :: r) x ∨ x = total l.
Proof.
  intros Hl. unfold frees. setoid_rewrite (set_block_at l s true false r x Hl). destruct (Z.eqb_spec x (total l)) as [-> | Hne].
  - split; [by right | intros _; eauto].
  - split; [by left | by intros [? | ?]].
Qed.
Lemma frees_used l s r : big l → ¬ frees (l ++ (s, true) :: r) (total l).
Proof. intros Hl [s' Hs]. by rewrite block_here in Hs. Qed.
Lemma frees_here l s r : big l → frees (l ++ (s, false) :: r) (total l).
Proof. intros Hl. exists s. by apply block_here. Qed.
Lemma big_sized bs : block_sized (bs ++ tailer) → block_sized bs.
Proof. by intros [? _]%Forall_app. Qed.
Lemma frees_cut l s u r t x : block_sized (l ++ (s, u) :: r) → RT_MEMHEAP_SIZE <= t → RT_MEMHEAP_SIZE <= s - t →
  (frees (l ++ (t, u) :: (s - t, false) :: r) x ↔ frees (l ++ (s, u) :: r) x ∨ x = total l + t).
Proof.
  intros Hs Ht Hst. destruct (cut_facts l s u r t Hs Ht Hst) as (_ & _ & Hnone & Hat). unfold frees. setoid_rewrite Hat.
  pose proof (sized_big _ Hs) as [Hl _]%Forall_app. pose proof (block_here l s u r Hl) as Hh. unfold RT_MEMHEAP_SIZE in *.
  destruct (Z.eqb_spec x (total l)) as [-> | Hne].
  - rewrite Hh. split; [intros [s' [= <- ->]]; left; eauto | intros [[s' [= <- ->]] | ?]; [eauto | lia]].
  - destruct (Z.eqb_spec x (total l + t)) as [-> | Hne']; [split; [by right | eauto] |]. split; [by left | by intros [? | ?]].
Qed.

(** A change that concerns neither list. *)
Lemma shape_kept h h' bs fl ho : same_blocks h h' → free_is h' fl → kept h h' → shape h bs fl ho → shape h' bs fl ho.
Proof.
  intros SB F [(P1 & P2 & P3 & P4 & P5 & P6 & P7) _] [B _ Hfl Hh Ht].
  split; rewrite ?P2, ?P3, ?P7; [by apply (blocks_kept h) | done | done | done | done].
Qed.

Section steps.
Context (h : memheap) (l : list block) (r : list block) (fl : list Z).
Abbreviation a := (start_addr h + total l).

Lemma step_free s ho : shape h (l ++ (s, true) :: r) fl ho →
  ∃ h', set_magic RT_MEMHEAP_MAGIC a h = Ok h' ∧ shape h' (l ++ (s, false) :: r) fl (total l :: ho) ∧ kept h h'.
Proof.
  intros S. pose proof (shape_big _ _ _ _ S) as [Hl _]%Forall_app. pose proof (sh_blocks _ _ _ _ S) as B.
  rewrite <- app_assoc in B. cbn [app] in B. destruct (set_used_spec h l s true _ false B) as (h' & E & B' & F & K).
  cbn [Z.b2z] in E. rewrite Z.add_0_r in E. exists h'. pose proof K as [(P1 & P2 & P3 & P4 & P5 & P6 & P7) _].
  destruct S as [_ Hf Hfl Hh Ht]. split_and!; [done | | done]. split; rewrite ?P2, ?P3, ?P7; [| by apply F | | done |].
  - rewrite <- app_assoc. exact B'.
  - intros z. rewrite Hfl. split; intros (x & -> & Hx & Hho); exists x; (split; [done |]).
    + rewrite not_elem_of_cons. split_and!; [apply frees_set; [done | by left] | | done]. intros ->. by apply (frees_used l s r).
    + apply not_elem_of_cons in Hho as [Hne Hho]. split; [| done]. by apply frees_set in Hx as [? | ?].
  - by rewrite (total_set l s true false).
Qed.

Lemma step_use s ho : shape h (l ++ (s, false) :: r) fl (total l :: ho) → total l ∉ ho →
  ∃ h', set_magic (RT_MEMHEAP_MAGIC + 1) a h = Ok h' ∧ shape h' (l ++ (s, true) :: r) fl ho ∧ kept h h'.
Proof.
  intros S Hno. pose proof (shape_big _ _ _ _ S) as [Hl _]%Forall_app. pose proof (sh_blocks _ _ _ _ S) as B.
  rewrite <- app_assoc in B. cbn [app] in B. destruct (set_used_spec h l s false _ true B) as (h' & E & B' & F & K).
  cbn [Z.b2z] in E. exists h'. pose proof K as [(P1 & P2 & P3 & P4 & P5 & P6 & P7) _].
  destruct S as [_ Hf Hfl Hh Ht]. split_and!; [done | | done]. split; rewrite ?P2, ?P3, ?P7; [| by apply F | | done |].
  - rewrite <- app_assoc. exact B'.
  - intros z. rewrite Hfl. split; intros (x & -> & Hx & Hho); exists x; (split; [done |]).
    + apply not_elem_of_cons in Hho as [Hne Hho]. split; [| done]. by apply frees_set in Hx as [? | ?].
    + rewrite not_elem_of_cons. split_and!; [apply frees_set; [done | by left] | | done]. intros ->. by apply (frees_used l s r).
  - by rewrite (total_set l s false true).
Qed.

Lemma step_unlink s ho : shape h (l ++ (s, false) :: r) fl ho → total l ∉ ho →
  ∃ h' fl', unlink_free a h = Ok h' ∧ shape h' (l ++ (s, false) :: r) fl' (total l :: ho) ∧ kept h h'.
Proof.
  intros S Hno. pose proof (shape_big _ _ _ _ S) as [Hl _]%Forall_app. destruct (list_elem_of_split fl a) as (fa & fb & Ef).
  { apply (sh_fl _ _ _ _ S). exists (total l). split_and!; [done | by apply frees_here | done]. }
  pose proof S as [B Hf Hfl Hh Ht]. rewrite Ef in Hf. destruct (unlink_free_spec h fa a fb Hf) as (h' & E & F & SB & K).
  exists h', (fa ++ fb). split_and!; [done | | done]. pose proof K as [(P1 & P2 & P3 & P4 & P5 & P6 & P7) _].
  split; rewrite ?P2, ?P3, ?P7; [by apply (blocks_kept h) | done | | done | done].
  pose proof (fi_nodup _ _ Hf) as Hnd. apply NoDup_cons in Hnd as [_ Hnd]. rewrite <- Permutation_middle in Hnd. apply NoDup_cons in Hnd as [Hna _].
  intros z. specialize (Hfl z). rewrite Ef, elem_of_app, elem_of_cons in Hfl. split.
  - intros Hz. assert (Hza : z ≠ a) by (by intros ->). rewrite elem_of_app in Hz. destruct (proj1 Hfl ltac:(tauto)) as (x & -> & Hx & Hho).
    exists x. rewrite not_elem_of_cons. split_and!; [done | done | by intros -> | done].
  - intros (x & -> & Hx & [Hne Hho]%not_elem_of_cons). rewrite elem_of_app.
    destruct (proj2 Hfl ltac:(by exists x)) as [? | [E' | ?]]; [by left | lia | by right].
Qed.

Lemma step_clear s ho : shape h (l ++ (s, false) :: r) fl (total l :: ho) →
  ∃ h', clear_free a h = Ok h' ∧ shape h' (l ++ (s, false) :: r) fl (total l :: ho) ∧ kept h h'.
Proof.
  intros S. pose proof (shape_big _ _ _ _ S) as [Hl _]%Forall_app. pose proof (frees_here l s r Hl) as Hfr.
  destruct (clear_free_spec h a fl (sh_free _ _ _ _ S)) as (h' & E & F & SB & K).
  - apply (not_listed h _ fl _ _ S); [by eapply frees_range |]. rewrite not_elem_of_cons. tauto.
  - destruct (block_item h _ (total l) s false (sh_blocks _ _ _ _ S)) as (it & Hi & _); [by apply at_bs, block_here | eauto].
  - exists h'. split_and!; [done | by apply (shape_kept h) | done].
Qed.

Lemma step_link s ho : shape h (l ++ (s, false) :: r) fl (total l :: ho) → total l ∉ ho →
  ∃ h', relink_free a h = Ok h' ∧ shape h' (l ++ (s, false) :: r) (a :: fl) ho ∧ kept h h'.
Proof.
  intros S Hno. pose proof (shape_big _ _ _ _ S) as [Hl _]%Forall_app. pose proof (frees_here l s r Hl) as Hfr.
  destruct (relink_free_spec h a fl (sh_free _ _ _ _ S)) as (h' & E & F & SB & K).
  - apply (not_listed h _ fl _ _ S); [by eapply frees_range |]. rewrite not_elem_of_cons. tauto.
  - destruct (block_item h _ (total l) s false (sh_blocks _ _ _ _ S)) as (it & Hi & _); [by apply at_bs, block_here | eauto].
  - exists h'. split_and!; [done | | done]. pose proof K as [(P1 & P2 & P3 & P4 & P5 & P6 & P7) _]. destruct S as [B Hf Hfl Hh Ht].
    split; rewrite ?P2, ?P3, ?P7; [by apply (blocks_kept h) | done | | done | done].
    intros z. rewrite elem_of_cons, Hfl. split.
    + intros [-> | (x & -> & Hx & [Hne Hho]%not_elem_of_cons)]; [by exists (total l) | by exists x].
    + intros (x & -> & Hx & Hho). destruct (decide (x = total l)) as [-> | Hne]; [by left | right]. exists x.
      rewrite not_elem_of_cons. by split_and!.
Qed.
End steps.

(** Joining two blocks, the second of them free or a hole, on the list of blocks. *)
Lemma frees_join l s1 u1 s2 r x : block_sized (l ++ (s1, u1) :: (s2, false) :: r) →
  (frees (l ++ (s1 + s2, u1) :: r) x ↔ frees (l ++ (s1, u1) :: (s2, false) :: r) x ∧ x ≠ total l + s1).
Proof.
  intros Hs. pose proof Hs as [Hsl [Hs1 [Hs2 Hsr]%Forall_cons]%Forall_cons]%Forall_app. cbn [fst] in Hs1, Hs2.
  assert (Hs' : block_sized (l ++ (s1 + s2, u1) :: r)).
  { apply Forall_app. split; [done |]. constructor; [| done]. cbn. unfold RT_MEMHEAP_SIZE in *. lia. }
  destruct (cut_facts l (s1 + s2) u1 r s1 Hs' ltac:(lia) ltac:(lia)) as (_ & _ & Hnone & _).
  pose proof (frees_cut l (s1 + s2) u1 r s1 x Hs' ltac:(lia) ltac:(lia)) as Hc. replace (s1 + s2 - s1) with s2 in Hc by lia.
  rewrite Hc. split; [| tauto]. intros Hx. split; [by left |]. intros ->. destruct Hx as [s Hx]. by rewrite Hnone in Hx.
Qed.

Lemma tailer_behind (bs : list block) : bs ++ tailer ≠ [].
Proof. by destruct bs. Qed.

(** What joining makes of [shape]; [h'] has the joined block list. *)
Lemma shape_joined h h' l s1 u1 s2 r fl fl' ho :
  shape h (l ++ (s1, u1) :: (s2, false) :: r) fl ho → blocks_are h' ((l ++ (s1 + s2, u1) :: r) ++ tailer) → free_is h' fl' → kept h h' →
  (∀ z, z ∈ fl' ↔ z ∈ fl ∧ z ≠ start_addr h + (total l + s1)) →
  shape h' (l ++ (s1 + s2, u1) :: r) fl' (filter (λ x, x ≠ total l + s1) ho).
Proof.
  intros S B' F' [(P1 & P2 & P3 & P4 & P5 & P6 & P7) _] Hfl'. destruct S as [B Hf Hfl Hh Ht].
  pose proof (big_sized _ (ba_sized _ _ B)) as Hs. split; rewrite ?P2, ?P3, ?P7; [done | done | | done |].
  - intros z. rewrite Hfl', Hfl. split.
    + intros [(x & -> & Hx & Hho) Hne]. exists x. split_and!; [done | |].
      * apply frees_join; [done |]. split; [done |]. intros ->. done.
      * rewrite list_elem_of_filter. tauto.
    + intros (x & -> & Hx & Hho). apply frees_join in Hx as [Hx Hne]; [| done]. rewrite list_elem_of_filter in Hho.
      split; [| lia]. exists x. split_and!; [done | done | tauto].
  - rewrite !total_app in *. cbn [total foldr fst] in *. lia.
Qed.

(** The hole at [total l + s1] is swallowed by the block before it. *)
Lemma shape_swallowed h h' l s1 u1 s2 r fl :
  shape h (l ++ (s1, u1) :: (s2, false) :: r) fl [total l + s1] → blocks_are h' ((l ++ (s1 + s2, u1) :: r) ++ tailer) → free_is h' fl → kept h h' →
  shape h' (l ++ (s1 + s2, u1) :: r) fl [].
Proof.
  intros S B' F K. replace [] with (filter (λ x, x ≠ total l + s1) [total l + s1]).
  - apply (shape_joined h h' l s1 u1 s2 r fl); [done | done | done | done |].
    intros z. split; [| tauto]. intros Hz. split; [done |]. intros ->. apply (sh_fl _ _ _ _ S) in Hz as (x & Ex & _ & Hx).
    apply Hx. replace x with (total l + s1) by lia. left.
  - rewrite filter_cons_False; [done | tauto].
Qed.
Lemma step_merge_prev h l s1 u1 s2 r fl :
  shape h (l ++ (s1, u1) :: (s2, false) :: r) fl [total l + s1] → let a := start_addr h + total l in
  ∃ h', merge_prev (a + s1) h = Ok h' ∧ shape h' (l ++ (s1 + s2, u1) :: r) fl [] ∧ kept h h' ∧ pv h' (a + s1) = Some a.
Proof.
  intros S a. pose proof (sh_blocks _ _ _ _ S) as B. rewrite <- app_assoc in B. cbn [app] in B.
  destruct (merge_prev_spec h l s1 u1 s2 false (r ++ tailer) B (tailer_behind r)) as (h' & E & B' & F & K & Hp).
  exists h'. split_and!; [done | | done | done]. apply (shape_swallowed h); [done | by rewrite <- app_assoc | apply F, S | done].
Qed.

(** The free block behind the one at [total l] is swallowed. *)
Lemma step_merge_next h l s1 u1 s2 r fl ho :
  shape h (l ++ (s1, u1) :: (s2, false) :: r) fl ho → total l + s1 ∉ ho →
  ∃ h' fl', merge_next (start_addr h + total l) h = Ok h' ∧ shape h' (l ++ (s1 + s2, u1) :: r) fl' ho ∧ kept h h'.
Proof.
  intros S Hno. pose proof (sh_blocks _ _ _ _ S) as B. rewrite <- app_assoc in B. cbn [app] in B.
  assert (Hfr : frees (l ++ (s1, u1) :: (s2, false) :: r) (total l + s1)).
  { rewrite cons_middle, app_assoc. replace (total l + s1) with (total (l ++ [(s1, u1)])) by (rewrite total_app; cbn; lia).
    apply frees_here. pose proof (shape_big _ _ _ _ S) as Hb. rewrite cons_middle, app_assoc in Hb. by apply Forall_app in Hb as [? _]. }
  destruct (list_elem_of_split fl (start_addr h + (total l + s1))) as (fa & fb & Ef).
  { apply (sh_fl _ _ _ _ S). by exists (total l + s1). }
  pose proof (sh_free _ _ _ _ S) as F. rewrite Ef, Z.add_assoc in F.
  destruct (merge_next_spec h l s1 u1 s2 false (r ++ tailer) fa fb B (tailer_behind r) F) as (h' & E & B' & F' & K).
  exists h', (fa ++ fb). split_and!; [done | | done]. replace ho with (filter (λ x, x ≠ total l + s1) ho).
  - apply (shape_joined h h' l s1 u1 s2 r fl); [done | by rewrite <- app_assoc | done | done |].
    pose proof (fi_nodup _ _ F) as Hnd. apply NoDup_cons in Hnd as [_ Hnd]. rewrite <- Permutation_middle in Hnd.
    apply NoDup_cons in Hnd as [Hna _]. intros z. rewrite Ef, <- Z.add_assoc in *. rewrite !elem_of_app, elem_of_cons in *. split; [| tauto].
    intros Hz. split; [tauto |]. by intros ->.
  - clear -Hno. induction ho as [| x ho IH]; [done |]. apply not_elem_of_cons in Hno as [Hne Hno]. rewrite filter_cons_True by (by intros ->).
    by rewrite IH.
Qed.

(** The end of the block at [total l] becomes a hole. *)
Lemma step_cut h l s u r fl t :
  shape h (l ++ (s, u) :: r) fl [] → RT_MEMHEAP_SIZE <= t → RT_MEMHEAP_SIZE <= s - t → let a := start_addr h + total l in
  ∃ h', cut_block a (a + t) h = Ok h' ∧ shape h' (l ++ (t, u) :: (s - t, false) :: r) fl [total l + t] ∧ kept h h'.
Proof.
  intros S Ht Hst a. pose proof (sh_blocks _ _ _ _ S) as B. pose proof (big_sized _ (ba_sized _ _ B)) as Hs.
  rewrite <- app_assoc in B. cbn [app] in B.
  destruct (cut_block_spec h l s u (r ++ tailer) t B (tailer_behind r) Ht Hst) as (h' & E & B' & F & K).
  destruct (cut_facts l s u r t Hs Ht Hst) as (Hs' & Htot & Hnone & _).
  assert (Hnf : ¬ frees (l ++ (s, u) :: r) (total l + t)) by (intros [s' Hs0]; by rewrite Hnone in Hs0).
  exists h'. split_and!; [done | | done]. pose proof K as [(P1 & P2 & P3 & P4 & P5 & P6 & P7) _].
  assert (Hrange : 0 <= total l + t < pool_size h).
  { pose proof (sh_total _ _ _ _ S) as Htt. rewrite total_app in Htt. cbn [total foldr fst] in Htt.
    pose proof (shape_big _ _ _ _ S) as [Hl%total_big [_ Hr%total_big]%Forall_cons]%Forall_app. fold (total r) in Htt. unfold RT_MEMHEAP_SIZE in *. lia. }
  destruct S as [B0 Hf Hfl Hh Htt] eqn:ES. split; rewrite ?P2, ?P3, ?P7; [| | | done |].
  - rewrite <- app_assoc. exact B'.
  - apply F; [done |]. rewrite <- Z.add_assoc. apply (not_listed h _ fl _ _ S); [done |]. tauto.
  - intros z. rewrite Hfl. split; intros (x & -> & Hx & Hho); exists x; (split; [done |]).
    + split; [apply (frees_cut l s u r t x Hs Ht Hst); by left |]. rewrite list_elem_of_singleton. by intros ->.
    + rewrite list_elem_of_singleton in Hho. apply (frees_cut l s u r t x Hs Ht Hst) in Hx as [Hx | ?]; [| done].
      split; [done |]. by intros ?%elem_of_nil.
  - by rewrite Htot.
Qed.

(** Counters are not part of [shape]. *)
Lemma shape_counters h h' bs fl ho :
  items h' = items h → mh_self h' = mh_self h → start_addr h' = start_addr h → pool_size h' = pool_size h → free_list h' = free_list h →
  shape h bs fl ho → shape h' bs fl ho.
Proof.
  intros Ei E1 E2 E3 E4 [B F Hfl Hh Ht]. assert (Ef : ∀ A (π : memheap_item → A) z, fld π h' z = fld π h z) by (intros; unfold fld; by rewrite Ei).
  split; rewrite ?E2, ?E3, ?E4; [| | done | done | done].
  - apply (blocks_kept h); [| done]. by split.
  - apply (free_kept h); [| done]. by split.
Qed.
Lemma shape_available n h bs fl ho : shape h bs fl ho → shape (set_available n h) bs fl ho.
Proof. by apply shape_counters. Qed.
Lemma shape_account n h bs fl ho : shape h bs fl ho → shape (account n h) bs fl ho.
Proof. unfold account. intros S. destruct (_ <? _); by apply (shape_counters h). Qed.

(** The bytes of the free blocks. *)
Definition free_total (bs : list block) : Z := foldr (λ (b : block) n, (if b.2 then 0 else b.1 - RT_MEMHEAP_SIZE) + n) 0 bs.
Lemma free_total_app l r : free_total (l ++ r) = free_total l + free_total r.
Proof. induction l as [| [s u] l IH]; cbn [app free_total foldr]; [done |]. fold (free_total (l ++ r)) (free_total l). rewrite IH. lia. Qed.
Lemma free_total_bounds bs : block_sized bs → 0 <= free_total bs <= total bs.
Proof.
  induction bs as [| [s u] bs IH]; [done |]. intros [Hs Hb]%Forall_cons. apply IH in Hb. cbn [free_total total foldr fst snd] in *.
  fold (free_total bs) (total bs). unfold RT_MEMHEAP_SIZE in *. destruct u; lia.
Qed.

(** Sizes of blocks that the operations make. *)
Definition good_sizes (bs : list block) : Prop := Forall (λ b : block, RT_MEMHEAP_SIZE + RT_MEMHEAP_MINIALLOC <= b.1 ∧ b.1 mod 4 = 0) bs.

Record memheap_ok (h : memheap) (bs : list block) : Prop := {
  mo_shape : ∃ fl, shape h bs fl [];
  mo_sizes : good_sizes bs;
  mo_adj : no_adj bs;
  mo_available : available_size h = free_total bs;
  mo_max : pool_size h - available_size h <= max_used_size h;
  mo_pool : pool_size h < 4294967296 }.

(** The parts of the object that no operation but the counters changes. *)
Definition same_pool (h h' : memheap) : Prop := mh_self h' = mh_self h ∧ start_addr h' = start_addr h ∧ pool_size h' = pool_size h.
Lemma kept_pool h h' : kept h h' → same_pool h h' ∧ available_size h' = available_size h ∧ max_used_size h' = max_used_size h.
Proof. intros [(P1 & P2 & P3 & P4 & P5 & P6 & P7) _]. done. Qed.
Lemma same_pool_trans h1 h2 h3 : same_pool h1 h2 → same_pool h2 h3 → same_pool h1 h3.
Proof. unfold same_pool. intuition congruence. Qed.

(** The numbers of a block. *)
Lemma block_numbers h l s u r fl ho : shape h (l ++ (s, u) :: r) fl ho →
  0 <= start_addr h ∧ 0 <= total l ∧ 0 <= total r ∧ RT_MEMHEAP_SIZE <= s ∧
  total l + s + total r + RT_MEMHEAP_SIZE = pool_size h ∧ start_addr h + pool_size h <= 4294967296.
Proof.
  intros S. pose proof (sh_total _ _ _ _ S) as Ht. pose proof (ba_range _ _ (sh_blocks _ _ _ _ S)) as [H0 H1].
  pose proof (ba_sized _ _ (sh_blocks _ _ _ _ S)) as [[_ [Hs _]%Forall_cons]%Forall_app _]%Forall_app.
  pose proof (shape_big _ _ _ _ S) as [Hl%total_big [_ Hr%total_big]%Forall_cons]%Forall_app. rewrite !total_app in *.
  cbn [total foldr fst tailer] in *. fold (total r) in *. unfold RT_MEMHEAP_SIZE in *. lia.
Qed.

Lemma account_ok n h bs : 0 <= n <= free_total bs → available_size h = free_total bs → free_total bs <= pool_size h < 4294967296 →
  available_size (account n h) = free_total bs - n ∧ pool_size (account n h) - available_size (account n h) <= max_used_size (account n h) ∧
  same_pool h (account n h).
Proof.
  intros Hn Ha Hp. unfold account. set (h1 := set_available _ h).
  assert (E : available_size h1 = free_total bs - n) by (unfold h1; cbn; rewrite Ha; unfold u32; rewrite Z.mod_small; lia).
  assert (E2 : pool_size h1 = pool_size h) by done.
  assert (Eu : u32 (pool_size h1 - available_size h1) = pool_size h1 - available_size h1) by (unfold u32; rewrite Z.mod_small; lia).
  rewrite Eu. destruct (Z.ltb_spec (max_used_size h1) (pool_size h1 - available_size h1)); cbn [set_max_used available_size pool_size max_used_size];
    (split_and!; [done | lia | done]).
Qed.

(** ** Allocation *)
Lemma free_list_fits h bs fl ho : shape h bs fl ho → (length fl < base.size (items h))%nat.
Proof.
  intros S. pose proof (fi_nodup _ _ (sh_free _ _ _ _ S)) as Hnd.
  assert (Hsub : list_to_set (free_list h :: fl) ⊆ dom (items h)).
  { intros z Hz. apply elem_of_list_to_set in Hz. apply elem_of_dom. by apply (free_member h fl z (sh_free _ _ _ _ S)). }
  apply subseteq_size in Hsub. rewrite size_list_to_set, size_dom in Hsub by done. cbn in Hsub. lia.
Qed.

Lemma find_free_spec h bs fl size : shape h bs fl [] → ∀ rest pre fuel fs ptr a2,
  fl = pre ++ rest → rest ++ [free_list h] = ptr :: a2 → fs < size → (length rest <= fuel)%nat →
  (∃ x s, find_free fuel ptr fs size h = Ok (start_addr h + x, s - RT_MEMHEAP_SIZE) ∧ block_at 0 bs x = Some (s, false) ∧ size <= s - RT_MEMHEAP_SIZE) ∨
  (∃ fs', find_free fuel ptr fs size h = Ok (free_list h, fs') ∧ fs' < size ∧
     ∀ x s, start_addr h + x ∈ rest → block_at 0 bs x = Some (s, false) → s - RT_MEMHEAP_SIZE < size).
Proof.
  intros S. induction rest as [| p rest IH]; intros pre fuel fs ptr a2 Ef Ep Hfs Hfuel.
  - right. injection Ep as <- _. exists fs. split_and!; [| done | by intros x s ?%elem_of_nil].
    destruct fuel; cbn [find_free]; by rewrite Z.eqb_refl.
  - injection Ep as <- Ep. destruct fuel as [| fuel]; [cbn in Hfuel; lia |]. cbn [find_free].
    assert (Hp : p ∈ fl) by (rewrite Ef, elem_of_app; right; left).
    apply (sh_fl _ _ _ _ S) in Hp as (x & -> & Hx & _). pose proof (frees_range _ _ _ _ _ S Hx) as Hr.
    rewrite (proj2 (Z.eqb_neq _ _) (header_apart _ _ _ _ x S Hr)), (proj2 (Z.ltb_lt fs size)) by done. cbn [negb andb].
    destruct Hx as [s Hx]. destruct (block_item h _ x s false (sh_blocks _ _ _ _ S) (at_bs _ _ _ Hx)) as (it & Hi & _ & _).
    rewrite (get_item_ok h _ it Hi). cbn [mbind res_bind].
    pose proof Hx as (l & r & Eb & Ex)%block_at_split. rewrite Z.add_0_l in Ex. subst x.
    pose proof (sh_blocks _ _ _ _ S) as B. rewrite Eb, <- app_assoc in B. cbn [app] in B.
    destruct (block_size h l s false (r ++ tailer) it B (tailer_behind r) Hi) as [_ ->].
    destruct (Z.ltb_spec (s - RT_MEMHEAP_SIZE) size) as [Hlt | Hge].
    + assert (Hn : next_free it = match rest with [] => free_list h | q :: _ => q end).
      { pose proof (sh_free _ _ _ _ S) as [Hc Hnd]. rewrite Ef in Hc, Hnd. rewrite app_comm_cons, <- Permutation_middle, <- app_comm_cons in Hnd.
        apply NoDup_cons in Hnd as [_ Hnd]. destruct (place_around _ _ _ Hnd) as (a1 & x' & y & a2' & A).
        apply (cycle_at A) in Hc as (_ & _ & _ & Hc & _). unfold fld in Hc. rewrite Hi in Hc. injection Hc as Hc. rewrite Hc.
        pose proof (ar_right _ _ _ _ _ _ _ A) as Er. destruct rest; cbn in Er; congruence. }
      destruct (rest ++ [free_list h]) as [| q r'] eqn:Er; [by destruct rest |].
      assert (next_free it = q) as -> by (rewrite Hn; destruct rest; cbn in Er; congruence).
      destruct (IH (pre ++ [start_addr h + total l]) fuel (s - RT_MEMHEAP_SIZE) q r') as [H | (fs' & H & Hfs' & Hall)].
      * rewrite <- app_assoc. exact Ef.
      * done.
      * done.
      * cbn in Hfuel. lia.
      * by left.
      * right. exists fs'. split_and!; [done | done |]. intros x' s' [E | Hin]%elem_of_cons Hx'; [| by eapply Hall].
        replace x' with (total l) in Hx' by lia. rewrite Hx in Hx'. by injection Hx' as <-.
    + left. exists (total l), s. split_and!; [| done | done].
      destruct fuel; cbn [find_free]; by rewrite (proj2 (Z.ltb_ge (s - RT_MEMHEAP_SIZE) size)), andb_false_r.
Qed.

Lemma good_sized bs : good_sizes bs → block_sized bs.
Proof. intros H. eapply Forall_impl; [exact H |]. intros b [Hb _]. unfold RT_MEMHEAP_SIZE, RT_MEMHEAP_MINIALLOC in *. cbn beta. lia. Qed.

(** Marking as used, as the code writes it. *)
Lemma mark_used h l s r fl ho : shape h (l ++ (s, false) :: r) fl (total l :: ho) → total l ∉ ho →
  ∃ it h', get_item (start_addr h + total l) h = Ok it ∧ set_magic (Z.lor (magic it) RT_MEMHEAP_USED) (start_addr h + total l) h = Ok h' ∧
    shape h' (l ++ (s, true) :: r) fl ho ∧ kept h h'.
Proof.
  intros S Hno. pose proof (shape_big _ _ _ _ S) as [Hl _]%Forall_app.
  destruct (block_item h _ (total l) s false (sh_blocks _ _ _ _ S)) as (it & Hi & Hm & _); [by apply at_bs, block_here |].
  destruct (step_use h l r fl s ho S Hno) as (h' & E & S' & K). exists it, h'. split_and!; [by apply get_item_ok | | done | done].
  rewrite Hm. exact E.
Qed.

Section take.
Context (h : memheap) (l : list block) (s : Z) (r : list block) (size : Z).
Hypotheses (H : memheap_ok h (l ++ (s, false) :: r)) (Hmin : RT_MEMHEAP_MINIALLOC <= size) (Hm4 : size mod 4 = 0)
  (Hfit : size <= s - RT_MEMHEAP_SIZE).

Definition took (h' : memheap) (bs' : list block) (t : Z) : Prop :=
  take_item (start_addr h + total l) (s - RT_MEMHEAP_SIZE) size h = Ok h' ∧ memheap_ok h' bs' ∧
  taken (l ++ (s, false) :: r) (total l) t bs' ∧ size + RT_MEMHEAP_SIZE <= t ∧ same_pool h h'.

Lemma take_facts : ∃ fl, shape h (l ++ (s, false) :: r) fl [] ∧ 0 <= start_addr h ∧ 0 <= total l ∧ 0 <= total r ∧
  total l + s + total r + 24 = pool_size h ∧ start_addr h + pool_size h <= 4294967296 ∧ pool_size h < 4294967296 ∧
  0 <= free_total l <= total l ∧ 0 <= free_total r <= total r ∧ available_size h = free_total l + (s - 24) + free_total r ∧
  good_sizes l ∧ good_sizes r ∧ 36 <= s ∧ s mod 4 = 0 ∧ 12 <= size ∧ size <= s - 24 ∧ u32 (size + 24 + 12) = size + 36.
Proof using H Hmin Hm4 Hfit.
  destruct H as [[fl S] Hgs Hadj Hav Hmax Hpool]. pose proof (block_numbers _ _ _ _ _ _ _ S) as (N1 & N2 & N3 & N4 & N5 & N6).
  pose proof (good_sized _ Hgs) as [Hszl%free_total_bounds [_ Hszr%free_total_bounds]%Forall_cons]%Forall_app.
  pose proof Hgs as [Hgl [[Hs36 Hs4] Hgr]%Forall_cons]%Forall_app. cbn [fst] in Hs36, Hs4.
  rewrite free_total_app in Hav. cbn [free_total foldr fst snd] in Hav. fold (free_total r) in Hav.
  unfold RT_MEMHEAP_SIZE, RT_MEMHEAP_MINIALLOC in *. exists fl.
  split_and!; try done; try lia. unfold u32. rewrite Z.mod_small; lia.
Qed.

Lemma take_split : size + 36 <= s - 24 → ∃ h' bs' t, took h' bs' t.
Proof using H Hmin Hm4 Hfit.
  intros Hsplit. destruct take_facts as (fl & S & N1 & N2 & N3 & N5 & N6 & Hpool & Hszl & Hszr & Hav & Hgl & Hgr & Hs36 & Hs4 & Hmin' & Hfit' & Eu).
  pose proof H as [_ Hgs Hadj Hft Hmax _]. pose proof (sized_big _ (good_sized _ Hgs)) as Hb. rewrite Hft in Hav.
  unfold took, take_item, RT_MEMHEAP_SIZE, RT_MEMHEAP_MINIALLOC. rewrite Eu, (proj2 (Z.leb_le (size + 36) (s - 24))) by done.
  set (t := size + 24). replace (u32 (start_addr h + total l + size + 24)) with (start_addr h + total l + t) by (unfold u32, t; rewrite Z.mod_small; lia).
  destruct (step_cut h l s false r fl t S) as (h1 & E1 & S1 & K1); [unfold t, RT_MEMHEAP_SIZE; lia..|]. rewrite E1. cbn [mbind res_bind].
  destruct (kept_pool _ _ K1) as [(Q1 & Q2 & Q3) [Qa Qm]]. rewrite <- Q2.
  destruct (step_unlink h1 l ((s - t, false) :: r) fl t [total l + t] S1) as (h2 & fl2 & E2 & S2 & K2).
  { rewrite list_elem_of_singleton. unfold t. lia. }
  rewrite E2. cbn [mbind res_bind]. destruct (kept_pool _ _ K2) as [(R1 & R2 & R3) [Ra Rm]]. rewrite <- R2.
  destruct (step_clear h2 l ((s - t, false) :: r) fl2 t [total l + t] S2) as (h3 & E3 & S3 & K3). rewrite E3. cbn [mbind res_bind].
  destruct (kept_pool _ _ K3) as [(T1 & T2 & T3) [Ta Tm]]. rewrite <- T2.
  assert (Etl : total (l ++ [(t, false)]) = total l + t) by (rewrite total_app; cbn; lia).
  assert (S3' : shape h3 ((l ++ [(t, false)]) ++ (s - t, false) :: r) fl2 (total (l ++ [(t, false)]) :: [total l])).
  { rewrite <- app_assoc, Etl. cbn [app]. destruct S3 as [B F Hfl Hh Ht]. split; try done. intros z. rewrite Hfl.
    setoid_rewrite not_elem_of_cons. setoid_rewrite list_elem_of_singleton. split; intros (x & ? & ? & ? & ?); exists x; tauto. }
  destruct (step_link h3 (l ++ [(t, false)]) r fl2 (s - t) [total l] S3') as (h4 & E4 & S4 & K4).
  { rewrite list_elem_of_singleton, Etl. unfold t. lia. }
  rewrite Etl, Z.add_assoc in E4. rewrite E4. cbn [mbind res_bind]. destruct (kept_pool _ _ K4) as [(U1 & U2 & U3) [Ua Um]].
  rewrite <- app_assoc in S4. cbn [app] in S4.
  destruct (account_ok t h4 (l ++ (s, false) :: r)) as (A1 & A2 & A3 & A4 & A5); [unfold t; lia | congruence | lia |].
  pose proof (shape_account t _ _ _ _ S4) as S5. rewrite <- U2, <- A4.
  destruct (mark_used _ l t ((s - t, false) :: r) _ [] S5) as (it & h5 & Eg & E5 & S6 & K5); [by intros ?%elem_of_nil |].
  rewrite Eg. cbn [mbind res_bind]. rewrite E5. destruct (kept_pool _ _ K5) as [(V1 & V2 & V3) [Va Vm]].
  exists h5, (l ++ (t, true) :: (s - t, false) :: r), t. split_and!; [done | | | unfold t; lia | unfold same_pool; split_and!; congruence].
  - assert (Htk : taken (l ++ (t + (s - t), false) :: r) (total l) t (l ++ (t, true) :: (s - t, false) :: r)).
    { apply taken_split; [unfold SIZEOF_STRUCT_MEM, t; lia.. | |]; by replace (t + (s - t)) with s by lia. }
    split; [by eexists | | apply Htk | | |].
    + apply Forall_app. split; [done |]. constructor; [cbn [fst]; unfold t, RT_MEMHEAP_SIZE, RT_MEMHEAP_MINIALLOC; lia |].
      constructor; [cbn [fst]; unfold t, RT_MEMHEAP_SIZE, RT_MEMHEAP_MINIALLOC; lia | done].
    + rewrite Va, A1, Hav, free_total_app. cbn [free_total foldr fst snd]. fold (free_total r). unfold t, RT_MEMHEAP_SIZE. lia.
    + rewrite V3, Va, Vm. lia.
    + congruence.
  - pose proof (taken_split l t (s - t) r) as Htk. replace (t + (s - t)) with s in Htk by lia. apply Htk; [unfold SIZEOF_STRUCT_MEM, t; lia.. | done | done].
Qed.

Lemma take_whole : s - 24 < size + 36 → ∃ h' bs' t, took h' bs' t.
Proof using H Hmin Hm4 Hfit.
  intros Hwhole. destruct take_facts as (fl & S & N1 & N2 & N3 & N5 & N6 & Hpool & Hszl & Hszr & Hav & Hgl & Hgr & Hs36 & Hs4 & Hmin' & Hfit' & Eu).
  pose proof H as [_ Hgs Hadj Hft Hmax _]. pose proof (sized_big _ (good_sized _ Hgs)) as Hb. rewrite Hft in Hav.
  unfold took, take_item, RT_MEMHEAP_SIZE, RT_MEMHEAP_MINIALLOC. rewrite Eu, (proj2 (Z.leb_gt (size + 36) (s - 24))) by done.
  destruct (account_ok (s - 24) h (l ++ (s, false) :: r)) as (A1 & A2 & A3 & A4 & A5); [lia | done | lia |].
  pose proof (shape_account (s - 24) _ _ _ _ S) as S1. rewrite <- A4.
  destruct (step_unlink _ l r fl s [] S1) as (h2 & fl2 & E2 & S2 & K2); [by intros ?%elem_of_nil |].
  rewrite E2. cbn [mbind res_bind]. destruct (kept_pool _ _ K2) as [(R1 & R2 & R3) [Ra Rm]]. rewrite <- R2.
  destruct (step_clear h2 l r fl2 s [] S2) as (h3 & E3 & S3 & K3). rewrite E3. cbn [mbind res_bind].
  destruct (kept_pool _ _ K3) as [(T1 & T2 & T3) [Ta Tm]]. rewrite <- T2.
  destruct (mark_used _ l s r _ [] S3) as (it & h5 & Eg & E5 & S6 & K5); [by intros ?%elem_of_nil |].
  rewrite Eg. cbn [mbind res_bind]. rewrite E5. destruct (kept_pool _ _ K5) as [(V1 & V2 & V3) [Va Vm]].
  pose proof (taken_whole l s r Hb Hadj) as Htk.
  exists h5, (l ++ (s, true) :: r), s. split_and!; [done | | done | lia | unfold same_pool; split_and!; congruence].
  split; [by eexists | | apply Htk | | |].
  - apply Forall_app. split; [done |]. by constructor.
  - rewrite Va, Ta, Ra, A1, Hav, free_total_app. cbn [free_total foldr fst snd]. fold (free_total r). lia.
  - rewrite V3, Va, Vm, T3, Ta, Tm, R3, Ra, Rm. lia.
  - congruence.
Qed.

Lemma take_item_spec : ∃ h' bs' t, took h' bs' t.
Proof using H Hmin Hm4 Hfit.
  destruct (Z.le_gt_cases (size + 36) (s - 24)); [by apply take_split | apply take_whole; lia].
Qed.
End take.

(** ** Release *)

(** The item before a block: of the block before it, or the tailer. *)
Lemma prev_item h l s u r fl ho : shape h (l ++ (s, u) :: r) fl ho →
  ∃ it p, get_item (start_addr h + total l) h = Ok it ∧ get_item (prev it) h = Ok p ∧
    ((l = [] ∧ RT_MEMHEAP_IS_USED p = true) ∨
     ∃ l0 s0 u0, l = l0 ++ [(s0, u0)] ∧ prev it = start_addr h + total l0 ∧ RT_MEMHEAP_IS_USED p = u0).
Proof.
  intros S. pose proof (sh_blocks _ _ _ _ S) as B. pose proof (shape_big _ _ _ _ S) as Hb. pose proof Hb as [Hl _]%Forall_app.
  destruct (block_item h _ (total l) s u B) as (it & Hi & _); [by apply at_bs, block_here |].
  exists it. destruct l as [| [s0 u0] l0 _] using rev_ind.
  - destruct (block_links h ([] ++ (s, u) :: r) RT_MEMHEAP_SIZE true [] B) as (_ & Hp & _). unfold fld in Hp.
    change (total []) with 0 in *. rewrite (Z.add_0_r (start_addr h)) in *. rewrite Hi in Hp. injection Hp as Hp.
    destruct (block_item h _ (total ([] ++ (s, u) :: r)) RT_MEMHEAP_SIZE true B) as (p & Hpi & _).
    { apply (block_at_here _ RT_MEMHEAP_SIZE true [] 0). exact Hb. }
    exists p. rewrite Hp. split_and!; [by apply get_item_ok | by apply get_item_ok |].
    left. split; [done |]. eapply block_used; [exact B | | exact Hpi]. apply (block_at_here _ RT_MEMHEAP_SIZE true [] 0). exact Hb.
  - rewrite <- !app_assoc in B. cbn [app] in B. destruct (block_links h l0 s0 u0 _ B) as (_ & Hp & _).
    assert (Ea : start_addr h + total (l0 ++ [(s0, u0)]) = start_addr h + total l0 + s0) by (rewrite total_app; cbn; lia).
    unfold fld in Hp. rewrite <- Ea, Hi in Hp. injection Hp as Hp.
    assert (H0 : block_at 0 (l0 ++ (s0, u0) :: (s, u) :: r ++ tailer) (total l0) = Some (s0, u0)) by (apply block_here; by apply Forall_app in Hl as [? _]).
    destruct (block_item h _ _ _ _ B H0) as (p & Hpi & _). exists p. rewrite Hp. split_and!; [by apply get_item_ok | by apply get_item_ok |].
    right. exists l0, s0, u0. split_and!; [done | done |]. by eapply block_used.
Qed.

(** The item behind a block. *)
Lemma next_item h l s u r fl ho : shape h (l ++ (s, u) :: r) fl ho →
  ∃ it n, get_item (start_addr h + total l) h = Ok it ∧ items h !! (start_addr h + total l) = Some it ∧
    next it = start_addr h + total l + s ∧ MEMITEM_SIZE (start_addr h + total l) it = s - RT_MEMHEAP_SIZE ∧
    get_item (next it) h = Ok n ∧ RT_MEMHEAP_IS_USED n = match r with (_, u') :: _ => u' | [] => true end ∧
    magic it = RT_MEMHEAP_MAGIC + Z.b2z u ∧ pool_ptr it = mh_self h ∧ Z.land (magic n) RT_MEMHEAP_MASK = RT_MEMHEAP_MAGIC ∧
    match r with (s', _) :: _ => MEMITEM_SIZE (next it) n = s' - RT_MEMHEAP_SIZE | [] => True end.
Proof.
  intros S. pose proof (sh_blocks _ _ _ _ S) as B. pose proof (shape_big _ _ _ _ S) as Hb. pose proof Hb as [Hl _]%Forall_app.
  destruct (block_item h _ (total l) s u B) as (it & Hi & Hm & Hp); [by apply at_bs, block_here |].
  rewrite <- app_assoc in B. cbn [app] in B. destruct (block_size h l s u (r ++ tailer) it B (tailer_behind r) Hi) as [Hn Hsz].
  assert (Hbe : big (l ++ [(s, u)])).
  { rewrite cons_middle, app_assoc in Hb. by apply Forall_app in Hb as [? _]. }
  assert (Et : total (l ++ [(s, u)]) = total l + s) by (rewrite total_app; cbn; lia).
  destruct (r ++ tailer) as [| [s' u'] r'] eqn:Er; [by destruct r |].
  assert (H' : block_at 0 (l ++ (s, u) :: (s', u') :: r') (total l + s) = Some (s', u')).
  { rewrite cons_middle, app_assoc, <- Et. by apply block_here. }
  pose proof H' as Hx. apply (block_item h _ _ _ _ B) in Hx as (n & Hni & Hnm & _).
  exists it, n. rewrite Hn. rewrite Z.add_assoc in Hni. split_and!; try done.
  - by apply get_item_ok.
  - by apply get_item_ok.
  - assert (Hu : RT_MEMHEAP_IS_USED n = u') by (eapply block_used; [exact B | exact H' | by rewrite Z.add_assoc]). rewrite Hu.
    destruct r as [| [s2 u2] r2]; injection Er as <- <- _; done.
  - rewrite Hnm. by destruct u'.
  - destruct r as [| [s2 u2] r2]; [done |]. injection Er as <- <- Er. rewrite cons_middle, app_assoc in B.
    assert (Hni' : items h !! (start_addr h + total (l ++ [(s, u)])) = Some n) by (by rewrite Et, Z.add_assoc).
    destruct (block_size h (l ++ [(s, u)]) s2 u2 r' n B) as [_ Hs2]; [rewrite <- Er; apply tailer_behind | done |].
    by rewrite Et, Z.add_assoc in Hs2.
Qed.

(** The total of free bytes stays in range while blocks change. *)
Lemma free_total_pool h l s u r fl ho : shape h (l ++ (s, u) :: r) fl ho →
  0 <= free_total (l ++ (s, u) :: r) ∧ free_total (l ++ (s, u) :: r) + RT_MEMHEAP_SIZE <= pool_size h.
Proof.
  intros S. pose proof (free_total_bounds _ (big_sized _ (ba_sized _ _ (sh_blocks _ _ _ _ S)))). pose proof (sh_total _ _ _ _ S). lia.
Qed.
Lemma free_total_cons l s u r : free_total (l ++ (s, u) :: r) = free_total l + (if u then 0 else s - RT_MEMHEAP_SIZE) + free_total r.
Proof. rewrite free_total_app. cbn [free_total foldr fst snd]. fold (free_total r). lia. Qed.

(** One step of a release: the free block at [x] has grown to the list [bs'], in
    which the blocks in use are the same. *)
Definition same_live (bs bs' : list block) : Prop := ∀ y t, live bs' y t ↔ live bs y t.

Lemma merge_live l s1 s2 r : block_sized (l ++ (s1, false) :: (s2, false) :: r) →
  same_live (l ++ (s1, false) :: (s2, false) :: r) (l ++ (s1 + s2, false) :: r).
Proof. intros Hs y t. destruct (merge_facts l s1 s2 r 0 _ (sized_big _ Hs) eq_refl) as (_ & _ & _ & _ & _ & H). apply H. Qed.

Lemma join_prev_spec h l s r fl :
  shape h (l ++ (s, false) :: r) fl [total l] → available_size h = free_total (l ++ (s, false) :: r) → pool_size h < 4294967296 →
  ∃ h' l' s' ins, join_prev (start_addr h + total l) h = Ok (h', start_addr h + total l', ins) ∧ ¬ (no_adj l ∧ ends_free l') ∧
    shape h' (l' ++ (s', false) :: r) fl (if ins : bool then [total l'] else []) ∧
    available_size h' = free_total (l' ++ (s', false) :: r) ∧ max_used_size h' = max_used_size h ∧ same_pool h h' ∧
    same_live (l ++ (s, false) :: r) (l' ++ (s', false) :: r) ∧ (no_adj l → no_adj l') ∧ (good_sizes l → good_sizes l') ∧
    s <= s' ∧ available_size h <= available_size h' ∧ (s mod 4 = 0 → good_sizes l → s' mod 4 = 0).
Proof.
  intros S Hav Hpool. destruct (prev_item h l s false r fl _ S) as (it & p & Ei & Ep & Hp). unfold join_prev.
  rewrite Ei. cbn [mbind res_bind]. rewrite Ep. cbn [mbind res_bind].
  destruct Hp as [[-> Hu] | (l0 & s0 & u0 & -> & Epr & Hu)]; rewrite Hu; cbn [negb].
  { exists h, [], s, true. split_and!; try done. by intros [_ []]. }
  destruct u0; cbn [negb].
  { exists h, (l0 ++ [(s0, true)]), s, true. split_and!; try done. by intros [_ H%ends_free_snoc]. }
  assert (Et : total (l0 ++ [(s0, false)]) = total l0 + s0) by (rewrite total_app; cbn; lia). rewrite Et in *.
  rewrite <- app_assoc in *. cbn [app] in *. pose proof (free_total_pool h l0 s0 false _ _ _ S) as [Hf0 Hf1].
  pose proof (shape_available (u32 (available_size h + RT_MEMHEAP_SIZE)) _ _ _ _ S) as S1.
  destruct (step_merge_prev _ l0 s0 false s r fl S1) as (h2 & E2 & S2 & K2 & Hpv).
  cbn [start_addr set_available] in E2, Hpv. rewrite !Z.add_assoc. rewrite E2. cbn [mbind res_bind].
  apply fld_value in Hpv as (j & Hj & Hjp). rewrite (get_item_ok _ _ _ Hj). cbn [mbind res_bind]. rewrite Hjp.
  destruct (kept_pool _ _ K2) as [(Q1 & Q2 & Q3) [Qa Qm]]. cbn [set_available mh_self start_addr pool_size available_size max_used_size] in *.
  exists h2, l0, (s0 + s), false. pose proof (ba_sized _ _ (sh_blocks _ _ _ _ S)) as Hsz%big_sized.
  pose proof Hsz as [_ [Hs0 [Hs1 _]%Forall_cons]%Forall_cons]%Forall_app. cbn [fst] in Hs0, Hs1. unfold RT_MEMHEAP_SIZE in *.
  split_and!; try done.
  - intros [Hn He]. clear -Hn He. induction l0 as [| [s2 u2] l2 IH]; [done |]. destruct Hn as [H0 Hn].
    unfold ends_free in He, IH. rewrite reverse_cons in He.
    destruct l2 as [| b l2]; [cbn in He; destruct u2; [done |]; by apply H0 |]. apply IH; [done |].
    destruct (reverse (b :: l2)) as [| [? []] ?] eqn:E; try done. apply (f_equal length) in E. by rewrite length_reverse in E.
  - rewrite Qa, Hav. rewrite !free_total_cons in *. cbn [free_total foldr fst snd] in *. fold (free_total r) in *. unfold RT_MEMHEAP_SIZE, u32 in *. rewrite Z.mod_small; lia.
  - by apply merge_live.
  - by intros [? _]%no_adj_app.
  - by intros [? _]%Forall_app.
  - lia.
  - rewrite Qa. unfold u32. rewrite Z.mod_small; lia.
  - intros Hm [_ [[_ Hm0] _]%Forall_cons]%Forall_app. cbn [fst] in Hm0. lia.
Qed.

Lemma join_next_spec h l s r fl ho :
  shape h (l ++ (s, false) :: r) fl ho → (∀ x, x ∈ ho → x = total l) → available_size h = free_total (l ++ (s, false) :: r) → pool_size h < 4294967296 →
  ∃ h' s' r' fl', join_next (start_addr h + total l) h = Ok h' ∧ ¬ (no_adj r ∧ starts_free r') ∧
    shape h' (l ++ (s', false) :: r') fl' ho ∧
    available_size h' = free_total (l ++ (s', false) :: r') ∧ max_used_size h' = max_used_size h ∧ same_pool h h' ∧
    same_live (l ++ (s, false) :: r) (l ++ (s', false) :: r') ∧ (no_adj r → no_adj r') ∧ (good_sizes r → good_sizes r') ∧
    s <= s' ∧ available_size h <= available_size h' ∧ (s mod 4 = 0 → good_sizes r → s' mod 4 = 0).
Proof.
  intros S Hho Hav Hpool. destruct (next_item h l s false r fl _ S) as (it & n & Ei & _ & En & _ & Egn & Hu & _). unfold join_next.
  rewrite Ei. cbn [mbind res_bind]. rewrite Egn. cbn [mbind res_bind]. rewrite Hu.
  destruct r as [| [s2 [|]] r].
  - exists h, s, [], fl. split_and!; try done. by intros [_ []].
  - exists h, s, ((s2, true) :: r), fl. split_and!; try done. by intros [_ []].
  - cbn [negb]. pose proof (free_total_pool h l s false _ _ _ S) as [Hf0 Hf1].
    pose proof (shape_available (u32 (available_size h + RT_MEMHEAP_SIZE)) _ _ _ _ S) as S1.
    pose proof (ba_sized _ _ (sh_blocks _ _ _ _ S)) as Hsz%big_sized.
    pose proof Hsz as [_ [Hs0 [Hs1 _]%Forall_cons]%Forall_cons]%Forall_app. cbn [fst] in Hs0, Hs1.
    destruct (step_merge_next _ l s false s2 r fl ho S1) as (h2 & fl2 & E2 & S2 & K2).
    { intros Hin%Hho. unfold RT_MEMHEAP_SIZE in *. lia. }
    cbn [start_addr set_available] in E2. rewrite E2. destruct (kept_pool _ _ K2) as [(Q1 & Q2 & Q3) [Qa Qm]].
    cbn [set_available mh_self start_addr pool_size available_size max_used_size] in *.
    exists h2, (s + s2), r, fl2. unfold RT_MEMHEAP_SIZE in *. split_and!; try done.
    + intros [[H0 _] Hsf]. by apply H0.
    + rewrite Qa, Hav. rewrite !free_total_cons in *. cbn [free_total foldr fst snd] in *. fold (free_total r) in *. unfold RT_MEMHEAP_SIZE, u32 in *. rewrite Z.mod_small; lia.
    + by apply merge_live.
    + by intros [_ ?].
    + by intros [_ ?]%Forall_cons.
    + lia.
    + rewrite Qa. unfold u32. rewrite Z.mod_small; lia.
    + intros Hm [[_ Hm0] _]%Forall_cons. cbn [fst] in Hm0. lia.
Qed.

Lemma release_item_spec h l s r :
  memheap_ok h (l ++ (s, true) :: r) →
  ∃ h' bs', release_item (start_addr h + total l) h = Ok h' ∧ memheap_ok h' bs' ∧
    (∀ y t, live bs' y t ↔ live (l ++ (s, true) :: r) y t ∧ y ≠ total l) ∧ same_pool h h'.
Proof.
  intros [[fl S] Hgs Hadj Hav Hmax Hpool]. pose proof (good_sized _ Hgs) as Hsz. pose proof (sized_big _ Hsz) as [Hl _]%Forall_app.
  pose proof Hgs as [Hgl [[Hs36 Hs4] Hgr]%Forall_cons]%Forall_app. cbn [fst] in Hs36, Hs4.
  apply no_adj_app in Hadj as [Hal [_ Har]].
  destruct (next_item h l s true r fl _ S) as (it & n & Ei & _ & _ & Esz & _ & _ & Em & _). unfold release_item.
  rewrite Ei. cbn [mbind res_bind]. rewrite Em, Esz. change (Z.land (RT_MEMHEAP_MAGIC + Z.b2z true) (Z.lnot RT_MEMHEAP_USED)) with RT_MEMHEAP_MAGIC.
  destruct (step_free h l r fl s [] S) as (h1 & E1 & S1 & K1). rewrite E1. cbn [mbind res_bind].
  destruct (kept_pool _ _ K1) as [P1 [Qa Qm]]. pose proof P1 as (Q1 & Q2 & Q3).
  pose proof (free_total_pool h1 l s false _ _ _ S1) as [Hf0 Hf1].
  set (h2 := set_available _ h1). assert (S2 : shape h2 (l ++ (s, false) :: r) fl [total l]) by (by apply shape_available).
  assert (Ha2 : available_size h2 = free_total (l ++ (s, false) :: r) ∧ available_size h <= available_size h2).
  { unfold h2. cbn [set_available available_size]. rewrite Qa, Hav. rewrite !free_total_cons in *. unfold u32, RT_MEMHEAP_SIZE, RT_MEMHEAP_MINIALLOC in *.
    rewrite Z.mod_small; lia. }
  destruct Ha2 as [Ha2 Hm2]. rewrite <- Q2. change (start_addr h1) with (start_addr h2).
  destruct (join_prev_spec h2 l s r fl S2 Ha2) as (h3 & l' & s' & ins & -> & He & S3 & Ha3 & Hx3 & (T1 & T2 & T3) & L3 & Hal' & Hgl' & Hs' & Hm3 & Hs4').
  { change (pool_size h2) with (pool_size h1). congruence. }
  cbn [mbind res_bind]. rewrite <- T2.
  destruct (join_next_spec h3 l' s' r fl _ S3) as (h4 & s'' & r' & fl' & E4 & Hst & S4 & Ha4 & Hx4 & (U1 & U2 & U3) & L4 & Har' & Hgr' & Hs'' & Hm4 & Hs4'').
  { destruct ins; [intros x; by rewrite list_elem_of_singleton | by intros x ?%elem_of_nil]. }
  { done. }
  { change (pool_size h2) with (pool_size h1) in T3. congruence. }
  rewrite E4. cbn [mbind res_bind].
  assert (Hfin : ∃ h5 fl5, (if ins then relink_free (start_addr h3 + total l') h4 else Ok h4) = Ok h5 ∧
    shape h5 (l' ++ (s'', false) :: r') fl5 [] ∧ kept h4 h5).
  { destruct ins; [| by exists h4, fl'; split_and!; [done | done | split; [by unfold same_params | done]]].
    rewrite <- U2. destruct (step_link h4 l' r' fl' s'' [] S4) as (h5 & E5 & S5 & K5); [by intros ?%elem_of_nil | eauto]. }
  destruct Hfin as (h5 & fl5 & -> & S5 & K5). destruct (kept_pool _ _ K5) as [(V1 & V2 & V3) [Va Vm]].
  exists h5, (l' ++ (s'', false) :: r'). split_and!; [done | | |].
  - split; [by eexists | | | congruence | |].
    + apply Forall_app. split; [by apply Hgl' |]. constructor; [| by apply Hgr']. cbn [fst]. unfold RT_MEMHEAP_SIZE, RT_MEMHEAP_MINIALLOC in *. split; [lia | auto].
    + apply no_adj_join; [by apply Hal' | by apply Har' | tauto | tauto].
    + rewrite V3, Va, Vm, U3, Hx4, T3, Hx3. change (pool_size h2) with (pool_size h1). change (max_used_size h2) with (max_used_size h1). lia.
    + change (pool_size h2) with (pool_size h1) in T3. congruence.
  - intros y t. rewrite (L4 y t), (L3 y t). by apply live_free.
  - change (pool_size h2) with (pool_size h1) in T3. change (mh_self h2) with (mh_self h1) in T1. change (start_addr h2) with (start_addr h1) in T2.
    unfold same_pool. split_and!; congruence.
Qed.
