(* ===== verification/MemHeapProps.v ===== *)
(** * Properties of the memory heaps

    What [rt_memheap_alloc], [rt_memheap_free] and [rt_memheap_realloc] (MemHeap.v)
    promise a client, for one call and for every sequence of calls, and where they
    fall short. *)
From S2P Require Import Prelude KMemory Links Timer KObject Kernel ThreadProps Ipc Semaphore MemPool Heap HeapProps MemHeap.
Local Open Scope Z_scope.

(** ** Resizing in place *)

Lemma drop_block_spec h l s1 u1 s2 u2 r :
  blocks_are h (l ++ (s1, u1) :: (s2, u2) :: r) → r ≠ [] → let a := start_addr h + total l in
  ∃ h', drop_block (a + s1) h = Ok h' ∧ blocks_are h' (l ++ (s1 + s2, u1) :: r) ∧
    (∀ fl, free_is h fl → free_is h' fl) ∧ kept h h'.
Proof.
  intros B Hr a. destruct (pair_links h l s1 u1 s2 u2 r B Hr) as (_ & Hp & Hn & Ha & Hm & Hy & N1 & N2 & N3). fold a in Hp, Hn, Ha, Hm, Hy, N1, N2, N3.
  destruct Hm as [i Hi]. assert (Hip : prev i = a) by (unfold fld in Hp; rewrite Hi in Hp; by injection Hp).
  assert (Hin : next i = a + s1 + s2) by (unfold fld in Hn; rewrite Hi in Hn; by injection Hn).
  unfold drop_block. rewrite (get_item_ok h _ i Hi). cbn [mbind res_bind]. rewrite Hip, Hin. unfold set_next, set_prev.
  destruct (set_field_ok (λ i, mk_item (magic i) (pool_ptr i) (next i) a (next_free i) (prev_free i)) (a + s1 + s2) h Hy) as (h1 & -> & E1).
  cbn [mbind res_bind]. assert (Hi1 : items h1 !! (a + s1) = Some i) by (rewrite (ed_items _ _ _ E1), Hi; cbn; by rewrite (proj2 (Z.eqb_neq (a + s1) (a + s1 + s2))) by lia).
  rewrite (get_item_ok h1 _ i Hi1). cbn [mbind res_bind]. rewrite Hip, Hin.
  destruct (set_field_ok (λ i, mk_item (magic i) (pool_ptr i) (a + s1 + s2) (prev i) (next_free i) (prev_free i)) a h1) as (h2 & -> & E2).
  { by apply (edited_some _ _ _ _ E1). }
  pose proof (edited_trans _ _ _ _ _ E1 E2) as E. exists h2. split_and!; [done | | | by eapply edited_kept].
  - eapply (join_blocks h h2); [exact B | done |]. eapply edited_ext; [exact E |]. intros z []. cbn. fold a.
    by destruct (z =? a), (z =? a + s1 + s2).
  - intros fl. apply free_kept. eapply edited_free; [exact E |]. intros z []. cbn. by destruct (z =? a), (z =? a + s1 + s2).
Qed.

Lemma step_drop h l s1 u1 s2 r fl :
  shape h (l ++ (s1, u1) :: (s2, false) :: r) fl [total l + s1] →
  ∃ h', drop_block (start_addr h + total l + s1) h = Ok h' ∧ shape h' (l ++ (s1 + s2, u1) :: r) fl [] ∧ kept h h'.
Proof.
  intros S. pose proof (sh_blocks _ _ _ _ S) as B. rewrite <- app_assoc in B. cbn [app] in B.
  destruct (drop_block_spec h l s1 u1 s2 false (r ++ tailer) B (tailer_behind r)) as (h' & E & B' & F & K).
  exists h'. split_and!; [done | | done]. apply (shape_swallowed h); [done | by rewrite <- app_assoc | apply F, S | done].
Qed.

(** The blocks in use after the one at [x] got the size [t]. *)
Definition resized (bs : list block) (x t : Z) (bs' : list block) : Prop :=
  ∀ y k, live bs' y k ↔ live bs y k ∧ y ≠ x ∨ y = x ∧ k = t.

(** The rest of a block is linked as a free block. *)
Lemma finish_cut h l s r t fl : shape h (l ++ (s, true) :: r) fl [] → RT_MEMHEAP_SIZE <= t → RT_MEMHEAP_SIZE <= s - t →
  let a := start_addr h + total l in
  ∃ h1, cut_block a (a + t) h = Ok h1 ∧ kept h h1 ∧ shape h1 ((l ++ [(t, true)]) ++ (s - t, false) :: r) fl [total (l ++ [(t, true)])] ∧
    a + t = start_addr h1 + total (l ++ [(t, true)]).
Proof.
  intros S Ht Hst a. destruct (step_cut h l s true r fl t S Ht Hst) as (h1 & E1 & S1 & K1). destruct (kept_pool _ _ K1) as [(_ & Q2 & _) _].
  assert (Etl : total (l ++ [(t, true)]) = total l + t) by (rewrite total_app; cbn; lia).
  exists h1. rewrite Etl, Q2. split_and!; [done | done | | unfold a; lia]. by rewrite <- app_assoc.
Qed.

Lemma resized_cut l s t r : big (l ++ (s, true) :: r) → SIZEOF_STRUCT_MEM < t → SIZEOF_STRUCT_MEM < s - t →
  resized (l ++ (s, true) :: r) (total l) t (l ++ (t, true) :: (s - t, false) :: r).
Proof. intros Hb Ht Hst y k. destruct (cut_live l s t r y k Hb Ht Hst) as [H _]. by rewrite <- app_assoc in H. Qed.

(** A block joined with the free block behind it, and cut at [t]. *)
Lemma resized_join l s s2 t r : block_sized (l ++ (s, true) :: (s2, false) :: r) → RT_MEMHEAP_SIZE <= t → RT_MEMHEAP_SIZE <= s + s2 - t →
  resized (l ++ (s, true) :: (s2, false) :: r) (total l) t (l ++ (t, true) :: (s + s2 - t, false) :: r).
Proof.
  intros Hs Ht Hst. pose proof Hs as [Hsl [Hs1 [Hs2 Hsr]%Forall_cons]%Forall_cons]%Forall_app. cbn [fst] in Hs1, Hs2.
  assert (Hb : big (l ++ (s + s2, true) :: r)).
  { apply sized_big, Forall_app. split; [done |]. constructor; [cbn; unfold RT_MEMHEAP_SIZE in *; lia | done]. }
  unfold RT_MEMHEAP_SIZE in *. intros y k.
  pose proof (resized_cut l (s + s2) t r Hb ltac:(unfold SIZEOF_STRUCT_MEM; lia) ltac:(unfold SIZEOF_STRUCT_MEM; lia) y k) as H1.
  pose proof (resized_cut l (s + s2) s r Hb ltac:(unfold SIZEOF_STRUCT_MEM; lia) ltac:(unfold SIZEOF_STRUCT_MEM; lia) y k) as H2.
  replace (s + s2 - s) with s2 in H2 by lia. tauto.
Qed.

Lemma no_adj_cut l s u r t : no_adj l → no_adj r → ¬ starts_free r → no_adj (l ++ (t, true) :: (s, u) :: r).
Proof.
  intros Hl Hr Hs. induction l as [| [s0 u0] l IH]; cbn [app no_adj starts_free].
  - split; [by intros ? |]. by split.
  - destruct Hl as [H0 Hl]. split; [| by apply IH]. intros Hu. specialize (H0 Hu). by destruct l as [| [? []] ?].
Qed.
Lemma no_adj_parts l s u r : no_adj (l ++ (s, u) :: r) → no_adj l ∧ no_adj r.
Proof. intros [? [_ ?]]%no_adj_app. done. Qed.

Lemma expand_item_spec h l s s2 r n :
  memheap_ok h (l ++ (s, true) :: (s2, false) :: r) → n mod 4 = 0 → s - RT_MEMHEAP_SIZE < n →
  n + RT_MEMHEAP_MINIALLOC < s2 - RT_MEMHEAP_SIZE + (s - RT_MEMHEAP_SIZE) →
  let a := start_addr h + total l in let t := n + RT_MEMHEAP_SIZE in
  ∃ h', expand_item (a + RT_MEMHEAP_SIZE) a (a + s) (s - RT_MEMHEAP_SIZE) n h = Ok h' ∧
    memheap_ok h' (l ++ (t, true) :: (s + s2 - t, false) :: r) ∧ same_pool h h'.
Proof.
  intros [[fl S] Hgs Hadj Hav Hmax Hpool] Hn4 Hsn Hfit a t. pose proof (good_sized _ Hgs) as Hsz.
  pose proof Hgs as [Hgl [[Hs36 Hs4] [[Hs36' Hs4'] Hgr]%Forall_cons]%Forall_cons]%Forall_app. cbn [fst] in Hs36, Hs4, Hs36', Hs4'.
  apply no_adj_parts in Hadj as [Hal [Hns Har]]. pose proof (block_numbers _ _ _ _ _ _ _ S) as (N1 & N2 & _ & N4 & N5 & N6).
  pose proof (free_total_pool h l s true _ _ _ S) as [Hf0 Hf1]. rewrite free_total_cons in Hf0, Hf1, Hav. cbn [free_total foldr fst snd] in Hf0, Hf1, Hav.
  fold (free_total r) in Hf0, Hf1, Hav. pose proof Hsz as [Hszl%free_total_bounds [_ [_ Hszr%free_total_bounds]%Forall_cons]%Forall_cons]%Forall_app.
  cbn [total foldr fst] in N5. fold (total r) in N5. unfold RT_MEMHEAP_SIZE, RT_MEMHEAP_MINIALLOC in *.
  unfold expand_item. replace (u32 (n - (s - 24))) with (t - s) by (unfold u32, t; rewrite Z.mod_small; lia).
  destruct (account_ok (t - s) h (l ++ (s, true) :: (s2, false) :: r)) as (A1 & A2 & A3 & A4 & A5).
  { rewrite free_total_cons. cbn [free_total foldr fst snd]. fold (free_total r). unfold RT_MEMHEAP_SIZE, t. lia. }
  { rewrite free_total_cons. cbn [free_total foldr fst snd]. fold (free_total r). unfold RT_MEMHEAP_SIZE. lia. }
  { rewrite free_total_cons. cbn [free_total foldr fst snd]. fold (free_total r). unfold RT_MEMHEAP_SIZE. lia. }
  set (h1 := account (t - s) h) in *. assert (S1 : shape h1 (l ++ (s, true) :: (s2, false) :: r) fl []) by (by apply shape_account).
  assert (Etl : total (l ++ [(s, true)]) = total l + s) by (rewrite total_app; cbn; lia).
  rewrite cons_middle, app_assoc in S1. destruct (step_unlink h1 (l ++ [(s, true)]) r fl s2 [] S1) as (h2 & fl2 & E2 & S2 & K2); [by intros ?%elem_of_nil |].
  rewrite Etl, Z.add_assoc, A4 in E2. fold a in E2. rewrite E2. cbn [mbind res_bind]. destruct (kept_pool _ _ K2) as [(R1 & R2 & R3) [Ra Rm]].
  rewrite Etl, <- app_assoc in S2. cbn [app] in S2. destruct (step_drop h2 l s true s2 r fl2 S2) as (h3 & E3 & S3 & K3).
  rewrite R2, A4 in E3. fold a in E3. rewrite E3. cbn [mbind res_bind]. destruct (kept_pool _ _ K3) as [(T1 & T2 & T3) [Ta Tm]].
  replace (u32 (a + 24 + n)) with (a + t) by (unfold u32, a, t; rewrite Z.mod_small; lia).
  destruct (finish_cut h3 l (s + s2) r t fl2 S3) as (h4 & E4 & K4 & S4 & Ea); [unfold RT_MEMHEAP_SIZE, t; lia.. |].
  rewrite T2, R2, A4 in E4, Ea. fold a in E4, Ea. rewrite E4. cbn [mbind res_bind]. destruct (kept_pool _ _ K4) as [(U1 & U2 & U3) [Ua Um]].
  rewrite Ea. destruct (step_link h4 _ _ _ _ [] S4) as (h5 & E5 & S5 & K5); [by intros ?%elem_of_nil |]. rewrite E5.
  destruct (kept_pool _ _ K5) as [(V1 & V2 & V3) [Va Vm]]. rewrite <- app_assoc in S5. cbn [app] in S5.
  exists h5. split_and!; [done | | unfold same_pool; split_and!; congruence].
  split; [by eexists | | by apply no_adj_cut; [| | apply Hns] | | |].
  - apply Forall_app. split; [done |]. constructor; [cbn [fst]; unfold t, RT_MEMHEAP_SIZE, RT_MEMHEAP_MINIALLOC; lia |].
    constructor; [cbn [fst]; unfold t, RT_MEMHEAP_SIZE, RT_MEMHEAP_MINIALLOC; lia | done].
  - rewrite Va, Ua, Ta, Ra, A1, !free_total_cons. cbn [free_total foldr fst snd]. fold (free_total r). unfold RT_MEMHEAP_SIZE, t. lia.
  - rewrite V3, Va, Vm, U3, Ua, Um, T3, Ta, Tm, R3, Ra, Rm. lia.
  - congruence.
Qed.

(** The new block and the free block behind it, if any, as [shrink_item] joins them. *)
Lemma shrink_join h l s r fl : shape h (l ++ (s, false) :: r) fl [total l] → available_size h = free_total l + free_total r → pool_size h < 4294967296 →
  no_adj r → good_sizes r →
  ∃ h' s' r' fl', (new ← get_item (start_addr h + total l) h; n ← get_item (next new) h;
      (if negb (RT_MEMHEAP_IS_USED n) then merge_next (start_addr h + total l) (set_available (u32 (available_size h - MEMITEM_SIZE (next new) n)) h) else Ok h)) = Ok h' ∧
    shape h' (l ++ (s', false) :: r') fl' [total l] ∧ ¬ starts_free r' ∧ no_adj r' ∧ good_sizes r' ∧
    available_size h' = free_total l + free_total r' ∧ max_used_size h' = max_used_size h ∧ same_pool h h' ∧
    same_live (l ++ (s, false) :: r) (l ++ (s', false) :: r') ∧ s <= s' ∧ s' mod 4 = s mod 4 ∧ s' + free_total r' = s + free_total r + (if decide (starts_free r) then RT_MEMHEAP_SIZE else 0).
Proof.
  intros S Hav Hpool Har Hgr. destruct (next_item h l s false r fl _ S) as (it & n & Ei & _ & _ & _ & Egn & Hu & _ & _ & _ & Hns).
  rewrite Ei. cbn [mbind res_bind]. rewrite Egn. cbn [mbind res_bind]. rewrite Hu.
  destruct r as [| [s2 [|]] r]; cbn [negb starts_free].
  - exists h, s, [], fl. split_and!; try done; try (by intros []); cbn; try lia. case_decide as Hd; [by destruct Hd | lia].
  - exists h, s, ((s2, true) :: r), fl. split_and!; try done; try (by intros []); cbn; try lia. case_decide as Hd; [by destruct Hd | lia].
  - rewrite Hns. set (h1 := set_available _ h). assert (S1 : shape h1 (l ++ (s, false) :: (s2, false) :: r) fl [total l]) by (by apply shape_available).
    pose proof (ba_sized _ _ (sh_blocks _ _ _ _ S)) as Hsz%big_sized. pose proof Hsz as [Hsl [Hs1 [Hs2 Hsr]%Forall_cons]%Forall_cons]%Forall_app. cbn [fst] in Hs1, Hs2.
    apply Forall_cons in Hgr as [[_ Hs4] Hgr]. cbn [fst] in Hs4. destruct Har as [Hns' Har].
    destruct (step_merge_next h1 l s false s2 r fl [total l] S1) as (h2 & fl2 & E2 & S2 & K2).
    { rewrite list_elem_of_singleton. unfold RT_MEMHEAP_SIZE in *. lia. }
    change (start_addr h1) with (start_addr h) in E2. rewrite E2. destruct (kept_pool _ _ K2) as [(Q1 & Q2 & Q3) [Qa Qm]].
    pose proof (free_total_pool h l s false _ _ _ S) as [Hf0 Hf1]. rewrite free_total_cons in Hf0, Hf1. cbn [free_total foldr fst snd] in Hf0, Hf1, Hav. fold (free_total r) in Hf0, Hf1, Hav.
    apply free_total_bounds in Hsl, Hsr. unfold RT_MEMHEAP_SIZE in *. exists h2, (s + s2), r, fl2. split_and!; try done.
    + by apply Hns'.
    + rewrite Qa. unfold h1. cbn [set_available available_size]. rewrite Hav. unfold u32. rewrite Z.mod_small; lia.
    + by apply merge_live.
    + lia.
    + lia.
    + rewrite decide_True by done. cbn [free_total foldr fst snd]. fold (free_total r). unfold RT_MEMHEAP_SIZE. lia.
Qed.

Lemma shrink_item_spec h l s r n :
  memheap_ok h (l ++ (s, true) :: r) → n mod 4 = 0 → RT_MEMHEAP_MINIALLOC <= n → n + RT_MEMHEAP_SIZE + RT_MEMHEAP_MINIALLOC < s - RT_MEMHEAP_SIZE →
  let t := n + RT_MEMHEAP_SIZE in
  ∃ h' bs', shrink_item (start_addr h + total l) n h = Ok h' ∧ memheap_ok h' bs' ∧ resized (l ++ (s, true) :: r) (total l) t bs' ∧ same_pool h h'.
Proof.
  intros [[fl S] Hgs Hadj Hav Hmax Hpool] Hn4 Hn Hfit t. pose proof (good_sized _ Hgs) as Hsz.
  pose proof Hgs as [Hgl [[Hs36 Hs4] Hgr]%Forall_cons]%Forall_app. cbn [fst] in Hs36, Hs4.
  apply no_adj_parts in Hadj as [Hal Har]. pose proof (block_numbers _ _ _ _ _ _ _ S) as (N1 & N2 & N3 & N4 & N5 & N6).
  pose proof (free_total_pool h l s true _ _ _ S) as [Hf0 Hf1]. rewrite free_total_cons in Hf0, Hf1, Hav.
  pose proof Hsz as [Hszl%free_total_bounds [_ Hszr%free_total_bounds]%Forall_cons]%Forall_app. unfold RT_MEMHEAP_SIZE, RT_MEMHEAP_MINIALLOC in *.
  unfold shrink_item. replace (u32 (start_addr h + total l + n + RT_MEMHEAP_SIZE)) with (start_addr h + total l + t) by (unfold u32, RT_MEMHEAP_SIZE, t; rewrite Z.mod_small; lia).
  destruct (finish_cut h l s r t fl S) as (h1 & E1 & K1 & S1 & Ea); [unfold RT_MEMHEAP_SIZE, t; lia.. |]. rewrite E1. cbn [mbind res_bind].
  destruct (kept_pool _ _ K1) as [(Q1 & Q2 & Q3) [Qa Qm]]. rewrite Ea. set (l' := l ++ [(t, true)]) in *.
  assert (Hfl' : free_total l' = free_total l) by (unfold l'; rewrite free_total_app; cbn; lia).
  destruct (shrink_join h1 l' (s - t) r fl S1) as (h2 & s' & r' & fl2 & E2 & S2 & Hns & Har' & Hgr' & Ha2 & Hx2 & (R1 & R2 & R3) & L2 & Hss & Hm4 & Hft); [rewrite Qa, Hav, Hfl'; lia | congruence | done | done |].
  revert E2. destruct (get_item (start_addr h1 + total l') h1) as [new | e]; [| done]. cbn [mbind res_bind].
  destruct (get_item (next new) h1) as [nn | e]; [| done]. cbn [mbind res_bind]. intros ->. cbn [mbind res_bind].
  rewrite <- R2. destruct (step_link h2 l' r' fl2 s' [] S2) as (h3 & E3 & S3 & K3); [by intros ?%elem_of_nil |]. rewrite E3. cbn [mbind res_bind].
  destruct (kept_pool _ _ K3) as [(T1 & T2 & T3) [Ta Tm]]. rewrite <- T2.
  destruct (next_item h3 l' s' false r' _ _ S3) as (it & n3 & Ei & _ & _ & Esz & _). rewrite Ei. cbn [mbind res_bind]. rewrite Esz.
  pose proof (free_total_pool h3 l' s' false _ _ _ S3) as [Hg0 Hg1]. rewrite free_total_cons, Hfl' in Hg0, Hg1. unfold RT_MEMHEAP_SIZE in *.
  set (h4 := set_available _ h3). assert (Ha4 : available_size h4 = free_total l + (s' - 24) + free_total r').
  { unfold h4. cbn [set_available available_size]. rewrite Ta, Ha2, Hfl'. unfold u32. rewrite Z.mod_small; [lia |].
    rewrite T3, R3, Q3 in Hg1. lia. }
  exists h4, (l' ++ (s', false) :: r'). split_and!; [done | | |].
  - assert (Hs4' : s' mod 4 = 0) by (rewrite Hm4; unfold t; lia). split; [eexists; by apply shape_available | | | | |].
    + apply Forall_app. split; [apply Forall_app; split; [done |]; constructor; [| constructor] | constructor; [| done]]; cbn [fst];
        unfold t, RT_MEMHEAP_SIZE, RT_MEMHEAP_MINIALLOC in *; lia.
    + unfold l'. rewrite <- app_assoc. cbn [app]. by apply no_adj_cut.
    + rewrite Ha4, free_total_cons, Hfl'. unfold RT_MEMHEAP_SIZE. lia.
    + rewrite Ha4. change (pool_size h4) with (pool_size h3). change (max_used_size h4) with (max_used_size h3).
      rewrite T3, Tm, R3, Hx2, Q3, Qm. unfold t in *. destruct (decide (starts_free r)); lia.
    + change (pool_size h4) with (pool_size h3). congruence.
  - intros y k. rewrite (L2 y k). unfold l'. rewrite <- app_assoc. apply resized_cut; [by apply sized_big | unfold SIZEOF_STRUCT_MEM, t; lia..].
  - unfold same_pool, h4. cbn [set_available mh_self start_addr pool_size]. split_and!; congruence.
Qed.

(** ** One call *)
Definition payload (h : memheap) (x : Z) : Z := start_addr h + x + RT_MEMHEAP_SIZE.

Lemma request_facts n : 0 <= n <= 4294967292 →
  n <= request n ∧ request n mod 4 = 0 ∧ RT_MEMHEAP_MINIALLOC <= request n <= 4294967292 ∧ request (request n) = request n.
Proof.
  intros Hn. unfold request, RT_MEMHEAP_MINIALLOC. assert (E : RT_ALIGN n = (n + 3) / 4 * 4) by (apply align_val; lia).
  rewrite E. destruct (Z.ltb_spec ((n + 3) / 4 * 4) 12) as [Hlt | Hge].
  - split_and!; [lia | done | lia | lia | done].
  - assert (E2 : RT_ALIGN ((n + 3) / 4 * 4) = (n + 3) / 4 * 4) by (rewrite align_val by lia; lia).
    rewrite E2, (proj2 (Z.ltb_ge ((n + 3) / 4 * 4) 12)) by lia. split_and!; lia.
Qed.

Lemma block_range h bs x s u : memheap_ok h bs → block_at 0 bs x = Some (s, u) →
  0 <= x ∧ x + s + RT_MEMHEAP_SIZE <= pool_size h ∧ 0 <= start_addr h ∧ start_addr h + pool_size h <= 4294967296 ∧
  RT_MEMHEAP_SIZE + RT_MEMHEAP_MINIALLOC <= s.
Proof.
  intros [[fl S] Hgs _ _ _ _] (l & r & -> & ->)%block_at_split. destruct (block_numbers _ _ _ _ _ _ _ S) as (N1 & N2 & N3 & N4 & N5 & N6).
  apply Forall_app in Hgs as [_ [[Hs _] _]%Forall_cons]. cbn [fst] in Hs. lia.
Qed.

Lemma rt_memheap_alloc_cases h bs size k : memheap_ok h bs → 0 <= size <= 4294967292 →
  (rt_memheap_alloc RT_EOK size h k = Ok (h, k, None) ∧
    (available_size h <= request size ∨ ∀ x s, block_at 0 bs x = Some (s, false) → s - RT_MEMHEAP_SIZE < request size)) ∨
  ∃ x s t h' bs', rt_memheap_alloc RT_EOK size h k = Ok (h', k, Some (payload h x)) ∧ block_at 0 bs x = Some (s, false) ∧
    taken bs x t bs' ∧ request size + RT_MEMHEAP_SIZE <= t ∧ memheap_ok h' bs' ∧ same_pool h h'.
Proof.
  intros H Hsize. destruct (request_facts size Hsize) as (R1 & R2 & R3 & _). unfold rt_memheap_alloc. set (rq := request size) in *.
  destruct (Z.ltb_spec rq (available_size h)) as [Hlt | Hge]; [| left; split; [done | by left]].
  cbn [RT_EOK Z.eqb negb]. pose proof H as [[fl S] _ _ _ _ _]. pose proof (sh_free _ _ _ _ S) as F. pose proof F as [Hc Hnd].
  destruct (fl ++ [free_list h]) as [| p a2] eqn:Ep; [by destruct fl |].
  assert (Hn : nxf h (free_list h) = Some p).
  { unfold cycle in Hc. rewrite Ep in Hc. apply Hc. }
  apply fld_value in Hn as (hd & Hhd & Hhn). rewrite (get_item_ok h _ hd Hhd). cbn [mbind res_bind]. rewrite Hhn.
  pose proof (free_list_fits h bs fl [] S) as Hfuel. unfold RT_MEMHEAP_MINIALLOC in R3.
  destruct (find_free_spec h bs fl rq S fl [] (base.size (items h)) 0 p a2) as [(x & s & -> & Hx & Hfit) | (fs' & -> & Hfs & Hall)]; [done | done | lia | lia | |].
  - right. cbn [mbind res_bind]. rewrite (proj2 (Z.leb_le rq (s - RT_MEMHEAP_SIZE))) by done.
    pose proof (block_range h bs x s false H Hx) as (N1 & N2 & N3 & N4 & _).
    pose proof Hx as (l & r & -> & Ex)%block_at_split. rewrite Z.add_0_l in Ex. subst x.
    destruct (take_item_spec h l s r rq H) as (h' & bs' & t & E & H' & Htk & Ht & Hp); [unfold RT_MEMHEAP_MINIALLOC; lia | done | done |].
    rewrite E. cbn [mbind res_bind]. exists (total l), s, t, h', bs'. split_and!; try done. do 3 f_equal. unfold payload, u32, RT_MEMHEAP_SIZE in *. rewrite Z.mod_small; lia.
  - left. cbn [mbind res_bind]. rewrite (proj2 (Z.leb_gt rq fs')) by done. split; [done |]. right. intros x s Hx. apply (Hall x s); [| done].
    apply (sh_fl _ _ _ _ S). exists x. split_and!; [done | by exists s | by intros ?%elem_of_nil].
Qed.

Lemma rt_memheap_free_live h bs x s k : memheap_ok h bs → live bs x s →
  ∃ h' bs', rt_memheap_free RT_EOK (Some (payload h x)) h k = Ok (h', k) ∧ memheap_ok h' bs' ∧
    (∀ y t, live bs' y t ↔ live bs y t ∧ y ≠ x) ∧ same_pool h h'.
Proof.
  intros H Hx. pose proof (block_range h bs x s true H Hx) as (N1 & N2 & N3 & N4 & N5).
  pose proof Hx as (l & r & -> & Ex)%block_at_split. rewrite Z.add_0_l in Ex. subst x. pose proof H as [[fl S] _ _ _ _ _].
  unfold rt_memheap_free, payload. replace (u32 (start_addr h + total l + RT_MEMHEAP_SIZE - RT_MEMHEAP_SIZE)) with (start_addr h + total l)
    by (unfold u32, RT_MEMHEAP_SIZE, RT_MEMHEAP_MINIALLOC in *; rewrite Z.mod_small; lia).
  destruct (next_item h l s true r fl _ S) as (it & n & Ei & _ & _ & _ & En & _ & Hm & Hp & Hnm & _).
  rewrite Ei. cbn [mbind res_bind]. unfold RT_MEMHEAP_IS_USED. rewrite Hm. cbn [Z.b2z]. rewrite En, Hp. cbn [mbind res_bind].
  rewrite Hnm, !Z.eqb_refl. cbn [rt_assert require mbind res_bind RT_EOK Z.eqb negb].
  change (Z.land (RT_MEMHEAP_MAGIC + 1) RT_MEMHEAP_MASK =? RT_MEMHEAP_MAGIC) with true.
  change (Z.land (RT_MEMHEAP_MAGIC + 1) RT_MEMHEAP_USED =? 0) with false. cbn [rt_assert require mbind res_bind negb].
  destruct (release_item_spec h l s r H) as (h' & bs' & E & H' & Hl & P). rewrite E. cbn [mbind res_bind]. eauto 10.
Qed.

(** The data memory behind a heap. *)
Record pool_mapped (h : memheap) (m : gmap Z Z) : Prop := {
  pm_bytes : bytes_ok m;
  pm_mapped : mapped m (start_addr h) (pool_size h);
  pm_small : pool_size h < 2147483648 }.
Lemma pool_mapped_keeps h h' m m' : same_pool h h' → keeps m m' → pool_mapped h m → pool_mapped h' m'.
Proof. intros (P1 & P2 & P3) [Hk1 Hk2] [Hb Hm Hs]. split; rewrite ?P2, ?P3; auto. Qed.

(** The block at [x] of [t] bytes has become one of at least [n] data bytes at [a]: the
    data is kept and no other block is touched. *)
Definition served (h : memheap) (bs : list block) (m : gmap Z Z) (x t n : Z) (h' : memheap) (m' : gmap Z Z) (a : Z) : Prop :=
  ∃ bs' y t', a = payload h y ∧ (∀ k, live bs y k → y = x) ∧ memheap_ok h' bs' ∧ n + RT_MEMHEAP_SIZE <= t' ∧
    (∀ z k, live bs' z k ↔ live bs z k ∧ z ≠ x ∨ z = y ∧ k = t') ∧
    (∀ i, 0 <= i < Z.min (t - RT_MEMHEAP_SIZE) n → m' !! (a + i) = m !! (payload h x + i)) ∧
    (∀ z k i, live bs z k → z ≠ x → 0 <= i < k - RT_MEMHEAP_SIZE → m' !! (payload h z + i) = m !! (payload h z + i)) ∧
    pool_mapped h' m' ∧ same_pool h h'.

(** In place: the blocks are [bs'] and no byte moves. *)
Lemma served_in_place h bs m x t n h' bs' t' :
  live bs x t → n + RT_MEMHEAP_SIZE <= t' → memheap_ok h' bs' → resized bs x t' bs' → pool_mapped h m → same_pool h h' →
  served h bs m x t n h' m (payload h x).
Proof.
  intros Hx Ht H' Hr Hm P. exists bs', x, t'. split_and!; try done.
  apply (pool_mapped_keeps h h' m m P); [| done]. by split.
Qed.

Lemma apart h bs x s u y t v : memheap_ok h bs → block_at 0 bs x = Some (s, u) → block_at 0 bs y = Some (t, v) → x ≠ y →
  x + s <= y ∨ y + t <= x.
Proof. intros H. apply blocks_disjoint, sized_big, good_sized, H. Qed.

Lemma move_item_spec h bs m k x t n :
  memheap_ok h bs → pool_mapped h m → live bs x t → 0 < n <= 4294967292 →
  ∃ h' m' p, move_item RT_EOK RT_EOK (payload h x) (t - RT_MEMHEAP_SIZE) n h m k = Ok (h', m', k, p) ∧
    match p with None => h' = h ∧ m' = m | Some a => served h bs m x t n h' m' a end.
Proof.
  intros H Hm Hx Hn. destruct (request_facts n ltac:(lia)) as (R1 & _). unfold move_item.
  destruct (rt_memheap_alloc_cases h bs n k H ltac:(lia)) as [[-> _] | (y & s1 & t1 & h1 & bs1 & -> & Hy & (Htt & _ & _ & Hl1 & _ & _) & Ht1 & H1 & P1)].
  { cbn [mbind res_bind]. by exists h, m, None. }
  cbn [mbind res_bind]. set (count := if t - RT_MEMHEAP_SIZE <? n then t - RT_MEMHEAP_SIZE else n).
  assert (Hcount : count = Z.min (t - RT_MEMHEAP_SIZE) n) by (unfold count; destruct (Z.ltb_spec (t - RT_MEMHEAP_SIZE) n); lia).
  assert (Hxy : x ≠ y) by (intros ->; unfold live in Hx; congruence).
  assert (Hyl : live bs1 y t1) by (by apply Hl1; right). pose proof (block_range _ _ _ _ _ H1 Hyl) as (Y1 & Y2 & _).
  pose proof (block_range _ _ _ _ _ H Hx) as (X1 & X2 & X3 & X4 & X5). destruct P1 as (Q1 & Q2 & Q3). rewrite Q3 in Y2.
  assert (Hdis : ∀ z j, live bs z j → y + t1 <= z ∨ z + j <= y).
  { intros z j Hz. assert (z ≠ y) by (intros ->; unfold live in Hz; congruence). apply or_comm. apply (apart h1 bs1 z j true y t1 true); [done | | done | done]. apply Hl1. by left. }
  pose proof (Hdis x t Hx) as Hxd. destruct Hm as [Hmb Hmm Hml]. unfold payload, RT_MEMHEAP_SIZE, RT_MEMHEAP_MINIALLOC in *.
  destruct (rt_memcpy_copied m (start_addr h + y + 24) (start_addr h + x + 24) count) as (m' & -> & Hcp & Hk);
    [lia | done | apply (mapped_sub m _ _ _ _ Hmm); lia | apply (mapped_sub m _ _ _ _ Hmm); lia | lia |].
  cbn [mbind res_bind]. destruct (rt_memheap_free_live h1 bs1 x t k H1) as (h2 & bs2 & E & H2 & Hl2 & P2); [by apply Hl1; left |].
  unfold payload, RT_MEMHEAP_SIZE in E. rewrite Q2 in E. rewrite E. cbn [mbind res_bind].
  exists h2, m', (Some (start_addr h + y + 24)). split; [done |]. exists bs2, y, t1. unfold payload, RT_MEMHEAP_SIZE. split_and!.
  - done.
  - intros j Hj. unfold live in Hj. congruence.
  - done.
  - lia.
  - intros z j. rewrite Hl2, Hl1. intuition congruence.
  - intros i Hi. rewrite Hcp, decide_True by lia. f_equal. lia.
  - intros z j i Hz Hzx Hi. rewrite Hcp, decide_False; [done |]. pose proof (Hdis z j Hz). lia.
  - apply (pool_mapped_keeps h h2 m m'); [eapply same_pool_trans; [by split_and! | done] | done | by split].
  - eapply same_pool_trans; [by split_and! | done].
Qed.

Lemma served_weaken h bs m x t n n' h' m' a : n <= n' → served h bs m x t n' h' m' a → served h bs m x t n h' m' a.
Proof.
  intros Hn (bs' & y & t' & ? & ? & ? & ? & ? & Hd & ? & ? & ?). exists bs', y, t'. split_and!; try done; [lia |].
  intros i Hi. apply Hd. lia.
Qed.

Lemma rt_memheap_realloc_cases h bs m k x t newsize :
  memheap_ok h bs → pool_mapped h m → live bs x t → 0 < newsize <= 4294967280 →
  ∃ h' m' p, rt_memheap_realloc RT_EOK RT_EOK RT_EOK (Some (payload h x)) newsize h m k = Ok (h', m', k, p) ∧
    match p with None => h' = h ∧ m' = m | Some a => served h bs m x t newsize h' m' a end.
Proof.
  intros H Hm Hx Hn. destruct (request_facts newsize ltac:(lia)) as (R1 & R2 & R3 & _). unfold rt_memheap_realloc.
  rewrite (proj2 (Z.eqb_neq newsize 0)) by lia. assert (R4 : request newsize <= 4294967280).
  { unfold request, RT_MEMHEAP_MINIALLOC. rewrite align_val by lia. destruct (_ <? _); lia. }
  set (n := request newsize) in *. pose proof (block_range _ _ _ _ _ H Hx) as (N1 & N2 & N3 & N4 & N5).
  assert (Hw : ∀ h' m' p, match p with None => h' = h ∧ m' = m | Some a => served h bs m x t n h' m' a end →
    match p with None => h' = h ∧ m' = m | Some a => served h bs m x t newsize h' m' a end).
  { intros h' m' [a |]; [by apply served_weaken | done]. }
  pose proof (move_item_spec h bs m k x t n H Hm Hx ltac:(lia)) as Hmove. pose proof (pm_small _ _ Hm) as Hsm.
  pose proof Hx as (l & r & Eb & Ex)%block_at_split. rewrite Z.add_0_l in Ex. pose proof H as [[fl S] _ _ _ _ _]. rewrite Eb in S.
  unfold payload in *. unfold RT_MEMHEAP_SIZE, RT_MEMHEAP_MINIALLOC in N2, N5, R3.
  replace (u32 (start_addr h + x + RT_MEMHEAP_SIZE - RT_MEMHEAP_SIZE)) with (start_addr h + x) by (unfold u32, RT_MEMHEAP_SIZE; rewrite Z.mod_small; lia).
  destruct (next_item h l t true r fl _ S) as (it & nn & Ei & _ & En & Esz & Egn & Hu & _ & _ & _ & Hns). rewrite <- Ex in Ei, En, Esz.
  rewrite Ei. cbn [mbind res_bind]. rewrite Esz. cbn [RT_EOK Z.eqb negb]. destruct (Z.ltb_spec (t - RT_MEMHEAP_SIZE) n) as [Hgrow | Hfits].
  - rewrite En in *. replace (start_addr h + x <? start_addr h + x + t) with true by (symmetry; apply Z.ltb_lt; lia).
    cbn [rt_assert require mbind res_bind]. rewrite Egn. cbn [mbind res_bind].
    replace (0 <? start_addr h + x + t) with true by (symmetry; apply Z.ltb_lt; lia). rewrite orb_true_r. cbn [rt_assert require mbind res_bind].
    rewrite Hu. destruct r as [| [s2 [|]] r]; cbn [negb andb]; [destruct Hmove as (h' & m' & p & -> & Hp); exists h', m', p; split; [done | by apply Hw].. |].
    rewrite Hns. destruct (Z.ltb_spec (u32 (n + RT_MEMHEAP_MINIALLOC)) (u32 (s2 - RT_MEMHEAP_SIZE + (t - RT_MEMHEAP_SIZE)))) as [Hexp | Hno];
      [| destruct Hmove as (h' & m' & p & -> & Hp); exists h', m', p; split; [done | by apply Hw]].
    assert (Hs2 : 24 <= s2 ∧ x + t + s2 <= pool_size h).
    { pose proof (sh_total _ _ _ _ S) as Htot. pose proof (shape_big _ _ _ _ S) as [_ [_ [_ Hbr%total_big]%Forall_cons]%Forall_cons]%Forall_app.
      pose proof (ba_sized _ _ (sh_blocks _ _ _ _ S)) as [_ [_ [Hb2 _]%Forall_cons]%Forall_cons]%big_sized%Forall_app.
      cbn [fst] in Hb2. unfold RT_MEMHEAP_SIZE in Hb2. rewrite total_app in Htot. cbn [total foldr fst] in Htot. fold (total r) in Htot. unfold RT_MEMHEAP_SIZE in Htot. lia. }
    unfold u32, RT_MEMHEAP_SIZE, RT_MEMHEAP_MINIALLOC in Hexp. rewrite !Z.mod_small in Hexp by lia.
    rewrite Eb in H. destruct (expand_item_spec h l t s2 r n H R2) as (h' & E & H' & P); [done | unfold RT_MEMHEAP_SIZE, RT_MEMHEAP_MINIALLOC; lia |].
    rewrite <- Ex in E. rewrite E. cbn [mbind res_bind]. eexists h', m, (Some _). split; [done |]. apply (Hw h' m (Some _)).
    eapply served_in_place; [done | reflexivity | exact H' | | done | done]. rewrite Eb, Ex. apply resized_join; [apply good_sized, H |..]; unfold RT_MEMHEAP_SIZE; lia.
  - unfold RT_MEMHEAP_SIZE, RT_MEMHEAP_MINIALLOC in Hfits. replace (u32 (n + RT_MEMHEAP_SIZE + RT_MEMHEAP_MINIALLOC)) with (n + 36)
      by (unfold u32, RT_MEMHEAP_SIZE, RT_MEMHEAP_MINIALLOC; rewrite Z.mod_small; lia).
    destruct (Z.leb_spec (t - RT_MEMHEAP_SIZE) (n + 36)) as [Hkeep | Hcut].
    + eexists h, m, (Some _). split; [done |]. apply (Hw h m (Some _)). eapply served_in_place; [done | | exact H | | done | done].
      * unfold RT_MEMHEAP_SIZE. instantiate (1 := t). lia.
      * intros z j. destruct (Z.eq_dec z x) as [-> |]; [unfold live in *; rewrite Hx |]; intuition congruence.
    + rewrite Eb in H. destruct (shrink_item_spec h l t r n H R2) as (h' & bs' & E & H' & Hr & P); [unfold RT_MEMHEAP_SIZE, RT_MEMHEAP_MINIALLOC in *; lia.. |].
      rewrite <- Ex in E. rewrite E. cbn [mbind res_bind]. eexists h', m, (Some _). split; [done |]. apply (Hw h' m (Some _)).
      eapply served_in_place; [done | reflexivity | exact H' | rewrite Eb, Ex; exact Hr | done | done].
Qed.

(** ** The properties of one call *)

(** On a well-formed memory heap [rt_memheap_alloc] terminates.  With a lock that
    fails it changes nothing but the error number.  Otherwise it gives the data of a
    former free block, at least [size] bytes, disjoint from every block in use, and
    the heap is well formed again with that block in use; or it gives null, changes
    nothing, and the free bytes are not more than the request or no free block is
    large enough. *)
Theorem rt_memheap_alloc_spec h bs lock size k : memheap_ok h bs → 0 <= size <= 4294967292 →
  (rt_memheap_alloc lock size h k = Ok (h, k, None) ∧
    (available_size h <= request size ∨ ∀ x s, block_at 0 bs x = Some (s, false) → s - RT_MEMHEAP_SIZE < request size)) ∨
  (lock ≠ RT_EOK ∧ rt_memheap_alloc lock size h k = Ok (h, rt_set_errno lock k, None)) ∨
  ∃ x t h' bs', rt_memheap_alloc lock size h k = Ok (h', k, Some (payload h x)) ∧ size + RT_MEMHEAP_SIZE <= t ∧
    (∀ y j, live bs y j → x + t <= y ∨ y + j <= x) ∧ memheap_ok h' bs' ∧ (∀ y j, live bs' y j ↔ live bs y j ∨ y = x ∧ j = t) ∧
    start_addr h <= payload h x ∧ payload h x + size <= start_addr h + pool_size h.
Proof.
  intros H Hsize. destruct (request_facts size Hsize) as (R1 & _). destruct (Z.eq_dec lock RT_EOK) as [-> | Hl].
  - destruct (rt_memheap_alloc_cases h bs size k H Hsize) as [[E Hno] | (x & s & t & h' & bs' & E & Hx & (_ & _ & _ & Hlive & _) & Ht & H' & P)]; [by left |].
    right; right. assert (Hxl : live bs' x t) by (by apply Hlive; right).
    destruct (block_range _ _ _ _ _ H' Hxl) as (Y1 & Y2 & _). destruct P as (_ & Q2 & Q3). rewrite Q3 in Y2.
    exists x, t, h', bs'. unfold payload, RT_MEMHEAP_SIZE in *. split_and!; try done; [lia | | lia | lia].
    intros y j Hy. assert (Hxy : x ≠ y) by (intros ->; unfold live in Hy; congruence).
    apply (apart h' bs' x t true y j true); [done | done | by apply Hlive; left | done].
  - unfold rt_memheap_alloc. destruct (Z.ltb_spec (request size) (available_size h)); [| left; split; [done | by left]].
    right; left. by rewrite (proj2 (Z.eqb_neq lock RT_EOK) Hl).
Qed.

(** Freeing a block in use never fails an assertion: it is joined with the free
    blocks next to it in both lists of the heap, every other block in use stays, and
    the heap is well formed with no two free blocks side by side. *)
Theorem rt_memheap_free_spec h bs x s k : memheap_ok h bs → live bs x s →
  ∃ h' bs', rt_memheap_free RT_EOK (Some (payload h x)) h k = Ok (h', k) ∧ memheap_ok h' bs' ∧ no_adj bs' ∧
    (∀ y t, live bs' y t ↔ live bs y t ∧ y ≠ x) ∧ start_addr h' = start_addr h.
Proof.
  intros H Hx. destruct (rt_memheap_free_live h bs x s k H Hx) as (h' & bs' & E & H' & Hl & P).
  exists h', bs'. split_and!; [done | done | apply H' | done | apply P].
Qed.

(** [rt_memheap_realloc] of a block in use never fails an assertion.  It gives null
    and changes nothing, or a block of at least the new size that starts with the old
    data, cut to the new size: the same block grown into the free block behind it,
    the same block with its rest freed, or another one.  Every other block in use
    keeps its place, size and contents. *)
Theorem rt_memheap_realloc_spec h bs m k x t newsize :
  memheap_ok h bs → pool_mapped h m → live bs x t → 0 < newsize <= 4294967280 →
  ∃ h' m' p, rt_memheap_realloc RT_EOK RT_EOK RT_EOK (Some (payload h x)) newsize h m k = Ok (h', m', k, p) ∧
    match p with None => h' = h ∧ m' = m | Some a => served h bs m x t newsize h' m' a end.
Proof. apply rt_memheap_realloc_cases. Qed.

(** ** A fresh heap *)
Lemma rt_memheap_init_ok i j self start size k h k' :
  rt_memheap_init i j self start size k = Ok (h, k') → 0 <= size < 4294967296 → 2 * RT_MEMHEAP_SIZE + RT_MEMHEAP_MINIALLOC <= RT_ALIGN_DOWN size →
  0 <= start → start + RT_ALIGN_DOWN size <= 4294967296 →
  self + free_header_offset < start ∨ start + RT_ALIGN_DOWN size <= self + free_header_offset →
  memheap_ok h [(RT_ALIGN_DOWN size - RT_MEMHEAP_SIZE, false)] ∧ start_addr h = start ∧ pool_size h = RT_ALIGN_DOWN size.
Proof.
  intros Hinit Hsize Hpool H0 Htop Hself. assert (Hal : RT_ALIGN_DOWN size mod 4 = 0 ∧ RT_ALIGN_DOWN size < 4294967296) by (rewrite align_down_val by lia; lia).
  unfold rt_memheap_init in Hinit. set (pool := RT_ALIGN_DOWN size) in *. set (hd := self + free_header_offset) in *.
  unfold RT_MEMHEAP_SIZE, RT_MEMHEAP_MINIALLOC in *.
  replace (u32 (pool - 2 * 24)) with (pool - 48) in Hinit by (unfold u32; rewrite Z.mod_small; lia).
  replace (u32 (start + (pool - 48) + 24)) with (start + (pool - 24)) in Hinit by (unfold u32; rewrite Z.mod_small; lia).
  replace (u32 (pool - (pool - 48))) with 48 in Hinit by (unfold u32; rewrite Z.mod_small; lia).
  set (e := start + (pool - 24)) in *.
  assert (N1 : hd ≠ start) by lia. assert (N2 : hd ≠ e) by (unfold e; lia). assert (N3 : start ≠ e) by (unfold e; lia).
  destruct (on_objects _ k) as [k1 | w]; [| done]. cbn [mbind res_bind] in Hinit.
  unfold set_next_free, set_prev_free, set_item, get_item in Hinit.
  repeat (progress cbn [of_option mbind res_bind items put_item next_free prev_free magic pool_ptr next prev] in Hinit
    || rewrite lookup_insert_eq in Hinit || rewrite lookup_insert_ne in Hinit by congruence).
  destruct (rt_sem_init j 1 RT_IPC_FLAG_FIFO k1) as [[sem k2] | w]; [| done]. cbn [mbind res_bind] in Hinit. injection Hinit as Hh _.
  rewrite <- Hh. clear Hh h. set (h := put_item e _ _).
  assert (Hhs : (hd =? start) = false ∧ (hd =? e) = false ∧ (start =? hd) = false ∧ (start =? e) = false ∧ (e =? hd) = false ∧ (e =? start) = false)
    by (rewrite !Z.eqb_neq; split_and!; congruence).
  destruct Hhs as (B1 & B2 & B3 & B4 & B5 & B6).
  assert (Hv : nx h start = Some e ∧ pv h e = Some start ∧ nx h e = Some start ∧ pv h start = Some e ∧
    nxf h hd = Some start ∧ pvf h start = Some hd ∧ nxf h start = Some hd ∧ pvf h hd = Some start ∧
    mg h start = Some (RT_MEMHEAP_MAGIC, self) ∧ mg h e = Some (RT_MEMHEAP_MAGIC + 1, self)).
  { unfold h. rewrite !fld_put. rewrite ?Z.eqb_refl, ?B1, ?B2, ?B3, ?B4, ?B5, ?B6. done. }
  destruct Hv as (V1 & V2 & V3 & V4 & V5 & V6 & V7 & V8 & V9 & V10).
  split; [| by split]. split.
  - exists [start]. split.
    + split.
      * change (start_addr h) with start. unfold cycle. cbn. fold e. by split_and!.
      * intros x s u. change (start_addr h) with start. cbn. destruct (Z.eqb_spec x 0) as [-> | Hx]; [intros [= <- <-]; by rewrite Z.add_0_r, V9 |].
        destruct (Z.eqb_spec x (0 + (pool - 24))) as [-> | Hx']; [intros [= <- <-]; exact V10 | done].
      * repeat constructor; cbn; unfold RT_MEMHEAP_SIZE; lia.
      * change (start_addr h) with start. cbn. unfold RT_MEMHEAP_SIZE. lia.
    + split; change (free_list h) with hd.
      * unfold cycle. cbn. by split_and!.
      * repeat constructor; set_solver.
    + intros z. change (start_addr h) with start. rewrite list_elem_of_singleton. split.
      * intros ->. exists 0. split_and!; [lia | by exists (pool - 24) | by intros ?%elem_of_nil].
      * intros (x & -> & [s Hx] & _). cbn in Hx. destruct (Z.eqb_spec x 0) as [-> |]; [lia | done].
    + exact Hself.
    + change (pool_size h) with pool. cbn. unfold RT_MEMHEAP_SIZE. lia.
  - repeat constructor; cbn [fst]; unfold RT_MEMHEAP_SIZE, RT_MEMHEAP_MINIALLOC; lia.
  - split; [by intros _ ? | done].
  - change (available_size h) with (pool - 48). cbn. unfold RT_MEMHEAP_SIZE. lia.
  - change (pool_size h) with pool. change (available_size h) with (pool - 48). change (max_used_size h) with 48. lia.
  - apply Hal.
Qed.

(** ** Any sequence of calls *)
Definition mh_client : Type := memheap * gmap Z Z * list (Z * Z).

Definition memheap_do (k : kernel) (op : heap_op) (c : mh_client) : res mh_client :=
  let '(h, m, out) := c in
  match op with
  | HMalloc size => '(h, _, p) ← rt_memheap_alloc RT_EOK size h k;
      Ok (h, m, match p with Some a => (a, size) :: out | None => out end)
  | HFree i => match out !! i with
      | Some (a, _) => '(h, _) ← rt_memheap_free RT_EOK (Some a) h k; Ok (h, m, delete i out)
      | None => Ok c
      end
  | HRealloc i size => match out !! i with
      | Some (a, _) => '(h, m, _, p) ← rt_memheap_realloc RT_EOK RT_EOK RT_EOK (Some a) size h m k;
          Ok (h, m, match p with Some a => <[i := (a, size)]> out | None => out end)
      | None => Ok c
      end
  end.

Fixpoint memheap_run (k : kernel) (ops : list heap_op) (c : mh_client) : res mh_client :=
  match ops with
  | [] => Ok c
  | op :: ops => c ← memheap_do k op c; memheap_run k ops c
  end.

Definition mh_op_ok (op : heap_op) : Prop :=
  match op with
  | HMalloc size | HRealloc _ size => 0 < size <= 4294967280
  | HFree _ => True
  end.

Record mh_client_ok (h : memheap) (m : gmap Z Z) (bs : list block) (out : list (Z * Z)) : Prop := {
  mc_heap : memheap_ok h bs;
  mc_mem : pool_mapped h m;
  mc_owns : owns (payload h) RT_MEMHEAP_SIZE (live bs) out }.

Lemma payload_inj h x y : payload h x = payload h y → x = y.
Proof. unfold payload. lia. Qed.
Lemma payload_same h h' : same_pool h h' → ∀ y, payload h' y = payload h y.
Proof. intros (_ & E & _) y. unfold payload. by rewrite E. Qed.

Lemma memheap_do_ok k op h m out bs : mh_client_ok h m bs out → mh_op_ok op →
  ∃ h' m' out' bs', memheap_do k op (h, m, out) = Ok (h', m', out') ∧ mh_client_ok h' m' bs' out' ∧ same_pool h h'.
Proof.
  intros [H Hm Ho] Hop. assert (Hown : ∀ i a n, out !! i = Some (a, n) → out ≡ₚ (a, n) :: delete i out ∧ ∃ x t, live bs x t ∧ a = payload h x).
  { intros i a n Hi. split; [by apply delete_Permutation |]. apply list_elem_of_lookup_2 in Hi.
    destruct Ho as (_ & _ & H3). destruct (H3 _ _ Hi) as (x & t & ? & ? & _). eauto. }
  assert (Hstay : ∃ h' m' out' bs', Ok (h, m, out) = Ok (h', m', out') ∧ mh_client_ok h' m' bs' out' ∧ same_pool h h') by (by exists h, m, out, bs).
  assert (Hkeep : keeps m m) by (by split).
  destruct op as [size | i | i size]; cbn [mh_op_ok memheap_do] in Hop |- *.
  - destruct (request_facts size ltac:(lia)) as (R1 & _).
    destruct (rt_memheap_alloc_cases h bs size k H ltac:(lia)) as [[-> _] | (x & s & t & h' & bs' & -> & Hx & (_ & _ & _ & Hl & _) & Ht & H' & P)];
      cbn [mbind res_bind]; [done |].
    exists h', m, ((payload h x, size) :: out), bs'. split_and!; [done | | done]. split; [done | by apply (pool_mapped_keeps h h' m m) |].
    apply (owns_cons (payload h) (payload h') _ (live bs) (live bs') out x t size (payload_same h h' P) (payload_inj h) Ho); [| lia | done].
    intros j Hj. unfold live in Hj. congruence.
  - destruct (out !! i) as [[a n] |] eqn:Hi; [| done]. destruct (Hown _ _ _ Hi) as (Hperm & x & t & Hx & ->). rewrite Hperm in Ho.
    destruct (rt_memheap_free_live h bs x t k H Hx) as (h' & bs' & -> & H' & Hl & P). cbn [mbind res_bind].
    exists h', m, (delete i out), bs'. split_and!; [done | | done]. split; [done | by apply (pool_mapped_keeps h h' m m) |].
    by apply (owns_uncons (payload h) (payload h') _ (live bs) (live bs') _ x n (payload_same h h' P) (payload_inj h)).
  - destruct (out !! i) as [[a n] |] eqn:Hi; [| done]. destruct (Hown _ _ _ Hi) as (Hperm & x & t & Hx & ->).
    destruct (rt_memheap_realloc_cases h bs m k x t size H Hm Hx Hop) as (h' & m' & p & -> & Hp). cbn [mbind res_bind].
    destruct p as [a |]; [| destruct Hp as [-> ->]; done].
    destruct Hp as (bs' & y & t' & -> & Hyx & H' & Ht & Hl & _ & _ & Hm' & P).
    eexists h', m', _, bs'. split_and!; [done | | done]. split; [done | done |]. rewrite (insert_perm _ _ _ _ Hi). rewrite Hperm in Ho.
    pose proof (owns_uncons (payload h) (payload h) _ _ (λ z j, live bs z j ∧ z ≠ x) _ x n (λ _, eq_refl) (payload_inj h) Ho (λ _ _, iff_refl _)) as Ho1.
    apply (owns_cons (payload h) (payload h') _ _ (live bs') _ y t' size (payload_same h h' P) (payload_inj h) Ho1); [| done | done].
    intros j [Hj Hne]. by apply Hne, (Hyx j).
Qed.

Lemma memheap_run_ok k ops : ∀ h m out bs, mh_client_ok h m bs out → Forall mh_op_ok ops →
  ∃ h' m' out' bs', memheap_run k ops (h, m, out) = Ok (h', m', out') ∧ mh_client_ok h' m' bs' out' ∧ same_pool h h'.
Proof.
  induction ops as [| op ops IH]; intros h m out bs Hc Hops; [by exists h, m, out, bs |].
  apply Forall_cons in Hops as [Hop Hops]. cbn [memheap_run].
  destruct (memheap_do_ok k op h m out bs Hc Hop) as (h1 & m1 & out1 & bs1 & -> & Hc1 & P1). cbn [mbind res_bind].
  destruct (IH _ _ _ _ Hc1 Hops) as (h2 & m2 & out2 & bs2 & E & Hc2 & P2).
  exists h2, m2, out2, bs2. split_and!; [done | done | by eapply same_pool_trans].
Qed.

(** C6. Safety of a memory heap: after [rt_memheap_init] on a pool of at least sixty
    bytes that does not hold the object itself, whatever sequence of
    [rt_memheap_alloc], [rt_memheap_free] and [rt_memheap_realloc] calls a client makes
    on the addresses it was given, no call loops or fails an assertion, every block
    handed out lies in the pool, no two overlap, and once everything is freed the pool
    is one free block again. *)
Theorem memheap_client_safe i j self start size k h0 k' m ops :
  rt_memheap_init i j self start size k = Ok (h0, k') → 0 <= size < 4294967296 → 2 * RT_MEMHEAP_SIZE + RT_MEMHEAP_MINIALLOC <= RT_ALIGN_DOWN size →
  0 <= start → start + RT_ALIGN_DOWN size <= 4294967296 →
  self + free_header_offset < start ∨ start + RT_ALIGN_DOWN size <= self + free_header_offset →
  pool_mapped h0 m → Forall mh_op_ok ops →
  ∃ h m' out, memheap_run k' ops (h0, m, []) = Ok (h, m', out) ∧
    (∀ a n, (a, n) ∈ out → start <= a ∧ a + n <= start + size) ∧
    (∀ i j a1 n1 a2 n2, i ≠ j → out !! i = Some (a1, n1) → out !! j = Some (a2, n2) → a1 + n1 <= a2 ∨ a2 + n2 <= a1) ∧
    (out = [] → memheap_ok h [(RT_ALIGN_DOWN size - RT_MEMHEAP_SIZE, false)]).
Proof.
  intros Hinit Hsize Hp H0 Htop Hself Hm Hops.
  destruct (rt_memheap_init_ok i j self start size k h0 k' Hinit Hsize Hp H0 Htop Hself) as (Hok & Es & Ep).
  assert (Hdown : RT_ALIGN_DOWN size <= size) by (rewrite align_down_val by lia; lia).
  destruct (memheap_run_ok k' ops h0 m [] [(RT_ALIGN_DOWN size - RT_MEMHEAP_SIZE, false)]) with (2 := Hops) as (h & m' & out & bs & E & [H Hmm Ho] & (P1 & P2 & P3)).
  { split; [exact Hok | done |]. split_and!; [constructor | | by intros ? ? ?%elem_of_nil]. intros x t. unfold live. cbn. by destruct (x =? 0). }
  exists h, m', out. split_and!; [done | | |].
  - intros a n Ha. destruct Ho as (_ & _ & Ho). destruct (Ho a n Ha) as (x & t & Hx & -> & Ht).
    pose proof (block_range _ _ _ _ _ H Hx) as (N1 & N2 & _). unfold payload. rewrite P2, Es. rewrite P3, Ep in N2. unfold RT_MEMHEAP_SIZE in *. lia.
  - intros i' j' a1 n1 a2 n2 Hij Hi Hj. destruct Ho as (Hnd & _ & Ho).
    assert (Hne : a1 ≠ a2).
    { intros ->. apply Hij, (NoDup_lookup _ _ _ a2 Hnd); rewrite list_lookup_fmap; [by rewrite Hi | by rewrite Hj]. }
    destruct (Ho a1 n1) as (x & s & Hx & -> & Hs); [by eapply list_elem_of_lookup_2 |].
    destruct (Ho a2 n2) as (y & t & Hy & -> & Ht); [by eapply list_elem_of_lookup_2 |].
    assert (Hxy : x ≠ y) by (by intros ->). pose proof (apart h bs x s true y t true H Hx Hy Hxy). unfold payload, RT_MEMHEAP_SIZE in *. lia.
  - intros ->. destruct Ho as (_ & Hnil & _). pose proof H as [[fl S] Hgs Hadj _ _ _]. pose proof (sh_total _ _ _ _ S) as Htot.
    assert (Hone : bs = [(total bs, false)]).
    { apply all_free; [by apply sized_big, good_sized | done | | intros x s Hx; by apply Hnil, elem_of_nil in Hx].
      rewrite P3, Ep in Htot. unfold RT_MEMHEAP_SIZE, RT_MEMHEAP_MINIALLOC in *. lia. }
    rewrite P3, Ep in Htot. replace (RT_ALIGN_DOWN size - RT_MEMHEAP_SIZE) with (total bs) by lia. by rewrite <- Hone.
Qed.

(** ** Where the code falls short of its purpose *)

(** [RT_ALIGN] wraps: a request for the last three sizes below 2^32 is served like a
    request for one byte, by [rt_memheap_alloc] and by [rt_memheap_realloc]. *)
Theorem rt_memheap_size_wraps size : 4294967292 < size < 4294967296 → ∀ lock h k m p,
  rt_memheap_alloc lock size h k = rt_memheap_alloc lock 1 h k ∧
  rt_memheap_realloc lock lock lock p size h m k = rt_memheap_realloc lock lock lock p 1 h m k.
Proof.
  intros Hs lock h k m p. assert (E : request size = request 1).
  { assert (size = 4294967293 ∨ size = 4294967294 ∨ size = 4294967295) as [-> | [-> | ->]] by lia; done. }
  unfold rt_memheap_alloc, rt_memheap_realloc. rewrite E. split; [done |]. by rewrite (proj2 (Z.eqb_neq size 0)) by lia.
Qed.

(** All the free bytes at once are refused: [size < available_size]. *)
Theorem whole_pool_refused h size lock k : memheap_ok h [(size + RT_MEMHEAP_SIZE, false)] → 0 <= size <= 4294967292 →
  rt_memheap_alloc lock size h k = Ok (h, k, None).
Proof.
  intros H Hs. destruct (request_facts size Hs) as (R1 & _). unfold rt_memheap_alloc.
  assert (Ha : available_size h = size) by (rewrite (mo_available _ _ H); cbn; lia).
  by rewrite (proj2 (Z.ltb_ge (request size) (available_size h))) by lia.
Qed.

(** A pool too small for its two items is accepted, with almost 2^32 bytes available. *)
Theorem tiny_pool_available i j self start size k h k' : rt_memheap_init i j self start size k = Ok (h, k') →
  0 <= RT_ALIGN_DOWN size < 2 * RT_MEMHEAP_SIZE → available_size h = RT_ALIGN_DOWN size + 4294967296 - 2 * RT_MEMHEAP_SIZE.
Proof.
  intros Hinit Hs. unfold rt_memheap_init in Hinit. destruct (on_objects _ k) as [k1 | w]; [| done]. cbn [mbind res_bind] in Hinit.
  unfold set_next_free, set_prev_free, set_item in Hinit.
  repeat match type of Hinit with context [get_item ?a ?g] => destruct (get_item a g); cbn [mbind res_bind] in Hinit; [| done] end.
  destruct (rt_sem_init j 1 RT_IPC_FLAG_FIFO k1) as [[sem k2] | w]; [| done]. cbn [mbind res_bind] in Hinit. injection Hinit as <- _.
  cbn [available_size put_item]. unfold u32, RT_MEMHEAP_SIZE in *. replace (RT_ALIGN_DOWN size - 2 * 24) with (RT_ALIGN_DOWN size + 4294967296 - 48 + (-1) * 4294967296) by lia.
  rewrite Z.mod_add by lia. rewrite Z.mod_small; lia.
Qed.

(** ** A pool of 400 bytes at [0x2000], and the same with a block of 40 bytes in use *)
Definition mh_dummy : memheap := mk_memheap 0 0 0 0 0 0 0 ∅.
Definition demo_mh : memheap :=
  match rt_memheap_init 0 1 0x1000 0x2000 400 boot_kernel with Ok (h, _) => h | Stop _ => mh_dummy end.
Definition demo_mh1 : memheap :=
  match rt_memheap_alloc RT_EOK 40 demo_mh boot_kernel with Ok (h, _, _) => h | Stop _ => mh_dummy end.
Definition demo_bytes : gmap Z Z := list_to_map ((λ i, (0x2000 + Z.of_nat i, Z.of_nat i mod 256)) <$> seq 0 400).

Lemma demo_mh_init : ∃ k, rt_memheap_init 0 1 0x1000 0x2000 400 boot_kernel = Ok (demo_mh, k).
Proof.
  assert (H : is_ok (rt_memheap_init 0 1 0x1000 0x2000 400 boot_kernel) = true) by (vm_compute; reflexivity).
  unfold demo_mh. destruct (rt_memheap_init 0 1 0x1000 0x2000 400 boot_kernel) as [[h k] | w]; [by exists k | done].
Qed.
Lemma demo_mh_ok : memheap_ok demo_mh [(376, false)] ∧ start_addr demo_mh = 0x2000 ∧ pool_size demo_mh = 400.
Proof.
  destruct demo_mh_init as [k E]. apply (rt_memheap_init_ok 0 1 0x1000 0x2000 400 boot_kernel demo_mh k E); try lia;
    change (RT_ALIGN_DOWN 400) with 400; unfold RT_MEMHEAP_SIZE, RT_MEMHEAP_MINIALLOC, free_header_offset; lia.
Qed.
Lemma demo_mh1_alloc : rt_memheap_alloc RT_EOK 40 demo_mh boot_kernel = Ok (demo_mh1, boot_kernel, Some 0x2018).
Proof. vm_compute. reflexivity. Qed.
(** Read off without computing the heaps. *)
Lemma same_outcome {A B C} (a a' : A) (b b' : B) (c c' : C) : Ok (a, b, c) = Ok (a', b', c') → a = a' ∧ c = c'.
Proof. by intros [= -> _ ->]. Qed.
Lemma demo_mh1_ok : ∃ bs s, memheap_ok demo_mh1 bs ∧ live bs 0 s ∧ start_addr demo_mh1 = 0x2000 ∧ pool_size demo_mh1 = 400.
Proof.
  destruct demo_mh_ok as (H & Es & Ep).
  destruct (rt_memheap_alloc_cases demo_mh _ 40 boot_kernel H ltac:(lia)) as [[E _] | (x & s & t & h' & bs' & E & Hx & (_ & _ & _ & Hl & _) & _ & H' & (_ & P2 & P3))].
  - rewrite demo_mh1_alloc in E. by apply same_outcome in E as [_ E].
  - rewrite demo_mh1_alloc in E. apply same_outcome in E as [<- [= E]]. rewrite P2, P3, Es, Ep. exists bs', t. split_and!; [done | | done | done].
    apply Hl. right. unfold payload, RT_MEMHEAP_SIZE in E. lia.
Qed.
Lemma demo_bytes_mapped : bytes_ok demo_bytes ∧ mapped demo_bytes 0x2000 400.
Proof.
  split.
  - intros a v Ha. apply elem_of_list_to_map_2, list_elem_of_fmap in Ha as (i & [= -> ->] & _). lia.
  - intros a Ha. assert (E : a = 0x2000 + Z.of_nat (Z.to_nat (a - 0x2000))) by lia.
    apply elem_of_dom. unfold demo_bytes. rewrite dom_list_to_map_L, elem_of_list_to_set. apply list_elem_of_fmap.
    exists (a, Z.of_nat (Z.to_nat (a - 0x2000)) mod 256). split; [done |]. apply list_elem_of_fmap. exists (Z.to_nat (a - 0x2000)).
    rewrite <- E. split; [done |]. apply elem_of_seq. lia.
Qed.
Lemma demo_pool_mapped h : start_addr h = 0x2000 → pool_size h = 400 → pool_mapped h demo_bytes.
Proof. intros Es Ep. destruct demo_bytes_mapped as [Hb Hm]. split; rewrite ?Es, ?Ep; [done | done | lia]. Qed.

Lemma rt_memheap_alloc_spec_witness : 0 <= 40 <= 4294967292 ∧
  ∃ t bs', 40 + RT_MEMHEAP_SIZE <= t ∧ live bs' 0 t ∧ memheap_ok demo_mh1 bs'.
Proof.
  split; [lia |]. destruct demo_mh_ok as (H & Es & Ep).
  destruct (rt_memheap_alloc_spec demo_mh _ RT_EOK 40 boot_kernel H ltac:(lia)) as [[E _] | [[E _] | (x & t & h' & bs' & E & Ht & _ & H' & Hl & _)]].
  - rewrite demo_mh1_alloc in E. by apply same_outcome in E as [_ E].
  - done.
  - rewrite demo_mh1_alloc in E. apply same_outcome in E as [<- [= E]]. exists t, bs'. split_and!; [done | | done]. apply Hl. right.
    unfold payload, RT_MEMHEAP_SIZE in E. lia.
Defined.

Lemma rt_memheap_free_spec_witness : ∃ h' bs', rt_memheap_free RT_EOK (Some 0x2018) demo_mh1 boot_kernel = Ok (h', boot_kernel) ∧ memheap_ok h' bs'.
Proof.
  destruct demo_mh1_ok as (bs & s & H & Hl & Es & _).
  destruct (rt_memheap_free_spec demo_mh1 bs 0 s boot_kernel H Hl) as (h' & bs' & E & H' & _). exists h', bs'. split; [| done].
  unfold payload, RT_MEMHEAP_SIZE in E. by rewrite Es in E.
Defined.

Lemma rt_memheap_realloc_spec_witness : ∃ h' m' p,
  rt_memheap_realloc RT_EOK RT_EOK RT_EOK (Some 0x2018) 100 demo_mh1 demo_bytes boot_kernel = Ok (h', m', boot_kernel, p).
Proof.
  destruct demo_mh1_ok as (bs & s & H & Hl & Es & Ep).
  destruct (rt_memheap_realloc_spec demo_mh1 bs demo_bytes boot_kernel 0 s 100 H (demo_pool_mapped _ Es Ep) Hl ltac:(lia)) as (h' & m' & p & E & _).
  exists h', m', p. unfold payload, RT_MEMHEAP_SIZE in E. by rewrite Es in E.
Defined.

Lemma memheap_client_safe_witness : ∃ k h m' out,
  memheap_run k [HMalloc 40; HMalloc 10; HRealloc 1 100; HFree 0] (demo_mh, demo_bytes, []) = Ok (h, m', out).
Proof.
  destruct demo_mh_init as [k E]. destruct demo_mh_ok as (_ & Es & Ep). exists k.
  destruct (memheap_client_safe 0 1 0x1000 0x2000 400 boot_kernel demo_mh k demo_bytes [HMalloc 40; HMalloc 10; HRealloc 1 100; HFree 0] E) as (h & m' & out & R & _);
    try (change (RT_ALIGN_DOWN 400) with 400); unfold RT_MEMHEAP_SIZE, RT_MEMHEAP_MINIALLOC, free_header_offset; try lia.
  - by apply demo_pool_mapped.
  - repeat constructor; cbn; lia.
  - by exists h, m', out.
Defined.

(** [newsize + RT_MEMHEAP_MINIALLOC] wraps too: of the block of 40 bytes, with a free
    block behind it, [rt_memheap_realloc] says that it has 4294967288 bytes, and puts
    the item of the rest inside the item of the block. *)
Theorem rt_memheap_realloc_wraps : ∃ h' m' k', rt_memheap_realloc RT_EOK RT_EOK RT_EOK (Some 0x2018) 4294967288 demo_mh1 demo_bytes boot_kernel
    = Ok (h', m', k', Some 0x2018) ∧ is_Some (items h' !! 0x2010).
Proof.
  assert (H : match rt_memheap_realloc RT_EOK RT_EOK RT_EOK (Some 0x2018) 4294967288 demo_mh1 demo_bytes boot_kernel with
    | Ok (h', _, _, p) => bool_decide (p = Some 0x2018) && bool_decide (is_Some (items h' !! 0x2010)) | Stop _ => false end = true)
    by (vm_compute; reflexivity).
  destruct (rt_memheap_realloc _ _ _ _ _ _ _ _) as [[[[h' m'] k'] p] | w]; [| done].
  apply andb_true_iff in H as [->%bool_decide_eq_true H%bool_decide_eq_true]. by exists h', m', k'.
Qed.
