(* ===== verification/NbIot.v ===== *)
(** * The NB-IoT application: [bsp/smartloong/applications/application.c]

    The AT-command state machine that connects the NB-IoT modem behind [uart3],
    and its helpers: search and decoding of the modem's answers, hexadecimal
    decoding, the CRC.  The serial device is an interface ([Uart]): what can be
    read, what was written, and time passing; console output is left out. *)
From Stdlib Require Import Ascii String.
From stdpp Require Import strings.
From S2P Require Import Prelude KMemory KString.
Local Open Scope Z_scope.

(** ** Constants *)
Definition SEND_TO_NBIOT : Z := 0.
Definition RECV_FROM_NBIOT : Z := 1.
Definition atCmdGapTime : Z := 100.
Definition atNbiotTxBufferSize : Z := 256.
Definition atNbiotRxBufferSize : Z := 512.
Definition AT_OK : Z := 0.
Definition AT_FAIL : Z := -1.

(** [enum AT_NBIOT_UDP_STATE] *)
Definition AT_AUTO_CONN_CFG : Z := 0.
Definition AT_CREATE_SOCKET : Z := 1.
Definition AT_SEND_MSG : Z := 2.
Definition AT_RECV_MSG : Z := 3.
Definition AT_READ_MSG : Z := 4.
Definition AT_CLOSE_SOCKET : Z := 5.
Definition AT_IDLE : Z := 6.

(** [int] arithmetic. *)
Definition int (z : Z) : res Z :=
  _ ← require SignedOverflow ((-2147483648 <=? z) && (z <? 2147483648)); Ok z.

(** ** CRC *)
Definition crctab16 : list Z := [
   0; 4489; 8978; 12955; 17956; 22445; 25910; 29887; 35912; 40385; 44890; 48851; 51820; 56293; 59774; 63735;
   4225; 264; 13203; 8730; 22181; 18220; 30135; 25662; 40137; 36160; 49115; 44626; 56045; 52068; 63999; 59510;
   8450; 12427; 528; 5017; 26406; 30383; 17460; 21949; 44362; 48323; 36440; 40913; 60270; 64231; 51324; 55797;
   12675; 8202; 4753; 792; 30631; 26158; 21685; 17724; 48587; 44098; 40665; 36688; 64495; 60006; 55549; 51572;
   16900; 21389; 24854; 28831; 1056; 5545; 10034; 14011; 52812; 57285; 60766; 64727; 34920; 39393; 43898; 47859;
   21125; 17164; 29079; 24606; 5281; 1320; 14259; 9786; 57037; 53060; 64991; 60502; 39145; 35168; 48123; 43634;
   25350; 29327; 16404; 20893; 9506; 13483; 1584; 6073; 61262; 65223; 52316; 56789; 43370; 47331; 35448; 39921;
   29575; 25102; 20629; 16668; 13731; 9258; 5809; 1848; 65487; 60998; 56541; 52564; 47595; 43106; 39673; 35696;
   33800; 38273; 42778; 46739; 49708; 54181; 57662; 61623; 2112; 6601; 11090; 15067; 20068; 24557; 28022; 31999;
   38025; 34048; 47003; 42514; 53933; 49956; 61887; 57398; 6337; 2376; 15315; 10842; 24293; 20332; 32247; 27774;
   42250; 46211; 34328; 38801; 58158; 62119; 49212; 53685; 10562; 14539; 2640; 7129; 28518; 32495; 19572; 24061;
   46475; 41986; 38553; 34576; 62383; 57894; 53437; 49460; 14787; 10314; 6865; 2904; 32743; 28270; 23797; 19836;
   50700; 55173; 58654; 62615; 32808; 37281; 41786; 45747; 19012; 23501; 26966; 30943; 3168; 7657; 12146; 16123;
   54925; 50948; 62879; 58390; 37033; 33056; 46011; 41522; 23237; 19276; 31191; 26718; 7393; 3432; 16371; 11898;
   59150; 63111; 50204; 54677; 41258; 45219; 33336; 37809; 27462; 31439; 18516; 23005; 11618; 15595; 3696; 8185;
   63375; 58886; 54429; 50452; 45483; 40994; 37561; 33584; 31687; 27214; 22741; 18780; 15843; 11370; 7921; 3960].

Fixpoint crc_loop (fcs : Z) (pData : list Z) : res Z :=
  match pData with
  | [] => Ok fcs
  | b :: pData =>
      t ← of_option OutOfBounds (crctab16 !! Z.to_nat (Z.land (Z.lxor fcs b) 255));
      crc_loop (Z.lxor (Z.shiftr fcs 8) t) pData
  end.
(** [return ~fcs] as a 16-bit value. *)
Definition AtGetCrc16 (pData : list Z) : res Z :=
  fcs ← crc_loop 65535 pData; Ok (u16 (Z.lnot fcs)).

(** ** Hexadecimal decoding *)
Definition hex_digit (tmp : Z) : option Z :=
  if (chr "0" <=? tmp) && (tmp <=? chr "9") then Some (tmp - chr "0")
  else if (chr "A" <=? tmp) && (tmp <=? chr "F") then Some (tmp - chr "A" + 10)
  else None.

(** [*(dest + k) |= v] *)
Definition or_byte (k : nat) (v : Z) (dest : list Z) : res (list Z) :=
  b ← of_option OutOfBounds (dest !! k);
  Ok (<[k := u8 (Z.lor b v)]> dest).

(** The loop from index [i]; [Some] error code when it stops early. *)
Fixpoint str2hex_loop (i : nat) (src : list Z) (dest : list Z) : res (Z * list Z) :=
  match src with
  | [] => Ok (0, dest)
  | tmp :: src =>
      match hex_digit tmp with
      | None => Ok (-3, dest)
      | Some val =>
          dest ← or_byte (i / 2)%nat (if Nat.even i then u8 (Z.shiftl val 4) else val) dest;
          str2hex_loop (S i) src dest
      end
  end.

(** [src]: the characters of the string; [dest]: the destination array. *)
Definition AtStr2Hex (src dest : option (list Z)) : res (Z * option (list Z)) :=
  match src, dest with
  | Some src, Some dest =>
      let srcLen := length src in
      if (srcLen <? 1)%nat then Ok (-2, Some dest)
      else
        let destLen := if (srcLen mod 2 =? 0)%nat then (srcLen / 2)%nat else (srcLen / 2 + 1)%nat in
        _ ← require OutOfBounds (destLen <=? length dest)%nat;
        '(r, dest) ← str2hex_loop 0 src (replicate destLen 0 ++ drop destLen dest);
        Ok (r, Some dest)
  | _, _ => Ok (-1, dest)
  end.

(** ** Searching an answer *)

(** [rt_memcmp] on an array from index [i]; [memcmp_at_memory] below relates it
    to the one of KMemory.v. *)
Fixpoint memcmp_at (buf : list Z) (i : nat) (pat : list Z) : res Z :=
  match pat with
  | [] => Ok 0
  | c :: pat =>
      b ← of_option OutOfBounds (buf !! i);
      if b - c =? 0 then memcmp_at buf (S i) pat else Ok (b - c)
  end.

(** [for (i = 0; i < recvSize; i++)], from [i]. *)
Fixpoint strcompare_loop (n i : nat) (recvBuf cmpStr : list Z) : res Z :=
  match n with
  | O => Ok 0
  | S n =>
      r ← memcmp_at recvBuf i cmpStr;
      if r =? 0 then Ok 1 else strcompare_loop n (S i) recvBuf cmpStr
  end.
Definition AtStrCompare (recvBuf : list Z) (recvSize : Z) (cmpStr : list Z) : res Z :=
  strcompare_loop (Z.to_nat recvSize) 0 recvBuf cmpStr.

Definition AtCheckRecvData (recvBuf : list Z) (recvSize : Z) : res Z :=
  r ← AtStrCompare recvBuf recvSize (lit "OK");
  Ok (if negb (r =? 0) then AT_OK else AT_FAIL).

(** [n = n * 10 + (ch - '0')] over the digits among the bytes. *)
Fixpoint fold_digits (bytes : list Z) (n : Z) : res Z :=
  match bytes with
  | [] => Ok n
  | ch :: bytes =>
      if isdigit ch then n ← int (n * 10 + (ch - chr "0")); fold_digits bytes n
      else fold_digits bytes n
  end.

(** The first [recvSize] bytes of an array, with the bounds check. *)
Definition read_prefix (recvBuf : list Z) (recvSize : Z) : res (list Z) :=
  _ ← require OutOfBounds (recvSize <=? Z.of_nat (length recvBuf));
  Ok (take (Z.to_nat recvSize) recvBuf).

Definition AtGetSocketId (recvBuf : list Z) (recvSize : Z) : res Z :=
  r ← AtCheckRecvData recvBuf recvSize;
  if r =? AT_OK then
    bytes ← read_prefix recvBuf recvSize;
    fold_digits bytes AT_FAIL
  else Ok AT_FAIL.

(** ** The serial device

    [uart_read d n] is [rt_device_read] for at most [n] bytes, [uart_write] is
    [rt_device_write], [uart_delay] the passing of ticks, during which the modem
    may answer. *)
Class Uart (D : Type) := {
  uart_read : D → Z → list Z * D;
  uart_write : D → list Z → D;
  uart_delay : D → Z → D;
  uart_read_length d n : 0 <= n → Z.of_nat (length (fst (uart_read d n))) <= n;
  uart_read_bytes d n : Forall (λ c, 0 <= c < 256) (fst (uart_read d n)) }.

(** [buffer[at] .. := data] *)
Definition store_bytes (at_ : nat) (data buffer : list Z) : res (list Z) :=
  _ ← require OutOfBounds (at_ + length data <=? length buffer)%nat;
  Ok (take at_ buffer ++ data ++ drop (at_ + length data) buffer).

(** ** Formatted commands *)
Inductive arg := ArgInt (z : Z) | ArgStr (s : list Z).

(** Where the string arguments, the format and [tx_buffer] are in memory. *)
Fixpoint place_args (a : Z) (args : list arg) : gmap Z Z * list Z :=
  match args with
  | [] => (∅, [])
  | ArgInt z :: args => let '(m, l) := place_args a args in (m, u32 z :: l)
  | ArgStr s :: args =>
      let '(m, l) := place_args (a + 256) args in (map_seqZ a (s ++ [0]) ∪ m, a :: l)
  end.
Definition TX_BUFFER : Z := 4096.
Definition FMT : Z := 8192.
Definition ARGS : Z := 16384.

(** The [n] bytes of memory from [a]. *)
Fixpoint read_bytes (n : nat) (m : gmap Z Z) (a : Z) : res (list Z) :=
  match n with
  | O => Ok []
  | S n => b ← load8 m a; l ← read_bytes n m (a + 1); Ok (b :: l)
  end.

(** [rt_sprintf(tx_buffer, fmt, ...)] into the zeroed [tx_buffer], and the text
    up to [strlen(tx_buffer)]. *)
Definition sprintf_tx (fmt : list Z) (args : list arg) : res (list Z) :=
  let '(m, l) := place_args ARGS args in
  let m := map_seqZ TX_BUFFER (replicate (Z.to_nat atNbiotTxBufferSize) 0) ∪ map_seqZ FMT (fmt ++ [0]) ∪ m in
  '(m, _) ← rt_sprintf m TX_BUFFER FMT l;
  n ← rt_strlen m TX_BUFFER;
  read_bytes (Z.to_nat n) m TX_BUFFER.

Definition newline : list Z := [10].

Definition cmd_NCONFIG : list Z := lit "AT+NCONFIG=AUTOCONNECT,TRUE" ++ newline.
Definition cmd_NSOCR : res (list Z) :=
  sprintf_tx (lit "AT+NSOCR=%s,%s,%s,%s" ++ newline)
    [ArgStr (lit "DGRAM"); ArgStr (lit "17"); ArgStr (lit "5683"); ArgStr (lit "1")].
Definition cmd_NSOST (socketID : Z) : res (list Z) :=
  sprintf_tx (lit "AT+NSOST=%d,%s,%s,%d,%s" ++ newline)
    [ArgInt socketID; ArgStr (lit "118.190.93.84"); ArgStr (lit "2317"); ArgInt 10; ArgStr (lit "hello NB!!!!!!")].
Definition cmd_NSORF (socketid msglen : Z) : res (list Z) :=
  sprintf_tx (lit "AT+NSORF=%d,%d" ++ newline) [ArgInt socketid; ArgInt msglen].
Definition cmd_NSOCL (socketID : Z) : res (list Z) :=
  sprintf_tx (lit "AT+NSOCL=%d" ++ newline) [ArgInt socketID].

(** ** The state machine *)
Record at_state := mk_at {
  atstate : Z; link_NBIOT : Z; socketID : Z; smsg_socketid : Z; smsg_msglen : Z }.
Definition set_link (l : Z) (s : at_state) : at_state :=
  mk_at (atstate s) l (socketID s) (smsg_socketid s) (smsg_msglen s).
Definition set_state (a l : Z) (s : at_state) : at_state :=
  mk_at a l (socketID s) (smsg_socketid s) (smsg_msglen s).
Definition set_socket (i : Z) (s : at_state) : at_state :=
  mk_at (atstate s) (link_NBIOT s) i (smsg_socketid s) (smsg_msglen s).
Definition set_smsg (i n : Z) (s : at_state) : at_state :=
  mk_at (atstate s) (link_NBIOT s) (socketID s) i n.

(** The globals' initial values. *)
Definition at_boot : at_state := mk_at AT_AUTO_CONN_CFG SEND_TO_NBIOT 0 0 0.

Definition rx_buffer0 : list Z := replicate (Z.to_nat atNbiotRxBufferSize) 0.

Section Machine.
Context {D : Type} `{Uart D}.

(** What [AtUart3ReadTimeOut] has read: [buffer], [rx_size] and the device. *)
Definition rx_state : Type := list Z * Z * D.

Definition answered (buffer : list Z) (rx_size : Z) : res bool :=
  e ← AtStrCompare buffer rx_size (lit "ERROR");
  if negb (e =? 0) then Ok true
  else o ← AtStrCompare buffer rx_size (lit "OK"); Ok (negb (o =? 0)).

(** [rt_thread_delay(2)] and one [rt_device_read]. *)
Definition read_round (size : Z) (r : rx_state) : res rx_state :=
  let '(buffer, rx_size, dev) := r in
  let dev := uart_delay dev 2 in
  let '(data, dev) := uart_read dev (size - rx_size) in
  buffer ← store_bytes (Z.to_nat rx_size) data buffer;
  Ok (buffer, rx_size + Z.of_nat (length data), dev).

(** [while (1)] of the branch [TimeOutMs == -1]; [fuel] bounds its rounds. *)
Fixpoint read_forever (fuel : nat) (size : Z) (r : rx_state) : res rx_state :=
  found ← answered r.1.1 r.1.2;
  if found : bool then Ok r
  else match fuel with
  | O => Stop OutOfFuel
  | S fuel => r ← read_round size r; read_forever fuel size r
  end.

(** [while (i < ticktimeout)] *)
Fixpoint read_ticks (n : nat) (size : Z) (r : rx_state) : res rx_state :=
  match n with
  | O => Ok r
  | S n =>
      found ← answered r.1.1 r.1.2;
      if found : bool then Ok r else r ← read_round size r; read_ticks n size r
  end.

Definition AtUart3ReadTimeOut (fuel : nat) (buffer : list Z) (size TimeOutMs : Z) (dev : D) : res rx_state :=
  if TimeOutMs =? -1 then read_forever fuel size (buffer, 0, dev)
  else read_ticks (Z.to_nat (Z.quot TimeOutMs 20)) size (buffer, 0, dev).

(** The two halves the command handlers share: send the command, or wait for
    the answer and act on [OK]. *)
Definition send_command (cmd : res (list Z)) (s : at_state) (dev : D) : res (at_state * D) :=
  cmd ← cmd; Ok (set_link RECV_FROM_NBIOT s, uart_write dev cmd).

Definition await_answer (fuel : nat) (on_ok : list Z → Z → at_state → res at_state)
    (s : at_state) (dev : D) : res (at_state * D) :=
  '(rx_buffer, rx_size, dev) ← AtUart3ReadTimeOut fuel rx_buffer0 256 (-1) dev;
  iRet ← AtCheckRecvData rx_buffer rx_size;
  if iRet =? AT_OK then
    s ← on_ok rx_buffer rx_size s;
    Ok (s, uart_delay dev atCmdGapTime)
  else Ok (s, dev).

Definition command (fuel : nat) (cmd : res (list Z)) (on_ok : list Z → Z → at_state → res at_state)
    (s : at_state) (dev : D) : res (at_state * D) :=
  if link_NBIOT s =? SEND_TO_NBIOT then send_command cmd s dev
  else if link_NBIOT s =? RECV_FROM_NBIOT then await_answer fuel on_ok s dev
  else Ok (s, dev).

Definition nbiot_atcmd_NCONFIG (fuel : nat) (s : at_state) (dev : D) : res (at_state * D) :=
  command fuel (Ok cmd_NCONFIG) (λ _ _ s, Ok (set_state AT_CREATE_SOCKET SEND_TO_NBIOT s)) s dev.

(** [atstate = SEND_TO_NBIOT] is in the source. *)
Definition nbiot_atcmd_NSOCR (fuel : nat) (s : at_state) (dev : D) : res (at_state * D) :=
  command fuel cmd_NSOCR (λ rx_buffer rx_size s,
    let s := set_state SEND_TO_NBIOT SEND_TO_NBIOT s in
    i ← AtGetSocketId rx_buffer rx_size; Ok (set_socket i s)) s dev.

Definition nbiot_atcmd_NSOST (fuel : nat) (s : at_state) (dev : D) : res (at_state * D) :=
  command fuel (cmd_NSOST (socketID s)) (λ _ _ s, Ok (set_state AT_RECV_MSG SEND_TO_NBIOT s)) s dev.

Definition nbiot_atcmd_NSORF (fuel : nat) (s : at_state) (dev : D) : res (at_state * D) :=
  command fuel (cmd_NSORF (smsg_socketid s) (smsg_msglen s))
    (λ _ _ s, Ok (set_state AT_RECV_MSG RECV_FROM_NBIOT s)) s dev.

Definition nbiot_atcmd_NSOCL (fuel : nat) (s : at_state) (dev : D) : res (at_state * D) :=
  command fuel (cmd_NSOCL (socketID s)) (λ _ _ s, Ok (set_state AT_IDLE RECV_FROM_NBIOT s)) s dev.

(** *** [nbiot_atcmd_NSONMI] *)

(** The first loop: the index behind ["+NSONMI:"], 0 if there is none. *)
Fixpoint find_nsonmi (n i : nat) (rx_buffer : list Z) : res nat :=
  match n with
  | O => Ok 0%nat
  | S n =>
      r ← memcmp_at rx_buffer i (lit "+NSONMI:");
      if r =? 0 then Ok (i + 8)%nat else find_nsonmi n (S i) rx_buffer
  end.

(** The second loop: the digits up to the first comma, and the index behind it
    ([startpos] stays where it was when there is none). *)
Fixpoint parse_socket (bytes : list Z) (i startpos : nat) (socketid : Z) : res (Z * nat) :=
  match bytes with
  | [] => Ok (socketid, startpos)
  | ch :: bytes =>
      socketid ← (if isdigit ch then int (socketid * 10 + (ch - chr "0")) else Ok socketid);
      if ch =? chr "," then Ok (socketid, S i) else parse_socket bytes (S i) startpos socketid
  end.

Definition nbiot_atcmd_NSONMI (s : at_state) (dev : D) : res (at_state * D) :=
  '(rx_buffer, rx_size, dev) ← AtUart3ReadTimeOut 0 rx_buffer0 256 1000 dev;
  if rx_size =? 0 then Ok (s, dev)
  else
    startpos ← find_nsonmi (Z.to_nat rx_size) 0 rx_buffer;
    if (startpos =? 0)%nat then Ok (s, dev)
    else
      bytes ← read_prefix rx_buffer rx_size;
      '(socketid, startpos) ← parse_socket (drop startpos bytes) startpos startpos 0;
      slen ← fold_digits (drop startpos bytes) 0;
      Ok (set_state AT_READ_MSG SEND_TO_NBIOT (set_smsg socketid slen s), dev).

(** One round of the endless loop of [rt_run_example2_thread_entry]. *)
Definition at_round (fuel : nat) (s : at_state) (dev : D) : res (at_state * D) :=
  '(s, dev) ← (
    if atstate s =? AT_AUTO_CONN_CFG then nbiot_atcmd_NCONFIG fuel s dev
    else if atstate s =? AT_CREATE_SOCKET then nbiot_atcmd_NSOCR fuel s dev
    else if atstate s =? AT_SEND_MSG then nbiot_atcmd_NSOST fuel s dev
    else if atstate s =? AT_RECV_MSG then nbiot_atcmd_NSONMI s dev
    else if atstate s =? AT_READ_MSG then nbiot_atcmd_NSORF fuel s dev
    else if atstate s =? AT_CLOSE_SOCKET then nbiot_atcmd_NSOCL fuel s dev
    else Ok (s, uart_delay dev 100));
  Ok (s, uart_delay dev 1).

Fixpoint at_rounds (n fuel : nat) (s : at_state) (dev : D) : res (at_state * D) :=
  match n with
  | O => Ok (s, dev)
  | S n => '(s, dev) ← at_round fuel s dev; at_rounds n fuel s dev
  end.
End Machine.

(** ** Theory: the CRC against its definition by polynomial division *)

(** One bit of CRC-16 with the reflected polynomial 0x8408, and a whole byte. *)
Definition crc_bit (x : Z) : Z := if Z.odd x then Z.lxor (Z.shiftr x 1) 33800 else Z.shiftr x 1.
Definition crc_byte (fcs b : Z) : Z := Nat.iter 8 crc_bit (Z.lxor fcs b).
Definition crc16_x25 (data : list Z) : Z := Z.lxor (foldl crc_byte 65535 data) 65535.

(** Every state of the register, one table lookup against eight shifts. *)
Definition table_step (x : Z) : option Z :=
  (λ t, Z.lxor (Z.shiftr x 8) t) <$> crctab16 !! Z.to_nat (Z.land x 255).

Fixpoint all_from (n : nat) (a : Z) (p : Z → bool) : bool :=
  match n with O => true | S n => p a && all_from n (a + 1) p end.
Lemma all_from_ok n p x : ∀ a, all_from n a p = true → a <= x < a + Z.of_nat n → p x = true.
Proof.
  induction n as [|n IH]; intros a; simpl; [lia|]. intros [Ha H]%andb_true_iff Hx.
  destruct (Z.eq_dec x a) as [->|]; [done|]. apply (IH (a + 1)); [done|lia].
Qed.

Lemma lxor_range a b : 0 <= a < 65536 → 0 <= b < 256 → 0 <= Z.lxor a b < 65536.
Proof.
  intros Ha Hb. assert (Hnn : 0 <= Z.lxor a b) by (apply Z.lxor_nonneg; lia).
  split; [done|]. destruct (Z.eq_dec (Z.lxor a b) 0) as [->|Hnz]; [lia|].
  change 65536 with (2 ^ 16). apply Z.log2_lt_pow2; [lia|].
  assert (Z.log2 a < 16) by (destruct (Z.eq_dec a 0) as [->|]; [done|apply Z.log2_lt_pow2; lia]).
  assert (Z.log2 b < 16) by (destruct (Z.eq_dec b 0) as [->|]; [done|apply Z.log2_lt_pow2; lia]).
  pose proof (Z.log2_lxor a b ltac:(lia) ltac:(lia)). lia.
Qed.

(** The high part of the register is only shifted. *)
Lemma crc_bit_linear h x : crc_bit (Z.lxor (2 * h) x) = Z.lxor h (crc_bit x).
Proof.
  unfold crc_bit. rewrite <- !Z.bit0_odd, Z.lxor_spec, Z.testbit_even_0, xorb_false_l, Z.shiftr_lxor.
  replace (Z.shiftr (2 * h) 1) with h by (rewrite Z.shiftr_div_pow2 by lia; change (2 ^ 1) with 2; lia).
  destruct (Z.testbit x 0); [by rewrite Z.lxor_assoc|done].
Qed.

Lemma crc_bits_linear h : ∀ n x,
  Nat.iter n crc_bit (Z.lxor (2 ^ Z.of_nat n * h) x) = Z.lxor h (Nat.iter n crc_bit x).
Proof.
  intros n. revert h. induction n as [|n IH]; intros h x; [by rewrite Z.mul_1_l|].
  rewrite !Nat.iter_succ, Nat2Z.inj_succ, Z.pow_succ_r by lia.
  replace (2 * 2 ^ Z.of_nat n * h) with (2 ^ Z.of_nat n * (2 * h)) by lia.
  rewrite IH. apply crc_bit_linear.
Qed.

Definition step_agrees (x : Z) : bool :=
  let y := Nat.iter 8 crc_bit x in
  bool_decide (crctab16 !! Z.to_nat x = Some y) && (0 <=? y) && (y <? 65536).

Lemma table_ok x : 0 <= x < 256 →
  crctab16 !! Z.to_nat x = Some (Nat.iter 8 crc_bit x) ∧ 0 <= Nat.iter 8 crc_bit x < 65536.
Proof.
  intros Hx. assert (H : all_from 256 0 step_agrees = true) by (vm_compute; reflexivity).
  apply (all_from_ok _ _ x) in H; [|exact Hx].
  unfold step_agrees in H. apply andb_true_iff in H as [H H3]. apply andb_true_iff in H as [H1 H2].
  apply bool_decide_eq_true in H1. apply Z.leb_le in H2. apply Z.ltb_lt in H3. done.
Qed.

Lemma table_step_ok x : 0 <= x < 65536 → table_step x = Some (Nat.iter 8 crc_bit x) ∧ 0 <= Nat.iter 8 crc_bit x < 65536.
Proof.
  intros Hx. set (h := Z.shiftr x 8). set (l := Z.land x 255).
  assert (Hl : 0 <= l < 256).
  { unfold l. change 255 with (Z.ones 8). rewrite Z.land_ones by lia. apply Z.mod_pos_bound. lia. }
  assert (Hh : 0 <= h < 256) by (unfold h; rewrite Z.shiftr_div_pow2 by lia; change (2 ^ 8) with 256; lia).
  assert (Hsplit : x = Z.lxor (2 ^ Z.of_nat 8 * h) l).
  { rewrite Z.mul_comm, <- (Z.shiftl_mul_pow2 h) by lia. apply Z.bits_inj'. intros n Hn. unfold h, l.
    rewrite Z.lxor_spec, Z.shiftl_spec, Z.land_spec by lia. change 255 with (Z.ones 8).
    rewrite Z.testbit_ones by lia. rewrite (proj2 (Z.leb_le 0 n) Hn). change (Z.of_nat 8) with 8.
    destruct (Z.ltb_spec n 8).
    - rewrite (Z.testbit_neg_r _ (n - 8)) by lia. by rewrite andb_true_r.
    - rewrite Z.shiftr_spec by lia. rewrite Z.sub_add. simpl. by rewrite andb_false_r, xorb_false_r. }
  destruct (table_ok l Hl) as [Ht Hr]. unfold table_step. fold l h. rewrite Ht.
  rewrite Hsplit at 1 2 3. rewrite crc_bits_linear. split; [done|].
  rewrite Z.lxor_comm. by apply lxor_range.
Qed.

Lemma crc_loop_ok data : ∀ fcs,
  Forall (λ c, 0 <= c < 256) data → 0 <= fcs < 65536 →
  crc_loop fcs data = Ok (foldl crc_byte fcs data) ∧ 0 <= foldl crc_byte fcs data < 65536.
Proof.
  induction data as [|b data IH]; intros fcs Hd Hf; simpl; [done|].
  apply Forall_cons in Hd as [Hb Hd]. destruct (table_step_ok (Z.lxor fcs b)) as [Ht Hr]; [by apply lxor_range|].
  unfold table_step in Ht. destruct (crctab16 !! _) as [t|]; [|done]. injection Ht as Ht. simpl.
  assert (Hsh : Z.shiftr (Z.lxor fcs b) 8 = Z.shiftr fcs 8).
  { rewrite Z.shiftr_lxor, (Z.shiftr_div_pow2 b 8) by lia. rewrite (Z.div_small b) by (simpl; lia). by rewrite Z.lxor_0_r. }
  rewrite <- Hsh, Ht. by apply IH.
Qed.

(** C39. [AtGetCrc16]: for every byte sequence the table-driven loop computes
    the CRC-16 of X.25 (reflected polynomial 0x8408, initial value 0xFFFF,
    complemented), as defined bit by bit. *)
Theorem AtGetCrc16_spec data :
  Forall (λ c, 0 <= c < 256) data → AtGetCrc16 data = Ok (crc16_x25 data).
Proof.
  intros Hd. unfold AtGetCrc16, crc16_x25. destruct (crc_loop_ok data 65535 Hd) as [-> Hr]; [lia|].
  cbn [mbind res_bind]. f_equal. set (x := foldl crc_byte 65535 data) in *. clearbody x.
  change 65535 with (Z.ones 16). rewrite Z.lxor_comm. unfold u16.
  change 65536 with (2 ^ 16). rewrite <- Z.land_ones by lia.
  apply Z.bits_inj'. intros n Hn. rewrite Z.land_spec, Z.lxor_spec, Z.lnot_spec, Z.testbit_ones by lia.
  destruct (Z.ltb_spec n 16); [rewrite (proj2 (Z.leb_le 0 n)) by lia; by destruct (Z.testbit x n)|].
  rewrite (proj2 (Z.leb_le 0 n)) by lia. simpl. rewrite andb_false_r.
  destruct (Z.eq_dec x 0) as [->|]; [by rewrite Z.testbit_0_l|]. rewrite Z.bits_above_log2; [done|lia|].
  assert (Z.log2 x < 16) by (apply Z.log2_lt_pow2; simpl; lia). lia.
Qed.

Lemma AtGetCrc16_spec_witness : AtGetCrc16 (lit "123456789") = Ok 36974.
Proof. rewrite AtGetCrc16_spec; [vm_compute; reflexivity|]. repeat constructor; done. Defined.

(** ** Theory: hexadecimal decoding *)

(** The upper-case hexadecimal text of a byte sequence. *)
Definition hex_char (d : Z) : Z := if d <? 10 then chr "0" + d else chr "A" + d - 10.
Fixpoint hex_text (bytes : list Z) : list Z :=
  match bytes with
  | [] => []
  | b :: bytes => hex_char (b / 16) :: hex_char (b mod 16) :: hex_text bytes
  end.

Lemma hex_digit_char d : 0 <= d < 16 → hex_digit (hex_char d) = Some d.
Proof.
  intros Hd. unfold hex_digit, hex_char. change (chr "0") with 48. change (chr "9") with 57.
  change (chr "A") with 65. change (chr "F") with 70. case_bools; simpl; try lia; f_equal; lia.
Qed.

Lemma nibbles b : 0 <= b < 256 → u8 (Z.lor (u8 (Z.lor 0 (u8 (Z.shiftl (b / 16) 4)))) (b mod 16)) = b.
Proof.
  intros Hb. assert (H : all_from 256 0 (λ b, u8 (Z.lor (u8 (Z.lor 0 (u8 (Z.shiftl (b / 16) 4)))) (b mod 16)) =? b) = true)
    by (vm_compute; reflexivity).
  apply (all_from_ok _ _ b) in H; [|exact Hb]. by apply Z.eqb_eq.
Qed.

Lemma length_hex_text bytes : length (hex_text bytes) = (2 * length bytes)%nat.
Proof. induction bytes; simpl; lia. Qed.

(** Decoding from an even index over bytes that are still zero. *)
Lemma str2hex_even : ∀ bytes k done_ rest,
  Forall (λ c, 0 <= c < 256) bytes → length done_ = k →
  str2hex_loop (2 * k) (hex_text bytes) (done_ ++ replicate (length bytes) 0 ++ rest) =
    Ok (0, done_ ++ bytes ++ rest).
Proof.
  induction bytes as [|b bytes IH]; intros k done_ rest Hall Hk; [done|].
  apply Forall_cons in Hall as [Hb Hall]. cbn [hex_text str2hex_loop].
  assert (E1 : Nat.even (2 * k) = true) by (by rewrite Nat.even_mul).
  assert (E2 : Nat.even (S (2 * k)) = false) by (rewrite Nat.even_succ, <- Nat.negb_even; by rewrite E1).
  rewrite hex_digit_char, E1, E2 by lia.
  replace (2 * k / 2)%nat with k by (rewrite Nat.mul_comm, Nat.div_mul; lia).
  replace (S (2 * k) / 2)%nat with k.
  2: { replace (S (2 * k)) with (1 + k * 2)%nat by lia. by rewrite Nat.div_add. }
  assert (Hg : ∀ v, or_byte k v (done_ ++ replicate (length (b :: bytes)) 0 ++ rest) =
    Ok (done_ ++ u8 (Z.lor 0 v) :: replicate (length bytes) 0 ++ rest)).
  { intros v. unfold or_byte. rewrite lookup_app_r by lia. replace (k - length done_)%nat with 0%nat by lia.
    simpl. rewrite insert_app_r_alt by lia. by replace (k - length done_)%nat with 0%nat by lia. }
  rewrite Hg. cbn [mbind res_bind]. rewrite hex_digit_char by lia.
  assert (Hg2 : ∀ u v, or_byte k v (done_ ++ u :: replicate (length bytes) 0 ++ rest) =
    Ok ((done_ ++ [u8 (Z.lor u v)]) ++ replicate (length bytes) 0 ++ rest)).
  { intros u v. unfold or_byte. rewrite lookup_app_r by lia. replace (k - length done_)%nat with 0%nat by lia.
    simpl. rewrite insert_app_r_alt by lia. replace (k - length done_)%nat with 0%nat by lia.
    by rewrite <- app_assoc. }
  rewrite Hg2. cbn [mbind res_bind]. rewrite nibbles by done.
  replace (S (S (2 * k))) with (2 * S k)%nat by lia.
  rewrite IH; [by rewrite <- app_assoc|done|rewrite length_app; simpl; lia].
Qed.

(** C40. Round trip: [AtStr2Hex] of the upper-case hexadecimal text of a non-empty
    byte sequence (the empty text is refused with -2) gives the bytes back in the destination and leaves what lies behind
    them alone. *)
Theorem AtStr2Hex_roundtrip bytes old rest :
  Forall (λ c, 0 <= c < 256) bytes → bytes ≠ [] → length old = length bytes →
  AtStr2Hex (Some (hex_text bytes)) (Some (old ++ rest)) = Ok (0, Some (bytes ++ rest)).
Proof.
  intros Hall Hne Hlen. unfold AtStr2Hex. cbv zeta. rewrite length_hex_text.
  destruct (Nat.ltb_spec (2 * length bytes) 1); [destruct bytes; simpl in *; [done|lia]|].
  rewrite (Nat.mul_comm 2), Nat.Div0.mod_mul, Nat.div_mul by lia. simpl (0 =? 0)%nat. cbv iota.
  rewrite length_app. unfold require. rewrite (proj2 (Nat.leb_le _ _)) by lia. cbn [mbind res_bind].
  rewrite drop_app_length' by done.
  pose proof (str2hex_even bytes 0 [] rest Hall eq_refl) as E. change (2 * 0)%nat with 0%nat in E.
  cbn [app] in E. by rewrite E.
Qed.

Lemma AtStr2Hex_roundtrip_witness :
  AtStr2Hex (Some (lit "400241C7")) (Some [9; 9; 9; 9; 7]) = Ok (0, Some [64; 2; 65; 199; 7]).
Proof.
  apply (AtStr2Hex_roundtrip [64; 2; 65; 199] [9; 9; 9; 9] [7]); [repeat constructor; done|discriminate|reflexivity].
Defined.

(** ** Theory: searching *)
Lemma memcmp_at_ok buf : ∀ pat i,
  (i + length pat <= length buf)%nat → ∃ r, memcmp_at buf i pat = Ok r ∧ (r = 0 ↔ occurs pat buf i).
Proof.
  unfold occurs. induction pat as [|c pat IH]; intros i Hi; [by exists 0|]. simpl in Hi |- *.
  destruct (lookup_lt_is_Some_2 buf i) as [b Hb]; [lia|]. rewrite Hb. cbn [of_option mbind res_bind].
  rewrite (drop_S _ b) by done. simpl.
  destruct (Z.eqb_spec (b - c) 0) as [He|Hne].
  - assert (b = c) as -> by lia. destruct (IH (S i)) as (r & -> & Hr); [lia|].
    exists r. split; [done|]. rewrite Hr. split; [by intros ->|by intros [=]].
  - exists (b - c). split; [done|]. split; [lia|]. intros [= ->]. lia.
Qed.

(** The same comparison over memory is [rt_memcmp]. *)
Lemma memcmp_at_memory m a p buf : ∀ pat i r,
  bytes_at m a buf → bytes_at m p pat → memcmp_at buf i pat = Ok r →
  rt_memcmp m (a + Z.of_nat i) p (Z.of_nat (length pat)) = Ok r.
Proof.
  intros pat i r Hb. unfold rt_memcmp. rewrite Nat2Z.id. revert p i r.
  induction pat as [|c pat IH]; intros p i r Hp; [done|]. cbn [memcmp_at length memcmp_loop].
  intros (b & Hi & H)%bind_ok_inv. apply of_option_ok in Hi. apply bytes_at_cons in Hp as [Hc Hp].
  rewrite (load8_ok _ _ _ (Hb i b Hi)), (load8_ok _ _ _ Hc). cbn [mbind res_bind].
  destruct (b - c =? 0); [|done]. replace (a + Z.of_nat i + 1) with (a + Z.of_nat (S i)) by lia. by apply IH.
Qed.

(** [pat] stands in the buffer at an index below [n]. *)
Definition found_in (n : nat) (pat buf : list Z) : Prop := ∃ i, (i < n)%nat ∧ occurs pat buf i.

Lemma strcompare_ok pat buf : ∀ n i,
  (i + n + length pat <= S (length buf))%nat →
  ∃ r, strcompare_loop n i buf pat = Ok r ∧ (r = 0 ∨ r = 1) ∧
    (r = 1 ↔ ∃ j, (i <= j < i + n)%nat ∧ occurs pat buf j).
Proof.
  induction n as [|n IH]; intros i Hl; simpl.
  { exists 0. split_and!; [done|by left|]. split; [done|]. intros (j & Hj & _). lia. }
  destruct (memcmp_at_ok buf pat i) as (r & -> & Hr); [lia|]. cbn [mbind res_bind].
  destruct (Z.eqb_spec r 0) as [Hz|Hnz].
  - exists 1. split_and!; [done|by right|]. split; [|done]. intros _. exists i. split; [lia|by apply Hr].
  - destruct (IH (S i)) as (r' & -> & H01 & Hr'); [lia|]. exists r'. split_and!; [done|done|]. rewrite Hr'. split.
    + intros (j & Hj & Ho). exists j. split; [lia|done].
    + intros (j & Hj & Ho). exists j. split; [|done]. destruct (decide (j = i)) as [->|]; [by apply Hr in Ho|lia].
Qed.

Lemma AtStrCompare_ok buf n pat :
  0 <= n → n + Z.of_nat (length pat) <= Z.of_nat (length buf) + 1 →
  ∃ r, AtStrCompare buf n pat = Ok r ∧ (r = 0 ∨ r = 1) ∧ (r = 1 ↔ found_in (Z.to_nat n) pat buf).
Proof.
  intros Hn Hl. destruct (strcompare_ok pat buf (Z.to_nat n) 0) as (r & E & H01 & Hr); [lia|].
  exists r. split_and!; [done|done|]. rewrite Hr. unfold found_in. split; intros (j & Hj & Ho); exists j; (split; [lia|done]).
Qed.

(** ** Theory: waiting for an answer *)
Definition has_answer (n : nat) (buf : list Z) : Prop :=
  found_in n (lit "ERROR") buf ∨ found_in n (lit "OK") buf.

Section Machine_theory.
Context {D : Type} `{HU : Uart D}.

(** The 512-byte receive buffer of a handler that reads 256 bytes at most. *)
Definition rx_ok (r : list Z * Z * D) : Prop :=
  Z.of_nat (length r.1.1) = atNbiotRxBufferSize ∧ 0 <= r.1.2 <= 256 ∧
  Forall (λ c, 0 <= c < 256) (take (Z.to_nat r.1.2) r.1.1).

Lemma answered_ok (r : list Z * Z * D) :
  rx_ok r → ∃ b, answered r.1.1 r.1.2 = Ok b ∧ (b = true ↔ has_answer (Z.to_nat r.1.2) r.1.1).
Proof.
  intros (Hl & Hn & _). unfold atNbiotRxBufferSize in Hl.
  destruct (AtStrCompare_ok r.1.1 r.1.2 (lit "ERROR")) as (e & E1 & H1 & He); [lia|rewrite Hl; vm_compute length; lia|].
  destruct (AtStrCompare_ok r.1.1 r.1.2 (lit "OK")) as (o & E2 & H2 & Ho); [lia|rewrite Hl; vm_compute length; lia|].
  unfold answered, has_answer. rewrite E1, E2. cbn [mbind res_bind].
  destruct (Z.eqb_spec e 0) as [->|Hez]; cbn [negb].
  - exists (negb (o =? 0)). split; [done|]. rewrite negb_true_iff, Z.eqb_neq. rewrite <- He, <- Ho. lia.
  - exists true. split; [done|]. split; [|done]. intros _. left. apply He. lia.
Qed.

Lemma read_round_ok (r : list Z * Z * D) : rx_ok r → ∃ r', read_round 256 r = Ok r' ∧ rx_ok r'.
Proof.
  destruct r as [[buf n] dev]. intros (Hl & Hn & Hb). simpl in Hl, Hn, Hb. unfold atNbiotRxBufferSize in Hl.
  unfold read_round. pose proof (uart_read_length (uart_delay dev 2) (256 - n) ltac:(lia)) as Hlen.
  pose proof (uart_read_bytes (uart_delay dev 2) (256 - n)) as Hby.
  destruct (uart_read (uart_delay dev 2) (256 - n)) as [data dev'] eqn:E. simpl in Hlen, Hby.
  unfold store_bytes, require. rewrite (proj2 (Nat.leb_le _ _)) by lia. cbn [mbind res_bind].
  eexists. split; [done|]. unfold rx_ok, atNbiotRxBufferSize. simpl. split_and!; [|lia|lia|].
  - rewrite !length_app, length_take, length_drop. lia.
  - assert (Ht : take (Z.to_nat (n + Z.of_nat (length data))) (take (Z.to_nat n) buf ++ data ++
        drop (Z.to_nat n + length data) buf) = take (Z.to_nat n) buf ++ data).
    { rewrite app_assoc, take_app_length'; [done|]. rewrite length_app, length_take. lia. }
    rewrite Ht. by apply Forall_app.
Qed.

Lemma read_forever_ok : ∀ fuel (r : list Z * Z * D), rx_ok r →
  match read_forever fuel 256 r with
  | Ok r' => rx_ok r' ∧ has_answer (Z.to_nat r'.1.2) r'.1.1
  | Stop e => e = OutOfFuel
  end.
Proof.
  induction fuel as [|fuel IH]; intros r Hr; cbn [read_forever];
    destruct (answered_ok r Hr) as (b & -> & Hb); cbn [mbind res_bind]; destruct b; try done;
    try (split; [done|by apply Hb]).
  destruct (read_round_ok r Hr) as (r' & -> & Hr'). cbn [mbind res_bind]. by apply IH.
Qed.

Lemma read_ticks_ok : ∀ n (r : list Z * Z * D), rx_ok r → ∃ r', read_ticks n 256 r = Ok r' ∧ rx_ok r'.
Proof.
  induction n as [|n IH]; intros r Hr; cbn [read_ticks]; [by exists r|].
  destruct (answered_ok r Hr) as (b & -> & Hb); cbn [mbind res_bind]. destruct b; [by exists r|].
  destruct (read_round_ok r Hr) as (r' & -> & Hr'). cbn [mbind res_bind]. by apply IH.
Qed.

Lemma rx_start (dev : D) : rx_ok (rx_buffer0, 0, dev).
Proof. split_and!; [vm_compute; reflexivity|simpl; lia|simpl; lia|constructor]. Qed.

Lemma AtUart3ReadTimeOut_bounds fuel TimeOutMs (dev : D) :
  match AtUart3ReadTimeOut fuel rx_buffer0 256 TimeOutMs dev with
  | Ok (buf, n, _) => Z.of_nat (length buf) = atNbiotRxBufferSize ∧ 0 <= n <= 256 ∧
      (TimeOutMs = -1 → has_answer (Z.to_nat n) buf)
  | Stop e => e = OutOfFuel ∧ TimeOutMs = -1
  end.
Proof.
  unfold AtUart3ReadTimeOut. destruct (Z.eqb_spec TimeOutMs (-1)) as [->|Hne].
  - pose proof (read_forever_ok fuel _ (rx_start dev)) as H.
    destruct (read_forever _ _ _) as [[[buf n] dev']|e]; [|by rewrite H].
    destruct H as [(Hl & Hn & _) Ha]. simpl in *. split_and!; [done|lia|lia|by intros _].
  - destruct (read_ticks_ok (Z.to_nat (Z.quot TimeOutMs 20)) _ (rx_start dev)) as ([[buf n] dev'] & -> & Hl & Hn & _).
    simpl in *. split_and!; [done|lia|lia|by intros].
Qed.

(** [AtUart3ReadTimeOut] for any behaviour of the modem: no byte is ever read
    or stored outside the buffers and at most 256 bytes are taken; without a
    time limit the call ends only with [OK] or [ERROR] in the buffer; with one
    it always ends. *)
Theorem AtUart3ReadTimeOut_safe fuel TimeOutMs (dev : D) :
  match AtUart3ReadTimeOut fuel rx_buffer0 256 TimeOutMs dev with
  | Ok (buf, n, _) => Z.of_nat (length buf) = atNbiotRxBufferSize ∧ 0 <= n <= 256 ∧
      (TimeOutMs = -1 → has_answer (Z.to_nat n) buf)
  | Stop e => e = OutOfFuel ∧ TimeOutMs = -1
  end.
Proof. apply AtUart3ReadTimeOut_bounds. Qed.

(** A full buffer without [OK] or [ERROR] in it is never looked at again: the
    thread waits for ever, whatever the modem sends later. *)
Theorem full_buffer_waits_forever fuel (buf : list Z) (dev : D) :
  Z.of_nat (length buf) = atNbiotRxBufferSize → Forall (λ c, 0 <= c < 256) (take 256 buf) →
  ¬ has_answer 256 buf →
  read_forever fuel 256 (buf, 256, dev) = Stop OutOfFuel.
Proof.
  intros Hl Hb Hno. revert dev. induction fuel as [|fuel IH]; intros dev; cbn [read_forever];
    (destruct (answered_ok (buf, 256, dev)) as (b & -> & Hans); [split_and!; [done|simpl; lia|simpl; lia|done]|]);
    (assert (b = false) as -> by (destruct b; [destruct Hno; by apply Hans|done])); cbn [mbind res_bind]; [done|].
  unfold read_round. pose proof (uart_read_length (uart_delay dev 2) (256 - 256) ltac:(lia)) as Hlen.
  destruct (uart_read (uart_delay dev 2) (256 - 256)) as [data dev'] eqn:E. simpl in Hlen.
  destruct data; [|simpl in Hlen; lia]. unfold store_bytes, require. simpl length.
  rewrite (proj2 (Nat.leb_le _ _)) by (unfold atNbiotRxBufferSize in Hl; lia).
  cbn [mbind res_bind app]. rewrite Nat.add_0_r, take_drop. simpl. apply IH.
Qed.
End Machine_theory.

(** ** Theory: numbers in an answer *)
Definition digits_of (bytes : list Z) : list Z := List.filter isdigit bytes.

Lemma isdigit_value c : isdigit c = true → digit_value c = c - chr "0".
Proof.
  unfold isdigit, digit_value. intros [_ H]%andb_true_iff. by rewrite H.
Qed.

Lemma fold_digits_value : ∀ bytes n v,
  fold_digits bytes n = Ok v →
  v = n * 10 ^ Z.of_nat (length (digits_of bytes)) + number_value 10 (reverse (digits_of bytes)).
Proof.
  induction bytes as [|c bytes IH]; intros n v; simpl.
  { intros [= <-]. change (10 ^ Z.of_nat 0) with 1. simpl. lia. }
  destruct (isdigit c) eqn:Hc; [|apply IH].
  intros (n' & Hn & H)%bind_ok_inv. unfold int in Hn. apply bind_ok_inv in Hn as (u & _ & [= <-]).
  apply IH in H. rewrite H, reverse_cons, number_value_app, length_reverse.
  cbn [length number_value]. rewrite (isdigit_value c Hc), Nat2Z.inj_succ, Z.pow_succ_r by lia. lia.
Qed.

Lemma fold_digits_app : ∀ l1 l2 n, fold_digits (l1 ++ l2) n = (n ← fold_digits l1 n; fold_digits l2 n).
Proof.
  induction l1 as [|c l1 IH]; intros l2 n; simpl; [done|]. destruct (isdigit c); [|apply IH].
  destruct (int _); simpl; [apply IH|done].
Qed.

(** The socket number of an answer is decoded wrongly: the count starts at
    -1, so every answer with [k] digits gives its number minus [10^k]; a
    one-digit socket gives a negative number. *)
Theorem AtGetSocketId_offset buf n v :
  0 <= n <= 256 → Z.of_nat (length buf) = atNbiotRxBufferSize → found_in (Z.to_nat n) (lit "OK") buf →
  AtGetSocketId buf n = Ok v →
  let ds := digits_of (take (Z.to_nat n) buf) in
  v = number_value 10 (reverse ds) - 10 ^ Z.of_nat (length ds).
Proof.
  intros Hn Hl Hok. unfold AtGetSocketId, AtCheckRecvData. unfold atNbiotRxBufferSize in Hl.
  destruct (AtStrCompare_ok buf n (lit "OK")) as (r & -> & H01 & Hr); [lia|rewrite Hl; vm_compute length; lia|].
  cbn [mbind res_bind]. assert (r = 1) as -> by (by apply Hr). cbn [Z.eqb negb AT_OK].
  unfold read_prefix. intros (bytes & Hb & Hv)%bind_ok_inv. apply bind_ok_inv in Hb as (u & _ & [= <-]).
  apply fold_digits_value in Hv. cbv zeta. rewrite Hv. unfold AT_FAIL. lia.
Qed.

Lemma AtGetSocketId_offset_witness :
  let buf := lit "0 OK" ++ replicate 508 0 in AtGetSocketId buf 4 = Ok (-10) ∧ -10 = 0 - 10 ^ 1.
Proof.
  intros buf. assert (E : AtGetSocketId buf 4 = Ok (-10)) by (vm_compute; reflexivity). split; [exact E|].
  apply (AtGetSocketId_offset buf 4 (-10)); [lia|vm_compute; reflexivity| |exact E].
  exists 2%nat. split; [vm_compute; lia|vm_compute; reflexivity].
Defined.

(** ** Theory: the notification ["+NSONMI:<socket>,<length>"] *)
Lemma find_nsonmi_ok (buf pre : list Z) : ∀ n i,
  (i <= length pre < i + n)%nat → (length pre + 8 <= length buf)%nat →
  occurs (lit "+NSONMI:") buf (length pre) →
  (∀ j, (j < length pre)%nat → ¬ occurs (lit "+NSONMI:") buf j) →
  find_nsonmi n i buf = Ok (length pre + 8)%nat.
Proof.
  induction n as [|n IH]; intros i Hi Hl Ho Hno; [lia|]. cbn [find_nsonmi].
  destruct (memcmp_at_ok buf (lit "+NSONMI:") i) as (r & -> & Hr); [vm_compute (length (lit _)); lia|].
  cbn [mbind res_bind]. destruct (decide (i = length pre)) as [->|Hne].
  - rewrite (proj2 Hr Ho). done.
  - destruct (Z.eqb_spec r 0) as [Hz|_]; [destruct (Hno i ltac:(lia)); by apply Hr|].
    apply IH; [lia|done|done|done].
Qed.

Lemma int_ok z : 0 <= z < 2147483648 → int z = Ok z.
Proof.
  intros Hz. unfold int, require. rewrite (proj2 (Z.leb_le _ _)), (proj2 (Z.ltb_lt _ _)) by lia. done.
Qed.

(** Digits, most significant first, that make a number in range. *)
Lemma prefix_value l c i :
  Forall (is_digit_of 10) (l ++ [c]) → 0 <= i →
  i * 10 ^ Z.of_nat (length (l ++ [c])) + number_value 10 (l ++ [c]) =
    (i * 10 + (c - chr "0")) * 10 ^ Z.of_nat (length l) + number_value 10 l ∧
  0 <= i * 10 + (c - chr "0") ∧
  i * 10 + (c - chr "0") <= i * 10 ^ Z.of_nat (length (l ++ [c])) + number_value 10 (l ++ [c]).
Proof.
  intros [Hl Hc%Forall_inv]%Forall_app Hi. destruct (digit_10 c Hc) as (_ & Hv & Hr).
  rewrite length_app, number_value_app. cbn [length number_value]. rewrite Hv.
  replace (Z.of_nat (length l + 1)) with (Z.of_nat (length l) + 1) by lia.
  rewrite Z.pow_add_r by lia. change (10 ^ 1) with 10.
  assert (1 <= 10 ^ Z.of_nat (length l)) by (change 1 with (10 ^ 0); apply Z.pow_le_mono_r; lia).
  pose proof (number_value_nonneg 10 l ltac:(lia) Hl). nia.
Qed.

Lemma fold_digits_reads : ∀ tmp i,
  Forall (is_digit_of 10) tmp → 0 <= i →
  i * 10 ^ Z.of_nat (length tmp) + number_value 10 tmp < 2147483648 →
  fold_digits (reverse tmp) i = Ok (i * 10 ^ Z.of_nat (length tmp) + number_value 10 tmp).
Proof.
  induction tmp as [|c tmp IH] using rev_ind; intros i Hd Hi Hv.
  { change (10 ^ Z.of_nat (length [])) with 1. cbn [number_value reverse rev_append fold_digits]. f_equal. lia. }
  destruct (prefix_value tmp c i Hd Hi) as (He & Hn & Hle). rewrite reverse_snoc.
  apply Forall_app in Hd as [Hd Hc%Forall_inv]. cbn [fold_digits]. destruct (digit_10 c Hc) as (-> & _).
  rewrite int_ok by lia. cbn [mbind res_bind]. rewrite He in Hv |- *. by apply IH.
Qed.

Lemma parse_socket_reads rest sp : ∀ tmp k i,
  Forall (is_digit_of 10) tmp → 0 <= i →
  i * 10 ^ Z.of_nat (length tmp) + number_value 10 tmp < 2147483648 →
  parse_socket (reverse tmp ++ chr "," :: rest) k sp i =
    Ok (i * 10 ^ Z.of_nat (length tmp) + number_value 10 tmp, (k + length tmp + 1)%nat).
Proof.
  induction tmp as [|c tmp IH] using rev_ind; intros k i Hd Hi Hv.
  { change (10 ^ Z.of_nat (length [])) with 1. cbn [number_value]. simpl. do 2 f_equal; lia. }
  destruct (prefix_value tmp c i Hd Hi) as (He & Hn & Hle). rewrite reverse_snoc.
  apply Forall_app in Hd as [Hd Hc%Forall_inv]. cbn [app parse_socket].
  destruct (digit_10 c Hc) as (-> & _ & Hr). rewrite int_ok by lia. cbn [mbind res_bind].
  rewrite (proj2 (Z.eqb_neq c (chr ","))) by (change (chr ",") with 44; change (chr "0") with 48 in Hr; lia).
  rewrite He in Hv |- *. rewrite IH by done. do 2 f_equal. rewrite length_app. simpl. lia.
Qed.

(** ** A scripted modem, and a log of what is written *)
Record modem := mk_modem { replies : list (list Z); fifo : list Z }.

Lemma modem_read_length f n : 0 <= n → Z.of_nat (length (u8 <$> take (Z.to_nat n) f)) <= n.
Proof. intros Hn. rewrite length_fmap, length_take. lia. Qed.

Lemma modem_read_bytes f n : Forall (λ c, 0 <= c < 256) (u8 <$> take (Z.to_nat n) f).
Proof. apply Forall_fmap, Forall_true. intros c. unfold compose, u8. lia. Qed.

(** Each command is answered with the next of the [replies]. *)
#[global] Instance modem_uart : Uart modem := {
  uart_read d n := (u8 <$> take (Z.to_nat n) (fifo d), mk_modem (replies d) (drop (Z.to_nat n) (fifo d)));
  uart_write d _ := match replies d with [] => d | r :: rs => mk_modem rs (fifo d ++ r) end;
  uart_delay d _ := d;
  uart_read_length d n := modem_read_length (fifo d) n;
  uart_read_bytes d n := modem_read_bytes (fifo d) n }.

(** Any device with the list of what was written to it. *)
#[global] Instance logged_uart {D} `{Uart D} : Uart (D * list (list Z)) := {
  uart_read d n := let '(data, d') := uart_read d.1 n in (data, (d', d.2));
  uart_write d c := (uart_write d.1 c, d.2 ++ [c]);
  uart_delay d t := (uart_delay d.1 t, d.2);
  uart_read_length d n Hn := ltac:(generalize (uart_read_length d.1 n Hn); by destruct (uart_read d.1 n));
  uart_read_bytes d n := ltac:(generalize (uart_read_bytes d.1 n); by destruct (uart_read d.1 n)) }.

Section Machine_properties.
Context {D : Type} `{HU : Uart D}.

(** A message notification is understood: if what was read within a second
    is [+NSONMI:<socket>,<length>] behind any text without ["+NSONMI:"], and
    nothing with digits follows, the numbers are stored and the machine goes on
    to read the message. *)
Theorem NSONMI_parses s (dev dev' : D) buf n pre d1 d2 tail :
  AtUart3ReadTimeOut 0 rx_buffer0 256 1000 dev = Ok (buf, n, dev') →
  take (Z.to_nat n) buf = pre ++ lit "+NSONMI:" ++ reverse d1 ++ chr "," :: reverse d2 ++ tail →
  (∀ j, (j < length pre)%nat → ¬ occurs (lit "+NSONMI:") buf j) →
  Forall (is_digit_of 10) d1 → Forall (is_digit_of 10) d2 → digits_of tail = [] →
  number_value 10 d1 < 2147483648 → number_value 10 d2 < 2147483648 →
  nbiot_atcmd_NSONMI s dev =
    Ok (set_state AT_READ_MSG SEND_TO_NBIOT (set_smsg (number_value 10 d1) (number_value 10 d2) s), dev').
Proof.
  intros E Hbuf Hno H1 H2 Ht V1 V2. unfold nbiot_atcmd_NSONMI. rewrite E. cbn [mbind res_bind].
  pose proof (AtUart3ReadTimeOut_bounds 0 1000 dev) as Hs. rewrite E in Hs. destruct Hs as (Hl & Hn & _).
  unfold atNbiotRxBufferSize in Hl.
  assert (Hlen : (length pre + 9 <= Z.to_nat n)%nat).
  { apply (f_equal length) in Hbuf. rewrite length_take, !length_app in Hbuf. cbn [length] in Hbuf.
    change (length (lit "+NSONMI:")) with 8%nat in Hbuf. lia. }
  destruct (Z.eqb_spec n 0); [lia|].
  assert (Hocc : occurs (lit "+NSONMI:") buf (length pre)).
  { unfold occurs. change (length (lit "+NSONMI:")) with 8%nat.
    assert (Htt : take 8 (drop (length pre) (take (Z.to_nat n) buf)) = lit "+NSONMI:").
    { rewrite Hbuf, drop_app_length. done. }
    rewrite <- Htt. rewrite !take_drop_commute, take_take. do 2 f_equal. lia. }
  rewrite (find_nsonmi_ok buf pre) by (done || lia). cbn [mbind res_bind].
  destruct (Nat.eqb_spec (length pre + 8) 0); [lia|].
  unfold read_prefix, require. rewrite (proj2 (Z.leb_le _ _)) by lia. cbn [mbind res_bind].
  rewrite Hbuf, app_assoc.
  assert (Hd : drop (length pre + 8) ((pre ++ lit "+NSONMI:") ++ reverse d1 ++ chr "," :: reverse d2 ++ tail) =
    reverse d1 ++ chr "," :: reverse d2 ++ tail).
  { apply drop_app_length'. rewrite length_app. done. }
  rewrite Hd, parse_socket_reads by (done || lia). cbn [mbind res_bind].
  assert (Hd2 : drop (length pre + 8 + length d1 + 1) ((pre ++ lit "+NSONMI:") ++ reverse d1 ++ chr "," :: reverse d2 ++ tail) =
    reverse d2 ++ tail).
  { rewrite cons_middle, !app_assoc. rewrite <- (app_assoc _ (reverse d2)). apply drop_app_length'.
    rewrite !length_app, length_reverse. simpl. lia. }
  rewrite Hd2, fold_digits_app, fold_digits_reads by (done || lia). cbn [mbind res_bind].
  assert (Htl : ∀ l i, digits_of l = [] → fold_digits l i = Ok i).
  { induction l as [|c l IH]; intros i; simpl; [done|]. destruct (isdigit c); [done|apply IH]. }
  by rewrite Htl.
Qed.
End Machine_properties.

Definition demo_note : list Z := lit "+NSONMI:0,4" ++ [13; 10].

Lemma NSONMI_parses_witness :
  ∃ d, nbiot_atcmd_NSONMI at_boot (mk_modem [] demo_note) =
    Ok (mk_at AT_READ_MSG SEND_TO_NBIOT 0 0 4, d).
Proof.
  exists (mk_modem [] []).
  apply (NSONMI_parses at_boot (mk_modem [] demo_note) (mk_modem [] []) (demo_note ++ replicate 499 0) 13 []
    [chr "0"] [chr "4"] [13; 10]); try (vm_compute; reflexivity).
  - intros j Hj. simpl in Hj. lia.
  - repeat constructor. exists false, 0. split; [lia|reflexivity].
  - repeat constructor. exists false, 4. split; [lia|reflexivity].
Defined.

Definition no_answer_at (buf : list Z) (k : Z) : bool :=
  negb (bool_decide (take 2 (drop (Z.to_nat k) buf) = lit "OK")) &&
  negb (bool_decide (take 5 (drop (Z.to_nat k) buf) = lit "ERROR")).

Lemma no_answer_ok n buf : all_from n 0 (no_answer_at buf) = true → ¬ has_answer n buf.
Proof.
  intros H. assert (Hk : ∀ i, (i < n)%nat → no_answer_at buf (Z.of_nat i) = true)
    by (intros i Hi; apply (all_from_ok _ _ _ _ H); lia).
  unfold no_answer_at in Hk. intros [(i & Hi & Ho)|(i & Hi & Ho)]; specialize (Hk i Hi); rewrite Nat2Z.id in Hk;
    apply andb_true_iff in Hk as [H1%negb_true_iff%bool_decide_eq_false H2%negb_true_iff%bool_decide_eq_false]; done.
Qed.

Lemma full_buffer_waits_forever_witness :
  read_forever 5 256 (replicate 512 65, 256, mk_modem [] (lit "OK")) = Stop OutOfFuel.
Proof.
  apply full_buffer_waits_forever; [vm_compute; reflexivity| |].
  - apply Forall_take, Forall_replicate. lia.
  - apply no_answer_ok. vm_compute. reflexivity.
Defined.

(** ** The endless loop *)
Section Loop.
Context {D : Type} `{HU : Uart D}.
Abbreviation LD := (D * list (list Z))%type.

(** Reading writes nothing. *)
Lemma read_round_log size buf n (dev : LD) buf' n' dev' :
  read_round size (buf, n, dev) = Ok (buf', n', dev') → dev'.2 = dev.2.
Proof.
  unfold read_round. cbn [uart_read uart_delay logged_uart].
  destruct (uart_read _ _) as [data d]. intros (b & _ & [= <- <- <-])%bind_ok_inv. done.
Qed.

Lemma read_forever_log : ∀ fuel size buf n (dev : LD) buf' n' dev',
  read_forever fuel size (buf, n, dev) = Ok (buf', n', dev') → dev'.2 = dev.2.
Proof.
  induction fuel as [|fuel IH]; intros size buf n dev buf' n' dev'; cbn [read_forever];
    intros (found & _ & H)%bind_ok_inv; destruct found; try done; try by injection H as <- <- <-.
  apply bind_ok_inv in H as ([[b1 n1] d1] & Hr & H). apply IH in H. apply read_round_log in Hr. congruence.
Qed.

(** What a command handler can do. *)
Lemma command_cases fuel cmd on_ok s (dev : LD) s' dev' :
  command fuel cmd on_ok s dev = Ok (s', dev') →
  (link_NBIOT s = SEND_TO_NBIOT ∧ s' = set_link RECV_FROM_NBIOT s ∧ ∃ c, cmd = Ok c ∧ dev'.2 = dev.2 ++ [c]) ∨
  (link_NBIOT s ≠ SEND_TO_NBIOT ∧ dev'.2 = dev.2 ∧
    (s' = s ∨ ∃ buf n, found_in (Z.to_nat n) (lit "OK") buf ∧ on_ok buf n s = Ok s')).
Proof.
  unfold command. destruct (Z.eqb_spec (link_NBIOT s) SEND_TO_NBIOT) as [Hl|Hl].
  - unfold send_command. intros (c & Hc & [= <- <-])%bind_ok_inv. left. eauto.
  - destruct (link_NBIOT s =? RECV_FROM_NBIOT); [|intros [= <- <-]; right; auto].
    unfold await_answer. intros ([[buf n] d] & Hr & (i & Hi & H)%bind_ok_inv)%bind_ok_inv. right.
    pose proof (AtUart3ReadTimeOut_bounds fuel (-1) dev) as Hb. rewrite Hr in Hb.
    destruct Hb as (Hlen & Hn & _). unfold atNbiotRxBufferSize in Hlen.
    unfold AtUart3ReadTimeOut in Hr. cbn [Z.eqb] in Hr. apply read_forever_log in Hr.
    destruct (i =? AT_OK) eqn:Hok.
    + apply bind_ok_inv in H as (s1 & Hs & [= <- <-]). split_and!; [done|done|]. right. exists buf, n. split; [|done].
      unfold AtCheckRecvData in Hi. destruct (AtStrCompare_ok buf n (lit "OK")) as (r & E & H01 & Hfound);
        [lia|rewrite Hlen; vm_compute length; lia|].
      rewrite E in Hi. cbn [mbind res_bind] in Hi. injection Hi as <-. apply Hfound.
      destruct H01 as [->| ->]; [done|done].
    + injection H as <- <-. auto.
Qed.

(** The two states between which the machine alternates. *)
Definition configuring (s : at_state) : Prop := atstate s = AT_AUTO_CONN_CFG ∨ atstate s = AT_CREATE_SOCKET.
Definition config_command (c : list Z) : Prop := c = cmd_NCONFIG ∨ Ok c = cmd_NSOCR.

Lemma at_round_configuring fuel s (dev : LD) s' dev' :
  configuring s → at_round fuel s dev = Ok (s', dev') →
  configuring s' ∧ ∃ l, dev'.2 = dev.2 ++ l ∧ Forall config_command l.
Proof.
  intros Hs. unfold at_round. intros ([s1 d1] & H & [= <- <-])%bind_ok_inv. simpl.
  assert (Hcase : (atstate s = AT_AUTO_CONN_CFG ∧ nbiot_atcmd_NCONFIG fuel s dev = Ok (s1, d1)) ∨
    (atstate s = AT_CREATE_SOCKET ∧ nbiot_atcmd_NSOCR fuel s dev = Ok (s1, d1))).
  { destruct Hs as [E|E]; rewrite E in H; [by left|by right]. }
  clear H. destruct Hcase as [[E H]|[E H]]; apply command_cases in H as
    [(_ & -> & c & Hc & ->)|(_ & -> & [->|(buf & n & _ & Hok)])].
  - split; [by left|]. exists [c]. split; [done|]. constructor; [|constructor]. left. congruence.
  - split; [by left|]. exists []. by rewrite app_nil_r.
  - injection Hok as <-. split; [by right|]. exists []. by rewrite app_nil_r.
  - split; [by right|]. exists [c]. split; [done|]. constructor; [|constructor]. by right.
  - split; [by right|]. exists []. by rewrite app_nil_r.
  - apply bind_ok_inv in Hok as (i & _ & [= <-]). split; [by left|]. exists []. by rewrite app_nil_r.
Qed.

(** The machine never gets past the creation of the socket: whatever the
    modem answers and however long the loop runs, [atstate] stays
    [AT_AUTO_CONN_CFG] or [AT_CREATE_SOCKET] and the only commands ever written
    are those two; no message is ever sent. *)
Theorem never_sends_a_message n fuel (dev : D) s' dev' log' :
  at_rounds n fuel at_boot (dev, []) = Ok (s', (dev', log')) →
  atstate s' ≠ AT_SEND_MSG ∧ configuring s' ∧ Forall config_command log'.
Proof.
  assert (H : ∀ n s (d : LD) s1 (d1 : LD), configuring s → at_rounds n fuel s d = Ok (s1, d1) →
    configuring s1 ∧ ∃ l, d1.2 = d.2 ++ l ∧ Forall config_command l).
  { clear. induction n as [|n IH]; intros s d s1 d1 Hs; cbn [at_rounds].
    - intros [= <- <-]. split; [done|]. exists []. by rewrite app_nil_r.
    - intros ([s2 d2] & Hr & H)%bind_ok_inv. apply at_round_configuring in Hr as (Hs2 & l & Hl & Hc); [|done].
      apply IH in H as (Hs1 & l' & Hl' & Hc'); [|done]. split; [done|]. exists (l ++ l').
      rewrite Hl', Hl, app_assoc. split; [done|by apply Forall_app]. }
  intros Hr. apply H in Hr as (Hs & l & Hl & Hc); [|by left]. simpl in Hl. subst l.
  split_and!; [|done|done]. destruct Hs as [->| ->]; done.
Qed.

(** While a command waits for its answer, a round of the loop writes nothing
    and changes the state only when the answer contains [OK]: after an [ERROR]
    the command is not sent again, the machine keeps waiting for another
    answer. *)
Theorem error_is_not_retried fuel s (dev : D) log s' dev' log' :
  link_NBIOT s = RECV_FROM_NBIOT → atstate s ≠ AT_RECV_MSG →
  at_round fuel s (dev, log) = Ok (s', (dev', log')) →
  log' = log ∧ (s' = s ∨ ∃ (buf : list Z) n, found_in n (lit "OK") buf).
Proof.
  intros Hl Hr. unfold at_round. intros ([s1 d1] & H & Hs)%bind_ok_inv. injection Hs as <- <- <-.
  assert (Hc : ∀ cmd on_ok, command fuel cmd on_ok s ((dev, log) : LD) = Ok (s1, d1) →
    d1.2 = log ∧ (s1 = s ∨ ∃ (buf : list Z) n, found_in n (lit "OK") buf)).
  { intros cmd on_ok [(E & _)|(_ & ? & [->|(buf & n & Hf & _)])]%command_cases; [by rewrite E in Hl|auto|eauto]. }
  destruct (atstate s =? AT_AUTO_CONN_CFG); [by eapply Hc|].
  destruct (atstate s =? AT_CREATE_SOCKET); [by eapply Hc|].
  destruct (atstate s =? AT_SEND_MSG); [by eapply Hc|].
  destruct (Z.eqb_spec (atstate s) AT_RECV_MSG); [done|].
  destruct (atstate s =? AT_READ_MSG); [by eapply Hc|].
  destruct (atstate s =? AT_CLOSE_SOCKET); [by eapply Hc|].
  injection H as <- <-. auto.
Qed.
End Loop.

(** A modem that accepts everything: after four rounds the machine is back at
    the first command, and the socket number of the answer [0] is -10. *)
Definition accepting : modem :=
  mk_modem [lit "OK"; lit "0 OK"; lit "OK"; lit "0 OK"] [].

Lemma accepting_run :
  ∃ d, at_rounds 4 5 at_boot (accepting, []) = Ok (mk_at AT_AUTO_CONN_CFG SEND_TO_NBIOT (-10) 0 0, d).
Proof. eexists. vm_compute. reflexivity. Qed.

Lemma never_sends_a_message_witness :
  ∃ s' dev' log', at_rounds 8 5 at_boot (accepting, []) = Ok (s', (dev', log')) ∧
    atstate s' ≠ AT_SEND_MSG ∧ length log' = 4%nat.
Proof.
  set (r := at_rounds 8 5 at_boot (accepting, [])).
  assert (E : ∃ s' dev' log', r = Ok (s', (dev', log')) ∧ length log' = 4%nat).
  { do 3 eexists. split; [vm_compute; reflexivity|vm_compute; reflexivity]. }
  destruct E as (s' & dev' & log' & E & Hl). exists s', dev', log'. split; [exact E|]. split; [|exact Hl].
  exact (proj1 (never_sends_a_message 8 5 accepting s' dev' log' E)).
Defined.

Lemma error_is_not_retried_witness :
  let s := mk_at AT_CREATE_SOCKET RECV_FROM_NBIOT 0 0 0 in
  ∃ s' dev' log', at_round 5 s (mk_modem [] (lit "ERROR"), [cmd_NCONFIG]) = Ok (s', (dev', log')) ∧
    log' = [cmd_NCONFIG].
Proof.
  intros s. set (r := at_round 5 s (mk_modem [] (lit "ERROR"), [cmd_NCONFIG])).
  assert (E : ∃ s' dev' log', r = Ok (s', (dev', log'))) by (do 3 eexists; vm_compute; reflexivity).
  destruct E as (s' & dev' & log' & E). exists s', dev', log'. split; [exact E|].
  exact (proj1 (error_is_not_retried 5 s (mk_modem [] (lit "ERROR")) [cmd_NCONFIG] s' dev' log'
    eq_refl ltac:(discriminate) E)).
Defined.
