(* ===== verification/Mmio.v ===== *)
(** * Memory-mapped registers

    The drivers reach the chip through [__REG8] and [__REG32] of [ls1c.h].  What a
    register does is not in the sources: the hardware is an interface.  A read may
    change it (a receive register gives the next byte), a write may do anything.
    [Storage] names the registers that only keep what is written to them, which
    the manual says of enable, direction, output and configuration registers. *)
From S2P Require Import Prelude.
Local Open Scope Z_scope.

Class Mmio (H : Type) := {
  mmio_read8 : H → Z → Z * H;
  mmio_write8 : H → Z → Z → H;
  mmio_read32 : H → Z → Z * H;
  mmio_write32 : H → Z → Z → H;
}.

Section operations.
Context {H : Type} `{Mmio H}.

(** [REG |= x] and [REG &= ~x] *)
Definition reg32_or (h : H) (a x : Z) : H :=
  let '(v, h) := mmio_read32 h a in mmio_write32 h a (Z.lor v (u32 x)).
Definition reg32_and (h : H) (a x : Z) : H :=
  let '(v, h) := mmio_read32 h a in mmio_write32 h a (Z.land v (u32 x)).
Definition reg32_clear (h : H) (a x : Z) : H := reg32_and h a (Z.lnot x).
Definition reg8_or (h : H) (a x : Z) : H :=
  let '(v, h) := mmio_read8 h a in mmio_write8 h a (u8 (Z.lor v x)).
Definition reg8_clear (h : H) (a x : Z) : H :=
  let '(v, h) := mmio_read8 h a in mmio_write8 h a (u8 (Z.land v (Z.lnot x))).
End operations.

(** 32-bit registers at the addresses of [ram] keep their contents. *)
Class Storage (H : Type) `{Mmio H} (ram : Z → bool) := {
  peek : H → Z → Z;
  storage_read h a : ram a = true → mmio_read32 h a = (peek h a, h);
  storage_write h a v : ram a = true → 0 <= v < 4294967296 → peek (mmio_write32 h a v) a = v;
  storage_other h a b v : ram a = true → ram b = true → a ≠ b → peek (mmio_write32 h a v) b = peek h b;
  storage_range h a : ram a = true → 0 <= peek h a < 4294967296;
}.

Lemma in_range_testbit v :
  0 <= v < 4294967296 ↔ 0 <= v ∧ ∀ i, 32 <= i → Z.testbit v i = false.
Proof.
  split.
  - intros Hv. split; [lia |]. intros i Hi. apply Z.bits_above_log2; [lia |].
    destruct (Z.eq_dec v 0) as [-> |]; [simpl; lia |].
    assert (Z.log2 v < 32) by (apply Z.log2_lt_pow2; lia). lia.
  - intros [H0 Hb]. split; [done |]. destruct (Z.eq_dec v 0) as [-> |]; [lia |].
    destruct (Z.lt_ge_cases (Z.log2 v) 32) as [Hl | Hl].
    + change 4294967296 with (2 ^ 32). apply Z.log2_lt_pow2; lia.
    + specialize (Hb (Z.log2 v) Hl). rewrite Z.bit_log2 in Hb by lia. done.
Qed.

Lemma u32_testbit x i : 0 <= i → Z.testbit (u32 x) i = (i <? 32) && Z.testbit x i.
Proof.
  intros Hi. unfold u32. change 4294967296 with (2 ^ 32). destruct (Z.ltb_spec i 32).
  - by rewrite Z.mod_pow2_bits_low by lia.
  - by rewrite Z.mod_pow2_bits_high by lia.
Qed.
Lemma u32_in_range x : 0 <= u32 x < 4294967296.
Proof. unfold u32. lia. Qed.

Lemma lor_in_range a b :
  0 <= a < 4294967296 → 0 <= b < 4294967296 → 0 <= Z.lor a b < 4294967296.
Proof.
  rewrite !in_range_testbit. intros [? Ha] [? Hb]. split; [by apply Z.lor_nonneg |].
  intros i Hi. by rewrite Z.lor_spec, Ha, Hb.
Qed.
Lemma land_in_range a b : 0 <= a < 4294967296 → 0 <= b → 0 <= Z.land a b < 4294967296.
Proof.
  rewrite !in_range_testbit. intros [? Ha] Hb. split; [apply Z.land_nonneg; by left |].
  intros i Hi. by rewrite Z.land_spec, Ha.
Qed.

(** [x & (1 << n)] as a condition *)
Lemma land_bit_test x n : 0 <= n → negb (Z.land x (Z.shiftl 1 n) =? 0) = Z.testbit x n.
Proof.
  intros Hn. destruct (Z.testbit x n) eqn:E.
  - apply negb_true_iff, Z.eqb_neq. intros H0.
    assert (Hb : Z.testbit (Z.land x (Z.shiftl 1 n)) n = true).
    { by rewrite Z.land_spec, E, Z.shiftl_1_l, Z.pow2_bits_true. }
    by rewrite H0, Z.bits_0 in Hb.
  - apply negb_false_iff, Z.eqb_eq, Z.bits_inj_0. intros i.
    destruct (Z.lt_ge_cases i 0); [by apply Z.testbit_neg_r |].
    rewrite Z.land_spec, Z.shiftl_1_l, Z.pow2_bits_eqb by lia.
    destruct (Z.eqb_spec n i) as [<- |]; [by rewrite E | by rewrite andb_false_r].
Qed.

Section storage.
Context {H : Type} `{HS : Storage H ram}.

(** Bit [n] of the register at [a] is [b]; all other bits and the other
    registers are as before. *)
Definition sets_bit (a n : Z) (b : bool) (h h' : H) : Prop :=
  (∀ i, 0 <= i < 32 → Z.testbit (peek h' a) i = if i =? n then b else Z.testbit (peek h a) i) ∧
  ∀ a', ram a' = true → a' ≠ a → peek h' a' = peek h a'.

Lemma reg32_or_bit h a n :
  ram a = true → 0 <= n < 32 → sets_bit a n true h (reg32_or h a (Z.shiftl 1 n)).
Proof.
  intros Ha Hn. unfold reg32_or. rewrite storage_read by done.
  pose proof (storage_range h a Ha). pose proof (u32_in_range (Z.shiftl 1 n)).
  split.
  - intros i Hi. rewrite storage_write by (done || by apply lor_in_range).
    rewrite Z.lor_spec, u32_testbit, (proj2 (Z.ltb_lt i 32)), Z.shiftl_1_l, Z.pow2_bits_eqb by lia.
    rewrite (Z.eqb_sym n i). simpl. destruct (i =? n); [by rewrite orb_true_r | by rewrite orb_false_r].
  - intros a' Ha' Hne. by rewrite storage_other by done.
Qed.

Lemma reg32_clear_bit h a n :
  ram a = true → 0 <= n < 32 → sets_bit a n false h (reg32_clear h a (Z.shiftl 1 n)).
Proof.
  intros Ha Hn. unfold reg32_clear, reg32_and. rewrite storage_read by done.
  pose proof (storage_range h a Ha). pose proof (u32_in_range (Z.lnot (Z.shiftl 1 n))).
  split.
  - intros i Hi. rewrite storage_write by (done || apply land_in_range; lia).
    rewrite Z.land_spec, u32_testbit, (proj2 (Z.ltb_lt i 32)), Z.lnot_spec, Z.shiftl_1_l, Z.pow2_bits_eqb by lia.
    rewrite (Z.eqb_sym n i). simpl. destruct (i =? n); [by rewrite andb_false_r | by rewrite andb_true_r].
  - intros a' Ha' Hne. by rewrite storage_other by done.
Qed.
End storage.

(** ** Plain registers: a map from addresses to words *)
Abbreviation regs := (gmap Z Z).
Definition reg_at (h : regs) (a : Z) : Z := u32 (default 0 (h !! a)).
#[global] Instance plain_mmio : Mmio regs := {
  mmio_read8 h a := (u8 (reg_at h a), h);
  mmio_write8 h a v := <[a := u8 v]> h;
  mmio_read32 h a := (reg_at h a, h);
  mmio_write32 h a v := <[a := u32 v]> h;
}.

#[global] Program Instance plain_storage : Storage regs (λ _, true) := {| peek := reg_at |}.
Next Obligation. done. Qed.
Next Obligation.
  intros h a v _ Hv. unfold reg_at. cbn [mmio_write32 plain_mmio]. rewrite lookup_insert_eq.
  cbn. unfold id, u32. rewrite !Z.mod_small; [done | lia | lia].
Qed.
Next Obligation. intros h a b v _ _ Hne. unfold reg_at. cbn [mmio_write32 plain_mmio].
  by rewrite lookup_insert_ne. Qed.
Next Obligation. intros h a _. apply u32_in_range. Qed.
