(* ===== verification/Interrupt.v ===== *)
(** * Interrupts of the Loongson 1C: [libcpu/mips/loongson_1c/interrupt.c]

    Five groups of six registers and a table of 160 handlers.  The state [St] of
    the rest of the system is a parameter: a handler, named by its address, works
    on it through [run_isr], and the tick of the clock is [timer_handler]. *)
From S2P Require Import Prelude Mmio.
Local Open Scope Z_scope.

Definition MAX_INTR : Z := 160.

Definition LS1C_INT0_BASE : Z := 0xBFD01040.
Definition LS1C_INT1_BASE : Z := 0xBFD01058.
Definition LS1C_INT2_BASE : Z := 0xBFD01070.
Definition LS1C_INT3_BASE : Z := 0xBFD01088.
Definition LS1C_INT4_BASE : Z := 0xBFD010A0.

(** [struct ls1c_intc_regs]: the registers of the group at [base]. *)
Definition int_isr (base : Z) : Z := base.
Definition int_en (base : Z) : Z := base + 4.
Definition int_set (base : Z) : Z := base + 8.
Definition int_clr (base : Z) : Z := base + 12.
Definition int_pol (base : Z) : Z := base + 16.
Definition int_edge (base : Z) : Z := base + 20.
(** [ls1c_hw0_icregs + n] *)
Definition icregs (n : Z) : Z := LS1C_INT0_BASE + 24 * n.

(** [handler] is [None] for a null pointer. *)
Record rt_irq_desc := mk_desc { handler : option Z; param : Z; irq_name : list Z; counter : Z }.

Section interrupts.
Context {St : Type} `{Mmio St}.
Context (run_isr : Z → Z → Z → St → res St) (timer_handler : St → res St).
(** The address of [rt_hw_interrupt_handler], which reports an unhandled one. *)
Context (rt_hw_interrupt_handler : Z).

Definition rt_hw_interrupt_init (s : St) : list rt_irq_desc * St :=
  let s := mmio_write32 s (int_pol (icregs 0)) 0xffffffff in
  let s := mmio_write32 s (int_pol LS1C_INT1_BASE) 0xffffffff in
  let s := mmio_write32 s (int_pol LS1C_INT2_BASE) 0xffffffff in
  let s := mmio_write32 s (int_pol LS1C_INT3_BASE) 0xffffffff in
  let s := mmio_write32 s (int_pol LS1C_INT4_BASE) 0xffffffff in
  let s := mmio_write32 s (int_edge (icregs 0)) 0x0000e000 in
  let s := mmio_write32 s (int_edge LS1C_INT1_BASE) 0 in
  let s := mmio_write32 s (int_edge LS1C_INT2_BASE) 0 in
  let s := mmio_write32 s (int_edge LS1C_INT3_BASE) 0 in
  let s := mmio_write32 s (int_edge LS1C_INT4_BASE) 0 in
  let s := mmio_write32 s (int_clr (icregs 0)) 0xffffffff in
  let s := mmio_write32 s (int_clr LS1C_INT1_BASE) 0xffffffff in
  let s := mmio_write32 s (int_clr LS1C_INT2_BASE) 0xffffffff in
  let s := mmio_write32 s (int_clr LS1C_INT3_BASE) 0xffffffff in
  let s := mmio_write32 s (int_clr LS1C_INT4_BASE) 0xffffffff in
  (replicate (Z.to_nat MAX_INTR) (mk_desc (Some rt_hw_interrupt_handler) 0 [] 0), s).

(** [1 << (vector & 0x1f)]: the shift into the sign bit gives bit 31. *)
Definition vector_bit (vector : Z) : Z := Z.shiftl 1 (Z.land vector 31).
Definition vector_group (vector : Z) : Z := icregs (Z.shiftr vector 5).
Definition rt_hw_interrupt_mask (vector : Z) (s : St) : St :=
  reg32_clear s (int_en (vector_group vector)) (vector_bit vector).
Definition rt_hw_interrupt_umask (vector : Z) (s : St) : St :=
  reg32_or s (int_en (vector_group vector)) (vector_bit vector).

(** The result is the handler before; out of range nothing happens. *)
Definition rt_hw_interrupt_install (vector : Z) (new_handler : option Z) (p : Z) (name : list Z)
    (irq_handle_table : list rt_irq_desc) : option Z * list rt_irq_desc :=
  if (0 <=? vector) && (vector <? MAX_INTR) then
    match irq_handle_table !! Z.to_nat vector with
    | Some d =>
        (handler d, <[Z.to_nat vector := mk_desc new_handler p (take 10 name) (counter d)]> irq_handle_table)
    | None => (None, irq_handle_table)
    end
  else (None, irq_handle_table).

(** The number of the lowest bit that is set, 32 if there is none. *)
Fixpoint ffs_loop (n : nat) (i : Z) (intstatus : Z) : Z :=
  match n with
  | O => i
  | S n => if Z.testbit intstatus i then i else ffs_loop n (i + 1) intstatus
  end.
Definition ls1x_ffs (intstatus : Z) : Z := ffs_loop 32 0 intstatus.

(** [run_isr] works on [St], of which the table is no part: a handler does not
    install handlers while it runs. *)
Definition ls1x_do_IRQ (irq : Z) (table : list rt_irq_desc) (s : St) : res (list rt_irq_desc * St) :=
  d ← of_option OutOfBounds (table !! Z.to_nat irq);
  f ← of_option NullDeref (handler d);
  s ← run_isr f irq (param d) s;
  Ok (<[Z.to_nat irq := mk_desc (handler d) (param d) (irq_name d) (u32 (counter d + 1))]> table, s).

Definition ls1x_irq_dispatch (n : Z) (table : list rt_irq_desc) (s : St) : res (list rt_irq_desc * St) :=
  let '(isr, s) := mmio_read32 s (int_isr (icregs n)) in
  let '(en, s) := mmio_read32 s (int_en (icregs n)) in
  let intstatus := Z.land isr en in
  if negb (intstatus =? 0) then
    let irq := ls1x_ffs intstatus in
    '(table, s) ← ls1x_do_IRQ (Z.shiftl n 5 + irq) table s;
    Ok (table, reg32_or s (int_clr (icregs n)) (Z.shiftl 1 irq))
  else Ok (table, s).

Definition ST0_IM : Z := 0xff00.
Definition CAUSEF_IP (n : Z) : Z := Z.shiftl 1 (8 + n).

(** [read_c0_status()], [read_c0_cause()] are the arguments. *)
Definition rt_interrupt_dispatch (c0_status c0_cause : Z) (table : list rt_irq_desc) (s : St)
    : res (list rt_irq_desc * St) :=
  let pending_im := Z.land (Z.land c0_cause ST0_IM) (Z.land c0_status ST0_IM) in
  let pending n := negb (Z.land pending_im (CAUSEF_IP n) =? 0) in
  if pending 7 then s ← timer_handler s; Ok (table, s)
  else if pending 2 then ls1x_irq_dispatch 0 table s
  else if pending 3 then ls1x_irq_dispatch 1 table s
  else if pending 4 then ls1x_irq_dispatch 2 table s
  else if pending 5 then ls1x_irq_dispatch 3 table s
  else if pending 6 then ls1x_irq_dispatch 4 table s
  else Ok (table, s).
End interrupts.

(** ** Properties *)

(** A table of 160 entries, each with a handler. *)
Record table_ok (t : list rt_irq_desc) : Prop := {
  table_length : Z.of_nat (length t) = MAX_INTR;
  table_handlers : Forall (λ d, is_Some (handler d)) t;
}.

Lemma table_ok_init {St} `{Mmio St} h (s : St) : table_ok (rt_hw_interrupt_init h s).1.
Proof. split; [done |]. apply Forall_replicate. by eexists. Qed.

Lemma table_ok_insert t i d : table_ok t → is_Some (handler d) → table_ok (<[i := d]> t).
Proof. intros [Hl Hf] Hd. split; [by rewrite length_insert | by apply Forall_insert]. Qed.

Lemma table_ok_install v h p name t :
  table_ok t → table_ok (rt_hw_interrupt_install v (Some h) p name t).2.
Proof.
  intros Ht. unfold rt_hw_interrupt_install. destruct (_ && _); [| done].
  destruct (t !! Z.to_nat v); [| done]. by apply table_ok_insert.
Qed.

Lemma table_lookup t v :
  table_ok t → 0 <= v < MAX_INTR → ∃ d f, t !! Z.to_nat v = Some d ∧ handler d = Some f.
Proof.
  intros [Hl Hf] Hv. destruct (lookup_lt_is_Some_2 t (Z.to_nat v)) as [d Hd]; [lia |].
  rewrite Forall_lookup in Hf. destruct (Hf _ _ Hd) as [f Hf']. by exists d, f.
Qed.

(** Installing changes one entry and gives back the handler it had. *)
Lemma rt_hw_interrupt_install_spec v h p name t :
  table_ok t → 0 <= v < MAX_INTR →
  ∃ d t', t !! Z.to_nat v = Some d ∧
    rt_hw_interrupt_install v (Some h) p name t = (handler d, t') ∧ table_ok t' ∧
    t' !! Z.to_nat v = Some (mk_desc (Some h) p (take 10 name) (counter d)) ∧
    ∀ i, i ≠ Z.to_nat v → t' !! i = t !! i.
Proof.
  intros Ht Hv. destruct (table_lookup t v Ht Hv) as (d & f & Hd & _).
  unfold rt_hw_interrupt_install.
  rewrite (proj2 (Z.leb_le 0 v)), (proj2 (Z.ltb_lt v _)) by lia. cbn [andb]. rewrite Hd.
  eexists d, _. split_and!; [done | done | by apply table_ok_insert | |].
  - apply list_lookup_insert_eq. pose proof (table_length _ Ht). lia.
  - intros i Hi. by rewrite list_lookup_insert_ne.
Qed.

Lemma ffs_loop_spec n i x :
  0 <= i → (∀ j, 0 <= j < i → Z.testbit x j = false) →
  let r := ffs_loop n i x in
  i <= r <= i + Z.of_nat n ∧ (∀ j, 0 <= j < r → Z.testbit x j = false) ∧
  (r < i + Z.of_nat n → Z.testbit x r = true).
Proof.
  revert i. induction n as [| n IH]; intros i Hi Hlow; simpl.
  - split_and!; [lia.. | | lia]. done.
  - destruct (Z.testbit x i) eqn:Ex.
    + split_and!; [lia.. | done | done].
    + destruct (IH (i + 1)) as (? & ? & Hr); [lia | |].
      { intros j Hj. destruct (Z.eq_dec j i) as [-> |]; [done |]. apply Hlow. lia. }
      split_and!; [lia.. | done |]. intros Hlt. apply Hr. lia.
Qed.

(** [ls1x_ffs] finds the lowest of the pending interrupts. *)
Lemma ls1x_ffs_spec x :
  0 < x < 4294967296 →
  0 <= ls1x_ffs x < 32 ∧ Z.testbit x (ls1x_ffs x) = true ∧
  ∀ j, 0 <= j < ls1x_ffs x → Z.testbit x j = false.
Proof.
  intros Hx. destruct (ffs_loop_spec 32 0 x) as (Hr & Hlow & Hbit); [lia | lia |].
  fold (ls1x_ffs x) in *.
  destruct (Z.eq_dec (ls1x_ffs x) 32) as [He |]; [| split_and!; [lia.. | apply Hbit; lia | done]].
  exfalso. assert (x = 0); [| lia]. apply Z.bits_inj_0. intros i.
  destruct (Z.lt_ge_cases i 0); [by rewrite Z.testbit_neg_r |].
  destruct (Z.lt_ge_cases i 32); [apply Hlow; lia |].
  apply in_range_testbit; [| lia]. lia.
Qed.

Section dispatch.
Context {St : Type} `{Mmio St}.
Context (run_isr : Z → Z → Z → St → res St) (timer_handler : St → res St).
Local Abbreviation ls1x_irq_dispatch := (ls1x_irq_dispatch run_isr).
Local Abbreviation rt_interrupt_dispatch := (rt_interrupt_dispatch run_isr timer_handler).

(** What one group does: the handler of its lowest enabled pending interrupt. *)
Definition serves (n : Z) (t : list rt_irq_desc) (s2 : St) (pending : Z) (r : res (list rt_irq_desc * St)) : Prop :=
  ∃ i d f, 0 <= i < 32 ∧ Z.testbit pending i = true ∧ (∀ j, 0 <= j < i → Z.testbit pending j = false) ∧
    t !! Z.to_nat (32 * n + i) = Some d ∧ handler d = Some f ∧
    match run_isr f (32 * n + i) (param d) s2 with
    | Ok s' => ∃ t', table_ok t' ∧ r = Ok (t', reg32_or s' (int_clr (icregs n)) (Z.shiftl 1 i)) ∧
        t' !! Z.to_nat (32 * n + i) = Some (mk_desc (Some f) (param d) (irq_name d) (u32 (counter d + 1))) ∧
        ∀ k, k ≠ Z.to_nat (32 * n + i) → t' !! k = t !! k
    | Stop w => r = Stop w
    end.

Lemma ls1x_irq_dispatch_serves n t s isr s1 en s2 :
  table_ok t → 0 <= n <= 4 →
  mmio_read32 s (int_isr (icregs n)) = (isr, s1) → mmio_read32 s1 (int_en (icregs n)) = (en, s2) →
  0 <= isr < 4294967296 → 0 <= en < 4294967296 →
  if Z.land isr en =? 0 then ls1x_irq_dispatch n t s = Ok (t, s2)
  else serves n t s2 (Z.land isr en) (ls1x_irq_dispatch n t s).
Proof.
  intros Ht Hn E1 E2 Hi He. unfold ls1x_irq_dispatch. rewrite E1, E2.
  pose proof (land_in_range isr en Hi ltac:(lia)) as Hr.
  destruct (Z.eqb_spec (Z.land isr en) 0) as [H0 | H0]; [done |]. cbn [negb].
  destruct (ls1x_ffs_spec (Z.land isr en)) as (Hf & Hbit & Hlow); [lia |].
  set (i := ls1x_ffs (Z.land isr en)) in *.
  replace (Z.shiftl n 5 + i) with (32 * n + i) by (rewrite Z.shiftl_mul_pow2 by lia; lia).
  destruct (table_lookup t (32 * n + i) Ht) as (d & f & Hd & Hh); [unfold MAX_INTR; lia |].
  exists i, d, f. split_and!; [lia.. | done | done | done | done |].
  unfold ls1x_do_IRQ. rewrite Hd. cbn [mbind res_bind of_option]. rewrite Hh. cbn [mbind res_bind of_option].
  destruct (run_isr f (32 * n + i) (param d) s2) as [s' | w]; [| done].
  cbn [mbind res_bind]. eexists. split_and!; [| done | |].
  - by apply table_ok_insert.
  - apply list_lookup_insert_eq. pose proof (table_length _ Ht). unfold MAX_INTR in *. lia.
  - intros k Hk. by rewrite list_lookup_insert_ne.
Qed.

(** The group that is served, [None] for the clock or nothing. *)
Definition group_of (pending : Z → bool) : option Z :=
  if pending 7 then None
  else find pending [2; 3; 4; 5; 6].

(** C18. One interrupt is served: the clock before all others, then the lowest
    pending line of the processor; in its group the lowest interrupt that is
    pending and enabled has its handler called, once, with its number and
    parameter, is counted and acknowledged.  No entry outside the table is read,
    and the table keeps its handlers. *)
Theorem rt_interrupt_dispatch_spec c0_status c0_cause t s :
  table_ok t →
  (∀ s a, 0 <= fst (mmio_read32 s a) < 4294967296) →
  let pending k := Z.testbit c0_cause (8 + k) && Z.testbit c0_status (8 + k) in
  rt_interrupt_dispatch c0_status c0_cause t s =
    (if pending 7 then s' ← timer_handler s; Ok (t, s')
     else match group_of pending with
          | Some k => ls1x_irq_dispatch (k - 2) t s
          | None => Ok (t, s)
          end) ∧
  ∀ k, group_of pending = Some k →
    let '(isr, s1) := mmio_read32 s (int_isr (icregs (k - 2))) in
    let '(en, s2) := mmio_read32 s1 (int_en (icregs (k - 2))) in
    if Z.land isr en =? 0 then ls1x_irq_dispatch (k - 2) t s = Ok (t, s2)
    else serves (k - 2) t s2 (Z.land isr en) (ls1x_irq_dispatch (k - 2) t s).
Proof.
  intros Ht Hrange pending. split.
  - unfold rt_interrupt_dispatch.
    assert (Hp : ∀ k, 0 <= k <= 7 →
      negb (Z.land (Z.land (Z.land c0_cause ST0_IM) (Z.land c0_status ST0_IM)) (CAUSEF_IP k) =? 0) = pending k).
    { intros k Hk. unfold CAUSEF_IP. rewrite land_bit_test, !Z.land_spec by lia. unfold pending.
      assert (Z.testbit ST0_IM (8 + k) = true) as -> by (
        assert (Hc : k = 0 ∨ k = 1 ∨ k = 2 ∨ k = 3 ∨ k = 4 ∨ k = 5 ∨ k = 6 ∨ k = 7) by lia;
        destruct Hc as [-> | [-> | [-> | [-> | [-> | [-> | [-> | ->]]]]]]]; done).
      by rewrite !andb_true_r. }
    rewrite !Hp by lia. unfold group_of. simpl. by repeat case_match.
  - intros k Hk. unfold group_of in Hk. destruct (pending 7); [done |].
    apply find_some in Hk as [Hin _].
    assert (0 <= k - 2 <= 4) by (simpl in Hin; lia).
    destruct (mmio_read32 s _) as [isr s1] eqn:E1. destruct (mmio_read32 s1 _) as [en s2] eqn:E2.
    apply (ls1x_irq_dispatch_serves _ _ _ _ s1); try done.
    + pose proof (Hrange s (int_isr (icregs (k - 2)))) as Hr. by rewrite E1 in Hr.
    + pose proof (Hrange s1 (int_en (icregs (k - 2)))) as Hr. by rewrite E2 in Hr.
Qed.
End dispatch.

(** Plain registers: interrupts 3 and 7 of the third group pend and are enabled. *)
Definition demo_intc : regs :=
  <[int_isr (icregs 2) := 0x88]> (<[int_en (icregs 2) := 0xff]> ∅).
Definition demo_irq_table : list rt_irq_desc := replicate 160 (mk_desc (Some 0x80001000) 5 [] 0).
(** The handler clears the status register. *)
Definition demo_isr (_ irq _ : Z) (s : regs) : res regs := Ok (<[int_isr (icregs 2) := 0]> s).

Lemma rt_interrupt_dispatch_spec_witness :
  let pending k := Z.testbit 0x1000 (8 + k) && Z.testbit 0xff00 (8 + k) in
  group_of pending = Some 4 ∧
  (rt_interrupt_dispatch demo_isr Ok 0xff00 0x1000 demo_irq_table demo_intc =
    (if pending 7 then s' ← Ok demo_intc; Ok (demo_irq_table, s')
     else match group_of pending with
          | Some k => ls1x_irq_dispatch demo_isr (k - 2) demo_irq_table demo_intc
          | None => Ok (demo_irq_table, demo_intc)
          end) ∧
  ∀ k, group_of pending = Some k →
    let '(isr, s1) := mmio_read32 demo_intc (int_isr (icregs (k - 2))) in
    let '(en, s2) := mmio_read32 s1 (int_en (icregs (k - 2))) in
    if Z.land isr en =? 0 then ls1x_irq_dispatch demo_isr (k - 2) demo_irq_table demo_intc = Ok (demo_irq_table, s2)
    else serves demo_isr (k - 2) demo_irq_table s2 (Z.land isr en)
           (ls1x_irq_dispatch demo_isr (k - 2) demo_irq_table demo_intc)).
Proof.
  split; [reflexivity |].
  apply (rt_interrupt_dispatch_spec demo_isr Ok 0xff00 0x1000 demo_irq_table demo_intc).
  - split; [done |]. apply Forall_replicate. by eexists.
  - intros s a. apply u32_in_range.
Defined.
