(* ===== verification/Gpio.v ===== *)
(** * Pins and pulses: [gpio.c], [pwm.c] and [padconfig.c] of the board

    Drivers that are a few accesses to registers each ([Mmio]).  A device is
    what its [user_data] points at: the number of the pin, the base address of the
    pulse generator. *)
From S2P Require Import Prelude Kernel Mmio Interrupt.
Local Open Scope Z_scope.

Definition RT_EIO : Z := 8.

Definition GPIO_BASE0 : Z := 0xBFD010C0.
Definition GPIO_BASE1 : Z := 0xBFD010C4.
Definition GPIO_BASE2 : Z := 0xBFD010C8.
Definition GPIO_BASE3 : Z := 0xBFD010CC.
Definition GPIO_CFG (base : Z) : Z := base.
Definition GPIO_EN (base : Z) : Z := u32 (base + 16).
Definition GPIO_IN (base : Z) : Z := u32 (base + 32).
Definition GPIO_OUT (base : Z) : Z := u32 (base + 48).

Definition GPIO_READ_MODE : Z := 0.
Definition GPIO_WRITE_MODE : Z := 1.
Definition GPIO_INT_MODE : Z := 2.
Definition GPIO_TRIG_EDGE : Z := 1.
Definition GPIO_TRIG_LEVEL : Z := 0.
Definition GPIO_POSEDGE : Z := 1.
Definition GPIO_NEGEDGE : Z := 0.
Definition GPIO_HIGH_LEVEL : Z := 1.
Definition GPIO_LOW_LEVEL : Z := 0.

(** The pins of the board's devices: LED1 to LED5, KEY1 to KEY3. *)
Definition gpio_num : list Z := [50; 51; 52; 53; 54; 92; 85; 86].

Definition LS1C_GPIO_IRQ (gpio : Z) : Z :=
  if (96 <=? gpio) && (gpio <=? 105) then gpio - 42 else gpio + 64.

Record gpio_int_config := mk_config {
  trigmethod : Z; edge : Z; level : Z; isrName : list Z; config_handler : Z }.

(** The result, and what [base_addr] and [ctlbit_pos] point at: they are left
    alone when the number is out of range. *)
Definition gpio_ctrl_num (p_gpio_num base_addr ctlbit_pos : Z) : Z * Z * Z :=
  if (0 <=? p_gpio_num) && (p_gpio_num <=? 31) then (RT_EOK, GPIO_BASE0, p_gpio_num - 0)
  else if (32 <=? p_gpio_num) && (p_gpio_num <=? 63) then (RT_EOK, GPIO_BASE1, p_gpio_num - 32)
  else if (64 <=? p_gpio_num) && (p_gpio_num <=? 95) then (RT_EOK, GPIO_BASE2, p_gpio_num - 64)
  else if (96 <=? p_gpio_num) && (p_gpio_num <=? 127) then (RT_EOK, GPIO_BASE3, p_gpio_num - 96)
  else (RT_EIO, base_addr, ctlbit_pos).

(** The interrupt group and bit of a pin. *)
Definition gpio_int_bit (p_gpio_num : Z) : option (Z * Z) :=
  if (96 <=? p_gpio_num) && (p_gpio_num <=? 105) then Some (LS1C_INT1_BASE, p_gpio_num - 74)
  else if (0 <=? p_gpio_num) && (p_gpio_num <=? 31) then Some (LS1C_INT2_BASE, p_gpio_num)
  else if (32 <=? p_gpio_num) && (p_gpio_num <=? 63) then Some (LS1C_INT3_BASE, p_gpio_num - 32)
  else if (64 <=? p_gpio_num) && (p_gpio_num <=? 95) then Some (LS1C_INT4_BASE, p_gpio_num - 64)
  else None.

Section gpio.
Context {St : Type} `{Mmio St}.

(** The polarity for an edge or, by the same comparison of [edge], a level. *)
Definition set_polarity (int_base setbit edge : Z) (s : St) : St :=
  if edge =? GPIO_POSEDGE then reg32_or s (int_pol int_base) (Z.shiftl 1 setbit)
  else if edge =? GPIO_NEGEDGE then reg32_clear s (int_pol int_base) (Z.shiftl 1 setbit)
  else s.

Definition gpio_int_set (p_gpio_num : Z) (c : gpio_int_config) (table : list rt_irq_desc) (s : St)
    : Z * list rt_irq_desc * St :=
  match gpio_int_bit p_gpio_num with
  | None => (RT_EIO, table, s)
  | Some (int_base, setbit) =>
      let s :=
        if trigmethod c =? GPIO_TRIG_EDGE then
          set_polarity int_base setbit (edge c) (reg32_or s (int_edge int_base) (Z.shiftl 1 setbit))
        else if trigmethod c =? GPIO_TRIG_LEVEL then
          set_polarity int_base setbit (edge c) (reg32_clear s (int_edge int_base) (Z.shiftl 1 setbit))
        else s in
      let '(_, table) :=
        rt_hw_interrupt_install (LS1C_GPIO_IRQ p_gpio_num) (Some (config_handler c)) 0 (isrName c) table in
      (RT_EOK, table, reg32_or s (int_en int_base) (Z.shiftl 1 setbit))
  end.

(** The value read; the driver returns 1.  The direction is read for a message. *)
Definition rt_gpio_read (p_gpio_num : Z) (s : St) : Z * St :=
  let '(_, p_gpio_base, p_ctlbit_pos) := gpio_ctrl_num p_gpio_num 0 0 in
  let '(_, s) := mmio_read32 s (GPIO_EN p_gpio_base) in
  let '(v, s) := mmio_read32 s (GPIO_IN p_gpio_base) in
  ((if Z.land v (Z.shiftl 1 p_ctlbit_pos) =? 0 then 0 else 1), s).

Definition rt_gpio_write (p_gpio_num value : Z) (s : St) : St :=
  let '(_, p_gpio_base, p_ctlbit_pos) := gpio_ctrl_num p_gpio_num 0 0 in
  let '(_, s) := mmio_read32 s (GPIO_EN p_gpio_base) in
  if value =? 1 then reg32_or s (GPIO_OUT p_gpio_base) (Z.shiftl 1 p_ctlbit_pos)
  else if value =? 0 then reg32_clear s (GPIO_OUT p_gpio_base) (Z.shiftl 1 p_ctlbit_pos)
  else s.

(** [args] is the configuration for [GPIO_INT_MODE]. *)
Definition rt_gpio_control (p_gpio_num cmd : Z) (args : option gpio_int_config)
    (table : list rt_irq_desc) (s : St) : res (Z * list rt_irq_desc * St) :=
  let '(err, p_gpio_base, p_ctlbit_pos) := gpio_ctrl_num p_gpio_num 0 0 in
  if err =? RT_EIO then Ok (RT_EIO, table, s)
  else if cmd =? GPIO_READ_MODE then
    Ok (RT_EOK, table, reg32_or s (GPIO_EN p_gpio_base) (Z.shiftl 1 p_ctlbit_pos))
  else if cmd =? GPIO_WRITE_MODE then
    Ok (RT_EOK, table, reg32_clear s (GPIO_EN p_gpio_base) (Z.shiftl 1 p_ctlbit_pos))
  else if cmd =? GPIO_INT_MODE then
    config ← of_option NullDeref args;
    let '(_, table, s) := gpio_int_set p_gpio_num config table s in
    Ok (RT_EOK, table, s)
  else Ok (RT_EOK, table, s).

(** ** Pulse width modulation *)
Definition PWM_CNTR (base : Z) : Z := base.
Definition PWM_HRC (base : Z) : Z := base + 4.
Definition PWM_LRC (base : Z) : Z := base + 8.
Definition PWM_CTRL (base : Z) : Z := base + 12.

Definition rt_pwm_init (pwm_base : Z) (s : St) : St := reg32_or s (PWM_CTRL pwm_base) (Z.shiftl 1 0).
Definition rt_pwm_open (pwm_base : Z) (s : St) : St := rt_pwm_init pwm_base s.
Definition rt_pwm_close (pwm_base : Z) (s : St) : St := mmio_write32 s (PWM_CTRL pwm_base) 1.

Inductive pwm_cmd :=
  | PWM_SET_CNTR | PWM_SET_HRC | PWM_SET_LRC | PWM_SINGLE_EN | PWM_SINGLE_DISEN
  | PWM_OUTPUT_EN | PWM_OUTPUT_DISEN | PWM_CNT_EN | PWM_CNT_DISEN.

(** There is no [break] behind the case of [PWM_OUTPUT_DISEN]. *)
Definition rt_pwm_control (pwm_base : Z) (cmd : pwm_cmd) (pwm_value : Z) (s : St) : St :=
  match cmd with
  | PWM_SET_CNTR => mmio_write32 s (PWM_CNTR pwm_base) (Z.land pwm_value 0xFFFFFF)
  | PWM_SET_HRC => mmio_write32 s (PWM_HRC pwm_base) (Z.land pwm_value 0xFFFFFF)
  | PWM_SET_LRC => mmio_write32 s (PWM_LRC pwm_base) (Z.land pwm_value 0xFFFFFF)
  | PWM_SINGLE_EN => reg32_or s (PWM_CTRL pwm_base) (Z.shiftl 1 4)
  | PWM_SINGLE_DISEN => reg32_and s (PWM_CTRL pwm_base) 0xFFFFEF
  | PWM_OUTPUT_EN => reg32_and s (PWM_CTRL pwm_base) 0xFFFFF7
  | PWM_OUTPUT_DISEN =>
      let s := reg32_or s (PWM_CTRL pwm_base) (Z.shiftl 1 3) in
      reg32_or s (PWM_CTRL pwm_base) (Z.shiftl 1 0)
  | PWM_CNT_EN => reg32_or s (PWM_CTRL pwm_base) (Z.shiftl 1 0)
  | PWM_CNT_DISEN => reg32_and s (PWM_CTRL pwm_base) 0xFFFFFE
  end.

(** ** Pads *)
Definition PAD_MUTI_BASE0 : Z := 0xBFD011C0.
Definition PAD_MUTI_BASE1 : Z := 0xBFD011C4.
Definition CBUS_FOURTH (base : Z) : Z := base + 48.
Definition CBUS_FIFTH (base : Z) : Z := base + 64.

Definition set_bits (l : list (Z * Z)) (s : St) : St :=
  fold_left (λ s r, reg32_or s r.1 (Z.shiftl 1 r.2)) l s.

(** The assignments, in order: register and bit. *)
Definition pad_bits : list (Z * Z) :=
  [ (CBUS_FOURTH PAD_MUTI_BASE0, 0); (CBUS_FOURTH PAD_MUTI_BASE0, 1);     (* uart3 *)
    (CBUS_FOURTH PAD_MUTI_BASE0, 2); (CBUS_FOURTH PAD_MUTI_BASE0, 3);     (* uart1 *)
    (GPIO_CFG GPIO_BASE0, 4); (GPIO_CFG GPIO_BASE0, 5);
    (CBUS_FIFTH PAD_MUTI_BASE1, 4); (CBUS_FIFTH PAD_MUTI_BASE1, 5);       (* uart2 *)
    (CBUS_FOURTH PAD_MUTI_BASE1, 14); (CBUS_FOURTH PAD_MUTI_BASE1, 15);   (* pwm2, pwm3 *)
    (GPIO_CFG GPIO_BASE1, 16); (GPIO_CFG GPIO_BASE1, 17); (GPIO_CFG GPIO_BASE1, 18);
    (GPIO_CFG GPIO_BASE1, 19); (GPIO_CFG GPIO_BASE1, 20); (GPIO_CFG GPIO_BASE1, 21);
    (GPIO_CFG GPIO_BASE1, 22);
    (GPIO_CFG GPIO_BASE2, 21); (GPIO_CFG GPIO_BASE2, 22); (GPIO_CFG GPIO_BASE2, 23);
    (GPIO_CFG GPIO_BASE2, 24); (GPIO_CFG GPIO_BASE2, 25); (GPIO_CFG GPIO_BASE2, 26);
    (GPIO_CFG GPIO_BASE2, 27); (GPIO_CFG GPIO_BASE2, 28) ].
Definition rt_pad_multiplex_init : St → St := set_bits pad_bits.
End gpio.

(** ** Properties *)

(** The register group and the bit of a pin. *)
Definition pin_base (p : Z) : Z := GPIO_BASE0 + 4 * (p / 32).
Definition pin_bit (p : Z) : Z := p `mod` 32.

Lemma gpio_ctrl_num_spec p b0 n0 :
  0 <= p <= 127 → gpio_ctrl_num p b0 n0 = (RT_EOK, pin_base p, pin_bit p).
Proof.
  intros Hp. unfold gpio_ctrl_num, pin_base, pin_bit, GPIO_BASE0, GPIO_BASE1, GPIO_BASE2, GPIO_BASE3.
  case_bools; try lia; simpl; (f_equal; [f_equal |]; lia).
Qed.

(** Different pins never share a bit of a register. *)
Lemma pin_inj p q : 0 <= p → 0 <= q → pin_base p = pin_base q → pin_bit p = pin_bit q → p = q.
Proof. unfold pin_base, pin_bit. lia. Qed.

Lemma land_31 x : Z.land x 31 = x `mod` 32.
Proof. change 31 with (Z.ones 5). by rewrite Z.land_ones. Qed.

(** The vector of a pin's interrupt names the group and the bit that the driver
    configures: [gpio.c] and [interrupt.c] agree. *)
Lemma gpio_int_bit_spec p :
  0 <= p <= 105 →
  gpio_int_bit p = Some (vector_group (LS1C_GPIO_IRQ p), Z.land (LS1C_GPIO_IRQ p) 31) ∧
  64 <= LS1C_GPIO_IRQ p <= 159 ∨
  gpio_int_bit p = Some (vector_group (LS1C_GPIO_IRQ p), Z.land (LS1C_GPIO_IRQ p) 31) ∧
  54 <= LS1C_GPIO_IRQ p <= 63.
Proof.
  intros Hp. rewrite land_31. unfold gpio_int_bit, vector_group, icregs, LS1C_GPIO_IRQ.
  rewrite Z.shiftr_div_pow2 by lia.
  unfold LS1C_INT0_BASE, LS1C_INT1_BASE, LS1C_INT2_BASE, LS1C_INT3_BASE, LS1C_INT4_BASE.
  change (2 ^ 5) with 32. case_bools; try lia; simpl; first [left; split; [| lia] | right; split; [| lia]];
    (do 2 f_equal; lia).
Qed.

Section gpio_properties.
Context {St : Type} `{HS : Storage St ram}.

(** The manual: these registers keep what is written to them. *)
Definition keeps (l : list Z) : Prop := Forall (λ a, ram a = true) l.

(** Driving a pin: after [GPIO_WRITE_MODE] and a write of 0 or 1 the pin is an
    output with this level, and no other bit of any register has changed. *)
Theorem gpio_output_spec p value t s :
  0 <= p <= 127 → value = 0 ∨ value = 1 →
  keeps [GPIO_EN (pin_base p); GPIO_OUT (pin_base p)] →
  ∃ s1, rt_gpio_control p GPIO_WRITE_MODE None t s = Ok (RT_EOK, t, s1) ∧
    sets_bit (GPIO_EN (pin_base p)) (pin_bit p) false s s1 ∧
    sets_bit (GPIO_OUT (pin_base p)) (pin_bit p) (value =? 1) s1 (rt_gpio_write p value s1).
Proof.
  intros Hp Hv Hk. apply Forall_cons_1 in Hk as [He Hk]. apply Forall_cons_1 in Hk as [Ho _].
  assert (Hn : 0 <= pin_bit p < 32) by (unfold pin_bit; lia).
  unfold rt_gpio_control, rt_gpio_write. rewrite gpio_ctrl_num_spec by done. cbn.
  eexists. split; [done |]. split; [by apply reg32_clear_bit |].
  rewrite storage_read by done. destruct Hv as [-> | ->]; cbn.
  - by apply reg32_clear_bit.
  - by apply reg32_or_bit.
Qed.

Lemma set_polarity_bit base n e s :
  ram (int_pol base) = true → 0 <= n < 32 → e = GPIO_NEGEDGE ∨ e = GPIO_POSEDGE →
  sets_bit (int_pol base) n (e =? GPIO_POSEDGE) s (set_polarity base n e s).
Proof.
  intros Hr Hn [-> | ->]; unfold set_polarity; cbn; [by apply reg32_clear_bit | by apply reg32_or_bit].
Qed.

(** A pin's interrupt: after [GPIO_INT_MODE] the edge or level mode and the
    polarity are as configured, the vector of the pin has the handler, and the
    group and bit of this vector are enabled; nothing else changes. *)
Theorem gpio_interrupt_spec p c t s :
  0 <= p <= 105 → table_ok t →
  trigmethod c = GPIO_TRIG_EDGE ∨ trigmethod c = GPIO_TRIG_LEVEL →
  edge c = GPIO_NEGEDGE ∨ edge c = GPIO_POSEDGE →
  let irq := LS1C_GPIO_IRQ p in let g := vector_group irq in let n := Z.land irq 31 in
  keeps [int_edge g; int_pol g; int_en g] →
  ∃ t' s1 s2 s3, rt_gpio_control p GPIO_INT_MODE (Some c) t s = Ok (RT_EOK, t', s3) ∧
    sets_bit (int_edge g) n (trigmethod c =? GPIO_TRIG_EDGE) s s1 ∧
    sets_bit (int_pol g) n (edge c =? GPIO_POSEDGE) s1 s2 ∧
    sets_bit (int_en g) n true s2 s3 ∧ s3 = rt_hw_interrupt_umask irq s2 ∧
    table_ok t' ∧ (∃ d, t' !! Z.to_nat irq = Some d ∧ handler d = Some (config_handler c)) ∧
    ∀ i, i ≠ Z.to_nat irq → t' !! i = t !! i.
Proof.
  intros Hp Ht Hm He irq g n Hk. apply Forall_cons_1 in Hk as [H1 Hk].
  apply Forall_cons_1 in Hk as [H2 Hk]. apply Forall_cons_1 in Hk as [H3 _].
  assert (Hb : gpio_int_bit p = Some (g, n) ∧ 0 <= irq < MAX_INTR)
    by (unfold MAX_INTR; destruct (gpio_int_bit_spec p Hp) as [[? ?] | [? ?]]; split; (done || lia)).
  destruct Hb as [Hb Hirq].
  assert (Hn : 0 <= n < 32) by (unfold n; rewrite land_31; lia).
  destruct (rt_hw_interrupt_install_spec irq (config_handler c) 0 (isrName c) t Ht Hirq)
    as (d & t' & Hd & Ei & Ht' & Hd' & Hother).
  unfold rt_gpio_control. rewrite gpio_ctrl_num_spec by lia. cbn. unfold gpio_int_set. rewrite Hb.
  fold irq. rewrite Ei.
  destruct Hm as [Hm | Hm]; rewrite Hm; cbn.
  - eexists t', _, _, _. split; [reflexivity |]. split_and!; try done.
    + by apply reg32_or_bit.
    + by apply set_polarity_bit.
    + by apply reg32_or_bit.
    + by eexists.
  - eexists t', _, _, _. split; [reflexivity |]. split_and!; try done.
    + by apply reg32_clear_bit.
    + by apply set_polarity_bit.
    + by apply reg32_or_bit.
    + by eexists.
Qed.

(** The [level] of a configuration is never looked at: a level interrupt takes
    its polarity from [edge]. *)
Theorem gpio_level_is_ignored p c l t s :
  gpio_int_set p (mk_config (trigmethod c) (edge c) l (isrName c) (config_handler c)) t s =
  gpio_int_set p c t s.
Proof. done. Qed.

(** Disabling the output of a pulse generator starts its counter. *)
Theorem pwm_output_disable_starts_counter pwm_base v s :
  ram (PWM_CTRL pwm_base) = true →
  Z.testbit (peek (rt_pwm_control pwm_base PWM_OUTPUT_DISEN v s) (PWM_CTRL pwm_base)) 0 = true.
Proof.
  intros Hr. unfold rt_pwm_control.
  destruct (reg32_or_bit (reg32_or s (PWM_CTRL pwm_base) (Z.shiftl 1 3)) (PWM_CTRL pwm_base) 0 Hr ltac:(lia)) as [Hb _].
  by rewrite Hb by lia.
Qed.

(** ** The pads *)
Lemma set_bits_spec l : ∀ s,
  Forall (λ r, ram r.1 = true ∧ 0 <= r.2 < 32) l →
  ∀ a i, ram a = true → 0 <= i < 32 →
    Z.testbit (peek (set_bits l s) a) i = bool_decide ((a, i) ∈ l) || Z.testbit (peek s a) i.
Proof.
  induction l as [| [b n] l IH]; intros s Hf a i Ha Hi; [done |].
  apply Forall_cons_1 in Hf as [[Hb Hn] Hf]. simpl in Hb, Hn.
  change (set_bits ((b, n) :: l) s) with (set_bits l (reg32_or s b (Z.shiftl 1 n))).
  rewrite (IH _ Hf a i Ha Hi). destruct (reg32_or_bit s b n Hb Hn) as [Hbit Hother].
  destruct (decide (a = b)) as [-> | Hne].
  - rewrite Hbit by done. destruct (Z.eqb_spec i n) as [-> | Hin].
    + rewrite (bool_decide_eq_true_2 ((b, n) ∈ (b, n) :: l)) by left. by rewrite orb_true_r.
    + f_equal. apply bool_decide_ext. rewrite elem_of_cons.
      split; [by right | by intros [[= ?] | ?]].
  - rewrite Hother by done. f_equal. apply bool_decide_ext. rewrite elem_of_cons.
    split; [by right | by intros [[= ?] | ?]].
Qed.

(** [rt_pad_multiplex_init] selects the functions of its pads and changes no
    other pad. *)
Theorem rt_pad_multiplex_init_spec s a i :
  keeps (fst <$> pad_bits) → ram a = true → 0 <= i < 32 →
  Z.testbit (peek (rt_pad_multiplex_init s) a) i = bool_decide ((a, i) ∈ pad_bits) || Z.testbit (peek s a) i.
Proof.
  intros Hk Ha Hi. apply set_bits_spec; [| done | done].
  unfold keeps in Hk. rewrite Forall_fmap in Hk. rewrite Forall_forall in Hk. apply Forall_forall.
  intros r Hr. split; [by apply Hk |]. clear -Hr.
  assert (Hall : forallb (λ r : Z * Z, (0 <=? r.2) && (r.2 <? 32)) pad_bits = true) by reflexivity.
  rewrite forallb_forall in Hall. apply list_elem_of_In in Hr. specialize (Hall r Hr).
  apply andb_true_iff in Hall. lia.
Qed.
End gpio_properties.

(** ** Examples on plain registers *)
Definition demo_table : list rt_irq_desc := replicate 160 (mk_desc (Some 0x80001000) 0 [] 0).
Lemma demo_table_ok : table_ok demo_table.
Proof. split; [done |]. apply Forall_replicate. by eexists. Qed.

(** KEY1 is pin 92: falling edge. *)
Definition demo_config : gpio_int_config :=
  mk_config GPIO_TRIG_EDGE GPIO_NEGEDGE 0 [75; 69; 89; 49] 0x80002000.

Lemma gpio_output_spec_witness :
  ∃ s1, rt_gpio_control 50 GPIO_WRITE_MODE None demo_table (∅ : regs) = Ok (RT_EOK, demo_table, s1) ∧
    sets_bit (GPIO_EN (pin_base 50)) (pin_bit 50) false ∅ s1 ∧
    sets_bit (GPIO_OUT (pin_base 50)) (pin_bit 50) true s1 (rt_gpio_write 50 1 s1).
Proof. apply (gpio_output_spec 50 1 demo_table ∅); [lia | by right | by repeat constructor]. Defined.

Lemma gpio_interrupt_spec_witness :
  let irq := LS1C_GPIO_IRQ 92 in let g := vector_group irq in let n := Z.land irq 31 in
  irq = 156 ∧ n = 28 ∧
  ∃ t' s1 s2 s3, rt_gpio_control 92 GPIO_INT_MODE (Some demo_config) demo_table (∅ : regs) =
      Ok (RT_EOK, t', s3) ∧
    sets_bit (int_edge g) n true ∅ s1 ∧ sets_bit (int_pol g) n false s1 s2 ∧
    sets_bit (int_en g) n true s2 s3 ∧ s3 = rt_hw_interrupt_umask irq s2 ∧
    table_ok t' ∧ (∃ d, t' !! Z.to_nat irq = Some d ∧ handler d = Some 0x80002000) ∧
    ∀ i, i ≠ Z.to_nat irq → t' !! i = demo_table !! i.
Proof.
  split; [reflexivity |]. split; [reflexivity |].
  apply (gpio_interrupt_spec 92 demo_config demo_table ∅);
    [lia | exact demo_table_ok | by left | by left | by repeat constructor].
Defined.

Lemma rt_pad_multiplex_init_spec_witness :
  Z.testbit (peek (rt_pad_multiplex_init (∅ : regs)) (CBUS_FOURTH PAD_MUTI_BASE0)) 1 = true ∧
  (CBUS_FOURTH PAD_MUTI_BASE0, 1) ∈ pad_bits.
Proof.
  assert (Hin : (CBUS_FOURTH PAD_MUTI_BASE0, 1) ∈ pad_bits) by (right; left).
  split; [| exact Hin].
  rewrite (rt_pad_multiplex_init_spec (∅ : regs)); [| by repeat constructor | done | lia].
  by rewrite bool_decide_eq_true_2.
Defined.
