(* ===== verification/Device.v ===== *)
(** * Devices: [src/device.c], and the look-up by name of [src/object.c]

    A driver is the record of function pointers of [struct rt_device], over a
    state [D] of its own; the framework decides when they are called.  The
    container of device objects is that of [KObject], with the names. *)
From S2P Require Import Prelude Mmio KObject Kernel.
Local Open Scope Z_scope.

Definition RT_NAME_MAX : nat := 10.
Definition RT_ENOSYS : Z := 6.
Definition RT_EBUSY : Z := 7.
Definition RT_DEVICE_FLAG_RDWR : Z := 0x003.
Definition RT_DEVICE_FLAG_STANDALONE : Z := 0x008.
Definition RT_DEVICE_FLAG_ACTIVATED : Z := 0x010.
Definition RT_DEVICE_FLAG_STREAM : Z := 0x040.
Definition RT_DEVICE_FLAG_INT_RX : Z := 0x100.
Definition RT_DEVICE_OFLAG_CLOSE : Z := 0x000.
Definition RT_DEVICE_OFLAG_RDWR : Z := 0x003.
Definition RT_DEVICE_OFLAG_OPEN : Z := 0x008.

(** The fields the framework works on; callbacks are named by their address. *)
Record rt_device := mk_device {
  dev_flag : Z; open_flag : Z; ref_count : Z;
  rx_indicate : option Z; tx_complete : option Z }.
Definition set_flag (f : Z) (d : rt_device) : rt_device :=
  mk_device f (open_flag d) (ref_count d) (rx_indicate d) (tx_complete d).
Definition set_open_flag (f : Z) (d : rt_device) : rt_device :=
  mk_device (dev_flag d) f (ref_count d) (rx_indicate d) (tx_complete d).
Definition set_ref_count (n : Z) (d : rt_device) : rt_device :=
  mk_device (dev_flag d) (open_flag d) n (rx_indicate d) (tx_complete d).

Definition flag_set (v f : Z) : bool := negb (Z.land v f =? 0).

(** The common device interface. *)
Record driver (D : Type) := mk_driver {
  init : option (rt_device → D → res (Z * D));
  open : option (rt_device → Z → D → res (Z * D));
  close : option (rt_device → D → res (Z * D));
  read : option (rt_device → Z → Z → D → res (list Z * D));
  write : option (rt_device → Z → list Z → D → res (Z * D));
  control : option (rt_device → Z → Z → D → res (Z * D)) }.
Arguments mk_driver {D}.
Arguments init {D}.
Arguments open {D}.
Arguments close {D}.
Arguments read {D}.
Arguments write {D}.
Arguments control {D}.

(** ** The life of a device *)
Section device.
Context {D : Type} (drv : driver D).

Definition rt_device_init (dev : rt_device) (d : D) : res (Z * rt_device * D) :=
  match init drv with
  | Some f =>
      if negb (flag_set (dev_flag dev) RT_DEVICE_FLAG_ACTIVATED) then
        '(result, d) ← f dev d;
        if negb (result =? RT_EOK) then Ok (result, dev, d)
        else Ok (result, set_flag (Z.lor (dev_flag dev) RT_DEVICE_FLAG_ACTIVATED) dev, d)
      else Ok (RT_EOK, dev, d)
  | None => Ok (RT_EOK, dev, d)
  end.

(** The first part of [rt_device_open]: [None] when the driver refused. *)
Definition activate (dev : rt_device) (d : D) : res (Z * option rt_device * D) :=
  if negb (flag_set (dev_flag dev) RT_DEVICE_FLAG_ACTIVATED) then
    '(result, d) ← match init drv with Some f => f dev d | None => Ok (RT_EOK, d) end;
    if negb (result =? RT_EOK) then Ok (result, None, d)
    else Ok (result, Some (set_flag (Z.lor (dev_flag dev) RT_DEVICE_FLAG_ACTIVATED) dev), d)
  else Ok (RT_EOK, Some dev, d).

Definition rt_device_open (dev : rt_device) (oflag : Z) (d : D) : res (Z * rt_device * D) :=
  '(result, dev', d) ← activate dev d;
  match dev' with
  | None => Ok (result, dev, d)
  | Some dev =>
      if flag_set (dev_flag dev) RT_DEVICE_FLAG_STANDALONE && flag_set (open_flag dev) RT_DEVICE_OFLAG_OPEN
      then Ok (- RT_EBUSY, dev, d)
      else
        '(result, d) ← match open drv with Some f => f dev oflag d | None => Ok (result, d) end;
        if (result =? RT_EOK) || (result =? - RT_ENOSYS) then
          let dev := set_open_flag (u16 (Z.lor oflag RT_DEVICE_OFLAG_OPEN)) dev in
          let dev := set_ref_count (u8 (ref_count dev + 1)) dev in
          _ ← rt_assert (negb (ref_count dev =? 0));
          Ok (result, dev, d)
        else Ok (result, dev, d)
  end.

Definition rt_device_close (dev : rt_device) (d : D) : res (Z * rt_device * D) :=
  if ref_count dev =? 0 then Ok (- RT_ERROR, dev, d)
  else
    let dev := set_ref_count (u8 (ref_count dev - 1)) dev in
    if negb (ref_count dev =? 0) then Ok (RT_EOK, dev, d)
    else
      '(result, d) ← match close drv with Some f => f dev d | None => Ok (RT_EOK, d) end;
      if (result =? RT_EOK) || (result =? - RT_ENOSYS)
      then Ok (result, set_open_flag RT_DEVICE_OFLAG_CLOSE dev, d)
      else Ok (result, dev, d).

(** The data read, and the error number set, if any. *)
Definition rt_device_read (dev : rt_device) (pos size : Z) (d : D) : res (list Z * option Z * D) :=
  if ref_count dev =? 0 then Ok ([], Some (- RT_ERROR), d)
  else match read drv with
       | Some f => '(data, d) ← f dev pos size d; Ok (data, None, d)
       | None => Ok ([], Some (- RT_ENOSYS), d)
       end.

Definition rt_device_write (dev : rt_device) (pos : Z) (buffer : list Z) (d : D) : res (Z * option Z * D) :=
  if ref_count dev =? 0 then Ok (0, Some (- RT_ERROR), d)
  else match write drv with
       | Some f => '(n, d) ← f dev pos buffer d; Ok (n, None, d)
       | None => Ok (0, Some (- RT_ENOSYS), d)
       end.

Definition rt_device_control (dev : rt_device) (cmd arg : Z) (d : D) : res (Z * D) :=
  match control drv with Some f => f dev cmd arg d | None => Ok (RT_EOK, d) end.
End device.

Definition rt_device_set_rx_indicate (rx_ind : option Z) (d : rt_device) : rt_device :=
  mk_device (dev_flag d) (open_flag d) (ref_count d) rx_ind (tx_complete d).
Definition rt_device_set_tx_complete (tx_done : option Z) (d : rt_device) : rt_device :=
  mk_device (dev_flag d) (open_flag d) (ref_count d) (rx_indicate d) tx_done.

(** ** Names *)

(** [rt_strncmp(a, b, RT_NAME_MAX) == 0], for texts without their zero. *)
Definition same_name (a b : list Z) : bool :=
  bool_decide (take RT_NAME_MAX a = take RT_NAME_MAX b).

(** Objects named by a number; the name of each. *)
Record namespace := mk_ns { ns_objs : objsys nat; ns_names : gmap nat (list Z); ns_devs : gmap nat rt_device }.

Definition name_of (x : nat) (s : namespace) : list Z := default [] (ns_names s !! x).
Definition find_object (c : object_class_type) (name : list Z) (s : namespace) : option nat :=
  find (λ x, same_name (name_of x s) name) (object_list (ns_objs s) c).

(** [in_interrupt] is [rt_interrupt_get_nest() != 0]. *)
Definition rt_object_find (name : option (list Z)) (c : object_class_type) (in_interrupt : bool) (s : namespace)
    : res (option nat) :=
  match name with
  | None => Ok None
  | Some name => _ ← rt_assert (negb in_interrupt); Ok (find_object c name s)
  end.

(** The walk is one step; the lock of the scheduler that the source holds around it,
    once there is a current thread, keeps it so, and is as before afterwards. *)
Definition rt_device_find (name : list Z) (s : namespace) : option nat :=
  find_object Object_Class_Device name s.

(** [old_flag] is what the object's flag held. *)
Definition rt_device_register (dev : option nat) (name : list Z) (flags : Z) (old_flag : Z) (d : rt_device)
    (s : namespace) : res (Z * namespace) :=
  match dev with
  | None => Ok (- RT_ERROR, s)
  | Some x =>
      match rt_device_find name s with
      | Some _ => Ok (- RT_ERROR, s)
      | None =>
          o ← rt_object_init Object_Class_Device x old_flag (ns_objs s);
          let d := set_open_flag 0 (set_ref_count 0 (set_flag (u16 flags) d)) in
          Ok (RT_EOK, mk_ns o (<[x := take RT_NAME_MAX name]> (ns_names s)) (<[x := d]> (ns_devs s)))
      end
  end.

Definition rt_device_unregister (x : nat) (s : namespace) : res (Z * namespace) :=
  o ← rt_object_detach x (ns_objs s);
  Ok (RT_EOK, mk_ns o (ns_names s) (ns_devs s)).

(** ** Properties of the names *)
Record unique_names (s : namespace) : Prop := {
  names_nodup : NoDup (object_list (ns_objs s) Object_Class_Device);
  names_distinct x y : x ∈ object_list (ns_objs s) Object_Class_Device →
    y ∈ object_list (ns_objs s) Object_Class_Device →
    same_name (name_of x s) (name_of y s) = true → x = y;
}.

Lemma same_name_sym a b : same_name a b = same_name b a.
Proof. unfold same_name. by apply bool_decide_ext. Qed.
Lemma same_name_trans a b c : same_name a b = true → same_name b c = same_name a c.
Proof. unfold same_name. rewrite bool_decide_eq_true. by intros ->. Qed.
Lemma same_name_take a b : same_name (take RT_NAME_MAX a) b = same_name a b.
Proof. unfold same_name. by rewrite take_take. Qed.

Lemma find_ext_in {A} (f g : A → bool) l : (∀ x, x ∈ l → f x = g x) → find f l = find g l.
Proof.
  induction l as [| x l IH]; intros Hfg; [done |]. simpl. rewrite (Hfg x) by left.
  destruct (g x); [done |]. apply IH. intros y Hy. apply Hfg. by right.
Qed.

Lemma find_object_some c name s x :
  find_object c name s = Some x →
  x ∈ object_list (ns_objs s) c ∧ same_name (name_of x s) name = true.
Proof. intros H. apply find_some in H as [Hin Hn]. split; [by apply list_elem_of_In | done]. Qed.
Lemma find_object_none c name s x :
  find_object c name s = None → x ∈ object_list (ns_objs s) c → same_name (name_of x s) name = false.
Proof. intros Hf Hx. apply (find_none _ _ Hf). by apply list_elem_of_In. Qed.

(** Registering a device: refused without effect when a device has the name
    (in the first [RT_NAME_MAX] characters); otherwise it is found by its name and
    by no other, closed and with the flags given, the other devices are found as
    before, and names stay unique. *)
Theorem rt_device_register_spec x name flags old_flag d s :
  unique_names s → x ∉ object_list (ns_objs s) Object_Class_Device →
  match rt_device_find name s with
  | Some y => same_name (name_of y s) name = true ∧
      rt_device_register (Some x) name flags old_flag d s = Ok (- RT_ERROR, s)
  | None => ∃ s', rt_device_register (Some x) name flags old_flag d s = Ok (RT_EOK, s') ∧ unique_names s' ∧
      (∀ name', rt_device_find name' s' = if same_name name name' then Some x else rt_device_find name' s) ∧
      ns_devs s' = <[x := mk_device (u16 flags) 0 0 (rx_indicate d) (tx_complete d)]> (ns_devs s)
  end.
Proof.
  intros [Hnd Hdist] Hx. unfold rt_device_register.
  destruct (rt_device_find name s) as [y |] eqn:Ef.
  { by apply find_object_some in Ef as [_ ?]. }
  unfold rt_object_init, object_link. simpl. rewrite bool_decide_eq_true_2 by done. simpl.
  eexists. split; [reflexivity |].
  assert (Hlist : ∀ (l : list nat) c (o : objsys nat), object_list (set_list c l o) c = l)
    by (intros l c o; unfold set_list; simpl; by rewrite decide_True).
  assert (Hname : ∀ o ds y, name_of y (mk_ns o (<[x:=take RT_NAME_MAX name]> (ns_names s)) ds) =
    if decide (y = x) then take RT_NAME_MAX name else name_of y s).
  { intros o ds y. unfold name_of. simpl. destruct (decide (y = x)) as [-> |].
    - by rewrite lookup_insert_eq.
    - by rewrite lookup_insert_ne. }
  split_and!; [split | | done].
  - simpl ns_objs. rewrite Hlist. by constructor.
  - intros y z. simpl ns_objs. rewrite Hlist, !elem_of_cons, !Hname.
    intros [-> | Hy] [-> | Hz]; [done | | |].
    + rewrite decide_True, decide_False by (done || by intros ->). rewrite same_name_take, same_name_sym.
      by rewrite (find_object_none _ _ _ z Ef Hz).
    + rewrite decide_False, decide_True by (done || by intros ->). rewrite same_name_sym, same_name_take, same_name_sym.
      by rewrite (find_object_none _ _ _ y Ef Hy).
    + rewrite !decide_False by (by intros ->). by apply Hdist.
  - intros name'. unfold rt_device_find, find_object at 1. simpl ns_objs. rewrite Hlist. simpl find.
    rewrite Hname, decide_True, same_name_take by done. destruct (same_name name name'); [done |].
    apply find_ext_in. intros y Hy. rewrite Hname, decide_False by (by intros ->). done.
Qed.

(** ** Properties of the life of a device *)
Inductive dev_op :=
  | OpInit | OpOpen (oflag : Z) | OpClose | OpRead (pos size : Z)
  | OpWrite (pos : Z) (data : list Z).

Definition run_op {D} (drv : driver D) (op : dev_op) (dev : rt_device) (d : D)
    : res (list Z * rt_device * D) :=
  match op with
  | OpInit => '(r, dev, d) ← rt_device_init drv dev d; Ok ([r], dev, d)
  | OpOpen oflag => '(r, dev, d) ← rt_device_open drv dev oflag d; Ok ([r], dev, d)
  | OpClose => '(r, dev, d) ← rt_device_close drv dev d; Ok ([r], dev, d)
  | OpRead pos size => '(data, _, d) ← rt_device_read drv dev pos size d; Ok (data, dev, d)
  | OpWrite pos data => '(n, _, d) ← rt_device_write drv dev pos data d; Ok ([n], dev, d)
  end.
Fixpoint run_ops {D} (drv : driver D) (ops : list dev_op) (dev : rt_device) (d : D)
    : res (list (list Z) * rt_device * D) :=
  match ops with
  | [] => Ok ([], dev, d)
  | op :: ops =>
      '(r, dev, d) ← run_op drv op dev d;
      '(rs, dev, d) ← run_ops drv ops dev d; Ok (r :: rs, dev, d)
  end.

(** What a driver may rely on: it is initialised once, before it is opened, and is
    read, written and closed only while it is open.  [guarded] stops otherwise. *)
Record usage := mk_usage { initialised : bool; opened : bool }.

Definition is_none {A} (o : option A) : bool := match o with None => true | _ => false end.
Definition success (r : Z) : bool := (r =? RT_EOK) || (r =? - RT_ENOSYS).

Definition guarded {D} (drv : driver D) : driver (usage * D) := {|
  init := (λ f dev s,
    _ ← rt_assert (negb (initialised s.1));
    '(r, d) ← f dev s.2; Ok (r, (mk_usage (r =? RT_EOK) (opened s.1), d))) <$> init drv;
  open := (λ f dev oflag s,
    _ ← rt_assert (initialised s.1 || is_none (init drv));
    '(r, d) ← f dev oflag s.2; Ok (r, (mk_usage (initialised s.1) (opened s.1 || success r), d))) <$> open drv;
  close := (λ f dev s,
    _ ← rt_assert (opened s.1 || is_none (open drv));
    '(r, d) ← f dev s.2; Ok (r, (mk_usage (initialised s.1) (opened s.1 && negb (success r)), d))) <$> close drv;
  read := (λ f dev pos size s,
    _ ← rt_assert (opened s.1 || is_none (open drv));
    '(r, d) ← f dev pos size s.2; Ok (r, (s.1, d))) <$> read drv;
  write := (λ f dev pos data s,
    _ ← rt_assert (opened s.1 || is_none (open drv));
    '(r, d) ← f dev pos data s.2; Ok (r, (s.1, d))) <$> write drv;
  control := (λ f dev cmd arg s, '(r, d) ← f dev cmd arg s.2; Ok (r, (s.1, d))) <$> control drv;
|}.

(** The number of clients that have the device open. *)
Fixpoint clients (n : Z) (ops : list dev_op) (rs : list (list Z)) : Z :=
  match ops, rs with
  | OpOpen _ :: ops, [r] :: rs => clients (if success r then n + 1 else n) ops rs
  | OpClose :: ops, _ :: rs => clients (if n =? 0 then 0 else n - 1) ops rs
  | _ :: ops, _ :: rs => clients n ops rs
  | _, _ => n
  end.

(** The invariant of the framework's fields and of the driver's usage. *)
Record dev_inv {D} (drv : driver D) (n : Z) (dev : rt_device) (u : usage) : Prop := {
  inv_count : ref_count dev = n ∧ 0 <= n < 256;
  inv_active : is_none (init drv) = false → flag_set (dev_flag dev) RT_DEVICE_FLAG_ACTIVATED = initialised u;
  inv_open : 0 < n → (opened u || is_none (open drv)) = true ∧
    flag_set (open_flag dev) RT_DEVICE_OFLAG_OPEN = true;
}.

Lemma flag_testbit v n : 0 <= n → flag_set v (Z.shiftl 1 n) = Z.testbit v n.
Proof. apply land_bit_test. Qed.
Lemma activated_set f : flag_set (Z.lor f RT_DEVICE_FLAG_ACTIVATED) RT_DEVICE_FLAG_ACTIVATED = true.
Proof.
  change RT_DEVICE_FLAG_ACTIVATED with (Z.shiftl 1 4). rewrite flag_testbit, Z.lor_spec by lia.
  apply orb_true_r.
Qed.
Lemma open_set f : flag_set (u16 (Z.lor f RT_DEVICE_OFLAG_OPEN)) RT_DEVICE_OFLAG_OPEN = true.
Proof.
  change RT_DEVICE_OFLAG_OPEN with (Z.shiftl 1 3). rewrite flag_testbit by lia.
  unfold u16. change 65536 with (2 ^ 16). rewrite Z.mod_pow2_bits_low, Z.lor_spec by lia. apply orb_true_r.
Qed.

Section life.
Context {D : Type} (drv : driver D).

(** [rt_device_open] hands on the result of [init]; -RT_ENOSYS would look like
    that of an [open] that counts. *)
Definition init_honest : Prop :=
  ∀ f dev d r d', init drv = Some f → f dev d = Ok (r, d') → r ≠ - RT_ENOSYS.

(** One operation on the guarded driver is the operation on the driver. *)
Definition simulated (op : dev_op) (n : Z) (dev : rt_device) (d : D) (u : usage) : Prop :=
  match run_op drv op dev d with
  | Ok (r, dev', d') => ∃ u', run_op (guarded drv) op dev (u, d) = Ok (r, dev', (u', d')) ∧
      dev_inv drv (clients n [op] [r]) dev' u'
  | Stop w => run_op (guarded drv) op dev (u, d) = Stop w
  end.

Lemma simulated_init n dev d u : dev_inv drv n dev u → simulated OpInit n dev d u.
Proof.
  intros [Hc Ha Ho]. unfold simulated, run_op, rt_device_init, guarded. cbn [init].
  destruct (init drv) as [f |] eqn:Ei; cbn [fmap option_fmap option_map].
  - specialize (Ha eq_refl). rewrite Ha. destruct (initialised u) eqn:Eu; cbn.
    + exists u. split; [done |]. split; [done | congruence | done].
    + rewrite Eu. cbn. destruct (f dev d) as [[r d'] | w]; [| done]. cbn.
      destruct (r =? RT_EOK) eqn:Er; cbn.
      * eexists. split; [done |]. split; [done | | done]. intros _. cbn. apply activated_set.
      * eexists. split; [done |]. split; [done | | done]. intros _. cbn. congruence.
  - exists u. split; [done |]. split; [done | by rewrite Ei | done].
Qed.

(** The first half of opening. *)
Lemma guarded_activate n dev d u :
  dev_inv drv n dev u →
  match activate drv dev d with
  | Ok (r, dev', d') => ∃ u', activate (guarded drv) dev (u, d) = Ok (r, dev', (u', d')) ∧
      match dev' with
      | Some dev' => dev_inv drv n dev' u' ∧ r = RT_EOK ∧ (initialised u' || is_none (init drv)) = true ∧
          ref_count dev' = ref_count dev
      | None => dev_inv drv n dev u' ∧ (init_honest → success r = false)
      end
  | Stop w => activate (guarded drv) dev (u, d) = Stop w
  end.
Proof.
  intros [Hc Ha Ho]. unfold activate, guarded. cbn [init].
  destruct (init drv) as [f |] eqn:Ei; cbn [fmap option_fmap option_map].
  - specialize (Ha eq_refl). rewrite Ha. destruct (initialised u) eqn:Eu; cbn.
    + exists u. rewrite Eu. split; [done |]. split_and!; [| done | done | done]. split; [done | congruence | done].
    + rewrite Eu. cbn. destruct (f dev d) as [[r d'] | w] eqn:Er; [| done]. cbn.
      destruct (Z.eqb_spec r RT_EOK) as [-> | Hr]; cbn.
      * eexists. split; [done |]. split_and!; [| done | done | done]. split; [done | | done].
        intros _. cbn. apply activated_set.
      * eexists. split; [done |].
        assert (Hinv : dev_inv drv n dev (mk_usage false (opened u)))
          by (split; [done | intros _; cbn; congruence | done]).
        split; [done |]. intros Hh. pose proof (Hh _ _ _ _ _ Ei Er). unfold success.
        by rewrite !(proj2 (Z.eqb_neq r _)).
  - destruct (flag_set _ _) eqn:Ef; cbn; exists u; (split; [done |]);
      split_and!; try done; try by rewrite orb_true_r.
    + split; [done | by rewrite Ei | done].
    + split; [done | by rewrite Ei | done].
Qed.

Lemma simulated_open oflag n dev d u :
  init_honest → dev_inv drv n dev u → simulated (OpOpen oflag) n dev d u.
Proof.
  intros Hh Hinv. pose proof (guarded_activate n dev d u Hinv) as H.
  unfold simulated, run_op, rt_device_open.
  destruct (activate drv dev d) as [[[r [dev1 |]] d1] | w]; [| | by rewrite H].
  - destruct H as (u1 & E & [Hc Ha Ho] & -> & Hu1 & Href). rewrite E. cbn [mbind res_bind].
    destruct (flag_set (dev_flag dev1) _ && flag_set (open_flag dev1) _).
    { exists u1. split; [done |]. split; [done | done | done]. }
    unfold guarded. cbn [open]. destruct (open drv) as [f |] eqn:Eo; cbn [fmap option_fmap option_map].
    + cbn [fst snd]. rewrite Hu1. cbn [rt_assert require mbind res_bind].
      destruct (f dev1 oflag d1) as [[r d2] | w]; [| done]. cbn [mbind res_bind].
      fold (success r). destruct (success r) eqn:Es.
      * cbn [ref_count set_ref_count set_open_flag].
        destruct (Z.eqb_spec (u8 (ref_count dev1 + 1)) 0) as [| Hne]; [done |]. cbn.
        eexists. split; [done |]. split; cbn.
        -- destruct Hc as [Hc ?]. rewrite Es. rewrite Hc in *. unfold u8 in *. lia.
        -- done.
        -- intros _. rewrite orb_true_r. split; [done |]. apply open_set.
      * cbn. rewrite Es. eexists. split; [done |]. rewrite orb_false_r. split; cbn; [done | done | by rewrite Eo].
    + cbn [mbind res_bind]. change (success RT_EOK) with true. cbn [orb Z.eqb].
      cbn [ref_count set_ref_count set_open_flag].
      destruct (Z.eqb_spec (u8 (ref_count dev1 + 1)) 0) as [| Hne]; [done |]. cbn.
      eexists. split; [done |]. split; cbn.
      * destruct Hc as [Hc ?]. rewrite Hc in *. unfold u8 in *. lia.
      * done.
      * intros _. rewrite Eo, orb_true_r. split; [done |]. apply open_set.
  - destruct H as (u1 & E & Hi & Hs). rewrite E. cbn. rewrite (Hs Hh).
    exists u1. split; [done | done].
Qed.

Lemma simulated_close n dev d u : dev_inv drv n dev u → simulated OpClose n dev d u.
Proof.
  intros [[Hc Hn] Ha Ho]. unfold simulated, run_op, rt_device_close. cbn [clients]. rewrite Hc.
  destruct (Z.eqb_spec n 0) as [-> | H0].
  { exists u. split; [done |]. split; [done | done | done]. }
  destruct (Ho ltac:(lia)) as [Hop Hof].
  cbn [ref_count set_ref_count]. destruct (Z.eqb_spec (u8 (n - 1)) 0) as [H1 | H1]; cbn [negb].
  - assert (n - 1 = 0) as En by (unfold u8 in H1; lia). rewrite En. change (u8 0) with 0.
    unfold guarded. cbn [close]. destruct (close drv) as [f |]; cbn [fmap option_fmap option_map].
    + cbn [fst snd]. rewrite Hop. cbn [rt_assert require mbind res_bind].
      destruct (f _ d) as [[r d'] | w]; [| done]. cbn [mbind res_bind]. fold (success r).
      destruct (success r); cbn; eexists; (split; [done |]); split; cbn; (lia || done || (intros; exfalso; lia)).
    + cbn. eexists. split; [done |]. split; cbn; [lia | done | intros; exfalso; lia].
  - eexists. split; [done |]. split; cbn.
    + unfold u8. lia.
    + done.
    + intros _. by split.
Qed.

Lemma simulated_access op n dev d u :
  match op with OpRead _ _ | OpWrite _ _ => True | _ => False end →
  dev_inv drv n dev u → simulated op n dev d u.
Proof.
  intros Hop Hinv. destruct op as [| | | pos size | pos data]; try done; clear Hop;
    destruct Hinv as [[Hc Hn] Ha Ho]; unfold simulated, run_op, rt_device_read, rt_device_write; rewrite Hc;
    (destruct (Z.eqb_spec n 0) as [-> | H0]; [exists u; split; [done |]; by split |]);
    destruct (Ho ltac:(lia)) as [Hop Hof]; unfold guarded; cbn [read write].
  - destruct (read drv) as [f |]; cbn [fmap option_fmap option_map]; [| exists u; split; [done |]; by split].
    cbn [fst snd]. rewrite Hop. cbn [rt_assert require mbind res_bind].
    destruct (f dev pos size d) as [[l d'] | w]; [| done]. exists u. split; [done |]. by split.
  - destruct (write drv) as [f |]; cbn [fmap option_fmap option_map]; [| exists u; split; [done |]; by split].
    cbn [fst snd]. rewrite Hop. cbn [rt_assert require mbind res_bind].
    destruct (f dev pos data d) as [[r d'] | w]; [| done]. exists u. split; [done |]. by split.
Qed.

Lemma simulated_op op n dev d u : init_honest → dev_inv drv n dev u → simulated op n dev d u.
Proof.
  intros Hh Hi. destruct op; [by apply simulated_init | by apply simulated_open |
    by apply simulated_close | by apply simulated_access | by apply simulated_access].
Qed.

Lemma clients_cons n op r ops rs : clients n (op :: ops) (r :: rs) = clients (clients n [op] [r]) ops rs.
Proof. destruct op, r as [| ? [| ? ?]]; simpl; repeat case_match; done. Qed.

Lemma guarded_ops ops : ∀ n dev d u,
  init_honest → dev_inv drv n dev u →
  match run_ops drv ops dev d with
  | Ok (rs, dev', d') => ∃ u', run_ops (guarded drv) ops dev (u, d) = Ok (rs, dev', (u', d')) ∧
      dev_inv drv (clients n ops rs) dev' u'
  | Stop w => run_ops (guarded drv) ops dev (u, d) = Stop w
  end.
Proof.
  induction ops as [| op ops IH]; intros n dev d u Hh Hi; [by exists u |]. simpl run_ops.
  pose proof (simulated_op op n dev d u Hh Hi) as H. unfold simulated in H.
  destruct (run_op drv op dev d) as [[[r dev1] d1] | w]; [| by rewrite H].
  destruct H as (u1 & E & Hi1). rewrite E. cbn [mbind res_bind].
  specialize (IH _ dev1 d1 u1 Hh Hi1).
  destruct (run_ops drv ops dev1 d1) as [[[rs dev2] d2] | w]; [| by rewrite IH].
  destruct IH as (u2 & E2 & Hi2). rewrite E2. cbn [mbind res_bind].
  exists u2. split; [done |]. by rewrite clients_cons.
Qed.
End life.

(** The fields a registration leaves. *)
Definition registered (flags : Z) : rt_device := mk_device (u16 flags) 0 0 None None.

(** C19. A registered device is used as drivers expect, whatever its clients do:
    in any sequence of calls of the framework the driver's [init] is called until
    it succeeds and not again, [open] only after it, [read] and [write] only while
    the device is open, [close] by the last client only: a driver that checks this
    behaves as the driver itself.  [ref_count] is the number of clients, and the
    open flag is set while there are any. *)
Theorem device_protocol {D} (drv : driver D) flags ops d :
  init_honest drv → flag_set (u16 flags) RT_DEVICE_FLAG_ACTIVATED = false →
  match run_ops drv ops (registered flags) d with
  | Ok (rs, dev, d') => (∃ u, run_ops (guarded drv) ops (registered flags) (mk_usage false false, d) =
        Ok (rs, dev, (u, d'))) ∧
      ref_count dev = clients 0 ops rs ∧
      (0 < clients 0 ops rs → flag_set (open_flag dev) RT_DEVICE_OFLAG_OPEN = true)
  | Stop w => run_ops (guarded drv) ops (registered flags) (mk_usage false false, d) = Stop w
  end.
Proof.
  intros Hh Hf. pose proof (guarded_ops drv ops 0 (registered flags) d (mk_usage false false) Hh) as H.
  destruct (run_ops drv ops (registered flags) d) as [[[rs dev] d'] | w].
  - destruct H as (u & E & [[Hc _] _ Ho]); [by split |]. split_and!; [by exists u | done |].
    intros Hn. by apply Ho.
  - apply H. by split.
Qed.

(** A driver that counts its calls: two clients, and a read after the last close. *)
Definition demo_driver : driver (list Z) := {|
  init := Some (λ _ d, Ok (RT_EOK, d ++ [1])); open := Some (λ _ _ d, Ok (RT_EOK, d ++ [2]));
  close := Some (λ _ d, Ok (RT_EOK, d ++ [3])); read := Some (λ _ _ _ d, Ok ([65], d ++ [4]));
  write := Some (λ _ _ b d, Ok (Z.of_nat (length b), d ++ [5])); control := None |}.
Definition demo_ops : list dev_op :=
  [OpRead 0 1; OpOpen 3; OpOpen 3; OpClose; OpRead 0 1; OpClose; OpWrite 0 [65]; OpClose].

Lemma device_protocol_witness :
  run_ops demo_driver demo_ops (registered 3) [] =
    Ok ([[]; [0]; [0]; [0]; [65]; [0]; [0]; [- RT_ERROR]], mk_device 0x13 0 0 None None, [1; 2; 2; 4; 3]) ∧
  match run_ops demo_driver demo_ops (registered 3) [] with
  | Ok (rs, dev, d') => (∃ u, run_ops (guarded demo_driver) demo_ops (registered 3) (mk_usage false false, []) =
        Ok (rs, dev, (u, d'))) ∧
      ref_count dev = clients 0 demo_ops rs ∧
      (0 < clients 0 demo_ops rs → flag_set (open_flag dev) RT_DEVICE_OFLAG_OPEN = true)
  | Stop w => run_ops (guarded demo_driver) demo_ops (registered 3) (mk_usage false false, []) = Stop w
  end.
Proof.
  split; [vm_compute; reflexivity |]. apply (device_protocol demo_driver 3 demo_ops []); [| done].
  intros f dev d r d' [= <-] [= <- <-]. done.
Defined.

Definition demo_ns : namespace :=
  mk_ns (set_list Object_Class_Device [1%nat] (mk_objs ∅ (λ _, []))) {[1%nat := [117; 97; 114; 116; 50]]} ∅.

Lemma rt_device_register_spec_witness :
  let name := [117; 97; 114; 116; 51] in
  match rt_device_find name demo_ns with
  | Some y => same_name (name_of y demo_ns) name = true ∧
      rt_device_register (Some 2%nat) name 0x143 0 (registered 0) demo_ns = Ok (- RT_ERROR, demo_ns)
  | None => ∃ s', rt_device_register (Some 2%nat) name 0x143 0 (registered 0) demo_ns = Ok (RT_EOK, s') ∧ unique_names s' ∧
      (∀ name', rt_device_find name' s' = if same_name name name' then Some 2%nat else rt_device_find name' demo_ns) ∧
      ns_devs s' = <[2%nat := mk_device (u16 0x143) 0 0 None None]> (ns_devs demo_ns)
  end.
Proof.
  intros name. apply (rt_device_register_spec 2 name 0x143 0 (registered 0) demo_ns).
  - split.
    + apply NoDup_singleton.
    + intros x y ->%list_elem_of_singleton ->%list_elem_of_singleton. done.
  - apply not_elem_of_cons. split; [done | by apply not_elem_of_nil].
Defined.
