(* ===== verification/Dfs.v ===== *)
(** * The device file system: [components/dfs/src]

    The tables of [dfs.c] (descriptors), [dfs_fs.c] (mounts) and [dfs_file.c]
    (the calls that go to the driver of a file system).  A driver is a record of
    optional functions over a world [W] of its own; it may change the flags, size,
    position and data of a descriptor.  Pointers into the tables are indices.
    Every allocation asks the oracle [heap_room].  [dfs_lock] is a recursive mutex
    around the table accesses; a call is one step here. *)
From S2P Require Import Prelude KObject DfsPath.
From S2P Require Device.
Local Open Scope Z_scope.

Definition DFS_FD_MAX : nat := 4.
Definition DFS_FILESYSTEMS_MAX : nat := 2.
Definition DFS_FILESYSTEM_TYPES_MAX : nat := 4.
Definition DFS_PATH_MAX : Z := 256.
Definition DFS_FD_MAGIC : Z := 0xfdfd.
Definition DFS_STATUS_ENOENT : Z := 2.
Definition DFS_STATUS_EBADF : Z := 9.
Definition DFS_STATUS_ENOMEM : Z := 12.
Definition DFS_STATUS_EBUSY : Z := 16.
Definition DFS_STATUS_EXDEV : Z := 18.
Definition DFS_STATUS_ENODEV : Z := 19.
Definition DFS_STATUS_ENOTDIR : Z := 20.
Definition DFS_STATUS_EINVAL : Z := 22.
Definition DFS_STATUS_ENOSPC : Z := 28.
Definition DFS_STATUS_ENOSYS : Z := 38.
Definition DFS_O_RDONLY : Z := 0.
Definition DFS_O_CREAT : Z := 0x100.
Definition DFS_O_DIRECTORY : Z := 0x200000.
Definition DFS_F_OPEN : Z := 0x01000000.
Definition DFS_F_DIRECTORY : Z := 0x02000000.
Definition DFS_F_EOF : Z := 0x04000000.
Definition DFS_FS_FLAG_FULLPATH : Z := 1.
Definition FT_REGULAR : Z := 0.
Definition FT_DIRECTORY : Z := 2.

Record dfs_filesystem := mk_fs {
  dev_id : option nat;
  fs_path : option (list Z);
  fs_ops : option nat;           (** the operations, by number *)
  fs_data : Z }.
Definition no_fs : dfs_filesystem := mk_fs None None None 0.

(** What a driver may change in a descriptor. *)
Record fd_info := mk_info { fi_flags : Z; fi_size : Z; fi_pos : Z; fi_data : Z }.

Record dfs_fd := mk_fd {
  fd_magic : Z;
  fd_type : Z;
  fd_path : option (list Z);
  ref_count : Z;
  fd_fs : option nat;            (** index in [filesystem_table] *)
  fd_inf : fd_info }.
Definition no_fd : dfs_fd := mk_fd 0 0 None 0 None (mk_info 0 0 0 0).

Definition set_ref (n : Z) (d : dfs_fd) : dfs_fd := mk_fd (fd_magic d) (fd_type d) (fd_path d) n (fd_fs d) (fd_inf d).
Definition set_path (p : option (list Z)) (d : dfs_fd) : dfs_fd :=
  mk_fd (fd_magic d) (fd_type d) p (ref_count d) (fd_fs d) (fd_inf d).
Definition set_info (i : fd_info) (d : dfs_fd) : dfs_fd :=
  mk_fd (fd_magic d) (fd_type d) (fd_path d) (ref_count d) (fd_fs d) i.
Definition set_type (t : Z) (d : dfs_fd) : dfs_fd :=
  mk_fd (fd_magic d) t (fd_path d) (ref_count d) (fd_fs d) (fd_inf d).
Definition add_flags (f : Z) (d : dfs_fd) : dfs_fd :=
  let i := fd_inf d in set_info (mk_info (Z.lor (fi_flags i) f) (fi_size i) (fi_pos i) (fi_data i)) d.
Definition set_pos (p : Z) (d : dfs_fd) : dfs_fd :=
  let i := fd_inf d in set_info (mk_info (fi_flags i) (fi_size i) p (fi_data i)) d.

(** [struct dfs_filesystem_operation]; [None]: the pointer is null. *)
Record fs_operation (W : Type) := mk_op {
  op_name : list Z;
  op_flags : Z;
  op_mount : option (dfs_filesystem → Z → Z → W → res (Z * Z * W));   (** result, [data] *)
  op_unmount : option (dfs_filesystem → W → res (Z * W));
  op_mkfs : option (nat → W → res (Z * W));
  op_statfs : option (dfs_filesystem → W → res (Z * list Z * W));
  op_open : option (dfs_filesystem → dfs_fd → W → res (Z * fd_info * W));
  op_close : option (dfs_filesystem → dfs_fd → W → res (Z * fd_info * W));
  op_ioctl : option (dfs_filesystem → dfs_fd → Z → Z → W → res (Z * fd_info * W));
  op_read : option (dfs_filesystem → dfs_fd → Z → W → res (Z * list Z * fd_info * W));
  op_write : option (dfs_filesystem → dfs_fd → list Z → W → res (Z * fd_info * W));
  op_flush : option (dfs_filesystem → dfs_fd → W → res (Z * fd_info * W));
  op_lseek : option (dfs_filesystem → dfs_fd → Z → W → res (Z * fd_info * W));
  op_getdents : option (dfs_filesystem → dfs_fd → Z → W → res (Z * list Z * fd_info * W));
  op_unlink : option (dfs_filesystem → list Z → W → res (Z * W));
  op_stat : option (dfs_filesystem → list Z → W → res (Z * list Z * W));
  op_rename : option (dfs_filesystem → option (list Z) → option (list Z) → W → res (Z * W)) }.
Arguments op_name {W}. Arguments op_flags {W}. Arguments op_mount {W}. Arguments op_unmount {W}.
Arguments op_mkfs {W}. Arguments op_statfs {W}. Arguments op_open {W}. Arguments op_close {W}.
Arguments op_ioctl {W}. Arguments op_read {W}. Arguments op_write {W}. Arguments op_flush {W}.
Arguments op_lseek {W}. Arguments op_getdents {W}. Arguments op_unlink {W}. Arguments op_stat {W}.
Arguments op_rename {W}.

Record dfs (W : Type) := mk_dfs {
  filesystem_operation_table : list (option nat);
  filesystem_table : list dfs_filesystem;
  fd_table : list dfs_fd;
  working_directory : option (list Z);   (** [None]: [DFS_USING_WORKDIR] is off *)
  heap_room : list bool;                 (** the next allocations succeed; [[]]: all do *)
  errno : Z;
  world : W }.
Arguments mk_dfs {W}. Arguments filesystem_operation_table {W}. Arguments filesystem_table {W}.
Arguments fd_table {W}. Arguments working_directory {W}. Arguments heap_room {W}. Arguments errno {W}. Arguments world {W}.

(** The devices under the file systems: [rt_device_find], [rt_device_open] with
    [RT_DEVICE_OFLAG_RDWR], [rt_device_close]. *)
Class BlockDevices (W : Type) := {
  device_find : list Z → W → option nat;
  device_open : nat → W → res (Z * W);
  device_close : nat → W → res (Z * W) }.

Section dfs.
Context {W : Type} `{!BlockDevices W}.
(** The operations that file systems register, by number. *)
Context (ops_of : nat → fs_operation W).

Definition put_types t (s : dfs W) := mk_dfs t (filesystem_table s) (fd_table s) (working_directory s) (heap_room s) (errno s) (world s).
Definition put_mounts t (s : dfs W) := mk_dfs (filesystem_operation_table s) t (fd_table s) (working_directory s) (heap_room s) (errno s) (world s).
Definition put_fds t (s : dfs W) := mk_dfs (filesystem_operation_table s) (filesystem_table s) t (working_directory s) (heap_room s) (errno s) (world s).
Definition put_cwd d (s : dfs W) := mk_dfs (filesystem_operation_table s) (filesystem_table s) (fd_table s) d (heap_room s) (errno s) (world s).
Definition put_room r (s : dfs W) := mk_dfs (filesystem_operation_table s) (filesystem_table s) (fd_table s) (working_directory s) r (errno s) (world s).
Definition rt_set_errno e (s : dfs W) := mk_dfs (filesystem_operation_table s) (filesystem_table s) (fd_table s) (working_directory s) (heap_room s) e (world s).
Definition put_world (w : W) (s : dfs W) : dfs W := mk_dfs (filesystem_operation_table s) (filesystem_table s) (fd_table s) (working_directory s) (heap_room s) (errno s) w.

Definition alloc (s : dfs W) : bool * dfs W :=
  match heap_room s with [] => (true, s) | b :: r => (b, put_room r s) end.

Definition normalize (path : list Z) (s : dfs W) : res (option (list Z) * dfs W) :=
  let '(room, s) := alloc s in
  p ← dfs_normalize_path room (working_directory s) None path; Ok (p, s).

Definition dfs_init (cwd : bool) (w : W) : dfs W :=
  mk_dfs (replicate DFS_FILESYSTEM_TYPES_MAX None) (replicate DFS_FILESYSTEMS_MAX no_fs) (replicate DFS_FD_MAX no_fd)
    (if cwd then Some [slash] else None) [] 0 w.

(** ** Descriptors *)

Definition get_fd (i : nat) (s : dfs W) : res dfs_fd := of_option OutOfBounds (fd_table s !! i).
Definition put_fd (i : nat) (d : dfs_fd) (s : dfs W) : dfs W := put_fds (<[i := d]> (fd_table s)) s.

(** The first entry with no references. *)
Fixpoint free_fd (l : list dfs_fd) (idx : nat) : option nat :=
  match l with
  | [] => None
  | d :: l => if 0 <? ref_count d then free_fd l (S idx) else Some idx
  end.

Definition fd_new (s : dfs W) : Z * dfs W :=
  match free_fd (fd_table s) 0 with
  | None => (-1, s)
  | Some i =>
      let d := default no_fd (fd_table s !! i) in
      (Z.of_nat i, put_fd i (mk_fd DFS_FD_MAGIC (fd_type d) (fd_path d) 1 (fd_fs d) (fd_inf d)) s)
  end.

(** [None]: [RT_NULL]. *)
Definition fd_get (fd : Z) (s : dfs W) : res (option nat * dfs W) :=
  if (fd <? 0) || (Z.of_nat DFS_FD_MAX <=? fd) then Ok (None, s)
  else
    let i := Z.to_nat fd in
    d ← get_fd i s;
    if negb (fd_magic d =? DFS_FD_MAGIC) then Ok (None, s)
    else Ok (Some i, put_fd i (set_ref (ref_count d + 1) d) s).

Definition fd_put (i : nat) (s : dfs W) : res (dfs W) :=
  d ← get_fd i s;
  let d := set_ref (ref_count d - 1) d in
  Ok (put_fd i (if ref_count d =? 0 then no_fd else d) s).

(** ** Mounted file systems *)

Definition get_mount (i : nat) (s : dfs W) : res dfs_filesystem := of_option OutOfBounds (filesystem_table s !! i).
Definition put_mount (i : nat) (f : dfs_filesystem) (s : dfs W) : dfs W := put_mounts (<[i := f]> (filesystem_table s)) s.

(** [fs->ops]. *)
Definition get_ops (f : dfs_filesystem) : res (fs_operation W) := o ← of_option NullDeref (fs_ops f); Ok (ops_of o).

Definition is_prefix (p path : list Z) : bool := bool_decide (take (length p) path = p).

(** The loop over [filesystem_table]: index of the best entry so far and the
    length of its path. *)
Fixpoint lookup_loop (path : list Z) (l : list dfs_filesystem) (i : nat) (fs : option nat) (prefixlen : nat) : option nat :=
  match l with
  | [] => fs
  | f :: l =>
      match fs_path f, fs_ops f with
      | Some p, Some _ =>
          let fspath := length p in
          if (fspath <? prefixlen)%nat || negb (is_prefix p path) then lookup_loop path l (S i) fs prefixlen
          else if (1 <? fspath)%nat && (fspath <? length path)%nat && negb (default 0 (path !! fspath) =? slash)
          then lookup_loop path l (S i) fs prefixlen
          else lookup_loop path l (S i) (Some i) fspath
      | _, _ => lookup_loop path l (S i) fs prefixlen
      end
  end.

Definition dfs_filesystem_lookup (path : list Z) (s : dfs W) : option nat :=
  lookup_loop path (filesystem_table s) 0 None 0.

(** The path of the first entry with the device. *)
Fixpoint mounted_path (device : nat) (l : list dfs_filesystem) : option (list Z) :=
  match l with
  | [] => None
  | f :: l => match fs_ops f with
      | Some _ => if bool_decide (dev_id f = Some device) then fs_path f else mounted_path device l
      | None => mounted_path device l
      end
  end.
Definition dfs_filesystem_get_mounted_path (device : nat) (s : dfs W) : option (list Z) :=
  mounted_path device (filesystem_table s).

(** [dfs_register]: the first empty entry, unless the name is there. *)
Fixpoint register_loop (name : list Z) (l : list (option nat)) (i : nat) (empty : option nat) : Z * option nat :=
  match l with
  | [] => (0, empty)
  | None :: l => register_loop name l (S i) (match empty with None => Some i | _ => empty end)
  | Some o :: l => if bool_decide (op_name (ops_of o) = name) then (-1, empty) else register_loop name l (S i) empty
  end.
Definition dfs_register (o : nat) (s : dfs W) : Z * dfs W :=
  let '(ret, empty) := register_loop (op_name (ops_of o)) (filesystem_operation_table s) 0 None in
  match empty with
  | Some i => (ret, if ret =? 0 then put_types (<[i := Some o]> (filesystem_operation_table s)) s else s)
  | None => (ret, s)
  end.

(** ** Files: [dfs_file.c] *)

(** [fd->path] for a driver without [DFS_FS_FLAG_FULLPATH]. *)
Definition sub_path (mount full : list Z) : res (list Z) :=
  sub ← dfs_subdir mount full; Ok (default [slash] sub).

Definition full_paths (o : fs_operation W) : bool := negb (Z.land (op_flags o) DFS_FS_FLAG_FULLPATH =? 0).

(** [fs->path], which is followed. *)
Definition mount_point (f : dfs_filesystem) : res (list Z) := of_option NullDeref (fs_path f).

(** The descriptor before the driver's [open], and the state after the
    allocations. *)
Definition prepare_fd (fs : nat) (f : dfs_filesystem) (o : fs_operation W) (full : list Z) (flags : Z) (d : dfs_fd) (s : dfs W)
    : res (dfs_fd * dfs W) :=
  let d := mk_fd (fd_magic d) FT_REGULAR (fd_path d) (ref_count d) (Some fs) (mk_info flags 0 0 (fi_data (fd_inf d))) in
  if full_paths o then Ok (set_path (Some full) d, s)
  else
    m ← mount_point f;
    sub ← sub_path m full;
    let '(room, s) := alloc s in
    Ok (set_path (if room then Some sub else None) d, s).

(** On a descriptor [d] of any place; the result, the descriptor, the state. *)
Definition dfs_file_open (d : dfs_fd) (path : list Z) (flags : Z) (s : dfs W) : res (Z * dfs_fd * dfs W) :=
  '(full, s) ← normalize path s;
  match full with
  | None => Ok (-1, d, s)
  | Some full =>
      match dfs_filesystem_lookup full s with
      | None => Ok (- DFS_STATUS_ENOENT, d, s)
      | Some fs =>
          f ← get_mount fs s;
          o ← get_ops f;
          '(d, s) ← prepare_fd fs f o full flags d s;
          match op_open o with
          | None => Ok (- DFS_STATUS_ENOSYS, set_path None d, s)
          | Some open =>
              '(result, inf, w) ← open f d (world s);
              let d := set_info inf d in
              let s := put_world w s in
              if result <? 0 then Ok (result, set_path None d, s)
              else
                let d := add_flags DFS_F_OPEN d in
                let d := if negb (Z.land flags DFS_O_DIRECTORY =? 0)
                         then add_flags DFS_F_DIRECTORY (set_type FT_DIRECTORY d) else d in
                Ok (0, d, s)
          end
      end
  end.

(** [fd->fs]. *)
Definition fs_of (d : dfs_fd) (s : dfs W) : res dfs_filesystem := i ← of_option NullDeref (fd_fs d); get_mount i s.

Definition dfs_file_close (d : dfs_fd) (s : dfs W) : res (Z * dfs_fd * dfs W) :=
  f ← fs_of d s;
  o ← get_ops f;
  '(result, d, s) ← (match op_close o with
    | None => Ok (0, d, s)
    | Some close => '(r, inf, w) ← close f d (world s); Ok (r, set_info inf d, put_world w s)
    end);
  if result <? 0 then Ok (result, d, s) else Ok (result, set_path None d, s).

Definition dfs_file_ioctl (d : dfs_fd) (cmd args : Z) (s : dfs W) : res (Z * dfs_fd * dfs W) :=
  if negb (fd_type d =? FT_REGULAR) then Ok (- DFS_STATUS_EINVAL, d, s)
  else
    f ← fs_of d s;
    o ← get_ops f;
    match op_ioctl o with
    | None => Ok (- DFS_STATUS_ENOSYS, d, s)
    | Some ioctl => '(r, inf, w) ← ioctl f d cmd args (world s); Ok (r, set_info inf d, put_world w s)
    end.

(** The bytes that arrive in the buffer come first. *)
Definition dfs_file_read (d : dfs_fd) (len : Z) (s : dfs W) : res (list Z * Z * dfs_fd * dfs W) :=
  f ← fs_of d s;
  o ← get_ops f;
  match op_read o with
  | None => Ok ([], - DFS_STATUS_ENOSYS, d, s)
  | Some read =>
      '(r, buf, inf, w) ← read f d len (world s);
      let d := set_info inf d in
      Ok (buf, r, if r <? 0 then add_flags DFS_F_EOF d else d, put_world w s)
  end.

Definition dfs_file_getdents (d : dfs_fd) (nbytes : Z) (s : dfs W) : res (list Z * Z * dfs_fd * dfs W) :=
  if negb (fd_type d =? FT_DIRECTORY) then Ok ([], - DFS_STATUS_EINVAL, d, s)
  else
    f ← fs_of d s;
    o ← get_ops f;
    match op_getdents o with
    | None => Ok ([], - DFS_STATUS_ENOSYS, d, s)
    | Some getdents => '(r, buf, inf, w) ← getdents f d nbytes (world s); Ok (buf, r, set_info inf d, put_world w s)
    end.

Definition dfs_file_write (d : dfs_fd) (buf : list Z) (s : dfs W) : res (Z * dfs_fd * dfs W) :=
  f ← fs_of d s;
  o ← get_ops f;
  match op_write o with
  | None => Ok (- DFS_STATUS_ENOSYS, d, s)
  | Some write => '(r, inf, w) ← write f d buf (world s); Ok (r, set_info inf d, put_world w s)
  end.

Definition dfs_file_flush (d : dfs_fd) (s : dfs W) : res (Z * dfs_fd * dfs W) :=
  f ← fs_of d s;
  o ← get_ops f;
  match op_flush o with
  | None => Ok (- DFS_STATUS_ENOSYS, d, s)
  | Some flush => '(r, inf, w) ← flush f d (world s); Ok (r, set_info inf d, put_world w s)
  end.

Definition dfs_file_lseek (d : dfs_fd) (offset : Z) (s : dfs W) : res (Z * dfs_fd * dfs W) :=
  match fd_fs d with
  | None => Ok (- DFS_STATUS_EINVAL, d, s)
  | Some i =>
      f ← get_mount i s;
      o ← get_ops f;
      match op_lseek o with
      | None => Ok (- DFS_STATUS_ENOSYS, d, s)
      | Some lseek =>
          '(r, inf, w) ← lseek f d offset (world s);
          let d := set_info inf d in
          Ok (r, if 0 <=? r then set_pos r d else d, put_world w s)
      end
  end.

(** [fd_is_open] of [dfs.c]: the loop over the descriptors. *)
Fixpoint open_loop (fs : nat) (mountpath : list Z) (l : list dfs_fd) : res bool :=
  match l with
  | [] => Ok false
  | d :: l =>
      if bool_decide (fd_fs d = Some fs) then
        p ← of_option NullDeref (fd_path d);
        if bool_decide (p = mountpath) then Ok true else open_loop fs mountpath l
      else open_loop fs mountpath l
  end.

Definition fd_is_open (pathname : list Z) (s : dfs W) : res (Z * dfs W) :=
  '(full, s) ← normalize pathname s;
  match full with
  | None => Ok (-1, s)
  | Some full =>
      match dfs_filesystem_lookup full s with
      | None => Ok (-1, s)
      | Some fs =>
          f ← get_mount fs s;
          m ← mount_point f;
          let mountpath := if bool_decide (m = [slash]) then full else drop (length m) full in
          b ← open_loop fs mountpath (fd_table s);
          Ok (if b : bool then 0 else -1, s)
      end
  end.

Definition dfs_file_unlink (path : list Z) (s : dfs W) : res (Z * dfs W) :=
  '(full, s) ← normalize path s;
  match full with
  | None => Ok (- DFS_STATUS_EINVAL, s)
  | Some full =>
      match dfs_filesystem_lookup full s with
      | None => Ok (- DFS_STATUS_ENOENT, s)
      | Some fs =>
          '(busy, s) ← fd_is_open full s;
          if busy =? 0 then Ok (- DFS_STATUS_EBUSY, s)
          else
            f ← get_mount fs s;
            o ← get_ops f;
            match op_unlink o with
            | None => Ok (- DFS_STATUS_ENOSYS, s)
            | Some unlink =>
                p ← (if full_paths o then Ok full else m ← mount_point f; sub_path m full);
                '(r, w) ← unlink f p (world s); Ok (r, put_world w s)
            end
      end
  end.

(** The [struct stat] of a root directory is [None]. *)
Definition dfs_file_stat (path : list Z) (s : dfs W) : res (Z * option (list Z) * dfs W) :=
  '(full, s) ← normalize path s;
  match full with
  | None => Ok (-1, None, s)
  | Some full =>
      match dfs_filesystem_lookup full s with
      | None => Ok (- DFS_STATUS_ENOENT, None, s)
      | Some fs =>
          f ← get_mount fs s;
          if bool_decide (full = [slash]) then Ok (0, None, s)
          else
            m ← mount_point f;
            sub ← dfs_subdir m full;
            match sub with
            | None => Ok (0, None, s)
            | Some sub =>
                o ← get_ops f;
                match op_stat o with
                | None => Ok (- DFS_STATUS_ENOSYS, None, s)
                | Some stat =>
                    '(r, buf, w) ← stat f (if full_paths o then full else sub) (world s);
                    Ok (r, Some buf, put_world w s)
                end
            end
      end
  end.

(** Both paths of a file system that [lookup] did not find are on the same one,
    the null pointer, which is then followed. *)
Definition dfs_file_rename (oldpath newpath : list Z) (s : dfs W) : res (Z * dfs W) :=
  '(oldfull, s) ← normalize oldpath s;
  match oldfull with
  | None => Ok (- DFS_STATUS_ENOENT, s)
  | Some oldfull =>
      '(newfull, s) ← normalize newpath s;
      match newfull with
      | None => Ok (- DFS_STATUS_ENOENT, s)
      | Some newfull =>
          let oldfs := dfs_filesystem_lookup oldfull s in
          if bool_decide (oldfs = dfs_filesystem_lookup newfull s) then
            i ← of_option NullDeref oldfs;
            f ← get_mount i s;
            o ← get_ops f;
            match op_rename o with
            | None => Ok (- DFS_STATUS_ENOSYS, s)
            | Some rename =>
                if full_paths o then
                  '(r, w) ← rename f (Some oldfull) (Some newfull) (world s); Ok (r, put_world w s)
                else
                  m ← mount_point f;
                  a ← dfs_subdir m oldfull;
                  b ← dfs_subdir m newfull;
                  '(r, w) ← rename f a b (world s); Ok (r, put_world w s)
            end
          else Ok (- DFS_STATUS_EXDEV, s)
      end
  end.

(** ** Mounting: [dfs_fs.c] *)

(** [dfs_mount] follows every entry of the table: an empty one is a null
    pointer. *)
Fixpoint find_type (name : list Z) (l : list (option nat)) : res (option nat) :=
  match l with
  | [] => Ok None
  | e :: l =>
      o ← of_option NullDeref e;
      if bool_decide (op_name (ops_of o) = name) then Ok (Some o) else find_type name l
  end.

(** The first empty entry; [None]: an entry has the path [path]. *)
Fixpoint mount_loop (path : list Z) (l : list dfs_filesystem) (i : nat) (fs : option nat) : res (option (option nat)) :=
  match l with
  | [] => Ok (Some fs)
  | f :: l =>
      match fs_ops f with
      | None => mount_loop path l (S i) (match fs with None => Some i | _ => fs end)
      | Some _ =>
          p ← mount_point f;
          if bool_decide (p = path) then Ok None else mount_loop path l (S i) fs
      end
  end.

Definition fail (e : Z) (s : dfs W) : res (Z * dfs W) := Ok (-1, rt_set_errno (- e) s).

(** The check that the directory exists, with a descriptor on the stack, in which
    [junk] has been left. *)
Definition directory_exists (junk : dfs_fd) (full : list Z) (s : dfs W) : res (bool * dfs W) :=
  if bool_decide (full = [slash]) || bool_decide (full = [47; 100; 101; 118]) then Ok (true, s)   (* "/", "/dev" *)
  else
    '(r, d, s) ← dfs_file_open junk full (Z.lor DFS_O_RDONLY DFS_O_DIRECTORY) s;
    if r <? 0 then Ok (false, s)
    else '(_, _, s) ← dfs_file_close d s; Ok (true, s).

(** The new entry is in the table: the device is opened and the driver called. *)
Definition mount_entry (i o : nat) (rwflag data : Z) (s : dfs W) : res (Z * dfs W) :=
  f ← get_mount i s;
  '(ok, s) ← (match dev_id f with
    | None => Ok (true, s)
    | Some dev => '(r, w) ← device_open dev (world s); Ok (r =? 0, put_world w s)
    end);
  if negb ok then Ok (-1, put_mount i no_fs s)
  else
    mount ← of_option NullDeref (op_mount (ops_of o));
    '(r, d, w) ← mount f rwflag data (world s);
    let s := put_mount i (mk_fs (dev_id f) (fs_path f) (fs_ops f) d) (put_world w s) in
    if r <? 0 then
      s ← (match dev_id f with
        | None => Ok s
        | Some dev => '(_, w) ← device_close dev (world s); Ok (put_world w s)
        end);
      Ok (-1, put_mount i no_fs s)
    else Ok (0, s).

(** [junk]: what is on the stack. *)
Definition dfs_mount (junk : dfs_fd) (device_name : option (list Z)) (path filesystemtype : list Z) (rwflag data : Z) (s : dfs W)
    : res (Z * dfs W) :=
  match match device_name with None => Some None | Some n => option_map Some (device_find n (world s)) end with
  | None => fail DFS_STATUS_ENODEV s
  | Some dev =>
      t ← find_type filesystemtype (filesystem_operation_table s);
      match t with
      | None => fail DFS_STATUS_ENODEV s
      | Some o =>
          match op_mount (ops_of o) with
          | None => fail DFS_STATUS_ENOSYS s
          | Some _ =>
              '(full, s) ← normalize path s;
              match full with
              | None => fail DFS_STATUS_ENOTDIR s
              | Some full =>
                  '(ok, s) ← directory_exists junk full s;
                  if negb ok then fail DFS_STATUS_ENOTDIR s
                  else
                    r ← mount_loop path (filesystem_table s) 0 None;
                    match r with
                    | None => fail DFS_STATUS_EINVAL s
                    | Some None => fail DFS_STATUS_ENOSPC s
                    | Some (Some i) => mount_entry i o rwflag data (put_mount i (mk_fs dev (Some full) (Some o) 0) s)
                    end
              end
          end
      end
  end.

Fixpoint unmount_loop (path : list Z) (l : list dfs_filesystem) (i : nat) : option nat :=
  match l with
  | [] => None
  | f :: l => if bool_decide (fs_path f = Some path) then Some i else unmount_loop path l (S i)
  end.

Definition dfs_unmount (specialfile : list Z) (s : dfs W) : res (Z * dfs W) :=
  '(full, s) ← normalize specialfile s;
  match full with
  | None => fail DFS_STATUS_ENOTDIR s
  | Some full =>
      match unmount_loop full (filesystem_table s) 0 with
      | None => Ok (-1, s)
      | Some i =>
          f ← get_mount i s;
          o ← get_ops f;
          match op_unmount o with
          | None => Ok (-1, s)
          | Some unmount =>
              '(r, w) ← unmount f (world s);
              let s := put_world w s in
              if r <? 0 then Ok (-1, s)
              else
                s ← (match dev_id f with
                  | None => Ok s
                  | Some dev => '(_, w) ← device_close dev (world s); Ok (put_world w s)
                  end);
                Ok (0, put_mount i no_fs s)
          end
      end
  end.

(** [dfs_mkfs]: here empty entries are skipped. *)
Fixpoint mkfs_loop (name : list Z) (l : list (option nat)) : option nat :=
  match l with
  | [] => None
  | Some o :: l => if bool_decide (op_name (ops_of o) = name) then Some o else mkfs_loop name l
  | None :: l => mkfs_loop name l
  end.
Definition dfs_mkfs (fs_name : list Z) (device_name : option (list Z)) (s : dfs W) : res (Z * dfs W) :=
  match n ← device_name; device_find n (world s) with
  | None => fail DFS_STATUS_ENODEV s
  | Some dev =>
      match mkfs_loop fs_name (filesystem_operation_table s) with
      | None => Ok (-1, s)
      | Some o =>
          match op_mkfs (ops_of o) with
          | None => fail DFS_STATUS_ENOSYS s
          | Some mkfs => '(r, w) ← mkfs dev (world s); Ok (r, put_world w s)
          end
      end
  end.

(** [path] is not normalised. *)
Definition dfs_statfs (path : list Z) (s : dfs W) : res (Z * list Z * dfs W) :=
  match dfs_filesystem_lookup path s with
  | None => Ok (-1, [], s)
  | Some i =>
      f ← get_mount i s;
      o ← get_ops f;
      match op_statfs o with
      | None => Ok (-1, [], s)
      | Some statfs => '(r, buf, w) ← statfs f (world s); Ok (r, buf, put_world w s)
      end
  end.

(** ** The POSIX calls: [dfs_posix.c] *)

(** [rt_set_errno(result); return -1] for a negative result. *)
Definition posix (r : Z) (s : dfs W) : Z * dfs W := if r <? 0 then (-1, rt_set_errno r s) else (r, s).

(** A call on the descriptor [fd]: [f] between [fd_get] and [fd_put].  [None]: it is
    not open, and the error number says so. *)
Definition with_fd {A} (fd : Z) (f : dfs_fd → dfs W → res (A * dfs_fd * dfs W)) (s : dfs W) : res (option A * dfs W) :=
  '(i, s) ← fd_get fd s;
  match i with
  | None => Ok (None, rt_set_errno (- DFS_STATUS_EBADF) s)
  | Some i =>
      d ← get_fd i s;
      '(r, d, s) ← f d s;
      s ← fd_put i (put_fd i d s);
      Ok (Some r, s)
  end.
Definition posix_fd (r : option Z) (s : dfs W) : Z * dfs W := match r with None => (-1, s) | Some r => posix r s end.

(** [open], [mkdir] and [opendir] begin like this: a descriptor with two
    references, or the error. *)
Definition open_fd (file : list Z) (flags : Z) (s : dfs W) : res ((Z + Z) * dfs W) :=
  let '(fd, s) := fd_new s in
  if fd <? 0 then Ok (inr (- DFS_STATUS_ENOMEM), s)
  else
    '(i, s) ← fd_get fd s;
    i ← of_option NullDeref i;
    d ← get_fd i s;
    '(r, d, s) ← dfs_file_open d file flags s;
    let s := put_fd i d s in
    if r <? 0 then s ← fd_put i s; s ← fd_put i s; Ok (inr r, s)
    else Ok (inl fd, s).

Definition open (file : list Z) (flags : Z) (s : dfs W) : res (Z * dfs W) :=
  '(r, s) ← open_fd file flags s;
  match r with
  | inl fd => s ← fd_put (Z.to_nat fd) s; Ok (fd, s)
  | inr e => Ok (-1, rt_set_errno e s)
  end.

Definition close (fd : Z) (s : dfs W) : res (Z * dfs W) :=
  '(i, s) ← fd_get fd s;
  match i with
  | None => Ok (-1, rt_set_errno (- DFS_STATUS_EBADF) s)
  | Some i =>
      d ← get_fd i s;
      '(r, d, s) ← dfs_file_close d s;
      s ← fd_put i (put_fd i d s);
      if r <? 0 then Ok (-1, rt_set_errno r s) else s ← fd_put i s; Ok (0, s)
  end.

Definition read (fd len : Z) (s : dfs W) : res (list Z * Z * dfs W) :=
  '(r, s) ← with_fd fd (λ d s, '(buf, r, d, s) ← dfs_file_read d len s; Ok ((buf, r), d, s)) s;
  let '(x, s) := posix_fd (snd <$> r) s in
  Ok (from_option fst [] r, x, s).

Definition write (fd : Z) (buf : list Z) (s : dfs W) : res (Z * dfs W) :=
  '(r, s) ← with_fd fd (λ d s, dfs_file_write d buf s) s; Ok (posix_fd r s).

(** It returns the offset that was asked for, not the driver's position. *)
Definition lseek (fd offset whence : Z) (s : dfs W) : res (Z * dfs W) :=
  '(r, s) ← with_fd fd (λ d s,
    let offset := if whence =? 1 then s32 (offset + fi_pos (fd_inf d))
                  else if whence =? 2 then s32 (offset + fi_size (fd_inf d)) else offset in
    if negb ((0 <=? whence) && (whence <=? 2)) || (offset <? 0) then Ok (- DFS_STATUS_EINVAL, d, s)
    else '(r, d, s) ← dfs_file_lseek d offset s; Ok (if r <? 0 then r else offset, d, s)) s;
  Ok (posix_fd r s).

Definition fsync (fd : Z) (s : dfs W) : res (Z * dfs W) :=
  '(r, s) ← with_fd fd dfs_file_flush s; Ok (default (-1) r, s).

Definition ioctl (fd cmd data : Z) (s : dfs W) : res (Z * dfs W) :=
  '(r, s) ← with_fd fd (λ d s, dfs_file_ioctl d cmd data s) s;
  Ok (match r with None => (-1, s) | Some r => if r =? 0 then (r, s) else (-1, rt_set_errno r s) end).

Definition rename (old new : list Z) (s : dfs W) : res (Z * dfs W) :=
  '(r, s) ← dfs_file_rename old new s; Ok (if r <? 0 then (-1, rt_set_errno r s) else (0, s)).
Definition unlink (pathname : list Z) (s : dfs W) : res (Z * dfs W) :=
  '(r, s) ← dfs_file_unlink pathname s; Ok (if r <? 0 then (-1, rt_set_errno r s) else (0, s)).
Definition rmdir : list Z → dfs W → res (Z * dfs W) := unlink.

Definition mkdir (path : list Z) (s : dfs W) : res (Z * dfs W) :=
  '(r, s) ← open_fd path (Z.lor DFS_O_DIRECTORY DFS_O_CREAT) s;
  match r with
  | inr e => Ok (-1, rt_set_errno e s)
  | inl fd =>
      let i := Z.to_nat fd in
      d ← get_fd i s;
      '(_, d, s) ← dfs_file_close d s;
      s ← fd_put i (put_fd i d s);
      s ← fd_put i s;
      Ok (0, s)
  end.

(** [DIR], a directory stream. *)
Definition DIR_BUF : Z := 512.
Record DIR := mk_dir { d_fd : Z; d_buf : list Z; d_num : Z; d_cur : Z }.
(** What [opendir] returns, cleared. *)
Definition new_dir (fd : Z) : DIR := mk_dir fd (replicate (Z.to_nat DIR_BUF) 0) 0 0.

(** The stream is allocated after the directory is open. *)
Definition opendir (name : list Z) (s : dfs W) : res (option DIR * dfs W) :=
  '(r, s) ← open_fd name (Z.lor DFS_O_RDONLY DFS_O_DIRECTORY) s;
  match r with
  | inr e => Ok (None, rt_set_errno e s)
  | inl fd =>
      let '(room, s) := alloc s in
      let i := Z.to_nat fd in
      if room then s ← fd_put i s; Ok (Some (new_dir fd), s)
      else
        d ← get_fd i s;
        '(_, d, s) ← dfs_file_close d s;
        s ← fd_put i (put_fd i d s);
        s ← fd_put i s;
        Ok (None, s)
  end.

(** [d] is [None] when it has been freed.  Both references are put, whatever the
    driver says; a stream whose descriptor is no longer open is not freed. *)
Definition closedir (d : option DIR) (s : dfs W) : res (Z * option DIR * dfs W) :=
  dir ← of_option NullDeref d;
  '(i, s) ← fd_get (d_fd dir) s;
  match i with
  | None => Ok (-1, d, rt_set_errno (- DFS_STATUS_EBADF) s)
  | Some i =>
      fd ← get_fd i s;
      '(r, fd, s) ← dfs_file_close fd s;
      s ← fd_put i (put_fd i fd s);
      s ← fd_put i s;
      Ok (if r <? 0 then (-1, None, rt_set_errno r s) else (0, None, s))
  end.

(** [strncpy] leaves a path of 256 bytes and more without its zero: the next
    reader of [working_directory] leaves the array. *)
Definition chdir (path : list Z) (s : dfs W) : res (Z * dfs W) :=
  if DFS_PATH_MAX <? Z.of_nat (length path) then fail DFS_STATUS_ENOTDIR s
  else
    '(full, s) ← normalize path s;
    match full with
    | None => fail DFS_STATUS_ENOTDIR s
    | Some full =>
        '(d, s) ← opendir full s;
        match d with
        | None => Ok (-1, s)
        | Some d =>
            '(_, _, s) ← closedir (Some d) s;
            _ ← require OutOfBounds (Z.of_nat (length full) <? DFS_PATH_MAX);
            Ok (0, put_cwd (Some full) s)
        end
    end.

Definition stat (file : list Z) (s : dfs W) : res (Z * option (list Z) * dfs W) :=
  '(r, buf, s) ← dfs_file_stat file s;
  Ok (if r <? 0 then (-1, buf, rt_set_errno r s) else (r, buf, s)).

(** [st_mode] and [st_size] from the descriptor. *)
Definition fstat (fd : Z) (s : dfs W) : res (Z * option (bool * Z) * dfs W) :=
  '(r, s) ← with_fd fd (λ d s, Ok ((fd_type d =? FT_DIRECTORY, fi_size (fd_inf d)), d, s)) s;
  Ok (match r with None => (-1, None, s) | Some st => (0, Some st, s) end).

(** [rt_strncpy] of the directory into [size] bytes, filled up with zeros; [None]:
    the buffer is not written. *)
Definition getcwd (size : nat) (s : dfs W) : option (list Z) :=
  d ← working_directory s; Some (take size (d ++ replicate size 0)).

(** ** Reading directory streams *)

Definition set_cur (n cur : Z) (d : DIR) : DIR := mk_dir (d_fd d) (d_buf d) n cur.

(** [d_reclen] of the entry at [cur]: a little-endian half word. *)
Definition reclen (d : DIR) : res Z :=
  lo ← rd (d_buf d) (d_cur d + 2); hi ← rd (d_buf d) (d_cur d + 3); Ok (lo + 256 * hi).

(** The result: the offset of the entry in the buffer, or [None]. *)
Definition readdir (d : DIR) (s : dfs W) : res (option Z * DIR * dfs W) :=
  '(i, s) ← fd_get (d_fd d) s;
  match i with
  | None => Ok (None, d, rt_set_errno (- DFS_STATUS_EBADF) s)
  | Some i =>
      d ← (if negb (d_num d =? 0) then n ← reclen d; Ok (set_cur (d_num d) (s32 (d_cur d + n)) d) else Ok d);
      if (d_num d =? 0) || (d_num d <=? d_cur d) then
        file ← get_fd i s;
        '(bytes, r, file, s) ← dfs_file_getdents file (DIR_BUF - 1) s;
        let d := mk_dir (d_fd d) (bytes ++ drop (length bytes) (d_buf d)) (d_num d) (d_cur d) in
        s ← fd_put i (put_fd i file s);
        if r <=? 0 then Ok (None, d, rt_set_errno r s)
        else Ok (Some 0, set_cur r 0 d, s)
      else s ← fd_put i s; Ok (Some (d_cur d), d, s)
  end.

(** Of the entries of the file, the bytes in the buffer and the place in them. *)
Definition telldir (d : DIR) (s : dfs W) : res (Z * dfs W) :=
  '(r, s) ← with_fd (d_fd d) (λ f s, Ok (s32 (fi_pos (fd_inf f) - d_num d + d_cur d), f, s)) s;
  Ok (default 0 r, s).

Definition seekdir (d : DIR) (offset : Z) (s : dfs W) : res (DIR * dfs W) :=
  '(r, s) ← with_fd (d_fd d) (λ f s, dfs_file_lseek f offset s) s;
  Ok (match r with Some r => if 0 <=? r then set_cur 0 0 d else d | None => d end, s).
Definition rewinddir (d : DIR) (s : dfs W) : res (DIR * dfs W) := seekdir d 0 s.

End dfs.

(** ** The devices of the framework as block devices *)
#[export] Instance framework_devices {D} (drv : nat → Device.driver D) : BlockDevices (Device.namespace * D) := {|
  device_find name w := Device.rt_device_find name w.1;
  device_open x w :=
    dev ← of_option NullDeref (Device.ns_devs w.1 !! x);
    '(r, dev, d) ← Device.rt_device_open (drv x) dev Device.RT_DEVICE_OFLAG_RDWR w.2;
    Ok (r, (Device.mk_ns (Device.ns_objs w.1) (Device.ns_names w.1) (<[x := dev]> (Device.ns_devs w.1)), d));
  device_close x w :=
    dev ← of_option NullDeref (Device.ns_devs w.1 !! x);
    '(r, dev, d) ← Device.rt_device_close (drv x) dev w.2;
    Ok (r, (Device.mk_ns (Device.ns_objs w.1) (Device.ns_names w.1) (<[x := dev]> (Device.ns_devs w.1)), d)) |}.

(** ** Partition tables: [dfs_filesystem_get_partition] *)

Record dfs_partition := mk_partition { part_type : Z; part_offset : Z; part_size : Z }.

(** [x<<24] on the promoted [int]. *)
Definition word_at (buf : list Z) (i : Z) : res Z :=
  b0 ← rd buf i; b1 ← rd buf (i + 1); b2 ← rd buf (i + 2); b3 ← rd buf (i + 3);
  Ok (s32 (Z.lor (Z.lor b0 (Z.shiftl b1 8)) (Z.lor (Z.shiftl b2 16) (Z.shiftl b3 24)))).

(** [None]: [-RT_ERROR]. *)
Definition dfs_filesystem_get_partition (buf : list Z) (pindex : Z) : res (option dfs_partition) :=
  let dpt := 0x1be + pindex * 16 in
  b ← rd buf dpt;
  if negb (b =? 0x80) && negb (b =? 0) then Ok None
  else
    type ← rd buf (dpt + 4);
    if type =? 0 then Ok None
    else
      offset ← word_at buf (dpt + 8);
      size ← word_at buf (dpt + 12);
      Ok (Some (mk_partition type offset (u32 size))).
