(* ===== verification/DfsProps.v ===== *)
(** * The device file system: which driver gets which path

    Mounted file systems and files as lists of names: the look-up finds the longest
    mount point that is a prefix of the names of a path, and the driver is given
    the names below it. *)
From S2P Require Import Prelude KObject DfsPath Dfs.
Local Open Scope Z_scope.

(** ** Prefixes of paths *)

Definition path_text (ns : list (list Z)) : list Z := concat ((λ n, slash :: n) <$> ns).

Lemma show_text ns : ns ≠ [] → show_path ns = path_text ns.
Proof. by destruct ns. Qed.

Lemma path_text_app a b : path_text (a ++ b) = path_text a ++ path_text b.
Proof. unfold path_text. by rewrite fmap_app, concat_app. Qed.

Lemma is_prefix_app p r : is_prefix p (p ++ r) = true.
Proof. unfold is_prefix. apply bool_decide_eq_true. by rewrite take_app_length. Qed.

Lemma is_prefix_path p path : is_prefix p path = true ↔ p `prefix_of` path.
Proof.
  unfold is_prefix. rewrite bool_decide_eq_true. split.
  - intros <-. exists (drop (length p) path). by rewrite take_drop.
  - intros [r ->]. by rewrite take_app_length.
Qed.

(** The names [a] are a text prefix of [b] up to a separator only if they are
    a prefix as lists. *)
Lemma text_prefix a : ∀ b r, Forall plain a → Forall plain b → path_text b = path_text a ++ r →
  (r = [] ∨ head r = Some slash) → a `prefix_of` b.
Proof.
  induction a as [|x a IH]; intros b r Ha Hb E Hr; [apply prefix_nil|].
  apply Forall_cons in Ha as [[[Hx _] _] Ha]. destruct b as [|y b].
  { unfold path_text in E. simpl in E. done. }
  apply Forall_cons in Hb as [[[Hy _] _] Hb]. unfold path_text in E. cbn [fmap list_fmap concat app] in E.
  injection E as E. rewrite <- app_assoc in E.
  assert (Hxy : ∀ u v s t, clean u → clean v → u ++ s = v ++ t → (s = [] ∨ head s = Some slash) → (t = [] ∨ head t = Some slash) →
    u = v ∧ s = t).
  { clear. induction u as [|c u IH]; intros v s t Hu Hv E Hs Ht.
    - destruct v as [|d v]; [done|]. apply Forall_cons in Hv as [[_ Hd] _]. simpl in E. subst s. destruct Hs as [?|[= ->]]; done.
    - apply Forall_cons in Hu as [[_ Hc] Hu]. destruct v as [|d v].
      + simpl in E. subst t. destruct Ht as [?|[= ->]]; done.
      + apply Forall_cons in Hv as [_ Hv]. injection E as -> E. destruct (IH v s t Hu Hv E Hs Ht) as [-> ->]. done. }
  assert (Hh : ∀ l q, (q = [] ∨ head q = Some slash) → path_text l ++ q = [] ∨ head (path_text l ++ q) = Some slash).
  { intros [|z l] q Hq; [done|by right]. }
  destruct (Hxy y x (path_text b) (path_text a ++ r) Hy Hx E) as [-> E'].
  - rewrite <- (app_nil_r (path_text b)). apply Hh. by left.
  - by apply Hh.
  - apply prefix_cons. by apply (IH b r).
Qed.

Lemma path_text_nil ns : path_text ns = [] → ns = [].
Proof. by destruct ns. Qed.

Lemma show_length_pos ns : (0 < length (show_path ns))%nat.
Proof. destruct ns; simpl; lia. Qed.

Lemma path_text_long m ms : Forall plain (m :: ms) → (1 <? length (path_text (m :: ms)))%nat = true.
Proof.
  intros [[[_ Hne] _] _]%Forall_cons. apply Nat.ltb_lt. unfold path_text. simpl. destruct m; simpl; [done|lia].
Qed.

(** The test of the look-up is the prefix of names. *)
Definition covers_path (p path : list Z) : bool :=
  is_prefix p path && negb ((1 <? length p)%nat && (length p <? length path)%nat && negb (default 0 (path !! length p) =? slash)).

Lemma covers_path_spec ms cs : Forall plain ms → Forall plain cs →
  covers_path (show_path ms) (show_path cs) = true ↔ ms `prefix_of` cs.
Proof.
  intros Hm Hc. unfold covers_path. rewrite andb_true_iff, is_prefix_path, negb_true_iff. split.
  - intros [[r Er] Hsep]. destruct ms as [|m ms]; [apply prefix_nil|].
    destruct cs as [|c cs].
    { exfalso. rewrite (show_text (m :: ms)) in Er by done. unfold path_text in Er. simpl in Er.
      apply Forall_cons in Hm as [[[_ Hne] _] _]. destruct m; done. }
    rewrite !show_text in Er by done. eapply (text_prefix _ _ r); try done.
    rewrite show_text, (show_text (c :: cs)) in Hsep by done. rewrite Er in Hsep.
    destruct r as [|d r]; [by left|]. right. cbn [head]. f_equal.
    rewrite lookup_app_r, Nat.sub_diag in Hsep by done. cbn [lookup list_lookup default from_option] in Hsep.
    rewrite (path_text_long m ms Hm), length_app, (proj2 (Nat.ltb_lt _ _)) in Hsep by (simpl; lia).
    apply negb_false_iff in Hsep. by apply Z.eqb_eq.
  - intros [r ->]. destruct ms as [|m ms].
    + split; [|done]. simpl. destruct r as [|c r]; [by exists []|]. rewrite show_text by done. by eexists.
    + rewrite !show_text, path_text_app by done. split; [by eexists|].
      destruct r as [|c r].
      * rewrite app_nil_r, Nat.ltb_irrefl. by rewrite andb_false_r.
      * rewrite lookup_app_r, Nat.sub_diag by done. simpl. by rewrite !andb_false_r.
Qed.

(** [dfs_subdir] of a path below a mount point: the names below it. *)
Lemma dfs_subdir_spec ms r : Forall plain (ms ++ r) →
  dfs_subdir (show_path ms) (show_path (ms ++ r)) = Ok (match r with [] => None | _ => Some (show_path r) end).
Proof.
  intros H. unfold dfs_subdir. destruct r as [|c r]; [by rewrite app_nil_r, Nat.eqb_refl|].
  assert (Hlen : (length (show_path ms) < length (show_path (ms ++ c :: r)))%nat).
  { apply Forall_app in H as [_ [[[_ Hne] _] _]%Forall_cons]. destruct ms as [|m ms].
    - simpl. destruct c; simpl; [done|lia].
    - rewrite !show_text, path_text_app, length_app by done. unfold path_text at 3. simpl. lia. }
  rewrite (proj2 (Nat.eqb_neq _ _)) by lia. destruct ms as [|m ms].
  - apply Forall_cons in H as [[[Hc Hne] _] _]. destruct c as [|x c]; [done|]. apply Forall_cons in Hc as [[_ Hx] _].
    rewrite (show_text (_ ++ _)) by done. unfold path_text, rd. simpl. by rewrite (proj2 (Z.eqb_neq x slash)).
  - rewrite !show_text, path_text_app by done. rewrite <- app_assoc.
    assert (E : rd (path_text (m :: ms) ++ path_text (c :: r) ++ [0]) (Z.of_nat (length (path_text (m :: ms)))) = Ok slash).
    { unfold rd. rewrite (proj2 (Z.ltb_ge _ 0)), Nat2Z.id by lia. by rewrite lookup_app_r, Nat.sub_diag by done. }
    rewrite E. cbn [mbind res_bind]. rewrite Z.eqb_refl. cbn [negb andb]. by rewrite drop_app_length.
Qed.

(** ** The look-up *)

Section lookup.
Context {W : Type}.
Implicit Types (s : dfs W) (f : dfs_filesystem).

(** A mounted file system at the directory [ms]. *)
Definition mounted_at f (ms : list (list Z)) : Prop := fs_ops f ≠ None ∧ fs_path f = Some (show_path ms) ∧ Forall plain ms.

(** An entry of the table: empty or mounted. *)
Definition mount_ok f : Prop := (fs_ops f = None ∧ fs_path f = None) ∨ ∃ ms, mounted_at f ms.

(** [f] is where [path] may go. *)
Definition covers f (p path : list Z) : Prop := fs_ops f ≠ None ∧ fs_path f = Some p ∧ covers_path p path = true.

Lemma lookup_loop_step f path l i fs n : lookup_loop path (f :: l) i fs n =
  match fs_path f with
  | Some p => if bool_decide (fs_ops f ≠ None) && covers_path p path && negb (length p <? n)%nat
              then lookup_loop path l (S i) (Some i) (length p) else lookup_loop path l (S i) fs n
  | None => lookup_loop path l (S i) fs n
  end.
Proof.
  simpl. destruct (fs_path f) as [p|]; [|done]. destruct (fs_ops f) as [o|]; [|done].
  rewrite (bool_decide_eq_true_2 (Some o ≠ None)) by done. unfold covers_path.
  destruct (length p <? n)%nat, (is_prefix p path); simpl; rewrite ?andb_false_r; try done.
  destruct (1 <? length p)%nat, (length p <? length path)%nat, (default 0 (path !! length p) =? slash); done.
Qed.

(** The entry that is found is the last of the longest that cover the path. *)
Lemma lookup_loop_best path l : ∀ i fs n, let r := lookup_loop path l i fs n in
  (r = fs ∧ ∀ f p, f ∈ l → covers f p path → (length p < n)%nat) ∨
  (∃ k f p, r = Some (i + k)%nat ∧ l !! k = Some f ∧ covers f p path ∧ (n <= length p)%nat ∧
     ∀ g q, g ∈ l → covers g q path → (length q <= length p)%nat).
Proof.
  induction l as [|f l IH]; intros i fs n; cbv zeta; [left; by split; [|intros ?? ?%elem_of_nil]|]. rewrite lookup_loop_step.
  destruct (fs_path f) as [p|] eqn:Ep.
  2:{ destruct (IH (S i) fs n) as [[-> Hl]|(k & g & p & -> & Hk & Hg & Hn & Hl)].
    - left. split; [done|]. intros g q [->|Hin]%elem_of_cons (Hc1 & Hc2 & Hc3); [congruence|]. by apply (Hl g q).
    - right. exists (S k), g, p. split; [f_equal; lia|]. do 3 (split; [done|]).
      intros g' q [->|Hin]%elem_of_cons (Hc1 & Hc2 & Hc3); [congruence|]. by apply (Hl g' q). }
  destruct (bool_decide _ && covers_path p path) eqn:Ec; simpl.
  - apply andb_true_iff in Ec as [Ho%bool_decide_eq_true Hcov]. assert (Hf : covers f p path) by done.
    destruct (length p <? n)%nat eqn:En; simpl.
    + apply Nat.ltb_lt in En. destruct (IH (S i) fs n) as [[-> Hl]|(k & g & p' & -> & Hk & Hg & Hn & Hl)].
      * left. split; [done|]. intros g q [->|Hin]%elem_of_cons Hq; [|by apply (Hl g q)]. destruct Hq as (_ & Hq & _). congruence.
      * right. exists (S k), g, p'. split; [f_equal; lia|]. do 3 (split; [done|]).
        intros g' q [->|Hin]%elem_of_cons Hq; [|by apply (Hl g' q)]. destruct Hq as (_ & Hq & _). assert (q = p) by congruence. subst. lia.
    + apply Nat.ltb_ge in En. right. destruct (IH (S i) (Some i) (length p)) as [[-> Hl]|(k & g & p' & -> & Hk & Hg & Hn & Hl)].
      * exists 0%nat, f, p. split; [f_equal; lia|]. do 3 (split; [done|]).
        intros g q [->|Hin]%elem_of_cons Hq; [|specialize (Hl g q Hin Hq); lia]. destruct Hq as (_ & Hq & _). assert (q = p) by congruence. by subst.
      * exists (S k), g, p'. split; [f_equal; lia|]. do 2 (split; [done|]). split; [lia|].
        intros g' q [->|Hin]%elem_of_cons Hq; [|by apply (Hl g' q)]. destruct Hq as (_ & Hq & _). assert (q = p) by congruence. by subst.
  - assert (Hf : ∀ q, ¬ covers f q path).
    { intros q (Ho & Hq & Hc). assert (q = p) as -> by congruence. by rewrite Hc, (bool_decide_eq_true_2 _ Ho) in Ec. }
    destruct (IH (S i) fs n) as [[-> Hl]|(k & g & p' & -> & Hk & Hg & Hn & Hl)].
    + left. split; [done|]. intros g q [->|Hin]%elem_of_cons Hq; [by apply Hf in Hq|by apply (Hl g q)].
    + right. exists (S k), g, p'. split; [f_equal; lia|]. do 3 (split; [done|]).
      intros g' q [->|Hin]%elem_of_cons Hq; [by apply Hf in Hq|by apply (Hl g' q)].
Qed.

Lemma show_mono a b : a `prefix_of` b → Forall plain b → (length (show_path a) <= length (show_path b))%nat.
Proof.
  intros [r ->] H. destruct a as [|x a].
  - apply (show_length_pos (r : list (list Z))).
  - rewrite !show_text, path_text_app, length_app by done. lia.
Qed.

Lemma show_longer a b : a `prefix_of` b → Forall plain b → (length a < length b)%nat → (length (show_path a) < length (show_path b))%nat.
Proof.
  intros [r ->] H Hlen. rewrite length_app in Hlen. destruct r as [|y r]; [simpl in Hlen; lia|].
  apply Forall_app in H as [_ [[[_ Hy] _] _]%Forall_cons]. destruct a as [|x a].
  - simpl. destruct y; simpl; [done|lia].
  - rewrite !show_text, path_text_app, length_app by done. unfold path_text at 3. simpl. lia.
Qed.

(** Of two mount points above a path the one with the longer text has the more
    names. *)
Lemma show_le a b cs : a `prefix_of` cs → b `prefix_of` cs → Forall plain a →
  (length (show_path a) <= length (show_path b))%nat → (length a <= length b)%nat.
Proof.
  intros Ha Hb Hp Hl. destruct (decide (length a <= length b)%nat) as [?|Hn]; [done|]. exfalso.
  assert (Hba : b `prefix_of` a).
  { destruct Ha as [ra Ea], Hb as [rb Eb]. exists (drop (length b) a). rewrite <- (take_drop (length b) a) at 1. f_equal.
    transitivity (take (length b) cs); [rewrite Ea, take_app_le by lia; done|by rewrite Eb, take_app_length]. }
  pose proof (show_longer b a Hba Hp). lia.
Qed.

(** No other mount point above the path has as many names. *)
Definition longest (s : dfs W) (i : nat) (ms cs : list (list Z)) : Prop :=
  ∀ j g ns, filesystem_table s !! j = Some g → mounted_at g ns → ns `prefix_of` cs → j = i ∨ (length ns < length ms)%nat.

Lemma covers_mounted f p cs : mount_ok f → Forall plain cs → covers f p (show_path cs) →
  ∃ ms, p = show_path ms ∧ mounted_at f ms ∧ ms `prefix_of` cs.
Proof.
  intros [[Hno _]|[ms Hm]] Hcs (Ho & Hp & Hc); [done|]. exists ms. destruct Hm as (Ho' & Hp' & Hms).
  assert (p = show_path ms) as -> by congruence. split; [done|]. split; [done|]. by apply (covers_path_spec ms cs).
Qed.

Lemma mounted_covers f ms cs : mounted_at f ms → Forall plain cs → ms `prefix_of` cs → covers f (show_path ms) (show_path cs).
Proof. intros (Ho & Hp & Hms) Hcs Hpre. split; [done|]. split; [done|]. by apply (covers_path_spec ms cs). Qed.

Lemma lookup_mounted s cs i : Forall mount_ok (filesystem_table s) → Forall plain cs → dfs_filesystem_lookup (show_path cs) s = Some i →
  ∃ f ms, filesystem_table s !! i = Some f ∧ mounted_at f ms ∧ ms `prefix_of` cs ∧
    ∀ j g ns, filesystem_table s !! j = Some g → mounted_at g ns → ns `prefix_of` cs → (length ns <= length ms)%nat.
Proof.
  intros Hok Hcs E. unfold dfs_filesystem_lookup in E.
  destruct (lookup_loop_best (show_path cs) (filesystem_table s) 0 None 0) as [[Hr _]|(k & f & p & Hr & Hk & Hf & _ & Hl)]; [congruence|].
  rewrite Hr in E. injection E as <-. destruct (covers_mounted f p cs) as (ms & -> & Hm & Hpre); [by eapply Forall_lookup_1|done|done|].
  exists f, ms. do 3 (split; [done|]). intros j g ns Hj Hg Hns. apply (show_le ns ms cs); [done|done|apply Hg|].
  apply (Hl g); [by eapply list_elem_of_lookup_2|by apply mounted_covers].
Qed.

Lemma lookup_none s cs : Forall plain cs → dfs_filesystem_lookup (show_path cs) s = None →
  ∀ j g ns, filesystem_table s !! j = Some g → mounted_at g ns → ¬ ns `prefix_of` cs.
Proof.
  intros Hcs E j g ns Hj Hg Hns. unfold dfs_filesystem_lookup in E.
  destruct (lookup_loop_best (show_path cs) (filesystem_table s) 0 None 0) as [[_ Hl]|(k & f & p & Hr & _)]; [|congruence].
  specialize (Hl g (show_path ns)). assert (length (show_path ns) < 0)%nat; [|lia].
  apply Hl; [by eapply list_elem_of_lookup_2|by apply mounted_covers].
Qed.

Lemma lookup_longest s cs i f ms : Forall mount_ok (filesystem_table s) → Forall plain cs →
  filesystem_table s !! i = Some f → mounted_at f ms → ms `prefix_of` cs → longest s i ms cs →
  dfs_filesystem_lookup (show_path cs) s = Some i.
Proof.
  intros Hok Hcs Hi Hf Hpre Hlong. destruct (dfs_filesystem_lookup (show_path cs) s) as [j|] eqn:E.
  - destruct (lookup_mounted s cs j Hok Hcs E) as (g & ns & Hj & Hg & Hns & Hbest).
    destruct (Hlong j g ns Hj Hg Hns) as [->|Hlt]; [done|]. specialize (Hbest i f ms Hi Hf Hpre). lia.
  - exfalso. by apply (lookup_none s cs Hcs E i f ms).
Qed.
End lookup.

(** ** What the driver gets *)

Section routes.
Context {W : Type} `{!BlockDevices W}.
Context (ops_of : nat → fs_operation W).
Implicit Types (s : dfs W) (f : dfs_filesystem).

(** In the working directory of [s] the text [path] means the names [cs]. *)
Definition below s (path : list Z) (cs : list (list Z)) : Prop :=
  ∃ ds, working_directory s = Some (show_path ds) ∧ Forall plain ds ∧ nonzero path ∧
    resolve [] (path_names (show_path ds) path) = Some cs.

Lemma normalize_means s path cs : below s path cs →
  normalize path s = Ok (if (alloc s).1 then Some (show_path cs) else None, (alloc s).2) ∧ Forall plain cs.
Proof.
  intros (ds & Hd & Hp & Hn & Hr). destruct (show_nonzero ds Hp) as [Hnd Hsd].
  assert (Hs : starts_with_slash (joined (show_path ds) path) = true).
  { unfold joined. destruct (starts_with_slash path) eqn:E; [done|]. destruct (show_path ds); [done|exact Hsd]. }
  destruct (normalize_below (working_directory s) None (show_path ds) path cs) as [E Hcs]; try done.
  split; [|done]. unfold normalize. destruct (alloc s) as [room s'] eqn:Ea. cbn [fst snd].
  assert (Hd' : working_directory s' = Some (show_path ds)).
  { unfold alloc in Ea. destruct (heap_room s); injection Ea as _ <-; done. }
  rewrite Hd'. rewrite Hd in E. destruct room; [by rewrite E|].
  unfold dfs_normalize_path. by destruct (starts_with_slash path).
Qed.

Lemma normalize_means_cs s cs ds : working_directory s = Some (show_path ds) → Forall plain ds → Forall plain cs → below s (show_path cs) cs.
Proof.
  intros Hd Hp Hcs. destruct (show_nonzero cs Hcs) as [Hn Hs]. exists ds. do 3 (split; [done|]).
  unfold path_names. rewrite Hs, names_show; [|eapply Forall_impl; [exact Hcs|by intros ? []]]. by apply (resolve_id [] cs).
Qed.

(** The path the driver [o] of the file system at [ms] gets for the names below it. *)
Definition driver_path (o : fs_operation W) (ms r : list (list Z)) : list Z :=
  if full_paths o then show_path (ms ++ r) else show_path r.

Lemma sub_path_spec ms r : Forall plain (ms ++ r) → sub_path (show_path ms) (show_path (ms ++ r)) = Ok (show_path r).
Proof. intros H. unfold sub_path. rewrite dfs_subdir_spec by done. by destruct r. Qed.

Lemma alloc_roomy s : heap_room s = [] → alloc s = (true, s).
Proof. intros H. unfold alloc. by rewrite H. Qed.

Lemma prepare_fd_spec i f o full flags d s ms r : mounted_at f ms → Forall plain (ms ++ r) → full = show_path (ms ++ r) → heap_room s = [] →
  prepare_fd i f o full flags d s =
    Ok (mk_fd (fd_magic d) FT_REGULAR (Some (driver_path o ms r)) (ref_count d) (Some i) (mk_info flags 0 0 (fi_data (fd_inf d))), s).
Proof.
  intros (_ & Hp & _) Hall -> Hroom. unfold prepare_fd, driver_path. destruct (full_paths o); [done|].
  unfold mount_point. rewrite Hp. cbn [of_option mbind res_bind]. rewrite sub_path_spec by done. cbn [mbind res_bind].
  by rewrite alloc_roomy.
Qed.

Lemma opened_bit inf d : Z.testbit (fi_flags (fd_inf (add_flags DFS_F_OPEN (set_info inf d)))) 24 = true.
Proof. unfold add_flags, set_info. cbn [fi_flags fd_inf]. rewrite Z.lor_spec. change (Z.testbit DFS_F_OPEN 24) with true. apply orb_true_r. Qed.

Lemma add_flags_bit x d b : Z.testbit (fi_flags (fd_inf d)) b = true → Z.testbit (fi_flags (fd_inf (add_flags x d))) b = true.
Proof. intros H. unfold add_flags, set_info. cbn [fi_flags fd_inf]. by rewrite Z.lor_spec, H. Qed.

(** The descriptor of an open file. *)
Definition opened_fd (flags : Z) (d : dfs_fd) : dfs_fd :=
  let d := add_flags DFS_F_OPEN d in
  if negb (Z.land flags DFS_O_DIRECTORY =? 0) then add_flags DFS_F_DIRECTORY (set_type FT_DIRECTORY d) else d.

(** What the driver's [open] gets. *)
Definition before_open (d : dfs_fd) (path : list Z) (i : nat) (flags : Z) : dfs_fd :=
  mk_fd (fd_magic d) FT_REGULAR (Some path) (ref_count d) (Some i) (mk_info flags 0 0 (fi_data (fd_inf d))).

Lemma dfs_file_open_at s d path flags i f o ms r open result inf w :
  Forall mount_ok (filesystem_table s) → heap_room s = [] →
  below s path (ms ++ r) → filesystem_table s !! i = Some f → mounted_at f ms → longest s i ms (ms ++ r) →
  fs_ops f = Some o → op_open (ops_of o) = Some open →
  let d' := before_open d (driver_path (ops_of o) ms r) i flags in
  open f d' (world s) = Ok (result, inf, w) →
  dfs_file_open ops_of d path flags s =
    Ok (if result <? 0 then result else 0, (if result <? 0 then set_path None (set_info inf d') else opened_fd flags (set_info inf d')), put_world w s).
Proof.
  intros Hok Hroom Hbelow Hi Hf Hlong Ho Hopen d' Eo. destruct (normalize_means s path (ms ++ r) Hbelow) as [En Hall].
  rewrite alloc_roomy in En by done. cbn [fst snd] in En.
  pose proof (lookup_longest s (ms ++ r) i f ms Hok Hall Hi Hf (ex_intro _ r eq_refl) Hlong) as El.
  unfold dfs_file_open, get_mount, get_ops.
  rewrite En. cbn [mbind res_bind]. rewrite El, Hi. cbn [of_option mbind res_bind]. rewrite Ho. cbn [of_option mbind res_bind].
  rewrite (prepare_fd_spec i f _ _ flags d s ms r) by done. cbn [mbind res_bind]. rewrite Hopen.
  change (mk_fd (fd_magic d) FT_REGULAR (Some (driver_path (ops_of o) ms r)) (ref_count d) (Some i) (mk_info flags 0 0 (fi_data (fd_inf d)))) with d'.
  rewrite Eo. cbn [mbind res_bind]. by destruct (result <? 0).
Qed.

(** [dfs_file_open] of a text that means the names [ms ++ r], where [ms] is the
    longest mount point above them, calls the [open] of the file system mounted
    there, with the path of the names [r] (the whole path if the driver has
    [DFS_FS_FLAG_FULLPATH]), the flags of the caller, size and position 0.  The file
    is open exactly if the driver says so; the descriptor of a refused one has no
    path. *)
Theorem dfs_file_open_routes s d path flags i f o ms r open result inf w :
  Forall mount_ok (filesystem_table s) → heap_room s = [] →
  below s path (ms ++ r) → filesystem_table s !! i = Some f → mounted_at f ms → longest s i ms (ms ++ r) →
  fs_ops f = Some o → op_open (ops_of o) = Some open →
  let d' := before_open d (driver_path (ops_of o) ms r) i flags in
  open f d' (world s) = Ok (result, inf, w) →
  ∃ d'', dfs_file_open ops_of d path flags s = Ok (if result <? 0 then result else 0, d'', put_world w s) ∧
    fd_fs d'' = Some i ∧ fd_path d'' = (if result <? 0 then None else fd_path d') ∧
    fi_pos (fd_inf d'') = fi_pos inf ∧ fi_size (fd_inf d'') = fi_size inf ∧
    (0 <= result → Z.testbit (fi_flags (fd_inf d'')) 24 = true ∧
       fd_type d'' = if Z.land flags DFS_O_DIRECTORY =? 0 then FT_REGULAR else FT_DIRECTORY).
Proof.
  intros Hok Hroom Hbelow Hi Hf Hlong Ho Hopen d' Eo.
  rewrite (dfs_file_open_at s d path flags i f o ms r open result inf w) by done.
  eexists. split; [done|]. unfold opened_fd. pose proof (opened_bit inf d') as Hbit. destruct (result <? 0) eqn:Er.
  { apply Z.ltb_lt in Er. do 4 (split; [done|]). lia. }
  destruct (Z.land flags DFS_O_DIRECTORY =? 0); cbn [negb]; do 4 (split; [done|]); intros _; split; [exact Hbit|done| |done].
  by apply add_flags_bit.
Qed.
End routes.

(** ** An example: two file systems, the driver keeps the path it gets *)
Module Routed.
Definition keeps_path (f : dfs_filesystem) (d : dfs_fd) (w : list Z) : res (Z * fd_info * list Z) := Ok (0, fd_inf d, default [] (fd_path d)).
Definition keeper : fs_operation (list Z) :=
  mk_op (list Z) [107] 0 None None None None (Some keeps_path) None None None None None None None None None None.
Definition at_root : dfs_filesystem := mk_fs None (Some [47]) (Some 0%nat) 0.
Definition at_a : dfs_filesystem := mk_fs None (Some [47; 97]) (Some 0%nat) 0.
Definition two_mounted : dfs (list Z) := put_mounts [at_root; at_a] (dfs_init true []).

Lemma root_mounted : mounted_at at_root [].
Proof. split; [done|]. split; [done|constructor]. Qed.
Lemma a_mounted : mounted_at at_a [[97]].
Proof. split; [done|]. split; [done|]. repeat constructor; done. Qed.

(** [/x/..//a/b] goes to the file system at [/a], as [/b]. *)
Lemma dfs_file_open_routes_witness :
  ∃ d, dfs_file_open (λ _, keeper) no_fd [47; 120; 47; 46; 46; 47; 47; 97; 47; 98] 0 two_mounted = Ok (0, d, put_world [47; 98] two_mounted) ∧ fd_fs d = Some 1%nat.
Proof.
  destruct (dfs_file_open_routes (λ _, keeper) two_mounted no_fd [47; 120; 47; 46; 46; 47; 47; 97; 47; 98] 0 1 at_a 0 [[97]] [[98]] keeps_path
    0 (mk_info 0 0 0 0) [47; 98]) as (d & E & Hd & _).
  - constructor; [right; exists []; exact root_mounted|]. constructor; [right; exists [[97]]; exact a_mounted|constructor].
  - reflexivity.
  - exists []. split; [reflexivity|]. split; [constructor|]. split; [repeat constructor; discriminate|vm_compute; reflexivity].
  - reflexivity.
  - exact a_mounted.
  - intros [|[|j]] g ns Hg Hns _; simpl in Hg.
    + injection Hg as <-. right. destruct Hns as (_ & Hp & Hns). destruct ns as [|n ns]; [simpl; lia|].
      apply Forall_cons in Hns as [[[_ Hn] _] _]. by destruct n.
    + by left.
    + done.
  - reflexivity.
  - reflexivity.
  - reflexivity.
  - exists d. split; [exact E|exact Hd].
Defined.
End Routed.
