(* ===== verification/DfsSafe.v ===== *)
(** * The device file system: its calls keep the tables

    The open descriptors are the abstract state: one bit per entry of [fd_table].
    Under the invariant of the tables no allowed call stops, and its answer and its
    effect on the open descriptors are those of the abstract state. *)
From S2P Require Import Prelude KObject DfsPath Dfs DfsProps.
Local Open Scope Z_scope.

(** ** What the calls rely on *)

Definition returns {A} (m : res A) : Prop := ∃ v, m = Ok v.

(** The functions of the registered drivers return, whatever they answer. *)
Class DriversReturn {W : Type} (ops_of : nat → fs_operation W) : Prop := {
  ret_mount o g f a b w : op_mount (ops_of o) = Some g → returns (g f a b w);
  ret_unmount o g f w : op_unmount (ops_of o) = Some g → returns (g f w);
  ret_mkfs o g n w : op_mkfs (ops_of o) = Some g → returns (g n w);
  ret_statfs o g f w : op_statfs (ops_of o) = Some g → returns (g f w);
  ret_open o g f d w : op_open (ops_of o) = Some g → returns (g f d w);
  ret_close o g f d w : op_close (ops_of o) = Some g → returns (g f d w);
  ret_ioctl o g f d a b w : op_ioctl (ops_of o) = Some g → returns (g f d a b w);
  ret_read o g f d n w : op_read (ops_of o) = Some g → returns (g f d n w);
  ret_write o g f d b w : op_write (ops_of o) = Some g → returns (g f d b w);
  ret_flush o g f d w : op_flush (ops_of o) = Some g → returns (g f d w);
  ret_lseek o g f d n w : op_lseek (ops_of o) = Some g → returns (g f d n w);
  ret_getdents o g f d n w : op_getdents (ops_of o) = Some g → returns (g f d n w);
  ret_unlink o g f p w : op_unlink (ops_of o) = Some g → returns (g f p w);
  ret_stat o g f p w : op_stat (ops_of o) = Some g → returns (g f p w);
  ret_rename o g f p q w : op_rename (ops_of o) = Some g → returns (g f p q w) }.

Class DevicesReturn (W : Type) `{!BlockDevices W} : Prop := {
  ret_device_open x (w : W) : returns (device_open x w);
  ret_device_close x (w : W) : returns (device_close x w) }.

(** Through the monad, and into the answer of a driver. *)
Ltac step := cbn [of_option mbind res_bind].
Ltac ret H := let v := fresh "v" in let E := fresh "E" in destruct H as [v E]; rewrite E; step; repeat destruct v as [v ?]; step.

Section safe.
Context {W : Type} `{!BlockDevices W} `{!DevicesReturn W}.
Context (ops_of : nat → fs_operation W) `{!DriversReturn ops_of}.
Implicit Types (s : dfs W) (f : dfs_filesystem) (d : dfs_fd).

(** ** States with the same tables *)

Record same s s' : Prop := {
  sm_types : filesystem_operation_table s' = filesystem_operation_table s;
  sm_mounts : filesystem_table s' = filesystem_table s;
  sm_fds : fd_table s' = fd_table s;
  sm_dir : working_directory s' = working_directory s }.

#[global] Instance same_preorder : PreOrder same.
Proof. split; [by constructor|]. intros s1 s2 s3 [] []. constructor; congruence. Qed.

Lemma same_world s w : same s (put_world w s).
Proof. by constructor. Qed.
Lemma same_room s r : same s (put_room r s).
Proof. by constructor. Qed.
Lemma same_errno s e : same s (rt_set_errno e s).
Proof. by constructor. Qed.
Lemma same_alloc s : same s (alloc s).2.
Proof. unfold alloc. destruct (heap_room s); [done|by constructor]. Qed.
Lemma same_put s s' i d : same s s' → same (put_fd i d s) (put_fd i d s').
Proof. intros []. constructor; cbn; congruence. Qed.

(** The file system [i] is mounted. *)
Definition has_fs s (i : nat) : Prop := ∃ f o ms, filesystem_table s !! i = Some f ∧ fs_ops f = Some o ∧ mounted_at f ms.

Lemma has_fs_same s s' i : same s s' → has_fs s i → has_fs s' i.
Proof. intros Hs (f & o & ms & H). exists f, o, ms. by rewrite (sm_mounts _ _ Hs). Qed.

(** What a call of a driver leaves in a descriptor. *)
Definition like d d' : Prop := fd_magic d' = fd_magic d ∧ ref_count d' = ref_count d ∧ fd_fs d' = fd_fs d.

Lemma below_same s s' p cs : same s s' → below s p cs → below s' p cs.
Proof. intros Hs (ds & Hd & H). exists ds. by rewrite (sm_dir _ _ Hs). Qed.

(** ** The calls of [dfs_file.c] *)

(** On a descriptor of a mounted file system the call returns and keeps the tables. *)
Definition file_call {A} (F : dfs_fd → dfs W → res (A * dfs_fd * dfs W)) : Prop :=
  ∀ d s i, fd_fs d = Some i → has_fs s i → ∃ r d' s', F d s = Ok (r, d', s') ∧ same s s' ∧ like d d'.

Lemma has_fs_ops s i : has_fs s i → ∃ f o, get_mount i s = Ok f ∧ fs_ops f = Some o ∧ get_ops ops_of f = Ok (ops_of o).
Proof.
  intros (f & o & ms & Hi & Ho & _). exists f, o. unfold get_mount, get_ops. by rewrite Hi, Ho.
Qed.

(** The start of every such call. *)
Lemma file_ops d s i : fd_fs d = Some i → has_fs s i → ∃ f o, get_mount i s = Ok f ∧ fs_of d s = Ok f ∧ get_ops ops_of f = Ok (ops_of o).
Proof.
  intros Hd Hs. destruct (has_fs_ops s i Hs) as (f & o & Hf & _ & Ho). exists f, o. unfold fs_of. by rewrite Hd.
Qed.

#[local] Ltac begin_call :=
  intros d s i Hd Hs; let E1 := fresh "E" in let E2 := fresh "E" in
  destruct (file_ops d s i Hd Hs) as (f & o & _ & E1 & E2); rewrite E1; step; rewrite E2; step.
#[local] Ltac done_call := do 3 eexists; split; [reflexivity|split; [done|try done; simpl; try case_match; done]].

Lemma dfs_file_close_call : file_call (dfs_file_close ops_of).
Proof.
  unfold dfs_file_close. begin_call.
  destruct (op_close (ops_of o)) as [g|] eqn:Eg; step; [ret (ret_close o g f d (world s) Eg)|]; [|done_call].
  case_match; done_call.
Qed.

Lemma dfs_file_ioctl_call c a : file_call (λ d s, dfs_file_ioctl ops_of d c a s).
Proof.
  unfold dfs_file_ioctl. begin_call.
  destruct (negb _); [done_call|].
  destruct (op_ioctl (ops_of o)) as [g|] eqn:Eg; step; [ret (ret_ioctl o g f d c a (world s) Eg)|]; done_call.
Qed.

Lemma dfs_file_read_call n : file_call (λ d s, '(buf, r, d, s) ← dfs_file_read ops_of d n s; Ok ((buf, r), d, s)).
Proof.
  unfold dfs_file_read. begin_call.
  destruct (op_read (ops_of o)) as [g|] eqn:Eg; step; [ret (ret_read o g f d n (world s) Eg)|]; done_call.
Qed.

Lemma dfs_file_getdents_call n : file_call (λ d s, '(buf, r, d, s) ← dfs_file_getdents ops_of d n s; Ok ((buf, r), d, s)).
Proof.
  unfold dfs_file_getdents. begin_call.
  destruct (negb _); [done_call|].
  destruct (op_getdents (ops_of o)) as [g|] eqn:Eg; step; [ret (ret_getdents o g f d n (world s) Eg)|]; done_call.
Qed.

Lemma dfs_file_write_call buf : file_call (λ d s, dfs_file_write ops_of d buf s).
Proof.
  unfold dfs_file_write. begin_call.
  destruct (op_write (ops_of o)) as [g|] eqn:Eg; step; [ret (ret_write o g f d buf (world s) Eg)|]; done_call.
Qed.

Lemma dfs_file_flush_call : file_call (dfs_file_flush ops_of).
Proof.
  unfold dfs_file_flush. begin_call.
  destruct (op_flush (ops_of o)) as [g|] eqn:Eg; step; [ret (ret_flush o g f d (world s) Eg)|]; done_call.
Qed.

Lemma dfs_file_lseek_call n : file_call (λ d s, dfs_file_lseek ops_of d n s).
Proof.
  intros d s i Hd Hs. destruct (file_ops d s i Hd Hs) as (f & o & Hi & _ & E2). unfold dfs_file_lseek. rewrite Hd, Hi. step. rewrite E2. step.
  destruct (op_lseek (ops_of o)) as [g|] eqn:Eg; step; [ret (ret_lseek o g f d n (world s) Eg)|]; done_call.
Qed.

(** The call of [lseek] with its offset. *)
Lemma lseek_call offset whence : file_call (λ d s,
    let offset := if whence =? 1 then s32 (offset + fi_pos (fd_inf d))
                  else if whence =? 2 then s32 (offset + fi_size (fd_inf d)) else offset in
    if negb ((0 <=? whence) && (whence <=? 2)) || (offset <? 0) then Ok (- DFS_STATUS_EINVAL, d, s)
    else '(r, d, s) ← dfs_file_lseek ops_of d offset s; Ok (if r <? 0 then r else offset, d, s)).
Proof.
  intros d s i Hd Hs. cbv zeta. set (off := if whence =? 1 then _ else _). destruct (_ || _); [done_call|].
  destruct (dfs_file_lseek_call off d s i Hd Hs) as (r & d' & s' & E & H). rewrite E. step. by eexists _, _, _.
Qed.
(** ** The calls with a path *)

Definition mounts_ok s : Prop := Forall mount_ok (filesystem_table s).

Lemma mounts_ok_same s s' : same s s' → mounts_ok s → mounts_ok s'.
Proof. intros Hs. unfold mounts_ok. by rewrite (sm_mounts _ _ Hs). Qed.

(** [normalize] gives the path or, without memory, nothing. *)
Lemma normalize_safe s p cs : below s p cs → ∃ r s', normalize p s = Ok (r, s') ∧ same s s' ∧ Forall plain cs ∧ (r = None ∨ r = Some (show_path cs)).
Proof.
  intros H. destruct (normalize_means s p cs H) as [E Hp]. eexists _, _. split; [exact E|]. split; [apply same_alloc|].
  split; [done|]. destruct (alloc s).1; [by right|by left].
Qed.

(** The file system that the look-up finds. *)
Lemma lookup_found s cs i : mounts_ok s → Forall plain cs → dfs_filesystem_lookup (show_path cs) s = Some i →
  ∃ f o ms r, get_mount i s = Ok f ∧ get_ops ops_of f = Ok (ops_of o) ∧ mount_point f = Ok (show_path ms) ∧ cs = ms ++ r ∧ has_fs s i.
Proof.
  intros Hm Hcs E. destruct (lookup_mounted s cs i Hm Hcs E) as (f & ms & Hi & Hf & [r ->] & _). pose proof Hf as (Ho & Hp & _).
  destruct (fs_ops f) as [o|] eqn:Eo; [|done]. exists f, o, ms, r.
  unfold get_mount, get_ops, mount_point. rewrite Hi, Eo, Hp. do 4 (split; [done|]). by exists f, o, ms.
Qed.

Lemma prepare_fd_safe i f o cs ms r flags d s : mount_point f = Ok (show_path ms) → cs = ms ++ r → Forall plain cs →
  ∃ d' s', prepare_fd (W:=W) i f o (show_path cs) flags d s = Ok (d', s') ∧ same s s' ∧
    fd_magic d' = fd_magic d ∧ ref_count d' = ref_count d ∧ fd_fs d' = Some i.
Proof.
  intros Hm -> Hall. unfold prepare_fd. destruct (full_paths o); [by eexists _, _|].
  rewrite Hm. step. rewrite sub_path_spec by done. step. pose proof (same_alloc s). destruct (alloc s) as [room s']. by eexists _, _.
Qed.

Lemma dfs_file_open_safe d p cs flags s : mounts_ok s → below s p cs →
  ∃ r d' s', dfs_file_open ops_of d p flags s = Ok (r, d', s') ∧ same s s' ∧
    fd_magic d' = fd_magic d ∧ ref_count d' = ref_count d ∧ (0 <= r → ∃ i, fd_fs d' = Some i ∧ has_fs s i).
Proof.
  intros Hm Hb. destruct (normalize_safe s p cs Hb) as (full & s1 & E & Hs1 & Hcs & Hfull). unfold dfs_file_open. rewrite E. step.
  destruct Hfull as [->| ->]; [by eexists _, _, _|].
  pose proof (mounts_ok_same _ _ Hs1 Hm) as Hm1. destruct (dfs_filesystem_lookup (show_path cs) s1) as [i|] eqn:El; [|by eexists _, _, _].
  destruct (lookup_found s1 cs i Hm1 Hcs El) as (f & o & ms & r & Hf & Ho & Hp & Ecs & Hi). rewrite Hf. step. rewrite Ho. step.
  destruct (prepare_fd_safe i f (ops_of o) cs ms r flags d s1 Hp Ecs Hcs) as (d1 & s2 & E2 & Hs2 & Hd1 & Hd2 & Hd3). rewrite E2. step.
  assert (Hs : same s s2) by by transitivity s1.
  destruct (op_open (ops_of o)) as [g|] eqn:Eg; [|by eexists _, _, _].
  ret (ret_open o g f d1 (world s2) Eg). assert (Hs' : ∀ w', same s (put_world w' s2)) by (intros w'; transitivity s2; [done|apply same_world]).
  assert (Hi' : has_fs s i) by (destruct Hi as (f' & o' & ms' & Hi' & Hx); exists f', o', ms'; by rewrite <- (sm_mounts _ _ Hs1)).
  destruct (_ <? 0) eqn:Er.
  - apply Z.ltb_lt in Er. eexists _, _, _. do 4 (split; [done|]). lia.
  - destruct (negb _); eexists _, _, _; do 4 (split; [done|]); intros _; by exists i.
Qed.

(** The [struct stat] is left out of the result. *)
Lemma dfs_file_stat_safe p cs s : mounts_ok s → below s p cs →
  ∃ r buf s', dfs_file_stat ops_of p s = Ok (r, buf, s') ∧ same s s'.
Proof.
  intros Hm Hb. destruct (normalize_safe s p cs Hb) as (full & s1 & E & Hs1 & Hcs & Hfull). unfold dfs_file_stat. rewrite E. step.
  destruct Hfull as [->| ->]; [by eexists _, _, _|].
  pose proof (mounts_ok_same _ _ Hs1 Hm) as Hm1. destruct (dfs_filesystem_lookup (show_path cs) s1) as [i|] eqn:El; [|by eexists _, _, _].
  destruct (lookup_found s1 cs i Hm1 Hcs El) as (f & o & ms & r & Hf & Ho & Hp & -> & Hi). rewrite Hf. step.
  destruct (bool_decide _); [by eexists _, _, _|]. rewrite Hp. step. rewrite dfs_subdir_spec by done. step.
  destruct r as [|n r]; [by eexists _, _, _|]. rewrite Ho. step. destruct (op_stat (ops_of o)) as [g|] eqn:Eg; [|by eexists _, _, _].
  ret (ret_stat o g f (if full_paths (ops_of o) then show_path (ms ++ n :: r) else show_path (n :: r)) (world s1) Eg).
  eexists _, _, _. split; [done|]. transitivity s1; [done|apply same_world].
Qed.

(** Two paths: on the same file system, which is there. *)
Lemma dfs_file_rename_safe p q cs ds s : mounts_ok s → below s p cs → below s q ds →
  (dfs_filesystem_lookup (show_path cs) s = None → dfs_filesystem_lookup (show_path ds) s ≠ None) →
  ∃ r s', dfs_file_rename ops_of p q s = Ok (r, s') ∧ same s s'.
Proof.
  intros Hm Hb Hq Hl. destruct (normalize_safe s p cs Hb) as (full & s1 & E & Hs1 & Hcs & Hfull). unfold dfs_file_rename. rewrite E. step.
  destruct Hfull as [->| ->]; [by eexists _, _|].
  destruct (normalize_safe s1 q ds (below_same _ _ _ _ Hs1 Hq)) as (full & s2 & E2 & Hs2 & Hds & Hfull). rewrite E2. step.
  assert (Hs : same s s2) by by transitivity s1.
  destruct Hfull as [->| ->]; [by eexists _, _|].
  destruct (bool_decide _) eqn:Eb; [|by eexists _, _]. apply bool_decide_eq_true in Eb.
  assert (Hll : ∀ c, dfs_filesystem_lookup c s2 = dfs_filesystem_lookup c s) by (intros c; unfold dfs_filesystem_lookup; by rewrite (sm_mounts _ _ Hs)).
  destruct (dfs_filesystem_lookup (show_path cs) s2) as [i|] eqn:El; [|exfalso; apply Hl; congruence]. step.
  pose proof (mounts_ok_same _ _ Hs Hm) as Hm2.
  destruct (lookup_found s2 cs i Hm2 Hcs El) as (f & o & ms & r & Hf & Ho & Hp & -> & Hi).
  destruct (lookup_found s2 ds i Hm2 Hds (eq_sym Eb)) as (f' & o' & ms' & r' & Hf' & Ho' & Hp' & -> & _).
  assert (f' = f) as -> by congruence. rewrite Hf. step. rewrite Ho. step.
  destruct (op_rename (ops_of o)) as [g|] eqn:Eg; [|by eexists _, _]. destruct (full_paths (ops_of o)).
  - ret (ret_rename o g f (Some (show_path (ms ++ r))) (Some (show_path (ms' ++ r'))) (world s2) Eg).
    eexists _, _. split; [done|]. transitivity s2; [done|apply same_world].
  - rewrite Hp. step. rewrite dfs_subdir_spec by done. step.
    assert (Em : show_path ms = show_path ms') by congruence. rewrite Em, dfs_subdir_spec by done. step.
    match goal with |- ∃ _ _, (g f ?a ?b ?w ≫= _) = _ ∧ _ => ret (ret_rename o g f a b w Eg) end.
    eexists _, _. split; [done|]. transitivity s2; [done|apply same_world].
Qed.

(** Every descriptor in use knows its path: no allocation failed in its [open]. *)
Definition paths_known s : Prop := Forall (λ d, fd_fs d ≠ None → fd_path d ≠ None) (fd_table s).

Lemma open_loop_safe i m l : Forall (λ d, fd_fs d ≠ None → fd_path d ≠ None) l → returns (open_loop i m l).
Proof.
  induction 1 as [|d l Hd _ IH]; simpl; [by eexists|]. destruct (bool_decide _) eqn:E; [|done].
  apply bool_decide_eq_true in E. destruct (fd_path d); [|by destruct Hd; rewrite ?E]. step. destruct (bool_decide _); [by eexists|done].
Qed.

Lemma below_show s p cs : below s p cs → Forall plain cs → below s (show_path cs) cs.
Proof. intros (ds & Hd & Hp & _) Hcs. by apply (normalize_means_cs s cs ds). Qed.

Lemma fd_is_open_safe p cs s : mounts_ok s → below s p cs → paths_known s → ∃ r s', fd_is_open p s = Ok (r, s') ∧ same s s'.
Proof.
  intros Hm Hb Hk. destruct (normalize_safe s p cs Hb) as (full & s1 & E & Hs1 & Hcs & Hfull). unfold fd_is_open. rewrite E. step.
  destruct Hfull as [->| ->]; [by eexists _, _|].
  destruct (dfs_filesystem_lookup (show_path cs) s1) as [i|] eqn:El; [|by eexists _, _].
  destruct (lookup_found s1 cs i (mounts_ok_same _ _ Hs1 Hm) Hcs El) as (f & o & ms & r & Hf & Ho & Hp & -> & Hi). rewrite Hf. step. rewrite Hp. step.
  rewrite (sm_fds _ _ Hs1). set (m := if bool_decide _ then _ else _). destruct (open_loop_safe i m _ Hk) as [b ->]. by eexists _, _.
Qed.

Lemma dfs_file_unlink_safe p cs s : mounts_ok s → below s p cs → paths_known s → ∃ r s', dfs_file_unlink ops_of p s = Ok (r, s') ∧ same s s'.
Proof.
  intros Hm Hb Hk. destruct (normalize_safe s p cs Hb) as (full & s1 & E & Hs1 & Hcs & Hfull). unfold dfs_file_unlink. rewrite E. step.
  destruct Hfull as [->| ->]; [by eexists _, _|].
  destruct (dfs_filesystem_lookup (show_path cs) s1) as [i|] eqn:El; [|by eexists _, _]. pose proof (mounts_ok_same _ _ Hs1 Hm) as Hm1.
  destruct (fd_is_open_safe (show_path cs) cs s1 Hm1) as (b & s2 & E2 & Hs2).
  { apply (below_show s1 p); [|done]. by apply (below_same s s1). } { unfold paths_known. by rewrite (sm_fds _ _ Hs1). }
  rewrite E2. step. assert (Hs : same s s2) by by transitivity s1. destruct (b =? 0); [by eexists _, _|].
  assert (El2 : dfs_filesystem_lookup (show_path cs) s2 = Some i) by (unfold dfs_filesystem_lookup; by rewrite (sm_mounts _ _ Hs2)).
  destruct (lookup_found s2 cs i (mounts_ok_same _ _ Hs Hm) Hcs El2) as (f & o & ms & r & Hf & Ho & Hp & -> & Hi). rewrite Hf. step. rewrite Ho. step.
  destruct (op_unlink (ops_of o)) as [g|] eqn:Eg; [|by eexists _, _]. rewrite Hp. step. rewrite sub_path_spec by done. step.
  match goal with |- ∃ _ _, ((if ?b then _ else _) ≫= _) = _ ∧ _ => destruct b end; step;
    match goal with |- ∃ _ _, (g f ?a ?w ≫= _) = _ ∧ _ => ret (ret_unlink o g f a w Eg) end;
    eexists _, _; (split; [done|]); (transitivity s2; [done|apply same_world]).
Qed.

(** ** The invariant *)

(** Free, or in use on a mounted file system, with one reference. *)
Definition fd_ok s d : Prop := d = no_fd ∨ (fd_magic d = DFS_FD_MAGIC ∧ ref_count d = 1 ∧ ∃ i, fd_fs d = Some i ∧ has_fs s i).

Record dinv s : Prop := {
  di_fds : length (fd_table s) = DFS_FD_MAX;
  di_fd : Forall (fd_ok s) (fd_table s);
  di_mounts : mounts_ok s;
  di_dir : ∃ ds, working_directory s = Some (show_path ds) ∧ Forall plain ds }.

Lemma fd_ok_mounts s s' d : filesystem_table s' = filesystem_table s → fd_ok s d → fd_ok s' d.
Proof.
  intros Hs [->|(H1 & H2 & i & H3 & f & o & ms & H4)]; [by left|right]. do 2 (split; [done|]). exists i. split; [done|].
  exists f, o, ms. by rewrite Hs.
Qed.

Lemma dinv_same s s' : same s s' → dinv s → dinv s'.
Proof.
  intros Hs [H1 H2 H3 H4]. constructor.
  - by rewrite (sm_fds _ _ Hs).
  - rewrite (sm_fds _ _ Hs). eapply Forall_impl; [exact H2|]. intros d. apply fd_ok_mounts, (sm_mounts _ _ Hs).
  - by apply (mounts_ok_same s).
  - by rewrite (sm_dir _ _ Hs).
Qed.

Lemma dinv_put s i d : dinv s → fd_ok s d → dinv (put_fd i d s).
Proof.
  intros [H1 H2 H3 H4] Hd. constructor; [|apply Forall_insert; [eapply Forall_impl; [exact H2|]|]|done|done].
  - cbn. by rewrite length_insert.
  - intros d'. by apply fd_ok_mounts.
  - by apply (fd_ok_mounts s).
Qed.

(** ** The open descriptors *)

Definition used d : bool := 0 <? ref_count d.
Definition opens s : list bool := used <$> fd_table s.
Definition is_open (b : list bool) (fd : Z) : bool := (0 <=? fd) && default false (b !! Z.to_nat fd).

Fixpoint first_free (b : list bool) (i : nat) : option nat :=
  match b with [] => None | true :: b => first_free b (S i) | false :: _ => Some i end.

Lemma opens_same s s' : same s s' → opens s' = opens s.
Proof. intros Hs. unfold opens. by rewrite (sm_fds _ _ Hs). Qed.

Lemma opens_put s i d : opens (put_fd i d s) = <[i := used d]> (opens s).
Proof. unfold opens. cbn. by rewrite list_fmap_insert. Qed.

Lemma opens_lookup s i d : fd_table s !! i = Some d → opens s !! i = Some (used d).
Proof. intros H. unfold opens. by rewrite list_lookup_fmap, H. Qed.

Lemma free_fd_first l i : free_fd l i = first_free (used <$> l) i.
Proof. revert i. induction l as [|d l IH]; intros i; [done|]. simpl. unfold used at 1. by destruct (0 <? ref_count d). Qed.

Lemma first_free_spec b : ∀ i j, first_free b i = Some j → (i <= j)%nat ∧ b !! (j - i)%nat = Some false.
Proof.
  induction b as [|[] b IH]; intros i j; simpl; [done| |].
  - intros H. destruct (IH _ _ H) as [Hle E]. split; [lia|]. replace (j - i)%nat with (S (j - S i))%nat by lia. exact E.
  - intros [= ->]. by rewrite Nat.sub_diag.
Qed.

Lemma fd_get_safe fd s : dinv s →
  (fd_get fd s = Ok (None, s) ∧ is_open (opens s) fd = false) ∨
  ∃ i d, fd = Z.of_nat i ∧ fd_table s !! i = Some d ∧ fd_get fd s = Ok (Some i, put_fd i (set_ref 2 d) s) ∧
    is_open (opens s) fd = true ∧ ref_count d = 1 ∧ fd_magic d = DFS_FD_MAGIC ∧ ∃ m, fd_fs d = Some m ∧ has_fs s m.
Proof.
  intros [H1 H2 _ _]. unfold fd_get, is_open. change (Z.of_nat DFS_FD_MAX) with 4. destruct (fd <? 0) eqn:E1; simpl.
  { apply Z.ltb_lt in E1. left. by rewrite (proj2 (Z.leb_gt 0 fd)) by lia. }
  apply Z.ltb_ge in E1. rewrite (proj2 (Z.leb_le 0 fd)) by lia. destruct (4 <=? fd) eqn:E2; simpl.
  { apply Z.leb_le in E2. left. split; [done|]. rewrite lookup_ge_None_2; [done|]. unfold opens. rewrite length_fmap, H1. unfold DFS_FD_MAX. lia. }
  apply Z.leb_gt in E2. destruct (fd_table s !! Z.to_nat fd) as [d|] eqn:Ed.
  2:{ apply lookup_ge_None in Ed. rewrite H1 in Ed. unfold DFS_FD_MAX in Ed. lia. }
  unfold get_fd. rewrite Ed, (opens_lookup _ _ _ Ed). cbn [of_option mbind res_bind default from_option].
  pose proof (Forall_lookup_1 _ _ _ _ H2 Ed) as [->|(Hmag & Href & Hfs)].
  - left. done.
  - right. rewrite Hmag, Href. exists (Z.to_nat fd), d. rewrite Z2Nat.id by lia. unfold used. rewrite Href. done.
Qed.

Lemma fd_put_spec i d s : fd_table s !! i = Some d →
  fd_put i s = Ok (put_fd i (if ref_count d =? 1 then no_fd else set_ref (ref_count d - 1) d) s).
Proof.
  intros H. unfold fd_put, get_fd. rewrite H. step. cbn [ref_count set_ref].
  destruct (ref_count d =? 1) eqn:E; [apply Z.eqb_eq in E; by rewrite E|].
  apply Z.eqb_neq in E. by rewrite (proj2 (Z.eqb_neq _ 0)) by lia.
Qed.

Lemma put_put i d d' s : put_fd i d (put_fd i d' s) = put_fd i d s.
Proof. unfold put_fd, put_fds. cbn. by rewrite list_insert_insert_eq. Qed.

(** ** The calls on a descriptor *)

Definition good s d : Prop := fd_magic d = DFS_FD_MAGIC ∧ ∃ m, fd_fs d = Some m ∧ has_fs s m.

Lemma lookup_put s i d : (i < length (fd_table s))%nat → fd_table (put_fd i d s) !! i = Some d.
Proof. intros H. cbn. by apply list_lookup_insert_eq. Qed.

Lemma get_put s i d : (i < length (fd_table s))%nat → get_fd i (put_fd i d s) = Ok d.
Proof. intros H. unfold get_fd. by rewrite lookup_put. Qed.

(** What is left of the descriptor [d] when a reference is put. *)
Definition dropped d : dfs_fd := if ref_count d =? 1 then no_fd else set_ref (ref_count d - 1) d.

Lemma fd_put_put s i d : (i < length (fd_table s))%nat → fd_put i (put_fd i d s) = Ok (put_fd i (dropped d) s).
Proof. intros H. by rewrite (fd_put_spec i d) by (by apply lookup_put); rewrite put_put. Qed.

Lemma good_like s d d' : like d d' → good s d → good s d'.
Proof. intros (H1 & _ & H3) [H4 H5]. unfold good. by rewrite H1, H3. Qed.

(** A descriptor in use is written back. *)
Lemma dinv_write_back s i d d' : dinv s → fd_table s !! i = Some d → ref_count d = 1 → good s d' → ref_count d' = 1 →
  dinv (put_fd i d' s) ∧ opens (put_fd i d' s) = opens s.
Proof.
  intros Hs Hi Hd [Hm Hfs] Hd'. split; [apply dinv_put; [done|by right]|].
  rewrite opens_put. apply list_insert_id. rewrite (opens_lookup _ _ _ Hi). unfold used. by rewrite Hd, Hd'.
Qed.

Lemma dinv_free s i : dinv s → dinv (put_fd i no_fd s) ∧ opens (put_fd i no_fd s) = <[i := false]> (opens s).
Proof. intros Hs. split; [apply dinv_put; [done|by left]|]. by rewrite opens_put. Qed.

Lemma after_same s1 s2 b : same s1 s2 → dinv s1 ∧ opens s1 = b → dinv s2 ∧ opens s2 = b.
Proof. intros Hs [H1 <-]. split; [by apply (dinv_same s1)|by apply opens_same]. Qed.

(** [fd_get], the call [F], and the descriptor it leaves. *)
Lemma during_call {A} fd (F : dfs_fd → dfs W → res (A * dfs_fd * dfs W)) s : dinv s → file_call F →
  (fd_get fd s = Ok (None, s) ∧ is_open (opens s) fd = false) ∨
  ∃ i d s1 r d' s2, fd = Z.of_nat i ∧ fd_get fd s = Ok (Some i, s1) ∧ is_open (opens s) fd = true ∧ get_fd i s1 = Ok d ∧
    F d s1 = Ok (r, d', s2) ∧ (i < length (fd_table s2))%nat ∧ ref_count d' = 2 ∧ good s d' ∧
    ∀ x, same (put_fd i x s) (put_fd i x s2) ∧ (x = no_fd → dinv (put_fd i x s2) ∧ opens (put_fd i x s2) = <[i := false]> (opens s)) ∧
      (good s x → ref_count x = 1 → dinv (put_fd i x s2) ∧ opens (put_fd i x s2) = opens s).
Proof.
  intros Hs HF. destruct (fd_get_safe fd s Hs) as [?|(i & d & -> & Hi & Hget & Hopen & Href & Hmag & m & Hm & Hfs)]; [by left|right].
  assert (Hlen : (i < length (fd_table s))%nat) by by apply lookup_lt_Some in Hi.
  destruct (HF (set_ref 2 d) (put_fd i (set_ref 2 d) s) m Hm Hfs) as (r & d' & s2 & E & Hs2 & Hlike).
  exists i, (set_ref 2 d), (put_fd i (set_ref 2 d) s), r, d', s2. do 3 (split; [done|]). split; [by apply get_put|]. split; [done|].
  split; [rewrite (sm_fds _ _ Hs2); cbn; by rewrite length_insert|]. split; [apply Hlike|].
  split; [apply (good_like s (set_ref 2 d)); [done|by split; [|exists m]]|]. intros x.
  assert (Hx : same (put_fd i x s) (put_fd i x s2)).
  { rewrite <- (put_put i x (set_ref 2 d) s). by apply same_put. }
  split; [done|]. split.
  - intros ->. apply (after_same (put_fd i no_fd s)); [done|by apply dinv_free].
  - intros Hg Hr. apply (after_same (put_fd i x s)); [done|by apply (dinv_write_back s i d)].
Qed.

Lemma dropped_two s d : ref_count d = 2 → good s d → good s (dropped d) ∧ ref_count (dropped d) = 1.
Proof. intros H Hg. unfold dropped. by rewrite H. Qed.

Lemma dropped_twice d : ref_count d = 2 → dropped (dropped d) = no_fd.
Proof. intros H. unfold dropped at 2. by rewrite H. Qed.

Lemma with_fd_safe {A} fd (F : dfs_fd → dfs W → res (A * dfs_fd * dfs W)) s : dinv s → file_call F →
  ∃ r s', with_fd fd F s = Ok (r, s') ∧ dinv s' ∧ opens s' = opens s ∧
    (is_open (opens s) fd = false → r = None ∧ errno s' = - DFS_STATUS_EBADF).
Proof.
  intros Hs HF. unfold with_fd.
  destruct (during_call fd F s Hs HF) as [[-> Hop]|(i & d & s1 & r & d' & s2 & -> & -> & Hop & Hg & E & Hlen & Hr & Hgood & Hx)]; step.
  - eexists _, _. split; [done|]. split; [by apply (dinv_same s); [apply same_errno|]|done].
  - rewrite Hg. step. rewrite E. step. rewrite fd_put_put by done. step. eexists _, _. split; [done|].
    destruct (dropped_two s d' Hr Hgood) as [Hg1 Hr1]. destruct (Hx (dropped d')) as (_ & _ & H). destruct (H Hg1 Hr1) as [H1 H2].
    split; [done|]. split; [done|]. by rewrite Hop.
Qed.

Lemma close_safe fd s : dinv s → ∃ r s', close ops_of fd s = Ok (r, s') ∧ dinv s' ∧
  (if is_open (opens s) fd then (r = 0 ∧ opens s' = <[Z.to_nat fd := false]> (opens s)) ∨ (r = -1 ∧ opens s' = opens s)
   else r = -1 ∧ opens s' = opens s ∧ errno s' = - DFS_STATUS_EBADF).
Proof.
  intros Hs. unfold close.
  destruct (during_call fd (dfs_file_close ops_of) s Hs dfs_file_close_call) as [[-> Hop]|(i & d & s1 & r & d' & s2 & -> & -> & Hop & Hg & E & Hlen & Hr & Hgood & Hx)]; step.
  - rewrite Hop. eexists _, _. split; [done|]. split; [by apply (dinv_same s); [apply same_errno|]|done].
  - rewrite Hop, Nat2Z.id, Hg. step. rewrite E. step. rewrite fd_put_put by done. step.
    destruct (dropped_two s d' Hr Hgood) as [Hg1 Hr1]. destruct (r <? 0).
    + destruct (Hx (dropped d')) as (_ & _ & H). destruct (H Hg1 Hr1) as [H1 H2]. eexists _, _. split; [done|].
      split; [by apply (dinv_same (put_fd i (dropped d') s2)); [apply same_errno|]|by right].
    + rewrite fd_put_put by done. step. rewrite dropped_twice by done.
      destruct (Hx no_fd) as (_ & H & _). destruct (H eq_refl) as [H1 H2]. eexists _, _. split; [done|]. split; [done|by left].
Qed.

Lemma closedir_safe (x : DIR) s : dinv s → ∃ r x' s', closedir ops_of (Some x) s = Ok (r, x', s') ∧ dinv s' ∧
  (if is_open (opens s) (d_fd x) then x' = None ∧ opens s' = <[Z.to_nat (d_fd x) := false]> (opens s)
   else x' = Some x ∧ r = -1 ∧ opens s' = opens s ∧ errno s' = - DFS_STATUS_EBADF).
Proof.
  intros Hs. unfold closedir. step. set (fd := d_fd x). clearbody fd.
  destruct (during_call fd (dfs_file_close ops_of) s Hs dfs_file_close_call) as [[-> Hop]|(i & d & s1 & r & d' & s2 & -> & -> & Hop & Hg & E & Hlen & Hr & Hgood & Hx)]; step.
  - rewrite Hop. eexists _, _, _. split; [done|]. split; [by apply (dinv_same s); [apply same_errno|]|done].
  - rewrite Hop, Nat2Z.id, Hg. step. rewrite E. step. rewrite fd_put_put by done. step. rewrite fd_put_put by done. step.
    rewrite dropped_twice by done.
    destruct (Hx no_fd) as (_ & H & _). pose proof (H eq_refl) as Hd.
    assert (He : ∀ e, dinv (rt_set_errno e (put_fd i no_fd s2)) ∧ opens (rt_set_errno e (put_fd i no_fd s2)) = <[i := false]> (opens s))
      by (intros e; by apply (after_same (put_fd i no_fd s2)); [apply same_errno|]).
    destruct Hd as [H1 H2]. destruct (r <? 0); eexists _, None, _; (split; [done|]); [|done]. by destruct (He r).
Qed.

(** ** The calls that open a descriptor *)

Lemma fd_new_spec s : fd_new s = match first_free (opens s) 0 with
  | None => (-1, s)
  | Some i => let d := default no_fd (fd_table s !! i) in
      (Z.of_nat i, put_fd i (mk_fd DFS_FD_MAGIC (fd_type d) (fd_path d) 1 (fd_fs d) (fd_inf d)) s)
  end.
Proof. unfold fd_new, opens. by rewrite free_fd_first. Qed.

Lemma fd_get_new i d s : length (fd_table s) = DFS_FD_MAX → (i < DFS_FD_MAX)%nat → fd_magic d = DFS_FD_MAGIC →
  fd_get (Z.of_nat i) (put_fd i d s) = Ok (Some i, put_fd i (set_ref (ref_count d + 1) d) s).
Proof.
  intros Hl Hi Hm. unfold fd_get. rewrite (proj2 (Z.ltb_ge _ 0)), (proj2 (Z.leb_gt (Z.of_nat DFS_FD_MAX) _)) by lia. simpl.
  rewrite Nat2Z.id, get_put by lia. step. by rewrite Hm, Z.eqb_refl, put_put.
Qed.

(** A failed [open_fd] leaves the descriptors alone; else the first free one is
    taken, with two references. *)
Lemma open_fd_safe p cs flags s : dinv s → below s p cs →
  (∃ e s', open_fd ops_of p flags s = Ok (inr e, s') ∧ dinv s' ∧ opens s' = opens s) ∨
  ∃ i d s', open_fd ops_of p flags s = Ok (inl (Z.of_nat i), put_fd i d s') ∧ (i < length (fd_table s'))%nat ∧ same (put_fd i no_fd s) (put_fd i no_fd s') ∧
    first_free (opens s) 0 = Some i ∧ ref_count d = 2 ∧ good s d.
Proof.
  intros Hs Hb. unfold open_fd. rewrite fd_new_spec. destruct (first_free (opens s) 0) as [i|] eqn:Ei; [|left; by eexists _, _].
  destruct (first_free_spec _ _ _ Ei) as [_ Hfree]. rewrite Nat.sub_0_r in Hfree.
  assert (Hi : (i < DFS_FD_MAX)%nat). { apply lookup_lt_Some in Hfree. unfold opens in Hfree. rewrite length_fmap in Hfree. by rewrite <- (di_fds s Hs). }
  cbv zeta beta iota. set (d0 := mk_fd _ _ _ _ _ _). rewrite (proj2 (Z.ltb_ge (Z.of_nat i) 0)) by lia.
  rewrite fd_get_new by (first [apply (di_fds s Hs)|done]). step. set (d1 := set_ref _ d0). pose proof (di_fds s Hs) as Hlen.
  rewrite get_put by lia. step. set (s1 := put_fd i d1 s).
  destruct (dfs_file_open_safe d1 p cs flags s1 (di_mounts s Hs) Hb) as (r & d2 & s2 & E & Hs2 & Hd1 & Hd2 & Hd3). rewrite E. step.
  assert (Hlen2 : (i < length (fd_table s2))%nat). { rewrite (sm_fds _ _ Hs2). cbn. rewrite length_insert. lia. }
  assert (Hx : same (put_fd i no_fd s) (put_fd i no_fd s2)). { rewrite <- (put_put i no_fd d1 s). by apply same_put. }
  destruct (r <? 0) eqn:Er.
  - left. rewrite fd_put_put by done. step. rewrite fd_put_put by done. step. rewrite dropped_twice by by rewrite Hd2.
    eexists _, _. split; [done|]. apply (after_same (put_fd i no_fd s)); [done|]. destruct (dinv_free s i Hs) as [H1 H2]. split; [done|].
    rewrite H2. by apply list_insert_id.
  - apply Z.ltb_ge in Er. right. exists i, d2, s2. do 4 (split; [done|]). split; [by rewrite Hd2|]. split; [by rewrite Hd1|].
    destruct (Hd3 Er) as (m & H1 & H2). by exists m.
Qed.

(** The descriptor that was opened, with one reference and with none. *)
Lemma opened_states s s' i d : dinv s → same (put_fd i no_fd s) (put_fd i no_fd s') → first_free (opens s) 0 = Some i → good s d →
  (ref_count d = 1 → dinv (put_fd i d s') ∧ opens (put_fd i d s') = <[i := true]> (opens s)) ∧
  (dinv (put_fd i no_fd s') ∧ opens (put_fd i no_fd s') = opens s).
Proof.
  intros Hs Hx Hi [Hm Hg]. destruct (first_free_spec _ _ _ Hi) as [_ Hfree]. rewrite Nat.sub_0_r in Hfree. split.
  - intros Hr. apply (after_same (put_fd i d s)).
    + rewrite <- (put_put i d no_fd s), <- (put_put i d no_fd s'). by apply same_put.
    + split; [apply dinv_put; [done|by right]|]. rewrite opens_put. unfold used. by rewrite Hr.
  - apply (after_same (put_fd i no_fd s)); [done|]. destruct (dinv_free s i Hs) as [H1 H2]. split; [done|]. rewrite H2. by apply list_insert_id.
Qed.

(** What [open] and [opendir] answer. *)
Definition opened (b : list bool) (r : Z) (b' : list bool) : Prop :=
  (r = -1 ∧ b' = b) ∨ ∃ i, first_free b 0 = Some i ∧ r = Z.of_nat i ∧ b' = <[i := true]> b.

Lemma open_safe p cs flags s : dinv s → below s p cs → ∃ r s', open ops_of p flags s = Ok (r, s') ∧ dinv s' ∧ opened (opens s) r (opens s').
Proof.
  intros Hs Hb. unfold open. destruct (open_fd_safe p cs flags s Hs Hb) as [(e & s' & -> & H1 & H2)|(i & d & s' & -> & Hlen & Hx & Hi & Hr & Hg)]; step.
  - eexists _, _. split; [done|]. split; [by apply (dinv_same s'); [apply same_errno|]|by left].
  - rewrite Nat2Z.id, fd_put_put by done. step. destruct (dropped_two s d Hr Hg) as [Hg1 Hr1].
    destruct (opened_states s s' i (dropped d) Hs Hx Hi Hg1) as [H _]. destruct (H Hr1) as [H1 H2].
    eexists _, _. split; [done|]. split; [done|]. right. by exists i.
Qed.

(** The descriptor is closed again, whatever the driver says. *)
Lemma close_opened s s' i d : dinv s → (i < length (fd_table s'))%nat → same (put_fd i no_fd s) (put_fd i no_fd s') →
  first_free (opens s) 0 = Some i → ref_count d = 2 → good s d →
  ∃ r d' s2, get_fd i (put_fd i d s') = Ok d ∧ dfs_file_close ops_of d (put_fd i d s') = Ok (r, d', s2) ∧
    (s3 ← fd_put i (put_fd i d' s2); fd_put i s3) = Ok (put_fd i no_fd s2) ∧ dinv (put_fd i no_fd s2) ∧ opens (put_fd i no_fd s2) = opens s.
Proof.
  intros Hs Hlen Hx Hi Hr [Hm (m & Hg & f & o & ms & Hfs)].
  assert (Hfs' : has_fs (put_fd i d s') m). { pose proof (sm_mounts _ _ Hx) as Hmt. cbn in Hmt. exists f, o, ms. cbn. by rewrite Hmt. }
  destruct (dfs_file_close_call d (put_fd i d s') m Hg Hfs') as (r & d' & s2 & E & Hs2 & Hlike).
  exists r, d', s2. split; [by apply get_put|]. split; [done|].
  assert (Hlen2 : (i < length (fd_table s2))%nat). { rewrite (sm_fds _ _ Hs2). cbn. by rewrite length_insert. }
  assert (Hr' : ref_count d' = 2) by (destruct Hlike as (_ & -> & _); exact Hr). split.
  { rewrite fd_put_put by done. step. rewrite fd_put_put by done. by rewrite dropped_twice. }
  destruct (opened_states s s' i d Hs Hx Hi) as [_ H]; [split; [done|exists m; split; [done|by exists f, o, ms]]|].
  apply (after_same (put_fd i no_fd s')); [|done]. rewrite <- (put_put i no_fd d s'). by apply same_put.
Qed.

Lemma mkdir_safe p cs s : dinv s → below s p cs → ∃ r s', mkdir ops_of p s = Ok (r, s') ∧ dinv s' ∧ opens s' = opens s ∧ (r = 0 ∨ r = -1).
Proof.
  intros Hs Hb. unfold mkdir. destruct (open_fd_safe p cs (Z.lor DFS_O_DIRECTORY DFS_O_CREAT) s Hs Hb) as [(e & s' & -> & H1 & H2)|(i & d & s' & -> & Hlen & Hx & Hi & Hr & Hg)]; step.
  - eexists _, _. split; [done|]. split; [by apply (dinv_same s'); [apply same_errno|]|]. split; [done|by right].
  - rewrite Nat2Z.id. destruct (close_opened s s' i d Hs Hlen Hx Hi Hr Hg) as (r & d' & s2 & E1 & E2 & E3 & H1 & H2).
    rewrite E1. step. rewrite E2. step. destruct (fd_put i (put_fd i d' s2)) as [s3|]; [|done]. cbn [mbind res_bind] in E3 |- *. rewrite E3. step.
    eexists _, _. split; [done|]. split; [done|]. split; [done|by left].
Qed.

Lemma opendir_safe p cs s : dinv s → below s p cs →
  ∃ r s', opendir ops_of p s = Ok (r, s') ∧ dinv s' ∧
    match r with
    | None => opens s' = opens s
    | Some x => ∃ i, first_free (opens s) 0 = Some i ∧ x = new_dir (Z.of_nat i) ∧ opens s' = <[i := true]> (opens s)
    end.
Proof.
  intros Hs Hb. unfold opendir. destruct (open_fd_safe p cs (Z.lor DFS_O_RDONLY DFS_O_DIRECTORY) s Hs Hb) as [(e & s' & -> & H1 & H2)|(i & d & s' & -> & Hlen & Hx & Hi & Hr & Hg)]; step.
  { eexists _, _. split; [done|]. split; [by apply (dinv_same s'); [apply same_errno|]|done]. }
  assert (Ha : ∃ room s1, alloc (put_fd i d s') = (room, put_fd i d s1) ∧ fd_table s1 = fd_table s' ∧ same (put_fd i no_fd s') (put_fd i no_fd s1)).
  { unfold alloc. cbn [heap_room put_fd put_fds]. destruct (heap_room s') as [|b l]; [by exists true, s'|]. by exists b, (put_room l s'). }
  destruct Ha as (room & s1 & -> & Hfd & Hs1). rewrite Nat2Z.id. rewrite <- Hfd in Hlen.
  assert (Hx1 : same (put_fd i no_fd s) (put_fd i no_fd s1)) by by transitivity (put_fd i no_fd s').
  destruct room.
  - rewrite fd_put_put by done. step. destruct (dropped_two s d Hr Hg) as [Hg1 Hr1].
    destruct (opened_states s s1 i (dropped d) Hs Hx1 Hi Hg1) as [H _]. destruct (H Hr1) as [H1 H2].
    eexists _, _. split; [done|]. split; [done|]. by exists i.
  - destruct (close_opened s s1 i d Hs Hlen Hx1 Hi Hr Hg) as (r & d' & s2 & E1 & E2 & E3 & H1 & H2).
    rewrite E1. step. rewrite E2. step. destruct (fd_put i (put_fd i d' s2)) as [s3|]; [|done]. cbn [mbind res_bind] in E3 |- *. rewrite E3. step.
    by eexists _, _.
Qed.
End safe.
