(* ===== verification/DfsDrivers.v ===== *)
(** * The device file system above any drivers

    A call that a driver or a device does not return from is told apart from a
    stop of the framework: [outside] gives such a stop the outcome [External].
    [granted] makes the same drivers return always.  Every call of the framework
    over the first runs as over the second, or ends in [External]: what is proved
    of drivers that return holds of all drivers up to the point where one of their
    functions does not return. *)
From S2P Require Import Prelude KObject DfsPath Dfs.
Local Open Scope Z_scope.

(** ** Drivers whose answers pass through [h] *)
Section adapt.
Context {W : Type} (h : ∀ A, A → res A → res A).

Definition adapt (o : fs_operation W) : fs_operation W := mk_op W (op_name o) (op_flags o)
  ((λ g f a b w, h _ (-1, 0, w) (g f a b w)) <$> op_mount o)
  ((λ g f w, h _ (-1, w) (g f w)) <$> op_unmount o)
  ((λ g n w, h _ (-1, w) (g n w)) <$> op_mkfs o)
  ((λ g f w, h _ (-1, [], w) (g f w)) <$> op_statfs o)
  ((λ g f d w, h _ (-1, fd_inf d, w) (g f d w)) <$> op_open o)
  ((λ g f d w, h _ (-1, fd_inf d, w) (g f d w)) <$> op_close o)
  ((λ g f d c a w, h _ (-1, fd_inf d, w) (g f d c a w)) <$> op_ioctl o)
  ((λ g f d n w, h _ (-1, [], fd_inf d, w) (g f d n w)) <$> op_read o)
  ((λ g f d b w, h _ (-1, fd_inf d, w) (g f d b w)) <$> op_write o)
  ((λ g f d w, h _ (-1, fd_inf d, w) (g f d w)) <$> op_flush o)
  ((λ g f d n w, h _ (-1, fd_inf d, w) (g f d n w)) <$> op_lseek o)
  ((λ g f d n w, h _ (-1, [], fd_inf d, w) (g f d n w)) <$> op_getdents o)
  ((λ g f p w, h _ (-1, w) (g f p w)) <$> op_unlink o)
  ((λ g f p w, h _ (-1, [], w) (g f p w)) <$> op_stat o)
  ((λ g f p q w, h _ (-1, w) (g f p q w)) <$> op_rename o).

Definition adapt_devices (B : BlockDevices W) : BlockDevices W := {|
  device_find := @device_find W B;
  device_open x w := h _ (-1, w) (@device_open W B x w);
  device_close x w := h _ (-1, w) (@device_close W B x w) |}.
End adapt.

(** A stop happens outside the framework; or there is an answer after all. *)
Definition outside A (_ : A) (m : res A) : res A := match m with Ok x => Ok x | Stop _ => Stop External end.
Definition granted A (d : A) (m : res A) : res A := match m with Ok x => Ok x | Stop _ => Ok d end.

(** The same outcome, unless the first stops outside. *)
Definition upto {A} (m m' : res A) : Prop := m = m' ∨ m = Stop External.

Section upto.
Context {A B : Type}.
Implicit Types (m : res A) (k : A → res B).

Lemma upto_refl m : upto m m.
Proof. by left. Qed.
Lemma upto_bind m m' k k' : upto m m' → (∀ a, upto (k a) (k' a)) → upto (m ≫= k) (m' ≫= k').
Proof. intros [->| ->] Hk; [|by right]. destruct m' as [a|w]; [apply Hk|by left]. Qed.
Lemma upto_driver (d : A) m k k' : (∀ a, upto (k a) (k' a)) → upto (outside A d m ≫= k) (granted A d m ≫= k').
Proof. intros Hk. destruct m as [a|w]; [apply Hk|by right]. Qed.
End upto.

Create HintDb upto.

Section drivers.
Context {W : Type} (B : BlockDevices W) (ops_of : nat → fs_operation W).
Implicit Types (s : dfs W) (f : dfs_filesystem) (d : dfs_fd).
Local Abbreviation outer := (λ o, adapt outside (ops_of o)).
Local Abbreviation inner := (λ o, adapt granted (ops_of o)).
Local Abbreviation outerB := (adapt_devices outside B).
Local Abbreviation innerB := (adapt_devices granted B).

Lemma upto_ops {A} f (k k' : fs_operation W → res A) :
  (∀ o, upto (k (adapt outside (ops_of o))) (k' (adapt granted (ops_of o)))) → upto (get_ops outer f ≫= k) (get_ops inner f ≫= k').
Proof. intros Hk. unfold get_ops. destruct (fs_ops f) as [o|]; [apply Hk|by left]. Qed.

(** Both sides take the same way. *)
#[local] Ltac same_way :=
  repeat match goal with
  | |- upto ?m ?m => apply upto_refl
  | |- upto (of_option _ (op_mount (adapt _ ?o)) ≫= _) _ =>
      cbn [op_mount adapt]; destruct (op_mount o); cbn [fmap option_fmap option_map of_option mbind res_bind]
  | |- upto (get_ops _ _ ≫= _) _ => apply upto_ops; intros ?; cbn [op_name op_flags op_mount op_unmount op_mkfs op_statfs op_open
      op_close op_ioctl op_read op_write op_flush op_lseek op_getdents op_unlink op_stat op_rename adapt fmap option_fmap option_map]
  | |- upto (outside _ _ _ ≫= _) _ => apply upto_driver; intros ?
  | |- context [full_paths (adapt ?h ?o)] => change (full_paths (adapt h o)) with (full_paths o)
  | |- upto (match _ (adapt _ _) with _ => _ end) _ => progress cbn [op_mount op_mkfs adapt]
  | |- upto (match _ <$> ?x with _ => _ end) _ => destruct x; cbn [fmap option_fmap option_map]
  | |- upto (match ?x with _ => _ end) (match ?x with _ => _ end) => destruct x; cbn [fmap option_fmap option_map]
  | |- upto (mbind _ _) (mbind _ _) => apply upto_bind; [|intros ?]
  | _ => progress cbn [fmap option_fmap option_map]
  | _ => progress cbv beta zeta
  end; try solve [eauto using upto_refl with upto | left; reflexivity].

Lemma upto_open d p fl s : upto (dfs_file_open outer d p fl s) (dfs_file_open inner d p fl s).
Proof. unfold dfs_file_open. same_way. Qed.
Lemma upto_close d s : upto (dfs_file_close outer d s) (dfs_file_close inner d s).
Proof. unfold dfs_file_close. same_way. Qed.
Lemma upto_ioctl d c a s : upto (dfs_file_ioctl outer d c a s) (dfs_file_ioctl inner d c a s).
Proof. unfold dfs_file_ioctl. same_way. Qed.
Lemma upto_read d n s : upto (dfs_file_read outer d n s) (dfs_file_read inner d n s).
Proof. unfold dfs_file_read. same_way. Qed.
Lemma upto_write d b s : upto (dfs_file_write outer d b s) (dfs_file_write inner d b s).
Proof. unfold dfs_file_write. same_way. Qed.
Lemma upto_flush d s : upto (dfs_file_flush outer d s) (dfs_file_flush inner d s).
Proof. unfold dfs_file_flush. same_way. Qed.
Lemma upto_lseek d n s : upto (dfs_file_lseek outer d n s) (dfs_file_lseek inner d n s).
Proof. unfold dfs_file_lseek. same_way. Qed.
Lemma upto_unlink p s : upto (dfs_file_unlink outer p s) (dfs_file_unlink inner p s).
Proof. unfold dfs_file_unlink. same_way. Qed.
Lemma upto_stat p s : upto (dfs_file_stat outer p s) (dfs_file_stat inner p s).
Proof. unfold dfs_file_stat. same_way. Qed.
Lemma upto_rename p q s : upto (dfs_file_rename outer p q s) (dfs_file_rename inner p q s).
Proof. unfold dfs_file_rename. same_way. Qed.
Hint Resolve upto_open upto_close upto_ioctl upto_read upto_write upto_flush upto_lseek upto_unlink upto_stat upto_rename : upto.

(** ** The calls of [dfs_posix.c] *)
Lemma upto_with_fd {A} fd (F G : dfs_fd → dfs W → res (A * dfs_fd * dfs W)) s :
  (∀ d s, upto (F d s) (G d s)) → upto (with_fd fd F s) (with_fd fd G s).
Proof. intros H. unfold with_fd. same_way. Qed.
Lemma upto_open_fd p fl s : upto (open_fd outer p fl s) (open_fd inner p fl s).
Proof. unfold open_fd. same_way. Qed.
Hint Resolve upto_with_fd upto_open_fd : upto.

Lemma upto_posix_open p fl s : upto (open outer p fl s) (open inner p fl s).
Proof. unfold open. same_way. Qed.
Lemma upto_posix_close fd s : upto (close outer fd s) (close inner fd s).
Proof. unfold close. same_way. Qed.
Lemma upto_posix_read fd n s : upto (Dfs.read outer fd n s) (Dfs.read inner fd n s).
Proof. unfold Dfs.read. apply upto_bind; [apply upto_with_fd; intros; same_way|intros; same_way]. Qed.
Lemma upto_posix_write fd b s : upto (write outer fd b s) (write inner fd b s).
Proof. unfold write. same_way. Qed.
Lemma upto_posix_lseek fd o w s : upto (lseek outer fd o w s) (lseek inner fd o w s).
Proof. unfold lseek. apply upto_bind; [apply upto_with_fd; intros; same_way|intros; same_way]. Qed.
Lemma upto_posix_fsync fd s : upto (fsync outer fd s) (fsync inner fd s).
Proof. unfold fsync. same_way. Qed.
Lemma upto_posix_ioctl fd c a s : upto (ioctl outer fd c a s) (ioctl inner fd c a s).
Proof. unfold ioctl. same_way. Qed.
Lemma upto_posix_rename p q s : upto (rename outer p q s) (rename inner p q s).
Proof. unfold rename. same_way. Qed.
Lemma upto_posix_unlink p s : upto (unlink outer p s) (unlink inner p s).
Proof. unfold unlink. same_way. Qed.
Lemma upto_mkdir p s : upto (mkdir outer p s) (mkdir inner p s).
Proof. unfold mkdir. same_way. Qed.
Lemma upto_opendir p s : upto (opendir outer p s) (opendir inner p s).
Proof. unfold opendir. same_way. Qed.
Lemma upto_closedir x s : upto (closedir outer x s) (closedir inner x s).
Proof. unfold closedir. same_way. Qed.
Hint Resolve upto_opendir upto_closedir : upto.
Lemma upto_chdir p s : upto (chdir outer p s) (chdir inner p s).
Proof. unfold chdir. same_way. Qed.

(** ** Mounting *)
Lemma upto_directory_exists j p s : upto (directory_exists outer j p s) (directory_exists inner j p s).
Proof. unfold directory_exists. same_way. Qed.
Lemma upto_mount_entry i o rw data s :
  upto (@mount_entry W outerB outer i o rw data s) (@mount_entry W innerB inner i o rw data s).
Proof. unfold mount_entry. cbn [device_open device_close adapt_devices]. same_way. Qed.
Hint Resolve upto_directory_exists upto_mount_entry : upto.
Lemma upto_mount j dev p ty rw data s :
  upto (@dfs_mount W outerB outer j dev p ty rw data s) (@dfs_mount W innerB inner j dev p ty rw data s).
Proof. unfold dfs_mount. cbn [device_find adapt_devices]. same_way. Qed.
Lemma upto_unmount p s : upto (@dfs_unmount W outerB outer p s) (@dfs_unmount W innerB inner p s).
Proof. unfold dfs_unmount. cbn [device_close adapt_devices]. same_way. Qed.
Lemma upto_statfs p s : upto (dfs_statfs outer p s) (dfs_statfs inner p s).
Proof. unfold dfs_statfs. same_way. Qed.
Lemma upto_mkfs n dev s : upto (@dfs_mkfs W outerB outer n dev s) (@dfs_mkfs W innerB inner n dev s).
Proof.
  unfold dfs_mkfs. cbn [device_find adapt_devices].
  change (mkfs_loop outer) with (mkfs_loop inner). same_way.
Qed.
End drivers.
