(* ===== verification/DfsCalls.v ===== *)
(** * The device file system: sequences of its calls

    Mounting and changing the directory keep the tables too, and every sequence of
    allowed calls runs, with the answers of the abstract state: which descriptors
    and directory streams are open. *)
From S2P Require Import Prelude KObject DfsPath Dfs DfsProps DfsSafe DfsDrivers.
Local Open Scope Z_scope.

Section calls.
Context {W : Type} `{!BlockDevices W} `{!DevicesReturn W}.
Context (ops_of : nat → fs_operation W) `{!DriversReturn ops_of}.
Implicit Types (s : dfs W) (f : dfs_filesystem) (d : dfs_fd).

(** ** The working directory *)

Lemma fail_safe e s : dinv s → dinv (rt_set_errno e s) ∧ opens (rt_set_errno e s) = opens s.
Proof. intros H. by apply (after_same s); [apply same_errno|]. Qed.

Lemma chdir_safe p cs s : dinv s → below s p cs → Z.of_nat (length (show_path cs)) < DFS_PATH_MAX →
  ∃ r s', chdir ops_of p s = Ok (r, s') ∧ dinv s' ∧ opens s' = opens s ∧ (r = 0 ∨ r = -1).
Proof.
  intros Hs Hb Hlen. pose proof (λ e, fail_safe e s Hs) as Hfail. unfold chdir, fail. destruct (_ <? _); [eexists _, _; split; [done|]; split; [by apply Hfail|]; split; [by apply Hfail|by right]|].
  destruct (normalize_safe s p cs Hb) as (full & s1 & E & Hs1 & Hcs & Hfull). rewrite E. step.
  destruct (after_same s s1 (opens s) Hs1) as [Hd1 Ho1]; [done|].
  destruct Hfull as [->| ->].
  { eexists _, _. split; [done|]. destruct (fail_safe (- DFS_STATUS_ENOTDIR) s1 Hd1) as [H1 H2]. split; [done|]. split; [by rewrite H2|by right]. }
  destruct (opendir_safe ops_of (show_path cs) cs s1 Hd1) as (r & s2 & E2 & Hd2 & Hop).
  { apply (below_show s1 p); [|done]. by apply (below_same s s1). }
  rewrite E2. step. destruct r as [x|]; [|eexists _, _; split; [done|]; split; [done|]; split; [by rewrite Hop|by right]].
  destruct Hop as (i & Hi & -> & Hop). destruct (closedir_safe ops_of (new_dir (Z.of_nat i)) s2 Hd2) as (r & x' & s3 & E3 & Hd3 & Hc). rewrite E3. step.
  unfold require. rewrite (proj2 (Z.ltb_lt _ _)) by done. step. eexists _, _. split; [done|]. split; [|split; [|by left]].
  - destruct Hd3 as [H1 H2 H3 H4]. constructor; [done|done|done|by exists cs].
  - change (opens s3 = opens s). rewrite <- Ho1.
    destruct (first_free_spec _ _ _ Hi) as [_ Hfree]. rewrite Nat.sub_0_r in Hfree. rewrite Hop in Hc. cbn [d_fd new_dir] in Hc.
    unfold is_open in Hc. rewrite (proj2 (Z.leb_le 0 (Z.of_nat i))), Nat2Z.id, list_lookup_insert_eq in Hc by (first [lia|by apply lookup_lt_Some in Hfree]).
    simpl in Hc. rewrite (proj2 Hc), list_insert_insert_eq. by apply list_insert_id.
Qed.

(** ** Mounting *)

(** No descriptor is on the file system [i]. *)
Definition unused s (i : nat) : Prop := Forall (λ d, fd_fs d ≠ Some i) (fd_table s).

Lemma put_mount_twice i f f' s : put_mount i f (put_mount i f' s) = put_mount i f s.
Proof. unfold put_mount, put_mounts. cbn. by rewrite list_insert_insert_eq. Qed.

Lemma same_put_mount s s' i f : same s s' → same (put_mount i f s) (put_mount i f s').
Proof. intros []. constructor; cbn; congruence. Qed.

Lemma dinv_mount s i f : dinv s → unused s i → mount_ok f → dinv (put_mount i f s) ∧ opens (put_mount i f s) = opens s.
Proof.
  intros [H1 H2 H3 H4] Hu Hf. split; [|done]. constructor; [done| |by apply Forall_insert|done].
  cbn. apply Forall_forall. intros d Hd. rewrite Forall_forall in H2. unfold unused in Hu. rewrite Forall_forall in Hu.
  destruct (H2 d Hd) as [->|(Hm & Hr & m & Hfs & g & o & ms & Hg & H)]; [by left|right]. do 2 (split; [done|]). exists m. split; [done|].
  exists g, o, ms. split; [|done]. cbn. rewrite list_lookup_insert_ne; [done|]. intros ->. by apply (Hu d Hd).
Qed.

Lemma empty_unused s i f : dinv s → filesystem_table s !! i = Some f → fs_ops f = None → unused s i.
Proof.
  intros Hs Hi Hf. apply Forall_forall. intros d Hd Hfs. pose proof (di_fd s Hs) as H. rewrite Forall_forall in H.
  destruct (H d Hd) as [->|(_ & _ & m & Hm & g & o & ms & Hg & Ho & _)]; [done|]. assert (m = i) by congruence. subst. congruence.
Qed.

Lemma mount_loop_safe p l : ∀ i fs, Forall mount_ok l →
  ∃ r, mount_loop p l i fs = Ok r ∧ ∀ j, r = Some (Some j) → fs = Some j ∨ ∃ k f, j = (i + k)%nat ∧ l !! k = Some f ∧ fs_ops f = None.
Proof.
  induction l as [|f l IH]; intros i fs Hl; simpl; [eexists; split; [done|]; intros j [= ->]; by left|].
  apply Forall_cons in Hl as [Hf Hl]. destruct Hf as [[Ho _]|[ms (Ho & Hp & _)]].
  - rewrite Ho. destruct (IH (S i) (match fs with Some _ => fs | None => Some i end) Hl) as (r & E & H). exists r. split; [by destruct fs|].
    intros j Hj. destruct (H j Hj) as [Hfs|(k & g & -> & Hk)]; [|right; exists (S k), g; split; [lia|done]].
    destruct fs as [x|]; [by left|]. injection Hfs as <-. right. exists 0%nat, f. split; [lia|done].
  - destruct (fs_ops f) as [o|]; [|done]. unfold mount_point. rewrite Hp. step. destruct (bool_decide _); [by exists None|].
    destruct (IH (S i) fs Hl) as (r & -> & H). exists r. split; [done|]. intros j Hj.
    destruct (H j Hj) as [Hfs|(k & g & -> & Hk)]; [by left|right; exists (S k), g; split; [lia|done]].
Qed.

Lemma directory_exists_safe junk cs s : mounts_ok s → below s (show_path cs) cs → ∃ b s', directory_exists ops_of junk (show_path cs) s = Ok (b, s') ∧ same s s'.
Proof.
  intros Hm Hb. unfold directory_exists. destruct (_ || _); [by eexists _, _|].
  destruct (dfs_file_open_safe ops_of junk (show_path cs) cs (Z.lor DFS_O_RDONLY DFS_O_DIRECTORY) s Hm Hb) as (r & d & s1 & -> & Hs1 & _ & _ & Hd). step.
  destruct (r <? 0) eqn:Er; [by eexists _, _|]. apply Z.ltb_ge in Er. destruct (Hd Er) as (i & Hi & Hfs).
  destruct (dfs_file_close_call ops_of d s1 i Hi (has_fs_same _ _ _ Hs1 Hfs)) as (r' & d' & s2 & -> & Hs2 & _). step.
  eexists _, _. split; [done|]. by transitivity s1.
Qed.

(** The entry [i] is filled, and emptied again if the device or the driver
    refuses. *)
Lemma mount_entry_safe i o dev cs rwflag data s f0 g : dinv s → filesystem_table s !! i = Some f0 → fs_ops f0 = None → Forall plain cs →
  op_mount (ops_of o) = Some g →
  ∃ r s', mount_entry ops_of i o rwflag data (put_mount i (mk_fs dev (Some (show_path cs)) (Some o) 0) s) = Ok (r, s') ∧ dinv s' ∧ opens s' = opens s ∧ (r = 0 ∨ r = -1).
Proof.
  intros Hs Hi Hf0 Hcs Hg. set (f := mk_fs _ _ _ _). pose proof (empty_unused s i f0 Hs Hi Hf0) as Hu.
  assert (Hend : ∀ x s', mount_ok x → same (put_mount i f s) s' → dinv (put_mount i x s') ∧ opens (put_mount i x s') = opens s).
  { intros x s' Hx Hs'. apply (after_same (put_mount i x s)); [|by apply dinv_mount].
    rewrite <- (put_mount_twice i x f s). by apply same_put_mount. }
  assert (Hno : mount_ok no_fs) by by left. assert (Hnew : ∀ v, mount_ok (mk_fs dev (Some (show_path cs)) (Some o) v)) by (intros v; right; by exists cs).
  unfold mount_entry, get_mount. cbn [filesystem_table put_mount put_mounts].
  rewrite list_lookup_insert_eq by (by apply lookup_lt_Some in Hi). step.
  assert (Hopen : ∃ ok s1, (match dev_id f with None => Ok (true, put_mount i f s)
    | Some dev => '(r, w) ← device_open dev (world (put_mount i f s)); Ok (r =? 0, put_world w (put_mount i f s)) end) = Ok (ok, s1) ∧ same (put_mount i f s) s1).
  { destruct (dev_id f) as [x|]; [|by eexists _, _]. ret (ret_device_open x (world (put_mount i f s))). eexists _, _. split; [done|apply same_world]. }
  destruct Hopen as (ok & s1 & -> & Hs1). step. destruct ok; simpl negb; cbv iota.
  2:{ destruct (Hend no_fs s1 Hno Hs1) as [H1 H2]. eexists _, _. split; [done|]. split; [done|]. split; [done|by right]. }
  rewrite Hg. step. ret (ret_mount o g f rwflag data (world s1) Hg). cbn [dev_id fs_path fs_ops f].
  set (f2 := mk_fs _ _ _ _). assert (Hs2 : ∀ w', same (put_mount i f s) (put_world w' s1)) by (intros w'; transitivity s1; [done|apply same_world]).
  destruct (_ <? 0).
  - destruct dev as [x|]; step.
    + ret (ret_device_close x (world (put_mount i f2 (put_world w s1)))). eexists _, _. split; [done|].
      match goal with |- context [put_mount i no_fs (put_world ?v' _)] => change (put_mount i no_fs (put_world v' (put_mount i f2 (put_world w s1)))) with (put_mount i no_fs (put_mount i f2 (put_world v' s1))) end.
      rewrite put_mount_twice. match goal with |- context [put_world ?v' s1] => destruct (Hend no_fs (put_world v' s1) Hno (Hs2 v')) as [H1 H2] end.
      split; [done|]. split; [done|by right].
    + rewrite put_mount_twice. destruct (Hend no_fs _ Hno (Hs2 w)) as [H1 H2]. eexists _, _. split; [done|]. split; [done|]. split; [done|by right].
  - destruct (Hend f2 _ (Hnew _) (Hs2 w)) as [H1 H2]. eexists _, _. split; [done|]. split; [done|]. split; [done|by left].
Qed.

(** An answer that only reports: the tables and the open descriptors are as before. *)
Definition reports s (m : res (Z * dfs W)) : Prop := ∃ r s', m = Ok (r, s') ∧ dinv s' ∧ opens s' = opens s.

Lemma reports_same s r s' : dinv s → same s s' → reports s (Ok (r, s')).
Proof. intros Hs H. exists r, s'. split; [done|]. by apply (after_same s). Qed.

Lemma reports_fail s s' e : dinv s → same s s' → reports s (fail e s').
Proof. intros Hs H. apply reports_same; [done|]. transitivity s'; [done|apply same_errno]. Qed.

(** The table has an entry of this name before its first free one, or no free one. *)
Definition type_known (ty : list Z) s : Prop :=
  (None ∉ filesystem_operation_table s) ∨
  ∃ l o l', filesystem_operation_table s = l ++ Some o :: l' ∧ (None ∉ l) ∧ op_name (ops_of o) = ty.

Lemma find_type_known ty s : type_known ty s → returns (find_type ops_of ty (filesystem_operation_table s)).
Proof.
  unfold type_known. intros [Hn|(l & o & l' & -> & Hn & Ho)].
  - induction (filesystem_operation_table s) as [|[x|] t IH]; simpl; [by eexists| |by destruct Hn; left]. case_bool_decide; [by eexists|].
    apply IH. intros ?. apply Hn. by right.
  - induction l as [|[x|] l IH]; simpl; [by rewrite bool_decide_eq_true_2 by done; eexists| |by destruct Hn; left].
    case_bool_decide; [by eexists|]. apply IH. intros ?. apply Hn. by right.
Qed.

Lemma dfs_mount_safe junk dev p cs ty rwflag data s : dinv s → below s p cs → type_known ty s →
  reports s (dfs_mount ops_of junk dev p ty rwflag data s).
Proof.
  intros Hs Hb [t Et]%find_type_known. unfold dfs_mount. destruct (match dev with Some n => _ | None => _ end) as [x|]; [|by apply reports_fail].
  rewrite Et. step. destruct t as [o|]; [|by apply reports_fail]. destruct (op_mount (ops_of o)) as [g|] eqn:Eg; [|by apply reports_fail].
  destruct (normalize_safe s p cs Hb) as (full & s1 & E & Hs1 & Hcs & Hfull). rewrite E. step.
  destruct Hfull as [->| ->]; [by apply reports_fail|].
  destruct (directory_exists_safe junk cs s1) as (b & s2 & E2 & Hs2).
  { by apply (mounts_ok_same s), (di_mounts s Hs). } { apply (below_show s1 p); [|done]. by apply (below_same s s1). }
  rewrite E2. step. assert (Hs' : same s s2) by by transitivity s1. destruct b; simpl negb; cbv iota; [|by apply reports_fail].
  pose proof (dinv_same _ _ Hs' Hs) as Hd2.
  destruct (mount_loop_safe p (filesystem_table s2) 0 None (di_mounts s2 Hd2)) as (r & E3 & Hr). rewrite E3. step.
  destruct r as [[i|]|]; [|by apply reports_fail|by apply reports_fail].
  destruct (Hr i eq_refl) as [?|(k & f0 & -> & Hk & Hf0)]; [done|].
  destruct (mount_entry_safe k o x cs rwflag data s2 f0 g Hd2 Hk Hf0 Hcs Eg) as (r & s3 & E4 & Hd3 & Ho3 & _).
  exists r, s3. split; [exact E4|]. split; [done|]. by rewrite Ho3, (opens_same _ _ Hs').
Qed.

Lemma unmount_loop_found p l : ∀ i j, unmount_loop p l i = Some j → (i <= j)%nat ∧ ∃ f, l !! (j - i)%nat = Some f ∧ fs_path f = Some p.
Proof.
  induction l as [|f l IH]; intros i j; simpl; [done|]. destruct (bool_decide _) eqn:E.
  - intros [= <-]. apply bool_decide_eq_true in E. split; [done|]. exists f. by rewrite Nat.sub_diag.
  - intros H. destruct (IH _ _ H) as (Hle & g & Hg & Hp). split; [lia|]. exists g. split; [|done].
    by replace (j - i)%nat with (S (j - S i))%nat by lia.
Qed.

(** No file is open on what is unmounted. *)
Definition unmountable s (cs : list (list Z)) : Prop :=
  match unmount_loop (show_path cs) (filesystem_table s) 0 with Some i => unused s i | None => True end.

Lemma dfs_unmount_safe p cs s : dinv s → below s p cs → unmountable s cs → reports s (dfs_unmount ops_of p s).
Proof.
  intros Hs Hb Hu. unfold dfs_unmount. destruct (normalize_safe s p cs Hb) as (full & s1 & E & Hs1 & Hcs & Hfull). rewrite E. step.
  destruct Hfull as [->| ->]; [by apply reports_fail|]. unfold unmountable in Hu. rewrite <- (sm_mounts _ _ Hs1) in Hu.
  destruct (unmount_loop _ _ _) as [i|] eqn:Ei; [|by apply reports_same]. pose proof (dinv_same _ _ Hs1 Hs) as Hd1.
  destruct (unmount_loop_found _ _ _ _ Ei) as (_ & f & Hf & Hp). rewrite Nat.sub_0_r in Hf.
  unfold get_mount. rewrite Hf. step. unfold get_ops.
  destruct (Forall_lookup_1 _ _ _ _ (di_mounts s1 Hd1) Hf) as [[_ ?]|[ms (Ho & _)]]; [congruence|]. destruct (fs_ops f) as [o|]; [|done]. step.
  destruct (op_unmount (ops_of o)) as [g|] eqn:Eg; [|by apply reports_same].
  ret (ret_unmount o g f (world s1) Eg). assert (Hs2 : ∀ w', same s (put_world w' s1)) by (intros w'; transitivity s1; [done|apply same_world]).
  destruct (_ <? 0); [by apply reports_same|].
  assert (Hend : ∀ w', reports s (Ok (0, put_mount i no_fs (put_world w' s1)))).
  { intros w'. eexists _, _. split; [done|]. apply (after_same (put_mount i no_fs s)).
    - by apply same_put_mount.
    - apply dinv_mount; [done|exact Hu|by left]. }
  destruct (dev_id f) as [x|]; step; [|apply Hend]. ret (ret_device_close x (world (put_world w s1))). apply Hend.
Qed.

(** [path] is used as it is: it has to be the normal one. *)
Lemma dfs_statfs_safe cs s : dinv s → Forall plain cs →
  reports s ('(r, _, s) ← dfs_statfs ops_of (show_path cs) s; Ok (r, s)).
Proof.
  intros Hs Hcs. unfold dfs_statfs. destruct (dfs_filesystem_lookup _ _) as [i|] eqn:E; [|by apply reports_same].
  destruct (lookup_found ops_of s cs i (di_mounts s Hs) Hcs E) as (f & o & ms & r & Hf & Ho & _). rewrite Hf. step. rewrite Ho. step.
  destruct (op_statfs (ops_of o)) as [g|] eqn:Eg; [|by apply reports_same]. ret (ret_statfs o g f (world s) Eg).
  apply reports_same; [done|apply same_world].
Qed.

Lemma dfs_mkfs_safe name dev s : dinv s → reports s (dfs_mkfs ops_of name dev s).
Proof.
  intros Hs. unfold dfs_mkfs. destruct (n ← dev; _) as [x|]; [|by apply reports_fail].
  destruct (mkfs_loop _ _ _) as [o|]; [|by apply reports_same]. destruct (op_mkfs (ops_of o)) as [g|] eqn:Eg; [|by apply reports_fail].
  ret (ret_mkfs o g x (world s) Eg). apply reports_same; [done|apply same_world].
Qed.

(** ** Sequences of calls *)

Inductive call :=
  | Copen (file : list Z) (flags : Z) | Cclose (fd : Z) | Cread (fd len : Z) | Cwrite (fd : Z) (buf : list Z)
  | Clseek (fd offset whence : Z) | Cfsync (fd : Z) | Cioctl (fd cmd data : Z)
  | Crename (old new : list Z) | Cunlink (path : list Z) | Cstat (path : list Z) | Cmkdir (path : list Z)
  | Cchdir (path : list Z)
  | Cmount (junk : dfs_fd) (dev : option (list Z)) (path ty : list Z) (rwflag data : Z) | Cunmount (path : list Z)
  | Cstatfs (path : list Z) | Cmkfs (name : list Z) (dev : option (list Z)).

Definition do_call (c : call) s : res (Z * dfs W) :=
  match c with
  | Copen file flags => open ops_of file flags s
  | Cclose fd => close ops_of fd s
  | Cread fd len => '(_, r, s) ← read ops_of fd len s; Ok (r, s)
  | Cwrite fd buf => write ops_of fd buf s
  | Clseek fd offset whence => lseek ops_of fd offset whence s
  | Cfsync fd => fsync ops_of fd s
  | Cioctl fd cmd data => ioctl ops_of fd cmd data s
  | Crename old new => rename ops_of old new s
  | Cunlink path => unlink ops_of path s
  | Cstat path => '(r, _, s) ← dfs_file_stat ops_of path s; Ok (r, s)
  | Cmkdir path => mkdir ops_of path s
  | Cchdir path => chdir ops_of path s
  | Cmount junk dev path ty rwflag data => dfs_mount ops_of junk dev path ty rwflag data s
  | Cunmount path => dfs_unmount ops_of path s
  | Cstatfs path => '(r, _, s) ← dfs_statfs ops_of path s; Ok (r, s)
  | Cmkfs name dev => dfs_mkfs ops_of name dev s
  end.

(** What the callers have to keep to: paths stay below the root; two paths that
    no file system has are not renamed; nothing is unlinked while a descriptor
    lost its path to a failed allocation; the new directory fits in its array;
    an unknown type of file system is not mounted while its table has a free
    entry; nothing is unmounted with files open on it; [dfs_statfs], which does not
    normalize its path, is given a normal one. *)
Definition allowed (c : call) s : Prop :=
  match c with
  | Copen p _ | Cstat p | Cmkdir p => ∃ cs, below s p cs
  | Crename p q => ∃ cs ds, below s p cs ∧ below s q ds ∧
      (dfs_filesystem_lookup (show_path cs) s = None → dfs_filesystem_lookup (show_path ds) s ≠ None)
  | Cunlink p => (∃ cs, below s p cs) ∧ paths_known s
  | Cchdir p => ∃ cs, below s p cs ∧ Z.of_nat (length (show_path cs)) < DFS_PATH_MAX
  | Cmount _ _ p ty _ _ => (∃ cs, below s p cs) ∧ type_known ty s
  | Cunmount p => ∃ cs, below s p cs ∧ unmountable s cs
  | Cstatfs p => ∃ cs, p = show_path cs ∧ Forall plain cs
  | _ => True
  end.

(** The answer [r] of a call, the error number [e] and the open descriptors [b']
    after it, when [b] were open. *)
Definition answer (c : call) (b : list bool) (r e : Z) (b' : list bool) : Prop :=
  match c with
  | Copen _ _ => opened b r b'
  | Cclose fd => if is_open b fd then (r = 0 ∧ b' = <[Z.to_nat fd := false]> b) ∨ (r = -1 ∧ b' = b)
      else r = -1 ∧ b' = b ∧ e = - DFS_STATUS_EBADF
  | Cread fd _ | Cwrite fd _ | Clseek fd _ _ | Cfsync fd | Cioctl fd _ _ =>
      b' = b ∧ (is_open b fd = false → r = -1 ∧ e = - DFS_STATUS_EBADF)
  | Cmkdir _ | Cchdir _ => b' = b ∧ (r = 0 ∨ r = -1)
  | _ => b' = b
  end.

(** With the directory streams that the callers have; [None]: freed. *)
Definition streams : Type := list (option DIR).
Inductive request := Call (c : call) | Opendir (path : list Z) | Closedir (n : nat).

Definition serve (q : request) (x : dfs W * streams) : res (Z * (dfs W * streams)) :=
  let '(s, ds) := x in
  match q with
  | Call c => '(r, s) ← do_call c s; Ok (r, (s, ds))
  | Opendir path => '(d, s) ← opendir ops_of path s;
      Ok (match d with Some d => (d_fd d, (s, ds ++ [Some d])) | None => (-1, (s, ds)) end)
  | Closedir n => d ← of_option OutOfBounds (ds !! n); '(r, d, s) ← closedir ops_of d s; Ok (r, (s, <[n := d]> ds))
  end.

(** Only a stream that has been opened and not yet been freed is closed. *)
Definition may (q : request) (x : dfs W * streams) : Prop :=
  match q with
  | Call c => allowed c x.1
  | Opendir p => ∃ cs, below x.1 p cs
  | Closedir n => ∃ z, x.2 !! n = Some (Some z)
  end.

Definition reply (q : request) (b : list bool) (ds : streams) (r e : Z) (b' : list bool) (ds' : streams) : Prop :=
  match q with
  | Call c => answer c b r e b' ∧ ds' = ds
  | Opendir _ => (r = -1 ∧ b' = b ∧ ds' = ds) ∨
      ∃ i, first_free b 0 = Some i ∧ r = Z.of_nat i ∧ b' = <[i := true]> b ∧ ds' = ds ++ [Some (new_dir r)]
  | Closedir n => ∀ z, ds !! n = Some (Some z) →
      if is_open b (d_fd z) then b' = <[Z.to_nat (d_fd z) := false]> b ∧ ds' = <[n := None]> ds
      else r = -1 ∧ e = - DFS_STATUS_EBADF ∧ b' = b ∧ ds' = ds
  end.

(** Call after call, each allowed where it is made, until a driver does not return,
    if that is admitted. *)
Fixpoint runs (outside_stops : bool) (qs : list request) (x : dfs W * streams) : Prop :=
  match qs with
  | [] => True
  | q :: qs => may q x →
      (outside_stops = true ∧ serve q x = Stop External) ∨
      ∃ r x', serve q x = Ok (r, x') ∧ reply q (opens x.1) x.2 r (errno x'.1) (opens x'.1) x'.2 ∧ runs outside_stops qs x'
  end.

(** The call returns with its answer and the invariant. *)
Definition answers c s (m : res (Z * dfs W)) : Prop :=
  ∃ r s', m = Ok (r, s') ∧ dinv s' ∧ answer c (opens s) r (errno s') (opens s').

(** A call on a descriptor, with what [g] makes of its result. *)
Lemma fd_answers {A} c fd (F : dfs_fd → dfs W → res (A * dfs_fd * dfs W)) (g : option A → dfs W → Z * dfs W) s :
  dinv s → file_call F → (∀ b r e b', answer c b r e b' ↔ b' = b ∧ (is_open b fd = false → r = -1 ∧ e = - DFS_STATUS_EBADF)) →
  (∀ s, g None s = (-1, s)) → (∀ a s, ∃ e, (g (Some a) s).2 = s ∨ (g (Some a) s).2 = rt_set_errno e s) →
  answers c s ('(r, s) ← with_fd fd F s; Ok (g r s)).
Proof.
  intros Hs HF Hc Hnone Hsome. destruct (with_fd_safe fd F s Hs HF) as (r & s1 & -> & Hd1 & Ho1 & Hclosed). step.
  destruct r as [a|].
  - destruct (g (Some a) s1) as [x s2] eqn:Eg. exists x, s2. destruct (Hsome a s1) as [e He]. rewrite Eg in He. simpl in He.
    assert (Ho : is_open (opens s) fd = true) by (destruct (is_open (opens s) fd) eqn:E; [done|]; by destruct Hclosed).
    destruct (after_same s1 s2 (opens s)) as [Hd2 Ho2]; [destruct He as [->| ->]; [done|apply same_errno]|done|].
    split; [done|]. split; [done|]. apply Hc. split; [done|]. by rewrite Ho.
  - rewrite Hnone. exists (-1), s1. split; [done|]. split; [done|]. apply Hc. split; [done|]. intros H. by destruct (Hclosed H).
Qed.

Lemma posix_errno r s : ∃ e, (posix r s).2 = s ∨ (posix r s).2 = rt_set_errno e s.
Proof. unfold posix. exists r. destruct (r <? 0); [by right|by left]. Qed.

Lemma reports_answers c s m : reports s m → (∀ b r e, answer c b r e b) → answers c s m.
Proof. intros (r & s' & -> & Hd & Ho) Hc. exists r, s'. split; [done|]. split; [done|]. rewrite Ho. apply Hc. Qed.

Lemma reports_then s (m : res (Z * dfs W)) (g : Z → dfs W → Z * dfs W) : reports s m → (∀ r s, ∃ e, (g r s).2 = s ∨ (g r s).2 = rt_set_errno e s) →
  reports s ('(r, s) ← m; Ok (g r s)).
Proof.
  intros (r & s1 & -> & Hd & Ho) Hg. step. destruct (Hg r s1) as [e He]. destruct (g r s1) as [x s2]. simpl in He.
  exists x, s2. split; [done|]. apply (after_same s1); [destruct He as [->| ->]; [done|apply same_errno]|done].
Qed.

Lemma read_answers fd len s : dinv s → answers (Cread fd len) s ('(_, r, s) ← read ops_of fd len s; Ok (r, s)).
Proof.
  intros Hs. pose proof (fd_answers (Cread fd len) fd (λ d s, '(buf, r, d, s) ← dfs_file_read ops_of d len s; Ok ((buf, r), d, s))
    (λ r s, posix_fd (snd <$> r) s) s Hs (dfs_file_read_call ops_of len)) as H.
  destruct H as (r & s' & E & H); [done|done|intros [buf r] s1; apply posix_errno|]. exists r, s'. split; [|exact H]. rewrite <- E. unfold read.
  destruct (with_fd _ _ _) as [[v s1]|]; [|done]. step. by destruct (posix_fd (snd <$> v) s1).
Qed.

Lemma call_answers c s : dinv s → allowed c s → answers c s (do_call c s).
Proof.
  intros Hs Ha. destruct c; simpl in Ha |- *.
  - destruct Ha as [cs Hb]. by apply (open_safe ops_of file cs flags).
  - by apply close_safe.
  - by apply read_answers.
  - unfold write. apply (fd_answers (Cwrite fd buf) fd (λ d s, dfs_file_write ops_of d buf s) (λ r s, posix_fd r s));
      [done|apply (dfs_file_write_call ops_of)|done|done|intros; apply posix_errno].
  - unfold lseek. eapply (fd_answers (Clseek fd offset whence) fd _ (λ r s, posix_fd r s));
      [done|apply (lseek_call ops_of)|done|done|intros; apply posix_errno].
  - unfold fsync. apply (fd_answers (Cfsync fd) fd (dfs_file_flush ops_of) (λ r s, (default (-1) r, s))); [done|apply (dfs_file_flush_call ops_of)|done|done|].
    intros. exists 0. by left.
  - unfold ioctl. apply (fd_answers (Cioctl fd cmd data) fd (λ d s, dfs_file_ioctl ops_of d cmd data s)
      (λ r s, match r with None => (-1, s) | Some r => if r =? 0 then (r, s) else (-1, rt_set_errno r s) end)); [done|apply (dfs_file_ioctl_call ops_of)|done|done|].
    intros a s1. exists a. destruct (a =? 0); [by left|by right].
  - destruct Ha as (cs & ds & Hb & Hb' & Hl). destruct (dfs_file_rename_safe ops_of old new cs ds s (di_mounts s Hs) Hb Hb' Hl) as (r & s1 & E & Hs1).
    apply reports_answers; [|done]. unfold rename. rewrite E. apply (reports_then s _ (λ r s, if r <? 0 then (-1, rt_set_errno r s) else (0, s))); [by apply reports_same|].
    intros r' s'. exists r'. destruct (r' <? 0); [by right|by left].
  - destruct Ha as [[cs Hb] Hk]. destruct (dfs_file_unlink_safe ops_of path cs s (di_mounts s Hs) Hb Hk) as (r & s1 & E & Hs1).
    apply reports_answers; [|done]. unfold unlink. rewrite E. apply (reports_then s _ (λ r s, if r <? 0 then (-1, rt_set_errno r s) else (0, s))); [by apply reports_same|].
    intros r' s'. exists r'. destruct (r' <? 0); [by right|by left].
  - destruct Ha as [cs Hb]. destruct (dfs_file_stat_safe ops_of path cs s (di_mounts s Hs) Hb) as (r & buf & s1 & -> & Hs1). step.
    apply reports_answers; [|done]. by apply reports_same.
  - destruct Ha as [cs Hb]. destruct (mkdir_safe ops_of path cs s Hs Hb) as (r & s1 & E & Hd & Ho & Hr). by exists r, s1.
  - destruct Ha as (cs & Hb & Hlen). destruct (chdir_safe path cs s Hs Hb Hlen) as (r & s1 & E & Hd & Ho & Hr). by exists r, s1.
  - destruct Ha as [[cs Hb] Ht]. apply reports_answers; [|done]. by apply (dfs_mount_safe junk dev path cs).
  - destruct Ha as (cs & Hb & Hu). apply reports_answers; [|done]. by apply (dfs_unmount_safe path cs).
  - destruct Ha as (cs & -> & Hcs). apply reports_answers; [|done]. by apply dfs_statfs_safe.
  - apply reports_answers; [|done]. by apply dfs_mkfs_safe.
Qed.

Lemma dfs_init_dinv (w : W) : dinv (dfs_init true w).
Proof.
  constructor; [done| | |by exists []].
  - repeat constructor.
  - repeat constructor.
Qed.

Lemma serve_replies q x : dinv x.1 → may q x →
  ∃ r x', serve q x = Ok (r, x') ∧ dinv x'.1 ∧ reply q (opens x.1) x.2 r (errno x'.1) (opens x'.1) x'.2.
Proof.
  destruct x as [s ds]. intros Hs Ha. destruct q as [c|path|n]; simpl in *.
  - destruct (call_answers c s Hs Ha) as (r & s' & -> & Hd & H). step. by eexists r, (s', ds).
  - destruct Ha as [cs Hb]. destruct (opendir_safe ops_of path cs s Hs Hb) as (d & s' & -> & Hd & Ho). step.
    destruct d as [d|]; eexists _, _; (split; [done|]); (split; [done|]); simpl in *; [|by left].
    destruct Ho as (i & Hi & -> & Hb'). right. by exists i.
  - destruct Ha as [z Hn]. rewrite Hn. step. destruct (closedir_safe ops_of z s Hs) as (r & z' & s' & -> & Hd & Hc). step.
    eexists r, (s', _). split; [done|]. split; [done|]. simpl. intros z1 Hz1. assert (z1 = z) as -> by congruence. destruct (is_open _ _).
    + by destruct Hc as [-> ->].
    + destruct Hc as (-> & -> & -> & ->). split_and!; [done..|]. by apply list_insert_id.
Qed.

Lemma put_types_dinv t s : dinv s → dinv (put_types t s).
Proof.
  intros [H1 H2 H3 H4]. constructor; [done| |done|done]. eapply Forall_impl; [exact H2|]. intros d. by apply fd_ok_mounts.
Qed.

Lemma runs_safe qs : ∀ x, dinv x.1 → runs false qs x.
Proof.
  induction qs as [|q qs IH]; intros x Hx; [done|]. intros Ha. right.
  destruct (serve_replies q x Hx Ha) as (r & x' & E & Hd & H). exists r, x'. split; [done|]. split; [done|]. by apply IH.
Qed.
End calls.

(** ** Any drivers *)
Section any_drivers.
Context {W : Type} (B : BlockDevices W) (ops_of : nat → fs_operation W).
Local Abbreviation outer := (λ o, adapt outside (ops_of o)).
Local Abbreviation inner := (λ o, adapt granted (ops_of o)).
Local Abbreviation outerB := (adapt_devices outside B).
Local Abbreviation innerB := (adapt_devices granted B).

Lemma granted_drivers : DriversReturn inner.
Proof.
  split; intros; simplify_eq/=; match goal with H : _ <$> ?g = Some _ |- _ => destruct g; simplify_eq/= end;
    match goal with |- returns (granted _ _ ?m) => destruct m; by eexists end.
Qed.
Lemma granted_devices : @DevicesReturn W innerB.
Proof. split; intros; cbn; match goal with |- returns (granted _ _ ?m) => destruct m; by eexists end. Qed.

Lemma upto_call c s : upto (@do_call W outerB outer c s) (@do_call W innerB inner c s).
Proof.
  destruct c; cbn [do_call]; try (by apply upto_refl);
    try (apply upto_bind; [|intros [[? ?] ?]; apply upto_refl]);
    first [ apply upto_posix_open | apply upto_posix_close | apply upto_posix_read | apply upto_posix_write | apply upto_posix_lseek
          | apply upto_posix_fsync | apply upto_posix_ioctl | apply upto_posix_rename | apply upto_posix_unlink | apply upto_stat
          | apply upto_mkdir | apply upto_chdir | apply upto_mount | apply upto_unmount | apply upto_statfs | apply upto_mkfs ].
Qed.

Lemma upto_serve q x : upto (@serve W outerB outer q x) (@serve W innerB inner q x).
Proof.
  destruct x as [s ds]. destruct q as [c|path|n]; cbn [serve].
  - apply upto_bind; [apply upto_call|intros [? ?]; apply upto_refl].
  - apply upto_bind; [apply upto_opendir|intros [? ?]; apply upto_refl].
  - apply upto_bind; [apply upto_refl|intros d]. apply upto_bind; [apply upto_closedir|intros [[? ?] ?]; apply upto_refl].
Qed.

Lemma runs_outside qs : ∀ x, dinv x.1 → @runs W outerB outer true qs x.
Proof.
  induction qs as [|q qs IH]; intros x Hx; [done|]. intros Ha. pose proof granted_drivers. pose proof granted_devices.
  destruct (@serve_replies W innerB _ inner _ q x Hx Ha) as (r & x' & E & Hd & H').
  destruct (upto_serve q x) as [Eq|Eq]; [right|by left]. exists r, x'. rewrite Eq. split; [done|]. split; [done|]. by apply IH.
Qed.
End any_drivers.


(** ** An example: a driver that grants everything *)
Module Demo.
Definition fs_name : list Z := [120].
Definition grant (d : dfs_fd) (w : unit) : res (Z * fd_info * unit) := Ok (0, fd_inf d, w).
Definition granting : fs_operation unit := mk_op unit fs_name 0
  (Some (λ _ _ _ w, Ok (0, 0, w))) (Some (λ _ w, Ok (0, w))) None (Some (λ _ w, Ok (0, [], w)))
  (Some (λ _, grant)) (Some (λ _, grant)) None (Some (λ _ d n w, Ok (n, [], fd_inf d, w))) (Some (λ _ d b w, Ok (Z.of_nat (length b), fd_inf d, w)))
  None None None (Some (λ _ _ w, Ok (0, w))) None None.
Definition no_device : BlockDevices unit := {| device_find _ _ := None; device_open _ w := Ok (0, w); device_close _ w := Ok (0, w) |}.
#[local] Existing Instance no_device.

Lemma granting_returns : DriversReturn (λ _, granting).
Proof. split; intros; simplify_eq/=; by eexists. Qed.
Lemma no_device_returns : DevicesReturn unit.
Proof. split; intros; by eexists. Qed.

Definition start : dfs unit := put_types [Some 0%nat; None; None; None] (dfs_init true tt).

(** Mounting at [/], opening [/a], writing, changing to [/b], closing twice. *)
Definition some_calls : list request :=
  [Call (Cmount no_fd None [slash] fs_name 0 0); Call (Copen [slash; 97] 0); Call (Cwrite 0 [1; 2; 3]); Call (Cchdir [98]);
   Opendir [slash; 99]; Call (Cclose 0); Call (Cclose 0); Closedir 0].

Fixpoint serve_all (qs : list request) (x : dfs unit * streams) : res (list Z * (dfs unit * streams)) :=
  match qs with
  | [] => Ok ([], x)
  | q :: qs => '(r, x) ← serve (λ _, granting) q x; '(rs, x) ← serve_all qs x; Ok (r :: rs, x)
  end.
Definition do_calls (cs : list call) (s : dfs unit) : res (list Z * dfs unit) :=
  '(rs, x) ← serve_all (Call <$> cs) (s, []); Ok (rs, x.1).

Lemma root_below (s : dfs unit) : working_directory s = Some [slash] → below s [slash] [].
Proof. intros H. exists []. split; [done|]. split; [constructor|]. split; [by repeat constructor|done]. Qed.


(** A stream is closed twice: the second time the memory has been freed. *)
Lemma closedir_twice : match serve_all [Call (Cmount no_fd None [slash] fs_name 0 0); Opendir [slash]; Closedir 0; Closedir 0] (start, []) with
  | Ok _ => False
  | Stop w => w = NullDeref
  end.
Proof. vm_compute; reflexivity. Qed.

(** [dfs_mount] looks for the text of the caller, not for the normal path: [//] is
    mounted twice, where the second [/] is refused. *)
Lemma mount_twice :
  match do_calls [Cmount no_fd None [slash; slash] fs_name 0 0; Cmount no_fd None [slash; slash] fs_name 0 0] start with
  | Ok (rs, s) => (rs, map fs_path (filesystem_table s)) = ([0; 0], [Some [slash]; Some [slash]])
  | Stop _ => False
  end ∧
  match do_calls [Cmount no_fd None [slash] fs_name 0 0; Cmount no_fd None [slash] fs_name 0 0] start with
  | Ok (rs, s) => (rs, errno s) = ([0; -1], - DFS_STATUS_EINVAL)
  | Stop _ => False
  end.
Proof. split; vm_compute; reflexivity. Qed.

(** [dfs_unmount] does not look at the open files: the next read follows the null
    pointer in the entry that was cleared. *)
Lemma read_after_unmount :
  do_calls [Cmount no_fd None [slash] fs_name 0 0; Copen [slash; 97] 0; Cunmount [slash]; Cread 0 1] start = Stop NullDeref.
Proof. vm_compute; reflexivity. Qed.

(** Renaming where nothing is mounted: the two null pointers are equal. *)
Lemma rename_unmounted : do_calls [Crename [slash; 97] [slash; 98]] start = Stop NullDeref.
Proof. vm_compute; reflexivity. Qed.
End Demo.

(** ** What the calls do where they are not allowed *)
Section divergences.
Context {W : Type} `{!BlockDevices W}.
Context (ops_of : nat → fs_operation W).

(** [dfs_mount] of an unknown type of file system follows the null pointer of the first
    free entry. *)
Lemma mount_unknown_type junk s p ty rw data : filesystem_operation_table s = replicate DFS_FILESYSTEM_TYPES_MAX None →
  dfs_mount ops_of junk None p ty rw data s = Stop NullDeref.
Proof. intros H. unfold dfs_mount. by rewrite H. Qed.

(** [dfs_register] with a full table answers 0 and registers nothing. *)
Lemma register_full o a b c d s : filesystem_operation_table s = [Some a; Some b; Some c; Some d] →
  Forall (λ x, op_name (ops_of x) ≠ op_name (ops_of o)) [a; b; c; d] → dfs_register ops_of o s = (0, s).
Proof.
  intros H Hn. unfold dfs_register. rewrite H. cbn [register_loop].
  repeat (apply Forall_cons in Hn as [Hx Hn]; rewrite (bool_decide_eq_false_2 _ Hx); clear Hx). done.
Qed.
End divergences.
