(* ===== verification/RamFs.v ===== *)
(** * The RAM file system: [components/dfs/filesystems/ramfs/dfs_ramfs.c]

    A driver of the device file system.  The entries of the one directory are
    structures in a memory pool with an intrusive list through them; here they are
    in a map by address, with the list of addresses beside it.  The data of an entry
    is a block of the pool; an allocation of the pool succeeds as the oracle
    [pool_room] says, and the bytes of a new block are [fresh]. *)
From S2P Require Import Prelude KObject DfsPath Dfs.
Local Open Scope Z_scope.

Definition RAMFS_NAME_MAX : nat := 32.
Definition DFS_STATUS_EIO : Z := 5.
Definition DFS_STATUS_EEXIST : Z := 17.
Definition DFS_O_WRONLY : Z := 1.
Definition DFS_O_TRUNC : Z := 0x1000.
Definition DFS_O_APPEND : Z := 0x2000.
Definition DFS_DT_REG : Z := 1.
Definition DIRENT_SIZE : Z := 260.   (** [sizeof(struct dirent)] *)

Record ramfs_dirent := mk_dirent { de_name : list Z; de_data : option (list Z); de_size : Z }.

Record dfs_ramfs := mk_ramfs {
  entries : gmap Z ramfs_dirent;   (** the root entry too *)
  order : list Z;                  (** the list from [root.list.next] on *)
  next_entry : Z;                  (** the address of the next entry *)
  pool_room : list bool;           (** the next allocations succeed; [[]]: all do *)
  pool_errno : Z }.                (** what the driver gave to [rt_set_errno] *)

Definition set_entries m w := mk_ramfs m (order w) (next_entry w) (pool_room w) (pool_errno w).
Definition set_order l w := mk_ramfs (entries w) l (next_entry w) (pool_room w) (pool_errno w).
Definition set_pool_errno e w := mk_ramfs (entries w) (order w) (next_entry w) (pool_room w) e.
Definition pool_alloc (w : dfs_ramfs) : bool * dfs_ramfs :=
  match pool_room w with [] => (true, w) | b :: r => (b, mk_ramfs (entries w) (order w) (next_entry w) r (pool_errno w)) end.

(** [&(ramfs->root)]. *)
Definition ROOT : Z := 1.

(** A name in its array, filled up with zeros ([strncpy]). *)
Definition name_field (n : list Z) : list Z := take RAMFS_NAME_MAX (n ++ replicate RAMFS_NAME_MAX 0).

(** [dfs_ramfs_create]: the root entry. *)
Definition dfs_ramfs_create : dfs_ramfs :=
  mk_ramfs {[ROOT := mk_dirent (name_field [dot]) None 0]} [] 2 [] 0.

Section ramfs.
Context (fresh : nat → Z).

Definition entry (a : Z) (w : dfs_ramfs) : res ramfs_dirent := of_option NullDeref (entries w !! a).
Definition put_entry (a : Z) (e : ramfs_dirent) (w : dfs_ramfs) : dfs_ramfs := set_entries (<[a := e]> (entries w)) w.

(** [rt_strcmp(dirent->name, subpath) == 0]; a name of 32 bytes has no zero. *)
Fixpoint same_name (field sub : list Z) : res bool :=
  match field with
  | [] => Stop OutOfBounds
  | c :: field =>
      match sub with
      | [] => Ok (c =? 0)
      | x :: sub => if c =? x then same_name field sub else Ok false
      end
  end.

Fixpoint find_entry (l : list Z) (sub : list Z) (w : dfs_ramfs) : res (option Z) :=
  match l with
  | [] => Ok None
  | a :: l =>
      e ← entry a w;
      b ← same_name (de_name e) sub;
      if b : bool then Ok (Some a) else find_entry l sub w
  end.

Definition dfs_ramfs_lookup (path : option (list Z)) (w : dfs_ramfs) : res (option Z) :=
  path ← of_option NullDeref path;
  match strip path with
  | [] => Ok (Some ROOT)
  | subpath => find_entry (order w) subpath w
  end.

(** [data] is the RAM file system, or null. *)
Definition dfs_ramfs_mount (f : dfs_filesystem) (rwflag data : Z) (w : dfs_ramfs) : res (Z * Z * dfs_ramfs) :=
  if data =? 0 then Ok (- DFS_STATUS_EIO, fs_data f, w) else Ok (0, data, w).
Definition dfs_ramfs_unmount (f : dfs_filesystem) (w : dfs_ramfs) : res (Z * dfs_ramfs) := Ok (0, w).

Definition dfs_ramfs_ioctl (f : dfs_filesystem) (d : dfs_fd) (cmd args : Z) (w : dfs_ramfs) : res (Z * fd_info * dfs_ramfs) :=
  Ok (- DFS_STATUS_EIO, fd_inf d, w).

Definition file_entry (d : dfs_fd) (w : dfs_ramfs) : res ramfs_dirent :=
  _ ← rt_assert (negb (fi_data (fd_inf d) =? 0)); entry (fi_data (fd_inf d)) w.

(** [memcpy] out of and into a block. *)
Definition copy_out (b : option (list Z)) (pos n : Z) : res (list Z) :=
  b ← of_option NullDeref b;
  _ ← require OutOfBounds ((0 <=? pos) && (pos + n <=? Z.of_nat (length b)));
  Ok (take (Z.to_nat n) (drop (Z.to_nat pos) b)).
Definition copy_in (b : option (list Z)) (pos : Z) (buf : list Z) : res (list Z) :=
  b ← of_option NullDeref b;
  _ ← require OutOfBounds ((0 <=? pos) && (pos + Z.of_nat (length buf) <=? Z.of_nat (length b)));
  Ok (take (Z.to_nat pos) b ++ buf ++ drop (Z.to_nat pos + length buf) b).

Definition dfs_ramfs_read (f : dfs_filesystem) (d : dfs_fd) (count : Z) (w : dfs_ramfs) : res (Z * list Z * fd_info * dfs_ramfs) :=
  e ← file_entry d w;
  let i := fd_inf d in
  let left := u32 (fi_size i - fi_pos i) in
  let length := if count <? left then count else left in
  buf ← (if 0 <? length then copy_out (de_data e) (fi_pos i) length else Ok []);
  Ok (s32 length, buf, mk_info (fi_flags i) (fi_size i) (s32 (fi_pos i + length)) (fi_data i), w).

(** [rt_memheap_realloc]: the old bytes, then new ones. *)
Definition resize (n : Z) (b : option (list Z)) : list Z :=
  let old := default [] b in
  take (Z.to_nat n) old ++ (fresh <$> seq (length old) (Z.to_nat n - length old)).

Definition dfs_ramfs_write (f : dfs_filesystem) (d : dfs_fd) (buf : list Z) (w : dfs_ramfs) : res (Z * fd_info * dfs_ramfs) :=
  _ ← rt_assert (negb (fs_data f =? 0));
  e ← file_entry d w;
  let i := fd_inf d in
  let count := Z.of_nat (length buf) in
  let '(ok, e, i, w) :=
    if fi_size i <? u32 (count + fi_pos i) then
      let n := u32 (fi_pos i + count) in
      let '(room, w) := pool_alloc w in
      if room then (true, mk_dirent (de_name e) (Some (resize n (de_data e))) n, mk_info (fi_flags i) n (fi_pos i) (fi_data i), w)
      else (false, e, i, w)
    else (true, e, i, w) in
  if negb (ok : bool) then Ok (0, i, set_pool_errno (-5) w)   (* -RT_ENOMEM *)
  else
    data ← (if 0 <? count then b ← copy_in (de_data e) (fi_pos i) buf; Ok (Some b) else Ok (de_data e));
    Ok (s32 count, mk_info (fi_flags i) (fi_size i) (s32 (fi_pos i + count)) (fi_data i),
        put_entry (fi_data i) (mk_dirent (de_name e) data (de_size e)) w).

Definition dfs_ramfs_lseek (f : dfs_filesystem) (d : dfs_fd) (offset : Z) (w : dfs_ramfs) : res (Z * fd_info * dfs_ramfs) :=
  let i := fd_inf d in
  if offset <=? s32 (fi_size i) then Ok (offset, mk_info (fi_flags i) (fi_size i) offset (fi_data i), w)
  else Ok (- DFS_STATUS_EIO, i, w).

Definition dfs_ramfs_close (f : dfs_filesystem) (d : dfs_fd) (w : dfs_ramfs) : res (Z * fd_info * dfs_ramfs) :=
  let i := fd_inf d in Ok (0, mk_info (fi_flags i) (fi_size i) (fi_pos i) 0, w).

(** A new entry, at the front of the list; [None]: no memory. *)
Definition create_entry (path : list Z) (w : dfs_ramfs) : option Z * dfs_ramfs :=
  let '(room, w) := pool_alloc w in
  if room then
    let a := next_entry w in
    (Some a, mk_ramfs (<[a := mk_dirent (name_field (strip path)) None 0]> (entries w)) (a :: order w) (a + 1) (pool_room w) (pool_errno w))
  else (None, w).

Definition flag (flags bits : Z) : bool := negb (Z.land flags bits =? 0).

(** The entry that is opened, or an error. *)
Definition open_entry (d : dfs_fd) (w : dfs_ramfs) : res ((Z + Z) * dfs_ramfs) :=
  let flags := fi_flags (fd_inf d) in
  if flag flags DFS_O_DIRECTORY then
    if flag flags DFS_O_CREAT then Ok (inr (- DFS_STATUS_ENOSPC), w)
    else
      a ← dfs_ramfs_lookup (fd_path d) w;
      match a with None => Ok (inr (- DFS_STATUS_ENOENT), w) | Some a => Ok (inl a, w) end
  else
    found ← dfs_ramfs_lookup (fd_path d) w;
    if bool_decide (found = Some ROOT) then Ok (inr (- DFS_STATUS_ENOENT), w)
    else
      '(r, w) ← (match found with
        | Some a => Ok (inl a, w)
        | None =>
            if flag flags DFS_O_CREAT || flag flags DFS_O_WRONLY then
              path ← of_option NullDeref (fd_path d);
              let '(a, w) := create_entry path w in
              Ok (match a with Some a => inl a | None => inr (- DFS_STATUS_ENOMEM) end, w)
            else Ok (inr (- DFS_STATUS_ENOENT), w)
        end);
      match r with
      | inr e => Ok (inr e, w)
      | inl a =>
          if flag flags DFS_O_TRUNC then
            e ← entry a w; Ok (inl a, put_entry a (mk_dirent (de_name e) None 0) w)
          else Ok (inl a, w)
      end.

Definition dfs_ramfs_open (f : dfs_filesystem) (d : dfs_fd) (w : dfs_ramfs) : res (Z * fd_info * dfs_ramfs) :=
  _ ← rt_assert (negb (fs_data f =? 0));
  '(r, w) ← open_entry d w;
  match r with
  | inr e => Ok (e, fd_inf d, w)
  | inl a =>
      e ← entry a w;
      let flags := fi_flags (fd_inf d) in
      Ok (0, mk_info flags (de_size e) (if flag flags DFS_O_APPEND then s32 (de_size e) else 0) a, w)
  end.

(** [st_size] in the buffer; the other fields are constants. *)
Definition dfs_ramfs_stat (f : dfs_filesystem) (path : list Z) (w : dfs_ramfs) : res (Z * list Z * dfs_ramfs) :=
  _ ← require NullDeref (negb (fs_data f =? 0));
  a ← dfs_ramfs_lookup (Some path) w;
  match a with
  | None => Ok (- DFS_STATUS_ENOENT, [], w)
  | Some a => e ← entry a w; Ok (0, [de_size e], w)
  end.

(** One [struct dirent]: type, name length, record length, then the name; the
    rest of [d_name] keeps what the buffer had, here [fresh]. *)
Definition dirent_bytes (e : ramfs_dirent) : list Z :=
  [DFS_DT_REG; 10; 4; 1] ++ de_name e ++ (fresh <$> seq 0 224).

(** The loop over the entries [l]: [index] of the first, up to [end], from [pos] on. *)
Fixpoint getdents_loop (l : list Z) (index end_ pos : Z) (w : dfs_ramfs) : res (list Z * Z * Z) :=
  match l with
  | [] => Ok ([], 0, pos)
  | a :: l =>
      if index <? end_ then
        e ← entry a w;
        if u32 pos <=? index then
          '(bytes, n, pos) ← getdents_loop l (index + 1) end_ (pos + 1) w; Ok (dirent_bytes e ++ bytes, n + 1, pos)
        else getdents_loop l (index + 1) end_ pos w
      else Ok ([], 0, pos)
  end.

Definition dfs_ramfs_getdents (f : dfs_filesystem) (d : dfs_fd) (count : Z) (w : dfs_ramfs) : res (Z * list Z * fd_info * dfs_ramfs) :=
  let i := fd_inf d in
  if negb (fi_data i =? ROOT) then Ok (- DFS_STATUS_EINVAL, [], i, w)
  else
    let count := count / DIRENT_SIZE in
    if count =? 0 then Ok (- DFS_STATUS_EINVAL, [], i, w)
    else
      '(bytes, n, pos) ← getdents_loop (order w) 0 (u32 (fi_pos i + count)) (fi_pos i) w;
      Ok (n * DIRENT_SIZE, bytes, mk_info (fi_flags i) (fi_size i) pos (fi_data i), w).

(** The root entry lies in no block of the pool: giving it back fails the assertion
    of [rt_memheap_free] on the header before it. *)
Definition dfs_ramfs_unlink (f : dfs_filesystem) (path : list Z) (w : dfs_ramfs) : res (Z * dfs_ramfs) :=
  _ ← rt_assert (negb (fs_data f =? 0));
  a ← dfs_ramfs_lookup (Some path) w;
  match a with
  | None => Ok (- DFS_STATUS_ENOENT, w)
  | Some a =>
      _ ← rt_assert (negb (a =? ROOT));
      Ok (0, set_order (filter (λ x, x ≠ a) (order w)) (set_entries (delete a (entries w)) w))
  end.

(** The name is [newpath], with its ['/']. *)
Definition dfs_ramfs_rename (f : dfs_filesystem) (oldpath newpath : option (list Z)) (w : dfs_ramfs) : res (Z * dfs_ramfs) :=
  _ ← rt_assert (negb (fs_data f =? 0));
  a ← dfs_ramfs_lookup newpath w;
  match a with
  | Some _ => Ok (- DFS_STATUS_EEXIST, w)
  | None =>
      a ← dfs_ramfs_lookup oldpath w;
      match a with
      | None => Ok (- DFS_STATUS_ENOENT, w)
      | Some a =>
          e ← entry a w;
          newpath ← of_option NullDeref newpath;
          Ok (0, put_entry a (mk_dirent (name_field newpath) (de_data e) (de_size e)) w)
      end
  end.

(** [f_bsize], [f_blocks] and [f_bfree] from the sizes of the pool. *)
Definition dfs_ramfs_statfs (pool_size : Z) (available_size : dfs_ramfs → Z) (f : dfs_filesystem) (w : dfs_ramfs) : res (Z * list Z * dfs_ramfs) :=
  _ ← rt_assert (negb (fs_data f =? 0));
  Ok (0, [512; pool_size / 512; available_size w / 512], w).

(** [_ramfs]: no [mkfs] and no [flush]. *)
Definition ramfs (pool_size : Z) (available_size : dfs_ramfs → Z) : fs_operation dfs_ramfs :=
  mk_op dfs_ramfs [114; 97; 109] 0
    (Some dfs_ramfs_mount) (Some dfs_ramfs_unmount) None (Some (dfs_ramfs_statfs pool_size available_size))
    (Some dfs_ramfs_open) (Some dfs_ramfs_close) (Some dfs_ramfs_ioctl) (Some dfs_ramfs_read) (Some dfs_ramfs_write)
    None (Some dfs_ramfs_lseek) (Some dfs_ramfs_getdents) (Some dfs_ramfs_unlink) (Some dfs_ramfs_stat) (Some dfs_ramfs_rename).
End ramfs.
