(* ===== verification/RamFsProps.v ===== *)
(** * The RAM file system under the POSIX calls

    A file that is open on a RAM file system is its bytes and a position: reading,
    writing and seeking through the descriptor do to the entry in the pool what the
    same operations do to them, and to no other file. *)
From S2P Require Import Prelude KObject DfsPath Dfs DfsProps DfsSafe RamFs.
Local Open Scope Z_scope.

(** ** Files as bytes *)

Record file := mk_file { bytes : list Z; pos : nat }.

Inductive fop := Fread (len : Z) | Fwrite (buf : list Z) | Fseek (offset whence : Z).

(** Where a seek is to go. *)
Definition target (offset whence : Z) (F : file) : Z :=
  if whence =? 1 then offset + Z.of_nat (pos F) else if whence =? 2 then offset + Z.of_nat (length (bytes F)) else offset.

Definition overwrite (p : nat) (buf l : list Z) : list Z := take p l ++ buf ++ drop (p + length buf) l.

(** The bytes that are read, the answer, and the file after it. *)
Definition file_step (c : fop) (F : file) (out : list Z) (r : Z) (F' : file) : Prop :=
  match c with
  | Fread n => out = take (Z.to_nat n) (drop (pos F) (bytes F)) ∧ r = Z.of_nat (length out) ∧ F' = mk_file (bytes F) (pos F + length out)
  | Fwrite buf => out = [] ∧
      ((r = Z.of_nat (length buf) ∧ F' = mk_file (overwrite (pos F) buf (bytes F)) (pos F + length buf)) ∨
       (r = 0 ∧ F' = F ∧ (length (bytes F) < pos F + length buf)%nat))
  | Fseek offset whence => out = [] ∧
      let t := target offset whence F in
      if (0 <=? whence) && (whence <=? 2) && (0 <=? t) && (t <=? Z.of_nat (length (bytes F)))
      then r = t ∧ F' = mk_file (bytes F) (Z.to_nat t) else r = -1 ∧ F' = F
  end.

(** The machine's [int]s hold the sizes. *)
Definition fop_fits (c : fop) (F : file) : Prop :=
  match c with
  | Fread n => 0 <= n < 2 ^ 31
  | Fwrite buf => Z.of_nat (length (bytes F) + length buf) < 2 ^ 31
  | Fseek offset _ => - 2 ^ 31 <= offset < 2 ^ 31
  end.

Section props.
Context (fresh : nat → Z) (pool_size : Z) (available_size : dfs_ramfs → Z).
Context `{!BlockDevices dfs_ramfs} (ops_of : nat → fs_operation dfs_ramfs).
Implicit Types (s : dfs dfs_ramfs) (w : dfs_ramfs) (d : dfs_fd) (F : file).

(** The entry [a] holds [l]. *)
Definition holds (e : ramfs_dirent) (l : list Z) : Prop :=
  de_size e = Z.of_nat (length l) ∧ match de_data e with None => l = [] | Some b => b = l end.

(** What [d] says of the entry [a] with the file [F]. *)
Record fd_file (i : fd_info) (a : Z) (w : dfs_ramfs) (F : file) : Prop := {
  ff_data : fi_data i = a;
  ff_nonzero : a ≠ 0;
  ff_entry : ∃ e, entries w !! a = Some e ∧ holds e (bytes F);
  ff_size : fi_size i = Z.of_nat (length (bytes F));
  ff_pos : fi_pos i = Z.of_nat (pos F);
  ff_le : (pos F <= length (bytes F))%nat;
  ff_max : Z.of_nat (length (bytes F)) < 2 ^ 31 }.

(** Only the entry [a] differs, and it has its name. *)
Record others_kept (a : Z) (w w' : dfs_ramfs) : Prop := {
  ok_others : ∀ x, x ≠ a → entries w' !! x = entries w !! x;
  ok_name : de_name <$> entries w' !! a = de_name <$> entries w !! a;
  ok_order : order w' = order w;
  ok_next : next_entry w' = next_entry w }.

#[global] Instance others_refl a : Reflexive (others_kept a).
Proof. by constructor. Qed.
#[global] Instance others_trans a : Transitive (others_kept a).
Proof. intros w1 w2 w3 [] []. constructor; [|congruence..]. intros x Hx. by rewrite ok_others1, ok_others0. Qed.

Lemma file_entry_ok d w a F : fd_file (fd_inf d) a w F → ∃ e, file_entry d w = Ok e ∧ entries w !! a = Some e ∧ holds e (bytes F).
Proof.
  intros [Hd Hz (e & He & Hh) _ _ _ _]. exists e. split; [|done]. unfold file_entry, entry. rewrite Hd, (proj2 (Z.eqb_neq _ _)) by done.
  by rewrite He.
Qed.

(** ** The driver *)

Lemma u32_small n : 0 <= n < 2 ^ 32 → u32 n = n.
Proof. intros. unfold u32. by apply Z.mod_small. Qed.

Lemma s32_small n : 0 <= n < 2 ^ 31 → s32 n = n.
Proof. intros. unfold s32. cbv zeta. rewrite u32_small, (proj2 (Z.ltb_lt _ _)) by lia. done. Qed.

Lemma ramfs_read_step f d w a F n : fd_file (fd_inf d) a w F → 0 <= n < 2 ^ 31 →
  let out := take (Z.to_nat n) (drop (pos F) (bytes F)) in
  ∃ i', dfs_ramfs_read f d n w = Ok (Z.of_nat (length out), out, i', w) ∧ fd_file i' a w (mk_file (bytes F) (pos F + length out)).
Proof.
  intros Hf Hn out. destruct (file_entry_ok _ _ _ _ Hf) as (e & E & He & Hh). destruct Hf as [Hd Hz Hentry Hs Hp Hle Hmax].
  unfold dfs_ramfs_read. rewrite E. step. rewrite Hs, Hp. rewrite u32_small by lia.
  set (left := Z.of_nat (length (bytes F)) - Z.of_nat (pos F)). set (len := if n <? left then n else left).
  assert (Hlen : len = Z.of_nat (length out)).
  { unfold len, left, out. rewrite length_take, length_drop. destruct (n <? _) eqn:El; [apply Z.ltb_lt in El|apply Z.ltb_ge in El]; lia. }
  assert (Hout : (length out <= length (bytes F) - pos F)%nat) by (unfold out; rewrite length_take, length_drop; lia).
  assert (Hcopy : (if 0 <? len then copy_out (de_data e) (Z.of_nat (pos F)) len else Ok []) = Ok out).
  { destruct (0 <? len) eqn:E0.
    - apply Z.ltb_lt in E0. destruct Hh as [_ Hb]. unfold copy_out. destruct (de_data e) as [b|].
      + subst b. step. unfold require. rewrite (proj2 (Z.leb_le 0 _)), (proj2 (Z.leb_le _ _)) by lia. step. rewrite Nat2Z.id.
        f_equal. unfold out. rewrite Hlen, Nat2Z.id. unfold out at 1. rewrite length_take, length_drop.
        destruct (decide (Z.to_nat n <= length (bytes F) - pos F)%nat); [by rewrite Nat.min_l by lia|].
        rewrite Nat.min_r by lia. rewrite !take_ge by (rewrite length_drop; lia). done.
      + exfalso. rewrite Hb in Hout. simpl in Hout. lia.
    - apply Z.ltb_ge in E0. destruct out; [done|simpl in Hlen; lia]. }
  rewrite Hcopy. step. rewrite Hlen, !s32_small by lia. eexists. split; [done|].
  constructor; cbn [bytes pos fi_data fi_size fi_pos]; try done; lia.
Qed.

Lemma length_overwrite p buf l : (p <= length l)%nat → length (overwrite p buf l) = Nat.max (length l) (p + length buf).
Proof. intros H. unfold overwrite. rewrite !length_app, length_take, length_drop. lia. Qed.

Lemma copy_in_overwrite b p buf : (p + length buf <= length b)%nat → copy_in (Some b) (Z.of_nat p) buf = Ok (overwrite p buf b).
Proof.
  intros H. unfold copy_in. step. unfold require. rewrite (proj2 (Z.leb_le 0 _)), (proj2 (Z.leb_le _ _)) by lia. step. by rewrite Nat2Z.id.
Qed.

(** Writing into the grown block. *)
Lemma overwrite_resize n p buf l data : match data with None => l = [] | Some b => b = l end → (p <= length l)%nat →
  n = Z.of_nat (p + length buf) → (length l < p + length buf)%nat →
  length (resize fresh n data) = (p + length buf)%nat ∧ overwrite p buf (resize fresh n data) = overwrite p buf l.
Proof.
  intros Hb Hp -> Hl. unfold resize. rewrite Nat2Z.id. assert (default [] data = l) as -> by by destruct data.
  rewrite take_ge by lia. assert (Hlen : length (l ++ (fresh <$> seq (length l) (p + length buf - length l))) = (p + length buf)%nat).
  { rewrite length_app, length_fmap, length_seq. lia. }
  split; [done|]. unfold overwrite. rewrite take_app_le by done. rewrite (drop_ge (_ ++ _)), (drop_ge l) by lia. done.
Qed.

Lemma pool_alloc_kept a w : others_kept a w (pool_alloc w).2 ∧ entries (pool_alloc w).2 = entries w.
Proof. unfold pool_alloc. by destruct (pool_room w). Qed.

Lemma put_entry_kept a e e0 w : entries w !! a = Some e0 → de_name e = de_name e0 → others_kept a w (put_entry a e w).
Proof.
  intros H Hn. constructor; [|cbn|done|done].
  - intros x Hx. cbn. by rewrite lookup_insert_ne.
  - by rewrite lookup_insert_eq, H; simpl; f_equal.
Qed.

(** The entry after a write of all bytes. *)
Lemma fd_file_written fi_new e' w1 w a F buf flags : others_kept a w w1 → a ≠ 0 → entries w1 !! a = entries w !! a → (∃ e0, entries w !! a = Some e0 ∧ de_name e' = de_name e0) →
  (pos F <= length (bytes F))%nat → Z.of_nat (length (bytes F) + length buf) < 2 ^ 31 → de_size e' = Z.of_nat (length (overwrite (pos F) buf (bytes F))) →
  fi_new = de_size e' →
  let data := Some (overwrite (pos F) buf (bytes F)) in
  let w' := put_entry a (mk_dirent (de_name e') data (de_size e')) w1 in
  fd_file (mk_info flags fi_new (s32 (Z.of_nat (pos F) + Z.of_nat (length buf))) a) a w' (mk_file (overwrite (pos F) buf (bytes F)) (pos F + length buf)) ∧ others_kept a w w'.
Proof.
  intros Hk Hz Hsame (e0 & He0 & Hn) Hle Hmax Hsize Hfi. pose proof (length_overwrite (pos F) buf (bytes F) Hle) as Hlen. cbv zeta. split.
  - constructor; cbn [bytes pos fi_data fi_size fi_pos]; [done|done| |by rewrite Hfi, Hsize| |lia|lia].
    + eexists. cbn. rewrite lookup_insert_eq. split; [done|]. by split.
    + rewrite s32_small by lia. lia.
  - transitivity w1; [done|]. apply (put_entry_kept a _ e0); [by rewrite Hsame|done].
Qed.

Lemma ramfs_write_step f d w a F buf : fd_file (fd_inf d) a w F → fs_data f ≠ 0 → Z.of_nat (length (bytes F) + length buf) < 2 ^ 31 →
  ∃ r i' w' F', dfs_ramfs_write fresh f d buf w = Ok (r, i', w') ∧ file_step (Fwrite buf) F [] r F' ∧ fd_file i' a w' F' ∧ others_kept a w w' ∧
    (pool_room w = [] → r = Z.of_nat (length buf) ∧ pool_room w' = []).
Proof.
  intros Hf Hfs Hmax. destruct (file_entry_ok _ _ _ _ Hf) as (e & E & He & Hsz & Hdata). pose proof Hf as [Hd Hz _ Hs Hp Hle _].
  assert (Hall : ∀ flags fi_new e' w1, others_kept a w w1 → entries w1 = entries w → de_name e' = de_name e →
    de_size e' = Z.of_nat (length (overwrite (pos F) buf (bytes F))) → fi_new = de_size e' →
    let w' := put_entry a (mk_dirent (de_name e') (Some (overwrite (pos F) buf (bytes F))) (de_size e')) w1 in
    fd_file (mk_info flags fi_new (s32 (Z.of_nat (pos F) + Z.of_nat (length buf))) a) a w' (mk_file (overwrite (pos F) buf (bytes F)) (pos F + length buf)) ∧ others_kept a w w').
  { intros flags fi_new e' w1 Hk Hw1 Hn Hsz' Hfi. apply fd_file_written; try done; [by rewrite Hw1|by exists e]. }
  unfold dfs_ramfs_write. rewrite (proj2 (Z.eqb_neq _ _)) by done. unfold rt_assert, require. cbn [negb]. step. rewrite E. step. rewrite Hs, Hp.
  rewrite !u32_small by lia. pose proof (length_overwrite (pos F) buf (bytes F) Hle) as Hlen.
  destruct (pool_alloc_kept a w) as [Hk Hent]. assert (Hroom : pool_room w = [] → pool_alloc w = (true, w)) by (intros Hr; unfold pool_alloc; by rewrite Hr).
  destruct (Z.of_nat (length (bytes F)) <? Z.of_nat (length buf) + Z.of_nat (pos F)) eqn:Eg.
  - apply Z.ltb_lt in Eg. destruct (pool_alloc w) as [room w1] eqn:Ea. simpl in Hk, Hent. destruct room; cbn [negb].
    + rewrite (proj2 (Z.ltb_lt 0 _)) by (destruct buf; simpl in *; lia). cbn [de_data de_name de_size fi_pos fi_flags fi_data fi_size]. rewrite ?Hp.
      destruct (overwrite_resize (Z.of_nat (pos F) + Z.of_nat (length buf)) (pos F) buf (bytes F) (de_data e)) as [Hl1 Hl2]; [done|lia|lia|lia|].
      rewrite copy_in_overwrite by lia. step. rewrite Hl2, s32_small by lia.
      destruct (Hall (fi_flags (fd_inf d)) (Z.of_nat (pos F) + Z.of_nat (length buf)) (mk_dirent (de_name e) (Some (resize fresh (Z.of_nat (pos F) + Z.of_nat (length buf)) (de_data e))) (Z.of_nat (pos F) + Z.of_nat (length buf))) w1) as [H1 H2]; [done|done|done|cbn; lia|done|].
      rewrite Hd. eexists _, _, _, _. split; [done|]. split; [split; [done|by left]|]. split; [exact H1|]. split; [exact H2|].
      intros Hr. split; [done|]. specialize (Hroom Hr). by injection Hroom as ->.
    + eexists _, _, _, F. split; [done|]. split; [split; [done|right; split; [done|split; [done|lia]]]|]. split.
      * destruct Hf as [_ _ (e0 & He0 & Hh0) _ _ _ Hm]. constructor; try done. exists e0. by rewrite <- Hent in He0.
      * split; [by destruct Hk|]. intros Hr. by specialize (Hroom Hr).
  - apply Z.ltb_ge in Eg. cbn [negb]. destruct (0 <? Z.of_nat (length buf)) eqn:E0.
    + apply Z.ltb_lt in E0. destruct (de_data e) as [b|]; [|exfalso; rewrite Hdata in Eg; simpl in Eg; lia]. subst b.
      rewrite ?Hp, copy_in_overwrite by lia. step. rewrite s32_small by lia.
      destruct (Hall (fi_flags (fd_inf d)) (fi_size (fd_inf d)) e w) as [H1 H2]; [done|done|done|rewrite Hsz; lia|by rewrite Hs, Hsz|].
      rewrite Hd. eexists _, _, _, _. split; [done|]. split; [split; [done|by left]|]. split; [exact H1|]. by split.
    + apply Z.ltb_ge in E0. destruct buf; [|simpl in E0; lia]. step. eexists _, _, _, (mk_file (bytes F) (pos F)). split; [done|].
      assert (Hsame : put_entry a (mk_dirent (de_name e) (de_data e) (de_size e)) w = w).
      { unfold put_entry, set_entries. replace (mk_dirent _ _ _) with e by by destruct e. rewrite insert_id by done. by destruct w. }
      rewrite Hd, Hsame. cbn [length]. split.
      { split; [done|]. left. split; [done|]. unfold overwrite. simpl. rewrite Nat.add_0_r, take_drop. done. }
      split; [|by split]. constructor; cbn [bytes pos fi_data fi_size fi_pos]; [done|done|by exists e|done| |done|lia].
      rewrite ?Hp, s32_small by lia. lia.
Qed.

(** [dfs_file_lseek] gives the driver the offset; it may move up to the end. *)
Lemma ramfs_seek_step f d w a F offset : fd_file (fd_inf d) a w F → 0 <= offset →
  if offset <=? Z.of_nat (length (bytes F))
  then ∃ i', dfs_ramfs_lseek f d offset w = Ok (offset, i', w) ∧ fd_file i' a w (mk_file (bytes F) (Z.to_nat offset))
  else dfs_ramfs_lseek f d offset w = Ok (- DFS_STATUS_EIO, fd_inf d, w).
Proof.
  intros [Hd Hz Hentry Hs Hp Hle Hmax] Ho. unfold dfs_ramfs_lseek. rewrite Hs, s32_small by lia.
  destruct (offset <=? _) eqn:E; [|done]. apply Z.leb_le in E. eexists. split; [done|].
  constructor; cbn [bytes pos fi_data fi_size fi_pos]; try done; lia.
Qed.

(** ** The calls on a descriptor *)

(** The descriptor [fd] of [s] is open on the entry [a] of a RAM file system with the file [F]. *)
Record on_ramfs (fd : Z) (s : dfs dfs_ramfs) (a : Z) (F : file) : Prop := {
  or_len : length (fd_table s) = DFS_FD_MAX;
  or_fd : 0 <= fd;
  or_at : ∃ d m f o, fd_table s !! Z.to_nat fd = Some d ∧ fd_magic d = DFS_FD_MAGIC ∧ ref_count d = 1 ∧ fd_fs d = Some m ∧
    filesystem_table s !! m = Some f ∧ fs_ops f = Some o ∧ ops_of o = ramfs fresh pool_size available_size ∧ fs_data f ≠ 0 ∧
    fd_file (fd_inf d) a (world s) F }.

Definition do_fop (c : fop) (fd : Z) (s : dfs dfs_ramfs) : res (list Z * Z * dfs dfs_ramfs) :=
  match c with
  | Fread n => read ops_of fd n s
  | Fwrite buf => '(r, s) ← write ops_of fd buf s; Ok ([], r, s)
  | Fseek offset whence => '(r, s) ← lseek ops_of fd offset whence s; Ok ([], r, s)
  end.

(** [with_fd] around a call that changes the descriptor and the world. *)
Lemma with_fd_at {A} fd d (G : dfs_fd → dfs dfs_ramfs → res (A * dfs_fd * dfs dfs_ramfs)) s r d' w :
  length (fd_table s) = DFS_FD_MAX → 0 <= fd → fd_table s !! Z.to_nat fd = Some d → fd_magic d = DFS_FD_MAGIC → ref_count d = 1 → ref_count d' = 2 →
  (let s1 := put_fd (Z.to_nat fd) (set_ref 2 d) s in G (set_ref 2 d) s1 = Ok (r, d', put_world w s1)) →
  with_fd fd G s = Ok (Some r, put_world w (put_fd (Z.to_nat fd) (set_ref 1 d') s)).
Proof.
  intros Hlen Hfd Hd Hm Hr Hr' HG. pose proof (lookup_lt_Some _ _ _ Hd) as Hlt. rewrite Hlen in Hlt. unfold DFS_FD_MAX in *.
  unfold with_fd, fd_get. rewrite (proj2 (Z.ltb_ge _ 0)), (proj2 (Z.leb_gt (Z.of_nat DFS_FD_MAX) _)) by (unfold DFS_FD_MAX; lia). cbn [orb]. cbv zeta.
  assert (Hget : get_fd (Z.to_nat fd) s = Ok d) by (unfold get_fd; by rewrite Hd). rewrite Hget. step. rewrite Hm, Z.eqb_refl. cbn [negb]. step. rewrite Hr. change (1 + 1) with 2.
  rewrite get_put by lia. step. cbv zeta in HG. rewrite HG. step. rewrite fd_put_put by (cbn; rewrite length_insert; lia). step.
  unfold dropped. rewrite Hr'. cbn [Z.eqb Z.sub]. change (2 - 1) with 1. change (2 =? 1) with false. cbv iota.
  do 2 f_equal. unfold put_fd, put_fds, put_world. cbn. by rewrite list_insert_insert_eq.
Qed.

(** The state after the call. *)
Lemma on_ramfs_after fd s a F d m f o d' w' F' :
  length (fd_table s) = DFS_FD_MAX → 0 <= fd → fd_table s !! Z.to_nat fd = Some d → fd_magic d = DFS_FD_MAGIC → fd_fs d = Some m →
  filesystem_table s !! m = Some f → fs_ops f = Some o → ops_of o = ramfs fresh pool_size available_size → fs_data f ≠ 0 →
  like (set_ref 2 d) d' → fd_file (fd_inf d') a w' F' →
  on_ramfs fd (put_world w' (put_fd (Z.to_nat fd) (set_ref 1 d') s)) a F'.
Proof.
  intros Hlen Hfd Hd Hm Hfs Hf Ho Hops Hz (H1 & _ & H3) HF. pose proof (lookup_lt_Some _ _ _ Hd) as Hlt.
  constructor; [cbn; by rewrite length_insert|done|]. exists (set_ref 1 d'), m, f, o. cbn. rewrite list_lookup_insert_eq by done.
  split; [done|]. split; [by rewrite H1|]. split; [done|]. split; [by rewrite H3|]. done.
Qed.

(** From [s] to [s'] only the descriptor [fd], the entry [a], the memory of the pool
    and the error number change. *)
Record only_file (fd a : Z) (s s' : dfs dfs_ramfs) : Prop := {
  of_fds : ∀ j, j ≠ Z.to_nat fd → fd_table s' !! j = fd_table s !! j;
  of_mounts : filesystem_table s' = filesystem_table s;
  of_dir : working_directory s' = working_directory s;
  of_room : heap_room s' = heap_room s;
  of_world : others_kept a (world s) (world s') }.

Lemma only_after fd a s w d e : others_kept a (world s) w →
  only_file fd a s (put_world w (put_fd (Z.to_nat fd) d s)) ∧ only_file fd a s (rt_set_errno e (put_world w (put_fd (Z.to_nat fd) d s))).
Proof. intros Hk. split; constructor; try done; intros j Hj; cbn; by rewrite list_lookup_insert_ne. Qed.

Lemma on_ramfs_errno fd s a F e : on_ramfs fd s a F → on_ramfs fd (rt_set_errno e s) a F.
Proof. intros [H1 H2 H3]. by constructor. Qed.

(** The start of a call on the file. *)
Lemma ramfs_of d s m f o : fd_fs d = Some m → filesystem_table s !! m = Some f → fs_ops f = Some o → ops_of o = ramfs fresh pool_size available_size →
  fs_of d s = Ok f ∧ get_mount m s = Ok f ∧ get_ops ops_of f = Ok (ramfs fresh pool_size available_size).
Proof. intros Hd Hm Ho Hops. unfold fs_of, get_mount, get_ops. rewrite Hd. step. rewrite Hm, Ho. step. by rewrite Hops. Qed.

Lemma info_set_ref n d : fd_inf (set_ref n d) = fd_inf d.
Proof. done. Qed.

Definition step_result (c : fop) (fd a : Z) (s : dfs dfs_ramfs) (F : file) : Prop :=
  ∃ out r s' F', do_fop c fd s = Ok (out, r, s') ∧ file_step c F out r F' ∧ on_ramfs fd s' a F' ∧ only_file fd a s s' ∧
    (pool_room (world s) = [] → pool_room (world s') = [] ∧ match c with Fwrite buf => r = Z.of_nat (length buf) | _ => True end).

Lemma read_step n fd a s F : on_ramfs fd s a F → 0 <= n < 2 ^ 31 → step_result (Fread n) fd a s F.
Proof.
  intros [Hlen Hfd (d & m & f & o & Hd & Hm & Hr & Hfs & Hf & Ho & Hops & Hz & HF)] Hn.
  destruct (ramfs_read_step f (set_ref 2 d) (world s) a F n HF Hn) as (i' & E & HF').
  set (out := take (Z.to_nat n) (drop (pos F) (bytes F))) in *.
  set (s1 := put_fd (Z.to_nat fd) (set_ref 2 d) s). destruct (ramfs_of (set_ref 2 d) s1 m f o Hfs Hf Ho Hops) as (E1 & _ & E2).
  assert (Hcall : dfs_file_read ops_of (set_ref 2 d) n s1 = Ok (out, Z.of_nat (length out), set_info i' (set_ref 2 d), put_world (world s) s1)).
  { unfold dfs_file_read. rewrite E1. step. rewrite E2. step. cbn [ramfs op_read]. change (world s1) with (world s). rewrite E. step.
    by rewrite (proj2 (Z.ltb_ge _ 0)) by lia. }
  eexists out, _, _, _. split.
  { unfold do_fop, read. rewrite (with_fd_at fd d (λ d s, '(buf, r, d, s) ← dfs_file_read ops_of d n s; Ok ((buf, r), d, s)) s
      (out, Z.of_nat (length out)) (set_info i' (set_ref 2 d)) (world s) Hlen Hfd Hd Hm Hr eq_refl) by (cbv zeta; fold s1; by rewrite Hcall).
    step. cbn [fmap option_fmap option_map snd posix_fd from_option fst]. unfold posix. rewrite (proj2 (Z.ltb_ge _ 0)) by lia. done. }
  split; [done|]. split; [by apply (on_ramfs_after fd s a F d m f o)|]. split; [by apply (only_after fd a s _ _ 0)|done].
Qed.

Lemma write_step buf fd a s F : on_ramfs fd s a F → Z.of_nat (length (bytes F) + length buf) < 2 ^ 31 → step_result (Fwrite buf) fd a s F.
Proof.
  intros [Hlen Hfd (d & m & f & o & Hd & Hm & Hr & Hfs & Hf & Ho & Hops & Hz & HF)] Hn.
  destruct (ramfs_write_step f (set_ref 2 d) (world s) a F buf HF Hz Hn) as (r & i' & w' & F' & E & Hstep & HF' & Hk & Hroom).
  set (s1 := put_fd (Z.to_nat fd) (set_ref 2 d) s). destruct (ramfs_of (set_ref 2 d) s1 m f o Hfs Hf Ho Hops) as (E1 & _ & E2).
  assert (Hcall : dfs_file_write ops_of (set_ref 2 d) buf s1 = Ok (r, set_info i' (set_ref 2 d), put_world w' s1)).
  { unfold dfs_file_write. rewrite E1. step. rewrite E2. step. cbn [ramfs op_write]. change (world s1) with (world s). rewrite E. done. }
  assert (Hpos : 0 <= r) by (destruct Hstep as (_ & [[-> _]|[-> _]]); lia).
  eexists [], r, _, F'. split.
  { unfold do_fop, write. rewrite (with_fd_at fd d _ s r (set_info i' (set_ref 2 d)) w' Hlen Hfd Hd Hm Hr eq_refl Hcall). step. cbn [posix_fd]. unfold posix. rewrite (proj2 (Z.ltb_ge _ 0)) by lia. done. }
  split; [done|]. split; [by apply (on_ramfs_after fd s a F d m f o)|]. split; [by apply (only_after fd a s _ _ 0)|].
  intros H. by destruct (Hroom H).
Qed.

(** The offset the code computes: it wraps only beyond the end of every file. *)
Lemma target_wraps t n : - 2 ^ 31 <= t < 2 ^ 32 - 1 → 0 <= n < 2 ^ 31 → if (0 <=? t) && (t <=? n) then s32 t = t else s32 t < 0 ∨ n < s32 t.
Proof.
  intros Ht Hn. unfold s32, u32. cbv zeta. destruct (0 <=? t) eqn:E1, (t <=? n) eqn:E2; simpl;
    rewrite ?Z.leb_le, ?Z.leb_gt in *; case_bools; lia.
Qed.

Definition code_offset (offset whence : Z) (i : fd_info) : Z :=
  if whence =? 1 then s32 (offset + fi_pos i) else if whence =? 2 then s32 (offset + fi_size i) else offset.

Lemma code_offset_target offset whence i a w F : fd_file i a w F → - 2 ^ 31 <= offset < 2 ^ 31 →
  let t := target offset whence F in
  if (0 <=? t) && (t <=? Z.of_nat (length (bytes F))) then code_offset offset whence i = t
  else code_offset offset whence i < 0 ∨ Z.of_nat (length (bytes F)) < code_offset offset whence i.
Proof.
  intros [_ _ _ Hs Hp Hle Hmax] Ho. unfold target, code_offset. rewrite Hs, Hp. cbv zeta.
  destruct (whence =? 1); [apply target_wraps; lia|]. destruct (whence =? 2); [apply target_wraps; lia|].
  destruct (0 <=? offset) eqn:E1, (offset <=? _) eqn:E2; simpl; rewrite ?Z.leb_le, ?Z.leb_gt in *; lia.
Qed.

Lemma put_world_id (s : dfs dfs_ramfs) : put_world (world s) s = s.
Proof. by destruct s. Qed.

(** A seek that is refused leaves the descriptor. *)
Lemma seek_refused e fd a s F G d : on_ramfs fd s a F → fd_table s !! Z.to_nat fd = Some d → e < 0 →
  (let s1 := put_fd (Z.to_nat fd) (set_ref 2 d) s in G (set_ref 2 d) s1 = Ok (e, set_ref 2 d, s1)) →
  ∃ s', with_fd fd G s = Ok (Some e, s') ∧ on_ramfs fd (rt_set_errno e s') a F ∧ only_file fd a s (rt_set_errno e s') ∧ world s' = world s.
Proof.
  intros [Hlen Hfd (d' & m & f & o & Hd' & Hm & Hr & Hfs & Hf & Ho & Hops & Hz & HF)] Hd He HG. assert (d' = d) as -> by congruence.
  eexists. split.
  { apply (with_fd_at fd d G s e (set_ref 2 d) (world s) Hlen Hfd Hd Hm Hr eq_refl). cbv zeta in HG |- *.
    set (s1 := put_fd _ _ s) in *. change (world s) with (world s1). by rewrite put_world_id. }
  split; [apply on_ramfs_errno; by apply (on_ramfs_after fd s a F d m f o)|]. split; [by apply only_after|done].
Qed.

(** [lseek] on the descriptor. *)
Definition seek_call (offset whence : Z) (d : dfs_fd) (s : dfs dfs_ramfs) : res (Z * dfs_fd * dfs dfs_ramfs) :=
  let t := code_offset offset whence (fd_inf d) in
  if negb ((0 <=? whence) && (whence <=? 2)) || (t <? 0) then Ok (- DFS_STATUS_EINVAL, d, s)
  else '(r, d, s) ← dfs_file_lseek ops_of d t s; Ok (if r <? 0 then r else t, d, s).

(** The driver's answer through [dfs_file_lseek]. *)
Lemma lseek_driver d s m f o t r i' : fd_fs d = Some m → filesystem_table s !! m = Some f → fs_ops f = Some o →
  ops_of o = ramfs fresh pool_size available_size → dfs_ramfs_lseek f d t (world s) = Ok (r, i', world s) →
  dfs_file_lseek ops_of d t s = Ok (r, if 0 <=? r then set_pos r (set_info i' d) else set_info i' d, s).
Proof.
  intros Hfs Hf Ho Hops E. destruct (ramfs_of d s m f o Hfs Hf Ho Hops) as (_ & E1 & E2). unfold dfs_file_lseek.
  rewrite Hfs, E1. step. rewrite E2. step. cbn [ramfs op_lseek]. rewrite E. step. by rewrite put_world_id.
Qed.

Lemma seek_accepted t fd a s F offset whence : on_ramfs fd s a F → 0 <= whence <= 2 → 0 <= t <= Z.of_nat (length (bytes F)) →
  (∀ d, fd_table s !! Z.to_nat fd = Some d → code_offset offset whence (fd_inf d) = t) →
  ∃ s', with_fd fd (seek_call offset whence) s = Ok (Some t, s') ∧ on_ramfs fd s' a (mk_file (bytes F) (Z.to_nat t)) ∧ only_file fd a s s' ∧ world s' = world s.
Proof.
  intros [Hlen Hfd (d & m & f & o & Hd & Hm & Hr & Hfs & Hf & Ho & Hops & Hz & HF)] Hwh Ht Hcode. specialize (Hcode d Hd).
  pose proof (ramfs_seek_step f (set_ref 2 d) (world s) a F t HF (proj1 Ht)) as Hs. rewrite (proj2 (Z.leb_le _ _)) in Hs by lia.
  destruct Hs as (i' & E & HF'). set (s1 := put_fd (Z.to_nat fd) (set_ref 2 d) s). set (d' := set_pos t (set_info i' (set_ref 2 d))).
  assert (HF2 : fd_file (fd_inf d') a (world s) (mk_file (bytes F) (Z.to_nat t))).
  { destruct HF' as [? ? ? ? ? ? ?]. constructor; cbn [bytes pos] in *; try done. cbn. lia. }
  eexists. split.
  { apply (with_fd_at fd d _ s t d' (world s) Hlen Hfd Hd Hm Hr eq_refl). cbv zeta. fold s1. unfold seek_call.
    change (code_offset offset whence (fd_inf (set_ref 2 d))) with (code_offset offset whence (fd_inf d)). rewrite Hcode.
    rewrite (proj2 (Z.leb_le 0 whence)), (proj2 (Z.leb_le whence 2)), (proj2 (Z.ltb_ge t 0)) by lia. cbn [negb andb orb].
    rewrite (lseek_driver (set_ref 2 d) s1 m f o t t i' Hfs Hf Ho Hops E), (proj2 (Z.leb_le 0 t)) by lia. step.
    rewrite (proj2 (Z.ltb_ge t 0)) by lia. change (world s) with (world s1). by rewrite put_world_id. }
  split; [by apply (on_ramfs_after fd s a F d m f o)|]. split; [by apply (only_after fd a s _ _ 0)|done].
Qed.

Lemma seek_out_of_range fd a s F offset whence : on_ramfs fd s a F →
  (∀ d, fd_table s !! Z.to_nat fd = Some d → let t := code_offset offset whence (fd_inf d) in
     (0 <= whence <= 2 → t < 0 ∨ Z.of_nat (length (bytes F)) < t)) →
  ∃ e s', e < 0 ∧ with_fd fd (seek_call offset whence) s = Ok (Some e, s') ∧ on_ramfs fd (rt_set_errno e s') a F ∧ only_file fd a s (rt_set_errno e s') ∧ world s' = world s.
Proof.
  intros Hon Hcode. pose proof Hon as [Hlen Hfd (d & m & f & o & Hd & Hm & Hr & Hfs & Hf & Ho & Hops & Hz & HF)]. specialize (Hcode d Hd). cbv zeta in Hcode.
  set (t := code_offset offset whence (fd_inf d)) in *.
  destruct (negb ((0 <=? whence) && (whence <=? 2)) || (t <? 0)) eqn:Eb.
  - exists (- DFS_STATUS_EINVAL). destruct (seek_refused (- DFS_STATUS_EINVAL) fd a s F (seek_call offset whence) d Hon Hd) as (s' & H); [done| |by exists s'].
    cbv zeta. unfold seek_call. change (code_offset offset whence (fd_inf (set_ref 2 d))) with t. by rewrite Eb.
  - apply orb_false_iff in Eb as [Ew Et]. apply Z.ltb_ge in Et. apply negb_false_iff, andb_true_iff in Ew as [Ew1%Z.leb_le Ew2%Z.leb_le].
    destruct Hcode as [?|Hcode]; [lia|lia|]. pose proof (ramfs_seek_step f (set_ref 2 d) (world s) a F t HF Et) as Hs.
    rewrite (proj2 (Z.leb_gt _ _)) in Hs by lia.
    exists (- DFS_STATUS_EIO). destruct (seek_refused (- DFS_STATUS_EIO) fd a s F (seek_call offset whence) d Hon Hd) as (s' & H); [done| |by exists s'].
    cbv zeta. unfold seek_call. change (code_offset offset whence (fd_inf (set_ref 2 d))) with t.
    rewrite (proj2 (Z.leb_le 0 whence)), (proj2 (Z.leb_le whence 2)), (proj2 (Z.ltb_ge t 0)) by lia. cbn [negb andb orb].
    by rewrite (lseek_driver (set_ref 2 d) (put_fd (Z.to_nat fd) (set_ref 2 d) s) m f o t (- DFS_STATUS_EIO) (fd_inf d) Hfs Hf Ho Hops Hs).
Qed.

Lemma seek_step offset whence fd a s F : on_ramfs fd s a F → - 2 ^ 31 <= offset < 2 ^ 31 → step_result (Fseek offset whence) fd a s F.
Proof.
  intros Hon Hoff. assert (Hcode : ∀ d, fd_table s !! Z.to_nat fd = Some d → let t := target offset whence F in
    if (0 <=? t) && (t <=? Z.of_nat (length (bytes F))) then code_offset offset whence (fd_inf d) = t
    else code_offset offset whence (fd_inf d) < 0 ∨ Z.of_nat (length (bytes F)) < code_offset offset whence (fd_inf d)).
  { destruct Hon as [_ _ (d & m & f & o & Hd & _ & _ & _ & _ & _ & _ & _ & HF)]. intros d' Hd'. assert (d' = d) as -> by congruence.
    by apply (code_offset_target offset whence (fd_inf d) a (world s)). }
  cbv zeta in Hcode. unfold step_result, do_fop, lseek. set (t := target offset whence F) in *. change (λ d s, _) with (seek_call offset whence).
  destruct ((0 <=? whence) && (whence <=? 2) && (0 <=? t) && (t <=? Z.of_nat (length (bytes F)))) eqn:Ev.
  - apply andb_true_iff in Ev as [[[Hw1 Hw2]%andb_true_iff Hv1]%andb_true_iff Hv2]. rewrite Hv1, Hv2 in Hcode. apply Z.leb_le in Hw1, Hw2, Hv1, Hv2.
    destruct (seek_accepted t fd a s F offset whence Hon) as (s' & E & H1 & H2 & H3); [lia|lia|exact Hcode|].
    exists [], t, s', (mk_file (bytes F) (Z.to_nat t)). rewrite E. step. cbn [posix_fd]. unfold posix. rewrite (proj2 (Z.ltb_ge _ 0)) by lia.
    split; [done|]. split; [split; [done|]; cbv zeta; fold t; by rewrite !(proj2 (Z.leb_le _ _)) by lia|]. split; [done|]. split; [done|]. rewrite H3. done.
  - destruct (seek_out_of_range fd a s F offset whence Hon) as (e & s' & He & E & H1 & H2 & H3).
    { intros d Hd. cbv zeta. intros Hw. specialize (Hcode d Hd). rewrite !(proj2 (Z.leb_le _ _)) in Ev by lia. cbn [andb] in Ev. by rewrite Ev in Hcode. }
    exists [], (-1), (rt_set_errno e s'), F. rewrite E. step. cbn [posix_fd]. unfold posix. rewrite (proj2 (Z.ltb_lt e 0)) by done.
    split; [done|]. split; [split; [done|]; cbv zeta; fold t; by rewrite Ev|]. split; [done|]. split; [done|]. cbn. rewrite H3. done.
Qed.

Lemma fop_step c fd a s F : on_ramfs fd s a F → fop_fits c F → step_result c fd a s F.
Proof. destruct c; simpl; [apply read_step|apply write_step|apply seek_step]. Qed.

(** Call after call on the descriptor, each within the sizes. *)
Fixpoint file_runs (cs : list fop) (fd a : Z) (s : dfs dfs_ramfs) (F : file) : Prop :=
  match cs with
  | [] => True
  | c :: cs => fop_fits c F → ∃ out r s' F', do_fop c fd s = Ok (out, r, s') ∧ file_step c F out r F' ∧ only_file fd a s s' ∧ file_runs cs fd a s' F'
  end.

Lemma file_runs_on cs fd a : ∀ s F, on_ramfs fd s a F → file_runs cs fd a s F.
Proof.
  induction cs as [|c cs IH]; intros s F Hon; [done|]. intros Hfit.
  destruct (fop_step c fd a s F Hon Hfit) as (out & r & s' & F' & H1 & H2 & H3 & H4 & _). exists out, r, s', F'. do 3 (split; [done|]). by apply IH.
Qed.
End props.
