(* ===== verification/RamFsStore.v ===== *)
(** * The RAM file system: from [open] to [close]

    Names are found again, new files are made, and what is written to a file of a
    mounted RAM file system is read back through another [open]. *)
From S2P Require Import Prelude KObject DfsPath Dfs DfsProps DfsSafe DfsDrivers RamFs RamFsProps.
Local Open Scope Z_scope.

(** ** Names in their arrays *)

Lemma same_name_field n : ∀ sub, clean n → clean sub → (length n < RAMFS_NAME_MAX)%nat →
  same_name (name_field n) sub = Ok (bool_decide (n = sub)).
Proof.
  unfold name_field. assert (H : ∀ k sub, clean n → clean sub → (length n < k)%nat → same_name (take k (n ++ replicate RAMFS_NAME_MAX 0)) sub = Ok (bool_decide (n = sub)) ∨ (RAMFS_NAME_MAX < k)%nat).
  { induction n as [|c n IH]; intros k sub Hn Hs Hk.
    - destruct k as [|k]; [simpl in Hk; lia|]. left. destruct sub as [|x sub]; [done|]. apply Forall_cons in Hs as [[Hx _] _].
      cbn [app replicate RAMFS_NAME_MAX take same_name]. rewrite (proj2 (Z.eqb_neq 0 x)) by done. by rewrite bool_decide_eq_false_2.
    - destruct k as [|k]; [simpl in Hk; lia|]. destruct (decide (RAMFS_NAME_MAX < S k)%nat); [by right|left].
      apply Forall_cons in Hn as [[Hc _] Hn]. cbn [app take]. destruct sub as [|x sub]; cbn [same_name].
      + rewrite (proj2 (Z.eqb_neq c 0)) by done. by rewrite bool_decide_eq_false_2.
      + apply Forall_cons in Hs as [_ Hs]. destruct (c =? x) eqn:E; [|rewrite bool_decide_eq_false_2; [done|]; intros [= ? _]; by apply Z.eqb_neq in E].
        apply Z.eqb_eq in E. subst x. destruct (IH k sub Hn Hs) as [->|?]; [simpl in Hk; lia| |lia].
        f_equal. apply bool_decide_ext. split; [by intros ->|by intros [= ->]]. }
  intros sub Hn Hs Hl. destruct (H RAMFS_NAME_MAX sub Hn Hs Hl) as [?|?]; [done|lia].
Qed.

Section store.
Context (fresh : nat → Z) (pool_size : Z) (available_size : dfs_ramfs → Z).
Context `{!BlockDevices dfs_ramfs} (ops_of : nat → fs_operation dfs_ramfs).
Implicit Types (s : dfs dfs_ramfs) (w : dfs_ramfs) (d : dfs_fd) (n : list Z).

(** The name of a file. *)
Definition file_name n : Prop := plain n ∧ (length n < RAMFS_NAME_MAX)%nat.

(** The entry at [a] is that of a file. *)
Definition entry_ok w (a : Z) : Prop :=
  a ≠ ROOT ∧ a ≠ 0 ∧ ∃ e n l, entries w !! a = Some e ∧ file_name n ∧ de_name e = name_field n ∧ holds e l ∧ Z.of_nat (length l) < 2 ^ 31.

Record ram_ok w : Prop := {
  ro_entries : Forall (entry_ok w) (order w);
  ro_next : 2 <= next_entry w;
  ro_fresh : Forall (λ a, a < next_entry w) (order w) }.

(** The file [n] is at [a]. *)
Definition found w n (a : Z) : Prop := find_entry (order w) n w = Ok (Some a).

Lemma find_entry_spec w n l : Forall (entry_ok w) l → clean n →
  ∃ r, find_entry l n w = Ok r ∧ match r with Some a => a ∈ l ∧ ∃ e, entries w !! a = Some e ∧ de_name e = name_field n | None => True end.
Proof.
  intros Hl Hn. induction Hl as [|a l (_ & _ & e & m & k & He & [[[Hm _] _] Hlen] & Hname & _) _ IH]; [by exists None|].
  cbn [find_entry]. unfold entry. rewrite He. step. rewrite Hname, same_name_field by done. step. destruct (bool_decide (m = n)) eqn:E.
  - apply bool_decide_eq_true in E. subst m. exists (Some a). split; [done|]. split; [by left|by exists e].
  - destruct IH as (r & -> & Hr). exists r. split; [done|]. destruct r; [|done]. destruct Hr as [? ?]. by split; [right|].
Qed.

Lemma find_entry_kept a w w' n l : others_kept a w w' → find_entry l n w' = find_entry l n w.
Proof.
  intros [Ho Hn _ _]. induction l as [|x l IH]; [done|]. cbn [find_entry]. unfold entry. destruct (decide (x = a)) as [->|Hx].
  - destruct (entries w' !! a) as [e'|], (entries w !! a) as [e|]; try done. injection Hn as Hn. step. by rewrite Hn, IH.
  - by rewrite (Ho x Hx), IH.
Qed.

Lemma found_kept a w w' n x : others_kept a w w' → found w n x → found w' n x.
Proof. intros Hk. unfold found. by rewrite (ok_order _ _ _ Hk), (find_entry_kept a w w'). Qed.

Lemma lookup_file n w : plain n → dfs_ramfs_lookup (Some (show_path [n])) w = find_entry (order w) n w.
Proof.
  intros [Hn _]. unfold dfs_ramfs_lookup. step. cbn [show_path fmap list_fmap concat]. rewrite app_nil_r. cbn [strip].
  rewrite Z.eqb_refl, <- (app_nil_r n), strip_name, app_nil_r by done. destruct Hn as [_ Hne]. by destruct n.
Qed.

Lemma strip_show n : plain n → strip (show_path [n]) = n.
Proof.
  intros [Hn _]. cbn [show_path fmap list_fmap concat]. rewrite app_nil_r. cbn [strip].
  by rewrite Z.eqb_refl, <- (app_nil_r n), strip_name, app_nil_r.
Qed.

(** What is in the file [n]; nothing if there is none. *)
Definition content w n (l : list Z) : Prop :=
  match find_entry (order w) n w with
  | Ok (Some a) => ∃ e, entries w !! a = Some e ∧ holds e l
  | Ok None => l = []
  | Stop _ => False
  end.

(** The file as [open] leaves it. *)
Definition opened_file (flags : Z) (l : list Z) : file :=
  let l := if flag flags DFS_O_TRUNC then [] else l in mk_file l (if flag flags DFS_O_APPEND then length l else 0).

(** The descriptor that the driver fills in. *)
Definition ram_info (flags : Z) (l : list Z) (a : Z) : fd_info :=
  mk_info flags (Z.of_nat (length (bytes (opened_file flags l)))) (Z.of_nat (pos (opened_file flags l))) a.

Lemma ram_info_file flags l a w : a ≠ 0 → Z.of_nat (length l) < 2 ^ 31 → (∃ e, entries w !! a = Some e ∧ holds e (bytes (opened_file flags l))) →
  fd_file (ram_info flags l a) a w (opened_file flags l).
Proof.
  intros Hz Hl He. constructor; try done; cbn; destruct (flag flags DFS_O_TRUNC), (flag flags DFS_O_APPEND); simpl; lia.
Qed.

(** The truncation and the descriptor, once the entry is known. *)
Definition truncated (flags a : Z) (w : dfs_ramfs) : res dfs_ramfs :=
  if flag flags DFS_O_TRUNC then e ← entry a w; Ok (put_entry a (mk_dirent (de_name e) None 0) w) else Ok w.

Lemma truncated_spec flags a w e l : entries w !! a = Some e → holds e l → Z.of_nat (length l) < 2 ^ 31 →
  ∃ w1, truncated flags a w = Ok w1 ∧ (∃ e1, entries w1 !! a = Some e1 ∧ holds e1 (bytes (opened_file flags l)) ∧
      de_size e1 = Z.of_nat (length (bytes (opened_file flags l)))) ∧ others_kept a w w1 ∧ pool_room w1 = pool_room w.
Proof.
  intros He Hh Hl. unfold truncated, opened_file. destruct (flag flags DFS_O_TRUNC).
  - unfold entry. rewrite He. step. eexists. split; [done|]. split; [|split; [by apply (put_entry_kept a _ e)|done]].
    eexists. cbn. rewrite lookup_insert_eq. split; [done|]. by split.
  - exists w. split; [done|]. split; [|done]. exists e. split; [done|]. by destruct Hh.
Qed.

Lemma flag_append flags l a w e1 : Z.of_nat (length l) < 2 ^ 31 → entries w !! a = Some e1 → de_size e1 = Z.of_nat (length (bytes (opened_file flags l))) →
  (e ← entry a w; Ok (0, mk_info flags (de_size e) (if flag flags DFS_O_APPEND then s32 (de_size e) else 0) a, w)) = Ok (0, ram_info flags l a, w).
Proof.
  intros Hl He Hs. unfold entry. rewrite He. step. rewrite Hs. unfold ram_info, opened_file. cbn [bytes pos].
  destruct (flag flags DFS_O_APPEND); [|done]. rewrite s32_small; [done|]. destruct (flag flags DFS_O_TRUNC); simpl; lia.
Qed.

Lemma open_entry_found d w n a : fd_path d = Some (show_path [n]) → plain n → flag (fi_flags (fd_inf d)) DFS_O_DIRECTORY = false →
  found w n a → a ≠ ROOT → open_entry d w = (w ← truncated (fi_flags (fd_inf d)) a w; Ok (inl a, w)).
Proof.
  intros Hp Hn Hdir Hfound Ha. unfold open_entry. rewrite Hdir, Hp, lookup_file by done. rewrite Hfound. step.
  rewrite bool_decide_eq_false_2 by congruence. step. unfold truncated. destruct (flag _ DFS_O_TRUNC); [|done]. by destruct (entry a w).
Qed.

(** The driver's [open] of the file [n] with [flags], whatever the descriptor. *)
Definition opens_as (flags : Z) (n : list Z) (w : dfs_ramfs) (i : fd_info) (w1 : dfs_ramfs) : Prop :=
  ∀ f d, fs_data f ≠ 0 → fd_path d = Some (show_path [n]) → fi_flags (fd_inf d) = flags → dfs_ramfs_open f d w = Ok (0, i, w1).

(** A file that is there. *)
Lemma ramfs_open_found flags w n a e l : plain n → flag flags DFS_O_DIRECTORY = false →
  found w n a → a ≠ ROOT → a ≠ 0 → entries w !! a = Some e → holds e l → Z.of_nat (length l) < 2 ^ 31 →
  ∃ w1, opens_as flags n w (ram_info flags l a) w1 ∧ fd_file (ram_info flags l a) a w1 (opened_file flags l) ∧
    others_kept a w w1 ∧ pool_room w1 = pool_room w.
Proof.
  intros Hn Hdir Hfound Ha Ha0 He Hh Hl. destruct (truncated_spec flags a w e l He Hh Hl) as (w1 & E & (e1 & He1 & Hh1 & Hs1) & Hk & Hr).
  exists w1. split.
  - intros f d Hz Hp Hfl. unfold dfs_ramfs_open. rewrite (proj2 (Z.eqb_neq _ _)) by done. unfold rt_assert, require. cbn [negb]. step.
    rewrite (open_entry_found d w n a), Hfl, E by (by rewrite ?Hfl). step. by apply (flag_append _ _ _ _ e1).
  - split; [|done]. apply ram_info_file; [done|done|by exists e1].
Qed.

(** A new file. *)
Lemma ramfs_open_new flags w n : file_name n → flag flags DFS_O_DIRECTORY = false →
  flag flags DFS_O_CREAT = true → pool_room w = [] → 2 <= next_entry w → find_entry (order w) n w = Ok None →
  let a := next_entry w in
  ∃ w1, opens_as flags n w (ram_info flags [] a) w1 ∧ fd_file (ram_info flags [] a) a w1 (opened_file flags []) ∧
    found w1 n a ∧ (∀ x, x ≠ a → entries w1 !! x = entries w !! x) ∧ order w1 = a :: order w ∧ pool_room w1 = [].
Proof.
  intros Hn Hdir Hcr Hroom Hnext Hnone a. destruct Hn as [Hn Hlen].
  set (w0 := mk_ramfs (<[a := mk_dirent (name_field n) None 0]> (entries w)) (a :: order w) (a + 1) [] (pool_errno w)).
  assert (Ha : entries w0 !! a = Some (mk_dirent (name_field n) None 0)) by (cbn; by rewrite lookup_insert_eq).
  destruct (truncated_spec flags a w0 _ [] Ha) as (w1 & E & (e1 & He1 & Hh1 & Hs1) & Hk & Hr); [by split|done|].
  assert (Hfound : found w0 n a).
  { unfold found. cbn [order w0 find_entry]. unfold entry. rewrite Ha. step. cbn [de_name]. rewrite same_name_field by (first [apply Hn|done]). step.
    by rewrite bool_decide_eq_true_2. }
  exists w1. split; [|split; [|split; [by apply (found_kept a w0)|split; [|by rewrite (ok_order _ _ _ Hk)]]]].
  - intros f d Hz Hp Hfl. unfold dfs_ramfs_open. rewrite (proj2 (Z.eqb_neq _ _)) by done. unfold rt_assert, require. cbn [negb]. step.
    unfold open_entry. rewrite Hfl, Hdir, Hp, lookup_file by done. rewrite Hnone. step. rewrite Hcr. cbn [bool_decide decide_rel orb]. step.
    unfold create_entry, pool_alloc. rewrite Hroom. cbv iota beta zeta. rewrite strip_show by done. step.
    assert (Hrew : (mk_ramfs (<[next_entry w:=mk_dirent (name_field n) None 0]> (entries w)) (next_entry w :: order w) (next_entry w + 1) (pool_room w) (pool_errno w)) = w0) by by rewrite Hroom.
    rewrite Hrew. fold a. unfold truncated in E. destruct (flag flags DFS_O_TRUNC) eqn:Et.
    + destruct (entry a w0) as [e0|] eqn:E0; [|done]. cbn [mbind res_bind] in E |- *. injection E as <-. by apply (flag_append _ _ _ _ e1).
    + injection E as <-. by apply (flag_append _ _ _ _ e1).
  - apply ram_info_file; [unfold a; lia|done|by exists e1].
  - intros x Hx. rewrite (ok_others _ _ _ Hk) by done. cbn. by rewrite lookup_insert_ne.
Qed.

(** ** Through the POSIX calls *)

Lemma first_free_iff b : ∀ i j, first_free b i = Some j ↔ (i <= j)%nat ∧ b !! (j - i)%nat = Some false ∧ ∀ k, (k < j - i)%nat → b !! k = Some true.
Proof.
  induction b as [|x b IH]; intros i j; [split; [done|intros (_ & H & _); by rewrite lookup_nil in H]|]. simpl. destruct x.
  - rewrite IH. split.
    + intros (Hle & Hj & Hk). split; [lia|]. replace (j - i)%nat with (S (j - S i))%nat by lia. split; [done|]. intros [|k] Hk'; [done|]. apply Hk. lia.
    + intros (Hle & Hj & Hk). destruct (j - i)%nat as [|q] eqn:Eq; [done|]. replace (j - S i)%nat with q by lia. split; [lia|]. split; [done|].
      intros k Hk'. apply (Hk (S k)). lia.
  - split; [intros [= ->]; rewrite Nat.sub_diag; split; [done|]; split; [done|]; intros; lia|].
    intros (Hle & Hj & Hk). destruct (j - i)%nat as [|q] eqn:Eq; [f_equal; lia|]. specialize (Hk 0%nat). simpl in Hk. by specialize (Hk ltac:(lia)).
Qed.

(** A RAM file system is mounted at [ms]. *)
Definition mounted_ram s (m : nat) (ms : list (list Z)) : Prop :=
  Forall mount_ok (filesystem_table s) ∧ ∃ f o, filesystem_table s !! m = Some f ∧ mounted_at f ms ∧ fs_ops f = Some o ∧
    ops_of o = ramfs fresh pool_size available_size ∧ fs_data f ≠ 0.

(** The path leads to the file [n] of that file system. *)
Definition leads_to s (path : list Z) (m : nat) (n : list Z) : Prop :=
  ∃ ms, mounted_ram s m ms ∧ below s path (ms ++ [n]) ∧ longest s m ms (ms ++ [n]).

(** [open] when the driver's [open] succeeds on the first free descriptor. *)
Lemma open_at s path flags m n j i w : length (fd_table s) = DFS_FD_MAX → heap_room s = [] → leads_to s path m n → first_free (opens s) 0 = Some j →
  opens_as flags n (world s) i w →
  ∃ d, open ops_of path flags s = Ok (Z.of_nat j, put_world w (put_fd j d s)) ∧ fd_magic d = DFS_FD_MAGIC ∧ ref_count d = 1 ∧ fd_fs d = Some m ∧
    fi_size (fd_inf d) = fi_size i ∧ fi_pos (fd_inf d) = fi_pos i ∧ fi_data (fd_inf d) = fi_data i.
Proof.
  intros Hlen Hroom (ms & (Hmo & f & o & Hf & Hm & Ho & Hops & Hz) & Hb & Hlong) Hj Hdrv.
  assert (Hjl : (j < DFS_FD_MAX)%nat). { apply first_free_spec in Hj as [_ Hj]. apply lookup_lt_Some in Hj. unfold opens in Hj. rewrite length_fmap in Hj. lia. }
  unfold open, open_fd. rewrite fd_new_spec, Hj. cbv zeta. set (d0 := mk_fd _ _ _ _ _ _). cbv beta iota. rewrite (proj2 (Z.ltb_ge (Z.of_nat j) 0)) by lia.
  rewrite fd_get_new by done. step. set (d1 := set_ref _ d0). rewrite get_put by lia. step. set (s1 := put_fd j d1 s).
  set (d2 := before_open d1 (show_path [n]) m flags).
  assert (E : dfs_file_open ops_of d1 path flags s1 = Ok (0, opened_fd flags (set_info i d2), put_world w s1)).
  { assert (Hdp : driver_path (ops_of o) ms [n] = show_path [n]) by by rewrite Hops.
    assert (Hop : op_open (ops_of o) = Some dfs_ramfs_open) by by rewrite Hops.
    pose proof (dfs_file_open_at ops_of s1 d1 path flags m f o ms [n] dfs_ramfs_open 0 i w Hmo Hroom Hb Hf Hm Hlong Ho Hop) as H.
    cbv zeta in H. rewrite Hdp in H. apply H. by apply Hdrv. }
  rewrite E. step. change (0 <? 0) with false. cbv iota. step. set (d3 := opened_fd flags _). rewrite Nat2Z.id, fd_put_put by (cbn; rewrite length_insert; lia). step.
  assert (Hd3 : fd_magic d3 = DFS_FD_MAGIC ∧ ref_count d3 = 2 ∧ fd_fs d3 = Some m ∧ fi_size (fd_inf d3) = fi_size i ∧ fi_pos (fd_inf d3) = fi_pos i ∧ fi_data (fd_inf d3) = fi_data i).
  { unfold d3, opened_fd. by destruct (negb _). }
  destruct Hd3 as (H1 & H2 & H3 & H4). exists (dropped d3). unfold dropped. rewrite H2. change (2 =? 1) with false. cbv iota. split; [|done].
  do 2 f_equal. unfold put_fd, put_fds, put_world, s1. cbn. by rewrite list_insert_insert_eq.
Qed.

Lemma opened_on_ramfs s m n path j i w a F d : length (fd_table s) = DFS_FD_MAX → leads_to s path m n → first_free (opens s) 0 = Some j → fd_file i a w F →
  fd_magic d = DFS_FD_MAGIC → ref_count d = 1 → fd_fs d = Some m →
  fi_size (fd_inf d) = fi_size i ∧ fi_pos (fd_inf d) = fi_pos i ∧ fi_data (fd_inf d) = fi_data i →
  on_ramfs fresh pool_size available_size ops_of (Z.of_nat j) (put_world w (put_fd j d s)) a F.
Proof.
  intros Hlen (ms & (_ & f & o & Hf & Hm & Ho & Hops & Hz) & _) Hj HF Hmag Hr Hfs (Hs & Hp & Hd).
  assert (Hjl : (j < length (fd_table s))%nat). { apply first_free_spec in Hj as [_ Hj]. apply lookup_lt_Some in Hj. unfold opens in Hj. rewrite length_fmap in Hj. lia. }
  constructor; [cbn; by rewrite length_insert|lia|]. exists d, m, f, o. rewrite Nat2Z.id. cbn. rewrite list_lookup_insert_eq by done.
  do 8 (split; [done|]). destruct HF as [? ? ? ? ? ? ?]. constructor; congruence.
Qed.

(** [close] of a file of a RAM file system. *)
Lemma close_on_ramfs fd s a F : on_ramfs fresh pool_size available_size ops_of fd s a F →
  ∃ s', close ops_of fd s = Ok (0, s') ∧ s' = put_world (world s) (put_fd (Z.to_nat fd) no_fd s).
Proof.
  intros [Hlen Hfd (d & m & f & o & Hd & Hm & Hr & Hfs & Hf & Ho & Hops & Hz & HF)].
  pose proof (lookup_lt_Some _ _ _ Hd) as Hlt. pose proof Hlt as Hlt'. rewrite Hlen in Hlt'. unfold DFS_FD_MAX in Hlt'.
  unfold close, fd_get. rewrite (proj2 (Z.ltb_ge fd 0)), (proj2 (Z.leb_gt (Z.of_nat DFS_FD_MAX) fd)) by (unfold DFS_FD_MAX; lia). cbn [orb]. cbv zeta.
  assert (Hget : get_fd (Z.to_nat fd) s = Ok d) by (unfold get_fd; by rewrite Hd). rewrite Hget. step. rewrite Hm, Z.eqb_refl. cbn [negb]. step.
  rewrite Hr. change (1 + 1) with 2. rewrite get_put by done. step.
  set (s1 := put_fd (Z.to_nat fd) (set_ref 2 d) s).
  destruct (ramfs_of fresh pool_size available_size ops_of (set_ref 2 d) s1 m f o Hfs Hf Ho Hops) as (E1 & _ & E2).
  assert (Hcall : ∃ d', dfs_file_close ops_of (set_ref 2 d) s1 = Ok (0, d', put_world (world s1) s1) ∧ ref_count d' = 2).
  { unfold dfs_file_close. rewrite E1. step. rewrite E2. step. cbn [ramfs op_close]. unfold dfs_ramfs_close. step. by eexists. }
  destruct Hcall as (d' & -> & Hr'). step. rewrite fd_put_put by (cbn; by rewrite length_insert). step. change (0 <? 0) with false. cbv iota.
  rewrite fd_put_put by (cbn; by rewrite length_insert). step. rewrite dropped_twice by done. eexists. split; [done|].
  unfold put_fd, put_fds, put_world, s1. cbn. by rewrite list_insert_insert_eq.
Qed.

(** ** The other files *)

Lemma same_name_unique fld : ∀ n n', clean n → clean n' → same_name fld n = Ok true → same_name fld n' = Ok true → n = n'.
Proof.
  induction fld as [|c fld IH]; intros n n' Hn Hn'; [done|]. destruct n as [|x n], n' as [|y n']; cbn [same_name]; [done|..].
  - apply Forall_cons in Hn' as [[Hy _] _]. intros [= ->%Z.eqb_eq]. by destruct (0 =? y) eqn:E; [apply Z.eqb_eq in E|].
  - apply Forall_cons in Hn as [[Hx _] _]. intros H [= ->%Z.eqb_eq]. by destruct (0 =? x) eqn:E; [apply Z.eqb_eq in E|].
  - apply Forall_cons in Hn as [_ Hn]. apply Forall_cons in Hn' as [_ Hn']. destruct (c =? x) eqn:E1; [|done]. destruct (c =? y) eqn:E2; [|done].
    apply Z.eqb_eq in E1, E2. subst. intros H1 H2. f_equal. by apply IH.
Qed.

Lemma find_entry_true n w l a : find_entry l n w = Ok (Some a) → ∃ e, entries w !! a = Some e ∧ same_name (de_name e) n = Ok true.
Proof.
  induction l as [|x l IH]; [done|]. cbn [find_entry]. unfold entry. destruct (entries w !! x) as [e|] eqn:Ee; [|done]. step.
  destruct (same_name (de_name e) n) as [[]|] eqn:E; [|exact IH|done]. step. intros [= <-]. by exists e.
Qed.

(** Changing the entry of the file [n] changes no other file. *)
Lemma content_kept a w w' n n' l : others_kept a w w' → found w n a → clean n → clean n' → n' ≠ n → content w n' l → content w' n' l.
Proof.
  intros Hk Hf Hn Hn' Hne. unfold content. rewrite (ok_order _ _ _ Hk), (find_entry_kept a w w' n' _ Hk).
  destruct (find_entry (order w) n' w) as [[x|]|] eqn:E; try done. intros (e & He & Hh). exists e. split; [|done].
  rewrite (ok_others _ _ _ Hk); [done|]. intros ->. apply Hne. destruct (find_entry_true _ _ _ _ E) as (e1 & He1 & Hs1).
  destruct (find_entry_true _ _ _ _ Hf) as (e2 & He2 & Hs2). assert (e1 = e2) as -> by congruence. by apply (same_name_unique (de_name e2)).
Qed.

Lemma find_entry_same w w' n l : (∀ x, x ∈ l → entries w' !! x = entries w !! x) → find_entry l n w' = find_entry l n w.
Proof.
  induction l as [|x l IH]; intros H; [done|]. cbn [find_entry]. unfold entry. rewrite (H x) by by left.
  rewrite IH; [done|]. intros y Hy. apply H. by right.
Qed.

(** A new entry at the front of the list. *)
Lemma content_new w w1 n n' l : ram_ok w → (∀ x, x ≠ next_entry w → entries w1 !! x = entries w !! x) → order w1 = next_entry w :: order w →
  found w1 n (next_entry w) → file_name n → clean n' → n' ≠ n → content w n' l → content w1 n' l.
Proof.
  intros [Hent _ Hfr] Hsame Hord Hf [[[Hn _] _] Hlen] Hn' Hne. unfold content. rewrite Hord. cbn [find_entry]. unfold entry.
  destruct (find_entry_true _ _ _ _ Hf) as (e & He & Hs). rewrite He. step.
  assert (Hne' : ∀ x, x ∈ order w → entries w1 !! x = entries w !! x).
  { intros x Hx. apply Hsame. rewrite Forall_forall in Hfr. specialize (Hfr x Hx). simpl in Hfr. lia. }
  assert (Hb : same_name (de_name e) n' = Ok false).
  { clear -He Hs Hn Hn' Hne Hlen. revert n n' Hs Hn Hn' Hne Hlen. induction (de_name e) as [|c fld IH]; intros n n' Hs Hn Hn' Hne Hlen; [done|].
    destruct n' as [|y n'], n as [|x n]; cbn [same_name] in *; [done|..].
    - apply Forall_cons in Hn as [[Hx _] _]. destruct (c =? x) eqn:E; [|done]. apply Z.eqb_eq in E. subst. by rewrite (proj2 (Z.eqb_neq x 0)).
    - apply Forall_cons in Hn' as [[Hy _] _]. injection Hs as ->%Z.eqb_eq. by rewrite (proj2 (Z.eqb_neq 0 y)).
    - apply Forall_cons in Hn as [_ Hn]. apply Forall_cons in Hn' as [_ Hn']. destruct (c =? x) eqn:E1; [|done]. destruct (c =? y) eqn:E2; [|done].
      apply Z.eqb_eq in E1, E2. subst. apply (IH n); [done|done|done|congruence|simpl in Hlen; lia]. }
  rewrite Hb. step. rewrite (find_entry_same w w1) by done. destruct (find_entry_spec w n' (order w) Hent Hn') as (r & -> & Hr).
  destruct r as [x|]; [|done]. destruct Hr as [Hx _]. by rewrite Hne'.
Qed.

(** ** [open] of a file, there or not *)

Lemma ramfs_open_file flags w n old : ram_ok w → pool_room w = [] → file_name n → content w n old → flag flags DFS_O_DIRECTORY = false →
  flag flags DFS_O_CREAT = true → Z.of_nat (length old) < 2 ^ 31 →
  ∃ a w1, opens_as flags n w (ram_info flags old a) w1 ∧
    fd_file (ram_info flags old a) a w1 (opened_file flags old) ∧ found w1 n a ∧ a ≠ ROOT ∧ pool_room w1 = [] ∧
    ∀ n' l, clean n' → n' ≠ n → content w n' l → content w1 n' l.
Proof.
  intros Hok Hroom Hn Hc Hdir Hcr Hlen. pose proof Hok as [Hent Hnext _]. pose proof Hn as [[[Hcl Hne] Hpl] Hnl].
  destruct (find_entry_spec w n (order w) Hent Hcl) as (r & E & Hr). unfold content in Hc. rewrite E in Hc. destruct r as [a|].
  - destruct Hr as [Hin _]. destruct Hc as (e & He & Hh). rewrite Forall_forall in Hent. destruct (Hent a Hin) as (Ha & Ha0 & _).
    destruct (ramfs_open_found flags w n a e old) as (w1 & Ho & HF & Hk & Hr1); try done.
    exists a, w1. split; [done|]. split; [done|]. split; [by apply (found_kept a w)|]. split; [done|]. split; [by rewrite Hr1|].
    intros n' l Hn' Hdiff. by apply (content_kept a w w1 n).
  - subst old. destruct (ramfs_open_new flags w n Hn Hdir Hcr Hroom Hnext E) as (w1 & Ho & HF & Hf & Hsame & Hord & Hr1).
    exists (next_entry w), w1. split; [done|]. split; [done|]. split; [done|]. split; [unfold ROOT; lia|]. split; [done|].
    intros n' l Hn' Hdiff. by apply (content_new w w1 n).
Qed.

(** ** Written and read back *)

Lemma leads_same s s' path m n : filesystem_table s' = filesystem_table s → working_directory s' = working_directory s →
  leads_to s path m n → leads_to s' path m n.
Proof.
  intros Hm Hd (ms & (Hok & f & o & Hf & H) & (ds & Hds & Hb) & Hl). exists ms. unfold mounted_ram, longest. rewrite Hm. split; [split; [done|by exists f, o]|].
  split; [exists ds; by rewrite Hd|done].
Qed.

(** The same descriptor is free again. *)
Lemma first_free_again s s' j : length (fd_table s') = length (fd_table s) → (∀ k, k ≠ j → fd_table s' !! k = fd_table s !! k) →
  fd_table s' !! j = Some no_fd → first_free (opens s) 0 = Some j → first_free (opens s') 0 = Some j.
Proof.
  intros Hlen Hk Hj. rewrite !first_free_iff. intros (_ & Hfree & Hbusy). rewrite Nat.sub_0_r in *. split; [lia|].
  split; [by rewrite (opens_lookup s' j no_fd)|]. intros k Hkj. rewrite <- (Hbusy k Hkj). unfold opens. rewrite !list_lookup_fmap, Hk by lia. done.
Qed.

Local Abbreviation is_open_on := (on_ramfs fresh pool_size available_size ops_of).

(** [open] of a file that may be new. *)
Lemma open_step s path flags m n j old : length (fd_table s) = DFS_FD_MAX → heap_room s = [] → leads_to s path m n → first_free (opens s) 0 = Some j →
  ram_ok (world s) → pool_room (world s) = [] → file_name n → content (world s) n old → flag flags DFS_O_DIRECTORY = false →
  flag flags DFS_O_CREAT = true → Z.of_nat (length old) < 2 ^ 31 →
  ∃ a s1, open ops_of path flags s = Ok (Z.of_nat j, s1) ∧ is_open_on (Z.of_nat j) s1 a (opened_file flags old) ∧ found (world s1) n a ∧ a ≠ ROOT ∧
    pool_room (world s1) = [] ∧ (∀ n' l, clean n' → n' ≠ n → content (world s) n' l → content (world s1) n' l) ∧
    filesystem_table s1 = filesystem_table s ∧ working_directory s1 = working_directory s ∧ heap_room s1 = heap_room s ∧
    (∀ k, k ≠ j → fd_table s1 !! k = fd_table s !! k).
Proof.
  intros Hlen Hroom Hl Hj Hok Hpool Hn Hc Hdir Hcr Hold.
  destruct (ramfs_open_file flags (world s) n old Hok Hpool Hn Hc Hdir Hcr Hold) as (a & w1 & Ho & HF & Hf & Ha & Hr1 & Hothers).
  destruct (open_at s path flags m n j (ram_info flags old a) w1 Hlen Hroom Hl Hj Ho) as (d & E & Hm & Hr & Hfs & Hi).
  exists a, (put_world w1 (put_fd j d s)). split; [done|]. split; [by apply (opened_on_ramfs s m n path j (ram_info flags old a))|].
  do 7 (split; [done|]). intros k Hk. cbn. by rewrite list_lookup_insert_ne.
Qed.

(** Read-only [open] of a file that is there. *)
Lemma reopen_step s path m n j a e l : length (fd_table s) = DFS_FD_MAX → heap_room s = [] → leads_to s path m n → first_free (opens s) 0 = Some j →
  file_name n → found (world s) n a → a ≠ ROOT → a ≠ 0 → entries (world s) !! a = Some e → holds e l → Z.of_nat (length l) < 2 ^ 31 →
  ∃ s1, open ops_of path DFS_O_RDONLY s = Ok (Z.of_nat j, s1) ∧ is_open_on (Z.of_nat j) s1 a (mk_file l 0) ∧ others_kept a (world s) (world s1).
Proof.
  intros Hlen Hroom Hl Hj [Hn _] Hf Ha Ha0 He Hh Hmax.
  destruct (ramfs_open_found DFS_O_RDONLY (world s) n a e l Hn eq_refl Hf Ha Ha0 He Hh Hmax) as (w1 & Ho & HF & Hk & _).
  destruct (open_at s path DFS_O_RDONLY m n j (ram_info DFS_O_RDONLY l a) w1 Hlen Hroom Hl Hj Ho) as (d & E & Hm & Hr & Hfs & Hi).
  exists (put_world w1 (put_fd j d s)). split; [done|]. split; [|done].
  by apply (opened_on_ramfs s m n path j (ram_info DFS_O_RDONLY l a)).
Qed.

(** C10. A path that leads to the file [n] of a mounted RAM file system is opened (created if
    need be), [buf] is written at the position that the flags ask for, the file is
    closed, opened again and read: the bytes that arrive are those of the old
    content, truncated if asked, with [buf] in its place.  The descriptor is the
    first free one both times, and every other file of the file system has the
    content it had. *)
Theorem ramfs_written_is_read s path flags m n j old buf len : length (fd_table s) = DFS_FD_MAX → heap_room s = [] → leads_to s path m n →
  first_free (opens s) 0 = Some j → ram_ok (world s) → pool_room (world s) = [] → file_name n → content (world s) n old →
  flag flags DFS_O_DIRECTORY = false → flag flags DFS_O_CREAT = true → Z.of_nat (length old + length buf) < 2 ^ 31 → 0 <= len < 2 ^ 31 →
  let F := opened_file flags old in
  let out := take (Z.to_nat len) (overwrite (pos F) buf (bytes F)) in
  ∃ s1 s2 s3 s4 s5, open ops_of path flags s = Ok (Z.of_nat j, s1) ∧ write ops_of (Z.of_nat j) buf s1 = Ok (Z.of_nat (length buf), s2) ∧
    close ops_of (Z.of_nat j) s2 = Ok (0, s3) ∧ open ops_of path DFS_O_RDONLY s3 = Ok (Z.of_nat j, s4) ∧
    read ops_of (Z.of_nat j) len s4 = Ok (out, Z.of_nat (length out), s5) ∧
    ∀ n' l, clean n' → n' ≠ n → content (world s) n' l → content (world s5) n' l.
Proof.
  intros Hlen Hroom Hl Hj Hok Hpool Hn Hc Hdir Hcr Hmax Hlen' F out.
  destruct (open_step s path flags m n j old) as (a & s1 & E1 & Hon1 & Hf1 & Ha & Hp1 & Hoth & Hm1 & Hd1 & Hr1 & Hk1); try done; [lia|].
  fold F in Hon1. assert (HFlen : (length (bytes F) <= length old)%nat) by (unfold F, opened_file; simpl; destruct (flag flags DFS_O_TRUNC); simpl; lia).
  destruct (write_step fresh pool_size available_size ops_of buf (Z.of_nat j) a s1 F Hon1) as (o2 & r2 & s2 & F2 & E2 & Hstep & Hon2 & Honly & Hpw); [lia|].
  destruct (Hpw Hp1) as [Hp2 ->]. assert (HF2 : F2 = mk_file (overwrite (pos F) buf (bytes F)) (pos F + length buf)).
  { destruct Hstep as (_ & [[_ H]|(Hz & _ & Hlt)]); [done|]. exfalso. destruct buf; [|done]. cbn [length] in Hlt.
    destruct Hon1 as [_ _ (d & ? & ? & ? & _ & _ & _ & _ & _ & _ & _ & _ & HF)]. pose proof (ff_le _ _ _ _ HF). lia. }
  destruct (close_on_ramfs (Z.of_nat j) s2 a F2 Hon2) as (s3 & E3 & Hs3). rewrite Nat2Z.id in Hs3.
  pose proof Honly as [Hk2 Hm2 Hd2 Hr2 Hw2]. rewrite Nat2Z.id in Hk2.
  assert (Hlen2 : length (fd_table s2) = DFS_FD_MAX) by apply Hon2. assert (Hj4 : (j < DFS_FD_MAX)%nat).
  { apply first_free_spec in Hj as [_ Hj]. apply lookup_lt_Some in Hj. unfold opens in Hj. rewrite length_fmap in Hj. lia. }
  pose proof Hon2 as [_ _ (d2 & m2 & f2 & o2' & _ & _ & _ & _ & _ & _ & _ & _ & HFF)]. destruct (ff_entry _ _ _ _ HFF) as (e & He & Hh).
  assert (Hlen3 : length (fd_table s3) = DFS_FD_MAX) by (rewrite Hs3; cbn; by rewrite length_insert).
  assert (Hroom3 : heap_room s3 = []) by (rewrite Hs3; cbn; by rewrite Hr2, Hr1).
  assert (Hl3 : leads_to s3 path m n) by (apply (leads_same s); [rewrite Hs3; cbn; congruence|rewrite Hs3; cbn; congruence|done]).
  assert (Hj3 : first_free (opens s3) 0 = Some j).
  { apply (first_free_again s); [by rewrite Hlen3| | |done]; rewrite Hs3; cbn; [|apply list_lookup_insert_eq; lia].
    intros k Hk. rewrite list_lookup_insert_ne by done. by rewrite Hk2, Hk1. }
  assert (Hw3 : world s3 = world s2) by by rewrite Hs3.
  destruct (reopen_step s3 path m n j a e (bytes F2) Hlen3 Hroom3 Hl3 Hj3 Hn) as (s4 & E4 & Hon4 & Hw4); rewrite ?Hw3; try done.
  - by apply (found_kept a (world s1)).
  - apply (ff_nonzero _ _ _ _ HFF).
  - apply (ff_max _ _ _ _ HFF).
  - destruct (read_step fresh pool_size available_size ops_of len (Z.of_nat j) a s4 (mk_file (bytes F2) 0) Hon4 Hlen') as (o5 & r5 & s5 & F5 & E5 & (Ho5 & Hr5 & _) & _ & Honly5 & _).
    exists s1, s2, s3, s4, s5. split; [done|]. split.
    { unfold do_fop in E2. destruct (write ops_of (Z.of_nat j) buf s1) as [[x y]|]; [|done]. cbn [mbind res_bind] in E2. by injection E2 as _ -> ->. }
    split; [done|]. split; [done|]. split.
    { unfold do_fop in E5. rewrite E5. rewrite Hr5, Ho5, HF2. done. }
    intros n' l Hn' Hne Hcn. assert (Hk35 : others_kept a (world s1) (world s5)).
    { transitivity (world s2); [done|]. transitivity (world s4); [by rewrite <- Hw3|apply (of_world _ _ _ _ Honly5)]. }
    apply (content_kept a (world s1) _ n); [done|done|apply Hn|done|done|by apply Hoth].
Qed.
End store.

Section runs.
Context (fresh : nat → Z) (pool_size : Z) (available_size : dfs_ramfs → Z).
Context `{!BlockDevices dfs_ramfs} (ops_of : nat → fs_operation dfs_ramfs).

(** C11. Any sequence of [read], [write] and [lseek] (within the range of [int]) on a descriptor that is open on a
    RAM file system does to the file what the same operations do to its bytes and a
    position: the same bytes arrive, the same answers, and nothing else changes - no other descriptor, entry,
    name or mount.  A write either stores all bytes or, only when the file must grow,
    none. *)
Theorem ramfs_file_runs cs fd a s F : on_ramfs fresh pool_size available_size ops_of fd s a F →
  file_runs ops_of cs fd a s F.
Proof. apply file_runs_on. Qed.
End runs.

(** ** An example: a RAM file system at [/] *)
Module RamDemo.
#[local] Instance no_device : BlockDevices dfs_ramfs := {| device_find _ _ := None; device_open _ w := Ok (0, w); device_close _ w := Ok (0, w) |}.
Definition zeros : nat → Z := λ _, 0.
Definition ram_ops (o : nat) : fs_operation dfs_ramfs := ramfs zeros 4096 (λ _, 0).
Definition start : dfs dfs_ramfs := put_types [Some 0%nat; None; None; None] (dfs_init true dfs_ramfs_create).
Definition ram_root : dfs_filesystem := mk_fs None (Some [slash]) (Some 0%nat) 1.
Definition mounted : dfs dfs_ramfs := put_mounts [ram_root; no_fs] start.

Lemma mounted_by_mount : dfs_mount ram_ops no_fd None [slash] [114; 97; 109] 0 1 start = Ok (0, mounted).
Proof. vm_compute. reflexivity. Qed.

Lemma ram_root_mounted : mounted_at ram_root [].
Proof. split; [done|]. split; [done|constructor]. Qed.

Lemma demo_leads : leads_to zeros 4096 (λ _, 0) ram_ops mounted [97] 0 [97].
Proof.
  exists []. split; [|split].
  - split; [constructor; [right; by exists []; apply ram_root_mounted|constructor; [by left|constructor]]|].
    exists ram_root, 0%nat. split; [done|]. split; [apply ram_root_mounted|done].
  - exists []. split; [done|]. split; [constructor|]. split; [repeat constructor; discriminate|]. vm_compute. reflexivity.
  - intros [|[|j]] g ns Hg Hns _; [by left| |done]. simpl in Hg. injection Hg as <-. by destruct Hns as [? _].
Qed.

(** [a] is created with [1; 2; 3], and two bytes are read. *)
Lemma ramfs_written_is_read_witness : ∃ s1 s2 s3 s4 s5,
  open ram_ops [97] DFS_O_CREAT mounted = Ok (0, s1) ∧ write ram_ops 0 [1; 2; 3] s1 = Ok (3, s2) ∧ close ram_ops 0 s2 = Ok (0, s3) ∧
  open ram_ops [97] DFS_O_RDONLY s3 = Ok (0, s4) ∧ read ram_ops 0 2 s4 = Ok ([1; 2], 2, s5).
Proof.
  destruct (ramfs_written_is_read zeros 4096 (λ _, 0) ram_ops mounted [97] DFS_O_CREAT 0 [97] 0 [] [1; 2; 3] 2) as (s1 & s2 & s3 & s4 & s5 & H1 & H2 & H3 & H4 & H5 & _).
  - reflexivity.
  - reflexivity.
  - exact demo_leads.
  - reflexivity.
  - split; [constructor|simpl; lia|constructor].
  - reflexivity.
  - split; [|simpl; unfold RAMFS_NAME_MAX; lia]. split; [|split; discriminate]. split; [repeat constructor; discriminate|discriminate].
  - reflexivity.
  - reflexivity.
  - reflexivity.
  - simpl; lia.
  - lia.
  - exists s1, s2, s3, s4, s5. repeat split; assumption.
Defined.

(** A descriptor on the entry 2, with four bytes. *)
Definition some_entry : ramfs_dirent := mk_dirent (name_field [97]) (Some [5; 6; 7; 8]) 4.
Definition with_file : dfs dfs_ramfs :=
  put_world (mk_ramfs (<[2 := some_entry]> (entries dfs_ramfs_create)) [2] 3 [] 0)
    (put_fd 0 (mk_fd DFS_FD_MAGIC FT_REGULAR (Some [slash; 97]) 1 (Some 0%nat) (mk_info 0 4 1 2)) mounted).

Lemma ramfs_file_runs_witness : file_runs ram_ops [Fread 2; Fwrite [9; 9]; Fseek (-1) 2; Fread 5] 0 2 with_file (mk_file [5; 6; 7; 8] 1).
Proof.
  apply (ramfs_file_runs zeros 4096 (λ _, 0) ram_ops _ 0 2 with_file (mk_file [5; 6; 7; 8] 1)).
  split; [reflexivity|lia|].
  exists (mk_fd DFS_FD_MAGIC FT_REGULAR (Some [slash; 97]) 1 (Some 0%nat) (mk_info 0 4 1 2)), 0%nat, ram_root, 0%nat.
  split; [reflexivity|]. split; [reflexivity|]. split; [reflexivity|]. split; [reflexivity|]. split; [reflexivity|].
  split; [reflexivity|]. split; [reflexivity|]. split; [discriminate|].
  split; [reflexivity|discriminate| |reflexivity|reflexivity|simpl; lia|simpl; lia].
  exists some_entry. split; [reflexivity|split; reflexivity].
Defined.

(** *** Where the code does not do what it means to *)

Definition after_open (flags : Z) (k : dfs dfs_ramfs → res (Z * dfs dfs_ramfs)) : res Z :=
  '(_, s) ← open ram_ops [97] flags mounted; '(r, _) ← k s; Ok r.

(** [dfs_ramfs_rename] stores the new name with its ['/'], which no look-up has: the
    file is lost. *)
Lemma renamed_is_lost :
  after_open DFS_O_CREAT (λ s, '(_, s) ← close ram_ops 0 s; '(_, s) ← rename ram_ops [97] [98] s; open ram_ops [98] 0 s) = Ok (-1) ∧
  after_open DFS_O_CREAT (λ s, '(_, s) ← close ram_ops 0 s; '(_, s) ← rename ram_ops [97] [98] s; open ram_ops [97] 0 s) = Ok (-1).
Proof. split; vm_compute; reflexivity. Qed.

(** Two descriptors on a new file: each has its own size.  A write through the
    second shrinks the block under the first, which then reads beyond it. *)
Lemma second_writer_shrinks :
  after_open DFS_O_CREAT (λ s, '(_, s) ← open ram_ops [97] 0 s; '(_, s) ← write ram_ops 0 [1; 2; 3; 4] s; '(_, s) ← write ram_ops 1 [9] s;
    '(_, s) ← lseek ram_ops 0 0 0 s; '(_, r, s) ← read ram_ops 0 4 s; Ok (r, s)) = Stop OutOfBounds.
Proof. vm_compute; reflexivity. Qed.

(** Unlinking the root directory gives the root entry, which is no block of the pool, back. *)
Lemma unlink_root : unlink ram_ops [slash] mounted = Stop AssertFail ∧
  unlink (λ o, adapt outside (ram_ops o)) [slash] mounted = Stop External.
Proof. split; vm_compute; reflexivity. Qed.

(** A file is opened as a directory, so [chdir] goes into it. *)
Lemma chdir_into_file : after_open DFS_O_CREAT (λ s, '(_, s) ← close ram_ops 0 s; chdir ram_ops [97] s) = Ok 0.
Proof. vm_compute; reflexivity. Qed.

(** [telldir] adds a count of entries and a count of bytes. *)
Lemma telldir_mixes : after_open DFS_O_CREAT (λ s, '(_, s) ← opendir ram_ops [slash] s;
    '(_, d, s) ← readdir ram_ops (new_dir 1) s; telldir d s) = Ok (-259).
Proof. vm_compute; reflexivity. Qed.

(** A name of 32 bytes has no final zero: the next look-up runs out of the array. *)
Lemma long_name_runs_on :
  ('(_, s) ← open ram_ops (replicate 32 97) DFS_O_CREAT mounted; '(_, s) ← open ram_ops (replicate 33 97) 0 s; Ok tt) = Stop OutOfBounds.
Proof. vm_compute; reflexivity. Qed.
End RamDemo.
