(* ===== verification/RingBuffer.v ===== *)
(** * Ring buffers: [components/drivers/src/ringbuffer.c]

    A ring of bytes whose two indices carry a mirror bit, with the inline
    functions of [include/rtdevice.h].  The component is an option of the device
    framework that [rtconfig.h] leaves out.  The bytes are a list; what
    [memcpy] does outside of its two arrays is [OutOfBounds]. *)
From S2P Require Import Prelude Heap.
Local Open Scope Z_scope.

(** [struct rt_ringbuffer]; [buffer_ptr]: the bytes of the memory handed over.
    The mirrors are bit-fields of one bit, the indices of fifteen. *)
Record rt_ringbuffer := mk_rb {
  buffer_ptr : list Z;
  read_mirror : Z; read_index : Z; write_mirror : Z; write_index : Z;
  buffer_size : Z }.

Definition u1 (z : Z) : Z := z mod 2.
Definition u15 (z : Z) : Z := z mod 32768.
Definition flip (mirror : Z) : Z := u1 (Z.lnot mirror).

Definition set_read (m i : Z) (rb : rt_ringbuffer) : rt_ringbuffer :=
  mk_rb (buffer_ptr rb) m i (write_mirror rb) (write_index rb) (buffer_size rb).
Definition set_write (b : list Z) (m i : Z) (rb : rt_ringbuffer) : rt_ringbuffer :=
  mk_rb b (read_mirror rb) (read_index rb) m i (buffer_size rb).

(** [memcpy(&dst[d], &src[s], n)] of the C library. *)
Definition memcpy (dst : list Z) (d : Z) (src : list Z) (s n : Z) : res (list Z) :=
  _ ← require OutOfBounds ((0 <=? d) && (0 <=? s) && (0 <=? n) &&
        (d + n <=? Z.of_nat (length dst)) && (s + n <=? Z.of_nat (length src)));
  Ok (take (Z.to_nat d) dst ++ take (Z.to_nat n) (drop (Z.to_nat s) src) ++ drop (Z.to_nat (d + n)) dst).
(** [dst[d] = v] *)
Definition store_byte (dst : list Z) (d v : Z) : res (list Z) := memcpy dst d [v] 0 1.
Definition load_byte (src : list Z) (s : Z) : res Z :=
  _ ← require OutOfBounds (0 <=? s); of_option OutOfBounds (src !! Z.to_nat s).

(** ** [rtdevice.h] *)
Inductive rt_ringbuffer_state := RT_RINGBUFFER_EMPTY | RT_RINGBUFFER_FULL | RT_RINGBUFFER_HALFFULL.
#[export] Instance rt_ringbuffer_state_eq_dec : EqDecision rt_ringbuffer_state.
Proof. solve_decision. Defined.

Definition rt_ringbuffer_get_size (rb : rt_ringbuffer) : Z := u16 (buffer_size rb).

Definition rt_ringbuffer_status (rb : rt_ringbuffer) : rt_ringbuffer_state :=
  if read_index rb =? write_index rb then
    if read_mirror rb =? write_mirror rb then RT_RINGBUFFER_EMPTY else RT_RINGBUFFER_FULL
  else RT_RINGBUFFER_HALFFULL.

Definition rt_ringbuffer_data_len (rb : rt_ringbuffer) : Z :=
  match rt_ringbuffer_status rb with
  | RT_RINGBUFFER_EMPTY => 0
  | RT_RINGBUFFER_FULL => u16 (buffer_size rb)
  | RT_RINGBUFFER_HALFFULL =>
      if read_index rb <? write_index rb then u16 (write_index rb - read_index rb)
      else u16 (buffer_size rb - (read_index rb - write_index rb))
  end.

Definition rt_ringbuffer_space_len (rb : rt_ringbuffer) : Z := buffer_size rb - rt_ringbuffer_data_len rb.

(** ** [ringbuffer.c] *)
Definition rt_ringbuffer_init (pool : list Z) (size : Z) : res rt_ringbuffer :=
  _ ← rt_assert (0 <? size);
  Ok (mk_rb pool 0 0 0 0 (s16 (RT_ALIGN_DOWN size))).

(** The copies and the new write position, which [rt_ringbuffer_put] and
    [rt_ringbuffer_put_force] have in common; the flag says whether the write
    position went into the other mirror. *)
Definition rb_write (rb : rt_ringbuffer) (ptr : list Z) (len : Z) : res (rt_ringbuffer * bool) :=
  if len <? buffer_size rb - write_index rb then
    b ← memcpy (buffer_ptr rb) (write_index rb) ptr 0 len;
    Ok (set_write b (write_mirror rb) (u15 (write_index rb + len)) rb, false)
  else
    b ← memcpy (buffer_ptr rb) (write_index rb) ptr 0 (buffer_size rb - write_index rb);
    b ← memcpy b 0 ptr (buffer_size rb - write_index rb) (len - (buffer_size rb - write_index rb));
    Ok (set_write b (flip (write_mirror rb)) (u15 (len - (buffer_size rb - write_index rb))) rb, true).

Definition rt_ringbuffer_put (rb : rt_ringbuffer) (ptr : list Z) (len : Z) : res (rt_ringbuffer * Z) :=
  let size := u16 (rt_ringbuffer_space_len rb) in
  if size =? 0 then Ok (rb, 0)
  else
    let len := if size <? len then size else len in
    '(rb, _) ← rb_write rb ptr len;
    Ok (rb, len).

Definition rt_ringbuffer_put_force (rb : rt_ringbuffer) (ptr : list Z) (len : Z) : res (rt_ringbuffer * Z) :=
  let space_length := u16 (rt_ringbuffer_space_len rb) in
  let len := if space_length <? len then u16 (buffer_size rb) else len in
  '(rb, crossed) ← rb_write rb ptr len;
  let rb :=
    if space_length <? len then
      set_read (if (crossed : bool) then flip (read_mirror rb) else read_mirror rb) (write_index rb) rb
    else rb in
  Ok (rb, len).

(** The second result is the caller's buffer. *)
Definition rt_ringbuffer_get (rb : rt_ringbuffer) (ptr : list Z) (len : Z) : res (rt_ringbuffer * list Z * Z) :=
  let size := rt_ringbuffer_data_len rb in
  if size =? 0 then Ok (rb, ptr, 0)
  else
    let len := if size <? len then u16 size else len in
    if len <? buffer_size rb - read_index rb then
      ptr ← memcpy ptr 0 (buffer_ptr rb) (read_index rb) len;
      Ok (set_read (read_mirror rb) (u15 (read_index rb + len)) rb, ptr, len)
    else
      ptr ← memcpy ptr 0 (buffer_ptr rb) (read_index rb) (buffer_size rb - read_index rb);
      ptr ← memcpy ptr (buffer_size rb - read_index rb) (buffer_ptr rb) 0
              (len - (buffer_size rb - read_index rb));
      Ok (set_read (flip (read_mirror rb)) (u15 (len - (buffer_size rb - read_index rb))) rb, ptr, len).

Definition rt_ringbuffer_putchar (rb : rt_ringbuffer) (ch : Z) : res (rt_ringbuffer * Z) :=
  if rt_ringbuffer_space_len rb =? 0 then Ok (rb, 0)
  else
    b ← store_byte (buffer_ptr rb) (write_index rb) ch;
    if write_index rb =? buffer_size rb - 1 then Ok (set_write b (flip (write_mirror rb)) 0 rb, 1)
    else Ok (set_write b (write_mirror rb) (u15 (write_index rb + 1)) rb, 1).

Definition rt_ringbuffer_putchar_force (rb : rt_ringbuffer) (ch : Z) : res (rt_ringbuffer * Z) :=
  let full := bool_decide (rt_ringbuffer_status rb = RT_RINGBUFFER_FULL) in
  b ← store_byte (buffer_ptr rb) (write_index rb) ch;
  if write_index rb =? buffer_size rb - 1 then
    let rb := set_write b (flip (write_mirror rb)) 0 rb in
    Ok (if full then set_read (flip (read_mirror rb)) (write_index rb) rb else rb, 1)
  else
    let rb := set_write b (write_mirror rb) (u15 (write_index rb + 1)) rb in
    Ok (if full then set_read (read_mirror rb) (write_index rb) rb else rb, 1).

(** [*ch] is the second result, [None] when it is left alone. *)
Definition rt_ringbuffer_getchar (rb : rt_ringbuffer) : res (rt_ringbuffer * option Z * Z) :=
  if rt_ringbuffer_data_len rb =? 0 then Ok (rb, None, 0)
  else
    ch ← load_byte (buffer_ptr rb) (read_index rb);
    if read_index rb =? buffer_size rb - 1 then Ok (set_read (flip (read_mirror rb)) 0 rb, Some ch, 1)
    else Ok (set_read (read_mirror rb) (u15 (read_index rb + 1)) rb, Some ch, 1).

(** ** The bytes a ring holds

    [wrap]: the place in the memory of a position of the two mirrors. *)
Definition wrap (size i : Z) : Z := if i <? size then i else i - size.

Record ring_wf (rb : rt_ringbuffer) : Prop := {
  rw_size : 0 < buffer_size rb < 32768 ∧ buffer_size rb <= Z.of_nat (length (buffer_ptr rb));
  rw_index : 0 <= read_index rb < buffer_size rb ∧ 0 <= write_index rb < buffer_size rb;
  rw_mirror : (read_mirror rb = 0 ∨ read_mirror rb = 1) ∧ (write_mirror rb = 0 ∨ write_mirror rb = 1);
  rw_order : if read_mirror rb =? write_mirror rb then read_index rb <= write_index rb
             else write_index rb <= read_index rb;
}.

(** [l]: from the byte that will be read next to the one written last. *)
Record holds (rb : rt_ringbuffer) (l : list Z) : Prop := {
  ho_wf : ring_wf rb;
  ho_len : Z.of_nat (length l) = rt_ringbuffer_data_len rb;
  ho_bytes j : 0 <= j < Z.of_nat (length l) →
    l !! Z.to_nat j = buffer_ptr rb !! Z.to_nat (wrap (buffer_size rb) (read_index rb + j));
}.

(** The capacity that is left. *)
Definition room (rb : rt_ringbuffer) (l : list Z) : Z := buffer_size rb - Z.of_nat (length l).

Lemma data_len_val rb : ring_wf rb →
  rt_ringbuffer_data_len rb =
    if read_mirror rb =? write_mirror rb then write_index rb - read_index rb
    else buffer_size rb - (read_index rb - write_index rb).
Proof.
  intros [[Hs _] [Hr Hw] [Hrm Hwm] Ho]. unfold rt_ringbuffer_data_len, rt_ringbuffer_status.
  destruct (Z.eqb_spec (read_mirror rb) (write_mirror rb)); case_bools; unfold u16; lia.
Qed.

Lemma data_len_range rb : ring_wf rb → 0 <= rt_ringbuffer_data_len rb <= buffer_size rb.
Proof.
  intros Hwf. rewrite data_len_val by done. destruct Hwf as [[Hs _] [Hr Hw] [Hrm Hwm] Ho].
  destruct (_ =? _); lia.
Qed.

Lemma holds_room rb l : holds rb l → 0 <= room rb l <= buffer_size rb.
Proof. intros [Hwf Hl _]. unfold room. pose proof (data_len_range rb Hwf). lia. Qed.

Lemma space_len_val rb l : holds rb l → rt_ringbuffer_space_len rb = room rb l.
Proof. intros H. unfold rt_ringbuffer_space_len, room. by rewrite (ho_len _ _ H). Qed.

Lemma flip_val m : m = 0 ∨ m = 1 → flip m = 1 - m.
Proof. by intros [-> | ->]. Qed.
Lemma u15_id x : 0 <= x < 32768 → u15 x = x.
Proof. intros. unfold u15. lia. Qed.
Lemma u16_id x : 0 <= x < 65536 → u16 x = x.
Proof. intros. unfold u16. lia. Qed.

Lemma memcpy_ok dst d src s n :
  0 <= d → 0 <= s → 0 <= n → d + n <= Z.of_nat (length dst) → s + n <= Z.of_nat (length src) →
  ∃ dst', memcpy dst d src s n = Ok dst' ∧ length dst' = length dst ∧
    ∀ i, 0 <= i → dst' !! Z.to_nat i =
      if (d <=? i) && (i <? d + n) then src !! Z.to_nat (s + (i - d)) else dst !! Z.to_nat i.
Proof.
  intros Hd Hs Hn Hdl Hsl. unfold memcpy.
  rewrite !(proj2 (Z.leb_le _ _)) by lia. cbn [andb require mbind res_bind].
  eexists. split; [done |]. split; [rewrite !length_app, !length_take, !length_drop; lia |].
  intros i Hi. destruct (Z.leb_spec d i); cbn [andb].
  - rewrite lookup_app_r by (rewrite length_take; lia). rewrite length_take, Nat.min_l by lia.
    destruct (Z.ltb_spec i (d + n)).
    + rewrite lookup_app_l by (rewrite length_take, length_drop; lia).
      rewrite lookup_take_lt by lia. rewrite lookup_drop. f_equal. lia.
    + rewrite lookup_app_r by (rewrite length_take, length_drop; lia).
      rewrite lookup_drop, length_take, length_drop. f_equal. lia.
  - rewrite lookup_app_l by (rewrite length_take; lia). by rewrite lookup_take_lt by lia.
Qed.

(** *** Writing and reading move a position over [n] bytes *)
Definition after_write (rb : rt_ringbuffer) (b : list Z) (n : Z) : rt_ringbuffer :=
  if n <? buffer_size rb - write_index rb then set_write b (write_mirror rb) (write_index rb + n) rb
  else set_write b (1 - write_mirror rb) (n - (buffer_size rb - write_index rb)) rb.
Definition after_read (rb : rt_ringbuffer) (n : Z) : rt_ringbuffer :=
  if n <? buffer_size rb - read_index rb then set_read (read_mirror rb) (read_index rb + n) rb
  else set_read (1 - read_mirror rb) (n - (buffer_size rb - read_index rb)) rb.

(** [b]: the memory after [n] bytes of [ptr] went in at the write position. *)
Definition wrote (rb : rt_ringbuffer) (ptr : list Z) (n : Z) (b : list Z) : Prop :=
  length b = length (buffer_ptr rb) ∧
  ∀ i, 0 <= i < buffer_size rb → b !! Z.to_nat i =
    if (write_index rb <=? i) && (i <? write_index rb + n) then ptr !! Z.to_nat (i - write_index rb)
    else if i + buffer_size rb <? write_index rb + n then ptr !! Z.to_nat (i + buffer_size rb - write_index rb)
    else buffer_ptr rb !! Z.to_nat i.

Ltac ring_unfold :=
  unfold after_write, after_read, set_write, set_read, wrap in *;
  cbn [buffer_ptr read_mirror read_index write_mirror write_index buffer_size] in *.

Lemma rb_write_ok rb ptr n :
  ring_wf rb → 0 <= n <= buffer_size rb → n <= Z.of_nat (length ptr) →
  ∃ b, rb_write rb ptr n = Ok (after_write rb b n, negb (n <? buffer_size rb - write_index rb)) ∧
    wrote rb ptr n b.
Proof.
  intros [[Hs Hbuf] [Hr Hw] [_ Hwm] _] Hn Hp. unfold rb_write, after_write.
  destruct (Z.ltb_spec n (buffer_size rb - write_index rb)); cbn [negb].
  - destruct (memcpy_ok (buffer_ptr rb) (write_index rb) ptr 0 n) as (b & -> & Hlen & Hb); try lia.
    cbn [mbind res_bind]. rewrite u15_id by lia. eexists. split; [done |].
    split; [done |]. intros i Hi. rewrite Hb by lia.
    rewrite (proj2 (Z.ltb_ge (i + _) _)) by lia. by rewrite Z.add_0_l.
  - set (first := buffer_size rb - write_index rb) in *.
    destruct (memcpy_ok (buffer_ptr rb) (write_index rb) ptr 0 first) as (b1 & -> & Hlen1 & Hb1); try lia.
    cbn [mbind res_bind].
    destruct (memcpy_ok b1 0 ptr first (n - first)) as (b & -> & Hlen & Hb); try lia.
    cbn [mbind res_bind]. rewrite u15_id, flip_val by (done || lia). eexists. split; [done |].
    split; [congruence |]. intros i Hi. rewrite Hb, Hb1 by lia. subst first.
    case_bools; cbn [andb]; try lia; try done; f_equal; lia.
Qed.

Lemma store_byte_ok rb ch :
  ring_wf rb → ∃ b, store_byte (buffer_ptr rb) (write_index rb) ch = Ok b ∧ wrote rb [ch] 1 b.
Proof.
  intros [[Hs Hbuf] [Hr Hw] _ _]. unfold store_byte.
  destruct (memcpy_ok (buffer_ptr rb) (write_index rb) [ch] 0 1) as (b & -> & Hlen & Hb); simpl length; try lia.
  exists b. split; [done |]. split; [done |]. intros i Hi. rewrite Hb by lia.
  rewrite (proj2 (Z.ltb_ge (i + _) _)) by lia. by rewrite Z.add_0_l.
Qed.

Lemma after_write_wf rb b n :
  ring_wf rb → length b = length (buffer_ptr rb) →
  0 <= n <= rt_ringbuffer_space_len rb → ring_wf (after_write rb b n).
Proof.
  intros Hwf Hb Hn. unfold rt_ringbuffer_space_len in Hn. rewrite data_len_val in Hn by done.
  destruct Hwf as [[Hs Hbuf] [Hr Hw] [Hrm Hwm] Ho].
  split; unfold after_write; destruct (Z.ltb_spec n (buffer_size rb - write_index rb)); ring_unfold; rewrite ?Hb;
    revert Ho Hn; case_bools; lia.
Qed.

Lemma after_write_len rb b n :
  ring_wf rb → length b = length (buffer_ptr rb) → 0 <= n <= rt_ringbuffer_space_len rb →
  rt_ringbuffer_data_len (after_write rb b n) = rt_ringbuffer_data_len rb + n.
Proof.
  intros Hwf Hb Hn. rewrite (data_len_val (after_write _ _ _)) by by apply after_write_wf.
  unfold rt_ringbuffer_space_len in Hn. rewrite data_len_val in * by done.
  destruct Hwf as [[Hs Hbuf] [Hr Hw] [Hrm Hwm] Ho].
  unfold after_write; destruct (Z.ltb_spec n (buffer_size rb - write_index rb)); ring_unfold;
    revert Ho Hn; case_bools; lia.
Qed.

Lemma write_holds rb l ptr n b :
  holds rb l → 0 <= n <= room rb l → n <= Z.of_nat (length ptr) → wrote rb ptr n b →
  holds (after_write rb b n) (l ++ take (Z.to_nat n) ptr).
Proof.
  intros Hh Hn Hp [Hlen Hb]. pose proof (space_len_val rb l Hh) as Hsp. destruct Hh as [Hwf Hl Hby].
  rewrite <- Hsp in Hn.
  assert (Hlt : length (take (Z.to_nat n) ptr) = Z.to_nat n) by (rewrite length_take; lia).
  split; [by apply after_write_wf | |].
  { rewrite after_write_len, length_app, Hlt by done. lia. }
  intros j. rewrite length_app, Hlt. intros Hj.
  unfold rt_ringbuffer_space_len in Hn. rewrite data_len_val in * by done.
  destruct Hwf as [[Hs Hbuf] [Hr Hw] [Hrm Hwm] Ho].
  replace (buffer_ptr (after_write rb b n) !! _) with (b !! Z.to_nat (wrap (buffer_size rb) (read_index rb + j)))
    by (unfold after_write; destruct (_ <? _); done).
  destruct (Z.lt_ge_cases j (Z.of_nat (length l))).
  - rewrite lookup_app_l, Hby by lia. rewrite Hb by (unfold wrap; case_bools; lia).
    unfold wrap. revert Ho Hn Hl. case_bools; cbn [andb]; intros; try lia; done.
  - rewrite lookup_app_r, lookup_take_lt by lia. rewrite Hb by (unfold wrap; case_bools; lia).
    unfold wrap. revert Ho Hn Hl. case_bools; cbn [andb]; intros; try lia; f_equal; lia.
Qed.

Lemma after_read_wf rb n :
  ring_wf rb → 0 <= n <= rt_ringbuffer_data_len rb → ring_wf (after_read rb n).
Proof.
  intros Hwf Hn. rewrite data_len_val in Hn by done.
  destruct Hwf as [[Hs Hbuf] [Hr Hw] [Hrm Hwm] Ho].
  split; unfold after_read; destruct (Z.ltb_spec n (buffer_size rb - read_index rb)); ring_unfold;
    revert Ho Hn; case_bools; lia.
Qed.

Lemma after_read_len rb n :
  ring_wf rb → 0 <= n <= rt_ringbuffer_data_len rb →
  rt_ringbuffer_data_len (after_read rb n) = rt_ringbuffer_data_len rb - n.
Proof.
  intros Hwf Hn. rewrite (data_len_val (after_read _ _)) by by apply after_read_wf.
  rewrite data_len_val in * by done. destruct Hwf as [[Hs Hbuf] [Hr Hw] [Hrm Hwm] Ho].
  unfold after_read; destruct (Z.ltb_spec n (buffer_size rb - read_index rb)); ring_unfold;
    revert Ho Hn; case_bools; lia.
Qed.

Lemma read_holds rb l n :
  holds rb l → 0 <= n <= Z.of_nat (length l) → holds (after_read rb n) (drop (Z.to_nat n) l).
Proof.
  intros [Hwf Hl Hby] Hn. assert (Hn' : 0 <= n <= rt_ringbuffer_data_len rb) by lia.
  split; [by apply after_read_wf | rewrite length_drop, after_read_len by done; lia |].
  intros j. rewrite length_drop. intros Hj. rewrite lookup_drop.
  replace (Z.to_nat n + Z.to_nat j)%nat with (Z.to_nat (n + j)) by lia. rewrite Hby by lia.
  rewrite data_len_val in Hl, Hn' by done. destruct Hwf as [[Hs Hbuf] [Hr Hw] [Hrm Hwm] Ho]. clear Hby.
  replace (buffer_ptr (after_read rb n)) with (buffer_ptr rb) by (unfold after_read; by destruct (_ <? _)).
  f_equal. unfold after_read. destruct (Z.ltb_spec n (buffer_size rb - read_index rb)); ring_unfold;
    revert Ho Hn' Hl; case_bools; lia.
Qed.

(** Reading copies what the ring holds. *)
Lemma read_copy rb l ptr n :
  holds rb l → 0 <= n <= Z.of_nat (length l) → n <= Z.of_nat (length ptr) →
  (if n <? buffer_size rb - read_index rb then
     ptr ← memcpy ptr 0 (buffer_ptr rb) (read_index rb) n;
     Ok (set_read (read_mirror rb) (u15 (read_index rb + n)) rb, ptr, n)
   else
     ptr ← memcpy ptr 0 (buffer_ptr rb) (read_index rb) (buffer_size rb - read_index rb);
     ptr ← memcpy ptr (buffer_size rb - read_index rb) (buffer_ptr rb) 0
             (n - (buffer_size rb - read_index rb));
     Ok (set_read (flip (read_mirror rb)) (u15 (n - (buffer_size rb - read_index rb))) rb, ptr, n))
  = Ok (after_read rb n, take (Z.to_nat n) l ++ drop (Z.to_nat n) ptr, n).
Proof.
  intros [Hwf Hl Hby] Hn Hp. assert (Hn' : 0 <= n <= buffer_size rb)
    by (pose proof (data_len_range rb Hwf); lia).
  destruct Hwf as [[Hs Hbuf] [Hr Hw] [Hrm _] Ho].
  assert (Hcopy : ∀ p, length p = length ptr →
    (∀ i, 0 <= i → p !! Z.to_nat i = if i <? n then buffer_ptr rb !! Z.to_nat (wrap (buffer_size rb) (read_index rb + i))
                          else ptr !! Z.to_nat i) → p = take (Z.to_nat n) l ++ drop (Z.to_nat n) ptr).
  { intros p Hlp Hlook. apply list_eq. intros i. rewrite <- (Nat2Z.id i), Hlook by lia.
    destruct (Z.ltb_spec (Z.of_nat i) n).
    - rewrite lookup_app_l by (rewrite length_take; lia). by rewrite lookup_take_lt, Hby by lia.
    - rewrite lookup_app_r, lookup_drop, length_take by (rewrite length_take; lia). f_equal. lia. }
  unfold after_read. destruct (Z.ltb_spec n (buffer_size rb - read_index rb)).
  - destruct (memcpy_ok ptr 0 (buffer_ptr rb) (read_index rb) n) as (p & -> & Hlp & Hlook); try lia.
    cbn [mbind res_bind]. rewrite u15_id by lia. rewrite (Hcopy p); [done | done |].
    intros i Hi. rewrite Hlook by lia. unfold wrap. case_bools; cbn [andb]; try lia; f_equal; lia.
  - set (first := buffer_size rb - read_index rb) in *.
    destruct (memcpy_ok ptr 0 (buffer_ptr rb) (read_index rb) first) as (p1 & -> & Hlp1 & Hlook1); try lia.
    cbn [mbind res_bind].
    destruct (memcpy_ok p1 first (buffer_ptr rb) 0 (n - first)) as (p & -> & Hlp & Hlook); try lia.
    cbn [mbind res_bind]. rewrite u15_id, flip_val by (done || lia). rewrite (Hcopy p); [done | lia |].
    intros i Hi. rewrite Hlook, Hlook1 by lia. subst first. unfold wrap.
    case_bools; cbn [andb]; try lia; try done; f_equal; lia.
Qed.

(** ** What each operation does *)
Lemma rt_ringbuffer_init_ok pool size :
  4 <= size < 32768 → size <= Z.of_nat (length pool) →
  ∃ rb, rt_ringbuffer_init pool size = Ok rb ∧ holds rb [] ∧ buffer_size rb = size / 4 * 4.
Proof.
  intros Hs Hp. unfold rt_ringbuffer_init, rt_assert. rewrite (proj2 (Z.ltb_lt _ _)) by lia.
  cbn [require mbind res_bind]. rewrite align_down_val by lia.
  replace (s16 (size / 4 * 4)) with (size / 4 * 4) by word.
  eexists. split; [done |]. split; [| done].
  assert (ring_wf (mk_rb pool 0 0 0 0 (size / 4 * 4))).
  { split; cbn [buffer_ptr read_mirror read_index write_mirror write_index buffer_size Z.eqb]; lia. }
  split; [done | by rewrite data_len_val by done |]. simpl length. lia.
Qed.

Lemma rt_ringbuffer_put_ok rb l ptr len :
  holds rb l → 0 <= len < 65536 → len <= Z.of_nat (length ptr) →
  ∃ rb', rt_ringbuffer_put rb ptr len = Ok (rb', Z.min len (room rb l)) ∧
    holds rb' (l ++ take (Z.to_nat (Z.min len (room rb l))) ptr) ∧ buffer_size rb' = buffer_size rb.
Proof.
  intros Hh Hlen Hp. pose proof (holds_room rb l Hh) as Hroom. pose proof (rw_size _ (ho_wf _ _ Hh)) as Hs.
  unfold rt_ringbuffer_put. rewrite (space_len_val rb l Hh), u16_id by lia.
  destruct (Z.eqb_spec (room rb l) 0) as [E | E].
  { exists rb. rewrite E, Z.min_r by lia. rewrite app_nil_r. done. }
  replace (if room rb l <? len then room rb l else len) with (Z.min len (room rb l)) by (case_bools; lia).
  destruct (rb_write_ok rb ptr (Z.min len (room rb l))) as (b & -> & Hb); [apply Hh | lia | lia |].
  cbn [mbind res_bind]. eexists. split; [done |]. split; [apply write_holds; [done | lia | lia | done] |].
  unfold after_write. by destruct (_ <? _).
Qed.

Lemma rt_ringbuffer_get_ok rb l ptr len :
  holds rb l → 0 <= len < 65536 → len <= Z.of_nat (length ptr) →
  let n := Z.min len (Z.of_nat (length l)) in
  ∃ rb', rt_ringbuffer_get rb ptr len = Ok (rb', take (Z.to_nat n) l ++ drop (Z.to_nat n) ptr, n) ∧
    holds rb' (drop (Z.to_nat n) l) ∧ buffer_size rb' = buffer_size rb.
Proof.
  intros Hh Hlen Hp n. pose proof (data_len_range _ (ho_wf _ _ Hh)). pose proof (rw_size _ (ho_wf _ _ Hh)) as Hs.
  unfold rt_ringbuffer_get. rewrite <- (ho_len _ _ Hh) in *.
  destruct (Z.eqb_spec (Z.of_nat (length l)) 0) as [E | E].
  { exists rb. subst n. rewrite E, Z.min_r by lia. done. }
  rewrite u16_id by lia.
  replace (if Z.of_nat (length l) <? len then Z.of_nat (length l) else len) with n by (subst n; case_bools; lia).
  cbv zeta. rewrite (read_copy rb l) by (done || lia).
  eexists. split; [done |]. split; [apply read_holds; [done | lia] |].
  unfold after_read. by destruct (_ <? _).
Qed.

(** The position after one byte, as the single-byte operations compute it. *)
Lemma after_write_1 rb b : ring_wf rb →
  after_write rb b 1 = if write_index rb =? buffer_size rb - 1 then set_write b (flip (write_mirror rb)) 0 rb
                       else set_write b (write_mirror rb) (u15 (write_index rb + 1)) rb.
Proof.
  intros [[Hs _] [_ Hw] [_ Hwm] _]. unfold after_write.
  destruct (Z.eqb_spec (write_index rb) (buffer_size rb - 1)) as [E | E].
  - rewrite (proj2 (Z.ltb_ge _ _)), flip_val by (done || lia). f_equal. lia.
  - rewrite (proj2 (Z.ltb_lt _ _)), u15_id by lia. done.
Qed.
Lemma after_read_1 rb : ring_wf rb →
  after_read rb 1 = if read_index rb =? buffer_size rb - 1 then set_read (flip (read_mirror rb)) 0 rb
                    else set_read (read_mirror rb) (u15 (read_index rb + 1)) rb.
Proof.
  intros [[Hs _] [Hr _] [Hrm _] _]. unfold after_read.
  destruct (Z.eqb_spec (read_index rb) (buffer_size rb - 1)) as [E | E].
  - rewrite (proj2 (Z.ltb_ge _ _)), flip_val by (done || lia). f_equal. lia.
  - rewrite (proj2 (Z.ltb_lt _ _)), u15_id by lia. done.
Qed.

Lemma size_after_write rb b n : buffer_size (after_write rb b n) = buffer_size rb.
Proof. unfold after_write. by destruct (_ <? _). Qed.
Lemma size_after_read rb n : buffer_size (after_read rb n) = buffer_size rb.
Proof. unfold after_read. by destruct (_ <? _). Qed.

Lemma rt_ringbuffer_putchar_ok rb l ch :
  holds rb l →
  ∃ rb', rt_ringbuffer_putchar rb ch = Ok (rb', if room rb l =? 0 then 0 else 1) ∧
    holds rb' (if room rb l =? 0 then l else l ++ [ch]) ∧ buffer_size rb' = buffer_size rb.
Proof.
  intros Hh. pose proof (holds_room rb l Hh). unfold rt_ringbuffer_putchar. rewrite (space_len_val rb l Hh).
  destruct (Z.eqb_spec (room rb l) 0); [by exists rb |].
  destruct (store_byte_ok rb ch (ho_wf _ _ Hh)) as (b & -> & Hb). cbn [mbind res_bind].
  exists (after_write rb b 1). split_and!; [| | apply size_after_write].
  - rewrite after_write_1 by apply Hh. by destruct (_ =? _).
  - apply (write_holds rb l [ch] 1); [done | lia | simpl length; lia | done].
Qed.

Lemma rt_ringbuffer_getchar_ok rb l :
  holds rb l →
  ∃ rb', rt_ringbuffer_getchar rb = Ok (rb', head l, if bool_decide (l = []) then 0 else 1) ∧
    holds rb' (drop 1 l) ∧ buffer_size rb' = buffer_size rb.
Proof.
  intros Hh. unfold rt_ringbuffer_getchar. rewrite <- (ho_len _ _ Hh).
  destruct l as [| c l]; [by exists rb |].
  rewrite (proj2 (Z.eqb_neq _ _)) by (simpl length; lia). unfold load_byte.
  pose proof (ho_bytes _ _ Hh 0 ltac:(simpl length; lia)) as Hc.
  destruct (rw_index _ (ho_wf _ _ Hh)) as [Hr _].
  unfold wrap in Hc. rewrite Z.add_0_r, (proj2 (Z.ltb_lt _ _)) in Hc by lia.
  rewrite (proj2 (Z.leb_le _ _)), <- Hc by lia. cbn [require of_option mbind res_bind lookup list_lookup Z.to_nat].
  exists (after_read rb 1). split_and!; [| | apply size_after_read].
  - rewrite after_read_1 by apply Hh. by destruct (_ =? _).
  - apply (read_holds rb (c :: l) 1); [done | simpl length; lia].
Qed.

(** A full ring gives up its oldest byte. *)
Lemma status_full rb l : holds rb l →
  bool_decide (rt_ringbuffer_status rb = RT_RINGBUFFER_FULL) = (room rb l =? 0).
Proof.
  intros Hh. rewrite <- (space_len_val rb l Hh). unfold rt_ringbuffer_space_len.
  rewrite data_len_val by apply Hh. destruct (ho_wf _ _ Hh) as [[Hs _] [Hr Hw] [Hrm Hwm] Ho].
  unfold rt_ringbuffer_status. revert Ho.
  destruct (Z.eqb_spec (read_mirror rb) (write_mirror rb)), (Z.eqb_spec (read_index rb) (write_index rb)); intros Ho;
    [rewrite bool_decide_eq_false_2 by done | rewrite bool_decide_eq_false_2 by done |
     rewrite bool_decide_eq_true_2 by done | rewrite bool_decide_eq_false_2 by done]; symmetry;
    first [apply Z.eqb_neq; lia | apply Z.eqb_eq; lia].
Qed.

Lemma rt_ringbuffer_putchar_force_ok rb l ch :
  holds rb l →
  ∃ rb', rt_ringbuffer_putchar_force rb ch = Ok (rb', 1) ∧
    holds rb' ((if room rb l =? 0 then drop 1 l else l) ++ [ch]) ∧ buffer_size rb' = buffer_size rb.
Proof.
  intros Hh. pose proof (holds_room rb l Hh). unfold rt_ringbuffer_putchar_force. rewrite (status_full rb l Hh).
  destruct (store_byte_ok rb ch (ho_wf _ _ Hh)) as (b & -> & Hb). cbn [mbind res_bind].
  destruct (Z.eqb_spec (room rb l) 0) as [E | E].
  - assert (Hread : holds (after_read rb 1) (drop 1 l)).
    { apply (read_holds rb l 1); [done |]. pose proof (rw_size _ (ho_wf _ _ Hh)). unfold room in E. lia. }
    pose proof (ho_wf _ _ Hh) as Hwf.
    assert (Heq : read_index rb = write_index rb ∧ read_mirror rb ≠ write_mirror rb).
    { pose proof (status_full rb l Hh) as Hf. rewrite E in Hf. apply bool_decide_eq_true in Hf.
      unfold rt_ringbuffer_status in Hf. destruct (Z.eqb_spec (read_index rb) (write_index rb)); [| done].
      by destruct (Z.eqb_spec (read_mirror rb) (write_mirror rb)). }
    destruct Heq as [Hi Hm].
    exists (after_write (after_read rb 1) b 1). split_and!.
    + rewrite after_write_1 by apply Hread. rewrite after_read_1, Hi by done.
      by destruct (Z.eqb_spec (write_index rb) (buffer_size rb - 1)) as [E1 | E1];
        ring_unfold; [rewrite E1, Z.eqb_refl | rewrite (proj2 (Z.eqb_neq _ _) E1)].
    + apply (write_holds (after_read rb 1) (drop 1 l) [ch] 1); [done | | simpl length; lia |].
      * unfold room in *. rewrite length_drop, size_after_read. pose proof (rw_size _ Hwf). lia.
      * clear -Hb. unfold wrote, after_read in *. by destruct (_ <? _).
    + by rewrite size_after_write, size_after_read.
  - exists (after_write rb b 1). split_and!; [| | apply size_after_write].
    + rewrite after_write_1 by apply Hh. by destruct (_ =? _).
    + apply (write_holds rb l [ch] 1); [done | lia | simpl length; lia | done].
Qed.

(** A ring that was filled at once. *)
Lemma full_holds rb b ptr :
  ring_wf rb → buffer_size rb <= Z.of_nat (length ptr) → wrote rb ptr (buffer_size rb) b →
  ∀ m m', (m = 0 ∨ m = 1) → (m' = 0 ∨ m' = 1) → m ≠ m' →
  holds (mk_rb b m (write_index rb) m' (write_index rb) (buffer_size rb)) (take (Z.to_nat (buffer_size rb)) ptr).
Proof.
  intros [[Hs Hbuf] [Hr Hw] _ _] Hp [Hlen Hb] m m' Hm Hm' Hne.
  assert (Hlt : length (take (Z.to_nat (buffer_size rb)) ptr) = Z.to_nat (buffer_size rb)) by (rewrite length_take; lia).
  assert (Hwf : ring_wf (mk_rb b m (write_index rb) m' (write_index rb) (buffer_size rb))).
  { split; ring_unfold; rewrite ?Hlen; try lia. rewrite (proj2 (Z.eqb_neq _ _)) by done. lia. }
  split; [done | |].
  - rewrite Hlt, data_len_val by done. ring_unfold. rewrite (proj2 (Z.eqb_neq _ _)) by done. lia.
  - rewrite Hlt. intros j Hj. ring_unfold. rewrite lookup_take_lt by lia.
    rewrite Hb by (case_bools; lia). case_bools; cbn [andb]; try lia; f_equal; lia.
Qed.

(** Enough room: as [rt_ringbuffer_put].  Otherwise the ring takes as many bytes
    as it has, from the first on, and holds them - unless what it held before
    lay in one mirror, which leaves it empty. *)
Lemma rt_ringbuffer_put_force_ok rb l ptr len :
  holds rb l → 0 <= len < 65536 →
  let over := room rb l <? len in
  (if over then buffer_size rb else len) <= Z.of_nat (length ptr) →
  ∃ rb', rt_ringbuffer_put_force rb ptr len = Ok (rb', if over then buffer_size rb else len) ∧
    holds rb' (if over then
                 if (read_mirror rb =? write_mirror rb) && negb (bool_decide (l = [])) then []
                 else take (Z.to_nat (buffer_size rb)) ptr
               else l ++ take (Z.to_nat len) ptr) ∧
    buffer_size rb' = buffer_size rb.
Proof.
  intros Hh Hlen over Hp. pose proof (holds_room rb l Hh) as Hroom. pose proof (ho_wf _ _ Hh) as Hwf.
  pose proof (rw_size _ Hwf) as Hs.
  unfold rt_ringbuffer_put_force. rewrite (space_len_val rb l Hh), u16_id by lia. fold over.
  replace (if over then u16 (buffer_size rb) else len) with (if over then buffer_size rb else len)
    by (destruct over; [rewrite u16_id by lia |]; done).
  assert (Hover : over = true ↔ room rb l < len) by (subst over; by rewrite Z.ltb_lt).
  destruct over.
  - destruct (rb_write_ok rb ptr (buffer_size rb)) as (b & -> & Hb); [done | lia | done |].
    cbn [mbind res_bind]. destruct Hwf as [? [Hr Hw] [Hrm Hwm] Ho].
    rewrite (proj2 (Z.ltb_ge (buffer_size rb) _)) by lia. cbn [negb].
    eexists. split; [done |].
    split; [| by destruct (_ <? _); ring_unfold; destruct (_ <? _)].
    assert (El : bool_decide (l = []) = (room rb l =? buffer_size rb)).
    { unfold room. destruct l as [| c l]; simpl length;
        [rewrite bool_decide_eq_true_2 by done | rewrite bool_decide_eq_false_2 by done]; symmetry;
        first [apply Z.eqb_eq; lia | apply Z.eqb_neq; lia]. }
    rewrite El. pose proof (space_len_val rb l Hh) as Hsp. unfold rt_ringbuffer_space_len in Hsp.
    rewrite data_len_val in Hsp by apply Hh.
    unfold after_write. rewrite (proj2 (Z.ltb_ge (buffer_size rb) _)) by lia.
    replace (buffer_size rb - (buffer_size rb - write_index rb)) with (write_index rb) by lia.
    destruct (Z.eqb_spec (room rb l) (buffer_size rb)) as [E | E]; cbn [negb]; rewrite ?andb_false_r.
    + rewrite (proj2 (Z.ltb_ge _ _)) by lia. ring_unfold.
      destruct (Z.eqb_spec (read_mirror rb) (write_mirror rb)) as [Em |]; [| lia].
      replace (read_index rb) with (write_index rb) by lia.
      apply full_holds; [apply Hh | lia | done | done | lia | lia].
    + rewrite (proj2 (Z.ltb_lt _ _)), flip_val by (done || lia). ring_unfold.
      destruct (Z.eqb_spec (read_mirror rb) (write_mirror rb)) as [Em | Em]; cbn [andb].
      * assert (Hwf' : ring_wf (mk_rb b (1 - read_mirror rb) (write_index rb) (1 - write_mirror rb)
                                  (write_index rb) (buffer_size rb))).
        { split; cbn [buffer_ptr read_mirror read_index write_mirror write_index buffer_size];
            [destruct Hb as [-> _]; lia | lia | lia |]. by rewrite Em, Z.eqb_refl. }
        split; [done | | simpl length; lia].
        rewrite data_len_val by done. cbn [read_mirror write_mirror read_index write_index].
        rewrite Em, Z.eqb_refl. simpl length. lia.
      * apply full_holds; [apply Hh | lia | done | lia | lia | lia].
  - destruct (rb_write_ok rb ptr len) as (b & -> & Hb); [done | lia | lia |].
    cbn [mbind res_bind]. rewrite (proj2 (Z.ltb_ge _ _)) by lia. eexists. split; [done |].
    split; [apply write_holds; [done | lia | lia | done] | apply size_after_write].
Qed.

(** ** A ring is a bounded queue of bytes *)
Inductive rb_call :=
  | RbPut (data : list Z) | RbGet (n : Z) | RbPutchar (ch : Z) | RbGetchar | RbPutcharForce (ch : Z)
  | RbPutForce (data : list Z).

(** What a call shows to its caller: the count it returns and the bytes. *)
Definition rb_step (c : rb_call) (rb : rt_ringbuffer) : res (rt_ringbuffer * (Z * list Z)) :=
  match c with
  | RbPut data => '(rb, n) ← rt_ringbuffer_put rb data (Z.of_nat (length data)); Ok (rb, (n, []))
  | RbGet n =>
      '(rb, buf, n) ← rt_ringbuffer_get rb (replicate (Z.to_nat n) 0) n;
      Ok (rb, (n, take (Z.to_nat n) buf))
  | RbPutchar ch => '(rb, n) ← rt_ringbuffer_putchar rb ch; Ok (rb, (n, []))
  | RbGetchar => '(rb, ch, n) ← rt_ringbuffer_getchar rb; Ok (rb, (n, option_list ch))
  | RbPutcharForce ch => '(rb, n) ← rt_ringbuffer_putchar_force rb ch; Ok (rb, (n, []))
  | RbPutForce data => '(rb, n) ← rt_ringbuffer_put_force rb data (Z.of_nat (length data)); Ok (rb, (n, []))
  end.
Fixpoint rb_run (cs : list rb_call) (rb : rt_ringbuffer) : res (rt_ringbuffer * list (Z * list Z)) :=
  match cs with
  | [] => Ok (rb, [])
  | c :: cs => '(rb, o) ← rb_step c rb; '(rb, os) ← rb_run cs rb; Ok (rb, o :: os)
  end.

(** The queue of at most [cap] bytes. *)
Definition fifo_step (cap : Z) (c : rb_call) (l : list Z) : list Z * (Z * list Z) :=
  let space := cap - Z.of_nat (length l) in
  match c with
  | RbPut data =>
      let n := Z.min (Z.of_nat (length data)) space in (l ++ take (Z.to_nat n) data, (n, []))
  | RbGet n => (drop (Z.to_nat n) l, (Z.min n (Z.of_nat (length l)), take (Z.to_nat n) l))
  | RbPutchar ch => if space =? 0 then (l, (0, [])) else (l ++ [ch], (1, []))
  | RbGetchar => match l with [] => ([], (0, [])) | c :: l => (l, (1, [c])) end
  | RbPutcharForce ch => ((if space =? 0 then drop 1 l else l) ++ [ch], (1, []))
  | RbPutForce data =>
      if space <? Z.of_nat (length data) then (take (Z.to_nat cap) data, (cap, []))
      else (l ++ data, (Z.of_nat (length data), []))
  end.
Fixpoint fifo_run (cap : Z) (cs : list rb_call) (l : list Z) : list Z * list (Z * list Z) :=
  match cs with
  | [] => (l, [])
  | c :: cs => let '(l, o) := fifo_step cap c l in let '(l, os) := fifo_run cap cs l in (l, o :: os)
  end.

(** Lengths fit the parameter type.  [rt_ringbuffer_put_force] has room, or forces a ring
    that is empty or full with at least as many bytes as the ring has: otherwise it
    does not do what it is for ([put_force_empties], [put_force_reads_beyond]). *)
Definition rb_call_ok (cap : Z) (c : rb_call) (l : list Z) : bool :=
  match c with
  | RbPut data => Z.of_nat (length data) <? 65536
  | RbGet n => (0 <=? n) && (n <? 65536)
  | RbPutForce data =>
      (Z.of_nat (length data) <=? cap - Z.of_nat (length l)) ||
      (cap <=? Z.of_nat (length data)) && (Z.of_nat (length data) <? 65536) &&
        (bool_decide (l = []) || (Z.of_nat (length l) =? cap))
  | _ => true
  end.
Fixpoint rb_calls_ok (cap : Z) (cs : list rb_call) (l : list Z) : bool :=
  match cs with
  | [] => true
  | c :: cs => rb_call_ok cap c l && rb_calls_ok cap cs (fifo_step cap c l).1
  end.

Lemma take_of_read (l l' : list Z) n : (n <= length l)%nat → take n (take n l ++ l') = take n l.
Proof. intros Hn. rewrite take_app_le by (rewrite length_take; lia). by rewrite take_take, Nat.min_id. Qed.

Lemma rb_step_refines c rb l :
  holds rb l → rb_call_ok (buffer_size rb) c l = true →
  ∃ rb', rb_step c rb = Ok (rb', (fifo_step (buffer_size rb) c l).2) ∧
    holds rb' (fifo_step (buffer_size rb) c l).1 ∧ buffer_size rb' = buffer_size rb.
Proof.
  intros Hh Hok. pose proof (holds_room rb l Hh) as Hroom. destruct c; cbn [rb_step fifo_step rb_call_ok] in *.
  - apply Z.ltb_lt in Hok.
    destruct (rt_ringbuffer_put_ok rb l data (Z.of_nat (length data))) as (rb' & -> & H); [done | lia | lia |].
    by exists rb'.
  - apply andb_prop in Hok as [H0%Z.leb_le H1%Z.ltb_lt].
    destruct (rt_ringbuffer_get_ok rb l (replicate (Z.to_nat n) 0) n) as (rb' & -> & Hh' & Hs);
      [done | lia | rewrite length_replicate; lia |].
    exists rb'. cbn [mbind res_bind fst snd]. rewrite take_of_read by lia.
    destruct (Z.le_ge_cases n (Z.of_nat (length l))).
    + by rewrite Z.min_l in * by lia.
    + rewrite Z.min_r, Nat2Z.id in * by lia. by rewrite !take_ge, !drop_ge in * by lia.
  - destruct (rt_ringbuffer_putchar_ok rb l ch Hh) as (rb' & -> & Hh' & Hs). exists rb'.
    unfold room in *. cbn [mbind res_bind]. by destruct (_ =? 0).
  - destruct (rt_ringbuffer_getchar_ok rb l Hh) as (rb' & -> & Hh' & Hs). exists rb'. by destruct l.
  - destruct (rt_ringbuffer_putchar_force_ok rb l ch Hh) as (rb' & -> & Hh' & Hs). exists rb'. done.
  - pose proof (rw_size _ (ho_wf _ _ Hh)).
    destruct (Z.ltb_spec (buffer_size rb - Z.of_nat (length l)) (Z.of_nat (length data))) as [Hover | Hfit].
    { rewrite (proj2 (Z.leb_gt _ _)) in Hok by lia. cbn [orb] in Hok.
      apply andb_prop in Hok as [[Hcap%Z.leb_le Hlen%Z.ltb_lt]%andb_prop Hl].
      destruct (rt_ringbuffer_put_force_ok rb l data (Z.of_nat (length data))) as (rb' & -> & Hh' & Hs);
        [done | lia | unfold room; rewrite (proj2 (Z.ltb_lt _ _)); lia |].
      unfold room in *. rewrite (proj2 (Z.ltb_lt _ _)) in * by lia. exists rb'. split; [done |]. split; [| done].
      cbn [fst]. case_bool_decide as Hnil; cbn [orb negb] in *; [by rewrite andb_false_r in Hh' |].
      apply Z.eqb_eq in Hl. pose proof (status_full rb l Hh) as Hf. unfold room in Hf.
      rewrite (proj2 (Z.eqb_eq _ 0)) in Hf by lia. apply bool_decide_eq_true in Hf. unfold rt_ringbuffer_status in Hf.
      destruct (read_index rb =? write_index rb); [| done]. by destruct (read_mirror rb =? write_mirror rb). }
    clear Hok.
    destruct (rt_ringbuffer_put_force_ok rb l data (Z.of_nat (length data))) as (rb' & -> & Hh' & Hs);
      unfold room in *; [done | lia | destruct (_ <? _) eqn:E; [apply Z.ltb_lt in E; lia | lia] |].
    cbn [fst snd]. rewrite (proj2 (Z.ltb_ge _ _)) in * by lia. exists rb'. rewrite Nat2Z.id, take_ge in Hh' by lia. done.
Qed.

Lemma rb_run_refines cs : ∀ rb l,
  holds rb l → rb_calls_ok (buffer_size rb) cs l = true →
  ∃ rb', rb_run cs rb = Ok (rb', (fifo_run (buffer_size rb) cs l).2) ∧
    holds rb' (fifo_run (buffer_size rb) cs l).1.
Proof.
  induction cs as [| c cs IH]; intros rb l Hh Hok; cbn [rb_run fifo_run rb_calls_ok] in *; [by exists rb |].
  apply andb_prop in Hok as [Hc Hok].
  destruct (rb_step_refines c rb l Hh Hc) as (rb1 & -> & Hh1 & Hs). cbn [mbind res_bind].
  destruct (fifo_step (buffer_size rb) c l) as [l1 o]. cbn [fst snd] in *.
  destruct (IH rb1 l1) as (rb2 & -> & Hh2); [done | by rewrite Hs |]. rewrite Hs in *. cbn [mbind res_bind].
  exists rb2. by destruct (fifo_run (buffer_size rb) cs l1).
Qed.

(** C30. A ring buffer that [rt_ringbuffer_init] made over at least four bytes is
    a bounded queue of bytes.  Any sequence of puts, gets and single bytes, forced
    ([rt_ringbuffer_putchar_force]: the oldest byte gives way) or not, and of
    [rt_ringbuffer_put_force] calls that have room or overwrite an empty or full ring
    with at least as many bytes as it has (the first of them are kept), returns the counts
    and bytes of the queue, never leaves the memory, and ends with the ring holding
    what is in the queue; the capacity is the size rounded down to a multiple of four.
    Other [rt_ringbuffer_put_force] calls are left out: they lose the ring's bytes or read
    beyond the caller's. *)
Theorem rt_ringbuffer_refines_fifo pool size cs :
  4 <= size < 32768 → size <= Z.of_nat (length pool) → rb_calls_ok (size / 4 * 4) cs [] = true →
  ∃ rb rb', rt_ringbuffer_init pool size = Ok rb ∧
    rb_run cs rb = Ok (rb', (fifo_run (size / 4 * 4) cs []).2) ∧
    holds rb' (fifo_run (size / 4 * 4) cs []).1.
Proof.
  intros Hs Hp Hok. destruct (rt_ringbuffer_init_ok pool size Hs Hp) as (rb & Hi & Hh & Hc).
  rewrite <- Hc in *. destruct (rb_run_refines cs rb [] Hh Hok) as (rb' & Hr & Hh'). by exists rb, rb'.
Qed.

Definition demo_calls : list rb_call :=
  [RbPut [1; 2; 3; 4; 5; 6]; RbGet 4; RbPut [7; 8; 9; 10]; RbPutchar 11; RbPutcharForce 12; RbGetchar;
   RbPutForce [13]; RbGet 20; RbGetchar;
   RbPut [1; 2; 3; 4; 5; 6; 7; 8]; RbPutForce [9; 10; 11; 12; 13; 14; 15; 16; 17]; RbGetchar].

Lemma rt_ringbuffer_refines_fifo_witness :
  ∃ rb rb', rt_ringbuffer_init (replicate 11 0) 11 = Ok rb ∧
    rb_run demo_calls rb =
      Ok (rb', [(6, []); (4, [1; 2; 3; 4]); (4, []); (1, []); (1, []); (1, [5]); (1, []);
                (8, [6; 7; 8; 9; 10; 11; 12; 13]); (0, []); (8, []); (8, []); (1, [9])]).
Proof.
  destruct (rt_ringbuffer_refines_fifo (replicate 11 0) 11 demo_calls) as (rb & rb' & Hi & Hr & _);
    [lia | done | vm_compute; reflexivity |].
  exists rb, rb'. split; [exact Hi | exact Hr].
Defined.

(** ** Where the code falls short

    [rt_ringbuffer_put_force] is to discard old bytes of a ring that is too
    full.  When those bytes lie in one mirror, it turns both mirror bits: the
    ring reads as empty, and the bytes it reports as written are gone. *)
Theorem put_force_empties rb l ptr len :
  holds rb l → l ≠ [] → read_mirror rb = write_mirror rb →
  room rb l < len < 65536 → buffer_size rb <= Z.of_nat (length ptr) →
  ∃ rb', rt_ringbuffer_put_force rb ptr len = Ok (rb', buffer_size rb) ∧
    holds rb' [] ∧ rt_ringbuffer_data_len rb' = 0.
Proof.
  intros Hh Hl Hm Hlen Hp. pose proof (holds_room rb l Hh).
  destruct (rt_ringbuffer_put_force_ok rb l ptr len Hh) as (rb' & E & Hh' & _);
    rewrite ?(proj2 (Z.ltb_lt _ _)) in * by lia; [lia | done |].
  rewrite Hm, Z.eqb_refl, bool_decide_eq_false_2 in Hh' by done. cbn [andb negb] in Hh'.
  exists rb'. split_and!; [done | done |]. by rewrite <- (ho_len _ _ Hh').
Qed.

(** And it reads as many bytes as the ring has, also where the caller passed
    fewer. *)
Lemma put_force_short rb l ptr len :
  holds rb l → room rb l < len < 65536 → Z.of_nat (length ptr) < buffer_size rb →
  rt_ringbuffer_put_force rb ptr len = Stop OutOfBounds.
Proof.
  intros Hh Hlen Hp. pose proof (holds_room rb l Hh). destruct (ho_wf _ _ Hh) as [[Hs Hbuf] [Hr Hw] _ _].
  unfold rt_ringbuffer_put_force. rewrite (space_len_val rb l Hh), u16_id by lia.
  rewrite (proj2 (Z.ltb_lt (room rb l) len)), (u16_id (buffer_size rb)) by lia. unfold rb_write.
  rewrite (proj2 (Z.ltb_ge (buffer_size rb) _)) by lia.
  destruct (memcpy (buffer_ptr rb) (write_index rb) ptr 0 (buffer_size rb - write_index rb)) as [b |] eqn:E.
  - cbn [mbind res_bind]. unfold memcpy.
    rewrite (proj2 (Z.leb_gt (_ + _) (Z.of_nat (length ptr)))) by lia. by rewrite andb_false_r.
  - revert E. unfold memcpy. destruct (_ && _); [done |]. by intros [= <-].
Qed.

Theorem put_force_reads_beyond rb l ptr :
  holds rb l → room rb l < Z.of_nat (length ptr) < buffer_size rb →
  rt_ringbuffer_put_force rb ptr (Z.of_nat (length ptr)) = Stop OutOfBounds.
Proof.
  intros Hh Hp. destruct (rw_size _ (ho_wf _ _ Hh)). apply (put_force_short rb l); [done | lia | lia].
Qed.

(** When it returns, the ring holds something. *)
Lemma put_force_holds rb l ptr len rb' n :
  holds rb l → 0 <= len < 65536 → len <= Z.of_nat (length ptr) → rt_ringbuffer_put_force rb ptr len = Ok (rb', n) →
  ∃ l', holds rb' l' ∧ buffer_size rb' = buffer_size rb.
Proof.
  intros Hh Hlen Hp E. destruct (Z.ltb_spec (room rb l) len) as [Ho | Ho].
  - destruct (Z.lt_ge_cases (Z.of_nat (length ptr)) (buffer_size rb)).
    { by rewrite (put_force_short rb l) in E by (done || lia). }
    destruct (rt_ringbuffer_put_force_ok rb l ptr len Hh Hlen) as (rb1 & E1 & Hh1 & Hs1);
      rewrite (proj2 (Z.ltb_lt _ _)) in * by lia; [done |].
    rewrite E in E1. injection E1 as <- _. by eexists.
  - destruct (rt_ringbuffer_put_force_ok rb l ptr len Hh Hlen) as (rb1 & E1 & Hh1 & Hs1);
      rewrite (proj2 (Z.ltb_ge _ _)) in * by lia; [done |].
    rewrite E in E1. injection E1 as <- _. by eexists.
Qed.

(** A ring over fewer than four bytes has no capacity, and
    [rt_ringbuffer_putchar_force] writes on behind them. *)
Theorem tiny_ring_overruns pool ch :
  0 < Z.of_nat (length pool) < 4 →
  ∃ rb, rt_ringbuffer_init pool (Z.of_nat (length pool)) = Ok rb ∧ buffer_size rb = 0 ∧
    rb_run (replicate (S (length pool)) (RbPutcharForce ch)) rb = Stop OutOfBounds.
Proof.
  intros Hp. exists (mk_rb pool 0 0 0 0 0).
  destruct pool as [| a [| b [| c [|]]]]; simpl length in *; try lia; (split; [| split]); vm_compute; reflexivity.
Qed.
