(* ===== verification/Completion.v ===== *)
(** * Completions: [components/drivers/src/completion.c]

    A flag and at most one thread that waits for it ([QWait]).  As the data
    queues of [DataQueue], an option of the device framework that [rtconfig.h]
    leaves out.  [rt_completion_wait] is split at [rt_schedule], as the
    operations of [Mailbox] are. *)
From S2P Require Import Prelude Timer KObject Kernel KernelInv ThreadOps Tick ThreadProps Ipc.
Local Open Scope Z_scope.

Definition RT_COMPLETED : Z := 1.
Definition RT_UNCOMPLETED : Z := 0.

(** [struct rt_completion] without its list. *)
Record rt_completion := mk_completion { cp_flag : Z }.

(** ** Operations *)
Definition rt_completion_init (i : nat) (k : kernel) : rt_completion * kernel :=
  (mk_completion RT_UNCOMPLETED, rt_ipc_object_init (QWait i) k).

Definition rt_completion_wait (i : nat) (timeout : Z) (c : rt_completion) (k : kernel) :
    res (rt_completion * kernel * call_result Z) :=
  if negb (cp_flag c =? RT_COMPLETED) then
    _ ← rt_assert (rt_list_isempty (QWait i) k);
    if timeout =? 0 then Ok (c, k, Returned (- RT_ETIMEOUT))
    else
      thread ← of_option NullDeref (rt_thread_self k);
      th ← get_thread thread k;
      let k := set_thread thread (with_error RT_EOK th) k in
      '(k, _) ← rt_thread_suspend thread k;
      k ← rt_list_insert_before (QWait i) thread k;
      _ ← debug_not_in_interrupt k;
      k ← (if 0 <? timeout then start_thread_timer thread timeout k else Ok k);
      k ← rt_schedule k;
      Ok (c, k, Waiting timeout 0)
  else Ok (mk_completion RT_UNCOMPLETED, k, Returned RT_EOK).

(** Behind [rt_schedule]. *)
Definition rt_completion_wait_resume (thread : tid) (c : rt_completion) (k : kernel) :
    res (rt_completion * kernel * call_result Z) :=
  th ← get_thread thread k;
  Ok (mk_completion RT_UNCOMPLETED, k, Returned (error th)).

Definition rt_completion_done (i : nat) (c : rt_completion) (k : kernel) : res (rt_completion * kernel) :=
  if cp_flag c =? RT_COMPLETED then Ok (c, k)
  else
    k ← wake_one (QWait i) k;
    Ok (mk_completion RT_COMPLETED, k).

(** ** The invariant: one waiting thread at most, and none when the flag is set *)
Record completion_inv (i : nat) (c : rt_completion) (k : kernel) : Prop := {
  ci_one : (length (q_get k (QWait i)) <= 1)%nat;
  ci_set : cp_flag c = RT_COMPLETED → q_get k (QWait i) = [];
  ci_clean : waiters_clean i k }.

Lemma completion_inv_stable i c k k' :
  completion_inv i c k → wstable (owns i) k k' → completion_inv i c k'.
Proof.
  intros [O S C] Hs. split.
  - etransitivity; [| exact O]. apply sublist_length. apply (ws_q _ _ _ Hs); [done | by left].
  - intros Hf. eapply wstable_nil; [exact Hs | done | by left | by apply S].
  - by eapply waiters_clean_stable.
Qed.

Lemma completion_waits lo i timeout c t th k :
  -1 <= lo <= 0 → kinv None lo k → completion_inv i c k → in_thread k t th → timeout < TICK_HALF →
  cp_flag c ≠ RT_COMPLETED → q_get k (QWait i) = [] → timeout ≠ 0 →
  ∃ k1, rt_completion_wait i timeout c k = (k' ← rt_schedule k1; Ok (c, k', Waiting timeout 0)) ∧
    blocked lo i (QWait i) RT_IPC_FLAG_FIFO timeout t th k k1 ∧ completion_inv i c k1.
Proof.
  intros Hlo Hk [O S C] Hin Ht Hf Hq Hnz. pose proof Hin as (Hn & Hc & Htc & _).
  destruct (block_current lo i (QWait i) RT_IPC_FLAG_FIFO timeout t th k) as (k1 & E & Hb);
    [done | done | done | by left | by left | done | done |].
  exists k1. split_and!; [| done |].
  - unfold rt_completion_wait. rewrite (proj2 (Z.eqb_neq _ _) Hf). unfold rt_list_isempty. rewrite Hq.
    cbn [negb rt_assert require mbind res_bind]. rewrite (proj2 (Z.eqb_neq _ _) Hnz).
    unfold rt_thread_self. rewrite Hc. cbn [of_option mbind res_bind]. rewrite (get_thread_ok t th k Htc).
    cbn [mbind res_bind]. unfold suspend_on, rt_ipc_list_suspend in E. rewrite Z.eqb_refl in E.
    set (k0 := set_thread t (with_error RT_EOK th) k) in *.
    apply bind_ok_inv in E as (k2 & E & E2). apply bind_ok_inv in E as ([k3 b] & E & E1).
    rewrite E. cbn [mbind res_bind]. rewrite E1. cbn [mbind res_bind].
    assert (Hnest : rt_interrupt_nest k2 = 0).
    { pose proof (suspend_spec lo t (with_error RT_EOK th) k0) as Hsus.
      rewrite decide_True in Hsus by apply Hin.
      destruct Hsus as (k4 & E4 & _ & [He _ _] & _); [by apply (kinv_set_thread _ _ _ th) | apply lookup_insert_eq |].
      assert (k4 = k3) as -> by congruence.
      unfold rt_list_insert_before in E1. apply bind_ok_inv in E1 as (? & _ & [= <-]).
      transitivity (rt_interrupt_nest k3); [done |]. by rewrite (se_nest _ _ He). }
    unfold debug_not_in_interrupt. rewrite Hnest. cbn [Z.eqb rt_assert require mbind res_bind]. by rewrite E2.
  - pose proof (wt_q _ _ _ _ _ _ (bk_wait _ _ _ _ _ _ _ _ _ Hb)) as Hqq. split.
    + rewrite Hqq, decide_True, Hq by done. done.
    + done.
    + eapply waiters_clean_blocked; [done | by left | done].
Qed.

Lemma completion_assert i timeout c k :
  cp_flag c ≠ RT_COMPLETED → q_get k (QWait i) ≠ [] → rt_completion_wait i timeout c k = Stop AssertFail.
Proof.
  intros Hf Hq. unfold rt_completion_wait, rt_list_isempty. rewrite (proj2 (Z.eqb_neq _ _) Hf).
  by destruct (q_get k (QWait i)).
Qed.

(** ** The protocol *)
Inductive completion_step (i : nat) : rt_completion → kernel → rt_completion → kernel → Prop :=
  | completion_step_wait timeout t th c k c' k' r :
      (cp_flag c ≠ RT_COMPLETED → timeout ≠ 0 → in_thread k t th) → timeout < TICK_HALF →
      rt_completion_wait i timeout c k = Ok (c', k', r) → completion_step i c k c' k'
  | completion_step_resume t c k c' k' r :
      rt_completion_wait_resume t c k = Ok (c', k', r) → completion_step i c k c' k'
  | completion_step_done c k c' k' :
      rt_completion_done i c k = Ok (c', k') → completion_step i c k c' k'.

Lemma completion_step_ok i c k c' k' :
  kinv None 0 k → completion_inv i c k → completion_step i c k c' k' →
  kinv None 0 k' ∧ completion_inv i c' k' ∧ ∀ j, j ≠ i → wstable (owns j) k k'.
Proof.
  intros Hk Hi Hs. pose proof Hi as [O S C].
  destruct Hs as [timeout t th c k c' k' r Hin Ht Hr | t c k c' k' r Hr | c k c' k' Hr].
  - destruct (Z.eq_dec (cp_flag c) RT_COMPLETED) as [Hf | Hf].
    { unfold rt_completion_wait in Hr. rewrite Hf in Hr. injection Hr as <- <- _. by split_and!. }
    destruct (decide (q_get k (QWait i) = [])) as [Hq | Hq]; [| by rewrite completion_assert in Hr].
    destruct (Z.eq_dec timeout 0) as [-> | Hnz].
    { unfold rt_completion_wait, rt_list_isempty in Hr. rewrite (proj2 (Z.eqb_neq _ _) Hf), Hq in Hr.
      injection Hr as <- <- _. by split_and!. }
    destruct (completion_waits 0 i timeout c t th k) as (k1 & E & [Hkb _ _ _ Hwb] & Hi1); [lia | by auto.. |].
    rewrite E in Hr. apply bind_ok_inv in Hr as (k2 & Es & [= <- <- _]).
    split_and!; [by eapply schedule_kinv | eapply completion_inv_stable; [done | by apply wstable_schedule] |].
    intros j Hj. transitivity k1; [by apply Hwb | by apply wstable_schedule].
  - apply bind_ok_inv in Hr as (th & _ & [= <- <- _]). by split_and!.
  - unfold rt_completion_done in Hr. destruct (_ =? _); [by injection Hr as <- <- |].
    apply bind_ok_inv in Hr as (k1 & E & [= <- <-]).
    destruct (wake_one_safe 0 (QWait i) k k1 Hk I E) as [Hk1 Hw].
    assert (Hq : q_get k1 (QWait i) = []).
    { apply sublist_nil_r. pose proof (wake_one_tail 0 (QWait i) k k1 Hk I E) as Hsub.
      destruct (q_get k (QWait i)) as [| t [| t' l]]; simpl in *; [done | done | lia]. }
    split_and!; [done | | intros; by apply wstable_every]. split; [by rewrite Hq; simpl; lia | done |].
    eapply waiters_clean_stable; [done | by apply wstable_every].
Qed.

#[global] Program Instance completion_protocol : IpcProtocol rt_completion :=
  { istep := completion_step; iinv := completion_inv }.
Next Obligation. intros. by eapply completion_inv_stable. Qed.
Next Obligation. intros. by eapply completion_step_ok. Qed.

(** ** Properties *)

(** [rt_completion_wait]: a set flag is taken at once; otherwise the call
    fails at once without waiting, or leaves the caller alone in the list, its
    timer set when there is a limit; a second waiting thread fails the
    assertion. *)
Theorem rt_completion_wait_spec lo i timeout c t th k :
  -1 <= lo <= 0 → kinv None lo k → completion_inv i c k → in_thread k t th → timeout < TICK_HALF →
  others_ready t k →
  if cp_flag c =? RT_COMPLETED then
    rt_completion_wait i timeout c k = Ok (mk_completion RT_UNCOMPLETED, k, Returned RT_EOK)
  else match q_get k (QWait i) with
  | _ :: _ => rt_completion_wait i timeout c k = Stop AssertFail
  | [] =>
      if timeout =? 0 then rt_completion_wait i timeout c k = Ok (c, k, Returned (- RT_ETIMEOUT))
      else ∃ k', rt_completion_wait i timeout c k = Ok (c, k', Waiting timeout 0) ∧ kinv None lo k' ∧
        threads k' !! t = Some (blocked_thread th) ∧ q_get k' (QWait i) = [t] ∧
        (if 0 <? timeout
         then TThread t ∈ rt_timer_list (tsys k') ∧ remaining (tsys k') (TThread t) = timeout
         else TThread t ∉ rt_timer_list (tsys k'))
  end.
Proof.
  intros Hlo Hk Hi Hin Ht Ho. destruct (Z.eqb_spec (cp_flag c) RT_COMPLETED) as [Hf | Hf].
  { unfold rt_completion_wait. by rewrite Hf. }
  destruct (q_get k (QWait i)) as [| u l] eqn:Hq; [| apply completion_assert; [done | by rewrite Hq]].
  destruct (Z.eqb_spec timeout 0) as [-> | Hnz].
  { unfold rt_completion_wait, rt_list_isempty. by rewrite (proj2 (Z.eqb_neq _ _) Hf), Hq. }
  destruct (completion_waits lo i timeout c t th k) as (k1 & -> & Hb & _); [done.. |].
  destruct (block_schedule _ _ _ _ _ _ _ _ _ Hb Hin Ho) as (k' & -> & Hk' & (_ & Sq & Sts & _) & Ht' & _).
  exists k'. rewrite Sts. destruct Hb as [_ Hw Htm _ _]. split_and!; try done.
  unfold q_get. rewrite Sq. fold (q_get k1 (QWait i)).
  by rewrite (wt_q _ _ _ _ _ _ Hw), decide_True, Hq by done.
Qed.

(** [rt_completion_done]: the flag is set; the waiting thread, if there is
    one, is ready again, and its [rt_completion_wait] returns [RT_EOK] and
    clears the flag.  A flag that is set stays, and nobody is woken. *)
Theorem rt_completion_done_spec lo i c k :
  kinv None lo k → completion_inv i c k → is_Some (rt_current_thread k) →
  if cp_flag c =? RT_COMPLETED then rt_completion_done i c k = Ok (c, k)
  else ∃ k', rt_completion_done i c k = Ok (mk_completion RT_COMPLETED, k') ∧ kinv None lo k' ∧
    q_get k' (QWait i) = [] ∧
    match q_get k (QWait i) with
    | [] => k' = k
    | t :: _ => ∃ th, threads k !! t = Some th ∧ threads k' !! t = Some (with_stat THREAD_READY th) ∧
        rt_completion_wait_resume t (mk_completion RT_COMPLETED) k' =
          Ok (mk_completion RT_UNCOMPLETED, k', Returned RT_EOK)
    end.
Proof.
  intros Hk [O S C] Hc. unfold rt_completion_done. destruct (_ =? _); [done |].
  destruct (wake_one_spec lo (QWait i) k Hk I Hc) as (k' & E & Hk' & Hf & _).
  rewrite E. exists k'. cbn [mbind res_bind]. unfold first_woken in Hf.
  destruct (q_get k (QWait i)) as [| t l] eqn:Hq; [by rewrite Hf, Hq; rewrite Hf in Hk' |].
  destruct Hf as (th & Ht & Ht' & Hq'). destruct l as [| u l]; [| simpl in O; lia].
  split_and!; [done.. |]. exists th. split_and!; [done.. |].
  unfold rt_completion_wait_resume. rewrite (get_thread_ok t _ k' Ht'). cbn [mbind res_bind error with_stat].
  assert (error th = RT_EOK) as -> by (apply (C (QWait i) t); [by left | rewrite Hq; left | done]). done.
Qed.

(** A completion that comes between the time-out of the waiting thread and its
    next turn is lost: the thread reports the time-out and clears the flag. *)
Theorem late_done_is_lost user_timeout fuel i n c t th k :
  kinv None 0 k → completion_inv i c k → in_thread k t th → others_ready t k → 0 < n < TICK_HALF →
  thread_timers_only k → (S (length (rt_timer_list (tsys k))) < fuel)%nat →
  cp_flag c ≠ RT_COMPLETED → q_get k (QWait i) = [] →
  ∃ k' k2 c2, rt_completion_wait i n c k = Ok (c, k', Waiting n 0) ∧
    ticks user_timeout fuel (Z.to_nat n) k' = Ok k2 ∧
    rt_completion_done i c k2 = Ok (c2, k2) ∧ cp_flag c2 = RT_COMPLETED ∧
    rt_completion_wait_resume t c2 k2 = Ok (mk_completion RT_UNCOMPLETED, k2, Returned (- RT_ETIMEOUT)).
Proof.
  intros Hk Hi Hin Ho Hn Hto Hfu Hf Hq.
  destruct (completion_waits 0 i n c t th k) as (k1 & E & Hb & _); [lia | done.. | lia | done | done | lia |].
  destruct (block_schedule _ _ _ _ _ _ _ _ _ Hb Hin Ho) as (k' & Es & _).
  destruct (alone_times_out user_timeout fuel i (QWait i) RT_IPC_FLAG_FIFO n t th k k1 k')
    as (k2 & th2 & E2 & Ht2 & He & Hq2); try done; [lia |].
  exists k', k2, (mk_completion RT_COMPLETED). split_and!; [by rewrite E, Es | done | | done |].
  - unfold rt_completion_done, wake_one, rt_list_isempty. by rewrite (proj2 (Z.eqb_neq _ _) Hf), Hq2.
  - unfold rt_completion_wait_resume. rewrite (get_thread_ok t th2) by done. cbn [mbind res_bind]. by rewrite He.
Qed.

(** ** Witnesses *)
Lemma demo_completion_inv f : completion_inv 0 (mk_completion f) demo_kernel.
Proof.
  assert (Hq : q_get demo_kernel (QWait 0) = []) by (by apply demo_no_waiter).
  split; [rewrite Hq; simpl; lia | done |].
  intros q t th Ho Hin. rewrite demo_no_waiter in Hin by (by eapply owns_wait).
  destruct (not_elem_of_nil t Hin).
Qed.

Lemma rt_completion_wait_spec_witness :
  ∃ k', rt_completion_wait 0 20 (mk_completion 0) demo_kernel = Ok (mk_completion 0, k', Waiting 20 0) ∧
    kinv None 0 k' ∧ q_get k' (QWait 0) = [1%nat] ∧ remaining (tsys k') (TThread 1) = 20.
Proof.
  pose proof (rt_completion_wait_spec 0 0 20 (mk_completion 0) 1 (demo_thread 1) demo_kernel ltac:(lia) demo_kinv
    (demo_completion_inv 0) demo_in_thread ltac:(rewrite tick_half_val; lia) demo_other_ready) as H.
  replace (q_get demo_kernel (QWait 0)) with (@nil tid) in H by (symmetry; by apply demo_no_waiter).
  destruct H as (k' & E & Hk & _ & Hq & _ & Hr).
  exists k'. split; [exact E | split; [exact Hk | split; [exact Hq | exact Hr]]].
Defined.

Lemma rt_completion_done_spec_witness :
  ∃ k', rt_completion_done 0 (mk_completion 0) demo_kernel = Ok (mk_completion 1, k') ∧ k' = demo_kernel.
Proof.
  pose proof (rt_completion_done_spec 0 0 (mk_completion 0) demo_kernel demo_kinv (demo_completion_inv 0)) as H.
  replace (q_get demo_kernel (QWait 0)) with (@nil tid) in H by (symmetry; by apply demo_no_waiter).
  destruct H as (k' & E & _ & _ & Hk); [exists 1%nat; vm_compute; reflexivity |].
  exists k'. split; [exact E | exact Hk].
Defined.
