(* ===== verification/DataQueue.v ===== *)
(** * Data queues: [components/drivers/src/dataqueue.c]

    A ring of pointers with their sizes, counted by two 16-bit indices that are
    reduced modulo the size only where they are used.  Threads that wait to pop
    are in [QWait], those that wait to push in [QSender].  [evt_notify] is the
    last thing a call does: the event it is called with is part of the result.
    The loops are split at [rt_schedule], as in [Mailbox]. *)
From S2P Require Import Prelude Timer KObject Kernel KernelInv ThreadOps Tick ThreadProps Ipc Mailbox.
Local Open Scope Z_scope.

Definition RT_ENOMEM : Z := 5.
Definition RT_DATAQUEUE_EVENT_POP : Z := 1.
Definition RT_DATAQUEUE_EVENT_PUSH : Z := 2.
Definition RT_DATAQUEUE_EVENT_LWM : Z := 3.

(** [struct rt_data_item]: [data_ptr], [data_size]. *)
Definition rt_data_item : Type := Z * Z.

(** [struct rt_data_queue]; [dq_queue]: the memory of the items, [evt_notify]:
    whether there is one. *)
Record rt_data_queue := mk_dq {
  dq_size : Z; lwm : Z; get_index : Z; put_index : Z;
  dq_queue : list rt_data_item; evt_notify : bool }.

Definition notify (q : rt_data_queue) (event : Z) : option Z := if evt_notify q then Some event else None.

(** ** Operations *)

(** [alloc]: what [rt_malloc] gave, with its content. *)
Definition rt_data_queue_init (i : nat) (size lwm : Z) (notify : bool) (alloc : option (list rt_data_item))
    (k : kernel) : rt_data_queue * kernel * Z :=
  let k := rt_ipc_object_init (QSender i) k in
  let k := rt_ipc_object_init (QWait i) k in
  match alloc with
  | None => (mk_dq (u16 size) (u16 lwm) 0 0 [] notify, k, - RT_ENOMEM)
  | Some items => (mk_dq (u16 size) (u16 lwm) 0 0 items notify, k, RT_EOK)
  end.

(** [queue->queue[index % queue->size]] *)
Definition dq_slot (index : Z) (q : rt_data_queue) : res nat :=
  _ ← require BadArith (negb (dq_size q =? 0));
  _ ← require OutOfBounds (index mod dq_size q <? Z.of_nat (length (dq_queue q)));
  Ok (Z.to_nat (index mod dq_size q)).

(** After the loop of [rt_data_queue_push]. *)
Definition dq_put (i : nat) (item : rt_data_item) (q : rt_data_queue) (k : kernel) :
    res (rt_data_queue * kernel * option Z) :=
  slot ← dq_slot (put_index q) q;
  let q := mk_dq (dq_size q) (lwm q) (get_index q) (u16 (put_index q + 1))
             (<[slot := item]> (dq_queue q)) (evt_notify q) in
  if negb (rt_list_isempty (QWait i) k) then
    k ← rt_ipc_list_resume (QWait i) k;
    k ← rt_schedule k;
    Ok (q, k, None)
  else Ok (q, k, notify q RT_DATAQUEUE_EVENT_PUSH).

(** The lines before [rt_schedule] when the caller has to wait. *)
Definition dq_suspend (q : qid) (timeout : Z) (k : kernel) : res kernel :=
  _ ← debug_not_in_interrupt k;
  thread ← of_option NullDeref (rt_thread_self k);
  th ← get_thread thread k;
  suspend_on q thread RT_IPC_FLAG_FIFO timeout (set_thread thread (with_error RT_EOK th) k).

Definition rt_data_queue_push (i : nat) (item : rt_data_item) (timeout : Z) (q : rt_data_queue) (k : kernel) :
    res (rt_data_queue * kernel * call_result (Z * option Z)) :=
  if put_index q - get_index q =? dq_size q then
    if timeout =? 0 then Ok (q, k, Returned (- RT_ETIMEOUT, None))
    else
      k ← dq_suspend (QSender i) timeout k;
      k ← rt_schedule k;
      Ok (q, k, Waiting timeout 0)
  else
    '(q, k, event) ← dq_put i item q k;
    Ok (q, k, Returned (RT_EOK, event)).

Definition rt_data_queue_push_resume (i : nat) (thread : tid) (item : rt_data_item) (timeout : Z)
    (q : rt_data_queue) (k : kernel) : res (rt_data_queue * kernel * call_result (Z * option Z)) :=
  th ← get_thread thread k;
  if negb (error th =? RT_EOK) then Ok (q, k, Returned (error th, None))
  else rt_data_queue_push i item timeout q k.

(** After the loop of [rt_data_queue_pop]: the item and the event. *)
Definition dq_get (i : nat) (q : rt_data_queue) (k : kernel) :
    res (rt_data_queue * kernel * (rt_data_item * option Z)) :=
  slot ← dq_slot (get_index q) q;
  item ← of_option OutOfBounds (dq_queue q !! slot);
  let q := mk_dq (dq_size q) (lwm q) (u16 (get_index q + 1)) (put_index q) (dq_queue q) (evt_notify q) in
  if put_index q - get_index q <=? lwm q then
    k ← wake_one (QSender i) k;
    Ok (q, k, (item, notify q RT_DATAQUEUE_EVENT_LWM))
  else Ok (q, k, (item, notify q RT_DATAQUEUE_EVENT_POP)).

Definition rt_data_queue_pop (i : nat) (timeout : Z) (q : rt_data_queue) (k : kernel) :
    res (rt_data_queue * kernel * call_result (Z * option rt_data_item * option Z)) :=
  if get_index q =? put_index q then
    if timeout =? 0 then Ok (q, k, Returned (- RT_ETIMEOUT, None, None))
    else
      k ← dq_suspend (QWait i) timeout k;
      k ← rt_schedule k;
      Ok (q, k, Waiting timeout 0)
  else
    '(q, k, (item, event)) ← dq_get i q k;
    Ok (q, k, Returned (RT_EOK, Some item, event)).

Definition rt_data_queue_pop_resume (i : nat) (thread : tid) (timeout : Z) (q : rt_data_queue) (k : kernel) :
    res (rt_data_queue * kernel * call_result (Z * option rt_data_item * option Z)) :=
  th ← get_thread thread k;
  if negb (error th =? RT_EOK) then Ok (q, k, Returned (error th, None, None))
  else rt_data_queue_pop i timeout q k.

Definition rt_data_queue_peak (q : rt_data_queue) : res (Z * option rt_data_item) :=
  if get_index q =? put_index q then Ok (- RT_EEMPTY, None)
  else
    slot ← dq_slot (get_index q) q;
    item ← of_option OutOfBounds (dq_queue q !! slot);
    Ok (RT_EOK, Some item).

Definition rt_data_queue_reset (i : nat) (k : kernel) : res kernel :=
  let k := rt_enter_critical k in
  k ← resume_all (QWait i) k;
  k ← resume_all (QSender i) k;
  k ← rt_exit_critical k;
  rt_schedule k.

(** ** The items of a queue, oldest first

    The indices count all items ever pushed and popped, up to 65535. *)
Record dq_holds (q : rt_data_queue) (l : list rt_data_item) : Prop := {
  dh_size : 0 < dq_size q < 65536 ∧ Z.of_nat (length (dq_queue q)) = dq_size q;
  dh_index : 0 <= get_index q ∧ put_index q < 65536;
  dh_len : put_index q = get_index q + Z.of_nat (length l) ∧ Z.of_nat (length l) <= dq_size q;
  dh_items j : 0 <= j < Z.of_nat (length l) →
    l !! Z.to_nat j = dq_queue q !! Z.to_nat ((get_index q + j) mod dq_size q);
}.

Lemma dq_slot_ok index q :
  0 < dq_size q → Z.of_nat (length (dq_queue q)) = dq_size q → 0 <= index →
  dq_slot index q = Ok (Z.to_nat (index mod dq_size q)) ∧
  (Z.to_nat (index mod dq_size q) < length (dq_queue q))%nat.
Proof.
  intros Hs Hl Hi. pose proof (Z.mod_pos_bound index (dq_size q) Hs). unfold dq_slot.
  rewrite (proj2 (Z.eqb_neq _ _)) by lia. cbn [negb require mbind res_bind].
  rewrite (proj2 (Z.ltb_lt _ _)) by lia. split; [done | lia].
Qed.

(** Items less than the size apart lie in different places. *)
Lemma slots_differ a b n : 0 < n → a < b < a + n → a mod n ≠ b mod n.
Proof.
  intros Hn Hab E. pose proof (Z.div_mod a n ltac:(lia)). pose proof (Z.div_mod b n ltac:(lia)).
  assert (Hd : b - a = n * (b / n - a / n)) by lia. set (d := b / n - a / n) in *.
  assert (d <= 0 ∨ 1 <= d) as [? | ?] by lia; nia.
Qed.

Definition dq_pushed (item : rt_data_item) (q : rt_data_queue) : rt_data_queue :=
  mk_dq (dq_size q) (lwm q) (get_index q) (put_index q + 1)
    (<[Z.to_nat (put_index q mod dq_size q) := item]> (dq_queue q)) (evt_notify q).
Definition dq_popped (q : rt_data_queue) : rt_data_queue :=
  mk_dq (dq_size q) (lwm q) (get_index q + 1) (put_index q) (dq_queue q) (evt_notify q).

Lemma dq_pushed_holds q l item :
  dq_holds q l → put_index q < 65535 → Z.of_nat (length l) < dq_size q →
  dq_holds (dq_pushed item q) (l ++ [item]).
Proof.
  intros [[Hs Hl] [Hg Hp] [Hn Hfit] Hit] Hw Hroom. split; unfold dq_pushed; cbn [dq_size lwm get_index put_index dq_queue].
  - by rewrite length_insert.
  - lia.
  - rewrite length_app. simpl. lia.
  - intros j. rewrite length_app. simpl. intros Hj. pose proof (Z.mod_pos_bound (put_index q) (dq_size q)).
    destruct (Z.eq_dec j (Z.of_nat (length l))) as [-> | Hne].
    + rewrite <- Hn, list_lookup_insert_eq by lia. by rewrite Nat2Z.id, list_lookup_middle.
    + rewrite lookup_app_l, Hit by lia. rewrite list_lookup_insert_ne; [done |].
      pose proof (slots_differ (get_index q + j) (put_index q) (dq_size q)).
      pose proof (Z.mod_pos_bound (get_index q + j) (dq_size q)). lia.
Qed.

Lemma dq_popped_holds q x l :
  dq_holds q (x :: l) →
  dq_holds (dq_popped q) l ∧ dq_queue q !! Z.to_nat (get_index q mod dq_size q) = Some x.
Proof.
  intros [[Hs Hl] [Hg Hp] [Hn Hfit] Hit]. cbn [length] in *. split.
  - split; unfold dq_popped; cbn [dq_size lwm get_index put_index dq_queue]; [done | lia | lia |].
    intros j Hj. specialize (Hit (j + 1)).
    replace (Z.to_nat (j + 1)) with (S (Z.to_nat j)) in Hit by lia. change ((x :: l) !! S (Z.to_nat j)) with (l !! Z.to_nat j) in Hit.
    rewrite Hit by lia. do 3 f_equal. lia.
  - specialize (Hit 0). rewrite Z.add_0_r in Hit. rewrite <- Hit by lia. done.
Qed.

Lemma dq_put_eq i item q l k :
  dq_holds q l → put_index q < 65535 →
  dq_put i item q k =
    if negb (rt_list_isempty (QWait i) k) then
      k' ← wake_one (QWait i) k; Ok (dq_pushed item q, k', None)
    else Ok (dq_pushed item q, k, notify q RT_DATAQUEUE_EVENT_PUSH).
Proof.
  intros [[Hs Hl] [Hg Hp] [Hn Hfit] Hit] Hw. unfold dq_put, wake_one.
  destruct (dq_slot_ok (put_index q) q) as [-> _]; [lia | done | lia |]. cbn [mbind res_bind].
  replace (u16 (put_index q + 1)) with (put_index q + 1) by word.
  destruct (rt_list_isempty (QWait i) k); [done |]. cbn [negb].
  by destruct (rt_ipc_list_resume (QWait i) k).
Qed.

Lemma dq_get_eq i q x l k :
  dq_holds q (x :: l) →
  dq_get i q k =
    if Z.of_nat (length l) <=? lwm q then
      k' ← wake_one (QSender i) k; Ok (dq_popped q, k', (x, notify q RT_DATAQUEUE_EVENT_LWM))
    else Ok (dq_popped q, k, (x, notify q RT_DATAQUEUE_EVENT_POP)).
Proof.
  intros Hh. destruct (dq_popped_holds q x l Hh) as [_ Hx]. destruct Hh as [[Hs Hl] [Hg Hp] [Hn Hfit] Hit].
  cbn [length] in *. unfold dq_get. destruct (dq_slot_ok (get_index q) q) as [-> _]; [lia | done | lia |].
  cbn [mbind res_bind]. rewrite Hx. cbn [of_option mbind res_bind].
  replace (u16 (get_index q + 1)) with (get_index q + 1) by word. cbn [put_index get_index lwm].
  replace (put_index q - (get_index q + 1)) with (Z.of_nat (length l)) by lia. done.
Qed.

(** The comparisons of the loops. *)
Lemma dq_full_test q l : dq_holds q l → (put_index q - get_index q =? dq_size q) = (Z.of_nat (length l) =? dq_size q).
Proof. intros [_ _ [Hn _] _]. by replace (put_index q - get_index q) with (Z.of_nat (length l)) by lia. Qed.
Lemma dq_empty_test q l : dq_holds q l → (get_index q =? put_index q) = bool_decide (l = []).
Proof.
  intros [_ _ [Hn _] _]. destruct l; simpl length in *;
    [rewrite bool_decide_eq_true_2 by done; apply Z.eqb_eq | rewrite bool_decide_eq_false_2 by done; apply Z.eqb_neq]; lia.
Qed.

(** ** Waiting *)
Lemma dq_suspend_blocks lo i q timeout c th k :
  -1 <= lo <= 0 → kinv None lo k → wait_q q → owns i q → in_thread k c th → timeout < TICK_HALF →
  ∃ k1, dq_suspend q timeout k = Ok k1 ∧ blocked lo i q RT_IPC_FLAG_FIFO timeout c th k k1.
Proof.
  intros Hlo Hk Hq Ho Hin Ht. pose proof Hin as (Hn & Hc & Htc & _).
  destruct (block_current lo i q RT_IPC_FLAG_FIFO timeout c th k) as (k1 & E & Hb); [done.. | by left | done | done |].
  exists k1. split; [| done]. unfold dq_suspend, debug_not_in_interrupt, rt_thread_self. rewrite Hn, Hc.
  cbn [Z.eqb rt_assert require of_option mbind res_bind]. by rewrite (get_thread_ok c th k Htc).
Qed.

(** ** The protocol: the indices stay 16-bit numbers, the memory keeps its size *)
Record dq_inv (i : nat) (q : rt_data_queue) (k : kernel) : Prop := {
  dqi_size : 0 <= dq_size q < 65536 ∧ Z.of_nat (length (dq_queue q)) = dq_size q;
  dqi_index : 0 <= get_index q < 65536 ∧ 0 <= put_index q < 65536;
  dqi_clean : waiters_clean i k }.

Lemma dq_inv_stable i q k k' : dq_inv i q k → wstable (owns i) k k' → dq_inv i q k'.
Proof. intros [S X C] Hs. split; [done | done | by eapply waiters_clean_stable]. Qed.

Definition dq_safe (i : nat) (q' : rt_data_queue) (k k' : kernel) : Prop :=
  kinv None 0 k' ∧ dq_inv i q' k' ∧ ∀ j, j ≠ i → wstable (owns j) k k'.

(** A record that satisfies the bounds, after a list of the object lost its head or nothing. *)
Lemma dq_safe_woken i q q' k k' p :
  dq_inv i q k → kinv None 0 k → wait_q p →
  (0 <= dq_size q' < 65536 ∧ Z.of_nat (length (dq_queue q')) = dq_size q') →
  (0 <= get_index q' < 65536 ∧ 0 <= put_index q' < 65536) → wake_one p k = Ok k' → dq_safe i q' k k'.
Proof.
  intros [_ _ C] Hk Hp Hs Hi E. destruct (wake_one_safe 0 p k k' Hk Hp E) as [Hk' Hw].
  split_and!; [done | | intros; by apply wstable_every]. split; [done | done |].
  eapply waiters_clean_stable; [done | by apply wstable_every].
Qed.

Lemma dq_wait_safe i q p timeout c th k k' :
  kinv None 0 k → dq_inv i q k → in_thread k c th → wait_q p → owns i p → timeout < TICK_HALF →
  (k ← dq_suspend p timeout k; rt_schedule k) = Ok k' → dq_safe i q k k'.
Proof.
  intros Hk Hi Hin Hp Ho Ht Hr. pose proof Hi as [S X C].
  destruct (dq_suspend_blocks 0 i p timeout c th k) as (k1 & E & Hb); [lia | done.. |].
  rewrite E in Hr. cbn [mbind res_bind] in Hr. destruct Hb as [Hkb Hw Htm Hts Hwb] eqn:Eb.
  assert (Hc1 : waiters_clean i k1) by (eapply waiters_clean_blocked; [done | done | exact Hb]).
  assert (Hi1 : dq_inv i q k1) by done.
  split_and!; [by eapply schedule_kinv | eapply dq_inv_stable; [done | by apply wstable_schedule] |].
  intros j Hj. transitivity k1; [by apply Hwb | by apply wstable_schedule].
Qed.

Lemma dq_push_safe i item timeout c th q k q' k' r :
  kinv None 0 k → dq_inv i q k → (put_index q - get_index q = dq_size q → timeout ≠ 0 → in_thread k c th) →
  timeout < TICK_HALF → rt_data_queue_push i item timeout q k = Ok (q', k', r) → dq_safe i q' k k'.
Proof.
  intros Hk Hi Hin Ht Hr. unfold rt_data_queue_push in Hr.
  destruct (Z.eqb_spec (put_index q - get_index q) (dq_size q)) as [Hf | Hf].
  - destruct (Z.eqb_spec timeout 0) as [-> | Hnz]; [by injection Hr as <- <- _ |].
    apply bind_ok_inv in Hr as (k1 & E1 & Hr). apply bind_ok_inv in Hr as (k2 & E2 & [= <- <- _]).
    eapply (dq_wait_safe i q (QSender i)); [done | done | by apply Hin | done | by right | done |]. by rewrite E1.
  - apply bind_ok_inv in Hr as ([[q1 k1] ev] & E & [= <- <- _]). unfold dq_put in E.
    apply bind_ok_inv in E as (slot & _ & E). pose proof Hi as [S X C].
    assert (Hw : wake_one (QWait i) k = Ok k1 ∧ q1 = mk_dq (dq_size q) (lwm q) (get_index q) (u16 (put_index q + 1))
             (<[slot := item]> (dq_queue q)) (evt_notify q)).
    { unfold wake_one. destruct (rt_list_isempty (QWait i) k); cbn [negb] in *; [by injection E as <- <- _ |].
      destruct (rt_ipc_list_resume (QWait i) k) as [k2 |]; [| done]. cbn [mbind res_bind] in *.
      apply bind_ok_inv in E as (k3 & E & [= <- <- _]). done. }
    destruct Hw as [Hw ->]. apply (dq_safe_woken i q _ k k1 (QWait i)); try done; cbn [dq_size dq_queue get_index put_index].
    + by rewrite length_insert.
    + unfold u16. lia.
Qed.

Lemma dq_pop_safe i timeout c th q k q' k' r :
  kinv None 0 k → dq_inv i q k → (get_index q = put_index q → timeout ≠ 0 → in_thread k c th) →
  timeout < TICK_HALF → rt_data_queue_pop i timeout q k = Ok (q', k', r) → dq_safe i q' k k'.
Proof.
  intros Hk Hi Hin Ht Hr. unfold rt_data_queue_pop in Hr.
  destruct (Z.eqb_spec (get_index q) (put_index q)) as [He | He].
  - destruct (Z.eqb_spec timeout 0) as [-> | Hnz]; [by injection Hr as <- <- _ |].
    apply bind_ok_inv in Hr as (k1 & E1 & Hr). apply bind_ok_inv in Hr as (k2 & E2 & [= <- <- _]).
    eapply (dq_wait_safe i q (QWait i)); [done | done | by apply Hin | done | by left | done |]. by rewrite E1.
  - apply bind_ok_inv in Hr as ([[q1 k1] [it ev]] & E & [= <- <- _]). unfold dq_get in E.
    apply bind_ok_inv in E as (slot & _ & E). apply bind_ok_inv in E as (item & _ & E).
    cbn [put_index get_index lwm] in E. pose proof Hi as [S X C].
    assert (Hb : (0 <= dq_size q < 65536 ∧ Z.of_nat (length (dq_queue q)) = dq_size q) ∧
      0 <= u16 (get_index q + 1) < 65536 ∧ 0 <= put_index q < 65536) by (split; [done | unfold u16; lia]).
    destruct (_ <=? _).
    + apply bind_ok_inv in E as (k2 & E & [= <- <- _]). apply (dq_safe_woken i q _ k k2 (QSender i));
        [done | done | done | exact (proj1 Hb) | exact (proj2 Hb) | done].
    + injection E as <- <- _ _. split_and!; [done | split; [exact (proj1 Hb) | exact (proj2 Hb) | done] | done].
Qed.

Inductive dq_step (i : nat) : rt_data_queue → kernel → rt_data_queue → kernel → Prop :=
  | dq_step_push item timeout c th q k q' k' r :
      (put_index q - get_index q = dq_size q → timeout ≠ 0 → in_thread k c th) → timeout < TICK_HALF →
      rt_data_queue_push i item timeout q k = Ok (q', k', r) → dq_step i q k q' k'
  | dq_step_push_resume item timeout c th q k q' k' r :
      in_thread k c th → timeout < TICK_HALF →
      rt_data_queue_push_resume i c item timeout q k = Ok (q', k', r) → dq_step i q k q' k'
  | dq_step_pop timeout c th q k q' k' r :
      (get_index q = put_index q → timeout ≠ 0 → in_thread k c th) → timeout < TICK_HALF →
      rt_data_queue_pop i timeout q k = Ok (q', k', r) → dq_step i q k q' k'
  | dq_step_pop_resume timeout c th q k q' k' r :
      in_thread k c th → timeout < TICK_HALF →
      rt_data_queue_pop_resume i c timeout q k = Ok (q', k', r) → dq_step i q k q' k'
  | dq_step_reset q k k' : rt_data_queue_reset i k = Ok k' → dq_step i q k q k'.

Lemma dq_reset_safe i q k k' :
  kinv None 0 k → dq_inv i q k → rt_data_queue_reset i k = Ok k' → dq_safe i q k k'.
Proof.
  intros Hk Hi Hr. unfold rt_data_queue_reset in Hr.
  assert (Hk0 : kinv None 0 (rt_enter_critical k)) by (by apply kinv_set_lock).
  destruct (resume_all_spec 0 (QWait i) _ _ Hk0 I eq_refl) as (k1 & E1 & Hk1 & _ & _ & _ & _ & _ & _ & Hw1).
  destruct (resume_all_spec 0 (QSender i) _ k1 Hk1 I eq_refl) as (k2 & E2 & Hk2 & _ & _ & _ & _ & _ & _ & Hw2).
  unfold resume_all in Hr. rewrite E1 in Hr. cbn [mbind res_bind] in Hr. rewrite E2 in Hr.
  cbn [mbind res_bind] in Hr. apply bind_ok_inv in Hr as (k3 & E3 & E4).
  destruct (exit_critical_safe k2 k3 Hk2 E3) as [Hk3 Hw3].
  assert (Hw : wstable every k k').
  { transitivity (rt_enter_critical k); [by apply wstable_same |]. transitivity k1; [done |].
    transitivity k2; [done |]. transitivity k3; [done | by apply wstable_schedule]. }
  split_and!; [by eapply schedule_kinv | | intros; by apply wstable_every].
  eapply dq_inv_stable; [done | by apply wstable_every].
Qed.

Lemma dq_step_ok i q k q' k' : kinv None 0 k → dq_inv i q k → dq_step i q k q' k' → dq_safe i q' k k'.
Proof.
  intros Hk Hi Hs.
  destruct Hs as [item timeout c th q k q' k' r Hin Ht Hr | item timeout c th q k q' k' r Hin Ht Hr
    | timeout c th q k q' k' r Hin Ht Hr | timeout c th q k q' k' r Hin Ht Hr | q k k' Hr].
  - by eapply dq_push_safe.
  - apply bind_ok_inv in Hr as (th' & _ & Hr). destruct (negb _); [by injection Hr as <- <- _ |].
    by eapply dq_push_safe.
  - by eapply dq_pop_safe.
  - apply bind_ok_inv in Hr as (th' & _ & Hr). destruct (negb _); [by injection Hr as <- <- _ |].
    by eapply dq_pop_safe.
  - by eapply dq_reset_safe.
Qed.

#[global] Program Instance dq_protocol : IpcProtocol rt_data_queue := { istep := dq_step; iinv := dq_inv }.
Next Obligation. intros. by eapply dq_inv_stable. Qed.
Next Obligation. intros. by eapply dq_step_ok. Qed.

(** ** Properties *)

(** [rt_data_queue_push] before the indices wrap: with room the item goes
    behind the others and the first thread that waits to pop is made ready, or,
    when none waits, the event is reported; a full queue fails at once without
    waiting, or leaves the caller in the list with its timer set. *)
Theorem rt_data_queue_push_spec lo i item timeout q l c th k :
  -1 <= lo <= 0 → kinv None lo k → dq_holds q l → put_index q < 65535 → in_thread k c th →
  timeout < TICK_HALF → others_ready c k →
  if Z.of_nat (length l) =? dq_size q then
    if timeout =? 0 then rt_data_queue_push i item timeout q k = Ok (q, k, Returned (- RT_ETIMEOUT, None))
    else ∃ k', rt_data_queue_push i item timeout q k = Ok (q, k', Waiting timeout 0) ∧ kinv None lo k' ∧
      threads k' !! c = Some (blocked_thread th) ∧ q_get k' (QSender i) = q_get k (QSender i) ++ [c] ∧
      (if 0 <? timeout
       then TThread c ∈ rt_timer_list (tsys k') ∧ remaining (tsys k') (TThread c) = timeout
       else TThread c ∉ rt_timer_list (tsys k'))
  else ∃ q' k', rt_data_queue_push i item timeout q k =
        Ok (q', k', Returned (RT_EOK,
          match q_get k (QWait i) with [] => notify q RT_DATAQUEUE_EVENT_PUSH | _ => None end)) ∧
      kinv None lo k' ∧ dq_holds q' (l ++ [item]) ∧ first_woken (QWait i) k k'.
Proof.
  intros Hlo Hk Hh Hw Hin Ht Ho. pose proof Hin as (_ & Hc & _).
  unfold rt_data_queue_push. rewrite (dq_full_test q l Hh).
  destruct (Z.eqb_spec (Z.of_nat (length l)) (dq_size q)) as [Hf | Hf].
  - destruct (Z.eqb_spec timeout 0) as [-> | Hnz]; [done |].
    destruct (dq_suspend_blocks lo i (QSender i) timeout c th k) as (k1 & -> & Hb); [done | done | done | by right | done | done |].
    cbn [mbind res_bind].
    destruct (block_schedule _ _ _ _ _ _ _ _ _ Hb Hin Ho) as (k' & -> & Hk' & (_ & Sq & Sts & _) & Ht' & _).
    exists k'. rewrite Sts. destruct Hb as [_ Hwt Htm _ _]. split_and!; try done.
    unfold q_get at 1. rewrite Sq. fold (q_get k1 (QSender i)).
    by rewrite (wt_q _ _ _ _ _ _ Hwt), decide_True by done.
  - assert (Hroom : Z.of_nat (length l) < dq_size q) by (destruct (dh_len _ _ Hh); lia).
    rewrite (dq_put_eq i item q l k Hh Hw). unfold rt_list_isempty.
    destruct (wake_one_spec lo (QWait i) k Hk I ltac:(eauto)) as (k' & E & Hk' & Hfw & _).
    pose proof (dq_pushed_holds q l item Hh Hw Hroom) as Hh'. exists (dq_pushed item q).
    unfold first_woken in *. destruct (q_get k (QWait i)) as [| t lw] eqn:Hq; cbn [negb].
    + by exists k.
    + rewrite E. by exists k'.
Qed.

(** [rt_data_queue_pop] before the indices wrap: the oldest item; when no
    more than [lwm] are left, the first thread that waits to push is made ready;
    the event says which.  An empty queue fails at once or leaves the caller
    waiting. *)
Theorem rt_data_queue_pop_spec lo i timeout q l c th k :
  -1 <= lo <= 0 → kinv None lo k → dq_holds q l → in_thread k c th → timeout < TICK_HALF → others_ready c k →
  match l with
  | [] =>
      if timeout =? 0 then rt_data_queue_pop i timeout q k = Ok (q, k, Returned (- RT_ETIMEOUT, None, None))
      else ∃ k', rt_data_queue_pop i timeout q k = Ok (q, k', Waiting timeout 0) ∧ kinv None lo k' ∧
        threads k' !! c = Some (blocked_thread th) ∧ q_get k' (QWait i) = q_get k (QWait i) ++ [c] ∧
        (if 0 <? timeout
         then TThread c ∈ rt_timer_list (tsys k') ∧ remaining (tsys k') (TThread c) = timeout
         else TThread c ∉ rt_timer_list (tsys k'))
  | x :: rest => rt_data_queue_peak q = Ok (RT_EOK, Some x) ∧
      ∃ q' k', rt_data_queue_pop i timeout q k =
        Ok (q', k', Returned (RT_EOK, Some x,
          notify q (if Z.of_nat (length rest) <=? lwm q then RT_DATAQUEUE_EVENT_LWM else RT_DATAQUEUE_EVENT_POP))) ∧
      kinv None lo k' ∧ dq_holds q' rest ∧
      if Z.of_nat (length rest) <=? lwm q then first_woken (QSender i) k k' else k' = k
  end.
Proof.
  intros Hlo Hk Hh Hin Ht Ho. pose proof Hin as (_ & Hc & _). destruct l as [| x rest].
  - unfold rt_data_queue_pop. rewrite (dq_empty_test q [] Hh), bool_decide_eq_true_2 by done.
    destruct (Z.eqb_spec timeout 0) as [-> | Hnz]; [done |].
    destruct (dq_suspend_blocks lo i (QWait i) timeout c th k) as (k1 & -> & Hb); [done | done | done | by left | done | done |].
    cbn [mbind res_bind].
    destruct (block_schedule _ _ _ _ _ _ _ _ _ Hb Hin Ho) as (k' & -> & Hk' & (_ & Sq & Sts & _) & Ht' & _).
    exists k'. rewrite Sts. destruct Hb as [_ Hwt Htm _ _]. split_and!; try done.
    unfold q_get at 1. rewrite Sq. fold (q_get k1 (QWait i)).
    by rewrite (wt_q _ _ _ _ _ _ Hwt), decide_True by done.
  - destruct (dq_popped_holds q x rest Hh) as [Hh' Hx].
    unfold rt_data_queue_pop, rt_data_queue_peak.
    rewrite (dq_empty_test q (x :: rest) Hh), bool_decide_eq_false_2 by done. split.
    { destruct Hh as [[Hs Hl] [Hg Hp] _ _].
      destruct (dq_slot_ok (get_index q) q) as [-> _]; [lia | done | lia |]. cbn [mbind res_bind]. by rewrite Hx. }
    rewrite (dq_get_eq i q x rest k Hh). exists (dq_popped q). destruct (_ <=? _).
    + destruct (wake_one_spec lo (QSender i) k Hk I ltac:(eauto)) as (k' & -> & Hk' & Hfw & _). by exists k'.
    + by exists k.
Qed.

(** *** First in, first out, whatever else happens

    What a call took from its caller and what it gave. *)
Definition went_in (item : rt_data_item) (r : call_result (Z * option Z)) : list rt_data_item :=
  match r with Returned (e, _) => if e =? RT_EOK then [item] else [] | Waiting _ _ => [] end.
Definition came_out (r : call_result (Z * option rt_data_item * option Z)) : list rt_data_item :=
  match r with Returned (_, it, _) => option_list it | Waiting _ _ => [] end.

(** Any calls on the queue by any threads, with anything in between that
    changes the kernel: [ins] went in and [outs] came out. *)
Inductive dq_run (i : nat) : rt_data_queue → kernel → list rt_data_item → list rt_data_item →
    rt_data_queue → kernel → Prop :=
  | dq_run_refl q k : dq_run i q k [] [] q k
  | dq_run_push item timeout q k ins outs q1 k1 q2 k2 r :
      dq_run i q k ins outs q1 k1 → rt_data_queue_push i item timeout q1 k1 = Ok (q2, k2, r) →
      dq_run i q k (ins ++ went_in item r) outs q2 k2
  | dq_run_push_resume t item timeout q k ins outs q1 k1 q2 k2 r :
      dq_run i q k ins outs q1 k1 → rt_data_queue_push_resume i t item timeout q1 k1 = Ok (q2, k2, r) →
      dq_run i q k (ins ++ went_in item r) outs q2 k2
  | dq_run_pop timeout q k ins outs q1 k1 q2 k2 r :
      dq_run i q k ins outs q1 k1 → rt_data_queue_pop i timeout q1 k1 = Ok (q2, k2, r) →
      dq_run i q k ins (outs ++ came_out r) q2 k2
  | dq_run_pop_resume t timeout q k ins outs q1 k1 q2 k2 r :
      dq_run i q k ins outs q1 k1 → rt_data_queue_pop_resume i t timeout q1 k1 = Ok (q2, k2, r) →
      dq_run i q k ins (outs ++ came_out r) q2 k2
  | dq_run_other q k ins outs q1 k1 k2 : dq_run i q k ins outs q1 k1 → dq_run i q k ins outs q1 k2.

Lemma dq_push_contents i item timeout q l k q' k' r :
  dq_holds q l → put_index q + Z.of_nat (length (went_in item r)) < 65536 →
  rt_data_queue_push i item timeout q k = Ok (q', k', r) →
  dq_holds q' (l ++ went_in item r) ∧ put_index q' = put_index q + Z.of_nat (length (went_in item r)).
Proof.
  intros Hh Hw Hr. unfold rt_data_queue_push in Hr. rewrite (dq_full_test q l Hh) in Hr.
  destruct (Z.eqb_spec (Z.of_nat (length l)) (dq_size q)) as [Hf | Hf].
  - assert (Hsame : q' = q ∧ went_in item r = []).
    { destruct (timeout =? 0); [by injection Hr as <- <- <- |].
      apply bind_ok_inv in Hr as (k1 & _ & Hr). apply bind_ok_inv in Hr as (k2 & _ & Hr). by injection Hr as <- <- <-. }
    destruct Hsame as [-> ->]. rewrite app_nil_r. split; [done | simpl; lia].
  - destruct (dq_put i item q k) as [[[q1 k1] ev] |] eqn:E; [| done]. injection Hr as <- <- <-.
    cbn [went_in Z.eqb RT_EOK length] in *. rewrite (dq_put_eq i item q l k Hh) in E by lia.
    assert (q1 = dq_pushed item q) as ->.
    { destruct (negb _); [| by injection E as <- _ _]. apply bind_ok_inv in E as (k2 & _ & E). by injection E as <- _ _. }
    split; [| done]. destruct (dh_len _ _ Hh). apply dq_pushed_holds; [done | lia | lia].
Qed.

Lemma dq_pop_contents i timeout q l k q' k' r :
  dq_holds q l → rt_data_queue_pop i timeout q k = Ok (q', k', r) →
  ∃ l', l = came_out r ++ l' ∧ dq_holds q' l' ∧ put_index q' = put_index q.
Proof.
  intros Hh Hr. unfold rt_data_queue_pop in Hr. rewrite (dq_empty_test q l Hh) in Hr. destruct l as [| x l].
  - rewrite bool_decide_eq_true_2 in Hr by done. exists [].
    assert (Hsame : q' = q ∧ came_out r = []).
    { destruct (timeout =? 0); [by injection Hr as <- <- <- |].
      apply bind_ok_inv in Hr as (k1 & _ & Hr). apply bind_ok_inv in Hr as (k2 & _ & Hr). by injection Hr as <- <- <-. }
    by destruct Hsame as [-> ->].
  - rewrite bool_decide_eq_false_2, (dq_get_eq i q x l k Hh) in Hr by done.
    destruct (dq_popped_holds q x l Hh) as [Hh' _]. exists l.
    assert (Hres : q' = dq_popped q ∧ came_out r = [x]).
    { destruct (_ <=? _); [| by injection Hr as <- _ <-].
      destruct (wake_one (QSender i) k) as [k2 |]; [| done]. by injection Hr as <- _ <-. }
    by destruct Hres as [-> ->].
Qed.

Lemma resumed_push i t item timeout q k q' k' r :
  rt_data_queue_push_resume i t item timeout q k = Ok (q', k', r) →
  (q' = q ∧ went_in item r = []) ∨ rt_data_queue_push i item timeout q k = Ok (q', k', r).
Proof.
  intros Hr. apply bind_ok_inv in Hr as (th & _ & Hr). destruct (Z.eqb_spec (error th) RT_EOK) as [| He]; [by right |].
  injection Hr as <- _ <-. left. split; [done |]. simpl. by rewrite (proj2 (Z.eqb_neq _ _) He).
Qed.
Lemma resumed_pop i t timeout q k q' k' r :
  rt_data_queue_pop_resume i t timeout q k = Ok (q', k', r) →
  (q' = q ∧ came_out r = []) ∨ rt_data_queue_pop i timeout q k = Ok (q', k', r).
Proof.
  intros Hr. apply bind_ok_inv in Hr as (th & _ & Hr). destruct (negb _); [| by right].
  injection Hr as <- _ <-. by left.
Qed.

(** C31. A data queue is first in, first out, whatever the interleaving: as long
    as the 16-bit push counter has not wrapped, the items that came out are the
    first of those that were in the queue and went in, and the queue holds the
    rest, never more than its size. *)
Theorem rt_data_queue_fifo i q l k ins outs q' k' :
  dq_holds q l → dq_run i q k ins outs q' k' → put_index q + Z.of_nat (length ins) < 65536 →
  ∃ l', l ++ ins = outs ++ l' ∧ dq_holds q' l' ∧ Z.of_nat (length l') <= dq_size q' ∧
    put_index q' = put_index q + Z.of_nat (length ins).
Proof.
  intros Hh Hr. induction Hr as [q k | item timeout q k ins outs q1 k1 q2 k2 r Hr IH Hs
    | t item timeout q k ins outs q1 k1 q2 k2 r Hr IH Hs | timeout q k ins outs q1 k1 q2 k2 r Hr IH Hs
    | t timeout q k ins outs q1 k1 q2 k2 r Hr IH Hs | q k ins outs q1 k1 k2 Hr IH]; intros Hw.
  - exists l. rewrite app_nil_r. split_and!; [done | done | apply (dh_len _ _ Hh) | simpl; lia].
  - rewrite length_app in *. destruct (IH Hh ltac:(lia)) as (l1 & E & Hh1 & _ & Hp).
    destruct (dq_push_contents i item timeout q1 l1 k1 q2 k2 r Hh1) as [Hh2 Hp2]; [lia | done |].
    exists (l1 ++ went_in item r). split_and!; [by rewrite !app_assoc, E | done | apply (dh_len _ _ Hh2) | lia].
  - rewrite length_app in *. destruct (IH Hh ltac:(lia)) as (l1 & E & Hh1 & Hl1 & Hp).
    destruct (resumed_push _ _ _ _ _ _ _ _ _ Hs) as [[-> Ei] | Hs'].
    { rewrite Ei, !app_nil_r in *. exists l1. split_and!; [done.. | simpl; lia]. }
    destruct (dq_push_contents i item timeout q1 l1 k1 q2 k2 r Hh1) as [Hh2 Hp2]; [lia | done |].
    exists (l1 ++ went_in item r). split_and!; [by rewrite !app_assoc, E | done | apply (dh_len _ _ Hh2) | lia].
  - destruct (IH Hh ltac:(lia)) as (l1 & E & Hh1 & _ & Hp).
    destruct (dq_pop_contents i timeout q1 l1 k1 q2 k2 r Hh1 Hs) as (l2 & -> & Hh2 & Hp2).
    exists l2. split_and!; [by rewrite E, app_assoc | done | apply (dh_len _ _ Hh2) | lia].
  - destruct (IH Hh ltac:(lia)) as (l1 & E & Hh1 & Hl1 & Hp).
    destruct (resumed_pop _ _ _ _ _ _ _ _ Hs) as [[-> Eo] | Hs'].
    { rewrite Eo, app_nil_r. by exists l1. }
    destruct (dq_pop_contents i timeout q1 l1 k1 q2 k2 r Hh1 Hs') as (l2 & -> & Hh2 & Hp2).
    exists l2. split_and!; [by rewrite E, app_assoc | done | apply (dh_len _ _ Hh2) | lia].
  - by apply IH.
Qed.

(** ** Where the code falls short: the push counter wraps *)
Section wrap.
Context (i : nat) (x : rt_data_item) (k : kernel).
Context (Hpop : q_get k (QWait i) = []) (Hpush : q_get k (QSender i) = []).

Lemma push_alone q l :
  dq_holds q l → put_index q < 65535 → Z.of_nat (length l) < dq_size q →
  rt_data_queue_push i x 0 q k = Ok (dq_pushed x q, k, Returned (RT_EOK, notify q RT_DATAQUEUE_EVENT_PUSH)).
Proof using Hpop.
  intros Hh Hw Hroom. unfold rt_data_queue_push. rewrite (dq_full_test q l Hh), (proj2 (Z.eqb_neq _ _)) by lia.
  rewrite (dq_put_eq i x q l k Hh Hw). unfold rt_list_isempty. by rewrite Hpop.
Qed.

Lemma pop_alone q l :
  dq_holds q (x :: l) → ∃ ev, rt_data_queue_pop i 0 q k = Ok (dq_popped q, k, Returned (RT_EOK, Some x, ev)).
Proof using Hpush.
  intros Hh. unfold rt_data_queue_pop. rewrite (dq_empty_test q (x :: l) Hh), bool_decide_eq_false_2 by done.
  rewrite (dq_get_eq i q x l k Hh). unfold wake_one, rt_list_isempty. rewrite Hpush. cbn [negb mbind res_bind].
  destruct (_ <=? _); eauto.
Qed.

(** [n] times an item in and out again. *)
Lemma run_rounds q0 n :
  dq_holds q0 [] → put_index q0 = 0 → Z.of_nat n < 65536 →
  ∃ q, dq_run i q0 k (replicate n x) (replicate n x) q k ∧ dq_holds q [] ∧ put_index q = Z.of_nat n ∧
    dq_size q = dq_size q0.
Proof using Hpop Hpush.
  intros Hh Hp. induction n as [| n IH]; intros Hn; [by exists q0; split; [constructor |] |].
  destruct (IH ltac:(lia)) as (q & Hr & Hq & Hpq & Hs). pose proof (dh_size _ _ Hq) as [Hsz _].
  pose proof (push_alone q [] Hq ltac:(lia) ltac:(simpl; lia)) as E1.
  pose proof (dq_pushed_holds q [] x Hq ltac:(lia) ltac:(simpl; lia)) as Hq1.
  destruct (pop_alone _ _ Hq1) as (ev & E2).
  pose proof (dq_run_push _ _ _ _ _ _ _ _ _ _ _ _ Hr E1) as Hr1.
  pose proof (dq_run_pop _ _ _ _ _ _ _ _ _ _ _ Hr1 E2) as Hr2. cbn [went_in came_out Z.eqb RT_EOK option_list] in Hr2.
  change (option_list (Some x)) with [x] in Hr2.
  rewrite <- !replicate_S_end in Hr2. eexists. split; [exact Hr2 |].
  split_and!; [by apply (dq_popped_holds _ x []) | | done].
  unfold dq_popped, dq_pushed. cbn [put_index]. lia.
Qed.

(** [m] items in. *)
Lemma run_fill q0 ins outs q m :
  dq_run i q0 k ins outs q k → dq_holds q [] → Z.of_nat m <= dq_size q → put_index q + Z.of_nat m < 65536 →
  ∃ q1, dq_run i q0 k (ins ++ replicate m x) outs q1 k ∧ dq_holds q1 (replicate m x) ∧
    put_index q1 = put_index q + Z.of_nat m ∧ dq_size q1 = dq_size q.
Proof using Hpop.
  intros Hr Hq. induction m as [| m IH]; intros Hm Hw.
  - exists q. rewrite app_nil_r. split_and!; [done | done | simpl; lia | done].
  - destruct (IH ltac:(lia) ltac:(lia)) as (q1 & Hr1 & Hq1 & Hp1 & Hs1).
    assert (Hl : Z.of_nat (length (replicate m x)) < dq_size q1) by (rewrite length_replicate, Hs1; lia).
    pose proof (push_alone q1 _ Hq1 ltac:(lia) Hl) as E1.
    pose proof (dq_run_push _ _ _ _ _ _ _ _ _ _ _ _ Hr1 E1) as Hr2. cbn [went_in Z.eqb RT_EOK] in Hr2.
    rewrite <- app_assoc, <- replicate_S_end in Hr2. eexists. split; [exact Hr2 |].
    rewrite replicate_S_end. split_and!; [by apply dq_pushed_holds; [| lia |] | | done].
    unfold dq_pushed. cbn [put_index]. lia.
Qed.

(** After 65536 items have gone in and all but [size] of them came out, the
    queue is full, but the test does not see it: the next push succeeds and
    overwrites an item that was not popped. *)
Theorem full_unseen_after_wrap q0 :
  dq_holds q0 [] → put_index q0 = 0 →
  ∃ n ins outs q1 q2 ev, dq_run i q0 k ins outs q1 k ∧
    ins = replicate (Z.to_nat 65536) x ∧ outs = replicate n x ∧ Z.of_nat n = 65536 - dq_size q0 ∧ dq_size q1 = dq_size q0 ∧
    rt_data_queue_push i x 0 q1 k = Ok (q2, k, Returned (RT_EOK, ev)).
Proof using Hpop Hpush.
  intros Hh Hp. pose proof (dh_size _ _ Hh) as [Hsz _].
  assert (∃ n m, Z.of_nat n = 65536 - dq_size q0 ∧ Z.of_nat m = dq_size q0 - 1) as (n & m & Hn & Hm)
    by (exists (Z.to_nat (65536 - dq_size q0)), (Z.to_nat (dq_size q0 - 1)); lia).
  destruct (run_rounds q0 n Hh Hp ltac:(lia)) as (q & Hr & Hq & Hpq & Hs).
  destruct (run_fill q0 _ _ q m Hr Hq) as (q1 & Hr1 & Hq1 & Hp1 & Hs1); [lia | lia |].
  pose proof Hq1 as [[_ Hmem] [Hg _] [Hlen _] _]. rewrite length_replicate in Hlen.
  assert (E1 : rt_data_queue_push i x 0 q1 k =
    Ok (mk_dq (dq_size q1) (lwm q1) (get_index q1) 0
          (<[Z.to_nat (put_index q1 mod dq_size q1) := x]> (dq_queue q1)) (evt_notify q1), k,
        Returned (RT_EOK, notify q1 RT_DATAQUEUE_EVENT_PUSH))).
  { unfold rt_data_queue_push. rewrite (proj2 (Z.eqb_neq _ _)) by lia. unfold dq_put.
    destruct (dq_slot_ok (put_index q1) q1) as [-> _]; [lia | done | lia |]. cbn [mbind res_bind].
    replace (u16 (put_index q1 + 1)) with 0 by word. unfold rt_list_isempty. by rewrite Hpop. }
  pose proof (dq_run_push _ _ _ _ _ _ _ _ _ _ _ _ Hr1 E1) as Hr2. cbn [went_in Z.eqb RT_EOK] in Hr2.
  set (q2 := mk_dq _ _ _ 0 _ _) in *.
  assert (Hs2 : dq_slot 0 q2 = Ok (Z.to_nat (0 mod dq_size q2))).
  { apply dq_slot_ok; cbn [q2 dq_size dq_queue]; rewrite ?length_insert; lia. }
  exists n, (replicate n x ++ replicate m x ++ [x]), (replicate n x), q2. do 2 eexists.
  split_and!; [by rewrite app_assoc | | done | lia | by cbn [q2 dq_size]; rewrite Hs1 |].
  - rewrite <- replicate_S_end, <- replicate_add. f_equal. lia.
  - unfold rt_data_queue_push, dq_put. cbn [q2 put_index get_index]. fold q2.
    rewrite (proj2 (Z.eqb_neq _ _)) by (cbn [q2 dq_size]; lia). rewrite Hs2. cbn [mbind res_bind].
    unfold rt_list_isempty. rewrite Hpop. cbn [negb]. done.
Qed.
End wrap.

(** ** A queue of three items, two of them in use *)
Definition demo_dq : rt_data_queue := mk_dq 3 1 2 4 [(40, 4); (0, 0); (20, 2)] true.
Lemma demo_dq_holds : dq_holds demo_dq [(20, 2); (40, 4)].
Proof.
  split; [done | done | done |]. intros j Hj. simpl in Hj. assert (H : j = 0 ∨ j = 1) by lia.
  by destruct H as [-> | ->].
Qed.

Lemma rt_data_queue_push_spec_witness :
  ∃ q' k', rt_data_queue_push 0 (60, 6) 5 demo_dq demo_kernel = Ok (q', k', Returned (RT_EOK, Some RT_DATAQUEUE_EVENT_PUSH)) ∧
    dq_holds q' [(20, 2); (40, 4); (60, 6)].
Proof.
  pose proof (rt_data_queue_push_spec 0 0 (60, 6) 5 demo_dq _ 1 (demo_thread 1) demo_kernel ltac:(lia) demo_kinv
    demo_dq_holds ltac:(done) demo_in_thread ltac:(rewrite tick_half_val; lia) demo_other_ready) as H.
  replace (q_get demo_kernel (QWait 0)) with (@nil tid) in H by (symmetry; by apply demo_no_waiter).
  destruct H as (q' & k' & E & _ & Hh & _). exists q', k'. split; [exact E | exact Hh].
Defined.

Lemma rt_data_queue_pop_spec_witness :
  ∃ q' k', rt_data_queue_pop 0 0 demo_dq demo_kernel =
      Ok (q', k', Returned (RT_EOK, Some (20, 2), Some RT_DATAQUEUE_EVENT_LWM)) ∧ dq_holds q' [(40, 4)].
Proof.
  destruct (rt_data_queue_pop_spec 0 0 0 demo_dq _ 1 (demo_thread 1) demo_kernel ltac:(lia) demo_kinv
    demo_dq_holds demo_in_thread ltac:(rewrite tick_half_val; lia) demo_other_ready) as (_ & q' & k' & E & _ & Hh & _).
  exists q', k'. split; [exact E | exact Hh].
Defined.

Lemma rt_data_queue_fifo_witness :
  ∃ q' k' l', dq_run 0 demo_dq demo_kernel [(60, 6)] [(20, 2)] q' k' ∧
    [(20, 2); (40, 4)] ++ [(60, 6)] = [(20, 2)] ++ l' ∧ dq_holds q' l'.
Proof.
  assert (Hr : ∃ q' k', dq_run 0 demo_dq demo_kernel [(60, 6)] [(20, 2)] q' k').
  { assert (Hq : q_get demo_kernel (QWait 0) = []) by (by apply demo_no_waiter).
    pose proof (push_alone 0 (60, 6) demo_kernel Hq demo_dq _ demo_dq_holds ltac:(done) ltac:(done)) as E1.
    pose proof (dq_pushed_holds demo_dq _ (60, 6) demo_dq_holds ltac:(done) ltac:(done)) as Hh1.
    destruct (pop_alone 0 (20, 2) demo_kernel (demo_no_waiter (QSender 0) I) _ _ Hh1) as (ev & E2).
    do 2 eexists. pose proof (dq_run_push _ _ _ _ _ _ _ _ _ _ _ _ (dq_run_refl 0 demo_dq demo_kernel) E1) as Hr1.
    exact (dq_run_pop _ _ _ _ _ _ _ _ _ _ _ Hr1 E2). }
  destruct Hr as (q' & k' & Hr).
  destruct (rt_data_queue_fifo 0 demo_dq _ demo_kernel _ _ q' k' demo_dq_holds Hr ltac:(done)) as (l' & E & Hh & _).
  exists q', k', l'. split; [exact Hr | split; [exact E | exact Hh]].
Defined.
