(* ===== verification/Pipe.v ===== *)
(** * Pipes: [components/drivers/src/pipe.c]

    A device over a ring buffer whose reads and writes may wait: for bytes in
    [QWait], for room in [QSender].  The loops are split at [rt_schedule]; a
    wait has no time limit.  As the ring buffers of [RingBuffer] an option that
    [rtconfig.h] leaves out. *)
From S2P Require Import Prelude Heap RingBuffer Timer KObject Kernel KernelInv ThreadOps Tick ThreadProps Ipc Mmio Device.
Local Open Scope Z_scope.

Definition RT_PIPE_FLAG_BLOCK_RD : Z := 1.
Definition RT_PIPE_FLAG_BLOCK_WR : Z := 2.
Definition RT_PIPE_FLAG_FORCE_WR : Z := 4.
Definition PIPE_CTRL_GET_SPACE : Z := 0x14.

(** [struct rt_pipe_device] without its lists; of [parent] only the callback. *)
Record rt_pipe_device := mk_pipe { pp_rx_indicate : option Z; pp_ring : rt_ringbuffer; pp_flag : Z }.
Definition set_ring (rb : rt_ringbuffer) (p : rt_pipe_device) : rt_pipe_device :=
  mk_pipe (pp_rx_indicate p) rb (pp_flag p).

Section pipe.
(** [indicate f n]: the call of the client's function [f] with the size [n]. *)
Context (indicate : Z → Z → kernel → res kernel).
Context (i : nat).

Definition _rt_pipe_resume_writer (p : rt_pipe_device) (k : kernel) : res kernel :=
  if negb (rt_list_isempty (QSender i) k) then
    _ ← rt_assert (flag_set (pp_flag p) RT_PIPE_FLAG_BLOCK_WR);
    k ← rt_ipc_list_resume (QSender i) k;
    rt_schedule k
  else Ok k.

Definition _rt_pipe_resume_reader (p : rt_pipe_device) (k : kernel) : res kernel :=
  k ← match pp_rx_indicate p with
      | Some f => indicate f (rt_ringbuffer_data_len (pp_ring p)) k
      | None => Ok k
      end;
  if negb (rt_list_isempty (QWait i) k) then
    _ ← rt_assert (flag_set (pp_flag p) RT_PIPE_FLAG_BLOCK_RD);
    k ← rt_ipc_list_resume (QWait i) k;
    rt_schedule k
  else Ok k.

(** The running thread goes behind the others; then [rt_schedule]. *)
Definition pipe_suspend (q : qid) (k : kernel) : res kernel :=
  thread ← of_option NullDeref (rt_thread_self k);
  '(k, _) ← rt_thread_suspend thread k;
  k ← rt_list_insert_before q thread k;
  rt_schedule k.

(** One turn of the loop of [rt_pipe_read]; the size is cut to the 16 bits of
    the parameter of [rt_ringbuffer_get]. *)
Definition pipe_read_loop (buffer : list Z) (size : Z) (p : rt_pipe_device) (k : kernel) :
    res (rt_pipe_device * kernel * call_result (list Z * Z)) :=
  '(rb, buf, n) ← rt_ringbuffer_get (pp_ring p) buffer (u16 size);
  let p := set_ring rb p in
  if n =? 0 then
    k ← pipe_suspend (QWait i) k;
    Ok (p, k, Waiting 0 0)
  else
    k ← _rt_pipe_resume_writer p k;
    Ok (p, k, Returned (buf, n)).

Definition rt_pipe_read (buffer : list Z) (size : Z) (p : rt_pipe_device) (k : kernel) :
    res (rt_pipe_device * kernel * call_result (list Z * Z)) :=
  if negb (flag_set (pp_flag p) RT_PIPE_FLAG_BLOCK_RD) then
    '(rb, buf, n) ← rt_ringbuffer_get (pp_ring p) buffer (u16 size);
    let p := set_ring rb p in
    k ← (if negb (n =? 0) then _rt_pipe_resume_writer p k else Ok k);
    Ok (p, k, Returned (buf, n))
  else
    _ ← debug_not_in_interrupt k;
    pipe_read_loop buffer size p k.

Definition rt_pipe_read_resume (buffer : list Z) (size : Z) (p : rt_pipe_device) (k : kernel) :
    res (rt_pipe_device * kernel * call_result (list Z * Z)) := pipe_read_loop buffer size p k.

Definition pipe_write_loop (buffer : list Z) (size : Z) (p : rt_pipe_device) (k : kernel) :
    res (rt_pipe_device * kernel * call_result Z) :=
  '(rb, n) ← rt_ringbuffer_put (pp_ring p) buffer (u16 size);
  let p := set_ring rb p in
  if n =? 0 then
    k ← pipe_suspend (QSender i) k;
    Ok (p, k, Waiting 0 0)
  else
    k ← _rt_pipe_resume_reader p k;
    Ok (p, k, Returned n).

Definition rt_pipe_write (buffer : list Z) (size : Z) (p : rt_pipe_device) (k : kernel) :
    res (rt_pipe_device * kernel * call_result Z) :=
  if flag_set (pp_flag p) RT_PIPE_FLAG_FORCE_WR || negb (flag_set (pp_flag p) RT_PIPE_FLAG_BLOCK_WR) then
    '(rb, n) ← (if flag_set (pp_flag p) RT_PIPE_FLAG_FORCE_WR
                then rt_ringbuffer_put_force (pp_ring p) buffer (u16 size)
                else rt_ringbuffer_put (pp_ring p) buffer (u16 size));
    let p := set_ring rb p in
    k ← _rt_pipe_resume_reader p k;
    Ok (p, k, Returned n)
  else
    _ ← debug_not_in_interrupt k;
    pipe_write_loop buffer size p k.

Definition rt_pipe_write_resume (buffer : list Z) (size : Z) (p : rt_pipe_device) (k : kernel) :
    res (rt_pipe_device * kernel * call_result Z) := pipe_write_loop buffer size p k.

(** [has_args]: the pointer is not null; the second result is what it points at. *)
Definition rt_pipe_control (cmd : Z) (has_args : bool) (p : rt_pipe_device) : Z * option Z :=
  (RT_EOK, if (cmd =? PIPE_CTRL_GET_SPACE) && has_args then Some (u32 (rt_ringbuffer_space_len (pp_ring p))) else None).

(** [x], [name], [old_flag], [d]: the device object, as in [rt_device_register]. *)
Definition rt_pipe_init (x : nat) (name : list Z) (old_flag : Z) (d : rt_device) (flag : Z) (buf : list Z) (size : Z)
    (k : kernel) (s : namespace) : res (rt_pipe_device * kernel * namespace * Z) :=
  let k := rt_ipc_object_init (QWait i) k in
  let k := rt_ipc_object_init (QSender i) k in
  rb ← rt_ringbuffer_init buf (s16 size);
  '(result, s) ← rt_device_register (Some x) name RT_DEVICE_FLAG_RDWR old_flag d s;
  Ok (mk_pipe (rx_indicate d) rb flag, k, s, result).

Definition rt_pipe_detach (x : nat) (s : namespace) : res (Z * namespace) := rt_device_unregister x s.
End pipe.

(** [alloc], [mem]: what [rt_calloc] and [rt_malloc] gave.  The second
    allocation that fails gives the first back ([true]). *)
Definition rt_pipe_create (i x : nat) (name : list Z) (flag size : Z) (alloc : bool) (mem : option (list Z))
    (k : kernel) (s : namespace) : res (option rt_pipe_device * kernel * namespace * Z * bool) :=
  let size := RT_ALIGN size in
  if negb alloc then Ok (None, k, s, -5, false)
  else match mem with
       | None => Ok (None, k, s, -5, true)
       | Some buf =>
           '(p, k, s, result) ← rt_pipe_init i x name 0 (mk_device 0 0 0 None None) flag buf size k s;
           Ok (Some p, k, s, result, false)
       end.

(** The device object is unregistered, and both blocks are given back. *)
Definition rt_pipe_destroy (x : nat) (p : option rt_pipe_device) (s : namespace) : res (namespace * bool) :=
  match p with
  | None => Ok (s, false)
  | Some _ => '(_, s) ← rt_pipe_detach x s; Ok (s, true)
  end.

(** ** Waiting *)
Lemma pipe_suspend_eq q k :
  pipe_suspend q k =
    (thread ← of_option NullDeref (rt_thread_self k);
     k ← rt_ipc_list_suspend q thread RT_IPC_FLAG_FIFO k; rt_schedule k).
Proof.
  unfold pipe_suspend, rt_ipc_list_suspend. destruct (rt_thread_self k) as [t |]; [| done]. cbn [of_option mbind res_bind].
  by destruct (rt_thread_suspend t k) as [[k1 b] |].
Qed.

Lemma pipe_suspend_safe i q c th k k' :
  kinv None 0 k → wait_q q → owns i q → in_thread k c th → pipe_suspend q k = Ok k' →
  kinv None 0 k' ∧ q_get k' q `sublist_of` q_get k q ++ [c] ∧
  (∀ q', wait_q q' → q' ≠ q → q_get k' q' `sublist_of` q_get k q') ∧ (∀ j, j ≠ i → wstable (owns j) k k').
Proof.
  intros Hk Hq Ho (_ & Hc & Ht & Hs). rewrite pipe_suspend_eq. unfold rt_thread_self. rewrite Hc.
  cbn [of_option mbind res_bind].
  destruct (list_suspend_spec 0 q RT_IPC_FLAG_FIFO c th k) as (k1 & -> & Hk1 & Hw & _); [done | done | by left | done | done |].
  cbn [mbind res_bind]. intros Es. pose proof (wstable_schedule every k1 k' Es) as Hws.
  split_and!; [by eapply schedule_kinv | | |].
  - etransitivity; [by apply (ws_q _ _ _ Hws) |]. by rewrite (wt_q _ _ _ _ _ _ Hw), decide_True.
  - intros q' Hq' Hne. etransitivity; [by apply (ws_q _ _ _ Hws) |].
    rewrite (wt_q _ _ _ _ _ _ Hw), decide_False by done. apply sublist_filter.
  - intros j Hj. transitivity k1; [| by apply wstable_schedule].
    eapply (waiting_wstable (owns j) 0 q); [done | done | exact Hw | |].
    + intros q' Hq' ->. by eapply owns_other.
    + intros q' Hw2. by eapply (ready_not_waiting None 0 c th).
Qed.

Lemma pipe_suspend_spec lo q c th k :
  kinv None lo k → wait_q q → in_thread k c th → others_ready c k →
  ∃ k', pipe_suspend q k = Ok k' ∧ kinv None lo k' ∧ threads k' !! c = Some (with_stat THREAD_SUSPEND th) ∧
    q_get k' q = q_get k q ++ [c] ∧ (∀ q', wait_q q' → q' ≠ q → q_get k' q' = q_get k q').
Proof.
  intros Hk Hq (_ & Hc & Ht & Hs) (u & thu & Hne & Hu & Hsu). rewrite pipe_suspend_eq. unfold rt_thread_self.
  rewrite Hc. cbn [of_option mbind res_bind].
  destruct (list_suspend_spec lo q RT_IPC_FLAG_FIFO c th k) as (k1 & -> & Hk1 & [He Hth Hqq] & _);
    [done | done | by left | done | done |].
  cbn [mbind res_bind].
  destruct (schedule_spec lo k1 Hk1) as (k' & -> & Hk' & (Sth & Sq & _)).
  { eapply (group_nonzero lo u (Z.to_nat (current_priority thu))); [done |].
    apply (ki_ready _ _ _ Hk1); [| done..]. by rewrite Hth, lookup_insert_ne. }
  { by rewrite (se_current _ _ He), Hc. }
  exists k'. split_and!; [done | done | | |].
  - rewrite Sth, Hth. apply lookup_insert_eq.
  - unfold q_get at 1. rewrite Sq. fold (q_get k1 q). by rewrite Hqq, decide_True.
  - intros q' Hq' Hn. unfold q_get at 1. rewrite Sq. fold (q_get k1 q'). rewrite Hqq, decide_False by done.
    apply filter_ne_id. by apply (ready_not_waiting None lo c th q' k).
Qed.

Lemma resume_writer_wake i p k :
  (q_get k (QSender i) ≠ [] → flag_set (pp_flag p) RT_PIPE_FLAG_BLOCK_WR = true) →
  _rt_pipe_resume_writer i p k = wake_one (QSender i) k.
Proof.
  unfold _rt_pipe_resume_writer, wake_one, rt_list_isempty. intros Hf.
  destruct (q_get k (QSender i)); [done |]. by rewrite Hf by done.
Qed.

(** ** The bytes of a pipe that never drops any, whatever else happens *)
Definition went_in (buffer : list Z) (r : call_result Z) : list Z :=
  match r with Returned n => take (Z.to_nat n) buffer | Waiting _ _ => [] end.
Definition came_out (r : call_result (list Z * Z)) : list Z :=
  match r with Returned (buf, n) => take (Z.to_nat n) buf | Waiting _ _ => [] end.

(** A buffer has the bytes that are asked for. *)
Definition long_enough (buffer : list Z) (size : Z) : Prop := u16 size <= Z.of_nat (length buffer).

Lemma u16_range z : 0 <= u16 z < 65536.
Proof. unfold u16. lia. Qed.

Lemma ring_get_contents rb l buffer size rb' buf n :
  holds rb l → long_enough buffer size → rt_ringbuffer_get rb buffer (u16 size) = Ok (rb', buf, n) →
  ∃ l', l = take (Z.to_nat n) buf ++ l' ∧ holds rb' l' ∧ buffer_size rb' = buffer_size rb.
Proof.
  intros Hh Hb E.
  destruct (rt_ringbuffer_get_ok rb l buffer (u16 size) Hh (u16_range size) Hb) as (rb1 & E1 & Hh1 & Hs).
  rewrite E in E1. injection E1 as <- -> ->. eexists. split; [| done].
  rewrite take_of_read by (unfold long_enough in Hb; pose proof (u16_range size); lia).
  by rewrite take_drop.
Qed.

Lemma ring_put_contents rb l buffer size rb' n :
  holds rb l → long_enough buffer size → rt_ringbuffer_put rb buffer (u16 size) = Ok (rb', n) →
  holds rb' (l ++ take (Z.to_nat n) buffer) ∧ buffer_size rb' = buffer_size rb.
Proof.
  intros Hh Hb E.
  destruct (rt_ringbuffer_put_ok rb l buffer (u16 size) Hh (u16_range size) Hb) as (rb1 & E1 & Hh1 & Hs).
  rewrite E in E1. by injection E1 as <- ->.
Qed.

Section theory.
Context (indicate : Z → Z → kernel → res kernel).

Lemma resume_reader_wake i p k :
  (q_get k (QWait i) ≠ [] → flag_set (pp_flag p) RT_PIPE_FLAG_BLOCK_RD = true) → pp_rx_indicate p = None →
  _rt_pipe_resume_reader indicate i p k = wake_one (QWait i) k.
Proof.
  unfold _rt_pipe_resume_reader, wake_one, rt_list_isempty. intros Hf ->. cbn [mbind res_bind].
  destruct (q_get k (QWait i)); [done |]. by rewrite Hf by done.
Qed.

Inductive pipe_run (i : nat) : rt_pipe_device → kernel → list Z → list Z → rt_pipe_device → kernel → Prop :=
  | pipe_run_refl p k : pipe_run i p k [] [] p k
  | pipe_run_read buffer size p k ins outs p1 k1 p2 k2 r :
      pipe_run i p k ins outs p1 k1 → long_enough buffer size →
      rt_pipe_read i buffer size p1 k1 = Ok (p2, k2, r) → pipe_run i p k ins (outs ++ came_out r) p2 k2
  | pipe_run_read_resume buffer size p k ins outs p1 k1 p2 k2 r :
      pipe_run i p k ins outs p1 k1 → long_enough buffer size →
      rt_pipe_read_resume i buffer size p1 k1 = Ok (p2, k2, r) → pipe_run i p k ins (outs ++ came_out r) p2 k2
  | pipe_run_write buffer size p k ins outs p1 k1 p2 k2 r :
      pipe_run i p k ins outs p1 k1 → long_enough buffer size →
      rt_pipe_write indicate i buffer size p1 k1 = Ok (p2, k2, r) →
      pipe_run i p k (ins ++ went_in buffer r) outs p2 k2
  | pipe_run_write_resume buffer size p k ins outs p1 k1 p2 k2 r :
      pipe_run i p k ins outs p1 k1 → long_enough buffer size →
      rt_pipe_write_resume indicate i buffer size p1 k1 = Ok (p2, k2, r) →
      pipe_run i p k (ins ++ went_in buffer r) outs p2 k2
  | pipe_run_other p k ins outs p1 k1 k2 : pipe_run i p k ins outs p1 k1 → pipe_run i p k ins outs p1 k2.

Lemma pipe_read_contents i buffer size p l k p' k' r :
  holds (pp_ring p) l → long_enough buffer size →
  rt_pipe_read i buffer size p k = Ok (p', k', r) ∨ rt_pipe_read_resume i buffer size p k = Ok (p', k', r) →
  ∃ l', l = came_out r ++ l' ∧ holds (pp_ring p') l' ∧ pp_flag p' = pp_flag p ∧
    buffer_size (pp_ring p') = buffer_size (pp_ring p).
Proof.
  intros Hh Hb Hr.
  assert (Hloop : ∀ buffer size, long_enough buffer size → pipe_read_loop i buffer size p k = Ok (p', k', r) →
    ∃ l', l = came_out r ++ l' ∧ holds (pp_ring p') l' ∧ pp_flag p' = pp_flag p ∧
    buffer_size (pp_ring p') = buffer_size (pp_ring p)).
  { clear Hb Hr buffer size. intros buffer size Hb Hr. unfold pipe_read_loop in Hr.
    apply bind_ok_inv in Hr as ([[rb buf] n] & E & Hr).
    destruct (ring_get_contents _ l _ _ _ _ _ Hh Hb E) as (l' & -> & Hh' & Hs').
    destruct (Z.eqb_spec n 0) as [-> | Hn]; apply bind_ok_inv in Hr as (k1 & _ & [= <- _ <-]); by exists l'. }
  destruct Hr as [Hr | Hr]; [| by eapply Hloop]. unfold rt_pipe_read in Hr. destruct (negb _).
  - apply bind_ok_inv in Hr as ([[rb buf] n] & E & Hr).
    destruct (ring_get_contents _ l _ _ _ _ _ Hh Hb E) as (l' & -> & Hh' & Hs').
    apply bind_ok_inv in Hr as (k1 & _ & [= <- _ <-]). by exists l'.
  - apply bind_ok_inv in Hr as (? & _ & Hr). by eapply Hloop.
Qed.

Lemma pipe_write_contents i buffer size p l k p' k' r :
  holds (pp_ring p) l → flag_set (pp_flag p) RT_PIPE_FLAG_FORCE_WR = false → long_enough buffer size →
  rt_pipe_write indicate i buffer size p k = Ok (p', k', r) ∨
  rt_pipe_write_resume indicate i buffer size p k = Ok (p', k', r) →
  holds (pp_ring p') (l ++ went_in buffer r) ∧ pp_flag p' = pp_flag p ∧
    buffer_size (pp_ring p') = buffer_size (pp_ring p).
Proof.
  intros Hh Hf Hb Hr.
  assert (Hloop : ∀ buffer size, long_enough buffer size → pipe_write_loop indicate i buffer size p k = Ok (p', k', r) →
    holds (pp_ring p') (l ++ went_in buffer r) ∧ pp_flag p' = pp_flag p ∧
    buffer_size (pp_ring p') = buffer_size (pp_ring p)).
  { clear Hb Hr buffer size. intros buffer size Hb Hr. unfold pipe_write_loop in Hr.
    apply bind_ok_inv in Hr as ([rb n] & E & Hr).
    destruct (ring_put_contents _ l _ _ _ _ Hh Hb E) as [Hh' Hs'].
    destruct (Z.eqb_spec n 0) as [-> | Hn]; by apply bind_ok_inv in Hr as (k1 & _ & [= <- _ <-]). }
  destruct Hr as [Hr | Hr]; [| by eapply Hloop]. unfold rt_pipe_write in Hr. rewrite Hf in Hr. cbn [orb] in Hr.
  destruct (negb _).
  - apply bind_ok_inv in Hr as ([rb n] & E & Hr).
    destruct (ring_put_contents _ l _ _ _ _ Hh Hb E) as [Hh' Hs'].
    by apply bind_ok_inv in Hr as (k1 & _ & [= <- _ <-]).
  - apply bind_ok_inv in Hr as (? & _ & Hr). by eapply Hloop.
Qed.

(** C32. A pipe without [RT_PIPE_FLAG_FORCE_WR] delivers every byte once and in
    order: whatever the interleaving of reads and writes, blocked or not, the
    bytes that came out are the first of those it held and that went in, and
    its ring holds the rest. *)
Theorem rt_pipe_delivers i p k l ins outs p' k' :
  holds (pp_ring p) l → flag_set (pp_flag p) RT_PIPE_FLAG_FORCE_WR = false → pipe_run i p k ins outs p' k' →
  ∃ l', l ++ ins = outs ++ l' ∧ holds (pp_ring p') l' ∧ pp_flag p' = pp_flag p ∧
    Z.of_nat (length l') <= buffer_size (pp_ring p).
Proof.
  intros Hh Hf Hr.
  assert (H : ∃ l', l ++ ins = outs ++ l' ∧ holds (pp_ring p') l' ∧ pp_flag p' = pp_flag p ∧
    buffer_size (pp_ring p') = buffer_size (pp_ring p)).
  { induction Hr as [p k | buffer size p k ins outs p1 k1 p2 k2 r Hr IH Hb E | buffer size p k ins outs p1 k1 p2 k2 r Hr IH Hb E
      | buffer size p k ins outs p1 k1 p2 k2 r Hr IH Hb E | buffer size p k ins outs p1 k1 p2 k2 r Hr IH Hb E
      | p k ins outs p1 k1 k2 Hr IH].
    - exists l. by rewrite app_nil_r.
    - destruct (IH Hh Hf) as (l1 & E1 & Hh1 & Hf1 & Hs1).
      destruct (pipe_read_contents _ _ _ _ _ _ _ _ _ Hh1 Hb (or_introl E)) as (l2 & -> & Hh2 & Hf2 & Hs2).
      exists l2. split_and!; [by rewrite E1, app_assoc | done | congruence | congruence].
    - destruct (IH Hh Hf) as (l1 & E1 & Hh1 & Hf1 & Hs1).
      destruct (pipe_read_contents _ _ _ _ _ _ _ _ _ Hh1 Hb (or_intror E)) as (l2 & -> & Hh2 & Hf2 & Hs2).
      exists l2. split_and!; [by rewrite E1, app_assoc | done | congruence | congruence].
    - destruct (IH Hh Hf) as (l1 & E1 & Hh1 & Hf1 & Hs1). rewrite <- Hf1 in Hf.
      destruct (pipe_write_contents _ _ _ _ _ _ _ _ _ Hh1 Hf Hb (or_introl E)) as (Hh2 & Hf2 & Hs2).
      eexists. split_and!; [by rewrite app_assoc, E1, <- app_assoc | done | congruence | congruence].
    - destruct (IH Hh Hf) as (l1 & E1 & Hh1 & Hf1 & Hs1). rewrite <- Hf1 in Hf.
      destruct (pipe_write_contents _ _ _ _ _ _ _ _ _ Hh1 Hf Hb (or_intror E)) as (Hh2 & Hf2 & Hs2).
      eexists. split_and!; [by rewrite app_assoc, E1, <- app_assoc | done | congruence | congruence].
    - by apply IH. }
  destruct H as (l' & E & Hh' & Hf' & Hs'). exists l'. split_and!; [done.. |].
  pose proof (holds_room _ _ Hh') as Hr'. unfold room in Hr'. lia.
Qed.
End theory.

(** ** The protocol: who waits may wait, and the ring is one *)
Record pipe_inv (i : nat) (p : rt_pipe_device) (k : kernel) : Prop := {
  pi_ring : ∃ l, holds (pp_ring p) l;
  pi_rd : q_get k (QWait i) ≠ [] → flag_set (pp_flag p) RT_PIPE_FLAG_BLOCK_RD = true;
  pi_wr : q_get k (QSender i) ≠ [] → flag_set (pp_flag p) RT_PIPE_FLAG_BLOCK_WR = true }.

Lemma pipe_inv_stable i p k k' : pipe_inv i p k → wstable (owns i) k k' → pipe_inv i p k'.
Proof.
  intros [R D W] Hs. split; [done | |]; intros Hne.
  - apply D. intros He. apply Hne. eapply wstable_nil; [exact Hs | done | by left | done].
  - apply W. intros He. apply Hne. eapply wstable_nil; [exact Hs | done | by right | done].
Qed.

Section protocol.
(** What the client's callback must not do: take threads into waiting lists. *)
Context (indicate : Z → Z → kernel → res kernel).
Context (indicate_ok : ∀ f n k k', kinv None 0 k → indicate f n k = Ok k' → kinv None 0 k' ∧ wstable every k k').

Definition pipe_safe (i : nat) (p' : rt_pipe_device) (k k' : kernel) : Prop :=
  kinv None 0 k' ∧ pipe_inv i p' k' ∧ ∀ j, j ≠ i → wstable (owns j) k k'.

Lemma pipe_safe_stable i p rb k k' :
  pipe_inv i p k → (∃ l, holds rb l) → kinv None 0 k' → wstable every k k' → pipe_safe i (set_ring rb p) k k'.
Proof.
  intros Hi Hr Hk' Hw. split_and!; [done | | intros; by apply wstable_every].
  apply (pipe_inv_stable i (set_ring rb p) k); [| by apply wstable_every]. by destruct Hi.
Qed.

Lemma pipe_safe_waits i p rb q c th k k' :
  kinv None 0 k → pipe_inv i p k → (∃ l, holds rb l) → in_thread k c th →
  q = QWait i ∧ flag_set (pp_flag p) RT_PIPE_FLAG_BLOCK_RD = true ∨
  q = QSender i ∧ flag_set (pp_flag p) RT_PIPE_FLAG_BLOCK_WR = true →
  pipe_suspend q k = Ok k' → pipe_safe i (set_ring rb p) k k'.
Proof.
  intros Hk [R D W] Hr Hin Hq E.
  assert (Hwq : wait_q q ∧ owns i q) by (destruct Hq as [[-> _] | [-> _]]; (split; [exact I |]); [by left | by right]).
  destruct (pipe_suspend_safe i q c th k k') as (Hk' & _ & Hother & Hframe); [done | apply Hwq | apply Hwq | done | done |].
  split_and!; [done | | done]. split; [done | |]; cbn [set_ring pp_flag]; intros Hne.
  - destruct Hq as [[-> Hf] | [-> _]]; [done |]. apply D. intros He. apply Hne.
    specialize (Hother (QWait i)). rewrite He in Hother. by apply sublist_nil_r, Hother.
  - destruct Hq as [[-> _] | [-> Hf]]; [| done]. apply W. intros He. apply Hne.
    specialize (Hother (QSender i)). rewrite He in Hother. by apply sublist_nil_r, Hother.
Qed.

Lemma resume_writer_safe i p k k' :
  kinv None 0 k → _rt_pipe_resume_writer i p k = Ok k' → kinv None 0 k' ∧ wstable every k k'.
Proof using.
  intros Hk E. apply (wake_one_safe 0 (QSender i)); [done | done |]. unfold _rt_pipe_resume_writer in E. unfold wake_one.
  destruct (negb _); [| done]. by apply bind_ok_inv in E as (? & _ & E).
Qed.
Lemma resume_reader_safe i p k k' :
  kinv None 0 k → _rt_pipe_resume_reader indicate i p k = Ok k' → kinv None 0 k' ∧ wstable every k k'.
Proof using indicate_ok.
  intros Hk E. apply bind_ok_inv in E as (k1 & E1 & E).
  assert (H1 : kinv None 0 k1 ∧ wstable every k k1).
  { destruct (pp_rx_indicate p); [by eapply indicate_ok | by injection E1 as <-]. }
  destruct H1 as [Hk1 Hw1].
  destruct (wake_one_safe 0 (QWait i) k1 k' Hk1 I) as [Hk' Hw].
  { unfold wake_one. destruct (negb _); [| done]. by apply bind_ok_inv in E as (? & _ & E). }
  split; [done | by transitivity k1].
Qed.

Lemma pipe_read_loop_safe i buffer size c th p k p' k' r :
  kinv None 0 k → pipe_inv i p k → flag_set (pp_flag p) RT_PIPE_FLAG_BLOCK_RD = true → in_thread k c th →
  long_enough buffer size → pipe_read_loop i buffer size p k = Ok (p', k', r) → pipe_safe i p' k k'.
Proof using.
  intros Hk Hi Hf Hin Hb Hr. destruct (pi_ring _ _ _ Hi) as (l & Hh).
  apply bind_ok_inv in Hr as ([[rb buf] n] & E & Hr).
  destruct (ring_get_contents _ l _ _ _ _ _ Hh Hb E) as (l' & _ & Hh' & _).
  destruct (n =? 0); apply bind_ok_inv in Hr as (k1 & E1 & [= <- <- _]).
  - eapply (pipe_safe_waits i p rb (QWait i)); [done | done | by exists l' | done | by left | done].
  - destruct (resume_writer_safe i _ k k1 Hk E1) as [Hk1 Hw]. apply pipe_safe_stable; [done | by exists l' | done | done].
Qed.

Lemma pipe_write_loop_safe i buffer size c th p k p' k' r :
  kinv None 0 k → pipe_inv i p k → flag_set (pp_flag p) RT_PIPE_FLAG_BLOCK_WR = true → in_thread k c th →
  long_enough buffer size → pipe_write_loop indicate i buffer size p k = Ok (p', k', r) → pipe_safe i p' k k'.
Proof using indicate_ok.
  intros Hk Hi Hf Hin Hb Hr. destruct (pi_ring _ _ _ Hi) as (l & Hh).
  apply bind_ok_inv in Hr as ([rb n] & E & Hr).
  destruct (ring_put_contents _ l _ _ _ _ Hh Hb E) as [Hh' _].
  destruct (n =? 0); apply bind_ok_inv in Hr as (k1 & E1 & [= <- <- _]).
  - eapply (pipe_safe_waits i p rb (QSender i)); [done | done | by eexists | done | by right | done].
  - destruct (resume_reader_safe i _ k k1 Hk E1) as [Hk1 Hw]. apply pipe_safe_stable; [done | by eexists | done | done].
Qed.

Inductive pipe_step (i : nat) : rt_pipe_device → kernel → rt_pipe_device → kernel → Prop :=
  | pipe_step_read buffer size c th p k p' k' r :
      (flag_set (pp_flag p) RT_PIPE_FLAG_BLOCK_RD = true → in_thread k c th) → long_enough buffer size →
      rt_pipe_read i buffer size p k = Ok (p', k', r) → pipe_step i p k p' k'
  | pipe_step_read_resume buffer size c th p k p' k' r :
      flag_set (pp_flag p) RT_PIPE_FLAG_BLOCK_RD = true → in_thread k c th → long_enough buffer size →
      rt_pipe_read_resume i buffer size p k = Ok (p', k', r) → pipe_step i p k p' k'
  | pipe_step_write buffer size c th p k p' k' r :
      (flag_set (pp_flag p) RT_PIPE_FLAG_BLOCK_WR = true → in_thread k c th) → long_enough buffer size →
      rt_pipe_write indicate i buffer size p k = Ok (p', k', r) → pipe_step i p k p' k'
  | pipe_step_write_resume buffer size c th p k p' k' r :
      flag_set (pp_flag p) RT_PIPE_FLAG_BLOCK_WR = true → in_thread k c th → long_enough buffer size →
      rt_pipe_write_resume indicate i buffer size p k = Ok (p', k', r) → pipe_step i p k p' k'.

Lemma pipe_step_ok i p k p' k' :
  kinv None 0 k → pipe_inv i p k → pipe_step i p k p' k' → pipe_safe i p' k k'.
Proof using indicate_ok.
  intros Hk Hi Hs.
  destruct Hs as [buffer size c th p k p' k' r Hin Hb Hr | buffer size c th p k p' k' r Hf Hin Hb Hr
    | buffer size c th p k p' k' r Hin Hb Hr | buffer size c th p k p' k' r Hf Hin Hb Hr].
  - unfold rt_pipe_read in Hr. destruct (flag_set (pp_flag p) RT_PIPE_FLAG_BLOCK_RD) eqn:Hf; cbn [negb] in Hr.
    + apply bind_ok_inv in Hr as (? & _ & Hr). eapply pipe_read_loop_safe; [done | done | done | by apply Hin | done | done].
    + destruct (pi_ring _ _ _ Hi) as (l & Hh). apply bind_ok_inv in Hr as ([[rb buf] n] & E & Hr).
      destruct (ring_get_contents _ l _ _ _ _ _ Hh Hb E) as (l' & _ & Hh' & _).
      apply bind_ok_inv in Hr as (k1 & E1 & [= <- <- _]).
      assert (H1 : kinv None 0 k1 ∧ wstable every k k1).
      { destruct (negb _); [by eapply resume_writer_safe | by injection E1 as <-]. }
      destruct H1. apply pipe_safe_stable; [done | by exists l' | done | done].
  - by eapply pipe_read_loop_safe.
  - unfold rt_pipe_write in Hr. destruct (_ || _) eqn:Hf.
    + destruct (pi_ring _ _ _ Hi) as (l & Hh). apply bind_ok_inv in Hr as ([rb n] & E & Hr).
      apply bind_ok_inv in Hr as (k1 & E1 & [= <- <- _]).
      destruct (resume_reader_safe i _ k k1 Hk E1) as [Hk1 Hw]. apply pipe_safe_stable; [done | | done | done].
      destruct (flag_set _ RT_PIPE_FLAG_FORCE_WR).
      * destruct (put_force_holds _ l _ _ _ _ Hh (u16_range size) Hb E) as (l' & Hh' & _). by exists l'.
      * destruct (ring_put_contents _ l _ _ _ _ Hh Hb E) as [Hh' _]. by eexists.
    + apply orb_false_elim in Hf as [_ Hf]. apply negb_false_iff in Hf.
      apply bind_ok_inv in Hr as (? & _ & Hr). eapply pipe_write_loop_safe; [done | done | done | by apply Hin | done | done].
  - by eapply pipe_write_loop_safe.
Qed.

Definition pipe_protocol : IpcProtocol rt_pipe_device :=
  {| istep := pipe_step; iinv := pipe_inv; iinv_stable := pipe_inv_stable; istep_ok := pipe_step_ok |}.
End protocol.

(** ** What a call does *)
Lemma set_ring_same p : set_ring (pp_ring p) p = p.
Proof. by destruct p. Qed.

(** [rt_pipe_read] of at least one byte: the oldest bytes, as many as there
    are up to the size, and the first thread that waits for room is made ready;
    an empty pipe gives nothing, or, when reads block, leaves the caller waiting
    behind the others. *)
Theorem rt_pipe_read_spec lo i buffer size p l c th k :
  kinv None lo k → pipe_inv i p k → holds (pp_ring p) l → in_thread k c th → others_ready c k →
  0 < u16 size → long_enough buffer size →
  let n := Z.min (u16 size) (Z.of_nat (length l)) in
  if bool_decide (l = []) then
    if flag_set (pp_flag p) RT_PIPE_FLAG_BLOCK_RD then
      ∃ k', rt_pipe_read i buffer size p k = Ok (p, k', Waiting 0 0) ∧ kinv None lo k' ∧
        threads k' !! c = Some (with_stat THREAD_SUSPEND th) ∧ q_get k' (QWait i) = q_get k (QWait i) ++ [c]
    else rt_pipe_read i buffer size p k = Ok (p, k, Returned (buffer, 0))
  else ∃ p' k', rt_pipe_read i buffer size p k =
      Ok (p', k', Returned (take (Z.to_nat n) l ++ drop (Z.to_nat n) buffer, n)) ∧
    kinv None lo k' ∧ holds (pp_ring p') (drop (Z.to_nat n) l) ∧ pp_flag p' = pp_flag p ∧
    first_woken (QSender i) k k'.
Proof.
  intros Hk Hi Hh Hin Ho Hs Hb n. pose proof Hin as (Hn & Hc & _).
  destruct (rt_ringbuffer_get_ok (pp_ring p) l buffer (u16 size) Hh (u16_range size) Hb) as (rb & E & Hh' & _).
  fold n in E. unfold rt_pipe_read, pipe_read_loop, debug_not_in_interrupt. rewrite E, Hn.
  cbn [mbind res_bind Z.eqb rt_assert require]. destruct (bool_decide_reflect (l = [])) as [-> | Hne].
  - subst n. rewrite Z.min_r in * by (simpl; lia). cbn [length Z.of_nat Z.to_nat take drop app] in *.
    assert (rb = pp_ring p) as ->.
    { unfold rt_ringbuffer_get in E. rewrite <- (ho_len _ _ Hh) in E. simpl in E. by injection E. }
    rewrite set_ring_same. cbn [Z.eqb negb]. destruct (flag_set _ _); cbn [negb]; [| done].
    destruct (pipe_suspend_spec lo (QWait i) c th k) as (k' & -> & ? & ? & ? & _); [done.. |]. by exists k'.
  - assert (Hpos : 0 < n) by (destruct l; [done | subst n; simpl length; lia]).
    rewrite (proj2 (Z.eqb_neq n 0)) by lia. cbn [negb].
    rewrite resume_writer_wake by apply (pi_wr _ _ _ Hi).
    destruct (wake_one_spec lo (QSender i) k Hk I ltac:(eauto)) as (k' & -> & Hk' & Hf & _).
    exists (set_ring rb p), k'. by destruct (flag_set _ _).
Qed.

(** [rt_pipe_write] of at least one byte to a pipe that drops none: the bytes
    that fit go in, and the first thread that waits for bytes is made ready; a
    full pipe takes nothing, or, when writes block, leaves the caller waiting
    behind the others. *)
Theorem rt_pipe_write_spec indicate lo i buffer size p l c th k :
  kinv None lo k → pipe_inv i p k → holds (pp_ring p) l → in_thread k c th → others_ready c k →
  0 < u16 size → long_enough buffer size → pp_rx_indicate p = None →
  flag_set (pp_flag p) RT_PIPE_FLAG_FORCE_WR = false →
  let n := Z.min (u16 size) (room (pp_ring p) l) in
  if (room (pp_ring p) l =? 0) && flag_set (pp_flag p) RT_PIPE_FLAG_BLOCK_WR then
    ∃ k', rt_pipe_write indicate i buffer size p k = Ok (p, k', Waiting 0 0) ∧ kinv None lo k' ∧
      threads k' !! c = Some (with_stat THREAD_SUSPEND th) ∧ q_get k' (QSender i) = q_get k (QSender i) ++ [c]
  else ∃ p' k', rt_pipe_write indicate i buffer size p k = Ok (p', k', Returned n) ∧ kinv None lo k' ∧
    holds (pp_ring p') (l ++ take (Z.to_nat n) buffer) ∧ pp_flag p' = pp_flag p ∧ first_woken (QWait i) k k'.
Proof.
  intros Hk Hi Hh Hin Ho Hs Hb Hrx Hforce n. pose proof Hin as (Hn & Hc & _).
  pose proof (holds_room _ _ Hh) as Hroom.
  destruct (rt_ringbuffer_put_ok (pp_ring p) l buffer (u16 size) Hh (u16_range size) Hb) as (rb & E & Hh' & _).
  fold n in E, Hh'. unfold rt_pipe_write, pipe_write_loop, debug_not_in_interrupt. rewrite Hforce, E, Hn.
  cbn [orb mbind res_bind Z.eqb rt_assert require].
  rewrite resume_reader_wake by (apply (pi_rd _ _ _ Hi) || done).
  destruct (wake_one_spec lo (QWait i) k Hk I ltac:(eauto)) as (k1 & E1 & Hk1 & Hf1 & _).
  destruct (Z.eqb_spec (room (pp_ring p) l) 0) as [Hz | Hz]; cbn [andb].
  - assert (n = 0) as Hn0 by lia. rewrite Hn0. cbn [Z.eqb].
    destruct (flag_set _ RT_PIPE_FLAG_BLOCK_WR); cbn [negb].
    + assert (rb = pp_ring p) as ->.
      { unfold rt_ringbuffer_put in E. rewrite (space_len_val _ l Hh), Hz in E. simpl in E. by injection E. }
      rewrite set_ring_same.
      destruct (pipe_suspend_spec lo (QSender i) c th k) as (k' & -> & ? & ? & ? & _); [done.. |]. by exists k'.
    + rewrite E1. cbn [mbind res_bind]. exists (set_ring rb p), k1. by rewrite Hn0 in Hh'.
  - rewrite (proj2 (Z.eqb_neq n 0)) by lia. rewrite E1. cbn [mbind res_bind].
    exists (set_ring rb p), k1. split_and!; [by destruct (negb _) | done..].
Qed.

(** ** Where the code falls short *)

(** A size whose low 16 bits are zero - no bytes, or 65536 - makes a blocking
    read wait for ever, whatever the pipe holds: each turn of the loop reads
    nothing. *)
Theorem zero_read_never_returns i buffer size p k p' k' r :
  u16 size = 0 → flag_set (pp_flag p) RT_PIPE_FLAG_BLOCK_RD = true →
  (∃ l, holds (pp_ring p) l) →
  rt_pipe_read i buffer size p k = Ok (p', k', r) ∨ rt_pipe_read_resume i buffer size p k = Ok (p', k', r) →
  r = Waiting 0 0.
Proof.
  intros Hz Hf (l & Hh) Hr.
  assert (Hl : pipe_read_loop i buffer size p k = Ok (p', k', r)).
  { destruct Hr as [Hr | Hr]; [| done]. unfold rt_pipe_read in Hr. rewrite Hf in Hr. cbn [negb] in Hr.
    by apply bind_ok_inv in Hr as (? & _ & Hr). }
  unfold pipe_read_loop in Hl. rewrite Hz in Hl.
  destruct (rt_ringbuffer_get_ok (pp_ring p) l buffer 0 Hh ltac:(lia) ltac:(lia)) as (rb & E & _).
  rewrite E, Z.min_l in Hl by lia. cbn [mbind res_bind Z.eqb] in Hl.
  by apply bind_ok_inv in Hl as (k1 & _ & [= _ _ <-]).
Qed.

(** A write wakes one reader only, and a read none: a second reader is left
    waiting although the pipe holds bytes and nobody waits to write. *)
Theorem reader_left_waiting indicate lo i data size buffer p t1 t2 rest k :
  kinv None lo k → pipe_inv i p k → holds (pp_ring p) [] → is_Some (rt_current_thread k) →
  q_get k (QWait i) = t1 :: t2 :: rest → q_get k (QSender i) = [] → rt_interrupt_nest k = 0 →
  pp_rx_indicate p = None → flag_set (pp_flag p) RT_PIPE_FLAG_FORCE_WR = false →
  let n := Z.of_nat (length data) in
  0 < u16 size < n → n <= buffer_size (pp_ring p) → long_enough buffer size →
  ∃ p1 k1 p2 buf, rt_pipe_write indicate i data n p k = Ok (p1, k1, Returned n) ∧
    rt_pipe_read_resume i buffer size p1 k1 = Ok (p2, k1, Returned (buf, u16 size)) ∧
    take (Z.to_nat (u16 size)) buf = take (Z.to_nat (u16 size)) data ∧
    holds (pp_ring p2) (drop (Z.to_nat (u16 size)) data) ∧
    q_get k1 (QWait i) = t2 :: rest ∧ q_get k1 (QSender i) = [].
Proof.
  intros Hk Hi Hh Hc Hq Hqs Hn Hrx Hforce n Hs Hcap Hb.
  pose proof (rw_size _ (ho_wf _ _ Hh)) as Hsz. assert (Hu : u16 n = n) by (apply u16_id; lia).
  assert (Hroom : room (pp_ring p) [] = buffer_size (pp_ring p)) by (unfold room; simpl; lia).
  destruct (rt_ringbuffer_put_ok (pp_ring p) [] data n Hh) as (rb & E & Hh1 & Hs1); [lia | lia |].
  rewrite Hroom, Z.min_l in E, Hh1 by lia. cbn [app] in Hh1. rewrite take_ge in Hh1 by lia.
  destruct (wake_one_spec lo (QWait i) k Hk I Hc) as (k1 & E1 & Hk1 & Hf1 & Hother).
  destruct (rt_ringbuffer_get_ok rb data buffer (u16 size) Hh1 (u16_range size) Hb) as (rb2 & E2 & Hh2 & _).
  rewrite Z.min_l in E2, Hh2 by lia.
  exists (set_ring rb p), k1, (set_ring rb2 (set_ring rb p)). eexists. split_and!.
  - unfold rt_pipe_write, pipe_write_loop, debug_not_in_interrupt. rewrite Hforce, Hu, E, Hn.
    cbn [orb mbind res_bind Z.eqb rt_assert require]. rewrite (proj2 (Z.eqb_neq n 0)) by lia.
    rewrite resume_reader_wake by (apply (pi_rd _ _ _ Hi) || done). rewrite E1. cbn [mbind res_bind].
    by destruct (negb _).
  - unfold rt_pipe_read_resume, pipe_read_loop. cbn [set_ring pp_ring]. rewrite E2. cbn [mbind res_bind].
    rewrite (proj2 (Z.eqb_neq (u16 size) 0)) by lia. unfold _rt_pipe_resume_writer, rt_list_isempty.
    rewrite (Hother (QSender i) I ltac:(done)), Hqs. cbn [negb mbind res_bind]. done.
  - apply take_of_read. lia.
  - done.
  - unfold first_woken in Hf1. rewrite Hq in Hf1. by destruct Hf1 as (th & _ & _ & ->).
  - by rewrite (Hother (QSender i) I ltac:(done)).
Qed.

(** The size of the buffer is cut to 16 bits and taken as signed: from 32 KiB
    to 64 KiB the assertion of [rt_ringbuffer_init] fails, and 64 KiB and four
    bytes give a pipe of four. *)
Theorem pipe_size_is_cut i x name old d flag buf size k s :
  (32768 <= size < 65536 → rt_pipe_init i x name old d flag buf size k s = Stop AssertFail) ∧
  (size = 65540 → ∀ p k' s' r, rt_pipe_init i x name old d flag buf size k s = Ok (p, k', s', r) →
    buffer_size (pp_ring p) = 4).
Proof.
  unfold rt_pipe_init, rt_ringbuffer_init. split.
  - intros Hs. replace (0 <? s16 size) with false; [done |]. symmetry. apply Z.ltb_ge. word.
  - intros -> p k' s' r Hr. apply bind_ok_inv in Hr as (rb & E & Hr). vm_compute in E. injection E as <-.
    by apply bind_ok_inv in Hr as ([res s1] & _ & [= <- _ _ _]).
Qed.

(** ** Witnesses: eight bytes, reads and writes that block *)
Lemma write_alone indicate i buffer size p rb n k :
  rt_interrupt_nest k = 0 → q_get k (QWait i) = [] → pp_rx_indicate p = None →
  flag_set (pp_flag p) RT_PIPE_FLAG_FORCE_WR = false →
  rt_ringbuffer_put (pp_ring p) buffer (u16 size) = Ok (rb, n) → n ≠ 0 →
  rt_pipe_write indicate i buffer size p k = Ok (set_ring rb p, k, Returned n).
Proof.
  intros Hn Hq Hrx Hf E Hnz.
  unfold rt_pipe_write, pipe_write_loop, debug_not_in_interrupt, _rt_pipe_resume_reader, rt_list_isempty.
  cbn [set_ring pp_rx_indicate]. rewrite Hf, E, Hn, Hrx. cbn [orb mbind res_bind Z.eqb rt_assert require].
  rewrite (proj2 (Z.eqb_neq n 0)), Hq by done. by destruct (negb (flag_set _ _)).
Qed.
Lemma read_alone i buffer size p rb buf n k :
  rt_interrupt_nest k = 0 → q_get k (QSender i) = [] →
  rt_ringbuffer_get (pp_ring p) buffer (u16 size) = Ok (rb, buf, n) → n ≠ 0 →
  rt_pipe_read i buffer size p k = Ok (set_ring rb p, k, Returned (buf, n)).
Proof.
  intros Hn Hq E Hnz. unfold rt_pipe_read, pipe_read_loop, debug_not_in_interrupt, _rt_pipe_resume_writer, rt_list_isempty.
  rewrite E, Hn. cbn [mbind res_bind Z.eqb rt_assert require].
  rewrite (proj2 (Z.eqb_neq n 0)), Hq by done. by destruct (negb (flag_set _ _)).
Qed.

Definition demo_ring : rt_ringbuffer := mk_rb (replicate 8 0) 0 0 0 0 8.
Definition demo_pipe : rt_pipe_device := mk_pipe None demo_ring 3.
Definition no_indicate (f n : Z) (k : kernel) : res kernel := Ok k.

Lemma demo_ring_holds : holds demo_ring [].
Proof. split; [split; vm_compute; repeat split; auto; discriminate | done | simpl; lia]. Qed.

Lemma demo_pipe_inv : pipe_inv 0 demo_pipe demo_kernel.
Proof. split; [by exists []; apply demo_ring_holds | done | done]. Qed.

Lemma demo_pipe_run : ∃ p', pipe_run no_indicate 0 demo_pipe demo_kernel [1; 2; 3] [1; 2] p' demo_kernel.
Proof.
  pose proof (demo_no_waiter (QWait 0) I) as Hq. pose proof (demo_no_waiter (QSender 0) I) as Hs.
  destruct demo_in_thread as (Hn & _).
  pose proof (write_alone no_indicate 0 [1; 2; 3] 3 demo_pipe (mk_rb [1; 2; 3; 0; 0; 0; 0; 0] 0 0 0 3 8) 3 demo_kernel Hn Hq
    eq_refl eq_refl eq_refl ltac:(done)) as E1.
  pose proof (read_alone 0 [0; 0] 2 (set_ring (mk_rb [1; 2; 3; 0; 0; 0; 0; 0] 0 0 0 3 8) demo_pipe)
    (mk_rb [1; 2; 3; 0; 0; 0; 0; 0] 0 2 0 3 8) [1; 2] 2 demo_kernel Hn Hs eq_refl ltac:(done)) as E2.
  assert (Hb1 : long_enough [1; 2; 3] 3) by (vm_compute; discriminate).
  assert (Hb2 : long_enough [0; 0] 2) by (vm_compute; discriminate).
  eexists. apply (pipe_run_read no_indicate 0 [0; 0] 2 _ _ _ [] _ _ _ _ _
    (pipe_run_write no_indicate 0 [1; 2; 3] 3 _ _ [] [] _ _ _ _ _ (pipe_run_refl _ _ _ _) Hb1 E1) Hb2 E2).
Qed.

Lemma rt_pipe_delivers_witness :
  ∃ p' l', pipe_run no_indicate 0 demo_pipe demo_kernel [1; 2; 3] [1; 2] p' demo_kernel ∧
    [] ++ [1; 2; 3] = [1; 2] ++ l' ∧ holds (pp_ring p') l'.
Proof.
  destruct demo_pipe_run as (p' & R).
  destruct (rt_pipe_delivers no_indicate 0 demo_pipe demo_kernel [] _ _ p' demo_kernel demo_ring_holds eq_refl R)
    as (l' & E & Hh & _).
  exists p', l'. split; [exact R | split; [exact E | exact Hh]].
Defined.

Lemma rt_pipe_read_spec_witness :
  ∃ k', rt_pipe_read 0 [0; 0] 2 demo_pipe demo_kernel = Ok (demo_pipe, k', Waiting 0 0) ∧ kinv None 0 k' ∧
    q_get k' (QWait 0) = [1%nat].
Proof.
  pose proof (rt_pipe_read_spec 0 0 [0; 0] 2 demo_pipe [] 1 (demo_thread 1) demo_kernel demo_kinv demo_pipe_inv
    demo_ring_holds demo_in_thread demo_other_ready ltac:(vm_compute; reflexivity) ltac:(vm_compute; discriminate)) as H.
  cbv zeta in H. rewrite bool_decide_eq_true_2 in H by reflexivity.
  change (flag_set (pp_flag demo_pipe) RT_PIPE_FLAG_BLOCK_RD) with true in H. cbv iota in H.
  destruct H as (k' & E & Hk & _ & Hq).
  rewrite demo_no_waiter in Hq by exact I. exists k'. split; [exact E | split; [exact Hk | exact Hq]].
Defined.

Lemma rt_pipe_write_spec_witness :
  ∃ p' k', rt_pipe_write no_indicate 0 [7; 8] 2 demo_pipe demo_kernel = Ok (p', k', Returned 2) ∧
    holds (pp_ring p') [7; 8].
Proof.
  pose proof (rt_pipe_write_spec no_indicate 0 0 [7; 8] 2 demo_pipe [] 1 (demo_thread 1) demo_kernel demo_kinv demo_pipe_inv
    demo_ring_holds demo_in_thread demo_other_ready ltac:(vm_compute; reflexivity) ltac:(vm_compute; discriminate)
    eq_refl eq_refl) as H.
  change (room (pp_ring demo_pipe) []) with 8 in H. change (u16 2) with 2 in H.
  change (Z.min 2 8) with 2 in H. cbv zeta in H. change (8 =? 0) with false in H. cbn [andb] in H.
  destruct H as (p' & k' & E & _ & Hh & _).
  exists p', k'. split; [exact E | exact Hh].
Defined.
