(* ===== verification/IpcSystem.v ===== *)
(** * The whole kernel: threads and any number of IPC objects

    The thread layer of ThreadProps.v and the objects of Semaphore.v, Mutex.v,
    Event.v, Mailbox.v, MsgQueue.v and MemPool.v, and those of the device framework
    in Completion.v, DataQueue.v and Pipe.v, put together: one kernel, a map of live
    objects, and a step relation whose steps are those of the thread layer
    ([kstep]), of one object ([istep] of its [IpcProtocol]), and the creation
    and the end of an object.  The proofs use nothing of a step but that
    [IpcProtocol]. *)
From S2P Require Import Prelude Timer Heap KObject Kernel KernelInv ThreadOps Tick ThreadProps Ipc.
From S2P Require Import Semaphore Mutex Event Mailbox MsgQueue MemPool.
From S2P Require Import RingBuffer Completion DataQueue Mmio Device Pipe.
Local Open Scope Z_scope.

Inductive ipc_object :=
  | IpcSem (s : semaphore) | IpcMutex (m : mutex) | IpcEvent (e : event)
  | IpcMailbox (mb : mailbox) | IpcQueue (q : mq_object) | IpcPool (mp : mempool)
  | IpcCompletion (c : rt_completion) | IpcData (d : rt_data_queue) | IpcPipe (p : rt_pipe_device).

Section system.
(** The callbacks of pipes keep out of the waiting lists. *)
Context (indicate : Z → Z → kernel → res kernel).
Context (indicate_ok : ∀ f n k k', kinv None 0 k → indicate f n k = Ok k' → kinv None 0 k' ∧ wstable every k k').
(** What the user's timers do, as in [ThreadProps]. *)
Context (user_timeout : nat → kernel → res kernel).

Inductive ipc_step (i : nat) : ipc_object → kernel → ipc_object → kernel → Prop :=
  | ipc_step_sem s k s' k' : istep i s k s' k' → ipc_step i (IpcSem s) k (IpcSem s') k'
  | ipc_step_mutex m k m' k' : istep i m k m' k' → ipc_step i (IpcMutex m) k (IpcMutex m') k'
  | ipc_step_event e k e' k' : istep i e k e' k' → ipc_step i (IpcEvent e) k (IpcEvent e') k'
  | ipc_step_mailbox b k b' k' : istep i b k b' k' → ipc_step i (IpcMailbox b) k (IpcMailbox b') k'
  | ipc_step_queue q k q' k' : istep i q k q' k' → ipc_step i (IpcQueue q) k (IpcQueue q') k'
  | ipc_step_pool mp k mp' k' : istep i mp k mp' k' → ipc_step i (IpcPool mp) k (IpcPool mp') k'
  | ipc_step_completion c k c' k' : istep i c k c' k' → ipc_step i (IpcCompletion c) k (IpcCompletion c') k'
  | ipc_step_data d k d' k' : istep i d k d' k' → ipc_step i (IpcData d) k (IpcData d') k'
  | ipc_step_pipe p k p' k' : pipe_step indicate i p k p' k' → ipc_step i (IpcPipe p) k (IpcPipe p') k'.

Definition ipc_inv (i : nat) (o : ipc_object) (k : kernel) : Prop :=
  match o with
  | IpcSem s => iinv i s k | IpcMutex m => iinv i m k | IpcEvent e => iinv i e k
  | IpcMailbox b => iinv i b k | IpcQueue q => iinv i q k | IpcPool mp => iinv i mp k
  | IpcCompletion c => iinv i c k | IpcData d => iinv i d k | IpcPipe p => pipe_inv i p k
  end.

(** A sum of protocols is a protocol. *)
Lemma ipc_inv_stable i (o : ipc_object) k k' : ipc_inv i o k → wstable (owns i) k k' → ipc_inv i o k'.
Proof using. destruct o; [apply iinv_stable..|apply pipe_inv_stable]. Qed.
Lemma ipc_step_ok i (o : ipc_object) k o' k' :
  kinv None 0 k → ipc_inv i o k → ipc_step i o k o' k' →
  kinv None 0 k' ∧ ipc_inv i o' k' ∧ ∀ j, j ≠ i → wstable (owns j) k k'.
Proof using indicate_ok.
  intros Hk Hi Hs. destruct Hs as [s k s' k' Hs|m k m' k' Hs|e k e' k' Hs|b k b' k' Hs|q k q' k' Hs|p k p' k' Hs
    |c k c' k' Hs|d k d' k' Hs|p k p' k' Hs]; [exact (istep_ok i _ _ _ _ Hk Hi Hs)..|].
  by eapply pipe_step_ok.
Qed.
Definition ipc_protocol : IpcProtocol ipc_object :=
  {| istep := ipc_step; iinv := ipc_inv; iinv_stable := ipc_inv_stable; istep_ok := ipc_step_ok |}.

(** ** Creation and end of an object *)
Inductive ipc_init (i : nat) : ipc_object → kernel → kernel → Prop :=
  | init_sem value flag s k k' :
      flag_ok flag → rt_sem_init i value flag k = Ok (s, k') → ipc_init i (IpcSem s) k k'
  | init_mutex flag m k k' :
      flag_ok flag → rt_mutex_init i flag k = Ok (m, k') → ipc_init i (IpcMutex m) k k'
  | init_event flag e k k' :
      flag_ok flag → rt_event_init i flag k = Ok (e, k') → ipc_init i (IpcEvent e) k k'
  | init_mailbox pool flag b k k' :
      flag_ok flag → Z.of_nat (length pool) < 65536 →
      rt_mb_init i pool (Z.of_nat (length pool)) flag k = Ok (b, k') → ipc_init i (IpcMailbox b) k k'
  | init_queue old size pool_size flag q k k' :
      flag_ok flag → mq_pool_ok old (u16 (align4 size)) pool_size →
      rt_mq_init i old size pool_size flag k = Ok (q, k') → ipc_init i (IpcQueue (mk_mqo q [] [])) k k'
  | init_pool self start size bs w mp k k' :
      mp_region start size bs w →
      rt_mp_init i self start size bs w k = Ok (mp, k') → ipc_init i (IpcPool mp) k k'
  | init_completion c k k' : rt_completion_init i k = (c, k') → ipc_init i (IpcCompletion c) k k'
  | init_data size lwm notify items d k k' :
      0 <= size < 65536 → Z.of_nat (length items) = size →
      rt_data_queue_init i size lwm notify (Some items) k = (d, k', RT_EOK) → ipc_init i (IpcData d) k k'
  | init_pipe x name old dev flag buf size ns p k k' ns' :
      4 <= size < 32768 → size <= Z.of_nat (length buf) →
      rt_pipe_init i x name old dev flag buf size k ns = Ok (p, k', ns', RT_EOK) → ipc_init i (IpcPipe p) k k'.

(** Nothing ends a completion or a data queue, and the end of a pipe concerns
    its device object only. *)
Definition ipc_detach (i : nat) (o : ipc_object) (k : kernel) : option (res kernel) :=
  match o with
  | IpcSem _ => Some (rt_sem_detach i k) | IpcMutex _ => Some (rt_mutex_detach i k)
  | IpcEvent _ => Some (rt_event_detach i k) | IpcMailbox _ => Some (rt_mb_detach i k)
  | IpcQueue _ => Some (rt_mq_detach i k) | IpcPool mp => Some (rt_mp_detach i mp k)
  | IpcCompletion _ | IpcData _ | IpcPipe _ => None
  end.

(** Emptying a list that is empty already. *)
Lemma init_list_same q k q' : q_get k q = [] → q_get (rt_ipc_object_init q k) q' = q_get k q'.
Proof. intros Hq. unfold rt_ipc_object_init. rewrite q_get_set. case_decide; [by subst|done]. Qed.

(** What the creation of any object does to the kernel. *)
Record list_set_up (i : nat) (k k' : kernel) : Prop := {
  lu_inv : kinv None 0 k';
  lu_q : ∀ q, q_get k' q = q_get k q;
  lu_th : threads k' = threads k }.

Lemma set_up_objects i o k : kinv None 0 k → list_set_up i k (set_objs o k).
Proof. intros Hk. constructor; [by apply kinv_set_objs|done|done]. Qed.

Lemma set_up_list i q k k1 : list_set_up i k k1 → q_get k q = [] → list_set_up i k (rt_ipc_object_init q k1).
Proof.
  intros [Hk Hq Ht] He. assert (He1 : q_get k1 q = []) by (by rewrite Hq). constructor.
  - apply (kinv_frame None 0 k1); [done| |done|done|done]. intros q'. by apply init_list_same.
  - intros q'. by rewrite init_list_same.
  - done.
Qed.

Lemma set_up_clean i k k' :
  list_set_up i k k' → (∀ q, owns i q → q_get k q = []) → waiters_clean i k'.
Proof. intros [_ Hq _] He q t th Ho. rewrite Hq, (He q Ho). by intros ?%elem_of_nil. Qed.

Lemma set_up_stable P i k k' : list_set_up i k k' → wstable P k k'.
Proof.
  intros [_ Hq Ht]. apply wstable_intro.
  - intros q _ _. by rewrite Hq.
  - intros t th. rewrite Ht. right. by exists th.
Qed.

(** A pool that could be made is the list of all its blocks. *)
Lemma init_pool_ok i self start size bs w mp k k' :
  mp_region start size bs w → rt_mp_init i self start size bs w k = Ok (mp, k') →
  pool_wf mp (all_blocks mp) ∧
  ∃ o, k' = rt_ipc_object_init (QWait i) (set_objs o k).
Proof.
  intros Hr E. destruct (on_objects (rt_object_init Object_Class_MemPool (OIpc i) 0) k) as [k1 |] eqn:E1;
    [| unfold rt_mp_init in E; by rewrite E1 in E].
  destruct (Z_le_gt_dec (RT_ALIGN bs + 4) (RT_ALIGN_DOWN size)) as [Hfit | Hsmall].
  - destruct (rt_mp_init_fits i self start size bs w k k1 E1 Hr Hfit) as (mp' & E' & P & _).
    rewrite E' in E. injection E as <- <-. split; [done|].
    apply bind_ok_inv in E1 as (o & _ & [= <-]). by exists o.
  - rewrite (rt_mp_init_small i self start size bs w k Hr), E1 in E by lia. done.
Qed.

Lemma set_up_refl i k : kinv None 0 k → list_set_up i k k.
Proof. by constructor. Qed.

Lemma set_up_both i k : kinv None 0 k → (∀ q, owns i q → q_get k q = []) →
  list_set_up i k (rt_ipc_object_init (QWait i) (rt_ipc_object_init (QSender i) k)) ∧
  list_set_up i k (rt_ipc_object_init (QSender i) (rt_ipc_object_init (QWait i) k)).
Proof.
  intros Hk He. pose proof (He (QWait i) (or_introl eq_refl)). pose proof (He (QSender i) (or_intror eq_refl)).
  split; (apply set_up_list; [apply set_up_list; [by apply set_up_refl|done]|done]).
Qed.

Lemma init_data_ok i size lwm notify items d k k' :
  kinv None 0 k → (∀ q, owns i q → q_get k q = []) → 0 <= size < 65536 → Z.of_nat (length items) = size →
  rt_data_queue_init i size lwm notify (Some items) k = (d, k', RT_EOK) → list_set_up i k k' ∧ dq_inv i d k'.
Proof.
  intros Hk He Hs Hit [= <- <-]. destruct (set_up_both i k Hk He) as [Hl _]. split; [done|].
  constructor; cbn [dq_size dq_queue get_index put_index]; [rewrite u16_id by lia; lia|lia|by eapply set_up_clean].
Qed.

Lemma init_pipe_ok i x name old dev flag buf size ns p k k' ns' :
  kinv None 0 k → (∀ q, owns i q → q_get k q = []) → 4 <= size < 32768 → size <= Z.of_nat (length buf) →
  rt_pipe_init i x name old dev flag buf size k ns = Ok (p, k', ns', RT_EOK) → list_set_up i k k' ∧ pipe_inv i p k'.
Proof.
  intros Hk He Hs Hb E. destruct (set_up_both i k Hk He) as [_ Hl].
  unfold rt_pipe_init in E. replace (s16 size) with size in E by word.
  destruct (rt_ringbuffer_init_ok buf size Hs Hb) as (rb & E1 & Hh & _). rewrite E1 in E. cbn [mbind res_bind] in E.
  apply bind_ok_inv in E as ([r s1] & _ & [= <- <- _ _]). split; [done|].
  constructor; [by exists []|..]; rewrite (lu_q _ _ _ Hl), He by (by left + by right); done.
Qed.

Lemma ipc_init_ok i o k k' :
  kinv None 0 k → (∀ q, owns i q → q_get k q = []) → ipc_init i o k k' →
  list_set_up i k k' ∧ ipc_inv i o k'.
Proof.
  intros Hk He Hi. assert (Hw : q_get k (QWait i) = []) by (apply He; by left).
  assert (Hs : q_get k (QSender i) = []) by (apply He; by right).
  assert (Hnone : ∀ (t : tid) (l : list tid), l = [] → t ∈ l → False) by (intros t l ->; apply not_elem_of_nil).
  assert (Hl0 : list_set_up i k (rt_ipc_object_init (QWait i) k)) by (apply set_up_list; [by apply set_up_refl|done]).
  destruct Hi as [value flag s k k' Hf E|flag m k k' Hf E|flag e k k' Hf E
    |pool flag b k k' Hf Hp E|old size pool_size flag q k k' Hf Hp E|self start size bs w mp k k' Hr E
    |c k k' E|size lwm notify items d k k' Hsz Hit E|x name old dev flag buf size ns p k k' ns' Hsz Hbuf E];
    [..|destruct (init_pool_ok _ _ _ _ _ _ _ _ _ Hr E) as (P & o1 & ->);
      assert (Hl : list_set_up i k (rt_ipc_object_init (QWait i) (set_objs o1 k)))
        by (by apply set_up_list, Hw; apply set_up_objects);
      split; [done|]; constructor; [by eexists|by eapply set_up_clean]
    |injection E as <- <-; split; [done|]; constructor;
      [by rewrite (lu_q _ _ _ Hl0), Hw; simpl; lia|done|by eapply set_up_clean]
    |by apply (init_data_ok i size lwm notify items)|by apply (init_pipe_ok i x name old dev flag buf size ns p k k' ns')];
    apply bind_ok_inv in E as (k1 & E1 & [= <- <-]);
    apply bind_ok_inv in E1 as (o1 & _ & [= <-]).
  - assert (Hl : list_set_up i k (rt_ipc_object_init (QWait i) (set_objs o1 k)))
      by (by apply set_up_list, Hw; apply set_up_objects).
    split; [done|]. constructor; simpl; [unfold u16; lia|done| |].
    + intros _. by rewrite (lu_q _ _ _ Hl).
    + intros t th. rewrite (lu_q _ _ _ Hl). intros Hin; destruct (Hnone t _ (He _ (or_introl eq_refl)) Hin).
  - assert (Hl : list_set_up i k (rt_ipc_object_init (QWait i) (set_objs o1 k)))
      by (by apply set_up_list, Hw; apply set_up_objects).
    split; [done|]. constructor; simpl; [done| |].
    + by rewrite (lu_q _ _ _ Hl).
    + intros t th. rewrite (lu_q _ _ _ Hl). intros Hin; destruct (Hnone t _ (He _ (or_introl eq_refl)) Hin).
  - assert (Hl : list_set_up i k (rt_ipc_object_init (QWait i) (set_objs o1 k)))
      by (by apply set_up_list, Hw; apply set_up_objects).
    split; [done|]. constructor; simpl; [done|].
    intros t th. rewrite (lu_q _ _ _ Hl). intros Hin; destruct (Hnone t _ (He _ (or_introl eq_refl)) Hin).
  - assert (Hl : list_set_up i k (rt_ipc_object_init (QSender i) (rt_ipc_object_init (QWait i) (set_objs o1 k))))
      by (apply set_up_list, Hs; apply set_up_list, Hw; by apply set_up_objects).
    split; [done|]. constructor; simpl; [done| |by eapply set_up_clean].
    apply fresh_mb_ring. lia.
  - assert (Hl : list_set_up i k (rt_ipc_object_init (QWait i) (set_objs o1 k)))
      by (by apply set_up_list, Hw; apply set_up_objects).
    split; [done|]. constructor; simpl.
    + by rewrite fresh_mq_flag.
    + exists []. by apply fresh_mq_queue.
    + by eapply set_up_clean.
Qed.

Lemma ipc_detach_ok i o k k' : kinv None 0 k → ipc_detach i o k = Some (Ok k') → safe k k'.
Proof.
  intros Hk.
  assert (Hall : ∀ q k0 k1, wait_q q → safe k k0 → resume_all q k0 = Ok k1 → safe k k1).
  { intros q k0 k1 Hq [Hk0 Hw0] E.
    destruct (resume_all_spec 0 q _ k0 Hk0 Hq eq_refl) as (k2 & E2 & Hk2 & _ & _ & _ & _ & _ & _ & Hw2).
    unfold resume_all in E. rewrite E2 in E. injection E as <-. split; [done|by transitivity k0]. }
  assert (Hobj : ∀ f k0 k1, safe k k0 → on_objects f k0 = Ok k1 → safe k k1).
  { intros f k0 k1 [Hk0 Hw0] (ob & _ & [= <-])%bind_ok_inv.
    split; [by apply kinv_set_objs|]. transitivity k0; [done|by apply wstable_same]. }
  assert (Hrefl : safe k k) by done.
  assert (Hone : (k1 ← resume_all (QWait i) k; on_objects (rt_object_detach (OIpc i)) k1) = Ok k' → safe k k').
  { intros (k1 & E1 & E2)%bind_ok_inv. apply (Hall (QWait i) k k1 I Hrefl) in E1. by eapply Hobj. }
  destruct o; cbn [ipc_detach]; [intros [= E]..|done|done|done]; [by apply Hone|by apply Hone|by apply Hone| |by apply Hone|].
  2: { unfold rt_mp_detach, mp_resume_all in E. apply Hone.
       destruct (resume_all (QWait i) k) as [k1|]; [exact E|done]. }
  revert E. unfold rt_mb_detach. intros (k1 & E1 & (k2 & E2 & E3)%bind_ok_inv)%bind_ok_inv.
  apply (Hall (QWait i) k k1 I Hrefl) in E1. apply (Hall (QSender i) k1 k2 I E1) in E2. by eapply Hobj.
Qed.

(** ** The system *)
Record system := mk_system { sys_kernel : kernel; sys_objects : gmap nat ipc_object }.

Inductive sys_step : system → system → Prop :=
  | sys_thread k m k' :
      kstep user_timeout k k' → sys_step (mk_system k m) (mk_system k' m)
  | sys_object i o k m o' k' :
      m !! i = Some o → ipc_step i o k o' k' →
      sys_step (mk_system k m) (mk_system k' (<[i := o']> m))
  | sys_init i o k m k' :
      m !! i = None → (∀ q, owns i q → q_get k q = []) → ipc_init i o k k' →
      sys_step (mk_system k m) (mk_system k' (<[i := o]> m))
  | sys_detach i o k m k' :
      m !! i = Some o → ipc_detach i o k = Some (Ok k') →
      sys_step (mk_system k m) (mk_system k' (delete i m)).

Record sys_inv (s : system) : Prop := {
  sy_kernel : kinv None 0 (sys_kernel s);
  sy_objects : ∀ i o, sys_objects s !! i = Some o → ipc_inv i o (sys_kernel s) }.

Lemma objects_stable k (m : gmap nat ipc_object) k' :
  (∀ i o, m !! i = Some o → ipc_inv i o k) → (∀ i, is_Some (m !! i) → wstable (owns i) k k') →
  ∀ i o, m !! i = Some o → ipc_inv i o k'.
Proof. intros Hm Hs i o Hi. apply (ipc_inv_stable i o k k'); [by apply Hm|apply Hs; eauto]. Qed.

Lemma sys_step_inv s s' : sys_inv s → sys_step s s' → sys_inv s'.
Proof.
  intros [Hk Hm] Hs. destruct Hs as [k m k' Hs|i o k m o' k' Hi Hs|i o k m k' Hi He Hs|i o k m k' Hi Hs];
    simpl in *.
  - destruct (kstep_safe _ _ _ Hk Hs) as [Hk' Hw]. constructor; [done|].
    apply (objects_stable k); [done|]. intros; by apply wstable_every.
  - destruct (ipc_step_ok i o k o' k' Hk (Hm i o Hi) Hs) as (Hk' & Hi' & Hw). constructor; [done|].
    intros j oj. simpl. intros [[<- <-]|[Hne Hj]]%lookup_insert_Some; [done|].
    apply (ipc_inv_stable j oj k k'); [by apply Hm|by apply Hw].
  - destruct (ipc_init_ok i o k k' Hk He Hs) as (Hl & Hi'). constructor; [apply Hl|].
    intros j oj. simpl. intros [[<- <-]|[Hne Hj]]%lookup_insert_Some; [done|].
    apply (ipc_inv_stable j oj k k'); [by apply Hm|by eapply set_up_stable].
  - destruct (ipc_detach_ok i o k k' Hk Hs) as [Hk' Hw]. constructor; [done|].
    intros j oj. simpl. intros [Hne Hj]%lookup_delete_Some.
    apply (ipc_inv_stable j oj k k'); [by apply Hm|by apply wstable_every].
Qed.

(** C1. The whole kernel.  From a freshly booted system, whatever threads,
    timers, interrupts and any number of semaphores, mutexes, events, mailboxes,
    message queues, memory pools, completions, data queues and pipes do, in any order and interleaving: the ready lists, the
    priority bitmap, the timer list and the waiting lists stay consistent, and
    every live object keeps its own invariant (no thread waits on a semaphore
    with tokens or for an event that has happened, a mutex has an owner exactly
    when it is taken, mailboxes are sound ring buffers, no message node or
    free block of a pool is lost or linked twice). *)
Theorem system_invariant s :
  rtc sys_step (mk_system (rt_system_scheduler_init boot_kernel) ∅) s → sys_inv s.
Proof.
  intros Hr.
  assert (H0 : sys_inv (mk_system (rt_system_scheduler_init boot_kernel) ∅))
    by (constructor; [apply boot_kinv|intros i o Hi; simpl in Hi; by apply lookup_empty_Some in Hi]).
  revert H0. induction Hr as [|s1 s2 s3 Hs _ IH]; [done|].
  intros H1. apply IH. by eapply sys_step_inv.
Qed.

Lemma lift_threads k k' m :
  rtc (kstep user_timeout) k k' → rtc sys_step (mk_system k m) (mk_system k' m).
Proof using. induction 1 as [|k1 k2 k3 Hs _ IH]; [done|]. eapply rtc_l; [by apply sys_thread|done]. Qed.
End system.

Lemma no_indicate_ok f n k k' : kinv None 0 k → no_indicate f n k = Ok k' → kinv None 0 k' ∧ wstable every k k'.
Proof. by intros ? [= <-]. Qed.

Lemma sem_init_ok i value flag k :
  bool_decide (OIpc i ∉ object_list (objs k) Object_Class_Semaphore) = true →
  ∃ k', rt_sem_init i value flag k = Ok (mk_sem (u16 value) flag, k').
Proof.
  intros Hb. unfold rt_sem_init, on_objects, rt_object_init, object_link. simpl.
  unfold require. rewrite Hb. simpl. eauto.
Qed.

Lemma system_invariant_witness :
  ∃ k', rt_sem_init 0 2 RT_IPC_FLAG_FIFO demo_kernel = Ok (mk_sem 2 RT_IPC_FLAG_FIFO, k') ∧
    sys_inv (mk_system k' {[ 0%nat := IpcSem (mk_sem 2 RT_IPC_FLAG_FIFO) ]}).
Proof.
  destruct (sem_init_ok 0 2 RT_IPC_FLAG_FIFO demo_kernel) as [k' E]; [vm_compute; reflexivity|].
  exists k'. split; [exact E|]. apply (system_invariant no_indicate no_indicate_ok no_user).
  eapply rtc_r; [apply (lift_threads no_indicate no_user _ demo_kernel ∅); exact demo_reachable|].
  apply (sys_init no_indicate no_user 0 (IpcSem (mk_sem 2 RT_IPC_FLAG_FIFO)) demo_kernel ∅ k').
  - reflexivity.
  - intros q Ho. apply demo_no_waiter. by eapply owns_wait.
  - apply (init_sem 0 2 RT_IPC_FLAG_FIFO); [by left|exact E].
Defined.
