(* ===== verification/UartDriver.v ===== *)
(** * The serial driver: [drivers/uart_com.c] and [drivers/uart.c]

    Twelve ports with a ring of 64 bytes each, filled by the interrupt and
    emptied by [rt_device_read].  The registers are behind [Mmio]; what a port
    receives is stated by [receives].  An interrupt comes between calls of the
    model; a read that is interrupted is two reads.  [uart.c] (the console's port) has the same
    code but for the handler it installs and the carriage returns it sends. *)
From S2P Require Import Prelude KObject Kernel Mmio Interrupt Device.
Local Open Scope Z_scope.

Definition RT_UART_RX_BUFFER_SIZE : Z := 64.
Definition DEV_CLK : Z := 252000000.
Definition UART_BAUDRATE : Z := 115200.

Definition UART_DAT (base : Z) : Z := base.
Definition UART_IER (base : Z) : Z := base + 1.
Definition UART_IIR (base : Z) : Z := base + 2.
Definition UART_FCR (base : Z) : Z := base + 2.
Definition UART_LCR (base : Z) : Z := base + 3.
Definition UART_LSR (base : Z) : Z := base + 5.
Definition UART_LSB (base : Z) : Z := base.
Definition UART_MSB (base : Z) : Z := base + 1.

Definition UARTIER_ILE : Z := Z.shiftl 1 2.
Definition UARTIER_IRXE : Z := Z.shiftl 1 0.
Definition UARTLSR_TE : Z := Z.shiftl 1 6.
Definition UARTLSR_TFE : Z := Z.shiftl 1 5.
Definition UARTLSR_DR : Z := Z.shiftl 1 0.

Definition uart_base : list Z :=
  [0xBFE40000; 0xBFE44000; 0xBFE48000; 0xBFE4C000; 0xBFE4C400; 0xBFE4C500; 0xBFE4C600; 0xBFE4C700;
   0xBFE4C800; 0xBFE4C900; 0xBFE4CA00; 0xBFE4CB00].
Definition uart_irq : list Z := [2; 4; 5; 29; 37; 38; 39; 40; 41; 45; 46; 47].

(** The ports that [rt_hw_uart_com_init] sets up, its loop from port [i] on. *)
Fixpoint com_ports (n i : nat) : list nat :=
  match n with
  | O => []
  | S n =>
      if (i =? 0)%nat || (i =? 2)%nat then com_ports n (S i)
      else if (3 <? i)%nat then [] else i :: com_ports n (S i)
  end.
Definition MAX_UART_COM : nat := 12.

(** The fields [hw_base] and [irq] it leaves: zero for the other ports. *)
Definition hw_base (i : nat) : Z :=
  if bool_decide (i ∈ com_ports MAX_UART_COM 0) then default 0 (uart_base !! i) else 0.
Definition hw_irq (i : nat) : Z :=
  if bool_decide (i ∈ com_ports MAX_UART_COM 0) then default 0 (uart_irq !! i) else 0.

(** The reception buffer of [struct rt_uart_com_ls1c]. *)
Record ring := mk_ring { read_index : Z; save_index : Z; rx_buffer : list Z }.
Definition ring_init : ring := mk_ring 0 0 (replicate (Z.to_nat RT_UART_RX_BUFFER_SIZE) 0).

(** The next index, as the code advances it. *)
Definition next_index (i : Z) : Z :=
  let i := u8 (i + 1) in if RT_UART_RX_BUFFER_SIZE <=? i then 0 else i.

(** Storing a byte at [save_index] and taking one at [read_index]. *)
Definition ring_put (b : Z) (r : ring) : res ring :=
  _ ← require OutOfBounds (save_index r <? Z.of_nat (length (rx_buffer r)));
  Ok (mk_ring (read_index r) (next_index (save_index r)) (<[Z.to_nat (save_index r) := u8 b]> (rx_buffer r))).
Definition ring_get (r : ring) : res (option (Z * ring)) :=
  if negb (read_index r =? save_index r) then
    b ← of_option OutOfBounds (rx_buffer r !! Z.to_nat (read_index r));
    Ok (Some (u8 b, mk_ring (next_index (read_index r)) (save_index r) (rx_buffer r)))
  else Ok None.
(** The length reported to [rx_indicate]. *)
Definition ring_length (r : ring) : Z :=
  if save_index r <? read_index r then u32 (RT_UART_RX_BUFFER_SIZE - read_index r + save_index r)
  else u32 (save_index r - read_index r).

(** The board: registers, table of handlers, and the array [uart_com_device]. *)
Record board (H : Type) := mk_board { hw : H; irq_handle_table : list rt_irq_desc; rings : list ring }.
Arguments mk_board {H}.
Arguments hw {H}.
Arguments irq_handle_table {H}.
Arguments rings {H}.

#[global] Instance board_mmio {H} `{Mmio H} : Mmio (board H) := {
  mmio_read8 s a := let '(v, h) := mmio_read8 (hw s) a in (v, mk_board h (irq_handle_table s) (rings s));
  mmio_write8 s a v := mk_board (mmio_write8 (hw s) a v) (irq_handle_table s) (rings s);
  mmio_read32 s a := let '(v, h) := mmio_read32 (hw s) a in (v, mk_board h (irq_handle_table s) (rings s));
  mmio_write32 s a v := mk_board (mmio_write32 (hw s) a v) (irq_handle_table s) (rings s);
}.

Section driver.
Context {H : Type} `{Mmio H}.

(** ** Reception *)

(** [while (UART_LSR & UARTLSR_DR)]: it ends when the port has no more bytes. *)
Fixpoint rx_loop (fuel : nat) (base : Z) (r : ring) (h : H) : res (ring * H) :=
  let '(lsr, h) := mmio_read8 h (UART_LSR base) in
  if negb (Z.land lsr UARTLSR_DR =? 0) then
    match fuel with
    | O => Stop OutOfFuel
    | S fuel =>
        let '(b, h) := mmio_read8 h (UART_DAT base) in
        r ← ring_put b r; rx_loop fuel base r h
    end
  else Ok (r, h).

(** The call of [rx_indicate]: the callback and the length. *)
Definition uart_rx_process (fuel : nat) (base : Z) (dev : rt_device) (r : ring) (h : H)
    : res (option (Z * Z) * ring * H) :=
  let '(isr, h) := mmio_read8 h (UART_IIR base) in
  let isr := Z.land (Z.shiftr isr 1) 3 in
  if negb (Z.land isr 2 =? 0) then
    '(r, h) ← rx_loop fuel base r h;
    Ok ((λ f, (f, ring_length r)) <$> rx_indicate dev, r, h)
  else Ok (None, r, h).

(** Which port the handler takes an interrupt for. *)
Definition irq_port (irqno : Z) : option nat :=
  if irqno =? 2 then Some 0%nat
  else if (irqno =? 4) || (irqno =? 5) then Some (Z.to_nat (irqno - 3))
  else if irqno =? 29 then Some 3%nat
  else if (37 <=? irqno) && (irqno <=? 41) then Some (Z.to_nat (irqno - 33))
  else if (45 <=? irqno) && (irqno <=? 47) then Some (Z.to_nat (irqno - 36))
  else None.

Definition rt_uart_com_irqhandler (fuel : nat) (irqno : Z) (dev : nat → rt_device) (s : board H)
    : res (option (Z * Z) * board H) :=
  match irq_port irqno with
  | None => Ok (None, s)
  | Some i =>
      r ← of_option OutOfBounds (rings s !! i);
      '(c, r, h) ← uart_rx_process fuel (hw_base i) (dev i) r (hw s);
      Ok (c, mk_board h (irq_handle_table s) (<[i := r]> (rings s)))
  end.

(** ** The driver of port [i] *)
Context (i : nat) (uart_handler : Z).

Definition rt_uart_com_init (_ : rt_device) (s : board H) : res (Z * board H) :=
  let base := hw_base i in
  let s := mmio_write8 s (UART_IER base) 0 in
  let s := mmio_write8 s (UART_FCR base) 0xc3 in
  let s := mmio_write8 s (UART_LCR base) 0x80 in
  let baud_div := DEV_CLK / 16 / UART_BAUDRATE / 2 in
  let s := mmio_write8 s (UART_MSB base) (Z.land (Z.shiftr baud_div 8) 255) in
  let s := mmio_write8 s (UART_LSB base) (Z.land baud_div 255) in
  let s := mmio_write8 s (UART_LCR base) 0x03 in
  let s := reg8_or s (UART_FCR base) 6 in
  let s := mmio_write8 s (UART_IER base) (Z.lor UARTIER_IRXE UARTIER_ILE) in
  Ok (RT_EOK, s).

Definition isr_name : list Z := [85; 65; 82; 84].

Definition rt_uart_com_open (dev : rt_device) (_ : Z) (s : board H) : res (Z * board H) :=
  if flag_set (dev_flag dev) RT_DEVICE_FLAG_INT_RX then
    let irq := hw_irq i in
    let s := reg8_or s (UART_IER (hw_base i)) UARTIER_IRXE in
    let '(_, table) := rt_hw_interrupt_install irq (Some uart_handler) 0 isr_name (irq_handle_table s) in
    Ok (RT_EOK, rt_hw_interrupt_umask irq (mk_board (hw s) table (rings s)))
  else Ok (RT_EOK, s).

Definition rt_uart_com_close (dev : rt_device) (s : board H) : res (Z * board H) :=
  if flag_set (dev_flag dev) RT_DEVICE_FLAG_INT_RX then
    Ok (RT_EOK, reg8_clear s (UART_IER (hw_base i)) UARTIER_IRXE)
  else Ok (RT_EOK, s).

(** The loop over [size]; each byte is taken with interrupts disabled. *)
Fixpoint read_loop (size : nat) (r : ring) : res (list Z * ring) :=
  match size with
  | O => Ok ([], r)
  | S size =>
      g ← ring_get r;
      match g with
      | Some (b, r) => '(l, r) ← read_loop size r; Ok (b :: l, r)
      | None => Ok ([], r)
      end
  end.

Definition rt_uart_com_read (dev : rt_device) (_ size : Z) (s : board H) : res (list Z * board H) :=
  if flag_set (dev_flag dev) RT_DEVICE_FLAG_INT_RX then
    r ← of_option OutOfBounds (rings s !! i);
    '(l, r) ← read_loop (Z.to_nat size) r;
    Ok (l, mk_board (hw s) (irq_handle_table s) (<[i := r]> (rings s)))
  else Ok ([], s).

(** [while (!(UART_LSR & (UARTLSR_TE | UARTLSR_TFE)))]: until the port has sent. *)
Fixpoint wait_sent (fuel : nat) (base : Z) (s : board H) : res (board H) :=
  let '(lsr, s) := mmio_read8 s (UART_LSR base) in
  if Z.land lsr (Z.lor UARTLSR_TE UARTLSR_TFE) =? 0 then
    match fuel with O => Stop OutOfFuel | S fuel => wait_sent fuel base s end
  else Ok s.
Definition send_char (fuel : nat) (base c : Z) (s : board H) : res (board H) :=
  s ← wait_sent fuel base s; Ok (mmio_write8 s (UART_DAT base) (u8 c)).

(** Both branches of the function send the bytes one by one. *)
Fixpoint write_loop (fuel : nat) (base : Z) (buffer : list Z) (s : board H) : res (board H) :=
  match buffer with
  | [] => Ok s
  | c :: buffer => s ← send_char fuel base c s; write_loop fuel base buffer s
  end.
Definition rt_uart_com_write (fuel : nat) (_ : rt_device) (_ : Z) (buffer : list Z) (s : board H)
    : res (Z * board H) :=
  s ← write_loop fuel (hw_base i) buffer s;
  Ok (Z.of_nat (length buffer), s).

(** Nothing is returned by the source: the value is not specified. *)
Definition rt_uart_com_control (garbage : Z) (_ : rt_device) (_ _ : Z) (s : board H) : res (Z * board H) :=
  Ok (garbage, s).

Definition uart_com_driver (fuel : nat) (garbage : Z) : driver (board H) := {|
  init := Some rt_uart_com_init; open := Some rt_uart_com_open; close := Some rt_uart_com_close;
  read := Some rt_uart_com_read; write := Some (rt_uart_com_write fuel);
  control := Some (rt_uart_com_control garbage) |}.

(** ** [uart.c]: in stream mode a carriage return goes before a line feed *)
Fixpoint stream_loop (fuel : nat) (base : Z) (buffer : list Z) (s : board H) : res (board H) :=
  match buffer with
  | [] => Ok s
  | c :: buffer =>
      s ← (if c =? 10 then send_char fuel base 13 s else Ok s);
      s ← send_char fuel base c s; stream_loop fuel base buffer s
  end.
Definition UART2_BASE : Z := 0xBFE48000.
Definition rt_uart_write (fuel : nat) (dev : rt_device) (_ : Z) (buffer : list Z) (s : board H)
    : res (Z * board H) :=
  s ← (if flag_set (dev_flag dev) RT_DEVICE_FLAG_STREAM then stream_loop fuel UART2_BASE buffer s
       else write_loop fuel UART2_BASE buffer s);
  Ok (Z.of_nat (length buffer), s).

(** ** [rt_hw_uart_com_init]: the ports are cleared and registered *)
Definition com_name (i : nat) : list Z :=
  [117; 97; 114; 116] ++ (if (i <? 10)%nat then [48 + Z.of_nat i] else [49; 38 + Z.of_nat i]).
Definition uart_com_flags : Z :=
  Z.lor (Z.lor RT_DEVICE_FLAG_RDWR RT_DEVICE_FLAG_STREAM) RT_DEVICE_FLAG_INT_RX.

(** [com_device n] is the object [&uart_com_device[n]]. *)
Definition com_init_port (com_device : nat → nat) (n : nat) (s : board H) (ns : namespace)
    : res (board H * namespace) :=
  let s := mk_board (hw s) (irq_handle_table s) (<[n := ring_init]> (rings s)) in
  '(_, ns) ← rt_device_register (Some (com_device n)) (com_name n) uart_com_flags 0 (mk_device 0 0 0 None None) ns;
  Ok (s, ns).
Fixpoint com_init_loop (com_device : nat → nat) (ports : list nat) (s : board H) (ns : namespace)
    : res (board H * namespace) :=
  match ports with
  | [] => Ok (s, ns)
  | n :: ports => '(s, ns) ← com_init_port com_device n s ns; com_init_loop com_device ports s ns
  end.
Definition rt_hw_uart_com_init (com_device : nat → nat) (s : board H) (ns : namespace)
    : res (board H * namespace) :=
  com_init_loop com_device (com_ports MAX_UART_COM 0) s ns.
End driver.

(** [uart_get_dev_numnber], on a text with its terminating zero; [rt_memcmp] stops
    at the first difference. *)
Fixpoint starts_with (name pat : list Z) : res bool :=
  match pat with
  | [] => Ok true
  | c :: pat =>
      match name with
      | [] => Stop OutOfBounds
      | b :: name => if b =? c then starts_with name pat else Ok false
      end
  end.
Definition uart_get_dev_numnber (name : list Z) : res Z :=
  same ← starts_with name [117; 97; 114; 116];
  if negb same then Ok 0xff
  else
    c0 ← of_option OutOfBounds (name !! 4%nat);
    c1 ← of_option OutOfBounds (name !! 5%nat);
    if c1 =? 0 then Ok (s8 c0 - 48)
    else
      let uartnum := (s8 c0 - 48) * 10 + (s8 c1 - 48) in
      Ok (if 11 <? uartnum then 0xff else uartnum).

(** ** The ring as a queue *)

(** [l] are the bytes in the ring, the oldest first: never more than 63. *)
Record ring_is (l : list Z) (r : ring) : Prop := {
  ring_size : length (rx_buffer r) = 64%nat;
  ring_read : 0 <= read_index r < 64;
  ring_save : save_index r = (read_index r + Z.of_nat (length l)) mod 64;
  ring_short : (length l < 64)%nat;
  ring_bytes k b : l !! k = Some b →
    rx_buffer r !! Z.to_nat ((read_index r + Z.of_nat k) mod 64) = Some b ∧ 0 <= b < 256;
}.

(** A byte arrives.  The 64th byte makes the indices equal again: the ring then
    counts as empty, and all its bytes are gone. *)
Definition push (l : list Z) (b : Z) : list Z := if (length l <? 63)%nat then l ++ [b] else [].
Definition pushes (l bytes : list Z) : list Z := foldl push l bytes.

Lemma pushes_app l a b : pushes l (a ++ b) = pushes (pushes l a) b.
Proof. apply foldl_app. Qed.

Lemma pushes_short l bytes : (length l + length bytes <= 63)%nat → pushes l bytes = l ++ bytes.
Proof.
  revert l. induction bytes as [| b bytes IH]; intros l Hl; simpl; [by rewrite app_nil_r |].
  simpl in Hl. unfold push. rewrite (proj2 (Nat.ltb_lt _ _)) by lia.
  rewrite IH by (rewrite length_app; simpl; lia). by rewrite <- app_assoc.
Qed.

(** Whatever arrives: of every 64 bytes nothing is left. *)
Lemma pushes_closed bytes : ∀ l, (length l < 64)%nat →
  pushes l bytes = drop (64 * ((length l + length bytes) / 64)) (l ++ bytes).
Proof.
  induction bytes as [| b bytes IH]; intros l Hl; unfold pushes in *; cbn [foldl length].
  - by rewrite Nat.add_0_r, app_nil_r, Nat.div_small by done.
  - unfold push at 2. destruct (Nat.ltb_spec (length l) 63).
    + rewrite IH by (rewrite length_app; simpl; lia).
      rewrite length_app, <- app_assoc. cbn [length app]. by rewrite <- Nat.add_assoc.
    + assert (El : length l = 63%nat) by lia. rewrite IH by (simpl; lia). rewrite El. cbn [length].
      replace (64 * ((63 + S (length bytes)) / 64))%nat with (64 + 64 * (length bytes / 64))%nat
        by (replace (63 + S (length bytes))%nat with (length bytes + 1 * 64)%nat by lia; rewrite Nat.div_add; lia).
      rewrite <- drop_drop, (cons_middle b), app_assoc. f_equal. symmetry. apply drop_app_length'.
      rewrite length_app. simpl. lia.
Qed.

Lemma next_index_mod i : 0 <= i < 64 → next_index i = (i + 1) mod 64.
Proof. intros Hi. unfold next_index, RT_UART_RX_BUFFER_SIZE. word. Qed.

Lemma ring_is_init : ring_is [] ring_init.
Proof. split; simpl; (lia || done). Qed.

Lemma ring_put_push l r b : ring_is l r → 0 <= b < 256 → ∃ r', ring_put b r = Ok r' ∧ ring_is (push l b) r'.
Proof.
  intros [Hsz Hrd Hsv Hsh Hb] Hbyte.
  assert (Hs : 0 <= save_index r < 64) by lia.
  unfold ring_put. rewrite Hsz, (proj2 (Z.ltb_lt _ _)) by lia. cbn [require mbind res_bind].
  eexists. split; [done |].
  split; cbn [read_index save_index rx_buffer]; rewrite ?next_index_mod by done.
  - by rewrite length_insert.
  - done.
  - unfold push. destruct (Nat.ltb_spec (length l) 63); rewrite ?length_app; simpl; lia.
  - unfold push. destruct (Nat.ltb_spec (length l) 63); rewrite ?length_app; simpl; lia.
  - intros k c. unfold push. destruct (Nat.ltb_spec (length l) 63); [| done].
    replace (u8 b) with b by (unfold u8; lia).
    intros [Hk | [Hk Hc]]%lookup_app_Some.
    + destruct (Hb _ _ Hk) as [Hc ?]. split; [| done]. rewrite list_lookup_insert_ne; [done |].
      apply lookup_lt_Some in Hk. lia.
    + assert (k = length l) as ->.
      { apply lookup_lt_Some in Hc. simpl in Hc. lia. }
      rewrite Nat.sub_diag in Hc. injection Hc as <-. split; [| done].
      rewrite <- Hsv. apply list_lookup_insert_eq. lia.
Qed.

Lemma ring_get_pop l r :
  ring_is l r →
  match l with
  | [] => ring_get r = Ok None
  | b :: l' => ∃ r', ring_get r = Ok (Some (b, r')) ∧ ring_is l' r'
  end.
Proof.
  intros [Hsz Hrd Hsv Hsh Hb]. unfold ring_get. destruct l as [| b l].
  - simpl in Hsv. rewrite Z.add_0_r, Z.mod_small in Hsv by done. by rewrite Hsv, Z.eqb_refl.
  - simpl in Hsh, Hsv. rewrite (proj2 (Z.eqb_neq _ _)) by lia. cbn [negb].
    destruct (Hb 0%nat b eq_refl) as [H0 Hbyte]. rewrite Z.add_0_r, Z.mod_small in H0 by done.
    rewrite H0. cbn [of_option mbind res_bind]. replace (u8 b) with b by (unfold u8; lia).
    eexists. split; [done |]. split; cbn [read_index save_index rx_buffer]; rewrite ?next_index_mod by done;
      [done | lia | lia | lia |].
    intros k c Hk. destruct (Hb (S k) c Hk) as [Hc ?]. split; [| done]. rewrite <- Hc. do 2 f_equal. lia.
Qed.

Lemma ring_length_is l r : ring_is l r → ring_length r = Z.of_nat (length l).
Proof.
  intros [Hsz Hrd Hsv Hsh _]. unfold ring_length, RT_UART_RX_BUFFER_SIZE. rewrite Hsv.
  destruct (Z.ltb_spec ((read_index r + Z.of_nat (length l)) mod 64) (read_index r)); unfold u32; lia.
Qed.

Lemma read_loop_queue n : ∀ l r,
  ring_is l r → ∃ r', read_loop n r = Ok (take n l, r') ∧ ring_is (drop n l) r'.
Proof.
  induction n as [| n IH]; intros l r Hr; simpl; [by exists r |].
  pose proof (ring_get_pop l r Hr) as Hg. destruct l as [| b l].
  - rewrite Hg. by exists r.
  - destruct Hg as (r1 & -> & H1). cbn [mbind res_bind].
    destruct (IH _ _ H1) as (r2 & -> & H2). by exists r2.
Qed.

(** ** Reception *)
Section reception.
Context {H : Type} `{Mmio H}.

(** Read from [h] on as the handler reads it, the port gives these bytes. *)
Inductive receives (base : Z) : H → list Z → H → Prop :=
  | receives_none h lsr h' :
      mmio_read8 h (UART_LSR base) = (lsr, h') → Z.testbit lsr 0 = false → receives base h [] h'
  | receives_byte h lsr h1 b h2 l h' :
      mmio_read8 h (UART_LSR base) = (lsr, h1) → Z.testbit lsr 0 = true →
      mmio_read8 h1 (UART_DAT base) = (b, h2) → 0 <= b < 256 →
      receives base h2 l h' → receives base h (b :: l) h'.

Lemma data_ready lsr : negb (Z.land lsr UARTLSR_DR =? 0) = Z.testbit lsr 0.
Proof. by apply land_bit_test. Qed.

Lemma rx_loop_queue base h bytes h' :
  receives base h bytes h' → ∀ fuel l r,
  ring_is l r → (length bytes <= fuel)%nat →
  ∃ r', rx_loop fuel base r h = Ok (r', h') ∧ ring_is (pushes l bytes) r'.
Proof.
  induction 1 as [h lsr h' E Hd | h lsr h1 b h2 bytes h' E Hd E2 Hb Hrec IH]; intros fuel l r Hr Hf.
  - exists r. split; [| done]. destruct fuel; simpl; by rewrite E, data_ready, Hd.
  - destruct fuel as [| fuel]; simpl in Hf; [lia |].
    simpl. rewrite E, data_ready, Hd, E2.
    destruct (ring_put_push l r b Hr Hb) as (r1 & -> & Hr1). cbn [mbind res_bind].
    destruct (IH fuel _ _ Hr1) as (r2 & -> & Hr2); [lia |]. by exists r2.
Qed.

(** The port's answer to [UART_IIR], and what it gives after. *)
Definition interrupt_with (base : Z) (h : H) (bytes : list Z) (h' : H) : Prop :=
  ∃ iir h1, mmio_read8 h (UART_IIR base) = (iir, h1) ∧ Z.testbit iir 2 = true ∧ receives base h1 bytes h'.

Lemma uart_rx_process_queue fuel base dev l r h bytes h' :
  interrupt_with base h bytes h' → ring_is l r → (length bytes <= fuel)%nat →
  ∃ r', uart_rx_process fuel base dev r h =
      Ok ((λ f, (f, Z.of_nat (length (pushes l bytes)))) <$> rx_indicate dev, r', h') ∧
    ring_is (pushes l bytes) r'.
Proof.
  intros (iir & h1 & E & Hbit & Hrec) Hr Hf. unfold uart_rx_process. rewrite E.
  assert (negb (Z.land (Z.land (Z.shiftr iir 1) 3) 2 =? 0) = true) as ->.
  { etransitivity; [by apply (land_bit_test _ 1) |].
    rewrite Z.land_spec, Z.shiftr_spec by lia. change (1 + 1) with 2. by rewrite Hbit. }
  destruct (rx_loop_queue _ _ _ _ Hrec fuel l r Hr Hf) as (r' & -> & Hr'). cbn [mbind res_bind].
  exists r'. by rewrite (ring_length_is _ _ Hr').
Qed.

(** The queues of the twelve ports. *)
Definition queues_are (qs : list (list Z)) (s : board H) : Prop :=
  length qs = 12%nat ∧ Forall2 ring_is qs (rings s).

Lemma queue_lookup qs s i q :
  queues_are qs s → qs !! i = Some q → ∃ r, rings s !! i = Some r ∧ ring_is q r.
Proof. intros [Hl Hq] Hi. by apply (Forall2_lookup_l _ _ _ _ _ Hq). Qed.

Lemma queues_insert qs s i q r h t :
  queues_are qs s → ring_is q r → queues_are (<[i := q]> qs) (mk_board h t (<[i := r]> (rings s))).
Proof. intros [Hl Hq] Hr. split; [by rewrite length_insert | by apply Forall2_insert]. Qed.

Lemma irq_port_range irqno i : irq_port irqno = Some i → uart_irq !! i = Some irqno.
Proof.
  unfold irq_port. repeat case_match; intros [= <-]; repeat match goal with
    | E : (_ =? _) = true |- _ => apply Z.eqb_eq in E as ->
    | E : (_ || _) = true |- _ => apply orb_true_iff in E as [E | E]
    | E : (_ && _) = true |- _ => apply andb_true_iff in E as [?%Z.leb_le ?%Z.leb_le]
    end; try done.
  - assert (Hc : irqno = 37 ∨ irqno = 38 ∨ irqno = 39 ∨ irqno = 40 ∨ irqno = 41) by lia.
    by destruct Hc as [-> | [-> | [-> | [-> | ->]]]].
  - assert (Hc : irqno = 45 ∨ irqno = 46 ∨ irqno = 47) by lia.
    by destruct Hc as [-> | [-> | ->]].
Qed.

Lemma irq_port_uart_irq i irqno : uart_irq !! i = Some irqno → irq_port irqno = Some i.
Proof. do 12 (destruct i as [| i]; [by intros [= <-] |]). done. Qed.

Lemma irqhandler_queue qs s i q irqno dev bytes h' fuel :
  queues_are qs s → qs !! i = Some q → uart_irq !! i = Some irqno →
  interrupt_with (hw_base i) (hw s) bytes h' → (length bytes <= fuel)%nat →
  ∃ s', rt_uart_com_irqhandler fuel irqno dev s =
      Ok ((λ f, (f, Z.of_nat (length (pushes q bytes)))) <$> rx_indicate (dev i), s') ∧
    queues_are (<[i := pushes q bytes]> qs) s' ∧ hw s' = h' ∧ irq_handle_table s' = irq_handle_table s.
Proof.
  intros Hqs Hq Hi Hint Hf.
  unfold rt_uart_com_irqhandler. rewrite (irq_port_uart_irq _ _ Hi). cbn [of_option mbind res_bind].
  destruct (queue_lookup _ _ _ _ Hqs Hq) as (r & Hr & Hqr). rewrite Hr. cbn [of_option mbind res_bind].
  destruct (uart_rx_process_queue fuel (hw_base i) (dev i) q r (hw s) bytes h' Hint Hqr Hf) as (r' & -> & Hr').
  eexists. split; [done |]. split_and!; [| done | done]. by apply queues_insert.
Qed.

(** C17. The interrupt handler: the interrupts it takes are the twelve of
    [uart_irq], each for its own port.  The bytes the port has received join the
    port's queue in their order, the client is told how many wait, the other
    ports' queues and the table of handlers are as before, and the loop ends.  A
    64th byte waiting empties the queue ([push]): see [pushes_closed]. *)
Theorem rt_uart_com_irqhandler_spec qs s i q irqno dev bytes h' fuel :
  queues_are qs s → qs !! i = Some q →
  interrupt_with (hw_base i) (hw s) bytes h' → (length bytes <= fuel)%nat →
  (irq_port irqno = Some i ↔ uart_irq !! i = Some irqno) ∧
  (uart_irq !! i = Some irqno →
    ∃ s', rt_uart_com_irqhandler fuel irqno dev s =
        Ok ((λ f, (f, Z.of_nat (length (pushes q bytes)))) <$> rx_indicate (dev i), s') ∧
      queues_are (<[i := pushes q bytes]> qs) s' ∧ hw s' = h' ∧ irq_handle_table s' = irq_handle_table s).
Proof.
  intros Hqs Hq Hint Hf. split; [split; [apply irq_port_range | apply irq_port_uart_irq] |].
  intros Hi. by eapply irqhandler_queue.
Qed.
End reception.

(** ** A port and the interrupt controller

    The port behaves as a 16550: bytes wait in a FIFO, bit 0 of LSR says so, and
    reading DAT takes one; it can always send.  While bytes wait, interrupt 29 of
    the first group pends. *)
Definition uart3_base : Z := 0xBFE4C000.
Record line := mk_line { rx_fifo : list Z; tx_log : list Z; dlab : bool; en0 : Z }.

Definition line_read8 (h : line) (a : Z) : Z * line :=
  if a =? UART_LSR uart3_base then (match rx_fifo h with [] => 0x60 | _ => 0x61 end, h)
  else if a =? UART_DAT uart3_base then
    match rx_fifo h with
    | [] => (0, h)
    | b :: l => (b, mk_line l (tx_log h) (dlab h) (en0 h))
    end
  else if a =? UART_IIR uart3_base then (match rx_fifo h with [] => 0xc1 | _ => 0xc4 end, h)
  else (0, h).
Definition line_write8 (h : line) (a v : Z) : line :=
  if a =? UART_DAT uart3_base then
    if dlab h then h else mk_line (rx_fifo h) (tx_log h ++ [v]) (dlab h) (en0 h)
  else if a =? UART_LCR uart3_base then mk_line (rx_fifo h) (tx_log h) (Z.testbit v 7) (en0 h)
  else if a =? UART_FCR uart3_base then
    if Z.testbit v 1 then mk_line [] (tx_log h) (dlab h) (en0 h) else h
  else h.
Definition line_read32 (h : line) (a : Z) : Z * line :=
  if a =? int_isr (icregs 0) then (match rx_fifo h with [] => 0 | _ => 0x20000000 end, h)
  else if a =? int_en (icregs 0) then (en0 h, h)
  else (0, h).
Definition line_write32 (h : line) (a v : Z) : line :=
  if a =? int_en (icregs 0) then mk_line (rx_fifo h) (tx_log h) (dlab h) v else h.
#[global] Instance line_mmio : Mmio line := {
  mmio_read8 := line_read8; mmio_write8 := line_write8;
  mmio_read32 := line_read32; mmio_write32 := line_write32 }.


Abbreviation byte_range := (λ c, 0 <= c < 256).

Lemma ring_is_bytes l r : ring_is l r → Forall byte_range l.
Proof. intros Hr. apply Forall_lookup. intros k b Hk. by apply (ring_bytes _ _ Hr k b). Qed.

Lemma u8_bytes l : Forall byte_range l → u8 <$> l = l.
Proof.
  induction 1 as [| b l Hb _ IH]; [done |]. rewrite fmap_cons, IH. f_equal. unfold u8. lia.
Qed.

Lemma line_receives h : Forall byte_range (rx_fifo h) →
  receives uart3_base h (rx_fifo h) (mk_line [] (tx_log h) (dlab h) (en0 h)).
Proof.
  destruct h as [l log d e]. cbn [rx_fifo tx_log dlab en0]. induction 1 as [| b l Hb _ IH].
  - eapply receives_none; reflexivity.
  - by eapply receives_byte.
Qed.

(** Port 3 with two bytes waiting, three in its ring. *)
Definition demo_queues : list (list Z) := <[3%nat := [65; 66; 67]]> (replicate 12 []).
Definition demo_board : board line :=
  mk_board (mk_line [79; 75] [] false 0) (replicate 160 (mk_desc (Some 1) 0 [] 0))
    (<[3%nat := mk_ring 62 1 (<[62%nat := 65]> (<[63%nat := 66]> (<[0%nat := 67]> (replicate 64 0))))]>
      (replicate 12 ring_init)).
Definition demo_dev : rt_device := mk_device 0x143 8 1 (Some 77) None.

Lemma rt_uart_com_irqhandler_spec_witness :
  (irq_port 29 = Some 3%nat ↔ uart_irq !! 3%nat = Some 29) ∧
  (uart_irq !! 3%nat = Some 29 →
    ∃ s', rt_uart_com_irqhandler 2 29 (λ _, demo_dev) demo_board =
        Ok ((λ f, (f, Z.of_nat (length (pushes [65; 66; 67] [79; 75])))) <$> rx_indicate demo_dev, s') ∧
      queues_are (<[3%nat := pushes [65; 66; 67] [79; 75]]> demo_queues) s' ∧ hw s' = mk_line [] [] false 0 ∧
      irq_handle_table s' = irq_handle_table demo_board).
Proof.
  apply (rt_uart_com_irqhandler_spec demo_queues demo_board 3 [65; 66; 67] 29 (λ _, demo_dev) [79; 75]);
    try done.
  - split; [done |]. apply Forall2_insert; [apply Forall2_replicate, ring_is_init |].
    split; simpl; try (lia || done).
    intros k b. do 3 (destruct k as [| k]; [by intros [= <-] |]). done.
  - exists 0xc4, (mk_line [79; 75] [] false 0). split_and!; [done | done |].
    apply (line_receives (mk_line [79; 75] [] false 0)). by repeat constructor.
Defined.
