(* ===== verification/Board.v ===== *)
(** * The board: [drivers/board.c] and the devices it registers

    The console's port ([uart.c]), the serial ports ([uart_com.c]), the pins
    ([gpio.c]) and the pulse generators ([pwm.c]) as drivers of the device framework
    over one state; the console of [kservice.c] ([rt_console_set_device] and the
    output of [rt_kprintf]); [rt_hw_board_init], without the message at its end.
    Devices are numbers.  The board comes up with its devices found by name and prints. *)
From S2P Require Import Prelude KObject Kernel Mmio Interrupt Gpio Device UartDriver.
Local Open Scope Z_scope.

(** ** The framework on devices by number *)

Section framework.
Context {D : Type} (drv : nat → driver D).

Definition device_open (x : nat) (oflag : Z) (s : namespace * D) : res (Z * (namespace * D)) :=
  dev ← of_option NullDeref (ns_devs s.1 !! x);
  '(r, dev, d) ← rt_device_open (drv x) dev oflag s.2;
  Ok (r, (mk_ns (ns_objs s.1) (ns_names s.1) (<[x := dev]> (ns_devs s.1)), d)).
Definition device_close (x : nat) (s : namespace * D) : res (Z * (namespace * D)) :=
  dev ← of_option NullDeref (ns_devs s.1 !! x);
  '(r, dev, d) ← rt_device_close (drv x) dev s.2;
  Ok (r, (mk_ns (ns_objs s.1) (ns_names s.1) (<[x := dev]> (ns_devs s.1)), d)).

(** [console] is [_console_device]; the old one is returned first. *)
Definition rt_console_set_device (name : list Z) (console : option nat) (s : namespace * D)
    : res (option nat * option nat * (namespace * D)) :=
  match rt_device_find name s.1 with
  | None => Ok (console, console, s)
  | Some new =>
      s ← (match console with None => Ok s | Some old => '(_, s) ← device_close old s; Ok s end);
      '(_, s) ← device_open new (Z.lor RT_DEVICE_OFLAG_RDWR RT_DEVICE_FLAG_STREAM) s;
      Ok (console, Some new, s)
  end.
End framework.

(** [rt_device_register] of devices that come one after the other; its result is
    not looked at. *)
Fixpoint register_all (l : list (nat * list Z * Z)) (ns : namespace) : res namespace :=
  match l with
  | [] => Ok ns
  | (x, name, flags) :: l =>
      '(_, ns) ← rt_device_register (Some x) name flags 0 (mk_device 0 0 0 None None) ns; register_all l ns
  end.

Section board.
Context {H : Type} `{Mmio H}.

(** ** [uart.c]: the console's port *)

(** The board with the reception buffer of [uart2_device]. *)
Local Abbreviation hardware := (board H * ring)%type.

Definition LS1C_UART2_IRQ : Z := 5.

Definition rt_uart_init (_ : rt_device) (s : hardware) : res (Z * hardware) :=
  let '(s, r) := s in
  let base := UART2_BASE in
  let s := mmio_write8 s (UART_IER base) 0 in
  let s := mmio_write8 s (UART_FCR base) 0xc3 in
  let s := mmio_write8 s (UART_LCR base) 0x80 in
  let baud_div := DEV_CLK / 16 / UART_BAUDRATE / 2 in
  let s := mmio_write8 s (UART_MSB base) (Z.land (Z.shiftr baud_div 8) 255) in
  let s := mmio_write8 s (UART_LSB base) (Z.land baud_div 255) in
  let s := mmio_write8 s (UART_LCR base) 0x03 in
  let s := reg8_or s (UART_FCR base) 6 in
  let s := mmio_write8 s (UART_IER base) (Z.lor UARTIER_IRXE UARTIER_ILE) in
  Ok (RT_EOK, (s, r)).

(** ["UART2"]; [handler] is the address of [rt_uart2_irqhandler]. *)
Definition uart2_isr_name : list Z := [85; 65; 82; 84; 50].
Definition rt_uart_open (handler : Z) (dev : rt_device) (_ : Z) (s : hardware) : res (Z * hardware) :=
  if flag_set (dev_flag dev) RT_DEVICE_FLAG_INT_RX then
    let '(s, r) := s in
    let s := reg8_or s (UART_IER UART2_BASE) UARTIER_IRXE in
    let '(_, table) := rt_hw_interrupt_install LS1C_UART2_IRQ (Some handler) 0 uart2_isr_name (irq_handle_table s) in
    Ok (RT_EOK, (rt_hw_interrupt_umask LS1C_UART2_IRQ (mk_board (hw s) table (rings s)), r))
  else Ok (RT_EOK, s).

Definition rt_uart_close (dev : rt_device) (s : hardware) : res (Z * hardware) :=
  if flag_set (dev_flag dev) RT_DEVICE_FLAG_INT_RX then
    Ok (RT_EOK, (reg8_clear s.1 (UART_IER UART2_BASE) UARTIER_IRXE, s.2))
  else Ok (RT_EOK, s).

Definition rt_uart_read (dev : rt_device) (_ size : Z) (s : hardware) : res (list Z * hardware) :=
  if flag_set (dev_flag dev) RT_DEVICE_FLAG_INT_RX then
    '(l, r) ← read_loop (Z.to_nat size) s.2; Ok (l, (s.1, r))
  else Ok ([], s).

(** [rt_uart2_irqhandler]: the callback and the length, if any. *)
Definition rt_uart2_irqhandler (fuel : nat) (dev : rt_device) (s : hardware) : res (option (Z * Z) * hardware) :=
  '(c, r, h) ← uart_rx_process fuel UART2_BASE dev s.2 (hw s.1);
  Ok (c, (mk_board h (irq_handle_table s.1) (rings s.1), r)).

Definition uart2_driver (handler : Z) (fuel : nat) : driver hardware := {|
  init := Some rt_uart_init; open := Some (rt_uart_open handler); close := Some rt_uart_close; read := Some rt_uart_read;
  write := Some (λ dev pos buffer s, '(n, b) ← rt_uart_write fuel dev pos buffer s.1; Ok (n, (b, s.2)));
  control := None |}.

(** ** [gpio.c] and [pwm.c] as drivers *)

(** A driver over the board alone. *)
Definition on_board (d : driver (board H)) : driver hardware := {|
  init := (λ f dev s, '(r, b) ← f dev s.1; Ok (r, (b, s.2))) <$> init d;
  open := (λ f dev o s, '(r, b) ← f dev o s.1; Ok (r, (b, s.2))) <$> open d;
  close := (λ f dev s, '(r, b) ← f dev s.1; Ok (r, (b, s.2))) <$> close d;
  read := (λ f dev p n s, '(l, b) ← f dev p n s.1; Ok (l, (b, s.2))) <$> read d;
  write := (λ f dev p l s, '(n, b) ← f dev p l s.1; Ok (n, (b, s.2))) <$> write d;
  control := (λ f dev c a s, '(r, b) ← f dev c a s.1; Ok (r, (b, s.2))) <$> control d |}.

(** One word is read or written, whatever the size; [config_at] is what an address
    given to [rt_gpio_control] points at. *)
Definition gpio_driver (config_at : Z → option gpio_int_config) (p_gpio_num : Z) : driver (board H) := {|
  init := Some (λ _ b, Ok (RT_EOK, b));
  open := Some (λ _ _ b, Ok (RT_EOK, b));
  close := Some (λ _ b, Ok (RT_EOK, b));
  read := Some (λ _ _ _ b, let '(v, h) := rt_gpio_read p_gpio_num (hw b) in Ok ([v], mk_board h (irq_handle_table b) (rings b)));
  write := Some (λ _ _ buffer b,
    v ← of_option OutOfBounds (head buffer);
    Ok (1, mk_board (rt_gpio_write p_gpio_num v (hw b)) (irq_handle_table b) (rings b)));
  control := Some (λ _ cmd args b,
    '(r, t, h) ← rt_gpio_control p_gpio_num cmd (config_at args) (irq_handle_table b) (hw b);
    Ok (r, mk_board h t (rings b))) |}.

Definition pwm_cmd_of (cmd : Z) : option pwm_cmd :=
  [PWM_SET_CNTR; PWM_SET_HRC; PWM_SET_LRC; PWM_SINGLE_EN; PWM_SINGLE_DISEN; PWM_OUTPUT_EN; PWM_OUTPUT_DISEN; PWM_CNT_EN; PWM_CNT_DISEN] !! Z.to_nat cmd.
Definition pwm_base : list Z := [0xBFE5C000; 0xBFE5C010; 0xBFE5C020; 0xBFE5C030].

(** [word] is the word at the address [args]. *)
Definition pwm_driver (word : Z → option Z) (base : Z) : driver (board H) := {|
  init := Some (λ _ b, Ok (RT_EOK, mk_board (rt_pwm_init base (hw b)) (irq_handle_table b) (rings b)));
  open := Some (λ _ _ b, Ok (RT_EOK, mk_board (rt_pwm_open base (hw b)) (irq_handle_table b) (rings b)));
  close := Some (λ _ b, Ok (RT_EOK, mk_board (rt_pwm_close base (hw b)) (irq_handle_table b) (rings b)));
  read := None; write := None;
  control := Some (λ _ cmd args b,
    v ← of_option NullDeref (word args);
    Ok (RT_EOK, match pwm_cmd_of (u8 cmd) with
      | Some c => mk_board (rt_pwm_control base c v (hw b)) (irq_handle_table b) (rings b)
      | None => b
      end)) |}.

(** ** The devices *)

Definition UART2 : nat := 2.
Definition com (i : nat) : nat := 10 + i.
Definition pin (i : nat) : nat := 30 + i.
Definition pwm (i : nat) : nat := 40 + i.

Definition uart2_name : list Z := [117; 97; 114; 116; 50].
(** [LED1] to [LED5], [KEY1] to [KEY3]. *)
Definition gpio_string : list (list Z) :=
  ((λ d, [76; 69; 68; 48 + d]) <$> [1; 2; 3; 4; 5]) ++ ((λ d, [75; 69; 89; 48 + d]) <$> [1; 2; 3]).
Definition pwm_name (i : nat) : list Z := [112; 119; 109; 48 + Z.of_nat i].

(** [rt_hw_uart_init]: the code for [uart1] is switched off. *)
Definition rt_hw_uart_init (s : hardware) (ns : namespace) : res (hardware * namespace) :=
  ns ← register_all [(UART2, uart2_name, uart_com_flags)] ns; Ok ((s.1, ring_init), ns).

Definition gpio_devices : list (nat * list Z * Z) := imap (λ i n, (pin i, n, RT_DEVICE_FLAG_RDWR)) gpio_string.
Definition rt_hw_gpio_init : namespace → res namespace := register_all gpio_devices.

Definition pwm_devices : list (nat * list Z * Z) := (λ i, (pwm i, pwm_name i, RT_DEVICE_FLAG_RDWR)) <$> seq 0 4.
Definition rt_hw_pwm_init : namespace → res namespace := register_all pwm_devices.

(** Which driver a device has. *)
Definition driver_of (handler com_handler : Z) (fuel : nat) (garbage : Z) (config_at : Z → option gpio_int_config) (word : Z → option Z)
    (x : nat) : driver hardware :=
  if (x <? 10)%nat then uart2_driver handler fuel
  else if (x <? 30)%nat then on_board (uart_com_driver (x - 10) com_handler fuel garbage)
  else if (x <? 40)%nat then on_board (gpio_driver config_at (default 0 (gpio_num !! (x - 30)%nat)))
  else on_board (pwm_driver word (default 0 (pwm_base !! (x - 40)%nat))).

(** [rt_hw_uart_set_device]: the table [uart_dev] has no check from below. *)
Definition UART_NUM_MAX : Z := 11.
Definition rt_hw_uart_set_device (drv : nat → driver hardware) (name : list Z) (uart_dev : list (option nat))
    (s : namespace * hardware) : res (list (option nat) * (namespace * hardware)) :=
  devnum ← uart_get_dev_numnber (name ++ [0]);
  if UART_NUM_MAX <? devnum then Ok (uart_dev, s)
  else match rt_device_find name s.1 with
       | Some newdev =>
           '(_, s) ← device_open drv newdev (Z.lor RT_DEVICE_OFLAG_RDWR RT_DEVICE_FLAG_STREAM) s;
           _ ← require OutOfBounds ((0 <=? devnum) && (devnum <? Z.of_nat (length uart_dev)));
           Ok (<[Z.to_nat devnum := Some newdev]> uart_dev, s)
       | None => Ok (uart_dev, s)
       end.

(** ** [board.c] *)

Record machine := mk_machine {
  hardware_of : hardware; devices : namespace; console_device : option nat;
  c0_compare : Z; c0_count : Z }.

Definition CPU_HZ : Z := 252 * 1000000.
Definition RT_TICK_PER_SECOND : Z := 100.
Definition rt_hw_timer_init (m : machine) : machine :=
  mk_machine (hardware_of m) (devices m) (console_device m) (CPU_HZ / 2 / RT_TICK_PER_SECOND) 0.

(** [rt_hw_timer_handler]: the comparison value is written back, the count starts
    again, and the kernel counts a tick. *)
Definition rt_hw_timer_handler (user_timeout : nat → kernel → res kernel) (timers : nat) (s : machine * kernel)
    : res (machine * kernel) :=
  let '(m, k) := s in
  let count := c0_compare m in
  let m := mk_machine (hardware_of m) (devices m) (console_device m) count 0 in
  k ← rt_tick_increase user_timeout timers k; Ok (m, k).

Section console.
Context (drv : nat → driver hardware) (fuel : nat).

Definition rt_hw_board_init (m : machine) : res machine :=
  let '(b, r) := hardware_of m in
  let b := rt_pad_multiplex_init b in
  '(s, ns) ← rt_hw_uart_init (b, r) (devices m);
  '(_, console, (ns, s)) ← rt_console_set_device drv uart2_name (console_device m) (ns, s);
  '(b, ns) ← rt_hw_uart_com_init com s.1 ns;
  ns ← rt_hw_gpio_init ns;
  Ok (rt_hw_timer_init (mk_machine (b, s.2) ns console (c0_compare m) (c0_count m))).

(** [rt_hw_console_output], on the bytes before the zero. *)
Definition rt_hw_console_output (ptr : list Z) (s : hardware) : res hardware :=
  b ← stream_loop fuel UART2_BASE ptr s.1; Ok (b, s.2).

(** [rt_kprintf] behind the formatting: [text] are the bytes of [rt_log_buf]. *)
Definition console_write (text : list Z) (m : machine) : res machine :=
  match console_device m with
  | None =>
      s ← rt_hw_console_output text (hardware_of m);
      Ok (mk_machine s (devices m) None (c0_compare m) (c0_count m))
  | Some x =>
      dev ← of_option NullDeref (ns_devs (devices m) !! x);
      let old_flag := open_flag dev in
      let dev := set_open_flag (u16 (Z.lor old_flag RT_DEVICE_FLAG_STREAM)) dev in
      '(_, _, s) ← rt_device_write (drv x) dev 0 text (hardware_of m);
      let devs := <[x := set_open_flag old_flag dev]> (ns_devs (devices m)) in
      Ok (mk_machine s (mk_ns (ns_objs (devices m)) (ns_names (devices m)) devs) (Some x) (c0_compare m) (c0_count m))
  end.
Fixpoint console_writes (texts : list (list Z)) (m : machine) : res machine :=
  match texts with
  | [] => Ok m
  | text :: texts => m ← console_write text m; console_writes texts m
  end.
End console.
End board.
Arguments machine H : clear implicits.
Arguments mk_machine {H}.
Arguments hardware_of {H}.
Arguments devices {H}.
Arguments console_device {H}.
Arguments c0_compare {H}.
Arguments c0_count {H}.

(** ** Registering devices one after the other *)

(** Numbers and names are distinct. *)
Fixpoint apart (l : list (nat * list Z * Z)) : Prop :=
  match l with
  | [] => True
  | e :: l => Forall (λ e', e'.1.1 ≠ e.1.1 ∧ same_name e.1.2 e'.1.2 = false) l ∧ apart l
  end.
(** None of them is a device yet. *)
Record registrable (l : list (nat * list Z * Z)) (ns : namespace) : Prop := {
  reg_unique : unique_names ns;
  reg_apart : apart l;
  reg_new e : e ∈ l → ¬ e.1.1 ∈ object_list (ns_objs ns) Object_Class_Device ∧ rt_device_find e.1.2 ns = None;
}.

Definition closed_device (flags : Z) : rt_device := mk_device (u16 flags) 0 0 None None.

Record registered (l : list (nat * list Z * Z)) (ns ns' : namespace) : Prop := {
  now_unique : unique_names ns';
  now_found e : e ∈ l → rt_device_find e.1.2 ns' = Some e.1.1 ∧ ns_devs ns' !! e.1.1 = Some (closed_device e.2);
  others_found n : Forall (λ e, same_name e.1.2 n = false) l → rt_device_find n ns' = rt_device_find n ns;
  others_kept y : Forall (λ e, e.1.1 ≠ y) l → ns_devs ns' !! y = ns_devs ns !! y;
  now_listed y : y ∈ object_list (ns_objs ns') Object_Class_Device →
    Exists (λ e, e.1.1 = y) l ∨ y ∈ object_list (ns_objs ns) Object_Class_Device;
}.

Lemma register_lists x name flags d s s' r :
  rt_device_find name s = None → x ∉ object_list (ns_objs s) Object_Class_Device →
  rt_device_register (Some x) name flags 0 d s = Ok (r, s') →
  object_list (ns_objs s') Object_Class_Device = x :: object_list (ns_objs s) Object_Class_Device.
Proof.
  intros Hf Hx. unfold rt_device_register. rewrite Hf. unfold rt_object_init, object_link.
  simpl. rewrite bool_decide_eq_true_2 by done. simpl. intros [= _ <-]. simpl. by rewrite ?decide_True.
Qed.

Lemma register_one x n f l ns :
  registrable ((x, n, f) :: l) ns →
  ∃ ns', rt_device_register (Some x) n f 0 (mk_device 0 0 0 None None) ns = Ok (RT_EOK, ns') ∧
    registrable l ns' ∧ registered [(x, n, f)] ns ns'.
Proof.
  intros [Hu [Hap Hl] Hnew]. destruct (Hnew (x, n, f)) as [Hx Hf]; [left |]. cbn [fst snd] in *.
  pose proof (rt_device_register_spec x n f 0 (mk_device 0 0 0 None None) ns Hu Hx) as Hr. rewrite Hf in Hr.
  destruct Hr as (ns' & E & Hu' & Hfind & Hd). exists ns'. split; [done |].
  pose proof (register_lists _ _ _ _ _ _ _ Hf Hx E) as Hlist. rewrite Forall_forall in Hap.
  split; split; [done | done | | done | | | |].
  - intros e He. rewrite Hlist, Hfind. destruct (Hap e He) as [Hne ->].
    destruct (Hnew e) as [? ?]; [by right |]. split; [| done]. apply not_elem_of_cons. by split.
  - intros e ->%list_elem_of_singleton. cbn [fst snd]. rewrite Hfind, Hd, lookup_insert_eq.
    split; [| done]. unfold same_name. by rewrite bool_decide_eq_true_2.
  - intros n' H'. rewrite Hfind. inversion_clear H' as [| ? ? Hn _]. cbn in Hn. by rewrite Hn.
  - intros y H'. inversion_clear H' as [| ? ? Hn _]. cbn in Hn. by rewrite Hd, lookup_insert_ne.
  - intros y. rewrite Hlist, elem_of_cons. intros [-> | ?]; [left; by left | by right].
Qed.

(** Registering [l] succeeds, and what was there stays. *)
Theorem register_all_spec l : ∀ ns, registrable l ns →
  ∃ ns', register_all l ns = Ok ns' ∧ registered l ns ns'.
Proof.
  induction l as [| [[x n] f] l IH]; intros ns Hr.
  - exists ns. split; [done |]. split; try done; [apply Hr | by inversion 1 | by right].
  - destruct (reg_apart _ _ Hr) as [Hap _].
    destruct (register_one x n f l ns Hr) as (ns1 & E1 & Hr1 & R1).
    destruct (IH ns1 Hr1) as (ns2 & E2 & R2). exists ns2. cbn [register_all]. rewrite E1. cbn [mbind res_bind].
    split; [done |]. split.
    + apply R2.
    + intros e [-> | He]%elem_of_cons; [| by apply R2]. cbn [fst snd].
      rewrite (others_found _ _ _ R2), (others_kept _ _ _ R2).
      * by apply (now_found _ _ _ R1 (x, n, f)); left.
      * eapply Forall_impl; [exact Hap |]. by intros ? [? _].
      * eapply Forall_impl; [exact Hap |]. intros e [_ H']. by rewrite same_name_sym.
    + intros n' H'. inversion_clear H' as [| ? ? Hn Hf]. rewrite (others_found _ _ _ R2) by done.
      apply (others_found _ _ _ R1). by repeat constructor.
    + intros y H'. inversion_clear H' as [| ? ? Hn Hf]. rewrite (others_kept _ _ _ R2) by done.
      apply (others_kept _ _ _ R1). by repeat constructor.
    + intros y [Hy | Hy]%(now_listed _ _ _ R2); [left; by right |].
      apply (now_listed _ _ _ R1) in Hy as [Hy | Hy]; [| by right].
      inversion_clear Hy as [? ? Hn | ? ? Hn]; [left; by left | by inversion Hn].
Qed.

Lemma register_all_app l1 l2 ns :
  register_all (l1 ++ l2) ns = (ns ← register_all l1 ns; register_all l2 ns).
Proof.
  revert ns. induction l1 as [| [[x n] f] l1 IH]; intros ns; [done |]. cbn [app register_all].
  destruct (rt_device_register _ _ _ _ _ _) as [[r ns'] |]; [apply IH | done].
Qed.

(** Names and numbers do not depend on the state of the devices. *)
Lemma registrable_devs l ns devs :
  registrable l ns → registrable l (mk_ns (ns_objs ns) (ns_names ns) devs).
Proof. intros [[? ?] ? Hn]. split; [by split | done | exact Hn]. Qed.

(** ** What the port of the console promises *)

(** At most [n] times the line status says that the port is busy. *)
Inductive polls {H} `{Mmio H} (base : Z) : nat → H → H → Prop :=
  | polls_ready n h lsr h' :
      mmio_read8 h (UART_LSR base) = (lsr, h') →
      Z.land lsr (Z.lor UARTLSR_TE UARTLSR_TFE) ≠ 0 → polls base n h h'
  | polls_busy n h lsr h1 h' :
      mmio_read8 h (UART_LSR base) = (lsr, h1) →
      Z.land lsr (Z.lor UARTLSR_TE UARTLSR_TFE) = 0 → polls base n h1 h' → polls base (S n) h h'.

(** [tx_ready]: the latch bit of the line control register is clear, so that the
    data register is the transmitter's; [sent] is what went out. *)
Class Transmitter (H : Type) `{Mmio H} (base : Z) (fuel : nat) := {
  tx_ready : H → Prop;
  sent : H → list Z;
  tx_setup h : tx_ready (mmio_write8 h (UART_LCR base) 0x03);
  tx_polls h : tx_ready h → ∃ h', polls base fuel h h' ∧ tx_ready h' ∧ sent h' = sent h;
  tx_sends h c : tx_ready h → 0 <= c < 256 →
    tx_ready (mmio_write8 h (UART_DAT base) c) ∧ sent (mmio_write8 h (UART_DAT base) c) = sent h ++ [c];
  tx_config h a v : a = UART_IER base ∨ a = UART_FCR base → tx_ready h → tx_ready (mmio_write8 h a v);
  tx_status h a : a = UART_IER base ∨ a = UART_FCR base → tx_ready h → tx_ready (mmio_read8 h a).2;
  tx_words h a v : a + 4 <= base ∨ base + 8 <= a → tx_ready h →
    tx_ready (mmio_read32 h a).2 ∧ tx_ready (mmio_write32 h a v);
}.

(** A carriage return before every line feed. *)
Fixpoint crlf (text : list Z) : list Z :=
  match text with
  | [] => []
  | c :: text => (if c =? 10 then [13; 10] else [c]) ++ crlf text
  end.

Lemma crlf_app a b : crlf (a ++ b) = crlf a ++ crlf b.
Proof. induction a as [| c a IH]; [done |]. cbn. by rewrite IH, app_assoc. Qed.

Section transmit.
Context {H : Type} `{T : Transmitter H base fuel}.

Lemma wait_sent_polls n h h' t r :
  polls base n h h' → wait_sent n base (mk_board h t r) = Ok (mk_board h' t r).
Proof.
  induction 1 as [n h lsr h' E Hl | n h lsr h1 h' E Hl _ IH];
    destruct n; cbn [wait_sent mmio_read8 board_mmio hw irq_handle_table rings]; rewrite E; cbn iota beta.
  1,2: by rewrite (proj2 (Z.eqb_neq _ _) Hl).
  all: by rewrite (proj2 (Z.eqb_eq _ _) Hl).
Qed.

(** [s'] is [s] with [l] sent. *)
Definition sends (l : list Z) (s s' : board H) : Prop :=
  tx_ready (hw s') ∧ sent (hw s') = sent (hw s) ++ l ∧
  irq_handle_table s' = irq_handle_table s ∧ rings s' = rings s.

Lemma sends_app l1 l2 s1 s2 s3 : sends l1 s1 s2 → sends l2 s2 s3 → sends (l1 ++ l2) s1 s3.
Proof.
  intros (_ & E1 & T1 & R1) (? & E2 & T2 & R2). repeat split; [done | | congruence..].
  by rewrite E2, E1, app_assoc.
Qed.

Lemma send_char_sends c s : tx_ready (hw s) → 0 <= c < 256 → ∃ s', send_char fuel base c s = Ok s' ∧ sends [c] s s'.
Proof.
  destruct s as [h t r]. intros Hr Hc. destruct (tx_polls h Hr) as (h' & Hp & Hr' & Hs).
  unfold send_char. rewrite (wait_sent_polls _ _ _ _ _ Hp). cbn [mbind res_bind].
  replace (u8 c) with c by (unfold u8; lia). destruct (tx_sends h' c Hr' Hc) as [? Hs2].
  eexists. split; [done |]. repeat split; [done |]. cbn. by rewrite Hs2, Hs.
Qed.

Lemma stream_loop_sends text : ∀ s, tx_ready (hw s) → Forall (λ c, 0 <= c < 256) text →
  ∃ s', stream_loop fuel base text s = Ok s' ∧ sends (crlf text) s s'.
Proof.
  induction text as [| c text IH]; intros s Hr Ht.
  - exists s. repeat split; [done |]. cbn. by rewrite app_nil_r.
  - inversion_clear Ht as [| ? ? Hc Ht']. cbn [stream_loop crlf].
    assert (∃ s1, (if c =? 10 then send_char fuel base 13 s else Ok s) = Ok s1 ∧
      sends (if c =? 10 then [13] else []) s s1) as (s1 & E1 & S1).
    { case_match; [apply send_char_sends; [done | lia] |].
      exists s. repeat split; [done |]. by rewrite app_nil_r. }
    rewrite E1. cbn [mbind res_bind]. destruct (send_char_sends c s1) as (s2 & E2 & S2); [apply S1 | done |].
    rewrite E2. cbn [mbind res_bind]. destruct (IH s2) as (s3 & E3 & S3); [apply S2 | done |].
    exists s3. split; [done |]. eapply sends_app; [| exact S3].
    replace (if c =? 10 then [13; 10] else [c]) with ((if c =? 10 then [13] else []) ++ [c]).
    + by eapply sends_app.
    + destruct (Z.eqb_spec c 10); by subst.
Qed.
End transmit.

(** ** The board comes up *)
Definition com_devices : list (nat * list Z * Z) :=
  (λ n, (com n, com_name n, uart_com_flags)) <$> com_ports MAX_UART_COM 0.
Definition board_devices : list (nat * list Z * Z) :=
  (UART2, uart2_name, uart_com_flags) :: com_devices ++ gpio_devices.

(** The console's device once it is open. *)
Definition console_open : rt_device :=
  mk_device (Z.lor uart_com_flags RT_DEVICE_FLAG_ACTIVATED)
    (Z.lor (Z.lor RT_DEVICE_OFLAG_RDWR RT_DEVICE_FLAG_STREAM) RT_DEVICE_OFLAG_OPEN) 1 None None.

Section boot.
Context {H : Type} `{T : Transmitter H UART2_BASE fuel}.
Context (handler com_handler garbage : Z) (config_at : Z → option gpio_int_config) (word : Z → option Z).
Local Abbreviation hardware := (board H * ring)%type.
Local Abbreviation drv := (driver_of handler com_handler fuel garbage config_at word).

(** The state in which [rt_hw_board_init] is called. *)
Record boot_state (m : machine H) : Prop := {
  boot_console : console_device m = None;
  boot_table : table_ok (irq_handle_table (hardware_of m).1);
  boot_devices : registrable board_devices (devices m);
}.

Definition served (s : board H) : Prop :=
  table_ok (irq_handle_table s) ∧
  ∃ d, irq_handle_table s !! Z.to_nat LS1C_UART2_IRQ = Some d ∧ Interrupt.handler d = Some handler.

Lemma reg8_or_kept (s : board H) a v :
  irq_handle_table (reg8_or s a v) = irq_handle_table s ∧ rings (reg8_or s a v) = rings s.
Proof. unfold reg8_or. cbn [mmio_read8 board_mmio]. by destruct (mmio_read8 (hw s) a). Qed.
Lemma reg32_or_kept (s : board H) a v :
  irq_handle_table (reg32_or s a v) = irq_handle_table s ∧ rings (reg32_or s a v) = rings s.
Proof. unfold reg32_or. cbn [mmio_read32 board_mmio]. by destruct (mmio_read32 (hw s) a). Qed.

Lemma reg8_or_ready (s : board H) a v :
  a = UART_IER UART2_BASE ∨ a = UART_FCR UART2_BASE → tx_ready (hw s) → tx_ready (hw (reg8_or s a v)).
Proof.
  intros Ha Hr. pose proof (tx_status (hw s) a Ha Hr) as Hs. unfold reg8_or. cbn [mmio_read8 board_mmio].
  destruct (mmio_read8 (hw s) a) as [w h]. cbn in *. by apply tx_config.
Qed.
Lemma umask_ready (s : board H) : tx_ready (hw s) → tx_ready (hw (rt_hw_interrupt_umask LS1C_UART2_IRQ s)).
Proof.
  intros Hr. set (a := int_en (vector_group LS1C_UART2_IRQ)).
  assert (Ha : a + 4 <= UART2_BASE ∨ UART2_BASE + 8 <= a) by (left; by vm_compute).
  destruct (tx_words (hw s) a 0 Ha Hr) as [Hs _]. unfold rt_hw_interrupt_umask, reg32_or. fold a.
  cbn [mmio_read32 board_mmio]. destruct (mmio_read32 (hw s) a) as [w h]. cbn in *.
  by apply (tx_words h a).
Qed.

Lemma uart2_opens (b : board H) r :
  table_ok (irq_handle_table b) →
  ∃ b', rt_device_open (uart2_driver handler fuel) (closed_device uart_com_flags)
      (Z.lor RT_DEVICE_OFLAG_RDWR RT_DEVICE_FLAG_STREAM) (b, r) = Ok (RT_EOK, console_open, (b', r)) ∧
    tx_ready (hw b') ∧ served b' ∧ rings b' = rings b.
Proof.
  intros Ht. unfold rt_device_open, activate, uart2_driver. cbn [init open].
  change (flag_set (dev_flag (closed_device uart_com_flags)) RT_DEVICE_FLAG_ACTIVATED) with false.
  cbn [negb]. unfold rt_uart_init. cbv zeta.
  match goal with |- context [Ok (RT_EOK, (?s, r))] => set (b1 := s) end.
  assert (Hr1 : tx_ready (hw b1)).
  { unfold b1. cbn [hw mmio_write8 board_mmio]. apply tx_config; [by left |]. apply reg8_or_ready; [by right |]. apply tx_setup. }
  destruct (reg8_or_kept b1 (UART_IER UART2_BASE) UARTIER_IRXE) as [Et Er].
  assert (irq_handle_table b1 = irq_handle_table b ∧ rings b1 = rings b) as [Et1 Er1].
  { unfold b1. cbn [irq_handle_table rings mmio_write8 board_mmio]. split; by rewrite ?(proj1 (reg8_or_kept _ _ _)), ?(proj2 (reg8_or_kept _ _ _)). }
  cbn [mbind res_bind]. change (RT_EOK =? RT_EOK) with true. cbn [negb mbind res_bind].
  unfold rt_uart_open.
  match goal with |- context [if ?c then Ok (- RT_EBUSY, _, _) else _] => change c with false end.
  match goal with |- context [if flag_set ?f RT_DEVICE_FLAG_INT_RX then _ else _] => change (flag_set f RT_DEVICE_FLAG_INT_RX) with true end.
  cbv iota.
  destruct (rt_hw_interrupt_install_spec LS1C_UART2_IRQ handler 0 uart2_isr_name (irq_handle_table b)) as (d & t & Hd & Ei & Ht' & Hl & _);
    [done | by vm_compute |].
  rewrite Et, Et1, Ei. cbn [mbind res_bind].
  eexists. split; [reflexivity |]. split_and!.
  - apply umask_ready. apply reg8_or_ready; [by left | done].
  - unfold served, rt_hw_interrupt_umask. rewrite (proj1 (reg32_or_kept _ _ _)). split; [done |]. by eexists.
  - unfold rt_hw_interrupt_umask. rewrite (proj2 (reg32_or_kept _ _ _)). cbn [rings]. by rewrite Er.
Qed.

Lemma com_init_loop_spec ports : ∀ (s : board H) ns,
  com_init_loop com ports s ns =
    (ns' ← register_all ((λ n, (com n, com_name n, uart_com_flags)) <$> ports) ns;
     Ok (mk_board (hw s) (irq_handle_table s) (foldl (λ rs n, <[n := ring_init]> rs) (rings s) ports), ns')).
Proof.
  induction ports as [| n ports IH]; intros [h t rs] ns; [done |].
  cbn [com_init_loop fmap list_fmap register_all foldl]. unfold com_init_port.
  destruct (rt_device_register _ _ _ _ _ _) as [[r ns'] |]; [| done]. cbn [mbind res_bind]. apply IH.
Qed.

Lemma pads_kept (b : board H) : irq_handle_table (rt_pad_multiplex_init b) = irq_handle_table b.
Proof.
  unfold rt_pad_multiplex_init, set_bits. generalize pad_bits. intros l. revert b.
  induction l as [| p l IH]; intros b; [done |]. cbn [fold_left]. by rewrite IH, (proj1 (reg32_or_kept _ _ _)).
Qed.

(** The console is open on a port that can send. *)
Definition console_ready (m : machine H) : Prop :=
  console_device m = Some UART2 ∧ ns_devs (devices m) !! UART2 = Some console_open ∧ tx_ready (hw (hardware_of m).1).

Lemma console_write_sends text (m : machine H) :
  console_ready m → Forall (λ c, 0 <= c < 256) text →
  ∃ m', console_write drv fuel text m = Ok m' ∧ console_ready m' ∧ devices m' = devices m ∧
    sent (hw (hardware_of m').1) = sent (hw (hardware_of m).1) ++ crlf text.
Proof.
  destruct m as [[b r] ns c cmp cnt]. intros (Hc & Hd & Hr) Ht. cbn in Hc, Hd, Hr. subst c.
  destruct (stream_loop_sends text b Hr Ht) as (b' & E & Hr' & Hs & _ & _).
  unfold console_write. cbn [console_device devices hardware_of]. rewrite Hd. cbn [of_option mbind res_bind].
  cbv zeta. unfold rt_device_write.
  match goal with |- context [if ref_count ?d =? 0 then _ else _] => change (ref_count d =? 0) with false end.
  cbv iota. change (drv UART2) with (uart2_driver handler fuel). cbn [write uart2_driver]. unfold rt_uart_write.
  match goal with |- context [if flag_set ?f RT_DEVICE_FLAG_STREAM then _ else _] => change (flag_set f RT_DEVICE_FLAG_STREAM) with true end.
  cbv iota. cbn [fst snd]. rewrite E. cbn [mbind res_bind].
  change (set_open_flag _ (set_open_flag _ console_open)) with console_open.
  eexists. split; [reflexivity |]. rewrite insert_id by done. destruct ns. by repeat split.
Qed.

Lemma console_writes_sends texts : ∀ m : machine H,
  console_ready m → Forall (Forall (λ c, 0 <= c < 256)) texts →
  ∃ m', console_writes drv fuel texts m = Ok m' ∧ devices m' = devices m ∧
    sent (hw (hardware_of m').1) = sent (hw (hardware_of m).1) ++ crlf (concat texts).
Proof.
  induction texts as [| text texts IH]; intros m Hm Ht.
  { exists m. by rewrite app_nil_r. }
  inversion_clear Ht as [| ? ? Ht1 Ht2]. destruct (console_write_sends text m Hm Ht1) as (m1 & E1 & Hm1 & D1 & S1).
  destruct (IH m1 Hm1 Ht2) as (m2 & E2 & D2 & S2). exists m2. cbn [console_writes]. rewrite E1. cbn [mbind res_bind].
  split_and!; [done | congruence |]. cbn [concat]. by rewrite S2, S1, crlf_app, app_assoc.
Qed.

(** C20. The board comes up: from the state at the reset, [rt_hw_board_init] registers
    the three serial ports, the LEDs and the keys, each found by its name and, but for the
    console, closed; other devices are found as before; the handler of [uart2] is in the
    table of interrupts, the timer is programmed for a hundred ticks a second; and from then
    on what [rt_kprintf] prints goes out of [uart2], all of it and in order, with a
    carriage return before each line feed. *)
Theorem board_boots_and_prints (m : machine H) :
  boot_state m →
  ∃ m', rt_hw_board_init drv m = Ok m' ∧
    (console_device m' = Some UART2 ∧ ns_devs (devices m') !! UART2 = Some console_open) ∧
    unique_names (devices m') ∧
    (∀ e, e ∈ board_devices → rt_device_find e.1.2 (devices m') = Some e.1.1 ∧
      (e.1.1 ≠ UART2 → ns_devs (devices m') !! e.1.1 = Some (closed_device e.2))) ∧
    (∀ n, Forall (λ e, same_name e.1.2 n = false) board_devices →
      rt_device_find n (devices m') = rt_device_find n (devices m)) ∧
    served (hardware_of m').1 ∧ c0_compare m' * (2 * RT_TICK_PER_SECOND) = CPU_HZ ∧ c0_count m' = 0 ∧
    ∀ texts, Forall (Forall (λ c, 0 <= c < 256)) texts →
      ∃ m'', console_writes drv fuel texts m' = Ok m'' ∧ devices m'' = devices m' ∧
        sent (hw (hardware_of m'').1) = sent (hw (hardware_of m').1) ++ crlf (concat texts).
Proof.
  destruct m as [[b r] ns c cmp cnt]. intros [Hc Ht Hn]. cbn in Hc, Ht, Hn. subst c.
  destruct (register_one _ _ _ _ _ Hn) as (ns1 & E1 & Hn1 & R1).
  unfold rt_hw_board_init. cbn [hardware_of devices console_device]. cbv zeta.
  unfold rt_hw_uart_init. cbn [register_all]. rewrite E1. cbn [mbind res_bind fst snd].
  destruct (now_found _ _ _ R1 _ (list_elem_of_here _ _)) as [F1 D1]. cbn [fst snd] in F1, D1.
  unfold rt_console_set_device, device_open. cbn [fst snd]. rewrite F1. cbn [mbind res_bind fst snd]. rewrite D1.
  cbn [of_option mbind res_bind]. change (drv UART2) with (uart2_driver handler fuel).
  destruct (uart2_opens (rt_pad_multiplex_init b) ring_init) as (b2 & E2 & Hr2 & S2 & _); [by rewrite pads_kept |].
  rewrite E2. cbn [mbind res_bind fst snd]. unfold rt_hw_uart_com_init. rewrite com_init_loop_spec.
  set (ns2 := mk_ns _ _ _).
  assert (D2 : ns_devs ns2 !! UART2 = Some console_open) by apply lookup_insert_eq.
  destruct (register_all_spec (com_devices ++ gpio_devices) ns2) as (ns3 & E3 & R3); [by apply registrable_devs |].
  rewrite register_all_app in E3. unfold com_devices in E3. cbn [mbind res_bind] in E3 |- *.
  destruct (register_all _ ns2) as [ns2' | w]; [| done]. cbn [mbind res_bind] in E3 |- *.
  unfold rt_hw_gpio_init. rewrite E3. cbn [mbind res_bind].
  destruct (reg_apart _ _ Hn) as [Hap _].
  assert (D3 : ns_devs ns3 !! UART2 = Some console_open).
  { rewrite (others_kept _ _ _ R3); [done |]. eapply Forall_impl; [exact Hap |]. by intros ? []. }
  eexists. split; [reflexivity |]. cbn [rt_hw_timer_init devices console_device hardware_of c0_compare c0_count fst snd].
  split_and!; try done.
  - apply R3.
  - intros e [-> | He]%elem_of_cons; [| by split; [| intros _]; apply (now_found _ _ _ R3 e He)].
    split; [| done]. cbn [fst snd]. rewrite (others_found _ _ _ R3); [exact F1 |].
    eapply Forall_impl; [exact Hap |]. intros e' [_ H']. by rewrite same_name_sym.
  - intros n Hnm. inversion_clear Hnm as [| ? ? Hn1' Hn2']. rewrite (others_found _ _ _ R3 n Hn2').
    apply (others_found _ _ _ R1). by repeat constructor.
  - intros texts Htx. by apply console_writes_sends.
Qed.

(** A pin driven through the framework: the device is open, [control] makes the pin an
    output, [write] sets its level; no other bit of any register changes. *)
Theorem pin_over_framework `{!Storage H ram} (i : nat) p dev value (b : board H) r :
  gpio_num !! i = Some p → ref_count dev ≠ 0 → value = 0 ∨ value = 1 →
  keeps (ram := ram) [GPIO_EN (pin_base p); GPIO_OUT (pin_base p)] →
  ∃ b1 b2, rt_device_control (drv (pin i)) dev GPIO_WRITE_MODE 0 (b, r) = Ok (RT_EOK, (b1, r)) ∧
    rt_device_write (drv (pin i)) dev 0 [value] (b1, r) = Ok (1, None, (b2, r)) ∧
    sets_bit (GPIO_EN (pin_base p)) (pin_bit p) false (hw b) (hw b1) ∧
    sets_bit (GPIO_OUT (pin_base p)) (pin_bit p) (value =? 1) (hw b1) (hw b2).
Proof.
  intros Hi Hc Hv Hk. assert (i < 8)%nat by (by apply lookup_lt_Some in Hi).
  assert (Hp : 0 <= p <= 127) by (do 8 (destruct i as [| i]; [injection Hi as <-; lia |]); done).
  destruct (gpio_output_spec p value (irq_handle_table b) (hw b) Hp Hv Hk) as (s1 & E1 & S1 & S2).
  unfold rt_device_control, rt_device_write, driver_of, pin.
  replace (30 + i <? 10)%nat with false by (symmetry; apply Nat.ltb_ge; lia).
  replace (30 + i <? 30)%nat with false by (symmetry; apply Nat.ltb_ge; lia).
  replace (30 + i <? 40)%nat with true by (symmetry; apply Nat.ltb_lt; lia).
  replace (30 + i - 30)%nat with i by lia. rewrite Hi. rewrite (proj2 (Z.eqb_neq _ _) Hc).
  cbn [on_board gpio_driver control write fmap option_fmap option_map fst snd default].
  change (rt_gpio_control (id p) GPIO_WRITE_MODE (config_at 0)) with (rt_gpio_control p GPIO_WRITE_MODE None (St := H)).
  rewrite E1. cbn [mbind res_bind]. eexists _, _. split; [reflexivity |]. split; [reflexivity |]. by split.
Qed.
End boot.

(** ** [rt_hw_uart_set_device] *)
Lemma uart_number n : (n < 12)%nat → uart_get_dev_numnber (com_name n ++ [0]) = Ok (Z.of_nat n).
Proof. intros Hn. do 12 (destruct n as [| n]; [reflexivity |]). lia. Qed.

(** The port with a number is opened and entered under it; a name that no device has
    changes nothing. *)
Theorem rt_hw_uart_set_device_spec {H} (drv : nat → driver (board H * ring)) n uart_dev s :
  (n < 12)%nat → length uart_dev = 12%nat →
  rt_hw_uart_set_device drv (com_name n) uart_dev s =
    match rt_device_find (com_name n) s.1 with
    | Some x =>
        '(_, s) ← device_open drv x (Z.lor RT_DEVICE_OFLAG_RDWR RT_DEVICE_FLAG_STREAM) s;
        Ok (<[n := Some x]> uart_dev, s)
    | None => Ok (uart_dev, s)
    end.
Proof.
  intros Hn Hl. unfold rt_hw_uart_set_device. rewrite uart_number by done. cbn [mbind res_bind].
  rewrite (proj2 (Z.ltb_ge _ _)) by (unfold UART_NUM_MAX; lia). destruct (rt_device_find _ _) as [x |]; [| done].
  destruct (device_open _ _ _ _) as [[r s'] |]; [| done]. cbn [mbind res_bind].
  rewrite (proj2 (Z.leb_le _ _)), (proj2 (Z.ltb_lt _ _)) by lia. cbn [andb require mbind res_bind].
  by rewrite Nat2Z.id.
Qed.

(** A single character behind [uart] is not checked: [uart/] counts as port -1. *)
Lemma uart_number_negative : uart_get_dev_numnber [117; 97; 114; 116; 47; 0] = Ok (-1).
Proof. reflexivity. Qed.

(** ** A board with one port *)
Module BoardDemo.
(** The words of the registers, the text that went out, the divisor latch bit,
    and whether the port is still sending. *)
Record tty := mk_tty { words : gmap Z Z; text_out : list Z; latch : bool; sending : bool }.

Definition tty_read8 (h : tty) (a : Z) : Z * tty :=
  if a =? UART_LSR UART2_BASE then
    if sending h then (0, mk_tty (words h) (text_out h) (latch h) false) else (0x60, h)
  else (u8 (reg_at (words h) a), h).
Definition tty_write8 (h : tty) (a v : Z) : tty :=
  if (a =? UART_DAT UART2_BASE) && negb (latch h) then mk_tty (words h) (text_out h ++ [v]) false true
  else if a =? UART_LCR UART2_BASE then mk_tty (words h) (text_out h) (Z.testbit v 7) (sending h)
  else mk_tty (<[a := u8 v]> (words h)) (text_out h) (latch h) (sending h).
#[global] Instance tty_mmio : Mmio tty := {
  mmio_read8 := tty_read8; mmio_write8 := tty_write8;
  mmio_read32 h a := (reg_at (words h) a, h);
  mmio_write32 h a v := mk_tty (<[a := u32 v]> (words h)) (text_out h) (latch h) (sending h) }.

#[global] Program Instance tty_transmitter : Transmitter tty UART2_BASE 1 := {|
  tx_ready h := latch h = false; sent := text_out |}.
Next Obligation. done. Qed.
Next Obligation.
  intros [w l d [|]] Hd; cbn in Hd; subst d.
  - exists (mk_tty w l false false). split; [| done]. by eapply polls_busy, polls_ready.
  - exists (mk_tty w l false false). split; [| done]. by eapply polls_ready.
Qed.
Next Obligation. intros [w l d s] c Hd _. cbn in Hd. by subst d. Qed.
Next Obligation. intros [w l d s] a v [-> | ->] Hd; cbn in Hd; by subst d. Qed.
Next Obligation. intros [w l d s] a [-> | ->] Hd; cbn in Hd; by subst d. Qed.
Next Obligation. done. Qed.

Definition demo_ns : namespace := mk_ns (mk_objs ∅ (λ _, [])) ∅ ∅.
Definition demo_machine : machine tty :=
  mk_machine (mk_board (mk_tty ∅ [] false false) demo_table (replicate 12 ring_init), ring_init) demo_ns None 0 0.
Definition demo_driver : nat → driver (board tty * ring) := driver_of 77 78 1 0 (λ _, None) (λ _, None).

Lemma demo_boot_state : boot_state demo_machine.
Proof.
  split; [done | exact demo_table_ok |]. split.
  - split; [constructor | by inversion 1].
  - cbn. repeat split; repeat constructor; done.
  - intros e _. split; [by inversion 1 | done].
Qed.

(** Booting, and two messages. *)
Example boot_prints :
  (m ← rt_hw_board_init demo_driver demo_machine; m ← console_writes demo_driver 1 [[72; 105]; [10; 33]] m;
   Ok (text_out (hw (hardware_of m).1))) = Ok [72; 105; 13; 10; 33].
Proof. vm_compute. reflexivity. Qed.

Lemma board_boots_and_prints_witness :
  ∃ m', rt_hw_board_init demo_driver demo_machine = Ok m' ∧ console_device m' = Some UART2 ∧
    rt_device_find uart2_name (devices m') = Some UART2 ∧
    ∃ m'', console_writes demo_driver 1 [[72; 105]; [10; 33]] m' = Ok m'' ∧
      text_out (hw (hardware_of m'').1) = text_out (hw (hardware_of m').1) ++ [72; 105; 13; 10; 33].
Proof.
  destruct (board_boots_and_prints 77 78 0 (λ _, None) (λ _, None) demo_machine demo_boot_state)
    as (m' & E & [Hc _] & _ & Hf & _ & _ & _ & _ & Hp).
  destruct (Hp [[72; 105]; [10; 33]]) as (m'' & E' & _ & Hs); [repeat constructor; lia |].
  exists m'. split; [exact E |]. split; [exact Hc |].
  assert (Hin : (UART2, uart2_name, uart_com_flags) ∈ board_devices) by (apply elem_of_cons; by left).
  destruct (Hf _ Hin) as [F _]. split; [exact F |]. exists m''. split; [exact E' | exact Hs].
Defined.
End BoardDemo.
