(* ===== verification/SerialApp.v ===== *)
(** * The application over the driver

    The AT machine of [NbIot] run on the serial driver of [UartDriver], through
    the framework of [Device] and the dispatcher of [Interrupt], on a port that
    behaves as its manual says; and the same run on a queue that loses what the
    ring loses. *)
From Stdlib Require Import Ascii String.
From stdpp Require Import strings.
From S2P Require Import Prelude KString KObject Kernel Mmio Interrupt Device UartDriver NbIot.
Local Open Scope Z_scope.

(** ** The device [uart3] *)

(** The address of [rt_uart_com_irqhandler], and what its [control] returns: any
    values would do. *)
Definition irqhandler_address : Z := 0x80020000.
Definition uart3_driver : driver (board line) := uart_com_driver 3 irqhandler_address 1 0.

(** The state of the device and the bursts that the modem will send, one in each
    delay of the application. *)
Record uart3 := mk_uart3 { u3_dev : rt_device; u3_board : board line; u3_bursts : list (list Z) }.

Definition run_handler (dev : rt_device) (f irq _ : Z) (s : board line) : res (board line) :=
  if f =? irqhandler_address then
    '(_, s) ← rt_uart_com_irqhandler (length (rx_fifo (hw s))) irq (λ _, dev) s; Ok s
  else Ok s.

(** A burst arrives: the processor takes the interrupt (line 2 of the cause). *)
Definition arrive (bytes : list Z) (h : line) : line :=
  mk_line (rx_fifo h ++ bytes) (tx_log h) (dlab h) (en0 h).
Definition take_interrupt (dev : rt_device) (s : board line) : res (board line) :=
  '(t, s) ← rt_interrupt_dispatch (run_handler dev) Ok 0xff00 0x400 (irq_handle_table s) s;
  Ok (mk_board (hw s) t (rings s)).
Definition burst_arrives (dev : rt_device) (bytes : list Z) (s : board line) : res (board line) :=
  let s := mk_board (arrive bytes (hw s)) (irq_handle_table s) (rings s) in
  match bytes with [] => Ok s | _ => take_interrupt dev s end.

Definition or_else {A} (m : res A) (a : A) : A := match m with Ok a => a | Stop _ => a end.

Definition u3_read (d : uart3) (n : Z) : list Z * uart3 :=
  let '(data, _, s) := or_else (rt_device_read uart3_driver (u3_dev d) 0 n (u3_board d)) ([], None, u3_board d) in
  (data, mk_uart3 (u3_dev d) s (u3_bursts d)).
Definition u3_write (d : uart3) (buffer : list Z) : uart3 :=
  let '(_, _, s) := or_else (rt_device_write uart3_driver (u3_dev d) 0 buffer (u3_board d)) (0, None, u3_board d) in
  mk_uart3 (u3_dev d) s (u3_bursts d).
Definition u3_delay (d : uart3) (_ : Z) : uart3 :=
  match u3_bursts d with
  | [] => d
  | b :: bs => mk_uart3 (u3_dev d) (or_else (burst_arrives (u3_dev d) b (u3_board d)) (u3_board d)) bs
  end.

Lemma read_loop_bounds n : ∀ r l r', read_loop n r = Ok (l, r') →
  (length l <= n)%nat ∧ Forall (λ c, 0 <= c < 256) l.
Proof.
  induction n as [| n IH]; intros r l r'; simpl; [by intros [= <- <-] |].
  intros (g & Hg & Hl)%bind_ok_inv. destruct g as [[b r1] |]; [| injection Hl as <- <-; simpl; split; [lia | done]].
  apply bind_ok_inv in Hl as ([l1 r2] & H1 & [= <- <-]). apply IH in H1 as [Hlen Hb].
  split; [simpl; lia |]. constructor; [| done].
  unfold ring_get in Hg. destruct (negb _); [| done].
  apply bind_ok_inv in Hg as (c & _ & [= <- _]). unfold u8. lia.
Qed.

Lemma u3_read_bounds d n :
  (length (fst (u3_read d n)) <= Z.to_nat n)%nat ∧ Forall (λ c, 0 <= c < 256) (fst (u3_read d n)).
Proof.
  unfold u3_read, rt_device_read.
  destruct (ref_count (u3_dev d) =? 0); [simpl; split; [lia | done] |].
  cbn [read uart3_driver uart_com_driver]. unfold rt_uart_com_read.
  destruct (flag_set _ _); [| simpl; split; [lia | done]].
  destruct (rings (u3_board d) !! 3%nat) as [r |]; [| simpl; split; [lia | done]].
  cbn [of_option mbind res_bind]. destruct (read_loop _ r) as [[l r'] |] eqn:E; cbn;
    [by apply read_loop_bounds in E | split; [lia | done]].
Qed.
Lemma u3_read_length d n : 0 <= n → Z.of_nat (length (fst (u3_read d n))) <= n.
Proof. destruct (u3_read_bounds d n). lia. Qed.

#[global] Instance uart3_uart : Uart uart3 := {
  uart_read := u3_read; uart_write := u3_write; uart_delay := u3_delay;
  uart_read_length := u3_read_length; uart_read_bytes d n := proj2 (u3_read_bounds d n) }.

(** ** The same device as a queue

    [push] is what happens to a byte; the rest is as one would write it down. *)
Record qmodem := mk_q { waiting : list Z; bursts : list (list Z); sent : list Z }.

Lemma q_read_length l n : 0 <= n → Z.of_nat (length (u8 <$> take (Z.to_nat n) l)) <= n.
Proof. intros Hn. rewrite length_fmap, length_take. lia. Qed.

#[global] Instance qmodem_uart : Uart qmodem := {
  uart_read q n := (u8 <$> take (Z.to_nat n) (waiting q), mk_q (drop (Z.to_nat n) (waiting q)) (bursts q) (sent q));
  uart_write q buffer := mk_q (waiting q) (bursts q) (sent q ++ (u8 <$> buffer));
  uart_delay q _ := match bursts q with
    | [] => q
    | b :: bs => mk_q (pushes (waiting q) b) bs (sent q)
    end;
  uart_read_length q n := q_read_length (waiting q) n;
  uart_read_bytes q n := modem_read_bytes (waiting q) n }.

(** ** Simulation of the machine, for any two devices *)
Section simulation.
Context {D E : Type} `{Uart D, Uart E} (R : D → E → Prop).

(** The same result, and related devices. *)
Definition related {A} (m : res (A * D)) (n : res (A * E)) : Prop :=
  match m, n with
  | Ok (a, d), Ok (b, e) => a = b ∧ R d e
  | Stop w, Stop w' => w = w'
  | _, _ => False
  end.

Record simulates : Prop := {
  sim_read d e n : R d e → fst (uart_read d n) = fst (uart_read e n) ∧ R (snd (uart_read d n)) (snd (uart_read e n));
  sim_write d e c : R d e → R (uart_write d c) (uart_write e c);
  sim_delay d e t : R d e → R (uart_delay d t) (uart_delay e t);
}.
Context (Hsim : simulates).

Lemma related_ok {A} (a : A) d e : R d e → related (Ok (a, d)) (Ok (a, e)).
Proof. done. Qed.
Lemma related_bind {A B} (m : res (A * D)) (n : res (A * E)) (f : A * D → res (B * D)) (g : A * E → res (B * E)) :
  related m n → (∀ a d e, R d e → related (f (a, d)) (g (a, e))) → related (m ≫= f) (n ≫= g).
Proof.
  destruct m as [[a d] | w], n as [[b e] | w']; simpl; try done.
  intros [-> HR] Hf. by apply Hf.
Qed.
Lemma related_pure {A B} (m : res A) (f : A → res (B * D)) (g : A → res (B * E)) :
  (∀ a, related (f a) (g a)) → related (m ≫= f) (m ≫= g).
Proof. intros Hf. destruct m; simpl; [apply Hf | done]. Qed.

Lemma sim_read_round size b d e :
  R d e → related (read_round size (b, d)) (read_round size (b, e)).
Proof.
  intros HR. destruct b as [buffer rx_size]. unfold read_round.
  destruct (sim_read Hsim _ _ (size - rx_size) (sim_delay Hsim d e 2 HR)) as [Hd HR'].
  destruct (uart_read (uart_delay d 2) _) as [data d'], (uart_read (uart_delay e 2) _) as [data' e'].
  simpl in Hd, HR'. subst data'. apply related_pure. intros b. by apply related_ok.
Qed.

Lemma sim_read_forever fuel size : ∀ b d e,
  R d e → related (read_forever fuel size (b, d)) (read_forever fuel size (b, e)).
Proof.
  induction fuel as [| fuel IH]; intros b d e HR; cbn [read_forever]; apply related_pure; intros [|];
    (try by apply related_ok); [done |].
  apply related_bind; [by apply sim_read_round | intros; by apply IH].
Qed.
Lemma sim_read_ticks n size : ∀ b d e,
  R d e → related (read_ticks n size (b, d)) (read_ticks n size (b, e)).
Proof.
  induction n as [| n IH]; intros b d e HR; cbn [read_ticks]; [by apply related_ok |].
  apply related_pure. intros [|]; [by apply related_ok |].
  apply related_bind; [by apply sim_read_round | apply IH].
Qed.
Lemma sim_AtUart3ReadTimeOut fuel buffer size t d e :
  R d e → related (AtUart3ReadTimeOut fuel buffer size t d) (AtUart3ReadTimeOut fuel buffer size t e).
Proof.
  intros HR. unfold AtUart3ReadTimeOut.
  destruct (t =? -1); [by apply sim_read_forever | by apply sim_read_ticks].
Qed.

Lemma sim_command fuel cmd on_ok s d e :
  R d e → related (command fuel cmd on_ok s d) (command fuel cmd on_ok s e).
Proof.
  intros HR. unfold command. destruct (_ =? _).
  - apply related_pure. intros c. apply related_ok. by apply (sim_write Hsim).
  - destruct (_ =? _); [| by apply related_ok]. unfold await_answer.
    apply related_bind; [by apply sim_AtUart3ReadTimeOut |]. intros [b n] d' e' HR'.
    apply related_pure. intros i. destruct (_ =? _); [| by apply related_ok].
    apply related_pure. intros s'. apply related_ok. by apply (sim_delay Hsim).
Qed.

Lemma sim_NSONMI s d e : R d e → related (nbiot_atcmd_NSONMI s d) (nbiot_atcmd_NSONMI s e).
Proof.
  intros HR. apply related_bind; [by apply sim_AtUart3ReadTimeOut |]. intros [b n] d' e' HR'.
  destruct (n =? 0); [by apply related_ok |]. apply related_pure. intros p.
  destruct (p =? 0)%nat; [by apply related_ok |]. apply related_pure. intros l.
  apply related_pure. intros [i q]. apply related_pure. intros k. by apply related_ok.
Qed.

Lemma sim_at_round fuel s d e : R d e → related (at_round fuel s d) (at_round fuel s e).
Proof.
  intros HR. unfold at_round. apply related_bind.
  - repeat (destruct (_ =? _); [first [by apply sim_command | by apply sim_NSONMI] |]).
    apply related_ok. by apply (sim_delay Hsim).
  - intros s' d' e' HR'. apply related_ok. by apply (sim_delay Hsim).
Qed.

Lemma sim_at_rounds n fuel : ∀ s d e, R d e → related (at_rounds n fuel s d) (at_rounds n fuel s e).
Proof.
  induction n as [| n IH]; intros s d e HR; simpl; [by apply related_ok |].
  apply related_bind; [by apply sim_at_round | apply IH].
Qed.
End simulation.

(** ** The driver and the queue *)
Lemma interrupt_line_2 {St} `{Mmio St} run_isr timer (t : list rt_irq_desc) (s : St) :
  rt_interrupt_dispatch run_isr timer 0xff00 0x400 t s = ls1x_irq_dispatch run_isr 0 t s.
Proof. reflexivity. Qed.

(** The state of the driver once the device is open. *)
Record line_up (d : uart3) (q : qmodem) : Prop := {
  up_flag : flag_set (dev_flag (u3_dev d)) RT_DEVICE_FLAG_INT_RX = true;
  up_open : ref_count (u3_dev d) ≠ 0;
  up_queue : ∃ qs, queues_are qs (u3_board d) ∧ qs !! 3%nat = Some (waiting q);
  up_line : rx_fifo (hw (u3_board d)) = [] ∧ dlab (hw (u3_board d)) = false ∧
    tx_log (hw (u3_board d)) = sent q;
  up_enabled : 0 <= en0 (hw (u3_board d)) < 4294967296 ∧ Z.testbit (en0 (hw (u3_board d))) 29 = true;
  up_table : Interrupt.table_ok (irq_handle_table (u3_board d)) ∧
    ∃ x, irq_handle_table (u3_board d) !! 29%nat = Some x ∧ handler x = Some irqhandler_address;
  up_bursts : u3_bursts d = bursts q ∧ Forall (Forall byte_range) (bursts q);
}.

Lemma line_up_read d q n : line_up d q →
  fst (uart_read d n) = fst (uart_read q n) ∧ line_up (snd (uart_read d n)) (snd (uart_read q n)).
Proof.
  intros [Hf Ho (qs & Hqs & Hq) Hl He Ht Hb]. cbn [uart_read uart3_uart qmodem_uart fst snd].
  unfold u3_read, rt_device_read. rewrite (proj2 (Z.eqb_neq _ _) Ho).
  cbn [read uart3_driver uart_com_driver]. unfold rt_uart_com_read. rewrite Hf.
  destruct (queue_lookup _ _ _ _ Hqs Hq) as (r & Hr & Hqr). rewrite Hr. cbn [of_option mbind res_bind].
  destruct (read_loop_queue (Z.to_nat n) _ _ Hqr) as (r' & -> & Hqr'). cbn [mbind res_bind or_else fst snd].
  rewrite u8_bytes by (apply Forall_take; by eapply ring_is_bytes).
  split; [done |]. split; try done. exists (<[3%nat := drop (Z.to_nat n) (waiting q)]> qs).
  split; [by apply queues_insert |]. apply list_lookup_insert_eq. by apply lookup_lt_Some in Hq.
Qed.

Lemma line_write_loop buffer : ∀ s : board line, dlab (hw s) = false →
  write_loop 1 uart3_base buffer s =
  Ok (mk_board (mk_line (rx_fifo (hw s)) (tx_log (hw s) ++ (u8 <$> buffer)) false (en0 (hw s)))
        (irq_handle_table s) (rings s)).
Proof.
  induction buffer as [| c buffer IH]; intros [[l log dl e] t rs] Hd; simpl in Hd; subst dl.
  - simpl. by rewrite app_nil_r.
  - cbn [write_loop]. assert (send_char 1 uart3_base c (mk_board (mk_line l log false e) t rs) =
      Ok (mk_board (mk_line l (log ++ [u8 c]) false e) t rs)) as -> by (by destruct l).
    cbn [mbind res_bind]. rewrite IH by done. simpl. by rewrite <- app_assoc.
Qed.

Lemma line_up_write d q c : line_up d q → line_up (uart_write d c) (uart_write q c).
Proof.
  intros [Hf Ho Hq (Hl & Hd & Hs) He Ht Hb]. cbn [uart_write uart3_uart qmodem_uart].
  unfold u3_write, rt_device_write. rewrite (proj2 (Z.eqb_neq _ _) Ho).
  cbn [write uart3_driver uart_com_driver]. unfold rt_uart_com_write.
  change (hw_base 3) with uart3_base.
  rewrite line_write_loop by done. cbn [mbind res_bind or_else].
  split; try done. cbn [u3_board hw rx_fifo dlab tx_log sent]. by rewrite Hs.
Qed.

(** An interrupt with bytes waiting: the dispatcher calls the handler, which
    moves them to the queue. *)
Lemma take_interrupt_queue dev s qs q bytes :
  queues_are qs s → qs !! 3%nat = Some q → Interrupt.table_ok (irq_handle_table s) →
  (∃ x, irq_handle_table s !! 29%nat = Some x ∧ handler x = Some irqhandler_address) →
  0 <= en0 (hw s) < 4294967296 → Z.testbit (en0 (hw s)) 29 = true →
  rx_fifo (hw s) = bytes → bytes ≠ [] → Forall byte_range bytes →
  ∃ s', take_interrupt dev s = Ok s' ∧ queues_are (<[3%nat := pushes q bytes]> qs) s' ∧
    hw s' = mk_line [] (tx_log (hw s)) (dlab (hw s)) (en0 (hw s)) ∧ Interrupt.table_ok (irq_handle_table s') ∧
    ∃ x, irq_handle_table s' !! 29%nat = Some x ∧ handler x = Some irqhandler_address.
Proof.
  intros Hqs Hq Ht (x & Hx & Hh) Hen Hbit Hrx Hne Hb. unfold take_interrupt. rewrite interrupt_line_2.
  assert (Hland : Z.land 0x20000000 (en0 (hw s)) = 0x20000000).
  { apply Z.bits_inj'. intros i Hi. change 0x20000000 with (2 ^ 29).
    rewrite Z.land_spec, Z.pow2_bits_eqb by lia. destruct (Z.eqb_spec 29 i) as [<- |]; [by rewrite Hbit | done]. }
  pose proof (ls1x_irq_dispatch_serves (run_handler dev) Ok 0 (irq_handle_table s) s 0x20000000 s (en0 (hw s)) s Ht) as Hs.
  destruct s as [[rx log dl en] t rs]. cbn [hw rx_fifo tx_log dlab en0 irq_handle_table rings] in *.
  specialize (Hs ltac:(lia) ltac:(by destruct rx; [| subst]) eq_refl ltac:(lia) Hen).
  rewrite Hland in Hs. cbn [Z.eqb] in Hs. destruct Hs as (i & y & f & Hi & Hpend & _ & Hy & Hf & Hrun).
  change 0x20000000 with (2 ^ 29) in Hpend. rewrite Z.pow2_bits_eqb in Hpend by lia.
  apply Z.eqb_eq in Hpend as <-. change (Z.to_nat (32 * 0 + 29)) with 29%nat in *.
  rewrite Hx in Hy. injection Hy as <-. rewrite Hh in Hf. injection Hf as <-.
  change (32 * 0 + 29) with 29 in Hrun.
  assert (Hint : interrupt_with uart3_base (mk_line rx log dl en) bytes (mk_line [] log dl en)).
  { exists 0xc4, (mk_line rx log dl en). split_and!; [by destruct rx; [subst |] | done |].
    rewrite <- Hrx. apply (line_receives (mk_line rx log dl en)). by rewrite Hrx. }
  destruct (irqhandler_queue qs (mk_board (mk_line rx log dl en) t rs) 3 q 29 (λ _, dev) bytes _
    (length rx) Hqs Hq eq_refl Hint) as ([h' t1 r1] & Hrun' & Hqs' & Hhw & Htab); [by rewrite Hrx |].
  cbn [hw rx_fifo irq_handle_table] in *.
  assert (Hisr : ∀ p, run_handler dev irqhandler_address 29 p (mk_board (mk_line rx log dl en) t rs) =
    Ok (mk_board h' t1 r1)).
  { intros p. unfold run_handler. rewrite Z.eqb_refl. cbn [hw rx_fifo]. by rewrite Hrun'. }
  rewrite Hisr in Hrun.
  destruct Hrun as (t' & Ht' & -> & Hx' & _). cbn [mbind res_bind]. subst h'.
  eexists. split; [done |]. split_and!; [done | done | done |]. by eexists.
Qed.

Lemma line_up_delay d q t : line_up d q → line_up (uart_delay d t) (uart_delay q t).
Proof.
  intros [Hf Ho (qs & Hqs & Hq) (Hl & Hd & Hs) (He & Hbit) (Ht & Hx) (Hb & Hby)].
  cbn [uart_delay uart3_uart qmodem_uart]. unfold u3_delay. rewrite Hb.
  destruct (bursts q) as [| b bs] eqn:Ebs; [by split; rewrite ?Ebs; eauto |].
  apply Forall_cons in Hby as [Hb1 Hbs]. destruct d as [dev [[rx log dl en] t0 rs] bu].
  cbn [u3_dev u3_board u3_bursts hw rx_fifo tx_log dlab en0 irq_handle_table rings] in *. subst rx.
  unfold burst_arrives, arrive. cbn [hw rx_fifo tx_log dlab en0 irq_handle_table rings app].
  destruct b as [| c b].
  - cbn [or_else]. split; try done; cbn [u3_board waiting]; eauto.
  - destruct (take_interrupt_queue dev (mk_board (mk_line (c :: b) log dl en) t0 rs) qs _ (c :: b) Hqs Hq)
      as (s' & -> & Hqs' & Hhw & Ht' & Hx'); try done.
    cbn [or_else hw tx_log dlab en0] in *.
    split; try done; cbn [u3_dev u3_board u3_bursts waiting bursts sent]; rewrite ?Hhw; try done.
    exists (<[3%nat := pushes (waiting q) (c :: b)]> qs). split; [done |].
    apply list_lookup_insert_eq. by apply lookup_lt_Some in Hq.
Qed.

Lemma driver_simulates : simulates line_up.
Proof. split; [apply line_up_read | apply line_up_write | apply line_up_delay]. Qed.

(** ** From power-up *)

(** The controller after [rt_hw_interrupt_init], and no devices yet. *)
Definition boot_board : board line :=
  let '(table, h) := rt_hw_interrupt_init 0x80000f00 (mk_line [] [] false 0) in
  mk_board h table (replicate 12 ring_init).
Definition no_devices : namespace := mk_ns (mk_objs ∅ (λ _, [])) ∅ ∅.

(** [rt_hw_uart_com_init], and the start of [rt_run_example2_thread_entry]: it goes
    on when [uart3] is found and opened. *)
Definition nbiot_open (bs : list (list Z)) : res (option uart3) :=
  '(s, ns) ← rt_hw_uart_com_init id boot_board no_devices;
  match rt_device_find (lit "uart3") ns with
  | None => Ok None
  | Some x =>
      newdev ← of_option NullDeref (ns_devs ns !! x);
      '(iRet, dev, s) ← rt_device_open uart3_driver newdev
        (Z.lor RT_DEVICE_OFLAG_RDWR RT_DEVICE_FLAG_STREAM) s;
      Ok (if negb (iRet =? 0) then None else Some (mk_uart3 dev s bs))
  end.

Definition nbiot_run (n fuel : nat) (bs : list (list Z)) : res (option (at_state * uart3)) :=
  d ← nbiot_open bs;
  match d with
  | None => Ok None
  | Some d => '(s, d) ← at_rounds n fuel at_boot d; Ok (Some (s, d))
  end.

Definition opened_board : board line :=
  mk_board (mk_line [] [] false 0x20000000)
    (<[29%nat := mk_desc (Some irqhandler_address) 0 isr_name 0]>
      (replicate 160 (mk_desc (Some 0x80000f00) 0 [] 0)))
    (replicate 12 ring_init).
Lemma nbiot_open_board bs :
  nbiot_open bs = Ok (Some (mk_uart3 (mk_device 0x153 0x4b 1 None None) opened_board bs)).
Proof. vm_compute. reflexivity. Qed.

Lemma nbiot_open_ok bs : Forall (Forall byte_range) bs →
  ∃ d, nbiot_open bs = Ok (Some d) ∧ line_up d (mk_q [] bs []).
Proof.
  intros Hbs. rewrite nbiot_open_board. eexists. split; [reflexivity |].
  split; cbn [u3_dev u3_board u3_bursts waiting bursts sent opened_board hw irq_handle_table ref_count]; try done.
  - exists (replicate 12 []). split; [| done]. split; [done |]. apply Forall2_replicate, ring_is_init.
  - split; [| by eexists]. apply Interrupt.table_ok_insert; [| by eexists].
    split; [done |]. apply Forall_replicate. by eexists.
Qed.

(** What can be told apart from outside: the state, and the bytes sent. *)
Definition seen_run (r : res (option (at_state * uart3))) : res (option (at_state * list Z)) :=
  match r with
  | Ok (Some (s, d)) => Ok (Some (s, tx_log (hw (u3_board d))))
  | Ok None => Ok None
  | Stop w => Stop w
  end.
Definition seen_queue (r : res (at_state * qmodem)) : res (option (at_state * list Z)) :=
  match r with Ok (s, q) => Ok (Some (s, sent q)) | Stop w => Stop w end.

Lemma nbiot_run_seen n fuel bs :
  Forall (Forall byte_range) bs →
  seen_run (nbiot_run n fuel bs) = seen_queue (at_rounds n fuel at_boot (mk_q [] bs [])).
Proof.
  intros Hbs. destruct (nbiot_open_ok bs Hbs) as (d & Ho & HR). unfold nbiot_run. rewrite Ho.
  cbn [mbind res_bind]. pose proof (sim_at_rounds line_up driver_simulates n fuel at_boot _ _ HR) as H.
  unfold related in H. destruct (at_rounds _ _ _ d) as [[s d'] | w], (at_rounds _ _ _ (mk_q [] bs [])) as [[s' q] | w'];
    try done; [| by rewrite H].
  destruct H as [-> Hup]. cbn. do 3 f_equal. by apply (up_line _ _ Hup).
Qed.

(** C7. The application on the serial driver: [uart3] is registered, found and opens, and from then on the
    whole run of the AT machine (any number of rounds, any bursts from the modem)
    is the run on the queue: the same state and the same bytes sent, or the same
    stop, whatever goes through registers, interrupts, the dispatcher, the ring
    and the device framework. *)
Theorem application_over_driver n fuel bs :
  Forall (Forall byte_range) bs →
  seen_run (nbiot_run n fuel bs) = seen_queue (at_rounds n fuel at_boot (mk_q [] bs [])) ∧
  (∀ l b, (length l + length b <= 63)%nat → pushes l b = l ++ b).
Proof. intros Hbs. split; [by apply nbiot_run_seen | apply pushes_short]. Qed.

(** A burst of 64 bytes first, and no burst in its place: until it comes. *)
Definition differs (q q' : qmodem) : Prop :=
  q = q' ∨ ∃ b bs s, length b = 64%nat ∧ q = mk_q [] (b :: bs) s ∧ q' = mk_q [] ([] :: bs) s.

Lemma differs_simulates : simulates differs.
Proof.
  split.
  - intros d e n [-> | (b & bs & s & Hb & -> & ->)]; [split; [done | by left] |].
    cbn [uart_read qmodem_uart waiting bursts sent fst snd]. rewrite take_nil, drop_nil.
    split; [done |]. right. by exists b, bs, s.
  - intros d e c [-> | (b & bs & s & Hb & -> & ->)]; [by left |]. right. by exists b, bs, (s ++ (u8 <$> c)).
  - intros d e t [-> | (b & bs & s & Hb & -> & ->)]; left; [done |].
    cbn [uart_delay qmodem_uart waiting bursts sent]. f_equal. rewrite pushes_closed by (simpl; lia).
    simpl length. rewrite Hb. apply drop_ge. simpl. lia.
Qed.

(** An answer of 64 bytes that arrives in one burst is lost as a whole: the
    application cannot tell it from silence. *)
Theorem burst_of_64_is_lost n fuel b bs :
  length b = 64%nat → Forall byte_range b → Forall (Forall byte_range) bs →
  seen_run (nbiot_run n fuel (b :: bs)) = seen_run (nbiot_run n fuel ([] :: bs)).
Proof.
  intros Hl Hb Hbs. rewrite !nbiot_run_seen by (by constructor).
  assert (HR : differs (mk_q [] (b :: bs) []) (mk_q [] ([] :: bs) [])) by (right; by exists b, bs, []).
  pose proof (sim_at_rounds differs differs_simulates n fuel at_boot _ _ HR) as H. unfold related in H.
  destruct (at_rounds _ _ _ (mk_q [] (b :: bs) [])) as [[s q] | w],
    (at_rounds _ _ _ (mk_q [] ([] :: bs) [])) as [[s' q'] | w']; try done; [| by rewrite H].
  destruct H as [-> [-> | (? & ? & ? & _ & -> & ->)]]; done.
Qed.

(** The modem says [OK] to the first command; with 62 bytes before it nothing is
    heard, with 61 it is. *)
Definition echo (n : nat) : list (list Z) := [[]; replicate n 65 ++ lit "OK"; []; []].
Lemma application_over_driver_witness :
  seen_run (nbiot_run 2 6 (echo 61)) =
    Ok (Some (mk_at AT_CREATE_SOCKET SEND_TO_NBIOT 0 0 0, cmd_NCONFIG)) ∧
  seen_run (nbiot_run 2 6 (echo 61)) = seen_queue (at_rounds 2 6 at_boot (mk_q [] (echo 61) [])) ∧
  (∀ l b, (length l + length b <= 63)%nat → pushes l b = l ++ b).
Proof.
  split; [vm_compute; reflexivity |]. apply (application_over_driver 2 6 (echo 61)).
  unfold echo. repeat constructor; done.
Defined.

Lemma burst_of_64_is_lost_witness :
  let b := replicate 62 65 ++ lit "OK" in
  seen_run (nbiot_run 2 6 [b]) = seen_run (nbiot_run 2 6 [[]]) ∧ seen_run (nbiot_run 2 6 [b]) = Stop OutOfFuel ∧
  seen_run (nbiot_run 2 6 [[]; take 60 b; drop 60 b]) = Ok (Some (mk_at AT_CREATE_SOCKET SEND_TO_NBIOT 0 0 0, cmd_NCONFIG)).
Proof.
  intros b. split_and!; [| vm_compute; reflexivity | vm_compute; reflexivity].
  apply (burst_of_64_is_lost 2 6 b []); [reflexivity | | constructor].
  unfold b. repeat constructor; done.
Defined.
