(* ===== verification/FinshVm.v ===== *)
(** * The virtual machine of the finsh shell: [components/finsh/finsh_vm.c] and [finsh_ops.c]

    The machine has a stack of 64 unions [finsh_value] (a 32-bit cell each, of
    which a [char] or [short] access reads or writes the low byte or half: the
    LS1C is little-endian), a text segment of 128 bytes, and the two pointers
    [finsh_sp] and [finsh_pc], kept as indices.  The rest of memory is the
    byte-addressed memory of [KMemory]; the machine's own arrays are not in it.
    A function reached by [OP_call] is code outside the machine: the parameter
    [call] takes its address and the list of arguments it is passed. *)
From S2P Require Import Prelude KMemory.
Local Open Scope Z_scope.

Definition FINSH_STACK_MAX : Z := 64.
Definition FINSH_TEXT_MAX : Z := 128.

(** ** Fields of the unions: [char_value], [short_value], [long_value] *)
Inductive width := W8 | W16 | W32.
#[global] Instance width_eq_dec : EqDecision width.
Proof. solve_decision. Defined.

Definition modulus (w : width) : Z :=
  match w with W8 => 256 | W16 => 65536 | W32 => 4294967296 end.
Definition bytes_of (w : width) : Z := match w with W8 => 1 | W16 => 2 | W32 => 4 end.
(** Reading the field sign-extends it; [char] is signed. *)
Definition trunc (w : width) (c : Z) : Z :=
  match w with W8 => s8 c | W16 => s16 c | W32 => s32 c end.
(** Writing the field leaves the other bytes of the cell alone. *)
Definition put (w : width) (c v : Z) : Z := c - c `mod` modulus w + v `mod` modulus w.

(** ** Memory accesses through a pointer of each width *)
Definition aligned (w : width) (a : Z) : bool := a `mod` bytes_of w =? 0.

Definition read (w : width) (m : gmap Z Z) (a : Z) : res Z :=
  _ ← require Misaligned (aligned w a);
  match w with
  | W8 => load8 m a
  | W16 => b0 ← load8 m a; b1 ← load8 m (a + 1); Ok (b0 + 256 * b1)
  | W32 => load32 m a
  end.
Definition write (w : width) (m : gmap Z Z) (a v : Z) : res (gmap Z Z) :=
  _ ← require Misaligned (aligned w a);
  match w with
  | W8 => store8 m a v
  | W16 => m ← store8 m a v; store8 m (a + 1) (v / 256)
  | W32 => store32 m a v
  end.

(** ** C arithmetic on operands promoted to [int]

    Signed overflow and division by zero are undefined; a left shift keeps the
    low 32 bits and a right shift is arithmetic, as gcc defines them. *)
Definition c_int (z : Z) : res Z :=
  if (-2147483648 <=? z) && (z <=? 2147483647) then Ok z else Stop SignedOverflow.

Inductive binop := Add | Sub | Div | Mod | Mul | And | Or | Xor | Shl | Shr.

Definition c_binop (op : binop) (a b : Z) : res Z :=
  match op with
  | Add => c_int (a + b)
  | Sub => c_int (a - b)
  | Mul => c_int (a * b)
  | Div => _ ← require BadArith (negb (b =? 0)); c_int (Z.quot a b)
  | Mod => _ ← require BadArith (negb (b =? 0)); _ ← c_int (Z.quot a b); Ok (Z.rem a b)
  | And => Ok (Z.land a b)
  | Or => Ok (Z.lor a b)
  | Xor => Ok (Z.lxor a b)
  | Shl => _ ← require BadArith ((0 <=? b) && (b <? 32)); Ok (s32 (Z.shiftl a b))
  | Shr => _ ← require BadArith ((0 <=? b) && (b <? 32)); Ok (Z.shiftr a b)
  end.

(** ** The state of the machine *)
Record vm := mk_vm {
  finsh_vm_stack : list Z;
  text_segment : list Z;
  finsh_sp : Z;
  finsh_pc : Z;
  vm_mem : gmap Z Z;
}.

Definition with_sp (v : Z) (s : vm) : vm :=
  mk_vm (finsh_vm_stack s) (text_segment s) v (finsh_pc s) (vm_mem s).
Definition with_pc (v : Z) (s : vm) : vm :=
  mk_vm (finsh_vm_stack s) (text_segment s) (finsh_sp s) v (vm_mem s).
Definition with_mem (m : gmap Z Z) (s : vm) : vm :=
  mk_vm (finsh_vm_stack s) (text_segment s) (finsh_sp s) (finsh_pc s) m.
Definition with_stack (l : list Z) (s : vm) : vm :=
  mk_vm l (text_segment s) (finsh_sp s) (finsh_pc s) (vm_mem s).

(** The cell at an index of the stack, and the byte at an index of the text. *)
Definition cell (s : vm) (i : Z) : res Z :=
  _ ← require OutOfBounds (0 <=? i); of_option OutOfBounds (finsh_vm_stack s !! Z.to_nat i).
Definition set_cell (i v : Z) (s : vm) : res vm :=
  _ ← cell s i; Ok (with_stack (<[Z.to_nat i := v]> (finsh_vm_stack s)) s).
(** [p->field = v] *)
Definition set_field (w : width) (i v : Z) (s : vm) : res vm :=
  c ← cell s i; set_cell i (put w c v) s.
(** [p->field] *)
Definition field (w : width) (i : Z) (s : vm) : res Z := c ← cell s i; Ok (trunc w c).

Definition text_at (s : vm) (i : Z) : res Z :=
  _ ← require OutOfBounds (0 <=? i); of_option OutOfBounds (text_segment s !! Z.to_nat i).
Definition FINSH_GET16 (s : vm) (x : Z) : res Z :=
  b0 ← text_at s x; b1 ← text_at s (x + 1); Ok (Z.lor b0 (Z.shiftl b1 8)).
Definition FINSH_GET32 (s : vm) (x : Z) : res Z :=
  b0 ← text_at s x; b1 ← text_at s (x + 1); b2 ← text_at s (x + 2); b3 ← text_at s (x + 3);
  Ok (Z.lor (Z.lor (Z.lor b0 (Z.shiftl b1 8)) (Z.shiftl b2 16)) (Z.shiftl b3 24)).

(** ** The operations of [finsh_ops.c] *)
Definition OP_BIN (w : width) (x : binop) (s : vm) : res vm :=
  a ← field w (finsh_sp s - 2) s;
  b ← field w (finsh_sp s - 1) s;
  r ← c_binop x a b;
  s ← set_field w (finsh_sp s - 2) r s;
  Ok (with_sp (finsh_sp s - 1) s).
Definition OP_BIN_BYTE (x : binop) : vm → res vm := OP_BIN W8 x.
Definition OP_BIN_WORD (x : binop) : vm → res vm := OP_BIN W16 x.
Definition OP_BIN_DWORD (x : binop) : vm → res vm := OP_BIN W32 x.

Definition OP_no_op (s : vm) : res vm := Ok s.

Definition OP_add_byte := OP_BIN_BYTE Add.
Definition OP_add_word := OP_BIN_WORD Add.
Definition OP_add_dword := OP_BIN_DWORD Add.
Definition OP_sub_byte := OP_BIN_BYTE Sub.
Definition OP_sub_word := OP_BIN_WORD Sub.
Definition OP_sub_dword := OP_BIN_DWORD Sub.
Definition OP_div_byte := OP_BIN_BYTE Div.
Definition OP_div_word := OP_BIN_WORD Div.
Definition OP_div_dword := OP_BIN_DWORD Div.
Definition OP_mod_byte := OP_BIN_BYTE Mod.
Definition OP_mod_word := OP_BIN_WORD Mod.
Definition OP_mod_dword := OP_BIN_DWORD Mod.
Definition OP_mul_byte := OP_BIN_BYTE Mul.
Definition OP_mul_word := OP_BIN_WORD Mul.
Definition OP_mul_dword := OP_BIN_DWORD Mul.
Definition OP_and_byte := OP_BIN_BYTE And.
Definition OP_and_word := OP_BIN_WORD And.
Definition OP_and_dword := OP_BIN_DWORD And.
Definition OP_or_byte := OP_BIN_BYTE Or.
Definition OP_or_word := OP_BIN_WORD Or.
Definition OP_or_dword := OP_BIN_DWORD Or.
Definition OP_xor_byte := OP_BIN_BYTE Xor.
Definition OP_xor_word := OP_BIN_WORD Xor.
Definition OP_xor_dword := OP_BIN_DWORD Xor.
Definition OP_shl_byte := OP_BIN_BYTE Shl.
Definition OP_shl_word := OP_BIN_WORD Shl.
Definition OP_shl_dword := OP_BIN_DWORD Shl.
Definition OP_shr_byte := OP_BIN_BYTE Shr.
Definition OP_shr_word := OP_BIN_WORD Shr.
Definition OP_shr_dword := OP_BIN_DWORD Shr.

(** [(finsh_sp - 1)->field = ~ ((finsh_sp - 1)->field)] *)
Definition OP_bw (w : width) (s : vm) : res vm :=
  a ← field w (finsh_sp s - 1) s; set_field w (finsh_sp s - 1) (Z.lnot a) s.
Definition OP_bw_byte := OP_bw W8.
Definition OP_bw_word := OP_bw W16.
Definition OP_bw_dword := OP_bw W32.

Definition OP_ld_byte (s : vm) : res vm :=
  v ← text_at s (finsh_pc s);
  s ← set_field W8 (finsh_sp s) v s;
  Ok (with_pc (finsh_pc s + 1) (with_sp (finsh_sp s + 1) s)).
Definition OP_ld_word (s : vm) : res vm :=
  v ← FINSH_GET16 s (finsh_pc s);
  s ← set_field W16 (finsh_sp s) v s;
  Ok (with_pc (finsh_pc s + 2) (with_sp (finsh_sp s + 1) s)).
Definition OP_ld_dword (s : vm) : res vm :=
  v ← FINSH_GET32 s (finsh_pc s);
  s ← set_field W32 (finsh_sp s) v s;
  Ok (with_pc (finsh_pc s + 4) (with_sp (finsh_sp s + 1) s)).

(** The three pairs of load functions differ in the width of the pointer. *)
Definition OP_ld_value (w : width) (s : vm) : res vm :=
  c ← FINSH_GET32 s (finsh_pc s);
  v ← read w (vm_mem s) c;
  s ← set_field w (finsh_sp s) v s;
  Ok (with_pc (finsh_pc s + 4) (with_sp (finsh_sp s + 1) s)).
Definition OP_ld_value_byte := OP_ld_value W8.
Definition OP_ld_value_word := OP_ld_value W16.
Definition OP_ld_value_dword := OP_ld_value W32.

Definition OP_ld_value_stack (w : width) (s : vm) : res vm :=
  c ← cell s (finsh_sp s - 1);
  v ← read w (vm_mem s) c;
  set_field w (finsh_sp s - 1) v s.
Definition OP_ld_value_byte_stack := OP_ld_value_stack W8.
Definition OP_ld_value_word_stack := OP_ld_value_stack W16.
Definition OP_ld_value_dword_stack := OP_ld_value_stack W32.

Definition OP_st (w : width) (s : vm) : res vm :=
  a ← cell s (finsh_sp s - 2);
  v ← field w (finsh_sp s - 1) s;
  m ← write w (vm_mem s) a v;
  Ok (with_sp (finsh_sp s - 1) (with_mem m s)).
Definition OP_st_byte := OP_st W8.
Definition OP_st_word := OP_st W16.
Definition OP_st_dword := OP_st W32.

Definition OP_pop (s : vm) : res vm := Ok (with_sp (finsh_sp s - 1) s).

(** The loop of [OP_call]: the parameter at the top of the stack is the last. *)
Fixpoint pop_parameters (n : nat) (s : vm) (parameterv : list Z) : res (vm * list Z) :=
  match n with
  | O => Ok (s, parameterv)
  | S n =>
      v ← cell s (finsh_sp s);
      pop_parameters n (with_sp (finsh_sp s - 1) s) (v :: parameterv)
  end.

Section machine.
(** [f(parameterv ...)]: the function at an address applied to arguments. *)
Context (call : Z → list Z → gmap Z Z → res (Z * gmap Z Z)).

(** A call without parameters passes one argument, 0.  More than 16 would leave
    [parameterv]. *)
Definition OP_call (s : vm) : res vm :=
  parameters ← text_at s (finsh_pc s);
  let s := with_pc (finsh_pc s + 1) s in
  _ ← require OutOfBounds (parameters <=? 16);
  '(s, parameterv) ← pop_parameters (Z.to_nat parameters) (with_sp (finsh_sp s - 1) s) [];
  f ← cell s (finsh_sp s);
  '(r, m) ← call f (if parameters =? 0 then [0] else parameterv) (vm_mem s);
  s ← set_field W32 (finsh_sp s) r (with_mem m s);
  Ok (with_sp (finsh_sp s + 1) s).

Definition op_table : list (option (vm → res vm)) :=
  [ Some OP_no_op;
    Some OP_add_byte; Some OP_add_word; Some OP_add_dword;
    Some OP_sub_byte; Some OP_sub_word; Some OP_sub_dword;
    Some OP_div_byte; Some OP_div_word; Some OP_div_dword;
    Some OP_mod_byte; Some OP_mod_word; Some OP_mod_dword;
    Some OP_mul_byte; Some OP_mul_word; Some OP_mul_dword;
    Some OP_and_byte; Some OP_and_word; Some OP_and_dword;
    Some OP_or_byte; Some OP_or_word; Some OP_or_dword;
    Some OP_xor_byte; Some OP_xor_word; Some OP_xor_dword;
    Some OP_bw_byte; Some OP_bw_word; Some OP_bw_dword;
    Some OP_shl_byte; Some OP_shl_word; Some OP_shl_dword;
    Some OP_shr_byte; Some OP_shr_word; Some OP_shr_dword;
    Some OP_ld_byte; Some OP_ld_word; Some OP_ld_dword;
    Some OP_ld_value_byte; Some OP_ld_value_word; Some OP_ld_value_dword;
    Some OP_st_byte; Some OP_st_word; Some OP_st_dword;
    Some OP_pop; Some OP_call;
    Some OP_ld_value_byte_stack; Some OP_ld_value_word_stack; Some OP_ld_value_dword_stack;
    None ].

(** [op_table[op]()]: the last entry is [NULL], and there is nothing beyond it. *)
Definition dispatch (op : Z) (s : vm) : res vm :=
  match op_table !! Z.to_nat op with
  | Some (Some f) => f s
  | Some None => Stop NullDeref
  | None => Stop OutOfBounds
  end.

(** One turn of the loop of [finsh_vm_run]. *)
Definition vm_step (s : vm) : res vm :=
  op ← text_at s (finsh_pc s); dispatch op (with_pc (finsh_pc s + 1) s).

Definition in_text (pc : Z) : bool := (pc >=? 0) && (pc <? FINSH_TEXT_MAX).

Fixpoint vm_loop (fuel : nat) (s : vm) : res vm :=
  if in_text (finsh_pc s) then
    match fuel with
    | O => Stop OutOfFuel
    | S fuel => s ← vm_step s; vm_loop fuel s
    end
  else Ok s.

(** No operation moves [finsh_pc] backwards, so 128 turns are enough. *)
Definition finsh_vm_run (s : vm) : res vm :=
  vm_loop (Z.to_nat FINSH_TEXT_MAX) (with_pc 0 (with_sp 0 s)).
End machine.

Definition finsh_stack_bottom (s : vm) : res Z := field W32 0 s.

(** ** Fields and cells *)
Definition cell_ok (c : Z) : Prop := 0 <= c < 4294967296.

Lemma modulus_pos w : 0 < modulus w.
Proof. by destruct w. Qed.

Lemma put_range w c v : cell_ok c → cell_ok (put w c v).
Proof. unfold cell_ok, put. destruct w; simpl; intros ?; lia. Qed.

Lemma put_mod w c v : put w c v `mod` modulus w = v `mod` modulus w.
Proof. unfold put. destruct w; simpl; lia. Qed.

Lemma put_dword c v : cell_ok c → put W32 c v = u32 v.
Proof. unfold cell_ok, put, u32. simpl. intros ?. lia. Qed.

(** A field depends only on the bytes it covers. *)
Lemma trunc_mod w a b : a `mod` modulus w = b `mod` modulus w → trunc w a = trunc w b.
Proof. destruct w; simpl; unfold s8, s16, s32, u8, u16, u32; by intros ->. Qed.

Lemma mod_trunc w a : trunc w a `mod` modulus w = a `mod` modulus w.
Proof. destruct w; simpl; word. Qed.

Lemma trunc_idem w a : trunc w (trunc w a) = trunc w a.
Proof. apply trunc_mod, mod_trunc. Qed.

Lemma trunc_put w c v : trunc w (put w c v) = trunc w v.
Proof. apply trunc_mod, put_mod. Qed.

Lemma trunc_range w a : - (modulus w / 2) <= trunc w a < modulus w / 2.
Proof. destruct w; simpl; word. Qed.

(** ** Well-formed machines *)
Record vm_ok (s : vm) : Prop := {
  vm_stack_length : Z.of_nat (length (finsh_vm_stack s)) = FINSH_STACK_MAX;
  vm_stack_cells : Forall cell_ok (finsh_vm_stack s);
  vm_text_length : Z.of_nat (length (text_segment s)) = FINSH_TEXT_MAX;
}.

(** What an operation may not do: move [finsh_pc] back, change the text, or
    spoil the stack. *)
Record op_step (s s' : vm) : Prop := {
  op_pc : finsh_pc s <= finsh_pc s';
  op_text : text_segment s' = text_segment s;
  op_vm_ok : vm_ok s → vm_ok s';
}.

Lemma op_step_refl s s' :
  finsh_pc s <= finsh_pc s' → text_segment s' = text_segment s →
  finsh_vm_stack s' = finsh_vm_stack s → op_step s s'.
Proof.
  intros Hpc Ht Hs. split; [done | done |].
  intros [? ? ?]. by split; rewrite ?Hs, ?Ht.
Qed.

#[global] Instance op_step_trans : Transitive op_step.
Proof. intros a b c [] []. split; [lia | congruence | auto]. Qed.

Lemma cell_Some s i c :
  cell s i = Ok c ↔ 0 <= i ∧ finsh_vm_stack s !! Z.to_nat i = Some c.
Proof.
  unfold cell, require. destruct (0 <=? i) eqn:E; simpl.
  - rewrite of_option_ok. apply Z.leb_le in E. tauto.
  - apply Z.leb_gt in E. split; [done | lia].
Qed.

Lemma set_field_step w i v s s' :
  set_field w i v s = Ok s' → op_step s s'.
Proof.
  unfold set_field, set_cell. intros H. res_inv H. simplify_eq.
  split; simpl; [lia | done |]. intros [Hl Hc Ht].
  apply cell_Some in E as [? E].
  split; simpl; rewrite ?length_insert; try done.
  apply Forall_insert; [done |]. apply put_range. by eapply Forall_lookup_1.
Qed.

Lemma op_step_after s s1 s2 :
  op_step s s1 → finsh_pc s1 <= finsh_pc s2 → text_segment s2 = text_segment s1 →
  finsh_vm_stack s2 = finsh_vm_stack s1 → op_step s s2.
Proof. intros ? ? ? ?. etrans; [done | by apply op_step_refl]. Qed.

Lemma set_field_pc w i v s s' : set_field w i v s = Ok s' → finsh_pc s' = finsh_pc s.
Proof. unfold set_field, set_cell. intros H. res_inv H. by simplify_eq. Qed.

(** [res_inv] that stops at the names of operations. *)
Ltac bind_inv H := repeat match type of H with mbind _ _ = _ => res_inv1 H end.

Ltac op_solve :=
  intros H; unfold OP_no_op, OP_pop, OP_BIN_BYTE, OP_BIN_WORD, OP_BIN_DWORD in *;
  bind_inv H; simplify_eq/=;
  repeat match goal with
    | E : set_field _ _ _ _ = Ok _ |- _ =>
        pose proof (set_field_pc _ _ _ _ _ E); apply set_field_step in E
    end;
  first [ done
        | by apply op_step_refl; simpl; try lia
        | eapply op_step_after; [eassumption | simpl; lia | done | done] ].

Lemma OP_BIN_step w x s s' : OP_BIN w x s = Ok s' → op_step s s'.
Proof. unfold OP_BIN. op_solve. Qed.
Lemma OP_bw_step w s s' : OP_bw w s = Ok s' → op_step s s'.
Proof. unfold OP_bw. op_solve. Qed.
Lemma OP_ld_byte_step s s' : OP_ld_byte s = Ok s' → op_step s s'.
Proof. unfold OP_ld_byte. op_solve. Qed.
Lemma OP_ld_word_step s s' : OP_ld_word s = Ok s' → op_step s s'.
Proof. unfold OP_ld_word. op_solve. Qed.
Lemma OP_ld_dword_step s s' : OP_ld_dword s = Ok s' → op_step s s'.
Proof. unfold OP_ld_dword. op_solve. Qed.
Lemma OP_ld_value_step w s s' : OP_ld_value w s = Ok s' → op_step s s'.
Proof. unfold OP_ld_value. op_solve. Qed.
Lemma OP_ld_value_stack_step w s s' : OP_ld_value_stack w s = Ok s' → op_step s s'.
Proof. unfold OP_ld_value_stack. op_solve. Qed.
Lemma OP_st_step w s s' : OP_st w s = Ok s' → op_step s s'.
Proof. unfold OP_st. op_solve. Qed.
Lemma OP_pop_step s s' : OP_pop s = Ok s' → op_step s s'.
Proof. unfold OP_pop. op_solve. Qed.
Lemma OP_no_op_step s s' : OP_no_op s = Ok s' → op_step s s'.
Proof. op_solve. Qed.

Lemma pop_parameters_step n s l s' l' :
  pop_parameters n s l = Ok (s', l') →
  op_step s s' ∧ finsh_pc s' = finsh_pc s ∧ vm_mem s' = vm_mem s.
Proof.
  revert s l. induction n as [| n IH]; intros s l H; simpl in H.
  - simplify_eq. split; [by apply op_step_refl | done].
  - res_inv1 H. apply IH in H as (Hs & ? & ?). split; [| done].
    etrans; [by apply (op_step_refl s (with_sp (finsh_sp s - 1) s)) | exact Hs].
Qed.

Section machine_props.
Context (call : Z → list Z → gmap Z Z → res (Z * gmap Z Z)).

Lemma OP_call_step s s' : OP_call call s = Ok s' → op_step s s'.
Proof.
  unfold OP_call. intros H. do 2 res_inv1 H. res_inv1 H. destruct r1 as [s1 l1].
  res_inv1 H. res_inv1 H. destruct r2 as [v m]. res_inv1 H. simplify_eq.
  apply pop_parameters_step in E1 as (Hs & Hpc & _); simpl in Hpc.
  pose proof (set_field_pc _ _ _ _ _ E4) as Hpc'. simpl in Hpc'.
  apply set_field_step in E4.
  etrans; [by apply (op_step_refl s (with_sp (finsh_sp s - 1) (with_pc (finsh_pc s + 1) s)));
    simpl; try lia |].
  etrans; [exact Hs |].
  etrans; [by apply (op_step_refl s1 (with_mem m s1)) |].
  eapply op_step_after; [exact E4 | simpl; lia | done | done].
Qed.

Lemma dispatch_step op s s' : dispatch call op s = Ok s' → op_step s s'.
Proof.
  assert (Hall : Forall (λ o, ∀ f s s', o = Some f → f s = Ok s' → op_step s s') (op_table call)).
  { unfold op_table. repeat apply Forall_cons_2; try apply Forall_nil_2;
      intros f t t' Hf; [simplify_eq ..].
    all: try discriminate.
    all: eauto using OP_no_op_step, OP_BIN_step, OP_bw_step, OP_ld_byte_step, OP_ld_word_step,
      OP_ld_dword_step, OP_ld_value_step, OP_ld_value_stack_step, OP_st_step, OP_pop_step,
      OP_call_step. }
  unfold dispatch. destruct (op_table call !! Z.to_nat op) as [[f|]|] eqn:E; try done.
  apply (Forall_lookup_1 _ _ _ _ Hall E f s s' eq_refl).
Qed.
End machine_props.

(** ** Running out of fuel is not an outcome *)
Definition no_fuel {A} (m : res A) : Prop := m ≠ Stop OutOfFuel.

Lemma no_fuel_ok {A} (a : A) : no_fuel (Ok a).
Proof. done. Qed.
Lemma no_fuel_bind {A B} (m : res A) (f : A → res B) :
  no_fuel m → (∀ a, no_fuel (f a)) → no_fuel (m ≫= f).
Proof. unfold no_fuel. destruct m; simpl; [auto | congruence]. Qed.
Lemma no_fuel_require w b : w ≠ OutOfFuel → no_fuel (require w b).
Proof. unfold no_fuel, require. destruct b; congruence. Qed.
Lemma no_fuel_of_option {A} w (o : option A) : w ≠ OutOfFuel → no_fuel (of_option w o).
Proof. unfold no_fuel. destruct o; simpl; congruence. Qed.

Create HintDb no_fuel.
#[export] Hint Resolve no_fuel_ok no_fuel_bind no_fuel_require no_fuel_of_option : no_fuel.
#[export] Hint Extern 1 (_ ≠ OutOfFuel) => discriminate : no_fuel.
#[export] Hint Extern 1 (no_fuel (Stop _)) => (intros ?; discriminate) : no_fuel.

Ltac no_fuel_tac :=
  repeat match goal with
    | |- no_fuel (mbind _ _) => apply no_fuel_bind; [| intros ?]
    | |- no_fuel (let '(_, _) := ?p in _) => destruct p
    | |- no_fuel (match ?w with W8 => _ | W16 => _ | W32 => _ end) => destruct w
    | |- no_fuel (if ?b then _ else _) => destruct b
    end; auto with no_fuel.

Lemma no_fuel_cell s i : no_fuel (cell s i).
Proof. unfold cell. no_fuel_tac. Qed.
Lemma no_fuel_text_at s i : no_fuel (text_at s i).
Proof. unfold text_at. no_fuel_tac. Qed.
#[export] Hint Resolve no_fuel_cell no_fuel_text_at : no_fuel.
Lemma no_fuel_GET16 s x : no_fuel (FINSH_GET16 s x).
Proof. unfold FINSH_GET16. no_fuel_tac. Qed.
Lemma no_fuel_GET32 s x : no_fuel (FINSH_GET32 s x).
Proof. unfold FINSH_GET32. no_fuel_tac. Qed.
Lemma no_fuel_field w i s : no_fuel (field w i s).
Proof. unfold field. no_fuel_tac. Qed.
Lemma no_fuel_set_field w i v s : no_fuel (set_field w i v s).
Proof. unfold set_field, set_cell. no_fuel_tac. Qed.
Lemma no_fuel_load8 m a : no_fuel (load8 m a).
Proof. unfold load8. no_fuel_tac. Qed.
Lemma no_fuel_store8 m a v : no_fuel (store8 m a v).
Proof. unfold store8, load8. no_fuel_tac. Qed.
#[export] Hint Resolve no_fuel_GET16 no_fuel_GET32 no_fuel_field no_fuel_set_field
  no_fuel_load8 no_fuel_store8 : no_fuel.
Lemma no_fuel_read w m a : no_fuel (read w m a).
Proof. unfold read, load32. no_fuel_tac. Qed.
Lemma no_fuel_write w m a v : no_fuel (write w m a v).
Proof. unfold write, store32. no_fuel_tac. Qed.
Lemma no_fuel_c_int z : no_fuel (c_int z).
Proof. unfold c_int. no_fuel_tac. Qed.
#[export] Hint Resolve no_fuel_read no_fuel_write no_fuel_c_int : no_fuel.
Lemma no_fuel_binop x a b : no_fuel (c_binop x a b).
Proof. destruct x; simpl; no_fuel_tac. Qed.
#[export] Hint Resolve no_fuel_binop : no_fuel.
Lemma no_fuel_pop n s l : no_fuel (pop_parameters n s l).
Proof. revert s l. induction n; intros; simpl; no_fuel_tac. Qed.
#[export] Hint Resolve no_fuel_pop : no_fuel.

Lemma no_fuel_OP_BIN w x s : no_fuel (OP_BIN w x s).
Proof. unfold OP_BIN. no_fuel_tac. Qed.
Lemma no_fuel_OP_bw w s : no_fuel (OP_bw w s).
Proof. unfold OP_bw. no_fuel_tac. Qed.
Lemma no_fuel_OP_ld_byte s : no_fuel (OP_ld_byte s).
Proof. unfold OP_ld_byte. no_fuel_tac. Qed.
Lemma no_fuel_OP_ld_word s : no_fuel (OP_ld_word s).
Proof. unfold OP_ld_word. no_fuel_tac. Qed.
Lemma no_fuel_OP_ld_dword s : no_fuel (OP_ld_dword s).
Proof. unfold OP_ld_dword. no_fuel_tac. Qed.
Lemma no_fuel_OP_ld_value w s : no_fuel (OP_ld_value w s).
Proof. unfold OP_ld_value. no_fuel_tac. Qed.
Lemma no_fuel_OP_ld_value_stack w s : no_fuel (OP_ld_value_stack w s).
Proof. unfold OP_ld_value_stack. no_fuel_tac. Qed.
Lemma no_fuel_OP_st w s : no_fuel (OP_st w s).
Proof. unfold OP_st. no_fuel_tac. Qed.

Lemma text_at_Some s i op :
  text_at s i = Ok op ↔ 0 <= i ∧ text_segment s !! Z.to_nat i = Some op.
Proof.
  unfold text_at, require. destruct (0 <=? i) eqn:E; simpl.
  - rewrite of_option_ok. apply Z.leb_le in E. tauto.
  - apply Z.leb_gt in E. split; [done | lia].
Qed.

Lemma in_text_spec pc : in_text pc = true ↔ 0 <= pc < FINSH_TEXT_MAX.
Proof. unfold in_text, FINSH_TEXT_MAX. rewrite andb_true_iff. lia. Qed.

Section run.
Context (call : Z → list Z → gmap Z Z → res (Z * gmap Z Z)).

Lemma no_fuel_OP_call s : (∀ f args m, no_fuel (call f args m)) → no_fuel (OP_call call s).
Proof. intros Hcall. unfold OP_call. cbv zeta. no_fuel_tac. Qed.

Lemma no_fuel_dispatch op s :
  (∀ f args m, no_fuel (call f args m)) → no_fuel (dispatch call op s).
Proof.
  intros Hcall.
  assert (Hall : Forall (λ o, ∀ f s, o = Some f → no_fuel (f s)) (op_table call)).
  { unfold op_table. repeat apply Forall_cons_2; try apply Forall_nil_2;
      intros f t Hf; [simplify_eq ..].
    all: try discriminate.
    all: eauto using no_fuel_ok, no_fuel_OP_BIN, no_fuel_OP_bw, no_fuel_OP_ld_byte,
      no_fuel_OP_ld_word, no_fuel_OP_ld_dword, no_fuel_OP_ld_value, no_fuel_OP_ld_value_stack,
      no_fuel_OP_st, no_fuel_OP_call. }
  unfold dispatch. destruct (op_table call !! Z.to_nat op) as [[f|]|] eqn:E; try done.
  apply (Forall_lookup_1 _ _ _ _ Hall E f s eq_refl).
Qed.

Lemma vm_step_ok s s' :
  vm_step call s = Ok s' →
  op_step s s' ∧ finsh_pc s < finsh_pc s'.
Proof.
  unfold vm_step. intros H. res_inv1 H. apply dispatch_step in H.
  pose proof (op_pc _ _ H). simpl in *. split; [| lia].
  etrans; [by apply (op_step_refl s (with_pc (finsh_pc s + 1) s)); simpl; try lia | done].
Qed.

Lemma vm_loop_fuel f1 f2 s :
  FINSH_TEXT_MAX - finsh_pc s <= Z.of_nat f1 → FINSH_TEXT_MAX - finsh_pc s <= Z.of_nat f2 →
  vm_loop call f1 s = vm_loop call f2 s.
Proof.
  revert f2 s. induction f1 as [| f1 IH]; intros f2 s H1 H2;
    destruct (in_text (finsh_pc s)) eqn:E.
  - apply in_text_spec in E. lia.
  - destruct f2; simpl; by rewrite E.
  - destruct f2 as [| f2]; simpl; rewrite E; [apply in_text_spec in E; lia |].
    destruct (vm_step call s) as [s'|] eqn:Es; simpl; [| done].
    apply vm_step_ok in Es as [_ ?]. apply IH; lia.
  - destruct f2; simpl; by rewrite E.
Qed.

(** The machine running from where it is, without fuel. *)
Definition run (s : vm) : res vm := vm_loop call (Z.to_nat (FINSH_TEXT_MAX - finsh_pc s)) s.

Lemma run_step s : in_text (finsh_pc s) = true → run s = vm_step call s ≫= run.
Proof.
  intros E. pose proof (proj1 (in_text_spec _) E) as Hpc. unfold run at 1.
  destruct (Z.to_nat (FINSH_TEXT_MAX - finsh_pc s)) as [| f] eqn:Ef; [lia |].
  simpl. rewrite E. destruct (vm_step call s) as [s'|] eqn:Es; simpl; [| done].
  apply vm_step_ok in Es as [_ ?]. apply vm_loop_fuel; lia.
Qed.

Lemma run_end s : in_text (finsh_pc s) = false → run s = Ok s.
Proof. intros E. unfold run. destruct (Z.to_nat _); simpl; by rewrite E. Qed.

Lemma finsh_vm_run_eq s : finsh_vm_run call s = run (with_pc 0 (with_sp 0 s)).
Proof. apply vm_loop_fuel; simpl; unfold FINSH_TEXT_MAX; lia. Qed.

Lemma no_fuel_run n s :
  (∀ f args m, no_fuel (call f args m)) →
  Z.to_nat (FINSH_TEXT_MAX - finsh_pc s) = n → no_fuel (run s).
Proof.
  intros Hcall. revert s. induction (lt_wf n) as [n _ IH]. intros s Hn.
  destruct (in_text (finsh_pc s)) eqn:E; [| by rewrite run_end].
  rewrite run_step by done. destruct (vm_step call s) as [s'|w] eqn:Es; simpl.
  - apply vm_step_ok in Es as [_ ?]. apply in_text_spec in E. eapply IH; [| done]. lia.
  - intros ?. simplify_eq. revert Es. unfold vm_step. change (no_fuel (text_at s (finsh_pc s) ≫=
      λ op, dispatch call op (with_pc (finsh_pc s + 1) s))).
    apply no_fuel_bind; [auto with no_fuel | intros ?; by apply no_fuel_dispatch].
Qed.

(** Turns of the loop. *)
Inductive turns : nat → vm → vm → Prop :=
  | turns_none s : turns 0 s s
  | turns_more n s s1 s2 : in_text (finsh_pc s) = true → vm_step call s = Ok s1 → turns n s1 s2 → turns (S n) s s2.

Lemma turns_step n s t : turns n s t → op_step s t ∧ finsh_pc s + Z.of_nat n <= finsh_pc t.
Proof.
  induction 1 as [s | n s s1 s2 _ Hs _ [IH1 IH2]]; [split; [by apply op_step_refl | lia] |].
  apply vm_step_ok in Hs as [Hs Hpc]. split; [by etrans | lia].
Qed.

(** All turns but the last begin and end inside the text. *)
Lemma turns_inside n s t : turns (S n) s t → ∃ u, turns n s u ∧ in_text (finsh_pc u) = true.
Proof.
  revert s. induction n as [|n IH]; intros s H; inversion H as [|? ? s1 ? E Es Ht]; subst.
  - exists s. split; [constructor | done].
  - destruct (IH _ Ht) as (u & Hu & Hi). exists u. split; [by econstructor | done].
Qed.

Lemma turns_bound n s t : 0 <= finsh_pc s → turns n s t → (n <= 128)%nat.
Proof.
  intros Hs H. destruct n as [|n]; [lia |]. apply turns_inside in H as (u & Hu & Hi).
  apply turns_step in Hu as [_ Hu]. apply in_text_spec in Hi. unfold FINSH_TEXT_MAX in Hi. lia.
Qed.

(** What the loop comes to from [s]: [n] turns lead to [t], which is either
    outside the text, or where an operation goes wrong. *)
Definition comes_to (s : vm) (n : nat) (t : vm) (r : res vm) : Prop :=
  turns n s t ∧
  ((in_text (finsh_pc t) = false ∧ r = Ok t) ∨
   (in_text (finsh_pc t) = true ∧ ∃ w, vm_step call t = Stop w ∧ r = Stop w)).

Lemma run_comes_to s : ∃ n t, comes_to s n t (run s).
Proof.
  remember (Z.to_nat (FINSH_TEXT_MAX - finsh_pc s)) as k eqn:Hk. revert s Hk.
  induction (lt_wf k) as [k _ IH]. intros s ->.
  destruct (in_text (finsh_pc s)) eqn:E.
  - rewrite run_step by done. destruct (vm_step call s) as [s'|w] eqn:Es; simpl.
    + pose proof (vm_step_ok _ _ Es) as [_ ?]. apply in_text_spec in E as ?.
      destruct (IH (Z.to_nat (FINSH_TEXT_MAX - finsh_pc s'))) with (s := s') as (n & t & Ht & Hr); [lia | done |].
      exists (S n), t. split; [by econstructor | done].
    + exists O, s. split; [constructor |]. right. eauto.
  - rewrite run_end by done. exists O, s. split; [constructor | by left].
Qed.
End run.


(** A machine with a zeroed text segment, and a function that returns 1. *)
Definition zero_vm : vm := mk_vm (replicate 64 0) (replicate 128 0) 5 7 ∅.
Definition call_one (_ : Z) (_ : list Z) (m : gmap Z Z) : res (Z * gmap Z Z) := Ok (1, m).

(** It runs through its 128 [OP_no_op]s; with byte 48 in front it does not return. *)
Example zero_vm_runs : finsh_vm_run call_one zero_vm = Ok (with_pc 128 (with_sp 0 zero_vm)).
Proof. vm_compute. reflexivity. Qed.
Example byte_48 : finsh_vm_run call_one (mk_vm (replicate 64 0) (<[0%nat := 48]> (replicate 128 0)) 0 0 ∅) = Stop NullDeref.
Proof. vm_compute. reflexivity. Qed.
