(* ===== verification/FinshExec.v ===== *)
(** * Running byte code of the finsh machine

    The lemmas by which a proof follows the machine over a piece of code: where
    the code is ([code_at]), what the machine's state is ([st]: the live part of
    the stack, memory, program counter), what each operation of [FinshVm] does
    to it, and how outcomes compose ([runs]). *)
From S2P Require Import Prelude KMemory FinshVm.
Local Open Scope Z_scope.

(** ** The state while running *)
Record st (T : list Z) (s : vm) (l : list Z) (m : gmap Z Z) (p : Z) : Prop := {
  st_ok : vm_ok s;
  st_sp : finsh_sp s = Z.of_nat (length l);
  st_live : take (length l) (finsh_vm_stack s) = l;
  st_mem : vm_mem s = m;
  st_pc : finsh_pc s = p;
  st_text : text_segment s = T;
}.

Definition code_at (T : list Z) (p : Z) (c : list Z) : Prop :=
  ∃ A B, T = A ++ c ++ B ∧ Z.of_nat (length A) = p.

Lemma code_at_app_l T p a b : code_at T p (a ++ b) → code_at T p a.
Proof. intros (A & B & -> & ?). exists A, (b ++ B). by rewrite <- app_assoc. Qed.
Lemma code_at_app_r T p a b : code_at T p (a ++ b) → code_at T (p + Z.of_nat (length a)) b.
Proof.
  intros (A & B & -> & ?). exists (A ++ a), B. rewrite <- !app_assoc, length_app. split; [done | lia].
Qed.
Lemma code_at_lookup T p c i x :
  code_at T p c → c !! i = Some x → T !! Z.to_nat (p + Z.of_nat i) = Some x.
Proof.
  intros (A & B & -> & <-) H. rewrite lookup_app_r by lia.
  rewrite lookup_app_l by (apply lookup_lt_Some in H; lia). rewrite <- H. f_equal. lia.
Qed.
Lemma code_at_pos T p c : code_at T p c → 0 <= p.
Proof. intros (? & ? & _ & ?). lia. Qed.
Lemma code_at_range T p c : code_at T p c → p + Z.of_nat (length c) <= Z.of_nat (length T).
Proof. intros (A & B & -> & ?). rewrite !length_app. lia. Qed.
Create HintDb code.
#[export] Hint Resolve code_at_app_l code_at_app_r : code.

(** ** Cells of the live stack *)
Section live.
Context (T : list Z).
Implicit Types (s : vm) (l : list Z).

Lemma st_bound s l m p : st T s l m p → Z.of_nat (length l) <= FINSH_STACK_MAX.
Proof.
  intros [[Hl _ _] _ Ht _ _ _]. apply (f_equal length) in Ht. rewrite length_take in Ht. lia.
Qed.

Lemma st_lookup s l m p i : st T s l m p → (i < length l)%nat → finsh_vm_stack s !! i = l !! i.
Proof. intros [_ _ Ht _ _ _] Hi. rewrite <- Ht at 1. by rewrite lookup_take_lt. Qed.

Lemma st_cell s l m p i c :
  st T s l m p → l !! i = Some c → cell s (Z.of_nat i) = Ok c.
Proof.
  intros Hs Hi. apply cell_Some. split; [lia |]. rewrite Nat2Z.id.
  rewrite (st_lookup s l m p) by (done || by eapply lookup_lt_Some). done.
Qed.

Lemma st_cell_ok s l m p i c : st T s l m p → l !! i = Some c → cell_ok c.
Proof.
  intros Hs Hi. eapply (Forall_lookup_1 _ (finsh_vm_stack s) i); [apply Hs |].
  rewrite (st_lookup s l m p) by (done || by eapply lookup_lt_Some). done.
Qed.

Lemma st_set s l m p i c w v :
  st T s l m p → l !! i = Some c →
  ∃ s', set_field w (Z.of_nat i) v s = Ok s' ∧ st T s' (<[i := put w c v]> l) m p.
Proof.
  intros Hs Hi. pose proof (st_cell _ _ _ _ _ _ Hs Hi) as Hc.
  eexists. split; [unfold set_field, set_cell; rewrite Hc; reflexivity |].
  pose proof (lookup_lt_Some _ _ _ Hi). destruct Hs as [[Hl Hf Ht] Hsp Hlv Hm Hp Htx].
  split; simpl; rewrite ?length_insert, ?Nat2Z.id; try done.
  - split; simpl; rewrite ?length_insert; [done | | done]. apply Forall_insert; [done |].
    apply put_range. eapply Forall_lookup_1; [exact Hf |].
    apply cell_Some in Hc as [_ Hc]. by rewrite Nat2Z.id in Hc.
  - rewrite take_insert_lt by done. by rewrite Hlv.
Qed.

Lemma st_top s l m p a :
  st T s (l ++ [a]) m p → cell s (finsh_sp s - 1) = Ok a.
Proof.
  intros Hs. rewrite (st_sp _ _ _ _ _ Hs), length_app. simpl.
  replace (Z.of_nat (length l + 1) - 1) with (Z.of_nat (length l)) by lia.
  eapply st_cell; [exact Hs |]. by apply list_lookup_middle.
Qed.
Lemma st_top2 s l m p a b :
  st T s (l ++ [a; b]) m p → cell s (finsh_sp s - 2) = Ok a ∧ cell s (finsh_sp s - 1) = Ok b.
Proof.
  intros Hs. split.
  - rewrite (st_sp _ _ _ _ _ Hs), length_app. simpl.
    replace (Z.of_nat (length l + 2) - 2) with (Z.of_nat (length l)) by lia.
    eapply st_cell; [exact Hs |]. by apply list_lookup_middle.
  - apply (st_top s (l ++ [a]) m p b). by rewrite <- app_assoc.
Qed.

Lemma st_set_top s l m p a w v :
  st T s (l ++ [a]) m p →
  ∃ s', set_field w (finsh_sp s - 1) v s = Ok s' ∧ st T s' (l ++ [put w a v]) m p.
Proof.
  intros Hs. rewrite (st_sp _ _ _ _ _ Hs), length_app. simpl.
  replace (Z.of_nat (length l + 1) - 1) with (Z.of_nat (length l)) by lia.
  destruct (st_set s (l ++ [a]) m p (length l) a w v Hs) as (s' & E & Hs');
    [by apply list_lookup_middle |].
  exists s'. split; [done |]. by rewrite insert_app_r_alt, Nat.sub_diag in Hs' by lia.
Qed.
Lemma st_set_top2 s l m p a b w v :
  st T s (l ++ [a; b]) m p →
  ∃ s', set_field w (finsh_sp s - 2) v s = Ok s' ∧ st T s' (l ++ [put w a v; b]) m p.
Proof.
  intros Hs. rewrite (st_sp _ _ _ _ _ Hs), length_app. simpl.
  replace (Z.of_nat (length l + 2) - 2) with (Z.of_nat (length l)) by lia.
  destruct (st_set s (l ++ [a; b]) m p (length l) a w v Hs) as (s' & E & Hs');
    [by apply list_lookup_middle |].
  exists s'. split; [done |]. by rewrite insert_app_r_alt, Nat.sub_diag in Hs' by lia.
Qed.

Lemma st_with_pc s l m p q : st T s l m p → st T (with_pc q s) l m q.
Proof. intros [[] ? ? ? ? ?]. split; simpl; try done. Qed.
Lemma st_with_mem s l m p m' : st T s l m p → st T (with_mem m' s) l m' p.
Proof. intros [[] ? ? ? ? ?]. split; simpl; try done. Qed.
Lemma st_drop s l m p a :
  st T s (l ++ [a]) m p → st T (with_sp (finsh_sp s - 1) s) l m p.
Proof.
  intros [[] Hsp Hlv ? ? ?]. rewrite length_app in *. simpl in *. split; simpl; try done; [lia |].
  apply (f_equal (take (length l))) in Hlv. rewrite take_take, take_app_length in Hlv.
  by rewrite Nat.min_l in Hlv by lia.
Qed.

(** The cell above the live stack: it holds something, and writing it makes it
    live. *)
Lemma st_push s l m p w v :
  st T s l m p → Z.of_nat (length l) < FINSH_STACK_MAX →
  ∃ c s', cell_ok c ∧ set_field w (finsh_sp s) v s = Ok s' ∧
    st T (with_sp (finsh_sp s' + 1) s') (l ++ [put w c v]) m p.
Proof.
  intros Hs Hlen. pose proof Hs as [[Hl Hf Ht] Hsp Hlv Hm Hp Htx].
  destruct (lookup_lt_is_Some_2 (finsh_vm_stack s) (length l)) as [c Hc]; [lia |].
  assert (Hs1 : st T (with_sp (finsh_sp s + 1) s) (l ++ [c]) m p).
  { split; simpl; try done; rewrite ?length_app; simpl; [lia |].
    rewrite Nat.add_1_r, (take_S_r _ _ c) by done. by rewrite Hlv. }
  destruct (st_set_top _ _ _ _ _ w v Hs1) as (s' & E & Hs').
  exists c. simpl in E. replace (finsh_sp s + 1 - 1) with (finsh_sp s) in E by lia.
  unfold set_field, set_cell in *. simpl in E.
  replace (cell (with_sp (finsh_sp s + 1) s)) with (cell s) in E by done.
  assert (Hcell : cell s (finsh_sp s) = Ok c).
  { apply cell_Some. rewrite Hsp, Nat2Z.id. split; [lia | done]. }
  rewrite Hcell in *. simpl in *. simplify_eq. eexists. split; [| split; [reflexivity |]].
  - by eapply Forall_lookup_1.
  - simpl. exact Hs'.
Qed.
End live.

(** ** What each operation does *)
Definition does {A} (o : res vm) (r : res A) (Q : A → vm → Prop) : Prop :=
  match r with Ok a => ∃ s', o = Ok s' ∧ Q a s' | Stop w => o = Stop w end.

Section ops.
Context (T : list Z).
Implicit Types (s : vm) (l : list Z).

Lemma OP_BIN_does w x s l a b m p :
  st T s (l ++ [a; b]) m p →
  does (OP_BIN w x s) (c_binop x (trunc w a) (trunc w b))
    (λ r s', st T s' (l ++ [put w a r]) m p).
Proof.
  intros Hs. destruct (st_top2 _ _ _ _ _ _ _ Hs) as [Ha Hb].
  unfold OP_BIN, field. rewrite Ha, Hb. simpl.
  destruct (c_binop x (trunc w a) (trunc w b)) as [r|]; simpl; [| done].
  destruct (st_set_top2 _ _ _ _ _ _ _ w r Hs) as (s' & -> & Hs'). simpl.
  eexists. split; [reflexivity |].
  replace (finsh_sp s - 1) with (finsh_sp s' - 1)
    by (rewrite (st_sp _ _ _ _ _ Hs'), (st_sp _ _ _ _ _ Hs), !length_app; done).
  apply (st_drop T s' (l ++ [put w a r]) m p b). by rewrite <- app_assoc.
Qed.

Lemma OP_bw_does w s l a m p :
  st T s (l ++ [a]) m p →
  does (OP_bw w s) (Ok (Z.lnot (trunc w a))) (λ r s', st T s' (l ++ [put w a r]) m p).
Proof.
  intros Hs. unfold OP_bw, field. rewrite (st_top _ _ _ _ _ _ Hs). simpl.
  by apply st_set_top.
Qed.

Lemma OP_st_does w s l a b m p :
  st T s (l ++ [a; b]) m p →
  does (OP_st w s) (write w m a (trunc w b)) (λ m' s', st T s' (l ++ [a]) m' p).
Proof.
  intros Hs. destruct (st_top2 _ _ _ _ _ _ _ Hs) as [Ha Hb].
  unfold OP_st, field. rewrite Ha, Hb. simpl. rewrite (st_mem _ _ _ _ _ Hs).
  destruct (write w m a (trunc w b)) as [m'|]; simpl; [| done].
  eexists. split; [reflexivity |]. apply (st_drop T (with_mem m' s) (l ++ [a]) m' p b).
  rewrite <- app_assoc. by eapply st_with_mem.
Qed.

Lemma OP_ld_value_stack_does w s l a m p :
  st T s (l ++ [a]) m p →
  does (OP_ld_value_stack w s) (read w m a) (λ v s', st T s' (l ++ [put w a v]) m p).
Proof.
  intros Hs. unfold OP_ld_value_stack. rewrite (st_top _ _ _ _ _ _ Hs). simpl.
  rewrite (st_mem _ _ _ _ _ Hs). destruct (read w m a) as [v|]; simpl; [| done].
  by apply st_set_top.
Qed.

Lemma OP_pop_does s l a m p :
  st T s (l ++ [a]) m p → does (OP_pop s) (Ok tt) (λ _ s', st T s' l m p).
Proof. intros Hs. eexists. split; [reflexivity |]. by eapply st_drop. Qed.

(** Operands in the text: the four bytes of a word, low byte first. *)
Definition code4 (x : Z) : list Z :=
  [Z.land (u32 x) 255; Z.land (Z.shiftr (u32 x) 8) 255;
   Z.land (Z.shiftr (u32 x) 16) 255; Z.shiftr (u32 x) 24].

Lemma text_byte s l m p x c i :
  st T s l m p → code_at T p c → c !! i = Some x → text_at s (p + Z.of_nat i) = Ok x.
Proof.
  intros Hs Hc Hi. apply text_at_Some. rewrite (st_text _ _ _ _ _ Hs).
  pose proof (code_at_pos _ _ _ Hc). split; [lia | by eapply code_at_lookup].
Qed.

Lemma lor_shiftl a b k :
  0 <= k → 0 <= a < 2 ^ k → Z.lor a (Z.shiftl b k) = a + b * 2 ^ k.
Proof.
  intros Hk Ha. rewrite <- Z.shiftl_mul_pow2 by done.
  assert (Hland : Z.land a (Z.shiftl b k) = 0).
  { apply Z.bits_inj'. intros n Hn.
    rewrite Z.land_spec, Z.shiftl_spec, Z.bits_0 by lia.
    destruct (Z.lt_ge_cases n k).
    - rewrite (Z.testbit_neg_r b) by lia. apply andb_false_r.
    - rewrite <- (Z.mod_small a (2 ^ k)), Z.mod_pow2_bits_high by lia. done. }
  rewrite Z.add_nocarry_lxor by done. by rewrite Z.lxor_lor.
Qed.

Lemma GET32_code s l m p v c :
  st T s l m p → code_at T p (code4 v ++ c) → FINSH_GET32 s p = Ok (u32 v).
Proof.
  intros Hs Hc. unfold FINSH_GET32.
  pose proof (text_byte s l m p _ _ 0 Hs Hc eq_refl) as E0. rewrite Z.add_0_r in E0.
  rewrite E0. simpl.
  rewrite (text_byte s l m p _ _ 1 Hs Hc eq_refl : text_at s (p + 1) = _). simpl.
  rewrite (text_byte s l m p _ _ 2 Hs Hc eq_refl : text_at s (p + 2) = _). simpl.
  rewrite (text_byte s l m p _ _ 3 Hs Hc eq_refl : text_at s (p + 3) = _). simpl.
  f_equal. set (x := u32 v). assert (0 <= x < 4294967296) by (unfold x; word). clearbody x.
  change 255 with (Z.ones 8). rewrite !Z.land_ones, !Z.shiftr_div_pow2 by lia.
  change (2 ^ 8) with 256. change (2 ^ 16) with 65536. change (2 ^ 24) with 16777216.
  rewrite (lor_shiftl _ _ 8) by (change (2 ^ 8) with 256; lia). change (2 ^ 8) with 256.
  rewrite (lor_shiftl _ _ 16) by (change (2 ^ 16) with 65536; lia). change (2 ^ 16) with 65536.
  rewrite (lor_shiftl _ _ 24) by (change (2 ^ 24) with 16777216; lia). change (2 ^ 24) with 16777216.
  lia.
Qed.

(** A push of a field: the cell it is written into is not cleared. *)
Definition pushed (l : list Z) (m : gmap Z Z) (p : Z) (w : width) (v : Z) (s' : vm) : Prop :=
  ∃ c, trunc w c = trunc w v ∧ (w = W32 → c = u32 v) ∧ st T s' (l ++ [c]) m p.

Lemma push_does s l m p q w v :
  st T s l m p → Z.of_nat (length l) < FINSH_STACK_MAX →
  ∃ s', set_field w (finsh_sp s) v s = Ok s' ∧
    (finsh_pc s' = p) ∧ pushed l m q w v (with_pc q (with_sp (finsh_sp s' + 1) s')).
Proof.
  intros Hs Hl. destruct (st_push T s l m p w v Hs Hl) as (c & s' & Hc & E & Hs').
  exists s'. split_and!; [done | exact (st_pc _ _ _ _ _ Hs') |].
  exists (put w c v). split_and!; [by rewrite trunc_put | intros ->; by apply put_dword |].
  by eapply st_with_pc.
Qed.

Lemma OP_ld_byte_does s l m p x c :
  st T s l m p → Z.of_nat (length l) < FINSH_STACK_MAX → code_at T p (x :: c) →
  does (OP_ld_byte s) (Ok tt) (λ _ s', pushed l m (p + 1) W8 x s').
Proof.
  intros Hs Hl Hc. unfold OP_ld_byte. rewrite (st_pc _ _ _ _ _ Hs).
  pose proof (text_byte s l m p _ _ 0 Hs Hc eq_refl) as E. rewrite Z.add_0_r in E. rewrite E. simpl.
  destruct (push_does s l m p (p + 1) W8 x Hs Hl) as (s' & E' & Hp & Hs'). rewrite E'. simpl.
  rewrite Hp. by eexists.
Qed.

Lemma OP_ld_word_does s l m p x y c :
  st T s l m p → Z.of_nat (length l) < FINSH_STACK_MAX → code_at T p (x :: y :: c) →
  does (OP_ld_word s) (Ok tt) (λ _ s', pushed l m (p + 2) W16 (Z.lor x (Z.shiftl y 8)) s').
Proof.
  intros Hs Hl Hc. unfold OP_ld_word, FINSH_GET16. rewrite (st_pc _ _ _ _ _ Hs).
  pose proof (text_byte s l m p _ _ 0 Hs Hc eq_refl) as E. rewrite Z.add_0_r in E. rewrite E. simpl.
  rewrite (text_byte s l m p _ _ 1 Hs Hc eq_refl : text_at s (p + 1) = _). simpl.
  destruct (push_does s l m p (p + 2) W16 (Z.lor x (Z.shiftl y 8)) Hs Hl) as (s' & E' & Hp & Hs').
  rewrite E'. simpl. rewrite Hp. by eexists.
Qed.

Lemma OP_ld_dword_does s l m p v c :
  st T s l m p → Z.of_nat (length l) < FINSH_STACK_MAX → code_at T p (code4 v ++ c) →
  does (OP_ld_dword s) (Ok tt) (λ _ s', pushed l m (p + 4) W32 (u32 v) s').
Proof.
  intros Hs Hl Hc. unfold OP_ld_dword. rewrite (st_pc _ _ _ _ _ Hs).
  rewrite (GET32_code s l m p v c) by done. simpl.
  destruct (push_does s l m p (p + 4) W32 (u32 v) Hs Hl) as (s' & E' & Hp & Hs'). rewrite E'. simpl.
  rewrite Hp. by eexists.
Qed.

Lemma OP_ld_value_does w s l m p v c :
  st T s l m p → Z.of_nat (length l) < FINSH_STACK_MAX → code_at T p (code4 v ++ c) →
  does (OP_ld_value w s) (read w m (u32 v)) (λ r s', pushed l m (p + 4) w r s').
Proof.
  intros Hs Hl Hc. unfold OP_ld_value. rewrite (st_pc _ _ _ _ _ Hs).
  rewrite (GET32_code s l m p v c) by done. simpl. rewrite (st_mem _ _ _ _ _ Hs).
  destruct (read w m (u32 v)) as [r|]; simpl; [| done].
  destruct (push_does s l m p (p + 4) w r Hs Hl) as (s' & E' & Hp & Hs'). rewrite E'. simpl.
  rewrite Hp. by eexists.
Qed.

(** The parameters of a call lie on the stack in order, above the function. *)
Lemma pop_parameters_eq vs l0 s acc :
  finsh_sp s = Z.of_nat (length l0 + length vs) - 1 →
  (∀ i x, vs !! i = Some x → finsh_vm_stack s !! (length l0 + i)%nat = Some x) →
  pop_parameters (length vs) s acc = Ok (with_sp (Z.of_nat (length l0) - 1) s, vs ++ acc).
Proof.
  revert s acc. induction vs as [| x vs IH] using rev_ind; intros s acc Hsp Hst.
  - simpl in *. rewrite <- (Z.add_0_r (Z.of_nat (length l0))) at 1.
    replace (Z.of_nat (length l0) + 0 - 1) with (finsh_sp s) by lia. by destruct s.
  - rewrite length_app, Nat.add_1_r in *. simpl in *.
    assert (E : cell s (finsh_sp s) = Ok x).
    { apply cell_Some. split; [lia |].
      replace (Z.to_nat (finsh_sp s)) with (length l0 + length vs)%nat by lia.
      apply Hst. by apply list_lookup_middle. }
    rewrite E. simpl. rewrite IH; simpl; [| lia |].
    + by rewrite <- app_assoc.
    + intros i y Hi. apply Hst. by apply lookup_app_l_Some.
Qed.

Section calls.
Context (call : Z → list Z → gmap Z Z → res (Z * gmap Z Z)).

Lemma st_prefix s l f vs m p :
  st T s (l ++ f :: vs) m p → st T (with_sp (Z.of_nat (length l) + 1) s) (l ++ [f]) m p.
Proof.
  intros [[] ? Hlv ? ? ?]. split; simpl; try done; rewrite length_app; simpl; [lia |].
  apply (f_equal (take (length l + 1))) in Hlv. rewrite take_take, length_app in Hlv. simpl in Hlv.
  rewrite Nat.min_l in Hlv by lia. rewrite Hlv, take_app.
  replace (length l + 1 - length l)%nat with 1%nat by lia. simpl.
  rewrite take_ge by lia. by rewrite take_0.
Qed.

(** The result replaces the function. *)
Lemma st_result s l f m p r :
  st T (with_sp (Z.of_nat (length l) + 1) s) (l ++ [f]) m p →
  ∃ s', set_field W32 (Z.of_nat (length l)) r s = Ok s' ∧ finsh_sp s' = finsh_sp s ∧
    st T (with_sp (Z.of_nat (length l) + 1) s') (l ++ [u32 r]) m p.
Proof.
  intros Hs. pose proof (st_cell_ok T _ _ _ _ (length l) f Hs (list_lookup_middle _ _ _ _ eq_refl)) as Hf.
  pose proof (st_cell T _ _ _ _ (length l) f Hs (list_lookup_middle _ _ _ _ eq_refl)) as Hc.
  destruct (st_set_top _ _ _ _ _ f W32 r Hs) as (s' & E & Hs'). 
  simpl in E. replace (Z.of_nat (length l) + 1 - 1) with (Z.of_nat (length l)) in E by lia.
  unfold set_field, set_cell in *. rewrite Hc in E. simpl in E.
  assert (Hc' : cell s (Z.of_nat (length l)) = Ok f) by exact Hc.
  rewrite Hc'. simpl. simplify_eq. eexists. split; [reflexivity | split; [done |]].
  by rewrite <- (put_dword f r Hf).
Qed.

Lemma OP_call_does s l f vs m p c :
  st T s (l ++ f :: vs) m p → code_at T p (Z.of_nat (length vs) :: c) →
  Z.of_nat (length vs) <= 16 →
  does (OP_call call s) (call f (match vs with [] => [0] | _ => vs end) m)
    (λ '(r, m') s', st T s' (l ++ [u32 r]) m' (p + 1)).
Proof.
  intros Hs Hc Hn. unfold OP_call. rewrite (st_pc _ _ _ _ _ Hs).
  pose proof (text_byte s _ m p _ _ 0 Hs Hc eq_refl) as E. rewrite Z.add_0_r in E. rewrite E. simpl.
  rewrite (proj2 (Z.leb_le (Z.of_nat (length vs)) 16)) by done. simpl. rewrite Nat2Z.id.
  pose proof (st_sp _ _ _ _ _ Hs) as Hsp. rewrite length_app in Hsp. simpl in Hsp.
  rewrite (pop_parameters_eq vs (l ++ [f])).
  2: { simpl. rewrite length_app. simpl. lia. }
  2: { simpl. intros i x Hi. pose proof (lookup_lt_Some _ _ _ Hi). rewrite length_app. simpl.
       rewrite (st_lookup T s _ m p) by (done || rewrite length_app; simpl; lia).
       rewrite lookup_app_r by lia. replace (length l + 1 + i - length l)%nat with (S i) by lia. done. }
  rewrite length_app. simpl. replace (Z.of_nat (length l + 1) - 1) with (Z.of_nat (length l)) by lia.
  apply st_prefix in Hs as Hs1. apply (st_with_pc _ _ _ _ _ (p + 1)) in Hs1.
  pose proof (st_cell T _ _ _ _ (length l) f Hs1 (list_lookup_middle _ _ _ _ eq_refl)) as Hf.
  match goal with |- context [cell ?t ?i] => replace (cell t i) with (@Ok Z f) by (symmetry; exact Hf) end.
  simpl. rewrite (st_mem _ _ _ _ _ Hs), app_nil_r.
  replace (if Z.of_nat (length vs) =? 0 then [0] else vs) with (match vs with [] => [0] | _ => vs end)
    by (by destruct vs).
  destruct (call f _ m) as [[r m']|]; simpl; [| done].
  match goal with |- context [set_field W32 _ r ?t] => destruct (st_result t l f m' (p + 1) r)
    as (s' & E' & Hsp' & Hs') end; [exact (st_with_mem _ _ _ _ _ m' Hs1) |].
  rewrite E'. simpl. rewrite Hsp'. by eexists.
Qed.
End calls.
End ops.

(** ** Following a run *)
Section runs.
Context (call : Z → list Z → gmap Z Z → res (Z * gmap Z Z)) (T : list Z).

(** From [s] the machine gets to a state of [Q], or stops as [r] does. *)
Definition runs {A} (s : vm) (r : res A) (Q : A → vm → Prop) : Prop :=
  match r with
  | Ok a => ∃ s', Q a s' ∧ run call s = run call s'
  | Stop w => run call s = Stop w
  end.

Lemma runs_bind {A B} s (r : res A) (f : A → res B) (Q : A → vm → Prop) (Q' : B → vm → Prop) :
  runs s r Q → (∀ a s', Q a s' → runs s' (f a) Q') → runs s (r ≫= f) Q'.
Proof.
  destruct r as [a|w]; simpl; [| done]. intros (s' & HQ & E) H. specialize (H a s' HQ).
  destruct (f a); simpl in *; [| congruence]. destruct H as (s2 & ? & ?). exists s2. split; [done | congruence].
Qed.

Lemma runs_from {A} s s1 (r : res A) (Q : A → vm → Prop) :
  run call s = run call s1 → runs s1 r Q → runs s r Q.
Proof. unfold runs. by intros ->. Qed.

Lemma runs_ret {A} s (a : A) (Q : A → vm → Prop) : Q a s → runs s (Ok a) Q.
Proof. intros H. by exists s. Qed.

Lemma runs_mono {A} s (r : res A) (Q Q' : A → vm → Prop) :
  runs s r Q → (∀ a s', Q a s' → Q' a s') → runs s r Q'.
Proof. destruct r; simpl; [| done]. intros (s' & ? & ?) Himp. exists s'. auto. Qed.

(** One instruction: [dispatch] on the opcode at [p]. *)
Lemma runs_op {A} s l m p op c f (r : res A) (Q : A → vm → Prop) :
  st T s l m p → code_at T p (op :: c) → op_table call !! Z.to_nat op = Some (Some f) →
  (st T (with_pc (p + 1) s) l m (p + 1) → code_at T (p + 1) c →
   does (f (with_pc (p + 1) s)) r Q) →
  runs s r Q.
Proof.
  intros Hs Hc Hop Hf.
  assert (Hin : in_text (finsh_pc s) = true).
  { apply in_text_spec. rewrite (st_pc _ _ _ _ _ Hs).
    pose proof (code_at_pos _ _ _ Hc). pose proof (code_at_range _ _ _ Hc) as Hr.
    pose proof (vm_text_length _ (st_ok _ _ _ _ _ Hs)) as Ht.
    rewrite (st_text _ _ _ _ _ Hs) in Ht. simpl in Hr. lia. }
  assert (E : vm_step call s = f (with_pc (p + 1) s)).
  { unfold vm_step. rewrite (st_pc _ _ _ _ _ Hs).
    pose proof (text_byte T s l m p _ _ 0 Hs Hc eq_refl) as E. rewrite Z.add_0_r in E.
    rewrite E. simpl. unfold dispatch. by rewrite Hop. }
  specialize (Hf (st_with_pc _ _ _ _ _ _ Hs) (code_at_app_r _ _ [op] c Hc)).
  rewrite <- E in Hf. pose proof (run_step call s Hin) as Er.
  destruct r as [a|w]; simpl in *.
  - destruct Hf as (s' & Es & HQ). exists s'. split; [done |]. by rewrite Er, Es.
  - by rewrite Er, Hf.
Qed.
End runs.
