(* ===== verification/FinshCompiler.v ===== *)
(** * The compiler of the finsh shell: [components/finsh/finsh_compiler.c]

    The syntax tree of a command line (first child / next sibling, [finsh_node.h])
    is annotated by [finsh_type_check] and translated by [finsh_compile] to the
    byte code of [FinshVm].  Nodes are never shared, so the tree is a value.
    The bytes written so far stand for [finsh_compile_pc]: the code only
    appends, and nothing checks the end of [text_segment], which is the outcome
    [Stop OutOfBounds] here.  [global_errno] is threaded as [errno]. *)
From S2P Require Import Prelude KMemory FinshVm.
Local Open Scope Z_scope.

(** ** Nodes: [finsh.h], [finsh_node.h] *)
Inductive finsh_type :=
  | finsh_type_unknown | finsh_type_void | finsh_type_voidp
  | finsh_type_char | finsh_type_uchar | finsh_type_charp
  | finsh_type_short | finsh_type_ushort | finsh_type_shortp
  | finsh_type_int | finsh_type_uint | finsh_type_intp
  | finsh_type_long | finsh_type_ulong | finsh_type_longp.

Inductive finsh_node_type :=
  | FINSH_NODE_ID
  | FINSH_NODE_VALUE_CHAR | FINSH_NODE_VALUE_INT | FINSH_NODE_VALUE_LONG
  | FINSH_NODE_VALUE_STRING | FINSH_NODE_VALUE_NULL
  | FINSH_NODE_SYS_ADD | FINSH_NODE_SYS_SUB | FINSH_NODE_SYS_MUL | FINSH_NODE_SYS_DIV
  | FINSH_NODE_SYS_MOD | FINSH_NODE_SYS_AND | FINSH_NODE_SYS_OR | FINSH_NODE_SYS_XOR
  | FINSH_NODE_SYS_BITWISE | FINSH_NODE_SYS_SHL | FINSH_NODE_SYS_SHR
  | FINSH_NODE_SYS_FUNC | FINSH_NODE_SYS_ASSIGN | FINSH_NODE_SYS_CAST
  | FINSH_NODE_SYS_PREINC | FINSH_NODE_SYS_PREDEC | FINSH_NODE_SYS_INC | FINSH_NODE_SYS_DEC
  | FINSH_NODE_SYS_GETVALUE | FINSH_NODE_SYS_GETADDR | FINSH_NODE_SYS_NULL.
#[global] Instance finsh_node_type_eq_dec : EqDecision finsh_node_type.
Proof. solve_decision. Defined.

(** [FINSH_DATA_TYPE_VOID] is [None]; the others name a width. *)
Abbreviation data := (option width).

(** The union [id]: which symbol a node refers to, with the fields of the symbol
    that the compiler reads.  The first argument is the address of the symbol's
    structure, which is what reading the union through another member gives. *)
Inductive node_id :=
  | IdNull
  | IdVar (p : Z) (type : finsh_type)
  | IdSysvar (p : Z) (type : finsh_type) (var : Z)
  | IdSyscall (p : Z) (func : Z).

Definition id_ptr (i : node_id) : Z :=
  match i with IdNull => 0 | IdVar p _ => p | IdSysvar p _ _ => p | IdSyscall p _ => p end.

Record finsh_node := mk_node {
  node_type : finsh_node_type;
  data_type : data;
  idtype : Z;
  value : Z;
  id : node_id;
}.

Inductive tree := Nil | Node (n : finsh_node) (child sibling : tree).

Definition with_attr (d : data) (i : Z) (n : finsh_node) : finsh_node :=
  mk_node (node_type n) d i (value n) (id n).

Definition FINSH_IDTYPE_VAR : Z := 1.
Definition FINSH_IDTYPE_SYSVAR : Z := 2.
Definition FINSH_IDTYPE_SYSCALL : Z := 4.
Definition FINSH_IDTYPE_ADDRESS : Z := 8.
Definition id_has (flags bit : Z) : bool := negb (Z.land flags bit =? 0).

(** [name[17]] and [type] precede the value, a word-aligned union. *)
Definition var_value (p : Z) : Z := u32 (p + 20).

Definition FINSH_ERROR_OK : Z := 0.
Definition FINSH_ERROR_UNKNOWN_TYPE : Z := 3.
Definition FINSH_ERROR_UNKNOWN_NODE : Z := 8.

(** ** [finsh_type_check] *)

(** The switches on [var->type] and [sysvar->type]; [None] is the [default]. *)
Definition type_data (t : finsh_type) : option data :=
  match t with
  | finsh_type_void => Some None
  | finsh_type_char | finsh_type_uchar => Some (Some W8)
  | finsh_type_short | finsh_type_ushort => Some (Some W16)
  | finsh_type_int | finsh_type_uint | finsh_type_long | finsh_type_ulong => Some (Some W32)
  | finsh_type_charp | finsh_type_voidp | finsh_type_shortp | finsh_type_intp
  | finsh_type_longp => Some (Some W32)
  | finsh_type_unknown => None
  end.

(** The type of the symbol the identifier type points at, if it is not NULL. *)
Definition symbol_type (n : finsh_node) : option finsh_type :=
  if id_has (idtype n) FINSH_IDTYPE_VAR then
    match id n with IdVar _ t => Some t | _ => None end
  else if id_has (idtype n) FINSH_IDTYPE_SYSVAR then
    match id n with IdSysvar _ t _ => Some t | _ => None end
  else None.

(** The end of the function, for a node without children: its data type. *)
Definition leaf_type (n : finsh_node) (errno : Z) : data * Z :=
  match node_type n with
  | FINSH_NODE_ID =>
      match symbol_type n with
      | Some t =>
          match type_data t with
          | Some d => (d, errno)
          | None => (data_type n, FINSH_ERROR_UNKNOWN_TYPE)
          end
      | None => (data_type n, errno)
      end
  | FINSH_NODE_VALUE_CHAR => (Some W8, errno)
  | FINSH_NODE_VALUE_INT | FINSH_NODE_VALUE_LONG
  | FINSH_NODE_VALUE_STRING | FINSH_NODE_VALUE_NULL => (Some W32, errno)
  | _ => (data_type n, errno)
  end.

Definition child_is_addr (ty : finsh_node_type) (is_addr : Z) : Z :=
  match ty with
  | FINSH_NODE_SYS_ASSIGN | FINSH_NODE_SYS_PREINC
  | FINSH_NODE_SYS_PREDEC | FINSH_NODE_SYS_GETADDR => FINSH_IDTYPE_ADDRESS
  | FINSH_NODE_SYS_GETVALUE => if is_addr =? 0 then is_addr else 0
  | _ => is_addr
  end.

Fixpoint finsh_type_check (t : tree) (is_addr errno : Z) : tree * Z :=
  match t with
  | Nil => (Nil, errno)
  | Node n child sibling =>
      let '(child, errno) := finsh_type_check child (child_is_addr (node_type n) is_addr) errno in
      let '(sibling, errno) := finsh_type_check sibling 0 errno in
      let idt := if idtype n =? FINSH_IDTYPE_SYSCALL then idtype n else Z.lor (idtype n) is_addr in
      match child with
      | Node c _ _ => (Node (with_attr (data_type c) idt n) child sibling, errno)
      | Nil =>
          let '(d, errno) := leaf_type (with_attr (data_type n) idt n) errno in
          (Node (with_attr d idt n) child sibling, errno)
      end
  end.

(** ** Byte code: [finsh_ops.h] *)
Definition FINSH_OP_ADD (w : width) : Z := match w with W8 => 1 | W16 => 2 | W32 => 3 end.
Definition FINSH_OP_SUB (w : width) : Z := match w with W8 => 4 | W16 => 5 | W32 => 6 end.
Definition FINSH_OP_DIV (w : width) : Z := match w with W8 => 7 | W16 => 8 | W32 => 9 end.
Definition FINSH_OP_MOD (w : width) : Z := match w with W8 => 10 | W16 => 11 | W32 => 12 end.
Definition FINSH_OP_MUL (w : width) : Z := match w with W8 => 13 | W16 => 14 | W32 => 15 end.
Definition FINSH_OP_AND (w : width) : Z := match w with W8 => 16 | W16 => 17 | W32 => 18 end.
Definition FINSH_OP_OR (w : width) : Z := match w with W8 => 19 | W16 => 20 | W32 => 21 end.
Definition FINSH_OP_XOR (w : width) : Z := match w with W8 => 22 | W16 => 23 | W32 => 24 end.
Definition FINSH_OP_BITWISE (w : width) : Z := match w with W8 => 25 | W16 => 26 | W32 => 27 end.
Definition FINSH_OP_SHL (w : width) : Z := match w with W8 => 28 | W16 => 29 | W32 => 30 end.
Definition FINSH_OP_SHR (w : width) : Z := match w with W8 => 31 | W16 => 32 | W32 => 33 end.
Definition FINSH_OP_LD (w : width) : Z := match w with W8 => 34 | W16 => 35 | W32 => 36 end.
Definition FINSH_OP_LD_VALUE (w : width) : Z := match w with W8 => 37 | W16 => 38 | W32 => 39 end.
Definition FINSH_OP_ST (w : width) : Z := match w with W8 => 40 | W16 => 41 | W32 => 42 end.
Definition FINSH_OP_POP : Z := 43.
Definition FINSH_OP_SYSCALL : Z := 44.
Definition FINSH_OP_LD_VALUE_STACK (w : width) : Z :=
  match w with W8 => 45 | W16 => 46 | W32 => 47 end.

(** What [finsh_code_byte], [finsh_code_word] and [finsh_code_dword] write. *)
Definition code_byte (x : Z) : list Z := [u8 x].
Definition code_word (x : Z) : list Z := [u8 (Z.land x 255); u8 (Z.shiftr x 8)].
Definition code_dword (x : Z) : list Z :=
  [Z.land (u32 x) 255; Z.land (Z.shiftr (u32 x) 8) 255;
   Z.land (Z.shiftr (u32 x) 16) 255; Z.shiftr (u32 x) 24].

Record cstate := mk_cstate { compiled : list Z; errno : Z }.

Definition finsh_code (bytes : list Z) (cs : cstate) : res cstate :=
  _ ← require OutOfBounds (Z.of_nat (length (compiled cs ++ bytes)) <=? FINSH_TEXT_MAX);
  Ok (mk_cstate (compiled cs ++ bytes) (errno cs)).
Definition finsh_error_set (e : Z) (cs : cstate) : res cstate := Ok (mk_cstate (compiled cs) e).

(** ** [finsh_compile] *)

(** The width of the access to a variable: the switches of [FINSH_NODE_ID].  A
    type that is not listed, [finsh_type_voidp] among them, generates nothing. *)
Definition access_width (t : finsh_type) : option width :=
  match t with
  | finsh_type_char | finsh_type_uchar => Some W8
  | finsh_type_short | finsh_type_ushort => Some W16
  | finsh_type_int | finsh_type_uint | finsh_type_long | finsh_type_ulong
  | finsh_type_charp | finsh_type_shortp | finsh_type_intp | finsh_type_longp => Some W32
  | finsh_type_unknown | finsh_type_void | finsh_type_voidp => None
  end.

Definition load_symbol (n : finsh_node) (t : finsh_type) (addr : Z) : list Z :=
  match access_width t with
  | Some w =>
      code_byte (if id_has (idtype n) FINSH_IDTYPE_ADDRESS then FINSH_OP_LD W32
                 else FINSH_OP_LD_VALUE w) ++ code_dword addr
  | None => []
  end.

Definition compile_id (n : finsh_node) : res (list Z) :=
  if id_has (idtype n) FINSH_IDTYPE_SYSCALL then
    match id n with
    | IdSyscall _ func => Ok (code_byte (FINSH_OP_LD W32) ++ code_dword func)
    | _ => Stop NullDeref
    end
  else if id_has (idtype n) FINSH_IDTYPE_SYSVAR then
    match id n with
    | IdSysvar _ t var => Ok (load_symbol n t var)
    | IdNull => Ok []
    | _ => Stop NullDeref
    end
  else
    match id n with
    | IdVar p t => Ok (load_symbol n t (var_value p))
    | IdNull => Ok []
    | _ => Stop NullDeref
    end.

(** An arithmetic node emits the operation of its data type, or nothing. *)
Definition sized (op : width → Z) (n : finsh_node) : list Z :=
  match data_type n with Some w => code_byte (op w) | None => [] end.

(** The constant 1 at a width. *)
Definition load_one (w : width) : list Z :=
  code_byte (FINSH_OP_LD w) ++
  match w with W8 => code_byte 1 | W16 => code_word 1 | W32 => code_dword 1 end.

Definition child_is_id (child : tree) : option finsh_node :=
  match child with
  | Node c _ _ => if decide (node_type c = FINSH_NODE_ID) then Some c else None
  | Nil => None
  end.

(** [++id] and [--id]: the address is read through [id.var] whatever the child is. *)
Definition compile_preinc (op : width → Z) (n : finsh_node) (child : tree) : list Z :=
  match child_is_id child, data_type n with
  | Some c, Some w =>
      code_byte (FINSH_OP_LD_VALUE w) ++ code_dword (var_value (id_ptr (id c))) ++
      load_one w ++ code_byte (op w) ++ code_byte (FINSH_OP_ST w) ++
      code_byte (FINSH_OP_LD_VALUE_STACK W32)
  | _, _ => []
  end.

(** [id++] and [id--] *)
Definition compile_inc (op : width → Z) (n : finsh_node) (child : tree) : list Z :=
  match child_is_id child, data_type n with
  | Some c, Some w =>
      code_byte (FINSH_OP_LD W32) ++ code_dword (var_value (id_ptr (id c))) ++
      code_byte (FINSH_OP_LD_VALUE w) ++ code_dword (var_value (id_ptr (id c))) ++
      load_one w ++ code_byte (op w) ++ code_byte (FINSH_OP_ST w) ++ code_byte FINSH_OP_POP
  | _, _ => []
  end.

Definition compile_predec (n : finsh_node) (child : tree) : list Z :=
  compile_preinc FINSH_OP_SUB n child.
Definition compile_dec (n : finsh_node) (child : tree) : list Z := compile_inc FINSH_OP_SUB n child.

Fixpoint chain_length (t : tree) : Z :=
  match t with Nil => 0 | Node _ _ sibling => 1 + chain_length sibling end.

Definition compile_func (child : tree) : list Z :=
  match child with
  | Nil => []
  | Node _ _ sibling => code_byte FINSH_OP_SYSCALL ++ code_byte (chain_length sibling)
  end.

Definition compile_assign (child : tree) (cs : cstate) : res cstate :=
  match child with
  | Nil => Stop NullDeref
  | Node c _ _ =>
      match node_type c with
      | FINSH_NODE_ID | FINSH_NODE_SYS_GETVALUE =>
          match data_type c with
          | Some w =>
              finsh_code (code_byte (FINSH_OP_ST w) ++ code_byte (FINSH_OP_LD_VALUE_STACK w)) cs
          | None => finsh_error_set FINSH_ERROR_UNKNOWN_TYPE cs
          end
      | _ => Ok cs
      end
  end.

(** The switch: compile current node. *)
Definition compile_node (n : finsh_node) (child : tree) (cs : cstate) : res cstate :=
  match node_type n with
  | FINSH_NODE_ID => l ← compile_id n; finsh_code l cs
  | FINSH_NODE_VALUE_CHAR => finsh_code (code_byte (FINSH_OP_LD W8) ++ code_byte (value n)) cs
  | FINSH_NODE_VALUE_INT | FINSH_NODE_VALUE_LONG =>
      finsh_code (code_byte (FINSH_OP_LD W32) ++ code_dword (value n)) cs
  | FINSH_NODE_VALUE_NULL | FINSH_NODE_VALUE_STRING =>
      finsh_code (code_byte (FINSH_OP_LD W32) ++ code_dword (value n)) cs
  | FINSH_NODE_SYS_ADD => finsh_code (sized FINSH_OP_ADD n) cs
  | FINSH_NODE_SYS_SUB => finsh_code (sized FINSH_OP_SUB n) cs
  | FINSH_NODE_SYS_MUL => finsh_code (sized FINSH_OP_MUL n) cs
  | FINSH_NODE_SYS_DIV => finsh_code (sized FINSH_OP_DIV n) cs
  | FINSH_NODE_SYS_MOD => finsh_code (sized FINSH_OP_MOD n) cs
  | FINSH_NODE_SYS_AND => finsh_code (sized FINSH_OP_AND n) cs
  | FINSH_NODE_SYS_OR => finsh_code (sized FINSH_OP_OR n) cs
  | FINSH_NODE_SYS_XOR => finsh_code (sized FINSH_OP_XOR n) cs
  | FINSH_NODE_SYS_BITWISE => finsh_code (sized FINSH_OP_BITWISE n) cs
  | FINSH_NODE_SYS_SHL => finsh_code (sized FINSH_OP_SHL n) cs
  | FINSH_NODE_SYS_SHR => finsh_code (sized FINSH_OP_SHR n) cs
  | FINSH_NODE_SYS_FUNC => finsh_code (compile_func child) cs
  | FINSH_NODE_SYS_ASSIGN => compile_assign child cs
  | FINSH_NODE_SYS_PREINC => finsh_code (compile_preinc FINSH_OP_ADD n child) cs
  | FINSH_NODE_SYS_PREDEC => finsh_code (compile_predec n child) cs
  | FINSH_NODE_SYS_INC => finsh_code (compile_inc FINSH_OP_ADD n child) cs
  | FINSH_NODE_SYS_DEC => finsh_code (compile_dec n child) cs
  | FINSH_NODE_SYS_NULL => finsh_code (code_dword 0) cs
  | FINSH_NODE_SYS_GETVALUE =>
      if id_has (idtype n) FINSH_IDTYPE_ADDRESS then Ok cs
      else finsh_code (sized FINSH_OP_LD_VALUE_STACK n) cs
  | FINSH_NODE_SYS_GETADDR => Ok cs
  | FINSH_NODE_SYS_CAST => finsh_error_set FINSH_ERROR_UNKNOWN_NODE cs
  end.

Fixpoint finsh_compile (t : tree) (cs : cstate) : res cstate :=
  match t with
  | Nil => Ok cs
  | Node n child sibling =>
      cs ← finsh_compile child cs;
      cs ← compile_node n child cs;
      finsh_compile sibling cs
  end.

(** The loop of [finsh_compiler_run]: one statement after the other. *)
Fixpoint compile_statements (t : tree) (cs : cstate) : res cstate :=
  match t with
  | Nil => Ok cs
  | Node n child sibling =>
      cs ← finsh_compile (Node n child Nil) cs;
      match sibling with
      | Nil => Ok cs
      | Node _ _ _ => cs ← finsh_code (code_byte FINSH_OP_POP) cs; compile_statements sibling cs
      end
  end.

(** [sizeof(finsh_vm_stack[0])]: only the first cell of the stack is cleared. *)
Definition finsh_compiler_run (t : tree) (errno0 : Z) (s : vm) : res (vm * Z) :=
  let '(t, errno0) := finsh_type_check t 0 errno0 in
  s ← set_cell 0 0 s;
  cs ← compile_statements t (mk_cstate [] errno0);
  let text := compiled cs ++ replicate (Z.to_nat FINSH_TEXT_MAX - length (compiled cs)) 0 in
  Ok (mk_vm (finsh_vm_stack s) text (finsh_sp s) (finsh_pc s) (vm_mem s), errno cs).
