(* ===== verification/FinshProps.v ===== *)
(** * Correctness of the finsh compiler

    A reference semantics of the shell's expressions ([eval], on the syntax), and
    the theorem that compiling the tree of an expression and running the byte
    code computes it.  A value is compared at its precision: an operation on
    [char] or [short] defines only the low bytes of its cell.  [wt] says which
    expressions the compiler handles: operands are at least as precise as the
    width of the operation, which is that of the leftmost leaf.  The findings
    about the expressions outside [wt] are at the end of the file. *)
From S2P Require Import Prelude KMemory FinshVm FinshExec FinshCompiler.
Local Open Scope Z_scope.

(** ** Expressions *)
Inductive ident := Var (p : Z) (t : finsh_type) | Sysvar (p : Z) (t : finsh_type) (var : Z).
Inductive constant := CInt | CLong | CString | CNull.
Inductive incop := Inc | Dec.

Inductive expr :=
  | EChar (c : Z)
  | EConst (k : constant) (v : Z)
  | EId (i : ident)
  | EBin (x : binop) (a b : expr)
  | ENot (a : expr)
  | EAssign (i : ident) (e : expr)        (** [i = e] *)
  | EStore (p e : expr)                   (** [*p = e] *)
  | EDeref (p : expr)                     (** [*p] *)
  | EAddr (i : ident)                     (** [&i] *)
  | EPre (x : incop) (i : ident)          (** [++i], [--i] *)
  | EPost (x : incop) (i : ident)         (** [i++], [i--] *)
  | ECall (p f : Z) (l : args)            (** [f(l)] *)
with args := ANil | ACons (e : expr) (l : args).

Scheme expr_mut := Induction for expr Sort Prop
with args_mut := Induction for args Sort Prop.
Combined Scheme expr_args_ind from expr_mut, args_mut.

Definition ident_type (i : ident) : finsh_type :=
  match i with Var _ t => t | Sysvar _ t _ => t end.
Definition ident_width (i : ident) : option width := access_width (ident_type i).
(** Where the variable is. *)
Definition storage (i : ident) : Z :=
  match i with Var p _ => var_value p | Sysvar _ _ var => u32 var end.
Definition inc_binop (x : incop) : binop := match x with Inc => Add | Dec => Sub end.

(** ** The tree of an expression, as [finsh_parser.c] builds it *)
Definition const_node (k : constant) : finsh_node_type :=
  match k with
  | CInt => FINSH_NODE_VALUE_INT | CLong => FINSH_NODE_VALUE_LONG
  | CString => FINSH_NODE_VALUE_STRING | CNull => FINSH_NODE_VALUE_NULL
  end.
Definition binop_node (x : binop) : finsh_node_type :=
  match x with
  | Add => FINSH_NODE_SYS_ADD | Sub => FINSH_NODE_SYS_SUB | Div => FINSH_NODE_SYS_DIV
  | Mod => FINSH_NODE_SYS_MOD | Mul => FINSH_NODE_SYS_MUL | And => FINSH_NODE_SYS_AND
  | Or => FINSH_NODE_SYS_OR | Xor => FINSH_NODE_SYS_XOR | Shl => FINSH_NODE_SYS_SHL
  | Shr => FINSH_NODE_SYS_SHR
  end.
Definition pre_node (x : incop) : finsh_node_type :=
  match x with Inc => FINSH_NODE_SYS_PREINC | Dec => FINSH_NODE_SYS_PREDEC end.
Definition post_node (x : incop) : finsh_node_type :=
  match x with Inc => FINSH_NODE_SYS_INC | Dec => FINSH_NODE_SYS_DEC end.

Definition op_node (ty : finsh_node_type) : finsh_node := mk_node ty None 0 0 IdNull.
Definition value_node (ty : finsh_node_type) (v : Z) : finsh_node := mk_node ty None 0 v IdNull.
Definition ident_node (i : ident) : finsh_node :=
  match i with
  | Var p t => mk_node FINSH_NODE_ID None FINSH_IDTYPE_VAR 0 (IdVar p t)
  | Sysvar p t v => mk_node FINSH_NODE_ID None FINSH_IDTYPE_SYSVAR 0 (IdSysvar p t v)
  end.
Definition syscall_node (p f : Z) : finsh_node :=
  mk_node FINSH_NODE_ID None FINSH_IDTYPE_SYSCALL 0 (IdSyscall p f).

Fixpoint tree_of (e : expr) (sib : tree) : tree :=
  match e with
  | EChar c => Node (value_node FINSH_NODE_VALUE_CHAR c) Nil sib
  | EConst k v => Node (value_node (const_node k) v) Nil sib
  | EId i => Node (ident_node i) Nil sib
  | EBin x a b => Node (op_node (binop_node x)) (tree_of a (tree_of b Nil)) sib
  | ENot a => Node (op_node FINSH_NODE_SYS_BITWISE) (tree_of a Nil) sib
  | EAssign i e =>
      Node (op_node FINSH_NODE_SYS_ASSIGN) (Node (ident_node i) Nil (tree_of e Nil)) sib
  | EStore p e =>
      Node (op_node FINSH_NODE_SYS_ASSIGN)
        (Node (op_node FINSH_NODE_SYS_GETVALUE) (tree_of p Nil) (tree_of e Nil)) sib
  | EDeref p => Node (op_node FINSH_NODE_SYS_GETVALUE) (tree_of p Nil) sib
  | EAddr i => Node (op_node FINSH_NODE_SYS_GETADDR) (Node (ident_node i) Nil Nil) sib
  | EPre x i => Node (op_node (pre_node x)) (Node (ident_node i) Nil Nil) sib
  | EPost x i => Node (op_node (post_node x)) (Node (ident_node i) Nil Nil) sib
  | ECall p f l =>
      Node (op_node FINSH_NODE_SYS_FUNC) (Node (syscall_node p f) Nil (args_tree l)) sib
  end
with args_tree (l : args) : tree :=
  match l with ANil => Nil | ACons e l => tree_of e (args_tree l) end.

(** ** Types and precision *)

(** The data type the compiler gives to the expression. *)
Fixpoint dtype (e : expr) : data :=
  match e with
  | EChar _ => Some W8
  | EConst _ _ => Some W32
  | EId i | EAssign i _ | EAddr i | EPre _ i | EPost _ i => ident_width i
  | EBin _ a _ | ENot a | EDeref a | EStore a _ => dtype a
  | ECall _ _ _ => None
  end.

(** How much of the cell is defined. *)
Definition prec (e : expr) : width :=
  match e with
  | EAddr _ | ECall _ _ _ => W32
  | _ => match dtype e with Some w => w | None => W32 end
  end.

Definition covers (p w : width) : bool := modulus w <=? modulus p.
Definition is_var (i : ident) : bool := match i with Var _ _ => true | _ => false end.
Definition is_typed (i : ident) : bool :=
  match ident_width i with Some _ => true | None => false end.

Fixpoint args_length (l : args) : Z :=
  match l with ANil => 0 | ACons _ l => 1 + args_length l end.

Fixpoint wt (e : expr) : bool :=
  match e with
  | EChar _ | EConst _ _ => true
  | EId i | EAddr i => is_typed i
  | EBin _ a b =>
      wt a && wt b && match dtype a with Some w => covers (prec b) w | None => false end
  | ENot a => wt a && match dtype a with Some _ => true | None => false end
  | EAssign i e =>
      wt e && match ident_width i with Some w => covers (prec e) w | None => false end
  | EStore p e =>
      wt p && wt e && bool_decide (dtype p = Some W32) && bool_decide (prec e = W32)
  | EDeref p => wt p && bool_decide (dtype p = Some W32)
  | EPre _ i | EPost _ i => is_var i && is_typed i
  | ECall _ _ l => wt_args l && (args_length l <=? 16)
  end
with wt_args (l : args) : bool :=
  match l with ANil => true | ACons e l => wt e && bool_decide (prec e = W32) && wt_args l end.

(** ** Reference semantics *)
Definition width_of (e : expr) : width := match dtype e with Some w => w | None => W32 end.

Section semantics.
Context (call : Z → list Z → gmap Z Z → res (Z * gmap Z Z)).

(** The value before, the value after, and the memory. *)
Definition increment (w : width) (x : incop) (a : Z) (m : gmap Z Z) : res (Z * Z * gmap Z Z) :=
  v ← read w m a;
  r ← c_binop (inc_binop x) (trunc w v) 1;
  m ← write w m a (trunc w r);
  Ok (trunc w v, trunc w r, m).

(** The value of an expression, as a signed number of its precision, and the
    memory after it.  Operands are evaluated from left to right. *)
Fixpoint eval (e : expr) (m : gmap Z Z) : res (Z * gmap Z Z) :=
  match e with
  | EChar c => Ok (trunc W8 c, m)
  | EConst _ v => Ok (trunc W32 v, m)
  | EId i => v ← read (width_of e) m (storage i); Ok (trunc (width_of e) v, m)
  | EBin x a b =>
      '(va, m) ← eval a m; '(vb, m) ← eval b m;
      r ← c_binop x (trunc (width_of a) va) (trunc (width_of a) vb);
      Ok (trunc (width_of a) r, m)
  | ENot a => '(va, m) ← eval a m; Ok (trunc (width_of a) (Z.lnot (trunc (width_of a) va)), m)
  | EAssign i e' =>
      '(v, m) ← eval e' m; m ← write (width_of e) m (storage i) (trunc (width_of e) v);
      Ok (trunc (width_of e) v, m)
  | EStore p e' =>
      '(a, m) ← eval p m; '(v, m) ← eval e' m; m ← write W32 m (u32 a) (trunc W32 v);
      Ok (trunc W32 v, m)
  | EDeref p => '(a, m) ← eval p m; v ← read W32 m (u32 a); Ok (trunc W32 v, m)
  | EAddr i => Ok (trunc W32 (storage i), m)
  | EPre x i =>
      (* the variable's whole word is read back, whatever its type *)
      '(_, new, m) ← increment (width_of e) x (storage i) m;
      _ ← read W32 m (storage i); Ok (new, m)
  | EPost x i => '(old, _, m) ← increment (width_of e) x (storage i) m; Ok (old, m)
  | ECall _ f l =>
      '(vs, m) ← eval_args l m;
      '(r, m) ← call (u32 f) (match vs with [] => [0] | _ => vs end) m;
      Ok (trunc W32 r, m)
  end
with eval_args (l : args) (m : gmap Z Z) : res (list Z * gmap Z Z) :=
  match l with
  | ANil => Ok ([], m)
  | ACons e l =>
      '(v, m) ← eval e m; '(vs, m) ← eval_args l m; Ok (u32 v :: vs, m)
  end.
End semantics.

(** ** A direct translation of expressions to byte code *)
Definition FINSH_OP_of (x : binop) : width → Z :=
  match x with
  | Add => FINSH_OP_ADD | Sub => FINSH_OP_SUB | Div => FINSH_OP_DIV | Mod => FINSH_OP_MOD
  | Mul => FINSH_OP_MUL | And => FINSH_OP_AND | Or => FINSH_OP_OR | Xor => FINSH_OP_XOR
  | Shl => FINSH_OP_SHL | Shr => FINSH_OP_SHR
  end.
Definition g_op (c : Z) : list Z := code_byte c.
Definition g_ld (v : Z) : list Z := code_byte (FINSH_OP_LD W32) ++ code_dword v.
Definition g_ld_value (w : width) (a : Z) : list Z :=
  code_byte (FINSH_OP_LD_VALUE w) ++ code_dword a.

Definition g_inc (w : width) (x : incop) (a : Z) : list Z :=
  g_ld_value w a ++ load_one w ++ g_op (FINSH_OP_of (inc_binop x) w) ++ g_op (FINSH_OP_ST w).
#[global] Arguments g_op : simpl never.
#[global] Arguments g_inc : simpl never.
#[global] Arguments g_ld : simpl never.
#[global] Arguments g_ld_value : simpl never.
#[global] Arguments load_one : simpl never.

Fixpoint gen (e : expr) : list Z :=
  let w := width_of e in
  match e with
  | EChar c => g_op (FINSH_OP_LD W8) ++ code_byte c
  | EConst _ v => g_ld v
  | EId i => g_ld_value w (storage i)
  | EBin x a b => gen a ++ gen b ++ g_op (FINSH_OP_of x (width_of a))
  | ENot a => gen a ++ g_op (FINSH_OP_BITWISE (width_of a))
  | EAssign i e => g_ld (storage i) ++ gen e ++ g_op (FINSH_OP_ST w) ++ g_op (FINSH_OP_LD_VALUE_STACK w)
  | EStore p e => gen p ++ gen e ++ g_op (FINSH_OP_ST W32) ++ g_op (FINSH_OP_LD_VALUE_STACK W32)
  | EDeref p => gen p ++ g_op (FINSH_OP_LD_VALUE_STACK W32)
  | EAddr i => g_ld (storage i)
  | EPre x i =>
      g_ld (storage i) ++ g_inc w x (storage i) ++ g_op (FINSH_OP_LD_VALUE_STACK W32)
  | EPost x i =>
      g_ld_value w (storage i) ++ g_ld (storage i) ++ g_inc w x (storage i) ++ g_op FINSH_OP_POP
  | ECall _ f l => g_ld f ++ gen_args l ++ g_op FINSH_OP_SYSCALL ++ g_op (args_length l)
  end
with gen_args (l : args) : list Z :=
  match l with ANil => [] | ACons e l => gen e ++ gen_args l end.

(** ** The compiler on trees does the direct translation *)
Lemma code_dword_u32 v : code_dword (u32 v) = code_dword v.
Proof. unfold code_dword. replace (u32 (u32 v)) with (u32 v) by word. done. Qed.

Lemma finsh_code_app a b cs : (finsh_code a cs ≫= finsh_code b) = finsh_code (a ++ b) cs.
Proof.
  unfold finsh_code, require. rewrite (app_assoc (compiled cs) a b), (length_app _ b).
  destruct (Z.leb_spec (Z.of_nat (length (compiled cs ++ a))) FINSH_TEXT_MAX); simpl.
  - by rewrite (length_app _ b).
  - destruct (Z.leb_spec (Z.of_nat (length (compiled cs ++ a) + length b)) FINSH_TEXT_MAX);
      [lia | done].
Qed.

Lemma finsh_code_ret a cs : (finsh_code a cs ≫= Ok) = finsh_code a cs.
Proof. unfold finsh_code, require. by destruct (Z.of_nat _ <=? _). Qed.

Lemma bind_assoc {A B C} (m : res A) (f : A → res B) (g : B → res C) :
  ((m ≫= f) ≫= g) = (m ≫= λ a, f a ≫= g).
Proof. by destruct m. Qed.

Lemma bind_ext {A B} (m : res A) (f g : A → res B) : (∀ a, f a = g a) → (m ≫= f) = (m ≫= g).
Proof. intros H. destruct m; simpl; auto. Qed.

Lemma finsh_compile_cons n c sib cs :
  finsh_compile (Node n c sib) cs = finsh_compile (Node n c Nil) cs ≫= finsh_compile sib.
Proof.
  simpl. destruct (finsh_compile c cs) as [cs1|]; simpl; [| done].
  by destruct (compile_node n c cs1).
Qed.

(** [t] compiles to [l]: after any code, it appends it. *)
Definition emits (t : tree) (l : list Z) : Prop :=
  ∀ l0 cs, (finsh_code l0 cs ≫= finsh_compile t) = finsh_code (l0 ++ l) cs.

Lemma emits_nil : emits Nil [].
Proof. intros l0 cs. rewrite app_nil_r. apply finsh_code_ret. Qed.

Lemma emits_node n c sib lc ln ls :
  emits c lc → (∀ cs, compile_node n c cs = finsh_code ln cs) → emits sib ls →
  emits (Node n c sib) (lc ++ ln ++ ls).
Proof.
  intros Hc Hn Hs l0 cs. simpl.
  rewrite <- (bind_assoc (finsh_code l0 cs)), Hc.
  rewrite (bind_ext _ _ (λ cs, finsh_code ln cs ≫= finsh_compile sib)) by (intros; by rewrite Hn).
  rewrite <- bind_assoc, finsh_code_app, Hs. by rewrite <- !app_assoc.
Qed.

(** A node that adds nothing. *)
Lemma emits_skip n c sib lc ls :
  emits c lc → (∀ cs, compile_node n c cs = Ok cs) → emits sib ls →
  emits (Node n c sib) (lc ++ ls).
Proof.
  intros Hc Hn Hs l0 cs. simpl.
  rewrite <- (bind_assoc (finsh_code l0 cs)), Hc.
  rewrite (bind_ext _ _ (finsh_compile sib)) by (intros; by rewrite Hn).
  rewrite Hs. by rewrite <- app_assoc.
Qed.

(** The annotated tree of an expression, and what it compiles to. *)
Definition checked (e : expr) : Prop :=
  ∀ sib er, wt e = true →
    ∃ n c, finsh_type_check (tree_of e sib) 0 er =
             (Node n c (finsh_type_check sib 0 er).1, (finsh_type_check sib 0 er).2) ∧
           data_type n = dtype e ∧
           (∀ l sib', emits sib' l → emits (Node n c sib') (gen e ++ l)).
Definition checked_args (l : args) : Prop :=
  ∀ er, wt_args l = true →
    (finsh_type_check (args_tree l) 0 er).2 = er ∧
    emits (finsh_type_check (args_tree l) 0 er).1 (gen_args l) ∧
    chain_length (finsh_type_check (args_tree l) 0 er).1 = args_length l.

Lemma emits_leaf n ln l sib' :
  (∀ cs, compile_node n Nil cs = finsh_code ln cs) → emits sib' l → emits (Node n Nil sib') (ln ++ l).
Proof. intros Hn Hl. apply (emits_node n Nil sib' [] ln l); [apply emits_nil | done | done]. Qed.

(** An identifier, as a value or as an address. *)
Definition ident_code (i : ident) (is_addr w : Z) : list Z :=
  code_byte (if is_addr =? 0 then w else FINSH_OP_LD W32) ++ code_dword (storage i).

Lemma ident_compile i is_addr w :
  is_addr = 0 ∨ is_addr = FINSH_IDTYPE_ADDRESS → ident_width i = Some w →
  ∃ n, (∀ sib er, finsh_type_check (Node (ident_node i) Nil sib) is_addr er =
          (Node n Nil (finsh_type_check sib 0 er).1, (finsh_type_check sib 0 er).2)) ∧
       data_type n = Some w ∧ node_type n = FINSH_NODE_ID ∧ id n = id (ident_node i) ∧
       (∀ l sib', emits sib' l →
          emits (Node n Nil sib') (ident_code i is_addr (FINSH_OP_LD_VALUE w) ++ l)).
Proof.
  intros Ha Hw. destruct i as [p t | p t v].
  - exists (mk_node FINSH_NODE_ID (Some w) (Z.lor FINSH_IDTYPE_VAR is_addr) 0 (IdVar p t)).
    unfold ident_width, ident_type in Hw. split_and!; try done.
    + intros sib er. destruct Ha as [-> | ->]; simpl; destruct (finsh_type_check sib 0 er);
        destruct t; simplify_eq/=; done.
    + intros l sib' Hl. apply emits_leaf; [| done]. intros cs. unfold compile_node. simpl.
      unfold compile_id, load_symbol. simpl. rewrite Hw.
      destruct Ha as [-> | ->]; done.
  - exists (mk_node FINSH_NODE_ID (Some w) (Z.lor FINSH_IDTYPE_SYSVAR is_addr) 0 (IdSysvar p t v)).
    unfold ident_width, ident_type in Hw. split_and!; try done.
    + intros sib er. destruct Ha as [-> | ->]; simpl; destruct (finsh_type_check sib 0 er);
        destruct t; simplify_eq/=; done.
    + intros l sib' Hl. apply emits_leaf; [| done]. intros cs. unfold compile_node. simpl.
      unfold compile_id, load_symbol. simpl. rewrite Hw. unfold ident_code. simpl.
      rewrite code_dword_u32. destruct Ha as [-> | ->]; done.
Qed.

(** An operator node over an annotated child. *)
Lemma check_op ty child is_addr er n c s er' sib :
  ty ≠ FINSH_NODE_ID →
  finsh_type_check child (child_is_addr ty is_addr) er = (Node n c s, er') →
  finsh_type_check (Node (op_node ty) child sib) is_addr er =
    (Node (mk_node ty (data_type n) (Z.lor 0 is_addr) 0 IdNull) (Node n c s)
       (finsh_type_check sib 0 er').1, (finsh_type_check sib 0 er').2).
Proof.
  intros Hty H. simpl. rewrite H. destruct (finsh_type_check sib 0 er'). done.
Qed.

Lemma emits_app_nil t l : emits t (l ++ []) → emits t l.
Proof. by rewrite app_nil_r. Qed.

Lemma check_const ty v sib er :
  match ty with
  | FINSH_NODE_VALUE_CHAR | FINSH_NODE_VALUE_INT | FINSH_NODE_VALUE_LONG
  | FINSH_NODE_VALUE_STRING | FINSH_NODE_VALUE_NULL => True
  | _ => False
  end →
  finsh_type_check (Node (value_node ty v) Nil sib) 0 er =
    (Node (mk_node ty (Some match ty with FINSH_NODE_VALUE_CHAR => W8 | _ => W32 end) 0 v IdNull) Nil
       (finsh_type_check sib 0 er).1, (finsh_type_check sib 0 er).2).
Proof. intros Hty. simpl. destruct (finsh_type_check sib 0 er), ty; done. Qed.

Lemma checked_char c : checked (EChar c).
Proof.
  intros sib er _. eexists _, _. split; [by apply check_const |]. split; [done |].
  intros l sib' Hl. by apply emits_leaf.
Qed.
Lemma checked_const k v : checked (EConst k v).
Proof.
  intros sib er _. eexists _, _. split; [by apply check_const; destruct k |].
  split; [by destruct k |]. intros l sib' Hl. apply emits_leaf; [by destruct k | done].
Qed.
Lemma checked_id i : checked (EId i).
Proof.
  intros sib er Hw. simpl in Hw. unfold is_typed in Hw.
  destruct (ident_width i) as [w|] eqn:Ew; [| done].
  destruct (ident_compile i 0 w) as (n & Hc & Hd & _ & _ & He); [by left | done |].
  exists n, Nil. split; [apply Hc |]. split; [by simpl; rewrite Hd, Ew |].
  intros l sib' Hl. simpl. unfold width_of. simpl. rewrite Ew. by apply He.
Qed.

Lemma checked_bin x a b : checked a → checked b → checked (EBin x a b).
Proof.
  intros IHa IHb sib er Hw. simpl in Hw. apply andb_true_iff in Hw as [Hw Hd].
  apply andb_true_iff in Hw as [Ha Hb].
  destruct (IHb Nil er Hb) as (nb & cb & Eb & _ & Gb).
  destruct (IHa (tree_of b Nil) er Ha) as (na & ca & Ea & Da & Ga).
  rewrite Eb in Ea. simpl in Ea.
  destruct (dtype a) as [w|] eqn:Ew; [| done].
  eexists _, _. split; [| split].
  - simpl tree_of. eapply check_op; [by destruct x |].
    replace (child_is_addr (binop_node x) 0) with 0 by (by destruct x). exact Ea.
  - simpl. congruence.
  - intros l sib' Hl. cbn [gen]. rewrite <- !(app_assoc (gen a)), <- (app_assoc (gen b)).
    rewrite (app_assoc (gen a)). apply emits_node; [| | done].
    + apply Ga. apply emits_app_nil, Gb, emits_nil.
    + intros cs. unfold width_of. rewrite Ew. unfold compile_node, sized.
      destruct x; simpl; by rewrite Da.
Qed.

Lemma checked_unary (ty : finsh_node_type) a code :
  ty ≠ FINSH_NODE_ID → checked a → wt a = true → child_is_addr ty 0 = 0 →
  (∀ n c cs, data_type n = dtype a →
     compile_node (mk_node ty (data_type n) 0 0 IdNull) (Node n c Nil) cs = finsh_code code cs) →
  ∀ sib er, ∃ n c, finsh_type_check (Node (op_node ty) (tree_of a Nil) sib) 0 er =
             (Node n c (finsh_type_check sib 0 er).1, (finsh_type_check sib 0 er).2) ∧
           data_type n = dtype a ∧
           (∀ l sib', emits sib' l → emits (Node n c sib') ((gen a ++ code) ++ l)).
Proof.
  intros Hty IHa Ha Hz Hn sib er. destruct (IHa Nil er Ha) as (na & ca & Ea & Da & Ga).
  eexists _, _. split; [| split].
  - eapply check_op; [done |]. rewrite Hz. exact Ea.
  - done.
  - intros l sib' Hl. rewrite <- app_assoc. apply emits_node; [| | done].
    + apply emits_app_nil, Ga, emits_nil.
    + intros cs. by apply Hn.
Qed.

Lemma checked_not a : checked a → checked (ENot a).
Proof.
  intros IHa sib er Hw. simpl in Hw. apply andb_true_iff in Hw as [Ha Hd].
  apply (checked_unary FINSH_NODE_SYS_BITWISE a); try done. intros n c cs Dn.
  unfold width_of. simpl. destruct (dtype a); [| done].
  unfold compile_node, sized. simpl. by rewrite Dn.
Qed.
Lemma checked_deref p : checked p → checked (EDeref p).
Proof.
  intros IHa sib er Hw. simpl in Hw. apply andb_true_iff in Hw as [Ha Hd].
  apply bool_decide_eq_true in Hd.
  apply (checked_unary FINSH_NODE_SYS_GETVALUE p); try done. intros n c cs Dn.
  unfold compile_node, sized. simpl. by rewrite Dn, Hd.
Qed.

Lemma checked_assign i e : checked e → checked (EAssign i e).
Proof.
  intros IHe sib er Hw. simpl in Hw. apply andb_true_iff in Hw as [He Hd].
  destruct (ident_width i) as [w|] eqn:Ew; [| done].
  destruct (IHe Nil er He) as (ne & ce & Ee & _ & Ge).
  destruct (ident_compile i FINSH_IDTYPE_ADDRESS w) as (n & Hc & Hn & Ht & _ & Hi);
    [by right | done |].
  eexists _, _. split; [| split].
  - simpl tree_of. eapply check_op; [done |]. simpl child_is_addr. rewrite Hc, Ee. done.
  - simpl. congruence.
  - intros l sib' Hl. cbn [gen].
    rewrite <- !(app_assoc (g_ld (storage i))), <- (app_assoc (gen e)).
    rewrite (app_assoc (g_ld _)). apply emits_node; [| | done].
    + apply Hi. apply emits_app_nil, Ge, emits_nil.
    + intros cs. unfold width_of. simpl. rewrite Ew. unfold compile_node. simpl.
      by rewrite Ht, Hn.
Qed.

Lemma checked_store p e : checked p → checked e → checked (EStore p e).
Proof.
  intros IHp IHe sib er Hw. simpl in Hw. repeat (apply andb_true_iff in Hw as [Hw ?]).
  apply bool_decide_eq_true in H0.
  destruct (IHe Nil er H1) as (ne & ce & Ee & _ & Ge).
  destruct (IHp Nil er Hw) as (np & cp & Ep & Dp & Gp).
  eexists _, _. split; [| split].
  - simpl tree_of. eapply check_op; [done |].
    change (child_is_addr FINSH_NODE_SYS_ASSIGN 0) with FINSH_IDTYPE_ADDRESS.
    erewrite (check_op FINSH_NODE_SYS_GETVALUE _ FINSH_IDTYPE_ADDRESS); [| done | exact Ep].
    simpl snd. rewrite Ee. reflexivity.
  - simpl. congruence.
  - intros l sib' Hl. cbn [gen]. simpl fst.
    rewrite <- !(app_assoc (gen p)), <- (app_assoc (gen e)).
    rewrite (app_assoc (gen p)). apply emits_node; [| | done].
    + apply emits_skip.
      * apply emits_app_nil, Gp, emits_nil.
      * done.
      * apply emits_app_nil, Ge, emits_nil.
    + intros cs. unfold compile_node. simpl. by rewrite Dp, H0.
Qed.

Lemma checked_addr i : checked (EAddr i).
Proof.
  intros sib er Hw. simpl in Hw. unfold is_typed in Hw.
  destruct (ident_width i) as [w|] eqn:Ew; [| done].
  destruct (ident_compile i FINSH_IDTYPE_ADDRESS w) as (n & Hc & Hn & Ht & _ & Hi);
    [by right | done |].
  eexists _, _. split; [| split].
  - simpl tree_of. eapply check_op; [done |]. simpl child_is_addr. apply Hc.
  - simpl. congruence.
  - intros l sib' Hl. apply emits_skip; [| done | done].
    apply emits_app_nil, Hi, emits_nil.
Qed.

Lemma is_var_id i w :
  is_var i = true → ident_width i = Some w → var_value (id_ptr (id (ident_node i))) = storage i.
Proof. by destruct i. Qed.

Lemma checked_pre x i : checked (EPre x i).
Proof.
  intros sib er Hw. simpl in Hw. apply andb_true_iff in Hw as [Hv Hw]. unfold is_typed in Hw.
  destruct (ident_width i) as [w|] eqn:Ew; [| done].
  destruct (ident_compile i FINSH_IDTYPE_ADDRESS w) as (n & Hc & Hn & Ht & Hid & Hi);
    [by right | done |].
  eexists _, _. split; [| split].
  - simpl tree_of. eapply check_op; [by destruct x |].
    replace (child_is_addr (pre_node x) 0) with FINSH_IDTYPE_ADDRESS by (by destruct x). apply Hc.
  - simpl. congruence.
  - intros l sib' Hl. cbn [gen]. rewrite <- (app_assoc (g_ld _)). apply emits_node; [| | done].
    + apply emits_app_nil, Hi, emits_nil.
    + intros cs. unfold width_of. simpl. rewrite Ew.
      unfold compile_node, compile_predec, compile_preinc, child_is_id.
      destruct x; simpl; rewrite Ht; simpl; rewrite Hn, Hid, (is_var_id i w) by done;
        unfold g_inc, g_ld_value; by rewrite <- ?app_assoc.
Qed.

Lemma checked_post x i : checked (EPost x i).
Proof.
  intros sib er Hw. simpl in Hw. apply andb_true_iff in Hw as [Hv Hw]. unfold is_typed in Hw.
  destruct (ident_width i) as [w|] eqn:Ew; [| done].
  destruct (ident_compile i 0 w) as (n & Hc & Hn & Ht & Hid & Hi); [by left | done |].
  eexists _, _. split; [| split].
  - simpl tree_of. eapply check_op; [by destruct x |].
    replace (child_is_addr (post_node x) 0) with 0 by (by destruct x). apply Hc.
  - simpl. congruence.
  - intros l sib' Hl. cbn [gen].
    replace (width_of (EPost x i)) with w by (unfold width_of; simpl; by rewrite Ew).
    rewrite <- (app_assoc (g_ld_value w _)). apply emits_node; [| | done].
    + apply emits_app_nil, Hi, emits_nil.
    + intros cs. unfold compile_node, compile_dec, compile_inc, child_is_id.
      destruct x; simpl; rewrite Ht; simpl; rewrite Hn, Hid, (is_var_id i w) by done;
        unfold g_inc, g_ld_value, g_ld; by rewrite <- ?app_assoc.
Qed.

Lemma check_syscall p f l er :
  finsh_type_check (Node (syscall_node p f) Nil (args_tree l)) 0 er =
    (Node (syscall_node p f) Nil (finsh_type_check (args_tree l) 0 er).1,
     (finsh_type_check (args_tree l) 0 er).2).
Proof. simpl. by destruct (finsh_type_check (args_tree l) 0 er). Qed.

Lemma checked_call p f l : checked_args l → checked (ECall p f l).
Proof.
  intros IHl sib er Hw. simpl in Hw. apply andb_true_iff in Hw as [Hl _].
  destruct (IHl er Hl) as (He & Hem & Hlen).
  eexists _, _. split; [| split].
  - simpl tree_of. eapply (check_op FINSH_NODE_SYS_FUNC); [done |].
    change (child_is_addr FINSH_NODE_SYS_FUNC 0) with 0. rewrite check_syscall, He. reflexivity.
  - done.
  - intros l' sib' Hl'. cbn [gen].
    rewrite <- !(app_assoc (g_ld f)), <- (app_assoc (gen_args l)), (app_assoc (g_ld f)).
    apply emits_node; [by apply emits_leaf | | done].
    intros cs. unfold compile_node, compile_func. simpl. by rewrite Hlen.
Qed.

Lemma checked_nil : checked_args ANil.
Proof. intros er _. split_and!; [done | apply emits_nil | done]. Qed.
Lemma checked_cons e l : checked e → checked_args l → checked_args (ACons e l).
Proof.
  intros IHe IHl er Hw. simpl in Hw. repeat (apply andb_true_iff in Hw as [Hw ?]).
  destruct (IHl er) as (He & Hem & Hlen); [done |].
  destruct (IHe (args_tree l) er Hw) as (n & c & E & _ & G).
  simpl. rewrite E. simpl. split_and!; [done | by apply G | by rewrite Hlen].
Qed.

(** Type checking an expression the compiler handles reports no error, and
    compiling its annotated tree emits [gen]. *)
Lemma compile_gen : (∀ e, checked e) ∧ (∀ l, checked_args l).
Proof.
  apply expr_args_ind; eauto using checked_char, checked_const, checked_id, checked_bin, checked_not,
    checked_assign, checked_store, checked_deref, checked_addr, checked_pre, checked_post,
    checked_call, checked_nil, checked_cons.
Qed.

(** ** Running the code of an expression *)

(** How many cells an expression needs above those in use. *)
Fixpoint depth (e : expr) : Z :=
  match e with
  | EChar _ | EConst _ _ | EId _ | EAddr _ => 1
  | EBin _ a b | EStore a b => Z.max (depth a) (1 + depth b)
  | ENot a | EDeref a => depth a
  | EAssign _ e => 1 + depth e
  | EPre _ _ => 3
  | EPost _ _ => 4
  | ECall _ _ l => 1 + depth_args l
  end
with depth_args (l : args) : Z :=
  match l with ANil => 0 | ACons e l => Z.max (depth e) (1 + depth_args l) end.

Lemma depth_pos : (∀ e, 1 <= depth e) ∧ (∀ l, 0 <= depth_args l).
Proof. apply expr_args_ind; simpl; lia. Qed.

Lemma covers_trunc p w c v :
  covers p w = true → trunc p c = trunc p v → trunc w c = trunc w v.
Proof.
  intros Hc E. apply trunc_mod. apply (f_equal (λ z, z mod modulus p)) in E.
  rewrite !mod_trunc in E. destruct p, w; try done; simpl in *; lia.
Qed.

Lemma prec_covers e w : dtype e = Some w → covers (prec e) w = true.
Proof.
  intros E. assert (Hw : covers w w = true) by (by destruct w).
  destruct e; simpl in *; rewrite ?E; try done; by destruct w.
Qed.

Lemma trunc_u32 w v : trunc w (u32 v) = trunc w v.
Proof. apply trunc_mod. destruct w; simpl; word. Qed.

Lemma u32_trunc v : u32 (trunc W32 v) = u32 v.
Proof. simpl. word. Qed.

Lemma cell_u32 c v : cell_ok c → trunc W32 c = trunc W32 v → c = u32 v.
Proof. unfold cell_ok. simpl. intros ? E. word. Qed.

Section instructions.
Context (call : Z → list Z → gmap Z Z → res (Z * gmap Z Z)) (T : list Z).
Implicit Types (s : vm) (l : list Z).

(** What is left on the stack by the code of a value of precision [w]. *)
Definition leaves (w : width) (l : list Z) (p : Z) (r : Z * gmap Z Z) (s' : vm) : Prop :=
  ∃ c, trunc w c = trunc w r.1 ∧ st T s' (l ++ [c]) r.2 p.

Lemma run_ld v s l m p c :
  st T s l m p → Z.of_nat (length l) < FINSH_STACK_MAX → code_at T p (g_ld v ++ c) →
  runs call s (Ok tt) (λ _ s', st T s' (l ++ [u32 v]) m (p + 5)).
Proof.
  intros Hs Hl Hc. eapply (runs_op call T s l m p 36 (code_dword v ++ c)); [done | exact Hc | reflexivity |].
  intros Hs1 Hc1. destruct (OP_ld_dword_does T _ l m (p + 1) v c Hs1 Hl Hc1) as (s' & E & c' & _ & Hc' & Hs').
  exists s'. split; [exact E |]. rewrite Hc' in Hs' by done.
  replace (u32 (u32 v)) with (u32 v) in Hs' by word.
  by replace (p + 5) with (p + 1 + 4) by lia.
Qed.

Lemma run_ld_char x s l m p c :
  st T s l m p → Z.of_nat (length l) < FINSH_STACK_MAX →
  code_at T p (g_op (FINSH_OP_LD W8) ++ code_byte x ++ c) →
  runs call s (Ok (trunc W8 x, m)) (leaves W8 l (p + 2)).
Proof.
  intros Hs Hl Hc. eapply (runs_op call T s l m p 34 (code_byte x ++ c)); [done | exact Hc | reflexivity |].
  intros Hs1 Hc1. destruct (OP_ld_byte_does T _ l m (p + 1) (u8 x) c Hs1 Hl Hc1) as (s' & E & c' & Ht & _ & Hs').
  exists s'. split; [exact E |]. exists c'. replace (p + 2) with (p + 1 + 1) by lia. split; [| done].
  cbn [fst]. rewrite Ht, trunc_idem. apply trunc_mod. simpl. word.
Qed.

Lemma run_ld_value w a s l m p c :
  st T s l m p → Z.of_nat (length l) < FINSH_STACK_MAX → code_at T p (g_ld_value w a ++ c) →
  runs call s (read w m (u32 a)) (λ v s', leaves w l (p + 5) (v, m) s').
Proof.
  intros Hs Hl Hc.
  apply (runs_op call T s l m p (FINSH_OP_LD_VALUE w) (code_dword a ++ c) (OP_ld_value w));
    [done | by destruct w | by destruct w |].
  intros Hs1 Hc1. pose proof (OP_ld_value_does T w _ l m (p + 1) a c Hs1 Hl Hc1) as Hd.
  destruct (read w m (u32 a)) as [v|e]; [| done].
  destruct Hd as (s' & E & c' & Ht & _ & Hs'). exists s'. split; [done |].
  exists c'. split; [done |]. by replace (p + 5) with (p + 1 + 4) by lia.
Qed.

Definition one_length (w : width) : Z := 1 + bytes_of w.
Lemma run_one w s l m p c :
  st T s l m p → Z.of_nat (length l) < FINSH_STACK_MAX → code_at T p (load_one w ++ c) →
  runs call s (Ok tt) (λ _ s', leaves w l (p + one_length w) (1, m) s').
Proof.
  intros Hs Hl Hc. destruct w.
  - exact (run_ld_char 1 s l m p c Hs Hl Hc).
  - eapply (runs_op call T s l m p 35 (code_word 1 ++ c)); [done | exact Hc | reflexivity |].
    intros Hs1 Hc1.
    destruct (OP_ld_word_does T _ l m (p + 1) _ _ c Hs1 Hl Hc1) as (s' & E & c' & Ht & _ & Hs').
    exists s'. split; [exact E |]. exists c'. split; [exact Ht |].
    by replace (p + one_length W16) with (p + 1 + 2) by (unfold one_length; simpl; lia).
  - eapply runs_mono; [exact (run_ld 1 s l m p c Hs Hl Hc) |]. intros [] s' Hs'.
    exists (u32 1). split; [done | exact Hs'].
Qed.

Lemma run_bin w x s l a b m p c :
  st T s (l ++ [a; b]) m p → code_at T p (g_op (FINSH_OP_of x w) ++ c) →
  runs call s (r ← c_binop x (trunc w a) (trunc w b); Ok (trunc w r, m)) (leaves w l (p + 1)).
Proof.
  intros Hs Hc.
  apply (runs_op call T s (l ++ [a; b]) m p (FINSH_OP_of x w) c (OP_BIN w x));
    [done | by destruct w, x | by destruct w, x |].
  intros Hs1 _. pose proof (OP_BIN_does T w x _ l a b m (p + 1) Hs1) as Hd.
  destruct (c_binop x (trunc w a) (trunc w b)) as [r|]; simpl in *; [| done].
  destruct Hd as (s' & E & Hs'). exists s'. split; [done |]. exists (put w a r).
  split; [| done]. cbn [fst]. by rewrite trunc_put, trunc_idem.
Qed.

Lemma run_not w s l a m p c :
  st T s (l ++ [a]) m p → code_at T p (g_op (FINSH_OP_BITWISE w) ++ c) →
  runs call s (Ok (trunc w (Z.lnot (trunc w a)), m)) (leaves w l (p + 1)).
Proof.
  intros Hs Hc.
  apply (runs_op call T s (l ++ [a]) m p (FINSH_OP_BITWISE w) c (OP_bw w));
    [done | by destruct w | by destruct w |].
  intros Hs1 _. destruct (OP_bw_does T w _ l a m (p + 1) Hs1) as (s' & E & Hs').
  exists s'. split; [done |]. eexists. split; [| exact Hs'].
  cbn [fst]. by rewrite trunc_put, trunc_idem.
Qed.

Lemma run_st w s l a b m p c :
  st T s (l ++ [a; b]) m p → code_at T p (g_op (FINSH_OP_ST w) ++ c) →
  runs call s (write w m a (trunc w b)) (λ m' s', st T s' (l ++ [a]) m' (p + 1)).
Proof.
  intros Hs Hc.
  apply (runs_op call T s (l ++ [a; b]) m p (FINSH_OP_ST w) c (OP_st w));
    [done | by destruct w | by destruct w |].
  intros Hs1 _. exact (OP_st_does T w _ l a b m (p + 1) Hs1).
Qed.

Lemma run_ld_stack w s l a m p c :
  st T s (l ++ [a]) m p → code_at T p (g_op (FINSH_OP_LD_VALUE_STACK w) ++ c) →
  runs call s (read w m a) (λ v s', leaves w l (p + 1) (v, m) s').
Proof.
  intros Hs Hc.
  apply (runs_op call T s (l ++ [a]) m p (FINSH_OP_LD_VALUE_STACK w) c (OP_ld_value_stack w));
    [done | by destruct w | by destruct w |].
  intros Hs1 _. pose proof (OP_ld_value_stack_does T w _ l a m (p + 1) Hs1) as Hd.
  destruct (read w m a) as [v|]; simpl in *; [| done].
  destruct Hd as (s' & E & Hs'). exists s'. split; [done |]. exists (put w a v).
  split; [apply trunc_put | done].
Qed.

Lemma run_pop s l a m p c :
  st T s (l ++ [a]) m p → code_at T p (g_op FINSH_OP_POP ++ c) →
  runs call s (Ok tt) (λ _ s', st T s' l m (p + 1)).
Proof.
  intros Hs Hc.
  apply (runs_op call T s (l ++ [a]) m p 43 c OP_pop); [done | exact Hc | reflexivity |].
  intros Hs1 _. exact (OP_pop_does T _ l a m (p + 1) Hs1).
Qed.

Lemma run_call s l f vs m p c :
  st T s (l ++ f :: vs) m p → Z.of_nat (length vs) <= 16 →
  code_at T p (g_op FINSH_OP_SYSCALL ++ g_op (Z.of_nat (length vs)) ++ c) →
  runs call s ('(r, m') ← call f (match vs with [] => [0] | _ => vs end) m; Ok (trunc W32 r, m'))
    (leaves W32 l (p + 2)).
Proof.
  intros Hs Hn Hc. unfold g_op, code_byte in Hc.
  replace (u8 (Z.of_nat (length vs))) with (Z.of_nat (length vs)) in Hc by word.
  apply (runs_op call T s (l ++ f :: vs) m p 44 ([Z.of_nat (length vs)] ++ c) (OP_call call));
    [done | exact Hc | reflexivity |].
  intros Hs1 Hc1. pose proof (OP_call_does T call _ l f vs m (p + 1) c Hs1 Hc1 Hn) as Hd.
  destruct (call f _ m) as [[r m']|]; simpl in Hd |- *; [| done].
  destruct Hd as (s' & E & Hs'). exists s'. split; [done |]. exists (u32 r).
  split; [| by replace (p + 2) with (p + 1 + 1) by lia].
  cbn [fst]. by rewrite trunc_idem, trunc_u32.
Qed.
End instructions.

(** ** Reading back what was written *)
Lemma store8_inv m a v m' : store8 m a v = Ok m' → m' = <[a := u8 v]> m.
Proof. unfold store8. intros H. res_inv H. by simplify_eq. Qed.

Lemma load8_insert m a b v : load8 (<[a := v]> m) b = if decide (a = b) then Ok v else load8 m b.
Proof. unfold load8. rewrite lookup_insert. by case_decide. Qed.

Ltac decide_eqs :=
  repeat (simpl; first [ rewrite load8_insert | rewrite decide_False by lia | rewrite decide_True by lia ]).

Lemma write_read w m a v m' :
  write w m a v = Ok m' → ∃ r, read w m' a = Ok r ∧ trunc w r = trunc w v.
Proof.
  unfold write, read. destruct (aligned w a); simpl; [| done]. destruct w; intros H.
  - apply store8_inv in H as ->. decide_eqs. eexists. split; [done |]. simpl. word.
  - bind_inv H. apply store8_inv in E as ->. apply store8_inv in H as ->. decide_eqs.
    eexists. split; [done |]. simpl. word.
  - unfold store32 in H. bind_inv H.
    apply store8_inv in E as ->. apply store8_inv in E0 as ->. apply store8_inv in E1 as ->.
    apply store8_inv in H as ->. unfold load32. decide_eqs.
    eexists. split; [done |]. simpl. word.
Qed.

(** The whole word that starts where a byte or half was written. *)
Lemma write_read_dword w m a v m' d :
  write w m a v = Ok m' → read W32 m' a = Ok d → trunc w d = trunc w v.
Proof.
  intros Hw Hr. destruct w.
  - unfold write in Hw. simpl in Hw. bind_inv Hw. apply store8_inv in Hw as ->.
    unfold read, load32 in Hr. do 2 res_inv1 Hr.
    rewrite load8_insert, decide_True in E1 by done. simplify_eq. bind_inv Hr. simplify_eq.
    simpl. word.
  - unfold write in Hw. bind_inv Hw. apply store8_inv in E0 as ->. apply store8_inv in Hw as ->.
    unfold read, load32 in Hr. do 3 res_inv1 Hr.
    rewrite !load8_insert, decide_False, decide_True in E1 by lia.
    rewrite load8_insert, decide_True in E2 by lia. simplify_eq. bind_inv Hr. simplify_eq.
    simpl. word.
  - destruct (write_read W32 m a v m' Hw) as (r & Er & Ht). simplify_eq. congruence.
Qed.

Section correctness.
Context (call : Z → list Z → gmap Z Z → res (Z * gmap Z Z)) (T : list Z).

Definition computes (e : expr) : Prop :=
  ∀ s l m p, wt e = true → st T s l m p → Z.of_nat (length l) + depth e <= FINSH_STACK_MAX →
    code_at T p (gen e) →
    runs call s (eval call e m) (leaves T (prec e) l (p + Z.of_nat (length (gen e)))).
Definition computes_args (la : args) : Prop :=
  ∀ s l m p, wt_args la = true → st T s l m p →
    Z.of_nat (length l) + depth_args la <= FINSH_STACK_MAX → code_at T p (gen_args la) →
    runs call s (eval_args call la m)
      (λ r s', Z.of_nat (length r.1) = args_length la ∧
               st T s' (l ++ r.1) r.2 (p + Z.of_nat (length (gen_args la)))).

Lemma leaves_at w l p q r s' : leaves T w l p r s' → p = q → leaves T w l q r s'.
Proof. by intros ? ->. Qed.

Lemma st_at s l m p q : st T s l m p → p = q → st T s l m q.
Proof. by intros ? ->. Qed.

Ltac pos := unfold g_op, g_ld, g_ld_value, code_byte, code_dword in *; rewrite ?length_app; simpl; lia.
Ltac room := rewrite ?length_app; simpl; lia.

(** The address of a variable, whole. *)
Lemma u32_storage i : u32 (storage i) = storage i.
Proof. destruct i; simpl; unfold var_value; word. Qed.

Lemma computes_char c : computes (EChar c).
Proof.
  intros s l m p _ Hs Hl Hc. simpl in Hl.
  eapply runs_mono; [apply (run_ld_char call T c s l m p []); [done | lia | done] |].
  intros r s' H. eapply leaves_at; [exact H | pos].
Qed.
Lemma computes_const k v : computes (EConst k v).
Proof.
  intros s l m p _ Hs Hl Hc. simpl in Hl.
  destruct (run_ld call T v s l m p []) as (s' & Hs' & E); [done | lia | done |].
  exists s'. split; [| done]. exists (u32 v). split; [| eapply st_at; [exact Hs' | pos]].
  cbn [fst]. by rewrite trunc_u32, trunc_idem.
Qed.
Lemma computes_addr i : computes (EAddr i).
Proof.
  intros s l m p _ Hs Hl Hc. simpl in Hl.
  destruct (run_ld call T (storage i) s l m p []) as (s' & Hs' & E); [done | lia | done |].
  exists s'. split; [| done]. eexists. split; [| eapply st_at; [exact Hs' | pos]].
  cbn [fst]. by rewrite trunc_u32, trunc_idem.
Qed.
Lemma computes_id i : computes (EId i).
Proof.
  intros s l m p Hw Hs Hl Hc. simpl in Hl. cbn [eval]. cbn [gen] in Hc |- *.
  pose proof (run_ld_value call T (width_of (EId i)) (storage i) s l m p []) as H.
  rewrite u32_storage in H. eapply runs_bind; [apply H; [done | lia | done] |].
  intros v s' (c & Ht & Hs'). apply runs_ret. exists c. cbn [fst snd] in *.
  split; [| eapply st_at; [exact Hs' | pos]].
  change (prec (EId i)) with (width_of (EId i)). by rewrite Ht, trunc_idem.
Qed.

Lemma width_of_prec a w : dtype a = Some w → width_of a = w ∧ covers (prec a) w = true.
Proof. intros E. split; [unfold width_of; by rewrite E | by apply prec_covers]. Qed.

Lemma computes_bin x a b : computes a → computes b → computes (EBin x a b).
Proof.
  intros IHa IHb s l m p Hw Hs Hl Hc. simpl in Hw. apply andb_true_iff in Hw as [Hw Hd].
  apply andb_true_iff in Hw as [Ha Hb]. cbn [depth] in Hl.
  destruct (dtype a) as [w|] eqn:Ew; [| done].
  destruct (width_of_prec a w Ew) as [Ewa Hcov].
  assert (Ep : prec (EBin x a b) = w) by (simpl; by rewrite Ew). rewrite Ep.
  cbn [eval gen] in Hc |- *. rewrite Ewa in *.
  eapply runs_bind; [apply (IHa s l m p); [done | done | lia | by eapply code_at_app_l] |].
  intros [va m1] s1 (ca & Hca & Hs1). cbn [fst snd] in *. apply code_at_app_r in Hc as Hc1.
  eapply runs_bind; [apply (IHb s1 _ m1 _ Hb Hs1); [room | by eapply code_at_app_l] |].
  intros [vb m2] s2 (cb & Hcb & Hs2). cbn [fst snd] in *. apply code_at_app_r in Hc1 as Hc2.
  rewrite <- (app_assoc l) in Hs2.
  rewrite <- (covers_trunc _ w _ _ Hcov Hca), <- (covers_trunc _ w _ _ Hd Hcb).
  eapply runs_mono; [apply (run_bin call T w x s2 l ca cb m2 _ [] Hs2); by rewrite app_nil_r |].
  intros r s' H. eapply leaves_at; [exact H | pos].
Qed.

Lemma computes_not a : computes a → computes (ENot a).
Proof.
  intros IHa s l m p Hw Hs Hl Hc. simpl in Hw. apply andb_true_iff in Hw as [Ha Hd].
  destruct (dtype a) as [w|] eqn:Ew; [| done]. cbn [depth] in Hl.
  destruct (width_of_prec a w Ew) as [Ewa Hcov].
  assert (Ep : prec (ENot a) = w) by (simpl; by rewrite Ew). rewrite Ep.
  cbn [eval gen] in Hc |- *. rewrite Ewa in *.
  eapply runs_bind; [apply (IHa s l m p); [done | done | lia | by eapply code_at_app_l] |].
  intros [va m1] s1 (ca & Hca & Hs1). cbn [fst snd] in *. apply code_at_app_r in Hc as Hc1.
  rewrite <- (covers_trunc _ w _ _ Hcov Hca).
  eapply runs_mono; [apply (run_not call T w s1 l ca m1 _ [] Hs1); by rewrite app_nil_r |].
  intros r s' H. eapply leaves_at; [exact H | pos].
Qed.

Lemma computes_deref a : computes a → computes (EDeref a).
Proof.
  intros IHa s l m p Hw Hs Hl Hc. simpl in Hw. apply andb_true_iff in Hw as [Ha Hd].
  apply bool_decide_eq_true in Hd. cbn [depth] in Hl.
  destruct (width_of_prec a W32 Hd) as [_ Hcov].
  assert (Ep : prec (EDeref a) = W32) by (simpl; by rewrite Hd). rewrite Ep.
  cbn [eval gen] in Hc |- *.
  eapply runs_bind; [apply (IHa s l m p); [done | done | lia | by eapply code_at_app_l] |].
  intros [va m1] s1 (ca & Hca & Hs1). cbn [fst snd] in *. apply code_at_app_r in Hc as Hc1.
  apply (covers_trunc _ W32 _ _ Hcov) in Hca. cbn [fst snd] in *.
  assert (ca = u32 va) as ->.
  { apply cell_u32; [| done]. eapply (st_cell_ok T s1 _ _ _ (length l)); [exact Hs1 |].
    by apply list_lookup_middle. }
  eapply runs_bind; [apply (run_ld_stack call T W32 s1 l _ m1 _ [] Hs1); by rewrite app_nil_r |].
  intros v s' (c & Ht & Hs'). apply runs_ret. exists c. cbn [fst snd] in *.
  split; [by rewrite Ht, trunc_idem | eapply st_at; [exact Hs' | pos]].
Qed.

(** A store, then the value loaded again. *)
Lemma run_store w s l a v b m p c :
  st T s (l ++ [a; b]) m p → trunc w b = trunc w v →
  code_at T p (g_op (FINSH_OP_ST w) ++ g_op (FINSH_OP_LD_VALUE_STACK w) ++ c) →
  runs call s (m ← write w m a (trunc w v); Ok (trunc w v, m)) (leaves T w l (p + 2)).
Proof.
  intros Hs Hb Hc. rewrite <- Hb.
  pose proof (run_st call T w s l a b m p _ Hs Hc) as Hst.
  destruct (write w m a (trunc w b)) as [m'|] eqn:Ew; simpl in Hst |- *; [| done].
  destruct Hst as (s' & Hs' & E). apply code_at_app_r in Hc as Hc1.
  pose proof (run_ld_stack call T w s' l a m' (p + 1) c Hs' Hc1) as Hld.
  destruct (write_read w m a _ _ Ew) as (r & Er & Htr). rewrite Er in Hld.
  destruct Hld as (s2 & (c' & Ht & Hs2) & E2). exists s2. split; [| congruence].
  exists c'. cbn [fst snd] in *. rewrite trunc_idem in Htr |- *. split; [congruence |].
  eapply st_at; [exact Hs2 | lia].
Qed.

Lemma computes_assign i e : computes e → computes (EAssign i e).
Proof.
  intros IHe s l m p Hw Hs Hl Hc. simpl in Hw. apply andb_true_iff in Hw as [He Hd].
  destruct (ident_width i) as [w|] eqn:Ew; [| done]. cbn [depth] in Hl.
  assert (Ep : prec (EAssign i e) = w) by (simpl; by rewrite Ew). rewrite Ep.
  assert (Ewa : width_of (EAssign i e) = w) by exact Ep.
  pose proof (proj1 depth_pos e). cbn [eval gen] in Hc |- *. rewrite Ewa in *.
  destruct (run_ld call T (storage i) s l m p _ Hs ltac:(lia) Hc) as (s1 & Hs1 & E1).
  rewrite u32_storage in Hs1. apply code_at_app_r in Hc as Hc1.
  assert (Hrun : ∀ B (r : res B) Q, runs call s1 r Q → runs call s r Q).
  { intros B r Q. unfold runs. rewrite E1. done. }
  apply Hrun. eapply runs_bind; [apply (IHe s1 _ m _ He Hs1); [room | by eapply code_at_app_l] |].
  intros [v m1] s2 (cv & Hcv & Hs2). cbn [fst snd] in *. apply code_at_app_r in Hc1 as Hc2.
  rewrite <- (app_assoc l) in Hs2. apply (covers_trunc _ w _ _ Hd) in Hcv.
  eapply runs_mono; [apply (run_store w s2 l (storage i) v cv m1 _ [] Hs2 Hcv); by rewrite app_nil_r |].
  intros r s' H'. eapply leaves_at; [exact H' | pos].
Qed.

Lemma computes_store q e : computes q → computes e → computes (EStore q e).
Proof.
  intros IHq IHe s l m p Hw Hs Hl Hc. simpl in Hw.
  apply andb_true_iff in Hw as [Hw Hpe]. apply andb_true_iff in Hw as [Hw Hdq].
  apply andb_true_iff in Hw as [Hq He]. apply bool_decide_eq_true in Hpe, Hdq. cbn [depth] in Hl.
  destruct (width_of_prec q W32 Hdq) as [_ Hcov].
  assert (Ep : prec (EStore q e) = W32) by (simpl; by rewrite Hdq). rewrite Ep.
  cbn [eval gen] in Hc |- *.
  eapply runs_bind; [apply (IHq s l m p); [done | done | lia | by eapply code_at_app_l] |].
  intros [a m1] s1 (ca & Hca & Hs1). cbn [fst snd] in *. apply code_at_app_r in Hc as Hc1.
  apply (covers_trunc _ W32 _ _ Hcov) in Hca. cbn [fst snd] in *.
  assert (ca = u32 a) as ->.
  { apply cell_u32; [| done]. eapply (st_cell_ok T s1 _ _ _ (length l)); [exact Hs1 |].
    by apply list_lookup_middle. }
  eapply runs_bind; [apply (IHe s1 _ m1 _ He Hs1); [room | by eapply code_at_app_l] |].
  intros [v m2] s2 (cv & Hcv & Hs2). cbn [fst snd] in *. apply code_at_app_r in Hc1 as Hc2.
  rewrite <- (app_assoc l) in Hs2. rewrite Hpe in Hcv.
  eapply runs_mono; [apply (run_store W32 s2 l (u32 a) v cv m2 _ [] Hs2 Hcv); by rewrite app_nil_r |].
  intros r s' H'. eapply leaves_at; [exact H' | pos].
Qed.

(** [ld_value; ld 1; add or sub; st] on the address at the top of the stack. *)
Lemma run_increment w x i s l m p c :
  st T s (l ++ [storage i]) m p → Z.of_nat (length l) + 3 <= FINSH_STACK_MAX →
  code_at T p (g_inc w x (storage i) ++ c) →
  runs call s (increment w x (storage i) m)
    (λ r s', (∃ v0, trunc w v0 = r.1.2 ∧ write w m (storage i) v0 = Ok r.2) ∧
       (∃ v, read w m (storage i) = Ok v ∧ trunc w v = r.1.1) ∧
       st T s' (l ++ [storage i]) r.2 (p + (8 + bytes_of w))).
Proof.
  intros Hs Hl Hc. unfold increment. unfold g_inc in Hc. rewrite <- !app_assoc in Hc.
  pose proof (run_ld_value call T w (storage i) s _ m p _ Hs ltac:(room) Hc) as Hv.
  rewrite u32_storage in Hv.
  destruct (read w m (storage i)) as [v|] eqn:Er; simpl in Hv |- *; [| done].
  destruct Hv as (s1 & (cv & Hcv & Hs1) & E0). apply (runs_from call s s1 _ _ E0).
  cbn [fst snd] in *. apply code_at_app_r in Hc as Hc1.
  eapply (runs_bind call s1 (Ok tt) (λ _, _)); [apply (run_one call T w s1 _ m _ _ Hs1 ltac:(room) Hc1) |].
  intros _ s2 (c1 & Hc1' & Hs2). cbn [fst snd] in *. apply code_at_app_r in Hc1 as Hc2.
  rewrite <- !(app_assoc _ _ [c1]) in Hs2.
  assert (E1 : trunc w c1 = 1) by (rewrite Hc1'; by destruct w).
  assert (Hp : p + Z.of_nat (length (g_ld_value w (storage i))) + Z.of_nat (length (load_one w)) =
    p + 5 + one_length w) by (destruct w; simpl; unfold one_length; simpl; lia).
  rewrite Hp in Hc2.
  pose proof (run_bin call T w (inc_binop x) s2 _ cv c1 m _ _ Hs2 Hc2) as Hb.
  rewrite Hcv, E1 in Hb.
  destruct (c_binop (inc_binop x) (trunc w v) 1) as [r|]; simpl in Hb |- *; [| done].
  destruct Hb as (s3 & (c3 & Hc3 & Hs3) & E3). cbn [fst snd] in *. rewrite trunc_idem in Hc3.
  apply code_at_app_r in Hc2 as Hc4. rewrite <- (app_assoc l) in Hs3.
  pose proof (run_st call T w s3 l (storage i) c3 m _ _ Hs3 Hc4) as Hst. rewrite Hc3 in Hst.
  destruct (write w m (storage i) (trunc w r)) as [m'|] eqn:Ew; simpl in Hst |- *; [| congruence].
  destruct Hst as (s4 & Hs4 & E4). exists s4. split; [| congruence]. split_and!.
  - exists (trunc w r). split; [apply trunc_idem | done].
  - by exists v.
  - eapply st_at; [exact Hs4 |]. unfold one_length. simpl. lia.
Qed.

Lemma wt_inc i : is_var i && is_typed i = true → ∃ w, ident_width i = Some w.
Proof.
  intros H. apply andb_true_iff in H as [_ H]. unfold is_typed in H. destruct (ident_width i); eauto; done.
Qed.

Lemma g_inc_length w x a : Z.of_nat (length (g_inc w x a)) = 8 + bytes_of w.
Proof. destruct w; done. Qed.

Lemma computes_pre x i : computes (EPre x i).
Proof.
  intros s l m p Hw Hs Hl Hc. destruct (wt_inc i Hw) as [w Ew]. cbn [depth] in Hl.
  assert (Ep : prec (EPre x i) = w) by (simpl; by rewrite Ew). rewrite Ep.
  assert (Ewa : width_of (EPre x i) = w) by exact Ep. cbn [eval gen] in Hc |- *. rewrite Ewa in *.
  destruct (run_ld call T (storage i) s l m p _ Hs ltac:(lia) Hc) as (s1 & Hs1 & E1).
  rewrite u32_storage in Hs1. apply code_at_app_r in Hc as Hc1.
  apply (runs_from call s s1 _ _ E1).
  eapply runs_bind; [apply (run_increment w x i s1 l m _ _ Hs1 ltac:(lia) Hc1) |].
  intros [[old new] m1] s2 ((v0 & Hv0 & Hwr) & _ & Hs2). cbn [fst snd] in *.
  apply code_at_app_r in Hc1. rewrite <- (app_nil_r (g_op _)), g_inc_length in Hc1.
  pose proof (run_ld_stack call T W32 s2 l (storage i) m1 _ [] Hs2 Hc1) as Hld.
  destruct (read W32 m1 (storage i)) as [d|] eqn:Ed; simpl in Hld |- *; [| done].
  destruct Hld as (s3 & (c & Hcd & Hs3) & E3). exists s3. split; [| done]. exists c. cbn [fst snd] in *.
  split; [| eapply st_at; [exact Hs3 |]].
  - rewrite (covers_trunc W32 w c d) by (by destruct w).
    rewrite (write_read_dword w _ _ _ _ _ Hwr Ed), Hv0, <- Hv0, trunc_idem. done.
  - destruct w, x; pos.
Qed.

Lemma computes_post x i : computes (EPost x i).
Proof.
  intros s l m p Hw Hs Hl Hc. destruct (wt_inc i Hw) as [w Ew]. cbn [depth] in Hl.
  assert (Ep : prec (EPost x i) = w) by (simpl; by rewrite Ew). rewrite Ep.
  assert (Ewa : width_of (EPost x i) = w) by exact Ep. cbn [eval gen] in Hc |- *. rewrite Ewa in *.
  pose proof (run_ld_value call T w (storage i) s l m p _ Hs ltac:(lia) Hc) as Hv.
  rewrite u32_storage in Hv. apply code_at_app_r in Hc as Hc1. apply code_at_app_r in Hc1 as Hc2.
  destruct (read w m (storage i)) as [v|] eqn:Er;
    [| unfold increment; rewrite Er; simpl in Hv |- *; done].
  destruct Hv as (s1 & (cv & Hcv & Hs1) & E1). cbn [fst snd] in *.
  destruct (run_ld call T (storage i) s1 _ m _ _ Hs1 ltac:(room) Hc1) as (s2 & Hs2 & E2).
  rewrite u32_storage in Hs2. apply (runs_from call s s2); [congruence |].
  eapply runs_bind; [apply (run_increment w x i s2 _ m _ _ Hs2 ltac:(room) Hc2) |].
  intros [[old new] m1] s3 (_ & (v' & Ev & Hold) & Hs3). cbn [fst snd] in *.
  rewrite Er in Ev. injection Ev as <-. rewrite <- Hold.
  apply code_at_app_r in Hc2. rewrite <- (app_nil_r (g_op _)), g_inc_length in Hc2.
  destruct (run_pop call T s3 _ (storage i) m1 _ [] Hs3 Hc2) as (s4 & Hs4 & E4).
  exists s4. split; [| done]. exists cv. cbn [fst snd]. split; [rewrite trunc_idem; exact Hcv |].
  eapply st_at; [exact Hs4 |]. destruct w, x; pos.
Qed.

Lemma computes_nil : computes_args ANil.
Proof.
  intros s l m p _ Hs _ _. apply runs_ret. cbn [fst snd]. rewrite app_nil_r. split; [done |].
  eapply st_at; [exact Hs | simpl; lia].
Qed.

Lemma computes_cons e la : computes e → computes_args la → computes_args (ACons e la).
Proof.
  intros IHe IHl s l m p Hw Hs Hl Hc. simpl in Hw. apply andb_true_iff in Hw as [Hw Hla].
  apply andb_true_iff in Hw as [He Hp]. apply bool_decide_eq_true in Hp. cbn [depth_args] in Hl.
  cbn [eval_args gen_args] in Hc |- *.
  eapply runs_bind; [apply (IHe s l m p He Hs); [lia | by eapply code_at_app_l] |].
  intros [v m1] s1 (c & Hcv & Hs1). cbn [fst snd] in *. apply code_at_app_r in Hc as Hc1.
  eapply runs_bind; [apply (IHl s1 _ m1 _ Hla Hs1); [room | done] |].
  intros [vs m2] s2 (Hn & Hs2). cbn [fst snd] in *. apply runs_ret. cbn [fst snd].
  rewrite Hp in Hcv.
  assert (c = u32 v) as ->.
  { apply cell_u32; [| done]. eapply (st_cell_ok T s1 _ _ _ (length l)); [exact Hs1 |].
    by apply list_lookup_middle. }
  split; [simpl; lia |]. rewrite <- (app_assoc l) in Hs2. eapply st_at; [exact Hs2 | pos].
Qed.

Lemma computes_call q f la : computes_args la → computes (ECall q f la).
Proof.
  intros IHl s l m p Hw Hs Hl Hc. simpl in Hw. apply andb_true_iff in Hw as [Hla Hn].
  apply Z.leb_le in Hn. cbn [depth] in Hl. cbn [eval gen] in Hc |- *.
  pose proof (proj2 depth_pos la).
  destruct (run_ld call T f s l m p _ Hs ltac:(lia) Hc) as (s1 & Hs1 & E1).
  apply (runs_from call s s1 _ _ E1). apply code_at_app_r in Hc as Hc1.
  eapply runs_bind; [apply (IHl s1 _ m _ Hla Hs1); [room | by eapply code_at_app_l] |].
  intros [vs m1] s2 (Hlen & Hs2). cbn [fst snd] in *. apply code_at_app_r in Hc1 as Hc2.
  rewrite <- (app_assoc l) in Hs2. rewrite <- Hlen in Hc2.
  eapply runs_mono.
  - apply (run_call call T s2 l (u32 f) vs m1 _ [] Hs2); [lia |]. by rewrite app_nil_r.
  - intros r s' H'. change (prec (ECall q f la)) with W32. eapply leaves_at; [exact H' | pos].
Qed.

(** The code of an expression computes it. *)
Lemma gen_computes : (∀ e, computes e) ∧ (∀ la, computes_args la).
Proof.
  apply expr_args_ind; eauto using computes_char, computes_const, computes_id, computes_bin,
    computes_not, computes_assign, computes_store, computes_deref, computes_addr, computes_pre,
    computes_post, computes_call, computes_nil, computes_cons.
Qed.
End correctness.

(** ** Command lines: statements separated by [;] *)
Fixpoint stmts_tree (es : list expr) : tree :=
  match es with [] => Nil | e :: es => tree_of e (stmts_tree es) end.

Fixpoint gen_stmts (es : list expr) : list Z :=
  match es with
  | [] => []
  | e :: es' => match es' with [] => gen e | _ => gen e ++ g_op FINSH_OP_POP ++ gen_stmts es' end
  end.

(** The value of the line is that of its last statement. *)
Fixpoint eval_stmts (call : Z → list Z → gmap Z Z → res (Z * gmap Z Z)) (es : list expr)
    (m : gmap Z Z) : res (Z * gmap Z Z) :=
  match es with
  | [] => Ok (0, m)
  | e :: es' =>
      '(v, m) ← eval call e m; match es' with [] => Ok (v, m) | _ => eval_stmts call es' m end
  end.
Fixpoint line_prec (es : list expr) : width :=
  match es with
  | [] => W32
  | e :: es' => match es' with [] => prec e | _ => line_prec es' end
  end.

Lemma tree_of_node e sib : ∃ n c s, tree_of e sib = Node n c s.
Proof. destruct e; simpl; eauto. Qed.

Lemma compile_stmts_gen es er :
  es ≠ [] → forallb wt es = true →
  ∃ t, finsh_type_check (stmts_tree es) 0 er = (t, er) ∧ t ≠ Nil ∧
    ∀ l0 cs, (finsh_code l0 cs ≫= compile_statements t) = finsh_code (l0 ++ gen_stmts es) cs.
Proof.
  induction es as [| e es IH]; intros Hne Hw; [done |]. simpl in Hw.
  apply andb_true_iff in Hw as [He Hes].
  destruct (proj1 compile_gen e (stmts_tree es) er He) as (n & c & E & _ & G). simpl stmts_tree.
  rewrite E. pose proof (G [] Nil emits_nil) as Ge. rewrite app_nil_r in Ge.
  destruct es as [| e' es'].
  - exists (Node n c Nil). split_and!; [done | done |]. intros l0 cs.
    rewrite <- Ge. apply bind_ext. intros cs'. cbn [compile_statements].
    by destruct (finsh_compile (Node n c Nil) cs').
  - destruct IH as (t & Et & Hnil & Ht); [done | done |]. rewrite Et. simpl fst. simpl snd.
    exists (Node n c t). split_and!; [done | done |]. intros l0 cs.
    destruct t as [| n' c' s']; [done |].
    rewrite (bind_ext _ _ (λ cs, finsh_compile (Node n c Nil) cs ≫= λ cs,
      finsh_code (g_op FINSH_OP_POP) cs ≫= compile_statements (Node n' c' s'))) by done.
    rewrite <- bind_assoc, Ge, <- bind_assoc, finsh_code_app, Ht. by rewrite <- !app_assoc.
Qed.

Section lines.
Context (call : Z → list Z → gmap Z Z → res (Z * gmap Z Z)) (T : list Z).

Lemma gen_stmts_run es s m p :
  es ≠ [] → forallb wt es = true → Forall (λ e, depth e <= FINSH_STACK_MAX) es →
  st T s [] m p → code_at T p (gen_stmts es) →
  runs call s (eval_stmts call es m)
    (leaves T (line_prec es) [] (p + Z.of_nat (length (gen_stmts es)))).
Proof.
  revert s m p. induction es as [| e es IH]; intros s m p Hne Hw Hd Hs Hc; [done |].
  simpl in Hw. apply andb_true_iff in Hw as [He Hes]. apply Forall_cons_1 in Hd as [Hde Hd].
  cbn [eval_stmts line_prec gen_stmts] in *. destruct es as [| e' es'].
  - pose proof (proj1 (gen_computes call T) e s [] m p He Hs ltac:(simpl; lia) Hc) as H.
    destruct (eval call e m) as [[v m']|]; exact H.
  - pose proof (proj1 (gen_computes call T) e s [] m p He Hs ltac:(simpl; lia)
      (code_at_app_l _ _ _ _ Hc)) as H.
    eapply runs_bind; [exact H |]. intros [v m1] s1 (c & _ & Hs1). cbn [fst snd] in *.
    apply code_at_app_r in Hc as Hc1.
    destruct (run_pop call T s1 [] c m1 _ _ Hs1 Hc1) as (s2 & Hs2 & E2).
    apply (runs_from call s1 s2 _ _ E2). apply code_at_app_r in Hc1 as Hc2.
    eapply runs_mono; [apply (IH s2 m1 _ ltac:(done) Hes Hd Hs2); exact Hc2 |].
    intros r s' H'. eapply leaves_at; [exact H' |].
    rewrite !length_app. unfold g_op, code_byte. cbn [length]. lia.
Qed.

(** The text after the code is zero, and zero is the operation that does nothing. *)
Lemma run_zeros n s l m p :
  st T s l m p → n = Z.to_nat (FINSH_TEXT_MAX - p) → code_at T p (replicate n 0) →
  ∃ s', run call s = Ok s' ∧ finsh_vm_stack s' = finsh_vm_stack s ∧ vm_mem s' = m.
Proof.
  revert s p. induction n as [| n IH]; intros s p Hs Hn Hc.
  - exists s. split_and!; [| done | exact (st_mem _ _ _ _ _ Hs)]. apply run_end.
    rewrite (st_pc _ _ _ _ _ Hs). unfold in_text, FINSH_TEXT_MAX in *. apply andb_false_iff. right.
    apply Z.ltb_ge. lia.
  - simpl in Hc.
    assert (Hr : runs call s (Ok tt) (λ _ s', st T s' l m (p + 1) ∧ finsh_vm_stack s' = finsh_vm_stack s)).
    { eapply (runs_op call T s l m p 0 (replicate n 0)); [done | done | reflexivity |].
      intros Hs1 _. eexists. split; [reflexivity |]. done. }
    destruct Hr as (s1 & [Hs1 Hst] & E).
    destruct (IH s1 (p + 1)) as (s' & E' & Hst' & Hm); [done | lia | |].
    + by apply (code_at_app_r _ _ [0]).
    + exists s'. split_and!; [congruence | congruence | done].
Qed.
End lines.

Lemma compiled_line es s :
  es ≠ [] → forallb wt es = true → Z.of_nat (length (gen_stmts es)) <= FINSH_TEXT_MAX → vm_ok s →
  let T := gen_stmts es ++ replicate (Z.to_nat FINSH_TEXT_MAX - length (gen_stmts es)) 0 in
  ∃ s1, finsh_compiler_run (stmts_tree es) FINSH_ERROR_OK s = Ok (s1, FINSH_ERROR_OK) ∧
    st T (with_pc 0 (with_sp 0 s1)) [] (vm_mem s) 0.
Proof.
  intros Hne Hw Hlen [Hl Hc Ht]. cbv zeta.
  destruct (compile_stmts_gen es FINSH_ERROR_OK Hne Hw) as (t & Et & _ & Hg).
  unfold finsh_compiler_run. rewrite Et.
  assert (Hs : set_cell 0 0 s = Ok (with_stack (<[0%nat := 0]> (finsh_vm_stack s)) s)).
  { unfold set_cell, cell. unfold FINSH_STACK_MAX in Hl.
    destruct (finsh_vm_stack s); simpl in *; [lia | done]. }
  rewrite Hs. cbn [mbind res_bind].
  specialize (Hg [] (mk_cstate [] FINSH_ERROR_OK)).
  change (finsh_code [] (mk_cstate [] FINSH_ERROR_OK)) with (Ok (mk_cstate [] FINSH_ERROR_OK)) in Hg.
  cbn [mbind res_bind] in Hg. rewrite Hg. unfold finsh_code. cbn [compiled app errno].
  rewrite (proj2 (Z.leb_le _ _) Hlen). cbn. eexists. split; [reflexivity |].
  split; cbn; try done. split; cbn; rewrite ?length_insert; [done | |].
  - apply Forall_insert; [done | unfold cell_ok; lia].
  - rewrite length_app, length_replicate. unfold FINSH_TEXT_MAX in *. lia.
Qed.

(** ** The theorem *)

Lemma line_runs call es s :
  es ≠ [] → forallb wt es = true →
  Forall (λ e, depth e <= FINSH_STACK_MAX) es →
  Z.of_nat (length (gen_stmts es)) <= FINSH_TEXT_MAX →
  vm_ok s →
  ∃ s1, finsh_compiler_run (stmts_tree es) FINSH_ERROR_OK s = Ok (s1, FINSH_ERROR_OK) ∧
    match eval_stmts call es (vm_mem s) with
    | Stop w => finsh_vm_run call s1 = Stop w
    | Ok (v, m') => ∃ s2 r, finsh_vm_run call s1 = Ok s2 ∧ vm_mem s2 = m' ∧
        finsh_stack_bottom s2 = Ok r ∧ trunc (line_prec es) r = trunc (line_prec es) v
    end.
Proof.
  intros Hne Hw Hd Hlen Hok.
  destruct (compiled_line es s Hne Hw Hlen Hok) as (s1 & E1 & Hs1). exists s1. split; [done |].
  rewrite finsh_vm_run_eq. set (T := gen_stmts es ++ _) in Hs1.
  assert (Hc : code_at T 0 (gen_stmts es)).
  { exists [], (replicate (Z.to_nat FINSH_TEXT_MAX - length (gen_stmts es)) 0). done. }
  pose proof (gen_stmts_run call T es _ _ 0 Hne Hw Hd Hs1 Hc) as Hr.
  destruct (eval_stmts call es (vm_mem s)) as [[v m']|w]; [| exact Hr].
  destruct Hr as (s' & (c & Hcv & Hs') & E'). cbn [fst snd app] in *.
  destruct (run_zeros call T _ s' [c] m' _ Hs' eq_refl) as (s2 & E2 & Hst & Hm).
  { eapply (code_at_app_r T 0 (gen_stmts es)). exists [], []. rewrite app_nil_r. split; [| done].
    unfold T. simpl. f_equal. f_equal. lia. }
  exists s2, (trunc W32 c). split_and!; [congruence | done | |].
  - unfold finsh_stack_bottom, field.
    pose proof (st_cell T s' [c] m' _ 0 c Hs' eq_refl) as Hcell.
    change (Z.of_nat 0) with 0 in Hcell. unfold cell in *. rewrite Hst. by rewrite Hcell.
  - rewrite <- Hcv. apply (covers_trunc W32); [by destruct (line_prec es) | apply trunc_idem].
Qed.

(** C13. Compiling a line of expressions and running it computes the line: no error
    is reported, the memory is that of the reference semantics, and the bottom of
    the stack, which the shell prints, holds the value of the last statement at
    its precision.  Where the reference stops (division by zero, overflow, an
    access outside memory), so does the machine. *)
Theorem finsh_line_correct call es s :
  es ≠ [] → forallb wt es = true →
  Forall (λ e, depth e <= FINSH_STACK_MAX) es →
  Z.of_nat (length (gen_stmts es)) <= FINSH_TEXT_MAX →
  vm_ok s →
  ∃ s1, finsh_compiler_run (stmts_tree es) FINSH_ERROR_OK s = Ok (s1, FINSH_ERROR_OK) ∧
    match eval_stmts call es (vm_mem s) with
    | Stop w => finsh_vm_run call s1 = Stop w
    | Ok (v, m') => ∃ s2 r, finsh_vm_run call s1 = Ok s2 ∧ vm_mem s2 = m' ∧
        finsh_stack_bottom s2 = Ok r ∧ trunc (line_prec es) r = trunc (line_prec es) v
    end.
Proof. apply line_runs. Qed.

(** ** Examples *)

(** Two variables of the shell ([int x], [char c]), a system variable and a
    function that adds its two arguments. *)
Definition demo_x : ident := Var 0x80010000 finsh_type_int.
Definition demo_c : ident := Var 0x80010100 finsh_type_char.
Definition demo_p : ident := Var 0x80010200 finsh_type_charp.
Definition demo_mem : gmap Z Z :=
  list_to_map ((λ i, (0x80010014 + i, 0)) <$> seqZ 0 4 ++
               seqZ 256 4 ++ seqZ 512 4 ++ seqZ 1024 8).
Definition demo_add (_ : Z) (l : list Z) (m : gmap Z Z) : res (Z * gmap Z Z) :=
  Ok (foldr Z.add 0 l, m).
Definition demo_vm (garbage : Z) : vm :=
  mk_vm (replicate 64 garbage) (replicate 128 0) 0 0 demo_mem.

Lemma demo_vm_ok g : 0 <= g < 4294967296 → vm_ok (demo_vm g).
Proof.
  intros H. split; [done | | done]. apply Forall_replicate. unfold cell_ok. lia.
Qed.

(** [x = 6; f(x++, x) * 2; x] *)
Definition demo_line : list expr :=
  [ EAssign demo_x (EConst CInt 6);
    EBin Add (EConst CInt 1) (ECall 0x80020000 0x80030000
      (ACons (EPost Inc demo_x) (ACons (EId demo_x) ANil))) ].

Lemma finsh_line_correct_witness :
  eval_stmts demo_add demo_line demo_mem = Ok (14, <[0x80010014 := 7]> demo_mem) ∧
  ∃ s1, finsh_compiler_run (stmts_tree demo_line) FINSH_ERROR_OK (demo_vm 0) =
      Ok (s1, FINSH_ERROR_OK) ∧
    match eval_stmts demo_add demo_line (vm_mem (demo_vm 0)) with
    | Stop w => finsh_vm_run demo_add s1 = Stop w
    | Ok (v, m') => ∃ s2 r, finsh_vm_run demo_add s1 = Ok s2 ∧ vm_mem s2 = m' ∧
        finsh_stack_bottom s2 = Ok r ∧ trunc (line_prec demo_line) r = trunc (line_prec demo_line) v
    end.
Proof.
  split; [vm_compute; reflexivity |].
  apply (finsh_line_correct demo_add demo_line (demo_vm 0)).
  - discriminate.
  - reflexivity.
  - repeat constructor; vm_compute; discriminate.
  - vm_compute. discriminate.
  - apply demo_vm_ok. lia.
Defined.

(** What the shell prints after a line. *)
Definition shows (call : Z → list Z → gmap Z Z → res (Z * gmap Z Z)) (t : tree) (s : vm) : res Z :=
  '(s, _) ← finsh_compiler_run t FINSH_ERROR_OK s;
  s ← finsh_vm_run call s;
  finsh_stack_bottom s.

(** [x = 6; 1 + f(x++, x)] is 14. *)
Example shows_demo_line : shows demo_add (stmts_tree demo_line) (demo_vm 0) = Ok 14.
Proof. vm_compute. reflexivity. Qed.

(** ** Where the compiler falls short *)

(** Six increments on a line compile to 143 bytes: the compiler writes past the
    128 bytes of [text_segment], although the line has only 12 nodes. *)
Theorem six_increments_overflow_text :
  finsh_compiler_run (stmts_tree (replicate 6 (EPost Inc demo_x))) FINSH_ERROR_OK (demo_vm 0) =
    Stop OutOfBounds ∧
  Z.of_nat (length (gen_stmts (replicate 6 (EPost Inc demo_x)))) = 143.
Proof. vm_compute. done. Qed.

(** [sizeof(finsh_vm_stack[0])] clears one cell, so a [char] is pushed into a cell
    that still has the bytes of an earlier line: the value of [1 + 'a'] depends on
    them. *)
Theorem char_operand_is_stale :
  shows demo_add (tree_of (EBin Add (EConst CInt 1) (EChar 97)) Nil) (demo_vm 0) = Ok 98 ∧
  shows demo_add (tree_of (EBin Add (EConst CInt 1) (EChar 97)) Nil) (demo_vm 0x100) = Ok 354.
Proof. vm_compute. done. Qed.

(** [c = 5] for a [char c] at 0x80010114 shows 0x80010105: the value is loaded
    again into the low byte of the cell that held the address. *)
Theorem char_assignment_shows_address :
  shows demo_add (tree_of (EAssign demo_c (EConst CInt 5)) Nil) (demo_vm 0) = Ok (s32 0x80010105).
Proof. vm_compute. done. Qed.

(** A call has the data type of its function, which is void: an operation with a
    call on its left emits nothing, and [f(1, 2) + 4] is 3. *)
Theorem call_on_the_left_adds_nothing :
  shows demo_add
    (tree_of (EBin Add (ECall 0x80020000 0x80030000
       (ACons (EConst CInt 1) (ACons (EConst CInt 2) ANil))) (EConst CInt 4)) Nil) (demo_vm 0) = Ok 3 ∧
  shows demo_add
    (tree_of (EBin Add (EConst CInt 4) (ECall 0x80020000 0x80030000
       (ACons (EConst CInt 1) (ACons (EConst CInt 2) ANil)))) Nil) (demo_vm 0) = Ok 7.
Proof. vm_compute. done. Qed.

(** [++v] for a system variable reads [id.var]: it compiles the address 20 bytes
    into the variable's descriptor, not that of the variable. *)
Theorem preinc_sysvar_wrong_address p t v w :
  compile_preinc FINSH_OP_ADD (mk_node FINSH_NODE_SYS_PREINC (Some w) 0 0 IdNull)
    (Node (mk_node FINSH_NODE_ID (Some w) (Z.lor FINSH_IDTYPE_SYSVAR FINSH_IDTYPE_ADDRESS) 0
       (IdSysvar p t v)) Nil Nil) =
  code_byte (FINSH_OP_LD_VALUE w) ++ code_dword (var_value p) ++ load_one w ++
  code_byte (FINSH_OP_ADD w) ++ code_byte (FINSH_OP_ST w) ++ code_byte (FINSH_OP_LD_VALUE_STACK W32).
Proof. reflexivity. Qed.

(** A [void*] variable has a data type but no code: [v] alone compiles to
    nothing, and shows the cleared cell. *)
Theorem voidp_variable_loads_nothing p er s :
  vm_ok s →
  ∃ s1, finsh_compiler_run (Node (ident_node (Var p finsh_type_voidp)) Nil Nil) er s = Ok (s1, er) ∧
    text_segment s1 = replicate 128 0.
Proof.
  intros [Hl _ _]. unfold finsh_compiler_run. simpl. unfold set_cell, cell, FINSH_STACK_MAX in *.
  destruct (finsh_vm_stack s); simpl in *; [lia |]. eauto.
Qed.
