(* ===== verification/FinshToken.v ===== *)
(** * The tokenizer of the finsh shell: [components/finsh/finsh_token.c]

    The tokenizer reads the command line character by character; [char] is
    signed.  [line] is the text before its terminating zero; [lex_string] is the
    whole buffer of 128 bytes, with what earlier tokens left in it. *)
From S2P Require Import Prelude KMemory FinshVm FinshCompiler.
Local Open Scope Z_scope.

Definition FINSH_STRING_MAX : Z := 128.
Definition FINSH_NAME_MAX : Z := 16.

Definition FINSH_ERROR_INVALID_TOKEN : Z := 1.
Definition FINSH_ERROR_EXPECT_TYPE : Z := 2.
Definition FINSH_ERROR_VARIABLE_EXIST : Z := 4.
Definition FINSH_ERROR_EXPECT_OPERATOR : Z := 5.
Definition FINSH_ERROR_MEMORY_FULL : Z := 6.
Definition FINSH_ERROR_EXPECT_CHAR : Z := 9.
Definition FINSH_ERROR_UNEXPECT_END : Z := 10.
Definition FINSH_ERROR_UNKNOWN_TOKEN : Z := 11.
Definition FINSH_ERROR_UNKNOWN_SYMBOL : Z := 13.
Definition FINSH_ERROR_NULL_NODE : Z := 14.

Inductive finsh_token_type :=
  | finsh_token_type_left_paren | finsh_token_type_right_paren | finsh_token_type_comma
  | finsh_token_type_semicolon | finsh_token_type_mul | finsh_token_type_add
  | finsh_token_type_inc | finsh_token_type_sub | finsh_token_type_dec
  | finsh_token_type_div | finsh_token_type_mod | finsh_token_type_assign
  | finsh_token_type_and | finsh_token_type_or | finsh_token_type_xor
  | finsh_token_type_bitwise | finsh_token_type_shl | finsh_token_type_shr
  | finsh_token_type_comments
  | finsh_token_type_void | finsh_token_type_char | finsh_token_type_short
  | finsh_token_type_int | finsh_token_type_long | finsh_token_type_unsigned
  | finsh_token_type_value_char | finsh_token_type_value_int | finsh_token_type_value_long
  | finsh_token_type_value_string | finsh_token_type_value_null
  | finsh_token_type_identifier | finsh_token_type_bad | finsh_token_type_eof.
#[global] Instance finsh_token_type_eq_dec : EqDecision finsh_token_type.
Proof. solve_decision. Defined.

(** [struct finsh_token], with [global_errno]. *)
Record lexer := mk_lexer {
  eof : bool;
  replay : bool;
  position : Z;
  current_token : finsh_token_type;
  lex_value : Z;
  lex_string : list Z;
  line : list Z;
  global_errno : Z;
}.

Definition set_eof (b : bool) (s : lexer) : lexer :=
  mk_lexer b (replay s) (position s) (current_token s) (lex_value s) (lex_string s) (line s) (global_errno s).
Definition set_replay (b : bool) (s : lexer) : lexer :=
  mk_lexer (eof s) b (position s) (current_token s) (lex_value s) (lex_string s) (line s) (global_errno s).
Definition set_position (p : Z) (s : lexer) : lexer :=
  mk_lexer (eof s) (replay s) p (current_token s) (lex_value s) (lex_string s) (line s) (global_errno s).
Definition set_token (t : finsh_token_type) (s : lexer) : lexer :=
  mk_lexer (eof s) (replay s) (position s) t (lex_value s) (lex_string s) (line s) (global_errno s).
Definition set_lex_value (v : Z) (s : lexer) : lexer :=
  mk_lexer (eof s) (replay s) (position s) (current_token s) v (lex_string s) (line s) (global_errno s).
Definition set_lex_string (l : list Z) (s : lexer) : lexer :=
  mk_lexer (eof s) (replay s) (position s) (current_token s) (lex_value s) l (line s) (global_errno s).
Definition set_errno (e : Z) (s : lexer) : lexer :=
  mk_lexer (eof s) (replay s) (position s) (current_token s) (lex_value s) (lex_string s) (line s) e.

(** [memset] leaves [current_token] 0, which is no token; it is not read before
    the first token is. *)
Definition finsh_token_init (s : lexer) (l : list Z) : lexer :=
  mk_lexer false false 0 finsh_token_type_bad 0 (replicate (Z.to_nat FINSH_STRING_MAX) 0) l (global_errno s).

(** ** Characters *)
Definition is_alpha (ch : Z) : bool := u32 (Z.lor ch 32 - 97) <? 26.
Definition is_digit (ch : Z) : bool := (48 <=? ch) && (ch <=? 57).
Definition is_xdigit (ch : Z) : bool := is_digit ch || (u32 (Z.lor ch 32 - 97) <? 6).
Definition is_separator (ch : Z) : bool :=
  negb (((97 <=? ch) && (ch <=? 122)) || ((65 <=? ch) && (ch <=? 90)) ||
        ((48 <=? ch) && (ch <=? 57)) || (ch =? 95)).
Definition is_octal (ch : Z) : bool := u32 (ch - 48) <? 8.

Definition token_next_char (s : lexer) : res (Z * lexer) :=
  if eof s then Ok (0, s)
  else if position s =? Z.of_nat (length (line s)) then Ok (0, set_position 0 (set_eof true s))
  else
    ch ← of_option OutOfBounds (line s !! Z.to_nat (position s));
    if ch =? 10 then Ok (0, set_position 0 (set_eof true s))
    else Ok (s8 ch, set_position (position s + 1) s).

Definition token_prev_char (s : lexer) : lexer :=
  if eof s then s else if position s =? 0 then s else set_position (position s - 1) s.

(** The loops read a character each time round and end at the end of the line. *)
Definition line_fuel (s : lexer) : nat := S (S (length (line s))).

(** [string[i] = v] *)
Definition put_string (i v : Z) (s : lexer) : res lexer :=
  _ ← require OutOfBounds ((0 <=? i) && (i <? FINSH_STRING_MAX));
  Ok (set_lex_string (<[Z.to_nat i := u8 v]> (lex_string s)) s).

Fixpoint get_string_loop (fuel : nat) (ch n : Z) (s : lexer) : res (Z * lexer) :=
  if negb (is_separator ch) && negb (eof s) then
    match fuel with
    | O => Stop OutOfFuel
    | S fuel =>
        s ← put_string n ch s;
        '(ch, s) ← token_next_char s;
        get_string_loop fuel ch (n + 1) s
    end
  else Ok (n, s).

Definition token_get_string (s : lexer) : res lexer :=
  '(ch, s) ← token_next_char s;
  if eof s then Ok s else
  s ← put_string 0 0 s;
  if is_digit ch then Ok (token_prev_char s) else
  '(n, s) ← get_string_loop (line_fuel s) ch 0 s;
  let s := token_prev_char (set_eof false s) in
  put_string n 0 s.

Fixpoint trim_loop (fuel : nat) (s : lexer) : res lexer :=
  '(ch, s) ← token_next_char s;
  if (ch =? 32) || (ch =? 9) || (ch =? 13) then
    match fuel with O => Stop OutOfFuel | S fuel => trim_loop fuel s end
  else Ok s.
Definition token_trim_space (s : lexer) : res lexer :=
  s ← trim_loop (line_fuel s) s; Ok (token_prev_char s).

(** The characters of the buffer up to the first zero. *)
Fixpoint until_zero (l : list Z) : option (list Z) :=
  match l with
  | [] => None
  | c :: l => if c =? 0 then Some [] else cons c <$> until_zero l
  end.
Definition c_string (s : lexer) : res (list Z) := of_option OutOfBounds (until_zero (lex_string s)).

(** The key words; [strcmp] compares whole strings. *)
Definition finsh_name_table : list (list Z * finsh_token_type) :=
  [ ([118; 111; 105; 100], finsh_token_type_void);
    ([99; 104; 97; 114], finsh_token_type_char);
    ([115; 104; 111; 114; 116], finsh_token_type_short);
    ([105; 110; 116], finsh_token_type_int);
    ([108; 111; 110; 103], finsh_token_type_long);
    ([117; 110; 115; 105; 103; 110; 101; 100], finsh_token_type_unsigned);
    ([78; 85; 76; 76], finsh_token_type_value_null);
    ([110; 117; 108; 108], finsh_token_type_value_null) ].
Fixpoint match_name (table : list (list Z * finsh_token_type)) (str : list Z) : option finsh_token_type :=
  match table with
  | [] => None
  | (name, t) :: table => if bool_decide (name = str) then Some t else match_name table str
  end.
Definition token_match_name (str : list Z) (s : lexer) : bool * lexer :=
  match match_name finsh_name_table str with
  | Some t => (true, set_token t s)
  | None => (false, s)
  end.

(** ** Literals *)

(** [char buf[4]]: [n] characters are in it. *)
Fixpoint char_digits (fuel : nat) (ch n : Z) (s : lexer) : res (Z * lexer) :=
  if is_digit ch then
    match fuel with
    | O => Stop OutOfFuel
    | S fuel =>
        '(ch, s) ← token_next_char s;
        _ ← require OutOfBounds (n <? 4);
        char_digits fuel ch (n + 1) s
    end
  else Ok (n, s).

(** In the numeric case [p] is at the terminator when [atoi(p)] is called, which
    is 0 for an empty string. *)
Definition char_escape (ch : Z) (s : lexer) : res (Z * lexer) :=
  if ch =? 110 then Ok (10, s) else if ch =? 116 then Ok (9, s)
  else if ch =? 118 then Ok (11, s) else if ch =? 98 then Ok (8, s)
  else if ch =? 114 then Ok (13, s) else if ch =? 92 then Ok (92, s)
  else if ch =? 39 then Ok (39, s)
  else
    '(n, s) ← char_digits (line_fuel s) ch 0 s;
    _ ← require OutOfBounds (n <? 4);
    Ok (0, token_prev_char s).

Definition token_proc_char (s : lexer) : res (Z * lexer) :=
  '(ch, s) ← token_next_char s;
  '(ch, s) ← (if ch =? 92 then '(ch, s) ← token_next_char s; char_escape ch s else Ok (ch, s));
  '(q, s) ← token_next_char s;
  if negb (q =? 39) then Ok (ch, set_errno FINSH_ERROR_EXPECT_CHAR (token_prev_char s))
  else Ok (ch, s).

Definition xdigit_value (ch : Z) : Z := if ch <? 65 then ch - 48 else Z.lor ch 32 - 97 + 10.
Fixpoint hex_loop (fuel : nat) (ch result : Z) (s : lexer) : res (Z * lexer) :=
  if is_xdigit ch then
    match fuel with
    | O => Stop OutOfFuel
    | S fuel =>
        result ← c_int (result * 16 + xdigit_value ch);
        '(ch, s) ← token_next_char s; hex_loop fuel ch result s
    end
  else Ok (result, s).
Fixpoint oct_loop (fuel : nat) (ch result : Z) (s : lexer) : res (Z * lexer) :=
  if is_octal ch then
    match fuel with
    | O => Stop OutOfFuel
    | S fuel =>
        result ← c_int (result * 8 + ch); result ← c_int (result - 48);
        '(ch, s) ← token_next_char s; oct_loop fuel ch result s
    end
  else Ok (result, s).

Definition token_proc_escape (s : lexer) : res (Z * lexer) :=
  '(ch, s) ← token_next_char s;
  if ch =? 110 then Ok (10, s) else if ch =? 116 then Ok (9, s)
  else if ch =? 118 then Ok (11, s) else if ch =? 98 then Ok (8, s)
  else if ch =? 114 then Ok (13, s) else if ch =? 102 then Ok (12, s)
  else if ch =? 97 then Ok (7, s) else if ch =? 34 then Ok (34, s)
  else if (ch =? 120) || (ch =? 88) then
    '(ch, s) ← token_next_char s;
    '(r, s) ← hex_loop (line_fuel s) ch 0 s;
    Ok (r, token_prev_char s)
  else if is_octal ch then
    '(r, s) ← oct_loop (line_fuel s) ch 0 s; Ok (r, token_prev_char s)
  else Ok (0, s).

(** The 128 turns of the loop fill the buffer; a longer string is left without
    its terminator and the rest of it is the next token. *)
Fixpoint string_loop (turns : nat) (n : Z) (s : lexer) : res lexer :=
  match turns with
  | O => Ok s
  | S turns =>
      '(ch, s) ← token_next_char s;
      if eof s then Ok (set_errno FINSH_ERROR_UNEXPECT_END s)
      else if ch =? 92 then
        '(ch, s) ← token_proc_escape s; s ← put_string n ch s; string_loop turns (n + 1) s
      else if ch =? 34 then put_string n 0 s
      else s ← put_string n ch s; string_loop turns (n + 1) s
  end.
Definition token_proc_string (s : lexer) : res lexer :=
  string_loop (Z.to_nat FINSH_STRING_MAX) 0 s.

(** ** Numbers *)
Definition BN_SIZE : nat := 2.
Definition spec_digit (c : Z) : Z :=
  if (97 <=? c) && (c <=? 102) then c - 97 + 10
  else if (65 <=? c) && (c <=? 70) then c - 65 + 10 else c - 48.
(** Shift the big number left and put [t] in: the carry goes to the next word. *)
Fixpoint bn_shift (shift : Z) (bn : list Z) (t : Z) : list Z :=
  match bn with
  | [] => []
  | v :: bn => Z.lor (u32 (Z.shiftl v shift)) (u32 t) :: bn_shift shift bn (s32 (Z.shiftr v (32 - shift)))
  end.
Definition token_spec_number (string : list Z) (b : Z) : Z :=
  let shift := if b =? 16 then 4 else if b =? 8 then 3 else 1 in
  let bn := fold_left (λ bn c, bn_shift shift bn (spec_digit c)) string (replicate BN_SIZE 0) in
  s32 (hd 0 bn).

(** The loops that collect digits into [char buf[128]]. *)
Fixpoint digits_into (fuel : nat) (is_d : Z → bool) (ch : Z) (buf : list Z) (s : lexer)
    : res (Z * list Z * lexer) :=
  if is_d ch then
    match fuel with
    | O => Stop OutOfFuel
    | S fuel =>
        _ ← require OutOfBounds (Z.of_nat (length buf) <? 128);
        '(ch', s) ← token_next_char s;
        digits_into fuel is_d ch' (buf ++ [ch]) s
    end
  else _ ← require OutOfBounds (Z.of_nat (length buf) <? 128); Ok (ch, buf, s).

Fixpoint decimal_loop (fuel : nat) (ch value : Z) (s : lexer) : res (Z * Z * lexer) :=
  if is_digit ch then
    match fuel with
    | O => Stop OutOfFuel
    | S fuel =>
        value ← c_int (value * 10 + (ch - 48));
        '(ch, s) ← token_next_char s; decimal_loop fuel ch value s
    end
  else Ok (ch, value, s).

(** The suffix: [l] or [L] makes it a long. *)
Definition number_suffix (ch : Z) (s : lexer) : lexer :=
  if (ch =? 108) || (ch =? 76) then set_token finsh_token_type_value_long s else token_prev_char s.

Definition set_int (v : Z) (s : lexer) : lexer :=
  set_token finsh_token_type_value_int (set_lex_value (u32 v) s).

Definition spec_number (b : Z) (is_d : Z → bool) (ch : Z) (s : lexer) : res lexer :=
  '(ch, buf, s) ← digits_into (line_fuel s) is_d ch [] s;
  Ok (number_suffix ch (set_int (token_spec_number buf b) s)).

Definition token_proc_number (s : lexer) : res lexer :=
  '(ch, s) ← token_next_char s;
  if ch =? 48 then
    '(ch, s) ← token_next_char s;
    if (ch =? 120) || (ch =? 88) then
      '(ch, s) ← token_next_char s; spec_number 16 (λ c, is_digit c || is_alpha c) ch s
    else if (ch =? 98) || (ch =? 66) then
      '(ch, s) ← token_next_char s; spec_number 2 (λ c, (c =? 48) || (c =? 49)) ch s
    else if (48 <=? ch) && (ch <=? 55) then
      spec_number 8 (λ c, (48 <=? c) && (c <=? 55)) ch s
    else Ok (set_int 0 (token_prev_char s))
  else
    '(ch, value, s) ← decimal_loop (line_fuel s) ch 0 s;
    Ok (number_suffix ch (set_int value s)).

(** ** Tokens *)

(** An operator of two characters, or of one. *)
Definition two_char (second : Z) (yes no : finsh_token_type) (s : lexer) : res lexer :=
  '(ch, s) ← token_next_char s;
  if ch =? second then Ok (set_token yes s) else Ok (set_token no (token_prev_char s)).

Definition operator (s : lexer) : res lexer :=
  '(ch, s) ← token_next_char s;
  if ch =? 40 then Ok (set_token finsh_token_type_left_paren s)
  else if ch =? 41 then Ok (set_token finsh_token_type_right_paren s)
  else if ch =? 44 then Ok (set_token finsh_token_type_comma s)
  else if ch =? 59 then Ok (set_token finsh_token_type_semicolon s)
  else if ch =? 38 then Ok (set_token finsh_token_type_and s)
  else if ch =? 42 then Ok (set_token finsh_token_type_mul s)
  else if ch =? 43 then two_char 43 finsh_token_type_inc finsh_token_type_add s
  else if ch =? 45 then two_char 45 finsh_token_type_dec finsh_token_type_sub s
  else if ch =? 47 then two_char 47 finsh_token_type_eof finsh_token_type_div s
  else if ch =? 60 then two_char 60 finsh_token_type_shl finsh_token_type_bad s
  else if ch =? 62 then two_char 62 finsh_token_type_shr finsh_token_type_bad s
  else if ch =? 124 then Ok (set_token finsh_token_type_or s)
  else if ch =? 37 then Ok (set_token finsh_token_type_mod s)
  else if ch =? 126 then Ok (set_token finsh_token_type_bitwise s)
  else if ch =? 94 then Ok (set_token finsh_token_type_xor s)
  else if ch =? 61 then Ok (set_token finsh_token_type_assign s)
  else if ch =? 39 then
    '(v, s) ← token_proc_char s;
    Ok (set_token finsh_token_type_value_char (set_lex_value (put W8 (lex_value s) v) s))
  else if ch =? 34 then
    s ← token_proc_string s; Ok (set_token finsh_token_type_value_string s)
  else if is_digit ch then token_proc_number (token_prev_char s)
  else Ok (set_token finsh_token_type_bad (set_errno FINSH_ERROR_UNKNOWN_TOKEN s)).

Definition token_run (s : lexer) : res lexer :=
  s ← token_trim_space s;
  s ← token_get_string s;
  if eof s then Ok (set_token finsh_token_type_eof s) else
  c ← of_option OutOfBounds (lex_string s !! 0%nat);
  if negb (c =? 0) then
    str ← c_string s;
    let '(found, s) := token_match_name str s in
    if found then Ok s else Ok (set_token finsh_token_type_identifier s)
  else operator s.

Definition finsh_token_token (s : lexer) : res (finsh_token_type * lexer) :=
  s ← (if replay s then Ok (set_replay false s) else token_run s);
  Ok (current_token s, s).
