(* ===== verification/FinshHeap.v ===== *)
(** * The variables and the string heap of the finsh shell: [finsh_var.c], [finsh_heap.c]

    The eight variables of the shell are a table of name and type; their values
    are in memory, where [FinshCompiler.var_value] says.  The heap for string
    literals is an array of 128 bytes cut into blocks, each with a header of 8
    bytes (length, next); a header is named by its offset, as in [Heap]. *)
From S2P Require Import Prelude KMemory FinshVm FinshCompiler FinshToken.
Local Open Scope Z_scope.

Definition FINSH_VARIABLE_MAX : nat := 8.
Definition FINSH_HEAP_MAX : Z := 128.
Definition HEADER : Z := 8.
Definition SIZEOF_FINSH_VAR : Z := 24.

(** ** Names: an array of characters that ends in a zero unless it is full *)
Record cname := mk_cname { chars : list Z; terminated : bool }.

(** [strncpy(id, s, FINSH_NAME_MAX)] into an array of one more byte, which is not
    cleared first. *)
Definition copy_name (s : list Z) : cname :=
  mk_cname (take (Z.to_nat FINSH_NAME_MAX) s) (Z.of_nat (length s) <? FINSH_NAME_MAX).

(** [strncmp(a, b, FINSH_NAME_MAX) == 0] for arrays of this kind. *)
Definition same_name (a b : list Z) : bool :=
  bool_decide (take (Z.to_nat FINSH_NAME_MAX) a = take (Z.to_nat FINSH_NAME_MAX) b).

(** ** [finsh_var.c] *)
Abbreviation variable := (list Z * finsh_type)%type.

Definition finsh_var_init : list (list Z * finsh_type) :=
  replicate FINSH_VARIABLE_MAX ([], finsh_type_unknown).

Definition is_unknown (t : finsh_type) : bool :=
  match t with finsh_type_unknown => true | _ => false end.

(** The loop: [None] when the name exists, else the first empty entry. *)
Fixpoint insert_loop (vars : list (list Z * finsh_type)) (name : list Z) (i : nat) (empty : option nat)
    : option (option nat) :=
  match vars with
  | [] => Some empty
  | (n, t) :: vars =>
      if same_name n name then None
      else insert_loop vars name (S i)
             (if is_unknown t then match empty with None => Some i | _ => empty end else empty)
  end.

(** The result is the index, or [None] for -1. *)
Definition finsh_var_insert (vars : list (list Z * finsh_type)) (name : list Z) (t : finsh_type)
    : option nat * list (list Z * finsh_type) :=
  match insert_loop vars name 0 None with
  | None => (None, vars)
  | Some None => (None, vars)
  | Some (Some i) => (Some i, <[i := (take (Z.to_nat FINSH_NAME_MAX) name, t)]> vars)
  end.

Fixpoint find_name (vars : list (list Z * finsh_type)) (name : list Z) (i : nat) : option nat :=
  match vars with
  | [] => None
  | (n, _) :: vars => if same_name n name then Some i else find_name vars name (S i)
  end.

Definition finsh_var_lookup (vars : list (list Z * finsh_type)) (name : list Z) : option nat :=
  find_name vars name 0.

(** The value is cleared too: four bytes at the end of the structure. *)
Definition finsh_var_delete (global_variable : Z) (vars : list (list Z * finsh_type)) (name : list Z)
    (m : gmap Z Z) : res (option nat * list (list Z * finsh_type) * gmap Z Z) :=
  match finsh_var_lookup vars name with
  | None => Ok (None, vars, m)
  | Some i =>
      m ← store32 m (var_value (global_variable + SIZEOF_FINSH_VAR * Z.of_nat i)) 0;
      Ok (Some 0%nat, <[i := ([], finsh_type_unknown)]> vars, m)
  end.

(** ** [finsh_heap.c] *)
Record finsh_block_header := mk_header { fb_length : Z; fb_next : option Z }.

Record fheap := mk_fheap {
  headers : gmap Z finsh_block_header;
  free_list : option Z;
  allocate_list : option Z;
}.

(** Which of the two lists a function works on. *)
Inductive which := FreeList | AllocateList.
Definition get_list (w : which) (h : fheap) : option Z :=
  match w with FreeList => free_list h | AllocateList => allocate_list h end.
Definition set_list (w : which) (l : option Z) (h : fheap) : fheap :=
  match w with
  | FreeList => mk_fheap (headers h) l (allocate_list h)
  | AllocateList => mk_fheap (headers h) (free_list h) l
  end.
Definition header_at (x : Z) (h : fheap) : res finsh_block_header :=
  of_option NullDeref (headers h !! x).
Definition put_header (x : Z) (b : finsh_block_header) (h : fheap) : fheap :=
  mk_fheap (<[x := b]> (headers h)) (free_list h) (allocate_list h).
Definition next_of (x : Z) (h : fheap) : res (option Z) := b ← header_at x h; Ok (fb_next b).
Definition length_of (x : Z) (h : fheap) : res Z := b ← header_at x h; Ok (fb_length b).
Definition set_next (x : Z) (n : option Z) (h : fheap) : res fheap :=
  b ← header_at x h; Ok (put_header x (mk_header (fb_length b) n) h).
Definition set_length (x : Z) (l : Z) (h : fheap) : res fheap :=
  b ← header_at x h; Ok (put_header x (mk_header l (fb_next b)) h).

Definition heap_fuel (h : fheap) : nat := S (size (headers h)).

Definition finsh_heap_init : fheap :=
  mk_fheap {[ 0 := mk_header (FINSH_HEAP_MAX - HEADER) None ]} (Some 0) None.

(** [HEAP_ALIGN_SIZE] *)
Definition HEAP_ALIGN_SIZE (size : Z) : Z := Z.land (u32 (size + 3)) (Z.lnot 3).

(** The search of [finsh_block_insert]: the last node before [header]. *)
Fixpoint insert_point (fuel : nat) (node header : Z) (h : fheap) : res Z :=
  n ← next_of node h;
  match n with
  | None => Ok node
  | Some x =>
      if header <? x then Ok node
      else match fuel with O => Stop OutOfFuel | S fuel => insert_point fuel x header h end
  end.

Definition finsh_block_insert (w : which) (header : Z) (h : fheap) : res fheap :=
  match get_list w h with
  | None => Ok (set_list w (Some header) h)
  | Some node =>
      if header <? node then
        h ← set_next header (Some node) h; Ok (set_list w (Some header) h)
      else
        node ← insert_point (heap_fuel h) node header h;
        n ← next_of node h;
        h ← (match n with Some x => set_next header (Some x) h | None => Ok h end);
        set_next node (Some header) h
  end.

(** The node before [header], if the list has one. *)
Fixpoint find_before (fuel : nat) (node : option Z) (header : Z) (h : fheap) : res (option Z) :=
  match node with
  | None => Ok None
  | Some x =>
      n ← next_of x h;
      if bool_decide (n = Some header) then Ok (Some x)
      else match fuel with O => Stop OutOfFuel | S fuel => find_before fuel n header h end
  end.

(** Removing the first node clears its link; removing another one does not. *)
Definition finsh_block_remove (w : which) (header : Z) (h : fheap) : res fheap :=
  if bool_decide (get_list w h = Some header) then
    n ← next_of header h; set_next header None (set_list w n h)
  else
    node ← find_before (heap_fuel h) (get_list w h) header h;
    match node with
    | Some x => n ← next_of header h; set_next x n h
    | None => Ok h
    end.

Definition finsh_block_split (header size : Z) (h : fheap) : res fheap :=
  b ← header_at header h;
  let next := header + HEADER + size in
  let h := put_header next (mk_header (u32 (fb_length b - HEADER - size)) (fb_next b)) h in
  Ok (put_header header (mk_header size (Some next)) h).

(** [(u_char* )x + x->length + sizeof(header) == (u_char* )y] *)
Definition adjacent (x y : Z) (h : fheap) : res bool :=
  l ← length_of x h; Ok (x + l + HEADER =? y).

(** The node after [header], if it touches it. *)
Definition close_next (header : Z) (h : fheap) : res (option Z) :=
  n ← next_of header h;
  match n with
  | Some x => c ← adjacent header x h; Ok (if c : bool then Some x else None)
  | None => Ok None
  end.
Definition close_prev (w : which) (header : Z) (h : fheap) : res (option Z) :=
  p ← (if bool_decide (get_list w h = Some header) then Ok None
       else find_before (heap_fuel h) (get_list w h) header h);
  match p with
  | Some x => c ← adjacent x header h; Ok (if c : bool then Some x else None)
  | None => Ok None
  end.

(** [to] takes over [header] (with [extra] bytes besides) and its link. *)
Definition absorb (to header extra : Z) (h : fheap) : res fheap :=
  tl ← length_of to h; hl ← length_of header h; n ← next_of header h;
  h ← set_length to (u32 (tl + hl + HEADER + extra)) h; set_next to n h.

Definition finsh_block_merge (w : which) (header : Z) (h : fheap) : res fheap :=
  prev ← close_prev w header h;
  next ← close_next header h;
  match prev, next with
  | Some p, Some n =>
      hl ← length_of header h; absorb p n (hl + HEADER) h
  | Some p, None => absorb p header 0 h
  | None, Some n => absorb header n 0 h
  | None, None => Ok h
  end.

Definition finsh_heap_free (header : Z) (h : fheap) : res fheap :=
  h ← finsh_block_remove AllocateList header h;
  h ← finsh_block_insert FreeList header h;
  finsh_block_merge FreeList header h.

(** ** Allocation *)
Section heap.
(** The addresses of [finsh_heap] and [global_variable]. *)
Context (finsh_heap global_variable : Z).

Definition block_data (header : Z) : Z := u32 (finsh_heap + header + HEADER).

(** Does a variable of the shell point at the block? *)
Fixpoint referenced (vars : list (list Z * finsh_type)) (i : Z) (header : Z) (m : gmap Z Z) : res bool :=
  match vars with
  | [] => Ok false
  | (_, t) :: vars =>
      if is_unknown t then referenced vars (i + 1) header m
      else
        p ← load32 m (var_value (global_variable + SIZEOF_FINSH_VAR * i));
        if (p : Z) =? block_data header then Ok true else referenced vars (i + 1) header m
  end.

Fixpoint gc_loop (fuel : nat) (header : option Z) (vars : list (list Z * finsh_type)) (m : gmap Z Z)
    (h : fheap) : res fheap :=
  match header with
  | None => Ok h
  | Some x =>
      match fuel with
      | O => Stop OutOfFuel
      | S fuel =>
          r ← referenced vars 0 x m;
          n ← next_of x h;
          h ← (if r : bool then Ok h else finsh_heap_free x h);
          gc_loop fuel n vars m h
      end
  end.
Definition finsh_heap_gc (vars : list (list Z * finsh_type)) (m : gmap Z Z) (h : fheap) : res fheap :=
  gc_loop (heap_fuel h) (allocate_list h) vars m h.

(** First fit: the first block of the free list for which [fits] holds. *)
Fixpoint first_fit (fuel : nat) (header : option Z) (fits : Z → bool) (h : fheap) : res (option Z) :=
  match header with
  | None => Ok None
  | Some x =>
      l ← length_of x h;
      if fits l then Ok (Some x)
      else match fuel with
           | O => Stop OutOfFuel
           | S fuel => n ← next_of x h; first_fit fuel n fits h
           end
  end.

(** [None] is NULL. *)
Definition finsh_heap_allocate (size : Z) (vars : list (list Z * finsh_type)) (m : gmap Z Z) (h : fheap)
    : res (option Z * gmap Z Z * fheap) :=
  let size := HEAP_ALIGN_SIZE size in
  header ← first_fit (heap_fuel h) (free_list h) (λ l, negb (l <=? u32 (size + HEADER))) h;
  '(header, h) ← (match header with
    | Some x => Ok (Some x, h)
    | None =>
        h ← finsh_heap_gc vars m h;
        x ← first_fit (heap_fuel h) (free_list h) (λ l, negb (l <? u32 (size + HEADER))) h;
        Ok (x, h)
    end);
  match header with
  | None => Ok (None, m, h)
  | Some x =>
      h ← finsh_block_split x size h;
      h ← finsh_block_remove FreeList x h;
      h ← set_next x None h;
      h ← finsh_block_insert AllocateList x h;
      m ← set_bytes (Z.to_nat size) m (block_data x) 0;
      Ok (Some (block_data x), m, h)
  end.
End heap.
