(* ===== verification/FinshParser.v ===== *)
(** * The parser of the finsh shell: [finsh_parser.c], [finsh_node.c]

    The functions of the parser descend the grammar; a tree ([FinshCompiler.tree])
    stands for a pointer to a node, [Nil] for NULL.  The table of 16 nodes is the
    count of those in use: nothing frees a node before the line is done.  The
    mutual recursion goes through [proc_assign_expr] and [proc_cast_expr], which
    take [fuel]; the functions between them are parameterised by these two. *)
From S2P Require Import Prelude KMemory FinshVm FinshCompiler FinshToken FinshHeap.
Local Open Scope Z_scope.

Definition FINSH_NODE_MAX : Z := 16.

(** A system variable or function of the tables or lists: its descriptor's
    address, its name, its description and what it stands for. *)
Record finsh_sysvar := mk_sysvar
  { sv_ptr : Z; sv_name : list Z; sv_desc : list Z; sv_type : finsh_type; sv_var : Z }.
Record finsh_syscall := mk_syscall { sc_ptr : Z; sc_name : list Z; sc_desc : list Z; sc_func : Z }.

(** The symbols of the system, and where the shell's own arrays are. *)
Record symbols := mk_symbols {
  _sysvar_table : list finsh_sysvar;
  global_sysvar_list : list finsh_sysvar;
  _syscall_table : list finsh_syscall;
  global_syscall_list : list finsh_syscall;
  finsh_heap_addr : Z;
  global_variable_addr : Z;
}.

Record parser := mk_parser {
  lex : lexer;
  nodes : Z;
  variables : list (list Z * finsh_type);
  pheap : fheap;
  pmem : gmap Z Z;
}.
Definition with_lex (l : lexer) (s : parser) : parser :=
  mk_parser l (nodes s) (variables s) (pheap s) (pmem s).
Definition with_nodes (n : Z) (s : parser) : parser :=
  mk_parser (lex s) n (variables s) (pheap s) (pmem s).
Definition with_vars (v : list (list Z * finsh_type)) (s : parser) : parser :=
  mk_parser (lex s) (nodes s) v (pheap s) (pmem s).
Definition with_pheap (h : fheap) (m : gmap Z Z) (s : parser) : parser :=
  mk_parser (lex s) (nodes s) (variables s) h m.

Definition next_token (s : parser) : res (finsh_token_type * parser) :=
  '(t, l) ← finsh_token_token (lex s); Ok (t, with_lex l s).
Definition finsh_token_replay (s : parser) : parser := with_lex (set_replay true (lex s)) s.
Definition error_set (e : Z) (s : parser) : parser := with_lex (set_errno e (lex s)) s.

Definition check_token (token type : finsh_token_type) (s : parser) : parser :=
  if decide (token = type) then s
  else finsh_token_replay (error_set FINSH_ERROR_INVALID_TOKEN s).
Definition match_token (type : finsh_token_type) (s : parser) : res parser :=
  '(token, s) ← next_token s; Ok (check_token token type s).

Definition is_base_type (t : finsh_token_type) : bool :=
  match t with
  | finsh_token_type_void | finsh_token_type_char | finsh_token_type_short
  | finsh_token_type_int | finsh_token_type_long => true
  | _ => false
  end.

(** ** Symbols: [finsh_sysvar_lookup], [finsh_syscall_lookup] *)

(** The tables are searched with [strcmp], the lists with [strncmp] over the
    length of the name looked for: any name that begins with it is found. *)
Definition is_prefix (name n : list Z) : bool := bool_decide (take (length name) n = name).

Definition finsh_sysvar_lookup (env : symbols) (name : list Z) : option finsh_sysvar :=
  match find (λ v, bool_decide (sv_name v = name)) (_sysvar_table env) with
  | Some v => Some v
  | None => find (λ v, is_prefix name (sv_name v)) (global_sysvar_list env)
  end.
Definition finsh_syscall_lookup (env : symbols) (name : list Z) : option finsh_syscall :=
  match find (λ c, bool_decide (sc_name c = name)) (_syscall_table env) with
  | Some c => Some c
  | None => find (λ c, is_prefix name (sc_name c)) (global_syscall_list env)
  end.

Section parser.
Context (env : symbols).

(** ** Nodes *)
Definition finsh_node_allocate (s : parser) : option parser :=
  if nodes s =? FINSH_NODE_MAX then None else Some (with_nodes (nodes s + 1) s).

(** A leaf, or NULL with the error that the table is full. *)
Definition new_leaf (n : finsh_node) (s : parser) : tree * parser :=
  match finsh_node_allocate s with
  | Some s => (Node n Nil Nil, s)
  | None => (Nil, error_set FINSH_ERROR_MEMORY_FULL s)
  end.

(** The symbol of a name: a variable of the shell first, then a system variable,
    then a system call.  A name that fills the array has no terminator, and the
    comparison with the system's names would read on. *)
Definition lookup_symbol (id : cname) (s : parser) : res (option finsh_node) :=
  match finsh_var_lookup (variables s) (chars id) with
  | Some i =>
      let p := global_variable_addr env + SIZEOF_FINSH_VAR * Z.of_nat i in
      match variables s !! i with
      | Some (_, t) => Ok (Some (mk_node FINSH_NODE_ID None FINSH_IDTYPE_VAR 0 (IdVar p t)))
      | None => Stop OutOfBounds
      end
  | None =>
      _ ← require OutOfBounds (terminated id);
      match finsh_sysvar_lookup env (chars id) with
      | Some v => Ok (Some (mk_node FINSH_NODE_ID None FINSH_IDTYPE_SYSVAR 0
                              (IdSysvar (sv_ptr v) (sv_type v) (sv_var v))))
      | None =>
          match finsh_syscall_lookup env (chars id) with
          | Some c => Ok (Some (mk_node FINSH_NODE_ID None FINSH_IDTYPE_SYSCALL 0
                                  (IdSyscall (sc_ptr c) (sc_func c))))
          | None => Ok None
          end
      end
  end.

Definition finsh_node_new_id (id : cname) (s : parser) : res (tree * parser) :=
  o ← lookup_symbol id s;
  Ok (match o with
      | Some n => new_leaf n s
      | None => (Nil, error_set FINSH_ERROR_UNKNOWN_SYMBOL s)
      end).

Definition value_leaf (ty : finsh_node_type) (v : Z) : finsh_node := mk_node ty None 0 v IdNull.

Definition finsh_node_new_char (c : Z) (s : parser) : tree * parser :=
  new_leaf (value_leaf FINSH_NODE_VALUE_CHAR (u8 c)) s.
Definition finsh_node_new_int (i : Z) (s : parser) : tree * parser :=
  new_leaf (value_leaf FINSH_NODE_VALUE_INT (u32 i)) s.
Definition finsh_node_new_long (l : Z) (s : parser) : tree * parser :=
  new_leaf (value_leaf FINSH_NODE_VALUE_LONG (u32 l)) s.
Definition finsh_node_new_ptr (p : Z) (s : parser) : tree * parser :=
  new_leaf (value_leaf FINSH_NODE_VALUE_NULL (u32 p)) s.

Fixpoint store_string (m : gmap Z Z) (a : Z) (l : list Z) : res (gmap Z Z) :=
  match l with
  | [] => store8 m a 0
  | c :: l => m ← store8 m a c; store_string m (a + 1) l
  end.

(** The string is copied to the heap; a full heap is not checked for. *)
Definition finsh_node_new_string (str : list Z) (s : parser) : res (tree * parser) :=
  match finsh_node_allocate s with
  | None => Ok (Nil, error_set FINSH_ERROR_MEMORY_FULL s)
  | Some s =>
      '(ptr, m, h) ← finsh_heap_allocate (finsh_heap_addr env) (global_variable_addr env)
                       (Z.of_nat (length str) + 1) (variables s) (pmem s) (pheap s);
      p ← of_option NullDeref ptr;
      m ← store_string m p str;
      Ok (Node (value_leaf FINSH_NODE_VALUE_STRING p) Nil Nil, with_pheap h m s)
  end.

(** [node1->sibling = node2] *)
Definition set_sibling (t sib : tree) : tree :=
  match t with Node n c _ => Node n c sib | Nil => Nil end.

Definition make_sys_node (ty : finsh_node_type) (node1 node2 : tree) (s : parser) : tree * parser :=
  match finsh_node_allocate s with
  | None => (Nil, error_set FINSH_ERROR_NULL_NODE s)
  | Some s =>
      match node1 with
      | Nil => (Node (mk_node ty None 0 0 IdNull) Nil Nil, error_set FINSH_ERROR_NULL_NODE s)
      | Node _ _ _ => (Node (mk_node ty None 0 0 IdNull) (set_sibling node1 node2) Nil, s)
      end
  end.

(** ** Types and identifiers *)
Definition base_type (t : finsh_token_type) : finsh_type :=
  match t with
  | finsh_token_type_void => finsh_type_void
  | finsh_token_type_char => finsh_type_char
  | finsh_token_type_short => finsh_type_short
  | finsh_token_type_int => finsh_type_int
  | finsh_token_type_long => finsh_type_long
  | _ => finsh_type_unknown
  end.
Definition unsigned_type (t : finsh_token_type) : option finsh_type :=
  match t with
  | finsh_token_type_char => Some finsh_type_uchar
  | finsh_token_type_short => Some finsh_type_ushort
  | finsh_token_type_int => Some finsh_type_uint
  | finsh_token_type_long => Some finsh_type_ulong
  | _ => None
  end.
Definition pointer_type (t : finsh_type) : finsh_type :=
  match t with
  | finsh_type_void => finsh_type_voidp
  | finsh_type_char | finsh_type_uchar => finsh_type_charp
  | finsh_type_short | finsh_type_ushort => finsh_type_shortp
  | finsh_type_int | finsh_type_uint => finsh_type_intp
  | finsh_type_long | finsh_type_ulong => finsh_type_longp
  | _ => finsh_type_voidp
  end.

Definition type_fails (t : finsh_type) (s : parser) : res (finsh_type * parser) :=
  Ok (t, error_set FINSH_ERROR_UNKNOWN_TYPE (finsh_token_replay s)).
(** The end of [proc_type]: a star makes it a pointer. *)
Definition proc_pointer (t : finsh_type) (s : parser) : res (finsh_type * parser) :=
  '(token, s) ← next_token s;
  if decide (token = finsh_token_type_mul) then Ok (pointer_type t, s)
  else Ok (t, finsh_token_replay s).

Definition proc_type (s : parser) : res (finsh_type * parser) :=
  '(token, s) ← next_token s;
  if is_base_type token then proc_pointer (base_type token) s
  else if decide (token = finsh_token_type_unsigned) then
    '(token, s) ← next_token s;
    if is_base_type token then
      match unsigned_type token with
      | Some t => proc_pointer t s
      | None => type_fails finsh_type_unknown s
      end
    else
      proc_pointer finsh_type_unknown (error_set FINSH_ERROR_EXPECT_TYPE (finsh_token_replay s))
  else type_fails finsh_type_unknown s.

(** The name is copied whatever the token was. *)
Definition proc_identifier (s : parser) : res (cname * parser) :=
  s ← match_token finsh_token_type_identifier s;
  str ← c_string (lex s);
  Ok (copy_name str, s).

(** ** Expressions *)
Section rules.
Context (proc_assign_expr proc_cast_expr : parser → res (tree * parser)).

(** The loop of the six left-associative levels: while the token is one of the
    operators, parse the operand on its right. *)
Fixpoint binary_loop (fuel : nat) (ops : finsh_token_type → option finsh_node_type)
    (sub : parser → res (tree * parser)) (t : tree) (s : parser) : res (tree * parser) :=
  '(token, s) ← next_token s;
  match ops token with
  | None => Ok (t, finsh_token_replay s)
  | Some ty =>
      match fuel with
      | O => Stop OutOfFuel
      | S fuel =>
          '(t_new, s) ← sub s;
          let '(t, s) :=
            match t_new with
            | Nil => (t, error_set FINSH_ERROR_EXPECT_OPERATOR s)
            | Node _ _ _ => make_sys_node ty t t_new s
            end in
          binary_loop fuel ops sub t s
      end
  end.
Definition binary_level (fuel : nat) (ops : finsh_token_type → option finsh_node_type)
    (sub : parser → res (tree * parser)) (s : parser) : res (tree * parser) :=
  '(t, s) ← sub s; binary_loop fuel ops sub t s.

Fixpoint param_loop (fuel : nat) (acc : list tree) (s : parser) : res (list tree * parser) :=
  '(token, s) ← next_token s;
  if decide (token = finsh_token_type_comma) then
    match fuel with
    | O => Stop OutOfFuel
    | S fuel =>
        '(t, s) ← proc_assign_expr s;
        match t with
        | Nil => param_loop fuel acc (error_set FINSH_ERROR_EXPECT_OPERATOR s)
        | Node _ _ _ => param_loop fuel (acc ++ [t]) s
        end
    end
  else Ok (acc, finsh_token_replay s).

(** Trees linked by their siblings. *)
Definition link (l : list tree) : tree := foldr set_sibling Nil l.

Definition proc_param_list (fuel : nat) (s : parser) : res (tree * parser) :=
  '(t, s) ← proc_assign_expr s;
  match t with
  | Nil => Ok (Nil, s)
  | Node _ _ _ => '(l, s) ← param_loop fuel [t] s; Ok (link l, s)
  end.

Definition proc_primary_expr (s : parser) : res (tree * parser) :=
  '(token, s) ← next_token s;
  match token with
  | finsh_token_type_identifier =>
      '(id, s) ← proc_identifier (finsh_token_replay s); finsh_node_new_id id s
  | finsh_token_type_left_paren =>
      '(t, s) ← proc_assign_expr s; s ← match_token finsh_token_type_right_paren s; Ok (t, s)
  | finsh_token_type_value_int => Ok (finsh_node_new_int (lex_value (lex s)) s)
  | finsh_token_type_value_long => Ok (finsh_node_new_long (lex_value (lex s)) s)
  | finsh_token_type_value_char => Ok (finsh_node_new_char (lex_value (lex s)) s)
  | finsh_token_type_value_string => str ← c_string (lex s); finsh_node_new_string str s
  | finsh_token_type_value_null => Ok (finsh_node_new_ptr 0 s)
  | _ => Ok (Nil, error_set FINSH_ERROR_INVALID_TOKEN s)
  end.

Fixpoint postfix_loop (fuel : nat) (t : tree) (s : parser) : res (tree * parser) :=
  '(token, s) ← next_token s;
  match token, fuel with
  | finsh_token_type_inc, S fuel =>
      let '(t, s) := make_sys_node FINSH_NODE_SYS_INC t Nil s in postfix_loop fuel t s
  | finsh_token_type_dec, S fuel =>
      let '(t, s) := make_sys_node FINSH_NODE_SYS_DEC t Nil s in postfix_loop fuel t s
  | finsh_token_type_left_paren, S fuel =>
      '(token, s) ← next_token s;
      '(param_list, s) ←
        (if decide (token = finsh_token_type_right_paren) then Ok (Nil, s)
         else
           '(l, s) ← proc_param_list fuel (finsh_token_replay s);
           s ← match_token finsh_token_type_right_paren s; Ok (l, s));
      let '(t, s) := make_sys_node FINSH_NODE_SYS_FUNC t param_list s in postfix_loop fuel t s
  | (finsh_token_type_inc | finsh_token_type_dec | finsh_token_type_left_paren), O => Stop OutOfFuel
  | _, _ => Ok (t, finsh_token_replay s)
  end.
Definition proc_postfix_expr (fuel : nat) (s : parser) : res (tree * parser) :=
  '(t, s) ← proc_primary_expr s; postfix_loop fuel t s.

Definition unary_node (ty : finsh_node_type) (s : parser) : res (tree * parser) :=
  '(t, s) ← proc_cast_expr s; Ok (make_sys_node ty t Nil s).

(** The arguments of [make_sys_node] for a minus: [finsh_node_new_long(0)] is
    called after [proc_cast_expr], whose result is a variable. *)
Definition proc_unary_expr (fuel : nat) (s : parser) : res (tree * parser) :=
  '(token, s) ← next_token s;
  match token with
  | finsh_token_type_add => proc_cast_expr s
  | finsh_token_type_inc => unary_node FINSH_NODE_SYS_PREINC s
  | finsh_token_type_sub =>
      '(cast, s) ← proc_cast_expr s;
      let '(zero, s) := finsh_node_new_long 0 s in
      Ok (make_sys_node FINSH_NODE_SYS_SUB zero cast s)
  | finsh_token_type_dec => unary_node FINSH_NODE_SYS_PREDEC s
  | finsh_token_type_bitwise => unary_node FINSH_NODE_SYS_BITWISE s
  | finsh_token_type_mul => unary_node FINSH_NODE_SYS_GETVALUE s
  | finsh_token_type_and => unary_node FINSH_NODE_SYS_GETADDR s
  | _ => proc_postfix_expr fuel (finsh_token_replay s)
  end.

(** [cast->data_type = type]: the field then holds the number of a [finsh_type],
    of which [void], [void*] and [char] are those of the data types byte, word
    and double word; no test matches the others. *)
Definition cast_data (t : finsh_type) : data :=
  match t with
  | finsh_type_void => Some W8 | finsh_type_voidp => Some W16 | finsh_type_char => Some W32
  | _ => None
  end.
Definition set_data (t : finsh_type) (c : tree) : tree :=
  match c with
  | Node n ch sib => Node (with_attr (cast_data t) (idtype n) n) ch sib
  | Nil => Nil
  end.
Definition cast_body (fuel : nat) (s : parser) : res (tree * parser) :=
  '(token, s) ← next_token s;
  if decide (token = finsh_token_type_left_paren) then
    '(t, s) ← proc_type s;
    s ← match_token finsh_token_type_right_paren s;
    '(cast, s) ← proc_cast_expr s;
    match cast with
    | Node _ _ _ => Ok (set_data t cast, s)
    | Nil => proc_unary_expr fuel (finsh_token_replay s)
    end
  else proc_unary_expr fuel (finsh_token_replay s).

Definition mul_ops (t : finsh_token_type) : option finsh_node_type :=
  match t with
  | finsh_token_type_mul => Some FINSH_NODE_SYS_MUL
  | finsh_token_type_div => Some FINSH_NODE_SYS_DIV
  | finsh_token_type_mod => Some FINSH_NODE_SYS_MOD
  | _ => None
  end.
Definition add_ops (t : finsh_token_type) : option finsh_node_type :=
  match t with
  | finsh_token_type_sub => Some FINSH_NODE_SYS_SUB
  | finsh_token_type_add => Some FINSH_NODE_SYS_ADD
  | _ => None
  end.
Definition shift_ops (t : finsh_token_type) : option finsh_node_type :=
  match t with
  | finsh_token_type_shl => Some FINSH_NODE_SYS_SHL
  | finsh_token_type_shr => Some FINSH_NODE_SYS_SHR
  | _ => None
  end.
Definition and_ops (t : finsh_token_type) : option finsh_node_type :=
  match t with finsh_token_type_and => Some FINSH_NODE_SYS_AND | _ => None end.
Definition xor_ops (t : finsh_token_type) : option finsh_node_type :=
  match t with finsh_token_type_xor => Some FINSH_NODE_SYS_XOR | _ => None end.
Definition or_ops (t : finsh_token_type) : option finsh_node_type :=
  match t with finsh_token_type_or => Some FINSH_NODE_SYS_OR | _ => None end.

Definition proc_multiplicative_expr (fuel : nat) : parser → res (tree * parser) :=
  binary_level fuel mul_ops proc_cast_expr.
Definition proc_additive_expr (fuel : nat) : parser → res (tree * parser) :=
  binary_level fuel add_ops (proc_multiplicative_expr fuel).
Definition proc_shift_expr (fuel : nat) : parser → res (tree * parser) :=
  binary_level fuel shift_ops (proc_additive_expr fuel).
Definition proc_and_expr (fuel : nat) : parser → res (tree * parser) :=
  binary_level fuel and_ops (proc_shift_expr fuel).
Definition proc_exclusive_or_expr (fuel : nat) : parser → res (tree * parser) :=
  binary_level fuel xor_ops (proc_and_expr fuel).
Definition proc_inclusive_or_expr (fuel : nat) : parser → res (tree * parser) :=
  binary_level fuel or_ops (proc_exclusive_or_expr fuel).

Definition assign_body (fuel : nat) (s : parser) : res (tree * parser) :=
  '(t_or, s) ← proc_inclusive_or_expr fuel s;
  '(token, s) ← next_token s;
  if decide (token = finsh_token_type_assign) then
    '(assign, s) ← proc_assign_expr s;
    Ok (make_sys_node FINSH_NODE_SYS_ASSIGN t_or assign s)
  else Ok (t_or, finsh_token_replay s).
End rules.

Fixpoint proc_assign_expr (fuel : nat) (s : parser) : res (tree * parser) :=
  match fuel with
  | O => Stop OutOfFuel
  | S fuel => assign_body (proc_assign_expr fuel) (proc_cast_expr fuel) fuel s
  end
with proc_cast_expr (fuel : nat) (s : parser) : res (tree * parser) :=
  match fuel with
  | O => Stop OutOfFuel
  | S fuel => cast_body (proc_assign_expr fuel) (proc_cast_expr fuel) fuel s
  end.

(** ** Declarations and statements *)

(** The variable is added to the table; a name that exists is an error. *)
Definition declare (t : finsh_type) (s : parser) : res (cname * parser) :=
  '(id, s) ← proc_identifier s;
  Ok (match finsh_var_insert (variables s) (chars id) t with
      | (Some _, vars) => (id, with_vars vars s)
      | (None, vars) => (id, error_set FINSH_ERROR_VARIABLE_EXIST (with_vars vars s))
      end).

(** [node] and [end] of [proc_variable_decl]: the trees made so far, of which the
    last may be NULL when the table is full; linking to it would follow NULL. *)
Definition append_node (acc : list tree) (t : tree) : res (list tree) :=
  match last acc with
  | None => Ok (match t with Nil => [] | _ => [t] end)
  | Some Nil => Stop NullDeref
  | Some _ => Ok (acc ++ [t])
  end.

(** [= expr] after an identifier; without an expression the token stays. *)
Definition decl_assign (fuel : nat) (token : finsh_token_type) (id : cname) (acc : list tree)
    (s : parser) : res (finsh_token_type * list tree * parser) :=
  if decide (token = finsh_token_type_assign) then
    '(assign, s) ← proc_assign_expr fuel s;
    match assign with
    | Nil => Ok (token, acc, s)
    | Node _ _ _ =>
        '(idnode, s) ← finsh_node_new_id id s;
        let '(t, s) := make_sys_node FINSH_NODE_SYS_ASSIGN idnode assign s in
        acc ← append_node acc t;
        '(token, s) ← next_token s;
        Ok (token, acc, s)
    end
  else Ok (token, acc, s).

Fixpoint decl_loop (fuel : nat) (t : finsh_type) (token : finsh_token_type) (acc : list tree)
    (s : parser) : res (list tree * parser) :=
  if decide (token = finsh_token_type_comma) then
    match fuel with
    | O => Stop OutOfFuel
    | S fuel =>
        '(id, s) ← declare t s;
        '(token, s) ← next_token s;
        '(token, acc, s) ← decl_assign fuel token id acc s;
        decl_loop fuel t token acc s
    end
  else Ok (acc, check_token token finsh_token_type_semicolon s).

Definition is_node (t : tree) : bool := match t with Nil => false | _ => true end.

(** The first [','] is handled by a copy of the loop's body. *)
Definition proc_variable_decl (fuel : nat) (s : parser) : res (list tree * parser) :=
  '(t, s) ← proc_type s;
  '(id, s) ← declare t s;
  '(token, s) ← next_token s;
  match token with
  | finsh_token_type_comma => '(l, s) ← decl_loop fuel t token [] s; Ok (filter is_node l, s)
  | finsh_token_type_assign =>
      '(token, acc, s) ← decl_assign fuel token id [] s;
      '(l, s) ← decl_loop fuel t token acc s;
      Ok (filter is_node l, s)
  | finsh_token_type_semicolon => Ok ([], s)
  | _ => Ok ([], error_set FINSH_ERROR_EXPECT_TYPE s)
  end.

Definition proc_expr (fuel : nat) : parser → res (tree * parser) := proc_assign_expr fuel.

Definition proc_expr_statement (fuel : nat) (s : parser) : res (list tree * parser) :=
  '(token, s) ← next_token s;
  if decide (token = finsh_token_type_semicolon) then Ok ([], s)
  else
    '(t, s) ← proc_expr fuel (finsh_token_replay s);
    s ← match_token finsh_token_type_semicolon s;
    Ok (filter is_node [t], s).

(** ** [finsh_parser_run]

    [root] is the chain of statements and [node] the index of the one the next
    is linked to; linking cuts off what followed it. *)
Definition link_statement (root : list tree) (node : nat) (l : list tree) : list tree * nat :=
  match root with
  | [] => (l, 0%nat)
  | _ => (take (S node) root ++ l, match l with [] => node | _ => S node end)
  end.

Fixpoint parser_loop (fuel : nat) (token : finsh_token_type) (root : list tree) (node : nat)
    (s : parser) : res (list tree * parser) :=
  if decide (token = finsh_token_type_eof ∨ token = finsh_token_type_bad) then Ok (root, s)
  else
    match fuel with
    | O => Stop OutOfFuel
    | S fuel =>
        let decl := is_base_type token || bool_decide (token = finsh_token_type_unsigned) in
        let s := finsh_token_replay s in
        '(l, s) ← (if decl then proc_variable_decl fuel s else proc_expr_statement fuel s);
        '(_, s) ← (if negb decl && bool_decide (token ≠ finsh_token_type_identifier) &&
                      bool_decide (root ≠ []) && bool_decide (l = [])
                   then next_token s else Ok (token, s));
        let '(root, node) := link_statement root node l in
        match root with
        | [] => Ok ([], s)
        | _ => '(token, s) ← next_token s; parser_loop fuel token root node s
        end
    end.

Definition finsh_parser_run (fuel : nat) (string : list Z) (s : parser) : res (tree * parser) :=
  let s := with_lex (finsh_token_init (lex s) string) s in
  '(token, s) ← next_token s;
  '(root, s) ← parser_loop fuel token [] 0 s;
  Ok (link root, s).

(** ** The shell runs a line: [finsh_run_line] of [shell.c] *)

(** The answer on the console: the value of the line, or the text of an error of
    the parser; an error that the compiler sets is not shown. *)
Inductive answer := Value (v : Z) | Error (e : Z) | Unreported (e : Z).

(** [finsh_flush]: the node table and the error number are cleared; the parser is
    initialised. *)
Definition finsh_flush (s : parser) : parser :=
  with_nodes 0 (with_lex (set_errno FINSH_ERROR_OK (finsh_token_init (lex s) [])) s).

Definition finsh_run_line (call : Z → list Z → gmap Z Z → res (Z * gmap Z Z)) (fuel : nat)
    (line : list Z) (s : parser) (v : vm) : res (answer * parser * vm) :=
  '(root, s) ← finsh_parser_run fuel line s;
  if negb (global_errno (lex s) =? FINSH_ERROR_OK) then
    Ok (Error (global_errno (lex s)), finsh_flush s, v)
  else
    '(v, e) ← finsh_compiler_run root (global_errno (lex s)) (with_mem (pmem s) v);
    if negb (e =? FINSH_ERROR_OK) then Ok (Unreported e, finsh_flush s, v)
    else
      v ← finsh_vm_run call v;
      r ← finsh_stack_bottom v;
      Ok (Value r, finsh_flush (with_pheap (pheap s) (vm_mem v) s), v).
End parser.

(** [finsh_init] *)
Definition finsh_init (m : gmap Z Z) : parser :=
  mk_parser (finsh_token_init (mk_lexer false false 0 finsh_token_type_bad 0 [] [] FINSH_ERROR_OK) [])
    0 finsh_var_init finsh_heap_init m.
