(* ===== verification/FinshSymbols.v ===== *)
(** * Registering symbols of the shell: [finsh_syscall_append], [finsh_sysvar_append]

    The two lists of [finsh_vm.c] and [finsh_var.c] that programs extend at run
    time, and what the look-ups of the parser find afterwards. *)
From S2P Require Import Prelude KMemory FinshVm FinshCompiler FinshToken FinshHeap FinshParser.
Local Open Scope Z_scope.

(** [item]: what [rt_malloc] returned; [name]: what [rt_strdup] returned (a null
    name is followed by the next look-up that reaches it, so the model stops);
    [desc]: what the field that is not set holds. *)
Definition finsh_syscall_append (item : option Z) (name : option (list Z)) (desc : list Z) (func : Z) (env : symbols)
    : res symbols :=
  match item with
  | None => Ok env
  | Some p =>
      n ← of_option NullDeref name;
      Ok (mk_symbols (_sysvar_table env) (global_sysvar_list env) (_syscall_table env)
            (mk_syscall p n desc func :: global_syscall_list env) (finsh_heap_addr env) (global_variable_addr env))
  end.

Definition finsh_sysvar_append (item : option Z) (name : option (list Z)) (desc : list Z) (ty : finsh_type) (var_addr : Z)
    (env : symbols) : res symbols :=
  match item with
  | None => Ok env
  | Some p =>
      n ← of_option NullDeref name;
      Ok (mk_symbols (_sysvar_table env) (mk_sysvar p n desc ty var_addr :: global_sysvar_list env)
            (_syscall_table env) (global_syscall_list env) (finsh_heap_addr env) (global_variable_addr env))
  end.

(** A registered function is found under its name, and before every function
    registered earlier, unless the table of the linker has the name; names that
    it does not begin with are found as before, and variables always are. *)
Theorem finsh_syscall_append_spec p name desc func env :
  ∃ env', finsh_syscall_append (Some p) (Some name) desc func env = Ok env' ∧
    (∀ n, finsh_syscall_lookup env' n =
      match find (λ c, bool_decide (sc_name c = n)) (_syscall_table env) with
      | Some c => Some c
      | None => if is_prefix n name then Some (mk_syscall p name desc func) else finsh_syscall_lookup env n
      end) ∧
    (∀ n, finsh_sysvar_lookup env' n = finsh_sysvar_lookup env n).
Proof.
  eexists. split; [done|]. split; [|done]. intros n. unfold finsh_syscall_lookup. cbn.
  destruct (find _ (_syscall_table env)); [done|]. by destruct (is_prefix n name).
Qed.

Theorem finsh_sysvar_append_spec p name desc ty a env :
  ∃ env', finsh_sysvar_append (Some p) (Some name) desc ty a env = Ok env' ∧
    (∀ n, finsh_sysvar_lookup env' n =
      match find (λ v, bool_decide (sv_name v = n)) (_sysvar_table env) with
      | Some v => Some v
      | None => if is_prefix n name then Some (mk_sysvar p name desc ty a) else finsh_sysvar_lookup env n
      end) ∧
    (∀ n, finsh_syscall_lookup env' n = finsh_syscall_lookup env n).
Proof.
  eexists. split; [done|]. split; [|done]. intros n. unfold finsh_sysvar_lookup. cbn.
  destruct (find _ (_sysvar_table env)); [done|]. by destruct (is_prefix n name).
Qed.

(** Its own name is a prefix of itself. *)
Lemma registered_name_found name : is_prefix name name = true.
Proof. unfold is_prefix. rewrite firstn_all. by apply bool_decide_eq_true. Qed.
