(* ===== verification/FinshLex.v ===== *)
(** * From text to tokens

    The tokens of a line and their text, and the theorem that the tokenizer of
    [FinshToken] gives them back one after the other.  A line is the text of its
    tokens with a space between them; the last token is one the tokenizer needs
    no further character to end, as the semicolon the shell adds. *)
From S2P Require Import Prelude KMemory FinshVm FinshCompiler FinshToken.
Local Open Scope Z_scope.

(** ** Tokens *)
Inductive tok :=
  | TInt (ds : list Z)      (** decimal digits, as numbers *)
  | TLong (ds : list Z)     (** digits and [L] *)
  | TChar (c : Z)           (** a printable character in quotes *)
  | TString (l : list Z)    (** printable characters in double quotes *)
  | TName (l : list Z)      (** a name that is not a key word *)
  | TNull
  | TOp (t : finsh_token_type).

Definition op_text (t : finsh_token_type) : list Z :=
  match t with
  | finsh_token_type_left_paren => [40] | finsh_token_type_right_paren => [41]
  | finsh_token_type_comma => [44] | finsh_token_type_semicolon => [59]
  | finsh_token_type_mul => [42] | finsh_token_type_add => [43]
  | finsh_token_type_inc => [43; 43] | finsh_token_type_sub => [45]
  | finsh_token_type_dec => [45; 45] | finsh_token_type_div => [47]
  | finsh_token_type_mod => [37] | finsh_token_type_assign => [61]
  | finsh_token_type_and => [38] | finsh_token_type_or => [124]
  | finsh_token_type_xor => [94] | finsh_token_type_bitwise => [126]
  | finsh_token_type_shl => [60; 60] | finsh_token_type_shr => [62; 62]
  | _ => []
  end.
Definition digit_text (ds : list Z) : list Z := (λ d, d + 48) <$> ds.
Definition text (t : tok) : list Z :=
  match t with
  | TInt ds => digit_text ds
  | TLong ds => digit_text ds ++ [76]
  | TChar c => [39; c; 39]
  | TString l => 34 :: l ++ [34]
  | TName l => l
  | TNull => [78; 85; 76; 76]
  | TOp t => op_text t
  end.

Definition kind (t : tok) : finsh_token_type :=
  match t with
  | TInt _ => finsh_token_type_value_int | TLong _ => finsh_token_type_value_long
  | TChar _ => finsh_token_type_value_char | TString _ => finsh_token_type_value_string
  | TName _ => finsh_token_type_identifier
  | TNull => finsh_token_type_value_null | TOp t => t
  end.

Definition number (ds : list Z) : Z := fold_left (λ v d, v * 10 + d) ds 0.

Definition is_digits (ds : list Z) : bool :=
  forallb (λ d, (0 <=? d) && (d <=? 9)) ds &&
  match ds with [] => false | [d] => true | d :: _ => negb (d =? 0) end.
Definition is_name (l : list Z) : bool :=
  forallb (λ c, negb (is_separator c)) l &&
  match l with [] => false | c :: _ => negb (is_digit c) end &&
  bool_decide (match_name finsh_name_table l = None) && (Z.of_nat (length l) <? FINSH_NAME_MAX).

(** A character that stands for itself between double quotes. *)
Definition string_char (c : Z) : bool := (32 <=? c) && (c <? 127) && negb (c =? 92) && negb (c =? 34).

(** Tokens that are well formed, and those that need no separator behind them. *)
Definition tok_ok (t : tok) : bool :=
  match t with
  | TInt ds => is_digits ds && (number ds <? 2147483648)
  | TLong ds => is_digits ds && negb (bool_decide (ds = [0])) && (number ds <? 2147483648)
  | TChar c => (32 <=? c) && (c <? 127) && negb (c =? 92)
  | TString l => forallb string_char l && (Z.of_nat (length l) <? FINSH_STRING_MAX)
  | TName l => is_name l
  | TNull => true
  | TOp t => negb (bool_decide (op_text t = []))
  end.
Definition self_ending (t : tok) : bool :=
  match t with
  | TChar _ | TString _ => true
  | TOp (finsh_token_type_add | finsh_token_type_sub | finsh_token_type_div) => false
  | TOp _ => true
  | _ => false
  end.

(** What the token leaves in the tokenizer besides its kind. *)
Definition holds (t : tok) (s : lexer) : Prop :=
  match t with
  | TInt ds | TLong ds => lex_value s = number ds
  | TChar c => u8 (lex_value s) = c
  | TString l | TName l => c_string s = Ok l
  | _ => True
  end.

Fixpoint render (ts : list tok) : list Z :=
  match ts with
  | [] => []
  | t :: ts => text t ++ match ts with [] => [] | _ => 32 :: render ts end
  end.

(** ** Reading characters *)
Definition rest (s : lexer) : list Z := drop (Z.to_nat (position s)) (line s).
Record live (s : lexer) : Prop := {
  live_eof : eof s = false;
  live_pos : 0 <= position s;
  live_string : Z.of_nat (length (lex_string s)) = FINSH_STRING_MAX;
}.
Definition adv (n : Z) (s : lexer) : lexer := set_position (position s + n) s.

Lemma adv_adv a b s : adv a (adv b s) = adv (a + b) s.
Proof. unfold adv, set_position. simpl. f_equal. lia. Qed.
Lemma adv_0 s : adv 0 s = s.
Proof. unfold adv, set_position. rewrite Z.add_0_r. by destruct s. Qed.
Lemma live_adv n s : live s → 0 <= n → live (adv n s).
Proof. intros [] ?. split; simpl; try done; lia. Qed.
Lemma rest_adv c r s : live s → rest s = c :: r → rest (adv 1 s) = r.
Proof.
  intros [_ Hp _] H. unfold rest in *. simpl. rewrite Z2Nat.inj_add by lia.
  rewrite <- drop_drop. change (Z.to_nat 1) with 1%nat. by rewrite H.
Qed.
Lemma rest_adv_app l r s :
  live s → rest s = l ++ r → rest (adv (Z.of_nat (length l)) s) = r.
Proof.
  intros [_ Hp _] H. unfold rest in *. simpl. rewrite Z2Nat.inj_add, Nat2Z.id by lia.
  rewrite <- drop_drop, H. by rewrite drop_app_length.
Qed.

Definition plain (c : Z) : Prop := 0 < c < 128 ∧ c ≠ 10.

Lemma next_char s c r :
  live s → rest s = c :: r → plain c → token_next_char s = Ok (c, adv 1 s).
Proof.
  intros [He Hp _] H [Hc H10]. unfold token_next_char. rewrite He.
  assert (Hl : line s !! Z.to_nat (position s) = Some c).
  { rewrite <- (Nat.add_0_r (Z.to_nat (position s))), <- lookup_drop.
    unfold rest in H. by rewrite H. }
  rewrite Hl. pose proof (lookup_lt_Some _ _ _ Hl).
  rewrite (proj2 (Z.eqb_neq _ _)) by lia. simpl.
  rewrite (proj2 (Z.eqb_neq _ _)) by lia. f_equal. f_equal. word.
Qed.

Lemma prev_char s : live s → token_prev_char (adv 1 s) = s.
Proof.
  intros [He Hp _]. unfold token_prev_char. simpl. rewrite He.
  rewrite (proj2 (Z.eqb_neq _ _)) by lia. unfold adv, set_position. simpl.
  replace (position s + 1 - 1) with (position s) by lia. by destruct s.
Qed.

Lemma next_char_end s : live s → rest s = [] → position s <= Z.of_nat (length (line s)) →
  token_next_char s = Ok (0, set_position 0 (set_eof true s)).
Proof.
  intros [He Hp _] H Hle. unfold token_next_char. rewrite He.
  apply (f_equal length) in H. unfold rest in H. rewrite length_drop in H. simpl in H.
  rewrite (proj2 (Z.eqb_eq _ _)) by lia. done.
Qed.

Lemma fuel_enough s l r : live s → rest s = l ++ r → (length l < line_fuel s)%nat.
Proof.
  intros _ H. apply (f_equal length) in H. unfold rest in H.
  rewrite length_drop, length_app in H. unfold line_fuel. lia.
Qed.
Lemma line_fuel_adv n s : line_fuel (adv n s) = line_fuel s.
Proof. done. Qed.

(** Spaces before a token. *)
Lemma trim_spaces n s c r :
  live s → rest s = replicate n 32 ++ c :: r → plain c → c ≠ 32 → c ≠ 9 → c ≠ 13 →
  token_trim_space s = Ok (adv (Z.of_nat n) s).
Proof.
  intros Hs H Hc H32 H9 H13. unfold token_trim_space.
  assert (Hloop : ∀ fuel s, live s → rest s = replicate n 32 ++ c :: r → (n < fuel)%nat →
    trim_loop fuel s = Ok (adv (Z.of_nat n + 1) s)).
  { clear s Hs H. induction n as [| n IH]; intros fuel s Hs H Hf; (destruct fuel as [| fuel]; [lia |]); simpl.
    - rewrite (next_char s c r) by done. simpl.
      rewrite (proj2 (Z.eqb_neq c 32)), (proj2 (Z.eqb_neq c 9)), (proj2 (Z.eqb_neq c 13)) by done. done.
    - rewrite (next_char s 32 (replicate n 32 ++ c :: r)) by first [done | split; lia]. simpl.
      rewrite (IH fuel (adv 1 s)).
      + rewrite adv_adv. f_equal. f_equal. lia.
      + by apply live_adv.
      + apply (rest_adv 32); [done | exact H].
      + lia. }
  rewrite (Hloop (line_fuel s) s) by (done || (pose proof (fuel_enough s _ _ Hs H) as Hf;
    rewrite length_replicate in Hf; lia)).
  simpl. f_equal. rewrite Z.add_comm, <- adv_adv. apply prev_char. apply live_adv; [done | lia].
Qed.

(** ** Names *)
Definition word_char (c : Z) : Prop := is_separator c = false.

Lemma word_plain c : word_char c → plain c ∧ u8 c = c ∧ c ≠ 0.
Proof.
  unfold word_char, is_separator, plain. rewrite negb_false_iff, !orb_true_iff, !andb_true_iff.
  intros H. assert (48 <= c <= 122) by lia. unfold u8. split_and!; lia.
Qed.

(** A character that ends a word: a space. *)
Lemma space_separator : is_separator 32 = true ∧ plain 32.
Proof. split; [done | unfold plain; lia]. Qed.

Lemma set_string_adv buf n s : adv n (set_lex_string buf s) = set_lex_string buf (adv n s).
Proof. done. Qed.

Lemma live_string_upd buf s :
  live s → Z.of_nat (length buf) = FINSH_STRING_MAX → live (set_lex_string buf s).
Proof. intros [] ?. by split. Qed.

Lemma put_string_ok i v s :
  live s → 0 <= i < FINSH_STRING_MAX →
  put_string i v s = Ok (set_lex_string (<[Z.to_nat i := u8 v]> (lex_string s)) s).
Proof.
  intros _ Hi. unfold put_string. rewrite (proj2 (Z.leb_le 0 i)), (proj2 (Z.ltb_lt i _)) by lia. done.
Qed.

Lemma take_insert_snoc (l : list Z) n c :
  (n < length l)%nat → take (S n) (<[n := c]> l) = take n l ++ [c].
Proof.
  intros Hn. rewrite (take_S_r _ _ c) by (by apply list_lookup_insert_eq).
  by rewrite take_insert_ge by lia.
Qed.

Lemma get_string_loop_spec tl fuel ch n s pre r :
  live s → rest s = tl ++ 32 :: r → word_char ch → Forall word_char tl →
  0 <= n → take (Z.to_nat n) (lex_string s) = pre → Z.of_nat (length pre) = n →
  n + 1 + Z.of_nat (length tl) < FINSH_STRING_MAX → (S (length tl) < fuel)%nat →
  ∃ buf, get_string_loop fuel ch n s =
           Ok (n + 1 + Z.of_nat (length tl), set_lex_string buf (adv (Z.of_nat (length tl) + 1) s)) ∧
         take (Z.to_nat (n + 1 + Z.of_nat (length tl))) buf = pre ++ ch :: tl ∧
         Z.of_nat (length buf) = FINSH_STRING_MAX.
Proof.
  revert fuel ch n s pre. induction tl as [| c tl IH]; intros fuel ch n s pre Hs Hr Hch Htl Hn Hpre Hlen Hmax Hf;
    (destruct fuel as [| fuel]; [lia |]); simpl; pose proof (word_plain ch Hch) as (Hp & Hu & _);
    unfold word_char in Hch; rewrite Hch, (live_eof _ Hs); simpl;
    pose proof (live_string _ Hs) as Hstr; unfold FINSH_STRING_MAX in *; simpl in Hmax;
    rewrite put_string_ok by (done || unfold FINSH_STRING_MAX; lia); rewrite Hu; simpl;
    set (buf := <[Z.to_nat n := ch]> (lex_string s));
    assert (Hbl : Z.of_nat (length buf) = 128) by (unfold buf; rewrite length_insert; lia);
    assert (Hb : take (S (Z.to_nat n)) buf = pre ++ [ch])
      by (unfold buf; rewrite take_insert_snoc by lia; by rewrite Hpre).
  - rewrite (next_char (set_lex_string buf s) 32 r)
      by first [by apply live_string_upd | exact Hr | apply space_separator].
    cbn [mbind res_bind]. destruct fuel as [| fuel]; [simpl in *; lia |].
    eexists. split; [simpl; f_equal; f_equal; lia |]. split; [| exact Hbl].
    by replace (Z.to_nat (n + 1 + Z.of_nat 0)) with (S (Z.to_nat n)) by lia.
  - apply Forall_cons_1 in Htl as [Hc Htl]. pose proof (word_plain c Hc) as (Hpc & _).
    rewrite (next_char (set_lex_string buf s) c (tl ++ 32 :: r))
      by first [by apply live_string_upd | exact Hr | done]. cbn [mbind res_bind].
    destruct (IH fuel c (n + 1) (adv 1 (set_lex_string buf s)) (pre ++ [ch])) as (buf' & E & Ht & Hl').
    + apply live_adv; [by apply live_string_upd | lia].
    + apply (rest_adv c); [by apply live_string_upd | exact Hr].
    + done.
    + done.
    + lia.
    + simpl. by replace (Z.to_nat (n + 1)) with (S (Z.to_nat n)) by lia.
    + rewrite length_app. simpl. lia.
    + simpl in *. lia.
    + simpl in *. lia.
    + exists buf'. rewrite E. split_and!; [| | done].
      * f_equal. f_equal; [simpl; lia |]. rewrite set_string_adv.
        unfold set_lex_string, adv, set_position. simpl. f_equal. lia.
      * rewrite <- app_assoc in Ht. etrans; [| exact Ht]. f_equal. simpl. lia.
Qed.

Lemma until_zero_app l r : Forall (λ c, c ≠ 0) l → until_zero (l ++ 0 :: r) = Some l.
Proof.
  induction 1 as [| c l Hc _ IH]; [done |]. simpl.
  rewrite (proj2 (Z.eqb_neq c 0)) by done. by rewrite IH.
Qed.

Lemma insert_zero_string (buf l : list Z) :
  take (length l) buf = l → (length l < length buf)%nat → Forall (λ c, c ≠ 0) l →
  until_zero (<[length l := 0]> buf) = Some l.
Proof.
  intros Ht Hl Hz. rewrite insert_take_drop, Ht by done. by apply until_zero_app.
Qed.

Lemma get_string_word s c l r :
  live s → rest s = (c :: l) ++ 32 :: r → word_char c → Forall word_char l → is_digit c = false →
  Z.of_nat (length (c :: l)) < FINSH_STRING_MAX →
  ∃ buf, token_get_string s = Ok (set_lex_string buf (adv (Z.of_nat (length (c :: l))) s)) ∧
         until_zero buf = Some (c :: l) ∧ buf !! 0%nat = Some c ∧
         Z.of_nat (length buf) = FINSH_STRING_MAX.
Proof.
  intros Hs Hr Hc Hl Hd Hmax. destruct (word_plain c Hc) as (Hp & _ & Hc0).
  unfold token_get_string. rewrite (next_char s c (l ++ 32 :: r)) by done. cbn [mbind res_bind].
  assert (Hs1 : live (adv 1 s)) by (apply live_adv; [done | lia]). rewrite (live_eof _ Hs1).
  rewrite put_string_ok by (done || unfold FINSH_STRING_MAX; lia). cbn [mbind res_bind]. rewrite Hd.
  set (s2 := set_lex_string (<[Z.to_nat 0 := u8 0]> (lex_string (adv 1 s))) (adv 1 s)).
  assert (Hs2 : live s2).
  { apply live_string_upd; [done |]. rewrite length_insert. exact (live_string _ Hs). }
  assert (Hr2 : rest s2 = l ++ 32 :: r) by exact (rest_adv c _ s Hs Hr).
  pose proof (fuel_enough s2 l _ Hs2 Hr2) as Hf0.
  assert (Hf : (S (length l) < line_fuel s2)%nat).
  { pose proof (f_equal length Hr) as Hlen. unfold rest in Hlen.
    rewrite length_drop, length_app in Hlen. simpl in Hlen. unfold line_fuel. simpl. lia. }
  destruct (get_string_loop_spec l (line_fuel s2) c 0 s2 [] r) as (buf & E & Ht & Hbl);
    try done; [simpl in *; lia |].
  rewrite E. cbn [mbind res_bind]. simpl app in Ht.
  set (n := 0 + 1 + Z.of_nat (length l)) in *.
  replace (adv (Z.of_nat (length l) + 1) s2) with (adv 1 (adv (Z.of_nat (length l)) s2))
    by (rewrite adv_adv; f_equal; lia).
  change (set_eof false (set_lex_string buf (adv 1 (adv (Z.of_nat (length l)) s2))))
    with (adv 1 (set_lex_string buf (set_eof false (adv (Z.of_nat (length l)) s2)))).
  assert (Hs3 : live (set_lex_string buf (set_eof false (adv (Z.of_nat (length l)) s2)))).
  { split; simpl; [done | | done]. pose proof (live_pos _ Hs). lia. }
  rewrite prev_char by done. rewrite put_string_ok by (done || simpl in Hmax; unfold n; lia).
  exists (<[Z.to_nat n := u8 0]> buf). simpl lex_string. split_and!.
  - f_equal. unfold set_lex_string, adv, set_position, set_eof. simpl.
    rewrite (live_eof _ Hs). f_equal. simpl. lia.
  - replace (Z.to_nat n) with (length (c :: l)) in * by (simpl; unfold n; lia).
    apply insert_zero_string; [done | unfold FINSH_STRING_MAX in *; lia |].
    constructor; [done |]. eapply Forall_impl; [exact Hl |]. intros x Hx. by apply word_plain.
  - rewrite list_lookup_insert_ne by (unfold n; lia).
    apply (f_equal (λ x, x !! 0%nat)) in Ht. rewrite lookup_take_lt in Ht by (unfold n; lia). done.
  - by rewrite length_insert.
Qed.

(** At an operator or a digit no name is read, and the buffer holds the empty
    string. *)
Definition no_word (c : Z) : Prop := plain c ∧ (is_separator c = true ∨ is_digit c = true).

Lemma get_string_none s c r :
  live s → rest s = c :: r → no_word c →
  ∃ buf, token_get_string s = Ok (set_lex_string buf s) ∧ buf !! 0%nat = Some 0 ∧
         Z.of_nat (length buf) = FINSH_STRING_MAX.
Proof.
  intros Hs Hr [Hp Hc]. unfold token_get_string.
  rewrite (next_char s c r) by done. cbn [mbind res_bind].
  assert (Hs1 : live (adv 1 s)) by (apply live_adv; [done | lia]). rewrite (live_eof _ Hs1).
  rewrite put_string_ok by (done || unfold FINSH_STRING_MAX; lia). cbn [mbind res_bind].
  set (buf := <[Z.to_nat 0 := u8 0]> (lex_string (adv 1 s))).
  assert (Hbl : Z.of_nat (length buf) = FINSH_STRING_MAX).
  { unfold buf. rewrite length_insert. exact (live_string _ Hs). }
  assert (Hb0 : buf !! 0%nat = Some 0).
  { apply list_lookup_insert_eq. pose proof (live_string _ Hs). unfold FINSH_STRING_MAX in *. simpl. lia. }
  assert (Hs2 : live (set_lex_string buf s)) by (by apply live_string_upd).
  destruct (is_digit c) eqn:Hd.
  - exists buf. split_and!; [| done | done]. f_equal.
    change (set_lex_string buf (adv 1 s)) with (adv 1 (set_lex_string buf s)). by apply prev_char.
  - destruct Hc as [Hc | Hc]; [| done]. unfold line_fuel. simpl. rewrite Hc. simpl.
    change (set_eof false (set_lex_string buf (adv 1 s)))
      with (adv 1 (set_eof false (set_lex_string buf s))).
    assert (E : set_eof false (set_lex_string buf s) = set_lex_string buf s).
    { unfold set_eof, set_lex_string. simpl. by rewrite (live_eof _ Hs). }
    rewrite E, prev_char by done. rewrite put_string_ok by (done || unfold FINSH_STRING_MAX; lia).
    eexists. split_and!; [reflexivity | | by rewrite length_insert].
    apply list_lookup_insert_eq. unfold FINSH_STRING_MAX in *. simpl. lia.
Qed.

(** ** What a token leaves *)
Record lexed (t : tok) (r : list Z) (s s' : lexer) : Prop := {
  lexed_live : live s';
  lexed_rest : rest s' = r;
  lexed_token : current_token s' = kind t;
  lexed_holds : holds t s';
  lexed_replay : replay s' = replay s;
  lexed_errno : global_errno s' = global_errno s;
  lexed_line : line s' = line s;
  lexed_pos : position s' <= Z.of_nat (length (line s'));
}.

Lemma live_set_token t s : live s → live (set_token t s).
Proof. intros []. by split. Qed.

Lemma live_set_int v s : live s → live (set_int v s).
Proof. intros []. by split. Qed.

(** Where the position is after some of the text. *)
Lemma rest_length s l r :
  live s → rest s = l ++ r → l ++ r ≠ [] → position s + Z.of_nat (length l) <= Z.of_nat (length (line s)).
Proof.
  intros [_ Hp _] H Hne. apply (f_equal length) in H as Hl. unfold rest in Hl.
  rewrite length_drop, length_app in Hl. destruct (l ++ r) eqn:E; [done |].
  apply (f_equal length) in E. rewrite length_app in E. simpl in E. lia.
Qed.

Lemma rest_position s c r :
  live s → rest s = c :: r → position s <= Z.of_nat (length (line s)).
Proof. intros Hs H. pose proof (rest_length s [] (c :: r) Hs H ltac:(done)). simpl in *. lia. Qed.

Lemma lexed_op t l r s :
  live s → l ≠ [] → rest s = l ++ r → lexed (TOp t) r s (set_token t (adv (Z.of_nat (length l)) s)).
Proof.
  intros Hs Hl Hr. split; try done.
  - apply live_set_token. apply live_adv; [done | lia].
  - by apply rest_adv_app.
  - simpl. eapply rest_length; [done | exact Hr |]. by destruct l.
Qed.

(** The text behind a token: nothing, or a space. *)
Definition ends (t : tok) (r : list Z) : Prop :=
  (r = [] ∧ self_ending t = true) ∨ ∃ r', r = 32 :: r'.

Ltac plain_tac := unfold plain; lia.

Lemma operator_one t c r s :
  live s → op_text t = [c] → rest s = c :: r → ends (TOp t) r →
  ∃ s', operator s = Ok s' ∧ lexed (TOp t) r s s'.
Proof.
  intros Hs Ht Hr He.
  assert (Hp : plain c) by (destruct t; simplify_eq/=; plain_tac).
  unfold operator. rewrite (next_char s c r) by done. cbn [mbind res_bind].
  pose proof (rest_adv c r s Hs Hr) as Hr1.
  assert (Hs1 : live (adv 1 s)) by (apply live_adv; [done | lia]).
  assert (Hone : lexed (TOp t) r s (set_token t (adv 1 s))) by (by apply (lexed_op t [c])).
  destruct t; try discriminate Ht; injection Ht as <-;
    try (eexists; split; [reflexivity | exact Hone]).
  all: cbn [Z.eqb Pos.eqb]; destruct He as [[-> ?] | [r' ->]]; [done |].
  all: unfold two_char; rewrite (next_char (adv 1 s) 32 r') by (done || plain_tac).
  all: cbn [mbind res_bind]; rewrite prev_char by done; eexists; split; [reflexivity | exact Hone].
Qed.

Lemma operator_two t c d r s :
  live s → op_text t = [c; d] → rest s = c :: d :: r →
  ∃ s', operator s = Ok s' ∧ lexed (TOp t) r s s'.
Proof.
  intros Hs Ht Hr.
  assert (Hp : plain c ∧ plain d) by (destruct t; simplify_eq/=; split; plain_tac).
  destruct Hp as [Hp Hq]. unfold operator. rewrite (next_char s c (d :: r)) by done.
  cbn [mbind res_bind]. pose proof (rest_adv c _ s Hs Hr) as Hr1.
  assert (Hs1 : live (adv 1 s)) by (apply live_adv; [done | lia]).
  pose proof (rest_adv d _ _ Hs1 Hr1) as Hr2.
  assert (Hone : lexed (TOp t) r s (set_token t (adv 2 s))).
  { by apply (lexed_op t [c; d]). }
  destruct t; try discriminate Ht; injection Ht as <- <-; cbn [Z.eqb Pos.eqb];
    unfold two_char; rewrite (next_char (adv 1 s) _ r) by done;
    cbn [mbind res_bind]; rewrite adv_adv; eexists; (split; [reflexivity | exact Hone]).
Qed.

(** ** Numbers *)
Lemma number_mono ds v :
  Forall (λ d, 0 <= d <= 9) ds → 0 <= v → v <= fold_left (λ v d, v * 10 + d) ds v.
Proof.
  intros H. revert v. induction H as [| d ds Hd _ IH]; intros v Hv; simpl; [lia |].
  specialize (IH (v * 10 + d)). lia.
Qed.

Definition not_digit (c : Z) : Prop := is_digit c = false ∧ plain c.

Lemma digit_is_digit d : 0 <= d <= 9 → is_digit (d + 48) = true ∧ plain (d + 48).
Proof. intros H. unfold is_digit, plain. rewrite andb_true_iff. split; lia. Qed.

Lemma decimal_loop_spec ds fuel d v s c r :
  live s → rest s = digit_text ds ++ c :: r → 0 <= d <= 9 → Forall (λ d, 0 <= d <= 9) ds →
  not_digit c → 0 <= v → fold_left (λ v d, v * 10 + d) (d :: ds) v < 2147483648 →
  (S (length ds) < fuel)%nat →
  decimal_loop fuel (d + 48) v s =
    Ok (c, fold_left (λ v d, v * 10 + d) (d :: ds) v, adv (Z.of_nat (length ds) + 1) s).
Proof.
  revert fuel d v s. induction ds as [| d' ds IH]; intros fuel d v s Hs Hr Hd Hds [Hc Hp] Hv Hmax Hf;
    (destruct fuel as [| fuel]; [simpl in *; lia |]); simpl;
    destruct (digit_is_digit d Hd) as [-> _]; simpl in Hmax;
    replace (d + 48 - 48) with d by lia.
  - unfold c_int. rewrite (proj2 (Z.leb_le (-2147483648) _)), (proj2 (Z.leb_le _ 2147483647)) by lia.
    simpl. rewrite (next_char s c r) by done. simpl.
    destruct fuel as [| fuel]; [simpl in *; lia |]. simpl. by rewrite Hc.
  - apply Forall_cons_1 in Hds as [Hd' Hds].
    pose proof (number_mono ds (( v * 10 + d) * 10 + d') Hds ltac:(lia)) as Hm.
    unfold c_int. rewrite (proj2 (Z.leb_le (-2147483648) _)), (proj2 (Z.leb_le _ 2147483647)) by lia.
    simpl. rewrite (next_char s (d' + 48) (digit_text ds ++ c :: r))
      by first [done | exact Hr | apply digit_is_digit; lia].
    simpl. rewrite (IH fuel d' (v * 10 + d) (adv 1 s)); try done; try lia.
    + f_equal. f_equal. rewrite adv_adv. f_equal. lia.
    + apply live_adv; [done | lia].
    + apply (rest_adv (d' + 48)); [done | exact Hr].
    + simpl in *. lia.
Qed.

Lemma is_digits_inv ds :
  is_digits ds = true →
  ∃ d l, ds = d :: l ∧ Forall (λ d, 0 <= d <= 9) ds ∧ (d = 0 → l = []).
Proof.
  unfold is_digits. intros H. apply andb_true_iff in H as [Hf H].
  destruct ds as [| d l]; [done |]. exists d, l. split_and!; [done | |].
  - apply Forall_forall. intros x Hx. rewrite forallb_forall in Hf.
    apply list_elem_of_In in Hx. specialize (Hf x Hx). lia.
  - intros ->. by destruct l.
Qed.

Lemma operator_number ds long r s :
  live s → is_digits ds = true → number ds < 2147483648 → (ds = [0] → long = false) →
  rest s = digit_text ds ++ (if long then [76] else []) ++ 32 :: r →
  ∃ s', operator s = Ok s' ∧ lexed (if long then TLong ds else TInt ds) (32 :: r) s s'.
Proof.
  intros Hs Hds Hmax Hz Hr. destruct (is_digits_inv ds Hds) as (d & l & -> & Hf & Hd0).
  apply Forall_cons_1 in Hf as [Hd Hf]. destruct (digit_is_digit d Hd) as [Hdig Hp].
  set (c := if long then 76 else 32). set (r1 := if long then 32 :: r else r).
  assert (Hr' : rest s = (d + 48) :: digit_text l ++ c :: r1).
  { rewrite Hr. unfold c, r1. destruct long; simpl; done. }
  assert (Hop : operator s = token_proc_number s).
  { unfold operator. rewrite (next_char s _ _ Hs Hr' Hp). cbn [mbind res_bind].
    rewrite (prev_char s Hs), Hdig.
    repeat (rewrite (proj2 (Z.eqb_neq (d + 48) _)) by lia). done. }
  rewrite Hop. unfold token_proc_number. rewrite (next_char s _ _ Hs Hr' Hp). cbn [mbind res_bind].
  pose proof (rest_adv _ _ _ Hs Hr') as Hr1.
  assert (Hs1 : live (adv 1 s)) by (apply live_adv; [done | lia]).
  assert (Hc : not_digit c) by (unfold c; destruct long; split; [done | plain_tac | done | plain_tac]).
  assert (Hval : ∀ v s1, live s1 → u32 v = number (d :: l) → rest s1 = c :: r1 →
    replay s1 = replay s → global_errno s1 = global_errno s → line s1 = line s →
    lexed (if long then TLong (d :: l) else TInt (d :: l)) (32 :: r) s
      (number_suffix c (set_int v (adv 1 s1)))).
  { intros v s1 Hl1 Hv Hrs ? ? ?. pose proof (rest_adv c r1 s1 Hl1 Hrs) as Hrs1.
    change (set_int v (adv 1 s1)) with (adv 1 (set_int v s1)).
    assert (Hi : live (set_int v s1)) by (by apply live_set_int).
    unfold number_suffix, c, r1 in *. destruct long; cbn [Z.eqb Pos.eqb orb].
    - assert (Hl2 : live (set_token finsh_token_type_value_long (adv 1 (set_int v s1))))
        by (apply live_set_token; by apply live_adv).
      split; try done. by apply (rest_position _ 32 r).
    - rewrite (prev_char (set_int v s1)) by done. split; try done. by apply (rest_position _ 32 r). }
  destruct (Z.eqb_spec (d + 48) 48) as [Hd48 | Hd48].
  - assert (d = 0) as -> by lia. specialize (Hd0 eq_refl) as ->. specialize (Hz eq_refl) as ->.
    unfold c, r1 in *. simpl in Hr1. rewrite (next_char (adv 1 s) 32 r) by (done || plain_tac).
    cbn [mbind res_bind Z.eqb Pos.eqb orb andb Z.leb Z.compare Pos.compare Pos.compare_cont].
    rewrite prev_char by done. eexists. split; [reflexivity |].
    assert (Hi : live (set_int 0 (adv 1 s))) by (by apply live_set_int).
    split; [done | exact Hr1 | done .. |]. by apply (rest_position _ 32 r).
  - assert (Hfuel : (S (length l) < line_fuel (adv 1 s))%nat).
    { pose proof (f_equal length Hr') as Hlen. unfold rest in Hlen.
      rewrite length_drop in Hlen. simpl in Hlen. unfold digit_text in Hlen.
      rewrite length_app, length_fmap in Hlen. simpl in Hlen. unfold line_fuel. simpl. lia. }
    rewrite (decimal_loop_spec l _ d 0 (adv 1 s) c r1 Hs1 Hr1 Hd Hf Hc (Z.le_refl 0) Hmax Hfuel).
    cbn [mbind res_bind]. rewrite (Z.add_comm (Z.of_nat _)), <- adv_adv.
    eexists. split; [reflexivity |]. apply Hval; try done.
    + apply live_adv; [done | lia].
    + unfold u32. rewrite Z.mod_small; [done |].
      pose proof (number_mono (d :: l) 0 ltac:(by constructor) ltac:(lia)). unfold number in *. lia.
    + replace (length l) with (length (digit_text l)) by apply length_fmap.
      by apply rest_adv_app.
Qed.

(** ** Characters *)
Lemma operator_char c r s :
  live s → tok_ok (TChar c) = true → rest s = 39 :: c :: 39 :: r →
  ∃ s', operator s = Ok s' ∧ lexed (TChar c) r s s'.
Proof.
  intros Hs Hok Hr. simpl in Hok. apply andb_true_iff in Hok as [Hok H92].
  assert (Hp : plain c) by plain_tac. assert (c ≠ 92) by lia.
  assert (Hs1 : live (adv 1 s)) by (apply live_adv; [done | lia]).
  assert (Hs2 : live (adv 1 (adv 1 s))) by (apply live_adv; [done | lia]).
  pose proof (rest_adv _ _ _ Hs Hr) as Hr1. pose proof (rest_adv _ _ _ Hs1 Hr1) as Hr2.
  pose proof (rest_adv _ _ _ Hs2 Hr2) as Hr3.
  unfold operator. rewrite (next_char s 39 _ Hs Hr) by plain_tac. cbn -[Z.eqb put].
  unfold token_proc_char. rewrite (next_char _ c _ Hs1 Hr1) by done. cbn [mbind res_bind].
  rewrite (proj2 (Z.eqb_neq c 92)) by done. cbn [mbind res_bind].
  rewrite (next_char _ 39 _ Hs2 Hr2) by plain_tac. cbn.
  eexists. split; [reflexivity |]. split; simpl; try done.
  - split; simpl; try done; [exact (live_eof _ Hs) | pose proof (live_pos _ Hs); lia | exact (live_string _ Hs)].
  - unfold u8, put. simpl. lia.
  - pose proof (rest_length s [39; c; 39] r Hs Hr ltac:(done)). simpl in *. lia.
Qed.

(** ** Strings *)
Lemma string_char_spec c : string_char c = true → plain c ∧ u8 c = c ∧ c ≠ 0 ∧ c ≠ 92 ∧ c ≠ 34.
Proof. unfold string_char, plain, u8. rewrite !andb_true_iff. intros H. split_and!; lia. Qed.

Lemma string_loop_spec l turns n s pre r :
  live s → rest s = l ++ 34 :: r → Forall (λ c, string_char c = true) l →
  0 <= n → take (Z.to_nat n) (lex_string s) = pre → Z.of_nat (length pre) = n → Forall (λ c, c ≠ 0) pre →
  n + Z.of_nat (length l) < FINSH_STRING_MAX → (length l < turns)%nat →
  ∃ buf, string_loop turns n s = Ok (set_lex_string buf (adv (Z.of_nat (length l) + 1) s)) ∧
         until_zero buf = Some (pre ++ l) ∧ Z.of_nat (length buf) = FINSH_STRING_MAX.
Proof.
  revert turns n s pre. induction l as [| c l IH]; intros turns n s pre Hs Hr Hl Hn Hpre Hlen Hnz Hmax Ht;
    (destruct turns as [| turns]; [simpl in *; lia |]); simpl;
    pose proof (live_string _ Hs) as Hstr; simpl in Hmax.
  - rewrite (next_char s 34 r) by (done || plain_tac). cbn [mbind res_bind].
    assert (Hs1 : live (adv 1 s)) by (apply live_adv; [done | lia]). rewrite (live_eof _ Hs1).
    cbn [Z.eqb Pos.eqb]. rewrite put_string_ok by (done || unfold FINSH_STRING_MAX in *; lia).
    eexists. split; [reflexivity |]. rewrite length_insert. split; [| exact Hstr].
    rewrite app_nil_r. replace (Z.to_nat n) with (length pre) in * by lia.
    apply insert_zero_string; [exact Hpre | unfold FINSH_STRING_MAX in *; simpl; lia | done].
  - apply Forall_cons_1 in Hl as [Hc Hl]. destruct (string_char_spec c Hc) as (Hp & Hu & H0 & H92 & H34).
    rewrite (next_char s c (l ++ 34 :: r)) by done. cbn [mbind res_bind].
    assert (Hs1 : live (adv 1 s)) by (apply live_adv; [done | lia]). rewrite (live_eof _ Hs1).
    rewrite (proj2 (Z.eqb_neq c 92)), (proj2 (Z.eqb_neq c 34)) by done.
    rewrite put_string_ok by (done || unfold FINSH_STRING_MAX in *; lia). rewrite Hu. cbn [mbind res_bind].
    set (buf := <[Z.to_nat n := c]> (lex_string (adv 1 s))).
    assert (Hbl : Z.of_nat (length buf) = FINSH_STRING_MAX) by (unfold buf; by rewrite length_insert).
    destruct (IH turns (n + 1) (set_lex_string buf (adv 1 s)) (pre ++ [c])) as (buf' & E & Hz & Hb');
      [by apply live_string_upd | exact (rest_adv c _ s Hs Hr) | done | lia | | | | simpl in *; lia | simpl in *; lia |].
    + simpl. replace (Z.to_nat (n + 1)) with (S (Z.to_nat n)) by lia. unfold buf, FINSH_STRING_MAX in *.
      rewrite take_insert_snoc by (simpl; lia). simpl. by rewrite Hpre.
    + rewrite length_app. simpl. lia.
    + apply Forall_app. split; [done | by repeat constructor].
    + exists buf'. rewrite E. split_and!; [| by rewrite <- app_assoc in Hz | done].
      f_equal. rewrite set_string_adv. unfold set_lex_string, adv, set_position. simpl. f_equal. lia.
Qed.

Lemma operator_quote s r :
  live s → rest s = 34 :: r →
  operator s = (s ← token_proc_string (adv 1 s); Ok (set_token finsh_token_type_value_string s)).
Proof.
  intros Hs Hr. unfold operator. rewrite (next_char s 34 r), bind_ok by (done || plain_tac).
  cbv beta iota. generalize (token_proc_string (adv 1 s)). reflexivity.
Qed.

Lemma operator_string l r s :
  live s → tok_ok (TString l) = true → rest s = 34 :: l ++ 34 :: r →
  ∃ s', operator s = Ok s' ∧ lexed (TString l) r s s'.
Proof.
  intros Hs Hok Hr. simpl in Hok. apply andb_true_iff in Hok as [Hf Hmax%Z.ltb_lt].
  assert (Hl : Forall (λ c, string_char c = true) l).
  { apply Forall_forall. intros x Hx%list_elem_of_In. rewrite forallb_forall in Hf. by apply Hf. }
  assert (Hs1 : live (adv 1 s)) by (apply live_adv; [done | lia]).
  pose proof (rest_adv _ _ _ Hs Hr) as Hr1.
  rewrite (operator_quote s _ Hs Hr).
  destruct (string_loop_spec l (Z.to_nat FINSH_STRING_MAX) 0 (adv 1 s) [] r Hs1 Hr1 Hl) as (buf & E & Hz & Hb);
    [lia | reflexivity | reflexivity | constructor | lia | lia |].
  unfold token_proc_string. rewrite E, bind_ok.
  eexists. split; [reflexivity |]. split; try done.
  - apply live_set_token, live_string_upd; [| done]. apply live_adv; [done | lia].
  - rewrite <- (rest_adv_app (l ++ [34]) r (adv 1 s)) by (done || by rewrite Hr1, <- app_assoc).
    rewrite length_app. simpl. unfold rest. simpl. do 3 f_equal. lia.
  - simpl. unfold c_string. simpl. by rewrite Hz.
  - pose proof (rest_length s (34 :: l ++ [34]) r Hs) as Hp. simpl in Hp |- *.
    rewrite length_app, <- app_assoc in Hp. simpl in Hp. specialize (Hp Hr ltac:(done)). lia.
Qed.

(** ** One token *)
Lemma lexed_from t r s s0 s' :
  replay s0 = replay s → global_errno s0 = global_errno s → line s0 = line s →
  lexed t r s0 s' → lexed t r s s'.
Proof. intros ? ? ? []. split; try done; congruence. Qed.

Lemma text_first t :
  tok_ok t = true →
  ∃ c l, text t = c :: l ∧ plain c ∧ c ≠ 32 ∧ c ≠ 9 ∧ c ≠ 13 ∧
    match t with TName _ | TNull => True | _ => no_word c end.
Proof.
  intros Hok. destruct t as [ds | ds | c | w | l | | t]; simpl in Hok.
  - apply andb_true_iff in Hok as [Hd _]. destruct (is_digits_inv ds Hd) as (d & l & -> & Hf & _).
    apply Forall_cons_1 in Hf as [Hd' _]. destruct (digit_is_digit d Hd') as [Hdig Hp].
    exists (d + 48), (digit_text l). split_and!; try done; try lia. split; [done | by right].
  - apply andb_true_iff in Hok as [Hok _]. apply andb_true_iff in Hok as [Hd _].
    destruct (is_digits_inv ds Hd) as (d & l & -> & Hf & _).
    apply Forall_cons_1 in Hf as [Hd' _]. destruct (digit_is_digit d Hd') as [Hdig Hp].
    exists (d + 48), (digit_text l ++ [76]). split_and!; try done; try lia. split; [done | by right].
  - exists 39, [c; 39]. split_and!; try done. split; [plain_tac | by left].
  - exists 34, (w ++ [34]). split_and!; try done. split; [plain_tac | by left].
  - unfold is_name in Hok. repeat (apply andb_true_iff in Hok as [Hok ?]).
    destruct l as [| c l]; [done |]. exists c, l. simpl in Hok. apply andb_true_iff in Hok as [Hc _].
    apply negb_true_iff in Hc. destruct (word_plain c Hc) as (? & _).
    unfold is_separator in Hc. rewrite negb_false_iff, !orb_true_iff, !andb_true_iff in Hc.
    split_and!; try done; lia.
  - exists 78, [85; 76; 76]. split_and!; try done.
  - destruct t; try done; eexists _, _; (split; [reflexivity |]); split_and!; try done;
      (split; [plain_tac | by left]).
Qed.

Lemma token_run_word s n c l r found :
  live s → rest s = replicate n 32 ++ (c :: l) ++ 32 :: r → word_char c → Forall word_char l →
  is_digit c = false → Z.of_nat (length (c :: l)) < FINSH_STRING_MAX →
  match_name finsh_name_table (c :: l) = found →
  ∃ s', token_run s = Ok s' ∧ live s' ∧ rest s' = 32 :: r ∧ c_string s' = Ok (c :: l) ∧
    current_token s' = (match found with Some t => t | None => finsh_token_type_identifier end) ∧
    replay s' = replay s ∧ global_errno s' = global_errno s ∧ line s' = line s.
Proof.
  intros Hs Hr Hc Hl Hd Hmax Hfound. destruct (word_plain c Hc) as (Hp & _ & Hc0).
  assert (Hsp : c ≠ 32 ∧ c ≠ 9 ∧ c ≠ 13).
  { unfold word_char, is_separator in Hc. rewrite negb_false_iff, !orb_true_iff, !andb_true_iff in Hc. lia. }
  destruct Hsp as (? & ? & ?). unfold token_run.
  rewrite (trim_spaces n s c (l ++ 32 :: r)) by done. cbn [mbind res_bind].
  assert (Hs1 : live (adv (Z.of_nat n) s)) by (apply live_adv; [done | lia]).
  assert (Hr1 : rest (adv (Z.of_nat n) s) = (c :: l) ++ 32 :: r).
  { rewrite <- (length_replicate n 32) at 1. by apply rest_adv_app. }
  destruct (get_string_word _ c l r Hs1 Hr1 Hc Hl Hd Hmax) as (buf & E & Hz & Hb0 & Hbl).
  rewrite E. cbn [mbind res_bind].
  set (s2 := adv (Z.of_nat (length (c :: l))) (adv (Z.of_nat n) s)) in *.
  assert (Hs2 : live (set_lex_string buf s2)) by (apply live_string_upd; [by apply live_adv; [| lia] | done]).
  assert (Hr2 : rest s2 = 32 :: r) by (by apply rest_adv_app).
  rewrite (live_eof _ Hs2). simpl lex_string. rewrite Hb0. cbn [mbind res_bind of_option].
  rewrite (proj2 (Z.eqb_neq c 0)) by done. cbn [negb]. unfold c_string. simpl lex_string. rewrite Hz.
  cbn [mbind res_bind of_option]. unfold token_match_name. rewrite Hfound.
  destruct found as [t|]; eexists; (split; [reflexivity |]);
    (split_and!; try done; [by apply live_set_token | unfold c_string; simpl; by rewrite Hz]).
Qed.

Lemma token_run_op s n t r :
  live s → tok_ok t = true → ends t r → rest s = replicate n 32 ++ text t ++ r →
  match t with TName _ | TNull => False | _ => True end →
  ∃ s', token_run s = Ok s' ∧ lexed t r s s'.
Proof.
  intros Hs Hok He Hr Hcl. destruct (text_first t Hok) as (c & l & Ht & Hp & H32 & H9 & H13 & Hnw).
  unfold token_run. rewrite Ht in Hr.
  rewrite (trim_spaces n s c (l ++ r)) by done. cbn [mbind res_bind].
  assert (Hs1 : live (adv (Z.of_nat n) s)) by (apply live_adv; [done | lia]).
  assert (Hr1 : rest (adv (Z.of_nat n) s) = c :: l ++ r).
  { rewrite <- (length_replicate n 32) at 1. by apply rest_adv_app. }
  assert (Hnw' : no_word c) by (by destruct t).
  destruct (get_string_none _ c (l ++ r) Hs1 Hr1 Hnw') as (buf & E & Hb0 & Hbl).
  rewrite E. cbn [mbind res_bind]. set (s1 := set_lex_string buf (adv (Z.of_nat n) s)).
  assert (Hs2 : live s1) by (by apply live_string_upd).
  rewrite (live_eof _ Hs2). simpl lex_string. rewrite Hb0. cbn [mbind res_bind of_option Z.eqb negb].
  assert (Hr2 : rest s1 = text t ++ r) by (rewrite Ht; exact Hr1).
  assert (Hx : ∃ s', operator s1 = Ok s' ∧ lexed t r s1 s').
  { destruct t as [ds | ds | x | w | w | | t]; try done; simpl in Hok.
    - apply andb_true_iff in Hok as [Hd Hn]. apply Z.ltb_lt in Hn.
      destruct He as [[-> ?] | [r' ->]]; [done |].
      by apply (operator_number ds false r' s1).
    - apply andb_true_iff in Hok as [Hok Hn]. apply andb_true_iff in Hok as [Hd Hz].
      apply Z.ltb_lt in Hn. apply negb_true_iff, bool_decide_eq_false in Hz.
      destruct He as [[-> ?] | [r' ->]]; [done |].
      apply (operator_number ds true r' s1); try done. simpl in Hr2. by rewrite <- app_assoc in Hr2.
    - by apply operator_char.
    - apply operator_string; [done | done |]. rewrite Hr2. simpl. by rewrite <- app_assoc.
    - destruct (op_text t) as [| a [| b [| ? ?]]] eqn:Eo; [done | | | by destruct t].
      + apply (operator_one t a r s1); try done. simpl in Hr2. by rewrite Eo in Hr2.
      + apply (operator_two t a b r s1); try done. simpl in Hr2. by rewrite Eo in Hr2. }
  destruct Hx as (s' & Eo & Hx). exists s'. split; [done |]. by apply (lexed_from t r s s1).
Qed.

Lemma lex_token s n t r :
  live s → tok_ok t = true → ends t r → rest s = replicate n 32 ++ text t ++ r →
  ∃ s', token_run s = Ok s' ∧ lexed t r s s'.
Proof.
  intros Hs Hok He Hr. destruct t as [ds | ds | x | w' | w | | t];
    try (by apply (token_run_op s n _ r)).
  - destruct He as [[_ ?] | [r' ->]]; [done |].
    simpl in Hok. unfold is_name in Hok. apply andb_true_iff in Hok as [Hok Hlen].
    apply andb_true_iff in Hok as [Hok Hm]. apply andb_true_iff in Hok as [Hw Hd].
    destruct w as [| c l]; [done |]. simpl in Hw. apply andb_true_iff in Hw as [Hc Hl].
    apply negb_true_iff in Hc, Hd. apply bool_decide_eq_true in Hm. apply Z.ltb_lt in Hlen.
    destruct (token_run_word s n c l r' None) as (s' & E & ? & ? & ? & ? & ? & ? & ?); try done.
    + apply Forall_forall. intros x Hx. rewrite forallb_forall in Hl.
      apply list_elem_of_In in Hx. specialize (Hl x Hx). by apply negb_true_iff.
    + unfold FINSH_NAME_MAX, FINSH_STRING_MAX in *. lia.
    + exists s'. split; [done |]. split; try done. by eapply rest_position.
  - destruct He as [[_ ?] | [r' ->]]; [done |].
    destruct (token_run_word s n 78 [85; 76; 76] r' (Some finsh_token_type_value_null))
      as (s' & E & ? & ? & ? & ? & ? & ? & ?); try done.
    + by repeat constructor.
    + exists s'. split; [done |]. split; try done. by eapply rest_position.
Qed.

(** ** The stream of tokens of a line *)
Definition toks_ok (ts : list tok) : Prop :=
  Forall (λ t, tok_ok t = true) ts ∧ ∀ t, last ts = Some t → self_ending t = true.

(** The tokens still to be read, with none pushed back. *)
Record fresh (ts : list tok) (s : lexer) : Prop := {
  fresh_live : live s;
  fresh_replay : replay s = false;
  fresh_ok : toks_ok ts;
  fresh_rest : ∃ n, rest s = replicate n 32 ++ render ts;
  fresh_end : ts = [] → rest s = [];
  fresh_pos : position s <= Z.of_nat (length (line s));
}.

Lemma toks_ok_tail t ts : toks_ok (t :: ts) → tok_ok t = true ∧ toks_ok ts.
Proof.
  intros [Hf Hl]. apply Forall_cons_1 in Hf as [Ht Hf]. split; [done |]. split; [done |].
  intros t' H. apply Hl. destruct ts; [done | exact H].
Qed.

Lemma render_cons t ts : ∃ r, render (t :: ts) = text t ++ r ∧
  match ts with [] => r = [] | _ => r = 32 :: render ts end.
Proof. destruct ts; eexists; split; reflexivity. Qed.

(** What is known of the tokenizer after a token has been read. *)
Record after (t : tok) (ts : list tok) (s : lexer) : Prop := {
  after_fresh : fresh ts s;
  after_token : current_token s = kind t;
  after_holds : holds t s;
}.

Lemma fresh_token t ts s :
  fresh (t :: ts) s →
  ∃ s', finsh_token_token s = Ok (kind t, s') ∧ after t ts s' ∧ global_errno s' = global_errno s.
Proof.
  intros [Hs Hrep Hok [n Hr] _ Hpos]. destruct (toks_ok_tail t ts Hok) as [Ht Hts].
  destruct (render_cons t ts) as (r & Er & Hr'). rewrite Er in Hr.
  assert (He : ends t r).
  { destruct ts as [| t2 ts]; subst r; [left | right; eauto]. split; [done |]. by apply Hok. }
  destruct (lex_token s n t r Hs Ht He Hr) as (s' & E & [? Hrest ? ? Hrep' ? ? ?]).
  unfold finsh_token_token. rewrite Hrep, E. cbn [mbind res_bind].
  exists s'. split_and!; [by f_equal; f_equal | | done].
  split; try done. split; try done.
  - congruence.
  - destruct ts as [| t2 ts]; subst r; [by exists 0%nat | by exists 1%nat].
  - by intros ->; subst r.
Qed.

Lemma fresh_end_token s :
  fresh [] s →
  ∃ s', finsh_token_token s = Ok (finsh_token_type_eof, s') ∧ global_errno s' = global_errno s.
Proof.
  intros [Hs Hrep _ _ Hend Hpos]. specialize (Hend eq_refl).
  unfold finsh_token_token. rewrite Hrep. unfold token_run, token_trim_space, line_fuel. simpl.
  rewrite (next_char_end s) by done. cbn [mbind res_bind Z.eqb orb].
  unfold token_prev_char. simpl. unfold token_get_string, token_next_char. simpl.
  eexists. split; [reflexivity | done].
Qed.

(** A token pushed back is given again. *)
Lemma after_replay t ts s :
  after t ts s → finsh_token_token (set_replay true s) = Ok (kind t, s).
Proof.
  intros [[_ Hrep _ _ _ _] Ht _]. unfold finsh_token_token. simpl. f_equal.
  assert (E : set_replay false (set_replay true s) = s).
  { unfold set_replay. simpl. rewrite <- Hrep. by destruct s. }
  rewrite E. by f_equal.
Qed.

(** Ready to give the tokens [ts], the first of which may have been pushed back. *)
Inductive ready : list tok → lexer → Prop :=
  | ready_fresh ts s : fresh ts s → ready ts s
  | ready_replay t ts s : after t ts s → ready (t :: ts) (set_replay true s).

Lemma ready_token t ts s :
  ready (t :: ts) s →
  ∃ s', finsh_token_token s = Ok (kind t, s') ∧ after t ts s' ∧ global_errno s' = global_errno s.
Proof.
  intros H. inversion H as [? ? Hf | ? ? s0 Ha]; subst; [by apply fresh_token |].
  exists s0. split_and!; [by eapply after_replay | done | done].
Qed.

Lemma fresh_init ts s0 :
  toks_ok ts → fresh ts (finsh_token_init s0 (render ts)).
Proof.
  intros Hok. split; simpl; try done.
  - exists 0%nat. done.
  - by intros ->.
  - lia.
Qed.

(** What the parser takes from the tokenizer with a token of each kind: the
    number, the character, the characters of the string. *)
Inductive datum := DNone | DNumber (v : Z) | DText (l : list Z).
Definition datum_of (t : finsh_token_type) (s : lexer) : res datum :=
  match t with
  | finsh_token_type_value_int | finsh_token_type_value_long => Ok (DNumber (lex_value s))
  | finsh_token_type_value_char => Ok (DNumber (u8 (lex_value s)))
  | finsh_token_type_value_string | finsh_token_type_identifier => l ← c_string s; Ok (DText l)
  | _ => Ok DNone
  end.

(** [n] tokens of a line, as they are read. *)
Fixpoint token_stream (n : nat) (s : lexer) : res (list (finsh_token_type * datum)) :=
  match n with
  | O => Ok []
  | S n =>
      '(t, s) ← finsh_token_token s; d ← datum_of t s;
      l ← token_stream n s; Ok ((t, d) :: l)
  end.

(** What a token should be read as. *)
Definition meaning (t : tok) : finsh_token_type * datum :=
  (kind t, match t with
   | TInt ds | TLong ds => DNumber (number ds)
   | TChar c => DNumber c
   | TString l | TName l => DText l
   | TNull | TOp _ => DNone
   end).

Lemma datum_of_kind t s : tok_ok t = true → holds t s → datum_of (kind t) s = Ok (meaning t).2.
Proof.
  intros Hok H. destruct t as [ds | ds | c | l | l | | t]; simpl in *; rewrite ?H; try done. by destruct t.
Qed.

Lemma fresh_stream ts s :
  fresh ts s → token_stream (S (length ts)) s = Ok ((meaning <$> ts) ++ [(finsh_token_type_eof, DNone)]).
Proof.
  revert s. induction ts as [| t ts IH]; intros s Hs.
  - destruct (fresh_end_token s Hs) as (s' & E & _). simpl. by rewrite E.
  - destruct (fresh_token t ts s Hs) as (s' & E & [Hf _ Hh] & _).
    destruct (toks_ok_tail t ts (fresh_ok _ _ Hs)) as [Hok _].
    change (length (t :: ts)) with (S (length ts)).
    remember (S (length ts)) as k. cbn [token_stream]. rewrite E. cbn [mbind res_bind].
    rewrite (datum_of_kind t s' Hok Hh). cbn [mbind res_bind]. subst k. by rewrite (IH s' Hf).
Qed.

(** C15. Printing tokens and reading them back: the tokenizer gives exactly the
    tokens of the line with their data (the value of each decimal integer below
    2^31, with or without the suffix [L], the character of each character literal,
    the characters of each string and of each name), then the end of file.  The
    line is written with one space between tokens and ends with an operator, a
    character or a string, as it does with the shell's semicolon; other bases and
    escapes are not in it. *)
Theorem finsh_token_roundtrip ts s0 :
  toks_ok ts →
  token_stream (S (length ts)) (finsh_token_init s0 (render ts)) =
    Ok ((meaning <$> ts) ++ [(finsh_token_type_eof, DNone)]).
Proof. intros Hok. by apply fresh_stream, fresh_init. Qed.

(** [x1 = 40 + f ( y , 'a' , S ) << 2L ;], [S] being the string of the letters h and i. *)
Definition demo_toks : list tok :=
  [ TName [120; 49]; TOp finsh_token_type_assign; TInt [4; 0]; TOp finsh_token_type_add;
    TName [102]; TOp finsh_token_type_left_paren; TName [121]; TOp finsh_token_type_comma; TChar 97;
    TOp finsh_token_type_comma; TString [104; 105]; TOp finsh_token_type_right_paren;
    TOp finsh_token_type_shl; TLong [2]; TOp finsh_token_type_semicolon ].

Lemma finsh_token_roundtrip_witness :
  toks_ok demo_toks ∧
  token_stream (S (length demo_toks))
    (finsh_token_init (mk_lexer false false 0 finsh_token_type_bad 0 [] [] 0) (render demo_toks)) =
  Ok ((meaning <$> demo_toks) ++ [(finsh_token_type_eof, DNone)]).
Proof.
  assert (H : toks_ok demo_toks).
  { split; [repeat constructor | intros t Ht; vm_compute in Ht; by injection Ht as <-]. }
  split; [exact H |]. by apply finsh_token_roundtrip.
Defined.

(** A name at the very end of a line: the end of file is forgotten with the
    position set back to 0, and the line is read again from its start, for ever. *)
Theorem name_at_end_restarts s0 :
  token_stream 6 (finsh_token_init s0 [120; 124; 121]) =
  Ok [(finsh_token_type_identifier, DText [120]); (finsh_token_type_or, DNone); (finsh_token_type_identifier, DText [121]);
      (finsh_token_type_identifier, DText [120]); (finsh_token_type_or, DNone); (finsh_token_type_identifier, DText [121])].
Proof. reflexivity. Qed.
