(* ===== verification/FinshSyntax.v ===== *)
(** * Correctness of the finsh parser

    A syntax of expressions with the precedence the grammar of [finsh_parser.c]
    gives them (parentheses other than a call's are not in it: the parser rejects
    them, see the end of the file), its tokens and its tree; the theorem that the
    parser turns the tokens into the tree; and with [FinshProps] and [FinshLex],
    the theorem from the text of a line to what the shell answers. *)
From S2P Require Import Prelude KMemory FinshVm FinshExec FinshCompiler FinshProps FinshToken FinshHeap FinshParser FinshLex.
Local Open Scope Z_scope.

(** ** Syntax *)
Inductive unop := UMinus | UNot | UDeref | UAddr | UPreInc | UPreDec.

Inductive syn :=
  | SInt (ds : list Z) | SLong (ds : list Z) | SChar (c : Z) | SNull | SName (l : list Z)
  | SBin (x : binop) (a b : syn)
  | SUn (u : unop) (a : syn)
  | SPost (x : incop) (a : syn)
  | SCall (f : syn) (l : syns)
  | SAssign (a b : syn)
with syns := SNil | SCons (a : syn) (l : syns).

Scheme syn_mut := Induction for syn Sort Prop
with syns_mut := Induction for syns Sort Prop.
Combined Scheme syn_syns_ind from syn_mut, syns_mut.

Definition bin_token (x : binop) : finsh_token_type :=
  match x with
  | Add => finsh_token_type_add | Sub => finsh_token_type_sub | Div => finsh_token_type_div
  | Mod => finsh_token_type_mod | Mul => finsh_token_type_mul | And => finsh_token_type_and
  | Or => finsh_token_type_or | Xor => finsh_token_type_xor | Shl => finsh_token_type_shl
  | Shr => finsh_token_type_shr
  end.
Definition un_token (u : unop) : finsh_token_type :=
  match u with
  | UMinus => finsh_token_type_sub | UNot => finsh_token_type_bitwise
  | UDeref => finsh_token_type_mul | UAddr => finsh_token_type_and
  | UPreInc => finsh_token_type_inc | UPreDec => finsh_token_type_dec
  end.
Definition post_token (x : incop) : finsh_token_type :=
  match x with Inc => finsh_token_type_inc | Dec => finsh_token_type_dec end.

Fixpoint tokens (a : syn) : list tok :=
  match a with
  | SInt ds => [TInt ds] | SLong ds => [TLong ds] | SChar c => [TChar c] | SNull => [TNull]
  | SName l => [TName l]
  | SBin x a b => tokens a ++ TOp (bin_token x) :: tokens b
  | SUn u a => TOp (un_token u) :: tokens a
  | SPost x a => tokens a ++ [TOp (post_token x)]
  | SCall f l => tokens f ++ TOp finsh_token_type_left_paren ::
                   args_tokens l ++ [TOp finsh_token_type_right_paren]
  | SAssign a b => tokens a ++ TOp finsh_token_type_assign :: tokens b
  end
with args_tokens (l : syns) : list tok :=
  match l with
  | SNil => []
  | SCons a l' =>
      tokens a ++ match l' with SNil => [] | _ => TOp finsh_token_type_comma :: args_tokens l' end
  end.

(** The level of the grammar an expression belongs to. *)
Definition bin_level (x : binop) : nat :=
  match x with
  | Mul | Div | Mod => 2 | Add | Sub => 3 | Shl | Shr => 4 | And => 5 | Xor => 6 | Or => 7
  end.
Definition level_of (a : syn) : nat :=
  match a with
  | SBin x _ _ => bin_level x | SUn _ _ => 1 | SAssign _ _ => 8 | _ => 0
  end.

Definition un_node (u : unop) : finsh_node_type :=
  match u with
  | UMinus => FINSH_NODE_SYS_SUB | UNot => FINSH_NODE_SYS_BITWISE
  | UDeref => FINSH_NODE_SYS_GETVALUE | UAddr => FINSH_NODE_SYS_GETADDR
  | UPreInc => FINSH_NODE_SYS_PREINC | UPreDec => FINSH_NODE_SYS_PREDEC
  end.

(** How many nodes the tree has. *)
Fixpoint syn_size (a : syn) : Z :=
  match a with
  | SBin _ a b | SAssign a b => 1 + syn_size a + syn_size b
  | SUn UMinus a => 2 + syn_size a
  | SUn _ a | SPost _ a => 1 + syn_size a
  | SCall f l => 1 + syn_size f + syns_size l
  | _ => 1
  end
with syns_size (l : syns) : Z :=
  match l with SNil => 0 | SCons a l => syn_size a + syns_size l end.

Lemma syn_size_pos : (∀ a, 1 <= syn_size a) ∧ (∀ l, 0 <= syns_size l).
Proof.
  apply syn_syns_ind; simpl; intros; try lia. destruct u; lia.
Qed.
Definition line_size (es : list syn) : Z := foldr (λ a n, syn_size a + n) 0 es.
Lemma line_size_nonneg es : 0 <= line_size es.
Proof. induction es as [| a es IH]; simpl; [lia |]. pose proof (proj1 syn_size_pos a). lia. Qed.

Section parsing.
Context (env : symbols) (vars : list (list Z * finsh_type)) (resolve : list Z → finsh_node).

(** The tree, [resolve] being the node of a name. *)
Fixpoint syn_tree (a : syn) : tree :=
  match a with
  | SInt ds => Node (value_node FINSH_NODE_VALUE_INT (number ds)) Nil Nil
  | SLong ds => Node (value_node FINSH_NODE_VALUE_LONG (number ds)) Nil Nil
  | SChar c => Node (value_node FINSH_NODE_VALUE_CHAR c) Nil Nil
  | SNull => Node (value_node FINSH_NODE_VALUE_NULL 0) Nil Nil
  | SName l => Node (resolve l) Nil Nil
  | SBin x a b => Node (op_node (binop_node x)) (set_sibling (syn_tree a) (syn_tree b)) Nil
  | SUn UMinus a =>
      Node (op_node FINSH_NODE_SYS_SUB) (Node (value_node FINSH_NODE_VALUE_LONG 0) Nil (syn_tree a)) Nil
  | SUn u a => Node (op_node (un_node u)) (set_sibling (syn_tree a) Nil) Nil
  | SPost x a => Node (op_node (post_node x)) (set_sibling (syn_tree a) Nil) Nil
  | SCall f l => Node (op_node FINSH_NODE_SYS_FUNC) (set_sibling (syn_tree f) (syns_tree l)) Nil
  | SAssign a b => Node (op_node FINSH_NODE_SYS_ASSIGN) (set_sibling (syn_tree a) (syn_tree b)) Nil
  end
with syns_tree (l : syns) : tree :=
  match l with SNil => Nil | SCons a l => set_sibling (syn_tree a) (syns_tree l) end.

(** The grammar in the comments of [finsh_parser.c] allows a narrower language
    than the parser accepts: what an assignment sets is an [expr_unary]. *)
Fixpoint documented (a : syn) : bool :=
  match a with
  | SBin _ a b => documented a && documented b
  | SUn _ a | SPost _ a => documented a
  | SCall f l => documented f && documented_args l
  | SAssign a b => documented a && documented b && (level_of a <=? 1)%nat
  | _ => true
  end
with documented_args (l : syns) : bool :=
  match l with SNil => true | SCons a l => documented a && documented_args l end.

(** The name is a symbol, and [resolve] gives its node. *)
Definition resolves (l : list Z) : Prop :=
  ∀ s, variables s = vars → lookup_symbol env (copy_name l) s = Ok (Some (resolve l)).

(** The statements the parser accepts; any expression without an assignment at
    its top may stand on the left of one. *)
Fixpoint wf (a : syn) : Prop :=
  match a with
  | SInt ds => tok_ok (TInt ds) = true
  | SLong ds => tok_ok (TLong ds) = true
  | SChar c => tok_ok (TChar c) = true
  | SNull => True
  | SName l => tok_ok (TName l) = true ∧ resolves l
  | SBin x a b => wf a ∧ wf b ∧ (level_of a ≤ bin_level x)%nat ∧ (level_of b < bin_level x)%nat
  | SUn _ a => wf a ∧ (level_of a ≤ 1)%nat
  | SPost _ a => wf a ∧ level_of a = 0%nat
  | SCall f l => wf f ∧ level_of f = 0%nat ∧ wf_args l
  | SAssign a b => wf a ∧ wf b ∧ (level_of a ≤ 7)%nat
  end
with wf_args (l : syns) : Prop :=
  match l with SNil => True | SCons a l => wf a ∧ wf_args l end.

(** ** The parser's state: what it will read, and that it has reported no error *)
Record same (n : Z) (s : parser) (s0 : parser) : Prop := {
  same_nodes : nodes s = n;
  same_vars : variables s = vars;
  same_heap : pheap s = pheap s0;
  same_mem : pmem s = pmem s0;
  same_errno : global_errno (lex s) = FINSH_ERROR_OK;
}.
Definition pst (ts : list tok) (n : Z) (s0 s : parser) : Prop := ready ts (lex s) ∧ same n s s0.
Definition pafter (t : tok) (ts : list tok) (n : Z) (s0 s : parser) : Prop :=
  after t ts (lex s) ∧ same n s s0.

Lemma p_next t ts n s0 s :
  pst (t :: ts) n s0 s → ∃ s', next_token s = Ok (kind t, s') ∧ pafter t ts n s0 s'.
Proof.
  intros [Hr Hs]. destruct (ready_token t ts (lex s) Hr) as (l & E & Ha & He).
  unfold next_token. rewrite E. cbn [mbind res_bind]. eexists. split; [reflexivity |].
  split; [done |]. destruct Hs. split; simpl; try done. congruence.
Qed.

Lemma p_end n s0 s : pst [] n s0 s → fresh [] (lex s) →
  ∃ s', next_token s = Ok (finsh_token_type_eof, s') ∧ same n s' s0.
Proof.
  intros [_ Hs] Hf. destruct (fresh_end_token _ Hf) as (l & E & He).
  unfold next_token. rewrite E. cbn [mbind res_bind]. eexists. split; [reflexivity |].
  destruct Hs. split; simpl; try done. congruence.
Qed.

Lemma pafter_pst t ts n s0 s : pafter t ts n s0 s → pst ts n s0 s.
Proof. intros [[] ?]. split; [by apply ready_fresh | done]. Qed.

Lemma pafter_replay t ts n s0 s : pafter t ts n s0 s → pst (t :: ts) n s0 (finsh_token_replay s).
Proof. intros [? []]. split; [by apply ready_replay | by split]. Qed.

Lemma same_with_nodes n m s s0 : same n s s0 → same m (with_nodes m s) s0.
Proof. intros []. by split. Qed.

Lemma pst_nodes ts n m s0 s : pst ts n s0 s → pst ts m s0 (with_nodes m s).
Proof. intros [? ?]. split; [done | by eapply same_with_nodes]. Qed.

Lemma make_node ty t1 t2 n c sib ts k s0 s :
  t1 = Node n c sib → pst ts k s0 s → k < FINSH_NODE_MAX →
  make_sys_node ty t1 t2 s = (Node (op_node ty) (set_sibling t1 t2) Nil, with_nodes (k + 1) s) ∧
  pst ts (k + 1) s0 (with_nodes (k + 1) s).
Proof.
  intros -> Hs Hk. destruct Hs as [? Hsame]. pose proof (same_nodes _ _ _ Hsame) as Hn.
  unfold make_sys_node, finsh_node_allocate. rewrite Hn, (proj2 (Z.eqb_neq k _)) by lia.
  split; [done |]. split; [done | by eapply same_with_nodes].
Qed.

Lemma syn_tree_node a : ∃ n c, syn_tree a = Node n c Nil.
Proof. destruct a as [| | | | | | u a | | |]; simpl; eauto. destruct u; eauto. Qed.

(** ** The functions of the grammar, by level *)
Definition ops (k : nat) : finsh_token_type → option finsh_node_type :=
  match k with
  | 2 => mul_ops | 3 => add_ops | 4 => shift_ops | 5 => and_ops | 6 => xor_ops | 7 => or_ops
  | _ => λ _, None
  end%nat.
Fixpoint level (k f : nat) : parser → res (tree * parser) :=
  match k with
  | O => proc_cast_expr env f
  | S k' => match k' with
            | O => proc_cast_expr env f
            | _ => binary_level f (ops k) (level k' f)
            end
  end.

Lemma level_up k f : (2 ≤ k)%nat → level k f = binary_level f (ops k) (level (k - 1) f).
Proof.
  intros Hk. destruct k as [| [| k]]; [lia | lia |]. simpl level at 1.
  by replace (S (S k) - 1)%nat with (S k) by lia.
Qed.

Lemma level_7 f : level 7 f = proc_inclusive_or_expr (proc_cast_expr env f) f.
Proof. reflexivity. Qed.

Definition is_postfix (t : finsh_token_type) : bool :=
  match t with
  | finsh_token_type_inc | finsh_token_type_dec | finsh_token_type_left_paren => true
  | _ => false
  end.
(** The token ends an expression of level [k]. *)
Definition stops (k : nat) (t : finsh_token_type) : bool :=
  negb (is_postfix t) && forallb (λ j, match ops j t with None => true | _ => false end) (seq 2 (k - 1)).

Lemma stops_le j k t : stops k t = true → (j ≤ k)%nat → stops j t = true.
Proof.
  unfold stops. rewrite !andb_true_iff, !forallb_forall. intros [? H] Hjk. split; [done |].
  intros x Hx. apply H. apply in_seq in Hx. apply in_seq. lia.
Qed.
Lemma stops_op k t : stops k t = true → (2 ≤ k)%nat → ops k t = None.
Proof.
  unfold stops. rewrite andb_true_iff, forallb_forall. intros [_ H] Hk.
  specialize (H k). destruct (ops k t); [| done].
  assert (false = true); [| done]. apply H. apply in_seq. lia.
Qed.
Lemma stops_postfix k t : stops k t = true → is_postfix t = false.
Proof. unfold stops. rewrite andb_true_iff, negb_true_iff. tauto. Qed.

Lemma bin_token_stops x : stops (bin_level x - 1) (bin_token x) = true.
Proof. by destruct x. Qed.
Lemma bin_token_op x : ops (bin_level x) (bin_token x) = Some (binop_node x).
Proof. by destruct x. Qed.
Lemma bin_level_range x : (2 ≤ bin_level x ≤ 7)%nat.
Proof. destruct x; simpl; lia. Qed.

(** ** The statements *)
Definition parses_to (p : nat → parser → res (tree * parser)) (s : parser) (t : tree)
    (Q : parser → Prop) : Prop :=
  ∃ f0 s', Q s' ∧ ∀ f, (f0 ≤ f)%nat → p f s = Ok (t, s').

(** At level [k], when the next token ends the expression. *)
Definition R (k : nat) (a : syn) : Prop := ∀ s t ts n s0,
  wf a → (level_of a ≤ k)%nat → pst (tokens a ++ t :: ts) n s0 s →
  n + syn_size a <= FINSH_NODE_MAX → stops k (kind t) = true →
  parses_to (level k) s (syn_tree a) (pst (t :: ts) (n + syn_size a) s0).

(** At level [k], up to the loop for the operators of the level. *)
Definition L (k : nat) (a : syn) : Prop := ∀ s t ts n s0,
  wf a → (level_of a ≤ k)%nat → pst (tokens a ++ t :: ts) n s0 s →
  n + syn_size a <= FINSH_NODE_MAX → stops (k - 1) (kind t) = true →
  ∃ f0 d s', pst (t :: ts) (n + syn_size a) s0 s' ∧
    ∀ f, (f0 ≤ f)%nat →
      level k f s = binary_loop (f - d) (ops k) (level (k - 1) f) (syn_tree a) s'.

(** A postfix expression, up to the loop for the postfix operators. *)
Definition P (a : syn) : Prop := ∀ s ts n s0,
  wf a → level_of a = 0%nat → pst (tokens a ++ ts) n s0 s →
  n + syn_size a <= FINSH_NODE_MAX →
  ∃ f0 d s', pst ts (n + syn_size a) s0 s' ∧
    ∀ f, (f0 ≤ f)%nat →
      proc_postfix_expr env (proc_assign_expr env f) f s =
      postfix_loop (proc_assign_expr env f) (f - d) (syn_tree a) s'.

(** Any expression, where an assignment may stand. *)
Definition R8 (a : syn) : Prop := ∀ s t ts n s0,
  wf a → pst (tokens a ++ t :: ts) n s0 s →
  n + syn_size a <= FINSH_NODE_MAX → stops 7 (kind t) = true → kind t ≠ finsh_token_type_assign →
  parses_to (proc_assign_expr env) s (syn_tree a) (pst (t :: ts) (n + syn_size a) s0).

(** The arguments behind the first one. *)
Fixpoint more_tokens (l : syns) : list tok :=
  match l with
  | SNil => []
  | SCons a l => TOp finsh_token_type_comma :: tokens a ++ more_tokens l
  end.
Fixpoint syns_list (l : syns) : list tree :=
  match l with SNil => [] | SCons a l => syn_tree a :: syns_list l end.
Definition rparen : tok := TOp finsh_token_type_right_paren.

Definition Q (l : syns) : Prop := ∀ s ts n s0,
  wf_args l → pst (more_tokens l ++ rparen :: ts) n s0 s →
  n + syns_size l <= FINSH_NODE_MAX →
  ∃ s', pst (rparen :: ts) (n + syns_size l) s0 s' ∧
    ∀ d acc, ∃ f0, ∀ f, (f0 ≤ f)%nat →
      param_loop (proc_assign_expr env f) (f - d) acc s = Ok (acc ++ syns_list l, s').

Lemma args_tokens_cons a l : args_tokens (SCons a l) = tokens a ++ more_tokens l.
Proof.
  revert a. induction l as [| b l IH]; intros a; [done |].
  simpl in *. by rewrite <- IH.
Qed.
Lemma syns_tree_link l : syns_tree l = link (syns_list l).
Proof. induction l as [| a l IH]; [done |]. simpl. by rewrite IH. Qed.

(** What an expression begins with. *)
Definition is_primary (t : finsh_token_type) : bool :=
  match t with
  | finsh_token_type_identifier | finsh_token_type_value_int | finsh_token_type_value_long
  | finsh_token_type_value_char | finsh_token_type_value_null => true
  | _ => false
  end.
Definition is_start (t : finsh_token_type) : bool :=
  is_primary t ||
  match t with
  | finsh_token_type_sub | finsh_token_type_bitwise | finsh_token_type_mul
  | finsh_token_type_and | finsh_token_type_inc | finsh_token_type_dec => true
  | _ => false
  end.

Lemma tokens_first a :
  wf a → ∃ t ts, tokens a = t :: ts ∧ is_start (kind t) = true ∧
    (level_of a = 0%nat → is_primary (kind t) = true).
Proof.
  induction a as [ds | ds | c | | l | x a IHa b IHb | u a IHa | x a IHa | g IHg l | a IHa b IHb];
    simpl; intros Hw.
  1-5: eexists _, _; split_and!; done.
  - destruct Hw as (Ha & _). destruct (IHa Ha) as (t & ts & -> & Hs & _).
    eexists _, _. split_and!; [done | done |]. pose proof (bin_level_range x). lia.
  - eexists _, _. split_and!; [done | by destruct u | lia].
  - destruct Hw as (Ha & Hl). destruct (IHa Ha) as (t & ts & -> & Hs & Hp).
    eexists _, _. split_and!; [done | done |]. intros _. by apply Hp.
  - destruct Hw as (Ha & Hl & _). destruct (IHg Ha) as (t & ts & -> & Hs & Hp).
    eexists _, _. split_and!; [done | done |]. intros _. by apply Hp.
  - destruct Hw as (Ha & _). destruct (IHa Ha) as (t & ts & -> & Hs & _).
    eexists _, _. split_and!; [done | done |]. lia.
Qed.

(** ** From one level to the next *)
Lemma L_from_R k a : (2 ≤ k)%nat → (level_of a ≤ k - 1)%nat → R (k - 1) a → L k a.
Proof.
  intros Hk Hl HR s t ts n s0 Hw _ Hs Hn Hstop.
  destruct (HR s t ts n s0 Hw Hl Hs Hn Hstop) as (f0 & s' & Hs' & E).
  exists f0, 0%nat, s'. split; [done |]. intros f Hf. specialize (E f Hf).
  rewrite level_up by done. unfold binary_level.
  rewrite E. cbn [mbind res_bind]. by rewrite Nat.sub_0_r.
Qed.

Lemma R_from_L k a : (2 ≤ k)%nat → L k a → R k a.
Proof.
  intros Hk HL s t ts n s0 Hw Hl Hs Hn Hstop.
  destruct (HL s t ts n s0 Hw Hl Hs Hn ltac:(eapply stops_le; [exact Hstop | lia])) as (f0 & d & s1 & Hs1 & E).
  destruct (p_next _ _ _ _ _ Hs1) as (s2 & E2 & Ha).
  exists f0, (finsh_token_replay s2). split; [by apply pafter_replay |].
  intros f Hf. rewrite (E f Hf). pose proof (stops_op k (kind t) Hstop Hk) as Hop.
  destruct (f - d)%nat; simpl; rewrite E2; cbn [mbind res_bind]; by rewrite Hop.
Qed.

(** From the level of the expression upwards. *)
Lemma R_up a j k :
  (1 ≤ j)%nat → (level_of a ≤ j)%nat → R j a → (j ≤ k)%nat → R k a.
Proof.
  intros Hj Hl HR Hjk. induction Hjk as [| k Hjk IH]; [done |].
  apply R_from_L; [lia |]. apply L_from_R; [lia | lia |].
  by replace (S k - 1)%nat with k by lia.
Qed.

(** A binary operation: its left operand is the loop's tree so far. *)
Lemma L_bin x a b :
  L (bin_level x) a → R (bin_level x - 1) b → L (bin_level x) (SBin x a b).
Proof.
  intros HLa HRb s t ts n s0 (Ha & Hb & Hla & Hlb) _ Hs Hn Hstop. simpl in Hs, Hn.
  rewrite <- app_assoc in Hs. pose proof (proj1 syn_size_pos b). pose proof (proj1 syn_size_pos a).
  pose proof (bin_level_range x) as Hx.
  destruct (HLa s _ _ n s0 Ha Hla Hs ltac:(lia) (bin_token_stops x)) as (f0 & d & s1 & Hs1 & E1).
  destruct (p_next _ _ _ _ _ Hs1) as (s2 & E2 & Ha2). apply pafter_pst in Ha2.
  destruct (HRb s2 t ts _ s0 Hb ltac:(lia) Ha2 ltac:(lia) Hstop) as (f1 & s3 & Hs3 & E3).
  destruct (syn_tree_node a) as (na & ca & Eta). destruct (syn_tree_node b) as (nb & cb & Etb).
  destruct (make_node (binop_node x) (syn_tree a) (syn_tree b) na ca Nil _ _ s0 s3 Eta Hs3 ltac:(lia)) as [E4 Hs4].
  exists (Nat.max f0 (Nat.max f1 (d + 2))), (d + 1)%nat, (with_nodes (n + syn_size a + syn_size b + 1) s3).
  split.
  - replace (n + syn_size (SBin x a b)) with (n + syn_size a + syn_size b + 1) by (simpl; lia). done.
  - intros f Hf. rewrite (E1 f) by lia.
    replace (f - d)%nat with (S (f - (d + 1))) by lia. simpl binary_loop at 1.
    rewrite E2. cbn [mbind res_bind kind]. rewrite bin_token_op.
    rewrite (E3 f) by lia. cbn [mbind res_bind syn_tree]. rewrite Etb in E4 |- *. by rewrite E4.
Qed.

(** ** Postfix expressions *)
Lemma new_leaf_ok nd ts n s0 s :
  pst ts n s0 s → n < FINSH_NODE_MAX →
  new_leaf nd s = (Node nd Nil Nil, with_nodes (n + 1) s) ∧ pst ts (n + 1) s0 (with_nodes (n + 1) s).
Proof.
  intros Hs Hn. pose proof (same_nodes _ _ _ (proj2 Hs)) as E.
  unfold new_leaf, finsh_node_allocate. rewrite E, (proj2 (Z.eqb_neq n _)) by lia.
  split; [done | by eapply pst_nodes].
Qed.

Definition literal_leaf (t : finsh_token_type) (s : parser) : tree * parser :=
  match t with
  | finsh_token_type_value_int => finsh_node_new_int (lex_value (lex s)) s
  | finsh_token_type_value_long => finsh_node_new_long (lex_value (lex s)) s
  | finsh_token_type_value_char => finsh_node_new_char (lex_value (lex s)) s
  | _ => finsh_node_new_ptr 0 s
  end.

Lemma P_literal a tk nd :
  tokens a = [tk] → is_primary (kind tk) = true → kind tk ≠ finsh_token_type_identifier →
  syn_size a = 1 → syn_tree a = Node nd Nil Nil →
  (∀ s, holds tk (lex s) → wf a → literal_leaf (kind tk) s = new_leaf nd s) → P a.
Proof.
  intros Htok Hprim Hid Hsize Ht Hleaf s ts n s0 Hw _ Hs Hn. rewrite Htok in Hs. simpl in Hs.
  destruct (p_next _ _ _ _ _ Hs) as (s1 & E & Ha). pose proof Ha as [[_ _ Hh] Hsame].
  specialize (Hleaf s1 Hh Hw). apply pafter_pst in Ha.
  destruct (new_leaf_ok nd ts n s0 s1 Ha ltac:(lia)) as [El Hs'].
  exists 0%nat, 0%nat, (with_nodes (n + 1) s1). rewrite Hsize. split; [done |].
  intros f _. unfold proc_postfix_expr, proc_primary_expr. rewrite E, Ht, Nat.sub_0_r.
  cbn [mbind res_bind]. rewrite El in Hleaf.
  destruct (kind tk); try done; cbn [mbind res_bind literal_leaf] in *; by rewrite Hleaf.
Qed.

Lemma number_u32 ds : is_digits ds = true → number ds < 2147483648 → u32 (number ds) = number ds.
Proof.
  intros Hd Hn. destruct (is_digits_inv ds Hd) as (d & l & -> & Hf & _).
  pose proof (number_mono (d :: l) 0 Hf ltac:(lia)) as H. unfold number in *. unfold u32. lia.
Qed.

Lemma P_literals :
  (∀ ds, P (SInt ds)) ∧ (∀ ds, P (SLong ds)) ∧ (∀ c, P (SChar c)) ∧ P SNull.
Proof.
  split_and!; intros; (eapply P_literal; [reflexivity | done | done | reflexivity | reflexivity |]);
    intros s Hh Hw; simpl in Hh, Hw; unfold literal_leaf; cbn [kind].
  - apply andb_true_iff in Hw as [Hd Hn]. apply Z.ltb_lt in Hn.
    unfold finsh_node_new_int, value_leaf. by rewrite Hh, number_u32.
  - apply andb_true_iff in Hw as [Hw Hn]. apply andb_true_iff in Hw as [Hd _]. apply Z.ltb_lt in Hn.
    unfold finsh_node_new_long, value_leaf. by rewrite Hh, number_u32.
  - unfold finsh_node_new_char, value_leaf. by rewrite Hh.
  - done.
Qed.

(** A name: the token is read, pushed back, and read as an identifier. *)
Lemma P_name l : P (SName l).
Proof.
  intros s ts n s0 [Hok Hres] _ Hs Hn. simpl in Hs, Hn.
  destruct (p_next _ _ _ _ _ Hs) as (s1 & E1 & Ha1). apply pafter_replay in Ha1.
  destruct (p_next _ _ _ _ _ Ha1) as (s2 & E2 & Ha2). pose proof Ha2 as [[_ _ Hh] Hsame].
  apply pafter_pst in Ha2.
  destruct (new_leaf_ok (resolve l) ts n s0 s2 Ha2 ltac:(lia)) as [El Hs'].
  exists 0%nat, 0%nat, (with_nodes (n + 1) s2). split; [done |].
  intros f _. unfold proc_postfix_expr, proc_primary_expr. rewrite E1, Nat.sub_0_r.
  cbn [mbind res_bind kind]. unfold proc_identifier, match_token. rewrite E2.
  cbn [mbind res_bind kind]. unfold check_token. rewrite decide_True by done.
  simpl in Hh. rewrite Hh. cbn [mbind res_bind]. unfold finsh_node_new_id.
  rewrite (Hres s2 (same_vars _ _ _ Hsame)). cbn [mbind res_bind syn_tree]. by rewrite El.
Qed.

(** ** Postfix operators and calls *)
Lemma P_post x a : P a → P (SPost x a).
Proof.
  intros HP s ts n s0 (Ha & Hl) _ Hs Hn. simpl in Hs, Hn. rewrite <- app_assoc in Hs.
  destruct (HP s _ n s0 Ha Hl Hs ltac:(lia)) as (f0 & d & s1 & Hs1 & E1).
  destruct (p_next _ _ _ _ _ Hs1) as (s2 & E2 & Ha2). apply pafter_pst in Ha2.
  destruct (syn_tree_node a) as (na & ca & Eta).
  destruct (make_node (post_node x) (syn_tree a) Nil na ca Nil _ _ s0 s2 Eta Ha2 ltac:(lia)) as [E3 Hs3].
  exists (Nat.max f0 (d + 2)), (d + 1)%nat, (with_nodes (n + syn_size a + 1) s2). split.
  - replace (n + syn_size (SPost x a)) with (n + syn_size a + 1) by (simpl; lia). done.
  - intros f Hf. rewrite (E1 f) by lia. replace (f - d)%nat with (S (f - (d + 1))) by lia.
    simpl postfix_loop at 1. rewrite E2. cbn [mbind res_bind kind].
    destruct x; cbn [post_token post_node syn_tree] in *; by rewrite E3.
Qed.

(** What follows an argument: a comma or the closing parenthesis. *)
Lemma more_first l ts :
  ∃ t r, more_tokens l ++ rparen :: ts = t :: r ∧ stops 7 (kind t) = true ∧
    kind t ≠ finsh_token_type_assign.
Proof. destruct l as [| a l]; simpl; eexists _, _; (split; [reflexivity | done]). Qed.

Lemma Q_nil : Q SNil.
Proof.
  intros s ts n s0 _ Hs Hn. simpl in *. destruct (p_next _ _ _ _ _ Hs) as (s1 & E & Ha).
  exists (finsh_token_replay s1). rewrite Z.add_0_r. split; [by apply pafter_replay |].
  intros d acc. exists 0%nat. intros f _. rewrite app_nil_r.
  destruct (f - d)%nat; simpl; rewrite E; cbn [mbind res_bind]; done.
Qed.

Lemma Q_cons a l : R8 a → Q l → Q (SCons a l).
Proof.
  intros HR HQ s ts n s0 (Ha & Hl) Hs Hn. simpl in Hs, Hn. rewrite <- app_assoc in Hs.
  pose proof (proj2 syn_size_pos l).
  destruct (p_next _ _ _ _ _ Hs) as (s1 & E1 & Ha1). apply pafter_pst in Ha1.
  destruct (more_first l ts) as (t & r & Em & Hst & Has). rewrite Em in Ha1.
  destruct (HR s1 t r n s0 Ha Ha1 ltac:(lia) Hst Has) as (f0 & s2 & Hs2 & E2).
  rewrite <- Em in Hs2. destruct (HQ s2 ts _ s0 Hl Hs2 ltac:(lia)) as (s3 & Hs3 & E3).
  exists s3. simpl syns_size. rewrite Z.add_assoc. split; [done |]. intros d acc.
  destruct (E3 (d + 1)%nat (acc ++ [syn_tree a])) as (f1 & E4).
  exists (Nat.max f0 (Nat.max f1 (d + 1))). intros f Hf.
  replace (f - d)%nat with (S (f - (d + 1))) by lia. simpl param_loop at 1.
  rewrite E1. cbn [mbind res_bind kind]. rewrite decide_True by done.
  rewrite (E2 f) by lia. cbn [mbind res_bind].
  destruct (syn_tree_node a) as (na & ca & Eta). rewrite Eta. rewrite <- Eta.
  rewrite (E4 f) by lia. cbn [syns_list]. by rewrite <- app_assoc.
Qed.

Lemma param_list_ok a l s ts n s0 :
  R8 a → Q l → wf_args (SCons a l) → pst (args_tokens (SCons a l) ++ rparen :: ts) n s0 s →
  n + syns_size (SCons a l) <= FINSH_NODE_MAX →
  ∃ s', pst (rparen :: ts) (n + syns_size (SCons a l)) s0 s' ∧
    ∀ d, ∃ f0, ∀ f, (f0 ≤ f)%nat →
      proc_param_list (proc_assign_expr env f) (f - d) s = Ok (syns_tree (SCons a l), s').
Proof.
  intros HR HQ (Ha & Hl) Hs Hn. rewrite args_tokens_cons, <- app_assoc in Hs. simpl in Hn.
  pose proof (proj2 syn_size_pos l).
  destruct (more_first l ts) as (t & r & Em & Hst & Has). rewrite Em in Hs.
  destruct (HR s t r n s0 Ha Hs ltac:(lia) Hst Has) as (f0 & s2 & Hs2 & E2).
  rewrite <- Em in Hs2. destruct (HQ s2 ts _ s0 Hl Hs2 ltac:(lia)) as (s3 & Hs3 & E3).
  exists s3. simpl syns_size. rewrite Z.add_assoc. split; [done |]. intros d.
  destruct (E3 d [syn_tree a]) as (f1 & E4). exists (Nat.max f0 f1). intros f Hf.
  unfold proc_param_list. rewrite (E2 f) by lia. cbn [mbind res_bind].
  destruct (syn_tree_node a) as (na & ca & Eta). rewrite Eta. rewrite <- Eta.
  rewrite (E4 f) by lia. cbn [mbind res_bind app syns_tree]. by rewrite syns_tree_link.
Qed.

(** Between the parentheses of a call. *)
Definition call_args (f d : nat) (s : parser) : res (tree * parser) :=
  '(token, s) ← next_token s;
  (if decide (token = finsh_token_type_right_paren) then Ok (Nil, s)
   else
     '(l, s) ← proc_param_list (proc_assign_expr env f) (f - d) (finsh_token_replay s);
     s ← match_token finsh_token_type_right_paren s; Ok (l, s)).

Lemma call_args_ok l s ts n s0 :
  (∀ a l', l = SCons a l' → R8 a ∧ Q l') → wf_args l →
  pst (args_tokens l ++ rparen :: ts) n s0 s → n + syns_size l <= FINSH_NODE_MAX →
  ∃ s', pst ts (n + syns_size l) s0 s' ∧
    ∀ d, ∃ f0, ∀ f, (f0 ≤ f)%nat → call_args f d s = Ok (syns_tree l, s').
Proof.
  intros HQ Hw Hs Hn. destruct l as [| a l].
  - destruct (p_next _ _ _ _ _ Hs) as (s3 & E3 & Ha3). apply pafter_pst in Ha3.
    exists s3. split; [by rewrite Z.add_0_r |]. intros d. exists 0%nat. intros f _.
    unfold call_args. by rewrite E3.
  - destruct (HQ a l eq_refl) as [HR HQ'].
    destruct (tokens_first a (proj1 Hw)) as (t & r & Et & Hstart & _).
    rewrite args_tokens_cons, Et in Hs. simpl in Hs.
    destruct (p_next _ _ _ _ _ Hs) as (s3 & E3 & Ha3). apply pafter_replay in Ha3.
    change (t :: (r ++ more_tokens l) ++ rparen :: ts)
      with (((t :: r) ++ more_tokens l) ++ rparen :: ts) in Ha3.
    rewrite <- Et, <- args_tokens_cons in Ha3.
    destruct (param_list_ok a l _ ts n s0 HR HQ' Hw Ha3 Hn) as (s4 & Hs4 & E4).
    destruct (p_next _ _ _ _ _ Hs4) as (s5 & E5 & Ha5). apply pafter_pst in Ha5.
    exists s5. split; [done |]. intros d. destruct (E4 d) as (f0 & E4'). exists f0.
    intros f Hf. unfold call_args. rewrite E3. cbn [mbind res_bind].
    rewrite decide_False by (intros E; rewrite E in Hstart; done).
    rewrite (E4' f Hf). cbn [mbind res_bind]. unfold match_token. rewrite E5.
    cbn [mbind res_bind kind rparen]. unfold check_token. by rewrite decide_True.
Qed.

Lemma P_call g l : P g → (∀ a l', l = SCons a l' → R8 a ∧ Q l') → P (SCall g l).
Proof.
  intros HP HQ s ts n s0 (Hg & Hlg & Hl) _ Hs Hn. simpl in Hs, Hn. rewrite <- app_assoc in Hs.
  simpl in Hs. rewrite <- app_assoc in Hs. pose proof (proj2 syn_size_pos l) as Hlpos.
  destruct (HP s _ n s0 Hg Hlg Hs ltac:(lia)) as (f0 & d & s1 & Hs1 & E1).
  destruct (p_next _ _ _ _ _ Hs1) as (s2 & E2 & Ha2). apply pafter_pst in Ha2.
  destruct (call_args_ok l s2 ts _ s0 HQ Hl Ha2 ltac:(lia)) as (s3 & Hs3 & E3).
  destruct (E3 (d + 1)%nat) as (f1 & E3'). destruct (syn_tree_node g) as (ng & cg & Etg).
  destruct (make_node FINSH_NODE_SYS_FUNC (syn_tree g) (syns_tree l) ng cg Nil _ _ s0 s3 Etg Hs3 ltac:(lia))
    as [E4 Hs4].
  exists (Nat.max f0 (Nat.max f1 (d + 2))), (d + 1)%nat, (with_nodes (n + syn_size g + syns_size l + 1) s3).
  split.
  - replace (n + syn_size (SCall g l)) with (n + syn_size g + syns_size l + 1) by (simpl; lia). done.
  - intros f Hf. rewrite (E1 f) by lia. replace (f - d)%nat with (S (f - (d + 1))) by lia.
    simpl postfix_loop at 1. rewrite E2. cbn [mbind res_bind kind].
    specialize (E3' f ltac:(lia)). unfold call_args in E3'.
    destruct (next_token s2) as [[tk s2'] |]; [| done]. cbn [mbind res_bind] in E3' |- *.
    rewrite E3'. cbn [mbind res_bind syn_tree]. by rewrite E4.
Qed.

(** ** Unary operators *)
Lemma first_cast t ts n s0 s :
  pst (t :: ts) n s0 s → is_start (kind t) = true →
  ∃ s', pst (t :: ts) n s0 s' ∧ ∀ f,
    proc_cast_expr env (S f) s =
    proc_unary_expr env (proc_assign_expr env f) (proc_cast_expr env f) f s'.
Proof.
  intros Hs Hst. destruct (p_next _ _ _ _ _ Hs) as (s1 & E & Ha).
  exists (finsh_token_replay s1). split; [by apply pafter_replay |]. intros f.
  simpl. unfold cast_body. rewrite E. cbn [mbind res_bind].
  by rewrite decide_False by (intros E'; by rewrite E' in Hst).
Qed.

Lemma R1_postfix a : level_of a = 0%nat → P a → R 1 a.
Proof.
  intros Hl HP s t ts n s0 Hw _ Hs Hn Hstop.
  destruct (tokens_first a Hw) as (t1 & r & Et & Hstart & Hprim). specialize (Hprim Hl).
  rewrite Et in Hs. simpl in Hs.
  destruct (first_cast _ _ _ _ _ Hs Hstart) as (s1 & Hs1 & E1).
  destruct (p_next _ _ _ _ _ Hs1) as (s2 & E2 & Ha2). apply pafter_replay in Ha2.
  change (t1 :: r ++ t :: ts) with ((t1 :: r) ++ t :: ts) in Ha2. rewrite <- Et in Ha2.
  destruct (HP _ _ n s0 Hw Hl Ha2 Hn) as (f0 & d & s3 & Hs3 & E3).
  destruct (p_next _ _ _ _ _ Hs3) as (s4 & E4 & Ha4).
  exists (S f0), (finsh_token_replay s4). split; [by apply pafter_replay |].
  intros f Hf. destruct f as [| f]; [lia |]. change (level 1 (S f)) with (proc_cast_expr env (S f)).
  rewrite E1. unfold proc_unary_expr. rewrite E2. cbn [mbind res_bind].
  assert (Hp : postfix_loop (proc_assign_expr env f) (f - d) (syn_tree a) s3 =
    Ok (syn_tree a, finsh_token_replay s4)).
  { apply stops_postfix in Hstop. destruct (f - d)%nat; simpl; rewrite E4; cbn [mbind res_bind];
      by destruct (kind t). }
  specialize (E3 f ltac:(lia)). rewrite Hp in E3. by destruct (kind t1).
Qed.

(** A unary operator: its operand is a cast expression. *)
Lemma unary_operand u a s t ts n s0 :
  R 1 a → wf a → (level_of a ≤ 1)%nat → pst (tokens (SUn u a) ++ t :: ts) n s0 s →
  n + syn_size a <= FINSH_NODE_MAX → stops 1 (kind t) = true →
  ∃ f0 s2 s3, pst (t :: ts) (n + syn_size a) s0 s3 ∧ ∀ f, (f0 ≤ f)%nat →
    level 1 (S f) s = proc_unary_expr env (proc_assign_expr env f) (proc_cast_expr env f) f s2 ∧
    ∃ s2', next_token s2 = Ok (un_token u, s2') ∧ proc_cast_expr env f s2' = Ok (syn_tree a, s3).
Proof.
  intros HR Ha Hl Hs Hn Hstop. simpl in Hs.
  destruct (first_cast _ _ _ _ _ Hs ltac:(by destruct u)) as (s1 & Hs1 & E1).
  destruct (p_next _ _ _ _ _ Hs1) as (s2 & E2 & Ha2). apply pafter_pst in Ha2.
  destruct (HR s2 t ts n s0 Ha Hl Ha2 ltac:(lia) Hstop) as (f0 & s3 & Hs3 & E3).
  exists f0, s1, s3. split; [done |]. intros f Hf. split; [apply E1 |].
  exists s2. split; [done | by apply (E3 f)].
Qed.

Lemma R1_minus a : R 1 a → R 1 (SUn UMinus a).
Proof.
  intros HR s t ts n s0 (Ha & Hl) _ Hs Hn Hstop. simpl in Hn.
  destruct (unary_operand UMinus a s t ts n s0 HR Ha Hl Hs ltac:(lia) Hstop) as (f0 & s2 & s3 & Hs3 & E).
  destruct (new_leaf_ok (value_leaf FINSH_NODE_VALUE_LONG 0) _ _ s0 s3 Hs3 ltac:(lia)) as [E4 Hs4].
  destruct (make_node FINSH_NODE_SYS_SUB (Node (value_leaf FINSH_NODE_VALUE_LONG 0) Nil Nil) (syn_tree a)
    _ _ _ _ _ s0 _ eq_refl Hs4 ltac:(lia)) as [E5 Hs5].
  eexists (S f0), _. split.
  - replace (n + syn_size (SUn UMinus a)) with (n + syn_size a + 1 + 1) by (simpl; lia). exact Hs5.
  - intros f Hf. destruct f as [| f]; [lia |].
    destruct (E f ltac:(lia)) as (-> & s2' & E2 & E3).
    unfold proc_unary_expr. rewrite E2. cbn [mbind res_bind un_token]. rewrite E3.
    cbn [mbind res_bind]. unfold finsh_node_new_long. change (u32 0) with 0. rewrite E4. by rewrite E5.
Qed.

Lemma R1_unary u a : u ≠ UMinus → R 1 a → R 1 (SUn u a).
Proof.
  intros Hu HR s t ts n s0 (Ha & Hl) _ Hs Hn Hstop.
  assert (Hsz : n + syn_size (SUn u a) = n + syn_size a + 1) by (destruct u; simpl; (done || lia)).
  destruct (unary_operand u a s t ts n s0 HR Ha Hl Hs ltac:(lia) Hstop) as (f0 & s2 & s3 & Hs3 & E).
  destruct (syn_tree_node a) as (na & ca & Eta).
  destruct (make_node (un_node u) (syn_tree a) Nil na ca Nil _ _ s0 s3 Eta Hs3 ltac:(lia)) as [E4 Hs4].
  eexists (S f0), _. split.
  - rewrite Hsz. exact Hs4.
  - intros f Hf. destruct f as [| f]; [lia |].
    destruct (E f ltac:(lia)) as (-> & s2' & E2 & E3).
    unfold proc_unary_expr, unary_node. rewrite E2.
    destruct u; try done; cbn [mbind res_bind un_token un_node] in *; rewrite E3;
      cbn [mbind res_bind]; by rewrite E4.
Qed.

(** ** Assignment *)
Lemma R8_or a : (level_of a ≤ 7)%nat → R 7 a → R8 a.
Proof.
  intros Hl HR s t ts n s0 Hw Hs Hn Hstop Has.
  destruct (HR s t ts n s0 Hw Hl Hs Hn Hstop) as (f0 & s1 & Hs1 & E1).
  destruct (p_next _ _ _ _ _ Hs1) as (s2 & E2 & Ha2).
  exists (S f0), (finsh_token_replay s2). split; [by apply pafter_replay |].
  intros f Hf. destruct f as [| f]; [lia |]. simpl. unfold assign_body.
  specialize (E1 f ltac:(lia)). rewrite level_7 in E1. rewrite E1. cbn [mbind res_bind].
  rewrite E2. cbn [mbind res_bind]. by rewrite decide_False.
Qed.

Lemma R8_assign a b : R 7 a → R8 b → R8 (SAssign a b).
Proof.
  intros HRa HRb s t ts n s0 (Ha & Hb & Hl) Hs Hn Hstop Has. simpl in Hs, Hn.
  rewrite <- app_assoc in Hs. pose proof (proj1 syn_size_pos b).
  destruct (HRa s _ _ n s0 Ha Hl Hs ltac:(lia) eq_refl) as (f0 & s1 & Hs1 & E1).
  destruct (p_next _ _ _ _ _ Hs1) as (s2 & E2 & Ha2). apply pafter_pst in Ha2.
  destruct (HRb s2 t ts _ s0 Hb Ha2 ltac:(lia) Hstop Has) as (f1 & s3 & Hs3 & E3).
  destruct (syn_tree_node a) as (na & ca & Eta).
  destruct (make_node FINSH_NODE_SYS_ASSIGN (syn_tree a) (syn_tree b) na ca Nil _ _ s0 s3 Eta Hs3 ltac:(lia))
    as [E4 Hs4].
  eexists (S (Nat.max f0 f1)), _. split.
  - replace (n + syn_size (SAssign a b)) with (n + syn_size a + syn_size b + 1) by (simpl; lia). exact Hs4.
  - intros f Hf. destruct f as [| f]; [lia |]. simpl. unfold assign_body.
    specialize (E1 f ltac:(lia)). rewrite level_7 in E1. rewrite E1. cbn [mbind res_bind].
    rewrite E2. cbn [mbind res_bind kind]. rewrite decide_True by done.
    rewrite (E3 f) by lia. cbn [mbind res_bind]. by rewrite E4.
Qed.

(** ** Every expression *)
Definition parsed (a : syn) : Prop :=
  (level_of a = 0%nat → P a) ∧ (∀ k, (1 ≤ k ≤ 7)%nat → (level_of a ≤ k)%nat → R k a) ∧
  (∀ k, (2 ≤ k ≤ 7)%nat → (level_of a ≤ k)%nat → L k a) ∧ R8 a.

(** From the level where the expression is made to all above. *)
Lemma parsed_R a j :
  (1 ≤ j ≤ 7)%nat → (level_of a ≤ j)%nat → R j a →
  ∀ k, (j < k)%nat → L k a ∧ R k a.
Proof.
  intros Hj Hl HR k Hk. split.
  - apply L_from_R; [lia | lia |]. by apply (R_up a j); [lia | lia | | lia].
  - by apply (R_up a j); [lia | lia | | lia].
Qed.

Lemma parsed_R1 a : (level_of a ≤ 1)%nat → (level_of a = 0%nat → P a) → R 1 a → parsed a.
Proof.
  intros Hl HP HR. assert (H := parsed_R a 1 ltac:(lia) Hl HR). split_and!; [done | | |].
  - intros k Hk _. destruct (decide (k = 1%nat)) as [-> |]; [done | by apply H; lia].
  - intros k Hk _. by apply H; lia.
  - apply R8_or; [lia | by apply H; lia].
Qed.
Lemma parsed_P a : level_of a = 0%nat → P a → parsed a.
Proof. intros Hl HP. apply parsed_R1; [lia | done | by apply R1_postfix]. Qed.

Lemma parsed_bin x a b : parsed a → parsed b → parsed (SBin x a b).
Proof.
  intros (_ & _ & HLa & _) (_ & HRb & _ & _). pose proof (bin_level_range x) as Hx.
  assert (Hw : ∀ k, L k (SBin x a b) ↔ (wf (SBin x a b) → L k (SBin x a b))).
  { intros k. split; [done |]. intros H s t ts n s0 Hwf. by apply H. }
  assert (HL : L (bin_level x) (SBin x a b)).
  { apply Hw. intros (_ & _ & Hla & Hlb). apply L_bin; [apply HLa | apply HRb]; lia. }
  assert (HR : R (bin_level x) (SBin x a b)) by (apply R_from_L; [lia | done]).
  assert (H := parsed_R (SBin x a b) (bin_level x) ltac:(lia) ltac:(done) HR).
  split_and!.
  - simpl. lia.
  - intros k Hk Hl. simpl in Hl. destruct (decide (k = bin_level x)) as [-> |]; [done |]. apply H. lia.
  - intros k Hk Hl. simpl in Hl. destruct (decide (k = bin_level x)) as [-> |]; [done |]. apply H. lia.
  - apply R8_or; [simpl; lia |]. destruct (decide (7%nat = bin_level x)) as [-> |]; [done |]. apply H. lia.
Qed.

Lemma wf_intro_R k a : (wf a → R k a) → R k a.
Proof. intros H s t ts n s0 Hw. by apply H. Qed.
Lemma wf_intro_P a : (wf a → P a) → P a.
Proof. intros H s ts n s0 Hw. by apply H. Qed.
Lemma wf_intro_R8 a : (wf a → R8 a) → R8 a.
Proof. intros H s t ts n s0 Hw. by apply H. Qed.

Lemma parsed_all :
  (∀ a, parsed a) ∧ (∀ l, Q l ∧ ∀ a l', l = SCons a l' → R8 a ∧ Q l').
Proof.
  destruct P_literals as (HI & HL & HC & HN). apply syn_syns_ind.
  - intros ds. by apply parsed_P.
  - intros ds. by apply parsed_P.
  - intros c. by apply parsed_P.
  - by apply parsed_P.
  - intros l. apply parsed_P; [done | apply P_name].
  - intros x a Ha b Hb. by apply parsed_bin.
  - intros u a (_ & HR & _ & _). apply parsed_R1; [done | done |]. apply wf_intro_R. intros [_ Hl].
    destruct u; first [apply R1_minus | apply R1_unary; [done |]]; apply HR; lia.
  - intros x a (HP & _). apply parsed_P; [done |]. apply wf_intro_P. intros [_ Hl]. by apply P_post, HP.
  - intros g (HP & _) l [_ HQ]. apply parsed_P; [done |]. apply wf_intro_P. intros (_ & Hl & _).
    by apply P_call; [apply HP |].
  - intros a (_ & HR & _ & _) b (_ & _ & _ & HR8). split_and!; [done | simpl; lia | simpl; lia |].
    apply wf_intro_R8. intros (_ & _ & Hl). apply R8_assign; [apply HR; lia | done].
  - split; [apply Q_nil | done].
  - intros a (_ & _ & _ & HR8) l [HQ _]. split; [by apply Q_cons |]. by intros ? ? [= <- <-].
Qed.

(** ** Lines: statements, each with its semicolon *)
Definition line_tokens (es : list syn) : list tok :=
  concat ((λ a, tokens a ++ [TOp finsh_token_type_semicolon]) <$> es).

Lemma tokens_ok :
  (∀ a, wf a → Forall (λ t, tok_ok t = true) (tokens a)) ∧
  (∀ l, wf_args l → Forall (λ t, tok_ok t = true) (args_tokens l)).
Proof.
  apply syn_syns_ind; simpl.
  - intros ds H. by repeat constructor.
  - intros ds H. by repeat constructor.
  - intros c H. by repeat constructor.
  - intros _. by repeat constructor.
  - intros l [H _]. by repeat constructor.
  - intros x a Ha b Hb (? & ? & _). apply Forall_app. split; [by apply Ha |].
    constructor; [by destruct x | by apply Hb].
  - intros u a Ha [? _]. constructor; [by destruct u | by apply Ha].
  - intros x a Ha [? _]. apply Forall_app. split; [by apply Ha |]. constructor; [by destruct x | done].
  - intros g Hg l Hl (? & _ & ?). apply Forall_app. split; [by apply Hg |].
    constructor; [done |]. apply Forall_app. split; [by apply Hl | by repeat constructor].
  - intros a Ha b Hb (? & ? & _). apply Forall_app. split; [by apply Ha |].
    constructor; [done | by apply Hb].
  - done.
  - intros a Ha l Hl [? ?]. apply Forall_app. split; [by apply Ha |].
    destruct l; [done |]. constructor; [done | by apply Hl].
Qed.

Lemma line_toks_ok es : Forall wf es → toks_ok (line_tokens es).
Proof.
  intros H. unfold line_tokens. split.
  - induction H as [| a es Ha _ IH]; [done |]. simpl. rewrite !Forall_app.
    split_and!; [by apply tokens_ok | by repeat constructor | done].
  - clear H. destruct es as [| a es _] using rev_ind; [done |].
    intros t Ht. rewrite fmap_app, concat_app in Ht. simpl in Ht.
    rewrite app_nil_r, app_assoc, last_snoc in Ht. by injection Ht as <-.
Qed.

Lemma link_statement_end root t :
  link_statement root (pred (length root)) [t] = (root ++ [t], length root).
Proof.
  destruct root as [| a root]; [done |]. unfold link_statement. simpl length. cbn [pred].
  by rewrite (take_ge (a :: root)).
Qed.

Lemma start_not_type t :
  is_start t = true →
  t ≠ finsh_token_type_eof ∧ t ≠ finsh_token_type_bad ∧ t ≠ finsh_token_type_semicolon ∧
  is_base_type t || bool_decide (t = finsh_token_type_unsigned) = false.
Proof. by destruct t. Qed.

(** One statement. *)
Lemma statement_ok a ts n s0 s :
  wf a → pst (tokens a ++ TOp finsh_token_type_semicolon :: ts) n s0 s →
  n + syn_size a <= FINSH_NODE_MAX →
  ∃ f0 s', pst ts (n + syn_size a) s0 s' ∧ fresh ts (lex s') ∧
    ∀ f, (f0 ≤ f)%nat → proc_expr_statement env f s = Ok ([syn_tree a], s').
Proof.
  intros Hw Hs Hn. destruct (tokens_first a Hw) as (t & r & Et & Hst & _).
  destruct (start_not_type _ Hst) as (_ & _ & Hsemi & _).
  rewrite Et in Hs. simpl in Hs. destruct (p_next _ _ _ _ _ Hs) as (s1 & E1 & Ha1).
  apply pafter_replay in Ha1. rewrite app_comm_cons, <- Et in Ha1.
  destruct (proj1 parsed_all a) as (_ & _ & _ & HR8).
  destruct (HR8 _ _ ts n s0 Hw Ha1 Hn eq_refl ltac:(done)) as (f0 & s2 & Hs2 & E2).
  destruct (p_next _ _ _ _ _ Hs2) as (s3 & E3 & Ha3).
  exists f0, s3. split; [by apply pafter_pst in Ha3 |]. split; [exact (after_fresh _ _ _ (proj1 Ha3)) |].
  intros f Hf. unfold proc_expr_statement, proc_expr. rewrite E1. cbn [mbind res_bind].
  rewrite decide_False by done. rewrite (E2 f Hf). cbn [mbind res_bind].
  unfold match_token. rewrite E3. cbn [mbind res_bind kind]. unfold check_token.
  rewrite decide_True by done. destruct (syn_tree_node a) as (na & ca & ->). done.
Qed.

Lemma parser_loop_ok es : ∀ root s n s0,
  Forall wf es → pst (line_tokens es) n s0 s → (es = [] → fresh [] (lex s)) →
  n + line_size es <= FINSH_NODE_MAX →
  ∃ f0 s', same (n + line_size es) s' s0 ∧ ∀ f, (f0 ≤ f)%nat →
    ('(token, s) ← next_token s; parser_loop env f token root (pred (length root)) s) =
    Ok (root ++ (syn_tree <$> es), s').
Proof.
  induction es as [| a es IH]; intros root s n s0 Hw Hs Hfr Hn.
  - destruct (p_end n s0 s Hs (Hfr eq_refl)) as (s' & E & Hsame).
    exists 0%nat, s'. simpl. rewrite Z.add_0_r, app_nil_r. split; [done |]. intros f _.
    rewrite E. cbn [mbind res_bind]. by destruct f.
  - apply Forall_cons_1 in Hw as [Ha Hw]. simpl in Hn.
    pose proof (line_size_nonneg es).
    unfold line_tokens in Hs. simpl in Hs. rewrite <- app_assoc in Hs.
    destruct (tokens_first a Ha) as (t & r & Et & Hst & _).
    rewrite Et in Hs. simpl in Hs. destruct (p_next _ _ _ _ _ Hs) as (s1 & E1 & Ha1).
    apply pafter_replay in Ha1. rewrite app_comm_cons, <- Et in Ha1.
    destruct (statement_ok a _ n s0 _ Ha Ha1 ltac:(lia)) as (f0 & s2 & Hs2 & Hf2 & E2).
    destruct (IH (root ++ [syn_tree a]) s2 (n + syn_size a) s0 Hw Hs2 ltac:(by intros ->) ltac:(lia))
      as (f1 & s3 & Hs3 & E3).
    exists (S (Nat.max f0 f1)), s3. simpl. rewrite Z.add_assoc. split; [done |].
    intros f Hf. destruct f as [| f]; [lia |]. rewrite E1. cbn [mbind res_bind].
    destruct (start_not_type _ Hst) as (? & ? & _ & Htype). simpl. rewrite decide_False by (by intros [? | ?]).
    rewrite Htype, (E2 f) by lia. cbn [mbind res_bind negb andb].
    rewrite (bool_decide_eq_false_2 ([syn_tree a] = [])) by done. rewrite !andb_false_r.
    cbn [mbind res_bind]. rewrite link_statement_end.
    specialize (E3 f ltac:(lia)). rewrite length_app in E3. simpl in E3.
    rewrite Nat.add_1_r in E3. simpl in E3.
    destruct (root ++ [syn_tree a]) eqn:Er; [by destruct root |]. rewrite <- Er in *.
    rewrite E3. by rewrite <- app_assoc.
Qed.

Lemma parser_run_ok es s :
  Forall wf es → variables s = vars → nodes s = 0 → global_errno (lex s) = FINSH_ERROR_OK →
  line_size es <= FINSH_NODE_MAX →
  ∃ f0 s', same (line_size es) s' s ∧ ∀ f, (f0 ≤ f)%nat →
    finsh_parser_run env f (render (line_tokens es)) s = Ok (link (syn_tree <$> es), s').
Proof.
  intros Hw Hv Hn He Hsize.
  set (s1 := with_lex (finsh_token_init (lex s) (render (line_tokens es))) s).
  assert (Hf : fresh (line_tokens es) (lex s1)) by (by apply fresh_init, line_toks_ok).
  assert (Hs1 : pst (line_tokens es) 0 s s1) by (split; [by apply ready_fresh | by split]).
  destruct (parser_loop_ok es [] s1 0 s Hw Hs1 ltac:(by intros ->) ltac:(lia)) as (f0 & s' & Hs' & E).
  exists f0, s'. split; [done |]. intros f Hle. specialize (E f Hle). unfold finsh_parser_run.
  fold s1. destruct (next_token s1) as [[t s2] |]; [| done]. cbn [mbind res_bind length pred] in E |- *.
  by rewrite E.
Qed.
End parsing.

(** C14. The parser gives lines of expressions their trees: the text of
    statements, each with its semicolon, made of decimal numbers, characters,
    [NULL], known names, calls, [++] and [--] before and behind, the unary [-],
    [~], [*] and [&], the ten binary operators and assignments, is read without
    error as the chain of their trees, with the precedence and the associativity
    of the grammar in the comments of [finsh_parser.c], when the trees fit the
    table of nodes.  The variables, the heap and the memory are as before.  The
    language is wider than that grammar in one point: the left side of an
    assignment may be any expression of the level of [|], where the grammar has an
    [expr_unary] ([assignment_to_a_sum] below).  Casts, the unary [+], strings and
    declarations are not in it, nor are parentheses, which the parser refuses. *)
Theorem finsh_parser_correct env vars resolve es s :
  Forall (wf env vars resolve) es → variables s = vars → nodes s = 0 →
  global_errno (lex s) = FINSH_ERROR_OK → line_size es <= FINSH_NODE_MAX →
  ∃ f0 s', same vars (line_size es) s' s ∧ ∀ f, (f0 ≤ f)%nat →
    finsh_parser_run env f (render (line_tokens es)) s = Ok (link (syn_tree resolve <$> es), s').
Proof. apply parser_run_ok. Qed.

(** [x = 1 + - 2 * x ++ << 3 ; x = x = 4L ;] for a variable [x]. *)
Definition demo_syntax : list syn :=
  [ SAssign (SName [120])
      (SBin Shl (SBin Add (SInt [1]) (SBin Mul (SUn UMinus (SInt [2])) (SPost Inc (SName [120])))) (SInt [3]));
    SAssign (SName [120]) (SLong [4]) ].
Definition demo_symbols : symbols :=
  mk_symbols [mk_sysvar 0x80040000 [100] [68] finsh_type_int 0x80010200] []
    [mk_syscall 0x80020000 [97; 100; 100] [43] 0x80030000] [mk_syscall 0x80020010 [97; 116] [64] 0x80030010]
    0x80010100 0x80010000.
Definition demo_cells : gmap Z Z := list_to_map ((λ i, (0x80010000 + i, 0)) <$> seqZ 0 768).
Definition demo_shell : parser :=
  with_vars (<[0%nat := ([120], finsh_type_int)]> finsh_var_init) (finsh_init demo_cells).
Definition demo_node (l : list Z) : finsh_node := ident_node (Var 0x80010000 finsh_type_int).

Lemma demo_resolves : resolves demo_symbols (variables demo_shell) demo_node [120].
Proof. intros s E. unfold lookup_symbol. by rewrite E. Qed.

Lemma finsh_parser_correct_witness :
  Forall (wf demo_symbols (variables demo_shell) demo_node) demo_syntax ∧
  line_size demo_syntax = 15 ∧
  ∃ f0 s', same (variables demo_shell) (line_size demo_syntax) s' demo_shell ∧ ∀ f, (f0 ≤ f)%nat →
    finsh_parser_run demo_symbols f (render (line_tokens demo_syntax)) demo_shell =
    Ok (link (syn_tree demo_node <$> demo_syntax), s').
Proof.
  pose proof demo_resolves as Hx.
  assert (H : Forall (wf demo_symbols (variables demo_shell) demo_node) demo_syntax).
  { repeat constructor; try exact Hx; vm_compute; lia. }
  split; [exact H |]. split; [reflexivity |].
  apply (finsh_parser_correct demo_symbols (variables demo_shell) demo_node demo_syntax demo_shell H);
    [reflexivity | reflexivity | reflexivity | vm_compute; discriminate].
Defined.

(** [1 + 2 = 3 ;] is not in the documented grammar, and is parsed as an
    assignment to the sum. *)
Definition sum_assigned : syn := SAssign (SBin Add (SInt [1]) (SInt [2])) (SInt [3]).

Lemma assignment_to_a_sum :
  documented sum_assigned = false ∧
  match finsh_parser_run demo_symbols 60 (render (line_tokens [sum_assigned])) demo_shell with
  | Ok (t, s) => Some (t, global_errno (lex s))
  | Stop _ => None
  end = Some (link (syn_tree demo_node <$> [sum_assigned]), FINSH_ERROR_OK).
Proof. split; vm_compute; reflexivity. Qed.
