(* ===== verification/FinshLine.v ===== *)
(** * From the text of a line to the answer of the shell

    [elab] reads the syntax of [FinshSyntax] as an expression of [FinshProps]; the
    main theorem composes the tokenizer ([FinshLex]), the parser ([FinshSyntax]),
    the compiler and the machine ([FinshProps]) through [finsh_run_line].  The
    lines for which the parser does something else than its grammar says are at
    the end. *)
From Stdlib Require Import Ascii String.
From stdpp Require Import strings.
From S2P Require Import Prelude KMemory KString FinshVm FinshExec FinshCompiler FinshProps FinshToken FinshHeap FinshParser FinshLex FinshSyntax.
Local Open Scope Z_scope.

(** ** What a name stands for *)
Inductive sym := SymIdent (i : ident) | SymCall (p f : Z).
Definition sym_node (x : sym) : finsh_node :=
  match x with SymIdent i => ident_node i | SymCall p f => syscall_node p f end.

Section elab.
Context (rs : list Z → sym).

Definition name_ident (a : syn) : option ident :=
  match a with
  | SName l => match rs l with SymIdent i => Some i | SymCall _ _ => None end
  | _ => None
  end.
Definition name_call (a : syn) : option (Z * Z) :=
  match a with
  | SName l => match rs l with SymCall p f => Some (p, f) | SymIdent _ => None end
  | _ => None
  end.

(** The expression a piece of syntax means. *)
Fixpoint elab (a : syn) : option expr :=
  match a with
  | SInt ds => Some (EConst CInt (number ds))
  | SLong ds => Some (EConst CLong (number ds))
  | SChar c => Some (EChar c)
  | SNull => Some (EConst CNull 0)
  | SName _ => EId <$> name_ident a
  | SBin x a b => e ← elab a; e' ← elab b; Some (EBin x e e')
  | SUn UMinus a => EBin Sub (EConst CLong 0) <$> elab a
  | SUn UNot a => ENot <$> elab a
  | SUn UDeref a => EDeref <$> elab a
  | SUn UAddr a => EAddr <$> name_ident a
  | SUn UPreInc a => EPre Inc <$> name_ident a
  | SUn UPreDec a => EPre Dec <$> name_ident a
  | SPost x a => EPost x <$> name_ident a
  | SCall f l => pf ← name_call f; l ← elab_args l; Some (ECall pf.1 pf.2 l)
  | SAssign (SUn UDeref p) b => e ← elab p; e' ← elab b; Some (EStore e e')
  | SAssign a b => i ← name_ident a; e ← elab b; Some (EAssign i e)
  end
with elab_args (l : syns) : option args :=
  match l with
  | SNil => Some ANil
  | SCons a l => e ← elab a; l ← elab_args l; Some (ACons e l)
  end.

Definition resolve (l : list Z) : finsh_node := sym_node (rs l).

Lemma name_ident_tree a i :
  name_ident a = Some i → syn_tree resolve a = Node (ident_node i) Nil Nil.
Proof.
  destruct a; try done. simpl. unfold resolve. destruct (rs l); [| done]. by intros [= ->].
Qed.
Lemma name_call_tree a pf :
  name_call a = Some pf → syn_tree resolve a = Node (syscall_node pf.1 pf.2) Nil Nil.
Proof.
  destruct a; try done. simpl. unfold resolve. destruct (rs l); [done |]. by intros [= <-].
Qed.

Ltac elab_inv :=
  repeat match goal with
  | H : _ ≫= _ = Some _ |- _ => apply bind_Some in H as (? & ? & H)
  | H : _ <$> _ = Some _ |- _ => apply fmap_Some in H as (? & ? & ->)
  | H : Some _ = Some _ |- _ => injection H as <-
  | H : name_ident _ = Some _ |- _ => apply name_ident_tree in H
  | H : name_call _ = Some _ |- _ => apply name_call_tree in H
  end.

Lemma assign_tree a b e sib :
  (∀ e, elab a = Some e → ∀ sib, tree_of e sib = set_sibling (syn_tree resolve a) sib) →
  (∀ e, elab b = Some e → ∀ sib, tree_of e sib = set_sibling (syn_tree resolve b) sib) →
  elab (SAssign a b) = Some e → tree_of e sib = set_sibling (syn_tree resolve (SAssign a b)) sib.
Proof.
  intros IHa IHb H. destruct (syn_tree_node resolve b) as (nb & cb & Eb).
  assert (Hid : ∀ i e', name_ident a = Some i → elab b = Some e' → tree_of (EAssign i e') sib =
    set_sibling (syn_tree resolve (SAssign a b)) sib).
  { intros i e' Hi He. apply name_ident_tree in Hi. cbn [tree_of syn_tree].
    rewrite Hi, (IHb e' He). by rewrite Eb. }
  assert (Hany : (i ← name_ident a; e ← elab b; Some (EAssign i e)) = Some e →
    tree_of e sib = set_sibling (syn_tree resolve (SAssign a b)) sib).
  { intros H'. apply bind_Some in H' as (i & Hi & H'). apply bind_Some in H' as (e' & He & H').
    injection H' as <-. by apply Hid. }
  destruct a as [| | | | l | | u p | | |]; try exact (Hany H). destruct u; try exact (Hany H).
  clear Hid Hany. cbn [elab] in H. apply bind_Some in H as (ep & Hp & H).
  apply bind_Some in H as (e' & He & H). injection H as <-.
  specialize (IHa (EDeref ep)). cbn [elab] in IHa. rewrite Hp in IHa.
  specialize (IHa eq_refl (tree_of e' Nil)). cbn [tree_of] in *. rewrite (IHb e' He) in *. rewrite IHa.
  cbn [syn_tree un_node set_sibling]. by rewrite Eb.
Qed.

(** The tree the parser builds is the one the compiler's theorem is about. *)
Lemma elab_tree :
  (∀ a e, elab a = Some e → ∀ sib, tree_of e sib = set_sibling (syn_tree resolve a) sib) ∧
  (∀ l l', elab_args l = Some l' → args_tree l' = syns_tree resolve l).
Proof.
  apply syn_syns_ind.
  - by intros ds e [= <-].
  - by intros ds e [= <-].
  - by intros c e [= <-].
  - by intros e [= <-].
  - intros l e H sib. cbn [elab] in H. elab_inv. by rewrite H.
  - intros x a IHa b IHb e H sib. cbn [elab] in H. elab_inv.
    cbn [tree_of syn_tree set_sibling]. rewrite (IHb _ ltac:(eassumption)). rewrite (IHa _ ltac:(eassumption)).
    by destruct (syn_tree_node resolve b) as (? & ? & ->).
  - intros u a IHa e H sib. destruct u; cbn [elab] in H; elab_inv; cbn [tree_of syn_tree set_sibling];
      try erewrite (IHa _ ltac:(eassumption)); try rewrite H; try done.
    by destruct (syn_tree_node resolve a) as (? & ? & ->).
  - intros x a IHa e H sib. cbn [elab] in H. elab_inv. cbn [tree_of syn_tree]. by rewrite H.
  - intros g IHg l IHl e H sib. cbn [elab] in H. elab_inv. cbn [tree_of syn_tree].
    rewrite (IHl _ ltac:(eassumption)). by rewrite H0.
  - intros a IHa b IHb e H sib. by apply assign_tree.
  - by intros l' [= <-].
  - intros a IHa l IHl l' H. cbn [elab_args] in H. elab_inv. cbn [args_tree syns_tree].
    rewrite (IHl _ ltac:(eassumption)). by rewrite (IHa _ ltac:(eassumption)).
Qed.

Lemma elab_line es xs :
  mapM elab es = Some xs → link (syn_tree resolve <$> es) = stmts_tree xs.
Proof.
  revert xs. induction es as [| a es IH]; intros xs H; [by injection H as <- |].
  simpl in H. apply bind_Some in H as (e & He & H). apply bind_Some in H as (l & Hl & H).
  injection H as <-. cbn [fmap list_fmap link foldr stmts_tree].
  rewrite (proj1 elab_tree a e He). by rewrite <- (IH l Hl).
Qed.
End elab.

(** ** The theorem *)

(** What the compiler asks of a line. *)
Record compilable (xs : list expr) : Prop := {
  line_nonempty : xs ≠ [];
  line_typed : forallb wt xs = true;
  line_depth : Forall (λ e, depth e <= FINSH_STACK_MAX) xs;
  line_code : Z.of_nat (length (gen_stmts xs)) <= FINSH_TEXT_MAX;
}.
(** The shell between two lines. *)
Record idle (s : parser) : Prop := {
  idle_nodes : nodes s = 0;
  idle_errno : global_errno (lex s) = FINSH_ERROR_OK;
}.
(** A line of syntax whose names are symbols, and which fits the node table. *)
Record well_formed (env : symbols) (rs : list Z → sym) (es : list syn) (s : parser) : Prop := {
  line_wf : Forall (wf env (variables s) (resolve rs)) es;
  line_fits : line_size es <= FINSH_NODE_MAX;
}.

Lemma vm_ok_with_mem m v : vm_ok v → vm_ok (with_mem m v).
Proof. by intros []. Qed.

(** C8. The shell computes the lines it is given: for the text of a line of
    expressions, tokenizer, parser, compiler and machine together show the value
    of the last statement and leave the memory of the reference semantics; where
    the reference stops, so does the machine.  Afterwards the shell is ready for
    the next line, with its variables and its heap as they were. *)
Theorem finsh_run_line_correct env rs call es xs s v :
  well_formed env rs es s → mapM (elab rs) es = Some xs → compilable xs → idle s → vm_ok v →
  ∃ f0, ∀ f, (f0 ≤ f)%nat →
    let run := finsh_run_line env call f (render (line_tokens es)) s v in
    match eval_stmts call xs (pmem s) with
    | Stop w => run = Stop w
    | Ok (r, m') => ∃ c s' v', run = Ok (Value c, s', v') ∧
        trunc (line_prec xs) c = trunc (line_prec xs) r ∧ pmem s' = m' ∧ idle s' ∧
        variables s' = variables s ∧ pheap s' = pheap s
    end.
Proof.
  intros [Hw Hn] Hx [] [] Hv.
  destruct (parser_run_ok env (variables s) (resolve rs) es s) as (f0 & s1 & [_ Hvars Hheap Hmem Herr] & E1);
    try done.
  destruct (line_runs call xs (with_mem (pmem s) v)) as (v1 & E2 & E3);
    try done; try by apply vm_ok_with_mem.
  exists f0. intros f Hf. unfold finsh_run_line. rewrite (E1 f Hf). cbn [mbind res_bind].
  rewrite Herr, Hmem, (elab_line rs es xs Hx), E2. cbn [Z.eqb negb mbind res_bind].
  change (vm_mem (with_mem (pmem s) v)) with (pmem s) in E3.
  destruct (eval_stmts call xs (pmem s)) as [[r m'] | w]; [| by rewrite E3].
  destruct E3 as (v2 & c & -> & Hm & Hc & Hr). cbn [mbind res_bind]. rewrite Hc. cbn [mbind res_bind].
  eexists c, _, _. split; [reflexivity |]. by split_and!.
Qed.

(** [x = 6 ; 1 + add ( x ++ , x ) ;], the line of [FinshProps.demo_line]. *)
Definition demo_text : list syn :=
  [ SAssign (SName (lit "x")) (SInt [6]);
    SBin Add (SInt [1])
      (SCall (SName (lit "add")) (SCons (SPost Inc (SName (lit "x"))) (SCons (SName (lit "x")) SNil))) ].
Definition demo_rs (l : list Z) : sym :=
  if bool_decide (l = lit "x") then SymIdent demo_x else SymCall 0x80020000 0x80030000.

Lemma demo_well_formed : well_formed demo_symbols demo_rs demo_text demo_shell.
Proof.
  assert (Hx : resolves demo_symbols (variables demo_shell) (resolve demo_rs) (lit "x")).
  { intros s E. unfold lookup_symbol. by rewrite E. }
  assert (Hf : resolves demo_symbols (variables demo_shell) (resolve demo_rs) (lit "add")).
  { intros s E. unfold lookup_symbol. by rewrite E. }
  split; [| vm_compute; discriminate].
  repeat constructor; try exact Hx; try exact Hf; vm_compute; lia.
Qed.

Lemma finsh_run_line_correct_witness :
  mapM (elab demo_rs) demo_text = Some demo_line ∧
  string_of_list_ascii ((λ z, ascii_of_N (Z.to_N z)) <$> render (line_tokens demo_text)) =
    "x = 6 ; 1 + add ( x ++ , x ) ;"%string ∧
  ∃ f0, ∀ f, (f0 ≤ f)%nat →
    let run := finsh_run_line demo_symbols demo_add f (render (line_tokens demo_text)) demo_shell (demo_vm 0) in
    match eval_stmts demo_add demo_line (pmem demo_shell) with
    | Stop w => run = Stop w
    | Ok (r, m') => ∃ c s' v', run = Ok (Value c, s', v') ∧
        trunc (line_prec demo_line) c = trunc (line_prec demo_line) r ∧ pmem s' = m' ∧ idle s' ∧
        variables s' = variables demo_shell ∧ pheap s' = pheap demo_shell
    end.
Proof.
  split; [reflexivity |]. split; [reflexivity |].
  apply (finsh_run_line_correct demo_symbols demo_rs demo_add demo_text demo_line demo_shell (demo_vm 0)).
  - exact demo_well_formed.
  - reflexivity.
  - split; [discriminate | reflexivity | repeat constructor; vm_compute; discriminate |
      vm_compute; discriminate].
  - split; reflexivity.
  - apply demo_vm_ok. lia.
Defined.

(** ** What the parser does with other lines

    The answers to lines entered one after the other, from a shell that has just
    been started. *)
Fixpoint session (env : symbols) (fuel : nat) (lines : list string) (s : parser) (v : vm)
    : res (list answer) :=
  match lines with
  | [] => Ok []
  | l :: lines =>
      '(a, s, v) ← finsh_run_line env demo_add fuel (lit l) s v;
      r ← session env fuel lines s v; Ok (a :: r)
  end.
Definition answers (lines : list string) : res (list answer) :=
  session demo_symbols 40 lines (finsh_init demo_cells) (demo_vm 0).

Local Open Scope string_scope.

Example session_arithmetic :
  answers ["1+2*3;"; "0x1F+017;"; "1<<2+1;"; "int x;"; "x=4;"; "x++ + x;"; "2*add(x,2,3);"] =
  Ok [Value 7; Value 46; Value 8; Value 0; Value 4; Value 9; Value 20].
Proof. vm_compute. reflexivity. Qed.

(** The grammar in the source allows an expression in parentheses, but a cast is
    tried for every opening parenthesis and nothing gives the token back. *)
Theorem parentheses_are_rejected :
  answers ["(1);"; "(1+2)*3;"; "2*(1);"; "(int)5;"] =
  Ok [Error FINSH_ERROR_INVALID_TOKEN; Error FINSH_ERROR_NULL_NODE; Error FINSH_ERROR_INVALID_TOKEN; Value 5].
Proof. vm_compute. reflexivity. Qed.

(** What the compiler rejects is neither run nor reported. *)
Theorem compile_error_is_silent :
  answers ["*add(1)=2;"; "2;"] = Ok [Unreported FINSH_ERROR_UNKNOWN_TYPE; Value 2].
Proof. vm_compute. reflexivity. Qed.

(** The grammar in the source has an [expr_unary] on the left of an assignment; a
    sum is accepted there, and nothing is stored. *)
Theorem sum_on_the_left :
  documented sum_assigned = false ∧ answers ["1+2=3;"; "1+2;"] = Ok [Value 3; Value 3].
Proof. split; vm_compute; reflexivity. Qed.

(** A declaration without a value has no tree; when it comes first, the statements
    behind it on the line are not even parsed, and no error is shown. *)
Theorem line_ends_at_declaration :
  answers ["int x;x=4;"; "x;"] = Ok [Value 0; Value 0] ∧
  answers ["int x;"; "x=4;"; "x;"] = Ok [Value 0; Value 4; Value 4].
Proof. split; vm_compute; reflexivity. Qed.

(** The statement behind a declaration of several variables is linked to the first
    assignment: the others are cut off. *)
Theorem second_initializer_is_lost :
  answers ["int a=1,b=2;b;"; "b;"] = Ok [Value 0; Value 0] ∧
  answers ["int a=1,b=2;"; "b;"] = Ok [Value 2; Value 2].
Proof. split; vm_compute; reflexivity. Qed.

(** The digits of a numeric character are read behind the last of them. *)
Theorem numeric_char_is_zero :
  answers ["'q';"; "'\113';"; "'\n';"] = Ok [Value 113; Value 0; Value 10].
Proof. vm_compute. reflexivity. Qed.

(** A name that begins the name of a registered symbol is taken for it. *)
Theorem prefix_of_a_symbol_is_found :
  finsh_syscall_lookup demo_symbols (lit "a") = Some (mk_syscall 0x80020010 (lit "at") (lit "@") 0x80030010) ∧
  finsh_syscall_lookup demo_symbols (lit "ad") = None.
Proof. split; reflexivity. Qed.
