(* ===== verification/Msh.v ===== *)
(** * The module shell: [components/finsh/msh.c], and [list_prefix] of [cmd.c]

    A command line is the char array it is typed into; a [char *] into it is an
    index, and reading or writing outside the array stops the model.  A command is
    an address of the symbol table, run by the parameter [run_cmd] on its
    arguments and the state of the shell around it, [console]. *)
From Stdlib Require Import Ascii String.
From stdpp Require Import strings.
From S2P Require Import Prelude KString FinshVm FinshToken FinshParser.
Local Open Scope Z_scope.

(** ** Char arrays *)
Definition char_of (a : list Z) (i : Z) : res Z :=
  if i <? 0 then Stop OutOfBounds else of_option OutOfBounds (a !! Z.to_nat i).
Definition put_char (i v : Z) (a : list Z) : res (list Z) :=
  _ ← char_of a i; Ok (<[Z.to_nat i := v]> a).
(** The string that starts at the [i]-th char. *)
Definition c_str (a : list Z) (i : Z) : res (list Z) :=
  if i <? 0 then Stop OutOfBounds else of_option OutOfBounds (until_zero (drop (Z.to_nat i) a)).
(** Several chars from [i] on ([memcpy] into the array). *)
Definition put_chars (i : Z) (l a : list Z) : res (list Z) :=
  _ ← require OutOfBounds ((0 <=? i) && (i + Z.of_nat (length l) <=? Z.of_nat (length a)));
  Ok (take (Z.to_nat i) a ++ l ++ drop (Z.to_nat i + length l) a).

(** ** The state around the shell

    [__msh_state], what has been printed, the parser and the machine of the
    C-expression shell (with the memory of the system). *)
Record console := mk_console {
  __msh_state : bool; printed : list Z; c_parser : parser; c_vm : vm }.
Definition msh_is_used (con : console) : bool := __msh_state con.
Definition set_msh (b : bool) (con : console) : console := mk_console b (printed con) (c_parser con) (c_vm con).

(** [rt_kprintf] of a text: the buffer takes 126 chars and a NUL, and the NUL
    is sent along when the text was cut ([KString.rt_kprintf]). *)
Definition kprintf (text : list Z) (con : console) : console :=
  let text := if Z.of_nat (length text) <? CONSOLEBUF_SIZE - 1 then text else take 126 text ++ [0] in
  mk_console (__msh_state con) (printed con ++ text) (c_parser con) (c_vm con).
(** [%-16s] *)
Definition pad16 (l : list Z) : list Z := l ++ replicate (16 - length l) 32.
Definition NL : Z := 10.
Definition TAB : Z := 9.
Definition BLANK : Z := 32.
Definition QUOTE : Z := 34.
Definition BACKSLASH : Z := 92.

Definition msh_exit (con : console) : Z * console := (0, set_msh false con).
Definition msh_enter (con : console) : Z * console := (0, set_msh true con).

Definition cmd_prefix : list Z := lit "__cmd_".
(** The name of a command without [__cmd_]; other symbols are no commands. *)
Definition cmd_name (c : finsh_syscall) : option (list Z) :=
  if is_prefix cmd_prefix (sc_name c) then Some (drop 6 (sc_name c)) else None.

Section msh.
Context (env : symbols).

(** ** Commands *)
Definition help_line (con : console) (c : finsh_syscall) : console :=
  match cmd_name c with
  | Some name => kprintf (pad16 name ++ lit " - " ++ sc_desc c ++ [NL]) con
  | None => con
  end.
Definition msh_help (con : console) : Z * console :=
  let con := kprintf (lit "RT-Thread shell commands:" ++ [NL]) con in
  let con := fold_left help_line (_syscall_table env) con in
  (0, kprintf [NL] con).

Definition is_blank (c : Z) : bool := (c =? BLANK) || (c =? TAB).

(** [argv[argc] = ptr; argc ++;] in an array of [RT_FINSH_ARG_MAX] pointers. *)
Definition RT_FINSH_ARG_MAX : nat := 10.
Definition add_arg (argv : list Z) (ptr : Z) : res (list Z) :=
  _ ← require OutOfBounds (bool_decide (length argv < RT_FINSH_ARG_MAX)%nat); Ok (argv ++ [ptr]).

(** The three inner loops of [msh_split]; [ptr] is [cmd + position] throughout,
    and the char is read before the position is compared. *)
Fixpoint strip_blanks (fuel : nat) (cmd len position : Z) (a : list Z) : res (Z * list Z) :=
  c ← char_of a (cmd + position);
  if is_blank c && (position <? len) then
    match fuel with
    | O => Stop OutOfFuel
    | S fuel => a ← put_char (cmd + position) 0 a; strip_blanks fuel cmd len (position + 1) a
    end
  else Ok (position, a).
Fixpoint skip_string (fuel : nat) (cmd len position : Z) (a : list Z) : res Z :=
  c ← char_of a (cmd + position);
  if negb (c =? QUOTE) && (position <? len) then
    match fuel with
    | O => Stop OutOfFuel
    | S fuel =>
        if c =? BACKSLASH then
          next ← char_of a (cmd + position + 1);
          if next =? QUOTE then skip_string fuel cmd len (position + 2) a
          else skip_string fuel cmd len (position + 1) a
        else skip_string fuel cmd len (position + 1) a
    end
  else Ok position.
Fixpoint skip_word (fuel : nat) (cmd len position : Z) (a : list Z) : res Z :=
  c ← char_of a (cmd + position);
  if negb (is_blank c) && (position <? len) then
    match fuel with O => Stop OutOfFuel | S fuel => skip_word fuel cmd len (position + 1) a end
  else Ok position.

(** [fuel] bounds the turns; every loop moves on by a char at least. *)
Fixpoint split_loop (fuel : nat) (cmd len position : Z) (argv a : list Z) : res (list Z * list Z) :=
  if position <? len then
    match fuel with
    | O => Stop OutOfFuel
    | S fuel =>
        '(position, a) ← strip_blanks (length a) cmd len position a;
        if len <=? position then Ok (argv, a) else
        c ← char_of a (cmd + position);
        if c =? QUOTE then
          let position := position + 1 in
          argv ← add_arg argv (cmd + position);
          position ← skip_string (length a) cmd len position a;
          if len <=? position then Ok (argv, a) else
          a ← put_char (cmd + position) 0 a;
          split_loop fuel cmd len (position + 1) argv a
        else
          argv ← add_arg argv (cmd + position);
          position ← skip_word (length a) cmd len position a;
          if len <=? position then Ok (argv, a) else split_loop fuel cmd len position argv a
    end
  else Ok (argv, a).
Definition msh_split (cmd len : Z) (a : list Z) : res (list Z * list Z) :=
  split_loop (S (length a)) cmd len 0 [] a.

(** [strncmp(&index->name[6], cmd, size) == 0 && index->name[6 + size] == 0]: a
    word with a NUL in it matches the name before the NUL, and the second test
    reads behind that name. *)
Definition names_cmd (word name : list Z) : res bool :=
  match until_zero word with
  | None => Ok (bool_decide (name = word))
  | Some w => if bool_decide (name = w) then Stop OutOfBounds else Ok false
  end.
Fixpoint get_cmd_loop (word : list Z) (table : list finsh_syscall) : res (option Z) :=
  match table with
  | [] => Ok None
  | c :: table =>
      match cmd_name c with
      | None => get_cmd_loop word table
      | Some name => b ← names_cmd word name; if (b : bool) then Ok (Some (sc_func c)) else get_cmd_loop word table
      end
  end.
Definition msh_get_cmd (word : list Z) : res (option Z) := get_cmd_loop word (_syscall_table env).

Context (run_cmd : Z → list (list Z) → console → res (Z * console)).

(** [None]: the command is not known ([-RT_ERROR]).  The first word is found with
    the loop that [msh_split] has for words. *)
Definition _msh_exec_cmd (cmd len : Z) (a : list Z) (con : console) : res (option Z * list Z * console) :=
  cmd0_size ← skip_word (length a) cmd len 0 a;
  if cmd0_size =? 0 then Ok (None, a, con) else
  cmd_func ← msh_get_cmd (take (Z.to_nat cmd0_size) (drop (Z.to_nat cmd) a));
  match cmd_func with
  | None => Ok (None, a, con)
  | Some func =>
      '(argv, a) ← msh_split cmd len a;
      if bool_decide (argv = []) then Ok (None, a, con) else
      args ← mapM (c_str a) argv;
      '(r, con) ← run_cmd func args con;
      Ok (Some r, a, con)
  end.

Fixpoint strim (fuel : nat) (cmd len : Z) (a : list Z) : res (Z * Z) :=
  c ← char_of a cmd;
  if is_blank c then
    match fuel with O => Stop OutOfFuel | S fuel => strim fuel (cmd + 1) (u32 (len - 1)) a end
  else Ok (cmd, len).

(** The text up to the first blank ([*tcmd = 0] there). *)
Fixpoint first_word (fuel : nat) (tcmd : Z) (a : list Z) : res Z :=
  c ← char_of a tcmd;
  if negb (c =? BLANK) && negb (c =? 0) then
    match fuel with O => Stop OutOfFuel | S fuel => first_word fuel (tcmd + 1) a end
  else Ok tcmd.

Definition msh_exec (cmd len : Z) (a : list Z) (con : console) : res (Z * list Z * console) :=
  '(cmd, len) ← strim (length a) cmd len a;
  if len =? 0 then Ok (0, a, con) else
  '(r, a, con) ← _msh_exec_cmd cmd len a con;
  match r with
  | Some cmd_ret => Ok (cmd_ret, a, con)
  | None =>
      tcmd ← first_word (length a) cmd a;
      a ← put_char tcmd 0 a;
      name ← c_str a cmd;
      Ok (-1, a, kprintf (name ++ lit ": command not found." ++ [NL]) con)
  end.

(** ** Completion *)
Fixpoint str_common (str1 str2 : list Z) : nat :=
  match str1, str2 with
  | c1 :: str1, c2 :: str2 => if c1 =? c2 then S (str_common str1 str2) else O
  | _, _ => O
  end.

(** [name_ptr] (with [min_length]) of the candidates seen so far. *)
Definition candidate (found : option (list Z) * nat) (name : list Z) : option (list Z) * nat :=
  let '(name_ptr, min_length) := found in
  let '(first, min_length) :=
    match name_ptr with
    | Some p => (p, min_length)
    | None => (name, length name)
    end in
  (Some first, Nat.min (str_common first name) min_length).

(** [rt_strncpy(prefix, name_ptr, min_length)] *)
Definition complete (found : option (list Z) * nat) (a : list Z) : res (list Z) :=
  match found with
  | (Some p, min_length) => put_chars 0 (take min_length p) a
  | (None, _) => Ok a
  end.

Definition msh_candidate (prefix : list Z) (s : (option (list Z) * nat) * console) (c : finsh_syscall) :=
  match cmd_name c with
  | Some name => if is_prefix prefix name then (candidate s.1 name, kprintf (name ++ [NL]) s.2) else s
  | None => s
  end.

Definition msh_auto_complete (a : list Z) (con : console) : res (list Z * console) :=
  prefix ← c_str a 0;
  if bool_decide (prefix = []) then Ok (a, (msh_help con).2) else
  let '(found, con) := fold_left (msh_candidate prefix) (_syscall_table env) ((None, O), con) in
  a ← complete found a;
  Ok (a, con).

(** One name of a table or list of [list_prefix]: the header before the first
    of its kind, [count] of which have been listed. *)
Definition list_candidate (prefix header name text : list Z)
    (s : nat * (option (list Z) * nat) * console) : nat * (option (list Z) * nat) * console :=
  let '(count, found, con) := s in
  if is_prefix prefix name then
    let con := if (count =? 0)%nat then kprintf (header ++ [NL]) con else con in
    let found := if bool_decide (prefix = []) then found else candidate found name in
    (S count, found, kprintf (text ++ [NL]) con)
  else s.

Definition list_prefix (a : list Z) (con : console) : res (list Z * console) :=
  prefix ← c_str a 0;
  let function := list_candidate prefix (lit "--function:") in
  let variable := list_candidate prefix (lit "--variable:") in
  let described name desc := pad16 name ++ lit " -- " ++ desc in
  let s := (O, (None, O), con) in
  let s := fold_left (λ s c, if is_prefix (lit "__") (sc_name c) then s
                              else function (sc_name c) (described (sc_name c) (sc_desc c)) s)
             (_syscall_table env) s in
  let s := fold_left (λ s c, function (sc_name c) (lit "[l] " ++ sc_name c) s) (global_syscall_list env) s in
  let s := (O, s.1.2, s.2) in
  let s := fold_left (λ s v, variable (sv_name v) (described (sv_name v) (sv_desc v)) s) (_sysvar_table env) s in
  let s := fold_left (λ s v, variable (sv_name v) (lit "[v] " ++ sv_name v) s) (global_sysvar_list env) s in
  a ← complete s.1.2 a;
  Ok (a, s.2).
End msh.

(** ** Reading arrays piece by piece *)
Lemma snoc_app {A} (d : list A) c r : d ++ c :: r = (d ++ [c]) ++ r.
Proof. by rewrite <- app_assoc. Qed.
Lemma char_of_app d c r : char_of (d ++ c :: r) (Z.of_nat (length d)) = Ok c.
Proof.
  unfold char_of. rewrite (proj2 (Z.ltb_ge _ 0)) by lia. by rewrite Nat2Z.id, list_lookup_middle.
Qed.
Lemma char_of_at i d c r : i = Z.of_nat (length d) → char_of (d ++ c :: r) i = Ok c.
Proof. intros ->. apply char_of_app. Qed.
Lemma put_char_at i v d c r : i = Z.of_nat (length d) → put_char i v (d ++ c :: r) = Ok (d ++ v :: r).
Proof.
  intros ->. unfold put_char. rewrite char_of_app. cbn [mbind res_bind].
  by rewrite Nat2Z.id, insert_app_r_alt, Nat.sub_diag by lia.
Qed.
Lemma until_zero_at w r : Forall (λ c, c ≠ 0) w → until_zero (w ++ 0 :: r) = Some w.
Proof.
  induction 1 as [| c w Hc _ IH]; [done |]. cbn [app until_zero]. by rewrite (proj2 (Z.eqb_neq c 0) Hc), IH.
Qed.
Lemma until_zero_none w : Forall (λ c, c ≠ 0) w → until_zero w = None.
Proof. induction 1 as [| c w Hc _ IH]; [done |]. cbn [until_zero]. by rewrite (proj2 (Z.eqb_neq c 0) Hc), IH. Qed.
Lemma c_str_at i d w r :
  i = Z.of_nat (length d) → Forall (λ c, c ≠ 0) w → c_str (d ++ w ++ 0 :: r) i = Ok w.
Proof.
  intros -> Hw. unfold c_str. rewrite (proj2 (Z.ltb_ge _ 0)) by lia.
  by rewrite Nat2Z.id, drop_app_length, until_zero_at.
Qed.
Lemma put_chars_at l0 l1 r : length l0 = length l1 → put_chars 0 l1 (l0 ++ r) = Ok (l1 ++ r).
Proof.
  intros E. unfold put_chars.
  replace ((0 <=? 0) && (0 + Z.of_nat (length l1) <=? Z.of_nat (length (l0 ++ r)))) with true
    by (symmetry; rewrite length_app; apply andb_true_iff; split; apply Z.leb_le; lia).
  cbn [require mbind res_bind]. change (Z.to_nat 0) with O. cbn [take app Nat.add].
  by rewrite <- E, drop_app_length.
Qed.

(** ** The words of a command line *)
Inductive arg := Word (w : list Z) | Quoted (q : list Z).
Definition arg_text (x : arg) : list Z := match x with Word w => w | Quoted q => QUOTE :: q ++ [QUOTE] end.
Definition arg_value (x : arg) : list Z := match x with Word w => w | Quoted q => q end.

(** A quote inside must follow a backslash, and the last char is no backslash. *)
Fixpoint quoted_ok (q : list Z) : bool :=
  match q with
  | [] => true
  | c :: q' =>
      if c =? QUOTE then false
      else if c =? BACKSLASH then
        match q' with [] => false | d :: q'' => if d =? QUOTE then quoted_ok q'' else quoted_ok q' end
      else quoted_ok q'
  end.
Definition arg_ok (x : arg) : Prop :=
  match x with
  | Word w => (∃ c w', w = c :: w' ∧ c ≠ QUOTE) ∧ Forall (λ c, is_blank c = false ∧ c ≠ 0) w
  | Quoted q => quoted_ok q = true ∧ Forall (λ c, c ≠ 0) q
  end.

(** Each argument behind its blanks, then trailing blanks. *)
Fixpoint cmd_text (l : list (list Z * arg)) (tr : list Z) : list Z :=
  match l with [] => tr | (sp, x) :: l => sp ++ arg_text x ++ cmd_text l tr end.
Definition spaced (l : list (list Z * arg)) (tr : list Z) : Prop :=
  Forall (λ c, is_blank c = true) tr ∧ Forall (λ p, Forall (λ c, is_blank c = true) p.1 ∧ arg_ok p.2) l ∧
  Forall (λ p : list Z * arg, p.1 ≠ []) (tail l).

(** What [msh_split] leaves of the line: blanks and closing quotes are NULs. *)
Definition arg_clean (x : arg) : list Z := match x with Word w => w | Quoted q => QUOTE :: q ++ [0] end.
Fixpoint cmd_clean (l : list (list Z * arg)) (tr : list Z) : list Z :=
  match l with
  | [] => replicate (length tr) 0
  | (sp, x) :: l => replicate (length sp) 0 ++ arg_clean x ++ cmd_clean l tr
  end.
(** Where the arguments start, when the text starts at [off]. *)
Definition arg_ptr (off : Z) (x : arg) : Z := match x with Word _ => off | Quoted _ => off + 1 end.
Fixpoint cmd_ptrs (off : Z) (l : list (list Z * arg)) : list Z :=
  match l with
  | [] => []
  | (sp, x) :: l =>
      let off := off + Z.of_nat (length sp) in
      arg_ptr off x :: cmd_ptrs (off + Z.of_nat (length (arg_text x))) l
  end.

Section split.
Context (cmd len : Z).

(** [d] is what lies before the position. *)
Lemma strip_blanks_ok sp : ∀ fuel p d c r,
  cmd + p = Z.of_nat (length d) → Forall (λ c, is_blank c = true) sp →
  p + Z.of_nat (length sp) <= len → (is_blank c = false ∨ p + Z.of_nat (length sp) = len) → (length sp <= fuel)%nat →
  strip_blanks fuel cmd len p (d ++ sp ++ c :: r) =
    Ok (p + Z.of_nat (length sp), d ++ replicate (length sp) 0 ++ c :: r).
Proof.
  induction sp as [| b sp IH]; intros fuel p d c r Hd Hsp Hlen Hc Hf; cbn [app length replicate] in *.
  - replace (p + Z.of_nat 0) with p in * by lia.
    destruct fuel; cbn [strip_blanks]; rewrite (char_of_at _ d) by done; cbn [mbind res_bind];
      (destruct Hc as [-> | ->]; [done | by rewrite Z.ltb_irrefl, andb_false_r]).
  - apply Forall_cons in Hsp as [Hb Hsp]. destruct fuel as [| fuel]; [lia |]. cbn [strip_blanks].
    rewrite (char_of_at _ d) by done. cbn [mbind res_bind]. rewrite Hb, (proj2 (Z.ltb_lt p len)) by lia. cbn [andb].
    rewrite (put_char_at _ 0 d) by done. cbn [mbind res_bind].
    rewrite (snoc_app d 0), IH; [| rewrite length_app; cbn; lia | done | lia | | lia].
    + do 2 f_equal; [lia |]. by rewrite <- app_assoc.
    + destruct Hc; [by left | right; lia].
Qed.

Lemma skip_word_ok w : ∀ fuel p d c r,
  cmd + p = Z.of_nat (length d) → Forall (λ c, is_blank c = false) w →
  p + Z.of_nat (length w) <= len → (is_blank c = true ∨ p + Z.of_nat (length w) = len) → (length w <= fuel)%nat →
  skip_word fuel cmd len p (d ++ w ++ c :: r) = Ok (p + Z.of_nat (length w)).
Proof.
  induction w as [| b w IH]; intros fuel p d c r Hd Hw Hlen Hc Hf; cbn [app length] in *.
  - replace (p + Z.of_nat 0) with p in * by lia.
    destruct fuel; cbn [skip_word]; rewrite (char_of_at _ d) by done; cbn [mbind res_bind];
      (destruct Hc as [-> | ->]; [done | by rewrite Z.ltb_irrefl, andb_false_r]).
  - apply Forall_cons in Hw as [Hb Hw]. destruct fuel as [| fuel]; [lia |]. cbn [skip_word].
    rewrite (char_of_at _ d) by done. cbn [mbind res_bind]. rewrite Hb, (proj2 (Z.ltb_lt p len)) by lia. cbn [negb andb].
    rewrite (snoc_app d b), IH; [f_equal; lia | rewrite length_app; cbn; lia | done | lia | | lia].
    destruct Hc; [by left | right; lia].
Qed.

Lemma skip_string_ok n : ∀ q fuel p d r,
  (length q <= n)%nat → cmd + p = Z.of_nat (length d) → quoted_ok q = true →
  p + Z.of_nat (length q) <= len → (length q <= fuel)%nat →
  skip_string fuel cmd len p (d ++ q ++ QUOTE :: r) = Ok (p + Z.of_nat (length q)).
Proof.
  induction n as [| n IH]; intros q fuel p d r Hn Hd Hq Hlen Hf.
  all: destruct q as [| b q]; cbn [app length] in *; [| try lia].
  1, 2: destruct fuel; cbn [skip_string]; rewrite (char_of_at _ d _ _ Hd), Z.add_0_r; reflexivity.
  destruct fuel as [| fuel]; [lia |]. cbn [skip_string].
  rewrite (char_of_at _ d _ _ Hd). cbn [mbind res_bind]. cbn [quoted_ok] in Hq.
  destruct (b =? QUOTE); [done |]. rewrite (proj2 (Z.ltb_lt p len)) by lia. cbn [negb andb].
  assert (Hone : ∀ q', quoted_ok q' = true → (length q' <= n)%nat → (length q' <= fuel)%nat →
    p + 1 + Z.of_nat (length q') <= len →
    skip_string fuel cmd len (p + 1) (d ++ b :: q' ++ QUOTE :: r) = Ok (p + 1 + Z.of_nat (length q'))).
  { intros q' Hq' Hn' Hf' Hl'. rewrite (snoc_app d b), IH; [done | done | rewrite length_app; cbn; lia | done.. ]. }
  destruct (b =? BACKSLASH).
  - destruct q as [| e q]; [done |].
    cbn [app]. rewrite (snoc_app d b), (char_of_at _ (d ++ [b])) by (rewrite length_app; cbn; lia).
    cbn [mbind res_bind]. destruct (e =? QUOTE).
    + cbn [length] in *. rewrite (snoc_app _ e).
      rewrite IH; [f_equal; lia | lia | rewrite !length_app; cbn; lia | done | lia | lia].
    + rewrite <- (app_assoc d [b]). pose proof (Hone (e :: q)) as H1. cbn [app length] in *.
      rewrite H1; [f_equal; lia | done | lia..].
  - rewrite Hone; [f_equal; lia | done | lia..].
Qed.

Lemma add_arg_ok argv ptr :
  add_arg argv ptr = if (S (length argv) <=? RT_FINSH_ARG_MAX)%nat then Ok (argv ++ [ptr]) else Stop OutOfBounds.
Proof.
  unfold add_arg. destruct (Nat.leb_spec (S (length argv)) RT_FINSH_ARG_MAX).
  - by rewrite bool_decide_eq_true_2 by lia.
  - by rewrite bool_decide_eq_false_2 by lia.
Qed.

(** What stands behind an argument: a blank, or the end. *)
Lemma spaced_next l tr post :
  spaced l tr → Forall (λ p : list Z * arg, p.1 ≠ []) l →
  ∃ c r, cmd_text l tr ++ 0 :: post = c :: r ∧ (is_blank c = true ∨ l = [] ∧ tr = [] ∧ c = 0 ∧ r = post).
Proof.
  intros (Htr & Hl & _) Hne. destruct l as [| [sp x] l]; cbn [cmd_text].
  - destruct tr as [| c tr]; cbn [app]; eexists _, _; (split; [done |]); [by right |].
    left. by apply Forall_cons in Htr as [? _].
  - apply Forall_cons in Hl as [[Hsp _] _]. apply Forall_cons in Hne as [Hne _]. cbn [fst] in *.
    destruct sp as [| c sp]; [done |]. cbn [app]. eexists _, _. split; [done |]. left. by apply Forall_cons in Hsp as [? _].
Qed.

(** The whole loop, from a text of arguments on. *)
Lemma split_loop_ok tr post : ∀ l fuel p argv d,
  cmd + p = Z.of_nat (length d) → p + Z.of_nat (length (cmd_text l tr)) = len → spaced l tr → (length l < fuel)%nat →
  (length argv <= RT_FINSH_ARG_MAX)%nat →
  split_loop fuel cmd len p argv (d ++ cmd_text l tr ++ 0 :: post) =
    if (length argv + length l <=? RT_FINSH_ARG_MAX)%nat
    then Ok (argv ++ cmd_ptrs (cmd + p) l, d ++ cmd_clean l tr ++ 0 :: post)
    else Stop OutOfBounds.
Proof.
  induction l as [| [sp x] l IH]; intros fuel p argv d Hd Hlen Hsp Hf Hargv; destruct fuel as [| fuel]; try lia.
  - rewrite (proj2 (Nat.leb_le _ _)) by (cbn [length]; lia). cbn [split_loop cmd_text cmd_ptrs cmd_clean length] in *.
    rewrite app_nil_r. destruct (Z.ltb_spec p len) as [Hlt | Hge].
    + rewrite (strip_blanks_ok tr); [| done | apply Hsp | lia | by right | rewrite !length_app; lia].
      cbn [mbind res_bind]. by rewrite (proj2 (Z.leb_le _ _)) by lia.
    + destruct tr; [done | cbn [length] in *; lia].
  - destruct Hsp as (Htr & Hl & Hne). apply Forall_cons in Hl as [[Hsp Hx] Hl]. cbn [fst snd tail] in *.
    assert (Hsp' : spaced l tr) by (split_and!; [done | done | by destruct l; [| apply Forall_cons in Hne as [_ ?]]]).
    cbn [cmd_text cmd_ptrs cmd_clean length] in *. rewrite !length_app in Hlen.
    assert (Hc : ∃ c t, arg_text x = c :: t ∧ is_blank c = false ∧
      match x with Word w => c ≠ QUOTE | Quoted q => c = QUOTE end).
    { destruct x as [w | q]; [| by eexists _, _].
      destruct Hx as [(c & w' & -> & Hq) Hw]. apply Forall_cons in Hw as [[Hb _] _]. by exists c, w'. }
    destruct Hc as (c & t & Et & Hb & Hq).
    assert (Hlt : (0 < length (arg_text x))%nat) by (rewrite Et; cbn; lia).
    cbn [split_loop]. rewrite (proj2 (Z.ltb_lt p len)) by lia.
    rewrite <- !app_assoc, Et. cbn [app].
    rewrite (strip_blanks_ok sp); [| done | done | lia | by left | rewrite !length_app; lia].
    cbn [mbind res_bind]. rewrite (proj2 (Z.leb_gt _ _)) by lia.
    set (d1 := d ++ replicate (length sp) 0). rewrite app_assoc. fold d1.
    assert (Hd1 : cmd + (p + Z.of_nat (length sp)) = Z.of_nat (length d1))
      by (unfold d1; rewrite length_app, length_replicate; lia).
    rewrite (char_of_at _ d1 _ _ Hd1). cbn [mbind res_bind].
    change (c :: t ++ cmd_text l tr ++ 0 :: post) with ((c :: t) ++ cmd_text l tr ++ 0 :: post). rewrite <- Et.
    assert (Hlx : (S (length argv) + length l = length argv + S (length l))%nat) by lia.
    destruct x as [w | q]; cbn [arg_text arg_clean arg_ptr arg_ok] in *.
    + rewrite (proj2 (Z.eqb_neq c QUOTE) Hq), add_arg_ok.
      destruct (Nat.leb_spec (S (length argv)) RT_FINSH_ARG_MAX) as [Ha | Ha]; cbn [mbind res_bind];
        [| by rewrite (proj2 (Nat.leb_gt _ _)) by lia].
      destruct (spaced_next l tr post Hsp' Hne) as (c' & r' & Er & Hc').
      rewrite Er, (skip_word_ok w _ _ d1); [| done | by eapply Forall_impl; [apply Hx |]; intros ? [? _] | lia | |
        rewrite !length_app; lia].
      2: { destruct Hc' as [? | (-> & -> & _)]; [by left | right; cbn in Hlen; lia]. }
      cbn [mbind res_bind]. destruct (Z.leb_spec len (p + Z.of_nat (length sp) + Z.of_nat (length w))) as [He | He].
      * destruct Hc' as [Hb' | (-> & -> & -> & ->)].
        { exfalso. assert (length (cmd_text l tr) = 0%nat) as E0%length_zero_iff_nil by lia.
          rewrite E0 in Er. cbn in Er. injection Er as <- _. done. }
        rewrite (proj2 (Nat.leb_le _ _)) by (cbn; lia). cbn [cmd_ptrs cmd_clean length replicate app].
        unfold d1. rewrite <- !app_assoc. by rewrite Z.add_assoc.
      * rewrite <- Er, app_assoc, IH; [| rewrite length_app; lia | lia | done | lia | rewrite length_app; cbn; lia].
        rewrite length_app. cbn [length]. rewrite Nat.add_1_r, Hlx.
        destruct (_ <=? _)%nat; [| done]. unfold d1. rewrite <- !app_assoc. cbn [app].
        by rewrite !Z.add_assoc.
    + rewrite Hq, Z.eqb_refl, add_arg_ok.
      destruct (Nat.leb_spec (S (length argv)) RT_FINSH_ARG_MAX) as [Ha | Ha]; cbn [mbind res_bind];
        [| by rewrite (proj2 (Nat.leb_gt _ _)) by lia].
      cbn [app]. rewrite <- app_assoc. cbn [app]. rewrite (snoc_app d1).
      cbn [length] in *. rewrite length_app in *. cbn [length] in *.
      rewrite (skip_string_ok (length q)); [| lia | rewrite length_app; cbn; lia | apply Hx | lia | rewrite !length_app; lia].
      cbn [mbind res_bind]. rewrite (proj2 (Z.leb_gt _ _)) by lia.
      rewrite (app_assoc _ q), (put_char_at _ 0); [| rewrite !length_app; cbn; lia]. cbn [mbind res_bind].
      rewrite (snoc_app _ 0), IH; [| rewrite !length_app; cbn; lia | lia | done | lia | rewrite length_app; cbn; lia].
      rewrite length_app. cbn [length]. rewrite Nat.add_1_r, Hlx.
      destruct (_ <=? _)%nat; [| done]. unfold d1. rewrite <- !app_assoc. cbn [app].
      replace (cmd + (p + Z.of_nat (length sp) + 1)) with (cmd + p + Z.of_nat (length sp) + 1) by lia.
      do 3 f_equal. do 2 f_equal. rewrite length_app. cbn [length]. lia.
Qed.
End split.

(** The arguments are the strings that the pointers give. *)
Lemma clean_head l tr post :
  Forall (λ p : list Z * arg, p.1 ≠ []) l → ∃ r, cmd_clean l tr ++ 0 :: post = 0 :: r.
Proof.
  intros Hne. destruct l as [| [sp x] l]; cbn [cmd_clean].
  - destruct tr; cbn; eauto.
  - apply Forall_cons in Hne as [Hne _]. cbn [fst] in Hne. destruct sp; [done |]. cbn. eauto.
Qed.

Lemma split_values tr post : ∀ l d,
  spaced l tr →
  mapM (c_str (d ++ cmd_clean l tr ++ 0 :: post)) (cmd_ptrs (Z.of_nat (length d)) l) = Ok (arg_value ∘ snd <$> l).
Proof.
  induction l as [| [sp x] l IH]; intros d Hsp; [done |].
  destruct Hsp as (Htr & Hl & Hne). apply Forall_cons in Hl as [[Hsp Hx] Hl]. cbn [fst snd tail] in *.
  assert (Hsp' : spaced l tr) by (split_and!; [done | done | by destruct l; [| apply Forall_cons in Hne as [_ ?]]]).
  destruct (clean_head l tr post Hne) as (r & Er).
  cbn [cmd_clean cmd_ptrs mapM fmap list_fmap]. cbn [compose snd].
  assert (Hlen : length (arg_clean x) = length (arg_text x)).
  { destruct x; cbn; [done |]. by rewrite !length_app. }
  assert (E1 : c_str (d ++ (replicate (length sp) 0 ++ arg_clean x ++ cmd_clean l tr) ++ 0 :: post)
    (arg_ptr (Z.of_nat (length d) + Z.of_nat (length sp)) x) = Ok (arg_value x)).
  { rewrite <- !app_assoc, Er. destruct x as [w | q]; cbn [arg_clean arg_ptr arg_value arg_ok] in *.
    - rewrite app_assoc. apply c_str_at; [rewrite length_app, length_replicate; lia |].
      eapply Forall_impl; [apply Hx |]. by intros ? [_ ?].
    - cbn [app]. rewrite <- (app_assoc q). cbn [app]. rewrite (app_assoc d), (snoc_app _ QUOTE).
      apply c_str_at; [rewrite !length_app, length_replicate; cbn; lia | apply Hx]. }
  rewrite E1. cbn [mbind res_bind].
  replace (Z.of_nat (length d) + Z.of_nat (length sp) + Z.of_nat (length (arg_text x)))
    with (Z.of_nat (length (d ++ replicate (length sp) 0 ++ arg_clean x)))
    by (rewrite !length_app, length_replicate; lia).
  rewrite <- !app_assoc. specialize (IH (d ++ replicate (length sp) 0 ++ arg_clean x) Hsp').
  rewrite <- !app_assoc in IH. rewrite IH. done.
Qed.

Lemma clean_length l tr : length (cmd_clean l tr) = length (cmd_text l tr).
Proof.
  induction l as [| [sp x] l IH]; cbn [cmd_clean cmd_text]; [apply length_replicate |].
  rewrite !length_app, length_replicate, IH. do 2 f_equal. destruct x; cbn; [done |]. by rewrite !length_app.
Qed.
Lemma spaced_length l tr : spaced l tr → (length l <= length (cmd_text l tr))%nat.
Proof.
  intros (_ & Hl & _). induction Hl as [| [sp x] l [_ Hx] _ IH]; cbn [cmd_text length]; [lia |].
  rewrite !length_app. assert (0 < length (arg_text x))%nat; [| lia].
  destruct x as [w | q]; cbn; [| lia]. destruct Hx as [(c & w' & -> & _) _]. cbn. lia.
Qed.

Lemma msh_split_ok d l tr post :
  spaced l tr →
  msh_split (Z.of_nat (length d)) (Z.of_nat (length (cmd_text l tr))) (d ++ cmd_text l tr ++ 0 :: post) =
    if (length l <=? RT_FINSH_ARG_MAX)%nat
    then Ok (cmd_ptrs (Z.of_nat (length d)) l, d ++ cmd_clean l tr ++ 0 :: post) else Stop OutOfBounds.
Proof.
  intros Hs. unfold msh_split. rewrite split_loop_ok; rewrite ?Z.add_0_r; try done; [| cbn; unfold RT_FINSH_ARG_MAX; lia].
  pose proof (spaced_length l tr Hs). rewrite !length_app. lia.
Qed.

(** [msh_split] of a command line gives back its arguments: words as they
    are, quoted arguments without their quotes; more arguments than the array
    holds are written behind it ([Stop OutOfBounds]). *)
Theorem msh_split_roundtrip d l tr post :
  spaced l tr →
  let a := d ++ cmd_text l tr ++ 0 :: post in
  let r := msh_split (Z.of_nat (length d)) (Z.of_nat (length (cmd_text l tr))) a in
  if (length l <=? RT_FINSH_ARG_MAX)%nat then
    ∃ argv a', r = Ok (argv, a') ∧ mapM (c_str a') argv = Ok (arg_value ∘ snd <$> l) ∧ length a' = length a
  else r = Stop OutOfBounds.
Proof.
  intros Hs a r. unfold r, a. rewrite msh_split_ok by done. destruct (_ <=? _)%nat; [| done].
  eexists _, _. split; [done |]. split; [by apply split_values |]. by rewrite !length_app, clean_length.
Qed.

(** ** A command line is run *)
Definition lookup_cmd (env : symbols) (name : list Z) : option Z :=
  sc_func <$> find (λ c, bool_decide (cmd_name c = Some name)) (_syscall_table env).
Lemma msh_get_cmd_ok env name : Forall (λ c, c ≠ 0) name → msh_get_cmd env name = Ok (lookup_cmd env name).
Proof.
  intros Hn. unfold msh_get_cmd, lookup_cmd. induction (_syscall_table env) as [| c t IH]; [done |]. cbn [get_cmd_loop find].
  destruct (cmd_name c) as [n |] eqn:E; [| by rewrite bool_decide_eq_false_2].
  unfold names_cmd. rewrite until_zero_none by done. cbn [mbind res_bind].
  destruct (decide (n = name)) as [-> | Hne]; [by rewrite !bool_decide_eq_true_2 |].
  rewrite !bool_decide_eq_false_2 by congruence. done.
Qed.

(** The text up to the first blank (a tab does not end it). *)
Fixpoint until_blank (l : list Z) : list Z :=
  match l with [] => [] | c :: l => if c =? BLANK then [] else c :: until_blank l end.

Lemma until_blank_nonzero l : Forall (λ c, c ≠ 0) l → Forall (λ c, c ≠ 0) (until_blank l).
Proof. induction 1 as [| c l Hc _ IH]; cbn; [done |]. destruct (c =? BLANK); [done | by constructor]. Qed.

Lemma blank_nonzero l : Forall (λ c, is_blank c = true) l → Forall (λ c, c ≠ 0) l.
Proof. intros H. eapply Forall_impl; [exact H |]. by intros c Hc ->. Qed.
Lemma spaced_nonzero l tr : spaced l tr → Forall (λ c, c ≠ 0) (cmd_text l tr).
Proof.
  intros (Htr & Hl & _). induction Hl as [| [sp x] l [Hsp Hx] _ IH]; cbn [cmd_text]; [by apply blank_nonzero |].
  apply Forall_app_2; [by apply blank_nonzero |]. apply Forall_app_2; [| exact IH].
  destruct x as [w | q]; cbn in *.
  - eapply Forall_impl; [apply Hx |]. by intros ? [_ ?].
  - constructor; [done |]. apply Forall_app_2; [apply Hx | by repeat constructor].
Qed.

Lemma first_word_ok : ∀ l fuel d post,
  Forall (λ c, c ≠ 0) l → (length l <= fuel)%nat →
  ∃ r c, d ++ l ++ 0 :: post = d ++ until_blank l ++ c :: r ∧
    first_word fuel (Z.of_nat (length d)) (d ++ l ++ 0 :: post) = Ok (Z.of_nat (length d + length (until_blank l))).
Proof.
  induction l as [| b l IH]; intros fuel d post Hl Hf; cbn [until_blank app length] in *.
  - exists post, 0. split; [done |]. rewrite Nat.add_0_r.
    by destruct fuel; cbn [first_word]; rewrite char_of_app.
  - apply Forall_cons in Hl as [Hb Hl]. destruct (Z.eqb_spec b BLANK) as [-> | Hne].
    + exists (l ++ 0 :: post), BLANK. split; [done |]. cbn [length]. rewrite Nat.add_0_r.
      by destruct fuel; cbn [first_word]; rewrite char_of_app.
    + destruct fuel as [| fuel]; [lia |]. cbn [first_word]. rewrite char_of_app. cbn [mbind res_bind].
      rewrite (proj2 (Z.eqb_neq b BLANK)), (proj2 (Z.eqb_neq b 0)) by done. cbn [negb andb].
      destruct (IH fuel (d ++ [b]) post Hl ltac:(lia)) as (r & c & E & E2). exists r, c.
      rewrite (snoc_app d b). rewrite length_app in E2. cbn [length] in *. split.
      * rewrite E, <- app_assoc. done.
      * replace (Z.of_nat (length d) + 1) with (Z.of_nat (length d + 1)) by lia. rewrite E2. f_equal. lia.
Qed.

Lemma strim_ok sp : ∀ fuel len d c r,
  Forall (λ c, is_blank c = true) sp → is_blank c = false → (length sp <= fuel)%nat →
  Z.of_nat (length sp) <= len < 4294967296 →
  strim fuel (Z.of_nat (length d)) len (d ++ sp ++ c :: r) =
    Ok (Z.of_nat (length d + length sp), len - Z.of_nat (length sp)).
Proof.
  induction sp as [| b sp IH]; intros fuel len d c r Hsp Hc Hf Hlen; cbn [app length] in *.
  - rewrite Nat.add_0_r, Z.sub_0_r. by destruct fuel; cbn [strim]; rewrite char_of_app; cbn [mbind res_bind]; rewrite Hc.
  - apply Forall_cons in Hsp as [Hb Hsp]. destruct fuel as [| fuel]; [lia |]. cbn [strim].
    rewrite char_of_app. cbn [mbind res_bind]. rewrite Hb.
    replace (u32 (len - 1)) with (len - 1) by (unfold u32; lia).
    rewrite (snoc_app d b). replace (Z.of_nat (length d) + 1) with (Z.of_nat (length (d ++ [b]))) by (rewrite length_app; cbn; lia).
    rewrite IH by (done || lia). rewrite length_app. cbn [length]. do 2 f_equal; lia.
Qed.

Section exec.
Context (env : symbols) (run_cmd : Z → list (list Z) → console → res (Z * console)).

Lemma msh_exec_blank tr post con :
  Forall (λ c, is_blank c = true) tr → Z.of_nat (length tr) < 4294967296 →
  msh_exec env run_cmd 0 (Z.of_nat (length tr)) (tr ++ 0 :: post) con = Ok (0, tr ++ 0 :: post, con).
Proof.
  intros Ht Hl. unfold msh_exec. pose proof (strim_ok tr (length (tr ++ 0 :: post)) (Z.of_nat (length tr)) [] 0 post) as E.
  cbn [length app Nat.add] in E. change (Z.of_nat 0) with 0 in E.
  rewrite E; [| done | done | rewrite length_app; lia | lia]. cbn [mbind res_bind].
  by rewrite Z.sub_diag.
Qed.

Lemma msh_exec_cmd_ok d name l tr post con :
  spaced (([], Word name) :: l) tr →
  let text := cmd_text (([], Word name) :: l) tr in
  _msh_exec_cmd env run_cmd (Z.of_nat (length d)) (Z.of_nat (length text)) (d ++ text ++ 0 :: post) con =
    match lookup_cmd env name with
    | None => Ok (None, d ++ text ++ 0 :: post, con)
    | Some f =>
        if (S (length l) <=? RT_FINSH_ARG_MAX)%nat then
          '(r, con) ← run_cmd f (name :: (arg_value ∘ snd <$> l)) con;
          Ok (Some r, d ++ cmd_clean (([], Word name) :: l) tr ++ 0 :: post, con)
        else Stop OutOfBounds
    end.
Proof.
  intros Hs text. pose proof Hs as (Htr & [[_ [(c & w & -> & Hc) Hw]] Hl]%Forall_cons & Hne). cbn [fst snd tail] in *.
  set (name := c :: w) in *.
  assert (Hs' : spaced l tr) by (split_and!; [done | done | by destruct l; [| apply Forall_cons in Hne as [_ ?]]]).
  destruct (spaced_next l tr post Hs' Hne) as (c' & r' & Er & Hc').
  assert (Hw0 : Forall (λ c, c ≠ 0) name) by (eapply Forall_impl; [exact Hw |]; by intros ? [_ ?]).
  assert (Ht : text = name ++ cmd_text l tr) by done.
  unfold _msh_exec_cmd. rewrite Ht, <- app_assoc, Er.
  rewrite (skip_word_ok _ _ name _ 0 d).
  2: lia. 2: (eapply Forall_impl; [exact Hw |]; by intros ? [? _]).
  2: (rewrite length_app; lia). 2: (destruct Hc' as [? | (-> & -> & _)]; [by left | right; rewrite length_app; cbn; lia]).
  2: (rewrite !length_app; lia).
  cbn [mbind res_bind]. rewrite (proj2 (Z.eqb_neq _ 0)) by (cbn; lia).
  rewrite Z.add_0_l, !Nat2Z.id, drop_app_length, take_app_length, (msh_get_cmd_ok env name Hw0). cbn [mbind res_bind].
  destruct (lookup_cmd env name) as [f |]; [| by rewrite <- Er].
  pose proof (msh_split_ok d (([], Word name) :: l) tr post Hs) as E. fold text in E. rewrite Ht, <- app_assoc, Er in E.
  rewrite E. cbn [length]. destruct (_ <=? _)%nat; [| done]. cbn [mbind res_bind].
  rewrite bool_decide_eq_false_2 by done. rewrite (split_values tr post _ d Hs). cbn [mbind res_bind fmap list_fmap compose snd arg_value].
  done.
Qed.

(** A command line whose first word is a name: the command of that name gets
    the words and the texts of the quoted arguments, and its result is the
    shell's; an unknown name is reported and nothing is run; more than ten
    arguments are written behind the array. *)
Theorem msh_exec_spec sp name l tr post con :
  let line := (sp, Word name) :: l in
  let text := cmd_text line tr in
  let run := msh_exec env run_cmd 0 (Z.of_nat (length text)) (text ++ 0 :: post) con in
  spaced line tr → Z.of_nat (length text) < 4294967296 →
  match lookup_cmd env name with
  | None => ∃ a', run = Ok (-1, a', kprintf (until_blank (drop (length sp) text) ++ lit ": command not found." ++ [NL]) con)
  | Some f =>
      if (S (length l) <=? RT_FINSH_ARG_MAX)%nat then
        match run_cmd f (name :: (arg_value ∘ snd <$> l)) con with
        | Ok (r, con') => ∃ a', run = Ok (r, a', con')
        | Stop e => run = Stop e
        end
      else run = Stop OutOfBounds
  end.
Proof.
  intros line text run Hs Hlen. pose proof Hs as (Htr & [[Hsp Hn] Hl]%Forall_cons & Hne). cbn [fst snd tail] in *.
  assert (Hs' : spaced (([], Word name) :: l) tr) by (split_and!; [done | by constructor | done]).
  pose proof (msh_exec_cmd_ok sp name l tr post con Hs') as E. cbv zeta in E.
  set (t := cmd_text (([], Word name) :: l) tr) in *.
  assert (Ht : text = sp ++ t) by done.
  destruct Hn as [(c & w & -> & Hc) Hw]. set (name := c :: w) in *.
  assert (Et : t ++ 0 :: post = c :: (w ++ cmd_text l tr ++ 0 :: post)) by (unfold t, name; cbn; by rewrite <- app_assoc).
  unfold run, msh_exec. rewrite Ht, <- app_assoc.
  pose proof (strim_ok sp (length (sp ++ t ++ 0 :: post)) (Z.of_nat (length (sp ++ t))) [] c (w ++ cmd_text l tr ++ 0 :: post)) as Es.
  cbn [length app Nat.add] in Es. change (Z.of_nat 0) with 0 in Es. rewrite <- Et in Es. rewrite Es; clear Es.
  2: done. 2: (by apply Forall_cons in Hw as [[? _] _]). 2, 3: (rewrite Ht in Hlen; rewrite !length_app in *; lia).
  cbn [mbind res_bind].
  replace (Z.of_nat (length (sp ++ t)) - Z.of_nat (length sp)) with (Z.of_nat (length t)) by (rewrite length_app; lia).
  rewrite (proj2 (Z.eqb_neq _ 0)) by (unfold t, name; cbn; lia).
  rewrite E. destruct (lookup_cmd env name) as [f |].
  - destruct (_ <=? _)%nat; [| done]. destruct (run_cmd f _ con) as [[r con'] |]; [| done]. cbn [mbind res_bind]. by eexists.
  - cbn [mbind res_bind].
    pose proof (spaced_nonzero _ _ Hs') as H0. fold t in H0.
    destruct (first_word_ok t (length (sp ++ t ++ 0 :: post)) sp post H0) as (r & e & Ee & ->); [rewrite !length_app; lia |].
    cbn [mbind res_bind]. rewrite Ee, (app_assoc sp), (put_char_at _ 0); [| by rewrite length_app].
    cbn [mbind res_bind]. rewrite <- app_assoc, c_str_at; [| done | by apply until_blank_nonzero].
    cbn [mbind res_bind]. rewrite drop_app_length. by eexists.
Qed.
End exec.

(** ** Completion *)

(** [r] is the longest text that all names begin with. *)
Definition common_prefix (ns : list (list Z)) (r : list Z) : Prop :=
  (∀ n, n ∈ ns → r `prefix_of` n) ∧ ∀ q, (∀ n, n ∈ ns → q `prefix_of` n) → q `prefix_of` r.

Lemma is_prefix_spec p n : is_prefix p n = true ↔ p `prefix_of` n.
Proof.
  unfold is_prefix. rewrite bool_decide_eq_true. split.
  - intros <-. apply prefix_take.
  - intros [r ->]. by rewrite take_app_length.
Qed.

Lemma str_common_prefix a b : take (str_common a b) a `prefix_of` b.
Proof.
  revert b. induction a as [| x a IH]; intros [| y b]; cbn; try apply prefix_nil.
  destruct (Z.eqb_spec x y) as [-> |]; cbn; [by apply prefix_cons | apply prefix_nil].
Qed.
Lemma str_common_longest q a b : q `prefix_of` a → q `prefix_of` b → (length q <= str_common a b)%nat.
Proof.
  revert a b. induction q as [| x q IH]; intros a b; cbn; [lia |].
  intros [ra ->] [rb ->]. cbn. rewrite Z.eqb_refl. apply le_n_S, IH; by eexists.
Qed.

(** The candidates so far, and the length of their common prefix. *)
Definition longest (ns : list (list Z)) (f : list Z) (k : nat) : Prop :=
  (k <= length f)%nat ∧ (∀ m, m ∈ ns → take k f `prefix_of` m) ∧
  ∀ q, q `prefix_of` f → (∀ m, m ∈ ns → q `prefix_of` m) → (length q <= k)%nat.
Definition found_ok (ns : list (list Z)) (found : option (list Z) * nat) : Prop :=
  match found with
  | (None, _) => ns = []
  | (Some first, k) => first ∈ ns ∧ longest ns first k
  end.

Lemma longest_snoc ns f k n : longest ns f k → longest (ns ++ [n]) f (Nat.min (str_common f n) k).
Proof.
  intros (Hk & Hp & Hl). split_and!; [lia | |].
  - intros m [Hm | ->%list_elem_of_singleton]%elem_of_app.
    + etrans; [| by apply Hp]. rewrite <- take_take. apply prefix_take.
    + etrans; [| apply (str_common_prefix f)]. rewrite Nat.min_comm, <- take_take. apply prefix_take.
  - intros q Hf Hq. apply Nat.min_glb.
    + apply str_common_longest; [done |]. apply Hq, elem_of_app; right; left.
    + apply Hl; [done |]. intros m Hm. apply Hq, elem_of_app. by left.
Qed.

Lemma candidate_ok ns n found : found_ok ns found → found_ok (ns ++ [n]) (candidate found n).
Proof.
  destruct found as [[f |] k]; cbn [found_ok candidate].
  - intros [Hin H]. split; [apply elem_of_app; by left | by apply longest_snoc].
  - intros ->. split; [left |]. apply (longest_snoc []). split_and!; [lia | intros m Hm; by apply not_elem_of_nil in Hm |].
    intros q Hq _. by apply prefix_length.
Qed.

Lemma longest_common ns f k : f ∈ ns → longest ns f k → common_prefix ns (take k f).
Proof.
  intros Hin (Hk & Hp & Hl). split; [done |]. intros q Hq. assert (Hf : q `prefix_of` f) by (by apply Hq).
  specialize (Hl q Hf Hq). destruct Hf as [r ->]. rewrite take_app_ge by done. by eexists.
Qed.

Definition found_by (p : list Z) (ns : list (list Z)) : list (list Z) := filter (λ n, p `prefix_of` n) ns.

Lemma msh_candidates_ok p table : ∀ ns found con,
  found_ok ns found →
  ∃ found', fold_left (msh_candidate p) table (found, con) =
      (found', fold_left (λ c n, kprintf (n ++ [NL]) c) (found_by p (omap cmd_name table)) con) ∧
    found_ok (ns ++ found_by p (omap cmd_name table)) found'.
Proof.
  induction table as [| c table IH]; intros ns found con Hf; cbn [fold_left omap list_omap].
  - exists found. by rewrite app_nil_r.
  - unfold msh_candidate at 2. destruct (cmd_name c) as [n |]; [| by apply IH]. cbn [fst snd].
    destruct (is_prefix p n) eqn:E.
    + apply is_prefix_spec in E. unfold found_by. rewrite filter_cons_True by done. cbn [fold_left].
      rewrite (snoc_app ns). by apply IH, candidate_ok.
    + unfold found_by. rewrite filter_cons_False; [by apply IH |]. rewrite <- is_prefix_spec, E. done.
Qed.

Lemma complete_ok p room r :
  p `prefix_of` r → (length r <= length p + room)%nat →
  put_chars 0 r (p ++ replicate room 0) = Ok (r ++ replicate (length p + room - length r) 0).
Proof.
  intros [t ->] Hl. rewrite length_app in *. replace room with (length t + (room - length t))%nat at 1 by lia.
  rewrite replicate_add, app_assoc, put_chars_at by (by rewrite !length_app, length_replicate).
  do 3 f_equal. lia.
Qed.

(** The tab key in the module shell: the commands that begin with the line
    are listed in the order of the table, and the line becomes the longest text
    with which all of them begin; without any the line stays as it is. *)
Theorem msh_auto_complete_spec env p room con :
  p ≠ [] → Forall (λ c, c ≠ 0) p → (0 < room)%nat →
  let ns := found_by p (omap cmd_name (_syscall_table env)) in
  let listed := fold_left (λ c n, kprintf (n ++ [NL]) c) ns con in
  Forall (λ n, length n < length p + room)%nat ns →
  (ns = [] ∧ msh_auto_complete env (p ++ replicate room 0) con = Ok (p ++ replicate room 0, listed)) ∨
  ∃ r, common_prefix ns r ∧ p `prefix_of` r ∧
    msh_auto_complete env (p ++ replicate room 0) con =
      Ok (r ++ replicate (length p + room - length r) 0, listed).
Proof.
  intros Hp Hz Hr ns listed Hroom. unfold msh_auto_complete.
  assert (Ep : c_str (p ++ replicate room 0) 0 = Ok p) by (destruct room; [lia |]; by apply (c_str_at 0 [])).
  rewrite Ep. cbn [mbind res_bind]. rewrite bool_decide_eq_false_2 by done.
  destruct (msh_candidates_ok p (_syscall_table env) [] (None, O) con eq_refl) as (found & -> & Hf).
  cbn [app] in Hf. fold ns in Hf. fold ns. fold listed. destruct found as [[f |] k]; cbn [found_ok complete] in *; [| by left].
  destruct Hf as [Hin Hk]. right. exists (take k f). pose proof (longest_common ns f k Hin Hk) as Hc.
  assert (Hpn : ∀ n, n ∈ ns → p `prefix_of` n) by (intros n Hn; by apply list_elem_of_filter in Hn as [? _]).
  assert (Hpr : p `prefix_of` take k f) by (by apply Hc).
  split_and!; [done | done |]. rewrite complete_ok; [done | done |].
  rewrite length_take. rewrite Forall_forall in Hroom. specialize (Hroom f Hin). lia.
Qed.

(** ** Two commands that print their arguments, and [exit] *)
Definition demo_commands : symbols :=
  mk_symbols [] []
    [mk_syscall 16 (lit "add") (lit "add numbers") 0x80030000;
     mk_syscall 32 (lit "__cmd_show") (lit "show the arguments") 1;
     mk_syscall 48 (lit "__cmd_shot") (lit "the same") 1;
     mk_syscall 64 (lit "__cmd_exit") (lit "return to RT-Thread shell mode") 2] []
    0x80010100 0x80010000.
Definition demo_run (f : Z) (args : list (list Z)) (con : console) : res (Z * console) :=
  if f =? 1 then Ok (Z.of_nat (length args), kprintf (mjoin ((λ a, a ++ lit "|") <$> args) ++ [NL]) con)
  else if f =? 2 then Ok (msh_exit con)
  else Stop NullDeref.

Definition demo_msh : console :=
  mk_console true [] (finsh_init ∅) (mk_vm [] [] 0 0 ∅).

(** A name, a word and a quoted argument with an escaped quote inside. *)
Definition demo_args : list (list Z * arg) :=
  [([BLANK], Word (lit "show")); ([BLANK; BLANK], Word (lit "a"));
   ([TAB], Quoted (lit "b " ++ [BACKSLASH; QUOTE] ++ lit " c"))].
Lemma demo_spaced : spaced demo_args [BLANK].
Proof.
  assert (H : ∀ l : list Z, forallb (λ c, negb (is_blank c) && negb (c =? 0)) l = true →
    Forall (λ c, is_blank c = false ∧ c ≠ 0) l).
  { intros l Hl. apply Forall_forall. intros c Hc. rewrite forallb_forall in Hl.
    apply list_elem_of_In in Hc. specialize (Hl c Hc). apply andb_true_iff in Hl as [H1 H2].
    apply negb_true_iff in H1, H2. apply Z.eqb_neq in H2. by split. }
  split_and!.
  - by repeat constructor.
  - repeat (apply Forall_cons_2; [split; [by repeat constructor |] |]); [..| apply Forall_nil_2]; cbn [snd arg_ok].
    + split; [eexists _, _; split; [reflexivity | done] | by apply H].
    + split; [eexists _, _; split; [reflexivity | done] | by apply H].
    + split; [reflexivity |]. repeat (apply Forall_cons_2; [discriminate |]). apply Forall_nil_2.
  - repeat (apply Forall_cons_2; [discriminate |]). apply Forall_nil_2.
Qed.

Lemma msh_split_roundtrip_witness :
  ∃ argv a', msh_split 0 18 (cmd_text demo_args [BLANK] ++ [0]) = Ok (argv, a') ∧
    mapM (c_str a') argv = Ok [lit "show"; lit "a"; lit "b " ++ [BACKSLASH; QUOTE] ++ lit " c"].
Proof.
  destruct (msh_split_roundtrip [] demo_args [BLANK] [] demo_spaced) as (argv & a' & E & V & _).
  exists argv, a'. split; [exact E | exact V].
Defined.

Lemma msh_exec_spec_witness :
  ∃ a', msh_exec demo_commands demo_run 0 18 (cmd_text demo_args [BLANK] ++ [0]) demo_msh =
    Ok (3, a', kprintf (lit "show|a|b " ++ [BACKSLASH; QUOTE] ++ lit " c|" ++ [NL]) demo_msh).
Proof.
  exact (msh_exec_spec demo_commands demo_run [BLANK] (lit "show") (tail demo_args) [BLANK] [] demo_msh demo_spaced
    ltac:(vm_compute; reflexivity)).
Defined.

Lemma msh_auto_complete_spec_witness :
  ∃ r, common_prefix [lit "show"; lit "shot"] r ∧ lit "s" `prefix_of` r ∧
    msh_auto_complete demo_commands (lit "s" ++ replicate 79 0) demo_msh =
      Ok (r ++ replicate (80 - length r) 0, kprintf (lit "shot" ++ [NL]) (kprintf (lit "show" ++ [NL]) demo_msh)).
Proof.
  destruct (msh_auto_complete_spec demo_commands (lit "s") 79 demo_msh) as [[E _] | (r & Hc & Hp & E)].
  - discriminate.
  - by apply Forall_singleton.
  - lia.
  - vm_compute. repeat constructor.
  - discriminate E.
  - exists r. split; [exact Hc | split; [exact Hp | exact E]].
Defined.
