(* ===== verification/Shell.v ===== *)
(** * The line editor of the shell: [components/finsh/shell.c]

    One character of [finsh_thread_entry] is the definition [shell_char]; the
    characters that wait in the device are the list [input], from which the CR key
    takes one more.  The kinds of keys that [continue] are definitions of their own.
    What a line does is [Msh.msh_exec] or [FinshParser.finsh_run_line]. *)
From Stdlib Require Import Ascii String.
From stdpp Require Import strings.
From S2P Require Import Prelude KString FinshVm FinshCompiler FinshToken FinshParser Msh.
Local Open Scope Z_scope.

Definition FINSH_CMD_SIZE : nat := 80.
Definition FINSH_HISTORY_LINES : nat := 5.

Inductive input_stat := WAIT_NORMAL | WAIT_SPEC_KEY | WAIT_FUNC_KEY.
#[global] Instance input_stat_eq_dec : EqDecision input_stat.
Proof. solve_decision. Defined.

(** [struct finsh_shell]; its parser is that of the [console], the device is the
    list of the characters it has received. *)
Record finsh_shell := mk_shell {
  stat : input_stat; echo_mode : Z;
  current_history : Z; history_count : Z; cmd_history : list (list Z);
  line : list Z; line_position : Z; line_curpos : Z }.
Definition set_stat (x : input_stat) (sh : finsh_shell) : finsh_shell :=
  mk_shell x (echo_mode sh) (current_history sh) (history_count sh) (cmd_history sh) (line sh)
    (line_position sh) (line_curpos sh).
Definition set_line (l : list Z) (position curpos : Z) (sh : finsh_shell) : finsh_shell :=
  mk_shell (stat sh) (echo_mode sh) (current_history sh) (history_count sh) (cmd_history sh) l position curpos.
Definition set_history (current count : Z) (h : list (list Z)) (sh : finsh_shell) : finsh_shell :=
  mk_shell (stat sh) (echo_mode sh) current count h (line sh) (line_position sh) (line_curpos sh).

(** [memset(shell, 0, ...)] of [finsh_system_init], and the echo that the thread
    switches on. *)
Definition new_shell : finsh_shell :=
  mk_shell WAIT_NORMAL 1 0 0 (replicate FINSH_HISTORY_LINES (replicate FINSH_CMD_SIZE 0))
    (replicate FINSH_CMD_SIZE 0) 0 0.

(** The field has one bit. *)
Definition finsh_set_echo (echo : Z) (sh : finsh_shell) : finsh_shell :=
  mk_shell (stat sh) (echo `mod` 2) (current_history sh) (history_count sh) (cmd_history sh) (line sh)
    (line_position sh) (line_curpos sh).
Definition finsh_get_echo (sh : finsh_shell) : Z := echo_mode sh.
Definition echoes (sh : finsh_shell) : bool := negb (echo_mode sh =? 0).

Definition finsh_get_prompt (con : console) : list Z :=
  (if msh_is_used con then lit "msh " else lit "finsh ") ++ lit ">".
Definition FINSH_PROMPT (con : console) : console := kprintf (finsh_get_prompt con) con.

Definition ESC : Z := 27.
Definition BS : Z := 8.
Definition CR : Z := 13.

(** [memmove] inside an array. *)
Definition move_chars (dst src n : Z) (a : list Z) : res (list Z) :=
  _ ← require OutOfBounds ((0 <=? src) && (src + n <=? Z.of_nat (length a)));
  put_chars dst (take (Z.to_nat n) (drop (Z.to_nat src) a)) a.
(** [for (...) rt_kprintf("\b");], [n] times. *)
Definition cursor_back (n : Z) (con : console) : console := Nat.iter (Z.to_nat n) (kprintf [BS]) con.

Section shell.
Context (env : symbols) (run_cmd : Z → list (list Z) → console → res (Z * console)).
Context (call : Z → list Z → gmap Z Z → res (Z * gmap Z Z)) (fuel : nat).

(** ** History *)
Definition shell_handle_history (sh : finsh_shell) (con : console) : res console :=
  let con := kprintf (ESC :: lit "[2K" ++ [CR]) con in
  l ← c_str (line sh) 0;
  Ok (kprintf (finsh_get_prompt con ++ l) con).

(** [memset] of a row and [memcpy] of the line into it. *)
Definition history_row (sh : finsh_shell) : res (list Z) :=
  put_chars 0 (take (Z.to_nat (line_position sh)) (line sh)) (replicate FINSH_CMD_SIZE 0).
Definition shell_push_history (sh : finsh_shell) : res finsh_shell :=
  sh ← (if line_position sh =? 0 then Ok sh else
        _ ← require OutOfBounds (line_position sh <=? Z.of_nat FINSH_CMD_SIZE);
        row ← history_row sh;
        if Z.of_nat FINSH_HISTORY_LINES <=? history_count sh then
          Ok (set_history (current_history sh) (Z.of_nat FINSH_HISTORY_LINES) (tail (cmd_history sh) ++ [row]) sh)
        else
          let i := Z.to_nat (history_count sh) in
          Ok (set_history (current_history sh) (u16 (history_count sh + 1)) (<[i := row]> (cmd_history sh)) sh));
  Ok (set_history (history_count sh) (history_count sh) (cmd_history sh) sh).

(** The row [current] becomes the line. *)
Definition recall (current : Z) (sh : finsh_shell) (con : console) : res (finsh_shell * console) :=
  row ← of_option OutOfBounds (cmd_history sh !! Z.to_nat current);
  l ← c_str row 0;
  let n := u8 (Z.of_nat (length l)) in
  let sh := set_line row n n (set_history current (history_count sh) (cmd_history sh) sh) in
  con ← shell_handle_history sh con;
  Ok (sh, con).
Definition key_up (sh : finsh_shell) (con : console) : res (finsh_shell * console) :=
  if 0 <? current_history sh then recall (current_history sh - 1) sh con else Ok (sh, con).
Definition key_down (sh : finsh_shell) (con : console) : res (finsh_shell * console) :=
  if current_history sh <? history_count sh - 1 then recall (u16 (current_history sh + 1)) sh con
  else if negb (history_count sh =? 0) then recall (history_count sh - 1) sh con
  else Ok (sh, con).

(** ** Moving and deleting *)
Definition key_left (sh : finsh_shell) (con : console) : finsh_shell * console :=
  if line_curpos sh =? 0 then (sh, con)
  else (set_line (line sh) (line_position sh) (line_curpos sh - 1) sh, kprintf [BS] con).
Definition key_right (sh : finsh_shell) (con : console) : res (finsh_shell * console) :=
  if line_curpos sh <? line_position sh then
    c ← char_of (line sh) (line_curpos sh);
    Ok (set_line (line sh) (line_position sh) (u8 (line_curpos sh + 1)) sh, kprintf [c] con)
  else Ok (sh, con).

Definition key_backspace (sh : finsh_shell) (con : console) : res (finsh_shell * console) :=
  if line_curpos sh =? 0 then Ok (sh, con) else
  let position := u8 (line_position sh - 1) in
  let curpos := u8 (line_curpos sh - 1) in
  if curpos <? position then
    l ← move_chars curpos (curpos + 1) (position - curpos) (line sh);
    l ← put_char position 0 l;
    rest ← c_str l curpos;
    let con := kprintf (BS :: rest ++ lit "  " ++ [BS]) con in
    Ok (set_line l position curpos sh, cursor_back (position - curpos + 1) con)
  else
    let con := kprintf (BS :: lit " " ++ [BS]) con in
    l ← put_char position 0 (line sh);
    Ok (set_line l position curpos sh, con).

Definition key_tab (sh : finsh_shell) (con : console) : res (finsh_shell * console) :=
  let con := kprintf [NL] (cursor_back (line_curpos sh) con) in
  '(l, con) ← (if msh_is_used con then msh_auto_complete env (line sh) con else list_prefix env (line sh) con);
  text ← c_str l 0;
  let n := u8 (Z.of_nat (length text)) in
  Ok (set_line l n n sh, kprintf (finsh_get_prompt con ++ text) con).

(** ** A normal character *)
Definition key_char (ch : Z) (sh : finsh_shell) (con : console) : res (finsh_shell * console) :=
  let position := if Z.of_nat FINSH_CMD_SIZE <=? line_position sh then 0 else line_position sh in
  let curpos := line_curpos sh in
  '(l, con) ←
    (if curpos <? position then
       l ← move_chars (curpos + 1) curpos (position - curpos) (line sh);
       l ← put_char curpos ch l;
       con ← (if echoes sh then text ← c_str l curpos; Ok (kprintf text con) else Ok con);
       Ok (l, cursor_back (position - curpos) con)
     else
       l ← put_char position ch (line sh);
       Ok (l, if echoes sh then kprintf [ch] con else con));
  let position := u8 (position + 1) in
  let curpos := u8 (curpos + 1) in
  Ok (if Z.of_nat FINSH_CMD_SIZE <=? position then (set_line l 0 0 sh, con) else (set_line l position curpos sh, con)).

(** ** The end of a line *)
Definition finsh_error_string_table : list (list Z) :=
  [lit "No error"; lit "Invalid token"; lit "Expect a type"; lit "Unknown type"; lit "Variable exist";
   lit "Expect a operater"; lit "Memory full"; lit "Unknown operator"; lit "Unknown node"; lit "Expect a character";
   lit "Unexpect end"; lit "Unknown token"; lit "Float not supported"; lit "Unknown symbol"; lit "Null node"].
Definition finsh_error_string (e : Z) : res (list Z) :=
  of_option OutOfBounds (finsh_error_string_table !! Z.to_nat e).

(** [%d] and [0x%08x], as [KString.print_number] lays them out. *)
Definition show_d (v : Z) : res (list Z) :=
  tmp ← number_digits false (Z.abs (s32 v)) 10; Ok (layout (sign_of (s32 v) SIGN) SIGN (-1) (-1) tmp).
Definition show_08x (v : Z) : res (list Z) :=
  tmp ← number_digits false (u32 v) 16; Ok (lit "0x" ++ layout None ZEROPAD 8 (-1) tmp).
Definition show_value (v : Z) : res (list Z) :=
  d ← show_d v; x ← show_08x v;
  let ch := s8 v in
  Ok (TAB :: (if (0x20 <? ch) && (ch <? 0x7e) then lit "'" ++ [ch] ++ lit "', " else []) ++ d ++ lit ", " ++ x ++ [NL]).
Definition show_answer (r : answer) : res (list Z) :=
  match r with
  | Value v => show_value v
  | Error e => text ← finsh_error_string e; Ok (text ++ [NL])
  | Unreported _ => Ok []
  end.

Definition run_finsh_line (sh : finsh_shell) (con : console) : res console :=
  let con := if echoes sh then kprintf [NL] con else con in
  text ← c_str (line sh) 0;
  '(r, p, v) ← finsh_run_line env call fuel text (c_parser con) (c_vm con);
  out ← show_answer r;
  Ok (kprintf out (mk_console (__msh_state con) (printed con) p v)).

Definition key_enter (sh : finsh_shell) (con : console) : res (finsh_shell * console) :=
  sh ← shell_push_history sh;
  con ←
    (if msh_is_used con then
       let con := if echoes sh then kprintf [NL] con else con in
       '(_, _, con) ← msh_exec env run_cmd 0 (line_position sh) (line sh) con;
       Ok con
     else
       l ← put_char (line_position sh) (chr ";") (line sh);
       if negb (line_position sh =? 0) then run_finsh_line (set_line l (line_position sh) (line_curpos sh) sh) con
       else Ok (if echoes sh then kprintf [NL] con else con));
  Ok (set_line (replicate FINSH_CMD_SIZE 0) 0 0 sh, FINSH_PROMPT con).

(** ** One character *)

(** The part of the key that comes after CR has been replaced; the last result
    says whether the line was run ([break]). *)
Definition plain_key (ch : Z) (sh : finsh_shell) (con : console) : res (finsh_shell * console * bool) :=
  if (ch =? CR) || (ch =? NL) then '(sh, con) ← key_enter sh con; Ok (sh, con, true)
  else '(sh, con) ← key_char ch sh con; Ok (sh, con, false).

(** CR: the next character, if one is there, takes its place. *)
Definition shell_char (ch : Z) (input : list Z) (sh : finsh_shell) (con : console)
    : res (list Z * finsh_shell * console * bool) :=
  if ch =? ESC then Ok (input, set_stat WAIT_SPEC_KEY sh, con, false)
  else if bool_decide (stat sh = WAIT_SPEC_KEY) && (ch =? 0x5b) then Ok (input, set_stat WAIT_FUNC_KEY sh, con, false)
  else
    let func := bool_decide (stat sh = WAIT_FUNC_KEY) in
    let sh := set_stat WAIT_NORMAL sh in
    let continue (m : res (finsh_shell * console)) := '(sh, con) ← m; Ok (input, sh, con, false) in
    if func && (ch =? 0x41) then continue (key_up sh con)
    else if func && (ch =? 0x42) then continue (key_down sh con)
    else if func && (ch =? 0x44) then continue (Ok (key_left sh con))
    else if func && (ch =? 0x43) then continue (key_right sh con)
    else if ch =? CR then
      match input with
      | next :: input =>
          '(sh, con, b) ← plain_key (if next =? 0 then CR else next) sh con; Ok (input, sh, con, b)
      | [] => '(sh, con, b) ← plain_key CR sh con; Ok ([], sh, con, b)
      end
    else if ch =? TAB then continue (key_tab sh con)
    else if (ch =? 0x7f) || (ch =? BS) then continue (key_backspace sh con)
    else '(sh, con, b) ← plain_key ch sh con; Ok (input, sh, con, b).

(** The inner loop of [finsh_thread_entry]: until nothing is left to read or a
    line has been run; the result begins with what stays in the device. *)
Fixpoint read_chars (n : nat) (input : list Z) (sh : finsh_shell) (con : console)
    : res (list Z * finsh_shell * console) :=
  match input, n with
  | [], _ => Ok ([], sh, con)
  | _, O => Stop OutOfFuel
  | ch :: input, S n =>
      '(input, sh, con, stop) ← shell_char ch input sh con;
      if (stop : bool) then Ok (input, sh, con) else read_chars n input sh con
  end.
Definition shell_read (input : list Z) (sh : finsh_shell) (con : console) : res (list Z * finsh_shell * console) :=
  read_chars (length input) input sh con.

(** The outer loop: [rx_sem] has been released [tokens] times. *)
Fixpoint finsh_thread (tokens : nat) (input : list Z) (sh : finsh_shell) (con : console)
    : res (list Z * finsh_shell * console) :=
  match tokens with
  | O => Ok (input, sh, con)
  | S tokens => '(input, sh, con) ← shell_read input sh con; finsh_thread tokens input sh con
  end.
Definition finsh_thread_entry (tokens : nat) (input : list Z) (con : console) : res (list Z * finsh_shell * console) :=
  finsh_thread tokens input new_shell (FINSH_PROMPT con).
End shell.
