(* ===== verification/ShellProps.v ===== *)
(** * The line editor refines a line with a cursor

    [ed] is the abstract editor: the text left of the cursor (backwards), the text
    right of it, the lines of the history.  Typing the keys of a list on the shell
    of [Shell] leaves the line that [edit] says, on the terminal as in memory, and
    the enter key runs exactly that line. *)
From Stdlib Require Import Ascii String.
From stdpp Require Import strings.
From S2P Require Import Prelude KString FinshVm FinshCompiler FinshToken FinshParser FinshSyntax FinshProps FinshLine Msh Shell.
Local Open Scope Z_scope.

(** ** The terminal at the other end of the line

    One row of characters, the cursor, and the bytes of an escape sequence that is
    not complete: printable characters, [\b], [\r], [\n] and [ESC [2K] (erase the
    line) are what the shell sends. *)
Record term := mk_term { cell : nat → Z; col : nat; pending : list Z }.
Definition blank_row : nat → Z := λ _, BLANK.
Definition feed (t : term) (c : Z) : term :=
  match pending t with
  | [] =>
      if c =? ESC then mk_term (cell t) (col t) [ESC]
      else if c =? BS then mk_term (cell t) (pred (col t)) []
      else if c =? CR then mk_term (cell t) 0 []
      else if c =? NL then mk_term blank_row 0 []
      else mk_term (λ i, if (i =? col t)%nat then c else cell t i) (S (col t)) []
  | [_] => mk_term (cell t) (col t) (if c =? 0x5b then [ESC; c] else [])
  | [_; _] => mk_term (cell t) (col t) (if c =? chr "2" then [ESC; 0x5b; c] else [])
  | _ => mk_term (if c =? chr "K" then blank_row else cell t) (col t) []
  end.
Definition feeds (l : list Z) (t : term) : term := fold_left feed l t.
Definition screen (con : console) : term := feeds (printed con) (mk_term blank_row 0 []).

Definition visible (c : Z) : Prop := 32 <= c < 127.

(** The row reads [s] (and blanks behind it), the cursor is in column [c]. *)
Record shows (t : term) (s : list Z) (c : nat) : Prop := {
  sh_cells i : cell t i = nth i s BLANK;
  sh_col : col t = c;
  sh_pending : pending t = [] }.

Lemma feeds_app l l' t : feeds (l ++ l') t = feeds l' (feeds l t).
Proof. apply fold_left_app. Qed.

Lemma feed_visible c t : visible c → pending t = [] →
  feed t c = mk_term (λ i, if (i =? col t)%nat then c else cell t i) (S (col t)) [].
Proof.
  intros Hc Hp. unfold feed. rewrite Hp. unfold visible, ESC, BS, CR, NL in *.
  by rewrite !(proj2 (Z.eqb_neq _ _)) by lia.
Qed.

(** Writing [t] over the row from the column on. *)
Lemma feeds_text l : ∀ t a b,
  Forall visible l → shows t (a ++ b) (length a) →
  shows (feeds l t) (a ++ l ++ drop (length l) b) (length a + length l).
Proof.
  induction l as [| c l IH]; intros t a b Hl Hs; cbn [feeds fold_left app length drop].
  - by rewrite Nat.add_0_r.
  - apply Forall_cons in Hl as [Hc Hl]. destruct Hs as [Hcell Hcol Hp]. rewrite feed_visible by done.
    specialize (IH (mk_term (λ i, if (i =? col t)%nat then c else cell t i) (S (col t)) []) (a ++ [c]) (drop 1 b) Hl).
    rewrite <- !app_assoc, drop_drop, length_app, <- Nat.add_assoc in IH. cbn [length app Nat.add] in IH.
    apply IH. split; cbn [cell col pending]; [| by rewrite Hcol, Nat.add_1_r | done].
    intros i. rewrite Hcell, Hcol. destruct (Nat.eqb_spec i (length a)) as [-> | Hne].
    + by rewrite app_nth2, Nat.sub_diag by lia.
    + destruct (decide (i < length a)%nat); [by rewrite !app_nth1 by lia |].
      rewrite !app_nth2 by lia. destruct (i - length a)%nat as [| j] eqn:E; [lia |]. cbn [app nth].
      by destruct b; [destruct j |].
Qed.

Lemma shows_blanks t s n c : shows t (s ++ replicate n BLANK) c → shows t s c.
Proof.
  intros [Hcell Hcol Hp]. split; [| done..]. intros i. rewrite Hcell.
  destruct (decide (i < length s)%nat); [by rewrite app_nth1 |].
  rewrite app_nth2, (nth_overflow s) by lia. generalize (i - length s)%nat. clear. induction n as [| n IH]; intros [| j]; cbn; auto.
Qed.

Lemma feed_back t s c : shows t s (S c) → shows (feed t BS) s c.
Proof. intros [Hcell Hcol Hp]. unfold feed. rewrite Hp. cbn. split; cbn; [done | by rewrite Hcol | done]. Qed.
Lemma feeds_back n : ∀ t s c, shows t s (c + n) → shows (feeds (replicate n BS) t) s c.
Proof.
  induction n as [| n IH]; intros t s c Hs; cbn [replicate feeds fold_left].
  - by rewrite Nat.add_0_r in Hs.
  - apply IH, feed_back. by rewrite <- Nat.add_succ_r.
Qed.

(** The line is erased and the cursor goes to its start. *)
Lemma feeds_erase t s c : shows t s c → shows (feeds (ESC :: lit "[2K" ++ [CR]) t) [] 0.
Proof. intros [_ _ Hp]. destruct t as [ce co pe]. cbn in Hp. subst. split; [by intros [] | done | done]. Qed.

(** ** Printing *)
Record same_world (con con' : console) : Prop := {
  sw_msh : __msh_state con' = __msh_state con;
  sw_parser : c_parser con' = c_parser con;
  sw_vm : c_vm con' = c_vm con }.
#[global] Instance same_world_preorder : PreOrder same_world.
Proof. split; [done |]. intros a b c [? ? ?] [? ? ?]. split; congruence. Qed.

Lemma kprintf_same text con : same_world con (kprintf text con).
Proof. done. Qed.
Lemma cursor_back_same n con : same_world con (cursor_back n con).
Proof. unfold cursor_back. induction (Z.to_nat n); [done |]. cbn. etrans; [done |]. apply kprintf_same. Qed.

Lemma screen_kprintf text con :
  (length text <= 126)%nat → screen (kprintf text con) = feeds text (screen con).
Proof.
  intros Hl. unfold screen, kprintf. cbn [printed]. unfold CONSOLEBUF_SIZE.
  rewrite (proj2 (Z.ltb_lt _ _)) by lia. apply feeds_app.
Qed.
Lemma screen_cursor_back n con : screen (cursor_back n con) = feeds (replicate (Z.to_nat n) BS) (screen con).
Proof.
  unfold cursor_back. induction (Z.to_nat n) as [| m IH]; [done |]. cbn [Nat.iter].
  change (Nat.iter (S m) (kprintf [BS]) con) with (kprintf [BS] (Nat.iter m (kprintf [BS]) con)).
  rewrite screen_kprintf, IH by (cbn; lia). rewrite <- feeds_app, <- replicate_S_end. done.
Qed.

(** ** Moving chars inside the line *)
Lemma put_chars_mid i l d m r :
  i = Z.of_nat (length d) → length m = length l → put_chars i l (d ++ m ++ r) = Ok (d ++ l ++ r).
Proof.
  intros -> Hm. unfold put_chars.
  replace ((0 <=? Z.of_nat (length d)) && _) with true
    by (symmetry; apply andb_true_iff; split; apply Z.leb_le; rewrite ?length_app; lia).
  cbn [require mbind res_bind]. rewrite Nat2Z.id, take_app_length, <- Hm.
  by rewrite (app_assoc d m r), <- length_app, drop_app_length.
Qed.

Lemma move_up a b z :
  ∃ x, move_chars (Z.of_nat (length a) + 1) (Z.of_nat (length a)) (Z.of_nat (length b)) (a ++ b ++ 0 :: z) =
    Ok (a ++ x :: b ++ z).
Proof.
  unfold move_chars.
  replace ((0 <=? Z.of_nat (length a)) && _) with true
    by (symmetry; apply andb_true_iff; split; apply Z.leb_le; rewrite ?length_app; lia).
  cbn [require mbind res_bind]. rewrite !Nat2Z.id, drop_app_length, take_app_length.
  assert (H : ∃ x m, b ++ 0 :: z = x :: m ++ z ∧ length m = length b).
  { destruct b as [| x b]; [by exists 0, [] |]. exists x, (b ++ [0]). rewrite length_app. cbn. rewrite <- app_assoc.
    split; [done | lia]. }
  destruct H as (x & m & -> & Hm). exists x. rewrite snoc_app, put_chars_mid; [| rewrite length_app; cbn; lia | done].
  by rewrite <- app_assoc.
Qed.

Lemma move_down a x b z :
  ∃ y, move_chars (Z.of_nat (length a)) (Z.of_nat (length a) + 1) (Z.of_nat (length b)) (a ++ x :: b ++ z) =
    Ok (a ++ b ++ y :: z).
Proof.
  unfold move_chars.
  replace ((0 <=? Z.of_nat (length a) + 1) && _) with true
    by (symmetry; apply andb_true_iff; split; apply Z.leb_le; rewrite ?length_app; cbn [length]; rewrite ?length_app; lia).
  cbn [require mbind res_bind]. rewrite Nat2Z.id.
  assert (H : ∃ m y, x :: b = m ++ [y] ∧ length m = length b).
  { destruct (exists_last (l := x :: b)) as (m & y & E); [done |]. exists m, y. split; [done |].
    apply (f_equal length) in E. rewrite length_app in E. cbn in E. lia. }
  destruct H as (m & y & E & Hm). exists y.
  rewrite (snoc_app a x). replace (Z.to_nat (Z.of_nat (length a) + 1)) with (length (a ++ [x])) by (rewrite length_app; cbn; lia).
  rewrite drop_app_length, take_app_length, <- (snoc_app a x), (app_comm_cons b z x), E, <- app_assoc.
  by rewrite put_chars_mid.
Qed.

(** ** The abstract editor *)
Inductive key := KChar (c : Z) | KLeft | KRight | KBackspace | KUp | KDown.
Record ed := mk_ed { left : list Z; right : list Z; hist : list (list Z); here : nat }.
Definition text (e : ed) : list Z := reverse (left e) ++ right e.
Definition ed_recall (i : nat) (e : ed) : ed :=
  match hist e !! i with Some h => mk_ed (reverse h) [] (hist e) i | None => e end.

(** A line of 80 characters is thrown away by the code: not an edit. *)
Definition edit (e : ed) (k : key) : option ed :=
  match k with
  | KChar c => if (S (length (text e)) <? FINSH_CMD_SIZE)%nat then Some (mk_ed (c :: left e) (right e) (hist e) (here e)) else None
  | KLeft => Some match left e with [] => e | c :: l => mk_ed l (c :: right e) (hist e) (here e) end
  | KRight => Some match right e with [] => e | c :: r => mk_ed (c :: left e) r (hist e) (here e) end
  | KBackspace => Some match left e with [] => e | c :: l => mk_ed l (right e) (hist e) (here e) end
  | KUp => Some match here e with O => e | S i => ed_recall i e end
  | KDown => Some (if (S (here e) <? length (hist e))%nat then ed_recall (S (here e)) e else ed_recall (pred (length (hist e))) e)
  end.
Definition key_bytes (k : key) : list Z :=
  match k with
  | KChar c => [c] | KBackspace => [0x7f]
  | KUp => [ESC; 0x5b; 0x41] | KDown => [ESC; 0x5b; 0x42] | KRight => [ESC; 0x5b; 0x43] | KLeft => [ESC; 0x5b; 0x44]
  end.
Definition key_ok (k : key) : Prop := match k with KChar c => visible c | _ => True end.

(** A text in an array of 80 chars. *)
Definition row (l : list Z) : list Z := l ++ replicate (FINSH_CMD_SIZE - length l) 0.
Definition line_ok (l : list Z) : Prop := (length l < FINSH_CMD_SIZE)%nat ∧ Forall visible l.

Record edits (sh : finsh_shell) (e : ed) : Prop := {
  ed_stat : stat sh = WAIT_NORMAL;
  ed_echo : echoes sh = true;
  ed_line : line sh = row (text e);
  ed_text : line_ok (text e);
  ed_position : line_position sh = Z.of_nat (length (text e));
  ed_curpos : line_curpos sh = Z.of_nat (length (left e));
  ed_count : history_count sh = Z.of_nat (length (hist e)) ∧ (length (hist e) <= FINSH_HISTORY_LINES)%nat;
  ed_here : current_history sh = Z.of_nat (here e) ∧ (here e <= length (hist e))%nat;
  ed_rows : length (cmd_history sh) = FINSH_HISTORY_LINES;
  ed_hist i h : hist e !! i = Some h → cmd_history sh !! i = Some (row h) ∧ line_ok h;
}.
Definition before_cursor (con : console) (e : ed) : list Z := finsh_get_prompt con ++ reverse (left e).
Definition shown (con : console) (e : ed) : Prop :=
  shows (screen con) (before_cursor con e ++ right e) (length (before_cursor con e)).

(** What a key does to the shell and the terminal. *)
Definition refines_key (e' : ed) (con : console) (r : res (finsh_shell * console)) : Prop :=
  ∃ sh' con', r = Ok (sh', con') ∧ edits sh' e' ∧ shown con' e' ∧ same_world con con'.

Lemma visible_nonzero l : Forall visible l → Forall (λ c, c ≠ 0) l.
Proof. intros H. eapply Forall_impl; [exact H |]. unfold visible. lia. Qed.
Lemma row_str l : line_ok l → c_str (row l) 0 = Ok l.
Proof.
  intros [Hl Hv]. unfold row. destruct (FINSH_CMD_SIZE - length l)%nat as [| n] eqn:E; [lia |].
  apply (c_str_at 0 []); [done |]. by apply visible_nonzero.
Qed.
Lemma length_row l : (length l <= FINSH_CMD_SIZE)%nat → length (row l) = FINSH_CMD_SIZE.
Proof. intros Hl. unfold row. rewrite length_app, length_replicate. lia. Qed.
(** A NUL behind the text. *)
Lemma row_snoc l : (length l < FINSH_CMD_SIZE)%nat → row l = l ++ 0 :: replicate (FINSH_CMD_SIZE - S (length l)) 0.
Proof. intros Hl. unfold row. by replace (FINSH_CMD_SIZE - length l)%nat with (S (FINSH_CMD_SIZE - S (length l))) by lia. Qed.

Lemma prompt_same con con' : same_world con con' → finsh_get_prompt con' = finsh_get_prompt con.
Proof. intros [E _ _]. unfold finsh_get_prompt, msh_is_used. by rewrite E. Qed.
Lemma prompt_visible con : Forall visible (finsh_get_prompt con) ∧ (length (finsh_get_prompt con) <= 7)%nat.
Proof.
  unfold finsh_get_prompt. destruct (msh_is_used con); split; try (vm_compute; lia).
  all: cbn; repeat (apply Forall_cons_2; [unfold visible, chr; cbn; lia |]); apply Forall_nil_2.
Qed.

Lemma before_same con con' e : same_world con con' → before_cursor con' e = before_cursor con e.
Proof. intros Hw. unfold before_cursor. by rewrite (prompt_same con). Qed.

(** ** Each key *)
Section keys.
Context (sh : finsh_shell) (con : console) (e : ed) (He : edits sh e) (Hs : shown con e).

Lemma text_length : length (text e) = (length (left e) + length (right e))%nat.
Proof. unfold text. by rewrite length_app, length_reverse. Qed.

(** A key that changes only the line. *)
Lemma edits_to e' l p c :
  hist e' = hist e → here e' = here e → line_ok (text e') →
  l = row (text e') → p = Z.of_nat (length (text e')) → c = Z.of_nat (length (left e')) →
  edits (set_line l p c sh) e'.
Proof. intros Eh Ee Hl -> -> ->. destruct He. split; cbn; rewrite ?Eh, ?Ee; done. Qed.

Lemma cursor_u8 n : (n <= FINSH_CMD_SIZE)%nat → u8 (Z.of_nat n) = Z.of_nat n.
Proof. unfold FINSH_CMD_SIZE, u8. lia. Qed.

Lemma left_ok : refines_key (match left e with [] => e | c :: l => mk_ed l (c :: right e) (hist e) (here e) end) con
  (Ok (key_left sh con)).
Proof.
  unfold key_left. rewrite (ed_curpos _ _ He). unfold shown in Hs.
  destruct (left e) as [| c l] eqn:El; cbn [length Z.of_nat].
  - by exists sh, con.
  - rewrite (proj2 (Z.eqb_neq _ 0)) by lia.
    assert (E : text (mk_ed l (c :: right e) (hist e) (here e)) = text e)
      by (unfold text; by rewrite El, reverse_cons, <- app_assoc).
    eexists _, _. split; [done |]. split_and!; [| | done].
    + apply edits_to; rewrite ?E; try apply He; try done. cbn [left]. lia.
    + unfold shown, before_cursor. rewrite (prompt_same con) by done. rewrite screen_kprintf by (cbn; lia).
      apply feed_back. unfold before_cursor in Hs. rewrite El, reverse_cons in Hs.
      rewrite !length_app in *. cbn [left right length] in *. rewrite <- !app_assoc in *.
      by rewrite Nat.add_1_r, Nat.add_succ_r in Hs.
Qed.

Lemma right_ok : refines_key (match right e with [] => e | c :: r => mk_ed (c :: left e) r (hist e) (here e) end) con
  (key_right sh con).
Proof.
  unfold key_right. pose proof (ed_curpos _ _ He) as Hc. pose proof (ed_position _ _ He) as Hp.
  pose proof (ed_text _ _ He) as [Hl Hv]. pose proof text_length as Ht. unfold shown in Hs.
  destruct (right e) as [| c r] eqn:Er; cbn [length] in Ht.
  - rewrite (proj2 (Z.ltb_ge _ _)) by lia. exists sh, con. unfold shown. by rewrite Er.
  - rewrite (proj2 (Z.ltb_lt _ _)) by lia.
    assert (E : text (mk_ed (c :: left e) r (hist e) (here e)) = text e)
      by (unfold text; cbn [left right]; by rewrite Er, reverse_cons, <- app_assoc).
    assert (E' : text e = reverse (left e) ++ c :: r) by (unfold text; by rewrite Er).
    assert (Hc' : visible c) by (rewrite E' in Hv; by apply Forall_app in Hv as [_ [? _]%Forall_cons]).
    rewrite (ed_line _ _ He). unfold row. rewrite E', <- app_assoc at 1. cbn [app].
    rewrite char_of_at by (by rewrite length_reverse). cbn [mbind res_bind].
    eexists _, _. split; [reflexivity |]. split_and!; [| | done].
    + apply edits_to; rewrite ?E; try apply He; try done. cbn [left length].
      rewrite Hc, <- (cursor_u8 (S (length (left e)))) by lia. f_equal. lia.
    + unfold shown, before_cursor. rewrite (prompt_same con) by done. rewrite screen_kprintf by (cbn; lia).
      apply (feeds_text [c]) in Hs; [| by apply Forall_singleton].
      cbn [drop length app left right] in *. unfold before_cursor in Hs.
      rewrite reverse_cons, (app_assoc _ _ [c]), length_app, <- (app_assoc _ [c]). done.
Qed.
(** The texts on both sides of the cursor are visible. *)
Lemma sides_visible : Forall visible (left e) ∧ Forall visible (right e).
Proof.
  destruct (ed_text _ _ He) as [_ Hv]. unfold text in Hv. apply Forall_app in Hv as [Hl Hr]. by rewrite Forall_reverse in Hl.
Qed.

Definition inserted (c : Z) : ed := mk_ed (c :: left e) (right e) (hist e) (here e).

Lemma inserted_text c :
  text (inserted c) = reverse (left e) ++ c :: right e ∧ length (text (inserted c)) = S (length (text e)).
Proof.
  assert (E : text (inserted c) = reverse (left e) ++ c :: right e)
    by (unfold text; cbn [left right inserted]; by rewrite reverse_cons, <- app_assoc).
  split; [done |]. rewrite E, text_length, length_app, length_reverse. cbn. lia.
Qed.
Lemma inserted_before c : before_cursor con (inserted c) = before_cursor con e ++ [c].
Proof. unfold before_cursor. cbn [left inserted]. by rewrite reverse_cons, app_assoc. Qed.

(** The new character and what is behind it are written, and the cursor goes back. *)
Lemma shown_insert c :
  visible c →
  shows (feeds (replicate (length (right e)) BS) (feeds (c :: right e) (screen con)))
    (before_cursor con (inserted c) ++ right e) (length (before_cursor con (inserted c))).
Proof.
  intros Hc. pose proof sides_visible as [_ Hv]. pose proof Hs as Hs'.
  apply (feeds_text (c :: right e)) in Hs'; [| by apply Forall_cons_2].
  rewrite drop_ge, app_nil_r in Hs' by (cbn; lia). apply feeds_back.
  rewrite inserted_before, <- app_assoc, length_app. cbn [length app] in *.
  replace (length (before_cursor con e) + 1 + length (right e))%nat
    with (length (before_cursor con e) + S (length (right e)))%nat by lia. done.
Qed.

Lemma insert_done c con' :
  visible c → (S (length (text e)) < FINSH_CMD_SIZE)%nat → shown con' (inserted c) → same_world con con' →
  let position := u8 (Z.of_nat (length (text e)) + 1) in
  let curpos := u8 (Z.of_nat (length (left e)) + 1) in
  let l := reverse (left e) ++ c :: right e ++ replicate (FINSH_CMD_SIZE - S (length (text e))) 0 in
  refines_key (inserted c) con
    (Ok (if Z.of_nat FINSH_CMD_SIZE <=? position then (set_line l 0 0 sh, con') else (set_line l position curpos sh, con'))).
Proof.
  intros Hc Hlen Hs' Hw position curpos l. pose proof text_length as Ht. destruct (inserted_text c) as [Et El].
  assert (Hp : position = Z.of_nat (length (text (inserted c)))) by (unfold position; rewrite El, <- (cursor_u8 (S _)) by lia; f_equal; lia).
  assert (Hcu : curpos = Z.of_nat (length (left (inserted c)))).
  { unfold curpos. cbn [left inserted length]. rewrite <- (cursor_u8 (S _)) by lia. f_equal. lia. }
  rewrite Hp, (proj2 (Z.leb_gt _ _)) by lia. eexists _, _. split; [reflexivity |]. split_and!; [| done | done].
  apply edits_to; try done.
  - split; [lia |]. rewrite Et. destruct (ed_text _ _ He) as [_ Hv]. unfold text in Hv.
    apply Forall_app in Hv as [? ?]. by apply Forall_app_2, Forall_cons_2.
  - unfold l, row. by rewrite El, Et, <- app_assoc.
Qed.

Lemma char_ok c :
  visible c → (S (length (text e)) < FINSH_CMD_SIZE)%nat → refines_key (inserted c) con (key_char c sh con).
Proof.
  intros Hc Hlen. unfold key_char. pose proof text_length as Ht. pose proof (shown_insert c Hc) as Hi.
  rewrite (ed_curpos _ _ He), (ed_position _ _ He), (ed_echo _ _ He), (ed_line _ _ He).
  rewrite (proj2 (Z.leb_gt (Z.of_nat FINSH_CMD_SIZE) (Z.of_nat (length (text e))))) by lia.
  rewrite row_snoc by lia. set (z := replicate _ 0). destruct (right e) as [| x r] eqn:Er.
  - rewrite (proj2 (Z.ltb_ge _ _)) by (cbn in Ht; lia).
    rewrite put_char_at by done. cbn [mbind res_bind].
    replace (text e ++ c :: z) with (reverse (left e) ++ c :: [] ++ z) by (unfold text; by rewrite Er, app_nil_r).
    pose proof (insert_done c (kprintf [c] con) Hc Hlen) as Hd. rewrite Er in Hd. apply Hd; [| done].
    unfold shown. rewrite screen_kprintf by (cbn; lia). cbn [right inserted]. by rewrite Er.
  - rewrite (proj2 (Z.ltb_lt _ _)) by (cbn in Ht; lia). rewrite <- Er in Ht, Hi. clear Er.
    replace (text e ++ 0 :: z) with (reverse (left e) ++ right e ++ 0 :: z) by (unfold text; by rewrite <- app_assoc).
    destruct (move_up (reverse (left e)) (right e) z) as (y & Em). rewrite length_reverse in Em.
    replace (Z.of_nat (length (text e)) - Z.of_nat (length (left e))) with (Z.of_nat (length (right e))) by lia.
    rewrite Em. cbn [mbind res_bind]. rewrite put_char_at by (by rewrite length_reverse). cbn [mbind res_bind].
    assert (Hv : Forall (λ c, c ≠ 0) (c :: right e)).
    { apply visible_nonzero, Forall_cons_2; [done | apply sides_visible]. }
    assert (Hz : ∃ z', z = 0 :: z').
    { unfold z. destruct (FINSH_CMD_SIZE - S (length (text e)))%nat eqn:E; [lia |]. cbn. eauto. }
    destruct Hz as (z' & Hz). change (c :: right e ++ z) with ((c :: right e) ++ z). rewrite Hz at 1.
    rewrite c_str_at by (done || by rewrite length_reverse). cbn [mbind res_bind].
    match goal with |- context [(_, cursor_back ?n ?c')] => set (con1 := cursor_back n c') end.
    assert (Hw : same_world con con1) by (etrans; [apply kprintf_same | apply cursor_back_same]).
    apply insert_done; try done.
    unfold shown. rewrite !(before_same con) by done. unfold con1. rewrite screen_cursor_back, Nat2Z.id, screen_kprintf; [done |]. cbn [length]. unfold FINSH_CMD_SIZE in *. lia.
Qed.

Section delete.
Context (c : Z) (l : list Z) (El : left e = c :: l).
Definition deleted : ed := mk_ed l (right e) (hist e) (here e).

Lemma deleted_text :
  text e = reverse l ++ c :: right e ∧ length (text e) = S (length (text deleted)).
Proof.
  assert (E : text e = reverse l ++ c :: right e) by (unfold text; by rewrite El, reverse_cons, <- app_assoc).
  split; [done |]. rewrite E. unfold text, deleted. cbn [left right]. rewrite !length_app. cbn. lia.
Qed.
Lemma deleted_row : row (text deleted) = text deleted ++ 0 :: replicate (FINSH_CMD_SIZE - length (text e)) 0.
Proof.
  destruct deleted_text as [_ E]. destruct (ed_text _ _ He) as [Hl _]. rewrite row_snoc by lia. by rewrite E.
Qed.

Lemma delete_done con' :
  shown con' deleted → same_world con con' →
  refines_key deleted con (Ok (set_line (text deleted ++ 0 :: replicate (FINSH_CMD_SIZE - length (text e)) 0)
    (Z.of_nat (length (text deleted))) (Z.of_nat (length l)) sh, con')).
Proof.
  intros Hs' Hw. destruct deleted_text as [E El']. destruct (ed_text _ _ He) as [Hl Hv].
  eexists _, _. split; [reflexivity |]. split_and!; [| done | done]. apply edits_to; try done; [| by rewrite deleted_row].
  split; [lia |]. rewrite E in Hv. unfold text. cbn [left right deleted].
  apply Forall_app in Hv as [? [_ ?]%Forall_cons]. by apply Forall_app_2.
Qed.

Lemma shown_back : shows (feed (screen con) BS) (before_cursor con deleted ++ c :: right e) (length (before_cursor con deleted)).
Proof.
  assert (Eb : before_cursor con e = before_cursor con deleted ++ [c])
    by (unfold before_cursor; cbn [left deleted]; by rewrite El, reverse_cons, app_assoc).
  pose proof Hs as Hs'. unfold shown in Hs'. rewrite Eb, <- app_assoc, length_app, Nat.add_1_r in Hs'.
  by apply feed_back in Hs'.
Qed.

(** Written over with blanks behind: at least one. *)
Lemma shown_delete n :
  shows (feeds (BS :: right e ++ replicate (S n) BLANK) (screen con)) (before_cursor con deleted ++ right e)
    (length (before_cursor con deleted) + (length (right e) + S n)).
Proof.
  pose proof shown_back as Hs'. apply (feeds_text (right e ++ replicate (S n) BLANK)) in Hs'.
  2: { apply Forall_app_2; [apply sides_visible |]. apply Forall_replicate. unfold visible, BLANK. lia. }
  rewrite drop_ge, app_nil_r, length_app, length_replicate in Hs' by (rewrite length_app, length_replicate; cbn; lia).
  apply (shows_blanks _ _ (S n)). by rewrite <- app_assoc.
Qed.

Lemma delete_ok : refines_key deleted con (key_backspace sh con).
Proof.
  unfold key_backspace. destruct deleted_text as [E El']. destruct (ed_text _ _ He) as [Hl _]. unfold FINSH_CMD_SIZE in Hl.
  assert (Ht : length (text deleted) = (length l + length (right e))%nat)
    by (unfold text; cbn [left right deleted]; by rewrite length_app, length_reverse).
  rewrite (ed_curpos _ _ He), (ed_position _ _ He), (ed_line _ _ He), El, El'. cbn [length].
  rewrite (proj2 (Z.eqb_neq _ 0)) by lia.
  replace (u8 (Z.of_nat (S (length (text deleted))) - 1)) with (Z.of_nat (length (text deleted)))
    by (rewrite <- (cursor_u8 (length (text deleted))) by (unfold FINSH_CMD_SIZE; lia); f_equal; lia).
  replace (u8 (Z.of_nat (S (length l)) - 1)) with (Z.of_nat (length l))
    by (rewrite <- (cursor_u8 (length l)) by (unfold FINSH_CMD_SIZE; lia); f_equal; lia).
  unfold row. pose proof delete_done as Hdone. set (z := replicate _ 0) in *.
  assert (Ez : text e ++ z = reverse l ++ c :: right e ++ z) by (rewrite E, <- app_assoc; done). rewrite Ez.
  destruct (Z.ltb_spec (Z.of_nat (length l)) (Z.of_nat (length (text deleted)))) as [Hlt | Hge].
  - destruct (move_down (reverse l) c (right e) z) as (y & Em). rewrite length_reverse in Em.
    replace (Z.of_nat (length (text deleted)) - Z.of_nat (length l)) with (Z.of_nat (length (right e))) by lia.
    rewrite Em. cbn [mbind res_bind]. rewrite app_assoc. fold (text deleted).
    change (reverse l ++ right e) with (text deleted). rewrite put_char_at by done. cbn [mbind res_bind].
    assert (Hc : c_str (text deleted ++ 0 :: z) (Z.of_nat (length l)) = Ok (right e)).
    { unfold text. cbn [left right deleted]. rewrite <- app_assoc. apply c_str_at; [by rewrite length_reverse |].
      apply visible_nonzero, sides_visible. }
    rewrite Hc. cbn [mbind res_bind].
    match goal with |- context [(_, cursor_back ?n ?c')] => set (con1 := cursor_back n c') end.
    assert (Hw : same_world con con1) by (etrans; [apply kprintf_same | apply cursor_back_same]).
    apply Hdone; [| done]. unfold shown. rewrite !(before_same con) by done. unfold con1. rewrite screen_cursor_back, screen_kprintf.
    2: { cbn [length]. rewrite !length_app. cbn. lia. }
    rewrite (app_assoc (right e)), (app_comm_cons _ [BS] BS), feeds_app. apply feeds_back, feed_back.
    pose proof (shown_delete 1) as Hd. cbn [right deleted]. replace (S (length (before_cursor con deleted) + Z.to_nat (Z.of_nat (length (right e)) + 1)))
      with (length (before_cursor con deleted) + (length (right e) + 2))%nat by lia. done.
  - destruct (right e) as [| x r] eqn:Er; [| cbn [length] in Ht; lia]. cbn [app].
    rewrite put_char_at by (rewrite length_reverse; lia). cbn [mbind res_bind].
    replace (reverse l ++ 0 :: z) with (text deleted ++ 0 :: z) by (unfold text; cbn [left right deleted]; by rewrite Er, app_nil_r).
    apply Hdone; [| done]. unfold shown. rewrite screen_kprintf by (cbn; lia).
    rewrite (before_same con) by done. cbn [right deleted]. pose proof (shown_delete 0) as Hd. rewrite Er in *.
    cbn [app length Nat.add replicate] in Hd. rewrite (app_comm_cons _ [BS] BS), feeds_app. apply feed_back.
    by rewrite Nat.add_1_r in Hd.
Qed.
End delete.

Lemma backspace_ok :
  refines_key (match left e with [] => e | c :: l => mk_ed l (right e) (hist e) (here e) end) con (key_backspace sh con).
Proof.
  destruct (left e) as [| c l] eqn:El; [| by apply (delete_ok c l)].
  unfold key_backspace. rewrite (ed_curpos _ _ He), El. by exists sh, con.
Qed.
(** A line of the history takes the place of the line. *)
Lemma recall_ok i : (i < length (hist e))%nat → refines_key (ed_recall i e) con (recall (Z.of_nat i) sh con).
Proof.
  intros Hi. destruct (lookup_lt_is_Some_2 (hist e) i Hi) as (h & Eh). destruct (ed_hist _ _ He i h Eh) as [Er Hh].
  unfold recall. rewrite Nat2Z.id, Er. cbn [of_option mbind res_bind]. rewrite row_str by done. cbn [mbind res_bind].
  destruct Hh as [Hl Hv]. rewrite cursor_u8 by lia. unfold shell_handle_history. cbn [line set_line].
  rewrite row_str by done. cbn [mbind res_bind]. unfold ed_recall. rewrite Eh.
  assert (Et : text (mk_ed (reverse h) [] (hist e) i) = h)
    by (unfold text; cbn [left right]; by rewrite reverse_involutive, app_nil_r).
  destruct (prompt_visible con) as [Hpv Hpl]. unfold FINSH_CMD_SIZE in Hl.
  eexists _, _. split; [reflexivity |]. split_and!.
  - destruct He. split; cbn [stat echo_mode line line_position line_curpos history_count current_history cmd_history
      set_line set_history left right hist here]; rewrite ?Et; try done.
    + by rewrite length_reverse.
    + split; [done | lia].
  - unfold shown, before_cursor. cbn [left right]. rewrite reverse_involutive, app_nil_r.
    rewrite screen_kprintf by (rewrite length_app; change (length (finsh_get_prompt _)) with (length (finsh_get_prompt con)); lia).
    rewrite screen_kprintf by (cbn; lia). pose proof (feeds_erase _ _ _ Hs) as H0.
    change (finsh_get_prompt (kprintf _ (kprintf _ con))) with (finsh_get_prompt con).
    change (finsh_get_prompt (kprintf _ con)) with (finsh_get_prompt con).
    apply (feeds_text (finsh_get_prompt con ++ h) _ [] []) in H0; [| by apply Forall_app_2].
    by rewrite drop_nil, app_nil_r in H0.
  - done.
Qed.

Lemma up_ok : refines_key (match here e with O => e | S i => ed_recall i e end) con (key_up sh con).
Proof.
  unfold key_up. destruct (ed_here _ _ He) as [-> Hh]. destruct (here e) as [| i] eqn:E.
  - by exists sh, con.
  - rewrite (proj2 (Z.ltb_lt _ _)) by lia. replace (Z.of_nat (S i) - 1) with (Z.of_nat i) by lia. apply recall_ok. lia.
Qed.

Lemma down_ok :
  refines_key (if (S (here e) <? length (hist e))%nat then ed_recall (S (here e)) e else ed_recall (pred (length (hist e))) e)
    con (key_down sh con).
Proof.
  unfold key_down. destruct (ed_here _ _ He) as [-> Hh]. destruct (ed_count _ _ He) as [-> Hn]. unfold FINSH_HISTORY_LINES in Hn.
  destruct (Nat.ltb_spec (S (here e)) (length (hist e))) as [Hlt | Hge].
  - rewrite (proj2 (Z.ltb_lt _ _)) by lia. replace (u16 (Z.of_nat (here e) + 1)) with (Z.of_nat (S (here e))) by (unfold u16; lia).
    by apply recall_ok.
  - rewrite (proj2 (Z.ltb_ge _ _)) by lia. destruct (length (hist e)) as [| n] eqn:E.
    + cbn [Z.of_nat Z.eqb negb pred]. unfold ed_recall. rewrite lookup_ge_None_2 by lia. by exists sh, con.
    + rewrite (proj2 (Z.eqb_neq _ 0)) by lia. cbn [negb pred]. replace (Z.of_nat (S n) - 1) with (Z.of_nat n) by lia.
      apply recall_ok. lia.
Qed.
End keys.

(** A new prompt. *)
Lemma fresh_line h con : shows (screen con) [] 0 → shown (FINSH_PROMPT con) (mk_ed [] [] h (length h)).
Proof.
  intros Hs. destruct (prompt_visible con) as [Hv Hl]. unfold shown, before_cursor, FINSH_PROMPT. cbn [left right].
  rewrite screen_kprintf by lia. apply (feeds_text (finsh_get_prompt con) _ [] []) in Hs; [| done].
  rewrite drop_nil, app_nil_r in Hs. change (finsh_get_prompt (kprintf _ con)) with (finsh_get_prompt con).
  by rewrite reverse_nil, !app_nil_r.
Qed.

(** ** Keys typed one after the other *)
Lemma set_stat_stat x y sh : set_stat x (set_stat y sh) = set_stat x sh.
Proof. done. Qed.
Section typed.
Context (env : symbols) (run_cmd : Z → list (list Z) → console → res (Z * console)).
Context (call : Z → list Z → gmap Z Z → res (Z * gmap Z Z)) (fuel : nat).
Local Abbreviation read n input := (read_chars env run_cmd call fuel n input).

Lemma arrow_read x op m input sh con :
  (∀ s, shell_char env run_cmd call fuel x input (set_stat WAIT_FUNC_KEY s) con =
     '(s, c) ← op (set_stat WAIT_NORMAL s) con; Ok (input, s, c, false)) →
  read (S (S (S m))) (ESC :: 0x5b :: x :: input) sh con = ('(s, c) ← op (set_stat WAIT_NORMAL sh) con; read m input s c).
Proof.
  intros Hx. change (read (S (S (S m))) (ESC :: 0x5b :: x :: input) sh con) with
    ('(input, s, c, stop) ← shell_char env run_cmd call fuel x input (set_stat WAIT_FUNC_KEY sh) con;
     if (stop : bool) then Ok (input, s, c) else read m input s c).
  rewrite Hx. by destruct (op (set_stat WAIT_NORMAL sh) con) as [[s c] |].
Qed.

Lemma key_read k m input sh con e e' :
  edits sh e → shown con e → key_ok k → edit e k = Some e' →
  ∃ sh' con', read (length (key_bytes k) + m) (key_bytes k ++ input) sh con = read m input sh' con' ∧
    edits sh' e' ∧ shown con' e' ∧ same_world con con'.
Proof.
  intros He Hs Hk Hedit.
  assert (Hst : set_stat WAIT_NORMAL sh = sh) by (pose proof (ed_stat _ _ He) as E; destruct sh; cbn in *; by rewrite E).
  assert (Hgo : ∀ e1 r, edit e k = Some e1 → refines_key e1 con r →
    read (length (key_bytes k) + m) (key_bytes k ++ input) sh con =
      ('(s, c) ← r; read m input s c) →
    ∃ sh' con', read (length (key_bytes k) + m) (key_bytes k ++ input) sh con = read m input sh' con' ∧
      edits sh' e' ∧ shown con' e' ∧ same_world con con').
  { intros e1 r E (sh' & con' & -> & H) ->. rewrite Hedit in E. injection E as <-. by exists sh', con'. }
  destruct k as [c | | | | |]; cbn [edit key_bytes length Nat.add app] in *.
  - destruct (Nat.ltb_spec (S (length (text e))) FINSH_CMD_SIZE) as [Hlt | _]; [| done].
    eapply Hgo; [reflexivity | by apply char_ok |]. cbn [read_chars]. unfold shell_char. cbn in Hk. unfold visible in Hk.
    rewrite (ed_stat _ _ He).
    change (bool_decide (WAIT_NORMAL = WAIT_SPEC_KEY)) with false. change (bool_decide (WAIT_NORMAL = WAIT_FUNC_KEY)) with false.
    cbn [andb]. rewrite Hst. unfold plain_key, ESC, CR, TAB, BS, NL.
    rewrite (proj2 (Z.eqb_neq c 27)), (proj2 (Z.eqb_neq c 13)), (proj2 (Z.eqb_neq c 9)), (proj2 (Z.eqb_neq c 127)),
      (proj2 (Z.eqb_neq c 8)), (proj2 (Z.eqb_neq c 10)) by lia. cbn [orb]. by destruct (key_char c sh con) as [[s1 c1] |].
  - eapply Hgo; [reflexivity | by apply left_ok |].
    rewrite (arrow_read 0x44 (λ s c, Ok (key_left s c))), Hst by done. by destruct (key_left sh con).
  - eapply Hgo; [reflexivity | by apply right_ok |]. by rewrite (arrow_read 0x43 key_right), Hst.
  - eapply Hgo; [reflexivity | by apply backspace_ok |]. cbn [read_chars]. unfold shell_char.
    rewrite (ed_stat _ _ He). change (bool_decide (WAIT_NORMAL = WAIT_SPEC_KEY)) with false.
    change (bool_decide (WAIT_NORMAL = WAIT_FUNC_KEY)) with false. cbn [andb]. rewrite Hst.
    change (0x7f =? ESC) with false. change (0x7f =? CR) with false. change (0x7f =? TAB) with false.
    change ((0x7f =? 0x7f) || (0x7f =? BS)) with true. cbv iota. by destruct (key_backspace sh con) as [[s1 c1] |].
  - eapply Hgo; [reflexivity | by apply up_ok |]. by rewrite (arrow_read 0x41 key_up), Hst.
  - eapply Hgo; [reflexivity | by apply down_ok |]. by rewrite (arrow_read 0x42 key_down), Hst.
Qed.

Definition keys_bytes (ks : list key) : list Z := ks ≫= key_bytes.
Fixpoint edit_all (e : ed) (ks : list key) : option ed :=
  match ks with [] => Some e | k :: ks => e ← edit e k; edit_all e ks end.

Lemma keys_read ks : ∀ m input sh con e e',
  edits sh e → shown con e → Forall key_ok ks → edit_all e ks = Some e' →
  ∃ sh' con', read (length (keys_bytes ks) + m) (keys_bytes ks ++ input) sh con = read m input sh' con' ∧
    edits sh' e' ∧ shown con' e' ∧ same_world con con'.
Proof.
  induction ks as [| k ks IH]; intros m input sh con e e' He Hs Hk Hedit.
  - injection Hedit as <-. by exists sh, con.
  - apply Forall_cons in Hk as [Hk Hks]. apply bind_Some in Hedit as (e1 & E1 & E2).
    unfold keys_bytes in *. cbn [mbind list_bind].
    destruct (key_read k (length (ks ≫= key_bytes) + m) ((ks ≫= key_bytes) ++ input) sh con e e1)
      as (sh1 & con1 & Er & He1 & Hs1 & Hw1); try done.
    destruct (IH m input sh1 con1 e1 e' He1 Hs1 Hks E2) as (sh2 & con2 & Er2 & He2 & Hs2 & Hw2).
    exists sh2, con2. rewrite length_app, <- app_assoc, <- Nat.add_assoc. split_and!; [by rewrite Er | done | done | by etrans].
Qed.

(** ** The enter key *)

(** The history keeps the last five lines; an empty line is not kept. *)
Definition remember (h : list (list Z)) (l : list Z) : list (list Z) :=
  if bool_decide (l = []) then h else drop (S (length h) - FINSH_HISTORY_LINES) (h ++ [l]).
Definition new_line (e : ed) : ed := let h := remember (hist e) (text e) in mk_ed [] [] h (length h).

(** What the line [t] does, [con] being the shell in front of it. *)
Definition run_text (t : list Z) (con : console) : res console :=
  let con1 := kprintf [NL] con in
  if msh_is_used con then
    '(_, _, con) ← msh_exec env run_cmd 0 (Z.of_nat (length t)) (row t) con1; Ok con
  else if bool_decide (t = []) then Ok con1
  else if bool_decide (S (length t) = FINSH_CMD_SIZE) then Stop OutOfBounds
  else
    '(r, p, v) ← finsh_run_line env call fuel (t ++ [chr ";"]) (c_parser con) (c_vm con);
    out ← show_answer r;
    Ok (kprintf out (mk_console (__msh_state con) (printed con1) p v)).

Lemma history_row_ok sh e : edits sh e → history_row sh = Ok (row (text e)).
Proof.
  intros He. unfold history_row. rewrite (ed_position _ _ He), (ed_line _ _ He), Nat2Z.id.
  destruct (ed_text _ _ He) as [Hl _]. unfold row at 1. rewrite take_app_length.
  unfold row. replace FINSH_CMD_SIZE with (length (text e) + (FINSH_CMD_SIZE - length (text e)))%nat at 1 by lia.
  rewrite replicate_add. apply put_chars_at. by rewrite length_replicate.
Qed.

Lemma edits_new sh h :
  stat sh = WAIT_NORMAL → echoes sh = true → history_count sh = Z.of_nat (length h) → (length h <= FINSH_HISTORY_LINES)%nat →
  current_history sh = Z.of_nat (length h) → length (cmd_history sh) = FINSH_HISTORY_LINES →
  (∀ i l, h !! i = Some l → cmd_history sh !! i = Some (row l) ∧ line_ok l) →
  edits (set_line (replicate FINSH_CMD_SIZE 0) 0 0 sh) (mk_ed [] [] h (length h)).
Proof.
  intros. split; try done.
  split; [cbn; unfold FINSH_CMD_SIZE; lia | by apply Forall_nil_2].
Qed.

Lemma push_ok sh e : edits sh e →
  ∃ sh', shell_push_history sh = Ok sh' ∧ line sh' = row (text e) ∧ line_position sh' = Z.of_nat (length (text e)) ∧
    echoes sh' = true ∧ edits (set_line (replicate FINSH_CMD_SIZE 0) 0 0 sh') (new_line e).
Proof.
  intros He. unfold shell_push_history. rewrite (history_row_ok sh e He). pose proof (ed_line _ _ He) as Hline.
  pose proof (ed_position _ _ He) as Hpos.
  destruct (ed_text _ _ He) as [Hl Hv]. destruct (ed_count _ _ He) as [Hc Hc5]. pose proof (ed_rows _ _ He) as Hr.
  pose proof (ed_hist _ _ He) as Hh. pose proof (ed_stat _ _ He). pose proof (ed_echo _ _ He).
  unfold new_line, remember. rewrite Hpos. destruct (text e) as [| c t] eqn:Et.
  - cbn [length Z.of_nat Z.eqb mbind res_bind]. eexists. split; [done |]. split_and!; [done.. |].
    by apply edits_new.
  - rewrite <- Et in *. rewrite (proj2 (Z.eqb_neq _ 0)) by (rewrite Et; cbn; lia).
    rewrite (proj2 (Z.leb_le (Z.of_nat (length (text e))) (Z.of_nat FINSH_CMD_SIZE))) by lia. cbn [require mbind res_bind].
    rewrite bool_decide_eq_false_2 by (by rewrite Et). rewrite Hc. set (t' := text e) in *. clearbody t'. clear Et.
    unfold FINSH_HISTORY_LINES in *. destruct (Z.leb_spec (Z.of_nat 5) (Z.of_nat (length (hist e)))) as [H5 | H5].
    + cbn [mbind res_bind]. eexists. split; [done |]. split_and!; [done.. |].
      replace (S (length (hist e)) - 5)%nat with 1%nat by lia. destruct (hist e) as [| h0 hs] eqn:Eh; [cbn in *; lia |].
      destruct (cmd_history sh) as [| r0 rs] eqn:Ers; [done |]. cbn [drop app length tail] in *.
      assert (Hlen : length (hs ++ [t']) = 5%nat) by (rewrite length_app; cbn; lia).
      rewrite drop_0. apply edits_new; cbn; rewrite ?Hlen; try done; [unfold FINSH_HISTORY_LINES; rewrite length_app; cbn; lia |].
      intros i l [Hi | [Hi Hx]]%lookup_app_Some.
      * destruct (Hh (S i) l Hi) as [Hrow Hlok]. split; [| done]. rewrite lookup_app_l; [done |].
        apply lookup_lt_Some in Hi. lia.
      * apply list_lookup_singleton_Some in Hx as [Hx <-]. rewrite lookup_app_r by lia.
        replace (i - length rs)%nat with 0%nat by lia. by split.
    + cbn [mbind res_bind]. eexists. split; [done |]. split_and!; [done.. |].
      replace (S (length (hist e)) - 5)%nat with 0%nat by lia. rewrite drop_0, Nat2Z.id.
      replace (u16 (Z.of_nat (length (hist e)) + 1)) with (Z.of_nat (length (hist e ++ [t']))) by (rewrite length_app; unfold u16; cbn; lia).
      apply edits_new; cbn; try done; [rewrite length_app; unfold FINSH_HISTORY_LINES; cbn; lia | by rewrite length_insert |].
      intros i l [Hi | [Hi Hx]]%lookup_app_Some.
      * pose proof (lookup_lt_Some _ _ _ Hi). rewrite list_lookup_insert_ne by lia. by apply Hh.
      * apply list_lookup_singleton_Some in Hx as [Hx <-]. replace i with (length (hist e)) by lia.
        rewrite list_lookup_insert_eq by lia. by split.
Qed.

(** The enter key as terminals send it: [\n], [\r\n], [\r\0], or [\r] when
    nothing follows it. *)
Definition ends_line (enter rest : list Z) : Prop :=
  enter = [NL] ∨ enter = [CR; NL] ∨ enter = [CR; 0] ∨ enter = [CR] ∧ rest = [].

Lemma enter_read enter rest sh con :
  stat sh = WAIT_NORMAL → ends_line enter rest →
  read (length (enter ++ rest)) (enter ++ rest) sh con =
    '(sh, con) ← key_enter env run_cmd call fuel sh con; Ok (rest, sh, con).
Proof.
  intros Hst He. assert (Hn : set_stat WAIT_NORMAL sh = sh) by (destruct sh; cbn in *; by rewrite Hst).
  assert (Hgo : ∀ n ch input, shell_char env run_cmd call fuel ch input sh con =
      ('(sh, con) ← key_enter env run_cmd call fuel sh con; Ok (rest, sh, con, true)) →
    read (S n) (ch :: input) sh con = '(sh, con) ← key_enter env run_cmd call fuel sh con; Ok (rest, sh, con)).
  { intros n ch input E. cbn [read_chars]. rewrite E. by destruct (key_enter env run_cmd call fuel sh con) as [[s c] |]. }
  destruct He as [-> | [-> | [-> | [-> ->]]]]; cbn [app length]; apply Hgo; unfold shell_char, plain_key; rewrite Hst;
    change (bool_decide (WAIT_NORMAL = WAIT_SPEC_KEY)) with false; change (bool_decide (WAIT_NORMAL = WAIT_FUNC_KEY)) with false;
    cbn; rewrite Hn; by destruct (key_enter env run_cmd call fuel sh con) as [[s c] |].
Qed.

Lemma row_end t : line_ok t →
  put_char (Z.of_nat (length t)) (chr ";") (row t) = Ok (t ++ chr ";" :: replicate (FINSH_CMD_SIZE - S (length t)) 0).
Proof. intros [Hl _]. rewrite row_snoc by done. by apply put_char_at. Qed.

Lemma enter_ok sh e con :
  edits sh e →
  ∃ sh', edits sh' (new_line e) ∧
    key_enter env run_cmd call fuel sh con = (con ← run_text (text e) con; Ok (sh', FINSH_PROMPT con)).
Proof.
  intros He. pose proof (ed_text _ _ He) as Ht. pose proof Ht as [Hl Hv]. unfold key_enter.
  destruct (push_ok sh e He) as (sh1 & -> & El & Ep & Ee & He1). cbn [mbind res_bind].
  eexists. split; [exact He1 |]. unfold run_text. rewrite El, Ep, Ee. destruct (msh_is_used con).
  - by destruct (msh_exec _ _ _ _ _ _) as [[[r a] c] |].
  - rewrite row_end by done. cbn [mbind res_bind]. destruct (decide (text e = [])) as [-> | Hne].
    + by rewrite bool_decide_eq_true_2.
    + rewrite bool_decide_eq_false_2 by done. rewrite (proj2 (Z.eqb_neq _ 0)).
      2: { destruct (text e); [done | cbn; lia]. }
      cbn [negb]. unfold run_finsh_line. cbn [line set_line]. change (echoes (set_line _ _ _ sh1)) with (echoes sh1). rewrite Ee.
      assert (Hz : Forall (λ c, c ≠ 0) (text e ++ [chr ";"])).
      { apply Forall_app_2; [by apply visible_nonzero | by apply Forall_singleton]. }
      destruct (decide (S (length (text e)) = FINSH_CMD_SIZE)) as [Hfull | Hroom].
      * rewrite bool_decide_eq_true_2 by done. rewrite Hfull, Nat.sub_diag. cbn [replicate].
        unfold c_str. change (0 <? 0) with false. cbv iota. change (Z.to_nat 0) with 0%nat.
        by rewrite drop_0, until_zero_none.
      * rewrite bool_decide_eq_false_2 by done.
        destruct (FINSH_CMD_SIZE - S (length (text e)))%nat as [| n] eqn:En; [lia |]. cbn [replicate].
        pose proof (c_str_at 0 [] (text e ++ [chr ";"]) (replicate n 0) eq_refl Hz) as Hstr. cbn [app] in Hstr.
        rewrite (snoc_app (text e)), Hstr. cbn [mbind res_bind].
        change (c_parser (kprintf [NL] con)) with (c_parser con). change (c_vm (kprintf [NL] con)) with (c_vm con).
        destruct (finsh_run_line _ _ _ _ _ _) as [[[r p] v] |]; [| done]. cbn [mbind res_bind].
        by destruct (show_answer r).
Qed.

(** C16. The shell runs the line that the keys edit.  Whatever is typed of
    characters, cursor keys, backspace and the history keys, as long as no line
    reaches 80 characters on the way and without the tab key, whose completion is
    not an edit, the terminal shows the edited line with its cursor; the enter key
    runs exactly this text, with the module shell or with the expression shell,
    and leaves an empty line and a history of the last five lines that were not
    empty.  The expression shell prints the value of the line, the text of an
    error of the parser, and nothing for a line the compiler refuses.  A line of 79
    characters has no room for the NUL behind the semicolon that it adds. *)
Theorem typed_line_runs sh con e e' ks enter rest :
  edits sh e → shown con e → Forall key_ok ks → edit_all e ks = Some e' → ends_line enter rest →
  ∃ con1 sh', same_world con con1 ∧ shown con1 e' ∧ edits sh' (new_line e') ∧
    shell_read env run_cmd call fuel (keys_bytes ks ++ enter ++ rest) sh con =
      (con2 ← run_text (text e') con1; Ok (rest, sh', FINSH_PROMPT con2)).
Proof.
  intros He Hs Hk Hed Hend. unfold shell_read. rewrite length_app.
  destruct (keys_read ks (length (enter ++ rest)) (enter ++ rest) sh con e e' He Hs Hk Hed)
    as (sh1 & con1 & -> & He1 & Hs1 & Hw).
  destruct (enter_ok sh1 e' con1 He1) as (sh2 & He2 & E).
  exists con1, sh2. split_and!; [done.. |]. rewrite enter_read by (done || apply He1). rewrite E.
  by destruct (run_text (text e') con1).
Qed.

End typed.

(** ** The commands of [Msh] and the functions of [FinshLine] *)
Definition demo_console : console := mk_console true [] (finsh_init demo_cells) (demo_vm 0).
Local Abbreviation demo_session input := (finsh_thread_entry demo_commands demo_run demo_add 40 1 input demo_console).

Definition typed (s : string) : list key := KChar <$> lit s.
(** What is left unread, the line in memory, and what the terminal has received. *)
Definition session_view (r : res (list Z * finsh_shell * console)) : res (list Z * list Z * list Z) :=
  '(input, sh, con) ← r; l ← c_str (line sh) 0; Ok (input, l, printed con).

Lemma demo_start : edits new_shell (mk_ed [] [] [] 0) ∧ shown (FINSH_PROMPT demo_console) (mk_ed [] [] [] 0).
Proof.
  split; [| apply (fresh_line []); split; [by intros [] | done | done]].
  split; try done; [| by vm_compute; split; [| lia]..]. split; [by vm_compute; lia | by apply Forall_nil_2].
Qed.

Lemma typed_line_runs_witness :
  let ks := typed "shwo" ++ [KLeft; KLeft; KChar (chr "o"); KRight; KBackspace; KRight; KBackspace; KChar (chr "w")] ++ typed " a" in
  ∃ con1 sh', edits sh' (mk_ed [] [] [lit "show a"] 1) ∧
    shell_read demo_commands demo_run demo_add 40 (keys_bytes ks ++ [CR; NL] ++ lit "rest") new_shell (FINSH_PROMPT demo_console) =
      (con2 ← run_text demo_commands demo_run demo_add 40 (lit "show a") con1; Ok (lit "rest", sh', FINSH_PROMPT con2)).
Proof.
  intros ks.
  destruct (typed_line_runs demo_commands demo_run demo_add 40 new_shell (FINSH_PROMPT demo_console) (mk_ed [] [] [] 0)
    (mk_ed (reverse (lit "show a")) [] [] 0) ks [CR; NL] (lit "rest") (proj1 demo_start) (proj2 demo_start))
    as (con1 & sh' & _ & _ & He & E).
  - unfold ks, typed. repeat (apply Forall_cons_2; [vm_compute; split; congruence || exact I |]). apply Forall_nil_2.
  - vm_compute. reflexivity.
  - right. left. reflexivity.
  - exists con1, sh'. split; [exact He | exact E].
Defined.

(** Completion, editing, quoted arguments; then the expression shell. *)
Example session_show :
  session_view (demo_session (lit "sho" ++ [TAB; BS] ++ lit "ow a " ++ [QUOTE] ++ lit "b c" ++ [QUOTE; CR])) =
  Ok ([], [], lit "msh >sho" ++ [BS; BS; BS; NL] ++ lit "show" ++ [NL] ++ lit "shot" ++ [NL] ++ lit "msh >sho" ++
    [BS; 32; BS] ++ lit "ow a " ++ [QUOTE] ++ lit "b c" ++ [QUOTE; NL] ++ lit "show|a|b c|" ++ [NL] ++ lit "msh >").
Proof. vm_compute. reflexivity. Qed.

Example session_exit :
  session_view (finsh_thread_entry demo_commands demo_run demo_add 40 2 (lit "exit" ++ [CR; NL] ++ lit "6*7;" ++ [NL]) demo_console) =
  Ok ([], [], lit "msh >exit" ++ [NL] ++ lit "finsh >6*7;" ++ [NL; TAB] ++ lit "'*', 42, 0x0000002a" ++ [NL] ++ lit "finsh >").
Proof. vm_compute. reflexivity. Qed.

(** The expression shell: a value, an error of the parser, one of the compiler. *)
Example session_answers :
  session_view (finsh_thread_entry demo_commands demo_run demo_add 40 4
    (lit "exit" ++ [NL] ++ lit "2" ++ [NL] ++ lit "(1)" ++ [NL] ++ lit "*add(1)=2" ++ [NL]) demo_console) =
  Ok ([], [], lit "msh >exit" ++ [NL] ++ lit "finsh >2" ++ [NL; TAB] ++ lit "2, 0x00000002" ++ [NL] ++
    lit "finsh >(1)" ++ [NL] ++ lit "Invalid token" ++ [NL] ++ lit "finsh >*add(1)=2" ++ [NL] ++ lit "finsh >").
Proof. vm_compute. reflexivity. Qed.

(** ** Where the shell falls short *)

(** The inner loop stops behind a line, and the semaphore counts announcements of
    the driver, not lines: of two lines that arrive together the second waits until
    another character comes. *)
Theorem second_line_waits :
  session_view (demo_session (lit "show" ++ [NL] ++ lit "shot" ++ [NL])) =
  Ok (lit "shot" ++ [NL], [], lit "msh >show" ++ [NL] ++ lit "show|" ++ [NL] ++ lit "msh >").
Proof. vm_compute. reflexivity. Qed.

(** CR is replaced by whatever character has arrived behind it: two lines ended by
    CR alone become one. *)
Theorem cr_is_replaced :
  session_view (demo_session (lit "show" ++ [CR] ++ lit "shot" ++ [CR])) =
  Ok ([], [], lit "msh >showshot" ++ [NL] ++ lit "showshot: command not found." ++ [NL] ++ lit "msh >").
Proof. vm_compute. reflexivity. Qed.

(** The 80th character resets the position but not the array: the next command
    finds no NUL behind its last argument, and a tab none behind the line. *)
Theorem long_line_leaves_its_text :
  let eighty := replicate 80 (chr "x") in
  demo_session (eighty ++ lit "show" ++ [NL]) = Stop OutOfBounds ∧
  demo_session (eighty ++ [TAB]) = Stop OutOfBounds.
Proof. split; vm_compute; reflexivity. Qed.

(** The 80th character typed in the middle of the line is echoed with a line that
    has no NUL. *)
Theorem full_line_echo :
  demo_session (replicate 79 (chr "x") ++ key_bytes KLeft ++ [chr "y"]) = Stop OutOfBounds.
Proof. vm_compute. reflexivity. Qed.

(** More words than [RT_FINSH_ARG_MAX]; a quoted name is looked up with its quotes. *)
Theorem eleven_words :
  demo_session (lit "show 1 2 3 4 5 6 7 8 9 10" ++ [NL]) = Stop OutOfBounds ∧
  session_view (demo_session ([QUOTE] ++ lit "show" ++ [QUOTE; NL])) =
    Ok ([], [], lit "msh >" ++ [QUOTE] ++ lit "show" ++ [QUOTE; NL; QUOTE] ++ lit "show" ++ [QUOTE] ++
      lit ": command not found." ++ [NL] ++ lit "msh >").
Proof. split; vm_compute; reflexivity. Qed.
